(* ===== verification/_CoqProject ===== *)
-Q . S2P
Prelude.v
Chars.v
Civil.v
ExtractFromTime.v
ExtractFacts.v
DateTruncate.v
DateTruncFacts.v
DateAdd.v
DateAddFacts.v
DateTimeParser.v
DateTimeFacts.v
DateTimeLiterals.v
DateTimeProps.v
StateMonad.v
MurmurHash.v
GroupByRuntime.v
GroupByTable.v
GroupByLayouts.v
GroupByProps.v
PerfectHash.v
JoinColumn.v
HashJoinRuntime.v
JoinHashFacts.v
JoinTableFacts.v
JoinProps.v
JoinManyProps.v
NullableOps.v
Aggregates.v
CountDistinct.v
CountDistinctProps.v
CountDistinctSketch.v
IRExpr.v
ExpressionRange.v
GeneratedCode.v
RangeFacts.v
RangeTimes.v
RangeCasts.v
RangeSound.v
RangeProps.v
FilterCode.v
FilterProps.v
FragmentSkip.v
Dispatch.v
ColumnEncoders.v
ArrowImport.v
ArrowStorage.v
Catalog.v
BufferMgr.v
BufferInv.v
BufferFind.v
BufferScan.v
BufferOps.v
BufferClient.v
BufferRW.v
BufferLife.v
BufferFacts.v
BufferProps.v
StringLike.v
StringLikeFacts.v
StringLikeProps.v
DictStorage.v
StringDictionary.v
DictFacts.v
DictOps.v
DictParallel.v
DictQueries.v
DictQueryFacts.v
DictCompareFacts.v
DictBulkFacts.v
DictLife.v
DictProps.v
DictColumns.v
StringDictionaryProxy.v
DictInterface.v
ProxyFacts.v
ProxyUnion.v
ProxyTranslate.v
ProxyMerge.v
ProxyLife.v
ProxyProps.v
