(* ===== verification/Prelude.v ===== *)
(** * HDK / OmniSciDB: a verification library

    HDK is an analytical query engine in C++ ([src/omniscidb]).  Tables are imported into
    chunks of columns; strings are encoded by dictionaries; a query plan is compiled to machine
    code that runs on chunks held by a buffer pool and calls runtime functions for dates,
    strings and hashing.  This library models the parts of the program that compute by
    themselves, from the C++ source, and proves what makes them correct.

    ** Parts and files

    - _Dates_ ([QueryEngine/ExtractFromTime], [DateTruncate], [DateAdd], [DateTimeUtils.h],
      [DateTimeTranslator.h]; generated code calls these functions).  [Civil] is the reference,
      a Gregorian calendar obtained by counting days.  [ExtractFromTime], [DateTruncate] and
      [DateAdd] are the code, every integer wrapped at its width; [ExtractFacts],
      [DateTruncFacts] and [DateAddFacts] compare them with the calendar: fields, weeks,
      truncation to the first second of a period, months added and counted, scaling between
      units with its overflow test.
    - _Date and time literals_ ([Shared/DateTimeParser], [Shared/misc.cpp]; literals of a query
      and imported text).  [Chars] has the character functions and the conversions of [<charconv>]
      and [printf]; [DateTimeParser] is the parser, with the state that stays between the formats
      it tries, and the printing of times.  [DateTimeFacts] and [DateTimeLiterals] relate
      digits, fields and days of the calendar; [DateTimeProps] has the round trips, the value of a
      literal, its meaning under EXTRACT, and inputs that are read in a surprising way.
    - _Group-by tables_ ([QueryEngine/GroupByRuntime.cpp], [RuntimeFunctions.cpp],
      [MurmurHash3Inl.h]; generated code calls these for every row).  [MurmurHash] and
      [GroupByRuntime] are the code, on a memory of cells.  [GroupByTable] has the classes
      [Layout] and [SlotMatcher], what a memory layout promises to linear probing, and proves
      against them that probing assigns rows to keys as the specification [assign] does;
      [GroupByLayouts] discharges them for the row-wise and the columnar layout; [GroupByProps]
      and [PerfectHash] have the properties, with the watchdog and without.
    - _Operators and aggregates_ ([QueryEngine/RuntimeFunctions.cpp], [CountDistinct.h],
      [HyperLogLog*.h], [MurmurHash.cpp]; generated code calls these).  [NullableOps] has the
      arithmetic, comparisons and logic of nullable integers, proved to be those of SQL.
      [Aggregates] has SUM, MIN, MAX, COUNT and SINGLE_VALUE with their reduction, and that the
      division of the rows into fragments does not matter.
      [CountDistinct] has the bitmaps, hash sets and sketches of COUNT(DISTINCT);
      [CountDistinctProps] and [CountDistinctSketch] what their unions count.
    - _Join hash tables_ ([QueryEngine/JoinHashTable/Runtime], [DecodersImpl.h]).
      [JoinColumn] decodes the inner column and reads it in slices; [HashJoinRuntime] fills a perfect hash table,
      as a step relation of threads for one-to-one tables and with the order of the rows as an
      argument for one-to-many tables, and probes it.  [JoinHashFacts]
      and [JoinTableFacts] have the invariants; [JoinProps] and [JoinManyProps]
      show, for every schedule, that a probe finds the rows that an equi-join pairs.
    - _Ranges of expressions_ ([QueryEngine/ExpressionRange], [ArithmeticIR.cpp], [CastIR.cpp],
      [DateTimeIR.cpp]; the ranges decide on hash tables and on the elision of overflow checks).
      [IRExpr] has the types and expressions of the IR; [ExpressionRange] the analysis;
      [GeneratedCode] what the code emitted for integer expressions computes.  [RangeFacts],
      [RangeTimes], [RangeCasts] and [RangeSound] go through the nodes; [RangeProps] has the
      soundness of the ranges, the exactness of arithmetic under each overflow check, and the
      expressions whose ranges are wrong.
    - _Filters_ ([LogicalIR.cpp], [CompareIR.cpp], [RelAlgTranslator.cpp], [NativeCodegen.cpp],
      [ExpressionRewrite.cpp]).
      [FilterCode] splits a condition into conjuncts, rewrites disjunctions of equalities to IN,
      orders the conjuncts and says what the code of AND, OR, NOT, comparisons and IS NULL
      computes; [FilterProps] compares the filter of a query with the condition in three-valued
      logic.
    - _Fragments and kernels_ ([Execute.cpp], [Descriptors/QueryFragmentDescriptor],
      [Dispatchers/]).  [FragmentSkip] excludes fragments by the statistics of their chunks and
      shows that no row that passes the filter is in them; [Dispatch] assigns the others to
      kernels and dispatches these, and shows that every row that passes is in one kernel.
    - _Column encoders_ ([DataMgr/*Encoder.h], [ChunkMetadata.h]).  [ColumnEncoders] has the
      statistics of a chunk, computed by any run of a parallel reduction.
    - _Arrow import and storage_ ([ArrowStorage/]).  [ArrowImport] converts the arrays of Arrow,
      with every access checked against the length of its buffer; [ArrowStorage] cuts the rows
      appended to a table into fragments, merges the first with the last of the table, and
      fetches them again.  A table is shown to be the list of its rows, and the ranges found from
      its metadata to contain them.  [DictColumns] encodes columns of strings by a dictionary.
      [Catalog] ([SchemaMgr/], [createTable], [dropTable]) has the catalogue of tables, columns and
      dictionaries as a state machine, its invariant, what a creation adds and what a failed one
      leaves behind.
    - _Buffer pool_ ([DataMgr/BufferMgr]; holds the chunks).  [BufferMgr] is the code: slabs
      with their lists of segments, the index of chunks, the [Buffer] objects and the bytes of
      the slabs are one state [Mgr]; each member function is a state transformer ([StateMonad])
      that keeps the state a thrown exception leaves.  [BufferInv] has the
      invariant ([layout], [ownership]); [BufferFind] and [BufferScan] the search for space,
      slab allocation and eviction; [BufferOps], [BufferClient], [BufferRW], [BufferLife] the
      operations and what their clients see; [BufferFacts] the clients' protocol as a step
      relation; [BufferProps] the contracts.
    - _LIKE and comparison_ ([Utils/StringLike.cpp]; called by queries and by dictionaries).
      [StringLike] is the code; [StringLikeFacts] gives patterns a meaning and shows that the
      matcher has it; [StringLikeProps] has the properties.
    - _String dictionary_ ([StringDictionary/StringDictionary.cpp]).  [DictStorage] is its
      storage, [StringDictionary] the hash table and the additions, [DictQueries] bulk lookups,
      queries with their caches, translation and recovery.  [DictFacts] says what a dictionary
      stands for: [represents d strs], a list of different strings under their positions.
      [DictOps] and [DictParallel] show that additions, one by one, in bulk and by the parallel
      algorithm, implement that list; [DictQueryFacts], [DictCompareFacts] (with the order of
      strings) and [DictBulkFacts] that queries and bulk operations read it; [DictLife] recovers
      a dictionary from its files and follows it, with all its caches, through any sequence of
      operations, parallel additions included; [DictProps]
      has the properties and the inputs on which the code goes wrong.
    - _String dictionary proxy_ ([StringDictionary/StringDictionaryProxy]; the view of a
      dictionary that a query has).  [DictInterface] states the laws of a dictionary on which a
      proxy rests as classes, with the dictionaries above as instances; [StringDictionaryProxy]
      is the code; [ProxyFacts], [ProxyUnion], [ProxyTranslate], [ProxyMerge] and [ProxyLife]
      prove against the interface what transient strings, unions, translations and mixed
      sequences of operations do; [ProxyProps] has the properties and the edges.

    [Prelude] (this file) has the machine integers ([u32], [s64], ...), the tactics, the hint
    database [hdk] and the [result] type of fallible code; [StateMonad] the state monad.

    ** Conventions

    Names are those of the source, prefixed where two classes share one ([Buffer_write],
    [Proxy_getString]).  A failed [CHECK], a thrown exception, undefined behaviour (an access
    out of range) and a loop that does not end are different values of an error type.  Where
    threads matter, a schedule is an argument: the pieces of a parallel loop with the thread
    that runs each, in any order, or the steps of all threads, one atomic operation each.  Other
    code is a parameter: the memory allocator of the pool ([PoolEnv]), the regular expression
    matcher, the page size and the number of threads ([DictEnv]), the prefix test of Boost
    ([BoostStrings]), the watchdog of a query, floating-point arithmetic ([FpOps],
    [LikelihoodOps]), the slices and decimals of Arrow, and the blocks of a parallel reduction,
    with what is documented of them as classes ([PoolOk], [DictEnvOk], [BoostStringsOk]) or as
    hypotheses of a section.

    ** Bounds

    Loops that are not structural take fuel, and the theorems show it to be enough: a probe of
    the hash table runs for one step more than the table has slots; the matcher of LIKE for one
    more than the length of the pattern; the halving of slab sizes for 70 steps, since a size
    is below 2^64; the binary search for the number of strings in a file for 65; recovery for
    one step per string and one more; [lower_bound] and the merge of sorted caches for the
    length of the caches; a format of the date parser for its length; probing a group-by table
    for its number of entries; a slice of a column for its number of rows; the dispatch for one
    step more than there are kernels.  Running out of fuel is an error of its own, so no theorem
    is true because a loop was cut short.

    ** Not modelled

    The planning of queries (the relational algebra, its optimizer and executor), the emission of
    LLVM code as such, result sets, the recycling caches and the device drivers are orchestration
    around LLVM, Calcite, CUDA and Level Zero; what the emitted code computes is modelled for
    integers, dates, times and conditions, and not for floating point, strings and arrays.  The
    range analysis leaves out [width_bucket].  Floating-point aggregates, windows and quantiles,
    the baseline join tables of composite keys, the code that chooses a hash table, the numbers
    and strings of [IR/Datum.cpp], and the variants for CUDA are left out.  In the storage the
    readers of CSV, JSON and Parquet (calls of Arrow), lists of decimals and of strings and the
    fetching of list columns are left out; appending is modelled
    for columns of integers, booleans, decimals, dates and times.  In the buffer pool,
    [getBuffer] and [fetchBuffer] (the parent manager), the tiered and GPU managers are left
    out, and [clearSlabs] and [deleteBuffersWithPrefix] are modelled without a property.  Files
    ([mmap], [msync]) are the bytes they hold.  Mutexes are not modelled, apart from the order in
    which a translation takes them: an operation under a lock is one step. *)

From Stdlib Require Import ZArith Lia List Bool.
Import ListNotations.

Declare Scope hdk_scope.
Delimit Scope hdk_scope with hdk.
Local Open Scope Z_scope.

(** ** Machine integers

    An integer of the source is a [Z].  [uwrap w] and [swrap w] are the
    conversions to the unsigned and the (two's complement) signed type of
    width [w].  The operations [+], [-] and [*] of an unsigned type are written
    on [Z] and wrapped where the source assigns, compares, divides or indexes:
    wrapping commutes with ring operations, so this is the C++ value.  C++
    [/] and [%] truncate: [Z.quot] and [Z.rem] on signed operands, [Z.div] and
    [Z.modulo] on unsigned ones. *)

Definition uwrap (w z : Z) : Z := z mod 2 ^ w.
Definition swrap (w z : Z) : Z := (z + 2 ^ (w - 1)) mod 2 ^ w - 2 ^ (w - 1).

Definition u8 : Z -> Z := uwrap 8.
Definition u16 : Z -> Z := uwrap 16.
Definition u32 : Z -> Z := uwrap 32.
Definition u64 : Z -> Z := uwrap 64.
Definition s8 : Z -> Z := swrap 8.
Definition s16 : Z -> Z := swrap 16.
Definition s32 : Z -> Z := swrap 32.
Definition s64 : Z -> Z := swrap 64.

Definition INT64_MIN : Z := -9223372036854775808.
Definition INT64_MAX : Z := 9223372036854775807.
Definition INT32_MIN : Z := -2147483648.
Definition INT32_MAX : Z := 2147483647.
Definition UINT32_MAX : Z := 4294967295.
Definition UINT64_MAX : Z := 18446744073709551615.

(** [b2z] is the integral promotion of a C++ [bool]. *)
Definition b2z (b : bool) : Z := if b then 1 else 0.

Lemma uwrap_range w z : 0 <= w -> 0 <= uwrap w z < 2 ^ w.
Proof. intros Hw. apply Z.mod_pos_bound. lia. Qed.

Lemma uwrap_small w z : 0 <= z < 2 ^ w -> uwrap w z = z.
Proof. intros Hz. now apply Z.mod_small. Qed.

Lemma swrap_range w z : 0 < w -> - 2 ^ (w - 1) <= swrap w z < 2 ^ (w - 1).
Proof.
  intros Hw. unfold swrap.
  assert (2 ^ w = 2 * 2 ^ (w - 1)) by (rewrite <- Z.pow_succ_r; [f_equal|]; lia).
  pose proof (Z.mod_pos_bound (z + 2 ^ (w - 1)) (2 ^ w)). lia.
Qed.

Lemma swrap_small w z :
  0 < w -> - 2 ^ (w - 1) <= z < 2 ^ (w - 1) -> swrap w z = z.
Proof.
  intros Hw Hz. unfold swrap.
  assert (2 ^ w = 2 * 2 ^ (w - 1)) by (rewrite <- Z.pow_succ_r; [f_equal|]; lia).
  rewrite Z.mod_small; lia.
Qed.

Lemma u8_small z : 0 <= z < 256 -> u8 z = z.
Proof. exact (uwrap_small 8 z). Qed.
Lemma u16_small z : 0 <= z < 65536 -> u16 z = z.
Proof. exact (uwrap_small 16 z). Qed.
Lemma u32_small z : 0 <= z < 4294967296 -> u32 z = z.
Proof. exact (uwrap_small 32 z). Qed.
Lemma u64_small z : 0 <= z < 18446744073709551616 -> u64 z = z.
Proof. exact (uwrap_small 64 z). Qed.
Lemma s32_small z : -2147483648 <= z < 2147483648 -> s32 z = z.
Proof. exact (swrap_small 32 z eq_refl). Qed.
Lemma s64_small z :
  -9223372036854775808 <= z < 9223372036854775808 -> s64 z = z.
Proof. exact (swrap_small 64 z eq_refl). Qed.

Lemma u32_range z : 0 <= u32 z < 4294967296.
Proof. apply (uwrap_range 32). lia. Qed.
Lemma u64_range z : 0 <= u64 z < 18446744073709551616.
Proof. apply (uwrap_range 64). lia. Qed.
Lemma s64_range z : -9223372036854775808 <= s64 z < 9223372036854775808.
Proof. apply (swrap_range 64). lia. Qed.
Lemma s32_range z : -2147483648 <= s32 z < 2147483648.
Proof. apply (swrap_range 32). lia. Qed.

Create HintDb hdk.
#[export] Hint Resolve u32_range u64_range s32_range s64_range : hdk.

(** [wraps] removes the conversions that [lia] shows to be the identity. *)
Ltac wraps_by tac :=
  repeat first
    [ rewrite s64_small by tac | rewrite u32_small by tac
    | rewrite u64_small by tac | rewrite s32_small by tac
    | rewrite u16_small by tac | rewrite u8_small by tac ].
Ltac wraps := wraps_by lia.

(** [divmod] proves linear goals that mention [/] and [mod] by constants. *)
Ltac divmod := Z.to_euclidean_division_equations; lia.

(** ** Outcomes of fallible operations *)

Inductive result (E A : Type) : Type :=
| Ok (a : A)
| Err (e : E).
Arguments Ok {E A} a.
Arguments Err {E A} e.

Definition rbind {E A B : Type} (r : result E A) (k : A -> result E B) : result E B :=
  match r with
  | Ok a => k a
  | Err e => Err e
  end.

Notation "'let*' x := c 'in' k" := (rbind c (fun x => k))
  (at level 10, x name, c at level 100, k at level 200) : hdk_scope.
Notation "'let*' ' p := c 'in' k" := (rbind c (fun x => match x with p => k end))
  (at level 10, p pattern, c at level 100, k at level 200) : hdk_scope.

Lemma rbind_ok {E A B : Type} (r : result E A) (k : A -> result E B) b :
  rbind r k = Ok b -> exists a, r = Ok a /\ k a = Ok b.
Proof. destruct r; simpl; [eauto | discriminate]. Qed.

Ltac inv_bind H :=
  let a := fresh "a" in let Ha := fresh "Ha" in
  apply rbind_ok in H; destruct H as (a & Ha & H).

(** ** Exhaustive checks over an integer range

    [all_below n f] evaluates [f] at [0 .. n-1]. *)

Fixpoint all_below (n : nat) (f : Z -> bool) : bool :=
  match n with
  | O => true
  | S m => f (Z.of_nat m) && all_below m f
  end.

Lemma all_below_spec n f :
  all_below n f = true -> forall z, 0 <= z < Z.of_nat n -> f z = true.
Proof.
  induction n as [|n IH]; intros Hall z Hz; [lia|].
  cbn [all_below] in Hall. apply andb_true_iff in Hall as [Hn Hrest].
  destruct (Z.eq_dec z (Z.of_nat n)) as [->|]; [exact Hn|].
  apply IH; [exact Hrest | lia].
Qed.

(** [zcases] turns boolean integer tests in the context into propositions. *)
Ltac zbool :=
  repeat match goal with
  | H : context [(?a <? ?b)%Z] |- _ => destruct (Z.ltb_spec a b)
  | H : context [(?a <=? ?b)%Z] |- _ => destruct (Z.leb_spec a b)
  | H : context [(?a =? ?b)%Z] |- _ => destruct (Z.eqb_spec a b)
  | |- context [(?a <? ?b)%Z] => destruct (Z.ltb_spec a b)
  | |- context [(?a <=? ?b)%Z] => destruct (Z.leb_spec a b)
  | |- context [(?a =? ?b)%Z] => destruct (Z.eqb_spec a b)
  end.

(** [closed_div] evaluates the divisions of closed numerals. *)
Ltac closed_div :=
  repeat match goal with
  | |- context [(?a / ?b)%Z] =>
      let v := eval vm_compute in (a / b)%Z in
      lazymatch v with Z0 => idtac | Zpos _ => idtac | Zneg _ => idtac end;
      change (a / b)%Z with v
  | H : context [(?a / ?b)%Z] |- _ =>
      let v := eval vm_compute in (a / b)%Z in
      lazymatch v with Z0 => idtac | Zpos _ => idtac | Zneg _ => idtac end;
      change (a / b)%Z with v in H
  end.

Lemma some_inj {A : Type} (a b : A) : Some a = Some b -> a = b.
Proof. congruence. Qed.
