(* ===== verification/Chars.v ===== *)
(** * Characters and numbers in text

    What the parsers and printers of literals use of the C++ library: the classification of
    characters in the "C" locale, [std::from_chars] on integers and the integer conversions of
    [snprintf].  A [std::string_view] is the list of its characters; [remove_prefix(n)] is
    [skipn n]. *)

From Stdlib Require Import ZArith Lia List Bool Ascii String.
From S2P Require Import Prelude.
Import ListNotations.
Local Open Scope Z_scope.

Abbreviation chars := (list ascii).

(** A C++ string literal. *)
Definition lit (s : string) : chars := list_ascii_of_string s.

(** The code of a character as [unsigned char], and its value as the (signed) type [char]. *)
Definition code (c : ascii) : Z := Z.of_N (N_of_ascii c).
Definition char_value (c : ascii) : Z := swrap 8 (code c).

Definition isdigit (c : ascii) : bool := (48 <=? code c) && (code c <=? 57).
Definition isspace (c : ascii) : bool := (code c =? 32) || ((9 <=? code c) && (code c <=? 13)).

(** [std::tolower] on the value of a [char]. *)
Definition tolower (v : Z) : Z := if (65 <=? v) && (v <=? 90) then v + 32 else v.

Definition digit_value (c : ascii) : Z := code c - 48.

(** ** [std::from_chars]

    The longest run of digits, after a minus sign if the type is signed; [None] when there is
    no digit or the number is not in the range [lo .. hi] of the type.  The second component is
    the number of characters read. *)

Fixpoint scan_digits (s : chars) (acc : Z) : Z * nat :=
  match s with
  | c :: s' =>
      if isdigit c then
        let '(v, n) := scan_digits s' (10 * acc + digit_value c) in (v, S n)
      else (acc, O)
  | [] => (acc, O)
  end.

Definition in_range (lo hi v : Z) : bool := (lo <=? v) && (v <=? hi).

Definition from_chars_unsigned (hi : Z) (s : chars) : option (Z * nat) :=
  match scan_digits s 0 with
  | (_, O) => None
  | (v, n) => if in_range 0 hi v then Some (v, n) else None
  end.

Definition from_chars_signed (lo hi : Z) (s : chars) : option (Z * nat) :=
  let '(neg, t) := match s with
                   | c :: t => if Ascii.eqb c "-" then (true, t) else (false, s)
                   | [] => (false, s)
                   end in
  match scan_digits t 0 with
  | (_, O) => None
  | (v, n) =>
      let v := if neg then - v else v in
      if in_range lo hi v then Some (v, if neg then S n else n) else None
  end.

(** ** [snprintf]

    [to_digits n v] are the last [n] decimal digits of [v]; [decimal v] the digits of [v]
    without leading zeros. *)

Definition digit (d : Z) : ascii := ascii_of_N (Z.to_N (48 + d)).

Fixpoint to_digits (n : nat) (v : Z) : chars :=
  match n with
  | O => []
  | S n' => to_digits n' (v / 10) ++ [digit (v mod 10)]
  end.

(** The number of decimal digits of [v]: at most [fuel]; 20 is enough for 64 bits. *)
Fixpoint ndigits_from (fuel : nat) (v : Z) : nat :=
  match fuel with
  | O => O
  | S fuel' => if v <? 10 then 1%nat else S (ndigits_from fuel' (v / 10))
  end.

Definition ndigits (v : Z) : nat := ndigits_from 20 v.

Definition decimal (v : Z) : chars := to_digits (ndigits v) v.

(** ["%0wu"]: at least [w] digits. *)
Definition printf_u (w : nat) (v : Z) : chars := to_digits (Nat.max w (ndigits v)) v.

(** ["%0wd"]: at least [w] characters, the sign among them. *)
Definition printf_d (w : nat) (v : Z) : chars :=
  if v <? 0 then "-"%char :: printf_u (w - 1) (- v) else printf_u w v.

(** [snprintf(buf, max, ...)] of a text: what the buffer holds as a C string, if it has room
    for one, and the length of the whole text. *)
Definition snprintf (max : Z) (text : chars) : chars * Z :=
  (firstn (Z.to_nat (max - 1)) text, Z.of_nat (List.length text)).

(** ** Facts *)

Lemma code_range c : 0 <= code c < 256.
Proof.
  unfold code. pose proof (N_ascii_bounded c). lia.
Qed.

Lemma code_digit d : 0 <= d <= 9 -> code (digit d) = 48 + d.
Proof.
  intros H. unfold code, digit. rewrite N_ascii_embedding by lia. lia.
Qed.

Lemma isdigit_digit d : 0 <= d <= 9 -> isdigit (digit d) = true.
Proof. intros H. unfold isdigit. rewrite code_digit by lia. zbool; cbn; lia. Qed.

Lemma digit_value_digit d : 0 <= d <= 9 -> digit_value (digit d) = d.
Proof. intros H. unfold digit_value. rewrite code_digit by lia. lia. Qed.

Lemma isdigit_value c : isdigit c = true -> 0 <= digit_value c <= 9.
Proof. unfold isdigit, digit_value. zbool; cbn; lia. Qed.

(** Digits are no spaces and no separators. *)
Lemma isdigit_isspace c : isdigit c = true -> isspace c = false.
Proof. unfold isdigit, isspace. zbool; cbn; try lia; discriminate. Qed.

Lemma isdigit_neq c d : isdigit c = true -> isdigit d = false -> Ascii.eqb c d = false.
Proof. intros Hc Hd. apply Ascii.eqb_neq. intros ->. congruence. Qed.

(** *** Reading digits *)

(** The value of a run of digits. *)
Definition digits_value (s : chars) : Z :=
  fold_left (fun acc c => 10 * acc + digit_value c) s 0.

Definition all_digits (s : chars) : Prop := Forall (fun c => isdigit c = true) s.

(** [stops s]: [s] does not go on with a digit. *)
Definition stops (s : chars) : bool := match s with c :: _ => negb (isdigit c) | [] => true end.

Lemma scan_digits_app s rest acc :
  all_digits s -> stops rest = true ->
  scan_digits (s ++ rest) acc
  = (fold_left (fun acc c => 10 * acc + digit_value c) s acc, List.length s).
Proof.
  intros Hs Hr. revert acc. induction Hs as [|c s Hc Hs IH]; intros acc; cbn.
  - destruct rest as [|r rest]; [reflexivity|]. cbn in *. now destruct (isdigit r).
  - now rewrite Hc, IH.
Qed.

Lemma digits_value_nonneg_acc s acc :
  all_digits s -> 0 <= acc ->
  acc * 10 ^ Z.of_nat (List.length s)
  <= fold_left (fun acc c => 10 * acc + digit_value c) s acc
  < (acc + 1) * 10 ^ Z.of_nat (List.length s).
Proof.
  intros Hs. revert acc. induction Hs as [|c s Hc Hs IH]; intros acc Ha; cbn [fold_left List.length].
  - cbn. lia.
  - pose proof (isdigit_value c Hc) as Bc.
    specialize (IH (10 * acc + digit_value c) ltac:(lia)).
    rewrite Nat2Z.inj_succ, Z.pow_succ_r by lia.
    assert (0 < 10 ^ Z.of_nat (List.length s)) by lia. nia.
Qed.

Lemma digits_value_range s :
  all_digits s -> 0 <= digits_value s < 10 ^ Z.of_nat (List.length s).
Proof.
  intros Hs. pose proof (digits_value_nonneg_acc s 0 Hs ltac:(lia)). unfold digits_value. lia.
Qed.

Lemma from_chars_unsigned_digits hi s rest :
  all_digits s -> s <> [] -> stops rest = true -> digits_value s <= hi ->
  from_chars_unsigned hi (s ++ rest) = Some (digits_value s, List.length s).
Proof.
  intros Hs Hne Hr Hhi. unfold from_chars_unsigned.
  rewrite scan_digits_app by assumption. fold (digits_value s).
  pose proof (digits_value_range s Hs). unfold in_range.
  destruct s as [|c s]; [easy|]. cbn [List.length].
  destruct (Z.leb_spec 0 (digits_value (c :: s))), (Z.leb_spec (digits_value (c :: s)) hi);
    cbn; lia || reflexivity.
Qed.

(** A number that starts with a minus sign or not; [s] are its digits. *)
Definition signed_text (neg : bool) (s : chars) : chars := if neg then "-"%char :: s else s.
Definition signed_value (neg : bool) (s : chars) : Z :=
  if neg then - digits_value s else digits_value s.

Lemma from_chars_signed_digits lo hi neg s rest :
  all_digits s -> s <> [] -> stops rest = true -> lo <= signed_value neg s <= hi ->
  from_chars_signed lo hi (signed_text neg s ++ rest)
  = Some (signed_value neg s, List.length (signed_text neg s)).
Proof.
  intros Hs Hne Hr Hv. unfold from_chars_signed.
  assert (E : (match signed_text neg s ++ rest with
               | c :: t => if Ascii.eqb c "-" then (true, t) else (false, signed_text neg s ++ rest)
               | [] => (false, signed_text neg s ++ rest)
               end) = (neg, s ++ rest)).
  { destruct neg; cbn; [reflexivity|]. destruct s as [|c s]; [easy|]. cbn.
    inversion Hs as [|? ? Hc]; subst. now rewrite (isdigit_neq c "-") by easy. }
  rewrite E, scan_digits_app by assumption. fold (digits_value s).
  assert (In : in_range lo hi (signed_value neg s) = true)
    by (unfold in_range; apply andb_true_iff; lia).
  unfold signed_value in *. destruct s as [|c s]; [easy|]. cbn [List.length].
  destruct neg; rewrite In; reflexivity.
Qed.

(** *** Printing numbers *)

Lemma to_digits_length n v : List.length (to_digits n v) = n.
Proof.
  revert v. induction n as [|n IH]; intros v; cbn; [reflexivity|].
  rewrite length_app, IH. cbn. lia.
Qed.

Lemma to_digits_all n v : all_digits (to_digits n v).
Proof.
  revert v. induction n as [|n IH]; intros v; cbn; [constructor|].
  apply Forall_app. split; [apply IH|]. constructor; [|constructor].
  apply isdigit_digit. pose proof (Z.mod_pos_bound v 10). lia.
Qed.

Lemma to_digits_value n v :
  0 <= v -> digits_value (to_digits n v) = v mod 10 ^ Z.of_nat n.
Proof.
  revert v. induction n as [|n IH]; intros v Hv.
  - cbn. symmetry. apply Z.mod_1_r.
  - cbn [to_digits]. unfold digits_value. rewrite fold_left_app. cbn [fold_left].
    fold (digits_value (to_digits n (v / 10))). rewrite IH by (apply Z.div_pos; lia).
    rewrite digit_value_digit by (pose proof (Z.mod_pos_bound v 10); lia).
    rewrite Nat2Z.inj_succ, Z.pow_succ_r, Z.rem_mul_r by lia. lia.
Qed.

Lemma ndigits_from_bound fuel v :
  0 <= v < 10 ^ Z.of_nat fuel -> (0 < fuel)%nat ->
  v < 10 ^ Z.of_nat (ndigits_from fuel v) /\
  (0 < ndigits_from fuel v <= fuel)%nat.
Proof.
  revert v. induction fuel as [|fuel IH]; intros v Hv Hf; [lia|]. cbn [ndigits_from].
  destruct (Z.ltb_spec v 10); [cbn; lia|].
  rewrite Nat2Z.inj_succ, Z.pow_succ_r in Hv by lia.
  destruct fuel as [|fuel]; [cbn in Hv; lia|].
  destruct (IH (v / 10)) as [IH1 IH2]; [divmod | lia |].
  split; [|lia]. rewrite Nat2Z.inj_succ, Z.pow_succ_r by lia.
  set (p := 10 ^ Z.of_nat (ndigits_from (S fuel) (v / 10))) in *. divmod.
Qed.

Lemma ndigits_bound v :
  0 <= v < 10 ^ 20 -> v < 10 ^ Z.of_nat (ndigits v) /\ (0 < ndigits v <= 20)%nat.
Proof. intros Hv. apply ndigits_from_bound; [exact Hv | lia]. Qed.

Lemma ndigits_le v k :
  0 <= v < 10 ^ Z.of_nat k -> (0 < k)%nat -> (ndigits v <= k)%nat.
Proof.
  unfold ndigits. generalize 20%nat as fuel. intros fuel. revert v k.
  induction fuel as [|fuel IH]; intros v k Hv Hk; [cbn; lia|]. cbn [ndigits_from].
  destruct (Z.ltb_spec v 10); [lia|]. destruct k as [|k]; [lia|].
  enough (ndigits_from fuel (v / 10) <= k)%nat by lia.
  rewrite Nat2Z.inj_succ, Z.pow_succ_r in Hv by lia.
  assert (0 < k)%nat by (destruct k; [cbn in Hv|]; lia).
  apply IH; [|lia]. set (p := 10 ^ Z.of_nat k) in *. divmod.
Qed.

Lemma printf_u_digits w v : all_digits (printf_u w v).
Proof. apply to_digits_all. Qed.

Lemma printf_u_value w v : 0 <= v < 10 ^ 20 -> digits_value (printf_u w v) = v.
Proof.
  intros Hv. unfold printf_u. rewrite to_digits_value by lia. apply Z.mod_small.
  destruct (ndigits_bound v Hv) as [Hb _]. split; [lia|].
  eapply Z.lt_le_trans; [exact Hb|]. apply Z.pow_le_mono_r; lia.
Qed.

Lemma printf_u_length w v : List.length (printf_u w v) = Nat.max w (ndigits v).
Proof. apply to_digits_length. Qed.

Lemma printf_u_nonempty w v : 0 <= v < 10 ^ 20 -> printf_u w v <> [].
Proof.
  intros Hv E. apply (f_equal (@List.length ascii)) in E. rewrite printf_u_length in E.
  destruct (ndigits_bound v Hv). cbn [List.length] in E. lia.
Qed.

(** A field of two digits. *)
Lemma printf_u_2 v : 0 <= v < 100 -> printf_u 2 v = to_digits 2 v.
Proof.
  intros Hv. unfold printf_u. f_equal. pose proof (ndigits_le v 2 ltac:(cbn; lia) ltac:(lia)). lia.
Qed.

(** A printed number is a sign and digits with its value. *)
Lemma printf_d_text w v :
  - 10 ^ 20 < v < 10 ^ 20 ->
  exists s, printf_d w v = signed_text (v <? 0) s /\ all_digits s /\ s <> [] /\
            signed_value (v <? 0) s = v.
Proof.
  intros Hv. unfold printf_d. destruct (Z.ltb_spec v 0).
  - exists (printf_u (w - 1) (- v)).
    split; [reflexivity|]. split; [apply printf_u_digits|].
    split; [apply printf_u_nonempty; lia|]. cbn. rewrite printf_u_value; lia.
  - exists (printf_u w v).
    split; [reflexivity|]. split; [apply printf_u_digits|].
    split; [apply printf_u_nonempty; lia|]. cbn. rewrite printf_u_value; lia.
Qed.

(** A text that fits is held whole. *)
Lemma snprintf_fits max text :
  Z.of_nat (List.length text) < max -> snprintf max text = (text, Z.of_nat (List.length text)).
Proof.
  intros H. unfold snprintf. f_equal. apply firstn_all2. lia.
Qed.
