(* ===== verification/Civil.v ===== *)
(** * The proleptic Gregorian calendar

    The reference the date routines are compared with.  It is built by counting:
    month lengths and the leap rule give year lengths, and the day number of a date
    is obtained by adding up whole years from (or back to) 1970 and whole months.
    The closed forms used in proofs are lemmas. *)

From Stdlib Require Import ZArith Lia List Bool.
From S2P Require Import Prelude.
Local Open Scope Z_scope.

Definition is_leap (y : Z) : bool :=
  (y mod 4 =? 0) && (negb (y mod 100 =? 0) || (y mod 400 =? 0)).

Definition days_in_month (y m : Z) : Z :=
  if m =? 2 then 28 + b2z (is_leap y)
  else if (m =? 4) || (m =? 6) || (m =? 9) || (m =? 11) then 30 else 31.

(** Days of the [n] months of year [y] that start with month [m]. *)
Fixpoint months_days (n : nat) (y m : Z) : Z :=
  match n with
  | O => 0
  | S n => days_in_month y m + months_days n y (m + 1)
  end.

Definition year_days (y : Z) : Z := months_days 12 y 1.

(** Days of the [n] years that start with year [y]. *)
Fixpoint years_days (n : nat) (y : Z) : Z :=
  match n with
  | O => 0
  | S n => year_days y + years_days n (y + 1)
  end.

(** Day number, counted from 1970-01-01, of January 1 of year [y]. *)
Definition jan1 (y : Z) : Z :=
  if 1970 <=? y then years_days (Z.to_nat (y - 1970)) 1970
  else - years_days (Z.to_nat (1970 - y)) y.

Definition days_before_month (y m : Z) : Z := months_days (Z.to_nat (m - 1)) y 1.

(** Day number of the date [y]-[m]-[d]. *)
Definition day_number (y m d : Z) : Z := jan1 y + days_before_month y m + (d - 1).

Definition valid_date (y m d : Z) : Prop :=
  1 <= m <= 12 /\ 1 <= d <= days_in_month y m.

(** ** Closed forms *)

Lemma is_leap_spec y :
  b2z (is_leap y) = (y / 4 - (y - 1) / 4) - (y / 100 - (y - 1) / 100)
                    + (y / 400 - (y - 1) / 400).
Proof. unfold is_leap. zbool; cbn; divmod. Qed.

Lemma is_leap_400 y k : is_leap (y + 400 * k) = is_leap y.
Proof.
  unfold is_leap.
  replace ((y + 400 * k) mod 4) with (y mod 4) by divmod.
  replace ((y + 400 * k) mod 100) with (y mod 100) by divmod.
  replace ((y + 400 * k) mod 400) with (y mod 400) by divmod.
  reflexivity.
Qed.

Lemma year_days_leap y : year_days y = 365 + b2z (is_leap y).
Proof. unfold year_days, months_days, days_in_month. destruct (is_leap y); reflexivity. Qed.

Definition jan1_closed (y : Z) : Z :=
  365 * (y - 1970) + ((y - 1) / 4 - 492) - ((y - 1) / 100 - 19) + ((y - 1) / 400 - 4).

Lemma years_days_closed n y :
  years_days n y = jan1_closed (y + Z.of_nat n) - jan1_closed y.
Proof.
  revert y. induction n as [|n IH]; intros y.
  - cbn [years_days]. rewrite Z.add_0_r. lia.
  - cbn [years_days]. rewrite IH, year_days_leap, is_leap_spec.
    unfold jan1_closed. rewrite Nat2Z.inj_succ.
    replace (y + 1 + Z.of_nat n) with (y + Z.succ (Z.of_nat n)) by lia.
    replace (y + 1 - 1) with y by lia. lia.
Qed.

Lemma jan1_eq y : jan1 y = jan1_closed y.
Proof.
  unfold jan1. destruct (Z.leb_spec 1970 y); rewrite years_days_closed, Z2Nat.id by lia.
  - replace (1970 + (y - 1970)) with y by lia. change (jan1_closed 1970) with 0. lia.
  - replace (y + (1970 - y)) with 1970 by lia. change (jan1_closed 1970) with 0. lia.
Qed.

Lemma jan1_succ y : jan1 (y + 1) = jan1 y + 365 + b2z (is_leap y).
Proof.
  rewrite !jan1_eq, is_leap_spec. unfold jan1_closed.
  replace (y + 1 - 1) with y by lia. lia.
Qed.

Lemma jan1_400 y k : jan1 (y + 400 * k) = jan1 y + 146097 * k.
Proof. rewrite !jan1_eq. unfold jan1_closed. divmod. Qed.

Lemma jan1_mono y z : y <= z -> jan1 y <= jan1 z.
Proof. intros H. rewrite !jan1_eq. unfold jan1_closed. divmod. Qed.

Lemma days_in_month_bounds y m : 28 <= days_in_month y m <= 31.
Proof.
  unfold days_in_month, b2z. destruct (is_leap y); zbool; cbn; lia.
Qed.

(** ** A date is determined by its day number *)

Lemma days_before_month_succ y m :
  1 <= m -> days_before_month y (m + 1) = days_before_month y m + days_in_month y m.
Proof.
  intros Hm. unfold days_before_month.
  replace (Z.to_nat (m + 1 - 1)) with (S (Z.to_nat (m - 1))) by lia.
  assert (Hgen : forall n k, months_days (S n) y k
                 = months_days n y k + days_in_month y (k + Z.of_nat n)).
  { induction n as [|n IH]; intros k.
    - cbn [months_days]. rewrite !Z.add_0_r. lia.
    - change (months_days (S (S n)) y k)
        with (days_in_month y k + months_days (S n) y (k + 1)).
      rewrite IH. change (months_days (S n) y k)
        with (days_in_month y k + months_days n y (k + 1)).
      replace (k + 1 + Z.of_nat n) with (k + Z.of_nat (S n)) by lia. lia. }
  rewrite Hgen. do 2 f_equal. lia.
Qed.

Lemma days_before_month_mono y m n :
  1 <= m <= n -> days_before_month y m <= days_before_month y n.
Proof.
  intros [Hm Hn]. revert n Hn. refine (Zlt_lower_bound_ind _ m _). intros n IH Hn.
  destruct (Z.eq_dec m n) as [->|]; [lia|].
  specialize (IH (n - 1) ltac:(lia)).
  pose proof (days_before_month_succ y (n - 1) ltac:(lia)) as Hs.
  replace (n - 1 + 1) with n in Hs by lia.
  pose proof (days_in_month_bounds y (n - 1)). lia.
Qed.

Lemma days_before_month_year y m d :
  valid_date y m d ->
  0 <= days_before_month y m + (d - 1) < 365 + b2z (is_leap y).
Proof.
  intros [Hm Hd].
  pose proof (days_before_month_mono y 1 m ltac:(lia)) as H1.
  pose proof (days_before_month_succ y m ltac:(lia)) as H2.
  pose proof (days_before_month_mono y (m + 1) 13 ltac:(lia)) as H3.
  change (days_before_month y 13) with (year_days y) in H3.
  rewrite year_days_leap in H3.
  change (days_before_month y 1) with 0 in H1. lia.
Qed.

Lemma day_number_inj y m d y' m' d' :
  valid_date y m d -> valid_date y' m' d' ->
  day_number y m d = day_number y' m' d' -> y = y' /\ m = m' /\ d = d'.
Proof.
  intros V V' E. unfold day_number in E.
  pose proof (days_before_month_year _ _ _ V) as B.
  pose proof (days_before_month_year _ _ _ V') as B'.
  assert (y = y') as <-.
  { destruct (Z.lt_trichotomy y y') as [L|[?|L]]; [exfalso|assumption|exfalso].
    - pose proof (jan1_mono (y + 1) y' ltac:(lia)). rewrite jan1_succ in *. lia.
    - pose proof (jan1_mono (y' + 1) y ltac:(lia)). rewrite jan1_succ in *. lia. }
  destruct V as [Vm Vd], V' as [Vm' Vd'].
  assert (m = m') as <-.
  { destruct (Z.lt_trichotomy m m') as [L|[?|L]]; [exfalso|assumption|exfalso].
    - pose proof (days_before_month_mono y (m + 1) m' ltac:(lia)).
      rewrite days_before_month_succ in * by lia. lia.
    - pose proof (days_before_month_mono y (m' + 1) m ltac:(lia)).
      rewrite days_before_month_succ in * by lia. lia. }
  lia.
Qed.

Lemma days_before_month_closed y m :
  1 <= m <= 12 ->
  days_before_month y m
  = (367 * m - 362) / 12 + (if m <=? 2 then 0 else b2z (is_leap y) - 2).
Proof.
  intros H.
  assert (Hc : m = 1 \/ m = 2 \/ m = 3 \/ m = 4 \/ m = 5 \/ m = 6 \/ m = 7 \/ m = 8
               \/ m = 9 \/ m = 10 \/ m = 11 \/ m = 12) by lia.
  unfold days_before_month.
  repeat match type of Hc with _ \/ _ => destruct Hc as [Hc|Hc] end; subst m;
    cbv -[is_leap]; destruct (is_leap y); reflexivity.
Qed.

Lemma day_number_closed y m d :
  1 <= m <= 12 ->
  day_number y m d
  = jan1_closed y + ((367 * m - 362) / 12
      + (if m <=? 2 then 0 else b2z (is_leap y) - 2)) + (d - 1).
Proof.
  intros H. unfold day_number. now rewrite jan1_eq, days_before_month_closed.
Qed.
