(* ===== verification/ExtractFromTime.v ===== *)
(** * Extraction of calendar fields from a Unix time

    Model of [QueryEngine/ExtractFromTime.h] and [QueryEngine/ExtractFromTime.cpp]:
    the constants, [floor_div] and [unsigned_mod], every [extract_*] function with
    its 32-bit fast path, and the dispatcher [ExtractFromTime].  An [int64_t] is a
    [Z] wrapped by [s64], an [unsigned]/[uint32_t] is wrapped by [u32]. *)

From Stdlib Require Import ZArith Lia List Bool.
From S2P Require Import Prelude.
Import ListNotations.
Local Open Scope Z_scope.

(** ** [IR/DateTimeEnums.h] *)

Inductive TimeUnit := TU_kMonth | TU_kDay | TU_kSecond | TU_kMilli | TU_kMicro | TU_kNano.

Inductive DateAddField :=
| DA_kYear | DA_kQuarter | DA_kMonth | DA_kDay | DA_kHour | DA_kMinute | DA_kSecond
| DA_kMillennium | DA_kCentury | DA_kDecade | DA_kMilli | DA_kMicro | DA_kNano
| DA_kWeek | DA_kQuarterDay | DA_kWeekDay | DA_kDayOfYear | DA_kInvalid.

Inductive DateTruncField :=
| DT_kYear | DT_kQuarter | DT_kMonth | DT_kDay | DT_kHour | DT_kMinute | DT_kSecond
| DT_kMilli | DT_kMicro | DT_kNano | DT_kMillennium | DT_kCentury | DT_kDecade
| DT_kWeek | DT_kWeekSunday | DT_kWeekSaturday | DT_kQuarterDay | DT_kInvalid.

Inductive DateExtractField :=
| DE_kYear | DE_kQuarter | DE_kMonth | DE_kDay | DE_kHour | DE_kMinute | DE_kSecond
| DE_kMilli | DE_kMicro | DE_kNano | DE_kDayOfWeek | DE_kIsoDayOfWeek | DE_kDayOfYear
| DE_kEpoch | DE_kQuarterDay | DE_kWeek | DE_kWeekSunday | DE_kWeekSaturday
| DE_kDateEpoch.

(** ** [ExtractFromTime.h] *)

Definition kNanoSecsPerSec : Z := 1000000000.
Definition kMicroSecsPerSec : Z := 1000000.
Definition kMilliSecsPerSec : Z := 1000.
Definition kSecsPerMin : Z := 60.
Definition kSecsPerHour : Z := 3600.
Definition kSecsPerDay : Z := 86400.
Definition kSecsPerQuarterDay : Z := 21600.
Definition kDaysPerWeek : Z := 7.
Definition kMonsPerYear : Z := 12.
Definition kEpochAdjustedDays : Z := 11017.
Definition kDaysPer400Years : Z := 146097.
Definition kSecondsPerNonLeapYear : Z := 31536000.
Definition kSecondsPer4YearCycle : Z := 126230400.
Definition kUSecsPerDay : Z := 86400.
Definition kEpochOffsetYear1900 : Z := 2208988800.
Definition kSecsJanToMar1900 : Z := 5097600.
Definition MARJAN : Z := 31 + 30 + 31 + 30 + 31 + 31 + 30 + 31 + 30 + 31.
Definition JANMAR : Z := 31 + 28.

Ltac consts :=
  unfold kNanoSecsPerSec, kMicroSecsPerSec, kMilliSecsPerSec, kSecsPerMin,
    kSecsPerHour, kSecsPerDay, kSecsPerQuarterDay, kDaysPerWeek, kMonsPerYear,
    kEpochAdjustedDays, kDaysPer400Years, kSecondsPerNonLeapYear,
    kSecondsPer4YearCycle, kUSecsPerDay, kEpochOffsetYear1900, kSecsJanToMar1900,
    MARJAN, JANMAR, INT64_MIN, INT64_MAX, INT32_MIN, INT32_MAX, UINT32_MAX in *.

Definition floor_div (dividend divisor : Z) : Z :=
  Z.quot (if dividend <? 0 then s64 (dividend - (divisor - 1)) else dividend) divisor.

Definition unsigned_mod (dividend divisor : Z) : Z :=
  let mod_ := Z.rem dividend divisor in
  if mod_ <? 0 then mod_ + divisor else mod_.

(** ** [ExtractFromTime.cpp] *)

Definition MONDAY : Z := 2.
Definition SUNDAY : Z := 3.
Definition SATURDAY : Z := 4.

Definition week_start_from_yoe (OFFSET yoe : Z) : Z :=
  let march1 := u32 (yoe * 365 + yoe / 4 - yoe / 100) in
  let jan4 := u32 (march1 + (MARJAN + 3)) in
  let jan4dow := u32 (jan4 + OFFSET) mod 7 in
  u32 (jan4 - jan4dow).

Definition extract_hour (lcltime : Z) : Z :=
  Z.quot (unsigned_mod lcltime kSecsPerDay) kSecsPerHour.

Definition extract_minute (lcltime : Z) : Z :=
  Z.quot (unsigned_mod lcltime kSecsPerHour) kSecsPerMin.

Definition extract_second (lcltime : Z) : Z := unsigned_mod lcltime kSecsPerMin.

Definition extract_millisecond (lcltime : Z) : Z :=
  unsigned_mod lcltime (kSecsPerMin * kMilliSecsPerSec).

Definition extract_microsecond (lcltime : Z) : Z :=
  unsigned_mod lcltime (kSecsPerMin * kMicroSecsPerSec).

Definition extract_nanosecond (lcltime : Z) : Z :=
  unsigned_mod lcltime (kSecsPerMin * kNanoSecsPerSec).

Definition extract_dow (lcltime : Z) : Z :=
  let days_past_epoch := floor_div lcltime kSecsPerDay in
  unsigned_mod (s64 (days_past_epoch + 4)) kDaysPerWeek.

Definition extract_quarterday (lcltime : Z) : Z :=
  Z.quot (unsigned_mod lcltime kSecsPerDay) kSecsPerQuarterDay + 1.

Definition cumulative_month_epoch_starts : list Z :=
  [0; 2678400; 5270400; 7948800; 10540800; 13219200; 15897600; 18489600; 21168000;
   23760000; 26438400; 29116800].

Definition cumulative_quarter_epoch_starts : list Z := [0; 7776000; 15638400; 23587200].
Definition cumulative_quarter_epoch_starts_leap_year : list Z :=
  [0; 7862400; 15724800; 23673600].

(** Array read at a [uint32_t] index. *)
Definition at_ (l : list Z) (i : Z) : Z := nth (Z.to_nat i) l 0.

Definition extract_month_fast (lcltime : Z) : Z :=
  let seconds_march_1900 := u32 (lcltime + kEpochOffsetYear1900 - kSecsJanToMar1900) in
  let seconds_past_4year_period := seconds_march_1900 mod kSecondsPer4YearCycle in
  let year_seconds_past_4year_period :=
    u32 ((seconds_past_4year_period / kSecondsPerNonLeapYear) * kSecondsPerNonLeapYear) in
  let year_seconds_past_4year_period :=
    if kSecondsPer4YearCycle - kUSecsPerDay <=? seconds_past_4year_period
    then u32 (year_seconds_past_4year_period - kSecondsPerNonLeapYear)
    else year_seconds_past_4year_period in
  let seconds_past_march := u32 (seconds_past_4year_period - year_seconds_past_4year_period) in
  let month := seconds_past_march / (30 * kUSecsPerDay) in
  let month := if month <=? 11 then month else 11 in
  let month :=
    if seconds_past_march <? at_ cumulative_month_epoch_starts month
    then u32 (month - 1) else month in
  u32 (month + 2) mod 12 + 1.

Definition extract_quarter_fast (lcltime : Z) : Z :=
  let seconds_1900 := u32 (lcltime + kEpochOffsetYear1900) in
  let leap_years := u32 (seconds_1900 - kSecsJanToMar1900) / kSecondsPer4YearCycle in
  let year :=
    u32 (Z.quot (s64 (seconds_1900 - leap_years * kSecsPerDay)) kSecondsPerNonLeapYear) in
  let base_year_leap_years := u32 (year - 1) / 4 in
  let base_year_seconds :=
    u32 (year * kSecondsPerNonLeapYear + base_year_leap_years * kUSecsPerDay) in
  let is_leap_year := (year mod 4 =? 0) && negb (year =? 0) in
  let quarter_offsets :=
    if is_leap_year then cumulative_quarter_epoch_starts_leap_year
    else cumulative_quarter_epoch_starts in
  let partial_year_seconds := seconds_1900 mod base_year_seconds in
  let quarter := partial_year_seconds / (90 * kUSecsPerDay) in
  let quarter := if quarter <=? 3 then quarter else 3 in
  let quarter :=
    if partial_year_seconds <? at_ quarter_offsets quarter
    then u32 (quarter - 1) else quarter in
  s32 (quarter + 1).

Definition extract_year_fast (lcltime : Z) : Z :=
  let seconds_1900 := u32 (lcltime + kEpochOffsetYear1900) in
  let leap_years := u32 (seconds_1900 - kSecsJanToMar1900) / kSecondsPer4YearCycle in
  let year :=
    u32 (u32 (seconds_1900 - leap_years * kUSecsPerDay) / kSecondsPerNonLeapYear + 1900) in
  s32 year.

Definition extract_epoch (timeval : Z) : Z := timeval.

Definition extract_dateepoch (timeval : Z) : Z :=
  s64 (timeval - unsigned_mod timeval kSecsPerDay).

Definition extract_isodow (timeval : Z) : Z :=
  let days_past_epoch := floor_div timeval kSecsPerDay in
  unsigned_mod (s64 (days_past_epoch + 3)) kDaysPerWeek + 1.

(** The day of a 400-year era (starting 2000-03-01), the year of the era and the day
    of the March-based year: the four lines every slow path of the source starts with. *)
Definition day_of_era (day : Z) : Z :=
  u32 (unsigned_mod (s64 (day - kEpochAdjustedDays)) kDaysPer400Years).

Definition year_of_era (doe : Z) : Z :=
  u32 (doe - doe / 1460 + doe / 36524 - b2z (doe =? 146096)) / 365.

Definition day_of_year (doe yoe : Z) : Z :=
  u32 (doe - (365 * yoe + yoe / 4 - yoe / 100)).

Definition month_of_year (doy : Z) : Z := u32 (5 * doy + 2) / 153.

Definition extract_day (timeval : Z) : Z :=
  let day := floor_div timeval kSecsPerDay in
  let doe := day_of_era day in
  let yoe := year_of_era doe in
  let doy := day_of_year doe yoe in
  let moy := month_of_year doy in
  u32 (doy - u32 (153 * moy + 2) / 5 + 1).

Definition extract_day_of_year (timeval : Z) : Z :=
  let day := floor_div timeval kSecsPerDay in
  let doe := day_of_era day in
  let yoe := year_of_era doe in
  let doy := day_of_year doe yoe in
  u32 (doy + (if doy <? MARJAN
              then 1 + JANMAR
                   + b2z ((yoe mod 4 =? 0) && (negb (yoe mod 100 =? 0) || (yoe =? 0)))
              else 1 - MARJAN)).

Definition extract_week (OFFSET timeval : Z) : Z :=
  let day := floor_div timeval kSecsPerDay in
  let doe := day_of_era day in
  let yoe := year_of_era doe in
  let week_start := week_start_from_yoe OFFSET yoe in
  if doe <? week_start then
    if yoe =? 0 then u32 (u32 (doe + OFFSET) / 7 + 9)
    else
      let week_start := week_start_from_yoe OFFSET (u32 (yoe - 1)) in
      u32 (u32 (doe - week_start) / 7 + 1)
  else u32 (u32 (doe - week_start) / 7 + 1).

Definition extract_week_monday (timeval : Z) : Z := extract_week MONDAY timeval.
Definition extract_week_sunday (timeval : Z) : Z := extract_week SUNDAY timeval.
Definition extract_week_saturday (timeval : Z) : Z := extract_week SATURDAY timeval.

(** The guard of every 32-bit fast path: 1970-01-01 to 2036-02-07 06:28:15. *)
Definition fast_path (timeval : Z) : bool :=
  (0 <=? timeval) && (timeval <=? u32 (UINT32_MAX - kEpochOffsetYear1900)).

Definition extract_month (timeval : Z) : Z :=
  if fast_path timeval then extract_month_fast timeval
  else
    let day := floor_div timeval kSecsPerDay in
    let doe := day_of_era day in
    let yoe := year_of_era doe in
    let doy := day_of_year doe yoe in
    let moy := month_of_year doy in
    u32 (moy + (if moy <? 10 then 3 else -9)).

Definition quarter_of_moy : list Z := [1; 2; 2; 2; 3; 3; 3; 4; 4; 4; 1; 1].

Definition extract_quarter (timeval : Z) : Z :=
  if fast_path timeval then extract_quarter_fast timeval
  else
    let day := floor_div timeval kSecsPerDay in
    let doe := day_of_era day in
    let yoe := year_of_era doe in
    let doy := day_of_year doe yoe in
    let moy := month_of_year doy in
    at_ quarter_of_moy moy.

Definition extract_year (timeval : Z) : Z :=
  if fast_path timeval then extract_year_fast timeval
  else
    let day := floor_div timeval kSecsPerDay in
    let era := floor_div (s64 (day - kEpochAdjustedDays)) kDaysPer400Years in
    let doe := u32 (day - kEpochAdjustedDays - era * kDaysPer400Years) in
    let yoe := year_of_era doe in
    let doy := day_of_year doe yoe in
    s64 (2000 + era * 400 + yoe + b2z (MARJAN <=? doy)).

Definition ExtractFromTime (field : DateExtractField) (timeval : Z) : Z :=
  match field with
  | DE_kEpoch => extract_epoch timeval
  | DE_kDateEpoch => extract_dateepoch timeval
  | DE_kQuarterDay => extract_quarterday timeval
  | DE_kHour => extract_hour timeval
  | DE_kMinute => extract_minute timeval
  | DE_kSecond => extract_second timeval
  | DE_kMilli => extract_millisecond timeval
  | DE_kMicro => extract_microsecond timeval
  | DE_kNano => extract_nanosecond timeval
  | DE_kDayOfWeek => extract_dow timeval
  | DE_kIsoDayOfWeek => extract_isodow timeval
  | DE_kDay => extract_day timeval
  | DE_kWeek => extract_week_monday timeval
  | DE_kWeekSunday => extract_week_sunday timeval
  | DE_kWeekSaturday => extract_week_saturday timeval
  | DE_kDayOfYear => extract_day_of_year timeval
  | DE_kMonth => extract_month timeval
  | DE_kQuarter => extract_quarter timeval
  | DE_kYear => extract_year timeval
  end.
