(* ===== verification/ExtractFacts.v ===== *)
(** * Correctness of the field extraction

    [floor_div] and [unsigned_mod] are floor division and modulus; the 400-year-era
    arithmetic and the 32-bit fast paths compute the Gregorian date of [Civil]. *)

From Stdlib Require Import ZArith Lia List Bool.
From S2P Require Import Prelude Civil ExtractFromTime.
Import ListNotations.
Local Open Scope Z_scope.

(** The times for which [floor_div _ kSecsPerDay] does not overflow. *)
Definition time_ok (t : Z) : Prop := INT64_MIN + 86399 <= t <= INT64_MAX.

(** ** Division *)

Lemma floor_div_spec t d :
  0 < d -> INT64_MIN + (d - 1) <= t <= INT64_MAX -> floor_div t d = t / d.
Proof.
  intros Hd Ht. unfold floor_div. consts. destruct (Z.ltb_spec t 0).
  - rewrite s64_small by lia.
    apply (Z.div_unique_pos t d _ (t - d * Z.quot (t - (d - 1)) d)); [|lia].
    pose proof (Z.quot_rem' (t - (d - 1)) d) as E.
    pose proof (Z.rem_bound_pos_neg (t - (d - 1)) d Hd ltac:(lia)). lia.
  - apply Z.quot_div_nonneg; lia.
Qed.

Lemma unsigned_mod_spec t d : 0 < d -> unsigned_mod t d = t mod d.
Proof.
  intros Hd. unfold unsigned_mod.
  pose proof (Z.quot_rem' t d) as E.
  pose proof (Z.rem_bound_abs t d ltac:(lia)).
  destruct (Z.ltb_spec (Z.rem t d) 0).
  - apply (Z.mod_unique_pos t d (Z.quot t d - 1)); lia.
  - apply (Z.mod_unique_pos t d (Z.quot t d)); lia.
Qed.

Lemma time_ok_day t :
  time_ok t ->
  floor_div t kSecsPerDay = t / 86400 /\
  -106751991167301 <= t / 86400 <= 106751991167300.
Proof.
  intros Ht. split; [apply floor_div_spec; unfold time_ok in Ht; consts; lia|].
  unfold time_ok in Ht; consts. divmod.
Qed.

(** ** The 400-year era *)

(** First day of year [yoe] of an era. *)
Definition yoe_start (yoe : Z) : Z := 365 * yoe + yoe / 4 - yoe / 100.

(** The year of the era that starts in March of 2000 + [yoe] has a leap day at its end
    when 2001 + [yoe] is a leap year. *)
Definition yoe_leap (yoe : Z) : Z := b2z (is_leap (yoe + 1)).

Lemma yoe_start_succ yoe :
  0 <= yoe < 399 -> yoe_start (yoe + 1) = yoe_start yoe + 365 + yoe_leap yoe.
Proof.
  intros H. unfold yoe_start, yoe_leap. rewrite is_leap_spec.
  replace (yoe + 1 - 1) with yoe by lia. divmod.
Qed.

Lemma day_of_era_spec day :
  -106751991167301 <= day <= 106751991167300 ->
  day_of_era day = (day - 11017) mod 146097.
Proof.
  intros H. unfold day_of_era. consts. rewrite unsigned_mod_spec by lia.
  rewrite s64_small by lia. apply u32_small.
  pose proof (Z.mod_pos_bound (day - 11017) 146097). lia.
Qed.

Lemma year_of_era_bounds doe :
  0 <= doe < 146097 ->
  0 <= year_of_era doe < 400 /\
  0 <= doe - yoe_start (year_of_era doe) < 365 + yoe_leap (year_of_era doe).
Proof.
  intros H. unfold year_of_era.
  destruct (Z.eqb_spec doe 146096) as [->|Hne]; [vm_compute; intuition congruence|].
  cbn [b2z]. rewrite u32_small by divmod.
  set (y := (doe - doe / 1460 + doe / 36524 - 0) / 365).
  assert (Hy : 0 <= y < 400) by (unfold y; divmod).
  assert (E1 : 0 <= doe - yoe_start y <= 365) by (unfold y, yoe_start; divmod).
  split; [exact Hy|]. unfold yoe_leap. rewrite is_leap_spec.
  replace (y + 1 - 1) with y by lia. unfold y, yoe_start in *. divmod.
Qed.

(** The March-based month [moy] and the 0-based day of the month of day [doy]. *)
Definition moy_of (doy : Z) : Z := (5 * doy + 2) / 153.
Definition dom_of (doy : Z) : Z := doy - (153 * moy_of doy + 2) / 5.

(** Calendar year and month of month [moy] of the year [yoe] of era [era]. *)
Definition civil_year (era yoe moy : Z) : Z := 2000 + 400 * era + yoe + b2z (10 <=? moy).
Definition civil_month (moy : Z) : Z := if moy <? 10 then moy + 3 else moy - 9.

Ltac moy_cases k :=
  let H := fresh "Hk" in
  assert (H : k = 0 \/ k = 1 \/ k = 2 \/ k = 3 \/ k = 4 \/ k = 5 \/ k = 6 \/ k = 7
              \/ k = 8 \/ k = 9 \/ k = 10 \/ k = 11) by lia;
  destruct H as [H|[H|[H|[H|[H|[H|[H|[H|[H|[H|[H|H]]]]]]]]]]].

(** Day of the March-based year of the first day of month [k]. *)
Definition moy_start (k : Z) : Z := (153 * k + 2) / 5.

Lemma moy_of_bounds doy :
  0 <= doy < 366 ->
  0 <= moy_of doy <= 11 /\ 0 <= moy_start (moy_of doy) <= doy /\
  (moy_of doy < 11 -> doy < moy_start (moy_of doy + 1)).
Proof. intros H. unfold moy_of, moy_start. divmod. Qed.

Lemma civil_month_days moy :
  0 <= moy <= 11 ->
  (367 * civil_month moy - 362) / 12
  = if moy <? 10 then moy_start moy + 61 else moy_start moy - 306.
Proof.
  intros H. apply Z.eqb_eq.
  exact (all_below_spec 12 (fun moy => (367 * civil_month moy - 362) / 12
    =? if moy <? 10 then moy_start moy + 61 else moy_start moy - 306) eq_refl moy ltac:(lia)).
Qed.

Lemma day_number_march era yoe moy dom :
  0 <= yoe < 400 -> 0 <= moy <= 11 ->
  day_number (civil_year era yoe moy) (civil_month moy) (dom + 1)
  = 11017 + 146097 * era + yoe_start yoe + moy_start moy + dom.
Proof.
  intros Hy Hm. rewrite day_number_closed by (unfold civil_month; zbool; lia).
  set (b := b2z (10 <=? moy)).
  replace (civil_year era yoe moy) with (2000 + yoe + b + 400 * era)
    by (unfold civil_year; lia).
  rewrite is_leap_400, <- jan1_eq, jan1_400, jan1_eq, is_leap_spec.
  unfold jan1_closed, yoe_start, b.
  assert (E4 : (2000 + yoe) / 4 = 500 + yoe / 4) by divmod.
  assert (E100 : (2000 + yoe) / 100 = 20 + yoe / 100) by divmod.
  assert (E400 : (2000 + yoe) / 400 = 5) by divmod.
  fold (civil_month moy). rewrite civil_month_days by lia.
  unfold civil_month. generalize (moy_start moy). intros ms.
  destruct (Z.ltb_spec moy 10); destruct (Z.leb_spec 10 moy); try lia; cbn [b2z].
  - rewrite Z.add_0_r, E4, E100, E400. destruct (Z.leb_spec (moy + 3) 2); lia.
  - rewrite Z.add_simpl_r, E4, E100, E400. destruct (Z.leb_spec (moy - 9) 2); lia.
Qed.

Lemma dom_in_month era yoe doy :
  0 <= yoe < 400 -> 0 <= doy < 365 + yoe_leap yoe ->
  dom_of doy + 1 <= days_in_month (civil_year era yoe (moy_of doy)) (civil_month (moy_of doy)).
Proof.
  intros Hy Hd.
  assert (Hd' : 0 <= doy < 366) by (unfold yoe_leap, b2z in Hd; destruct is_leap; lia).
  destruct (moy_of_bounds doy Hd') as (Hm & Hlo & Hhi).
  unfold dom_of. fold (moy_start (moy_of doy)).
  unfold days_in_month, civil_month, civil_year.
  remember (moy_of doy) as k eqn:Ek. clear Ek.
  assert (El : yoe_leap yoe = b2z (is_leap (2000 + 400 * era + yoe + 1))).
  { unfold yoe_leap. f_equal. rewrite <- (is_leap_400 (yoe + 1) (era + 5)). f_equal. lia. }
  moy_cases k; subst k; try (specialize (Hhi ltac:(lia))); unfold moy_start in *;
    closed_div; cbn -[is_leap Z.add Z.mul]; closed_div; zbool; cbn [orb]; lia.
Qed.

(** The whole slow path: the fields computed from day [day] are those of its date. *)
Lemma era_date day era doe yoe doy :
  -106751991167301 <= day <= 106751991167300 ->
  era = (day - 11017) / 146097 -> doe = day_of_era day -> yoe = year_of_era doe ->
  doy = day_of_year doe yoe ->
  0 <= doe < 146097 /\ 0 <= yoe < 400 /\ doe = yoe_start yoe + doy /\
  0 <= doy < 366 /\ doy < 365 + yoe_leap yoe /\
  month_of_year doy = moy_of doy /\ day = 11017 + 146097 * era + doe.
Proof.
  intros H Eera Edoe Eyoe Edoy. rewrite day_of_era_spec in Edoe by exact H.
  assert (Bdoe : 0 <= doe < 146097).
  { pose proof (Z.mod_pos_bound (day - 11017) 146097 ltac:(lia)). lia. }
  destruct (year_of_era_bounds doe Bdoe) as [By Bd]. rewrite <- Eyoe in By, Bd.
  assert (Bl : 0 <= yoe_leap yoe <= 1) by (unfold yoe_leap, b2z; destruct is_leap; lia).
  unfold day_of_year in Edoy. fold (yoe_start yoe) in Edoy.
  rewrite u32_small in Edoy by lia.
  repeat split; try lia.
  - unfold month_of_year, moy_of. rewrite u32_small by lia. reflexivity.
  - pose proof (Z.div_mod (day - 11017) 146097). lia.
Qed.

Lemma civil_of_parts era yoe doy :
  0 <= yoe < 400 -> 0 <= doy < 366 -> doy < 365 + yoe_leap yoe ->
  let y := civil_year era yoe (moy_of doy) in
  let m := civil_month (moy_of doy) in
  let d := dom_of doy + 1 in
  valid_date y m d /\ day_number y m d = 11017 + 146097 * era + (yoe_start yoe + doy).
Proof.
  intros Hy Hd Hl. destruct (moy_of_bounds doy Hd) as (Bm & Blo & _).
  cbv zeta. split; [repeat split|].
  - unfold civil_month. zbool; lia.
  - unfold civil_month. zbool; lia.
  - unfold dom_of. fold (moy_start (moy_of doy)). lia.
  - apply dom_in_month; lia.
  - rewrite day_number_march by lia. unfold dom_of. fold (moy_start (moy_of doy)). lia.
Qed.

(** ** The 32-bit fast paths *)

(** A time of the fast path, split into 4-year cycle (from 1900-03-01), day of the
    cycle and second of the day. *)
Lemma fast_split t :
  fast_path t = true ->
  exists k D s, t = 86400 * (1461 * k + D - 25508) + s /\
    17 <= k <= 33 /\ 0 <= D < 1461 /\ 0 <= s < 86400 /\ 0 <= t <= 2085978495.
Proof.
  unfold fast_path. rewrite andb_true_iff, !Z.leb_le.
  change (u32 (UINT32_MAX - kEpochOffsetYear1900)) with 2085978495. intros [H0 H1].
  exists ((t / 86400 + 25508) / 1461), ((t / 86400 + 25508) mod 1461), (t mod 86400).
  divmod.
Qed.

(** Year of the cycle and day of its March-based year. *)
Definition cycle_year (D : Z) : Z := if D =? 1460 then 3 else D / 365.
Definition cycle_doy (D : Z) : Z := D - 365 * cycle_year D.

Lemma cycle_doy_bounds D :
  0 <= D < 1461 -> 0 <= cycle_year D <= 3 /\ 0 <= cycle_doy D <= 365 /\
  (cycle_year D < 3 -> cycle_doy D < 365).
Proof. intros H. unfold cycle_doy, cycle_year. zbool; [lia|divmod]. Qed.

Lemma cycle_date k D :
  17 <= k <= 33 -> 0 <= D < 1461 ->
  let doy := cycle_doy D in
  let y := 1900 + 4 * k + cycle_year D + b2z (10 <=? moy_of doy) in
  let m := civil_month (moy_of doy) in
  valid_date y m (dom_of doy + 1) /\
  day_number y m (dom_of doy + 1) = 1461 * k + D - 25508.
Proof.
  intros Hk HD doy y m. destruct (cycle_doy_bounds D HD) as (By & Bd & Bd').
  fold doy in Bd, Bd'.
  set (era := if k <? 25 then -1 else 0).
  set (yoe := 4 * k + cycle_year D - 100 - 400 * era).
  assert (Hy : 0 <= yoe < 400) by (unfold yoe, era; zbool; lia).
  assert (Ey : y = civil_year era yoe (moy_of doy)) by (unfold y, civil_year, yoe; lia).
  assert (Hl : 0 <= doy < 365 + yoe_leap yoe).
  { unfold yoe_leap. rewrite is_leap_spec.
    destruct (Z.eq_dec (cycle_year D) 3) as [E3|N3].
    - replace (yoe + 1) with (4 * (k - 24 - 100 * era)) by (unfold yoe; lia).
      unfold era; zbool; divmod.
    - assert (doy < 365) by lia. split; [lia|].
      pose proof (is_leap_spec (yoe + 1)) as E. unfold b2z in E.
      destruct (is_leap (yoe + 1)); lia. }
  rewrite Ey. subst m.
  destruct (civil_of_parts era yoe doy Hy ltac:(lia) ltac:(lia)) as [V E].
  split; [exact V|]. rewrite E.
  assert (E' : 11017 + 146097 * era + yoe_start yoe = 1461 * k + 365 * cycle_year D - 25508).
  { unfold yoe_start, yoe, era. zbool; divmod. }
  unfold doy, cycle_doy in *. lia.
Qed.

Lemma ltb_days a b s : 0 <= s < 86400 -> (86400 * a + s <? 86400 * b) = (a <? b).
Proof. intros H. zbool; lia. Qed.

Lemma at_month_starts g :
  0 <= g < 12 -> at_ cumulative_month_epoch_starts g = 86400 * moy_start g.
Proof.
  intros Hg. apply Z.eqb_eq.
  exact (all_below_spec 12 (fun g => at_ cumulative_month_epoch_starts g =? 86400 * moy_start g)
           eq_refl g Hg).
Qed.

Lemma month_guess doy s :
  0 <= doy < 366 -> 0 <= s < 86400 ->
  let g := (86400 * doy + s) / (30 * 86400) in
  let g := if g <=? 11 then g else 11 in
  (if 86400 * doy + s <? at_ cumulative_month_epoch_starts g then u32 (g - 1) else g)
  = moy_of doy.
Proof.
  intros Hd Hs.
  replace ((86400 * doy + s) / (30 * 86400)) with (doy / 30) by divmod.
  intros g0 g. subst g0. assert (Bg : 0 <= g < 12) by (subst g; zbool; divmod).
  rewrite at_month_starts by assumption.
  rewrite ltb_days by assumption. apply Z.eqb_eq. subst g.
  exact (all_below_spec 366 (fun doy =>
    (if doy <? moy_start (if doy / 30 <=? 11 then doy / 30 else 11)
     then u32 ((if doy / 30 <=? 11 then doy / 30 else 11) - 1)
     else if doy / 30 <=? 11 then doy / 30 else 11) =? moy_of doy) eq_refl doy Hd).
Qed.

Lemma extract_month_fast_spec k D s :
  17 <= k <= 33 -> 0 <= D < 1461 -> 0 <= s < 86400 ->
  0 <= 86400 * (1461 * k + D - 25508) + s <= 2085978495 ->
  extract_month_fast (86400 * (1461 * k + D - 25508) + s) = civil_month (moy_of (cycle_doy D)).
Proof.
  intros Hk HD Hs Ht. unfold extract_month_fast. consts.
  rewrite (u32_small (_ + _ - _)) by lia.
  replace ((86400 * (1461 * k + D - 25508) + s + 2208988800 - 5097600) mod 126230400)
    with (86400 * D + s) by divmod.
  replace ((86400 * D + s) / 31536000) with (D / 365) by divmod.
  set (ys := if _ <=? _ then _ else _).
  assert (Ey : ys = 31536000 * cycle_year D).
  { unfold ys, cycle_year. rewrite (u32_small (D / 365 * _)) by divmod.
    destruct (Z.eqb_spec D 1460) as [->|]; zbool; try lia. reflexivity. }
  rewrite Ey. destruct (cycle_doy_bounds D HD) as (By & Bd & _).
  replace (u32 (86400 * D + s - 31536000 * cycle_year D)) with (86400 * cycle_doy D + s)
    by (rewrite u32_small; unfold cycle_doy in *; lia).
  rewrite (month_guess (cycle_doy D) s) by lia.
  pose proof (moy_of_bounds (cycle_doy D) ltac:(lia)) as (Bm & _).
  rewrite u32_small by lia. unfold civil_month. zbool; divmod.
Qed.

(** Calendar year of day [D] of a cycle, counted from the year the cycle starts in, and
    the 0-based day of that calendar year. *)
Definition cycle_cal_year (D : Z) : Z := (59 + D) / 365.
Definition cycle_cal_day (D : Z) : Z :=
  if cycle_cal_year D =? 0 then 60 + D else 59 + D - 365 * cycle_cal_year D.
Definition cycle_cal_leap (D : Z) : bool := cycle_cal_year D mod 4 =? 0.

Lemma cycle_cal_year_spec D :
  0 <= D < 1461 ->
  cycle_cal_year D = cycle_year D + b2z (10 <=? moy_of (cycle_doy D)).
Proof.
  intros H. apply Z.eqb_eq.
  exact (all_below_spec 1461 (fun D => cycle_cal_year D =?
           cycle_year D + b2z (10 <=? moy_of (cycle_doy D))) eq_refl D H).
Qed.

(** Days from 1900-01-01 to January 1 of the year [4 * k + j] after 1900. *)
Definition base_days (year : Z) : Z := 365 * year + (year - 1) / 4.

Lemma fast_1900 k D s :
  17 <= k <= 33 -> 0 <= D < 1461 -> 0 <= s < 86400 ->
  let t := 86400 * (1461 * k + D - 25508) + s in
  0 <= t <= 2085978495 ->
  let year := 4 * k + cycle_cal_year D in
  u32 (t + kEpochOffsetYear1900) = 86400 * (59 + 1461 * k + D) + s /\
  u32 (86400 * (59 + 1461 * k + D) + s - kSecsJanToMar1900) / kSecondsPer4YearCycle = k /\
  (86400 * (59 + 1461 * k + D) + s - k * 86400) / kSecondsPerNonLeapYear = year /\
  0 <= 86400 * (59 + 1461 * k + D) + s - k * 86400 < 4294967296 /\
  0 <= cycle_cal_year D <= 4 /\
  u32 (year * kSecondsPerNonLeapYear + u32 (year - 1) / 4 * kUSecsPerDay)
    = 86400 * base_days year /\
  (86400 * (59 + 1461 * k + D) + s) mod (86400 * base_days year)
    = 86400 * cycle_cal_day D + s /\
  0 <= cycle_cal_day D < 366.
Proof.
  intros Hk HD Hs t Ht year. subst t. consts.
  assert (Hj : 0 <= cycle_cal_year D <= 4) by (unfold cycle_cal_year; divmod).
  assert (Hb : 86400 * (59 + 1461 * k + D) + s
               = 86400 * base_days year + (86400 * cycle_cal_day D + s)
               /\ 0 <= cycle_cal_day D < 366).
  { unfold base_days, year, cycle_cal_day. zbool.
    - split; [|unfold cycle_cal_year in *; divmod].
      replace ((4 * k + cycle_cal_year D - 1) / 4) with (k - 1) by divmod. lia.
    - split; [|unfold cycle_cal_year in *; divmod].
      replace ((4 * k + cycle_cal_year D - 1) / 4) with k by divmod. lia. }
  assert (Hbd : 20000 <= base_days year <= 49710) by (unfold base_days, year in *; divmod).
  destruct Hb as [Eb Bd].
  rewrite (u32_small (year - 1)) by (unfold year; lia).
  repeat split; try (unfold year; lia); try (rewrite ?u32_small by lia; unfold year, cycle_cal_year; divmod).
  - rewrite u32_small; unfold base_days in *; unfold year in *; divmod.
  - rewrite Eb. symmetry. apply (Z.mod_unique_pos _ _ 1); lia.
Qed.

Lemma extract_year_fast_spec k D s :
  17 <= k <= 33 -> 0 <= D < 1461 -> 0 <= s < 86400 ->
  0 <= 86400 * (1461 * k + D - 25508) + s <= 2085978495 ->
  extract_year_fast (86400 * (1461 * k + D - 25508) + s)
  = 1900 + 4 * k + cycle_cal_year D.
Proof.
  intros Hk HD Hs Ht. unfold extract_year_fast.
  destruct (fast_1900 k D s Hk HD Hs Ht) as (E1 & E2 & E3 & B3 & Bj & _).
  rewrite E1, E2. unfold kUSecsPerDay. rewrite (u32_small (_ - k * _)) by lia.
  rewrite E3, u32_small, s32_small by lia. lia.
Qed.

(** The quarter the fast paths guess from the day of the calendar year. *)
Definition quarter_guess (leap : bool) (P : Z) : Z :=
  let starts := if leap then [0; 91; 182; 274] else [0; 90; 181; 273] in
  let q := if P / 90 <=? 3 then P / 90 else 3 in
  if P <? at_ starts q then u32 (q - 1) else q.

Lemma quarter_guess_secs (leap : bool) P s :
  0 <= P < 366 -> 0 <= s < 86400 ->
  let offsets := if leap then cumulative_quarter_epoch_starts_leap_year
                 else cumulative_quarter_epoch_starts in
  let q := (86400 * P + s) / (90 * kUSecsPerDay) in
  let q := if q <=? 3 then q else 3 in
  (if 86400 * P + s <? at_ offsets q then u32 (q - 1) else q) = quarter_guess leap P.
Proof.
  intros HP Hs. cbv zeta. unfold kUSecsPerDay.
  replace ((86400 * P + s) / (90 * 86400)) with (P / 90) by divmod.
  unfold quarter_guess. set (q := if P / 90 <=? 3 then P / 90 else 3).
  assert (Hq : 0 <= q < 4) by (unfold q; zbool; divmod).
  replace (at_ (if leap then _ else _) q)
    with (86400 * at_ (if leap then [0; 91; 182; 274] else [0; 90; 181; 273]) q).
  - now rewrite ltb_days.
  - apply Z.eqb_eq. destruct leap;
      [ exact (all_below_spec 4 (fun q => 86400 * at_ [0; 91; 182; 274] q =?
                 at_ cumulative_quarter_epoch_starts_leap_year q) eq_refl q Hq)
      | exact (all_below_spec 4 (fun q => 86400 * at_ [0; 90; 181; 273] q =?
                 at_ cumulative_quarter_epoch_starts q) eq_refl q Hq) ].
Qed.

Lemma cycle_quarter D :
  0 <= D < 1461 ->
  quarter_guess (cycle_cal_leap D) (cycle_cal_day D)
  = (civil_month (moy_of (cycle_doy D)) - 1) / 3.
Proof.
  intros H. apply Z.eqb_eq.
  exact (all_below_spec 1461 (fun D =>
    quarter_guess (cycle_cal_leap D) (cycle_cal_day D)
    =? (civil_month (moy_of (cycle_doy D)) - 1) / 3) eq_refl D H).
Qed.

(** The fast paths test [year % 4 == 0 && year != 0] on the years since 1900. *)
Lemma cycle_cal_leap_spec k D :
  17 <= k ->  0 <= cycle_cal_year D <= 4 ->
  ((4 * k + cycle_cal_year D) mod 4 =? 0) && negb (4 * k + cycle_cal_year D =? 0)
  = cycle_cal_leap D.
Proof.
  intros Hk Hj. unfold cycle_cal_leap.
  replace ((4 * k + cycle_cal_year D) mod 4) with (cycle_cal_year D mod 4) by divmod.
  destruct (Z.eqb_spec (4 * k + cycle_cal_year D) 0); [lia|]. apply andb_true_r.
Qed.

Lemma extract_quarter_fast_spec k D s :
  17 <= k <= 33 -> 0 <= D < 1461 -> 0 <= s < 86400 ->
  0 <= 86400 * (1461 * k + D - 25508) + s <= 2085978495 ->
  extract_quarter_fast (86400 * (1461 * k + D - 25508) + s)
  = (civil_month (moy_of (cycle_doy D)) - 1) / 3 + 1.
Proof.
  intros Hk HD Hs Ht. unfold extract_quarter_fast.
  destruct (fast_1900 k D s Hk HD Hs Ht) as (E1 & E2 & E3 & B3 & Bj & E4 & E5 & B5).
  rewrite E1, E2. unfold kSecsPerDay. rewrite (s64_small (_ - k * _)) by lia.
  rewrite Z.quot_div_nonneg by (consts; lia).
  rewrite E3, (u32_small (4 * k + _)) by lia.
  rewrite E4, E5, cycle_cal_leap_spec by lia.
  rewrite (quarter_guess_secs _ _ _ B5 Hs), cycle_quarter by assumption.
  destruct (cycle_doy_bounds D HD) as (_ & Bd & _).
  destruct (moy_of_bounds (cycle_doy D) ltac:(lia)) as (Hm & _). clear - Hm.
  apply s32_small. unfold civil_month. zbool; divmod.
Qed.

(** ** Extracted dates *)

(** The date a time falls on, as the source's March-based arithmetic gives it. *)
Definition date_of (t : Z) : Z * Z * Z :=
  let day := t / 86400 in
  let doe := (day - 11017) mod 146097 in
  let yoe := year_of_era doe in
  let doy := doe - yoe_start yoe in
  (civil_year ((day - 11017) / 146097) yoe (moy_of doy), civil_month (moy_of doy),
   dom_of doy + 1).

(** The slow path's intermediate values, on a time that does not overflow. *)
Lemma slow_path t :
  time_ok t ->
  exists era yoe doy,
    floor_div t kSecsPerDay = t / 86400 /\
    t / 86400 = 11017 + 146097 * era + (yoe_start yoe + doy) /\
    day_of_era (t / 86400) = yoe_start yoe + doy /\
    year_of_era (yoe_start yoe + doy) = yoe /\
    day_of_year (yoe_start yoe + doy) yoe = doy /\
    month_of_year doy = moy_of doy /\
    0 <= yoe < 400 /\ 0 <= doy < 366 /\ doy < 365 + yoe_leap yoe /\
    0 <= yoe_start yoe + doy < 146097 /\
    date_of t = (civil_year era yoe (moy_of doy), civil_month (moy_of doy), dom_of doy + 1).
Proof.
  intros Ht. destruct (time_ok_day t Ht) as [Ed B].
  remember ((t / 86400 - 11017) / 146097) as era eqn:Eera.
  remember (day_of_era (t / 86400)) as doe eqn:Edoe.
  remember (year_of_era doe) as yoe eqn:Eyoe.
  remember (day_of_year doe yoe) as doy eqn:Edoy.
  destruct (era_date _ _ _ _ _ B Eera Edoe Eyoe Edoy) as (Be & By & E & Bd & Bl & Em & Et).
  exists era, yoe, doy. rewrite <- E.
  assert (Edate : date_of t
    = (civil_year era yoe (moy_of doy), civil_month (moy_of doy), dom_of doy + 1)).
  { unfold date_of. rewrite day_of_era_spec in Edoe by exact B.
    rewrite <- Edoe, <- Eera, <- Eyoe. replace (doe - yoe_start yoe) with doy by lia.
    reflexivity. }
  repeat split; auto; lia.
Qed.

Lemma date_of_spec t :
  time_ok t ->
  let '(y, m, d) := date_of t in
  valid_date y m d /\ day_number y m d = t / 86400.
Proof.
  intros Ht. destruct (slow_path t Ht)
    as (era & yoe & doy & _ & -> & _ & _ & _ & _ & By & Bd & Bl & _ & ->).
  now apply civil_of_parts.
Qed.

Lemma date_of_unique t y m d :
  time_ok t -> valid_date y m d -> day_number y m d = t / 86400 -> date_of t = (y, m, d).
Proof.
  intros Ht V E. pose proof (date_of_spec t Ht) as H.
  destruct (date_of t) as [[y' m'] d']. destruct H as [V' E'].
  destruct (day_number_inj y m d y' m' d' V V') as (-> & -> & ->); congruence.
Qed.

Lemma fast_path_time_ok t : 0 <= t <= 2085978495 -> time_ok t.
Proof. unfold time_ok. consts. lia. Qed.

Lemma fast_date_of k D s :
  17 <= k <= 33 -> 0 <= D < 1461 -> 0 <= s < 86400 ->
  0 <= 86400 * (1461 * k + D - 25508) + s <= 2085978495 ->
  date_of (86400 * (1461 * k + D - 25508) + s)
  = (1900 + 4 * k + cycle_cal_year D, civil_month (moy_of (cycle_doy D)),
     dom_of (cycle_doy D) + 1).
Proof.
  intros Hk HD Hs Ht. destruct (cycle_date k D Hk HD) as [V E].
  rewrite cycle_cal_year_spec, Z.add_assoc by assumption.
  apply date_of_unique; [now apply fast_path_time_ok | exact V |].
  rewrite E. divmod.
Qed.

(** [slow t] names the intermediate values of the slow path on [t] and rewrites with them. *)
Ltac slow Ht :=
  let Ed := fresh "Ed" in let Et := fresh "Et" in let Edoe := fresh "Edoe" in
  let Eyoe := fresh "Eyoe" in let Edoy := fresh "Edoy" in let Emoy := fresh "Emoy" in
  destruct (slow_path _ Ht)
    as (era & yoe & doy & Ed & Et & Edoe & Eyoe & Edoy & Emoy & Byoe & Bdoy & Bleap & Bdoe & Edate);
  rewrite Ed, ?Edoe, ?Eyoe, ?Edoy, ?Emoy.

Lemma extract_day_date t : time_ok t -> extract_day t = snd (date_of t).
Proof.
  intros Ht. unfold extract_day. slow Ht. rewrite Edate. cbn [snd].
  destruct (moy_of_bounds doy Bdoy) as (Bm & Hlo & _).
  rewrite (u32_small (153 * _ + 2)) by lia. unfold moy_start in Hlo.
  apply u32_small. unfold dom_of. lia.
Qed.

Lemma extract_month_date t : time_ok t -> extract_month t = snd (fst (date_of t)).
Proof.
  intros Ht. unfold extract_month. destruct (fast_path t) eqn:F.
  - destruct (fast_split t F) as (k & D & s & -> & Hk & HD & Hs & B).
    rewrite extract_month_fast_spec, fast_date_of by assumption. reflexivity.
  - slow Ht. rewrite Edate. cbn [fst snd]. destruct (moy_of_bounds doy Bdoy) as (Bm & _).
    unfold civil_month. zbool; rewrite u32_small; lia.
Qed.

Lemma extract_year_date t : time_ok t -> extract_year t = fst (fst (date_of t)).
Proof.
  intros Ht. unfold extract_year. destruct (fast_path t) eqn:F.
  - destruct (fast_split t F) as (k & D & s & -> & Hk & HD & Hs & B).
    rewrite extract_year_fast_spec, fast_date_of by assumption. reflexivity.
  - destruct (time_ok_day t Ht) as [_ B]. slow Ht. rewrite Edate. cbn [fst snd].
    consts. rewrite (s64_small (t / 86400 - 11017)) by lia. rewrite floor_div_spec by (consts; lia).
    replace ((t / 86400 - 11017) / 146097) with era by divmod.
    replace (t / 86400 - 11017 - era * 146097) with (yoe_start yoe + doy) by lia.
    rewrite (u32_small (yoe_start yoe + doy)), Eyoe, Edoy by lia.
    replace (31 + 30 + 31 + 30 + 31 + 31 + 30 + 31 + 30 + 31 <=? doy) with (10 <=? moy_of doy)
      by (unfold moy_of; zbool; divmod).
    unfold civil_year. rewrite s64_small; [lia|].
    assert (-800000000000 <= era <= 800000000000) by lia.
    unfold b2z; destruct (10 <=? moy_of doy); lia.
Qed.

Lemma extract_quarter_date t :
  time_ok t -> extract_quarter t = (snd (fst (date_of t)) - 1) / 3 + 1.
Proof.
  intros Ht. unfold extract_quarter. destruct (fast_path t) eqn:F.
  - destruct (fast_split t F) as (k & D & s & -> & Hk & HD & Hs & B).
    rewrite extract_quarter_fast_spec, fast_date_of by assumption. reflexivity.
  - slow Ht. rewrite Edate. cbn [fst snd]. destruct (moy_of_bounds doy Bdoy) as (Bm & _).
    moy_cases (moy_of doy); rewrite Hk; reflexivity.
Qed.

(** January 1 before and after the March 1 that starts year [yoe] of an era. *)
Lemma jan1_yoe era yoe :
  0 <= yoe < 400 ->
  jan1 (2000 + 400 * era + yoe) = 11017 + 146097 * era + yoe_start yoe - 59 - b2z (is_leap yoe)
  /\ jan1 (2000 + 400 * era + yoe + 1) = 11017 + 146097 * era + yoe_start yoe + 306.
Proof.
  intros H. replace (2000 + 400 * era + yoe) with (2000 + yoe + 400 * era) by lia.
  rewrite jan1_succ, jan1_400, is_leap_400.
  replace (is_leap (2000 + yoe)) with (is_leap yoe)
    by (rewrite <- (is_leap_400 yoe 5); f_equal; lia).
  rewrite jan1_eq, is_leap_spec. unfold jan1_closed, yoe_start.
  replace ((2000 + yoe - 1) / 4) with (500 + (yoe - 1) / 4) by divmod.
  replace ((2000 + yoe - 1) / 100) with (20 + (yoe - 1) / 100) by divmod.
  replace ((2000 + yoe - 1) / 400) with (5 + (yoe - 1) / 400) by divmod.
  replace (yoe / 400) with 0 by divmod. lia.
Qed.

(** The leap test the source applies to a year of the era. *)
Lemma yoe_is_leap yoe :
  0 <= yoe < 400 ->
  (yoe mod 4 =? 0) && (negb (yoe mod 100 =? 0) || (yoe =? 0)) = is_leap yoe.
Proof.
  intros H. unfold is_leap. rewrite (Z.mod_small yoe 400) by exact H. reflexivity.
Qed.

Lemma moy_of_lt_10 doy : 0 <= doy < 366 -> (10 <=? moy_of doy) = (306 <=? doy).
Proof. intros H. unfold moy_of. zbool; divmod. Qed.

Lemma extract_day_of_year_date t :
  time_ok t ->
  let '(y, m, d) := date_of t in
  extract_day_of_year t = days_before_month y m + d.
Proof.
  intros Ht. pose proof (date_of_spec t Ht) as V. unfold extract_day_of_year.
  slow Ht. rewrite Edate in *. destruct V as [_ V]. unfold day_number in V.
  rewrite yoe_is_leap by exact Byoe.
  destruct (jan1_yoe era yoe Byoe) as [J1 J2].
  assert (Hb : 0 <= b2z (is_leap yoe) <= 1) by (destruct (is_leap yoe); cbn; lia).
  unfold civil_year in *. rewrite moy_of_lt_10 in * by exact Bdoy. consts.
  destruct (Z.ltb_spec doy (31 + 30 + 31 + 30 + 31 + 31 + 30 + 31 + 30 + 31));
    destruct (Z.leb_spec 306 doy); try lia; cbn [b2z] in *; rewrite ?Z.add_0_r in *;
    rewrite u32_small by lia; lia.
Qed.

(** ** Weeks *)

(** First day of the week of day [day], for weeks that start [OFFSET] days before
    Wednesday (2000-03-01, day 11017, is a Wednesday). *)
Definition week_begin (OFFSET day : Z) : Z := day - (day - 11017 + OFFSET) mod 7.

(** First day of week 1 of year [y]: the week that contains January 4. *)
Definition week1 (OFFSET y : Z) : Z := week_begin OFFSET (day_number y 1 4).

Lemma day_number_jan4 y : day_number y 1 4 = jan1 y + 3.
Proof. unfold day_number. change (days_before_month y 1) with 0. lia. Qed.

Lemma week_start_spec OFFSET era yoe :
  0 <= OFFSET <= 6 -> 0 <= yoe < 400 ->
  week_start_from_yoe OFFSET yoe
  = week1 OFFSET (2000 + 400 * era + yoe + 1) - 11017 - 146097 * era.
Proof.
  intros HO Hy. unfold week1, week_begin, week_start_from_yoe. consts.
  rewrite day_number_jan4. destruct (jan1_yoe era yoe Hy) as [_ ->].
  unfold yoe_start. rewrite (u32_small (yoe * 365 + _ - _)) by divmod.
  rewrite (u32_small (_ + (_ + 3))), (u32_small (_ + OFFSET)) by divmod.
  rewrite u32_small by divmod. divmod.
Qed.

Lemma week1_succ OFFSET y :
  week1 OFFSET y + 358 <= week1 OFFSET (y + 1).
Proof.
  unfold week1, week_begin. rewrite !day_number_jan4, jan1_succ.
  unfold b2z. destruct is_leap; divmod.
Qed.

Lemma extract_week_spec OFFSET t :
  1 <= OFFSET <= 6 -> time_ok t ->
  exists y, week1 OFFSET y <= t / 86400 < week1 OFFSET (y + 1) /\
    extract_week OFFSET t = (t / 86400 - week1 OFFSET y) / 7 + 1.
Proof.
  intros HO Ht. unfold extract_week. slow Ht.
  pose proof (week_start_spec OFFSET era yoe ltac:(lia) Byoe) as Ews.
  pose proof (week1_succ OFFSET (2000 + 400 * era + yoe + 1)) as Hsucc.
  assert (Bl : 0 <= yoe_leap yoe <= 1)
    by (unfold yoe_leap, b2z; destruct is_leap; lia).
  remember (yoe_start yoe + doy) as doe eqn:Edef.
  assert (Hcur : week1 OFFSET (2000 + 400 * era + yoe + 1)
                 <= 11017 + 146097 * era + yoe_start yoe + 309
                 <= week1 OFFSET (2000 + 400 * era + yoe + 1) + 6).
  { unfold week1, week_begin. rewrite day_number_jan4.
    destruct (jan1_yoe era yoe Byoe) as [_ ->]. divmod. }
  destruct (Z.ltb_spec doe (week_start_from_yoe OFFSET yoe)) as [Hlt|Hge].
  - exists (2000 + 400 * era + yoe). destruct (Z.eqb_spec yoe 0) as [->|Hy0].
    + assert (Ew : week1 OFFSET (2000 + 400 * era + 0) = 11017 + 146097 * era - 56 - OFFSET).
      { unfold week1, week_begin. rewrite day_number_jan4.
        destruct (jan1_yoe era 0 Byoe) as [-> _].
        change (b2z (is_leap 0)) with 1. change (yoe_start 0) with 0. divmod. }
      change (yoe_start 0) with 0 in *.
      rewrite Ew. split; [lia|]. rewrite (u32_small (doe + OFFSET)) by lia.
      rewrite u32_small by divmod. divmod.
    + pose proof (week_start_spec OFFSET era (yoe - 1) ltac:(lia) ltac:(lia)) as Ews'.
      replace (2000 + 400 * era + (yoe - 1) + 1) with (2000 + 400 * era + yoe) in Ews' by lia.
      rewrite (u32_small (yoe - 1)) by lia.
      assert (Hprev : week1 OFFSET (2000 + 400 * era + yoe)
                      <= 11017 + 146097 * era + yoe_start yoe - 56
                      <= week1 OFFSET (2000 + 400 * era + yoe) + 7).
      { unfold week1, week_begin. rewrite day_number_jan4.
        destruct (jan1_yoe era yoe Byoe) as [-> _].
        unfold b2z; destruct is_leap; divmod. }
      split; [lia|]. rewrite (u32_small (doe - _)) by lia.
      rewrite u32_small by divmod. rewrite Ews'. f_equal. f_equal. lia.
  - exists (2000 + 400 * era + yoe + 1). split; [lia|].
    rewrite (u32_small (doe - _)) by lia. rewrite u32_small by divmod.
    rewrite Ews. f_equal. f_equal. lia.
Qed.

(** ** Theorems *)

(** [C6] For every time that does not overflow the first division, the year, month and
    day the engine extracts, by the 32-bit fast path or by the era arithmetic, form a
    valid Gregorian date whose day number is the floor of the time over a day; the
    extracted quarter and day of the year are those of that date. *)
Theorem extract_date_correct (t : Z) (Ht : time_ok t) :
  let y := ExtractFromTime DE_kYear t in
  let m := ExtractFromTime DE_kMonth t in
  let d := ExtractFromTime DE_kDay t in
  valid_date y m d /\ day_number y m d = t / 86400 /\
  ExtractFromTime DE_kQuarter t = (m - 1) / 3 + 1 /\
  ExtractFromTime DE_kDayOfYear t = days_before_month y m + d.
Proof.
  cbn [ExtractFromTime].
  rewrite extract_year_date, extract_month_date, extract_day_date, extract_quarter_date
    by exact Ht.
  pose proof (date_of_spec t Ht) as V. pose proof (extract_day_of_year_date t Ht) as E.
  destruct (date_of t) as [[y m] d]. cbn [fst snd]. now destruct V.
Qed.

Lemma extract_date_correct_witness :
  time_ok 951782400 /\
  let y := ExtractFromTime DE_kYear 951782400 in
  let m := ExtractFromTime DE_kMonth 951782400 in
  let d := ExtractFromTime DE_kDay 951782400 in
  valid_date y m d /\ day_number y m d = 951782400 / 86400 /\
  ExtractFromTime DE_kQuarter 951782400 = (m - 1) / 3 + 1 /\
  ExtractFromTime DE_kDayOfYear 951782400 = days_before_month y m + d.
Proof.
  assert (H : time_ok 951782400) by (unfold time_ok; vm_compute; intuition congruence).
  exact (conj H (extract_date_correct 951782400 H)).
Defined.

(** Hour, minute and second split a time into its day and second of the day, each
    in its range; the quarter of the day and both day-of-week numberings are consistent
    with that split (1970-01-01 is a Thursday). *)
Theorem extract_time_of_day (t : Z) (Ht : time_ok t) :
  let h := ExtractFromTime DE_kHour t in
  let mi := ExtractFromTime DE_kMinute t in
  let s := ExtractFromTime DE_kSecond t in
  t = 86400 * (t / 86400) + 3600 * h + 60 * mi + s /\
  0 <= h < 24 /\ 0 <= mi < 60 /\ 0 <= s < 60 /\
  ExtractFromTime DE_kQuarterDay t = h / 6 + 1 /\
  ExtractFromTime DE_kDateEpoch t = 86400 * (t / 86400) /\
  ExtractFromTime DE_kDayOfWeek t = (t / 86400 + 4) mod 7 /\
  ExtractFromTime DE_kIsoDayOfWeek t = (ExtractFromTime DE_kDayOfWeek t + 6) mod 7 + 1.
Proof.
  destruct (time_ok_day t Ht) as [Ed B]. cbn [ExtractFromTime].
  unfold extract_hour, extract_minute, extract_second, extract_quarterday,
    extract_dateepoch, extract_dow, extract_isodow.
  rewrite Ed. unfold time_ok in Ht. consts.
  rewrite !unsigned_mod_spec by lia. wraps_by ltac:(divmod).
  rewrite !Z.quot_div_nonneg by (try apply Z.mod_pos_bound; lia).
  repeat split; divmod.
Qed.

Lemma extract_time_of_day_witness :
  time_ok (-1) /\
  let h := ExtractFromTime DE_kHour (-1) in
  let mi := ExtractFromTime DE_kMinute (-1) in
  let s := ExtractFromTime DE_kSecond (-1) in
  -1 = 86400 * (-1 / 86400) + 3600 * h + 60 * mi + s /\
  0 <= h < 24 /\ 0 <= mi < 60 /\ 0 <= s < 60 /\
  ExtractFromTime DE_kQuarterDay (-1) = h / 6 + 1 /\
  ExtractFromTime DE_kDateEpoch (-1) = 86400 * (-1 / 86400) /\
  ExtractFromTime DE_kDayOfWeek (-1) = (-1 / 86400 + 4) mod 7 /\
  ExtractFromTime DE_kIsoDayOfWeek (-1) = (ExtractFromTime DE_kDayOfWeek (-1) + 6) mod 7 + 1.
Proof.
  assert (H : time_ok (-1)) by (unfold time_ok; vm_compute; intuition congruence).
  exact (conj H (extract_time_of_day (-1) H)).
Defined.

(** The extracted week number follows the ISO rule for each of the three first days
    of the week: week 1 of a year is the week containing January 4, a day belongs to the
    year whose week 1 is the last one to start on or before it, and weeks are counted in
    sevens from there. *)
Theorem extract_week_correct (t : Z) (Ht : time_ok t) :
  forall OFFSET field,
  In (OFFSET, field) [(MONDAY, DE_kWeek); (SUNDAY, DE_kWeekSunday);
                      (SATURDAY, DE_kWeekSaturday)] ->
  exists y, week1 OFFSET y <= t / 86400 < week1 OFFSET (y + 1) /\
    ExtractFromTime field t = (t / 86400 - week1 OFFSET y) / 7 + 1.
Proof.
  intros OFFSET field [E|[E|[E|[]]]]; injection E as <- <-;
    refine (extract_week_spec _ t _ Ht); vm_compute; intuition congruence.
Qed.

Lemma extract_week_correct_witness :
  time_ok 1546214400 /\
  exists y, week1 MONDAY y <= 1546214400 / 86400 < week1 MONDAY (y + 1) /\
    ExtractFromTime DE_kWeek 1546214400 = (1546214400 / 86400 - week1 MONDAY y) / 7 + 1.
Proof.
  assert (H : time_ok 1546214400) by (unfold time_ok; vm_compute; intuition congruence).
  exact (conj H (extract_week_correct 1546214400 H MONDAY DE_kWeek (or_introl eq_refl))).
Defined.
