(* ===== verification/DateTruncate.v ===== *)
(** * Truncation of times and date differences

    Model of [QueryEngine/DateTruncate.cpp]: every [datetrunc_*_impl], the dispatcher
    [DateTruncate], the high-precision truncation, the [EraTime] arithmetic and the
    [DateDiff] family.  [None] is [abort()]. *)

From Stdlib Require Import ZArith Lia List Bool.
From S2P Require Import Prelude ExtractFromTime.
Import ListNotations.
Local Open Scope Z_scope.

Definition datetrunc_minute_impl (timeval : Z) : Z :=
  s64 (timeval - unsigned_mod timeval kSecsPerMin).

Definition datetrunc_hour_impl (timeval : Z) : Z :=
  s64 (timeval - unsigned_mod timeval kSecsPerHour).

Definition datetrunc_quarterday_impl (timeval : Z) : Z :=
  s64 (timeval - unsigned_mod timeval kSecsPerQuarterDay).

Definition datetrunc_day_impl (timeval : Z) : Z :=
  s64 (timeval - unsigned_mod timeval kSecsPerDay).

(** Days before Thursday (1970-01-01 is a Thursday). *)
Definition dtMONDAY : Z := 3.
Definition dtSUNDAY : Z := 4.
Definition dtSATURDAY : Z := 5.

Definition datetrunc_week (OFFSET timeval : Z) : Z :=
  s64 (timeval - unsigned_mod (s64 (timeval + OFFSET * kSecsPerDay)) (7 * kSecsPerDay)).

Definition datetrunc_month_impl (timeval : Z) : Z :=
  if fast_path timeval then
    let seconds_march_1900 := u32 (timeval + kEpochOffsetYear1900 - kSecsJanToMar1900) in
    let seconds_past_4year_period := seconds_march_1900 mod kSecondsPer4YearCycle in
    let four_year_period_seconds :=
      u32 ((seconds_march_1900 / kSecondsPer4YearCycle) * kSecondsPer4YearCycle) in
    let year_seconds_past_4year_period :=
      u32 ((seconds_past_4year_period / kSecondsPerNonLeapYear) * kSecondsPerNonLeapYear) in
    let year_seconds_past_4year_period :=
      if kSecondsPer4YearCycle - kUSecsPerDay <=? seconds_past_4year_period
      then u32 (year_seconds_past_4year_period - kSecondsPerNonLeapYear)
      else year_seconds_past_4year_period in
    let seconds_past_march :=
      u32 (seconds_past_4year_period - year_seconds_past_4year_period) in
    let month := seconds_past_march / (30 * kUSecsPerDay) in
    let month := if month <=? 11 then month else 11 in
    let month :=
      if seconds_past_march <? at_ cumulative_month_epoch_starts month
      then u32 (month - 1) else month in
    s64 (four_year_period_seconds + year_seconds_past_4year_period
         + at_ cumulative_month_epoch_starts month
         - kEpochOffsetYear1900 + kSecsJanToMar1900)
  else
    let day := floor_div timeval kSecsPerDay in
    let doe := day_of_era day in
    let yoe := year_of_era doe in
    let doy := day_of_year doe yoe in
    let moy := month_of_year doy in
    let dom := u32 (doy - u32 (153 * moy + 2) / 5) in
    s64 ((day - dom) * kSecsPerDay).

Definition datetrunc_quarter_impl (timeval : Z) : Z :=
  if fast_path timeval then
    let seconds_1900 := u32 (timeval + kEpochOffsetYear1900) in
    let leap_years := u32 (seconds_1900 - kSecsJanToMar1900) / kSecondsPer4YearCycle in
    let year :=
      u32 (seconds_1900 - leap_years * kUSecsPerDay) / kSecondsPerNonLeapYear in
    let base_year_leap_years := u32 (year - 1) / 4 in
    let base_year_seconds :=
      u32 (year * kSecondsPerNonLeapYear + base_year_leap_years * kUSecsPerDay) in
    let is_leap_year := (year mod 4 =? 0) && negb (year =? 0) in
    let quarter_offsets :=
      if is_leap_year then cumulative_quarter_epoch_starts_leap_year
      else cumulative_quarter_epoch_starts in
    let partial_year_seconds := seconds_1900 mod base_year_seconds in
    let quarter := partial_year_seconds / (90 * kUSecsPerDay) in
    let quarter := if quarter <=? 3 then quarter else 3 in
    let quarter :=
      if partial_year_seconds <? at_ quarter_offsets quarter
      then u32 (quarter - 1) else quarter in
    s64 (base_year_seconds + at_ quarter_offsets quarter - kEpochOffsetYear1900)
  else
    let day := floor_div timeval kSecsPerDay in
    let doe := day_of_era day in
    let yoe := year_of_era doe in
    let doy := day_of_year doe yoe in
    let apr1 := 31 in
    let doq :=
      if doy <? apr1 then
        let leap := (yoe mod 4 =? 0) && (negb (yoe mod 100 =? 0) || (yoe =? 0)) in
        u32 (JANMAR + b2z leap + doy)
      else
        let q := u32 (3 * (doy - apr1) + 2) / 275 in
        u32 (doy - (apr1 + q * 92 - b2z (negb (q =? 0)))) in
    s64 ((day - doq) * kSecsPerDay).

Definition datetrunc_year_impl (timeval : Z) : Z :=
  if fast_path timeval then
    let seconds_1900 := u32 (u32 timeval + kEpochOffsetYear1900) in
    let leap_years := u32 (seconds_1900 - kSecsJanToMar1900) / kSecondsPer4YearCycle in
    let year :=
      u32 (seconds_1900 - leap_years * kUSecsPerDay) / kSecondsPerNonLeapYear in
    let base_year_leap_years := u32 (year - 1) / 4 in
    s64 (year * kSecondsPerNonLeapYear + u32 (base_year_leap_years * kUSecsPerDay)
         - kEpochOffsetYear1900)
  else
    let day := floor_div timeval kSecsPerDay in
    let doe := day_of_era day in
    let yoe := year_of_era doe in
    let doy := day_of_year doe yoe in
    let docy :=
      if doy <? MARJAN then
        let leap := (yoe mod 4 =? 0) && ((yoe =? 0) || negb (yoe mod 100 =? 0)) in
        u32 (JANMAR + b2z leap + doy)
      else u32 (doy - MARJAN) in
    s64 ((day - docy) * kSecsPerDay).

Definition datetrunc_decade_impl (timeval : Z) : Z :=
  let decmarjan := MARJAN + 9 * 365 + 2 in
  let day := floor_div timeval kSecsPerDay in
  let doe := day_of_era day in
  let yoe := year_of_era doe in
  let decoe := u32 (yoe - yoe mod 10) in
  let days_after_decade := u32 (doe - (365 * decoe + decoe / 4 - decoe / 100)) in
  let days_after_decade :=
    if days_after_decade <? decmarjan then
      let leap := (decoe mod 4 =? 0) && ((decoe =? 0) || negb (decoe mod 100 =? 0)) in
      u32 (days_after_decade + (JANMAR + b2z leap))
    else u32 (days_after_decade - decmarjan) in
  s64 ((day - days_after_decade) * kSecsPerDay).

Definition datetrunc_century_impl (timeval : Z) : Z :=
  let day := floor_div timeval kSecsPerDay in
  let doe := day_of_era day in
  let doc :=
    if doe <? MARJAN then u32 (doe + (36525 - MARJAN)) else u32 (doe - MARJAN) mod 36524 in
  s64 ((day - doc) * kSecsPerDay).

Definition datetrunc_millennium_impl (timeval : Z) : Z :=
  let millennium2001 := 365242 in
  let day := floor_div timeval kSecsPerDay in
  let dom := u32 (unsigned_mod (s64 (day - kEpochAdjustedDays)) (5 * kDaysPer400Years)) in
  let dom :=
    if dom <? MARJAN then u32 (dom + (millennium2001 + 1 - MARJAN))
    else if dom <? MARJAN + millennium2001 then u32 (dom - MARJAN)
    else u32 (dom - (MARJAN + millennium2001)) in
  s64 ((day - dom) * kSecsPerDay).

Definition DateTruncate (field : DateTruncField) (timeval : Z) : option Z :=
  match field with
  | DT_kNano | DT_kMicro | DT_kMilli | DT_kSecond => Some timeval
  | DT_kMinute => Some (datetrunc_minute_impl timeval)
  | DT_kHour => Some (datetrunc_hour_impl timeval)
  | DT_kQuarterDay => Some (datetrunc_quarterday_impl timeval)
  | DT_kDay => Some (datetrunc_day_impl timeval)
  | DT_kWeek => Some (datetrunc_week dtMONDAY timeval)
  | DT_kWeekSunday => Some (datetrunc_week dtSUNDAY timeval)
  | DT_kWeekSaturday => Some (datetrunc_week dtSATURDAY timeval)
  | DT_kMonth => Some (datetrunc_month_impl timeval)
  | DT_kQuarter => Some (datetrunc_quarter_impl timeval)
  | DT_kYear => Some (datetrunc_year_impl timeval)
  | DT_kDecade => Some (datetrunc_decade_impl timeval)
  | DT_kCentury => Some (datetrunc_century_impl timeval)
  | DT_kMillennium => Some (datetrunc_millennium_impl timeval)
  | DT_kInvalid => None
  end.

Definition truncate_high_precision_timestamp_to_date_impl (timeval scale : Z) : Z :=
  s64 (floor_div timeval (s64 (scale * kSecsPerDay)) * kSecsPerDay).

Definition DateTruncateHighPrecisionToDate (timeval scale : Z) : Z :=
  truncate_high_precision_timestamp_to_date_impl timeval scale.

Definition DateTruncateHighPrecisionToDateNullable (timeval scale null_val : Z) : Z :=
  if timeval =? null_val then null_val
  else truncate_high_precision_timestamp_to_date_impl timeval scale.

(** ** [EraTime] *)

Record EraTime := mkEraTime { et_era : Z; et_yoe : Z; et_moy : Z; et_dom : Z; et_sod : Z }.

Definition EraTime_make (time : Z) : EraTime :=
  let day := floor_div time kSecsPerDay in
  let era := floor_div (s64 (day - kEpochAdjustedDays)) kDaysPer400Years in
  let sod := s32 (time - day * kSecsPerDay) in
  let doe := s32 (day - kEpochAdjustedDays - era * kDaysPer400Years) in
  let yoe :=
    Z.quot (s32 (doe - Z.quot doe 1460 + Z.quot doe 36524 - Z.quot doe 146096)) 365 in
  let doy := s32 (doe - (365 * yoe + Z.quot yoe 4 - Z.quot yoe 100)) in
  let moy := Z.quot (s32 (5 * doy + 2)) 153 in
  let dom := s32 (doy - Z.quot (153 * moy + 2) 5) in
  mkEraTime era yoe moy dom sod.

Definition EraTime_neg (e : EraTime) : EraTime :=
  mkEraTime (s64 (- et_era e)) (- et_yoe e) (- et_moy e) (- et_dom e) (- et_sod e).

Definition EraTime_sub (l r : EraTime) : EraTime :=
  mkEraTime (s64 (et_era l - et_era r)) (et_yoe l - et_yoe r) (et_moy l - et_moy r)
    (et_dom l - et_dom r) (et_sod l - et_sod r).

Inductive EraField := ERA | YOE | MOY | DOM | SOD.

(** The [switch] of [EraTime::sign] falls through from each case to the next. *)
Definition EraTime_sign (e : EraTime) (field : EraField) : Z :=
  let sgn (z : Z) (next : Z) := if negb (z =? 0) then (if z <? 0 then -1 else 1) else next in
  let sod_case := sgn (et_sod e) 0 in
  let dom_case := sgn (et_dom e) sod_case in
  let moy_case := sgn (et_moy e) dom_case in
  let yoe_case := sgn (et_yoe e) moy_case in
  let era_case := sgn (et_era e) yoe_case in
  match field with
  | ERA => era_case
  | YOE => yoe_case
  | MOY => moy_case
  | DOM => dom_case
  | SOD => sod_case
  end.

(** The [switch] of [EraTime::count]: [ut] is the unsigned time, [sgn] its sign. *)
Definition EraTime_count_switch (sgn : Z) (ut : EraTime) (field : DateTruncField) : option Z :=
  let years := s64 (400 * et_era ut + et_yoe ut) in
  let per (n : Z) :=
    let q := u64 (Z.quot years n) in
    let rem := u32 (Z.rem years n) in
    s64 (sgn * u64 (q - b2z ((rem =? 0) && (EraTime_sign ut MOY =? -1)))) in
  match field with
  | DT_kMonth =>
      Some (s64 (sgn * (12 * years + et_moy ut - b2z (EraTime_sign ut DOM =? -1))))
  | DT_kQuarter =>
      let quarters := Z.quot (et_moy ut) 3 in
      let rem := Z.rem (et_moy ut) 3 in
      Some (s64 (sgn * (4 * years + quarters
                 - b2z ((rem <? 0) || ((rem =? 0) && (EraTime_sign ut DOM =? -1))))))
  | DT_kYear => Some (s64 (sgn * (years - b2z (EraTime_sign ut MOY =? -1))))
  | DT_kDecade => Some (per 10)
  | DT_kCentury => Some (per 100)
  | DT_kMillennium => Some (per 1000)
  | _ => None
  end.

Definition EraTime_count (e : EraTime) (field : DateTruncField) : option Z :=
  let sgn := EraTime_sign e ERA in
  let ut := if sgn =? -1 then EraTime_neg e else e in
  EraTime_count_switch sgn ut field.

Definition DateDiff (datepart : DateTruncField) (startdate enddate : Z) : option Z :=
  let delta := s64 (enddate - startdate) in
  match datepart with
  | DT_kNano => Some (s64 (delta * kNanoSecsPerSec))
  | DT_kMicro => Some (s64 (delta * kMicroSecsPerSec))
  | DT_kMilli => Some (s64 (delta * kMilliSecsPerSec))
  | DT_kSecond => Some delta
  | DT_kMinute => Some (Z.quot delta kSecsPerMin)
  | DT_kHour => Some (Z.quot delta kSecsPerHour)
  | DT_kQuarterDay => Some (Z.quot delta (Z.quot kSecsPerDay 4))
  | DT_kDay => Some (Z.quot delta kSecsPerDay)
  | DT_kWeek | DT_kWeekSunday | DT_kWeekSaturday => Some (Z.quot delta (7 * kSecsPerDay))
  | _ => EraTime_count (EraTime_sub (EraTime_make enddate) (EraTime_make startdate)) datepart
  end.

Definition pow10_table : list Z := [1; 0; 0; 1000; 0; 0; 1000 * 1000; 0; 0; 1000 * 1000 * 1000].

Definition DateDiffHighPrecision (datepart : DateTruncField)
    (startdate enddate start_dim end_dim : Z) : option Z :=
  let subsecond (target_dim : Z) :=
    let delta_dim := end_dim - start_dim in
    let adj_dim := target_dim - (if delta_dim <? 0 then start_dim else end_dim) in
    let numerator :=
      if delta_dim <? 0 then s64 (enddate * at_ pow10_table (- delta_dim) - startdate)
      else s64 (enddate - startdate * at_ pow10_table delta_dim) in
    if adj_dim <? 0 then Z.quot numerator (at_ pow10_table (- adj_dim))
    else s64 (numerator * at_ pow10_table adj_dim) in
  match datepart with
  | DT_kMilli => Some (subsecond 3)
  | DT_kMicro => Some (subsecond 6)
  | DT_kNano => Some (subsecond 9)
  | _ =>
      let end_seconds := floor_div enddate (at_ pow10_table end_dim) in
      let delta_ns := s32 ((enddate - end_seconds * at_ pow10_table end_dim)
                           * at_ pow10_table (9 - end_dim)) in
      let start_seconds := floor_div startdate (at_ pow10_table start_dim) in
      let delta_ns := s32 (delta_ns - (startdate - start_seconds * at_ pow10_table start_dim)
                           * at_ pow10_table (9 - start_dim)) in
      let delta_s := s64 (end_seconds - start_seconds) in
      let adj_sec :=
        if (0 <? delta_s) && (delta_ns <? 0) then -1
        else if (delta_s <? 0) && (0 <? delta_ns) then 1 else 0 in
      DateDiff datepart start_seconds (s64 (end_seconds + adj_sec))
  end.

Definition DateDiffNullable (datepart : DateTruncField) (startdate enddate null_val : Z)
    : option Z :=
  if (startdate =? null_val) || (enddate =? null_val) then Some null_val
  else DateDiff datepart startdate enddate.

Definition DateDiffHighPrecisionNullable (datepart : DateTruncField)
    (startdate enddate start_dim end_dim null_val : Z) : option Z :=
  if (startdate =? null_val) || (enddate =? null_val) then Some null_val
  else DateDiffHighPrecision datepart startdate enddate start_dim end_dim.
