(* ===== verification/DateTruncFacts.v ===== *)
(** * Correctness of truncation and date differences *)

From Stdlib Require Import ZArith Lia List Bool.
From S2P Require Import Prelude Civil ExtractFromTime ExtractFacts DateTruncate.
Import ListNotations.
Local Open Scope Z_scope.

(** The times whose truncation to any field does not overflow. *)
Definition trunc_ok (t : Z) : Prop :=
  INT64_MIN + 366001 * 86400 <= t <= INT64_MAX - 604800.

Lemma trunc_ok_time_ok t : trunc_ok t -> time_ok t.
Proof. unfold trunc_ok, time_ok. consts. lia. Qed.

Lemma trunc_ok_day t :
  trunc_ok t -> -106751990801300 <= t / 86400 <= 106751991167300.
Proof. intros H. unfold trunc_ok in H. consts. divmod. Qed.

(** [(day - n) * kSecsPerDay] of the source does not overflow. *)
Lemma back_days t n :
  trunc_ok t -> 0 <= n <= 366000 -> s64 ((t / 86400 - n) * 86400) = 86400 * (t / 86400 - n).
Proof.
  intros H Hn. pose proof (trunc_ok_day t H). rewrite s64_small; lia.
Qed.

(** ** Months, quarters and years *)

Lemma datetrunc_month_date t :
  trunc_ok t -> let '(y, m, d) := date_of t in
  datetrunc_month_impl t = 86400 * day_number y m 1.
Proof.
  intros H. pose proof (trunc_ok_time_ok t H) as Ht.
  pose proof (date_of_spec t Ht) as V. unfold datetrunc_month_impl.
  destruct (fast_path t) eqn:F.
  - destruct (fast_split t F) as (k & D & s & -> & Hk & HD & Hs & B).
    rewrite fast_date_of in * by assumption.
    destruct V as [_ V]. unfold day_number in *.
    replace ((86400 * (1461 * k + D - 25508) + s) / 86400) with (1461 * k + D - 25508)
      in V by divmod.
    consts. rewrite (u32_small (_ + _ - _)) by lia.
    replace ((86400 * (1461 * k + D - 25508) + s + 2208988800 - 5097600) mod 126230400)
      with (86400 * D + s) by divmod.
    replace ((86400 * (1461 * k + D - 25508) + s + 2208988800 - 5097600) / 126230400)
      with k by divmod.
    replace ((86400 * D + s) / 31536000) with (D / 365) by divmod.
    set (ys := if _ <=? 86400 * D + s then _ else _).
    assert (Ey : ys = 31536000 * cycle_year D).
    { unfold ys, cycle_year. rewrite (u32_small (D / 365 * _)) by divmod.
      destruct (Z.eqb_spec D 1460) as [->|]; zbool; try lia. reflexivity. }
    rewrite Ey. destruct (cycle_doy_bounds D HD) as (By & Bd & _).
    replace (u32 (86400 * D + s - 31536000 * cycle_year D)) with (86400 * cycle_doy D + s)
      by (rewrite u32_small; unfold cycle_doy in *; lia).
    rewrite (month_guess (cycle_doy D) s) by lia.
    destruct (moy_of_bounds (cycle_doy D) ltac:(lia)) as (Bm & Blo & _).
    rewrite at_month_starts by lia. unfold dom_of in V.
    fold (moy_start (moy_of (cycle_doy D))) in V. unfold cycle_doy in *.
    rewrite u32_small, s64_small by lia. lia.
  - slow Ht. rewrite Edate in *. destruct V as [[_ Vd] V]. unfold day_number in *.
    destruct (moy_of_bounds doy Bdoy) as (Bm & Blo & _).
    rewrite (u32_small (153 * _ + 2)) by lia. unfold dom_of in *.
    fold (moy_start (moy_of doy)) in *. rewrite u32_small by lia.
    consts. rewrite back_days by (assumption || lia). lia.
Qed.

(** First month of the quarter of month [m]. *)
Definition quarter_month (m : Z) : Z := 3 * ((m - 1) / 3) + 1.

Lemma quarter_of_doy doy :
  31 <= doy < 366 ->
  (3 * (doy - 31) + 2) / 275 = (moy_of doy - 1) / 3 /\
  31 + (moy_of doy - 1) / 3 * 92 - b2z (negb ((moy_of doy - 1) / 3 =? 0))
  = moy_start (1 + 3 * ((moy_of doy - 1) / 3)) /\
  quarter_month (civil_month (moy_of doy)) = civil_month (1 + 3 * ((moy_of doy - 1) / 3)) /\
  (10 <=? moy_of doy) = (10 <=? 1 + 3 * ((moy_of doy - 1) / 3)) /\
  0 <= (moy_of doy - 1) / 3 <= 3 /\ moy_start (1 + 3 * ((moy_of doy - 1) / 3)) <= doy.
Proof.
  intros H.
  pose proof (all_below_spec 366 (fun doy => (doy <? 31) ||
    ((3 * (doy - 31) + 2) / 275 =? (moy_of doy - 1) / 3) &&
    (31 + (moy_of doy - 1) / 3 * 92 - b2z (negb ((moy_of doy - 1) / 3 =? 0))
     =? moy_start (1 + 3 * ((moy_of doy - 1) / 3))) &&
    (quarter_month (civil_month (moy_of doy)) =? civil_month (1 + 3 * ((moy_of doy - 1) / 3))) &&
    Bool.eqb (10 <=? moy_of doy) (10 <=? 1 + 3 * ((moy_of doy - 1) / 3)) &&
    (0 <=? (moy_of doy - 1) / 3) && ((moy_of doy - 1) / 3 <=? 3) &&
    (moy_start (1 + 3 * ((moy_of doy - 1) / 3)) <=? doy)) eq_refl doy ltac:(lia)) as E.
  cbv beta in E. destruct (Z.ltb_spec doy 31); [lia|]. cbn [orb] in E.
  repeat rewrite andb_true_iff in E. rewrite ?Z.eqb_eq, ?Z.leb_le, eqb_true_iff in E. tauto.
Qed.

Lemma march_quarter doy :
  0 <= doy < 31 -> moy_of doy = 0 /\ quarter_month (civil_month (moy_of doy)) = 1.
Proof.
  intros H. assert (E : moy_of doy = 0) by (unfold moy_of; divmod). now rewrite E.
Qed.

Lemma day_number_jan1 y : day_number y 1 1 = jan1 y.
Proof. unfold day_number. change (days_before_month y 1) with 0. lia. Qed.

(** First day, from January 1, of the quarter the fast paths guess. *)
Lemma cycle_quarter_start D :
  0 <= D < 1461 ->
  let starts := if cycle_cal_leap D then cumulative_quarter_epoch_starts_leap_year
                else cumulative_quarter_epoch_starts in
  at_ starts (quarter_guess (cycle_cal_leap D) (cycle_cal_day D))
  = 86400 * days_before_month (4 + cycle_cal_year D)
              (quarter_month (civil_month (moy_of (cycle_doy D)))).
Proof.
  intros H. apply Z.eqb_eq.
  exact (all_below_spec 1461 (fun D =>
    at_ (if cycle_cal_leap D then cumulative_quarter_epoch_starts_leap_year
         else cumulative_quarter_epoch_starts)
      (quarter_guess (cycle_cal_leap D) (cycle_cal_day D))
    =? 86400 * days_before_month (4 + cycle_cal_year D)
              (quarter_month (civil_month (moy_of (cycle_doy D))))) eq_refl D H).
Qed.

(** Between 1901 and 2099 the leap years are the multiples of 4. *)
Lemma is_leap_4 k j : 17 <= k <= 33 -> 0 <= j <= 4 ->
  is_leap (1900 + 4 * k + j) = is_leap (4 + j).
Proof.
  intros Hk Hj. unfold is_leap.
  replace ((1900 + 4 * k + j) mod 4) with (j mod 4) by divmod.
  replace ((4 + j) mod 4) with (j mod 4) by divmod.
  rewrite (Z.mod_small (4 + j) 100), (Z.mod_small (4 + j) 400) by lia.
  destruct (Z.eqb_spec (j mod 4) 0); [|reflexivity]. cbn [andb].
  zbool; cbn; try reflexivity; divmod.
Qed.

Lemma days_before_month_ext y y' m :
  1 <= m <= 12 -> is_leap y = is_leap y' -> days_before_month y m = days_before_month y' m.
Proof. intros H E. rewrite !days_before_month_closed, E by exact H. reflexivity. Qed.

Lemma jan1_1900 k j :
  17 <= k <= 33 -> 0 <= j <= 4 -> jan1 (1900 + 4 * k + j) = base_days (4 * k + j) - 25567.
Proof.
  intros Hk Hj. rewrite jan1_eq. unfold jan1_closed, base_days.
  replace ((1900 + 4 * k + j - 1) / 4) with (475 + (4 * k + j - 1) / 4) by divmod.
  assert (E : (1900 + 4 * k + j - 1) / 100 - (1900 + 4 * k + j - 1) / 400 = 15) by divmod.
  lia.
Qed.

Lemma civil_month_range moy : 0 <= moy <= 11 -> 1 <= civil_month moy <= 12.
Proof. intros H. unfold civil_month. zbool; lia. Qed.

Lemma quarter_month_range m : 1 <= m <= 12 -> 1 <= quarter_month m <= 10.
Proof. intros H. unfold quarter_month. divmod. Qed.

Lemma datetrunc_quarter_date t :
  trunc_ok t -> let '(y, m, d) := date_of t in
  datetrunc_quarter_impl t = 86400 * day_number y (quarter_month m) 1.
Proof.
  intros H. pose proof (trunc_ok_time_ok t H) as Ht. unfold datetrunc_quarter_impl.
  destruct (fast_path t) eqn:F.
  - destruct (fast_split t F) as (k & D & s & -> & Hk & HD & Hs & B).
    rewrite fast_date_of by assumption.
    destruct (fast_1900 k D s Hk HD Hs B) as (E1 & E2 & E3 & B3 & Bj & E4 & E5 & B5).
    rewrite E1, E2. change (k * kUSecsPerDay) with (k * 86400).
    rewrite (u32_small (_ - k * _)), E3, E4, E5, cycle_cal_leap_spec by lia.
    rewrite (quarter_guess_secs _ _ _ B5 Hs), cycle_quarter_start by assumption.
    destruct (cycle_doy_bounds D HD) as (_ & Bd & _).
    destruct (moy_of_bounds (cycle_doy D) ltac:(lia)) as (Bm & _).
    pose proof (quarter_month_range _ (civil_month_range _ Bm)) as Bq.
    rewrite <- (days_before_month_ext (1900 + 4 * k + cycle_cal_year D))
      by (try lia; now apply is_leap_4).
    unfold day_number. rewrite jan1_1900 by assumption. consts.
    set (bm := days_before_month _ _).
    assert (0 <= bm <= 366).
    { unfold bm. rewrite days_before_month_closed by lia. unfold b2z.
      destruct is_leap; zbool; divmod. }
    assert (0 <= base_days (4 * k + cycle_cal_year D) <= 60000)
      by (unfold base_days; divmod).
    rewrite s64_small by lia. lia.
  - slow Ht. rewrite Edate. rewrite yoe_is_leap by exact Byoe.
    destruct (Z.ltb_spec doy 31) as [Hd|Hd].
    + destruct (march_quarter doy ltac:(lia)) as [Em ->]. rewrite Em, day_number_jan1.
      unfold civil_year. cbn [Z.leb Z.compare b2z]. rewrite Z.add_0_r.
      destruct (jan1_yoe era yoe Byoe) as [-> _]. consts.
      assert (0 <= b2z (is_leap yoe) <= 1) by (destruct is_leap; cbn; lia).
      rewrite u32_small by lia. rewrite back_days by (assumption || lia). lia.
    + destruct (quarter_of_doy doy ltac:(lia)) as (Eq & Es & Em & Eb & Bq & Bs).
      rewrite (u32_small (3 * _ + 2)), Eq, Es, Em by lia.
      unfold civil_year. rewrite Eb. fold (civil_year era yoe (1 + 3 * ((moy_of doy - 1) / 3))).
      pose proof (day_number_march era yoe (1 + 3 * ((moy_of doy - 1) / 3)) 0
                    Byoe ltac:(lia)) as Edn.
      change (0 + 1) with 1 in Edn. rewrite Edn. consts.
      assert (0 <= moy_start (1 + 3 * ((moy_of doy - 1) / 3)))
        by (apply Z.div_pos; lia).
      rewrite u32_small by lia.
      rewrite back_days by (assumption || lia). lia.
Qed.

Lemma datetrunc_year_date t :
  trunc_ok t -> let '(y, m, d) := date_of t in datetrunc_year_impl t = 86400 * jan1 y.
Proof.
  intros H. pose proof (trunc_ok_time_ok t H) as Ht. unfold datetrunc_year_impl.
  destruct (fast_path t) eqn:F.
  - destruct (fast_split t F) as (k & D & s & -> & Hk & HD & Hs & B).
    rewrite fast_date_of by assumption.
    destruct (fast_1900 k D s Hk HD Hs B) as (E1 & E2 & E3 & B3 & Bj & E4 & _).
    rewrite (u32_small (86400 * (1461 * k + D - 25508) + s)) by lia.
    rewrite E1, E2. change (k * kUSecsPerDay) with (k * 86400).
    rewrite (u32_small (_ - k * _)), E3 by lia.
    rewrite jan1_1900 by assumption. unfold base_days in *. consts.
    rewrite (u32_small (4 * k + cycle_cal_year D - 1)) by lia.
    rewrite (u32_small (_ / 4 * _)), s64_small by divmod. lia.
  - slow Ht. rewrite Edate.
    rewrite (orb_comm (yoe =? 0)), yoe_is_leap by exact Byoe.
    destruct (jan1_yoe era yoe Byoe) as [J1 J2].
    unfold civil_year. rewrite moy_of_lt_10 by exact Bdoy. consts.
    assert (0 <= b2z (is_leap yoe) <= 1) by (destruct is_leap; cbn; lia).
    destruct (Z.ltb_spec doy (31 + 30 + 31 + 30 + 31 + 31 + 30 + 31 + 30 + 31));
      destruct (Z.leb_spec 306 doy); try lia; cbn [b2z]; rewrite ?Z.add_0_r;
      rewrite u32_small by lia; rewrite back_days by (assumption || lia); lia.
Qed.

(** ** Decades, centuries and millennia *)

(** The calendar year of the day [doy] of the March-based year [yoe]. *)
Lemma civil_year_doy era yoe doy :
  0 <= doy < 366 -> civil_year era yoe (moy_of doy) = 2000 + 400 * era + yoe + b2z (306 <=? doy).
Proof. intros H. unfold civil_year. now rewrite moy_of_lt_10. Qed.

Lemma yoe_start_mono a b : 0 <= a <= b -> yoe_start a <= yoe_start b.
Proof. intros H. unfold yoe_start. divmod. Qed.

Lemma decade_days d yoe :
  0 <= d -> 10 * d <= yoe < 10 * d + 10 -> yoe < 400 ->
  yoe_start (10 * d + 9) = yoe_start (10 * d) + 9 * 365 + 2 /\
  (yoe < 10 * d + 9 -> yoe_start (yoe + 1) <= yoe_start (10 * d + 9)) /\
  yoe_start (10 * d) <= yoe_start yoe.
Proof. intros Hd Hy Hl. unfold yoe_start. divmod. Qed.

Lemma datetrunc_decade_date t :
  trunc_ok t -> let '(y, m, d) := date_of t in
  datetrunc_decade_impl t = 86400 * jan1 (10 * (y / 10)).
Proof.
  intros H. pose proof (trunc_ok_time_ok t H) as Ht. unfold datetrunc_decade_impl.
  slow Ht. rewrite Edate, civil_year_doy by exact Bdoy.
  set (dec := yoe / 10).
  assert (Hdec : 10 * dec <= yoe < 10 * dec + 10) by (unfold dec; divmod).
  replace (u32 (yoe - yoe mod 10)) with (10 * dec)
    by (rewrite u32_small; unfold dec; divmod).
  fold (yoe_start (10 * dec)).
  rewrite (orb_comm (10 * dec =? 0)), yoe_is_leap by lia.
  assert (0 <= b2z (is_leap (10 * dec)) <= 1) by (destruct is_leap; cbn; lia).
  destruct (decade_days dec yoe ltac:(lia) Hdec ltac:(lia)) as (Ed9 & Hd9 & Hd0).
  assert (0 <= yoe_start (10 * dec)) by (unfold yoe_start; divmod).
  destruct (jan1_yoe era (10 * dec) ltac:(lia)) as [J1 _].
  destruct (jan1_yoe era (10 * dec + 9) ltac:(lia)) as [_ J2].
  rewrite (u32_small (yoe_start yoe + doy - _)) by lia. consts.
  assert (Hn : yoe < 10 * dec + 9 -> yoe_start yoe + doy < yoe_start (10 * dec + 9)).
  { intros Hlt. specialize (Hd9 Hlt). rewrite yoe_start_succ in Hd9 by lia. lia. }
  assert (Eys : yoe = 10 * dec + 9 -> yoe_start yoe = yoe_start (10 * dec + 9))
    by (intros Ey; f_equal; exact Ey).
  destruct (Z.ltb_spec (yoe_start yoe + doy - yoe_start (10 * dec))
              (31 + 30 + 31 + 30 + 31 + 31 + 30 + 31 + 30 + 31 + 9 * 365 + 2)) as [Hlt|Hge].
  - replace (10 * ((2000 + 400 * era + yoe + b2z (306 <=? doy)) / 10))
      with (2000 + 400 * era + 10 * dec).
    + rewrite u32_small, back_days, J1 by (assumption || lia). lia.
    + assert (yoe + b2z (306 <=? doy) < 10 * dec + 10).
      { destruct (Z.eq_dec yoe (10 * dec + 9)) as [Ey|]; [apply Eys in Ey|];
          destruct (Z.leb_spec 306 doy); cbn [b2z]; lia. }
      assert (0 <= b2z (306 <=? doy) <= 1) by (destruct (306 <=? doy); cbn; lia).
      divmod.
  - assert (yoe = 10 * dec + 9) as Ey by lia.
    assert (306 <= doy) by (apply Eys in Ey; lia).
    destruct (Z.leb_spec 306 doy); [|lia]. cbn [b2z].
    replace (10 * ((2000 + 400 * era + yoe + 1) / 10))
      with (2000 + 400 * era + (10 * dec + 9) + 1) by divmod.
    rewrite u32_small, back_days, J2 by (assumption || lia). lia.
Qed.

Lemma century_of_day yoe doy :
  0 <= yoe < 400 -> 0 <= doy < 366 -> 306 <= yoe_start yoe + doy ->
  let c := (yoe + b2z (306 <=? doy) - 1) / 100 in
  0 <= c <= 3 /\ 36524 * c <= yoe_start yoe + doy - 306 < 36524 * (c + 1).
Proof.
  intros Hy Hd H c. subst c. unfold yoe_start in *.
  destruct (Z.leb_spec 306 doy); cbn [b2z]; divmod.
Qed.

Lemma yoe_start_100 c : 0 <= c <= 3 -> yoe_start (100 * c) = 36524 * c.
Proof. intros Hc. unfold yoe_start. divmod. Qed.

Lemma first_days yoe doy :
  0 <= yoe < 400 -> 0 <= doy -> yoe_start yoe + doy < 306 -> yoe = 0.
Proof. intros Hy Hd H. unfold yoe_start in H. divmod. Qed.

Lemma datetrunc_century_date t :
  trunc_ok t -> let '(y, m, d) := date_of t in
  datetrunc_century_impl t = 86400 * jan1 (100 * ((y - 1) / 100) + 1).
Proof.
  intros H. pose proof (trunc_ok_time_ok t H) as Ht. unfold datetrunc_century_impl.
  slow Ht. rewrite Edate, civil_year_doy by exact Bdoy. consts.
  destruct (Z.ltb_spec (yoe_start yoe + doy)
              (31 + 30 + 31 + 30 + 31 + 31 + 30 + 31 + 30 + 31)) as [Hlt|Hge].
  - assert (yoe = 0) as -> by (apply (first_days yoe doy); lia).
    change (yoe_start 0) with 0 in *.
    destruct (Z.leb_spec 306 doy); [lia|]. cbn [b2z].
    replace (100 * ((2000 + 400 * era + 0 + 0 - 1) / 100) + 1)
      with (2000 + 400 * (era - 1) + 300 + 1) by divmod.
    destruct (jan1_yoe (era - 1) 300 ltac:(lia)) as [_ ->].
    change (yoe_start 300) with 109572.
    rewrite u32_small, back_days by (assumption || lia). lia.
  - destruct (century_of_day yoe doy Byoe Bdoy ltac:(lia)) as [Bc Hc].
    set (c := (yoe + b2z (306 <=? doy) - 1) / 100) in *.
    replace (100 * ((2000 + 400 * era + yoe + b2z (306 <=? doy) - 1) / 100) + 1)
      with (2000 + 400 * era + 100 * c + 1) by (unfold c; divmod).
    destruct (jan1_yoe era (100 * c) ltac:(lia)) as [_ ->].
    rewrite yoe_start_100, u32_small by lia.
    replace ((_ - _) mod 36524) with (yoe_start yoe + doy - 306 - 36524 * c)
      by (apply (Z.mod_unique_pos _ _ c); lia).
    rewrite back_days by (assumption || lia). lia.
Qed.

(** Two thousand years are five eras. *)
Lemma millennium_split day :
  exists k r, (day - 11017) / 146097 = 5 * k + r /\ 0 <= r < 5 /\
    (day - 11017) mod (5 * 146097) = 146097 * r + (day - 11017) mod 146097.
Proof.
  exists ((day - 11017) / 146097 / 5), ((day - 11017) / 146097 mod 5). divmod.
Qed.

Lemma jan1_millennium k r yoe b :
  0 <= yoe < 400 ->
  jan1 (1000 * ((2000 + 400 * (5 * k + r) + yoe + b - 1) / 1000) + 1)
  = jan1 (2001 + 1000 * ((400 * r + yoe + b - 1) / 1000)) + 730485 * k.
Proof.
  intros H.
  replace (1000 * ((2000 + 400 * (5 * k + r) + yoe + b - 1) / 1000) + 1)
    with (2001 + 1000 * ((400 * r + yoe + b - 1) / 1000) + 400 * (5 * k)) by divmod.
  rewrite jan1_400. lia.
Qed.

(** Which of the two millennia of the five eras a day falls in. *)
Lemma millennium_of_day yoe doy r :
  0 <= yoe < 400 -> 0 <= doy < 366 -> 0 <= r < 5 ->
  let z := 400 * r + yoe + b2z (306 <=? doy) in
  let N := 146097 * r + (yoe_start yoe + doy) in
  (N < 306 -> z = 0) /\ (306 <= N < 306 + 365242 -> 1 <= z <= 1000) /\
  (306 + 365242 <= N -> 1001 <= z <= 2000).
Proof.
  intros Hy Hd Hr. cbv zeta. unfold yoe_start.
  assert (r = 0 \/ r = 1 \/ r = 2 \/ r = 3 \/ r = 4) as Hc by lia.
  destruct (Z.leb_spec 306 doy); cbn [b2z];
    destruct Hc as [-> | [-> | [-> | [-> | ->]]]]; divmod.
Qed.

Lemma datetrunc_millennium_date t :
  trunc_ok t -> let '(y, m, d) := date_of t in
  datetrunc_millennium_impl t = 86400 * jan1 (1000 * ((y - 1) / 1000) + 1).
Proof.
  intros H. pose proof (trunc_ok_time_ok t H) as Ht. unfold datetrunc_millennium_impl.
  slow Ht. rewrite Edate, civil_year_doy by exact Bdoy.
  pose proof (trunc_ok_day t H) as Bday.
  destruct (millennium_split (t / 86400)) as (k & r & Er & Br & Em).
  consts. rewrite unsigned_mod_spec by lia.
  rewrite (s64_small (t / 86400 - 11017)), Em by lia.
  assert (era = 5 * k + r) as -> by (rewrite <- Er; divmod).
  replace ((t / 86400 - 11017) mod 146097) with (yoe_start yoe + doy) by divmod.
  rewrite (u32_small (146097 * r + _)) by lia.
  rewrite jan1_millennium by exact Byoe.
  destruct (millennium_of_day yoe doy r Byoe Bdoy Br) as (Hm1 & Hm2 & Hm3).
  set (z := 400 * r + yoe + b2z (306 <=? doy)) in *.
  change (31 + 30 + 31 + 30 + 31 + 31 + 30 + 31 + 30 + 31) with 306.
  set (N := 146097 * r + (yoe_start yoe + doy)) in *.
  assert (BN : 0 <= N < 730485) by (unfold N; lia).
  assert (EN : t / 86400 = 11017 + 730485 * k + N) by (unfold N; lia).
  destruct (Z.ltb_spec N 306); [|destruct (Z.ltb_spec N (306 + 365242))];
    rewrite u32_small, back_days by (assumption || lia).
  - replace ((z - 1) / 1000) with (-1) by (rewrite Hm1 by lia; reflexivity).
    change (jan1 (2001 + 1000 * -1)) with (-353920). lia.
  - replace ((z - 1) / 1000) with 0 by (specialize (Hm2 ltac:(lia)); clear - Hm2; divmod).
    change (jan1 (2001 + 1000 * 0)) with 11323. lia.
  - replace ((z - 1) / 1000) with 1 by (specialize (Hm3 ltac:(lia)); clear - Hm3; divmod).
    change (jan1 (2001 + 1000 * 1)) with 376565. lia.
Qed.

(** ** Truncation *)

(** The first second of the period [field] that contains time [t], whose date is
    [y]-[m]. *)
Definition period_start (field : DateTruncField) (t y m : Z) : option Z :=
  match field with
  | DT_kNano | DT_kMicro | DT_kMilli | DT_kSecond => Some t
  | DT_kMinute => Some (60 * (t / 60))
  | DT_kHour => Some (3600 * (t / 3600))
  | DT_kQuarterDay => Some (21600 * (t / 21600))
  | DT_kDay => Some (86400 * (t / 86400))
  | DT_kWeek => Some (86400 * week_begin MONDAY (t / 86400))
  | DT_kWeekSunday => Some (86400 * week_begin SUNDAY (t / 86400))
  | DT_kWeekSaturday => Some (86400 * week_begin SATURDAY (t / 86400))
  | DT_kMonth => Some (86400 * day_number y m 1)
  | DT_kQuarter => Some (86400 * day_number y (quarter_month m) 1)
  | DT_kYear => Some (86400 * jan1 y)
  | DT_kDecade => Some (86400 * jan1 (10 * (y / 10)))
  | DT_kCentury => Some (86400 * jan1 (100 * ((y - 1) / 100) + 1))
  | DT_kMillennium => Some (86400 * jan1 (1000 * ((y - 1) / 1000) + 1))
  | DT_kInvalid => None
  end.

Lemma trunc_mod t n :
  trunc_ok t -> 0 < n <= 86400 -> s64 (t - unsigned_mod t n) = n * (t / n).
Proof.
  intros H Hn. unfold trunc_ok in H. consts. rewrite unsigned_mod_spec by lia.
  pose proof (Z.mod_pos_bound t n ltac:(lia)). pose proof (Z.div_mod t n ltac:(lia)).
  rewrite s64_small; lia.
Qed.

Lemma trunc_week t OFFSET w :
  trunc_ok t -> 0 <= OFFSET <= 6 -> OFFSET mod 7 = (w - 11017) mod 7 ->
  datetrunc_week OFFSET t = 86400 * week_begin w (t / 86400).
Proof.
  intros H HO Hw. unfold trunc_ok in H. unfold datetrunc_week, week_begin. consts.
  rewrite unsigned_mod_spec by lia. rewrite (s64_small (t + OFFSET * 86400)) by lia.
  rewrite s64_small by divmod. divmod.
Qed.

Lemma DateTruncate_date f t :
  trunc_ok t -> let '(y, m, d) := date_of t in
  DateTruncate f t = period_start f t y m.
Proof.
  intros H.
  pose proof (datetrunc_month_date t H). pose proof (datetrunc_quarter_date t H).
  pose proof (datetrunc_year_date t H). pose proof (datetrunc_decade_date t H).
  pose proof (datetrunc_century_date t H). pose proof (datetrunc_millennium_date t H).
  destruct (date_of t) as [[y m] d].
  destruct f; cbn [DateTruncate period_start]; f_equal; auto;
    try (apply trunc_mod; [exact H | consts; lia]);
    apply trunc_week; (assumption || reflexivity || vm_compute; intuition congruence).
Qed.

(** [C11] [DateTruncate] returns the first second of the period containing the time, in
    the calendar of the extracted date: fixed-length periods, weeks starting on the
    three supported days, months, quarters, years, decades, centuries and millennia; it
    aborts exactly on the invalid field. *)
Theorem DateTruncate_correct (f : DateTruncField) (t : Z) (H : trunc_ok t) :
  DateTruncate f t
  = period_start f t (ExtractFromTime DE_kYear t) (ExtractFromTime DE_kMonth t).
Proof.
  pose proof (DateTruncate_date f t H) as E. pose proof (trunc_ok_time_ok t H) as Ht.
  cbn [ExtractFromTime]. rewrite extract_year_date, extract_month_date by exact Ht.
  now destruct (date_of t) as [[y m] d].
Qed.

Lemma DateTruncate_correct_witness :
  trunc_ok 1700000000 /\
  DateTruncate DT_kQuarter 1700000000
  = period_start DT_kQuarter 1700000000 (ExtractFromTime DE_kYear 1700000000)
      (ExtractFromTime DE_kMonth 1700000000).
Proof.
  assert (H : trunc_ok 1700000000) by (unfold trunc_ok; vm_compute; intuition congruence).
  exact (conj H (DateTruncate_correct DT_kQuarter 1700000000 H)).
Defined.

(** ** Truncation is a floor *)

Lemma date_of_start y m :
  1 <= m <= 12 -> trunc_ok (86400 * day_number y m 1) ->
  date_of (86400 * day_number y m 1) = (y, m, 1).
Proof.
  intros Hm H. apply date_of_unique; [now apply trunc_ok_time_ok| |].
  - split; [exact Hm|]. pose proof (days_in_month_bounds y m). lia.
  - rewrite Z.mul_comm. now rewrite Z.div_mul.
Qed.

Lemma date_of_jan1 y :
  trunc_ok (86400 * jan1 y) -> date_of (86400 * jan1 y) = (y, 1, 1).
Proof.
  rewrite <- (day_number_jan1 y). intros H. apply date_of_start; [lia | exact H].
Qed.

Lemma jan1_le_day t :
  time_ok t -> let '(y, m, d) := date_of t in
  86400 * jan1 y <= t /\ (forall n, n <= y -> 86400 * jan1 n <= t) /\
  86400 * day_number y m 1 <= t /\
  86400 * day_number y (quarter_month m) 1 <= t.
Proof.
  intros Ht. pose proof (date_of_spec t Ht) as V. destruct (date_of t) as [[y m] d].
  destruct V as [V E]. pose proof (days_before_month_year _ _ _ V) as B.
  destruct V as [Vm Vd]. unfold day_number in *.
  assert (Hq : days_before_month y (quarter_month m) <= days_before_month y m)
    by (apply days_before_month_mono; unfold quarter_month; divmod).
  pose proof (days_before_month_mono y 1 m ltac:(lia)) as H1.
  change (days_before_month y 1) with 0 in H1.
  pose proof (Z.mul_div_le t 86400 ltac:(lia)).
  repeat split; try lia. intros n Hn. pose proof (jan1_mono n y Hn). lia.
Qed.

(** Truncation never moves a time forward, and truncating a truncated time changes
    nothing, for every field. *)
Theorem DateTruncate_floor (f : DateTruncField) (t r : Z)
    (H : trunc_ok t) (E : DateTruncate f t = Some r) :
  r <= t /\ (trunc_ok r -> DateTruncate f r = Some r).
Proof.
  pose proof (DateTruncate_date f t H) as D.
  pose proof (jan1_le_day t (trunc_ok_time_ok t H)) as J.
  pose proof (date_of_spec t (trunc_ok_time_ok t H)) as V.
  destruct (date_of t) as [[y m] d]. rewrite D in E. destruct J as (Jy & Jn & Jm & Jq).
  destruct V as [[Vm _] _]. split.
  - destruct f; cbn [period_start] in E; try discriminate E; apply some_inj in E; subst r;
      try assumption; try (apply Jn; divmod); unfold week_begin; divmod.
  - intros Hr. pose proof (DateTruncate_date f r Hr) as D'.
    destruct f; cbn [period_start] in E; try discriminate E; apply some_inj in E; subst r;
      first [ rewrite date_of_start in D' by (try assumption; unfold quarter_month; divmod)
            | rewrite date_of_jan1 in D' by assumption
            | destruct (date_of _) as [[y' m'] d'] ];
      rewrite D'; cbn [period_start]; f_equal; f_equal;
      try (unfold week_begin; divmod); try (f_equal; try unfold quarter_month; divmod).
Qed.

Lemma DateTruncate_floor_witness :
  trunc_ok 1700000000 /\ DateTruncate DT_kDecade 1700000000 = Some 1577836800 /\
  1577836800 <= 1700000000 /\
  (trunc_ok 1577836800 -> DateTruncate DT_kDecade 1577836800 = Some 1577836800).
Proof.
  assert (H : trunc_ok 1700000000) by (unfold trunc_ok; vm_compute; intuition congruence).
  assert (E : DateTruncate DT_kDecade 1700000000 = Some 1577836800) by reflexivity.
  exact (conj H (conj E (DateTruncate_floor DT_kDecade 1700000000 1577836800 H E))).
Defined.
