(* ===== verification/DateAdd.v ===== *)
(** * Adding calendar intervals to a time

    Model of [QueryEngine/DateAdd.cpp]: the [MonthDaySecond] representation with its
    day-of-month clamping, [DateAdd] and its high-precision and nullable variants, and of
    the precision tables and scalings of [QueryEngine/DateTimeUtils.h] and
    [QueryEngine/DateTimeTranslator.h].  [None] is [abort()] or a thrown
    [std::runtime_error]. *)

From Stdlib Require Import ZArith Lia List Bool.
From S2P Require Import Prelude ExtractFromTime DateTruncate.
Import ListNotations.
Local Open Scope Z_scope.

(** ** [DateAdd.cpp] *)

(** Months, day of the month (0-based) and second of the day since 2000-03-01. *)
Record MonthDaySecond := mkMDS { mds_months : Z; mds_dom : Z; mds_sod : Z }.

Definition clampDom (yoe moy dom : Z) : Z :=
  let max_days := [30; 29; 30; 29; 30; 30; 29; 30; 29; 30; 30] in
  if dom <? 28 then dom
  else
    let max_day :=
      if moy =? 11 then
        let yoe := u32 (yoe + 1) in
        27 + b2z ((yoe mod 4 =? 0) && (negb (yoe mod 100 =? 0) || (yoe =? 400)))
      else at_ max_days moy in
    if dom <? max_day then dom else max_day.

Definition MonthDaySecond_make (timeval : Z) : MonthDaySecond :=
  let day := floor_div timeval kSecsPerDay in
  let era := floor_div (s64 (day - kEpochAdjustedDays)) kDaysPer400Years in
  let sod := u32 (timeval - day * kSecsPerDay) in
  let doe := u32 (day - kEpochAdjustedDays - era * kDaysPer400Years) in
  let yoe := u32 (doe - doe / 1460 + doe / 36524 - doe / 146096) / 365 in
  let doy := u32 (doe - (365 * yoe + yoe / 4 - yoe / 100)) in
  let moy := u32 (5 * doy + 2) / 153 in
  let dom := u32 (doy - u32 (153 * moy + 2) / 5) in
  let months := s64 ((era * 400 + yoe) * 12 + moy) in
  mkMDS months dom sod.

Definition addMonths (t : MonthDaySecond) (months : Z) : MonthDaySecond :=
  mkMDS (s64 (mds_months t + months)) (mds_dom t) (mds_sod t).

Definition unixtime (t : MonthDaySecond) : Z :=
  let era := floor_div (mds_months t) (12 * 400) in
  let moe := u32 (mds_months t - era * (12 * 400)) in
  let yoe := moe / 12 in
  let moy := moe mod 12 in
  let doy := u32 (u32 (153 * moy + 2) / 5 + clampDom yoe moy (mds_dom t)) in
  let doe := u32 (yoe * 365 + yoe / 4 - yoe / 100 + doy) in
  s64 ((kEpochAdjustedDays + era * kDaysPer400Years + doe) * kSecsPerDay + mds_sod t).

Definition DateAdd (field : DateAddField) (number timeval : Z) : option Z :=
  let add_months (n : Z) := unixtime (addMonths (MonthDaySecond_make timeval) n) in
  match field with
  | DA_kSecond => Some (s64 (timeval + number))
  | DA_kMinute => Some (s64 (timeval + number * kSecsPerMin))
  | DA_kHour => Some (s64 (timeval + number * kSecsPerHour))
  | DA_kWeekDay | DA_kDayOfYear | DA_kDay => Some (s64 (timeval + number * kSecsPerDay))
  | DA_kWeek => Some (s64 (timeval + number * (7 * kSecsPerDay)))
  | DA_kMonth => Some (add_months number)
  | DA_kQuarter => Some (add_months (s64 (number * 3)))
  | DA_kYear => Some (add_months (s64 (number * 12)))
  | DA_kDecade => Some (add_months (s64 (number * 120)))
  | DA_kCentury => Some (add_months (s64 (number * 1200)))
  | DA_kMillennium => Some (add_months (s64 (number * 12000)))
  | DA_kMilli | DA_kMicro | DA_kNano | DA_kQuarterDay | DA_kInvalid => None
  end.

Definition DateAddHighPrecision (field : DateAddField) (number timeval dim : Z) : option Z :=
  let subsecond (field_dim : Z) :=
    let adj_dim := s32 (dim - field_dim) in
    if adj_dim <? 0 then s64 (timeval + floor_div number (at_ pow10_table (- adj_dim)))
    else s64 (timeval + number * at_ pow10_table adj_dim) in
  match field with
  | DA_kMilli => Some (subsecond 3)
  | DA_kMicro => Some (subsecond 6)
  | DA_kNano => Some (subsecond 9)
  | _ =>
      let scale := at_ pow10_table dim in
      match DateAdd field number (floor_div timeval scale) with
      | Some r => Some (s64 (r * scale + unsigned_mod timeval scale))
      | None => None
      end
  end.

Definition DateAddNullable (field : DateAddField) (number timeval null_val : Z) : option Z :=
  if timeval =? null_val then Some null_val else DateAdd field number timeval.

Definition DateAddHighPrecisionNullable (field : DateAddField)
    (number timeval dim null_val : Z) : option Z :=
  if timeval =? null_val then Some null_val
  else DateAddHighPrecision field number timeval dim.

(** ** [DateTimeUtils.h] and [IR/DateTime.h] *)

Inductive OpType := kMul | kDiv.

Inductive ScalingType := ScaleUp | ScaleDown.

Definition get_timestamp_precision_scale (dimen : Z) : option Z :=
  if dimen =? 0 then Some 1
  else if dimen =? 3 then Some kMilliSecsPerSec
  else if dimen =? 6 then Some kMicroSecsPerSec
  else if dimen =? 9 then Some kNanoSecsPerSec
  else None.

Definition get_dateadd_timestamp_precision_scale (field : DateAddField) : option Z :=
  match field with
  | DA_kMilli => Some kMilliSecsPerSec
  | DA_kMicro => Some kMicroSecsPerSec
  | DA_kNano => Some kNanoSecsPerSec
  | _ => None
  end.

Definition get_extract_timestamp_precision_scale (field : DateExtractField) : option Z :=
  match field with
  | DE_kMilli => Some kMilliSecsPerSec
  | DE_kMicro => Some kMicroSecsPerSec
  | DE_kNano => Some kNanoSecsPerSec
  | _ => None
  end.

Definition is_subsecond_extract_field (field : DateExtractField) : bool :=
  match field with DE_kMilli | DE_kMicro | DE_kNano => true | _ => false end.

Definition is_subsecond_dateadd_field (field : DateAddField) : bool :=
  match field with DA_kMilli | DA_kMicro | DA_kNano => true | _ => false end.

Definition is_subsecond_datetrunc_field (field : DateTruncField) : bool :=
  match field with DT_kMilli | DT_kMicro | DT_kNano => true | _ => false end.

(** The outer [None] is a thrown error, the inner one the value-initialised pair. *)
Definition get_dateadd_high_precision_adjusted_scale (field : DateAddField) (dimen : Z)
    : option (option (OpType * Z)) :=
  match field with
  | DA_kNano =>
      if dimen =? 9 then Some None
      else if dimen =? 6 then Some (Some (kDiv, kMilliSecsPerSec))
      else if dimen =? 3 then Some (Some (kDiv, kMicroSecsPerSec))
      else None
  | DA_kMicro =>
      if dimen =? 9 then Some (Some (kMul, kMilliSecsPerSec))
      else if dimen =? 6 then Some None
      else if dimen =? 3 then Some (Some (kDiv, kMilliSecsPerSec))
      else None
  | DA_kMilli =>
      if dimen =? 9 then Some (Some (kMul, kMicroSecsPerSec))
      else if dimen =? 6 then Some (Some (kMul, kMilliSecsPerSec))
      else if dimen =? 3 then Some None
      else None
  | _ => None
  end.

(** The lookup in [extract_precision_lookup]; [None] stands for the value-initialised
    pair, whose [second] is zero. *)
Definition get_extract_high_precision_adjusted_scale
    (field : DateExtractField) (unit : TimeUnit) : option (OpType * Z) :=
  match unit, field with
  | TU_kMilli, DE_kMicro => Some (kMul, kMilliSecsPerSec)
  | TU_kMilli, DE_kNano => Some (kMul, kMicroSecsPerSec)
  | TU_kMicro, DE_kMilli => Some (kDiv, kMilliSecsPerSec)
  | TU_kMicro, DE_kNano => Some (kMul, kMilliSecsPerSec)
  | TU_kNano, DE_kMilli => Some (kDiv, kMicroSecsPerSec)
  | TU_kNano, DE_kMicro => Some (kDiv, kMilliSecsPerSec)
  | _, _ => None
  end.

Definition get_datetrunc_high_precision_scale (field : DateTruncField) (unit : TimeUnit) : Z :=
  match unit, field with
  | TU_kMicro, DT_kMilli => kMilliSecsPerSec
  | TU_kNano, DT_kMicro => kMilliSecsPerSec
  | TU_kNano, DT_kMilli => kMicroSecsPerSec
  | _, _ => -1
  end.

Definition get_datetime_scaled_epoch (direction : ScalingType) (epoch dimen : Z) : option Z :=
  match get_timestamp_precision_scale dimen with
  | None => None
  | Some scale =>
      match direction with
      | ScaleUp =>
          let scaled_epoch := s64 (epoch * scale) in
          if negb (epoch =? 0) && negb (epoch =? Z.quot scaled_epoch scale) then None
          else Some scaled_epoch
      | ScaleDown => Some (Z.quot epoch scale)
      end
  end.

Definition get_nanosecs_in_unit (unit : TimeUnit) : option Z :=
  match unit with
  | TU_kDay => Some 86400000000000
  | TU_kSecond => Some 1000000000
  | TU_kMilli => Some 1000000
  | TU_kMicro => Some 1000
  | TU_kNano => Some 1
  | TU_kMonth => None
  end.

Definition get_datetime_scaled_epoch_unit (epoch : Z) (old_unit new_unit : TimeUnit)
    : option Z :=
  match get_nanosecs_in_unit old_unit, get_nanosecs_in_unit new_unit with
  | Some old_scale, Some new_scale =>
      if new_scale <? old_scale then
        let scaled_epoch := s64 (epoch * Z.quot old_scale new_scale) in
        if negb (epoch =? 0)
           && negb (epoch =? Z.quot scaled_epoch (Z.quot old_scale new_scale))
        then None else Some scaled_epoch
      else Some (Z.quot epoch (Z.quot new_scale old_scale))
  | _, _ => None
  end.

Definition unitsPerSecond (unit : TimeUnit) : option Z :=
  match unit with
  | TU_kSecond => Some 1
  | TU_kMilli => Some 1000
  | TU_kMicro => Some 1000000
  | TU_kNano => Some 1000000000
  | TU_kMonth | TU_kDay => None
  end.

(** ** [DateTimeTranslator.h]

    [timestamp_unit] is [Some unit] when the type is a timestamp of that unit and [None]
    for the other date-time types. *)

Definition finer_than_second (unit : TimeUnit) : bool :=
  match unit with TU_kMilli | TU_kMicro | TU_kNano => true | _ => false end.

Definition getExtractFromTimeConstantValue (timeval : Z) (field : DateExtractField)
    (timestamp_unit : option TimeUnit) : option Z :=
  match timestamp_unit with
  | Some unit =>
      if finer_than_second unit then
        if is_subsecond_extract_field field then
          match get_extract_high_precision_adjusted_scale field unit with
          | Some (kDiv, n) => Some (ExtractFromTime field (floor_div timeval n))
          | Some (kMul, n) => Some (ExtractFromTime field (s64 (timeval * n)))
          | None => Some (ExtractFromTime field timeval)
          end
        else
          match unitsPerSecond unit with
          | Some n => Some (ExtractFromTime field (floor_div timeval n))
          | None => None
          end
      else if is_subsecond_extract_field field then
        match get_extract_timestamp_precision_scale field with
        | Some n => Some (ExtractFromTime field (s64 (timeval * n)))
        | None => None
        end
      else Some (ExtractFromTime field timeval)
  | None =>
      if is_subsecond_extract_field field then
        match get_extract_timestamp_precision_scale field with
        | Some n => Some (ExtractFromTime field (s64 (timeval * n)))
        | None => None
        end
      else Some (ExtractFromTime field timeval)
  end.

Definition getDateTruncConstantValue (timeval : Z) (field : DateTruncField)
    (timestamp_unit : option TimeUnit) : option Z :=
  match timestamp_unit with
  | Some unit =>
      if finer_than_second unit then
        if is_subsecond_datetrunc_field field then
          match DateTruncate field timeval with
          | None => None
          | Some date_truncate =>
              let result := get_datetrunc_high_precision_scale field unit in
              Some (if negb (result =? -1)
                    then s64 (date_truncate - unsigned_mod date_truncate result)
                    else date_truncate)
          end
        else
          match unitsPerSecond unit with
          | None => None
          | Some scale =>
              match DateTruncate field (floor_div timeval scale) with
              | Some r => Some (s64 (r * scale))
              | None => None
              end
          end
      else DateTruncate field timeval
  | None => DateTruncate field timeval
  end.
