(* ===== verification/DateAddFacts.v ===== *)
(** * Correctness of interval addition and of date differences *)

From Stdlib Require Import ZArith Lia List Bool.
From S2P Require Import Prelude Civil ExtractFromTime ExtractFacts.
From S2P Require Import DateTruncate DateTruncFacts DateAdd.
Import ListNotations.
Local Open Scope Z_scope.

(** ** Months since year 0 and the rest of the month *)

(** Months from January of year 0 to the month of [t]. *)
Definition month_index (t : Z) : Z := let '(y, m, _) := date_of t in 12 * y + m - 1.

(** Seconds from the start of the month of [t]. *)
Definition month_rest (t : Z) : Z := let '(_, _, d) := date_of t in 86400 * (d - 1) + t mod 86400.

(** Whole months from [s] to [e]: the months between their calendar months, less the last
    one when [e] is earlier in its month than [s] in its own. *)
Definition whole_months (s e : Z) : Z :=
  month_index e - month_index s - b2z (month_rest e <? month_rest s).

Lemma civil_index era yoe moy :
  12 * civil_year era yoe moy + civil_month moy - 1
  = 12 * (2000 + 400 * era + yoe) + moy + 2.
Proof. unfold civil_year, civil_month, b2z. zbool; lia. Qed.

(** [doe / 146096] is the [doe == 146096] of the extraction code. *)
Lemma year_of_era_quot doe yoe :
  0 <= doe < 146097 -> year_of_era doe = yoe ->
  (doe - doe / 1460 + doe / 36524 - doe / 146096) / 365 = yoe /\
  0 <= doe - doe / 1460 + doe / 36524 - doe / 146096 < 146097.
Proof.
  intros B E. assert (Hl : doe / 146096 = b2z (doe =? 146096)) by (unfold b2z; zbool; divmod).
  rewrite Hl. assert (Hr : 0 <= doe - doe / 1460 + doe / 36524 - b2z (doe =? 146096) < 146097)
    by (unfold b2z; zbool; divmod).
  split; [|exact Hr]. unfold year_of_era in E. rewrite u32_small in E by lia. exact E.
Qed.

(** The fields both month representations of the source compute. *)
Lemma era_fields t :
  time_ok t ->
  exists era yoe moy dom,
    EraTime_make t = mkEraTime era yoe moy dom (t mod 86400) /\
    MonthDaySecond_make t = mkMDS (12 * (400 * era + yoe) + moy) dom (t mod 86400) /\
    month_index t = 12 * (2000 + 400 * era + yoe) + moy + 2 /\
    month_rest t = 86400 * dom + t mod 86400 /\
    date_of t = (civil_year era yoe moy, civil_month moy, dom + 1) /\
    0 <= yoe < 400 /\ 0 <= moy <= 11 /\ 0 <= dom <= 30 /\
    -730692700 <= era <= 730692700.
Proof.
  intros Ht. destruct (time_ok_day t Ht) as [Eday Bday].
  pose proof (date_of_spec t Ht) as V.
  destruct (slow_path t Ht)
    as (era & yoe & doy & Ed & Et & Edoe & Eyoe & Edoy & Emoy & Byoe & Bdoy & Bleap & Bdoe & Edate).
  destruct (moy_of_bounds doy Bdoy) as (Bm & Blo & Bhi).
  rewrite Edate in V. destruct V as [[_ [Vlo Vhi]] _].
  pose proof (days_in_month_bounds (civil_year era yoe (moy_of doy)) (civil_month (moy_of doy))).
  exists era, yoe, (moy_of doy), (dom_of doy).
  assert (Hday : s64 (t / 86400 - 11017) = t / 86400 - 11017) by (rewrite s64_small; lia).
  assert (Hera : floor_div (t / 86400 - 11017) 146097 = era)
    by (rewrite floor_div_spec by (consts; lia); divmod).
  assert (Hsod : t - t / 86400 * 86400 = t mod 86400) by divmod.
  pose proof (Z.mod_pos_bound t 86400 ltac:(lia)) as Bsod.
  set (doe := yoe_start yoe + doy) in *.
  assert (Hdoe : t / 86400 - 11017 - era * 146097 = doe) by lia.
  destruct (year_of_era_quot doe yoe Bdoe Eyoe) as [Hyoe Byoe'].
  assert (Hdoy : doe - (365 * yoe + yoe / 4 - yoe / 100) = doy)
    by (subst doe; unfold yoe_start; lia).
  assert (Hdom : doy - (153 * moy_of doy + 2) / 5 = dom_of doy) by reflexivity.
  assert (0 <= 365 * yoe + yoe / 4 - yoe / 100 < 146097) by divmod.
  assert (-730692700 <= era <= 730692700) by lia.
  repeat split; try lia.
  - unfold EraTime_make. consts. rewrite Ed, Hday, Hera, Hsod, Hdoe.
    rewrite !(s32_small (t mod 86400)), !(s32_small doe) by lia.
    rewrite (Z.quot_div_nonneg doe 1460), (Z.quot_div_nonneg doe 36524),
      (Z.quot_div_nonneg doe 146096) by lia.
    rewrite (s32_small (doe - _ + _ - _)), (Z.quot_div_nonneg (doe - _ + _ - _)), Hyoe by lia.
    rewrite (Z.quot_div_nonneg yoe 4), (Z.quot_div_nonneg yoe 100), Hdoy by lia.
    rewrite !(s32_small doy), (s32_small (5 * doy + 2)) by lia.
    rewrite (Z.quot_div_nonneg (5 * doy + 2)) by lia. fold (moy_of doy).
    rewrite (Z.quot_div_nonneg (153 * moy_of doy + 2)), Hdom, s32_small by lia. reflexivity.
  - unfold MonthDaySecond_make. consts. rewrite Ed, Hday, Hera, Hsod, Hdoe.
    rewrite !(u32_small (t mod 86400)), !(u32_small doe) by lia.
    rewrite (u32_small (doe - _ + _ - _)) by lia. rewrite Hyoe, Hdoy.
    rewrite !(u32_small doy) by lia. rewrite (u32_small (5 * doy + 2)) by lia.
    fold (moy_of doy). rewrite (u32_small (153 * moy_of doy + 2)) by lia.
    rewrite Hdom, u32_small, s64_small by lia. f_equal. lia.
  - unfold month_index. rewrite Edate. apply civil_index.
  - unfold month_rest. rewrite Edate. lia.
  - exact Edate.
Qed.

(** ** The order of times, by month *)

(** Day number of the first day of month [M], counted from January of year 0. *)
Definition month_first (M : Z) : Z := day_number (M / 12) (M mod 12 + 1) 1.

Lemma month_first_succ M :
  month_first (M + 1) = month_first M + days_in_month (M / 12) (M mod 12 + 1).
Proof.
  unfold month_first, day_number.
  destruct (Z.eq_dec (M mod 12) 11) as [E|N].
  - replace ((M + 1) / 12) with (M / 12 + 1) by divmod.
    replace ((M + 1) mod 12) with 0 by divmod. rewrite E, jan1_succ.
    change (days_before_month (M / 12 + 1) (0 + 1)) with 0.
    pose proof (days_before_month_succ (M / 12) 12 ltac:(lia)) as H.
    change (days_before_month (M / 12) (12 + 1)) with (year_days (M / 12)) in H.
    rewrite year_days_leap in H. change (11 + 1) with 12. lia.
  - replace ((M + 1) / 12) with (M / 12) by divmod.
    replace ((M + 1) mod 12) with (M mod 12 + 1) by divmod.
    rewrite (days_before_month_succ _ (M mod 12 + 1)) by divmod. lia.
Qed.

Lemma month_first_mono M N : M <= N -> month_first M <= month_first N.
Proof.
  revert N. refine (Zlt_lower_bound_ind _ M _). intros N IH HN.
  destruct (Z.eq_dec M N) as [->|]; [lia|].
  specialize (IH (N - 1) ltac:(lia)).
  pose proof (month_first_succ (N - 1)) as Hs. replace (N - 1 + 1) with N in Hs by lia.
  pose proof (days_in_month_bounds ((N - 1) / 12) ((N - 1) mod 12 + 1)). lia.
Qed.

Lemma month_split t :
  time_ok t ->
  t = 86400 * month_first (month_index t) + month_rest t /\
  0 <= month_rest t /\
  86400 * month_first (month_index t) + month_rest t < 86400 * month_first (month_index t + 1).
Proof.
  intros Ht. pose proof (date_of_spec t Ht) as V. rewrite month_first_succ.
  unfold month_index, month_rest, month_first.
  destruct (date_of t) as [[y m] d]. destruct V as [[Vm Vd] V].
  replace ((12 * y + m - 1) / 12) with y by divmod.
  replace ((12 * y + m - 1) mod 12 + 1) with m by divmod.
  unfold day_number in *. divmod.
Qed.

Lemma month_order s e :
  time_ok s -> time_ok e -> s <= e ->
  month_index s < month_index e \/
  (month_index s = month_index e /\ month_rest s <= month_rest e).
Proof.
  intros Hs He H. destruct (month_split s Hs) as (Es & Bs & _).
  destruct (month_split e He) as (Ee & _ & Be).
  destruct (Z.lt_trichotomy (month_index s) (month_index e)) as [L|[E|L]]; [now left| |].
  - right. rewrite E in *. lia.
  - pose proof (month_first_mono (month_index e + 1) (month_index s) ltac:(lia)). lia.
Qed.

(** ** [EraTime::count] *)

(** Months of a calendar period. *)
Definition period_months (f : DateTruncField) : option Z :=
  match f with
  | DT_kMonth => Some 1
  | DT_kQuarter => Some 3
  | DT_kYear => Some 12
  | DT_kDecade => Some 120
  | DT_kCentury => Some 1200
  | DT_kMillennium => Some 12000
  | _ => None
  end.

Definition era_bounded (x : EraTime) : Prop :=
  -2000000000 < et_era x < 2000000000 /\ -400 < et_yoe x < 400 /\ -12 < et_moy x < 12 /\
  -31 < et_dom x < 31 /\ -86400 < et_sod x < 86400.

Definition era_months (x : EraTime) : Z := 12 * (400 * et_era x + et_yoe x) + et_moy x.
Definition era_rest (x : EraTime) : Z := 86400 * et_dom x + et_sod x.

Lemma era_signs x :
  era_bounded x ->
  (EraTime_sign x DOM =? -1) = (era_rest x <? 0) /\
  (EraTime_sign x MOY =? -1) = (et_moy x <? b2z (era_rest x <? 0)) /\
  EraTime_sign x ERA
  = if 0 <? era_months x then 1 else if era_months x <? 0 then -1 else Z.sgn (era_rest x).
Proof.
  destruct x as [e y m d s]. unfold era_bounded, era_months, era_rest, EraTime_sign, b2z.
  cbn [et_era et_yoe et_moy et_dom et_sod]. intros B.
  pose proof (Z.sgn_spec (86400 * d + s)) as Hs.
  destruct (Z.eqb_spec e 0); destruct (Z.eqb_spec y 0); destruct (Z.eqb_spec m 0);
    destruct (Z.eqb_spec d 0); destruct (Z.eqb_spec s 0); cbn [negb];
    repeat split; zbool; lia.
Qed.

Lemma count_per n Y m b :
  n = 10 \/ n = 100 \/ n = 1000 -> 0 <= Y -> -12 < m < 12 -> 0 <= b <= 1 ->
  0 <= 12 * Y + m - b ->
  Y / n - b2z ((Y mod n =? 0) && (m <? b)) = (12 * Y + m - b) / (12 * n) /\
  0 <= Y / n - b2z ((Y mod n =? 0) && (m <? b)).
Proof.
  intros Hn HY Hm Hb Hp.
  destruct Hn as [->|[->| ->]]; unfold b2z; zbool; cbn [andb]; divmod.
Qed.

Lemma count_quarter Y m b :
  -12 < m < 12 -> 0 <= b <= 1 ->
  4 * Y + Z.quot m 3 - b2z ((Z.rem m 3 <? 0) || ((Z.rem m 3 =? 0) && (b =? 1)))
  = (12 * Y + m - b) / 3.
Proof. intros Hm Hb. unfold b2z. zbool; cbn [andb orb]; divmod. Qed.

Lemma s64_sgn sgn r :
  -1 <= sgn <= 1 -> 0 <= r < 4611686018427387904 -> s64 (sgn * r) = sgn * r.
Proof. intros Hs Hr. apply s64_small. nia. Qed.

Lemma era_count_switch f k sgn x :
  era_bounded x -> period_months f = Some k -> -1 <= sgn <= 1 ->
  0 < era_months x \/ (era_months x = 0 /\ 0 <= era_rest x) ->
  EraTime_count_switch sgn x f
  = Some (sgn * ((era_months x - b2z (era_rest x <? 0)) / k)).
Proof.
  intros B Hk Hsgn Hpos. set (b := b2z (era_rest x <? 0)).
  assert (Hp : 0 <= b <= 1 /\ 0 <= era_months x - b /\ (era_rest x <? 0) = (b =? 1))
    by (unfold b, b2z; destruct (Z.ltb_spec (era_rest x) 0);
        repeat split; try reflexivity; lia).
  destruct Hp as (Hb & Hp & Hr). destruct (era_signs x B) as (Ed & Em & _).
  unfold EraTime_count_switch. rewrite Ed, Em. fold b.
  rewrite Hr. unfold era_months in *. destruct B as (Be & By & Bm & _ & _).
  assert (Bs : s64 (400 * et_era x + et_yoe x) = 400 * et_era x + et_yoe x)
    by (apply s64_small; lia).
  rewrite Bs. set (Y := 400 * et_era x + et_yoe x) in *. assert (BY : 0 <= Y) by lia.
  assert (Bmax : Y < 1000000000000) by (unfold Y; lia). clearbody Y.
  assert (Hper : forall n, n = 10 \/ n = 100 \/ n = 1000 ->
    s64 (sgn * u64 (u64 (Z.quot Y n) - b2z ((u32 (Z.rem Y n) =? 0) && (et_moy x <? b))))
    = sgn * ((12 * Y + et_moy x - b) / (12 * n))).
  { intros n Hn. rewrite Z.quot_div_nonneg, Z.rem_mod_nonneg by lia.
    destruct (count_per n Y (et_moy x) b Hn BY Bm Hb Hp) as [E1 E2].
    rewrite (u64_small (Y / n)) by (destruct Hn as [->|[->| ->]]; divmod).
    rewrite (u32_small (Y mod n)) by (destruct Hn as [->|[->| ->]]; divmod).
    rewrite E1 in *. set (r := (12 * Y + et_moy x - b) / (12 * n)) in *.
    assert (r <= Y + 1) by (unfold r; destruct Hn as [->|[->| ->]]; divmod).
    rewrite u64_small, s64_sgn by lia. reflexivity. }
  destruct f; try discriminate Hk; apply some_inj in Hk; subst k; f_equal;
    try (apply Hper; lia).
  - replace (b2z (et_moy x <? b)) with (Y - (12 * Y + et_moy x - b) / 12)
      by (unfold b2z; clear - Bm Hb; zbool; divmod).
    rewrite Z.sub_sub_distr, Z.sub_diag, Z.add_0_l. apply s64_sgn; [exact Hsgn | divmod].
  - rewrite count_quarter by assumption. apply s64_sgn; [exact Hsgn | divmod].
  - rewrite Z.div_1_r. replace (b2z (b =? 1)) with b by (unfold b2z; zbool; lia).
    apply s64_sgn; [exact Hsgn | lia].
Qed.

Lemma era_count_spec f k x :
  era_bounded x -> period_months f = Some k ->
  0 < era_months x \/ (era_months x = 0 /\ 0 <= era_rest x) ->
  EraTime_count x f = Some ((era_months x - b2z (era_rest x <? 0)) / k) /\
  EraTime_count (EraTime_neg x) f = Some (- ((era_months x - b2z (era_rest x <? 0)) / k)).
Proof.
  intros B Hk Hpos.
  assert (Hneg : EraTime_neg x = mkEraTime (- et_era x) (- et_yoe x) (- et_moy x)
                   (- et_dom x) (- et_sod x)).
  { unfold EraTime_neg. destruct B as (Be & _). rewrite s64_small by lia. reflexivity. }
  assert (Hnn : EraTime_neg (EraTime_neg x) = x).
  { rewrite Hneg. unfold EraTime_neg; cbn [et_era et_yoe et_moy et_dom et_sod].
    destruct B as (Be & _). rewrite s64_small, !Z.opp_involutive by lia. now destruct x. }
  assert (Bn : era_bounded (EraTime_neg x)).
  { rewrite Hneg. unfold era_bounded in *; cbn [et_era et_yoe et_moy et_dom et_sod]. lia. }
  assert (Hm : era_months (EraTime_neg x) = - era_months x /\
               era_rest (EraTime_neg x) = - era_rest x).
  { rewrite Hneg. unfold era_months, era_rest; cbn [et_era et_yoe et_moy et_dom et_sod]. lia. }
  destruct Hm as [Hm Hr].
  destruct (era_signs x B) as (_ & _ & Es). destruct (era_signs _ Bn) as (_ & _ & Esn).
  rewrite Hm, Hr in Esn. unfold EraTime_count. rewrite Es, Esn. clear Es Esn.
  pose proof (Z.sgn_spec (era_rest x)) as Hs. pose proof (Z.sgn_spec (- era_rest x)) as Hs'.
  set (W := (era_months x - b2z (era_rest x <? 0)) / k).
  assert (HW : era_months x = 0 -> era_rest x = 0 -> W = 0)
    by (intros E1 E2; unfold W; now rewrite E1, E2, Z.div_0_l by (destruct f; inversion Hk; lia)).
  destruct (Z.ltb_spec 0 (era_months x)); destruct (Z.ltb_spec 0 (- era_months x)); try lia;
    destruct (Z.ltb_spec (era_months x) 0); destruct (Z.ltb_spec (- era_months x) 0); try lia.
  - cbn [Z.eqb Pos.eqb]. rewrite Hnn, !(era_count_switch f k _ x B Hk) by (assumption || lia).
    fold W. split; f_equal; lia.
  - destruct (Z.eq_dec (era_rest x) 0) as [E|N].
    + rewrite E. cbn [Z.opp Z.sgn Z.eqb]. rewrite (era_count_switch f k _ x B Hk) by lia.
      rewrite (era_count_switch f k _ _ Bn Hk) by lia. fold W. split; f_equal; lia.
    + replace (Z.sgn (era_rest x)) with 1 by lia. replace (Z.sgn (- era_rest x)) with (-1) by lia.
      cbn [Z.eqb Pos.eqb]. rewrite Hnn, !(era_count_switch f k _ x B Hk) by (assumption || lia).
      fold W. split; f_equal; lia.
Qed.

Lemma DateDiff_calendar_dir f k s e :
  period_months f = Some k -> time_ok s -> time_ok e -> s <= e ->
  DateDiff f s e = Some (whole_months s e / k) /\
  DateDiff f e s = Some (- (whole_months s e / k)).
Proof.
  intros Hk Hs He Hle.
  pose proof (month_order s e Hs He Hle) as Hord.
  destruct (era_fields s Hs)
    as (era & yoe & moy & dom & Es & _ & Is & Rs & _ & By & Bm & Bd & Be).
  destruct (era_fields e He)
    as (era' & yoe' & moy' & dom' & Ee & _ & Ie & Re & _ & By' & Bm' & Bd' & Be').
  pose proof (Z.mod_pos_bound s 86400 ltac:(lia)). pose proof (Z.mod_pos_bound e 86400 ltac:(lia)).
  set (x := EraTime_sub (EraTime_make e) (EraTime_make s)).
  assert (Ex : x = mkEraTime (era' - era) (yoe' - yoe) (moy' - moy) (dom' - dom)
                     (e mod 86400 - s mod 86400)).
  { unfold x. rewrite Es, Ee. unfold EraTime_sub; cbn [et_era et_yoe et_moy et_dom et_sod].
    rewrite s64_small by lia. reflexivity. }
  assert (Exn : EraTime_sub (EraTime_make s) (EraTime_make e) = EraTime_neg x).
  { rewrite Ex, Es, Ee. unfold EraTime_sub, EraTime_neg; cbn [et_era et_yoe et_moy et_dom et_sod].
    f_equal; lia || (f_equal; lia). }
  assert (Bx : era_bounded x)
    by (rewrite Ex; unfold era_bounded; cbn [et_era et_yoe et_moy et_dom et_sod]; lia).
  assert (HM : era_months x = month_index e - month_index s /\
               era_rest x = month_rest e - month_rest s)
    by (rewrite Ex; unfold era_months, era_rest; cbn [et_era et_yoe et_moy et_dom et_sod]; lia).
  destruct HM as [HM HR].
  assert (HW : whole_months s e = era_months x - b2z (era_rest x <? 0)).
  { unfold whole_months. rewrite HM, HR. unfold b2z. zbool; lia. }
  destruct (era_count_spec f k x Bx Hk ltac:(lia)) as [C1 C2].
  rewrite HW. destruct f; try discriminate Hk; cbn [DateDiff]; rewrite Exn; now split.
Qed.

(** The calendar part of [DATEDIFF]: between two ordered times it is the number of
    whole months between them divided by the months of the period (month, quarter, year,
    decade, century, millennium), and exchanging the times negates it. *)
Theorem DateDiff_calendar (f : DateTruncField) (k s e : Z)
    (Hk : period_months f = Some k) (Hs : time_ok s) (He : time_ok e) (Hle : s <= e) :
  DateDiff f s e = Some (whole_months s e / k) /\
  DateDiff f e s = Some (- (whole_months s e / k)).
Proof. exact (DateDiff_calendar_dir f k s e Hk Hs He Hle). Qed.

Lemma DateDiff_calendar_witness :
  time_ok 951782400 /\ time_ok 1700000000 /\
  DateDiff DT_kQuarter 951782400 1700000000 = Some (whole_months 951782400 1700000000 / 3) /\
  DateDiff DT_kQuarter 1700000000 951782400
  = Some (- (whole_months 951782400 1700000000 / 3)).
Proof.
  assert (H1 : time_ok 951782400) by (unfold time_ok; vm_compute; intuition congruence).
  assert (H2 : time_ok 1700000000) by (unfold time_ok; vm_compute; intuition congruence).
  refine (conj H1 (conj H2 (DateDiff_calendar DT_kQuarter 3 _ _ eq_refl H1 H2 _))).
  vm_compute; congruence.
Defined.

(** ** Adding months *)

(** The date [n] months after [y]-[m]-[d], with the day clamped to the last one of the
    month, as a day number. *)
Definition months_later (y m d n : Z) : Z :=
  let M := 12 * y + m - 1 + n in
  day_number (M / 12) (M mod 12 + 1) (Z.min d (days_in_month (M / 12) (M mod 12 + 1))).

Lemma clampDom_spec era yoe moy dom :
  0 <= yoe < 400 -> 0 <= moy <= 11 -> 0 <= dom <= 30 ->
  clampDom yoe moy dom
  = Z.min (dom + 1) (days_in_month (civil_year era yoe moy) (civil_month moy)) - 1.
Proof.
  intros Hy Hm Hd. unfold clampDom.
  pose proof (days_in_month_bounds (civil_year era yoe moy) (civil_month moy)).
  destruct (Z.ltb_spec dom 28); [lia|].
  assert (El : is_leap (2000 + 400 * era + yoe + 1)
               = ((yoe + 1) mod 4 =? 0) && (negb ((yoe + 1) mod 100 =? 0) || (yoe + 1 =? 400))).
  { replace (2000 + 400 * era + yoe + 1) with (yoe + 1 + 400 * (era + 5)) by lia.
    rewrite is_leap_400. unfold is_leap. f_equal. f_equal. zbool; try reflexivity; divmod. }
  rewrite u32_small, <- El by lia. clear El.
  unfold days_in_month, civil_year, civil_month. moy_cases moy; subst moy;
    match goal with |- context [at_ ?l ?i] =>
      let v := eval vm_compute in (at_ l i) in change (at_ l i) with v end;
    cbn -[is_leap Z.add Z.mul Z.min]; unfold b2z in *; try destruct (is_leap _);
    zbool; cbn [orb]; lia.
Qed.

Lemma clampDom_range yoe moy dom :
  0 <= yoe < 400 -> 0 <= moy <= 11 -> 0 <= dom <= 30 -> 0 <= clampDom yoe moy dom <= 30.
Proof.
  intros Hy Hm Hd. rewrite (clampDom_spec 0) by assumption.
  pose proof (days_in_month_bounds (civil_year 0 yoe moy) (civil_month moy)). lia.
Qed.

Lemma unixtime_spec M dom sod :
  -100000000000000 <= M <= 100000000000000 -> 0 <= dom <= 30 -> 0 <= sod < 86400 ->
  let N := M + 12 * 2000 + 2 in
  unixtime (mkMDS M dom sod)
  = s64 (86400 * day_number (N / 12) (N mod 12 + 1)
           (Z.min (dom + 1) (days_in_month (N / 12) (N mod 12 + 1))) + sod).
Proof.
  intros HM Hd Hs N. unfold unixtime; cbn [mds_months mds_dom mds_sod]. consts.
  rewrite floor_div_spec by (consts; lia). change (12 * 400) with 4800.
  set (era := M / 4800). set (yoe := M mod 4800 / 12). set (moy := M mod 4800 mod 12).
  assert (By : 0 <= yoe < 400) by (unfold yoe; divmod).
  assert (Bm : 0 <= moy <= 11) by (unfold moy; divmod).
  replace (M - era * 4800) with (M mod 4800) by (unfold era; divmod).
  rewrite (u32_small (M mod 4800)) by divmod. fold yoe moy.
  rewrite (u32_small (153 * moy + 2)) by lia. fold (moy_start moy).
  pose proof (clampDom_range yoe moy dom By Bm Hd) as Bc.
  assert (Bms : 0 <= moy_start moy <= 400) by (unfold moy_start; divmod).
  assert (Bys : 0 <= 365 * yoe + yoe / 4 - yoe / 100 < 146097) by divmod.
  rewrite (u32_small (moy_start moy + _)) by lia. rewrite u32_small by lia.
  pose proof (day_number_march era yoe moy (clampDom yoe moy dom) By Bm) as E.
  pose proof (civil_index era yoe moy) as I.
  assert (HN : N = 12 * civil_year era yoe moy + civil_month moy - 1)
    by (rewrite I; unfold N, era, yoe, moy; divmod).
  assert (Bcm : 1 <= civil_month moy <= 12) by (now apply civil_month_range).
  replace (N / 12) with (civil_year era yoe moy) by (rewrite HN; divmod).
  replace (N mod 12 + 1) with (civil_month moy) by (rewrite HN; divmod).
  rewrite (clampDom_spec era) in E by assumption. rewrite Z.sub_add in E. rewrite E.
  f_equal. rewrite (clampDom_spec era) by assumption. unfold yoe_start. lia.
Qed.

Definition add_months_of (f : DateAddField) : option Z :=
  match f with
  | DA_kMonth => Some 1
  | DA_kQuarter => Some 3
  | DA_kYear => Some 12
  | DA_kDecade => Some 120
  | DA_kCentury => Some 1200
  | DA_kMillennium => Some 12000
  | _ => None
  end.

Lemma add_months_pos f k : add_months_of f = Some k -> 0 < k.
Proof. destruct f; cbn; intros E; inversion E; lia. Qed.

Lemma DateAdd_months_date f k n t :
  add_months_of f = Some k -> time_ok t ->
  -90000000000000 <= k * n <= 90000000000000 ->
  let '(y, m, d) := date_of t in
  DateAdd f n t = Some (s64 (86400 * months_later y m d (k * n) + t mod 86400)).
Proof.
  intros Hk Ht Hn. pose proof (Z.mod_pos_bound t 86400 ltac:(lia)) as Bs.
  destruct (era_fields t Ht)
    as (era & yoe & moy & dom & _ & Em & _ & _ & -> & By & Bm & Bd & Be).
  assert (G : forall a, a = k * n ->
    unixtime (addMonths (MonthDaySecond_make t) (s64 a))
    = s64 (86400 * months_later (civil_year era yoe moy) (civil_month moy) (dom + 1) (k * n)
           + t mod 86400)).
  { intros a ->. rewrite Em. unfold addMonths; cbn [mds_months mds_dom mds_sod].
    rewrite (s64_small (k * n)), s64_small by lia. rewrite unixtime_spec by lia.
    unfold months_later. rewrite civil_index.
    replace (12 * (2000 + 400 * era + yoe) + moy + 2 + k * n)
      with (12 * (400 * era + yoe) + moy + k * n + 12 * 2000 + 2) by lia. reflexivity. }
  destruct f; try discriminate Hk; apply some_inj in Hk; subst k; cbn [DateAdd];
    try match goal with
        | |- context [addMonths _ n] => rewrite <- (s64_small n) at 1 by lia
        end;
    match goal with
    | |- context [addMonths _ (s64 ?a)] => rewrite (G a) by lia; reflexivity
    end.
Qed.

(** [C14] Adding [n] months, quarters, years, decades, centuries or millennia to a time
    gives the date that many months later with the day clamped to the length of its
    month, at the same second of the day, whenever that time is representable. *)
Theorem DateAdd_months (f : DateAddField) (k n t : Z)
    (Hk : add_months_of f = Some k) (Ht : time_ok t)
    (Hn : -90000000000000 <= k * n <= 90000000000000) :
  let y := ExtractFromTime DE_kYear t in
  let m := ExtractFromTime DE_kMonth t in
  let d := ExtractFromTime DE_kDay t in
  let r := 86400 * months_later y m d (k * n) + t mod 86400 in
  INT64_MIN <= r <= INT64_MAX -> DateAdd f n t = Some r.
Proof.
  cbn [ExtractFromTime].
  rewrite extract_year_date, extract_month_date, extract_day_date by exact Ht.
  pose proof (DateAdd_months_date f k n t Hk Ht Hn) as E.
  destruct (date_of t) as [[y m] d]. cbn [fst snd]. cbv zeta. intros Hr. rewrite E, s64_small.
  - reflexivity.
  - consts. lia.
Qed.

Lemma DateAdd_months_witness :
  time_ok 1706659200 /\ DateAdd DA_kMonth 1 1706659200 = Some 1709164800.
Proof.
  assert (H : time_ok 1706659200) by (unfold time_ok; vm_compute; intuition congruence).
  split; [exact H|].
  apply (DateAdd_months DA_kMonth 1 1 1706659200 eq_refl H); vm_compute; intuition congruence.
Defined.

(** ** Addition and difference *)

Lemma month_first_steps M n :
  0 <= n -> 28 * n <= month_first (M + n) - month_first M <= 31 * n.
Proof.
  revert n. refine (Zlt_0_ind _ _). intros n IH Hn.
  destruct (Z.eq_dec n 0) as [->|]; [rewrite Z.add_0_r; lia|].
  specialize (IH (n - 1) ltac:(lia)).
  pose proof (month_first_succ (M + (n - 1))) as Hs.
  replace (M + (n - 1) + 1) with (M + n) in Hs by lia.
  pose proof (days_in_month_bounds ((M + (n - 1)) / 12) ((M + (n - 1)) mod 12 + 1)). lia.
Qed.

Lemma month_first_dist M n :
  - 31 * Z.abs n <= month_first (M + n) - month_first M <= 31 * Z.abs n.
Proof.
  destruct (Z.le_ge_cases 0 n).
  - pose proof (month_first_steps M n ltac:(lia)). lia.
  - pose proof (month_first_steps (M + n) (- n) ltac:(lia)) as Hs.
    replace (M + n + - n) with M in Hs by lia. lia.
Qed.

(** A day of the month that every month has is kept by the addition. *)
Lemma months_later_28 t n r :
  time_ok t -> time_ok r -> (let '(y, m, d) := date_of t in d <= 28 /\
    r = 86400 * months_later y m d n + t mod 86400) ->
  month_index r = month_index t + n /\ month_rest r = month_rest t.
Proof.
  intros Ht Hr H. pose proof (date_of_spec t Ht) as V.
  unfold month_index, month_rest. destruct (date_of t) as [[y m] d].
  destruct H as [Hd Er], V as [[Vm Vd] _]. unfold months_later in Er.
  set (M := 12 * y + m - 1 + n) in *.
  pose proof (days_in_month_bounds (M / 12) (M mod 12 + 1)) as B.
  rewrite Z.min_l in Er by lia.
  rewrite (date_of_unique r (M / 12) (M mod 12 + 1) d Hr).
  - assert (E : r mod 86400 = t mod 86400) by (rewrite Er; divmod). rewrite E. unfold M. divmod.
  - split; [divmod | lia].
  - rewrite Er. divmod.
Qed.

Lemma DateAdd_28 f k n t :
  add_months_of f = Some k -> time_ok t -> Z.abs t <= 1000000000000000000 ->
  Z.abs (k * n) <= 1000000000000 -> snd (date_of t) <= 28 ->
  exists r, DateAdd f n t = Some r /\ time_ok r /\
    month_index r = month_index t + k * n /\ month_rest r = month_rest t.
Proof.
  intros Hf Hok Ht Hn Hd.
  pose proof (DateAdd_months_date f k n t Hf Hok ltac:(lia)) as E.
  destruct (month_split t Hok) as (St & Rt & _).
  pose proof (month_first_dist (month_index t) (k * n)) as Hdist.
  pose proof (months_later_28 t (k * n)) as G.
  assert (Hr : let '(y, m, d) := date_of t in
    86400 * months_later y m d (k * n) + t mod 86400
    = 86400 * month_first (month_index t + k * n) + month_rest t).
  { unfold months_later, month_index, month_rest, month_first, day_number.
    destruct (date_of t) as [[y m] d]. cbn [snd] in Hd. set (M := 12 * y + m - 1 + k * n).
    pose proof (days_in_month_bounds (M / 12) (M mod 12 + 1)). lia. }
  destruct (date_of t) as [[y m] d]. cbn [snd] in Hd.
  remember (86400 * months_later y m d (k * n) + t mod 86400) as r eqn:Hdef.
  assert (Hrok : time_ok r) by (unfold time_ok; consts; lia).
  exists r. split; [|split; [exact Hrok | now apply G]].
  rewrite E, s64_small; [reflexivity|]. unfold time_ok in Hrok; consts; lia.
Qed.

(** [DATEDIFF] undoes [DATEADD] on the month-based periods: for a time whose day of
    the month is at most 28, the difference between it and the time [n] periods later
    (or earlier) is [n]. *)
Theorem DateDiff_DateAdd (f : DateAddField) (g : DateTruncField) (k n t : Z)
    (Hf : add_months_of f = Some k) (Hg : period_months g = Some k)
    (Hn : Z.abs (k * n) <= 1000000000000)
    (Ht : Z.abs t <= 1000000000000000000) (Hd : ExtractFromTime DE_kDay t <= 28) :
  exists r, DateAdd f n t = Some r /\ DateDiff g t r = Some n.
Proof.
  assert (Hok : time_ok t) by (unfold time_ok; consts; lia).
  revert Hd. cbn [ExtractFromTime]. rewrite extract_day_date by exact Hok. intros Hd.
  destruct (DateAdd_28 f k n t Hf Hok Ht Hn Hd) as (r & E & Hrok & Ei & Er).
  exists r. split; [exact E|].
  pose proof (add_months_pos f k Hf) as Hk.
  destruct (Z.le_ge_cases t r) as [Hle|Hle].
  - destruct (DateDiff_calendar_dir g k t r Hg Hok Hrok Hle) as [-> _].
    unfold whole_months. rewrite Ei, Er, Z.ltb_irrefl. cbn [b2z]. f_equal.
    replace (month_index t + k * n - month_index t - 0) with (n * k) by lia.
    apply Z.div_mul. lia.
  - destruct (DateDiff_calendar_dir g k r t Hg Hrok Hok Hle) as [_ ->].
    unfold whole_months. rewrite Ei, Er, Z.ltb_irrefl. cbn [b2z]. f_equal.
    replace (month_index t - (month_index t + k * n) - 0) with (- n * k) by lia.
    rewrite Z.div_mul; lia.
Qed.

Lemma DateDiff_DateAdd_witness :
  ExtractFromTime DE_kDay 951696000 <= 28 /\
  exists r, DateAdd DA_kYear (-3) 951696000 = Some r /\
            DateDiff DT_kYear 951696000 r = Some (-3).
Proof.
  split; [vm_compute; congruence|].
  apply (DateDiff_DateAdd DA_kYear DT_kYear 12 (-3) 951696000 eq_refl eq_refl);
    vm_compute; congruence.
Defined.

(** ** Precision scaling *)

(** The overflow test of the scalings: the wrapped product divided back. *)
Lemma mul_overflow_check epoch scale :
  INT64_MIN <= epoch <= INT64_MAX -> 0 < scale < 18446744073709551616 ->
  (negb (epoch =? 0) && negb (epoch =? Z.quot (s64 (epoch * scale)) scale))
  = negb ((INT64_MIN <=? epoch * scale) && (epoch * scale <=? INT64_MAX)).
Proof.
  consts. intros He Hs.
  destruct (Z.leb_spec (-9223372036854775808) (epoch * scale));
    destruct (Z.leb_spec (epoch * scale) 9223372036854775807); cbn [andb negb].
  1: rewrite s64_small, Z.quot_mul, Z.eqb_refl by lia; apply andb_false_r.
  all: assert (Hne : epoch <> 0) by (intros ->; lia);
    destruct (Z.eqb_spec epoch 0); [lia|]; cbn [negb andb];
    destruct (Z.eqb_spec epoch (Z.quot (s64 (epoch * scale)) scale)) as [E|];
    [exfalso | reflexivity];
    pose proof (s64_range (epoch * scale)) as R;
    pose proof (Z.quot_rem' (s64 (epoch * scale)) scale) as Q; rewrite <- E in Q;
    pose proof (Z.rem_bound_abs (s64 (epoch * scale)) scale ltac:(lia)) as Br;
    unfold s64, swrap in *; change (2 ^ 64) with 18446744073709551616 in *;
    change (2 ^ (64 - 1)) with 9223372036854775808 in *;
    pose proof (Z.div_mod (epoch * scale + 9223372036854775808) 18446744073709551616
                  ltac:(lia)) as D;
    set (k := (epoch * scale + 9223372036854775808) / 18446744073709551616) in *;
    set (w := (epoch * scale + 9223372036854775808) mod 18446744073709551616) in *;
    set (rr := Z.rem (w - 9223372036854775808) scale) in *;
    assert (k = 0) by lia; lia.
Qed.

(** The factor from [old_unit] to the finer [new_unit]. *)
Definition unit_factor (old_unit new_unit : TimeUnit) : option Z :=
  match get_nanosecs_in_unit old_unit, get_nanosecs_in_unit new_unit with
  | Some o, Some n => if n <? o then Some (o / n) else None
  | _, _ => None
  end.

Lemma unit_factor_range o n k : unit_factor o n = Some k -> 1 < k <= 86400000000000.
Proof.
  intros Hk. destruct o, n; vm_compute in Hk; try discriminate Hk; apply some_inj in Hk; lia.
Qed.

Lemma scaled_epoch_unit_up o n k epoch :
  unit_factor o n = Some k -> INT64_MIN <= epoch <= INT64_MAX ->
  get_datetime_scaled_epoch_unit epoch o n
  = if (INT64_MIN <=? epoch * k) && (epoch * k <=? INT64_MAX) then Some (epoch * k) else None.
Proof.
  intros Hk He. pose proof (unit_factor_range o n k Hk) as Bk.
  pose proof (mul_overflow_check epoch k He ltac:(lia)) as C.
  assert (E : get_datetime_scaled_epoch_unit epoch o n
              = if negb (epoch =? 0) && negb (epoch =? Z.quot (s64 (epoch * k)) k)
                then None else Some (s64 (epoch * k))).
  { destruct o, n; vm_compute in Hk; try discriminate Hk; apply some_inj in Hk; subst k;
      reflexivity. }
  rewrite E, C. consts.
  destruct (Z.leb_spec (-9223372036854775808) (epoch * k));
    destruct (Z.leb_spec (epoch * k) 9223372036854775807); cbn [andb negb]; try reflexivity.
  rewrite s64_small by lia. reflexivity.
Qed.

Lemma scaled_epoch_unit_down o n k epoch :
  unit_factor o n = Some k -> get_datetime_scaled_epoch_unit epoch n o = Some (Z.quot epoch k).
Proof.
  intros Hk. destruct o, n; vm_compute in Hk; try discriminate Hk; apply some_inj in Hk;
    subst k; reflexivity.
Qed.

(** Scaling a timestamp to a finer unit multiplies it exactly or reports the
    overflow, which it does if and only if the product leaves the 64-bit range; scaling
    the product back gives the timestamp again. *)
Theorem scaled_epoch_overflow (o n : TimeUnit) (k epoch : Z)
    (Hk : unit_factor o n = Some k) (He : INT64_MIN <= epoch <= INT64_MAX) :
  (get_datetime_scaled_epoch_unit epoch o n = None
   <-> ~ INT64_MIN <= epoch * k <= INT64_MAX) /\
  (forall r, get_datetime_scaled_epoch_unit epoch o n = Some r ->
     r = epoch * k /\ get_datetime_scaled_epoch_unit r n o = Some epoch).
Proof.
  pose proof (unit_factor_range o n k Hk) as Bk.
  rewrite (scaled_epoch_unit_up o n k epoch Hk He).
  destruct (Z.leb_spec INT64_MIN (epoch * k)); destruct (Z.leb_spec (epoch * k) INT64_MAX);
    cbn [andb]; (split; [split; intros; try discriminate; try reflexivity; try lia|]);
    intros r E; try discriminate E; apply some_inj in E; subst r.
  rewrite (scaled_epoch_unit_down o n k _ Hk), Z.quot_mul by lia. now split.
Qed.

Lemma scaled_epoch_overflow_witness :
  unit_factor TU_kSecond TU_kNano = Some 1000000000 /\
  (get_datetime_scaled_epoch_unit 9223372037 TU_kSecond TU_kNano = None
   <-> ~ INT64_MIN <= 9223372037 * 1000000000 <= INT64_MAX).
Proof.
  split; [reflexivity|].
  apply (scaled_epoch_overflow TU_kSecond TU_kNano 1000000000 9223372037 eq_refl).
  vm_compute; intuition congruence.
Defined.
