(* ===== verification/DateTimeParser.v ===== *)
(** * Date and time literals: the parser ([Shared/DateTimeParser])

    [DateTimeParser] matches a text with a list of formats, fills the fields of a [DateTime]
    and computes the number of units since the epoch from them.  A [std::string_view&] that a
    function consumes is a value passed in and out. *)

From Stdlib Require Import ZArith Lia List Bool Ascii String.
From S2P Require Import Prelude Chars ExtractFromTime DateAdd.
Import ListNotations.
Local Open Scope Z_scope.
Local Open Scope hdk_scope.

(** [PThrow] is an exception, [PUndefined] a read out of range or of an uninitialised member,
    [PLoop] a loop that was cut short. *)
Inductive ParseError := PThrow | PUndefined | PLoop.

Inductive FormatType := FT_Date | FT_Time | FT_Timezone.

Record DateTime := mkDateTime {
  dt_Y : Z;            (* full year *)
  dt_m : Z;            (* month *)
  dt_d : Z;            (* day of the month *)
  dt_H : Z;
  dt_M : Z;
  dt_S : Z;
  dt_n : Z;            (* nanoseconds *)
  dt_z : Z;            (* offset of the time zone in seconds *)
  dt_p : option bool   (* pm, am or unspecified *)
}.

Definition DateTime_default : DateTime := mkDateTime 1970 1 1 0 0 0 0 0 None.

Definition set_Y (v : Z) (t : DateTime) : DateTime :=
  mkDateTime v (dt_m t) (dt_d t) (dt_H t) (dt_M t) (dt_S t) (dt_n t) (dt_z t) (dt_p t).
Definition set_m (v : Z) (t : DateTime) : DateTime :=
  mkDateTime (dt_Y t) v (dt_d t) (dt_H t) (dt_M t) (dt_S t) (dt_n t) (dt_z t) (dt_p t).
Definition set_d (v : Z) (t : DateTime) : DateTime :=
  mkDateTime (dt_Y t) (dt_m t) v (dt_H t) (dt_M t) (dt_S t) (dt_n t) (dt_z t) (dt_p t).
Definition set_H (v : Z) (t : DateTime) : DateTime :=
  mkDateTime (dt_Y t) (dt_m t) (dt_d t) v (dt_M t) (dt_S t) (dt_n t) (dt_z t) (dt_p t).
Definition set_M (v : Z) (t : DateTime) : DateTime :=
  mkDateTime (dt_Y t) (dt_m t) (dt_d t) (dt_H t) v (dt_S t) (dt_n t) (dt_z t) (dt_p t).
Definition set_S (v : Z) (t : DateTime) : DateTime :=
  mkDateTime (dt_Y t) (dt_m t) (dt_d t) (dt_H t) (dt_M t) v (dt_n t) (dt_z t) (dt_p t).
Definition set_n (v : Z) (t : DateTime) : DateTime :=
  mkDateTime (dt_Y t) (dt_m t) (dt_d t) (dt_H t) (dt_M t) (dt_S t) v (dt_z t) (dt_p t).
Definition set_z (v : Z) (t : DateTime) : DateTime :=
  mkDateTime (dt_Y t) (dt_m t) (dt_d t) (dt_H t) (dt_M t) (dt_S t) (dt_n t) v (dt_p t).
Definition set_p (v : option bool) (t : DateTime) : DateTime :=
  mkDateTime (dt_Y t) (dt_m t) (dt_d t) (dt_H t) (dt_M t) (dt_S t) (dt_n t) (dt_z t) v.

(** [DateTimeParser]; [format_type_] is not initialised by the constructor. *)
Record DateTimeParser := mkParser {
  dt_ : DateTime;
  format_type_ : option FormatType;
  unparsed_ : chars
}.

Definition DateTimeParser_new : DateTimeParser := mkParser DateTime_default None [].

(** ** Tables *)

Definition prefix_key (a b c : Z) : Z :=
  Z.lor (Z.lor (Z.shiftl a 16) (Z.shiftl b 8)) c.

Definition month_key (s : string) : Z :=
  match list_ascii_of_string s with
  | [a; b; c] => prefix_key (char_value a) (char_value b) (char_value c)
  | _ => 0
  end.

Definition month_prefixes : list Z :=
  map month_key ["jan"; "feb"; "mar"; "apr"; "may"; "jun"; "jul"; "aug"; "sep"; "oct"; "nov"; "dec"]%string.

(** The first initialiser is the concatenation of two string literals, so that the twelve
    entries are those of January to December and the thirteenth is the empty view. *)
Definition month_suffixes : list chars :=
  map lit ["" ++ "uary"; "ruary"; "ch"; "il"; ""; "e"; "y"; "ust"; "tember"; "ober"; "ember";
           "ember"; ""]%string.

Definition pow_10 : list Z :=
  [1; 10; 100; 1000; 10000; 100000; 1000000; 10000000; 100000000; 1000000000].

Definition formatViews (t : FormatType) : list chars :=
  map lit
    match t with
    | FT_Date => ["%Y-%m-%d"; "%m/%d/%y"; "%m/%d/%Y"; "%Y/%m/%d"; "%d-%b-%y"; "%d/%b/%Y"]
    | FT_Time => ["%I:%M:%S %p"; "%H:%M:%S"; "%I:%M %p"; "%H:%M"; "%H%M%S"; "%I . %M . %S %p";
                  "%I %p"]
    | FT_Timezone => ["%z"]
    end%string.

(** ** Days and times *)

Definition daysFromCivil (y m d : Z) : Z :=
  let y := s64 (y - b2z (m <=? 2)) in
  let era := Z.quot (if y <? 0 then s64 (y - 399) else y) 400 in
  let yoe := u32 (s64 (y - era * 400)) in
  let doy := u32 (u32 (153 * (m + (if m <=? 2 then 9 else -3)) + 2) / 5 + d - 1) in
  let doe := u32 (yoe * 365 + yoe / 4 - yoe / 100 + doy) in
  s64 (era * 146097 + doe - 719468).

Definition getTime (t : DateTime) (unit : TimeUnit) : result ParseError Z :=
  let* scale := match unit with
                | TU_kSecond => Ok 0
                | TU_kMilli => Ok 3
                | TU_kMicro => Ok 6
                | TU_kNano => Ok 9
                | TU_kDay => Ok 0
                | TU_kMonth => Err PThrow
                end in
  let days := daysFromCivil (dt_Y t) (dt_m t) (dt_d t) in
  let seconds :=
    s32 (s32 (3600 * dt_H t + 60 * dt_M t + dt_S t) - dt_z t
         + match dt_p t with
           | Some p =>
               if p && negb (dt_H t =? 12) then 12 * 3600
               else if negb p && (dt_H t =? 12) then -12 * 3600
               else 0
           | None => 0
           end) in
  Ok (s64 ((24 * 3600 * days + seconds) * at_ pow_10 scale + dt_n t / at_ pow_10 (9 - scale))).

(** ** Reading *)

(** [boost::algorithm::istarts_with(str, prefix)]. *)
Class BoostStrings := istarts_with : chars -> chars -> bool.

Fixpoint eatSpace (str : chars) : chars :=
  match str with
  | c :: str' => if isspace c then eatSpace str' else str
  | [] => []
  end.

(** [fromChars<unsigned>] and [fromChars<int64_t>]: the value and what is left of [str]. *)
Definition fromChars_unsigned (maxlen : option nat) (str : chars) : option (Z * chars) :=
  let window := match maxlen with Some n => firstn n str | None => str end in
  match from_chars_unsigned UINT32_MAX window with
  | Some (v, n) => Some (v, skipn n str)
  | None => None
  end.

Definition fromChars_int64 (str : chars) : option (Z * chars) :=
  match from_chars_signed INT64_MIN INT64_MAX str with
  | Some (v, n) => Some (v, skipn n str)
  | None => None
  end.

Definition unixTime (str : chars) : option Z :=
  match from_chars_signed INT64_MIN INT64_MAX str with
  | Some (time, n) =>
      match skipn n str with
      | [] => Some time
      | c :: rest => if Ascii.eqb c "." && forallb isdigit rest then Some time else None
      end
  | None => None
  end.

(** [std::find(month_prefixes, key)]: the position, or the length of the table. *)
Fixpoint find_key (key : Z) (l : list Z) : nat :=
  match l with
  | [] => O
  | k :: l' => if k =? key then O else S (find_key key l')
  end.

Section Parser.

Context {boost : BoostStrings}.

Definition eatMonth (month : Z) (str : chars) : chars :=
  let str := skipn 3 str in
  let suffix := nth (Z.to_nat month) month_suffixes [] in
  if istarts_with str suffix then skipn (List.length suffix) str else str.

(** A numeric field of at most two digits between [lo] and [hi]. *)
Definition two_digits (lo hi : Z) (set : Z -> DateTime -> DateTime) (str : chars) (dt : DateTime)
    : bool * chars * DateTime :=
  match fromChars_unsigned (Some 2%nat) str with
  | Some (v, str') => if in_range lo hi v then (true, str', set v dt) else (false, str', dt)
  | None => (false, str, dt)
  end.

(** ["%Y"] and ["%y"]. *)
Definition parse_Y (str : chars) (dt : DateTime) : bool * chars * DateTime :=
  match fromChars_int64 str with
  | Some (year, str') => (true, str', set_Y year dt)
  | None => (false, str, dt)
  end.

Definition parse_y (str : chars) (dt : DateTime) : bool * chars * DateTime :=
  match fromChars_unsigned None str with
  | Some (year, str') =>
      if year <? 69 then (true, str', set_Y (2000 + year) dt)
      else if year <? 100 then (true, str', set_Y (1900 + year) dt)
      else (false, str', dt)
  | None => (false, str, dt)
  end.

(** ["%b"]: the first three letters of a month. *)
Definition parse_b (str : chars) (dt : DateTime) : bool * chars * DateTime :=
  match str with
  | a :: b :: c :: _ =>
      let key := prefix_key (tolower (char_value a)) (tolower (char_value b))
                            (tolower (char_value c)) in
      let i := find_key key month_prefixes in
      if (i <? 12)%nat then
        let m := Z.of_nat i + 1 in (true, eatMonth m str, set_m m dt)
      else (false, str, dt)
  | _ => (false, str, dt)
  end.

(** ["%S"]: seconds and an optional fraction of up to nine digits. *)
Definition parse_S (str : chars) (dt : DateTime) : bool * chars * DateTime :=
  match fromChars_unsigned (Some 2%nat) str with
  | Some (second, str1) =>
      if second <=? 61 then
        let dt := set_S second dt in
        match str1 with
        | c :: str2 =>
            if Ascii.eqb c "." then
              match fromChars_unsigned (Some 9%nat) str2 with
              | Some (ns, str3) =>
                  let len := Z.of_nat (List.length str2) - Z.of_nat (List.length str3) in
                  (true, str3, set_n (u32 (ns * at_ pow_10 (9 - len))) dt)
              | None => (false, str2, dt)
              end
            else (true, str1, dt)
        | [] => (true, str1, dt)
        end
      else (false, str1, dt)
  | None => (false, str, dt)
  end.

(** ["%z"]: [[-+]\d\d:?\d\d].  [char_at] is only used below the length that is tested first. *)
Definition char_at (str : chars) (i : nat) : ascii := nth i str zero.

Definition parse_z (str : chars) (dt : DateTime) : bool * chars * DateTime :=
  let at_ := char_at str in
  if (5 <=? List.length str)%nat
     && (Ascii.eqb (at_ 0%nat) "-" || Ascii.eqb (at_ 0%nat) "+")
     && isdigit (at_ 1%nat) && isdigit (at_ 2%nat) && isdigit (at_ 4%nat)
     && (if Ascii.eqb (at_ 3%nat) ":" then (6 <=? List.length str)%nat && isdigit (at_ 5%nat)
         else isdigit (at_ 3%nat))
  then
    let sep := if Ascii.eqb (at_ 3%nat) ":" then 4%nat else 3%nat in
    let number i n := match from_chars_signed INT32_MIN INT32_MAX (firstn n (skipn i str)) with
                      | Some (v, _) => v
                      | None => 0
                      end in
    let hours := number 1%nat 2%nat in
    let minutes := number sep 2%nat in
    let z := (if Ascii.eqb (at_ 0%nat) "-" then -60 else 60) * (60 * hours + minutes) in
    (true, skipn (sep + 2) str, set_z z dt)
  else (false, str, dt).

(** ["%p"]. *)
Definition parse_p (str : chars) (dt : DateTime) : bool * chars * DateTime :=
  if istarts_with str (lit "am") || istarts_with str (lit "pm")
     || istarts_with str (lit "a.m.") || istarts_with str (lit "p.m.")
  then
    let p := tolower (char_value (char_at str 0)) =? char_value "p" in
    let n := if tolower (char_value (char_at str 1)) =? char_value "m" then 2%nat else 4%nat in
    (true, skipn n str, set_p (Some p) dt)
  else (true, str, set_p None dt).

Definition updateDateTimeAndStr (field : ascii) (str : chars) (dt : DateTime)
    : result ParseError (bool * chars * DateTime) :=
  match field with
  | "Y" => Ok (parse_Y str dt)
  | "y" => Ok (parse_y str dt)
  | "m" => Ok (two_digits 1 12 set_m str dt)
  | "b" => Ok (parse_b str dt)
  | "d" => Ok (two_digits 1 31 set_d str dt)
  | "H" => Ok (two_digits 0 23 set_H str dt)
  | "I" => Ok (two_digits 1 12 set_H str dt)
  | "M" => Ok (two_digits 0 59 set_M str dt)
  | "S" => Ok (parse_S str dt)
  | "z" => Ok (parse_z str dt)
  | "p" => Ok (parse_p str dt)
  | _ => Err PThrow
  end%char.

(** ** Formats *)

Fixpoint parseWithFormat_loop (fuel : nat) (format str : chars) (dt : DateTime)
    : result ParseError (bool * chars * DateTime) :=
  match format with
  | [] => Ok (true, str, dt)
  | f :: format' =>
      match fuel with
      | O => Err PLoop
      | S fuel =>
          if Ascii.eqb f "%" then
            match format' with
            | [] => Err PUndefined
            | field :: format'' =>
                let* '(ok, str, dt) := updateDateTimeAndStr field (eatSpace str) dt in
                if ok then parseWithFormat_loop fuel format'' str dt
                else Ok (false, str, dt)
            end
          else if isspace f then
            parseWithFormat_loop fuel (eatSpace format) (eatSpace str) dt
          else
            match str with
            | c :: str' =>
                if Ascii.eqb f c then parseWithFormat_loop fuel format' str' dt
                else Ok (false, str, dt)
            | [] => Ok (false, str, dt)
            end
      end
  end.

Definition parseWithFormat (format str : chars) (dt : DateTime)
    : result ParseError (bool * chars * DateTime) :=
  parseWithFormat_loop (List.length format) format str dt.

(** The loop over the formats: [dt_] keeps what a format that failed has set. *)
Fixpoint try_formats (formats : list chars) (str : chars) (dt : DateTime)
    : result ParseError (option chars * DateTime) :=
  match formats with
  | [] => Ok (None, dt)
  | format :: formats' =>
      let* '(ok, str_unparsed, dt) := parseWithFormat format str dt in
      if ok then Ok (Some str_unparsed, dt) else try_formats formats' str dt
  end.

Definition parse (str : chars) (unit : TimeUnit) (p : DateTimeParser)
    : result ParseError (option Z * DateTimeParser) :=
  match format_type_ p with
  | None => Err PUndefined
  | Some ft =>
      let* '(matched, dt) := try_formats (formatViews ft) str (dt_ p) in
      match matched with
      | Some str_unparsed =>
          let* time := getTime dt unit in
          Ok (Some time, mkParser dt (format_type_ p) str_unparsed)
      | None => Ok (None, mkParser dt (format_type_ p) str)
      end
  end.

Definition resetDateTime (p : DateTimeParser) : DateTimeParser :=
  mkParser DateTime_default (format_type_ p) (unparsed_ p).

Definition setFormatType (format_type : FormatType) (p : DateTimeParser) : DateTimeParser :=
  mkParser (dt_ (resetDateTime p)) (Some format_type) (unparsed_ p).

Definition value_or (o : option Z) (v : Z) : Z := match o with Some x => x | None => v end.

(** [str.remove_prefix(1)] when [str] starts with one of [l]. *)
Definition skip_one (l : list ascii) (str : chars) : chars :=
  match str with
  | c :: str' => if existsb (Ascii.eqb c) l then str' else str
  | [] => str
  end.

(** ** [dateTimeParseOptional] *)

Definition dateTimeParseOptional_kTime (str : chars) (unit : TimeUnit)
    : result ParseError (option Z) :=
  let str := skip_one ["T"%char] str in
  let* '(time, parser) := parse str unit (setFormatType FT_Time DateTimeParser_new) in
  match time with
  | None => Ok None
  | Some time =>
      let timezone := unparsed_ parser in
      let* '(tz, parser) := parse timezone unit (setFormatType FT_Timezone parser) in
      match unparsed_ parser with
      | [] => Ok (Some (s64 (time + value_or tz 0)))
      | _ => Ok None
      end
  end.

Definition dateTimeParseOptional_kTimestamp (str : chars) (unit : TimeUnit)
    : result ParseError (option Z) :=
  let str := skip_one ["T"%char] str in
  let* '(date, parser) := parse str unit (setFormatType FT_Date DateTimeParser_new) in
  match date with
  | None => Ok (unixTime str)
  | Some date =>
      match unparsed_ parser with
      | [] => Ok None
      | time_of_day =>
          let time_of_day := skip_one ["T"; ":"]%char time_of_day in
          let* '(time, parser) := parse time_of_day unit (setFormatType FT_Time parser) in
          let timezone := unparsed_ parser in
          let* '(tz, parser) := parse timezone unit (setFormatType FT_Timezone parser) in
          Ok (Some (s64 (date + value_or time 0 + value_or tz 0)))
      end
  end.

Definition dateTimeParseOptional_kDate (str : chars) (unit : TimeUnit)
    : result ParseError (option Z) :=
  let* '(date, parser) := parse str unit (setFormatType FT_Date DateTimeParser_new) in
  match date with
  | None => Ok (unixTime str)
  | Some date =>
      let timezone := unparsed_ parser in
      let* '(tz, parser) := parse timezone unit (setFormatType FT_Timezone parser) in
      Ok (Some (s64 (date + value_or tz 0)))
  end.

Inductive LiteralType := LT_kDate | LT_kTime | LT_kTimestamp.

Definition dateTimeParseOptional (type : LiteralType) (str : chars) (unit : TimeUnit)
    : result ParseError (option Z) :=
  match type with
  | LT_kDate => dateTimeParseOptional_kDate str unit
  | LT_kTime => dateTimeParseOptional_kTime str unit
  | LT_kTimestamp => dateTimeParseOptional_kTimestamp str unit
  end.

Definition dateTimeParse (type : LiteralType) (s : chars) (unit : TimeUnit)
    : result ParseError Z :=
  let* time := dateTimeParseOptional type s unit in
  match time with
  | Some time => Ok time
  | None => Err PThrow
  end.

(** The overload with a precision; [abort()] is a failure of its own. *)
Inductive DimOutcome := DimAbort | DimResult (r : result ParseError Z).

Definition dateTimeParse_dim (type : LiteralType) (s : chars) (dim : Z) : DimOutcome :=
  if dim =? 0 then DimResult (dateTimeParse type s TU_kSecond)
  else if dim =? 3 then DimResult (dateTimeParse type s TU_kMilli)
  else if dim =? 6 then DimResult (dateTimeParse type s TU_kMicro)
  else if dim =? 9 then DimResult (dateTimeParse type s TU_kNano)
  else DimAbort.

End Parser.

(** ** What Boost documents

    [istarts_with] compares the beginning of the text with the prefix without case. *)

Definition lower (s : chars) : list Z := map (fun c => tolower (code c)) s.

Class BoostStringsOk (boost : BoostStrings) : Prop :=
  istarts_with_spec : forall str prefix,
    istarts_with str prefix = true
    <-> lower (firstn (List.length prefix) str) = lower prefix.

Definition ascii_istarts_with : BoostStrings := fun str prefix =>
  if list_eq_dec Z.eq_dec (lower (firstn (List.length prefix) str)) (lower prefix)
  then true else false.

Lemma ascii_istarts_with_ok : BoostStringsOk ascii_istarts_with.
Proof.
  intros str prefix. unfold istarts_with, ascii_istarts_with.
  destruct (list_eq_dec _ _ _); split; congruence.
Qed.

(** * Printing dates and times ([Shared/misc])

    [formatDate], [formatDateTime] and [formatHMS] write into a buffer of [max] bytes and return
    the length of the text, or 0 if it did not fit.  Here they return the text the buffer holds,
    as a C string, with that length. *)

Definition divUMod (num den : Z) : Z * Z :=
  let quot := Z.quot num den in
  let rem := Z.rem num den in
  if rem <? 0 then (s64 (quot - 1), s64 (rem + den)) else (quot, rem).

Definition unsignedMod (num den : Z) : Z :=
  let mod_ := Z.rem num den in
  u64 (if mod_ <? 0 then s64 (mod_ + den) else mod_).

(** Year, month and day of a number of days since the epoch: the lines [formatDate] and
    [formatDateTime] share. *)
Definition date_fields (day : Z) : Z * Z * Z :=
  let '(quot, rem) := divUMod (s64 (day - 11017)) 146097 in
  let doe := u32 rem in
  let yoe := u32 (doe - doe / 1460 + doe / 36524 - b2z (doe =? 146096)) / 365 in
  let doy := u32 (doe - (365 * yoe + yoe / 4 - yoe / 100)) in
  let moy := u32 (5 * doy + 2) / 153 in
  let y := s64 (2000 + quot * 400 + yoe + b2z (9 <? moy)) in
  let m := u32 (moy + (if 9 <? moy then -9 else 3)) in
  let d := u32 (doy - u32 (153 * moy + 2) / 5 + 1) in
  (y, m, d).

(** Hour, minute and second of a number of seconds since midnight. *)
Definition time_fields (rem : Z) : Z * Z * Z :=
  let minutes := u32 rem / 60 in
  (minutes / 60, minutes mod 60, u32 (rem mod 60)).

(** ["%04lld-%02u-%02u"] and ["%02u:%02u:%02u"]. *)
Definition date_text (f : Z * Z * Z) : chars :=
  let '(y, m, d) := f in
  printf_d 4 y ++ lit "-" ++ printf_u 2 m ++ lit "-" ++ printf_u 2 d.

Definition time_text (f : Z * Z * Z) : chars :=
  let '(hh, mm, ss) := f in
  printf_u 2 hh ++ lit ":" ++ printf_u 2 mm ++ lit ":" ++ printf_u 2 ss.

(** The length if the text fits. *)
Definition fitting (max : Z) (text : chars) : chars * Z :=
  let '(buf, len) := snprintf max text in
  (buf, if len <? max then len else 0).

Definition formatDate (max unixtime : Z) : chars * Z :=
  let '(quot, _) := divUMod unixtime (24 * 60 * 60) in
  fitting max (date_text (date_fields quot)).

(** [(int)std::log10(scale)] for the powers of ten that [unitsPerSecond] returns. *)
Definition log10 (scale : Z) : nat := (ndigits scale - 1)%nat.

(** [None] is the exception of [unitsPerSecond]. *)
Definition formatDateTime (max timestamp : Z) (unit : TimeUnit) : option (chars * Z) :=
  match unitsPerSecond unit with
  | None => None
  | Some scale =>
      let '(hip_quot, hip_rem) := divUMod timestamp scale in
      let '(day_quot, day_rem) := divUMod hip_quot (24 * 60 * 60) in
      let '(buf, len) :=
        snprintf max (date_text (date_fields day_quot) ++ lit " " ++ time_text (time_fields day_rem)) in
      if len <? max then
        if 1 <? scale then
          let '(buf_frac, len_frac) :=
            snprintf (max - len) (lit "." ++ printf_d (log10 scale) (s32 hip_rem)) in
          Some (buf ++ buf_frac, if len + len_frac <? max then len + len_frac else 0)
        else Some (buf, len)
      else Some (buf, 0)
  end.

Definition formatHMS (max unixtime : Z) : chars * Z :=
  let seconds := u32 (unsignedMod unixtime (24 * 60 * 60)) in
  let minutes := seconds / 60 in
  fitting max (time_text (minutes / 60, minutes mod 60, seconds mod 60)).
