(* ===== verification/DateTimeFacts.v ===== *)
(** * What the date-time parser reads

    The equations of the format interpreter; that it always returns and keeps every field in its
    range; and what it makes of the texts of numeric dates, times and time zones. *)

From Stdlib Require Import ZArith Lia List Bool Ascii String.
From S2P Require Import Prelude Chars Civil ExtractFromTime ExtractFacts DateTimeParser.
Import ListNotations.
Local Open Scope Z_scope.
Local Open Scope hdk_scope.

(** ** Days *)

Lemma quot_floor_400 y :
  Z.quot (if y <? 0 then y - 399 else y) 400 = y / 400.
Proof. zbool; divmod. Qed.

(** [daysFromCivil] counts the days of the Gregorian calendar; a day after the end of the month
    is counted on into the next one. *)
Lemma daysFromCivil_spec y m d :
  -10 ^ 16 <= y <= 10 ^ 16 -> 1 <= m <= 12 -> 1 <= d <= 31 ->
  daysFromCivil y m d = day_number y m d.
Proof.
  intros Hy Hm Hd. unfold daysFromCivil.
  set (b := b2z (m <=? 2)). assert (Bb : 0 <= b <= 1) by (unfold b, b2z; destruct (m <=? 2); lia).
  rewrite (s64_small (y - b)) by lia.
  replace (if y - b <? 0 then s64 (y - b - 399) else y - b)
    with (if y - b <? 0 then y - b - 399 else y - b)
    by (destruct (y - b <? 0); [rewrite s64_small|]; lia).
  rewrite quot_floor_400. set (era := (y - b) / 400).
  assert (Be : -10 ^ 14 <= era <= 10 ^ 14) by (unfold era; divmod).
  rewrite (s64_small (y - b - era * 400)) by lia.
  set (yoe := y - b - era * 400).
  assert (By : 0 <= yoe < 400) by (unfold yoe, era; divmod).
  set (moy := m + (if m <=? 2 then 9 else -3)).
  assert (Bm : 0 <= moy <= 11) by (unfold moy; zbool; lia).
  rewrite (u32_small yoe), (u32_small (153 * moy + 2)) by lia. fold (moy_start moy).
  assert (Bs : 0 <= moy_start moy <= 400) by (unfold moy_start; divmod).
  rewrite (u32_small (moy_start moy + d - 1)) by lia.
  replace (yoe * 365 + yoe / 4 - yoe / 100 + (moy_start moy + d - 1))
    with (yoe_start yoe + moy_start moy + (d - 1)) by (unfold yoe_start; lia).
  rewrite u32_small by (unfold yoe_start; divmod).
  rewrite s64_small by (unfold yoe_start; divmod).
  pose proof (day_number_march (era - 5) yoe moy (d - 1) By Bm) as E.
  replace (civil_year (era - 5) yoe moy) with y in E.
  2: { unfold civil_year, moy, yoe, b, b2z in *. zbool; lia. }
  replace (civil_month moy) with m in E by (unfold civil_month, moy; zbool; lia).
  replace (d - 1 + 1) with d in E by lia. lia.
Qed.

(** ** Spaces *)

Definition no_space (s : chars) : Prop := match s with c :: _ => isspace c = false | [] => True end.

Lemma eatSpace_id s : no_space s -> eatSpace s = s.
Proof. destruct s as [|c s]; cbn; [easy|]. now intros ->. Qed.

Lemma eatSpace_no_space s : no_space (eatSpace s).
Proof. induction s as [|c s IH]; cbn; [easy|]. destruct (isspace c) eqn:E; [exact IH | exact E]. Qed.

Lemma eatSpace_length s : (List.length (eatSpace s) <= List.length s)%nat.
Proof. induction s as [|c s IH]; cbn; [lia|]. destruct (isspace c); cbn; lia. Qed.

Lemma digits_no_space s rest : all_digits s -> s <> [] -> no_space (s ++ rest).
Proof.
  intros Hs Hne. destruct s as [|c s]; [easy|]. inversion Hs. cbn. now apply isdigit_isspace.
Qed.

Section Facts.

Context {boost : BoostStrings}.

(** ** The format interpreter *)

Lemma loop_fuel fuel fmt str dt :
  (List.length fmt <= fuel)%nat ->
  parseWithFormat_loop fuel fmt str dt = parseWithFormat fmt str dt.
Proof.
  unfold parseWithFormat.
  enough (forall f1 f2 fmt str dt, (List.length fmt <= f1)%nat -> (List.length fmt <= f2)%nat ->
            parseWithFormat_loop f1 fmt str dt = parseWithFormat_loop f2 fmt str dt) by auto.
  clear. induction f1 as [|f1 IH]; intros f2 fmt str dt H1 H2.
  { destruct fmt; [|cbn in H1; lia]. now destruct f2. }
  destruct f2 as [|f2]; [destruct fmt; [|cbn in H2; lia]; reflexivity|].
  destruct fmt as [|f fmt]; cbn [List.length] in *; [reflexivity|]. cbn [parseWithFormat_loop].
  destruct (Ascii.eqb f "%").
  - destruct fmt as [|field fmt]; cbn [List.length] in *; [reflexivity|].
    destruct (updateDateTimeAndStr field (eatSpace str) dt) as [[[[] str'] dt']|e]; cbn; auto.
    apply IH; lia.
  - destruct (isspace f) eqn:Es.
    + cbn [eatSpace]. rewrite Es. pose proof (eatSpace_length fmt). apply IH; lia.
    + destruct str as [|c str]; [reflexivity|].
      destruct (Ascii.eqb f c); [apply IH; lia | reflexivity].
Qed.

Lemma format_end str dt : parseWithFormat [] str dt = Ok (true, str, dt).
Proof. reflexivity. Qed.

Lemma format_field field fmt str dt :
  parseWithFormat ("%"%char :: field :: fmt) str dt
  = let* '(ok, str, dt) := updateDateTimeAndStr field (eatSpace str) dt in
    if ok then parseWithFormat fmt str dt else Ok (false, str, dt).
Proof.
  change (parseWithFormat ("%"%char :: field :: fmt) str dt)
    with (let* '(ok, str, dt) := updateDateTimeAndStr field (eatSpace str) dt in
          if ok then parseWithFormat_loop (S (List.length fmt)) fmt str dt
          else Ok (false, str, dt)).
  destruct (updateDateTimeAndStr field (eatSpace str) dt) as [[[[] str'] dt']|e]; cbn [rbind]; auto.
  apply loop_fuel. lia.
Qed.

Lemma format_space f fmt str dt :
  Ascii.eqb f "%" = false -> isspace f = true ->
  parseWithFormat (f :: fmt) str dt = parseWithFormat (eatSpace fmt) (eatSpace str) dt.
Proof.
  intros H1 H2. unfold parseWithFormat at 1. cbn [parseWithFormat_loop List.length eatSpace].
  rewrite H1, H2. apply loop_fuel, eatSpace_length.
Qed.

Lemma format_char f fmt str dt :
  Ascii.eqb f "%" = false -> isspace f = false ->
  parseWithFormat (f :: fmt) (f :: str) dt = parseWithFormat fmt str dt.
Proof.
  intros H1 H2. unfold parseWithFormat at 1. cbn [parseWithFormat_loop List.length].
  rewrite H1, H2, Ascii.eqb_refl. apply loop_fuel. lia.
Qed.

(** ** The parser returns

    [known_format] holds of a format whose fields are all known and complete. *)

Definition known_field (c : ascii) : bool :=
  existsb (Ascii.eqb c) (lit "YymbdHIMSzp").

Lemma updateDateTimeAndStr_known field str dt :
  known_field field = true -> exists r, updateDateTimeAndStr field str dt = Ok r.
Proof.
  intros H. cbn in H.
  repeat match type of H with
  | (Ascii.eqb field ?c || _)%bool = true =>
      destruct (Ascii.eqb_spec field c) as [->|]; [eexists; reflexivity | cbn [orb] in H]
  end. discriminate.
Qed.

Fixpoint known_format (fuel : nat) (fmt : chars) : bool :=
  match fuel, fmt with
  | _, [] => true
  | O, _ => false
  | S fuel, f :: fmt =>
      if Ascii.eqb f "%" then
        match fmt with
        | field :: fmt => known_field field && known_format fuel fmt
        | [] => false
        end
      else if isspace f then known_format fuel (eatSpace fmt) else known_format fuel fmt
  end.

Lemma known_format_ok fuel fmt str dt :
  known_format fuel fmt = true -> exists r, parseWithFormat fmt str dt = Ok r.
Proof.
  revert fmt str dt. induction fuel as [|fuel IH]; intros fmt str dt H.
  { destruct fmt; [|discriminate]. eexists. reflexivity. }
  destruct fmt as [|f fmt]; [eexists; reflexivity|]. cbn [known_format] in H.
  destruct (Ascii.eqb_spec f "%") as [->|Hf].
  - destruct fmt as [|field fmt]; [discriminate|]. apply andb_true_iff in H as [Hk H].
    rewrite format_field.
    destruct (updateDateTimeAndStr_known field (eatSpace str) dt Hk) as [[[[] str'] dt'] ->];
      cbn; eauto.
  - apply Ascii.eqb_neq in Hf. destruct (isspace f) eqn:Es.
    + rewrite format_space by assumption. auto.
    + destruct str as [|c str]; [unfold parseWithFormat; cbn; rewrite Hf, Es; eauto|].
      destruct (Ascii.eqb_spec f c) as [->|Hc]; [rewrite format_char by assumption; auto|].
      unfold parseWithFormat. cbn. rewrite Hf, Es. apply Ascii.eqb_neq in Hc. rewrite Hc. eauto.
Qed.

Lemma formatViews_known ft : Forall (fun f => known_format 20 f = true) (formatViews ft).
Proof. destruct ft; repeat constructor. Qed.

Lemma try_formats_ok formats str dt :
  Forall (fun f => known_format 20 f = true) formats ->
  exists r, try_formats formats str dt = Ok r.
Proof.
  intros H. revert dt. induction H as [|f formats Hf H IH]; intros dt; cbn; [eauto|].
  destruct (known_format_ok 20 f str dt Hf) as [[[[] str'] dt'] ->]; cbn; eauto.
Qed.

Lemma getTime_ok dt unit : unit <> TU_kMonth -> exists v, getTime dt unit = Ok v.
Proof. intros H. unfold getTime. destruct unit; try easy; eexists; reflexivity. Qed.

Lemma parse_ok str unit p :
  unit <> TU_kMonth -> format_type_ p <> None -> exists r, parse str unit p = Ok r.
Proof.
  intros Hu Hp. unfold parse. destruct (format_type_ p) as [ft|]; [|easy].
  destruct (try_formats_ok (formatViews ft) str (dt_ p) (formatViews_known ft))
    as [[[rest|] dt] ->]; cbn; [|eauto].
  destruct (getTime_ok dt unit Hu) as [v ->]. cbn. eauto.
Qed.

(** ** Fields stay in range

    The ranges of the comments of [struct DateTime]; the offset of a zone is at most that of
    ["99:99"]. *)

Definition DateTime_ok (t : DateTime) : Prop :=
  INT64_MIN <= dt_Y t <= INT64_MAX /\ 1 <= dt_m t <= 12 /\ 1 <= dt_d t <= 31 /\
  0 <= dt_H t <= 23 /\ 0 <= dt_M t <= 59 /\ 0 <= dt_S t <= 61 /\
  0 <= dt_n t < 1000000000 /\ -362340 <= dt_z t <= 362340.

Lemma DateTime_default_ok : DateTime_ok DateTime_default.
Proof. unfold DateTime_ok, INT64_MIN, INT64_MAX. cbn. lia. Qed.

Lemma scan_digits_length s acc : (snd (scan_digits s acc) <= List.length s)%nat.
Proof.
  revert acc. induction s as [|c s IH]; intros acc; cbn [scan_digits]; [cbn; lia|].
  destruct (isdigit c); [|cbn; lia].
  specialize (IH (10 * acc + digit_value c)).
  destruct (scan_digits s (10 * acc + digit_value c)). cbn in *. lia.
Qed.

Lemma scan_digits_bound s acc :
  0 <= acc -> let '(v, n) := scan_digits s acc in
  0 <= v < (acc + 1) * 10 ^ Z.of_nat n.
Proof.
  revert acc. induction s as [|c s IH]; intros acc Ha; cbn [scan_digits];
    [change (10 ^ Z.of_nat 0) with 1; lia|].
  destruct (isdigit c) eqn:Ec; [|change (10 ^ Z.of_nat 0) with 1; lia]. pose proof (isdigit_value c Ec) as Bc.
  specialize (IH (10 * acc + digit_value c) ltac:(lia)).
  destruct (scan_digits s (10 * acc + digit_value c)) as [v n].
  rewrite Nat2Z.inj_succ, Z.pow_succ_r by lia.
  assert (0 < 10 ^ Z.of_nat n) by lia. nia.
Qed.

Lemma from_chars_signed_range lo hi s v n :
  from_chars_signed lo hi s = Some (v, n) -> lo <= v <= hi.
Proof.
  unfold from_chars_signed. intros H.
  destruct s as [|c s]; [discriminate|].
  destruct (Ascii.eqb c "-");
    destruct (scan_digits _ 0) as [w [|k]]; try discriminate; unfold in_range in H;
    destruct ((lo <=? _) && (_ <=? hi)) eqn:E; try discriminate; injection H as <- <-;
    apply andb_true_iff in E; lia.
Qed.

(** A number read through a window of [n] characters has at most [n] digits. *)
Lemma fromChars_window n str v rest :
  fromChars_unsigned (Some n) str = Some (v, rest) ->
  exists k, (0 < k <= n)%nat /\ (k <= List.length str)%nat /\ 0 <= v < 10 ^ Z.of_nat k /\
            rest = skipn k str.
Proof.
  unfold fromChars_unsigned, from_chars_unsigned.
  pose proof (scan_digits_length (firstn n str) 0) as Hl. rewrite length_firstn in Hl.
  pose proof (scan_digits_bound (firstn n str) 0 ltac:(lia)) as Hb.
  destruct (scan_digits (firstn n str) 0) as [w [|k]]; [discriminate|]. cbn [snd] in Hl.
  destruct (in_range 0 UINT32_MAX w); [|discriminate]. intros [= <- <-].
  exists (S k). repeat split; lia.
Qed.

Ltac keeps := unfold DateTime_ok, INT64_MIN, INT64_MAX in *; cbn -[Z.add Z.mul Z.pow] in *; intuition lia.

Lemma two_digits_keeps lo hi set str dt :
  (forall v, lo <= v <= hi -> DateTime_ok (set v dt)) -> DateTime_ok dt ->
  DateTime_ok (snd (two_digits lo hi set str dt)).
Proof.
  intros Hset Hdt. unfold two_digits, in_range.
  destruct (fromChars_unsigned (Some 2%nat) str) as [[v rest]|]; [|exact Hdt].
  destruct ((lo <=? v) && (v <=? hi)) eqn:E; [|exact Hdt].
  apply andb_true_iff in E. apply Hset. lia.
Qed.

Lemma parse_y_keeps str dt : DateTime_ok dt -> DateTime_ok (snd (parse_y str dt)).
Proof.
  intros H. unfold parse_y, fromChars_unsigned, from_chars_unsigned.
  pose proof (scan_digits_bound str 0 ltac:(lia)) as Hb.
  destruct (scan_digits str 0) as [v [|k]]; [exact H|].
  destruct (in_range 0 UINT32_MAX v); [|exact H]. apply proj1 in Hb.
  zbool; keeps.
Qed.

Lemma parse_b_keeps str dt : DateTime_ok dt -> DateTime_ok (snd (parse_b str dt)).
Proof.
  intros H. unfold parse_b. destruct str as [|a [|b [|c str]]]; try exact H.
  destruct (Nat.ltb_spec (find_key
    (prefix_key (tolower (char_value a)) (tolower (char_value b)) (tolower (char_value c)))
    month_prefixes) 12) as [L|L]; [|exact H].
  revert L. generalize (find_key
    (prefix_key (tolower (char_value a)) (tolower (char_value b)) (tolower (char_value c)))
    month_prefixes). intros i L. cbn [snd]. keeps.
Qed.

Lemma at_pow_10 k : 0 <= k <= 9 -> at_ pow_10 k = 10 ^ k.
Proof.
  intros H. apply Z.eqb_eq.
  exact (all_below_spec 10 (fun k => at_ pow_10 k =? 10 ^ k) eq_refl k ltac:(lia)).
Qed.

(** A fraction of [k] digits, scaled to nanoseconds. *)
Lemma fraction_range k v :
  0 < k <= 9 -> 0 <= v < 10 ^ k ->
  u32 (v * at_ pow_10 (9 - k)) = v * 10 ^ (9 - k) /\ 0 <= v * 10 ^ (9 - k) < 1000000000.
Proof.
  intros Hk Hv. rewrite at_pow_10 by lia.
  assert (E : 10 ^ k * 10 ^ (9 - k) = 1000000000)
    by (rewrite <- Z.pow_add_r by lia; now replace (k + (9 - k)) with 9 by lia).
  assert (0 < 10 ^ (9 - k)) by lia. split; [apply u32_small|]; nia.
Qed.

Lemma parse_S_keeps str dt : DateTime_ok dt -> DateTime_ok (snd (parse_S str dt)).
Proof.
  intros H. unfold parse_S.
  destruct (fromChars_unsigned (Some 2%nat) str) as [[s str1]|] eqn:E; [|exact H].
  apply fromChars_window in E as (k & _ & _ & Bs & _).
  destruct (Z.leb_spec s 61); [|exact H].
  assert (H1 : DateTime_ok (set_S s dt)) by keeps.
  destruct str1 as [|c str2]; [exact H1|]. destruct (Ascii.eqb c "."); [|exact H1].
  destruct (fromChars_unsigned (Some 9%nat) str2) as [[ns str3]|] eqn:E; [|exact H1].
  apply fromChars_window in E as (k' & Hk & Hl & Bn & ->). rewrite length_skipn.
  replace (Z.of_nat (List.length str2) - Z.of_nat (List.length str2 - k')) with (Z.of_nat k') by lia.
  destruct (fraction_range (Z.of_nat k') ns ltac:(lia) Bn) as [-> B]. keeps.
Qed.

(** The two digits of an hour or a minute of a zone. *)
Lemma zone_number str i :
  let v := match from_chars_signed INT32_MIN INT32_MAX (firstn 2 (skipn i str)) with
           | Some (v, _) => v
           | None => 0
           end in -99 <= v <= 99.
Proof.
  unfold from_chars_signed. destruct (firstn 2 (skipn i str)) as [|a s] eqn:E; [cbn; lia|].
  assert (L : (List.length (a :: s) <= 2)%nat) by (rewrite <- E, length_firstn; lia).
  cbn [List.length] in L.
  assert (B : forall t, (List.length t <= 2)%nat -> 0 <= fst (scan_digits t 0) <= 99).
  { intros t Ht. pose proof (scan_digits_bound t 0 ltac:(lia)) as Hb.
    pose proof (scan_digits_length t 0). destruct (scan_digits t 0) as [v n]; cbn [fst snd] in *.
    assert (10 ^ Z.of_nat n <= 10 ^ 2) by (apply Z.pow_le_mono_r; lia). lia. }
  destruct (Ascii.eqb a "-"); [specialize (B s) | specialize (B (a :: s))];
    destruct (scan_digits _ 0) as [w [|k]]; cbn [fst List.length] in *; try lia;
    destruct (in_range _ _ _); lia.
Qed.

Lemma parse_z_keeps str dt : DateTime_ok dt -> DateTime_ok (snd (parse_z str dt)).
Proof.
  intros H. unfold parse_z. destruct (_ && _); [|exact H]. cbn [snd].
  set (sep := if Ascii.eqb (char_at str 3) ":" then 4%nat else 3%nat).
  pose proof (zone_number str 1) as B1. pose proof (zone_number str sep) as B2. cbv zeta in *.
  unfold DateTime_ok, set_z in *. cbn [dt_Y dt_m dt_d dt_H dt_M dt_S dt_n dt_z] in *.
  destruct (Ascii.eqb (char_at str 0) "-"); intuition lia.
Qed.

Lemma update_keeps field str dt ok str' dt' :
  DateTime_ok dt -> updateDateTimeAndStr field str dt = Ok (ok, str', dt') -> DateTime_ok dt'.
Proof.
  intros H E. enough (K : exists r, updateDateTimeAndStr field str dt = Ok r /\ DateTime_ok (snd r))
    by (destruct K as (r & E' & K); rewrite E' in E; injection E as ->; exact K).
  unfold updateDateTimeAndStr in *.
  repeat match goal with
  | |- context [match ?c with Ascii _ _ _ _ _ _ _ _ => _ end] => destruct c
  | |- context [match ?b with true => _ | false => _ end] => destruct b; try discriminate E
  end; eexists; (split; [reflexivity|]); clear E;
    first [ apply two_digits_keeps; [intros v Hv|]; keeps
          | now apply parse_y_keeps | now apply parse_b_keeps | now apply parse_S_keeps
          | now apply parse_z_keeps
          | unfold parse_p; destruct (_ || _); keeps
          | unfold parse_Y, fromChars_int64;
            destruct (from_chars_signed _ _ _) as [[v k]|] eqn:E; [|exact H];
            apply from_chars_signed_range in E; keeps ].
Qed.

Lemma loop_keeps fuel fmt str dt ok str' dt' :
  DateTime_ok dt -> parseWithFormat_loop fuel fmt str dt = Ok (ok, str', dt') -> DateTime_ok dt'.
Proof.
  revert fmt str dt. induction fuel as [|fuel IH]; intros fmt str dt Hdt E;
    (destruct fmt as [|f fmt]; [injection E as <- <- <-; exact Hdt|]); [discriminate|].
  cbn [parseWithFormat_loop] in E. destruct (Ascii.eqb f "%").
  - destruct fmt as [|field fmt]; [discriminate|].
    destruct (updateDateTimeAndStr field (eatSpace str) dt) as [[[ok1 str1] dt1]|e] eqn:E1;
      cbn [rbind] in E; [|discriminate].
    pose proof (update_keeps _ _ _ _ _ _ Hdt E1) as H1.
    destruct ok1; [eauto | injection E as <- <- <-; exact H1].
  - destruct (isspace f); [eauto|].
    destruct str as [|c str]; [injection E as <- <- <-; exact Hdt|].
    destruct (Ascii.eqb f c); [eauto | injection E as <- <- <-; exact Hdt].
Qed.

Lemma try_formats_keeps formats str dt r dt' :
  DateTime_ok dt -> try_formats formats str dt = Ok (r, dt') -> DateTime_ok dt'.
Proof.
  revert dt. induction formats as [|f formats IH]; intros dt Hdt E; cbn in E.
  { injection E as <- <-. exact Hdt. }
  destruct (parseWithFormat f str dt) as [[[ok str1] dt1]|e] eqn:E1; cbn [rbind] in E;
    [|discriminate].
  apply loop_keeps in E1; [|exact Hdt]. destruct ok; [injection E as <- <-; exact E1 | eauto].
Qed.

End Facts.
