(* ===== verification/DateTimeLiterals.v ===== *)
(** * Literals: dates, times, time zones

    The texts of numeric literals, what the parser reads in them, and the texts that
    [formatDate], [formatDateTime] and [formatHMS] print. *)

From Stdlib Require Import ZArith Lia List Bool Ascii String.
From S2P Require Import Prelude Chars Civil ExtractFromTime ExtractFacts DateAdd DateTimeParser DateTimeFacts.
Import ListNotations.
Local Open Scope Z_scope.
Local Open Scope hdk_scope.

(** ** Texts *)

(** A numeric field of one or two digits, with a value from [lo] to [hi]. *)
Definition field2 (lo hi : Z) (s : chars) : Prop :=
  all_digits s /\ (1 <= List.length s <= 2)%nat /\ lo <= digits_value s <= hi.

Definition date_literal (neg : bool) (Y m d : chars) : chars :=
  signed_text neg Y ++ lit "-" ++ m ++ lit "-" ++ d.

Record date_ok (neg : bool) (Y m d : chars) : Prop := {
  date_Y : all_digits Y /\ Y <> [] /\ -10 ^ 16 <= signed_value neg Y <= 10 ^ 16;
  date_m : field2 1 12 m;
  date_d : field2 1 31 d
}.

Definition fraction_text (f : option chars) : chars :=
  match f with Some f => "."%char :: f | None => [] end.

(** The nanoseconds of a fraction. *)
Definition fraction_value (f : option chars) : Z :=
  match f with
  | Some f => digits_value f * 10 ^ (9 - Z.of_nat (List.length f))
  | None => 0
  end.

Definition fraction_ok (f : option chars) : Prop :=
  match f with Some f => all_digits f /\ (1 <= List.length f <= 9)%nat | None => True end.

Definition time_literal (H M S : chars) (f : option chars) : chars :=
  H ++ lit ":" ++ M ++ lit ":" ++ S ++ fraction_text f.

Record time_lit_ok (H M S : chars) (f : option chars) : Prop := {
  time_H : field2 0 23 H;
  time_M : field2 0 59 M;
  time_S : field2 0 61 S;
  time_f : fraction_ok f
}.

(** A time zone: the sign, hours, minutes and whether a colon separates them. *)
Definition zone := option (bool * chars * bool * chars).

Definition zone_text (z : zone) : chars :=
  match z with
  | Some (neg, hh, colon, mm) =>
      (if neg then "-"%char else "+"%char) :: hh ++ (if colon then lit ":" else []) ++ mm
  | None => []
  end.

Definition zone_value (z : zone) : Z :=
  match z with
  | Some (neg, hh, _, mm) => (if neg then -60 else 60) * (60 * digits_value hh + digits_value mm)
  | None => 0
  end.

Definition zone_ok (z : zone) : Prop :=
  match z with
  | Some (_, hh, _, mm) =>
      all_digits hh /\ all_digits mm /\ List.length hh = 2%nat /\ List.length mm = 2%nat
  | None => True
  end.

(** ** Reading a field *)

Lemma stops_firstn n s : stops s = true -> stops (firstn n s) = true.
Proof. destruct n, s; auto. Qed.

Lemma fromChars_run n s rest :
  all_digits s -> (1 <= List.length s <= n)%nat -> (n <= 9)%nat ->
  List.length s = n \/ stops rest = true ->
  fromChars_unsigned (Some n) (s ++ rest) = Some (digits_value s, rest).
Proof.
  intros Hs Hl Hn Hr. unfold fromChars_unsigned. rewrite firstn_app, firstn_all2 by lia.
  rewrite from_chars_unsigned_digits.
  - rewrite skipn_app, skipn_all, Nat.sub_diag. reflexivity.
  - exact Hs.
  - intros ->. cbn in Hl. lia.
  - destruct Hr as [->|Hr]; [rewrite Nat.sub_diag; reflexivity | now apply stops_firstn].
  - pose proof (digits_value_range s Hs).
    assert (10 ^ Z.of_nat (List.length s) <= 10 ^ 9) by (apply Z.pow_le_mono_r; lia).
    unfold UINT32_MAX. lia.
Qed.

Lemma fromChars_field2 lo hi s rest :
  field2 lo hi s -> stops rest = true ->
  fromChars_unsigned (Some 2%nat) (s ++ rest) = Some (digits_value s, rest).
Proof. intros (Hs & Hl & _) Hr. apply fromChars_run; auto. lia. Qed.

Lemma two_digits_field lo hi set s rest dt :
  field2 lo hi s -> stops rest = true ->
  two_digits lo hi set (s ++ rest) dt = (true, rest, set (digits_value s) dt).
Proof.
  intros Hf Hr. unfold two_digits. rewrite (fromChars_field2 _ _ _ _ Hf Hr).
  destruct Hf as (_ & _ & Hv). unfold in_range.
  now replace ((lo <=? digits_value s) && (digits_value s <=? hi)) with true
    by (symmetry; apply andb_true_iff; lia).
Qed.

(** A field whose value is out of range does not match, and changes nothing. *)
Lemma two_digits_reject lo hi lo' hi' set s rest dt :
  field2 lo' hi' s -> stops rest = true -> digits_value s < lo \/ hi < digits_value s ->
  two_digits lo hi set (s ++ rest) dt = (false, rest, dt).
Proof.
  intros Hf Hr Hv. unfold two_digits. rewrite (fromChars_field2 _ _ _ _ Hf Hr). unfold in_range.
  now replace ((lo <=? digits_value s) && (digits_value s <=? hi)) with false
    by (symmetry; apply andb_false_iff; lia).
Qed.

Lemma field2_no_space lo hi s rest : field2 lo hi s -> no_space (s ++ rest).
Proof.
  intros (Hs & Hl & _). apply digits_no_space; [exact Hs|]. intros ->. cbn in Hl. lia.
Qed.

Lemma parse_Y_text neg Y rest dt :
  all_digits Y -> Y <> [] -> -10 ^ 16 <= signed_value neg Y <= 10 ^ 16 -> stops rest = true ->
  parse_Y (signed_text neg Y ++ rest) dt = (true, rest, set_Y (signed_value neg Y) dt).
Proof.
  intros Hs Hne Hv Hr. unfold parse_Y, fromChars_int64.
  rewrite from_chars_signed_digits; try assumption.
  - now rewrite skipn_app, skipn_all, Nat.sub_diag.
  - unfold INT64_MIN, INT64_MAX. lia.
Qed.

Lemma fraction_run f rest :
  all_digits f -> (1 <= List.length f <= 9)%nat -> stops rest = true ->
  fromChars_unsigned (Some 9%nat) (f ++ rest) = Some (digits_value f, rest).
Proof. intros Hs Hl Hr. apply fromChars_run; auto. Qed.

(** [continues rest]: [rest] may follow a number of seconds. *)
Definition continues (rest : chars) : Prop :=
  match rest with c :: _ => isdigit c = false /\ c <> "."%char | [] => True end.

Lemma continues_stops rest : continues rest -> stops rest = true.
Proof. destruct rest as [|c rest]; [reflexivity|]. cbn. now intros [-> _]. Qed.

Lemma parse_S_text s f rest dt :
  field2 0 61 s -> fraction_ok f -> continues rest -> dt_n dt = 0 ->
  parse_S (s ++ fraction_text f ++ rest) dt
  = (true, rest, set_n (fraction_value f) (set_S (digits_value s) dt)).
Proof.
  intros Hs Hf Hc Hn. pose proof (continues_stops rest Hc) as Hr. unfold parse_S.
  rewrite (fromChars_field2 0 61).
  2: exact Hs.
  2: destruct f; [reflexivity | exact Hr].
  destruct Hs as (_ & _ & Hv). replace (digits_value s <=? 61) with true by lia.
  destruct f as [f|]; cbn [fraction_text app].
  - rewrite Ascii.eqb_refl. destruct Hf as [Hf Hl]. rewrite fraction_run by assumption.
    rewrite length_app, Nat2Z.inj_add, Z.add_simpl_r.
    destruct (fraction_range (Z.of_nat (List.length f)) (digits_value f)) as [-> _];
      [lia | now apply digits_value_range | reflexivity].
  - assert (Hz : set_n 0 (set_S (digits_value s) dt) = set_S (digits_value s) dt)
      by (unfold set_n; destruct dt; cbn in *; now subst).
    cbn [fraction_value]. rewrite Hz. destruct rest as [|c rest]; [reflexivity|].
    destruct Hc as [_ Hc]. apply Ascii.eqb_neq in Hc. now rewrite Hc.
Qed.

Section Literals.

Context {boost : BoostStrings} {boost_ok : BoostStringsOk boost}.

(** ** Dates *)

Lemma signed_no_space neg Y rest :
  all_digits Y -> Y <> [] -> no_space (signed_text neg Y ++ rest).
Proof. intros Hs Hne. destruct neg; [reflexivity | now apply digits_no_space]. Qed.

(** [run_field] interprets a numeric field of the format. *)
Ltac run_field tac :=
  rewrite format_field, eatSpace_id; cbn [updateDateTimeAndStr];
  [ tac; cbn [rbind] | ].

Lemma date_format neg Y m d rest dt :
  date_ok neg Y m d -> stops rest = true ->
  parseWithFormat (lit "%Y-%m-%d") (date_literal neg Y m d ++ rest) dt
  = Ok (true, rest, set_d (digits_value d) (set_m (digits_value m) (set_Y (signed_value neg Y) dt))).
Proof.
  intros [(HY & Hne & HYr) Hm Hd] Hr. unfold date_literal. rewrite <- !app_assoc.
  cbn [lit list_ascii_of_string app].
  run_field ltac:(rewrite parse_Y_text by (assumption || reflexivity)).
  2: { now apply signed_no_space. }
  rewrite format_char by reflexivity.
  run_field ltac:(rewrite (two_digits_field 1 12) by (assumption || reflexivity)).
  2: { now apply (field2_no_space 1 12). }
  rewrite format_char by reflexivity.
  run_field ltac:(rewrite (two_digits_field 1 31) by (assumption || reflexivity)).
  2: { now apply (field2_no_space 1 31). }
  reflexivity.
Qed.

Lemma date_try neg Y m d rest dt :
  date_ok neg Y m d -> stops rest = true ->
  try_formats (formatViews FT_Date) (date_literal neg Y m d ++ rest) dt
  = Ok (Some rest,
        set_d (digits_value d) (set_m (digits_value m) (set_Y (signed_value neg Y) dt))).
Proof.
  intros Hd Hr. unfold formatViews. cbn [map try_formats]. now rewrite date_format.
Qed.

(** ** Times *)

(** No meridiem follows the time. *)
Definition no_meridiem (rest : chars) : Prop :=
  match rest with c :: _ => tolower (code c) <> 97 /\ tolower (code c) <> 112 | [] => True end.

Lemma istarts_with_head rest p ps :
  istarts_with rest (p :: ps) = true ->
  match rest with c :: _ => tolower (code c) = tolower (code p) | [] => False end.
Proof.
  intros H. apply (istarts_with_spec rest (p :: ps)) in H.
  destruct rest as [|c rest]; cbn in H; [discriminate | congruence].
Qed.

Lemma parse_p_none rest dt :
  no_meridiem rest -> parse_p rest dt = (true, rest, set_p None dt).
Proof.
  intros H. unfold parse_p.
  assert (F : forall p ps, tolower (code p) = 97 \/ tolower (code p) = 112 ->
              istarts_with rest (p :: ps) = false).
  { intros p ps Hp. destruct (istarts_with rest (p :: ps)) eqn:E; [exfalso|reflexivity].
    apply istarts_with_head in E. destruct rest; [easy|]. cbn in H. intuition congruence. }
  cbn [lit list_ascii_of_string]. rewrite !F by (cbn; auto). reflexivity.
Qed.

Definition after_time (rest : chars) : Prop :=
  continues rest /\ no_meridiem rest /\ no_space rest.

Lemma field2_weaken lo hi lo' hi' s :
  lo' <= digits_value s <= hi' -> field2 lo hi s -> field2 lo' hi' s.
Proof. intros H (? & ? & ?). repeat split; auto; lia. Qed.

(** Minutes and seconds, which both formats with seconds end with. *)
Lemma minutes_seconds M S f rest dt tail :
  field2 0 59 M -> field2 0 61 S -> fraction_ok f -> continues rest -> dt_n dt = 0 ->
  parseWithFormat (lit ":%M:%S" ++ tail)
    (lit ":" ++ M ++ lit ":" ++ S ++ fraction_text f ++ rest) dt
  = parseWithFormat tail rest
      (set_n (fraction_value f) (set_S (digits_value S) (set_M (digits_value M) dt))).
Proof.
  intros HM HS Hf Hc Hn. cbn [lit list_ascii_of_string app].
  rewrite format_char by reflexivity.
  run_field ltac:(rewrite (two_digits_field 0 59) by (assumption || reflexivity)).
  2: { now apply (field2_no_space 0 59). }
  rewrite format_char by reflexivity.
  run_field ltac:(rewrite parse_S_text by (assumption || (cbn; assumption))).
  2: { now apply (field2_no_space 0 61). }
  reflexivity.
Qed.

(** The fields that a time fills in. *)
Definition time_fields_of (H M S : chars) (f : option chars) (dt : DateTime) : DateTime :=
  set_n (fraction_value f)
    (set_S (digits_value S) (set_M (digits_value M) (set_H (digits_value H) dt))).

(** A time is read by the first format if its hour is from 1 to 12, by the second otherwise. *)
Lemma time_try H M S f rest sp dt :
  time_lit_ok H M S f -> after_time rest -> dt_n dt = 0 -> dt_p dt = None ->
  eatSpace (sp ++ time_literal H M S f ++ rest) = time_literal H M S f ++ rest ->
  try_formats (formatViews FT_Time) (sp ++ time_literal H M S f ++ rest) dt
  = Ok (Some rest, time_fields_of H M S f dt).
Proof.
  intros [HH HM HS Hf] (Hc & Hm & Hs) Hn Hp Hsp. unfold formatViews. cbn [map try_formats].
  assert (E : time_literal H M S f ++ rest
    = H ++ lit ":" ++ M ++ lit ":" ++ S ++ fraction_text f ++ rest)
    by (unfold time_literal; now rewrite <- !app_assoc).
  rewrite E in *. clear E.
  assert (Hh : forall t, stops (lit ":" ++ t) = true) by reflexivity.
  destruct (Z_le_dec 1 (digits_value H)) as [H1|H1];
    [destruct (Z_le_dec (digits_value H) 12) as [H2|H2]|].
  1: { change (lit "%I:%M:%S %p") with ("%"%char :: "I"%char :: lit ":%M:%S" ++ lit " %p").
    rewrite format_field, Hsp.
    cbn [updateDateTimeAndStr].
    rewrite (two_digits_field 1 12) by first [exact (Hh _) | now apply (field2_weaken 0 23)].
    cbn [rbind]. rewrite (minutes_seconds M S f rest) by auto.
    change (lit " %p") with (" "%char :: lit "%p"). rewrite format_space by reflexivity.
    rewrite (eatSpace_id rest) by exact Hs.
    change (eatSpace (lit "%p")) with ["%"%char; "p"%char].
    rewrite format_field, eatSpace_id by exact Hs. cbn [updateDateTimeAndStr].
    rewrite parse_p_none by exact Hm. cbn [rbind]. rewrite format_end. cbn [rbind].
    do 2 f_equal. unfold time_fields_of. destruct dt. cbn in *. now subst. }
  all: change (lit "%I:%M:%S %p") with ("%"%char :: "I"%char :: lit ":%M:%S %p");
    change (lit "%H:%M:%S") with ("%"%char :: "H"%char :: lit ":%M:%S" ++ []);
    rewrite format_field, Hsp; cbn [updateDateTimeAndStr];
    rewrite (two_digits_reject 1 12 0 23) by (auto; lia); cbn [rbind];
    rewrite format_field, Hsp; cbn [updateDateTimeAndStr];
    rewrite (two_digits_field 0 23) by auto; cbn [rbind];
    rewrite (minutes_seconds M S f rest) by auto;
    rewrite format_end; reflexivity.
Qed.

(** ** Time zones *)

Lemma from_chars_pair a b :
  isdigit a = true -> isdigit b = true ->
  from_chars_signed INT32_MIN INT32_MAX [a; b] = Some (digits_value [a; b], 2%nat).
Proof.
  intros Ha Hb. assert (Hs : all_digits [a; b]) by (repeat constructor; assumption).
  pose proof (digits_value_range [a; b] Hs) as B. cbn [List.length] in B.
  change (10 ^ Z.of_nat 2) with 100 in B.
  apply (from_chars_signed_digits INT32_MIN INT32_MAX false [a; b] []);
    [exact Hs | discriminate | reflexivity |].
  unfold signed_value, INT32_MIN, INT32_MAX. lia.
Qed.

Lemma parse_z_text neg hh colon mm dt :
  zone_ok (Some (neg, hh, colon, mm)) ->
  parse_z (zone_text (Some (neg, hh, colon, mm))) dt
  = (true, [], set_z (zone_value (Some (neg, hh, colon, mm))) dt).
Proof.
  intros (Hh & Hm & Lh & Lm).
  destruct hh as [|a [|b [|]]]; try discriminate. destruct mm as [|c [|d [|]]]; try discriminate.
  inversion_clear Hh as [|? ? Ha Hh']. inversion_clear Hh' as [|? ? Hb _].
  inversion_clear Hm as [|? ? Hc Hm']. inversion_clear Hm' as [|? ? Hd _].
  pose proof (isdigit_neq c ":" Hc eq_refl) as Hc'.
  unfold parse_z, char_at, zone_text, zone_value.
  destruct neg, colon; cbn -[from_chars_signed digits_value isdigit Z.mul Z.add Ascii.eqb];
    rewrite ?Ha, ?Hb, ?Hc, ?Hd, ?Hc'; cbn -[from_chars_signed digits_value isdigit Z.mul Z.add];
    rewrite ?Ha, ?Hb, ?Hc, ?Hd, !from_chars_pair by assumption; reflexivity.
Qed.

Lemma zone_try z dt :
  zone_ok z ->
  try_formats (formatViews FT_Timezone) (zone_text z) dt
  = match z with
    | Some _ => Ok (Some [], set_z (zone_value z) dt)
    | None => Ok (None, dt)
    end.
Proof.
  intros Hz. destruct z as [[[[neg hh] colon] mm]|]; [|reflexivity].
  unfold formatViews. cbn [map try_formats].
  change (lit "%z") with ["%"%char; "z"%char]. rewrite format_field, eatSpace_id.
  2: { destruct neg; reflexivity. }
  cbn [updateDateTimeAndStr]. rewrite parse_z_text by exact Hz. reflexivity.
Qed.

(** ** Values *)

(** The precision of a unit in decimal digits, as [getTime] has it. *)
Definition unit_scale (unit : TimeUnit) : Z :=
  match unit with TU_kMilli => 3 | TU_kMicro => 6 | TU_kNano => 9 | _ => 0 end.

Definition units (unit : TimeUnit) : Z := 10 ^ unit_scale unit.

Definition fits64 (v : Z) : Prop := INT64_MIN <= v <= INT64_MAX.

Lemma fits64_s64 v : fits64 v -> s64 v = v.
Proof. unfold fits64, INT64_MIN, INT64_MAX. intros. apply s64_small. lia. Qed.

Lemma getTime_spec dt unit :
  unit <> TU_kMonth -> dt_p dt = None -> DateTime_ok dt -> -10 ^ 16 <= dt_Y dt <= 10 ^ 16 ->
  getTime dt unit
  = Ok (s64 ((86400 * day_number (dt_Y dt) (dt_m dt) (dt_d dt)
              + (3600 * dt_H dt + 60 * dt_M dt + dt_S dt - dt_z dt)) * units unit
             + dt_n dt / 10 ^ (9 - unit_scale unit))).
Proof.
  intros Hu Hp (_ & Hm & Hd & HH & HM & HS & Hn & Hz) HY. unfold getTime.
  rewrite daysFromCivil_spec by assumption. rewrite Hp, Z.add_0_r.
  rewrite (s32_small (3600 * _ + _ + _)) by lia. rewrite s32_small by lia.
  destruct unit; try easy; cbn [rbind]; rewrite !at_pow_10 by lia; reflexivity.
Qed.

(** The parts of a literal, in units. *)
Definition date_units (unit : TimeUnit) (neg : bool) (Y m d : chars) : Z :=
  86400 * day_number (signed_value neg Y) (digits_value m) (digits_value d) * units unit.

Definition time_units (unit : TimeUnit) (H M S : chars) (f : option chars) : Z :=
  (3600 * digits_value H + 60 * digits_value M + digits_value S) * units unit
  + fraction_value f / 10 ^ (9 - unit_scale unit).

Definition zone_units (unit : TimeUnit) (z : zone) : Z := zone_value z * units unit.

Lemma units_range unit : 1 <= units unit <= 10 ^ 9.
Proof. destruct unit; cbn; lia. Qed.

Lemma fraction_value_range f : fraction_ok f -> 0 <= fraction_value f < 1000000000.
Proof.
  destruct f as [f|]; cbn [fraction_ok fraction_value]; [|lia]. intros [Hf Hl].
  apply (fraction_range (Z.of_nat (List.length f))); [lia | now apply digits_value_range].
Qed.

Lemma zone_value_range z : zone_ok z -> -362340 <= zone_value z <= 362340.
Proof.
  destruct z as [[[[neg hh] colon] mm]|]; cbn [zone_ok zone_value]; [|lia].
  intros (Hh & Hm & Lh & Lm). apply digits_value_range in Hh, Hm. rewrite Lh in Hh. rewrite Lm in Hm.
  change (10 ^ Z.of_nat 2) with 100 in *. destruct neg; lia.
Qed.

Lemma time_units_small unit H M S f : time_lit_ok H M S f -> fits64 (time_units unit H M S f).
Proof.
  intros [(_ & _ & BH) (_ & _ & BM) (_ & _ & BS) Bf]. unfold fits64, time_units, INT64_MIN, INT64_MAX.
  pose proof (fraction_value_range f Bf). pose proof (units_range unit).
  assert (0 <= fraction_value f / 10 ^ (9 - unit_scale unit) <= 1000000000).
  { split; [apply Z.div_pos; [lia|] | apply Z.div_le_upper_bound]; destruct unit; cbn; lia. }
  nia.
Qed.

(** ** The three parses of a literal *)

Lemma date_parse neg Y m d rest unit p :
  date_ok neg Y m d -> stops rest = true -> unit <> TU_kMonth ->
  fits64 (date_units unit neg Y m d) ->
  exists p', parse (date_literal neg Y m d ++ rest) unit (setFormatType FT_Date p)
             = Ok (Some (date_units unit neg Y m d), p') /\ unparsed_ p' = rest.
Proof.
  intros Hd Hr Hu Hf. unfold parse. cbn [setFormatType resetDateTime format_type_ dt_].
  rewrite date_try by assumption. cbn [rbind].
  destruct Hd as [(_ & _ & BY) (_ & _ & Bm) (_ & _ & Bd)].
  rewrite getTime_spec; [|assumption|reflexivity| |exact BY].
  - cbn [rbind]. cbn -[day_number Z.mul Z.add s64 units unit_scale Z.pow Z.div].
    replace (3600 * 0 + 60 * 0 + 0 - 0) with 0 by lia. rewrite !Z.add_0_r.
    fold (date_units unit neg Y m d). rewrite fits64_s64 by exact Hf. eauto.
  - unfold DateTime_ok, INT64_MIN, INT64_MAX. cbn. lia.
Qed.

Lemma time_parse H M S f rest sp unit p :
  time_lit_ok H M S f -> after_time rest -> unit <> TU_kMonth ->
  eatSpace (sp ++ time_literal H M S f ++ rest) = time_literal H M S f ++ rest ->
  exists p', parse (sp ++ time_literal H M S f ++ rest) unit (setFormatType FT_Time p)
             = Ok (Some (time_units unit H M S f), p') /\ unparsed_ p' = rest.
Proof.
  intros Ht Hr Hu Hsp. unfold parse. cbn [setFormatType resetDateTime format_type_ dt_].
  rewrite time_try by (assumption || reflexivity). cbn [rbind].
  pose proof (time_units_small unit _ _ _ _ Ht) as Hfit.
  destruct Ht as [(_ & _ & BH) (_ & _ & BM) (_ & _ & BS) Bf]. apply fraction_value_range in Bf.
  rewrite getTime_spec; [|assumption|reflexivity| |cbn; lia].
  - cbn [rbind]. cbn -[day_number Z.mul Z.add Z.sub s64 units unit_scale Z.pow Z.div].
    change (day_number 1970 1 1) with 0. rewrite Z.mul_0_r, Z.add_0_l, Z.sub_0_r.
    fold (time_units unit H M S f). rewrite fits64_s64 by exact Hfit. eauto.
  - unfold DateTime_ok, INT64_MIN, INT64_MAX. cbn. lia.
Qed.

Lemma zone_parse z unit p :
  zone_ok z -> unit <> TU_kMonth ->
  exists o p', parse (zone_text z) unit (setFormatType FT_Timezone p) = Ok (o, p') /\
               value_or o 0 = - zone_units unit z /\ unparsed_ p' = [].
Proof.
  intros Hz Hu. unfold parse. cbn [setFormatType resetDateTime format_type_ dt_].
  rewrite zone_try by assumption. pose proof (zone_value_range z Hz) as B.
  destruct z as [q|]; cbn [rbind].
  - rewrite getTime_spec; [|assumption|reflexivity| |cbn; lia].
    + cbn [rbind]. cbn -[day_number Z.mul Z.add Z.sub s64 units unit_scale Z.pow Z.div zone_value].
      change (day_number 1970 1 1) with 0. rewrite Z.div_0_l by (destruct unit; cbn; lia).
      do 2 eexists. split; [reflexivity|]. split; [|reflexivity]. cbn [value_or].
      pose proof (units_range unit). unfold zone_units. rewrite s64_small by nia. lia.
    + unfold DateTime_ok, INT64_MIN, INT64_MAX. cbn -[zone_value]. lia.
  - do 2 eexists. split; [reflexivity|]. split; reflexivity.
Qed.

Lemma zone_text_after z : zone_ok z -> after_time (zone_text z).
Proof.
  intros _. destruct z as [[[[neg hh] colon] mm]|]; [|repeat split].
  destruct neg; cbn; repeat split; try discriminate; cbn; lia.
Qed.

Lemma zone_text_stops z : stops (zone_text z) = true.
Proof. now destruct z as [[[[[] hh] colon] mm]|]. Qed.

(** ** Whole literals *)

Lemma date_literal_head neg Y m d rest c l :
  date_ok neg Y m d -> date_literal neg Y m d ++ rest = c :: l -> isdigit c = true \/ c = "-"%char.
Proof.
  intros [(HY & Hne & _) _ _] E. unfold date_literal in E. destruct neg; cbn in E.
  - injection E as <- _. auto.
  - destruct Y as [|a Y]; [easy|]. inversion HY. injection E as <- _. auto.
Qed.

Lemma skip_one_date neg Y m d rest :
  date_ok neg Y m d -> skip_one ["T"%char] (date_literal neg Y m d ++ rest) = date_literal neg Y m d ++ rest.
Proof.
  intros Hd. destruct (date_literal neg Y m d ++ rest) as [|c l] eqn:E; [reflexivity|].
  destruct (date_literal_head _ _ _ _ _ _ _ Hd E) as [Hc| ->]; [|reflexivity].
  cbn [skip_one existsb]. now rewrite (isdigit_neq c "T") by easy.
Qed.

Lemma time_literal_head H M S f rest :
  time_lit_ok H M S f ->
  no_space (time_literal H M S f ++ rest) /\
  skip_one ["T"%char] (time_literal H M S f ++ rest) = time_literal H M S f ++ rest.
Proof.
  intros [(HH & HL & _) _ _ _]. unfold time_literal. destruct H as [|c H]; [cbn in HL; lia|].
  inversion HH. cbn -[isspace]. split; [now apply isdigit_isspace|].
  now rewrite (isdigit_neq c "T").
Qed.

Lemma timestamp_value neg Y m d sep H M S f z unit :
  date_ok neg Y m d -> time_lit_ok H M S f -> zone_ok z -> unit <> TU_kMonth ->
  sep = " "%char \/ sep = "T"%char ->
  let date := date_units unit neg Y m d in
  let time := time_units unit H M S f in
  fits64 date -> fits64 (date + time) -> fits64 (date + time - zone_units unit z) ->
  dateTimeParse LT_kTimestamp
    (date_literal neg Y m d ++ sep :: time_literal H M S f ++ zone_text z) unit
  = Ok (date + time - zone_units unit z).
Proof.
  intros Hd Ht Hz Hu Hsep date time Fd _ Ft.
  unfold dateTimeParse, dateTimeParseOptional, dateTimeParseOptional_kTimestamp.
  rewrite skip_one_date by exact Hd.
  destruct (date_parse neg Y m d (sep :: time_literal H M S f ++ zone_text z) unit DateTimeParser_new)
    as (p1 & E1 & U1); try assumption.
  { destruct Hsep as [-> | ->]; reflexivity. }
  rewrite E1. cbn [rbind]. rewrite U1. cbv zeta.
  assert (Esep : exists sp,
    skip_one ["T"%char; ":"%char] (sep :: time_literal H M S f ++ zone_text z)
      = sp ++ time_literal H M S f ++ zone_text z /\
    eatSpace (sp ++ time_literal H M S f ++ zone_text z) = time_literal H M S f ++ zone_text z).
  { destruct (time_literal_head H M S f (zone_text z) Ht) as [Hns _].
    destruct Hsep as [-> | ->]; [exists [" "%char] | exists []]; cbn;
      (split; [reflexivity | now apply eatSpace_id]). }
  destruct Esep as (sp & -> & Hsp).
  destruct (time_parse H M S f (zone_text z) sp unit p1) as (p2 & -> & U2); try assumption.
  { now apply zone_text_after. }
  cbn [rbind]. rewrite U2.
  destruct (zone_parse z unit p2 Hz Hu) as (o & p3 & -> & Vo & _). cbn [rbind value_or].
  rewrite Vo. f_equal. exact (fits64_s64 _ Ft).
Qed.

Lemma date_value neg Y m d z unit :
  date_ok neg Y m d -> zone_ok z -> unit <> TU_kMonth ->
  fits64 (date_units unit neg Y m d) ->
  fits64 (date_units unit neg Y m d - zone_units unit z) ->
  dateTimeParse LT_kDate (date_literal neg Y m d ++ zone_text z) unit
  = Ok (date_units unit neg Y m d - zone_units unit z).
Proof.
  intros Hd Hz Hu Fd Ft.
  unfold dateTimeParse, dateTimeParseOptional, dateTimeParseOptional_kDate.
  destruct (date_parse neg Y m d (zone_text z) unit DateTimeParser_new)
    as (p1 & E1 & U1); auto using zone_text_stops.
  rewrite E1. cbn [rbind]. rewrite U1.
  destruct (zone_parse z unit p1 Hz Hu) as (o & p3 & -> & Vo & _). cbn [rbind].
  rewrite Vo. f_equal. exact (fits64_s64 _ Ft).
Qed.

Lemma time_value H M S f z unit :
  time_lit_ok H M S f -> zone_ok z -> unit <> TU_kMonth ->
  dateTimeParse LT_kTime (time_literal H M S f ++ zone_text z) unit
  = Ok (s64 (time_units unit H M S f - zone_units unit z)).
Proof.
  intros Ht Hz Hu. unfold dateTimeParse, dateTimeParseOptional, dateTimeParseOptional_kTime.
  destruct (time_literal_head H M S f (zone_text z) Ht) as [Hns Hsk]. rewrite Hsk.
  destruct (time_parse H M S f (zone_text z) [] unit DateTimeParser_new) as (p1 & E1 & U1);
    auto using zone_text_after, eatSpace_id.
  cbn [app] in E1. rewrite E1. cbn [rbind]. rewrite U1.
  destruct (zone_parse z unit p1 Hz Hu) as (o & p3 & -> & Vo & U3). cbn [rbind].
  now rewrite U3, Vo.
Qed.

End Literals.
