(* ===== verification/DateTimeProps.v ===== *)
(** * The texts of dates and times

    The printing functions print the fields of the calendar; what they print fits their buffers
    and is a literal. *)

From Stdlib Require Import ZArith Lia List Bool Ascii String.
From S2P Require Import Prelude Chars Civil ExtractFromTime ExtractFacts DateAdd DateTimeParser DateTimeFacts.
From S2P Require Import DateTimeLiterals.
Import ListNotations.
Local Open Scope Z_scope.

(** ** Division *)

Lemma divUMod_spec num den :
  fits64 num -> 0 < den <= INT64_MAX -> divUMod num den = (num / den, num mod den).
Proof.
  unfold fits64, INT64_MIN, INT64_MAX. intros Hn Hd. unfold divUMod.
  pose proof (Z.quot_rem' num den) as E. pose proof (Z.rem_bound_abs num den ltac:(lia)) as B.
  pose proof (Z.mod_pos_bound num den ltac:(lia)) as Bm.
  destruct (Z.ltb_spec (Z.rem num den) 0) as [L|L]; f_equal.
  - rewrite (Z.div_unique_pos num den (Z.quot num den - 1) (Z.rem num den + den)) by lia.
    apply s64_small. split; [apply Z.div_le_lower_bound | apply Z.div_lt_upper_bound]; nia.
  - rewrite (Z.mod_unique_pos num den (Z.quot num den - 1) (Z.rem num den + den)) by lia.
    apply s64_small. lia.
  - apply (Z.div_unique_pos _ _ _ (Z.rem num den)); lia.
  - apply (Z.mod_unique_pos _ _ (Z.quot num den)); lia.
Qed.

Lemma unsignedMod_spec num den : 0 < den <= INT64_MAX -> unsignedMod num den = num mod den.
Proof.
  unfold INT64_MAX. intros Hd. unfold unsignedMod.
  pose proof (Z.quot_rem' num den) as E. pose proof (Z.rem_bound_abs num den ltac:(lia)) as B.
  pose proof (Z.mod_pos_bound num den ltac:(lia)) as Bm.
  destruct (Z.ltb_spec (Z.rem num den) 0) as [L|L].
  - rewrite (Z.mod_unique_pos num den (Z.quot num den - 1) (Z.rem num den + den)) by lia.
    rewrite s64_small, u64_small; lia.
  - rewrite (Z.mod_unique_pos num den (Z.quot num den) (Z.rem num den)) by lia.
    apply u64_small. lia.
Qed.

(** ** Fields *)

(** A day of the range of times in seconds has a year of at most twelve digits. *)
Definition year_ok (y : Z) : Prop := -300000000000 <= y <= 300000000000.

Lemma date_fields_spec t :
  time_ok t -> date_fields (t / 86400) = date_of t /\ year_ok (fst (fst (date_of t))).
Proof.
  intros Ht. destruct (time_ok_day t Ht) as [_ B]. destruct (slow_path t Ht)
    as (era & yoe & doy & _ & Et & Edoe & Eyoe & Edoy & Emoy & Byoe & Bdoy & _ & Bdoe & ->).
  assert (Eera : (t / 86400 - 11017) / 146097 = era) by divmod.
  assert (Emod : (t / 86400 - 11017) mod 146097 = yoe_start yoe + doy) by divmod.
  assert (Bera : -730700000 <= era <= 730700000) by lia.
  destruct (moy_of_bounds doy Bdoy) as (Bm & Blo & _). unfold moy_start in Blo.
  split.
  - unfold date_fields. rewrite s64_small by lia.
    rewrite divUMod_spec by (unfold fits64, INT64_MIN, INT64_MAX; lia).
    rewrite Eera, Emod, (u32_small (yoe_start yoe + doy)) by lia.
    fold (year_of_era (yoe_start yoe + doy)). rewrite Eyoe.
    fold (day_of_year (yoe_start yoe + doy) yoe). rewrite Edoy.
    fold (month_of_year doy). rewrite Emoy. unfold civil_year, civil_month.
    rewrite (u32_small (153 * moy_of doy + 2)) by lia.
    f_equal; [f_equal|].
    + replace (9 <? moy_of doy) with (10 <=? moy_of doy) by (zbool; lia).
      rewrite s64_small; [lia|]. unfold b2z. destruct (10 <=? moy_of doy); lia.
    + zbool; rewrite u32_small; lia.
    + unfold dom_of. apply u32_small. lia.
  - unfold year_ok, civil_year, b2z. cbn [fst]. destruct (10 <=? moy_of doy); lia.
Qed.

(** Hour, minute and second of a second of the day. *)
Definition hms (s : Z) : Z * Z * Z := (s / 3600, s / 60 mod 60, s mod 60).

Lemma time_fields_spec s : 0 <= s < 86400 -> time_fields s = hms s.
Proof.
  intros H. unfold time_fields, hms. rewrite (u32_small s) by lia.
  rewrite u32_small by divmod. f_equal. f_equal. divmod.
Qed.

(** ** Texts are literals *)

Lemma printf_u_field2 lo hi v :
  lo <= v <= hi -> 0 <= lo -> hi < 100 ->
  field2 lo hi (printf_u 2 v) /\ digits_value (printf_u 2 v) = v.
Proof.
  intros Hv Hlo Hhi. assert (E : digits_value (printf_u 2 v) = v) by (apply printf_u_value; lia).
  split; [|exact E]. repeat split.
  - apply printf_u_digits.
  - rewrite printf_u_2, to_digits_length by lia. lia.
  - rewrite printf_u_2, to_digits_length by lia. lia.
  - lia.
  - lia.
Qed.

Lemma date_text_literal y m d :
  -10 ^ 16 <= y <= 10 ^ 16 -> 1 <= m <= 12 -> 1 <= d <= 31 ->
  exists neg Y,
    date_text (y, m, d) = date_literal neg Y (printf_u 2 m) (printf_u 2 d) /\
    date_ok neg Y (printf_u 2 m) (printf_u 2 d) /\
    signed_value neg Y = y /\ digits_value (printf_u 2 m) = m /\ digits_value (printf_u 2 d) = d.
Proof.
  intros Hy Hm Hd. destruct (printf_d_text 4 y ltac:(lia)) as (Y & EY & HY & Hne & Hv).
  destruct (printf_u_field2 1 12 m) as [Fm Vm]; try lia.
  destruct (printf_u_field2 1 31 d) as [Fd Vd]; try lia.
  exists (y <? 0), Y. unfold date_text, date_literal. rewrite EY.
  split; [reflexivity|]. split; [|auto].
  constructor; [|assumption|assumption]. split; [assumption|]. split; [assumption|]. lia.
Qed.

(** A second of the day prints as a literal of its fields. *)
Lemma time_text_literal s f :
  0 <= s < 86400 -> fraction_ok f ->
  exists H M S,
    time_text (hms s) ++ fraction_text f = time_literal H M S f /\ time_lit_ok H M S f /\
    3600 * digits_value H + 60 * digits_value M + digits_value S = s.
Proof.
  intros Hs Hf.
  destruct (printf_u_field2 0 23 (s / 3600)) as [FH VH]; try divmod.
  destruct (printf_u_field2 0 59 (s / 60 mod 60)) as [FM VM]; try divmod.
  destruct (printf_u_field2 0 61 (s mod 60)) as [FS VS]; try divmod.
  do 3 eexists. split; [|split; [constructor; eassumption|]].
  - unfold time_text, hms, time_literal. rewrite <- !app_assoc. reflexivity.
  - rewrite VH, VM, VS. divmod.
Qed.

(** ** Texts fit *)

Lemma printf_d_year_length y : year_ok y -> (4 <= List.length (printf_d 4 y) <= 13)%nat.
Proof.
  intros H. unfold printf_d, year_ok in *.
  assert (N : forall v, 0 <= v <= 300000000000 -> (ndigits v <= 12)%nat)
    by (intros v Hv; apply (ndigits_le v 12); cbn; lia).
  destruct (Z.ltb_spec y 0); cbn [List.length]; rewrite printf_u_length.
  - specialize (N (- y) ltac:(lia)). lia.
  - specialize (N y ltac:(lia)). lia.
Qed.

Lemma printf_u_2_length v : 0 <= v < 100 -> List.length (printf_u 2 v) = 2%nat.
Proof. intros H. now rewrite printf_u_2, to_digits_length. Qed.

Lemma date_text_length y m d :
  year_ok y -> 1 <= m <= 12 -> 1 <= d <= 31 ->
  (10 <= List.length (date_text (y, m, d)) <= 19)%nat.
Proof.
  intros Hy Hm Hd. unfold date_text. rewrite !length_app. cbn [lit list_ascii_of_string List.length].
  rewrite !printf_u_2_length by lia. pose proof (printf_d_year_length y Hy). lia.
Qed.

Lemma time_text_length s : 0 <= s < 86400 -> List.length (time_text (hms s)) = 8%nat.
Proof.
  intros Hs. unfold time_text, hms. rewrite !length_app. cbn [lit list_ascii_of_string List.length].
  rewrite !printf_u_2_length by divmod. reflexivity.
Qed.

Lemma fitting_fits max text :
  Z.of_nat (List.length text) < max -> fitting max text = (text, Z.of_nat (List.length text)).
Proof.
  intros H. unfold fitting. rewrite snprintf_fits by exact H.
  now replace (Z.of_nat (List.length text) <? max) with true by lia.
Qed.

(** ** The printing functions *)

Lemma time_ok_fits t : time_ok t -> fits64 t.
Proof. unfold time_ok, fits64, INT64_MIN, INT64_MAX. lia. Qed.

Lemma date_of_text t :
  time_ok t ->
  exists y m d, date_of t = (y, m, d) /\ valid_date y m d /\ day_number y m d = t / 86400 /\
    year_ok y /\ 1 <= m <= 12 /\ 1 <= d <= 31.
Proof.
  intros Ht. pose proof (date_of_spec t Ht) as V. destruct (date_fields_spec t Ht) as [_ Yk].
  destruct (date_of t) as [[y m] d]. destruct V as [V E]. exists y, m, d.
  pose proof (days_in_month_bounds y m). pose proof V as [Vm Vd].
  split; [reflexivity|]. split; [exact V|]. split; [exact E|]. split; [exact Yk|]. lia.
Qed.

Lemma formatDate_text max t :
  time_ok t -> 20 <= max ->
  formatDate max t
  = (date_text (date_of t), Z.of_nat (List.length (date_text (date_of t)))).
Proof.
  intros Ht Hm. unfold formatDate. change (24 * 60 * 60) with 86400.
  rewrite divUMod_spec by (auto using time_ok_fits; unfold INT64_MAX; lia).
  destruct (date_fields_spec t Ht) as [-> _].
  destruct (date_of_text t Ht) as (y & m & d & -> & _ & _ & Hy & Hmm & Hd).
  apply fitting_fits. pose proof (date_text_length y m d Hy Hmm Hd). lia.
Qed.

Lemma formatHMS_text max t :
  9 <= max -> formatHMS max t = (time_text (hms (t mod 86400)), 8).
Proof.
  intros Hm. unfold formatHMS. change (24 * 60 * 60) with 86400.
  rewrite unsignedMod_spec by (unfold INT64_MAX; lia).
  assert (B : 0 <= t mod 86400 < 86400) by (apply Z.mod_pos_bound; lia).
  rewrite u32_small by lia.
  replace (t mod 86400 / 60 / 60, (t mod 86400 / 60) mod 60, t mod 86400 mod 60)
    with (hms (t mod 86400)) by (unfold hms; f_equal; f_equal; divmod).
  rewrite fitting_fits; rewrite time_text_length by exact B; [reflexivity | lia].
Qed.

(** The fraction that [formatDateTime] prints for the units [rem] of a second. *)
Definition fraction_of (unit : TimeUnit) (rem : Z) : option chars :=
  if 0 <? unit_scale unit then Some (to_digits (Z.to_nat (unit_scale unit)) rem) else None.

Lemma fraction_of_ok unit rem : fraction_ok (fraction_of unit rem).
Proof.
  unfold fraction_of. destruct unit; cbn [unit_scale Z.ltb Z.compare]; try exact I;
    (split; [apply to_digits_all | rewrite to_digits_length; cbn; lia]).
Qed.

Lemma fraction_of_value unit rem :
  0 <= rem < units unit ->
  fraction_value (fraction_of unit rem) / 10 ^ (9 - unit_scale unit) = rem.
Proof.
  intros H. unfold fraction_of. destruct unit; cbn [unit_scale Z.ltb Z.compare] in *;
    unfold units in H; cbn in H; try (cbn; lia); cbn [fraction_value];
    rewrite to_digits_length, to_digits_value by lia;
    rewrite Z2Nat.id, Z.mod_small by lia; cbn -[Z.mul Z.div]; try lia;
    rewrite ?Z.div_mul; lia.
Qed.

Lemma fraction_of_length unit rem :
  (List.length (fraction_text (fraction_of unit rem)) <= 10)%nat.
Proof.
  unfold fraction_of. destruct unit; cbn [unit_scale Z.ltb Z.compare fraction_text List.length];
    rewrite ?to_digits_length; cbn; lia.
Qed.

Lemma printf_d_fraction w rem :
  0 <= rem < 10 ^ Z.of_nat w -> (0 < w)%nat -> printf_d w rem = to_digits w rem.
Proof.
  intros H Hw. unfold printf_d, printf_u. replace (rem <? 0) with false by lia. f_equal.
  pose proof (ndigits_le rem w H Hw). lia.
Qed.

Lemma unitsPerSecond_units unit scale : unitsPerSecond unit = Some scale -> scale = units unit.
Proof. destruct unit; cbn; congruence. Qed.

Lemma formatDateTime_text max t unit scale :
  unitsPerSecond unit = Some scale -> fits64 t -> time_ok (t / scale) -> 64 <= max ->
  let text := date_text (date_of (t / scale)) ++ lit " "
              ++ (time_text (hms (t / scale mod 86400))
                  ++ fraction_text (fraction_of unit (t mod scale))) in
  formatDateTime max t unit = Some (text, Z.of_nat (List.length text)).
Proof.
  intros Hu Ft Ht Hm. cbv zeta. unfold formatDateTime. rewrite Hu. change (24 * 60 * 60) with 86400.
  assert (Bs : 1 <= scale <= 1000000000) by (destruct unit; cbn in Hu; try discriminate; injection Hu as <-; lia).
  rewrite divUMod_spec by (auto; unfold INT64_MAX; lia).
  rewrite divUMod_spec by (auto using time_ok_fits; unfold INT64_MAX; lia).
  destruct (date_fields_spec _ Ht) as [-> _].
  assert (B : 0 <= t / scale mod 86400 < 86400) by (apply Z.mod_pos_bound; lia).
  assert (Br : 0 <= t mod scale < scale) by (apply Z.mod_pos_bound; lia).
  rewrite time_fields_spec by exact B.
  destruct (date_of_text _ Ht) as (y & m & d & E & _ & _ & Hy & Hmm & Hd). rewrite E in *.
  pose proof (date_text_length y m d Hy Hmm Hd) as Ld. pose proof (time_text_length _ B) as Lt.
  pose proof (fraction_of_length unit (t mod scale)) as Lf.
  set (D := date_text (y, m, d)) in *. set (T := time_text (hms (t / scale mod 86400))) in *.
  assert (L1 : Z.of_nat (List.length (D ++ lit " " ++ T)) < max - 11)
    by (rewrite !length_app; cbn [lit list_ascii_of_string List.length]; lia).
  rewrite snprintf_fits by lia.
  replace (Z.of_nat (List.length (D ++ lit " " ++ T)) <? max) with true by lia.
  assert (Ef : forall w, scale = 10 ^ Z.of_nat w -> (0 < w)%nat ->
    fraction_of unit (t mod scale) = Some (to_digits w (t mod scale)) -> log10 scale = w ->
    lit "." ++ printf_d (log10 scale) (s32 (t mod scale)) = fraction_text (fraction_of unit (t mod scale))).
  { intros w Es Hw -> ->. rewrite s32_small by lia. rewrite printf_d_fraction by lia. reflexivity. }
  destruct (Z.ltb_spec 1 scale) as [L|L].
  - rewrite (Ef (Z.to_nat (unit_scale unit)))
      by (destruct unit; cbn in Hu; try discriminate; injection Hu as <-; (reflexivity || (cbn; lia))).
    rewrite snprintf_fits by lia.
    replace (_ + _ <? max) with true by lia.
    rewrite <- Nat2Z.inj_add, <- length_app, <- !app_assoc. reflexivity.
  - unfold fraction_of.
    replace (0 <? unit_scale unit) with false
      by (destruct unit; cbn in Hu |- *; try discriminate; try reflexivity; injection Hu as <-; lia).
    cbn [fraction_text]. rewrite app_nil_r. reflexivity.
Qed.

(** * Properties of date and time literals *)

#[local] Existing Instance ascii_istarts_with_ok.

(** ** Round trips *)

(** [C21] What [formatDateTime] prints for a timestamp of seconds, milli-, micro- or nanoseconds
    fits the buffer of [DatumToString], and the parser of timestamp literals reads it back as the
    same timestamp; the first day of the range of 64 bits is excepted, as the time of its midnight
    overflows. *)
Theorem timestamp_roundtrip (boost : BoostStrings) (Hb : BoostStringsOk boost)
    (unit : TimeUnit) (scale t : Z) (Hu : unitsPerSecond unit = Some scale)
    (Ht : INT64_MIN + 86400 * scale <= t <= INT64_MAX) :
  exists buf len, formatDateTime 64 t unit = Some (buf, len) /\
    len = Z.of_nat (List.length buf) /\ 19 <= len < 64 /\
    dateTimeParse LT_kTimestamp buf unit = Ok t.
Proof.
  pose proof (unitsPerSecond_units unit scale Hu) as ->.
  assert (Bs : 1 <= units unit <= 1000000000) by apply units_range.
  assert (Ft : fits64 t) by (unfold fits64, INT64_MIN, INT64_MAX in *; lia).
  set (s := t / units unit).
  assert (E : t = units unit * s + t mod units unit) by (apply Z.div_mod; lia).
  assert (Br : 0 <= t mod units unit < units unit) by (apply Z.mod_pos_bound; lia).
  assert (Os : time_ok s) by (unfold time_ok, INT64_MIN, INT64_MAX in *; nia).
  eexists _, _. rewrite (formatDateTime_text 64 t unit _ Hu Ft Os) by lia.
  split; [reflexivity|]. split; [reflexivity|]. fold s.
  destruct (date_of_text s Os) as (y & m & d & -> & _ & Eday & Hy & Hm & Hd).
  assert (B : 0 <= s mod 86400 < 86400) by (apply Z.mod_pos_bound; lia).
  split.
  { rewrite !length_app, time_text_length by exact B. cbn [lit list_ascii_of_string List.length].
    pose proof (date_text_length y m d Hy Hm Hd). pose proof (fraction_of_length unit (t mod units unit)).
    lia. }
  destruct (date_text_literal y m d) as (neg & Y & -> & Dok & VY & Vm & Vd);
    try assumption; [unfold year_ok in Hy; lia|].
  destruct (time_text_literal (s mod 86400) (fraction_of unit (t mod units unit)) B
              (fraction_of_ok _ _)) as (H & M & S & -> & Tok & VT).
  assert (Eu : date_units unit neg Y (printf_u 2 m) (printf_u 2 d) = 86400 * (s / 86400) * units unit)
    by (unfold date_units; rewrite VY, Vm, Vd, Eday; reflexivity).
  assert (Et : time_units unit H M S (fraction_of unit (t mod units unit))
               = (s mod 86400) * units unit + t mod units unit)
    by (unfold time_units; rewrite VT, fraction_of_value by exact Br; reflexivity).
  pose proof (Z.div_mod s 86400 ltac:(lia)) as Es.
  pose proof (timestamp_value neg Y _ _ " "%char H M S _ None unit Dok Tok I) as V.
  cbv zeta in V. rewrite Eu, Et in V. cbn [zone_text zone_units zone_value] in V.
  unfold zone_units in V. cbn [zone_value] in V. rewrite app_nil_r in V.
  change (lit " " ++ ?x) with (" "%char :: x). rewrite V; clear V; auto; unfold fits64 in *.
  - f_equal. nia.
  - destruct unit; discriminate.
  - unfold INT64_MIN, INT64_MAX in *. nia.
  - replace (86400 * (s / 86400) * units unit + (s mod 86400 * units unit + t mod units unit))
      with t by nia. exact Ft.
  - replace (86400 * (s / 86400) * units unit + (s mod 86400 * units unit + t mod units unit)
             - 0 * units unit) with t by nia. exact Ft.
Qed.

Lemma timestamp_roundtrip_witness :
  exists buf len, formatDateTime 64 (-62195900276001) TU_kMilli = Some (buf, len) /\
    len = Z.of_nat (List.length buf) /\ 19 <= len < 64 /\
    @dateTimeParse ascii_istarts_with LT_kTimestamp buf TU_kMilli = Ok (-62195900276001).
Proof.
  apply (timestamp_roundtrip ascii_istarts_with ascii_istarts_with_ok TU_kMilli 1000);
    [reflexivity | unfold INT64_MIN, INT64_MAX; lia].
Defined.

(** [DatumToString] and [StringToDatum] on dates and times of day, in seconds: a date is
    printed as its Gregorian date, with at least ten characters, and read back as its midnight; a
    time is printed with eight characters and read back as the second of the day. *)
Theorem date_and_time_roundtrip (boost : BoostStrings) (Hb : BoostStringsOk boost) (t : Z)
    (Ht : time_ok t) :
  (exists y m d, valid_date y m d /\ day_number y m d = t / 86400 /\
     fst (formatDate 64 t) = date_text (y, m, d)) /\
  10 <= snd (formatDate 64 t) /\
  dateTimeParse LT_kDate (fst (formatDate 64 t)) TU_kSecond = Ok (86400 * (t / 86400)) /\
  snd (formatHMS 64 t) = 8 /\
  dateTimeParse LT_kTime (fst (formatHMS 64 t)) TU_kSecond = Ok (t mod 86400).
Proof.
  rewrite formatDate_text, formatHMS_text by (assumption || lia). cbn [fst snd].
  destruct (date_of_text t Ht) as (y & m & d & -> & V & Eday & Hy & Hm & Hd).
  pose proof (date_text_length y m d Hy Hm Hd) as L.
  assert (B : 0 <= t mod 86400 < 86400) by (apply Z.mod_pos_bound; lia).
  assert (Bd : fits64 (86400 * (t / 86400)))
    by (unfold time_ok, fits64, INT64_MIN, INT64_MAX in *; divmod).
  split; [exists y, m, d; auto|]. split; [lia|]. split; [|split; [reflexivity|]].
  - destruct (date_text_literal y m d) as (neg & Y & -> & Dok & VY & Vm & Vd);
      try assumption; [unfold year_ok in Hy; lia|].
    assert (Eu : date_units TU_kSecond neg Y (printf_u 2 m) (printf_u 2 d) = 86400 * (t / 86400))
      by (unfold date_units; rewrite VY, Vm, Vd, Eday; apply Z.mul_1_r).
    pose proof (date_value neg Y _ _ None TU_kSecond Dok I) as W. rewrite Eu in W.
    change (zone_units TU_kSecond None) with 0 in W. cbn [zone_text] in W.
    rewrite app_nil_r, Z.sub_0_r in W. apply W; auto; discriminate.
  - destruct (time_text_literal (t mod 86400) None B I) as (H & M & S & E & Tok & VT).
    cbn [fraction_text] in E. rewrite app_nil_r in E. rewrite E.
    pose proof (time_value H M S None None TU_kSecond Tok I) as W.
    cbn [zone_text] in W. rewrite app_nil_r in W. rewrite W by discriminate.
    unfold time_units. rewrite VT. change (zone_units TU_kSecond None) with 0.
    change (units TU_kSecond) with 1. cbn [fraction_value]. rewrite Z.div_0_l by (cbn; lia).
    f_equal. rewrite s64_small; lia.
Qed.

Lemma date_and_time_roundtrip_witness :
  (exists y m d, valid_date y m d /\ day_number y m d = 951827696 / 86400 /\
     fst (formatDate 64 951827696) = date_text (y, m, d)) /\
  10 <= snd (formatDate 64 951827696) /\
  @dateTimeParse ascii_istarts_with LT_kDate (fst (formatDate 64 951827696)) TU_kSecond
    = Ok (86400 * (951827696 / 86400)) /\
  snd (formatHMS 64 951827696) = 8 /\
  @dateTimeParse ascii_istarts_with LT_kTime (fst (formatHMS 64 951827696)) TU_kSecond
    = Ok (951827696 mod 86400).
Proof.
  apply (date_and_time_roundtrip ascii_istarts_with ascii_istarts_with_ok 951827696).
  unfold time_ok, INT64_MIN, INT64_MAX. lia.
Defined.

(** ** The value of a literal *)

(** [C30] A timestamp literal: a year with an optional minus sign, a month and a day, a space or
    a ["T"], hours, minutes and seconds, an optional fraction of up to nine digits and an
    optional time zone.  Its value, in any unit, is the number of units from the epoch to the
    Gregorian day, plus the time of the day with the fraction cut off at the unit, less the
    offset of the zone, when these fit 64 bits. *)
Theorem timestamp_literal_value (boost : BoostStrings) (Hb : BoostStringsOk boost)
    (neg : bool) (Y m d : chars) (sep : ascii) (H M S : chars) (f : option chars) (z : zone)
    (unit : TimeUnit) (Hdate : date_ok neg Y m d) (Htime : time_lit_ok H M S f) (Hzone : zone_ok z)
    (Hunit : unit <> TU_kMonth) (Hsep : sep = " "%char \/ sep = "T"%char)
    (Fd : fits64 (date_units unit neg Y m d))
    (Fdt : fits64 (date_units unit neg Y m d + time_units unit H M S f))
    (Fdtz : fits64 (date_units unit neg Y m d + time_units unit H M S f - zone_units unit z)) :
  dateTimeParse LT_kTimestamp
    (date_literal neg Y m d ++ sep :: time_literal H M S f ++ zone_text z) unit
  = Ok (date_units unit neg Y m d + time_units unit H M S f - zone_units unit z).
Proof. now apply timestamp_value. Qed.

Lemma timestamp_literal_value_witness :
  @dateTimeParse ascii_istarts_with LT_kTimestamp (lit "2000-2-29T23:05:07.25+05:30") TU_kMilli
  = Ok 951845707250.
Proof.
  refine (timestamp_literal_value ascii_istarts_with ascii_istarts_with_ok false (lit "2000")
    (lit "2") (lit "29") "T"%char (lit "23") (lit "05") (lit "07") (Some (lit "25"))
    (Some (false, lit "05", true, lit "30")) TU_kMilli _ _ _ _ _ _ _ _).
  - split; repeat split; try discriminate; try (repeat constructor; fail); vm_compute; congruence.
  - split; repeat split; try (repeat constructor; fail); vm_compute; congruence.
  - repeat split; repeat constructor.
  - discriminate.
  - auto.
  - vm_compute. intuition congruence.
  - vm_compute. intuition congruence.
  - vm_compute. intuition congruence.
Defined.

(** Parsing and EXTRACT agree: the date literal of a valid Gregorian date is read as a time
    from which EXTRACT gives back the year, the month and the day that were written. *)
Theorem date_literal_extract (boost : BoostStrings) (Hb : BoostStringsOk boost)
    (neg : bool) (Y m d : chars) (Hdate : date_ok neg Y m d)
    (Hv : valid_date (signed_value neg Y) (digits_value m) (digits_value d))
    (Ht : time_ok (86400 * day_number (signed_value neg Y) (digits_value m) (digits_value d))) :
  exists t, dateTimeParse LT_kDate (date_literal neg Y m d) TU_kSecond = Ok t /\
    ExtractFromTime DE_kYear t = signed_value neg Y /\
    ExtractFromTime DE_kMonth t = digits_value m /\
    ExtractFromTime DE_kDay t = digits_value d.
Proof.
  set (day := day_number (signed_value neg Y) (digits_value m) (digits_value d)) in *.
  exists (86400 * day). split.
  - pose proof (date_value neg Y m d None TU_kSecond Hdate I) as W.
    assert (Eu : date_units TU_kSecond neg Y m d = 86400 * day) by apply Z.mul_1_r.
    rewrite Eu in W. change (zone_units TU_kSecond None) with 0 in W. cbn [zone_text] in W.
    rewrite app_nil_r, Z.sub_0_r in W. apply time_ok_fits in Ht. apply W; auto; discriminate.
  - assert (E : date_of (86400 * day) = (signed_value neg Y, digits_value m, digits_value d)).
    { apply date_of_unique; auto. fold day. rewrite Z.mul_comm, Z.div_mul; lia. }
    cbn [ExtractFromTime].
    rewrite extract_year_date, extract_month_date, extract_day_date by exact Ht.
    rewrite E. auto.
Qed.

Lemma date_literal_extract_witness :
  exists t, @dateTimeParse ascii_istarts_with LT_kDate (lit "-0004-02-29") TU_kSecond = Ok t /\
    ExtractFromTime DE_kYear t = -4 /\ ExtractFromTime DE_kMonth t = 2 /\
    ExtractFromTime DE_kDay t = 29.
Proof.
  refine (date_literal_extract ascii_istarts_with ascii_istarts_with_ok true (lit "0004")
    (lit "02") (lit "29") _ _ _).
  - split; repeat split; try discriminate; try (repeat constructor; fail); vm_compute; congruence.
  - vm_compute. intuition congruence.
  - vm_compute. intuition congruence.
Defined.

(** ** Every text *)

(** The parser ends on every text with a value or with the exception for an invalid literal:
    no format is unknown, no read is out of range and no loop is cut short, for each of the three
    types and every unit but months. *)
Theorem dateTimeParse_returns (boost : BoostStrings) (type : LiteralType) (str : chars)
    (unit : TimeUnit) (Hu : unit <> TU_kMonth) :
  (exists v, dateTimeParseOptional type str unit = Ok v) /\
  ((exists v, dateTimeParse type str unit = Ok v) \/ dateTimeParse type str unit = Err PThrow).
Proof.
  assert (P : exists v, dateTimeParseOptional type str unit = Ok v).
  { assert (K : forall str ft p, exists o p', parse str unit (setFormatType ft p) = Ok (o, p')).
    { intros s ft p. destruct (parse_ok s unit (setFormatType ft p) Hu) as [[o p'] E];
        [discriminate|]. eauto. }
    destruct type; cbn; unfold dateTimeParseOptional_kDate, dateTimeParseOptional_kTime,
      dateTimeParseOptional_kTimestamp;
      match goal with |- context [parse ?s unit (setFormatType ?ft ?p)] =>
        destruct (K s ft p) as ([v|] & p1 & ->) end; cbn [rbind]; eauto.
    - destruct (K (unparsed_ p1) FT_Timezone p1) as (o & p2 & ->). cbn [rbind]. eauto.
    - destruct (K (unparsed_ p1) FT_Timezone p1) as (o & p2 & ->). cbn [rbind].
      destruct (unparsed_ p2); eauto.
    - destruct (unparsed_ p1) as [|c rest]; [eauto|].
      destruct (K (skip_one ["T"; ":"]%char (c :: rest)) FT_Time p1) as (o & p2 & ->). cbn [rbind].
      destruct (K (unparsed_ p2) FT_Timezone p2) as (o' & p3 & ->). cbn [rbind]. eauto. }
  split; [exact P|]. unfold dateTimeParse. destruct P as [[v|] ->]; cbn [rbind]; eauto.
Qed.

Lemma dateTimeParse_returns_witness :
  (exists v, @dateTimeParseOptional ascii_istarts_with LT_kTime (lit "noon") TU_kNano = Ok v) /\
  ((exists v, @dateTimeParse ascii_istarts_with LT_kTime (lit "noon") TU_kNano = Ok v) \/
   @dateTimeParse ascii_istarts_with LT_kTime (lit "noon") TU_kNano = Err PThrow).
Proof. apply (dateTimeParse_returns ascii_istarts_with). discriminate. Defined.

(** [C39] Whatever text is parsed, and whether a format matches it or not, the fields of the
    parser stay in the ranges that the declaration of [DateTime] documents: months 1 to 12, days
    1 to 31, hours up to 23, minutes up to 59, seconds up to 61, less than 10^9 nanoseconds. *)
Theorem DateTime_in_range (boost : BoostStrings) (str : chars) (unit : TimeUnit)
    (p p' : DateTimeParser) (r : option Z) (Hp : DateTime_ok (dt_ p))
    (E : parse str unit p = Ok (r, p')) : DateTime_ok (dt_ p').
Proof.
  unfold parse in E. destruct (format_type_ p) as [ft|]; [|discriminate].
  inv_bind E. destruct a as [matched dt]. apply try_formats_keeps in Ha; [|exact Hp].
  destruct matched; [inv_bind E|]; injection E as <- <-; exact Ha.
Qed.

Lemma DateTime_in_range_witness :
  exists r p', @parse ascii_istarts_with (lit "10:20:30.x") TU_kSecond
                 (setFormatType FT_Time DateTimeParser_new) = Ok (r, p') /\
    DateTime_ok (dt_ p').
Proof.
  eexists _, _. split; [vm_compute; reflexivity|].
  apply (DateTime_in_range ascii_istarts_with (lit "10:20:30.x") TU_kSecond
           (setFormatType FT_Time DateTimeParser_new) _ _ DateTime_default_ok eq_refl).
Defined.

(** ** Edges *)

(** The table of month suffixes is shifted by one, since its first two literals are not
    separated: a full month name is only read where the two agree, as for November. *)
Lemma full_month_names :
  @dateTimeParse ascii_istarts_with LT_kDate (lit "15-Jan-21") TU_kSecond = Ok 1610668800 /\
  @dateTimeParse ascii_istarts_with LT_kDate (lit "15-January-21") TU_kSecond = Err PThrow /\
  @dateTimeParse ascii_istarts_with LT_kDate (lit "15-August-21") TU_kSecond = Err PThrow /\
  @dateTimeParse ascii_istarts_with LT_kDate (lit "15-November-21") TU_kSecond = Ok 1636934400.
Proof. vm_compute. auto. Qed.

(** The fields of a format that failed are kept: the minutes of ["1020"] come from the failed
    format [%H%M%S] and the hour from [%I %p].  An hour that [%I] does not take gives midnight,
    and text that no format takes is ignored. *)
Lemma stale_fields :
  @dateTimeParse ascii_istarts_with LT_kTimestamp (lit "2021-01-01 1020") TU_kSecond
    = Ok (1609459200 + 10 * 3600 + 20 * 60) /\
  @dateTimeParse ascii_istarts_with LT_kTimestamp (lit "2021-01-01 1320") TU_kSecond
    = Ok 1609459200 /\
  @dateTimeParse ascii_istarts_with LT_kTimestamp (lit "2021-01-01 noon") TU_kSecond
    = Ok 1609459200.
Proof. vm_compute. auto. Qed.

(** [unixTime] takes a number without a decimal point, which the expression in its comment does
    not match; a day after the end of a month is counted into the next month. *)
Lemma lenient_literals :
  unixTime (lit "1500000000") = Some 1500000000 /\
  @dateTimeParse ascii_istarts_with LT_kDate (lit "2021-02-31") TU_kSecond
  = @dateTimeParse ascii_istarts_with LT_kDate (lit "2021-03-03") TU_kSecond.
Proof. vm_compute. auto. Qed.
