(* ===== verification/StateMonad.v ===== *)
(** * State and errors

    The monad in which stateful code is modelled: a failed computation keeps the state it
    had reached, as an exception thrown in the source leaves the objects changed so far. *)

From S2P Require Import Prelude.

Definition ST (E S A : Type) : Type := S -> result E A * S.

Section Monad.

Context {E S : Type}.

Definition ret {A : Type} (a : A) : ST E S A := fun st => (Ok a, st).
Definition throw {A : Type} (e : E) : ST E S A := fun st => (Err e, st).
Definition bind {A B : Type} (c : ST E S A) (k : A -> ST E S B) : ST E S B :=
  fun st => match c st with
            | (Ok a, st') => k a st'
            | (Err e, st') => (Err e, st')
            end.
Definition gets {A : Type} (f : S -> A) : ST E S A := fun st => (Ok (f st), st).
Definition modify (f : S -> S) : ST E S unit := fun st => (Ok tt, f st).

End Monad.

Declare Scope bm_scope.
Delimit Scope bm_scope with bm.
Notation "'let!' x := c 'in' k" := (bind c (fun x => k))
  (at level 10, x name, c at level 100, k at level 200) : bm_scope.
Notation "'let!' ' p := c 'in' k" := (bind c (fun x => match x with p => k end))
  (at level 10, p pattern, c at level 100, k at level 200) : bm_scope.
Notation "'do!' c 'in' k" := (bind c (fun _ => k))
  (at level 10, c at level 100, k at level 200) : bm_scope.

(** ** Laws *)

Section Laws.

Context {E S A B C : Type}.

Lemma bind_assoc (c : ST E S A) (k : A -> ST E S B) (h : B -> ST E S C) st :
  bind (bind c k) h st = bind c (fun a => bind (k a) h) st.
Proof. unfold bind. now destruct (c st) as [[a|e] st']. Qed.

Lemma bind_ok (c : ST E S A) (k : A -> ST E S B) st a st' :
  c st = (Ok a, st') -> bind c k st = k a st'.
Proof. unfold bind. now intros ->. Qed.

Lemma bind_err (c : ST E S A) (k : A -> ST E S B) st e st' :
  c st = (Err e, st') -> bind c k st = (Err e, st').
Proof. unfold bind. now intros ->. Qed.

(** A computation that ends normally did so in both parts. *)
Lemma bind_ok_inv (c : ST E S A) (k : A -> ST E S B) st b st' :
  bind c k st = (Ok b, st') -> exists a st1, c st = (Ok a, st1) /\ k a st1 = (Ok b, st').
Proof. unfold bind. destruct (c st) as [[a|e] st1]; [eauto | discriminate]. Qed.

End Laws.
