(* ===== verification/MurmurHash.v ===== *)
(** * MurmurHash3 ([QueryEngine/MurmurHash3Inl.h])

    The hash of the group-by and join tables, on the bytes of a key.  A block is read as a
    little-endian 32-bit word. *)

From Stdlib Require Import ZArith Lia List Bool.
From S2P Require Import Prelude.
Import ListNotations.
Local Open Scope Z_scope.

(** The bytes of an integer of [w] bytes in memory. *)
Fixpoint le_bytes (w : nat) (v : Z) : list Z :=
  match w with
  | O => []
  | S w' => Z.land v 255 :: le_bytes w' (Z.shiftr v 8)
  end.

Definition le_word (b0 b1 b2 b3 : Z) : Z :=
  Z.lor (Z.lor b0 (Z.shiftl b1 8)) (Z.lor (Z.shiftl b2 16) (Z.shiftl b3 24)).

Definition rotl32 (x r : Z) : Z := u32 (Z.lor (Z.shiftl x r) (Z.shiftr x (32 - r))).

Definition c1 : Z := 3432918353.     (* 0xcc9e2d51 *)
Definition c2 : Z := 461845907.      (* 0x1b873593 *)

(** [k1 *= c1; k1 = ROTL32(k1, 15); k1 *= c2]. *)
Definition mix_k1 (k1 : Z) : Z := u32 (rotl32 (u32 (k1 * c1)) 15 * c2).

(** The loop over the blocks: the state and the tail. *)
Fixpoint murmur_body (h1 : Z) (data : list Z) : Z * list Z :=
  match data with
  | b0 :: b1 :: b2 :: b3 :: data' =>
      let h1 := Z.lxor h1 (mix_k1 (le_word b0 b1 b2 b3)) in
      murmur_body (u32 (rotl32 h1 13 * 5 + 3864292196)) data'   (* 0xe6546b64 *)
  | _ => (h1, data)
  end.

(** The switch on [len & 3]; its cases fall through. *)
Definition murmur_tail (h1 : Z) (tail : list Z) : Z :=
  let k1 := 0 in
  match tail with
  | [t0; t1; t2] => Z.lxor h1 (mix_k1 (Z.lxor (Z.lxor (Z.lxor k1 (Z.shiftl t2 16)) (Z.shiftl t1 8)) t0))
  | [t0; t1] => Z.lxor h1 (mix_k1 (Z.lxor (Z.lxor k1 (Z.shiftl t1 8)) t0))
  | [t0] => Z.lxor h1 (mix_k1 (Z.lxor k1 t0))
  | _ => h1
  end.

Definition fmix (h1 : Z) : Z :=
  let h1 := Z.lxor h1 (Z.shiftr h1 16) in
  let h1 := u32 (h1 * 2246822507) in   (* 0x85ebca6b *)
  let h1 := Z.lxor h1 (Z.shiftr h1 13) in
  let h1 := u32 (h1 * 3266489909) in   (* 0xc2b2ae35 *)
  Z.lxor h1 (Z.shiftr h1 16).

Definition MurmurHash3Impl (data : list Z) (seed : Z) : Z :=
  let '(h1, tail) := murmur_body seed data in
  fmix (Z.lxor (murmur_tail h1 tail) (u32 (Z.of_nat (length data)))).

Definition MurmurHash3 (data : list Z) (seed : Z) : Z := MurmurHash3Impl data seed.

(** Published values of MurmurHash3_x86_32: the empty key and ["hello"]. *)
Example murmur_empty : MurmurHash3 [] 0 = 0 /\ MurmurHash3 [] 1 = 1364076727.
Proof. split; reflexivity. Qed.

Example murmur_hello : MurmurHash3 [104; 101; 108; 108; 111] 0 = 613153351.
Proof. reflexivity. Qed.

(** ** The hash is a 32-bit word *)

Lemma log2_below n a : 0 < n -> 0 <= a < 2 ^ n -> Z.log2 a < n.
Proof.
  intros Hn Ha. destruct (Z.eq_dec a 0) as [->|]; [cbn; lia|]. apply Z.log2_lt_pow2; lia.
Qed.

Lemma lxor_range n a b : 0 < n -> 0 <= a < 2 ^ n -> 0 <= b < 2 ^ n -> 0 <= Z.lxor a b < 2 ^ n.
Proof.
  intros Hn Ha Hb. assert (Hx : 0 <= Z.lxor a b) by (apply Z.lxor_nonneg; lia).
  split; [exact Hx|].
  destruct (Z.eq_dec (Z.lxor a b) 0) as [->|Hz]; [lia|].
  apply Z.log2_lt_pow2; [lia|].
  eapply Z.le_lt_trans; [apply Z.log2_lxor; lia|].
  apply Z.max_lub_lt; now apply log2_below.
Qed.

Lemma shiftr_range n a k : 0 <= a < 2 ^ n -> 0 <= k -> 0 <= Z.shiftr a k < 2 ^ n.
Proof.
  intros Ha Hk. rewrite Z.shiftr_div_pow2 by lia.
  assert (0 < 2 ^ k) by lia. split; [apply Z.div_pos; lia|].
  eapply Z.le_lt_trans; [|apply Ha]. apply Z.div_le_upper_bound; nia.
Qed.

Lemma murmur_range data seed : 0 <= MurmurHash3 data seed < 2 ^ 32.
Proof.
  unfold MurmurHash3, MurmurHash3Impl. destruct (murmur_body seed data) as [h1 tail]. unfold fmix.
  pose proof (fun z => uwrap_range 32 z ltac:(lia)) as R. change (uwrap 32) with u32 in R.
  apply lxor_range; [lia | apply R | apply shiftr_range; [apply R | lia]].
Qed.

(** * MurmurHash1 and MurmurHash64A ([QueryEngine/MurmurHash1Inl.h])

    The hashes of string keys and of the sketches for approximate counts, on the bytes of a key. *)

(** ** MurmurHash1 *)

Definition murmur1_m : Z := 3332679571.   (* 0xc6a4a793 *)

(** The loop over the words of four bytes: the state and the tail. *)
Fixpoint murmur1_body (h : Z) (data : list Z) : Z * list Z :=
  match data with
  | b0 :: b1 :: b2 :: b3 :: data' =>
      let h := u32 ((h + le_word b0 b1 b2 b3) * murmur1_m) in
      murmur1_body (Z.lxor h (Z.shiftr h 16)) data'
  | _ => (h, data)
  end.

(** [h *= m; h ^= h >> r]. *)
Definition murmur1_mix (h r : Z) : Z :=
  let h := u32 (h * murmur1_m) in Z.lxor h (Z.shiftr h r).

(** The switch on the rest; its cases fall through. *)
Definition murmur1_tail (h : Z) (tail : list Z) : Z :=
  match tail with
  | [t0; t1; t2] => murmur1_mix (h + Z.shiftl t2 16 + Z.shiftl t1 8 + t0) 16
  | [t0; t1] => murmur1_mix (h + Z.shiftl t1 8 + t0) 16
  | [t0] => murmur1_mix (h + t0) 16
  | _ => h
  end.

Definition MurmurHash1Impl (data : list Z) (seed : Z) : Z :=
  let h := Z.lxor seed (u32 (Z.of_nat (length data) * murmur1_m)) in
  let '(h, tail) := murmur1_body h data in
  murmur1_mix (murmur1_mix (murmur1_tail h tail) 10) 17.

(** ** MurmurHash64A *)

Definition murmur64_m : Z := 14313749767032793493.   (* 0xc6a4a7935bd1e995 *)

(** The 64-bit word of eight bytes. *)
Definition le_word64 (b0 b1 b2 b3 b4 b5 b6 b7 : Z) : Z :=
  Z.lor (le_word b0 b1 b2 b3) (Z.shiftl (le_word b4 b5 b6 b7) 32).

Fixpoint murmur64_body (h : Z) (data : list Z) : Z * list Z :=
  match data with
  | b0 :: b1 :: b2 :: b3 :: b4 :: b5 :: b6 :: b7 :: data' =>
      let k := u64 (le_word64 b0 b1 b2 b3 b4 b5 b6 b7 * murmur64_m) in
      let k := Z.lxor k (Z.shiftr k 47) in
      let k := u64 (k * murmur64_m) in
      murmur64_body (u64 (Z.lxor h k * murmur64_m)) data'
  | _ => (h, data)
  end.

(** [h ^= data2[i] << 8 * i] for the bytes of the rest; the order does not matter for [^]. *)
Fixpoint murmur64_rest (h shift : Z) (data2 : list Z) : Z :=
  match data2 with
  | [] => h
  | b :: data2' => murmur64_rest (Z.lxor h (Z.shiftl b shift)) (shift + 8) data2'
  end.

Definition murmur64_tail (h : Z) (data2 : list Z) : Z :=
  match data2 with
  | [] => h
  | _ => u64 (murmur64_rest h 0 data2 * murmur64_m)
  end.

Definition MurmurHash64AImpl (data : list Z) (seed : Z) : Z :=
  let h := Z.lxor seed (u64 (Z.of_nat (length data) * murmur64_m)) in
  let '(h, data2) := murmur64_body h data in
  let h := murmur64_tail h data2 in
  let h := Z.lxor h (Z.shiftr h 47) in
  let h := u64 (h * murmur64_m) in
  Z.lxor h (Z.shiftr h 47).

Definition MurmurHash1 (data : list Z) (seed : Z) : Z := MurmurHash1Impl data seed.
Definition MurmurHash64A (data : list Z) (seed : Z) : Z := MurmurHash64AImpl data seed.

(** Published values: the 64-bit hash of the empty key, and of ["hello"] with the seed 0. *)
Example murmur64_empty : MurmurHash64A [] 0 = 0.
Proof. reflexivity. Qed.

Example murmur64_hello : MurmurHash64A [104; 101; 108; 108; 111] 0 = 2191231550387646743.
Proof. reflexivity. Qed.

Lemma murmur64_range data seed : 0 <= MurmurHash64A data seed < 2 ^ 64.
Proof.
  unfold MurmurHash64A, MurmurHash64AImpl.
  destruct (murmur64_body _ data) as [h tail].
  pose proof (fun z => uwrap_range 64 z ltac:(lia)) as R. change (uwrap 64) with u64 in R.
  apply lxor_range; [lia | apply R | apply shiftr_range; [apply R | lia]].
Qed.
