(* ===== verification/GroupByRuntime.v ===== *)
(** * Group-by hash tables ([QueryEngine/GroupByRuntime.cpp], [RuntimeFunctions.cpp])

    The functions by which generated code finds the row of a group in the output buffer of a
    query.  The buffer is seen through the type of its keys: a list of cells of [key_width] bytes,
    4 or 8, of which one quad word holds [8 / key_width].  A pointer into the buffer is the index
    of a cell; a null pointer and the slot -1 are [None].  A key is the list of its components. *)

From Stdlib Require Import ZArith Lia List Bool.
From stdpp Require Import base list numbers.
From S2P Require Import Prelude MurmurHash.
Import ListNotations.
Local Open Scope Z_scope.
Local Open Scope hdk_scope.

(** [MOut] is an access out of range, [MZero] a division by zero, [MLoop] a loop cut short. *)
Inductive MemError := MOut | MZero | MLoop.

Abbreviation mem := (list Z).
Abbreviation probe_result := (result MemError (option Z * mem)).

Definition EMPTY_KEY_64 : Z := INT64_MAX.
Definition EMPTY_KEY_32 : Z := INT32_MAX.

Definition get_empty_key (key_width : Z) : Z := if key_width =? 4 then EMPTY_KEY_32 else EMPTY_KEY_64.

(** ** Memory *)

Definition load (m : mem) (a : Z) : result MemError Z :=
  match m !! Z.to_nat a with
  | Some v => if 0 <=? a then Ok v else Err MOut
  | None => Err MOut
  end.

Definition store (m : mem) (a v : Z) : result MemError mem :=
  let* _ := load m a in Ok (<[Z.to_nat a := v]> m).

(** [memcpy] of the cells of [vs] to [a], and [memcmp] of them with those at [a]. *)
Fixpoint store_range (m : mem) (a : Z) (vs : list Z) : result MemError mem :=
  match vs with
  | [] => Ok m
  | v :: vs' => let* m := store m a v in store_range m (a + 1) vs'
  end.

Fixpoint same_range (m : mem) (a : Z) (vs : list Z) : result MemError bool :=
  match vs with
  | [] => Ok true
  | v :: vs' =>
      let* x := load m a in
      let* rest := same_range m (a + 1) vs' in
      Ok ((x =? v) && rest)
  end.

(** ** A row of the table, row-wise *)

Definition cells_per_quad (key_width : Z) : Z := 8 / key_width.

(** [align_to_int64] on the index of a cell. *)
Definition align_to_int64 (key_width a : Z) : Z :=
  let c := cells_per_quad key_width in (a + c - 1) / c * c.

(** The template on the type of the keys. *)
Definition get_matching_group_value_T (key_width : Z) (m : mem) (h : Z) (key : list Z)
    (row_size_quad : Z) : probe_result :=
  let off := u32 (h * row_size_quad) in
  let row_ptr := off * cells_per_quad key_width in
  let row := align_to_int64 key_width (row_ptr + Z.of_nat (length key)) in
  let* first := load m row_ptr in
  if first =? get_empty_key key_width then
    let* m := store_range m row_ptr key in Ok (Some row, m)
  else
    let* same := same_range m row_ptr key in
    if same then Ok (Some row, m) else Ok (None, m).

Definition get_matching_group_value (m : mem) (h : Z) (key : list Z) (key_width row_size_quad : Z)
    : probe_result :=
  if key_width =? 4 then get_matching_group_value_T 4 m h key row_size_quad
  else if key_width =? 8 then get_matching_group_value_T 8 m h key row_size_quad
  else Ok (None, m).

(** ** A row of the table, columnar

    The loops that store and compare the components, [entry_count] cells apart. *)

Fixpoint store_columns (m : mem) (off entry_count : Z) (key : list Z) : result MemError (mem * Z) :=
  match key with
  | [] => Ok (m, off)
  | k :: key' => let* m := store m off k in store_columns m (u32 (off + entry_count)) entry_count key'
  end.

Fixpoint same_columns (m : mem) (off entry_count : Z) (key : list Z)
    : result MemError (option Z) :=
  match key with
  | [] => Ok (Some off)
  | k :: key' =>
      let* x := load m off in
      if x =? k then same_columns m (u32 (off + entry_count)) entry_count key' else Ok None
  end.

(** A slot as the [int32_t] that is returned; the caller takes -1 for no slot. *)
Definition slot_result (h : Z) : option Z := if s32 h =? -1 then None else Some (s32 h).

Definition get_matching_group_value_columnar_slot_T (key_width : Z) (m : mem) (entry_count h : Z)
    (key : list Z) : probe_result :=
  let* first := load m h in
  if first =? get_empty_key key_width then
    let* '(m, _) := store_columns m h entry_count key in Ok (slot_result h, m)
  else
    let* same := same_columns m h entry_count key in
    match same with Some _ => Ok (slot_result h, m) | None => Ok (None, m) end.

Definition get_matching_group_value_columnar_slot (m : mem) (entry_count h : Z) (key : list Z)
    (key_width : Z) : probe_result :=
  if key_width =? 4 then get_matching_group_value_columnar_slot_T 4 m entry_count h key
  else if key_width =? 8 then get_matching_group_value_columnar_slot_T 8 m entry_count h key
  else Ok (None, m).

Definition get_matching_group_value_columnar (m : mem) (h : Z) (key : list Z) (entry_count : Z)
    : probe_result :=
  let* first := load m h in
  if first =? EMPTY_KEY_64 then
    let* '(m, off) := store_columns m h entry_count key in Ok (Some off, m)
  else
    let* same := same_columns m h entry_count key in
    Ok (same, m).

(** ** Probing

    The bodies of the baseline functions: the slot of the hash, then the next ones up to it.
    [at_slot] is the call that tries a slot. *)

Definition key_hash (key : list Z) (key_byte_width : Z) : Z :=
  MurmurHash3 (concat (map (le_bytes (Z.to_nat key_byte_width)) key)) 0.

Fixpoint probe_loop (fuel : nat) (at_slot : Z -> mem -> probe_result) (count h h_probe : Z) (m : mem)
    : probe_result :=
  if h_probe =? h then Ok (None, m)
  else
    match fuel with
    | O => Err MLoop
    | S fuel' =>
        let* '(matching_group, m) := at_slot h_probe m in
        match matching_group with
        | Some g => Ok (Some g, m)
        | None => probe_loop fuel' at_slot count h (u32 (h_probe + 1) mod count) m
        end
    end.

Definition probe (at_slot : Z -> mem -> probe_result) (count hash : Z) (m : mem) : probe_result :=
  if count =? 0 then Err MZero
  else
    let h := hash mod count in
    let* '(matching_group, m) := at_slot h m in
    match matching_group with
    | Some g => Ok (Some g, m)
    | None => probe_loop (Z.to_nat count) at_slot count h (u32 (h + 1) mod count) m
    end.

Definition get_group_value (m : mem) (groups_buffer_entry_count : Z) (key : list Z)
    (key_width row_size_quad : Z) : probe_result :=
  probe (fun h m => get_matching_group_value m h key key_width row_size_quad)
    groups_buffer_entry_count (key_hash key key_width) m.

(** The slot functions return the slot they probed, not the value of the inner call. *)
Definition get_group_value_columnar_slot (m : mem) (groups_buffer_entry_count : Z) (key : list Z)
    (key_width : Z) : probe_result :=
  probe (fun h m =>
      let* '(matching_slot, m) :=
        get_matching_group_value_columnar_slot m groups_buffer_entry_count h key key_width in
      match matching_slot with Some _ => Ok (slot_result h, m) | None => Ok (None, m) end)
    groups_buffer_entry_count (key_hash key key_width) m.

Definition get_group_value_columnar (m : mem) (groups_buffer_entry_count : Z) (key : list Z)
    : probe_result :=
  probe (fun h m => get_matching_group_value_columnar m h key groups_buffer_entry_count)
    groups_buffer_entry_count (key_hash key 8) m.

(** ** Probing under a watchdog

    [dynamic_watchdog i] is the answer of the [i]-th call of [dynamic_watchdog()]. *)

Fixpoint probe_loop_with_watchdog (fuel : nat) (dynamic_watchdog : nat -> bool) (calls : nat)
    (watchdog_countdown : Z) (at_slot : Z -> mem -> probe_result) (count h h_probe : Z) (m : mem)
    : probe_result :=
  if h_probe =? h then Ok (None, m)
  else
    match fuel with
    | O => Err MLoop
    | S fuel' =>
        let* '(matching_group, m) := at_slot h_probe m in
        match matching_group with
        | Some g => Ok (Some g, m)
        | None =>
            let h_probe := u32 (h_probe + 1) mod count in
            let watchdog_countdown := u32 (watchdog_countdown - 1) in
            if watchdog_countdown =? 0 then
              if dynamic_watchdog calls then Ok (None, m)
              else probe_loop_with_watchdog fuel' dynamic_watchdog (S calls) 100 at_slot count h
                     h_probe m
            else probe_loop_with_watchdog fuel' dynamic_watchdog calls watchdog_countdown at_slot
                   count h h_probe m
        end
    end.

Definition probe_with_watchdog (dynamic_watchdog : nat -> bool)
    (at_slot : Z -> mem -> probe_result) (count hash : Z) (m : mem) : probe_result :=
  if count =? 0 then Err MZero
  else
    let h := hash mod count in
    let* '(matching_group, m) := at_slot h m in
    match matching_group with
    | Some g => Ok (Some g, m)
    | None =>
        probe_loop_with_watchdog (Z.to_nat count) dynamic_watchdog 0 100 at_slot count h
          (u32 (h + 1) mod count) m
    end.

Definition get_group_value_with_watchdog (dynamic_watchdog : nat -> bool) (m : mem)
    (groups_buffer_entry_count : Z) (key : list Z) (key_width row_size_quad : Z) : probe_result :=
  probe_with_watchdog dynamic_watchdog
    (fun h m => get_matching_group_value m h key key_width row_size_quad)
    groups_buffer_entry_count (key_hash key key_width) m.

Definition get_group_value_columnar_slot_with_watchdog (dynamic_watchdog : nat -> bool) (m : mem)
    (groups_buffer_entry_count : Z) (key : list Z) (key_width : Z) : probe_result :=
  probe_with_watchdog dynamic_watchdog
    (fun h m =>
      let* '(matching_slot, m) :=
        get_matching_group_value_columnar_slot m groups_buffer_entry_count h key key_width in
      match matching_slot with Some _ => Ok (slot_result h, m) | None => Ok (None, m) end)
    groups_buffer_entry_count (key_hash key key_width) m.

Definition get_group_value_columnar_with_watchdog (dynamic_watchdog : nat -> bool) (m : mem)
    (groups_buffer_entry_count : Z) (key : list Z) : probe_result :=
  probe_with_watchdog dynamic_watchdog
    (fun h m => get_matching_group_value_columnar m h key groups_buffer_entry_count)
    groups_buffer_entry_count (key_hash key 8) m.

(** ** Perfect hashing: the key gives the row *)

(** [(key - min_key) / bucket], or the difference when there is no bucket. *)
Definition key_bin (key min_key bucket : Z) : Z :=
  let key_diff := s64 (key - min_key) in
  if bucket =? 0 then key_diff else Z.quot key_diff bucket.

(** [groups_buffer[off] = key] if the cell is empty. *)
Definition store_if_empty (m : mem) (off key : Z) : result MemError mem :=
  let* v := load m off in
  if v =? EMPTY_KEY_64 then store m off key else Ok m.

Definition get_group_value_fast (m : mem) (key min_key bucket row_size_quad : Z) : probe_result :=
  let off := s64 (key_bin key min_key bucket * row_size_quad) in
  let* m := store_if_empty m off key in Ok (Some (off + 1), m).

Definition get_group_value_fast_with_original_key (m : mem)
    (key orig_key min_key bucket row_size_quad : Z) : probe_result :=
  let off := s64 (key_bin key min_key bucket * row_size_quad) in
  let* m := store_if_empty m off orig_key in Ok (Some (off + 1), m).

Definition get_columnar_group_bin_offset (m : mem) (key min_key bucket : Z) : probe_result :=
  let off := key_bin key min_key bucket in
  let* m := store_if_empty m off key in Ok (Some (u32 off), m).

Definition get_group_value_fast_keyless (key min_key row_size_quad : Z) : Z :=
  s64 (row_size_quad * (key - min_key)).

Definition get_group_value_fast_keyless_semiprivate
    (key min_key row_size_quad thread_warp_idx warp_size : Z) : Z :=
  s64 (row_size_quad * (warp_size * (key - min_key) + thread_warp_idx)).

(** [groups_buffer[off + i] = key[i]] for the components; [stride] is 1 or [entry_count]. *)
Fixpoint store_strided (m : mem) (off stride : Z) (key : list Z) (i : Z) : result MemError mem :=
  match key with
  | [] => Ok m
  | k :: key' => let* m := store m (u32 (off + i * stride)) k in store_strided m off stride key' (i + 1)
  end.

Definition get_matching_group_value_perfect_hash (m : mem) (hashed_index : Z) (key : list Z)
    (row_size_quad : Z) : probe_result :=
  let off := u32 (hashed_index * row_size_quad) in
  let* first := load m off in
  let* m := if first =? EMPTY_KEY_64 then store_strided m off 1 key 0 else Ok m in
  Ok (Some (off + Z.of_nat (length key)), m).

Definition get_matching_group_value_perfect_hash_keyless (hashed_index row_size_quad : Z) : Z :=
  u32 (row_size_quad * hashed_index).

Definition set_matching_group_value_perfect_hash_columnar (m : mem) (hashed_index : Z)
    (key : list Z) (entry_count : Z) : result MemError mem :=
  let* first := load m hashed_index in
  if first =? EMPTY_KEY_64 then store_strided m hashed_index entry_count key 0 else Ok m.

(** ** Output of a scan *)

Definition get_scan_output_slot (m : mem) (output_buffer_entry_count pos offset_in_fragment
    row_size_quad : Z) : probe_result :=
  let off := u64 (pos * row_size_quad) in
  if pos <? output_buffer_entry_count then
    let* m := store m off offset_in_fragment in Ok (Some (off + 1), m)
  else Ok (None, m).

Definition get_columnar_scan_output_offset (m : mem) (output_buffer_entry_count pos
    offset_in_fragment : Z) : probe_result :=
  if pos <? output_buffer_entry_count then
    let* m := store m pos offset_in_fragment in Ok (Some (s32 pos), m)
  else Ok (None, m).

(** ** Error codes *)

Definition record_error_code (err_code : Z) (error_code : Z) : Z :=
  if negb (err_code =? 0) && (error_code <=? 0) then err_code else error_code.
