(* ===== verification/GroupByTable.v ===== *)
(** * Probing a group-by table

    A table is a memory with a layout: the address of each component of the key of each slot.
    What the probing functions do is proved for any layout and any way of trying a slot that
    behaves as [SlotMatcher] says; the row-wise and the columnar tables are instances.  A table
    that represents an assignment of rows to keys takes every key as [assign] does. *)

From Stdlib Require Import ZArith Lia List Bool.
From stdpp Require Import base list numbers gmap.
From S2P Require Import Prelude MurmurHash GroupByRuntime.
Import ListNotations.
Local Open Scope nat_scope.
Local Open Scope hdk_scope.

(** ** Layouts *)

(** [n] slots with keys of [kc] components in a memory of [len] cells. *)
Class Layout (n kc len : nat) (addr : nat -> nat -> nat) : Prop := {
  addr_lt : forall h i, h < n -> i < kc -> addr h i < len;
  addr_inj : forall h h' i i', h < n -> h' < n -> i < kc -> i' < kc ->
    addr h i = addr h' i' -> h = h' /\ i = i';
  kc_pos : 0 < kc;
  n_range : 0 < n /\ (Z.of_nat n < 4294967296)%Z
}.

Section Table.

Context (n kc len : nat) (addr : nat -> nat -> nat) {L : Layout n kc len addr} (empty : Z).

Definition key_at (m : mem) (h : nat) : list Z := map (fun i => m !!! addr h i) (seq 0 kc).

Definition is_empty (m : mem) (h : nat) : bool := (m !!! addr h 0 =? empty)%Z.

Fixpoint write_from (m : mem) (h i : nat) (key : list Z) : mem :=
  match key with
  | [] => m
  | k :: key' => write_from (<[addr h i := k]> m) h (S i) key'
  end.

Definition write (m : mem) (h : nat) (key : list Z) : mem := write_from m h 0 key.

Lemma write_from_length m h i key : length (write_from m h i key) = length m.
Proof. revert m i. induction key as [|k key IH]; intros m i; simpl; [done|]. by rewrite IH, length_insert. Qed.

Lemma write_from_other m h i key a :
  (forall j, i <= j < i + length key -> addr h j <> a) ->
  write_from m h i key !! a = m !! a.
Proof.
  revert m i. induction key as [|k key IH]; intros m i Ha; simpl; [done|].
  rewrite IH by (intros j Hj; apply Ha; simpl; lia).
  apply list_lookup_insert_ne. apply Ha. simpl. lia.
Qed.

Lemma write_from_at m h i key j :
  h < n -> i + length key <= kc -> length m = len -> i <= j < i + length key ->
  write_from m h i key !!! addr h j = nth (j - i) key 0%Z.
Proof.
  intros Hh. revert m i. induction key as [|k key IH]; intros m i Hk Hm Hj; simpl in *; [lia|].
  destruct (decide (j = i)) as [->|Hne].
  - rewrite Nat.sub_diag. apply list_lookup_total_correct.
    rewrite write_from_other.
    + apply list_lookup_insert_eq. rewrite Hm. apply addr_lt; lia.
    + intros j' Hj' E. apply addr_inj in E; lia.
  - rewrite IH by (rewrite ?length_insert; lia).
    by replace (j - i) with (S (j - S i)) by lia.
Qed.

Lemma key_at_length m h : length (key_at m h) = kc.
Proof. unfold key_at. by rewrite length_map, length_seq. Qed.

Lemma key_at_nth m h i : i < kc -> nth i (key_at m h) 0%Z = m !!! addr h i.
Proof.
  intros Hi. unfold key_at.
  rewrite (nth_indep _ 0%Z (m !!! addr h 0)) by (rewrite length_map, length_seq; lia).
  rewrite (map_nth (fun i => m !!! addr h i)). by rewrite seq_nth.
Qed.

Lemma key_at_write_eq m h key :
  h < n -> length key = kc -> length m = len -> key_at (write m h key) h = key.
Proof.
  intros Hh Hk Hm. apply nth_ext with 0%Z 0%Z; rewrite key_at_length; [done|].
  intros i Hi. rewrite key_at_nth by done. unfold write.
  rewrite write_from_at by lia. by rewrite Nat.sub_0_r.
Qed.

Lemma write_at_other m h h' i key :
  h < n -> h' < n -> h <> h' -> i < kc -> length key = kc ->
  write m h key !!! addr h' i = m !!! addr h' i.
Proof.
  intros Hh Hh' Hne Hi Hk. rewrite !list_lookup_total_alt. f_equal. apply write_from_other.
  intros j Hj E. apply addr_inj in E; lia.
Qed.

Lemma key_at_write_ne m h h' key :
  h < n -> h' < n -> h <> h' -> length key = kc -> key_at (write m h key) h' = key_at m h'.
Proof.
  intros. unfold key_at. apply map_ext_in. intros i Hi. apply in_seq in Hi.
  apply write_at_other; lia.
Qed.

Lemma is_empty_write_ne m h h' key :
  h < n -> h' < n -> h <> h' -> length key = kc -> is_empty (write m h key) h' = is_empty m h'.
Proof.
  intros. unfold is_empty. rewrite write_at_other; auto; destruct L; lia.
Qed.

Lemma is_empty_write_eq m h key :
  h < n -> length key = kc -> length m = len ->
  is_empty (write m h key) h = (nth 0 key 0 =? empty)%Z.
Proof.
  intros Hh Hk Hm. unfold is_empty, write. pose proof kc_pos. rewrite write_from_at by lia. done.
Qed.

(** ** Trying a slot *)

Definition slot_step (m : mem) (h : nat) (key : list Z) (ptr : nat -> Z) : option Z * mem :=
  if is_empty m h then (Some (ptr h), write m h key)
  else if bool_decide (key_at m h = key) then (Some (ptr h), m)
  else (None, m).

(** [at_slot] tries slot [h] for [key]: it takes an empty slot and accepts one with the key. *)
Class SlotMatcher (at_slot : Z -> mem -> probe_result) (key : list Z) (ptr : nat -> Z) : Prop :=
  at_slot_spec : forall h m, h < n -> length m = len ->
    at_slot (Z.of_nat h) m = Ok (slot_step m h key ptr).

(** ** The order of the probes *)

Definition order (h : nat) : list nat := map (fun k => (h + k) mod n) (seq 0 n).

Definition accepts (m : mem) (key : list Z) (s : nat) : bool :=
  is_empty m s || bool_decide (key_at m s = key).

Definition find_slot (m : mem) (key : list Z) (h : nat) : option nat :=
  List.find (accepts m key) (order h).

(** The outcome of a search. *)
Definition outcome (m : mem) (key : list Z) (ptr : nat -> Z) (r : option nat) : option Z * mem :=
  match r with
  | Some s => (Some (ptr s), if is_empty m s then write m s key else m)
  | None => (None, m)
  end.

Lemma slot_step_outcome m h key ptr :
  slot_step m h key ptr
  = if accepts m key h then outcome m key ptr (Some h) else (None, m).
Proof.
  unfold slot_step, accepts, outcome. destruct (is_empty m h); [done|].
  by destruct (bool_decide _).
Qed.

Lemma next_slot h k :
  h < n -> (u32 (Z.of_nat ((h + k) mod n) + 1) mod Z.of_nat n)%Z = Z.of_nat ((h + S k) mod n).
Proof.
  intros Hh. pose proof n_range as [Hn Hw].
  assert (Hm : (h + k) mod n < n) by (apply Nat.mod_upper_bound; lia).
  rewrite u32_small by lia.
  replace (Z.of_nat ((h + k) mod n) + 1)%Z with (Z.of_nat ((h + k) mod n + 1)) by lia.
  rewrite <- Nat2Z.inj_mod. f_equal.
  rewrite Nat.Div0.add_mod_idemp_l. f_equal. lia.
Qed.

(** The [k]-th slot after [h] is [h] again only after [n] steps. *)
Lemma slot_returns h k : h < n -> 1 <= k <= n -> (h + k) mod n = h <-> k = n.
Proof.
  intros Hh Hk. split.
  - intros E. destruct (decide (h + k < n)) as [l|l]; [rewrite Nat.mod_small in E; lia|].
    destruct (decide (k = n)); [done|]. exfalso.
    replace (h + k) with (h + k - n + 1 * n) in E by lia.
    rewrite Nat.Div0.mod_add, Nat.mod_small in E; lia.
  - intros ->. replace (h + n) with (h + 1 * n) by lia.
    rewrite Nat.Div0.mod_add. by apply Nat.mod_small.
Qed.

Lemma probe_loop_find at_slot key ptr {M : SlotMatcher at_slot key ptr} m h :
  h < n -> length m = len ->
  forall k fuel, 1 <= k <= n -> n - k <= fuel ->
  probe_loop fuel at_slot (Z.of_nat n) (Z.of_nat h) (Z.of_nat ((h + k) mod n)) m
  = Ok (outcome m key ptr
          (List.find (accepts m key) (map (fun k => (h + k) mod n) (seq k (n - k))))).
Proof.
  intros Hh Hm k fuel. revert k. induction fuel as [|fuel IH]; intros k Hk Hf; simpl;
    (destruct (Z.eqb_spec (Z.of_nat ((h + k) mod n)) (Z.of_nat h)) as [E|E];
     [apply Nat2Z.inj in E; apply slot_returns in E; [|done|done]; subst k;
      by rewrite Nat.sub_diag|]).
  - exfalso. apply E. f_equal. apply slot_returns; lia.
  - destruct (n - k) as [|d] eqn:Ed.
    { exfalso. apply E. f_equal. apply slot_returns; lia. }
    pose proof n_range as [Hn _].
    rewrite at_slot_spec by (auto; apply Nat.mod_upper_bound; lia).
    rewrite slot_step_outcome. simpl. destruct (accepts m key ((h + k) mod n)); simpl; [done|].
    rewrite next_slot by done. rewrite IH by lia. by replace (n - S k) with d by lia.
Qed.

(** A probe is a search from the slot of the hash, through all slots. *)
Lemma probe_find at_slot key ptr {M : SlotMatcher at_slot key ptr} m hash :
  length m = len -> (0 <= hash)%Z ->
  probe at_slot (Z.of_nat n) hash m
  = Ok (outcome m key ptr (find_slot m key (Z.to_nat hash mod n))).
Proof.
  intros Hm Hh. pose proof n_range as [Hn Hw]. unfold probe.
  destruct (Z.eqb_spec (Z.of_nat n) 0); [lia|]. set (h := Z.to_nat hash mod n).
  assert (Hlt : h < n) by (apply Nat.mod_upper_bound; lia).
  replace (hash mod Z.of_nat n)%Z with (Z.of_nat h)
    by (unfold h; rewrite Nat2Z.inj_mod, Z2Nat.id by lia; done).
  rewrite at_slot_spec by done. rewrite slot_step_outcome.
  unfold find_slot, order.
  assert (Es : seq 0 n = 0 :: seq 1 (n - 1)).
  { replace n with (S (n - 1)) at 1 by lia. done. }
  rewrite Es. simpl. rewrite Nat.add_0_r, (Nat.mod_small h n) by done.
  destruct (accepts m key h); simpl; [done|].
  replace (Z.of_nat h + 1)%Z with (Z.of_nat ((h + 0) mod n) + 1)%Z
    by (rewrite Nat.add_0_r, Nat.mod_small; done).
  rewrite next_slot by done.
  by rewrite (probe_loop_find at_slot key ptr) by lia.
Qed.

End Table.

(** * A group-by table is a finite map

    The invariant of a table filled by probing, the finite map from keys to slots that it
    represents, and the abstract operation on that map which a probe implements. *)

(** ** The specification *)

Abbreviation slots := (gmap (list Z) nat).

(** A key gets the slot it has, or a slot that no key has; there is no slot for a new key when
    as many keys have one as there are. *)
Inductive assign (n : nat) (g : slots) (key : list Z) : option nat -> slots -> Prop :=
| assign_found s : g !! key = Some s -> assign n g key (Some s) g
| assign_fresh s :
    g !! key = None -> s < n -> (forall k, g !! k <> Some s) ->
    assign n g key (Some s) (<[key := s]> g)
| assign_full : g !! key = None -> n <= base.size g -> assign n g key None g.

(** The keys of a query, one after the other. *)
Inductive assigns (n : nat) : slots -> list (list Z) -> list (option nat) -> slots -> Prop :=
| assigns_nil g : assigns n g [] [] g
| assigns_cons g key r g' keys rs g'' :
    assign n g key r g' -> assigns n g' keys rs g'' ->
    assigns n g (key :: keys) (r :: rs) g''.

Definition injective (g : slots) : Prop :=
  forall k k' s, g !! k = Some s -> g !! k' = Some s -> k = k'.

Lemma assign_injective n g key r g' : assign n g key r g' -> injective g -> injective g'.
Proof.
  intros A Hi. destruct A as [s E|s E Hs Hf|E F]; [done| |done].
  intros k k' x. rewrite !lookup_insert. repeat case_decide; subst; intros; simplify_eq; try done.
  - exfalso. by eapply Hf.
  - exfalso. by eapply Hf.
  - by eapply Hi.
Qed.

Lemma assign_mono n g key r g' k s : assign n g key r g' -> g !! k = Some s -> g' !! k = Some s.
Proof.
  intros A. destruct A as [s' E|s' E Hs Hf|E F]; [done| |done].
  intros Hk. rewrite lookup_insert_ne; [done|]. intros ->. congruence.
Qed.

Lemma assign_result n g key s g' : assign n g key (Some s) g' -> g' !! key = Some s.
Proof. inversion 1; subst; [done|]. apply lookup_insert_eq. Qed.

Lemma assign_dom n g key r g' : assign n g key r g' -> dom g' ⊆ {[key]} ∪ dom g.
Proof. destruct 1; set_solver. Qed.

Lemma assigns_mono n g keys rs g' k s :
  assigns n g keys rs g' -> g !! k = Some s -> g' !! k = Some s.
Proof. induction 1; eauto using assign_mono. Qed.

Lemma assigns_injective n g keys rs g' : assigns n g keys rs g' -> injective g -> injective g'.
Proof. induction 1; eauto using assign_injective. Qed.

Lemma assigns_results n g keys rs g' i key s :
  assigns n g keys rs g' -> keys !! i = Some key -> rs !! i = Some (Some s) -> g' !! key = Some s.
Proof.
  intros A. revert i. induction A as [|g key' r g' keys rs g'' A As IH]; intros [|i] Hk Hr; try done.
  - simplify_eq/=. eapply assigns_mono; [done|]. by eapply assign_result.
  - by apply (IH i).
Qed.

Lemma assigns_lengths n g keys rs g' : assigns n g keys rs g' -> length rs = length keys.
Proof. induction 1; simpl; congruence. Qed.

(** Two keys of a query get the same slot exactly when they are equal. *)
Lemma assigns_groups n keys rs g' i j ki kj si sj :
  assigns n ∅ keys rs g' ->
  keys !! i = Some ki -> keys !! j = Some kj -> rs !! i = Some (Some si) -> rs !! j = Some (Some sj) ->
  (si = sj <-> ki = kj).
Proof.
  intros A Ki Kj Ri Rj. pose proof (assigns_results _ _ _ _ _ _ _ _ A Ki Ri) as Gi.
  pose proof (assigns_results _ _ _ _ _ _ _ _ A Kj Rj) as Gj.
  assert (injective g') as Hi by (eapply assigns_injective; [done|intros k k' s; set_solver]).
  split; [intros ->; by eapply Hi | intros ->; congruence].
Qed.

(** As long as there are no more different keys than slots, every key gets one. *)
Lemma assigns_enough n g keys rs g' :
  assigns n g keys rs g' -> base.size (list_to_set keys ∪ dom g : gset (list Z)) <= n ->
  None ∉ rs.
Proof.
  induction 1 as [|g key r g' keys rs g'' A As IH]; intros Hs; [set_solver|].
  intros Hin. apply elem_of_cons in Hin as [<-|Hin].
  - inversion A as [| |E F]; subst.
    apply not_elem_of_dom in E.
    assert (U : base.size ({[key]} ∪ dom g' : gset (list Z)) = S (base.size (dom g')))
      by (rewrite size_union by set_solver; by rewrite size_singleton).
    assert (base.size ({[key]} ∪ dom g' : gset (list Z))
            <= base.size (list_to_set (key :: keys) ∪ dom g' : gset (list Z)))
      by (apply subseteq_size; set_solver).
    rewrite size_dom in U. lia.
  - apply IH; [|done]. etransitivity; [|exact Hs]. apply subseteq_size.
    pose proof (assign_dom _ _ _ _ _ A). set_solver.
Qed.

(** ** The invariant *)

Lemma find_keep {A : Type} (f f' : A -> bool) (l : list A) (s : A) :
  List.find f l = Some s -> (forall x, x ∈ l -> f x = false -> f' x = false) -> f' s = true ->
  List.find f' l = Some s.
Proof.
  intros H Hk Hs. induction l as [|x l IH]; simpl in *; [done|].
  destruct (f x) eqn:E; [injection H as ->; by rewrite Hs|].
  rewrite (Hk x) by (done || apply elem_of_cons; auto). apply IH; [done|].
  intros y Hy. apply Hk. apply elem_of_cons. auto.
Qed.

Section Invariant.

Context (n kc len : nat) (addr : nat -> nat -> nat) {L : Layout n kc len addr} (empty : Z).
Context (hash : list Z -> nat).

Abbreviation key_at := (key_at kc addr).
Abbreviation is_empty := (is_empty addr empty).
Abbreviation write := (write addr).
Abbreviation accepts := (accepts kc addr empty).
Abbreviation find_slot := (find_slot n kc addr empty).

(** The key of an occupied slot is found there. *)
Definition chained (m : mem) : Prop :=
  forall s, s < n -> is_empty m s = false ->
    find_slot m (key_at m s) (hash (key_at m s) mod n) = Some s.

Definition represents (m : mem) (g : slots) : Prop :=
  length m = len /\ chained m /\
  forall k s, g !! k = Some s <-> s < n /\ is_empty m s = false /\ key_at m s = k.

(** A key that the table can hold. *)
Definition good_key (key : list Z) : Prop := length key = kc /\ nth 0 key 0%Z <> empty.

Lemma order_all h s : h < n -> s < n -> s ∈ order n h.
Proof.
  intros Hh Hs. apply list_elem_of_In, in_map_iff.
  destruct (decide (h <= s)).
  - exists (s - h). split; [rewrite Nat.mod_small; lia | apply in_seq; lia].
  - exists (s + n - h). split; [|apply in_seq; lia].
    replace (h + (s + n - h)) with (s + 1 * n) by lia.
    by rewrite Nat.Div0.mod_add, Nat.mod_small by lia.
Qed.

Lemma find_slot_lt m key h s : find_slot m key h = Some s -> s < n /\ accepts m key s = true.
Proof.
  intros H. apply List.find_some in H as [Hin Ha]. split; [|done].
  apply in_map_iff in Hin as (k & <- & _). pose proof n_range. apply Nat.mod_upper_bound. lia.
Qed.

Lemma accepts_false m key s : accepts m key s = false <-> is_empty m s = false /\ key_at m s <> key.
Proof.
  unfold GroupByTable.accepts. rewrite orb_false_iff, bool_decide_eq_false. done.
Qed.

Lemma order_lt h s : s ∈ order n h -> s < n.
Proof.
  intros Hin. apply list_elem_of_In, in_map_iff in Hin as (k & <- & _).
  pose proof n_range. apply Nat.mod_upper_bound. lia.
Qed.

(** Taking an empty slot changes no slot that is not accepted. *)
Lemma write_rejects m key s key' x :
  s < n -> x < n -> length key = kc -> is_empty m s = true ->
  accepts m key' x = false -> accepts (write m s key) key' x = false.
Proof.
  intros Hs Hx Hk He [Ex Kx]%accepts_false. apply accepts_false.
  assert (s <> x) by congruence.
  by rewrite (is_empty_write_ne n kc len addr empty), (key_at_write_ne n kc len addr) by done.
Qed.

(** Taking an empty slot that a search ended at keeps the invariant. *)
Lemma write_chained m key s :
  length m = len -> chained m -> good_key key ->
  find_slot m key (hash key mod n) = Some s -> is_empty m s = true ->
  chained (write m s key).
Proof.
  intros Hl Hc [Hk Hne] Hf He j Hj Ej. destruct (find_slot_lt _ _ _ _ Hf) as [Hs _].
  assert (Acc : accepts (write m s key) (key_at (write m s key) j) j = true)
    by (unfold GroupByTable.accepts; rewrite bool_decide_eq_true_2, orb_true_r; done).
  destruct (decide (j = s)) as [->|Hjs].
  - rewrite (key_at_write_eq n kc len addr) in * by done.
    eapply find_keep; [exact Hf | | exact Acc].
    intros x Hx. apply write_rejects; [done | by eapply order_lt | done | done].
  - rewrite (key_at_write_ne n kc len addr) in * by done.
    rewrite (is_empty_write_ne n kc len addr) in Ej by done.
    eapply find_keep; [exact (Hc j Hj Ej) | | exact Acc].
    intros x Hx. apply write_rejects; [done | by eapply order_lt | done | done].
Qed.

Lemma represents_injective m g k k' s :
  represents m g -> g !! k = Some s -> g !! k' = Some s -> k = k'.
Proof. intros (_ & _ & R) [_ [_ <-]]%R [_ [_ <-]]%R. done. Qed.

(** A full table represents a map with as many keys as slots. *)
Lemma full_size m g :
  represents m g -> (forall s, s < n -> is_empty m s = false) -> n <= base.size g.
Proof.
  intros (_ & Hc & R) Hfull.
  assert (ND : NoDup (map (key_at m) (seq 0 n))).
  { apply NoDup_fmap_2_strong; [|apply NoDup_seq]. intros x y Hx Hy E.
    apply elem_of_seq in Hx, Hy. pose proof (Hc x ltac:(lia) (Hfull x ltac:(lia))) as Fx.
    pose proof (Hc y ltac:(lia) (Hfull y ltac:(lia))) as Fy. congruence. }
  transitivity (base.size (list_to_set (map (key_at m) (seq 0 n)) : gset (list Z))).
  { rewrite size_list_to_set by done. by rewrite length_map, length_seq. }
  rewrite <- size_dom. apply subseteq_size. intros k Hk.
  apply elem_of_list_to_set, list_elem_of_In, in_map_iff in Hk as (s & <- & Hin).
  apply in_seq in Hin. apply elem_of_dom. exists s. apply R. split; [lia|]. split; [|done].
  apply Hfull. lia.
Qed.

(** Taking an empty slot adds the key to the map. *)
Lemma write_represents m g key s :
  represents m g -> good_key key -> g !! key = None ->
  find_slot m key (hash key mod n) = Some s -> is_empty m s = true ->
  represents (write m s key) (<[key := s]> g).
Proof.
  intros (Hl & Hc & R) Hk Hnone Ef Ee. destruct (find_slot_lt _ _ _ _ Ef) as [Hs _].
  split; [by rewrite <- Hl; apply write_from_length|]. split; [by apply write_chained|].
  intros k x. destruct Hk as [Hk Hne]. destruct (decide (x = s)) as [->|Hx].
  - rewrite (is_empty_write_eq n kc len addr), (key_at_write_eq n kc len addr) by done.
    rewrite lookup_insert. case_decide as Ekk; [subst k|].
    { split; [intros _|done]. split; [done|]. split; [|done]. by apply Z.eqb_neq. }
    split; [intros [_ [E' _]]%R; congruence | intros (_ & _ & ->); done].
  - rewrite lookup_insert. case_decide as Ekk; [subst k|].
    + split; [congruence|]. intros (Hxn & Ex & Kx).
      rewrite (is_empty_write_ne n kc len addr) in Ex by done.
      rewrite (key_at_write_ne n kc len addr) in Kx by done.
      assert (g !! key = Some x) by (by apply R). congruence.
    + rewrite R. split; intros (Hxn & Ex & Kx); (split; [done|]).
      * by rewrite (is_empty_write_ne n kc len addr), (key_at_write_ne n kc len addr).
      * by rewrite (is_empty_write_ne n kc len addr), (key_at_write_ne n kc len addr) in *.
Qed.

(** A probe implements [assign]. *)
Lemma probe_assigns m g key ptr :
  represents m g -> good_key key ->
  exists r g' m',
    outcome addr empty m key ptr (find_slot m key (hash key mod n)) = (option_map ptr r, m')
    /\ assign n g key r g' /\ represents m' g'.
Proof.
  intros Rep Hk. pose proof Rep as (Hl & Hc & R).
  destruct (find_slot m key (hash key mod n)) as [s|] eqn:Ef.
  - destruct (find_slot_lt _ _ _ _ Ef) as [Hs Ha]. unfold outcome.
    destruct (is_empty m s) eqn:Ee.
    + assert (Hnone : g !! key = None).
      { destruct (g !! key) as [s'|] eqn:Eg; [exfalso|done]. apply R in Eg as (Hs' & Ee' & K).
        specialize (Hc s' Hs' Ee'). rewrite K in Hc. congruence. }
      exists (Some s), (<[key := s]> g), (write m s key). split; [done|]. split.
      { apply assign_fresh; [done | done |]. intros k [_ [E' _]]%R. congruence. }
      by apply write_represents.
    + exists (Some s), g, m. split; [done|]. split; [|done]. apply assign_found. apply R.
      split; [done|]. split; [done|]. unfold GroupByTable.accepts in Ha. rewrite Ee in Ha.
      by apply bool_decide_eq_true in Ha.
  - exists None, g, m. split; [done|]. split; [|done].
    assert (All : forall s, s < n -> accepts m key s = false).
    { intros s Hs. apply (List.find_none _ _ Ef). apply list_elem_of_In, order_all; [|done].
      pose proof n_range. apply Nat.mod_upper_bound. lia. }
    apply assign_full.
    + destruct (g !! key) as [s|] eqn:Eg; [exfalso|done]. apply R in Eg as (Hs & _ & K).
      specialize (All s Hs). by apply accepts_false in All as [_ ?].
    + apply (full_size m); [done|]. intros s Hs. by destruct (proj1 (accepts_false _ _ _) (All s Hs)).
Qed.

(** A table whose slots are all empty represents the empty map. *)
Lemma represents_empty m :
  length m = len -> (forall s, s < n -> is_empty m s = true) -> represents m ∅.
Proof.
  intros Hl He. split; [done|]. split.
  - intros s Hs E. rewrite He in E; done.
  - intros k s. split; [set_solver|]. intros (Hs & E & _). rewrite He in E; done.
Qed.

End Invariant.
