(* ===== verification/GroupByLayouts.v ===== *)
(** * Row-wise and columnar group-by tables

    The two layouts, and that the functions which try a slot behave as the probing theorems
    require. *)

From Stdlib Require Import ZArith Lia List Bool.
From stdpp Require Import base list numbers.
From S2P Require Import Prelude MurmurHash GroupByRuntime GroupByTable.
Import ListNotations.
Local Open Scope nat_scope.
Local Open Scope hdk_scope.

(** ** Memory *)

Lemma load_at m a : a < length m -> load m (Z.of_nat a) = Ok (m !!! a).
Proof.
  intros H. unfold load. rewrite Nat2Z.id.
  destruct (lookup_lt_is_Some_2 m a H) as [v E]. rewrite E.
  rewrite (list_lookup_total_correct _ _ _ E).
  by replace (0 <=? Z.of_nat a)%Z with true by lia.
Qed.

Lemma store_at m a v : a < length m -> store m (Z.of_nat a) v = Ok (<[a := v]> m).
Proof. intros H. unfold store. rewrite load_at by done. simpl. by rewrite Nat2Z.id. Qed.

(** Comparing the components from [i] on. *)
Definition same_from (addr : nat -> nat -> nat) (m : mem) (h i : nat) (key : list Z) : bool :=
  bool_decide (map (fun j => m !!! addr h j) (seq i (length key)) = key).

Lemma same_from_cons addr m h i k key :
  same_from addr m h i (k :: key) = (m !!! addr h i =? k)%Z && same_from addr m h (S i) key.
Proof.
  unfold same_from. simpl. destruct (Z.eqb_spec (m !!! addr h i) k) as [->|N]; simpl.
  - apply bool_decide_ext. split; [by intros [= ?] | by intros ->].
  - apply bool_decide_eq_false. congruence.
Qed.

Lemma same_from_key_at kc addr m h key :
  length key = kc -> same_from addr m h 0 key = bool_decide (key_at kc addr m h = key).
Proof. by intros <-. Qed.

(** ** Row-wise *)

(** Rows of [rc] cells, each starting with its key. *)
Definition row_addr (rc h i : nat) : nat := h * rc + i.

Lemma row_layout n kc rc len :
  0 < n -> (Z.of_nat n < 4294967296)%Z -> 0 < kc <= rc -> n * rc <= len ->
  Layout n kc len (row_addr rc).
Proof.
  intros Hn Hw Hk Hl. split; [| |lia|lia]; unfold row_addr.
  - intros h i Hh Hi. nia.
  - intros h h' i i' Hh Hh' Hi Hi' E.
    assert (h = h').
    { destruct (Nat.lt_trichotomy h h') as [?|[?|?]]; [exfalso; nia | done | exfalso; nia]. }
    subst. lia.
Qed.

Lemma store_range_row rc m h i key :
  row_addr rc h i + length key <= length m ->
  store_range m (Z.of_nat (row_addr rc h i)) key = Ok (write_from (row_addr rc) m h i key).
Proof.
  revert m i. induction key as [|k key IH]; intros m i Hl; simpl in *; [done|].
  rewrite store_at by lia. cbn [rbind].
  replace (Z.of_nat (row_addr rc h i) + 1)%Z with (Z.of_nat (row_addr rc h (S i)))
    by (unfold row_addr; lia).
  apply IH. rewrite length_insert. unfold row_addr in *. lia.
Qed.

Lemma same_range_row rc m h i key :
  row_addr rc h i + length key <= length m ->
  same_range m (Z.of_nat (row_addr rc h i)) key = Ok (same_from (row_addr rc) m h i key).
Proof.
  revert i. induction key as [|k key IH]; intros i Hl; [done|]. simpl in Hl.
  rewrite same_from_cons. cbn [same_range]. rewrite load_at by lia. cbn [rbind].
  replace (Z.of_nat (row_addr rc h i) + 1)%Z with (Z.of_nat (row_addr rc h (S i)))
    by (unfold row_addr; lia).
  rewrite IH by (unfold row_addr in *; lia). done.
Qed.

(** The pointer to the aggregates of a row. *)
Definition row_ptr (width : Z) (rc kc h : nat) : Z :=
  align_to_int64 width (Z.of_nat (h * rc + kc)).

Definition good_width (width : Z) : Prop := width = 4%Z \/ width = 8%Z.

Lemma row_matcher n kc len width rsq key :
  good_width width -> (0 < rsq)%Z -> (Z.of_nat n * rsq < 4294967296)%Z ->
  let rc := Z.to_nat (rsq * cells_per_quad width) in
  kc <= rc -> n * rc <= len -> length key = kc -> 0 < kc ->
  SlotMatcher n kc len (row_addr rc) (get_empty_key width)
    (fun h m => get_matching_group_value m h key width rsq) key (row_ptr width rc kc).
Proof.
  intros Hw Hr Hn rc Hk Hl Hlen Hpos h m Hh Hm.
  assert (E : forall w, width = w -> good_width w ->
    get_matching_group_value m (Z.of_nat h) key width rsq
    = get_matching_group_value_T w m (Z.of_nat h) key rsq).
  { intros w -> [->| ->]; done. }
  rewrite (E width) by done. clear E. unfold get_matching_group_value_T.
  rewrite u32_small by nia.
  assert (Hc : (0 < cells_per_quad width)%Z) by (destruct Hw as [->| ->]; done).
  assert (Eb : (Z.of_nat h * rsq * cells_per_quad width)%Z = Z.of_nat (row_addr rc h 0))
    by (unfold row_addr, rc; lia).
  assert (Hb : row_addr rc h 0 + kc <= length m) by (unfold row_addr; nia).
  rewrite Eb, load_at by lia. cbn [rbind]. unfold slot_step, is_empty.
  replace (align_to_int64 width (Z.of_nat (row_addr rc h 0) + Z.of_nat (length key)))
    with (row_ptr width rc kc h) by (unfold row_ptr, row_addr; f_equal; lia).
  destruct (m !!! row_addr rc h 0 =? get_empty_key width)%Z.
  - rewrite store_range_row by lia. done.
  - rewrite same_range_row by lia. cbn [rbind].
    rewrite (same_from_key_at kc) by done. by destruct (bool_decide _).
Qed.

(** ** Columnar *)

(** A column of [n] cells per component. *)
Definition col_addr (n h i : nat) : nat := i * n + h.

Lemma col_layout n kc len :
  0 < n -> (Z.of_nat n < 4294967296)%Z -> 0 < kc -> kc * n <= len ->
  Layout n kc len (col_addr n).
Proof.
  intros Hn Hw Hk Hl. split; [| |lia|lia]; unfold col_addr.
  - intros h i Hh Hi. nia.
  - intros h h' i i' Hh Hh' Hi Hi' E.
    assert (i = i').
    { destruct (Nat.lt_trichotomy i i') as [?|[?|?]]; [exfalso; nia | done | exfalso; nia]. }
    subst. lia.
Qed.

Lemma next_column n kc h i :
  h < n -> i < kc -> (Z.of_nat ((kc + 1) * n) <= 4294967296)%Z ->
  u32 (Z.of_nat (col_addr n h i) + Z.of_nat n) = Z.of_nat (col_addr n h (S i)).
Proof.
  intros Hh Hi Hw. unfold col_addr.
  assert (i * n + h + n < (kc + 1) * n) by nia. rewrite u32_small by lia. lia.
Qed.

Lemma store_columns_col n kc m h i key :
  h < n -> i + length key = kc -> kc * n <= length m -> (Z.of_nat ((kc + 1) * n) <= 4294967296)%Z ->
  store_columns m (Z.of_nat (col_addr n h i)) (Z.of_nat n) key
  = Ok (write_from (col_addr n) m h i key, Z.of_nat (col_addr n h kc)).
Proof.
  intros Hh. revert m i. induction key as [|k key IH]; intros m i Hk Hl Hw; simpl in *.
  { by replace i with kc by lia. }
  rewrite store_at by (unfold col_addr; nia). cbn [rbind].
  rewrite (next_column n kc) by (done || lia).
  apply IH; [lia | by rewrite length_insert | done].
Qed.

Lemma same_columns_col n kc m h i key :
  h < n -> i + length key = kc -> kc * n <= length m -> (Z.of_nat ((kc + 1) * n) <= 4294967296)%Z ->
  same_columns m (Z.of_nat (col_addr n h i)) (Z.of_nat n) key
  = Ok (if same_from (col_addr n) m h i key then Some (Z.of_nat (col_addr n h kc)) else None).
Proof.
  intros Hh. revert i. induction key as [|k key IH]; intros i Hk Hl Hw.
  { simpl in *. by replace i with kc by lia. }
  rewrite same_from_cons. cbn [same_columns]. simpl in Hk.
  rewrite load_at by (unfold col_addr; nia). cbn [rbind].
  destruct (m !!! col_addr n h i =? k)%Z; [|done].
  rewrite (next_column n kc) by (done || lia). rewrite IH by (done || lia). done.
Qed.

Lemma slot_result_small h : (Z.of_nat h < 2147483648)%Z -> slot_result (Z.of_nat h) = Some (Z.of_nat h).
Proof.
  intros Hh. unfold slot_result. rewrite s32_small by lia.
  by destruct (Z.eqb_spec (Z.of_nat h) (-1)); [lia|].
Qed.

Lemma col_matcher_slot n kc len width key :
  good_width width -> (Z.of_nat n <= 2147483648)%Z -> (Z.of_nat ((kc + 1) * n) <= 4294967296)%Z ->
  kc * n <= len -> length key = kc -> 0 < kc ->
  SlotMatcher n kc len (col_addr n) (get_empty_key width)
    (fun h m =>
      let* '(matching_slot, m) :=
        get_matching_group_value_columnar_slot m (Z.of_nat n) h key width in
      match matching_slot with Some _ => Ok (slot_result h, m) | None => Ok (None, m) end)
    key Z.of_nat.
Proof.
  intros Hw Hn Hc Hl Hlen Hpos h m Hh Hm.
  assert (E : get_matching_group_value_columnar_slot m (Z.of_nat n) (Z.of_nat h) key width
    = get_matching_group_value_columnar_slot_T width m (Z.of_nat n) (Z.of_nat h) key)
    by (destruct Hw as [->| ->]; done).
  rewrite E. clear E. unfold get_matching_group_value_columnar_slot_T.
  assert (Eh : Z.of_nat h = Z.of_nat (col_addr n h 0)) by done.
  rewrite slot_result_small by lia. rewrite Eh at 1. rewrite load_at by (unfold col_addr; nia).
  cbn [rbind]. unfold slot_step, is_empty.
  destruct (m !!! col_addr n h 0 =? get_empty_key width)%Z.
  - rewrite Eh at 1. rewrite (store_columns_col n kc) by (done || lia). done.
  - rewrite Eh at 1. rewrite (same_columns_col n kc) by (done || lia).
    rewrite (same_from_key_at kc) by done. by destruct (bool_decide _).
Qed.

Lemma col_matcher n kc len key :
  (Z.of_nat ((kc + 1) * n) <= 4294967296)%Z -> kc * n <= len -> length key = kc -> 0 < kc ->
  SlotMatcher n kc len (col_addr n) EMPTY_KEY_64
    (fun h m => get_matching_group_value_columnar m h key (Z.of_nat n))
    key (fun h => Z.of_nat (col_addr n h kc)).
Proof.
  intros Hc Hl Hlen Hpos h m Hh Hm. unfold get_matching_group_value_columnar.
  change (Z.of_nat h) with (Z.of_nat (col_addr n h 0)). rewrite load_at by (unfold col_addr; nia).
  cbn [rbind]. unfold slot_step, is_empty.
  destruct (m !!! col_addr n h 0 =? EMPTY_KEY_64)%Z.
  - rewrite (store_columns_col n kc) by (done || lia). done.
  - rewrite (same_columns_col n kc) by (done || lia).
    rewrite (same_from_key_at kc) by done. by destruct (bool_decide _).
Qed.
