(* ===== verification/GroupByProps.v ===== *)
(** * Properties of the group-by tables

    The loop of a query over its rows: for each row the function that finds the group is called
    and the aggregates of the group are updated. *)

From Stdlib Require Import ZArith Lia List Bool.
From stdpp Require Import base list numbers gmap.
From S2P Require Import Prelude MurmurHash GroupByRuntime GroupByTable GroupByLayouts.
Import ListNotations.
Local Open Scope nat_scope.
Local Open Scope hdk_scope.

(** [find m key] is the lookup of the table, [agg key p m] the update of the aggregates at the
    pointer [p] that it returned. *)
Fixpoint group_rows (find : mem -> list Z -> probe_result)
    (agg : list Z -> option Z -> mem -> mem) (keys : list (list Z)) (m : mem)
    : result MemError (list (option Z) * mem) :=
  match keys with
  | [] => Ok ([], m)
  | key :: keys' =>
      let* '(p, m) := find m key in
      let* '(ps, m) := group_rows find agg keys' (agg key p m) in
      Ok (p :: ps, m)
  end.

(** An update of the aggregates does not touch the keys. *)
Definition keeps_keys (n kc : nat) (addr : nat -> nat -> nat)
    (agg : list Z -> option Z -> mem -> mem) : Prop :=
  forall key p m, length (agg key p m) = length m /\
    forall h i, h < n -> i < kc -> agg key p m !!! addr h i = m !!! addr h i.

Definition hash_of (width : Z) (key : list Z) : nat := Z.to_nat (key_hash key width).

Lemma key_hash_range key width : (0 <= key_hash key width < 2 ^ 32)%Z.
Proof. apply murmur_range. Qed.

(** ** Runs *)

Section Run.

Context (n kc len : nat) (addr : nat -> nat -> nat) {L : Layout n kc len addr} (empty : Z).

Lemma represents_frame hash m m' g :
  represents n kc len addr empty hash m g -> length m' = length m ->
  (forall h i, h < n -> i < kc -> m' !!! addr h i = m !!! addr h i) ->
  represents n kc len addr empty hash m' g.
Proof.
  intros (Hl & Hc & R) Hl' Hf.
  assert (Ke : forall s, s < n -> key_at kc addr m' s = key_at kc addr m s).
  { intros s Hs. apply map_ext_in. intros i Hi. apply in_seq in Hi. apply Hf; lia. }
  assert (Ee : forall s, s < n -> is_empty addr empty m' s = is_empty addr empty m s).
  { intros s Hs. unfold is_empty. pose proof kc_pos. by rewrite Hf. }
  split; [lia|]. split.
  - intros s Hs E. rewrite Ee in E by done. rewrite Ke by done.
    eapply find_keep; [exact (Hc s Hs E)| |].
    + intros x Hx. apply (order_lt n kc len addr) in Hx. unfold accepts. by rewrite Ee, Ke.
    + unfold accepts. rewrite Ee, Ke by done. by rewrite bool_decide_eq_true_2, orb_true_r.
  - intros k s. rewrite R. split; intros (Hs & E & K); (split; [done|]).
    + by rewrite Ee, Ke.
    + by rewrite Ee, Ke in *.
Qed.

Lemma run_groups width agg keys m g find at_slot ptr :
  keeps_keys n kc addr agg ->
  Forall (good_key kc empty) keys ->
  (forall key m, find m key = probe (at_slot key) (Z.of_nat n) (key_hash key width) m) ->
  (forall key, length key = kc -> SlotMatcher n kc len addr empty (at_slot key) key ptr) ->
  represents n kc len addr empty (hash_of width) m g ->
  exists rs g' m', group_rows find agg keys m = Ok (map (option_map ptr) rs, m') /\
    assigns n g keys rs g' /\ represents n kc len addr empty (hash_of width) m' g'.
Proof.
  intros Hagg Hk Hfind Hslot. revert m g.
  induction Hk as [|key keys Hkey Hk IH]; intros m g Rep; simpl.
  { exists [], g, m. split; [done|]. split; [constructor | done]. }
  pose proof Rep as (Hl & _). pose proof Hkey as [Hlen _].
  rewrite Hfind. specialize (Hslot key Hlen).
  rewrite (probe_find n kc len addr empty (at_slot key) key ptr)
    by (done || apply key_hash_range).
  destruct (probe_assigns n kc len addr empty (hash_of width) m g key ptr Rep Hkey)
    as (r & g1 & m1 & E & A & Rep1).
  unfold hash_of in E at 1. rewrite E. cbn [rbind].
  destruct (Hagg key (option_map ptr r) m1) as [Hl1 Hf1].
  destruct (IH (agg key (option_map ptr r) m1) g1) as (rs & g' & m' & -> & As & Rep').
  { eapply represents_frame; [exact Rep1 | exact Hl1 | exact Hf1]. }
  exists (r :: rs), g', m'. split; [done|]. split; [by econstructor | done].
Qed.

End Run.

(** ** What a query relies on

    [slots] are the slots of the rows, in order, and [key_of s] is the key stored in slot [s]
    at the end. *)
Record Grouping (n : nat) (keys : list (list Z)) (slots : list (option nat))
    (key_of : nat -> list Z) : Prop := {
  grouping_total : length slots = length keys;
  grouping_same : forall i j ki kj si sj,
    keys !! i = Some ki -> keys !! j = Some kj ->
    slots !! i = Some (Some si) -> slots !! j = Some (Some sj) -> (si = sj <-> ki = kj);
  grouping_key : forall i ki si,
    keys !! i = Some ki -> slots !! i = Some (Some si) -> si < n /\ key_of si = ki;
  grouping_enough :
    base.size (list_to_set keys : gset (list Z)) <= n -> None ∉ slots
}.

Lemma assigns_grouping n kc len addr {L : Layout n kc len addr} empty hash keys rs g m :
  assigns n ∅ keys rs g -> represents n kc len addr empty hash m g ->
  Grouping n keys rs (key_at kc addr m).
Proof.
  intros A (_ & _ & R). split.
  - by eapply assigns_lengths.
  - intros. by eapply assigns_groups.
  - intros i ki si Ki Si. pose proof (assigns_results _ _ _ _ _ _ _ _ A Ki Si) as G.
    by apply R in G as (? & _ & ?).
  - intros Hs. eapply assigns_enough; [exact A|]. by rewrite dom_empty_L, (right_id_L ∅ (∪)).
Qed.

(** [C20] The baseline group-by table, row-wise ([get_group_value]), for keys of the right length
    that do not start with the empty-key value: for any sequence of keys, with the aggregates updated in
    between without touching the keys, rows with the same key get the same slot and rows with different
    keys different slots; the slot holds the key; the pointer is the aligned end of the key in the row;
    no row fails while there are no more different keys than slots.  Every access is in the buffer and
    the search ends. *)
Theorem get_group_value_groups (width rsq : Z) (n kc : nat)
    (agg : list Z -> option Z -> mem -> mem) (keys : list (list Z)) (m : mem)
    (rc := Z.to_nat (rsq * cells_per_quad width))
    (Hw : good_width width) (Hn : 0 < n) (Hr : (0 < rsq)%Z) (Hsz : (Z.of_nat n * rsq < 4294967296)%Z)
    (Hk : 0 < kc <= rc) (Hm : length m = n * rc)
    (Hempty : forall s, s < n -> m !!! (s * rc) = get_empty_key width)
    (Hagg : keeps_keys n kc (row_addr rc) agg)
    (Hkeys : Forall (good_key kc (get_empty_key width)) keys) :
  exists slots m',
    group_rows (fun m key => get_group_value m (Z.of_nat n) key width rsq) agg keys m
    = Ok (map (option_map (row_ptr width rc kc)) slots, m') /\
    Grouping n keys slots (key_at kc (row_addr rc) m').
Proof.
  assert (L : Layout n kc (n * rc) (row_addr rc)) by (apply row_layout; lia || nia).
  edestruct (run_groups n kc (n * rc) (row_addr rc) (get_empty_key width) width agg keys m ∅
    (fun m key => get_group_value m (Z.of_nat n) key width rsq)
    (fun key h m => get_matching_group_value m h key width rsq) (row_ptr width rc kc))
    as (rs & g & m' & E & A & Rep); [done | done | done | | |].
  - intros key Hlen. apply row_matcher; done || lia.
  - apply (represents_empty n kc (n * rc) (row_addr rc)); [done|]. intros s Hs. unfold is_empty, row_addr.
    rewrite Nat.add_0_r. apply Z.eqb_eq. by apply Hempty.
  - exists rs, m'. split; [exact E|]. by eapply assigns_grouping.
Qed.

(** Rows of two quads: the key and a counter, which [agg] increments. *)
Definition count_agg (rc : nat) (key : list Z) (p : option Z) (m : mem) : mem :=
  match p with
  | Some a =>
      if decide (Z.to_nat a mod rc = 1) then <[Z.to_nat a := (m !!! Z.to_nat a + 1)%Z]> m else m
  | None => m
  end.

Lemma count_agg_keeps n : keeps_keys n 1 (row_addr 2) (count_agg 2).
Proof.
  intros key [a|] m; [|done]. unfold count_agg. case_decide as E; [|done].
  split; [apply length_insert|]. intros h i Hh Hi. rewrite !list_lookup_total_alt.
  rewrite list_lookup_insert_ne; [done|]. unfold row_addr. intros E'. rewrite E' in E.
  replace (h * 2 + i) with (0 + h * 2) in E by lia. rewrite Nat.Div0.mod_add in E. done.
Qed.

Definition two_groups : mem := [EMPTY_KEY_64; 0; EMPTY_KEY_64; 0]%Z.

Lemma get_group_value_groups_witness :
  exists slots m',
    group_rows (fun m key => get_group_value m (Z.of_nat 2) key 8 2) (count_agg 2)
      [[5]; [7]; [5]; [9]]%Z two_groups
    = Ok (map (option_map (row_ptr 8 (Z.to_nat (2 * cells_per_quad 8)) 1)) slots, m') /\
    Grouping 2 [[5]; [7]; [5]; [9]]%Z slots
      (key_at 1 (row_addr (Z.to_nat (2 * cells_per_quad 8))) m').
Proof.
  apply (get_group_value_groups 8 2 2 1 (count_agg 2) [[5]; [7]; [5]; [9]]%Z two_groups).
  - by right.
  - lia.
  - lia.
  - lia.
  - vm_compute. lia.
  - done.
  - intros [|[|s]] Hs; [done | done | lia].
  - apply count_agg_keeps.
  - repeat constructor; done.
Defined.

(** ** Row-wise and columnar tables agree *)

Lemma find_slot_ext n kc len len' addr addr' {L : Layout n kc len addr} {L' : Layout n kc len' addr'}
    empty m m' key h :
  (forall s, s < n -> is_empty addr empty m s = is_empty addr' empty m' s /\
                      (is_empty addr empty m s = false -> key_at kc addr m s = key_at kc addr' m' s)) ->
  find_slot n kc addr empty m key h = find_slot n kc addr' empty m' key h.
Proof.
  intros Hs. unfold find_slot.
  assert (Ha : forall s, s ∈ order n h -> accepts kc addr empty m key s = accepts kc addr' empty m' key s).
  { intros s Hin. apply (order_lt n kc len addr) in Hin. unfold accepts.
    destruct (Hs s Hin) as [E K]. rewrite <- E. destruct (is_empty addr empty m s); [done|].
    simpl. by rewrite K. }
  induction (order n h) as [|s l IH]; [done|]. simpl.
  rewrite Ha by (apply elem_of_cons; auto). destruct (accepts _ _ _ _ _ _); [done|].
  apply IH. intros x Hx. apply Ha. apply elem_of_cons. auto.
Qed.

(** Two tables hold the same keys in the same slots. *)
Definition same_table (n kc : nat) (addr addr' : nat -> nat -> nat) (empty : Z) (m m' : mem) : Prop :=
  forall s, s < n -> is_empty addr empty m s = is_empty addr' empty m' s /\
                     (is_empty addr empty m s = false -> key_at kc addr m s = key_at kc addr' m' s).

Lemma same_table_step n kc len len' addr addr' {L : Layout n kc len addr} {L' : Layout n kc len' addr'}
    empty m m' key ptr ptr' h :
  length m = len -> length m' = len' -> good_key kc empty key ->
  same_table n kc addr addr' empty m m' ->
  let r := find_slot n kc addr empty m key h in
  find_slot n kc addr' empty m' key h = r /\
  same_table n kc addr addr' empty (snd (outcome addr empty m key ptr r))
    (snd (outcome addr' empty m' key ptr' r)).
Proof.
  intros Hl Hl' [Hk Hne] Hs r.
  assert (Ef : find_slot n kc addr' empty m' key h = r)
    by (symmetry; by apply (find_slot_ext n kc len len')).
  split; [exact Ef|]. destruct r as [s|] eqn:Er; [|exact Hs]. simpl.
  destruct (find_slot_lt n kc len addr empty _ _ _ _ Er) as [Hsn _].
  destruct (Hs s Hsn) as [Ee _]. rewrite <- Ee.
  destruct (is_empty addr empty m s) eqn:E; [|exact Hs].
  intros x Hx. destruct (decide (x = s)) as [->|Hxs].
  - rewrite (is_empty_write_eq n kc len addr), (is_empty_write_eq n kc len' addr') by done.
    rewrite (key_at_write_eq n kc len addr), (key_at_write_eq n kc len' addr') by done. done.
  - rewrite (is_empty_write_ne n kc len addr), (is_empty_write_ne n kc len' addr') by done.
    rewrite (key_at_write_ne n kc len addr), (key_at_write_ne n kc len' addr') by done. by apply Hs.
Qed.

Definition no_agg (key : list Z) (p : option Z) (m : mem) : mem := m.

Lemma outcome_length n kc len addr {L : Layout n kc len addr} empty m key ptr r :
  length (snd (outcome addr empty m key ptr r)) = length m.
Proof.
  destruct r as [s|]; [|done]. simpl. destruct (is_empty addr empty m s); [|done].
  apply write_from_length.
Qed.

(** The layout does not matter: on the same keys, a row-wise table ([get_group_value]) and a
    columnar one ([get_group_value_columnar_slot]) with the same number of empty slots give every
    row the same slot, and run out of slots at the same rows. *)
Theorem columnar_equals_rowwise (width rsq : Z) (n kc : nat) (keys : list (list Z)) (m m' : mem)
    (rc := Z.to_nat (rsq * cells_per_quad width))
    (Hw : good_width width) (Hn : 0 < n) (Hn31 : (Z.of_nat n <= 2147483648)%Z)
    (Hr : (0 < rsq)%Z) (Hsz : (Z.of_nat n * rsq < 4294967296)%Z)
    (Hcol : (Z.of_nat ((kc + 1) * n) <= 4294967296)%Z)
    (Hk : 0 < kc <= rc) (Hm : length m = n * rc) (Hm' : length m' = kc * n)
    (Hempty : forall s, s < n -> m !!! (s * rc) = get_empty_key width)
    (Hempty' : forall s, s < n -> m' !!! s = get_empty_key width)
    (Hkeys : Forall (good_key kc (get_empty_key width)) keys) :
  exists slots mr mc,
    group_rows (fun m key => get_group_value m (Z.of_nat n) key width rsq) no_agg keys m
    = Ok (map (option_map (row_ptr width rc kc)) slots, mr) /\
    group_rows (fun m key => get_group_value_columnar_slot m (Z.of_nat n) key width) no_agg keys m'
    = Ok (map (option_map Z.of_nat) slots, mc).
Proof.
  assert (L : Layout n kc (n * rc) (row_addr rc)) by (apply row_layout; lia || nia).
  assert (L' : Layout n kc (kc * n) (col_addr n)) by (apply col_layout; lia || nia).
  assert (Same : same_table n kc (row_addr rc) (col_addr n) (get_empty_key width) m m').
  { intros s Hs. unfold is_empty, row_addr, col_addr. rewrite Nat.add_0_r. simpl.
    by rewrite Hempty, Hempty', Z.eqb_refl. }
  clear Hempty Hempty'. revert m m' Hm Hm' Same.
  induction Hkeys as [|key keys Hkey Hkeys IH]; intros m m' Hm Hm' Same; [by exists [], m, m'|].
  pose proof Hkey as [Hlen _]. simpl.
  pose proof (row_matcher n kc (n * rc) width rsq key Hw Hr Hsz ltac:(lia) ltac:(lia) Hlen ltac:(lia)) as M.
  pose proof (col_matcher_slot n kc (kc * n) width key Hw Hn31 Hcol ltac:(lia) Hlen ltac:(lia)) as M'.
  pose proof (probe_find n kc (n * rc) (row_addr rc) (get_empty_key width) _ key
    (row_ptr width rc kc) m (key_hash key width) Hm (proj1 (key_hash_range key width))) as P.
  pose proof (probe_find n kc (kc * n) (col_addr n) (get_empty_key width) _ key
    Z.of_nat m' (key_hash key width) Hm' (proj1 (key_hash_range key width))) as P'.
  fold (get_group_value m (Z.of_nat n) key width rsq) in P.
  fold (get_group_value_columnar_slot m' (Z.of_nat n) key width) in P'. rewrite P, P'. clear P P'.
  fold (hash_of width key). set (h := hash_of width key mod n).
  destruct (same_table_step n kc (n * rc) (kc * n) (row_addr rc) (col_addr n) (get_empty_key width)
    m m' key (row_ptr width rc kc) Z.of_nat h Hm Hm' Hkey Same) as [-> Same'].
  set (r := find_slot n kc (row_addr rc) (get_empty_key width) m key h) in *.
  clearbody r. pose proof (outcome_length n kc _ (row_addr rc) (get_empty_key width) m key (row_ptr width rc kc) r) as O.
  pose proof (outcome_length n kc _ (col_addr n) (get_empty_key width) m' key Z.of_nat r) as O'.
  destruct (outcome (row_addr rc) _ m key _ r) as [p m1] eqn:E1.
  destruct (outcome (col_addr n) _ m' key _ r) as [p' m1'] eqn:E2. cbn [rbind snd] in *.
  change (no_agg key p m1) with m1. change (no_agg key p' m1') with m1'.
  destruct (IH m1 m1') as (rs & mr & mc & -> & ->); [congruence | congruence | done |].
  exists (r :: rs), mr, mc. simpl.
  assert (p = option_map (row_ptr width rc kc) r) as -> by (destruct r; by injection E1 as <- <-).
  assert (p' = option_map Z.of_nat r) as -> by (destruct r; by injection E2 as <- <-). done.
Qed.

Lemma columnar_equals_rowwise_witness :
  exists slots mr mc,
    group_rows (fun m key => get_group_value m (Z.of_nat 2) key 8 2) no_agg
      [[5]; [7]; [5]; [9]]%Z two_groups
    = Ok (map (option_map (row_ptr 8 (Z.to_nat (2 * cells_per_quad 8)) 1)) slots, mr) /\
    group_rows (fun m key => get_group_value_columnar_slot m (Z.of_nat 2) key 8) no_agg
      [[5]; [7]; [5]; [9]]%Z [EMPTY_KEY_64; EMPTY_KEY_64]
    = Ok (map (option_map Z.of_nat) slots, mc).
Proof.
  apply (columnar_equals_rowwise 8 2 2 1 [[5]; [7]; [5]; [9]]%Z two_groups [EMPTY_KEY_64; EMPTY_KEY_64]).
  - by right.
  - lia.
  - lia.
  - lia.
  - lia.
  - lia.
  - vm_compute. lia.
  - done.
  - done.
  - intros [|[|s]] Hs; [done | done | lia].
  - intros [|[|s]] Hs; [done | done | lia].
  - repeat constructor; done.
Defined.

(** * Group-by tables under a watchdog

    The variants that ask [dynamic_watchdog] every hundred probes. *)

Section Watchdog.

Context (n kc len : nat) (addr : nat -> nat -> nat) {L : Layout n kc len addr} (empty : Z).
Context (at_slot : Z -> mem -> probe_result) (key : list Z) (ptr : nat -> Z).
Context {M : SlotMatcher n kc len addr empty at_slot key ptr}.
Context (watchdog : nat -> bool).

(** A loop under a watchdog that does not fire is the loop; one that fires gives up and has
    changed nothing. *)
Lemma watchdog_loop m h :
  h < n -> length m = len ->
  forall fuel k calls countdown, 1 <= k <= n -> n - k <= fuel -> (0 <= countdown < 4294967296)%Z ->
  let slot := Z.of_nat ((h + k) mod n) in
  let r := probe_loop_with_watchdog fuel watchdog calls countdown at_slot (Z.of_nat n) (Z.of_nat h) slot m in
  r = probe_loop fuel at_slot (Z.of_nat n) (Z.of_nat h) slot m \/
  (r = Ok (None, m) /\ exists c, watchdog c = true).
Proof.
  intros Hh Hm. cbv zeta. induction fuel as [|fuel IH]; intros k calls cd Hk Hf Hcd; simpl;
    destruct (Z.eqb_spec (Z.of_nat ((h + k) mod n)) (Z.of_nat h)) as [E|E]; auto.
  pose proof n_range as [Hn _].
  assert (Hkn : k < n).
  { destruct (decide (k = n)) as [->|]; [|lia]. exfalso. apply E. f_equal.
    apply (slot_returns n); lia. }
  rewrite (at_slot_spec n kc len addr empty) by (done || apply Nat.mod_upper_bound; lia).
  rewrite slot_step_outcome. destruct (accepts kc addr empty m key ((h + k) mod n)); simpl; [auto|].
  rewrite (next_slot n kc len addr) by done.
  destruct (u32 (cd - 1) =? 0)%Z; [destruct (watchdog calls) eqn:Ew|].
  - right. eauto.
  - apply IH; lia.
  - pose proof (u32_range (cd - 1)). apply IH; lia.
Qed.

Lemma watchdog_probe m hash :
  length m = len -> (0 <= hash)%Z ->
  let r := probe_with_watchdog watchdog at_slot (Z.of_nat n) hash m in
  r = probe at_slot (Z.of_nat n) hash m \/ (r = Ok (None, m) /\ exists c, watchdog c = true).
Proof.
  intros Hm Hh. pose proof n_range as [Hn _]. cbv zeta. unfold probe_with_watchdog, probe.
  destruct (Z.eqb_spec (Z.of_nat n) 0) as [|_]; [auto|].
  replace (hash mod Z.of_nat n)%Z with (Z.of_nat (Z.to_nat hash mod n))
    by (rewrite Nat2Z.inj_mod, Z2Nat.id by lia; done).
  set (h := Z.to_nat hash mod n). assert (Hlt : h < n) by (apply Nat.mod_upper_bound; lia).
  rewrite (at_slot_spec n kc len addr empty) by done. rewrite slot_step_outcome.
  destruct (accepts kc addr empty m key h); simpl; [auto|].
  replace (Z.of_nat h + 1)%Z with (Z.of_nat ((h + 0) mod n) + 1)%Z
    by (rewrite Nat.add_0_r, Nat.mod_small; done).
  rewrite (next_slot n kc len addr) by done. apply watchdog_loop; done || lia.
Qed.

End Watchdog.

(** [get_group_value_with_watchdog] does what [get_group_value] does, unless a call of the
    watchdog answers that the query was interrupted: then it returns no group and leaves the
    buffer as it was. *)
Theorem watchdog_equivalence (watchdog : nat -> bool) (width rsq : Z) (n kc : nat) (key : list Z)
    (m : mem) (rc := Z.to_nat (rsq * cells_per_quad width))
    (Hw : good_width width) (Hn : 0 < n) (Hr : (0 < rsq)%Z) (Hsz : (Z.of_nat n * rsq < 4294967296)%Z)
    (Hk : 0 < kc <= rc) (Hm : length m = n * rc) (Hlen : length key = kc) :
  let r := get_group_value_with_watchdog watchdog m (Z.of_nat n) key width rsq in
  r = get_group_value m (Z.of_nat n) key width rsq \/
  (r = Ok (None, m) /\ exists c, watchdog c = true).
Proof.
  assert (L : Layout n kc (n * rc) (row_addr rc)) by (apply row_layout; lia || nia).
  assert (M : SlotMatcher n kc (n * rc) (row_addr rc) (get_empty_key width)
    (fun h m => get_matching_group_value m h key width rsq) key (row_ptr width rc kc))
    by (apply row_matcher; done || lia).
  apply (watchdog_probe n kc (n * rc) (row_addr rc) (get_empty_key width) _ key
    (row_ptr width rc kc)); [done | apply key_hash_range].
Qed.

Lemma watchdog_equivalence_witness :
  let r := get_group_value_with_watchdog (fun _ => true) two_groups (Z.of_nat 2) [5]%Z 8 2 in
  r = get_group_value two_groups (Z.of_nat 2) [5]%Z 8 2 \/
  (r = Ok (None, two_groups) /\ exists c, (fun _ : nat => true) c = true).
Proof.
  apply (watchdog_equivalence (fun _ => true) 8 2 2 1 [5]%Z two_groups).
  - by right.
  - lia.
  - lia.
  - lia.
  - vm_compute. lia.
  - done.
  - done.
Defined.

(** ** The reserved key

    A group whose key is the largest 64-bit integer is stored, but its slot stays empty: the next
    key that reaches the slot takes it, and the two groups share their aggregates. *)
Lemma reserved_key_shares_slot :
  exists m1 m2,
    get_group_value [EMPTY_KEY_64; 0]%Z 1 [INT64_MAX] 8 2 = Ok (Some 1%Z, m1) /\
    get_group_value m1 1 [42]%Z 8 2 = Ok (Some 1%Z, m2) /\ m2 = [42; 0]%Z.
Proof. vm_compute. eauto. Qed.
