(* ===== verification/PerfectHash.v ===== *)
(** * Perfect hashing in group-by

    When the range of a key is known, its row is computed from the key: the difference to the
    smallest key, divided by the width of a bucket if there is one. *)

From Stdlib Require Import ZArith Lia List Bool.
From stdpp Require Import base list numbers.
From S2P Require Import Prelude GroupByRuntime GroupByTable GroupByLayouts.
Import ListNotations.
Local Open Scope Z_scope.
Local Open Scope hdk_scope.

(** The bucket of a key; a bucket of width 0 stands for 1. *)
Definition bucket_of (min_key bucket key : Z) : Z := (key - min_key) / Z.max 1 bucket.

(** The number of buckets of the keys from [min_key] to [max_key]. *)
Definition bucket_count (min_key max_key bucket : Z) : Z := bucket_of min_key bucket max_key + 1.

Section Range.

Context (min_key max_key bucket : Z).
Context (Hfit : 0 <= max_key - min_key <= INT64_MAX) (Hb : 0 <= bucket).

Lemma key_bin_spec key :
  min_key <= key <= max_key ->
  key_bin key min_key bucket = bucket_of min_key bucket key /\
  0 <= bucket_of min_key bucket key < bucket_count min_key max_key bucket.
Proof.
  intros Hk. unfold INT64_MAX in Hfit. unfold key_bin, bucket_count, bucket_of.
  rewrite s64_small by lia. split.
  - destruct (Z.eqb_spec bucket 0) as [->|].
    + by rewrite Z.div_1_r.
    + rewrite Z.quot_div_nonneg by lia. f_equal. lia.
  - split; [apply Z.div_pos; lia|].
    enough ((key - min_key) / Z.max 1 bucket <= (max_key - min_key) / Z.max 1 bucket) by lia.
    apply Z.div_le_mono; lia.
Qed.

(** The address of the key of a row. *)
Definition fast_addr (row_size_quad key : Z) : nat :=
  Z.to_nat (bucket_of min_key bucket key * row_size_quad).

Lemma get_group_value_fast_spec m key row_size_quad :
  0 < row_size_quad -> bucket_count min_key max_key bucket * row_size_quad <= Z.of_nat (length m) ->
  Z.of_nat (length m) <= INT64_MAX -> min_key <= key <= max_key ->
  get_group_value_fast m key min_key bucket row_size_quad
  = Ok (Some (bucket_of min_key bucket key * row_size_quad + 1),
        let a := fast_addr row_size_quad key in
        if m !!! a =? EMPTY_KEY_64 then <[a := key]> m else m).
Proof.
  intros Hr Hl Hlen Hk. unfold get_group_value_fast, store_if_empty.
  destruct (key_bin_spec key Hk) as [-> B].
  set (b := bucket_of min_key bucket key) in *. unfold INT64_MAX in Hlen.
  assert (Hoff : 0 <= b * row_size_quad < Z.of_nat (length m)) by nia.
  rewrite s64_small by lia.
  replace (b * row_size_quad) with (Z.of_nat (fast_addr row_size_quad key))
    by (unfold fast_addr; fold b; lia).
  assert (Ha : (fast_addr row_size_quad key < length m)%nat) by (unfold fast_addr; fold b; lia).
  rewrite load_at by done. cbn [rbind].
  destruct (m !!! fast_addr row_size_quad key =? EMPTY_KEY_64); [|done].
  by rewrite store_at.
Qed.

End Range.

(** [C40] Perfect hashing ([get_group_value_fast]): for keys in the known range every access is in
    a buffer with a row per bucket; two keys get the same row exactly when they are in the same
    bucket, and without buckets exactly when they are equal; the first key of a row is stored in
    it and a later one leaves the buffer as it was. *)
Theorem get_group_value_fast_buckets (min_key max_key bucket row_size_quad : Z) (m : mem) (k1 k2 : Z)
    (Hfit : 0 <= max_key - min_key <= INT64_MAX) (Hb : 0 <= bucket) (Hr : 0 < row_size_quad)
    (Hsize : bucket_count min_key max_key bucket * row_size_quad <= Z.of_nat (length m))
    (Hlen : Z.of_nat (length m) <= INT64_MAX)
    (H1 : min_key <= k1 <= max_key) (H2 : min_key <= k2 <= max_key)
    (Hne : k1 <> EMPTY_KEY_64) (Hfree : m !!! fast_addr min_key bucket row_size_quad k1 = EMPTY_KEY_64) :
  exists p1 p2 m1 m2,
    get_group_value_fast m k1 min_key bucket row_size_quad = Ok (Some p1, m1) /\
    get_group_value_fast m1 k2 min_key bucket row_size_quad = Ok (Some p2, m2) /\
    m1 = <[Z.to_nat (p1 - 1) := k1]> m /\
    (p1 = p2 <-> (k1 - min_key) / Z.max 1 bucket = (k2 - min_key) / Z.max 1 bucket) /\
    (p1 = p2 -> m2 = m1) /\
    (bucket <= 1 -> (p1 = p2 <-> k1 = k2)).
Proof.
  set (b1 := bucket_of min_key bucket k1). set (b2 := bucket_of min_key bucket k2).
  destruct (key_bin_spec min_key max_key bucket Hfit Hb k1 H1) as [_ B1].
  destruct (key_bin_spec min_key max_key bucket Hfit Hb k2 H2) as [_ B2]. fold b1 in B1. fold b2 in B2.
  exists (b1 * row_size_quad + 1), (b2 * row_size_quad + 1). eexists _, _.
  rewrite (get_group_value_fast_spec min_key max_key) by done. cbv zeta.
  rewrite Hfree, Z.eqb_refl. split; [done|].
  rewrite (get_group_value_fast_spec min_key max_key) by (rewrite ?length_insert; done). cbv zeta.
  split; [done|].
  assert (Eq : b1 * row_size_quad + 1 = b2 * row_size_quad + 1 <-> b1 = b2) by (split; nia).
  split; [unfold fast_addr; fold b1; by rewrite Z.add_simpl_r|].
  split; [exact Eq|]. split.
  - intros E%Eq. assert (Ea : fast_addr min_key bucket row_size_quad k2
      = fast_addr min_key bucket row_size_quad k1) by (unfold fast_addr; fold b1 b2; by rewrite E).
    rewrite Ea, list_lookup_total_insert_eq.
    + by destruct (Z.eqb_spec k1 EMPTY_KEY_64).
    + unfold fast_addr. fold b1. nia.
  - intros Hb1. rewrite Eq. unfold b1, b2, bucket_of. replace (Z.max 1 bucket) with 1 by lia.
    rewrite !Z.div_1_r. lia.
Qed.

Definition ten_days : mem := repeat EMPTY_KEY_64 6.

Lemma get_group_value_fast_buckets_witness :
  exists p1 p2 m1 m2,
    get_group_value_fast ten_days 86400 0 86400 2 = Ok (Some p1, m1) /\
    get_group_value_fast m1 86500 0 86400 2 = Ok (Some p2, m2) /\
    m1 = <[Z.to_nat (p1 - 1) := 86400]> ten_days /\
    (p1 = p2 <-> (86400 - 0) / Z.max 1 86400 = (86500 - 0) / Z.max 1 86400) /\
    (p1 = p2 -> m2 = m1) /\
    (86400 <= 1 -> (p1 = p2 <-> 86400 = 86500)).
Proof.
  apply (get_group_value_fast_buckets 0 200000 86400 2 ten_days 86400 86500);
    try (unfold INT64_MAX, EMPTY_KEY_64; cbn; lia); done.
Defined.
