(* ===== verification/JoinColumn.v ===== *)
(** * Column decoders ([QueryEngine/DecodersImpl.h])

    The values of a column of fixed width, read from the bytes of its chunk.  A byte is an
    integer from 0 to 255; an access past the end of the chunk is an error. *)

From Stdlib Require Import ZArith Lia List Bool.
From stdpp Require Import base list numbers sets.
From S2P Require Import Prelude MurmurHash.
Import ListNotations.
Local Open Scope Z_scope.
Local Open Scope hdk_scope.

Inductive DecodeError := DecodeOut | DecodeCheck.

(** The little-endian number that bytes stand for. *)
Fixpoint of_le_bytes (bs : list Z) : Z :=
  match bs with
  | [] => 0
  | b :: bs' => b + 256 * of_le_bytes bs'
  end.

(** [*reinterpret_cast<const uintN_t*>(&byte_stream[pos * byte_width])]. *)
Definition read_le (byte_stream : list Z) (byte_width pos : nat) : result DecodeError Z :=
  if (pos * byte_width + byte_width <=? length byte_stream)%nat
  then Ok (of_le_bytes (take byte_width (drop (pos * byte_width) byte_stream)))
  else Err DecodeOut.

Definition known_byte_width (byte_width : nat) : bool :=
  match byte_width with 1%nat | 2%nat | 4%nat | 8%nat => true | _ => false end.

Definition fixed_width_int_decode (byte_stream : list Z) (byte_width pos : nat)
    : result DecodeError Z :=
  if known_byte_width byte_width then
    let* v := read_le byte_stream byte_width pos in Ok (swrap (8 * Z.of_nat byte_width) v)
  else Ok (INT64_MIN + 1).

(** An unsigned 64-bit value is returned as a signed one. *)
Definition fixed_width_unsigned_decode (byte_stream : list Z) (byte_width pos : nat)
    : result DecodeError Z :=
  if known_byte_width byte_width then
    let* v := read_le byte_stream byte_width pos in Ok (s64 v)
  else Ok (INT64_MIN + 1).

Definition diff_fixed_width_int_decode (byte_stream : list Z) (byte_width : nat) (baseline : Z)
    (pos : nat) : result DecodeError Z :=
  let* v := fixed_width_int_decode byte_stream byte_width pos in Ok (s64 (v + baseline)).

Definition fixed_width_small_date_decode (byte_stream : list Z) (byte_width : nat)
    (null_val ret_null_val : Z) (pos : nat) : result DecodeError Z :=
  let* val := fixed_width_int_decode byte_stream byte_width pos in
  Ok (if val =? null_val then ret_null_val else s64 (val * 86400)).

(** ** What was written is read *)

Lemma of_le_bytes_le w v : of_le_bytes (le_bytes w v) = v mod 256 ^ Z.of_nat w.
Proof.
  revert v. induction w as [|w IH]; intros v; [cbn; by rewrite Z.mod_1_r|].
  cbn [le_bytes of_le_bytes]. rewrite IH.
  change 255 with (Z.ones 8). rewrite Z.land_ones, Z.shiftr_div_pow2 by lia.
  change (2 ^ 8) with 256. rewrite Nat2Z.inj_succ, Z.pow_succ_r, Z.rem_mul_r by lia. lia.
Qed.

Lemma le_bytes_length w v : length (le_bytes w v) = w.
Proof. revert v. induction w as [|w IH]; intros v; cbn; [done|]. by rewrite IH. Qed.

(** The bytes of a column. *)
Definition encode_column (w : nat) (vs : list Z) : list Z := concat (map (le_bytes w) vs).

Lemma encode_column_length w vs : length (encode_column w vs) = (length vs * w)%nat.
Proof.
  unfold encode_column. induction vs as [|v vs IH]; [done|].
  cbn. rewrite length_app, IH, le_bytes_length. done.
Qed.

Lemma encode_column_slice w vs i v :
  vs !! i = Some v -> take w (drop (i * w) (encode_column w vs)) = le_bytes w v.
Proof.
  revert i. induction vs as [|x vs IH]; intros i Hi; [done|].
  assert (E : encode_column w (x :: vs) = le_bytes w x ++ encode_column w vs) by done.
  rewrite E. destruct i as [|i]; simpl in Hi.
  - injection Hi as ->. rewrite drop_0, take_app_le, take_ge by (rewrite le_bytes_length; lia). done.
  - rewrite drop_app_ge by (rewrite le_bytes_length; lia). rewrite le_bytes_length.
    replace (S i * w - w)%nat with (i * w)%nat by lia. by apply IH.
Qed.

Lemma read_le_encoded w vs i v :
  vs !! i = Some v -> read_le (encode_column w vs) w i = Ok (v mod 256 ^ Z.of_nat w).
Proof.
  intros Hi. unfold read_le. apply lookup_lt_Some in Hi as Hl.
  destruct (Nat.leb_spec (i * w + w) (length (encode_column w vs))) as [_|L].
  - by rewrite (encode_column_slice w vs i v Hi), of_le_bytes_le.
  - rewrite encode_column_length in L. nia.
Qed.

(** A signed value in the range of its width is read back, and an unsigned one. *)
Lemma fixed_width_int_decode_encoded w vs i v :
  known_byte_width w = true -> vs !! i = Some v ->
  - 2 ^ (8 * Z.of_nat w - 1) <= v < 2 ^ (8 * Z.of_nat w - 1) ->
  fixed_width_int_decode (encode_column w vs) w i = Ok v.
Proof.
  intros Hw Hi Hv. unfold fixed_width_int_decode. rewrite Hw, (read_le_encoded w vs i v Hi).
  cbn [rbind]. f_equal. assert (Hpos : (0 < w)%nat) by (destruct w; [discriminate | lia]).
  assert (E : 256 ^ Z.of_nat w = 2 ^ (8 * Z.of_nat w)) by (rewrite Z.pow_mul_r by lia; done).
  rewrite E. transitivity (swrap (8 * Z.of_nat w) v); [|apply swrap_small; lia].
  unfold swrap. f_equal. rewrite Z.add_mod_idemp_l by lia. done.
Qed.

Lemma fixed_width_unsigned_decode_encoded w vs i v :
  known_byte_width w = true -> vs !! i = Some v -> 0 <= v < 2 ^ (8 * Z.of_nat w) -> v <= INT64_MAX ->
  fixed_width_unsigned_decode (encode_column w vs) w i = Ok v.
Proof.
  intros Hw Hi Hv Hm. unfold fixed_width_unsigned_decode. rewrite Hw, (read_le_encoded w vs i v Hi).
  cbn [rbind]. f_equal.
  assert (E : 256 ^ Z.of_nat w = 2 ^ (8 * Z.of_nat w)) by (rewrite Z.pow_mul_r by lia; done).
  rewrite E, Z.mod_small by lia. unfold INT64_MAX in Hm. apply s64_small. lia.
Qed.

(** * Columns of a join ([JoinHashTable/Runtime/JoinColumnIterator.h])

    The rows of the inner column of a join lie in several chunks.  A thread of [T] threads visits
    the rows [t], [t + T], [t + 2T], ...: [slice t T].  The theorems at the end say that a slice
    has exactly these rows, however the rows are cut into chunks, and that the slices of all
    threads have every row once. *)

Local Open Scope nat_scope.

Inductive ColumnType := SmallDate | Signed | Unsigned | Double.

Record JoinChunk := mkJoinChunk {
  col_buff : option (list Z);     (* a null pointer is [None] *)
  chunk_elems : nat
}.

Record JoinColumn := mkJoinColumn {
  join_chunk_array : list JoinChunk;
  num_elems : nat
}.

Record JoinColumnTypeInfo := mkJoinColumnTypeInfo {
  elem_sz : nat;
  min_val : Z;
  max_val : Z;
  null_val : Z;
  uses_bw_eq : bool;
  translated_null_val : Z;
  column_type : ColumnType
}.

(** [JOut] is an access out of range, [JCheck] a failed [CHECK], [JLoop] a loop cut short. *)
Inductive JoinError := JOut | JCheck | JLoop.

Definition NULL_INT : Z := INT32_MIN.
Definition NULL_SMALLINT : Z := -32768.

(** ** The iterator *)

Record JoinColumnIterator := mkIterator {
  chunk_data : option (list Z);
  index_of_chunk : nat;
  index_inside_chunk : nat;
  index : nat
}.

Definition decode_result (r : result DecodeError Z) : result JoinError Z :=
  match r with Ok v => Ok v | Err _ => Err JOut end.

(** A [Double] column is decoded as floating point and is not modelled. *)
Definition getElementSwitch (type_info : JoinColumnTypeInfo) (data : list Z) (inside : nat)
    : result JoinError Z :=
  match column_type type_info with
  | SmallDate =>
      let null := if elem_sz type_info =? 4 then NULL_INT else NULL_SMALLINT in
      decode_result (fixed_width_small_date_decode data (elem_sz type_info) null null inside)
  | Signed => decode_result (fixed_width_int_decode data (elem_sz type_info) inside)
  | Unsigned => decode_result (fixed_width_unsigned_decode data (elem_sz type_info) inside)
  | Double => Err JCheck
  end.

(** The loop of [operator++]: on to the chunk that has the row. *)
Fixpoint seek (fuel : nat) (join_column : JoinColumn) (it : JoinColumnIterator)
    : result JoinError JoinColumnIterator :=
  match chunk_data it with
  | None => Ok it
  | Some _ =>
      match join_chunk_array join_column !! index_of_chunk it with
      | None => Err JOut
      | Some chunk =>
          if index_inside_chunk it <? chunk_elems chunk then Ok it
          else
            match fuel with
            | O => Err JLoop
            | S fuel' =>
                let next := S (index_of_chunk it) in
                seek fuel' join_column
                  (mkIterator
                     (match join_chunk_array join_column !! next with
                      | Some chunk' => col_buff chunk'
                      | None => None
                      end)
                     next (index_inside_chunk it - chunk_elems chunk) (index it))
            end
      end
  end.

Definition iterator_next (join_column : JoinColumn) (step : nat) (it : JoinColumnIterator)
    : result JoinError JoinColumnIterator :=
  seek (length (join_chunk_array join_column)) join_column
    (mkIterator (chunk_data it) (index_of_chunk it) (index_inside_chunk it + step) (index it + step)).

(** The constructor: a [operator++] by [start]. *)
Definition iterator_new (join_column : JoinColumn) (start : nat) : result JoinError JoinColumnIterator :=
  let data :=
    if 0 <? num_elems join_column then
      match join_chunk_array join_column with chunk :: _ => col_buff chunk | [] => None end
    else None in
  iterator_next join_column start (mkIterator data 0 0 0).

(** The items of [col.slice(start, step)]: the loop of the callers. *)
Fixpoint slice_loop (fuel : nat) (join_column : JoinColumn) (type_info : JoinColumnTypeInfo)
    (step : nat) (it : JoinColumnIterator) : result JoinError (list (nat * Z)) :=
  match chunk_data it with
  | None => Ok []
  | Some data =>
      match fuel with
      | O => Err JLoop
      | S fuel' =>
          let* element := getElementSwitch type_info data (index_inside_chunk it) in
          let* it' := iterator_next join_column step it in
          let* items := slice_loop fuel' join_column type_info step it' in
          Ok ((index it, element) :: items)
      end
  end.

Definition slice (join_column : JoinColumn) (type_info : JoinColumnTypeInfo) (start step : nat)
    : result JoinError (list (nat * Z)) :=
  let* it := iterator_new join_column start in
  slice_loop (num_elems join_column) join_column type_info step it.

(** ** What a column stands for

    [column_holds jc ti es]: the chunks hold the elements [es], one after the other. *)

Definition chunk_holds (ti : JoinColumnTypeInfo) (chunk : JoinChunk) (es : list Z) : Prop :=
  chunk_elems chunk = length es /\
  exists data, col_buff chunk = Some data /\
    forall i e, es !! i = Some e -> getElementSwitch ti data i = Ok e.

Definition column_holds (jc : JoinColumn) (ti : JoinColumnTypeInfo) (ess : list (list Z)) : Prop :=
  Forall2 (chunk_holds ti) (join_chunk_array jc) ess /\ num_elems jc = length (concat ess).

(** The rows from [i] on, [step] apart. *)
Fixpoint strided (fuel i step total : nat) : list nat :=
  match fuel with
  | O => []
  | S fuel' => if i <? total then i :: strided fuel' (i + step) step total else []
  end.

Section Iterator.

Context (jc : JoinColumn) (ti : JoinColumnTypeInfo) (ess : list (list Z)).
Context (Hc : column_holds jc ti ess).

Definition before (c : nat) : nat := length (concat (take c ess)).

(** The iterator is at row [index it], or past the end. *)
Definition at_row (it : JoinColumnIterator) : Prop :=
  match chunk_data it with
  | Some data =>
      exists chunk es, join_chunk_array jc !! index_of_chunk it = Some chunk /\
        ess !! index_of_chunk it = Some es /\ col_buff chunk = Some data /\
        index it = before (index_of_chunk it) + index_inside_chunk it /\
        index_inside_chunk it < length es
  | None => num_elems jc <= index it
  end.

Lemma before_S c es : ess !! c = Some es -> before (S c) = before c + length es.
Proof.
  intros H. unfold before. rewrite (take_S_r _ _ _ H), concat_app, length_app. simpl.
  by rewrite app_nil_r.
Qed.

Lemma before_all c : length ess <= c -> before c = num_elems jc.
Proof. intros H. unfold before. rewrite take_ge by done. destruct Hc as [_ ->]. done. Qed.

Lemma chunk_at c chunk :
  join_chunk_array jc !! c = Some chunk ->
  exists es data, ess !! c = Some es /\ chunk_elems chunk = length es /\ col_buff chunk = Some data /\
    forall i e, es !! i = Some e -> getElementSwitch ti data i = Ok e.
Proof.
  intros H. destruct Hc as [F _]. destruct (Forall2_lookup_l _ _ _ _ _ F H) as (es & Hes & El & data & D & G).
  eauto 10.
Qed.

Lemma seek_spec fuel it :
  length (join_chunk_array jc) - index_of_chunk it <= fuel ->
  index it = before (index_of_chunk it) + index_inside_chunk it ->
  match chunk_data it with
  | Some data => exists chunk, join_chunk_array jc !! index_of_chunk it = Some chunk /\ col_buff chunk = Some data
  | None => length (join_chunk_array jc) <= index_of_chunk it
  end ->
  exists it', seek fuel jc it = Ok it' /\ at_row it' /\ index it' = index it.
Proof.
  assert (Hlen : length (join_chunk_array jc) = length ess) by (eapply Forall2_length, Hc).
  revert it. induction fuel as [|fuel IH]; intros it Hf Hi Hd; simpl;
    (destruct (chunk_data it) as [data|] eqn:Ed;
     [|exists it; split; [done|]; split; [|done]; unfold at_row; rewrite Ed, Hi, before_all by lia; lia]).
  - destruct Hd as (chunk & E & _). apply lookup_lt_Some in E. lia.
  - destruct Hd as (chunk & E & B). rewrite E.
    destruct (chunk_at _ _ E) as (es & data' & Ees & El & B' & _).
    destruct (Nat.ltb_spec (index_inside_chunk it) (chunk_elems chunk)) as [L|L].
    + exists it. split; [done|]. split; [|done]. unfold at_row. rewrite Ed.
      exists chunk, es. repeat split; auto; lia.
    + pose proof (before_S _ _ Ees) as Bs.
      destruct (IH (mkIterator
        (match join_chunk_array jc !! S (index_of_chunk it) with
         | Some chunk' => col_buff chunk' | None => None end)
        (S (index_of_chunk it)) (index_inside_chunk it - chunk_elems chunk) (index it)))
        as (it' & Es & R & I); simpl; [lia|lia| |].
      * destruct (join_chunk_array jc !! S (index_of_chunk it)) as [c'|] eqn:E';
          [|by apply lookup_ge_None in E'].
        destruct (chunk_at _ _ E') as (_ & d' & _ & _ & B2 & _). rewrite B2. eauto.
      * eauto.
Qed.

Lemma iterator_next_spec step it :
  at_row it -> chunk_data it <> None ->
  exists it', iterator_next jc step it = Ok it' /\ at_row it' /\ index it' = index it + step.
Proof.
  intros R Hd. unfold at_row in R. destruct (chunk_data it) as [data|] eqn:Ed; [|done].
  destruct R as (chunk & es & E & Ees & B & I & L). unfold iterator_next.
  destruct (seek_spec (length (join_chunk_array jc))
    (mkIterator (chunk_data it) (index_of_chunk it) (index_inside_chunk it + step) (index it + step)))
    as (it' & Es & R' & I'); simpl; [lia | lia | rewrite Ed; eauto |].
  rewrite Ed in *. eauto.
Qed.

Lemma iterator_new_spec start :
  exists it, iterator_new jc start = Ok it /\ at_row it /\
    (index it = start \/ num_elems jc = 0 /\ chunk_data it = None).
Proof.
  assert (Hlen : length (join_chunk_array jc) = length ess) by (eapply Forall2_length, Hc).
  unfold iterator_new. destruct (Nat.ltb_spec 0 (num_elems jc)) as [L|L].
  - destruct (join_chunk_array jc) as [|chunk chunks] eqn:E.
    { destruct ess; [|done]. destruct Hc as [_ En]. simpl in En. lia. }
    unfold iterator_next. rewrite E.
    destruct (seek_spec (length (chunk :: chunks))
      (mkIterator (col_buff chunk) 0 (0 + start) (0 + start))) as (it & Es & R & I); simpl.
    + rewrite E. simpl. lia.
    + done.
    + destruct (chunk_at 0 chunk) as (es & data & _ & _ & B & _); [by rewrite E|].
      rewrite B. exists chunk. by rewrite E.
    + exists it. simpl in *. auto.
  - exists (mkIterator None 0 start start). unfold iterator_next. simpl.
    destruct (length (join_chunk_array jc)); simpl;
      (split; [done|]; split; [unfold at_row; simpl; lia|]; right; split; [lia | done]).
Qed.

Lemma element_at it data :
  at_row it -> chunk_data it = Some data ->
  exists e, getElementSwitch ti data (index_inside_chunk it) = Ok e /\
    concat ess !! index it = Some e.
Proof.
  intros R Ed. unfold at_row in R. rewrite Ed in R.
  destruct R as (chunk & es & E & Ees & B & I & L).
  destruct (chunk_at _ _ E) as (es' & data' & Ees' & _ & B' & G).
  assert (es' = es) as -> by congruence. assert (data' = data) as -> by congruence.
  destruct (lookup_lt_is_Some_2 es _ L) as [e He]. exists e. split; [by apply G|].
  rewrite I. rewrite <- (take_drop (index_of_chunk it) ess), concat_app.
  rewrite lookup_app_r by (unfold before; lia).
  replace (before (index_of_chunk it) + index_inside_chunk it - length (concat (take (index_of_chunk it) ess)))
    with (index_inside_chunk it) by (unfold before; lia).
  rewrite (drop_S _ _ _ Ees). simpl. by rewrite lookup_app_l.
Qed.

(** The items of a slice: rows [start], [start + step], ... with their elements. *)
Definition items (rows : list nat) : list (nat * Z) :=
  map (fun i => (i, concat ess !!! i)) rows.

Lemma slice_loop_spec fuel step it :
  0 < step -> at_row it -> num_elems jc - index it <= fuel ->
  slice_loop fuel jc ti step it = Ok (items (strided fuel (index it) step (num_elems jc))).
Proof.
  intros Hs. revert it. induction fuel as [|fuel IH]; intros it R Hf; simpl.
  - destruct (chunk_data it) as [data|] eqn:Ed; [|done]. exfalso.
    destruct (element_at it data R Ed) as (e & _ & L%lookup_lt_Some). destruct Hc as [_ E]. lia.
  - destruct (chunk_data it) as [data|] eqn:Ed.
    + destruct (element_at it data R Ed) as (e & -> & L). cbn [rbind].
      destruct (iterator_next_spec step it R) as (it' & -> & R' & I'); [by rewrite Ed|].
      cbn [rbind]. pose proof L as Lt%lookup_lt_Some. destruct Hc as [_ E]. rewrite <- E in Lt.
      rewrite IH by (done || lia). cbn [rbind].
      destruct (Nat.ltb_spec (index it) (num_elems jc)); [|lia]. simpl.
      rewrite I', (list_lookup_total_correct _ _ _ L). done.
    + unfold at_row in R. rewrite Ed in R.
      destruct (Nat.ltb_spec (index it) (num_elems jc)); [lia | done].
Qed.

Lemma slice_spec start step :
  0 < step -> slice jc ti start step = Ok (items (strided (num_elems jc) start step (num_elems jc))).
Proof.
  intros Hs. unfold slice. destruct (iterator_new_spec start) as (it & -> & R & I). cbn [rbind].
  rewrite slice_loop_spec by (done || lia). destruct I as [->|[E0 _]]; [done|].
  by rewrite E0.
Qed.

End Iterator.

(** ** The slices of all threads *)

Lemma strided_elem fuel i step total x :
  0 < step -> total - i <= fuel ->
  x ∈ strided fuel i step total <-> i <= x < total /\ (x - i) mod step = 0.
Proof.
  intros Hs. revert i. induction fuel as [|fuel IH]; intros i Hf; simpl.
  { split; [set_solver|]. lia. }
  destruct (Nat.ltb_spec i total) as [L|L]; [|split; [set_solver | lia]].
  rewrite elem_of_cons, IH by lia. split.
  - intros [->|[B M]].
    + rewrite Nat.sub_diag, Nat.Div0.mod_0_l. lia.
    + split; [lia|]. replace (x - i) with (x - (i + step) + 1 * step) by lia.
      by rewrite Nat.Div0.mod_add.
  - intros [B M]. destruct (decide (x = i)) as [|N]; [by left | right].
    assert (step <= x - i) by (destruct (decide (x - i < step)); [rewrite Nat.mod_small in M; lia | lia]).
    split; [lia|]. replace (x - i) with (x - (i + step) + 1 * step) in M by lia.
    by rewrite Nat.Div0.mod_add in M.
Qed.

Lemma strided_nodup fuel i step total : 0 < step -> total - i <= fuel -> NoDup (strided fuel i step total).
Proof.
  intros Hs. revert i. induction fuel as [|fuel IH]; intros i Hf; simpl; [constructor|].
  destruct (Nat.ltb_spec i total); [|constructor].
  apply NoDup_cons. split; [|apply IH; lia]. rewrite strided_elem by lia. lia.
Qed.

(** [n] threads have every row once. *)
Lemma slices_permutation n total :
  0 < n -> concat (map (fun t => strided total t n total) (seq 0 n)) ≡ₚ seq 0 total.
Proof.
  intros Hn.
  assert (El : forall t, t < n -> forall x, x ∈ strided total t n total <-> x < total /\ x mod n = t).
  { intros t Ht x. rewrite strided_elem by lia. split.
    - intros [B M]. split; [lia|]. apply Nat.Div0.mod_divides in M as [k Hk].
      replace x with (t + k * n) by lia. rewrite Nat.Div0.mod_add. by apply Nat.mod_small.
    - intros [B M]. pose proof (Nat.Div0.mod_le x n). split; [lia|].
      pose proof (Nat.Div0.div_mod x n). replace (x - t) with (0 + x / n * n) by lia.
      by rewrite Nat.Div0.mod_add, Nat.Div0.mod_0_l. }
  apply NoDup_Permutation; [| apply NoDup_seq |].
  - assert (G : forall ts, NoDup ts -> (forall t, t ∈ ts -> t < n) ->
      NoDup (concat (map (fun t => strided total t n total) ts))).
    { induction ts as [|t ts IH]; intros Nd Hlt; [constructor|]. simpl.
      apply NoDup_cons in Nd as [Nt Nd]. apply NoDup_app. split; [apply strided_nodup; lia|]. split.
      - intros x Hx Hin. apply (El t) in Hx as [_ Hx]; [|apply Hlt; set_solver].
        apply list_elem_of_In, in_concat in Hin as (l & Hl & Hx').
        apply in_map_iff in Hl as (t' & <- & Ht'%list_elem_of_In). apply list_elem_of_In in Hx'.
        apply (El t') in Hx' as [_ Hx']; [|apply Hlt; set_solver]. congruence.
      - apply IH; [done|]. set_solver. }
    apply G; [apply NoDup_seq|]. intros t Ht%elem_of_seq. lia.
  - intros x. rewrite elem_of_seq, list_elem_of_In, in_concat. split.
    + intros (l & Hl & Hx). apply in_map_iff in Hl as (t & <- & Ht%in_seq).
      apply list_elem_of_In, El in Hx; lia.
    + intros Hx. exists (strided total (x mod n) n total).
      assert (x mod n < n) by (apply Nat.mod_upper_bound; lia). split.
      * apply in_map_iff. exists (x mod n). split; [done|]. apply in_seq. lia.
      * apply list_elem_of_In, El; [done|]. lia.
Qed.
