(* ===== verification/HashJoinRuntime.v ===== *)
(** * Join hash tables ([JoinHashTable/Runtime/HashJoinRuntime.cpp], [JoinHashImpl.h])

    The perfect hash table of an equi-join: a slot per value of the key, in a buffer of 32-bit
    cells.  In a one-to-one table a slot holds the row with the value; in a one-to-many table the
    buffer has three parts, the position of the rows of a value, their number and the rows.
    Threads fill a table together with atomic operations; the code of one row is one step, and
    the order of the steps of all threads is an argument of the functions that start threads. *)

From Stdlib Require Import ZArith Lia List Bool.
From stdpp Require Import base list numbers.
From S2P Require Import Prelude GroupByRuntime JoinColumn.
Import ListNotations.
Local Open Scope Z_scope.
Local Open Scope hdk_scope.

Definition mem_result {A : Type} (r : result MemError A) : result JoinError A :=
  match r with Ok a => Ok a | Err _ => Err JOut end.

Definition INVALID_STR_ID : Z := -1.

(** ** Slots *)

Definition get_hash_slot (key min_key : Z) : Z := s64 (key - min_key).

Definition get_bucketized_hash_slot (key min_key bucket_normalization : Z) : Z :=
  Z.quot (s64 (key - min_key)) bucket_normalization.

(** [insert_key_cas]: the old value; [val] is stored if it was [compare]. *)
Definition insert_key_cas (m : mem) (address compare val : Z) : result JoinError (Z * mem) :=
  let* old := mem_result (load m address) in
  if old =? compare then
    let* m := mem_result (store m address val) in Ok (old, m)
  else Ok (old, m).

Definition fill_one_to_one_hashtable (idx : nat) (entry_ptr invalid_slot_val : Z) (m : mem)
    : result JoinError (Z * mem) :=
  let* '(old, m) := insert_key_cas m entry_ptr invalid_slot_val (s32 (Z.of_nat idx)) in
  Ok (if old =? invalid_slot_val then 0 else -1, m).

Definition fill_hashtable_for_semi_join (idx : nat) (entry_ptr invalid_slot_val : Z) (m : mem)
    : result JoinError (Z * mem) :=
  let* '(_, m) := insert_key_cas m entry_ptr invalid_slot_val (s32 (Z.of_nat idx)) in
  Ok (0, m).

(** ** Keys

    [map_str_id_to_outer_dict] with the translation map of a dictionary pair. *)

Definition map_str_id_to_outer_dict (inner_elem min_inner_elem min_outer_elem max_outer_elem : Z)
    (inner_to_outer_translation_map : list Z) : result JoinError Z :=
  let* outer_id := mem_result (load inner_to_outer_translation_map (inner_elem - min_inner_elem)) in
  if (max_outer_elem <? outer_id) || (outer_id <? min_outer_elem) then Ok INVALID_STR_ID
  else Ok outer_id.

(** The beginning of the three loops over the rows: the key of a row, or [None] if the row is
    skipped. *)
Definition join_key (type_info : JoinColumnTypeInfo) (translation_map : option (list Z))
    (min_inner_elem elem : Z) : result JoinError (option Z) :=
  let is_null := elem =? null_val type_info in
  if is_null && negb (uses_bw_eq type_info) then Ok None
  else
    let elem := if is_null then translated_null_val type_info else elem in
    match translation_map with
    | Some map =>
        if negb (uses_bw_eq type_info) || negb (elem =? translated_null_val type_info) then
          let* outer_id := map_str_id_to_outer_dict elem min_inner_elem (min_val type_info)
                             (max_val type_info) map in
          if outer_id =? INVALID_STR_ID then Ok None else Ok (Some outer_id)
        else Ok (Some elem)
    | None => Ok (Some elem)
    end.

Section Fill.

Context (type_info : JoinColumnTypeInfo) (translation_map : option (list Z)) (min_inner_elem : Z).
Context (slot_selector : Z -> Z) (invalid_slot_val : Z).

(** ** One-to-one *)

(** The body of the loop of [fill_hash_join_buff_impl] for one row. *)
Definition fill_row (for_semi_join : bool) (item : nat * Z) (buff : mem)
    : result JoinError (Z * mem) :=
  let '(index, elem) := item in
  let* key := join_key type_info translation_map min_inner_elem elem in
  match key with
  | None => Ok (0, buff)
  | Some key =>
      let entry_ptr := slot_selector key in
      if for_semi_join then fill_hashtable_for_semi_join index entry_ptr invalid_slot_val buff
      else fill_one_to_one_hashtable index entry_ptr invalid_slot_val buff
  end.

(** The loop of one thread over its slice. *)
Fixpoint fill_hash_join_buff_impl (for_semi_join : bool) (items : list (nat * Z)) (buff : mem)
    : result JoinError (Z * mem) :=
  match items with
  | [] => Ok (0, buff)
  | item :: items' =>
      let* '(err, buff) := fill_row for_semi_join item buff in
      if err =? 0 then fill_hash_join_buff_impl for_semi_join items' buff else Ok (-1, buff)
  end.

(** Threads that fill a table together: what each has left of its slice and the code it
    returns.  A step is a row of one thread; a thread returns at its first error. *)
Inductive fill_step (for_semi_join : bool)
    : mem * list (list (nat * Z) * Z) -> mem * list (list (nat * Z) * Z) -> Prop :=
| fill_step_row buff buff' threads t item items err code :
    threads !! t = Some (item :: items, code) ->
    fill_row for_semi_join item buff = Ok (err, buff') ->
    fill_step for_semi_join (buff, threads)
      (buff', <[t := if err =? 0 then (items, code) else ([], -1)]> threads).

(** ** One-to-many: counting *)

Definition count_row (item : nat * Z) (count_buff : mem) : result JoinError mem :=
  let* key := join_key type_info translation_map min_inner_elem (snd item) in
  match key with
  | None => Ok count_buff
  | Some key =>
      let entry_ptr := slot_selector key in
      let* old := mem_result (load count_buff entry_ptr) in
      mem_result (store count_buff entry_ptr (s32 (old + 1)))
  end.

(** The rows in the order in which the threads count them. *)
Fixpoint count_matches_impl (items : list (nat * Z)) (count_buff : mem) : result JoinError mem :=
  match items with
  | [] => Ok count_buff
  | item :: items' =>
      let* count_buff := count_row item count_buff in count_matches_impl items' count_buff
  end.

(** ** One-to-many: the rows *)

Record OneToMany := mkOneToMany { pos_buff : mem; count_buff : mem; id_buff : mem }.

Definition fill_row_id (item : nat * Z) (b : OneToMany) : result JoinError OneToMany :=
  let '(index, elem) := item in
  let* key := join_key type_info translation_map min_inner_elem elem in
  match key with
  | None => Ok b
  | Some key =>
      let bin_idx := slot_selector key in
      let* pos := mem_result (load (pos_buff b) bin_idx) in
      let* old := mem_result (load (count_buff b) bin_idx) in
      let* count_buff := mem_result (store (count_buff b) bin_idx (s32 (old + 1))) in
      let id_buff_idx := s32 (old + pos) in
      let* id_buff := mem_result (store (id_buff b) id_buff_idx (s32 (Z.of_nat index))) in
      Ok (mkOneToMany (pos_buff b) count_buff id_buff)
  end.

Fixpoint fill_row_ids_impl (items : list (nat * Z)) (b : OneToMany) : result JoinError OneToMany :=
  match items with
  | [] => Ok b
  | item :: items' => let* b := fill_row_id item b in fill_row_ids_impl items' b
  end.

End Fill.

(** ** Prefix sums *)

(** The sums of one thread, from [sum]. *)
Fixpoint scan_from (sum : Z) (l : list Z) : list Z :=
  match l with
  | [] => []
  | x :: l' => let sum := s32 (sum + x) in sum :: scan_from sum l'
  end.

Definition last_sum (l : list Z) : Z := fold_left (fun sum x => s32 (sum + x)) l 0.

(** The pieces [start_off .. end_off) of the threads. *)
Fixpoint scan_pieces (thread_count : nat) (step : nat) (l : list Z) : list (list Z) :=
  match thread_count with
  | O => []
  | S n => take step l :: scan_pieces n step (drop step l)
  end.

(** The second pass: the sum of the pieces up to [i] is added to piece [i + 1]. *)
Definition add_prefixes (prefix_sums : list Z) (pieces : list (list Z)) : list (list Z) :=
  match pieces with
  | [] => []
  | p :: pieces' => p :: zip_with (fun prev_sum p => map (fun x => s32 (x + prev_sum)) p) prefix_sums pieces'
  end.

Definition inclusive_scan (l : list Z) (thread_count : nat) : list Z :=
  let elem_count := Z.of_nat (length l) in
  if (elem_count <? 10000) || (thread_count <=? 1)%nat then scan_from 0 l
  else
    let step := Z.to_nat ((elem_count + Z.of_nat thread_count - 1) / Z.of_nat thread_count) in
    let pieces := scan_pieces thread_count step l in
    let partial_sums := map last_sum pieces in
    concat (add_prefixes (scan_from 0 partial_sums) (map (scan_from 0) pieces)).

(** ** Building a one-to-many table

    [count_order] and [fill_order] are the rows in the order in which the threads of the two
    passes take them. *)

Fixpoint set_positions (counts positions pos_buff : mem) : mem :=
  match counts, positions, pos_buff with
  | c :: counts', p :: positions', q :: pos_buff' =>
      (if c =? 0 then q else p) :: set_positions counts' positions' pos_buff'
  | _, _, _ => []
  end.

Definition fill_one_to_many_hash_table_impl (type_info : JoinColumnTypeInfo)
    (translation_map : option (list Z)) (min_inner_elem : Z) (slot_selector : Z -> Z)
    (hash_entry_count : nat) (cpu_thread_count : nat) (count_order fill_order : list (nat * Z))
    (b : OneToMany) : result JoinError OneToMany :=
  let zeros := repeat 0 hash_entry_count in
  let* counts := count_matches_impl type_info translation_map min_inner_elem slot_selector
                   count_order zeros in
  if (hash_entry_count =? 0)%nat then Err JCheck
  else
    let count_copy := inclusive_scan (0 :: take (hash_entry_count - 1) counts) cpu_thread_count in
    let pos := set_positions counts count_copy (pos_buff b) in
    fill_row_ids_impl type_info translation_map min_inner_elem slot_selector fill_order
      (mkOneToMany pos zeros (id_buff b)).

Definition fill_one_to_many_hash_table (type_info : JoinColumnTypeInfo)
    (translation_map : option (list Z)) (min_inner_elem : Z) (hash_entry_count : nat)
    (cpu_thread_count : nat) (count_order fill_order : list (nat * Z)) (b : OneToMany)
    : result JoinError OneToMany :=
  fill_one_to_many_hash_table_impl type_info translation_map min_inner_elem
    (fun key => get_hash_slot key (min_val type_info)) hash_entry_count cpu_thread_count
    count_order fill_order b.

Definition getNormalizedHashEntryCount (hash_entry_count bucket_normalization : Z)
    : result JoinError Z :=
  if 0 <? bucket_normalization then
    let modulo_res := hash_entry_count mod bucket_normalization in
    let entry_count := hash_entry_count / bucket_normalization in
    Ok (if negb (modulo_res =? 0) then entry_count + 1 else entry_count)
  else Err JCheck.

Definition fill_one_to_many_hash_table_bucketized (type_info : JoinColumnTypeInfo)
    (translation_map : option (list Z)) (min_inner_elem : Z)
    (hash_entry_count bucket_normalization : Z) (cpu_thread_count : nat)
    (count_order fill_order : list (nat * Z)) (b : OneToMany) : result JoinError OneToMany :=
  let* hash_entry_count := getNormalizedHashEntryCount hash_entry_count bucket_normalization in
  fill_one_to_many_hash_table_impl type_info translation_map min_inner_elem
    (fun key => get_bucketized_hash_slot key (min_val type_info) bucket_normalization)
    (Z.to_nat hash_entry_count) cpu_thread_count count_order fill_order b.

Definition fill_hash_join_buff (type_info : JoinColumnTypeInfo) (translation_map : option (list Z))
    (min_inner_elem invalid_slot_val : Z) (for_semi_join : bool) (items : list (nat * Z))
    (buff : mem) : result JoinError (Z * mem) :=
  fill_hash_join_buff_impl type_info translation_map min_inner_elem
    (fun key => get_hash_slot key (min_val type_info)) invalid_slot_val for_semi_join items buff.

Definition fill_hash_join_buff_bucketized (type_info : JoinColumnTypeInfo)
    (translation_map : option (list Z)) (min_inner_elem invalid_slot_val : Z)
    (for_semi_join : bool) (bucket_normalization : Z) (items : list (nat * Z)) (buff : mem)
    : result JoinError (Z * mem) :=
  fill_hash_join_buff_impl type_info translation_map min_inner_elem
    (fun key => get_bucketized_hash_slot key (min_val type_info) bucket_normalization)
    invalid_slot_val for_semi_join items buff.

(** ** Initialisation *)

(** [for (pos = start; pos < end; ++pos) groups_buffer[pos] = invalid_slot_val]; [n] is the
    number of iterations. *)
Fixpoint fill_cells (n : nat) (pos invalid_slot_val : Z) (m : mem) : result JoinError mem :=
  match n with
  | O => Ok m
  | S n' =>
      let* m := mem_result (store m pos invalid_slot_val) in
      fill_cells n' (pos + 1) invalid_slot_val m
  end.

Definition init_hash_join_buff_cpu (m : mem) (invalid_slot_val start end_ : Z)
    : result JoinError mem :=
  fill_cells (Z.to_nat (end_ - start)) start invalid_slot_val m.

(** The 512-bit stores: sixteen cells each; [n] is the number of stores. *)
Fixpoint fill_vectors (n : nat) (pos invalid_slot_val : Z) (m : mem) : result JoinError mem :=
  match n with
  | O => Ok m
  | S n' =>
      let* m := fill_cells 16 pos invalid_slot_val m in
      fill_vectors n' (pos + 16) invalid_slot_val m
  end.

(** The variant for AVX512; [base] is the address of the buffer. *)
Definition init_hash_join_buff_cpu_avx512 (base : Z) (m : mem) (invalid_slot_val start end_ : Z)
    : result JoinError mem :=
  let align_iters := Z.land (u64 (64 - (base + 4 * start))) 63 / 4 in
  let align_end := Z.min (start + align_iters) end_ in
  let* m := fill_cells (Z.to_nat (align_end - start)) start invalid_slot_val m in
  let pos := Z.max start align_end in
  let vec_end := pos + Z.quot (end_ - pos) 16 * 16 in
  let* m := fill_vectors (Z.to_nat ((vec_end - pos) / 16)) pos invalid_slot_val m in
  let pos := Z.max pos vec_end in
  fill_cells (Z.to_nat (end_ - pos)) pos invalid_slot_val m.

(** [target]: the address of the buffer on a processor with AVX512, [None] on others. *)
Definition init_hash_join_buff (target : option Z) (m : mem) (hash_entry_count invalid_slot_val
    cpu_thread_idx cpu_thread_count : Z) : result JoinError mem :=
  let start := Z.quot (s64 (hash_entry_count * cpu_thread_idx)) cpu_thread_count in
  let end_ := s32 (Z.quot (s64 (hash_entry_count * (cpu_thread_idx + 1))) cpu_thread_count) in
  match target with
  | Some base => init_hash_join_buff_cpu_avx512 base m invalid_slot_val start end_
  | None => init_hash_join_buff_cpu m invalid_slot_val start end_
  end.

(** The threads [0 .. cpu_thread_count) of a builder, in the order in which they run. *)
Fixpoint init_threads (target : option Z) (hash_entry_count invalid_slot_val cpu_thread_count : Z)
    (order : list nat) (m : mem) : result JoinError mem :=
  match order with
  | [] => Ok m
  | t :: order' =>
      let* m := init_hash_join_buff target m hash_entry_count invalid_slot_val (Z.of_nat t)
                  cpu_thread_count in
      init_threads target hash_entry_count invalid_slot_val cpu_thread_count order' m
  end.

(** ** Probing ([GroupByRuntime.cpp]) *)

Definition hash_join_idx (hash_buff : mem) (key min_key max_key : Z) : result JoinError Z :=
  if (min_key <=? key) && (key <=? max_key) then
    mem_result (load hash_buff (get_hash_slot key min_key))
  else Ok (-1).

Definition bucketized_hash_join_idx (hash_buff : mem) (key min_key max_key bucket_normalization : Z)
    : result JoinError Z :=
  if (min_key <=? key) && (key <=? max_key) then
    mem_result (load hash_buff (get_bucketized_hash_slot key min_key bucket_normalization))
  else Ok (-1).

Definition hash_join_idx_nullable (hash_buff : mem) (key min_key max_key null_val : Z)
    : result JoinError Z :=
  if negb (key =? null_val) then hash_join_idx hash_buff key min_key max_key else Ok (-1).

Definition bucketized_hash_join_idx_nullable (hash_buff : mem)
    (key min_key max_key null_val bucket_normalization : Z) : result JoinError Z :=
  if negb (key =? null_val)
  then bucketized_hash_join_idx hash_buff key min_key max_key bucket_normalization
  else Ok (-1).

Definition hash_join_idx_bitwise (hash_buff : mem)
    (key min_key max_key null_val translated_val : Z) : result JoinError Z :=
  if negb (key =? null_val) then hash_join_idx hash_buff key min_key max_key
  else hash_join_idx hash_buff translated_val min_key translated_val.

Definition bucketized_hash_join_idx_bitwise (hash_buff : mem)
    (key min_key max_key null_val translated_val bucket_normalization : Z) : result JoinError Z :=
  if negb (key =? null_val)
  then bucketized_hash_join_idx hash_buff key min_key max_key bucket_normalization
  else bucketized_hash_join_idx hash_buff translated_val min_key translated_val
         bucket_normalization.

Definition translate_null_key (key null_val translated_val : Z) : Z :=
  if key =? null_val then translated_val else key.
