(* ===== verification/JoinHashFacts.v ===== *)
(** * The parallel prefix sum of the join tables

    [inclusive_scan] with several threads computes what one thread computes, and filling a buffer
    with 512-bit stores what filling it cell by cell does. *)

From Stdlib Require Import ZArith Lia List Bool.
From stdpp Require Import base list numbers relations sets.
From S2P Require Import Prelude GroupByRuntime GroupByLayouts JoinColumn HashJoinRuntime.
Import ListNotations.
Local Open Scope Z_scope.
Local Open Scope hdk_scope.

(** ** Sums *)

Lemma s32_add a b : s32 (s32 a + b) = s32 (a + b).
Proof.
  unfold s32, swrap. f_equal. change (2 ^ (32 - 1)) with 2147483648. change (2 ^ 32) with 4294967296.
  pose proof (Z.div_mod (a + 2147483648) 4294967296 ltac:(lia)) as E.
  replace ((a + 2147483648) mod 4294967296 - 2147483648 + b + 2147483648)
    with (a + b + 2147483648 + (- ((a + 2147483648) / 4294967296)) * 4294967296) by lia.
  apply Z.mod_add. lia.
Qed.

(** The sum of a list, without wrapping. *)
Definition total (l : list Z) : Z := fold_right Z.add 0 l.

Lemma total_cat l k : total (l ++ k) = total l + total k.
Proof. unfold total. induction l as [|x l IH]; cbn; [done|]. rewrite IH. lia. Qed.

Lemma scan_from_s32 s l : scan_from (s32 s) l = scan_from s l.
Proof. destruct l as [|x l]; cbn; [done|]. by rewrite s32_add. Qed.

Lemma scan_from_length s l : length (scan_from s l) = length l.
Proof. revert s. induction l as [|x l IH]; intros s; cbn; [done | by rewrite IH]. Qed.

Lemma scan_from_app s l k : scan_from s (l ++ k) = scan_from s l ++ scan_from (s + total l) k.
Proof.
  revert s. induction l as [|x l IH]; intros s; cbn.
  - by rewrite Z.add_0_r.
  - rewrite IH. do 2 f_equal.
    rewrite <- (scan_from_s32 (s32 (s + x) + total l)), s32_add, scan_from_s32.
    fold (total l). f_equal. lia.
Qed.

(** Adding [a] to the sums from [s] gives the sums from [s + a]. *)
Lemma scan_from_shift s a l : map (fun x => s32 (x + a)) (scan_from s l) = scan_from (s + a) l.
Proof.
  revert s. induction l as [|x l IH]; intros s; cbn; [done|]. rewrite IH.
  replace (s + a + x) with (s + x + a) by lia. rewrite s32_add. f_equal.
  rewrite <- (scan_from_s32 (s32 (s + x) + a)), s32_add. by rewrite !scan_from_s32.
Qed.

Lemma last_sum_from s l : s32 (fold_left (fun sum x => s32 (sum + x)) l s) = s32 (s + total l).
Proof.
  revert s. induction l as [|x l IH]; intros s; cbn; [by rewrite Z.add_0_r|].
  rewrite IH, s32_add. fold (total l). f_equal. lia.
Qed.

(** ** Pieces *)

Lemma scan_pieces_concat n step l :
  (length l <= n * step)%nat -> concat (scan_pieces n step l) = l.
Proof.
  revert l. induction n as [|n IH]; intros l H; cbn.
  - destruct l; [done | cbn in H; lia].
  - rewrite IH by (rewrite length_drop; lia). apply take_drop.
Qed.

(** The sums of all pieces, from [s] on. *)
Lemma zip_scan s pieces :
  concat (zip_with (fun prev p => map (fun x => s32 (x + prev)) p)
            (s :: scan_from s (map last_sum pieces)) (map (scan_from 0) pieces))
  = scan_from s (concat pieces).
Proof.
  revert s. induction pieces as [|p pieces IH]; intros s; [done|].
  cbn [map zip_with concat scan_from].
  rewrite scan_from_shift, Z.add_0_l, scan_from_app. f_equal.
  etransitivity; [apply (IH (s32 (s + last_sum p)))|].
  rewrite <- (scan_from_s32 (s + total p)). f_equal. unfold last_sum.
  replace (s + fold_left (fun sum x => s32 (sum + x)) p 0)
    with (fold_left (fun sum x => s32 (sum + x)) p 0 + s) by lia.
  rewrite <- s32_add, last_sum_from, s32_add. f_equal. lia.
Qed.

(** The parallel scan is the sequential one. *)
Lemma inclusive_scan_sequential l thread_count : inclusive_scan l thread_count = scan_from 0 l.
Proof.
  unfold inclusive_scan.
  destruct ((Z.of_nat (length l) <? 10000) || (thread_count <=? 1)%nat) eqn:E; [done|].
  apply orb_false_iff in E as [E1 E2]. apply Nat.leb_gt in E2.
  set (step := Z.to_nat _). pose proof (zip_scan 0 (scan_pieces thread_count step l)) as Z0.
  rewrite scan_pieces_concat in Z0.
  - rewrite <- Z0. unfold add_prefixes.
    destruct (scan_pieces thread_count step l) as [|p pieces] eqn:Ep; [done|]. cbn [map zip_with].
    cbn [concat]. rewrite scan_from_shift, Z.add_0_l. done.
  - unfold step. apply Nat2Z.inj_le. rewrite Nat2Z.inj_mul, Z2Nat.id.
    + pose proof (Z.div_mod (Z.of_nat (length l) + Z.of_nat thread_count - 1) (Z.of_nat thread_count) ltac:(lia)).
      pose proof (Z.mod_pos_bound (Z.of_nat (length l) + Z.of_nat thread_count - 1) (Z.of_nat thread_count) ltac:(lia)). nia.
    + apply Z.div_pos; lia.
Qed.

(** ** Filling *)

Lemma fill_cells_spec n pos v m :
  (pos + n <= length m)%nat ->
  fill_cells n (Z.of_nat pos) v m = Ok (take pos m ++ repeat v n ++ drop (pos + n) m).
Proof.
  revert pos m. induction n as [|n IH]; intros pos m H; cbn [fill_cells].
  { rewrite Nat.add_0_r. cbn. by rewrite take_drop. }
  rewrite store_at by lia. cbn [mem_result rbind].
  replace (Z.of_nat pos + 1) with (Z.of_nat (S pos)) by lia.
  rewrite IH by (rewrite length_insert; lia).
  rewrite insert_take_drop by lia. f_equal.
  rewrite take_app_ge by (rewrite length_take; lia). rewrite length_take.
  replace (S pos - pos `min` length m)%nat with 1%nat by lia.
  rewrite drop_app_ge by (rewrite length_take; lia). rewrite length_take.
  replace (S pos + n - pos `min` length m)%nat with (S n) by lia. cbn [drop take].
  rewrite drop_drop, <- app_assoc. replace (S pos + n)%nat with (pos + S n)%nat by lia. done.
Qed.

Lemma fill_cells_app a b pos v m :
  (pos + a + b <= length m)%nat ->
  (let* m' := fill_cells a (Z.of_nat pos) v m in fill_cells b (Z.of_nat (pos + a)) v m')
  = fill_cells (a + b) (Z.of_nat pos) v m.
Proof.
  revert pos m. induction a as [|a IH]; intros pos m H; cbn [fill_cells Nat.add].
  { by rewrite Nat.add_0_r. }
  rewrite store_at by lia. cbn [mem_result rbind].
  replace (Z.of_nat pos + 1) with (Z.of_nat (S pos)) by lia.
  rewrite <- IH by (rewrite length_insert; lia).
  by replace (pos + S a)%nat with (S pos + a)%nat by lia.
Qed.

Lemma fill_vectors_cells n pos v m :
  (pos + 16 * n <= length m)%nat ->
  fill_vectors n (Z.of_nat pos) v m = fill_cells (16 * n) (Z.of_nat pos) v m.
Proof.
  revert pos m. induction n as [|n IH]; intros pos m H; [done|]. cbn [fill_vectors].
  replace (16 * S n)%nat with (16 + 16 * n)%nat by lia. rewrite <- fill_cells_app by lia.
  rewrite fill_cells_spec by lia. cbn [rbind].
  replace (Z.of_nat pos + 16) with (Z.of_nat (pos + 16)) by lia.
  apply IH. rewrite !length_app, length_take, repeat_length, length_drop. lia.
Qed.

(** * Filling a join hash table with several threads

    The invariants of the threads that fill a table, and what the table holds when all of them
    have finished, for every order of their steps. *)

Local Open Scope nat_scope.

Lemma repeat_replicate {A : Type} (x : A) k : repeat x k = replicate k x.
Proof. induction k as [|k IH]; simpl; [done | by rewrite IH]. Qed.

(** ** Initialisation *)

(** The three loops of the vectorised variant are one loop. *)
Lemma fill_three a k c s v m :
  s + a + 16 * k + c <= length m ->
  (let* m := fill_cells a (Z.of_nat s) v m in
   let* m := fill_vectors k (Z.of_nat (s + a)) v m in
   fill_cells c (Z.of_nat (s + a + 16 * k)) v m)
  = fill_cells (a + (16 * k + c)) (Z.of_nat s) v m.
Proof.
  intros H. rewrite <- (fill_cells_app a) by lia. rewrite fill_cells_spec by lia. cbn [rbind].
  assert (Hl : length (take s m ++ repeat v a ++ drop (s + a) m) = length m)
    by (rewrite !length_app, length_take, repeat_length, length_drop; lia).
  rewrite fill_vectors_cells by lia. apply fill_cells_app. lia.
Qed.

Lemma init_avx512_scalar base m v start end_ :
  (0 <= start <= end_)%Z -> (end_ <= Z.of_nat (length m))%Z ->
  init_hash_join_buff_cpu_avx512 base m v start end_ = init_hash_join_buff_cpu m v start end_.
Proof.
  intros Hs He. unfold init_hash_join_buff_cpu_avx512, init_hash_join_buff_cpu.
  set (iters := (Z.land _ 63 / 4)%Z).
  assert (Bi : (0 <= iters)%Z).
  { apply Z.div_pos; [|lia]. apply Z.land_nonneg. lia. }
  set (pos := Z.min (start + iters) end_).
  assert (Bp : (start <= pos <= end_)%Z) by lia. clearbody pos. clear iters Bi.
  replace (Z.max start pos) with pos by lia. rewrite Z.quot_div_nonneg by lia.
  set (q := ((end_ - pos) / 16)%Z). assert (Bq : (0 <= q /\ 16 * q <= end_ - pos)%Z).
  { unfold q. split; [apply Z.div_pos; lia|]. apply Z.mul_div_le. lia. }
  clearbody q. replace ((pos + q * 16 - pos) / 16)%Z with q by (rewrite Z.add_simpl_l, Z.div_mul; lia).
  replace (Z.max pos (pos + q * 16)) with (pos + q * 16)%Z by lia.
  pose proof (fill_three (Z.to_nat (pos - start)) (Z.to_nat q) (Z.to_nat (end_ - (pos + q * 16)))
    (Z.to_nat start) v m ltac:(lia)) as F.
  replace (Z.of_nat (Z.to_nat start)) with start in F by lia.
  replace (Z.of_nat (Z.to_nat start + Z.to_nat (pos - start))) with pos in F by lia.
  replace (Z.of_nat (Z.to_nat start + Z.to_nat (pos - start) + 16 * Z.to_nat q))
    with (pos + q * 16)%Z in F by lia.
  rewrite F. f_equal. lia.
Qed.

(** A cell after the initialisation of the range [start .. end_). *)
Lemma init_cpu_cell m v start end_ :
  (0 <= start <= end_)%Z -> (end_ <= Z.of_nat (length m))%Z ->
  exists m', init_hash_join_buff_cpu m v start end_ = Ok m' /\ length m' = length m /\
    forall i, m' !! i = if decide (start <= Z.of_nat i < end_)%Z then Some v else m !! i.
Proof.
  intros Hs He. unfold init_hash_join_buff_cpu.
  pose proof (fill_cells_spec (Z.to_nat (end_ - start)) (Z.to_nat start) v m ltac:(lia)) as F.
  rewrite Z2Nat.id in F by lia. rewrite F. eexists. split; [done|].
  set (s := Z.to_nat start). set (n := Z.to_nat (end_ - start)).
  split; [rewrite !length_app, length_take, repeat_length, length_drop; lia|].
  intros i. rewrite lookup_app. destruct (take s m !! i) as [x|] eqn:E1.
  - apply lookup_take_Some in E1 as [-> L]. case_decide; [lia | done].
  - apply lookup_ge_None in E1. rewrite length_take in E1 |- *.
    rewrite lookup_app. destruct (repeat v n !! (i - s `min` length m)) as [x|] eqn:E2.
    + apply lookup_lt_Some in E2 as L. rewrite repeat_length in L.
      apply list_elem_of_lookup_2, list_elem_of_In, repeat_spec in E2 as ->. case_decide; [done | lia].
    + apply lookup_ge_None in E2. rewrite repeat_length in E2 |- *. rewrite lookup_drop.
      case_decide; [lia|]. f_equal. lia.
Qed.

(** ** Interleavings *)

Inductive interleave {A : Type} : list (list A) -> list A -> Prop :=
| interleave_nil ls : Forall (fun l => l = []) ls -> interleave ls []
| interleave_cons ls t x l s :
    ls !! t = Some (x :: l) -> interleave (<[t := l]> ls) s -> interleave ls (x :: s).

Lemma concat_insert_cons {A : Type} (ls : list (list A)) t x l :
  ls !! t = Some (x :: l) -> concat ls ≡ₚ x :: concat (<[t := l]> ls).
Proof.
  revert t. induction ls as [|l' ls IH]; intros [|t] H; simpl in *; try done.
  - injection H as ->. done.
  - rewrite (IH t H). by rewrite Permutation_middle.
Qed.

Lemma interleave_permutation {A : Type} (ls : list (list A)) s : interleave ls s -> s ≡ₚ concat ls.
Proof.
  induction 1 as [ls F|ls t x l s H _ IH].
  - induction F as [|l ls -> F IH]; [done | exact IH].
  - rewrite IH. by rewrite (concat_insert_cons ls t x l H).
Qed.

(** ** Rows and slots *)

Section Fill.

Context (ti : JoinColumnTypeInfo) (tm : option (list Z)) (mie : Z).
Context (sel : Z -> Z) (inv : Z) (n : nat) (Hinv : (inv < 0)%Z).

(** The slot of a row, [None] if it is skipped. *)
Definition item_slot (item : nat * Z) : option nat :=
  match join_key ti tm mie (snd item) with
  | Ok (Some key) => Some (Z.to_nat (sel key))
  | _ => None
  end.

(** A row that the table can take: its key is known, its slot is in the table and its index is
    a 32-bit integer. *)
Definition item_ok (item : nat * Z) : Prop :=
  (Z.of_nat (fst item) <= INT32_MAX)%Z /\
  exists r, join_key ti tm mie (snd item) = Ok r /\
    forall key, r = Some key -> (0 <= sel key < Z.of_nat n)%Z.

Lemma item_cases item :
  item_ok item ->
  (join_key ti tm mie (snd item) = Ok None /\ item_slot item = None) \/
  (exists key s, join_key ti tm mie (snd item) = Ok (Some key) /\ sel key = Z.of_nat s /\
     item_slot item = Some s /\ s < n).
Proof.
  intros [_ (r & E & H)]. unfold item_slot. rewrite E. destruct r as [key|]; [right|left; done].
  specialize (H key eq_refl). exists key, (Z.to_nat (sel key)). repeat split; lia.
Qed.

Lemma item_index item : item_ok item -> s32 (Z.of_nat (fst item)) = Z.of_nat (fst item).
Proof. intros [H _]. unfold INT32_MAX in H. apply s32_small. lia. Qed.

(** ** One-to-one tables *)

(** The slots of the rows that are not skipped. *)
Definition row_slots (items : list (nat * Z)) : list nat := omap item_slot items.

(** The table holds the rows [done], which have different slots, and nothing else. *)
Definition holds (buff : mem) (done : list (nat * Z)) : Prop :=
  length buff = n /\ NoDup (row_slots done) /\
  (forall item s, item ∈ done -> item_slot item = Some s -> buff !! s = Some (Z.of_nat (fst item))) /\
  (forall s, s < n -> s ∉ row_slots done -> buff !! s = Some inv).

Lemma row_slots_elem items s : s ∈ row_slots items <-> exists item, item ∈ items /\ item_slot item = Some s.
Proof. unfold row_slots. rewrite list_elem_of_omap. done. Qed.

(** A row either finds its slot taken, or takes it. *)
Lemma fill_row_spec item buff done_ :
  item_ok item -> holds buff done_ ->
  exists err buff', fill_row ti tm mie sel inv false item buff = Ok (err, buff') /\
    ((err = 0%Z /\ holds buff' (item :: done_)) \/
     (err = (-1)%Z /\ buff' = buff /\ exists s, item_slot item = Some s /\ s ∈ row_slots done_)).
Proof.
  intros Hi Hh. pose proof Hh as (Hl & Hn & Hd & He). destruct item as [idx elem]. unfold fill_row.
  destruct (item_cases _ Hi) as [[Ek Es]|(key & s & Ek & Esel & Es & Hs)]; simpl in Ek; rewrite Ek;
    cbn [rbind].
  - exists 0%Z, buff. split; [done|]. left. split; [done|].
    split; [done|]. unfold row_slots in *. simpl. rewrite Es. split; [done|]. split; [|done].
    intros item s [->|Hin]%elem_of_cons Ei; [congruence | eauto].
  - unfold fill_one_to_one_hashtable, insert_key_cas. rewrite Esel.
    rewrite load_at by lia. cbn [mem_result rbind].
    destruct (decide (s ∈ row_slots done_)) as [Hin|Hin].
    + destruct (proj1 (row_slots_elem _ _) Hin) as (item' & Hin' & E').
      assert (B : buff !!! s = Z.of_nat (fst item')) by (apply list_lookup_total_correct; eauto).
      rewrite B. destruct (Z.eqb_spec (Z.of_nat (fst item')) inv) as [|N]; [lia|]. cbn [rbind].
      destruct (Z.eqb_spec (Z.of_nat (fst item')) inv); [lia|]. eauto 10.
    + assert (B : buff !!! s = inv) by (apply list_lookup_total_correct; eauto).
      rewrite B, Z.eqb_refl, store_at by lia. cbn [mem_result rbind]. rewrite Z.eqb_refl.
      pose proof (item_index _ Hi) as Ei. simpl in Ei. rewrite Ei.
      exists 0%Z, (<[s := Z.of_nat idx]> buff). split; [done|]. left. split; [done|].
      split; [by rewrite length_insert|]. unfold row_slots in *. simpl. rewrite Es.
      split; [by apply NoDup_cons|]. split.
      * intros item s' [->|Hin']%elem_of_cons E'.
        { rewrite Es in E'. injection E' as <-. apply list_lookup_insert_eq. lia. }
        rewrite list_lookup_insert_ne; [eauto|]. intros <-. apply Hin. apply row_slots_elem. eauto.
      * intros s' Hs' N. rewrite list_lookup_insert_ne by set_solver. apply He; set_solver.
Qed.

(** The invariant of the threads: [all] are the rows of all threads, [done_] those in the
    table. *)
Definition no_error (threads : list (list (nat * Z) * Z)) : Prop :=
  Forall (fun th => snd th = 0%Z) threads.

Definition filling (all : list (nat * Z)) (st : mem * list (list (nat * Z) * Z)) : Prop :=
  exists done_, holds (fst st) done_ /\
    concat (fst <$> snd st) ++ done_ ⊆+ all /\
    (no_error (snd st) -> concat (fst <$> snd st) ++ done_ ≡ₚ all) /\
    (NoDup (row_slots all) -> no_error (snd st)).

(** The first row that is left for a thread. *)
Lemma left_row (threads : list (list (nat * Z) * Z)) t item items code :
  threads !! t = Some (item :: items, code) ->
  concat (fst <$> threads) ≡ₚ item :: concat (fst <$> <[t := (items, code)]> threads).
Proof.
  intros Ht. rewrite list_fmap_insert. simpl. apply concat_insert_cons.
  by rewrite list_lookup_fmap, Ht.
Qed.

Lemma concat_clear {A : Type} (ls : list (list A)) t : concat (<[t := []]> ls) ⊆+ concat ls.
Proof.
  revert t. induction ls as [|l ls IH]; intros [|t]; simpl; try done.
  - by apply submseteq_inserts_l.
  - by apply submseteq_skips_l.
Qed.

Lemma row_slots_permutation items items' : items ≡ₚ items' -> row_slots items ≡ₚ row_slots items'.
Proof.
  induction 1 as [|x l k _ IH|x y l|l1 l2 l3 _ IH1 _ IH2]; [done | | |by rewrite IH1].
  - unfold row_slots in *. simpl. by destruct (item_slot x); rewrite IH.
  - unfold row_slots. simpl. destruct (item_slot x), (item_slot y); try done. constructor.
Qed.

Lemma row_slots_app items items' : row_slots (items ++ items') = row_slots items ++ row_slots items'.
Proof. apply omap_app. Qed.

(** Rows with different slots stay so when there are fewer of them. *)
Lemma row_slots_nodup items all : items ⊆+ all -> NoDup (row_slots all) -> NoDup (row_slots items).
Proof.
  intros (k & Hp)%submseteq_Permutation Hn.
  rewrite (row_slots_permutation _ _ Hp), row_slots_app in Hn. by apply NoDup_app in Hn as [? _].
Qed.

Lemma no_error_at threads t items code :
  no_error threads -> threads !! t = Some (items, code) -> code = 0%Z.
Proof. intros H Ht. unfold no_error in H. rewrite Forall_lookup in H. exact (H _ _ Ht). Qed.

(** The next row of a thread took its slot: the thread goes on. *)
Lemma filling_next all buff threads t item items code done_ :
  threads !! t = Some (item :: items, code) ->
  concat (fst <$> threads) ++ done_ ⊆+ all ->
  (no_error threads -> concat (fst <$> threads) ++ done_ ≡ₚ all) ->
  (NoDup (row_slots all) -> no_error threads) ->
  holds buff (item :: done_) -> filling all (buff, <[t := (items, code)]> threads).
Proof.
  intros Ht Hs He Hnd Hh. exists (item :: done_). simpl. split; [exact Hh|].
  assert (Ep : concat (fst <$> <[t := (items, code)]> threads) ++ item :: done_
    ≡ₚ concat (fst <$> threads) ++ done_)
    by (rewrite <- Permutation_middle; by rewrite (left_row threads t item items code Ht)).
  split; [by rewrite Ep|]. split.
  - intros Hz. rewrite Ep. apply He. apply Forall_lookup. intros i [its c] Hth. simpl.
    destruct (decide (i = t)) as [->|Hit].
    + rewrite Ht in Hth. injection Hth as <- <-.
      apply (no_error_at _ t items code Hz). apply list_lookup_insert_eq. by eapply lookup_lt_Some.
    + apply (no_error_at _ i its c Hz). by rewrite list_lookup_insert_ne.
  - intros Hn. specialize (Hnd Hn). apply Forall_insert; [done|]. exact (no_error_at _ _ _ _ Hnd Ht).
Qed.

(** The next row of a thread found its slot taken: the thread returns -1. *)
Lemma filling_error all buff threads t item items code done_ s :
  threads !! t = Some (item :: items, code) ->
  concat (fst <$> threads) ++ done_ ⊆+ all ->
  holds buff done_ -> item_slot item = Some s -> s ∈ row_slots done_ ->
  filling all (buff, <[t := ([], (-1)%Z)]> threads).
Proof.
  intros Ht Hs Hh Es Hin. exists done_. simpl. split; [exact Hh|].
  split; [|split].
  - etransitivity; [|exact Hs]. apply submseteq_skips_r. rewrite list_fmap_insert. simpl.
    apply concat_clear.
  - intros Hz. exfalso.
    assert (E : (-1)%Z = 0%Z); [|done]. apply (no_error_at _ t [] (-1) Hz).
    apply list_lookup_insert_eq. by eapply lookup_lt_Some.
  - intros Hn. exfalso.
    assert (Hsub : item :: done_ ⊆+ all).
    { etransitivity; [|exact Hs]. rewrite (left_row threads t item items code Ht). simpl.
      apply submseteq_skip. by apply submseteq_inserts_l. }
    apply (row_slots_nodup _ _ Hsub) in Hn. unfold row_slots in *. simpl in Hn. rewrite Es in Hn.
    by apply NoDup_cons in Hn as [? _].
Qed.

Lemma fill_step_keeps all st st' :
  Forall item_ok all -> fill_step ti tm mie sel inv false st st' -> filling all st -> filling all st'.
Proof.
  intros Hok Hst (done_ & Hh & Hs & He & Hnd).
  destruct Hst as [buff buff' threads t item items err code Ht Hr]. simpl in *.
  assert (Hi : item_ok item).
  { rewrite Forall_forall in Hok. apply Hok. eapply elem_of_submseteq; [|exact Hs].
    apply elem_of_app. left. rewrite (left_row threads t item items code Ht). set_solver. }
  destruct (fill_row_spec item buff done_ Hi Hh) as (err' & buff1 & Hr' & Hcase).
  rewrite Hr in Hr'. injection Hr' as <- <-.
  destruct Hcase as [[-> Hh']|(-> & -> & s & Es & Hin)]; simpl.
  - by apply (filling_next all buff' threads t item items code done_).
  - by apply (filling_error all buff threads t item items code done_ s).
Qed.

(** A thread with rows left can always take its next one. *)
Lemma fill_step_progress all buff threads t item items code :
  Forall item_ok all -> filling all (buff, threads) -> threads !! t = Some (item :: items, code) ->
  exists st', fill_step ti tm mie sel inv false (buff, threads) st'.
Proof.
  intros Hok (done_ & Hh & Hs & _) Ht. simpl in *.
  assert (Hi : item_ok item).
  { rewrite Forall_forall in Hok. apply Hok. eapply elem_of_submseteq; [|exact Hs].
    apply elem_of_app. left. rewrite (left_row threads t item items code Ht). set_solver. }
  destruct (fill_row_spec item buff done_ Hi Hh) as (err & buff' & Hr & _).
  eexists. by eapply fill_step_row.
Qed.

Lemma filling_start slices :
  filling (concat slices) (repeat inv n, (fun items => (items, 0%Z)) <$> slices).
Proof.
  exists []. simpl. rewrite app_nil_r, <- list_fmap_compose.
  assert (E : (fst ∘ (fun items : list (nat * Z) => (items, 0%Z))) <$> slices = slices)
    by (rewrite <- (list_fmap_id slices) at 2; by apply list_fmap_ext).
  rewrite E. split; [|split; [done|split; [done|]]].
  - split; [apply repeat_length|]. split; [constructor|]. split; [set_solver|].
    intros s Hs _. by rewrite repeat_replicate, lookup_replicate_2.
  - intros _. apply Forall_fmap, Forall_true. done.
Qed.

(** All threads have returned. *)
Definition finished (threads : list (list (nat * Z) * Z)) : Prop :=
  Forall (fun th => fst th = []) threads.

Lemma finished_concat threads : finished threads -> concat (fst <$> threads) = [].
Proof. induction 1 as [|[items c] ths E _ IH]; simpl in *; [done|]. by subst. Qed.

Lemma holds_permutation buff items items' : items ≡ₚ items' -> holds buff items -> holds buff items'.
Proof.
  intros Hp (Hl & Hn & Hd & He). pose proof (row_slots_permutation _ _ Hp) as Hs.
  split; [done|]. split; [by rewrite <- Hs|]. split.
  - intros item s Hin. apply Hd. by rewrite Hp.
  - intros s Hlt Hnin. apply He; [done|]. by rewrite Hs.
Qed.

(** When all threads have returned there was no error exactly if no two rows have the same
    slot, and then the table holds all rows. *)
Lemma filling_finished all buff threads :
  filling all (buff, threads) -> finished threads ->
  (no_error threads <-> NoDup (row_slots all)) /\ (no_error threads -> holds buff all).
Proof.
  intros (done_ & Hh & Hs & He & Hnd) Hf. simpl in *. rewrite (finished_concat _ Hf) in *. simpl in *.
  assert (K : no_error threads -> holds buff all) by (intros Hz; by apply (holds_permutation buff done_), Hh; auto).
  split; [|exact K]. split; [|exact Hnd]. intros Hz%K. by destruct Hz as (_ & ? & _).
Qed.

End Fill.
