(* ===== verification/JoinTableFacts.v ===== *)
(** * Building a one-to-many join table

    Counting, positions and row ids, for every order in which the threads take the rows. *)

From Stdlib Require Import ZArith Lia List Bool.
From stdpp Require Import base list numbers sets relations.
From S2P Require Import Prelude GroupByRuntime GroupByLayouts JoinColumn HashJoinRuntime JoinHashFacts.
Import ListNotations.
Local Open Scope nat_scope.
Local Open Scope hdk_scope.

Section Many.

Context (ti : JoinColumnTypeInfo) (tm : option (list Z)) (mie : Z).
Context (sel : Z -> Z) (n : nat).

Abbreviation item_slot := (item_slot ti tm mie sel).
Abbreviation item_ok := (item_ok ti tm mie sel n).

(** The rows of a slot, in order, and their number. *)
Definition rows_of (s : nat) (items : list (nat * Z)) : list (nat * Z) :=
  filter (fun item => item_slot item = Some s) items.

Definition occ (s : nat) (items : list (nat * Z)) : nat := length (rows_of s items).

Lemma occ_cons s item items :
  occ s (item :: items) = (if decide (item_slot item = Some s) then 1 else 0) + occ s items.
Proof. unfold occ, rows_of. rewrite filter_cons. by case_decide. Qed.

Lemma occ_app s items items' : occ s (items ++ items') = occ s items + occ s items'.
Proof. unfold occ, rows_of. by rewrite filter_app, length_app. Qed.

Lemma occ_permutation s items items' : items ≡ₚ items' -> occ s items = occ s items'.
Proof. intros H. unfold occ, rows_of. by rewrite H. Qed.

Lemma occ_length s items : occ s items <= length items.
Proof. apply length_filter. Qed.

(** ** Counting *)

Lemma count_matches_spec items counts :
  Forall item_ok items -> length counts = n ->
  (forall s, s < n -> (0 <= counts !!! s /\ counts !!! s + Z.of_nat (length items) <= INT32_MAX)%Z) ->
  exists counts', count_matches_impl ti tm mie sel items counts = Ok counts' /\ length counts' = n /\
    forall s, s < n -> counts' !!! s = (counts !!! s + Z.of_nat (occ s items))%Z.
Proof.
  intros Hok. revert counts. induction Hok as [|item items Hi Hok IH]; intros counts Hl Hb.
  { exists counts. split; [done|]. split; [done|]. intros s Hs. unfold occ. simpl. lia. }
  cbn [count_matches_impl]. unfold count_row. cbn [length] in Hb.
  destruct (item_cases ti tm mie sel n item Hi) as [[Ek Es]|(key & s0 & Ek & Esel & Es & Hs0)];
    rewrite Ek; cbn [rbind].
  - destruct (IH counts Hl) as (c' & E & L' & C'); [intros s Hs; specialize (Hb s Hs); lia|].
    exists c'. split; [done|]. split; [done|]. intros s Hs. rewrite C' by done.
    rewrite occ_cons, Es. case_decide; [done|]. done.
  - rewrite Esel, load_at by lia. cbn [mem_result rbind]. rewrite store_at by lia. cbn [mem_result rbind].
    pose proof (Hb s0 Hs0) as B0. unfold INT32_MAX in *. rewrite s32_small by lia.
    destruct (IH (<[s0 := (counts !!! s0 + 1)%Z]> counts)) as (c' & E & L' & C').
    + by rewrite length_insert.
    + intros s Hs. specialize (Hb s Hs). destruct (decide (s = s0)) as [->|].
      * rewrite list_lookup_total_insert_eq by lia. lia.
      * rewrite list_lookup_total_insert_ne by done. lia.
    + exists c'. split; [done|]. split; [done|]. intros s Hs. rewrite C', occ_cons, Es by done.
      destruct (decide (s = s0)) as [->|].
      * rewrite list_lookup_total_insert_eq by lia. rewrite decide_True by done. lia.
      * rewrite list_lookup_total_insert_ne by done. rewrite decide_False by congruence. lia.
Qed.

(** ** Positions *)

(** The rows of the slots before [s]. *)
Definition base (items : list (nat * Z)) (s : nat) : nat :=
  length (concat (map (fun j => rows_of j items) (seq 0 s))).

Lemma base_S items s : base items (S s) = base items s + occ s items.
Proof.
  unfold base, occ. rewrite seq_S, map_app, concat_app, length_app. simpl. by rewrite app_nil_r.
Qed.

Lemma base_mono items s s' : s < s' -> base items s + occ s items <= base items s'.
Proof.
  intros H. rewrite <- base_S. induction H as [|s' _ IH]; [done|]. rewrite (base_S items s'). lia.
Qed.

(** The rows with a slot are at most all rows. *)
Lemma base_bound items s : base items s <= length items.
Proof.
  induction items as [|item items IH].
  { clear. unfold base. induction (seq 0 s) as [|x l IH]; simpl; [done|]. exact IH. }
  assert (G : forall k, base (item :: items) k
    = base items k + (match item_slot item with Some j => if decide (j < k) then 1 else 0 | None => 0 end)).
  { induction k as [|k IHk].
    - change (base (item :: items) 0) with 0. change (base items 0) with 0.
      destruct (item_slot item) as [j|]; [case_decide; lia | done].
    - rewrite !base_S, IHk, occ_cons. destruct (item_slot item) as [j|].
      + destruct (decide (j = k)) as [->|]; repeat case_decide; simplify_eq; lia.
      + destruct (decide (None = Some k)); [done | lia]. }
  rewrite G. simpl. destruct (item_slot item); [case_decide; lia | lia].
Qed.

Lemma scan_from_lookup sum l i x :
  (forall k, k <= length l -> (0 <= sum + total (take k l) <= INT32_MAX)%Z) ->
  l !! i = Some x -> scan_from sum l !! i = Some (sum + total (take (S i) l))%Z.
Proof.
  revert sum i. induction l as [|y l IH]; intros sum i Hb Hi; [done|].
  assert (B1 : (0 <= sum + y <= INT32_MAX)%Z).
  { specialize (Hb 1 ltac:(simpl; lia)). simpl in Hb. lia. }
  assert (E : s32 (sum + y) = (sum + y)%Z) by (unfold INT32_MAX in *; apply s32_small; lia).
  cbn [scan_from]. rewrite E. destruct i as [|i]; simpl in *.
  - f_equal. lia.
  - rewrite (IH (sum + y)%Z i); [f_equal; simpl; lia | | done].
    intros k Hk. specialize (Hb (S k) ltac:(lia)). simpl in Hb. lia.
Qed.

(** The positions that the second pass stores. *)
Lemma positions_spec items counts tc :
  length counts = n -> 0 < n -> (Z.of_nat (length items) <= INT32_MAX)%Z ->
  (forall s, s < n -> counts !!! s = Z.of_nat (occ s items)) ->
  forall s, s < n ->
  inclusive_scan (0%Z :: take (n - 1) counts) tc !! s = Some (Z.of_nat (base items s)).
Proof.
  intros Hl Hn Hb Hc s Hs. rewrite inclusive_scan_sequential.
  assert (T : forall k, k <= n -> total (take k (0%Z :: take (n - 1) counts))
    = Z.of_nat (base items (k - 1))).
  { intros [|k] Hk; [done|]. simpl. rewrite Nat.sub_0_r, take_take.
    replace (k `min` (n - 1)) with k by lia. fold (total (take k counts)). clear s Hs.
    induction k as [|k IH]; [done|].
    assert (Ek : counts !! k = Some (Z.of_nat (occ k items))).
    { rewrite <- Hc by lia. apply list_lookup_lookup_total_lt. lia. }
    rewrite (take_S_r _ _ _ Ek), total_cat, base_S. simpl. specialize (IH ltac:(lia)).
    lia. }
  assert (Hx : exists x, (0%Z :: take (n - 1) counts) !! s = Some x).
  { apply lookup_lt_is_Some_2. simpl. rewrite length_take. lia. }
  destruct Hx as [x Hx]. rewrite (scan_from_lookup 0 _ s x).
  - rewrite T by lia. rewrite Z.add_0_l. simpl. by rewrite Nat.sub_0_r.
  - intros k Hk. simpl in Hk. rewrite length_take in Hk. rewrite T by lia.
    pose proof (base_bound items (k - 1)). lia.
  - done.
Qed.

Lemma set_positions_lookup counts positions pos s c p q :
  counts !! s = Some c -> positions !! s = Some p -> pos !! s = Some q ->
  set_positions counts positions pos !! s = Some (if (c =? 0)%Z then q else p).
Proof.
  revert counts positions pos. induction s as [|s IH]; intros [|c0 counts] [|p0 positions] [|q0 pos]
    Hc Hp Hq; simpl in *; try done; [by simplify_eq | auto].
Qed.

Lemma set_positions_length counts positions pos :
  length positions = length counts -> length pos = length counts ->
  length (set_positions counts positions pos) = length counts.
Proof.
  revert positions pos. induction counts as [|c counts IH]; intros [|p positions] [|q pos] Hp Hq;
    simpl in *; try done. f_equal. apply IH; lia.
Qed.

(** ** Row ids *)

Section Fill.

(** [all] are the rows of the column. *)
Context (all : list (nat * Z)) (pos : mem) (ids_len : nat).
Context (Hpos : forall s, s < n -> 0 < occ s all -> pos !!! s = Z.of_nat (base all s)).
Context (Hlen : length pos = n) (Hids : base all n <= ids_len).
Context (Hall : (Z.of_nat (length all) <= INT32_MAX)%Z).

(** The rows [done_] are in the table. *)
Definition stored (b : OneToMany) (done_ : list (nat * Z)) : Prop :=
  pos_buff b = pos /\ length (count_buff b) = n /\ length (id_buff b) = ids_len /\
  (forall s, s < n -> count_buff b !!! s = Z.of_nat (occ s done_)) /\
  (forall s k item, s < n -> rows_of s done_ !! k = Some item ->
     id_buff b !! (base all s + k) = Some (Z.of_nat (fst item))).

(** The cells of different rows are different. *)
Lemma cells_disjoint done_ s s' k k' :
  (forall j, j < n -> occ j done_ <= occ j all) -> s < n -> s' < n ->
  k < occ s done_ -> k' < occ s' done_ -> base all s + k = base all s' + k' -> s = s' /\ k = k'.
Proof.
  intros Hsub Hs Hs' Hk Hk' E.
  pose proof (Hsub s Hs). pose proof (Hsub s' Hs').
  destruct (Nat.lt_trichotomy s s') as [L|[->|L]]; [|lia|].
  - pose proof (base_mono all s s' L). lia.
  - pose proof (base_mono all s' s L). lia.
Qed.

Lemma cell_in_buffer s k : s < n -> k < occ s all -> base all s + k < ids_len.
Proof.
  intros Hs Hk. assert (base all s + occ s all <= base all n); [|lia].
  destruct (decide (S s = n)) as [<-|]; [by rewrite base_S|].
  pose proof (base_mono all s n ltac:(lia)). lia.
Qed.

Lemma fill_row_id_spec b done_ item :
  stored b done_ -> item_ok item ->
  (forall j, j < n -> occ j (done_ ++ [item]) <= occ j all) ->
  exists b', fill_row_id ti tm mie sel item b = Ok b' /\ stored b' (done_ ++ [item]).
Proof.
  intros (Ep & Lc & Li & Hc & Hi) Hok Hsub. unfold fill_row_id.
  destruct item as [idx elem].
  destruct (item_cases ti tm mie sel n _ Hok) as [[Ek Es]|(key & s & Ek & Esel & Es & Hs)];
    simpl in Ek; rewrite Ek; cbn [rbind].
  - exists b. split; [done|]. split; [done|]. split; [done|]. split; [done|].
    assert (R : forall j, rows_of j (done_ ++ [(idx, elem)]) = rows_of j done_).
    { intros j. unfold rows_of. rewrite filter_app, filter_cons_False by congruence. by rewrite app_nil_r. }
    split; [intros j Hj; unfold occ; by rewrite R, Hc | intros j k item Hj; by rewrite R; apply Hi].
  - assert (Rs : rows_of s (done_ ++ [(idx, elem)]) = rows_of s done_ ++ [(idx, elem)])
      by (unfold rows_of; by rewrite filter_app, filter_cons_True).
    assert (Rn : forall j, j <> s -> rows_of j (done_ ++ [(idx, elem)]) = rows_of j done_).
    { intros j Hj. unfold rows_of. rewrite filter_app, filter_cons_False by congruence. by rewrite app_nil_r. }
    assert (Os : occ s (done_ ++ [(idx, elem)]) = S (occ s done_))
      by (unfold occ; rewrite Rs, length_app; simpl; lia).
    pose proof (Hsub s Hs) as Hcap. rewrite Os in Hcap.
    pose proof (cell_in_buffer s (occ s done_) Hs ltac:(lia)) as Hcell.
    pose proof (base_bound all s) as Bb. pose proof (occ_length s all) as Bo.
    assert (Bsum : base all s + occ s all <= length all) by (rewrite <- base_S; apply base_bound).
    unfold INT32_MAX in *. rewrite Ep, Esel, load_at by lia. cbn [mem_result rbind].
    rewrite load_at by lia. cbn [mem_result rbind]. rewrite store_at by lia. cbn [mem_result rbind].
    rewrite Hpos, Hc by (done || lia).
    rewrite (s32_small (Z.of_nat (occ s done_) + Z.of_nat (base all s))) by lia.
    replace (Z.of_nat (occ s done_) + Z.of_nat (base all s))%Z with (Z.of_nat (base all s + occ s done_)) by lia.
    rewrite store_at by lia. cbn [mem_result rbind].
    pose proof (item_index ti tm mie sel n _ Hok) as Eidx. simpl in Eidx. rewrite Eidx.
    rewrite s32_small by lia. eexists. split; [done|]. split; [done|]. simpl.
    split; [by rewrite length_insert|]. split; [by rewrite length_insert|]. split.
    + intros j Hj. destruct (decide (j = s)) as [->|].
      * rewrite list_lookup_total_insert_eq by lia. rewrite Os. lia.
      * rewrite list_lookup_total_insert_ne by done. unfold occ. by rewrite Rn, Hc.
    + intros j k item Hj Hk. destruct (decide (base all j + k = base all s + occ s done_)) as [E|N].
      * assert (Kl : k < occ j (done_ ++ [(idx, elem)])) by (unfold occ; by eapply lookup_lt_Some).
        destruct (cells_disjoint (done_ ++ [(idx, elem)]) j s k (occ s done_)) as [-> ->];
          try done; [by rewrite Os; lia|].
        rewrite Rs, lookup_app_r in Hk by (unfold occ; lia). unfold occ in Hk.
        rewrite Nat.sub_diag in Hk. injection Hk as <-. apply list_lookup_insert_eq. lia.
      * rewrite list_lookup_insert_ne by done. apply (Hi j k item Hj).
        destruct (decide (j = s)) as [->|]; [|by rewrite Rn in Hk].
        rewrite Rs, lookup_app in Hk. destruct (rows_of s done_ !! k) eqn:Ek'; [done|].
        exfalso. apply lookup_ge_None in Ek'. apply N. f_equal.
        apply lookup_lt_Some in Hk. simpl in Hk. fold (occ s done_) in *. lia.
Qed.

Lemma fill_row_ids_spec items b done_ :
  stored b done_ -> Forall item_ok items ->
  (forall j, j < n -> occ j (done_ ++ items) <= occ j all) ->
  exists b', fill_row_ids_impl ti tm mie sel items b = Ok b' /\ stored b' (done_ ++ items).
Proof.
  intros Hst Hok. revert b done_ Hst. induction Hok as [|item items Hi Hok IH]; intros b done_ Hst Hsub.
  { exists b. rewrite app_nil_r. done. }
  cbn [fill_row_ids_impl].
  destruct (fill_row_id_spec b done_ item Hst Hi) as (b' & -> & Hst').
  { intros j Hj. specialize (Hsub j Hj). rewrite !occ_app in *. rewrite occ_cons in Hsub.
    rewrite occ_cons. change (occ j []) with 0. lia. }
  cbn [rbind]. destruct (IH b' (done_ ++ [item]) Hst') as (b'' & -> & Hst'').
  { intros j Hj. rewrite <- app_assoc. by apply Hsub. }
  exists b''. split; [done|]. by rewrite <- app_assoc in Hst''.
Qed.

End Fill.

End Many.

(** * Keys and slots of a perfect join hash table

    The rows of the inner column, the slices of the threads, the slots of the keys, and runs of
    the threads that fill a table. *)

(** ** Rows of a column *)

(** The rows of a column with their elements. *)
Definition all_rows (ess : list (list Z)) : list (nat * Z) := items ess (seq 0 (length (concat ess))).

Lemma all_rows_elem ess i e : (i, e) ∈ all_rows ess <-> concat ess !! i = Some e.
Proof.
  unfold all_rows, items. rewrite list_elem_of_In, in_map_iff. split.
  - intros (j & [= -> <-] & Hj%in_seq). apply list_lookup_lookup_total_lt. lia.
  - intros H. exists i. rewrite (list_lookup_total_correct _ _ _ H). split; [done|].
    apply lookup_lt_Some in H. apply in_seq. lia.
Qed.

Lemma all_rows_index ess : map fst (all_rows ess) = seq 0 (length (concat ess)).
Proof. unfold all_rows, items. rewrite map_map. simpl. apply map_id. Qed.

Lemma all_rows_nodup ess : NoDup (all_rows ess).
Proof. apply (NoDup_fmap_1 fst). change (NoDup (map fst (all_rows ess))). rewrite all_rows_index. apply NoDup_seq. Qed.

(** The rows of [t] of [T] threads. *)
Definition thread_rows (jc : JoinColumn) (ess : list (list Z)) (T t : nat) : list (nat * Z) :=
  items ess (strided (num_elems jc) t T (num_elems jc)).

Definition thread_slices (jc : JoinColumn) (ess : list (list Z)) (T : nat) : list (list (nat * Z)) :=
  map (thread_rows jc ess T) (seq 0 T).

Lemma thread_slices_all jc ti ess T :
  column_holds jc ti ess -> 0 < T -> concat (thread_slices jc ess T) ≡ₚ all_rows ess.
Proof.
  intros [_ E] HT. unfold thread_slices, thread_rows, all_rows.
  rewrite E. unfold items.
  transitivity (map (fun i => (i, concat ess !!! i))
    (concat (map (fun t => strided (length (concat ess)) t T (length (concat ess))) (seq 0 T)))).
  - by rewrite concat_map, map_map.
  - apply Permutation_map, slices_permutation. done.
Qed.

(** The rows of [col.slice(t, T)] of all threads. *)
Definition slices_of (jc : JoinColumn) (ti : JoinColumnTypeInfo) (T : nat)
    (slices : list (list (nat * Z))) : Prop :=
  length slices = T /\ forall t, t < T -> slice jc ti t T = Ok (slices !!! t).

Lemma slices_of_rows jc ti ess T slices :
  column_holds jc ti ess -> 0 < T -> slices_of jc ti T slices -> slices = thread_slices jc ess T.
Proof.
  intros Hc HT [Hl Hs]. apply list_eq_same_length with T;
    [by unfold thread_slices; rewrite length_map, length_seq | done |].
  intros t x y Ht Hx Hy. specialize (Hs t Ht). rewrite (slice_spec jc ti ess Hc) in Hs by done.
  injection Hs as Hs. rewrite (list_lookup_total_correct _ _ _ Hx) in Hs. subst x.
  unfold thread_slices in Hy. apply list_lookup_fmap_Some in Hy as (t' & -> & Hy).
  apply lookup_seq in Hy as [-> _]. done.
Qed.

Lemma slices_of_exist jc ti ess T :
  column_holds jc ti ess -> 0 < T -> slices_of jc ti T (thread_slices jc ess T).
Proof.
  intros Hc HT. split; [unfold thread_slices; by rewrite length_map, length_seq|].
  intros t Ht. rewrite (slice_spec jc ti ess Hc) by done. f_equal. symmetry.
  apply list_lookup_total_correct. unfold thread_slices. apply list_lookup_fmap_Some.
  exists t. split; [done|]. apply lookup_seq. lia.
Qed.

(** ** Keys *)

Section Table.

Context (jc : JoinColumn) (ti : JoinColumnTypeInfo) (tm : option (list Z)) (mie : Z).
Context (ess : list (list Z)) (T n : nat).

(** Row [i] of the column has the key [key]. *)
Definition row_key (i : nat) (key : Z) : Prop :=
  exists e, concat ess !! i = Some e /\ join_key ti tm mie e = Ok (Some key).

(** A table of [n] entries has an entry for every key of the column; rows are numbered with
    32-bit integers. *)
Definition table_fits : Prop :=
  (Z.of_nat n <= INT32_MAX)%Z /\ (Z.of_nat (length (concat ess)) <= INT32_MAX)%Z /\
  forall e, e ∈ concat ess -> exists r, join_key ti tm mie e = Ok r /\
    forall key, r = Some key -> (min_val ti <= key < min_val ti + Z.of_nat n)%Z.

Abbreviation slot := (fun key => get_hash_slot key (min_val ti)).
Abbreviation islot := (item_slot ti tm mie slot).

Context (Hfit : table_fits).

Lemma slot_small key :
  (min_val ti <= key < min_val ti + Z.of_nat n)%Z -> get_hash_slot key (min_val ti) = (key - min_val ti)%Z.
Proof.
  intros H. destruct Hfit as (Hn & _). unfold get_hash_slot, INT32_MAX in *. apply s64_small. lia.
Qed.

Lemma rows_ok : Forall (item_ok ti tm mie slot n) (all_rows ess).
Proof.
  apply Forall_forall. intros [i e] Hin%all_rows_elem. pose proof Hfit as (Hn & Hr & Hk). split; simpl.
  - apply lookup_lt_Some in Hin. lia.
  - destruct (Hk e) as (r & E & H); [by eapply list_elem_of_lookup_2|]. exists r. split; [done|].
    intros key ->. specialize (H key eq_refl). rewrite slot_small by done. lia.
Qed.

(** The rows of a slot are the rows of the key of the slot. *)
Lemma slot_key i e key :
  (min_val ti <= key < min_val ti + Z.of_nat n)%Z -> concat ess !! i = Some e ->
  islot (i, e) = Some (Z.to_nat (key - min_val ti)) <-> join_key ti tm mie e = Ok (Some key).
Proof.
  intros Hkey Hi. unfold item_slot. simpl. pose proof Hfit as (_ & _ & Hk).
  destruct (Hk e) as (r & E & H); [by eapply list_elem_of_lookup_2|]. rewrite E.
  destruct r as [key'|]; [|done]. specialize (H key' eq_refl). rewrite slot_small by done.
  split; [intros [= Es]; do 2 f_equal; lia | by intros [= ->]].
Qed.

Lemma slot_row key :
  (min_val ti <= key < min_val ti + Z.of_nat n)%Z ->
  Z.to_nat (key - min_val ti) ∈ row_slots ti tm mie slot (all_rows ess) <-> exists i, row_key i key.
Proof.
  intros Hkey. rewrite row_slots_elem. split.
  - intros ([i e] & Hin%all_rows_elem & Es). apply slot_key in Es; [|done..]. exists i, e. done.
  - intros (i & e & Hin & Ek). exists (i, e). rewrite all_rows_elem. split; [done|]. by apply slot_key.
Qed.

Lemma row_key_range i key : row_key i key -> (min_val ti <= key < min_val ti + Z.of_nat n)%Z.
Proof.
  intros (e & Hi & Ek). pose proof Hfit as (_ & _ & Hk).
  destruct (Hk e) as (r & E & B); [by eapply list_elem_of_lookup_2|].
  rewrite Ek in E. injection E as <-. by apply B.
Qed.

Lemma row_slots_distinct sel (l : list (nat * Z)) :
  NoDup l -> NoDup (row_slots ti tm mie sel l) <->
  forall x y s, x ∈ l -> y ∈ l -> item_slot ti tm mie sel x = Some s ->
    item_slot ti tm mie sel y = Some s -> x = y.
Proof.
  induction 1 as [|x l Nx Nl IH]; [split; [set_solver | constructor]|].
  unfold row_slots in *. simpl. destruct (item_slot ti tm mie sel x) as [s|] eqn:Ex.
  - rewrite NoDup_cons, IH. split.
    + intros [Hs Hl] a b s' [->|Ha]%elem_of_cons [->|Hb]%elem_of_cons Ea Eb; [done | | |by eauto];
        exfalso; apply Hs, list_elem_of_omap; (rewrite Ex in Ea || rewrite Ex in Eb); simplify_eq; eauto.
    + intros H. split; [|intros a b s' Ha Hb; apply H; set_solver].
      intros (y & Hy & Ey)%list_elem_of_omap. apply Nx. rewrite (H x y s); set_solver.
  - rewrite IH. split; intros H a b s'; [|intros Ha Hb; apply H; set_solver].
    intros [->|Ha]%elem_of_cons [->|Hb]%elem_of_cons Ea Eb; [congruence..|by eauto].
Qed.

(** Different slots are different keys. *)
Lemma slots_distinct :
  NoDup (row_slots ti tm mie slot (all_rows ess)) <->
  forall i j key, row_key i key -> row_key j key -> i = j.
Proof.
  rewrite row_slots_distinct by apply all_rows_nodup. split.
  - intros H i j key (e & Hi & Ei) (e' & Hj & Ej).
    assert (Hkey := row_key_range i key (ex_intro _ e (conj Hi Ei))).
    assert (E : (i, e) = (j, e')); [|congruence].
    apply (H _ _ (Z.to_nat (key - min_val ti))); try (by apply all_rows_elem); by apply slot_key.
  - intros H [i e] [j e'] s Hi%all_rows_elem Hj%all_rows_elem Es Es'.
    pose proof rows_ok as Hok. rewrite Forall_forall in Hok.
    destruct (item_cases ti tm mie slot n (i, e) (Hok _ (proj2 (all_rows_elem _ _ _) Hi)))
      as [[_ ?]|(key & s1 & Ek & _ & Es1 & _)]; [congruence|].
    destruct (item_cases ti tm mie slot n (j, e') (Hok _ (proj2 (all_rows_elem _ _ _) Hj)))
      as [[_ ?]|(key' & s2 & Ek' & _ & Es2 & _)]; [congruence|]. simpl in *.
    assert (Hkey := row_key_range i key (ex_intro _ e (conj Hi Ek))).
    assert (i = j) as ->; [|by simplify_eq]. apply (H i j key); [by exists e|]. exists e'. split; [done|].
    apply slot_key with j; [done..|]. rewrite Es'. apply (slot_key i e key Hkey Hi) in Ek. congruence.
Qed.

(** ** One-to-one tables *)

(** The threads at the start. *)
Definition start_threads (slices : list (list (nat * Z))) : list (list (nat * Z) * Z) :=
  (fun items => (items, 0%Z)) <$> slices.

Abbreviation step := (fill_step ti tm mie slot (-1)%Z false).

(** What probing finds in a table with all rows. *)
Lemma probe_holds buff key max_key :
  holds ti tm mie slot (-1)%Z n buff (all_rows ess) -> (max_key < min_val ti + Z.of_nat n)%Z ->
  (key <= max_key)%Z ->
  (forall i, row_key i key -> hash_join_idx buff key (min_val ti) max_key = Ok (Z.of_nat i)) /\
  ((forall i, ~ row_key i key) -> hash_join_idx buff key (min_val ti) max_key = Ok (-1)%Z).
Proof.
  intros (Hl & _ & Hd & He) Hmax Hkey. unfold hash_join_idx.
  rewrite (proj2 (Z.leb_le key max_key) Hkey), andb_true_r. split.
  - intros i Hi. assert (R := row_key_range i key Hi). destruct Hi as (e & Hi & Ek).
    rewrite (proj2 (Z.leb_le _ _)) by lia. rewrite slot_small by done.
    replace (key - min_val ti)%Z with (Z.of_nat (Z.to_nat (key - min_val ti))) by lia.
    rewrite load_at by lia. cbn [mem_result]. f_equal. apply list_lookup_total_correct.
    apply (Hd (i, e)); [by apply all_rows_elem|]. by apply slot_key.
  - intros Hnone. destruct (Z.leb_spec (min_val ti) key); [|done]. rewrite slot_small by lia.
    replace (key - min_val ti)%Z with (Z.of_nat (Z.to_nat (key - min_val ti))) by lia.
    rewrite load_at by lia. cbn [mem_result]. f_equal. apply list_lookup_total_correct.
    apply He; [lia|]. rewrite slot_row by lia. by intros [i ?%Hnone].
Qed.

(** A thread takes a row off what is left with every step. *)
Lemma fill_step_shorter st st' :
  step st st' -> length (concat (fst <$> snd st')) < length (concat (fst <$> snd st)).
Proof.
  intros [buff buff' threads t item items err code Ht _]. simpl.
  rewrite (left_row threads t item items code Ht). simpl. apply Nat.lt_succ_r.
  destruct (err =? 0)%Z; [done|]. rewrite !list_fmap_insert. simpl.
  apply submseteq_length. rewrite <- (list_insert_insert_eq (fst <$> threads) t [] items).
  apply concat_clear.
Qed.

Lemma fill_steps_bound m st st' :
  nsteps step m st st' -> m + length (concat (fst <$> snd st')) <= length (concat (fst <$> snd st)).
Proof.
  induction 1 as [|m st1 st2 st3 H _ IH]; [done|]. apply fill_step_shorter in H. lia.
Qed.

(** The loop of a single thread is a run of one thread. *)
Lemma fill_impl_run sel items buff code buff' :
  fill_hash_join_buff_impl ti tm mie sel (-1)%Z false items buff = Ok (code, buff') ->
  rtc (fill_step ti tm mie sel (-1)%Z false) (buff, [(items, 0%Z)]) (buff', [([], code)]).
Proof.
  revert buff. induction items as [|item items IH]; intros buff H; simpl in H.
  { injection H as <- <-. done. }
  destruct (fill_row ti tm mie sel (-1)%Z false item buff) as [[err buff1]|] eqn:E; [|done]. cbn [rbind] in H.
  eapply rtc_l; [by apply (fill_step_row ti tm mie sel (-1)%Z false buff buff1 [(item :: items,
    0%Z)] 0 item items err 0%Z)|].
  simpl. destruct (err =? 0)%Z; [by apply IH|]. injection H as <- <-. done.
Qed.

Context (Hc : column_holds jc ti ess) (HT : 0 < T).

Lemma fill_run slices st :
  slices_of jc ti T slices -> rtc step (repeat (-1)%Z n, start_threads slices) st ->
  filling ti tm mie slot (-1)%Z n (concat slices) st /\ Forall (item_ok ti tm mie slot n) (concat slices) /\
  concat slices ≡ₚ all_rows ess.
Proof.
  intros ->%(slices_of_rows _ _ _ _ _ Hc HT) Hrun.
  assert (Hp := thread_slices_all jc ti ess T Hc HT).
  assert (Hok : Forall (item_ok ti tm mie slot n) (concat (thread_slices jc ess T)))
    by (rewrite Hp; apply rows_ok).
  split; [|done].
  refine (rtc_ind_r (filling ti tm mie slot (-1) n (concat (thread_slices jc ess T))) _ _ _ _ Hrun).
  - by apply filling_start.
  - intros st1 st2 _ Hst. by apply fill_step_keeps.
Qed.

(** The table after all threads have returned without an error. *)
Lemma run_holds slices buff threads :
  slices_of jc ti T slices -> rtc step (repeat (-1)%Z n, start_threads slices) (buff, threads) ->
  finished threads -> no_error threads -> holds ti tm mie slot (-1)%Z n buff (all_rows ess).
Proof.
  intros Hs Hrun Hfin Hz. destruct (fill_run slices _ Hs Hrun) as (Hf & _ & Hp).
  apply (holds_permutation _ _ _ _ _ _ _ _ _ Hp). by apply (filling_finished _ _ _ _ _ _ _ _ _ Hf Hfin).
Qed.

(** ** Semi-joins *)

Abbreviation semi_step := (fill_step ti tm mie slot (-1)%Z true).

(** Every slot of a row that was taken holds such a row. *)
Definition semi_holds (buff : mem) (done_ : list (nat * Z)) : Prop :=
  length buff = n /\ forall s, s < n ->
    (exists item, item ∈ done_ /\ islot item = Some s /\ buff !! s = Some (Z.of_nat (fst item))) \/
    (s ∉ row_slots ti tm mie slot done_ /\ buff !! s = Some (-1)%Z).

Lemma semi_row_spec item buff done_ :
  item_ok ti tm mie slot n item -> semi_holds buff done_ ->
  exists buff', fill_row ti tm mie slot (-1)%Z true item buff = Ok (0%Z, buff') /\ semi_holds buff' (item :: done_).
Proof.
  intros Hi [Hl Hh]. destruct item as [idx elem]. unfold fill_row.
  destruct (item_cases _ _ _ _ _ _ Hi) as [[Ek Es]|(key & s & Ek & Esel & Es & Hs)]; simpl in Ek; rewrite Ek; cbn [rbind].
  - exists buff. split; [done|]. split; [done|]. intros s Hs.
    unfold row_slots. simpl. rewrite Es. destruct (Hh s Hs) as [(it & Hin & ?)|]; [left | by right].
    exists it. set_solver.
  - unfold fill_hashtable_for_semi_join, insert_key_cas. rewrite Esel, load_at by lia. cbn [mem_result rbind].
    destruct (Hh s Hs) as [(it & Hin & Eit & B)|[N B]]; rewrite (list_lookup_total_correct _ _ _ B).
    + destruct (Z.eqb_spec (Z.of_nat (fst it)) (-1)); [lia|]. cbn [rbind]. exists buff. split; [done|].
      split; [done|]. intros s' Hs'. unfold row_slots. simpl. rewrite Es.
      destruct (decide (s' = s)) as [->|Ns]; [left; exists it; set_solver|].
      destruct (Hh s' Hs') as [(it' & ?)|[N' ?]]; [left; exists it'; set_solver | right; set_solver].
    + rewrite Z.eqb_refl, store_at by lia. cbn [mem_result rbind].
      pose proof (item_index _ _ _ _ _ _ Hi) as Ei. simpl in Ei. rewrite Ei. eexists. split; [done|].
      split; [by rewrite length_insert|]. intros s' Hs'. unfold row_slots. simpl. rewrite Es.
      destruct (decide (s' = s)) as [->|Ns].
      * left. exists (idx, elem). split; [set_solver|]. split; [done|]. apply list_lookup_insert_eq. lia.
      * rewrite list_lookup_insert_ne by done.
        destruct (Hh s' Hs') as [(it' & ?)|[N' ?]]; [left; exists it'; set_solver | right; set_solver].
Qed.

(** The invariant of the threads of a semi-join. *)
Definition semi_filling (all : list (nat * Z)) (st : mem * list (list (nat * Z) * Z)) : Prop :=
  exists done_, semi_holds (fst st) done_ /\ concat (fst <$> snd st) ++ done_ ≡ₚ all /\ no_error (snd st).

Lemma semi_step_keeps all st st' :
  Forall (item_ok ti tm mie slot n) all -> semi_step st st' -> semi_filling all st -> semi_filling all st'.
Proof.
  intros Hok [buff buff' threads t item items err code Ht Hr] (done_ & Hh & Hp & Hz). simpl in *.
  assert (Hi : item_ok ti tm mie slot n item).
  { rewrite Forall_forall in Hok. apply Hok. rewrite <- Hp.
    rewrite (left_row threads t item items code Ht). set_solver. }
  destruct (semi_row_spec item buff done_ Hi Hh) as (buff1 & Hr' & Hh').
  rewrite Hr in Hr'. injection Hr' as -> ->. simpl. exists (item :: done_). simpl. split; [done|]. split.
  - rewrite <- Hp, <- Permutation_middle. by rewrite (left_row threads t item items code Ht).
  - apply Forall_insert; [done|]. exact (no_error_at _ _ _ _ Hz Ht).
Qed.

Lemma semi_run slices st :
  slices_of jc ti T slices -> rtc semi_step (repeat (-1)%Z n, start_threads slices) st ->
  semi_filling (all_rows ess) st.
Proof.
  intros ->%(slices_of_rows _ _ _ _ _ Hc HT) Hrun.
  refine (rtc_ind_r (semi_filling (all_rows ess)) _ _ _ _ Hrun).
  - exists []. simpl. split; [|split].
    + split; [apply repeat_length|]. intros s Hs. right. split; [set_solver|].
      by rewrite repeat_replicate, lookup_replicate_2.
    + rewrite app_nil_r, <- (thread_slices_all jc ti ess T Hc HT). unfold start_threads.
      rewrite <- list_fmap_compose. apply reflexive_eq. f_equal.
      rewrite <- (list_fmap_id (thread_slices jc ess T)) at 2. by apply list_fmap_ext.
    + apply Forall_fmap, Forall_true. done.
  - intros st1 st2 _ Hst. apply semi_step_keeps; [apply rows_ok | done].
Qed.

End Table.
