(* ===== verification/JoinProps.v ===== *)
(** * What a perfect join hash table finds

    The tables of [HashJoinRuntime] against the relational meaning of an equi-join: for every
    schedule of the threads that build a table, probing it with a key finds the rows of the inner
    column with that key. *)

From Stdlib Require Import ZArith Lia List Bool.
From stdpp Require Import base list numbers relations sets.
From S2P Require Import Prelude JoinColumn GroupByRuntime GroupByLayouts HashJoinRuntime JoinHashFacts JoinTableFacts.
Import ListNotations.
Local Open Scope nat_scope.
Local Open Scope hdk_scope.

(** The initial state of the threads that fill a table of [n] entries. *)
Definition fill_start (n : nat) (slices : list (list (nat * Z))) : mem * list (list (nat * Z) * Z) :=
  (repeat (-1)%Z n, start_threads slices).

(** A step of the threads of [fill_hash_join_buff]. *)
Definition perfect_step (ti : JoinColumnTypeInfo) (tm : option (list Z)) (mie : Z) (for_semi_join : bool) :=
  fill_step ti tm mie (fun key => get_hash_slot key (min_val ti)) (-1)%Z for_semi_join.

Lemma fill_start_length jc ti ess T n slices :
  column_holds jc ti ess -> 0 < T -> slices_of jc ti T slices ->
  length (concat (fst <$> snd (fill_start n slices))) = length (concat ess).
Proof.
  intros Hc HT ->%(slices_of_rows _ _ _ _ _ Hc HT). simpl. unfold start_threads.
  rewrite <- list_fmap_compose.
  assert (E : (fst ∘ (fun items : list (nat * Z) => (items, 0%Z))) <$> thread_slices jc ess T = thread_slices jc ess T)
    by (rewrite <- (list_fmap_id (thread_slices jc ess T)) at 2; by apply list_fmap_ext).
  rewrite E, (thread_slices_all jc ti ess T Hc HT). unfold all_rows, items.
  by rewrite length_map, length_seq.
Qed.

(** All threads have returned, or one of them has a row left. *)
Lemma finished_or_left (threads : list (list (nat * Z) * Z)) :
  finished threads \/ exists t item items code, threads !! t = Some (item :: items, code).
Proof.
  induction threads as [|[[|item items] code] threads IH]; [left; constructor | |].
  - destruct IH as [H|(t & H)]; [left; by constructor | right; by exists (S t)].
  - right. exists 0. simpl. eauto.
Qed.

(** [C19] Threads that build a one-to-one table from a column cut into chunks, each with its slice of
    the rows and in any order of their atomic steps, always get to the end, after at most one step
    per row.  Then some thread reports a conflict (a nonzero code) exactly if two rows have the same
    key; if none does, probing with a key gives the row with that key, and -1 if there is none. *)
Theorem one_to_one_join jc ti tm mie ess T n slices :
  column_holds jc ti ess -> 0 < T -> table_fits ti tm mie ess n -> slices_of jc ti T slices ->
  (forall m st, nsteps (perfect_step ti tm mie false) m (fill_start n slices) st -> m <= length (concat ess)) /\
  forall buff threads, rtc (perfect_step ti tm mie false) (fill_start n slices) (buff, threads) ->
    (finished threads \/ exists st, perfect_step ti tm mie false (buff, threads) st) /\
    (finished threads ->
      (no_error threads <->
        forall i j key, row_key ti tm mie ess i key -> row_key ti tm mie ess j key -> i = j) /\
      (no_error threads -> forall key max_key,
        (key <= max_key)%Z -> (max_key < min_val ti + Z.of_nat n)%Z ->
        (forall i, row_key ti tm mie ess i key ->
           hash_join_idx buff key (min_val ti) max_key = Ok (Z.of_nat i)) /\
        ((forall i, ~ row_key ti tm mie ess i key) ->
           hash_join_idx buff key (min_val ti) max_key = Ok (-1)%Z))).
Proof.
  intros Hc HT Hfit Hs. split.
  { intros m st Hm. apply fill_steps_bound in Hm.
    rewrite (fill_start_length jc ti ess T) in Hm by done. lia. }
  intros buff threads Hrun.
  destruct (fill_run jc ti tm mie ess T n Hfit Hc HT slices _ Hs Hrun) as (Hf & Hok & Hp). split.
  { destruct (finished_or_left threads) as [|(t & item & items & code & Ht)]; [by left | right].
    by apply (fill_step_progress ti tm mie _ (-1) n ltac:(done) (concat slices) buff threads t item items code). }
  intros Hfin. split.
  - rewrite (proj1 (filling_finished _ _ _ _ _ _ _ _ _ Hf Hfin)), (row_slots_permutation _ _ _ _ _ _ Hp).
    exact (slots_distinct ti tm mie ess n Hfit).
  - intros Hz key max_key Hk Hmax. apply (probe_holds ti tm mie ess n Hfit); [|done..].
    by apply (run_holds jc ti tm mie ess T n Hfit Hc HT slices buff threads).
Qed.

(** ** An example *)

(** A column of 32-bit integers in two chunks; the third row is null. *)
Definition ex_ti (bw : bool) : JoinColumnTypeInfo := mkJoinColumnTypeInfo 4 3 7 INT32_MIN bw 8 Signed.
Definition ex_ess : list (list Z) := [[5; 3]; [INT32_MIN; 7]]%Z.
Definition ex_column (ess : list (list Z)) : JoinColumn :=
  mkJoinColumn (map (fun es => mkJoinChunk (Some (encode_column 4 es)) (length es)) ess) (length (concat ess)).

Lemma ex_column_holds ess bw :
  Forall (Forall (fun e => (INT32_MIN <= e <= INT32_MAX)%Z)) ess -> column_holds (ex_column ess) (ex_ti bw) ess.
Proof.
  intros H. split; [|done]. simpl. induction H as [|es ess Hes _ IH]; constructor; [|done].
  split; [done|]. eexists. split; [done|]. intros i e Hi. unfold getElementSwitch. simpl.
  rewrite (fixed_width_int_decode_encoded 4 es i e); [done..|].
  rewrite Forall_lookup in Hes. specialize (Hes _ _ Hi). unfold INT32_MIN, INT32_MAX in Hes. lia.
Qed.

Lemma ex_fits bw : table_fits (ex_ti bw) None 0 ex_ess 6.
Proof.
  split; [done|]. split; [done|]. intros e He.
  assert (H : (e = 5 \/ e = 3 \/ e = INT32_MIN \/ e = 7)%Z) by (simpl in He; set_solver).
  destruct H as [-> | [-> | [-> | ->]]], bw; eexists; (split; [reflexivity|]); intros ? [=<-]; simpl; lia.
Qed.

(** The rows of two threads. *)
Definition ex_rows : list (list (nat * Z)) := [[(0, 5%Z); (2, INT32_MIN)]; [(1, 3%Z); (3, 7%Z)]].

Lemma ex_slices bw : slices_of (ex_column ex_ess) (ex_ti bw) 2 ex_rows.
Proof. split; [done|]. intros [|[|t]] Ht; [by destruct bw..|lia]. Qed.

(** A step of thread [t]. *)
Ltac thread_step t :=
  eapply rtc_l; [eapply (fill_step_row _ _ _ _ _ _ _ _ _ t); [reflexivity | vm_compute; reflexivity]|];
  cbn [insert list_insert Z.eqb].

(** The threads take turns: the second one first. *)
Lemma ex_run :
  rtc (perfect_step (ex_ti false) None 0 false)
    (fill_start 6 ex_rows)
    ([1; -1; 0; -1; 3; -1]%Z, [([], 0%Z); ([], 0%Z)]).
Proof.
  unfold fill_start, perfect_step. cbn. thread_step 1. thread_step 0. thread_step 1. thread_step 0.
  apply rtc_refl.
Qed.

Lemma one_to_one_join_witness :
  exists buff threads,
    rtc (perfect_step (ex_ti false) None 0 false)
      (fill_start 6 ex_rows) (buff, threads) /\
    finished threads /\ no_error threads /\
    hash_join_idx buff 7 3 7 = Ok 3%Z /\ hash_join_idx buff 4 3 7 = Ok (-1)%Z.
Proof.
  exists [1; -1; 0; -1; 3; -1]%Z, [([], 0%Z); ([], 0%Z)].
  destruct (one_to_one_join (ex_column ex_ess) (ex_ti false) None 0 ex_ess 2 6 _
    (ex_column_holds ex_ess false ltac:(repeat constructor; done)) ltac:(lia) (ex_fits false)
    (ex_slices false)) as [_ H].
  destruct (H _ _ ex_run) as [_ G].
  destruct G as [_ G]; [repeat constructor|].
  split; [exact ex_run|]. split; [repeat constructor|]. split; [repeat constructor|]. split.
  - destruct (G ltac:(repeat constructor) 7%Z 7%Z) as [G7 _]; [lia | simpl; lia|].
    apply (G7 3). by exists 7%Z.
  - destruct (G ltac:(repeat constructor) 4%Z 7%Z) as [_ G4]; [lia | simpl; lia|].
    apply G4. intros [|[|[|[|i]]]] (e & He & Ek); simpl in He; simplify_eq; done.
Defined.

(** ** Nulls *)

(** An outer value matches an inner one: a null matches nothing, unless the join is null-safe; then
    it matches the nulls. *)
Definition join_matches (null_safe : bool) (null outer inner : Z) : bool :=
  if (outer =? null)%Z then null_safe && (inner =? null)%Z else (outer =? inner)%Z.

(** The probe that is compiled for a join of nullable columns. *)
Definition nullable_probe (ti : JoinColumnTypeInfo) (buff : mem) (outer : Z) : result JoinError Z :=
  if uses_bw_eq ti
  then hash_join_idx_bitwise buff outer (min_val ti) (max_val ti) (null_val ti) (translated_null_val ti)
  else hash_join_idx_nullable buff outer (min_val ti) (max_val ti) (null_val ti).

(** A column of values of the range of the table and of nulls, which a null-safe join puts after the
    range. *)
Definition nullable_column (ti : JoinColumnTypeInfo) (ess : list (list Z)) (n : nat) : Prop :=
  (Z.of_nat n <= INT32_MAX)%Z /\ (Z.of_nat (length (concat ess)) <= INT32_MAX)%Z /\
  (min_val ti <= max_val ti < min_val ti + Z.of_nat n)%Z /\
  (uses_bw_eq ti = true ->
     translated_null_val ti = (max_val ti + 1)%Z /\ (translated_null_val ti < min_val ti + Z.of_nat n)%Z) /\
  forall e, e ∈ concat ess -> e = null_val ti \/ (min_val ti <= e <= max_val ti)%Z.

Lemma nullable_fits ti ess n : nullable_column ti ess n -> table_fits ti None 0 ess n.
Proof.
  intros (Hn & Hr & Hm & Hbw & He). split; [done|]. split; [done|]. intros e Hin. unfold join_key.
  destruct (Z.eqb_spec e (null_val ti)) as [->|N]; simpl.
  - destruct (uses_bw_eq ti); simpl; [|by eexists].
    eexists. split; [done|]. intros ? [= <-]. destruct Hbw; [done|]. lia.
  - eexists. split; [done|]. intros ? [= <-]. destruct (He e Hin); [done | lia].
Qed.

(** The key of a row of a column without a translation map. *)
Lemma nullable_row_key ti ess n i key :
  nullable_column ti ess n ->
  row_key ti None 0 ess i key <->
  exists e, concat ess !! i = Some e /\
    if (e =? null_val ti)%Z then uses_bw_eq ti = true /\ key = translated_null_val ti else key = e.
Proof.
  intros _. unfold row_key, join_key. split; intros (e & Hi & H); exists e; (split; [done|]);
    destruct (e =? null_val ti)%Z; simpl in *; destruct (uses_bw_eq ti); simpl in *; naive_solver.
Qed.

(** A one-to-one table of a nullable column without duplicates, built by any schedule of the
    threads, implements the join condition: a probe with a value gives the row that the value
    matches, in a null-safe join also the row of the null, and -1 if it matches no row. *)
Theorem null_semantics jc ti ess T n slices buff threads :
  column_holds jc ti ess -> 0 < T -> nullable_column ti ess n -> slices_of jc ti T slices ->
  rtc (perfect_step ti None 0 false) (fill_start n slices) (buff, threads) ->
  finished threads -> no_error threads ->
  forall outer,
    (forall i e, concat ess !! i = Some e ->
       join_matches (uses_bw_eq ti) (null_val ti) outer e = true ->
       nullable_probe ti buff outer = Ok (Z.of_nat i)) /\
    ((forall i e, concat ess !! i = Some e ->
        join_matches (uses_bw_eq ti) (null_val ti) outer e = false) ->
     nullable_probe ti buff outer = Ok (-1)%Z).
Proof.
  intros Hc HT Hnull Hs Hrun Hfin Hz outer. pose proof (nullable_fits ti ess n Hnull) as Hfit.
  pose proof (run_holds jc ti None 0 ess T n Hfit Hc HT slices buff threads Hs Hrun Hfin Hz) as Hh.
  pose proof Hnull as (_ & _ & Hm & Hbw & He).
  unfold nullable_probe, hash_join_idx_bitwise, hash_join_idx_nullable, join_matches.
  destruct (Z.eqb_spec outer (null_val ti)) as [->|N]; simpl.
  - destruct (uses_bw_eq ti) eqn:Ebw; simpl; [|naive_solver]. destruct Hbw as [Et Hlt]; [done|].
    destruct (probe_holds ti None 0 ess n Hfit buff (translated_null_val ti) (translated_null_val ti) Hh)
      as [P1 P2]; [lia..|]. split.
    + intros i e Hi ->%Z.eqb_eq. apply P1, (nullable_row_key ti ess n); [done|].
      eexists. split; [done|]. by rewrite Z.eqb_refl.
    + intros H. apply P2. intros i (e & Hi & Ek)%(nullable_row_key ti ess n); [|done].
      rewrite (H i e Hi) in Ek. destruct (He e) as [->|]; [by eapply list_elem_of_lookup_2| |lia].
      specialize (H i _ Hi). rewrite Z.eqb_refl in H. done.
  - assert (E : (if uses_bw_eq ti then hash_join_idx buff outer (min_val ti) (max_val ti)
      else hash_join_idx buff outer (min_val ti) (max_val ti)) = hash_join_idx buff outer (min_val ti) (max_val ti))
      by by destruct (uses_bw_eq ti).
    rewrite E. destruct (decide (outer <= max_val ti)%Z) as [L|L].
    + destruct (probe_holds ti None 0 ess n Hfit buff outer (max_val ti) Hh) as [P1 P2]; [lia..|]. split.
      * intros i e Hi <-%Z.eqb_eq. apply P1, (nullable_row_key ti ess n); [done|].
        eexists. split; [done|]. by rewrite (proj2 (Z.eqb_neq _ _) N).
      * intros H. apply P2. intros i (e & Hi & Ek)%(nullable_row_key ti ess n); [|done].
        specialize (H i e Hi). destruct (Z.eqb_spec e (null_val ti)); [naive_solver lia|].
        apply Z.eqb_neq in H. done.
    + unfold hash_join_idx. rewrite (proj2 (Z.leb_gt outer (max_val ti))) by lia. rewrite andb_false_r. split; [|done].
      intros i e Hi <-%Z.eqb_eq. destruct (He outer); [by eapply list_elem_of_lookup_2|done|lia].
Qed.

Lemma ex_nullable bw : nullable_column (ex_ti bw) ex_ess 6.
Proof.
  split; [done|]. split; [done|]. split; [simpl; lia|]. split; [simpl; lia|]. intros e He.
  assert (H : (e = 5 \/ e = 3 \/ e = INT32_MIN \/ e = 7)%Z) by (simpl in He; set_solver).
  simpl. destruct H as [-> | [-> | [-> | ->]]]; auto; right; lia.
Qed.

Lemma ex_run_null_safe :
  rtc (perfect_step (ex_ti true) None 0 false) (fill_start 6 ex_rows)
    ([1; -1; 0; -1; 3; 2]%Z, [([], 0%Z); ([], 0%Z)]).
Proof.
  unfold fill_start, perfect_step. cbn. thread_step 0. thread_step 0. thread_step 1. thread_step 1.
  apply rtc_refl.
Qed.

Lemma null_semantics_witness :
  nullable_probe (ex_ti true) [1; -1; 0; -1; 3; 2]%Z INT32_MIN = Ok 2%Z /\
  nullable_probe (ex_ti true) [1; -1; 0; -1; 3; 2]%Z 5 = Ok 0%Z.
Proof.
  pose proof (null_semantics (ex_column ex_ess) (ex_ti true) ex_ess 2 6 ex_rows
    [1; -1; 0; -1; 3; 2]%Z [([], 0%Z); ([], 0%Z)]
    (ex_column_holds ex_ess true ltac:(repeat constructor; done)) ltac:(lia) (ex_nullable true)
    (ex_slices true) ex_run_null_safe ltac:(repeat constructor) ltac:(repeat constructor)) as H.
  split; [apply (proj1 (H INT32_MIN) 2 INT32_MIN) | apply (proj1 (H 5%Z) 0 5%Z)]; reflexivity.
Defined.

(** ** Semi-joins *)

(** The threads that build the table of a semi-join never report a conflict; when they have
    returned, probing with a key gives some row with that key, and -1 if there is none. *)
Theorem semi_join_table jc ti tm mie ess T n slices buff threads :
  column_holds jc ti ess -> 0 < T -> table_fits ti tm mie ess n -> slices_of jc ti T slices ->
  rtc (perfect_step ti tm mie true) (fill_start n slices) (buff, threads) ->
  no_error threads /\
  (finished threads -> forall key max_key,
     (key <= max_key)%Z -> (max_key < min_val ti + Z.of_nat n)%Z ->
     (exists i, row_key ti tm mie ess i key /\
        hash_join_idx buff key (min_val ti) max_key = Ok (Z.of_nat i)) \/
     ((forall i, ~ row_key ti tm mie ess i key) /\
        hash_join_idx buff key (min_val ti) max_key = Ok (-1)%Z)).
Proof.
  intros Hc HT Hfit Hs Hrun.
  destruct (semi_run jc ti tm mie ess T n Hfit Hc HT slices _ Hs Hrun) as (done_ & [Hl Hh] & Hp & Hz).
  split; [done|]. intros Hfin key max_key Hk Hmax. simpl in *.
  rewrite (finished_concat _ Hfin) in Hp. simpl in Hp. unfold hash_join_idx.
  rewrite (proj2 (Z.leb_le key max_key) Hk), andb_true_r.
  destruct (Z.leb_spec (min_val ti) key) as [Hmin|Hmin].
  - rewrite (slot_small ti tm mie ess n Hfit) by lia.
    replace (key - min_val ti)%Z with (Z.of_nat (Z.to_nat (key - min_val ti))) by lia.
    rewrite load_at by lia. cbn [mem_result].
    destruct (Hh (Z.to_nat (key - min_val ti)) ltac:(lia)) as [([i e] & Hin & Es & B)|[N B]];
      rewrite (list_lookup_total_correct _ _ _ B).
    + left. exists i. split; [|done]. rewrite Hp, all_rows_elem in Hin. exists e. split; [done|].
      apply (slot_key ti tm mie ess n Hfit i e key) in Es; [done | lia | done].
    + right. split; [|done]. intros i Hi. apply N. rewrite (row_slots_permutation _ _ _ _ _ _ Hp).
      apply (slot_row ti tm mie ess n Hfit); [lia | by exists i].
  - right. split; [|done]. intros i Hi%(row_key_range ti tm mie ess n Hfit). lia.
Qed.

(** Two rows have the key 5. *)
Definition ex_ess_dup : list (list Z) := [[5; 5]; [INT32_MIN; 7]]%Z.
Definition ex_rows_dup : list (list (nat * Z)) := [[(0, 5%Z); (2, INT32_MIN)]; [(1, 5%Z); (3, 7%Z)]].

Lemma ex_fits_dup bw : table_fits (ex_ti bw) None 0 ex_ess_dup 6.
Proof.
  split; [done|]. split; [done|]. intros e He.
  assert (H : (e = 5 \/ e = INT32_MIN \/ e = 7)%Z) by (simpl in He; set_solver).
  destruct H as [-> | [-> | ->]], bw; eexists; (split; [reflexivity|]); intros ? [= <-]; simpl; lia.
Qed.

Lemma ex_slices_dup bw : slices_of (ex_column ex_ess_dup) (ex_ti bw) 2 ex_rows_dup.
Proof. split; [done|]. intros [|[|t]] Ht; [by destruct bw..|lia]. Qed.

Lemma ex_run_semi :
  rtc (perfect_step (ex_ti false) None 0 true) (fill_start 6 ex_rows_dup)
    ([-1; -1; 1; -1; 3; -1]%Z, [([], 0%Z); ([], 0%Z)]).
Proof.
  unfold fill_start, perfect_step. cbn. thread_step 1. thread_step 0. thread_step 1. thread_step 0.
  apply rtc_refl.
Qed.

Lemma semi_join_table_witness :
  exists i, row_key (ex_ti false) None 0 ex_ess_dup i 5 /\
    hash_join_idx [-1; -1; 1; -1; 3; -1]%Z 5 3 7 = Ok (Z.of_nat i).
Proof.
  destruct (semi_join_table (ex_column ex_ess_dup) (ex_ti false) None 0 ex_ess_dup 2 6 ex_rows_dup
    [-1; -1; 1; -1; 3; -1]%Z [([], 0%Z); ([], 0%Z)]
    (ex_column_holds ex_ess_dup false ltac:(repeat constructor; done)) ltac:(lia) (ex_fits_dup false)
    (ex_slices_dup false) ex_run_semi) as [_ H].
  destruct (H ltac:(repeat constructor) 5%Z 7%Z) as [G|[G _]]; [lia | simpl; lia | exact G |].
  destruct (G 0). by exists 5%Z.
Defined.
