(* ===== verification/JoinManyProps.v ===== *)
(** * What a one-to-many join hash table finds

    The table of [fill_one_to_many_hash_table], for every order in which its threads take the
    rows, the initialisation of a table and the parallel prefix sum. *)

From Stdlib Require Import ZArith Lia List Bool.
From stdpp Require Import base list numbers relations sets.
From S2P Require Import Prelude JoinColumn GroupByRuntime GroupByLayouts HashJoinRuntime JoinHashFacts JoinTableFacts JoinProps.
Import ListNotations.
Local Open Scope nat_scope.
Local Open Scope hdk_scope.

Section Many.

Context (ti : JoinColumnTypeInfo) (tm : option (list Z)) (mie : Z) (ess : list (list Z)) (n : nat).
Context (Hfit : table_fits ti tm mie ess n) (Hn : 0 < n).

Abbreviation slot := (fun key => get_hash_slot key (min_val ti)).
Abbreviation rows_in := (rows_of ti tm mie slot).
Abbreviation number := (occ ti tm mie slot).
Abbreviation first_cell := (base ti tm mie slot (all_rows ess)).

Lemma all_rows_length : length (all_rows ess) = length (concat ess).
Proof. unfold all_rows, items. by rewrite length_map, length_seq. Qed.

(** Both passes, for rows in any order. *)
Lemma fill_one_to_many_stored cpu_thread_count count_order fill_order b :
  count_order ≡ₚ all_rows ess -> fill_order ≡ₚ all_rows ess ->
  pos_buff b = repeat (-1)%Z n -> length (concat ess) <= length (id_buff b) ->
  exists b', fill_one_to_many_hash_table ti tm mie n cpu_thread_count count_order fill_order b = Ok b' /\
    stored ti tm mie slot n (all_rows ess) (pos_buff b') (length (id_buff b)) b' fill_order /\
    forall s, s < n -> pos_buff b' !! s =
      Some (if decide (0 < number s (all_rows ess)) then Z.of_nat (first_cell s) else (-1)%Z).
Proof.
  intros Hco Hfo Hpos Hids. pose proof Hfit as (_ & Hr & _). rewrite <- all_rows_length in Hr, Hids.
  pose proof (rows_ok ti tm mie ess n Hfit) as Hok.
  unfold fill_one_to_many_hash_table, fill_one_to_many_hash_table_impl.
  destruct (count_matches_spec ti tm mie slot n count_order (repeat 0%Z n)) as (counts & -> & Lc & Ec).
  { by rewrite Hco. }
  { apply repeat_length. }
  { intros s Hs. rewrite repeat_replicate, lookup_total_replicate_2 by done. rewrite Hco. lia. }
  cbn [rbind]. destruct (Nat.eqb_spec n 0) as [|_]; [lia|].
  assert (Ec' : forall s, s < n -> counts !!! s = Z.of_nat (number s (all_rows ess))).
  { intros s Hs. rewrite Ec, repeat_replicate, lookup_total_replicate_2 by done.
    by rewrite (occ_permutation ti tm mie slot s _ _ Hco). }
  set (pos := set_positions counts _ _).
  assert (Hlook : forall s, s < n -> pos !! s =
    Some (if decide (0 < number s (all_rows ess)) then Z.of_nat (first_cell s) else (-1)%Z)).
  { intros s Hs. unfold pos. rewrite (set_positions_lookup counts _ _ s (counts !!! s) (Z.of_nat (first_cell s)) (-1)%Z).
    - rewrite Ec' by done. destruct (Z.eqb_spec (Z.of_nat (number s (all_rows ess))) 0); case_decide; done || lia.
    - apply list_lookup_lookup_total_lt. lia.
    - by apply (positions_spec ti tm mie slot n (all_rows ess)).
    - by rewrite Hpos, repeat_replicate, lookup_replicate_2. }
  assert (Lp : length pos = n).
  { unfold pos. rewrite set_positions_length; [done | | by rewrite Hpos, repeat_length].
    rewrite inclusive_scan_sequential, scan_from_length. simpl. rewrite length_take. lia. }
  destruct (fill_row_ids_spec ti tm mie slot n (all_rows ess) pos (length (id_buff b))) with
    (items := fill_order) (b := mkOneToMany pos (repeat 0%Z n) (id_buff b)) (done_ := @nil (nat * Z))
    as (b' & E & Hst).
  - intros s Hs Ho. apply list_lookup_total_correct. rewrite Hlook by done. by rewrite decide_True.
  - done.
  - pose proof (base_bound ti tm mie slot (all_rows ess) n). lia.
  - done.
  - split; [done|]. split; [apply repeat_length|]. split; [done|]. split; [|by intros s [|k] item].
    intros s Hs. simpl. by rewrite repeat_replicate, lookup_total_replicate_2.
  - by rewrite Hfo.
  - intros s Hs. simpl. by rewrite (occ_permutation ti tm mie slot s _ _ Hfo).
  - exists b'. split; [done|]. pose proof Hst as (-> & _). split; [done | exact Hlook].
Qed.

End Many.

Lemma nodup_map_filter {A B : Type} (f : A -> B) (P : A -> Prop) `{forall x, Decision (P x)} l :
  NoDup (map f l) -> NoDup (map f (filter P l)).
Proof.
  induction l as [|x l IH]; [done|]. simpl. intros [Nx Nl]%NoDup_cons. rewrite filter_cons.
  case_decide; [|auto]. simpl. apply NoDup_cons. split; [|auto]. contradict Nx.
  apply list_elem_of_fmap in Nx as (y & -> & Hy%list_elem_of_filter). apply list_elem_of_fmap. naive_solver.
Qed.

(** The cells of a run of rows. *)
Lemma cells_of_rows (rows : list (nat * Z)) (ids : list Z) p :
  (forall k item, rows !! k = Some item -> ids !! (p + k) = Some (Z.of_nat (fst item))) ->
  take (length rows) (drop p ids) = map Z.of_nat (map fst rows).
Proof.
  revert p ids. induction rows as [|item rows IH]; intros p ids H; [done|].
  pose proof (H 0 item eq_refl) as H0. rewrite Nat.add_0_r in H0.
  rewrite (drop_S _ _ _ H0). simpl. f_equal. apply IH.
  intros k it Hk. rewrite Nat.add_succ_l, <- Nat.add_succ_r. by apply H.
Qed.

(** [C22] Building a one-to-many table, with any number of threads and in any order of their steps in
    both passes, succeeds; probing with a key of its range then gives the rows with the key: their
    number, and if there are any the place where their row ids lie one after the other, each once;
    if there are none, -1. *)
Theorem one_to_many_join jc ti tm mie ess T n slices cpu_thread_count count_order fill_order b :
  column_holds jc ti ess -> 0 < T -> 0 < n -> table_fits ti tm mie ess n -> slices_of jc ti T slices ->
  interleave slices count_order -> interleave slices fill_order ->
  pos_buff b = repeat (-1)%Z n -> length (concat ess) <= length (id_buff b) ->
  exists b', fill_one_to_many_hash_table ti tm mie n cpu_thread_count count_order fill_order b = Ok b' /\
    forall key, (min_val ti <= key < min_val ti + Z.of_nat n)%Z ->
      exists ids : list nat,
        NoDup ids /\ (forall i, i ∈ ids <-> row_key ti tm mie ess i key) /\
        count_buff b' !! Z.to_nat (key - min_val ti) = Some (Z.of_nat (length ids)) /\
        exists p, hash_join_idx (pos_buff b') key (min_val ti) (min_val ti + Z.of_nat n - 1) = Ok p /\
          if decide (ids = []) then p = (-1)%Z
          else (0 <= p)%Z /\ take (length ids) (drop (Z.to_nat p) (id_buff b')) = map Z.of_nat ids.
Proof.
  intros Hc HT Hn Hfit Hs Hco%interleave_permutation Hfo%interleave_permutation Hpos Hids.
  rewrite (slices_of_rows jc ti ess T slices Hc HT Hs), (thread_slices_all jc ti ess T Hc HT) in Hco, Hfo.
  destruct (fill_one_to_many_stored ti tm mie ess n Hfit Hn cpu_thread_count count_order fill_order b
    Hco Hfo Hpos Hids) as (b' & E & (_ & Lc & Li & Hcount & Hcells) & Hlook).
  exists b'. split; [done|]. intros key Hkey. set (s := Z.to_nat (key - min_val ti)).
  assert (Hs' : s < n) by lia. set (sel := fun key => get_hash_slot key (min_val ti)) in *.
  set (rows := rows_of ti tm mie sel s fill_order).
  assert (Hnum : occ ti tm mie sel s (all_rows ess) = length rows)
    by (by rewrite <- (occ_permutation ti tm mie sel s _ _ Hfo)).
  exists (map fst rows). rewrite length_map. split; [|split; [|split]].
  - apply nodup_map_filter. rewrite (Permutation_map fst Hfo), all_rows_index. apply NoDup_seq.
  - intros i. rewrite list_elem_of_In, in_map_iff. setoid_rewrite <- list_elem_of_In. split.
    + intros ([j e] & <- & [Es Hin]%list_elem_of_filter). rewrite Hfo, all_rows_elem in Hin.
      exists e. split; [done|]. by apply (slot_key ti tm mie ess n Hfit j e key Hkey Hin).
    + intros (e & Hi & Ek). exists (i, e). split; [done|]. apply list_elem_of_filter.
      split; [by apply (slot_key ti tm mie ess n Hfit i e key Hkey Hi) | by rewrite Hfo, all_rows_elem].
  - rewrite list_lookup_lookup_total_lt by lia. by rewrite Hcount.
  - unfold hash_join_idx. rewrite (proj2 (Z.leb_le _ _)), (proj2 (Z.leb_le _ _)) by lia. simpl.
    rewrite (slot_small ti tm mie ess n Hfit) by done.
    replace (key - min_val ti)%Z with (Z.of_nat s) by lia.
    assert (Lp := Hlook s Hs'). rewrite Hnum in Lp.
    rewrite load_at by (by apply lookup_lt_Some in Lp). cbn [mem_result].
    eexists. split; [done|]. rewrite (list_lookup_total_correct _ _ _ Lp).
    destruct rows as [|row rows'] eqn:Er; [done|]. rewrite decide_False by done. simpl length.
    rewrite decide_True by lia. split; [lia|]. rewrite Nat2Z.id.
    apply (cells_of_rows (row :: rows')). intros k item Hk. apply Hcells; [done|].
    fold rows. by rewrite Er.
Qed.

Definition ex_build : result JoinError OneToMany :=
  fill_one_to_many_hash_table (ex_ti false) None 0 6 2
    [(1, 5%Z); (0, 5%Z); (2, INT32_MIN); (3, 7%Z)] [(0, 5%Z); (1, 5%Z); (3, 7%Z); (2, INT32_MIN)]
    (mkOneToMany (repeat (-1)%Z 6) [] (repeat 0%Z 4)).

(** The next row is of thread [t]. *)
Ltac next_of t := eapply (interleave_cons _ t); [reflexivity|]; cbn [insert list_insert].

Lemma one_to_many_join_witness :
  exists b', ex_build = Ok b' /\
    exists ids : list nat, NoDup ids /\
      (forall i, i ∈ ids <-> row_key (ex_ti false) None 0 ex_ess_dup i 5) /\
      count_buff b' !! 2 = Some (Z.of_nat (length ids)).
Proof.
  destruct (one_to_many_join (ex_column ex_ess_dup) (ex_ti false) None 0 ex_ess_dup 2 6 ex_rows_dup 2
    [(1, 5%Z); (0, 5%Z); (2, INT32_MIN); (3, 7%Z)] [(0, 5%Z); (1, 5%Z); (3, 7%Z); (2, INT32_MIN)]
    (mkOneToMany (repeat (-1)%Z 6) [] (repeat 0%Z 4))) as (b' & E & H).
  - apply ex_column_holds. repeat constructor; done.
  - lia.
  - lia.
  - apply ex_fits_dup.
  - apply ex_slices_dup.
  - unfold ex_rows_dup. next_of 1. next_of 0. next_of 0. next_of 1. repeat constructor.
  - unfold ex_rows_dup. next_of 0. next_of 1. next_of 1. next_of 0. repeat constructor.
  - done.
  - simpl. lia.
  - exists b'. split; [exact E|].
    destruct (H 5%Z) as (ids & Hnd & Hin & Hcount & _); [simpl; lia|]. eauto.
Defined.

(** ** Initialisation *)

Lemma quot_parts n t T : (0 <= t)%Z -> (0 < T)%Z -> (0 <= n)%Z -> Z.quot (n * t) T = (n * t / T)%Z.
Proof. intros. apply Z.quot_div_nonneg; nia. Qed.

(** The part of thread [t]. *)
Lemma init_part target m n v t T :
  t < T -> (Z.of_nat n <= INT32_MAX)%Z -> (Z.of_nat T <= INT32_MAX)%Z -> n <= length m ->
  exists m', init_hash_join_buff target m (Z.of_nat n) v (Z.of_nat t) (Z.of_nat T) = Ok m' /\
    length m' = length m /\
    forall i, m' !! i =
      if decide (n * t / T <= i < n * S t / T) then Some v else m !! i.
Proof.
  intros Ht Hn HT Hl. unfold init_hash_join_buff, INT32_MAX in *.
  assert (Bt : (Z.of_nat n * (Z.of_nat t + 1) / Z.of_nat T <= Z.of_nat n)%Z)
    by (apply Z.div_le_upper_bound; nia).
  assert (Bs : (Z.of_nat n * Z.of_nat t / Z.of_nat T <= Z.of_nat n * (Z.of_nat t + 1) / Z.of_nat T)%Z)
    by (apply Z.div_le_mono; nia).
  assert (B0 : (0 <= Z.of_nat n * Z.of_nat t / Z.of_nat T)%Z) by (apply Z.div_pos; nia).
  rewrite (s64_small (Z.of_nat n * Z.of_nat t)), (s64_small (Z.of_nat n * (Z.of_nat t + 1))) by nia.
  rewrite !quot_parts by lia. rewrite s32_small by lia.
  assert (E : match target with
    | Some base => init_hash_join_buff_cpu_avx512 base m v
        (Z.of_nat n * Z.of_nat t / Z.of_nat T) (Z.of_nat n * (Z.of_nat t + 1) / Z.of_nat T)
    | None => init_hash_join_buff_cpu m v
        (Z.of_nat n * Z.of_nat t / Z.of_nat T) (Z.of_nat n * (Z.of_nat t + 1) / Z.of_nat T) end
    = init_hash_join_buff_cpu m v
        (Z.of_nat n * Z.of_nat t / Z.of_nat T) (Z.of_nat n * (Z.of_nat t + 1) / Z.of_nat T))
    by (destruct target; [apply init_avx512_scalar; lia | done]).
  rewrite E. destruct (init_cpu_cell m v (Z.of_nat n * Z.of_nat t / Z.of_nat T)
    (Z.of_nat n * (Z.of_nat t + 1) / Z.of_nat T)) as (m' & -> & L & C); [lia..|].
  exists m'. split; [done|]. split; [done|]. intros i. rewrite C.
  assert (D1 : Z.of_nat (n * t / T) = (Z.of_nat n * Z.of_nat t / Z.of_nat T)%Z)
    by (rewrite Nat2Z.inj_div, Nat2Z.inj_mul; done).
  assert (D2 : Z.of_nat (n * S t / T) = (Z.of_nat n * (Z.of_nat t + 1) / Z.of_nat T)%Z)
    by (rewrite Nat2Z.inj_div, Nat2Z.inj_mul, Nat2Z.inj_succ; do 2 f_equal; lia).
  rewrite <- D1, <- D2. repeat case_decide; done || lia.
Qed.

Lemma init_threads_cells target n v T order m :
  Forall (fun t => t < T) order -> (Z.of_nat n <= INT32_MAX)%Z -> (Z.of_nat T <= INT32_MAX)%Z -> n <= length m ->
  exists m', init_threads target (Z.of_nat n) v (Z.of_nat T) order m = Ok m' /\ length m' = length m /\
    forall i, m' !! i = if decide (Exists (fun t => n * t / T <= i < n * S t / T) order) then Some v else m !! i.
Proof.
  intros Ho Hn HT. revert m. induction Ho as [|t order Ht Ho IH]; intros m Hl.
  { exists m. split; [done|]. split; [done|]. intros i. by rewrite decide_False by (by intros ?%Exists_nil). }
  cbn [init_threads]. destruct (init_part target m n v t T Ht Hn HT Hl) as (m1 & -> & L1 & C1). cbn [rbind].
  destruct (IH m1) as (m' & -> & L' & C'); [lia|]. exists m'. split; [done|]. split; [lia|].
  intros i. rewrite C', C1.
  destruct (decide (Exists _ order)) as [D|D]; [by rewrite decide_True by (by right)|].
  destruct (decide (n * t / T <= i < n * S t / T)) as [H|H]; [by rewrite decide_True by (by left)|].
  rewrite decide_False; [done|]. by intros [|]%Exists_cons.
Qed.

(** The parts of the threads cover the table. *)
Lemma parts_cover n T i : 0 < T -> i < n -> exists t, t < T /\ n * t / T <= i < n * S t / T.
Proof.
  intros HT Hi.
  assert (G : forall k, i < n * k / T -> exists t, t < k /\ n * t / T <= i < n * S t / T).
  { induction k as [|k IH]; intros H.
    - rewrite Nat.mul_0_r, Nat.Div0.div_0_l in H. lia.
    - destruct (decide (i < n * k / T)) as [L|L]; [|exists k; lia].
      destruct (IH L) as (t & ? & ?). exists t. split; [lia | done]. }
  apply G. by rewrite Nat.div_mul by lia.
Qed.

Lemma parts_inside n T t i : t < T -> n * t / T <= i < n * S t / T -> i < n.
Proof.
  intros Ht [_ Hi]. assert (n * S t / T <= n * T / T) by (apply Nat.Div0.div_le_mono; nia).
  rewrite Nat.div_mul in *; lia.
Qed.

(** The threads of a builder, in any order and with or without the 512-bit stores, set every
    entry of the table to the invalid value and no cell behind it. *)
Theorem init_threads_covers target n v T order m :
  0 < T -> (Z.of_nat T <= INT32_MAX)%Z -> (Z.of_nat n <= INT32_MAX)%Z ->
  n <= length m -> order ≡ₚ seq 0 T ->
  init_threads target (Z.of_nat n) v (Z.of_nat T) order m = Ok (repeat v n ++ drop n m).
Proof.
  intros HT HTm Hn Hl Ho.
  assert (Hlt : Forall (fun t => t < T) order).
  { rewrite Ho. apply Forall_forall. intros t Ht%elem_of_seq. lia. }
  destruct (init_threads_cells target n v T order m Hlt Hn HTm Hl) as (m' & -> & L & C).
  f_equal. apply list_eq. intros i. rewrite C. destruct (decide (i < n)) as [Hi|Hi].
  - rewrite lookup_app_l by (by rewrite repeat_length).
    rewrite repeat_replicate, lookup_replicate_2, decide_True; [done | | done].
    destruct (parts_cover n T i HT Hi) as (t & Ht & Hp). apply Exists_exists. exists t. split; [|done].
    rewrite Ho. apply elem_of_seq. lia.
  - rewrite lookup_app_r by (rewrite repeat_length; lia). rewrite repeat_length, lookup_drop.
    rewrite decide_False; [f_equal; lia|]. intros (t & Ht & Hp)%Exists_exists.
    rewrite Forall_forall in Hlt. apply Hi, (parts_inside n T t); auto.
Qed.

Lemma init_threads_covers_witness :
  [1; 0; 2] ≡ₚ seq 0 3 /\
  init_threads (Some 40%Z) 40 (-1) 3 [1; 0; 2] (repeat 0%Z 42) = Ok (repeat (-1)%Z 40 ++ [0; 0])%Z.
Proof.
  assert (P : [1; 0; 2] ≡ₚ seq 0 3) by (simpl; constructor).
  split; [exact P|].
  apply (init_threads_covers (Some 40%Z) 40 (-1) 3 [1; 0; 2] (repeat 0%Z 42));
    [lia | done | done | simpl; lia | exact P].
Defined.

(** A 512-bit store goes to an address that is a multiple of 64. *)
Lemma avx512_aligned start base :
  (0 <= start)%Z -> (0 <= base)%Z -> (base mod 4 = 0)%Z -> (base + 4 * start < 2 ^ 64)%Z ->
  ((base + 4 * (start + Z.land (u64 (64 - (base + 4 * start))) 63 / 4)) mod 64 = 0)%Z.
Proof.
  intros Hs Hb H4 H. change 63%Z with (Z.ones 6). rewrite Z.land_ones by lia. change (2 ^ 6)%Z with 64%Z.
  assert (E : (u64 (64 - (base + 4 * start)) mod 64 = (- (base + 4 * start)) mod 64)%Z).
  { unfold u64, uwrap. rewrite <- Znumtheory.Zmod_div_mod; [|lia|lia|by exists (2 ^ 58)%Z].
    replace (64 - (base + 4 * start))%Z with (- (base + 4 * start) + 1 * 64)%Z by lia. apply Z.mod_add. lia. }
  rewrite E. set (r := ((- (base + 4 * start)) mod 64)%Z).
  pose proof (Z.div_mod (- (base + 4 * start)) 64 ltac:(lia)) as D. fold r in D.
  pose proof (Z.div_mod base 4 ltac:(lia)) as D4.
  assert (R4 : (r = 4 * (r / 4))%Z) by (Z.to_euclidean_division_equations; lia).
  replace (base + 4 * (start + r / 4))%Z
    with ((- ((- (base + 4 * start)) / 64)) * 64)%Z by lia.
  apply Z.mod_mul. lia.
Qed.
