(* ===== verification/NullableOps.v ===== *)
(** * Operators on nullable values ([QueryEngine/RuntimeFunctions.cpp])

    A null is a value of the type set aside for it.  The arithmetic, comparison and logical
    operators that generated code calls, for the integer types; a family of functions that the
    source generates with a macro is one definition with the width [w] of the type (8, 16, 32 or
    64) and the operator as arguments.  At the end, what the operators compute in terms of SQL
    values, where null is [None]. *)

From Stdlib Require Import ZArith Lia List Bool.
From stdpp Require Import base numbers option.
From S2P Require Import Prelude.
Import ListNotations.
Local Open Scope Z_scope.
Local Open Scope hdk_scope.

Inductive ArithOp := OpAdd | OpSub | OpMul | OpDiv | OpMod.
Inductive CmpOp := OpEq | OpNe | OpLt | OpGt | OpLe | OpGe.

(** The two ways in which a division traps. *)
Inductive ArithError := DivideByZero | DivideOverflow.

(** ** Arithmetic *)

(** [lhs opsym rhs] in a function of an integer type; types narrower than [int] are promoted, so
    only the wider ones have a quotient that does not fit. *)
Definition arith (w : Z) (op : ArithOp) (lhs rhs : Z) : result ArithError Z :=
  let traps := (32 <=? w) && (lhs =? - 2 ^ (w - 1)) && (rhs =? -1) in
  match op with
  | OpAdd => Ok (swrap w (lhs + rhs))
  | OpSub => Ok (swrap w (lhs - rhs))
  | OpMul => Ok (swrap w (lhs * rhs))
  | OpDiv =>
      if rhs =? 0 then Err DivideByZero
      else if traps then Err DivideOverflow else Ok (swrap w (Z.quot lhs rhs))
  | OpMod =>
      if rhs =? 0 then Err DivideByZero
      else if traps then Err DivideOverflow else Ok (swrap w (Z.rem lhs rhs))
  end.

Definition arith_nullable (w : Z) (op : ArithOp) (lhs rhs null_val : Z) : result ArithError Z :=
  if negb (lhs =? null_val) && negb (rhs =? null_val) then arith w op lhs rhs
  else Ok (swrap w null_val).

Definition arith_nullable_lhs (w : Z) (op : ArithOp) (lhs rhs null_val : Z) : result ArithError Z :=
  if negb (lhs =? null_val) then arith w op lhs rhs else Ok (swrap w null_val).

Definition arith_nullable_rhs (w : Z) (op : ArithOp) (lhs rhs null_val : Z) : result ArithError Z :=
  if negb (rhs =? null_val) then arith w op lhs rhs else Ok (swrap w null_val).

Definition safe_div (w lhs rhs null_val : Z) : result ArithError Z :=
  if negb (lhs =? null_val) && negb (rhs =? null_val) && negb (rhs =? 0) then arith w OpDiv lhs rhs
  else Ok (swrap w null_val).

Definition uminus_nullable (w operand null_val : Z) : Z :=
  if operand =? null_val then null_val else swrap w (- operand).

Definition cast_nullable (to_w operand from_null_val to_null_val : Z) : Z :=
  if operand =? from_null_val then to_null_val else swrap to_w operand.

(** ** Comparison *)

Definition compare (op : CmpOp) (lhs rhs : Z) : bool :=
  match op with
  | OpEq => lhs =? rhs
  | OpNe => negb (lhs =? rhs)
  | OpLt => lhs <? rhs
  | OpGt => rhs <? lhs
  | OpLe => lhs <=? rhs
  | OpGe => rhs <=? lhs
  end.

Definition cmp_nullable (op : CmpOp) (lhs rhs null_val null_bool_val : Z) : Z :=
  if negb (lhs =? null_val) && negb (rhs =? null_val) then b2z (compare op lhs rhs) else null_bool_val.

Definition cmp_nullable_lhs (op : CmpOp) (lhs rhs null_val null_bool_val : Z) : Z :=
  if negb (lhs =? null_val) then b2z (compare op lhs rhs) else null_bool_val.

Definition cmp_nullable_rhs (op : CmpOp) (lhs rhs null_val null_bool_val : Z) : Z :=
  if negb (rhs =? null_val) then b2z (compare op lhs rhs) else null_bool_val.

(** ** Logic *)

Definition logical_not (operand null_val : Z) : Z :=
  if operand =? null_val then operand else if operand =? 0 then 1 else 0.

Definition logical_and (lhs rhs null_val : Z) : Z :=
  if lhs =? null_val then (if rhs =? 0 then rhs else null_val)
  else if rhs =? null_val then (if lhs =? 0 then lhs else null_val)
  else if negb (lhs =? 0) && negb (rhs =? 0) then 1 else 0.

Definition logical_or (lhs rhs null_val : Z) : Z :=
  if lhs =? null_val then (if rhs =? 0 then null_val else rhs)
  else if rhs =? null_val then (if lhs =? 0 then null_val else lhs)
  else if negb (lhs =? 0) || negb (rhs =? 0) then 1 else 0.

(** ** Decimals *)

(** [operand * scale] is unsigned, since [scale] is. *)
Definition scale_decimal_up (operand scale operand_null_val result_null_val : Z) : Z :=
  if negb (operand =? operand_null_val) then s64 (u64 (operand * scale)) else result_null_val.

Definition scale_decimal_down_not_nullable (operand scale : Z) : Z :=
  let tmp := Z.shiftr scale 1 in
  let tmp := if 0 <=? operand then s64 (operand + tmp) else s64 (operand - tmp) in
  s64 (Z.quot tmp scale).

Definition scale_decimal_down_nullable (operand scale null_val : Z) : Z :=
  if operand =? null_val then null_val else scale_decimal_down_not_nullable operand scale.

Definition floor_div_lhs (dividend divisor : Z) : Z :=
  s64 (Z.quot (if dividend <? 0 then s64 (dividend - (divisor - 1)) else dividend) divisor).

Definition floor_div_nullable_lhs (dividend divisor null_val : Z) : Z :=
  if dividend =? null_val then null_val else floor_div_lhs dividend divisor.

Definition decimal_floor (x scale : Z) : Z :=
  if 0 <=? x then s64 (Z.quot x scale * scale)
  else if Z.rem x scale =? 0 then x
  else s64 (Z.quot x scale * scale - scale).

Definition decimal_ceil (x scale : Z) : Z :=
  s64 (decimal_floor x scale + (if Z.rem x scale =? 0 then 0 else scale)).

(** ** SQL values *)

Definition width_ok (w : Z) : Prop := w = 8 \/ w = 16 \/ w = 32 \/ w = 64.
Definition in_width (w v : Z) : Prop := - 2 ^ (w - 1) <= v < 2 ^ (w - 1).

Definition sql (null_val v : Z) : option Z := if v =? null_val then None else Some v.

(** The exact result of an operator. *)
Definition exact (op : ArithOp) (a b : Z) : option Z :=
  match op with
  | OpAdd => Some (a + b)
  | OpSub => Some (a - b)
  | OpMul => Some (a * b)
  | OpDiv => if b =? 0 then None else Some (Z.quot a b)
  | OpMod => if b =? 0 then None else Some (Z.rem a b)
  end.

Lemma width_pos w : width_ok w -> 0 < w.
Proof. unfold width_ok. lia. Qed.

Lemma swrap_in_width w v : width_ok w -> in_width w v -> swrap w v = v.
Proof. intros Hw Hv. apply swrap_small; [by apply width_pos | exact Hv]. Qed.

Lemma sql_some null_val v a : sql null_val v = Some a -> v = a /\ v <> null_val.
Proof. unfold sql. destruct (Z.eqb_spec v null_val); [done|]. by intros [= ->]. Qed.

Lemma sql_none null_val v : sql null_val v = None <-> v = null_val.
Proof. unfold sql. destruct (Z.eqb_spec v null_val); split; done. Qed.

(** An operator traps on a zero divisor and on the smallest number divided by -1; otherwise it
    computes the exact result if that fits the type. *)
Lemma arith_exact w op a b r :
  width_ok w -> in_width w a -> in_width w b -> exact op a b = Some r -> in_width w r ->
  arith w op a b = Ok r \/ (op = OpMod /\ b = -1 /\ arith w op a b = Err DivideOverflow).
Proof.
  intros Hw Ha Hb He Hr. unfold arith. pose proof (swrap_in_width w r Hw Hr) as Es.
  destruct op; simpl in He; [injection He as <-; left; by rewrite Es ..| |];
    (destruct (Z.eqb_spec b 0) as [|Nb]; [done|]; injection He as <-).
  - destruct (Z.eqb_spec a (- 2 ^ (w - 1))) as [->|]; [|left; by rewrite andb_false_r, Es].
    destruct (Z.eqb_spec b (-1)) as [->|]; [|left; by rewrite andb_false_r, Es].
    exfalso. unfold in_width in Hr. change (-1) with (- (1)) in Hr.
    rewrite Z.quot_opp_opp, Z.quot_1_r in Hr by lia. lia.
  - destruct (_ && _ && _) eqn:E; [|left; by rewrite Es]. right.
    apply andb_true_iff in E as [_ E%Z.eqb_eq]. done.
Qed.

(** The operators on nullable integers compute what SQL says: null if an operand is null, and
    else the exact result, whenever that fits the type and is not the value set aside for null; only
    the remainder by -1 of the smallest number of a type of at least 32 bits traps although its
    result is 0. *)
Theorem arith_nullable_sql w op lhs rhs null_val :
  width_ok w -> in_width w lhs -> in_width w rhs -> in_width w null_val ->
  (forall a b, sql null_val lhs = Some a -> sql null_val rhs = Some b ->
     exists r, exact op a b = Some r /\ in_width w r /\ r <> null_val) ->
  (op = OpMod /\ rhs = -1 /\ arith_nullable w op lhs rhs null_val = Err DivideOverflow) \/
  exists v, arith_nullable w op lhs rhs null_val = Ok v /\ in_width w v /\
    sql null_val v =
      match sql null_val lhs, sql null_val rhs with
      | Some a, Some b => exact op a b
      | _, _ => None
      end.
Proof.
  intros Hw Hl Hr Hn H. unfold arith_nullable.
  destruct (sql null_val lhs) as [a|] eqn:El; [|apply sql_none in El as ->].
  - apply sql_some in El as [<- El]. rewrite (proj2 (Z.eqb_neq _ _) El). simpl.
    destruct (sql null_val rhs) as [b|] eqn:Er; [|apply sql_none in Er as ->].
    + apply sql_some in Er as [<- Er]. rewrite (proj2 (Z.eqb_neq _ _) Er). simpl.
      destruct (H lhs rhs eq_refl eq_refl) as (r & Ee & Hin & Hne).
      destruct (arith_exact w op lhs rhs r Hw Hl Hr Ee Hin) as [->|(? & ? & ->)]; [right | by left].
      exists r. split; [done|]. split; [done|]. unfold sql. by rewrite (proj2 (Z.eqb_neq _ _) Hne), Ee.
    + rewrite Z.eqb_refl. simpl. right. exists null_val. rewrite swrap_in_width by done.
      by rewrite (proj2 (sql_none null_val null_val) eq_refl).
  - rewrite Z.eqb_refl. simpl. right. exists null_val. rewrite swrap_in_width by done.
    by rewrite (proj2 (sql_none null_val null_val) eq_refl).
Qed.

Lemma arith_nullable_sql_witness :
  (exists v, arith_nullable 8 OpMul 5 (-7) (-128) = Ok v /\ in_width 8 v /\ sql (-128) v = Some (-35)) /\
  (exists v, arith_nullable 8 OpMul 5 (-128) (-128) = Ok v /\ in_width 8 v /\ sql (-128) v = None).
Proof.
  split.
  - destruct (arith_nullable_sql 8 OpMul 5 (-7) (-128)) as [(E & _)|H];
      [by left | by split | by split | by split | | done | exact H].
    intros a b [= <-] [= <-]. exists (-35). by repeat split.
  - destruct (arith_nullable_sql 8 OpMul 5 (-128) (-128)) as [(E & _)|H];
      [by left | by split | by split | by split | | done | exact H].
    intros a b _ [=].
Defined.

(** ** Three-valued logic *)

(** The truth value that a byte stands for. *)
Definition truth (null_val v : Z) : option bool := if v =? null_val then None else Some (negb (v =? 0)).

Definition kleene_not (a : option bool) : option bool := negb <$> a.

Definition kleene_and (a b : option bool) : option bool :=
  match a, b with
  | Some false, _ | _, Some false => Some false
  | Some true, Some true => Some true
  | _, _ => None
  end.

Definition kleene_or (a b : option bool) : option bool :=
  match a, b with
  | Some true, _ | _, Some true => Some true
  | Some false, Some false => Some false
  | _, _ => None
  end.

(** [C29] Comparisons of nullable values and the logical operators implement three-valued logic, for
    every value set aside for null other than 0 and 1: a comparison with a null is unknown, and
    negation, conjunction and disjunction are those of Kleene. *)
Theorem three_valued_logic null_val nb :
  nb <> 0 -> nb <> 1 ->
  (forall op lhs rhs, truth nb (cmp_nullable op lhs rhs null_val nb) =
     match sql null_val lhs, sql null_val rhs with
     | Some a, Some b => Some (compare op a b)
     | _, _ => None
     end) /\
  (forall a, truth nb (logical_not a nb) = kleene_not (truth nb a)) /\
  (forall a b, truth nb (logical_and a b nb) = kleene_and (truth nb a) (truth nb b)) /\
  (forall a b, truth nb (logical_or a b nb) = kleene_or (truth nb a) (truth nb b)).
Proof.
  intros N0 N1. unfold truth, logical_not, logical_and, logical_or, cmp_nullable, sql.
  split; [|split; [|split]]; intros.
  - destruct (lhs =? null_val), (rhs =? null_val); simpl; rewrite ?Z.eqb_refl; try done.
    destruct (compare op lhs rhs); cbn [b2z].
    + destruct (Z.eqb_spec 1 nb); [lia | done].
    + destruct (Z.eqb_spec 0 nb); [lia | done].
  - zbool; subst; simpl; try done; try lia.
  - zbool; subst; simpl; try done; try lia.
  - zbool; subst; simpl; try done; try lia.
Qed.

Lemma three_valued_logic_witness :
  truth (-128) (logical_and (cmp_nullable OpLt 3 (-1) (-1) (-128)) 0 (-128)) = Some false.
Proof.
  destruct (three_valued_logic (-1) (-128)) as (C & _ & A & _); [lia | lia |].
  rewrite A, C. reflexivity.
Defined.

(** ** Decimals *)

(** A quotient rounded to zero, from its bounds. *)
Lemma quot_bounds x s q : 0 < s ->
  (0 <= x /\ q * s <= x < q * s + s) \/ (x <= 0 /\ q * s - s < x <= q * s) -> Z.quot x s = q.
Proof.
  intros Hs [[Hx Hq]|[Hx Hq]].
  - symmetry. apply Z.quot_unique with (x - q * s); lia.
  - rewrite <- (Z.opp_involutive x), Z.quot_opp_l by lia.
    rewrite <- (Z.quot_unique (- x) s (- q) (- x + q * s)); lia.
Qed.

Lemma div_bounds x s : 0 < s -> x / s * s <= x < x / s * s + s.
Proof.
  intros Hs. pose proof (Z.div_mod x s ltac:(lia)). pose proof (Z.mod_pos_bound x s Hs). lia.
Qed.

Lemma scale_down_nearest operand scale :
  0 < scale -> Z.abs operand + scale <= INT64_MAX ->
  scale_decimal_down_not_nullable operand scale
  = if 0 <=? operand then (operand + scale / 2) / scale else - ((- operand + scale / 2) / scale).
Proof.
  intros Hs Hr. unfold scale_decimal_down_not_nullable, INT64_MAX in *.
  rewrite Z.shiftr_div_pow2 by lia. change (2 ^ 1) with 2.
  assert (B : 0 <= scale / 2 <= scale) by divmod.
  destruct (Z.leb_spec 0 operand) as [L|L].
  - rewrite (s64_small (operand + _)) by lia. rewrite Z.quot_div_nonneg by lia.
    rewrite s64_small; [done|]. pose proof (div_bounds (operand + scale / 2) scale Hs). nia.
  - rewrite (s64_small (operand - _)) by lia.
    replace (operand - scale / 2) with (- (- operand + scale / 2)) by lia.
    rewrite Z.quot_opp_l, Z.quot_div_nonneg by lia.
    rewrite s64_small; [done|]. pose proof (div_bounds (- operand + scale / 2) scale Hs). nia.
Qed.

Lemma floor_div_floor dividend divisor :
  0 < divisor -> Z.abs dividend + divisor <= INT64_MAX ->
  floor_div_lhs dividend divisor = dividend / divisor.
Proof.
  intros Hs Hr. unfold floor_div_lhs, INT64_MAX in *.
  pose proof (div_bounds dividend divisor Hs) as D.
  destruct (Z.ltb_spec dividend 0).
  - rewrite (s64_small (dividend - _)) by lia.
    rewrite (quot_bounds _ divisor (dividend / divisor)) by lia. rewrite s64_small; [done | nia].
  - rewrite (quot_bounds _ divisor (dividend / divisor)) by lia. rewrite s64_small; [done | nia].
Qed.

Lemma decimal_floor_floor x scale :
  0 < scale -> Z.abs x + scale <= INT64_MAX -> decimal_floor x scale = x / scale * scale.
Proof.
  intros Hs Hr. unfold decimal_floor, INT64_MAX in *. pose proof (div_bounds x scale Hs) as D.
  destruct (Z.leb_spec 0 x).
  - rewrite (quot_bounds x scale (x / scale)) by lia. apply s64_small. lia.
  - destruct (Z.eqb_spec (Z.rem x scale) 0) as [R|R].
    + pose proof (Z.quot_rem' x scale) as Q. rewrite R in Q.
      assert (x / scale = Z.quot x scale) as ->; [|lia].
      symmetry. apply Z.div_unique with 0; lia.
    + rewrite (quot_bounds x scale (x / scale + 1)).
      * rewrite s64_small by lia. lia.
      * lia.
      * right. split; [lia|]. assert (x <> x / scale * scale); [|lia]. intros E. apply R.
        rewrite E. apply Z.rem_mul. lia.
Qed.

(** Scaling a decimal down rounds to the nearest number, halves away from zero, and undoes
    scaling up; the floor and ceiling of a decimal and the division that rounds down are exact, as
    long as the operand and the scale together stay in the 64-bit range. *)
Theorem decimal_rounding operand scale null_val :
  0 < scale -> Z.abs operand + scale <= INT64_MAX ->
  let r := scale_decimal_down_not_nullable operand scale in
  2 * Z.abs (operand - r * scale) <= scale /\
  (2 * Z.abs (operand - r * scale) = scale -> Z.abs operand < Z.abs (r * scale)) /\
  (Z.abs (operand * scale) + scale <= INT64_MAX -> operand <> null_val ->
     scale_decimal_down_not_nullable (scale_decimal_up operand scale null_val null_val) scale = operand) /\
  floor_div_lhs operand scale = operand / scale /\
  decimal_floor operand scale = operand / scale * scale /\
  decimal_ceil operand scale = - (- operand / scale) * scale.
Proof.
  intros Hs Hr r. assert (B2 : 2 * (scale / 2) <= scale < 2 * (scale / 2) + 2) by divmod.
  assert (Er : r = if 0 <=? operand then (operand + scale / 2) / scale
    else - ((- operand + scale / 2) / scale)) by (by apply scale_down_nearest).
  split; [|split; [|split; [|split; [|split]]]].
  - destruct (Z.leb_spec 0 operand); rewrite Er.
    + pose proof (div_bounds (operand + scale / 2) scale Hs). lia.
    + pose proof (div_bounds (- operand + scale / 2) scale Hs). lia.
  - destruct (Z.leb_spec 0 operand); rewrite Er.
    + pose proof (div_bounds (operand + scale / 2) scale Hs). lia.
    + pose proof (div_bounds (- operand + scale / 2) scale Hs). lia.
  - intros Hm Hne. unfold scale_decimal_up. rewrite (proj2 (Z.eqb_neq _ _) Hne). simpl.
    assert (E : s64 (u64 (operand * scale)) = operand * scale).
    { unfold s64, u64, swrap, uwrap, INT64_MAX in *. rewrite Zplus_mod_idemp_l.
      change (2 ^ (64 - 1)) with 9223372036854775808. change (2 ^ 64) with 18446744073709551616.
      rewrite Z.mod_small; lia. }
    rewrite E, scale_down_nearest by lia. destruct (Z.leb_spec 0 (operand * scale)).
    + symmetry. apply Z.div_unique with (scale / 2); lia.
    + assert ((- (operand * scale) + scale / 2) / scale = - operand) as ->; [|lia].
      symmetry. apply Z.div_unique with (scale / 2); lia.
  - by apply floor_div_floor.
  - by apply decimal_floor_floor.
  - unfold decimal_ceil. rewrite decimal_floor_floor by done. unfold INT64_MAX in *.
    pose proof (div_bounds operand scale Hs) as D1. pose proof (div_bounds (- operand) scale Hs) as D2.
    destruct (Z.eqb_spec (Z.rem operand scale) 0) as [R|R].
    + apply Z.rem_divide in R as [k ->]; [|lia]. rewrite Z.div_mul by lia.
      replace (- (k * scale)) with (- k * scale) by lia. rewrite Z.div_mul by lia.
      rewrite Z.div_mul in D1 by lia. rewrite s64_small; lia.
    + assert (operand <> operand / scale * scale).
      { intros E. apply R. rewrite E. apply Z.rem_mul. lia. }
      assert (- (- operand / scale) = operand / scale + 1) as -> by nia. rewrite s64_small; lia.
Qed.

Lemma decimal_rounding_witness :
  2 * Z.abs (250 - scale_decimal_down_not_nullable 250 100 * 100) <= 100 /\
  decimal_ceil (-250) 100 = - (250 / 100) * 100.
Proof.
  split.
  - apply (decimal_rounding 250 100 0); unfold INT64_MAX; lia.
  - destruct (decimal_rounding (-250) 100 0) as (_ & _ & _ & _ & _ & C); [lia | unfold INT64_MAX; lia |].
    exact C.
Defined.
