(* ===== verification/Aggregates.v ===== *)
(** * Aggregates ([QueryEngine/RuntimeFunctions.cpp], [ResultSetReduction.cpp])

    The functions by which generated code adds a value to an aggregate, and those that merge the
    aggregates of two results.  An aggregate is an integer of [w] bits; a function gives its new
    value and, where the source returns one, the value it returns.  The variants of the source for
    8, 16, 32 and 64 bits are one definition. *)

From Stdlib Require Import ZArith Lia List Bool.
From stdpp Require Import base list numbers option sets.
From S2P Require Import Prelude NullableOps.
Import ListNotations.
Local Open Scope Z_scope.
Local Open Scope hdk_scope.

(** ** Adding a value *)

(** A counter is unsigned. *)
Definition agg_count (w agg : Z) : Z * Z := (agg, uwrap w (agg + 1)).

Definition agg_sum (w agg val : Z) : Z * Z := (agg, swrap w (agg + val)).

Definition agg_max (agg val : Z) : Z := if agg <? val then val else agg.

Definition agg_min (agg val : Z) : Z := if val <? agg then val else agg.

Definition agg_id (agg val : Z) : Z := val.

(** [ERR_SINGLE_VALUE_FOUND_MULTIPLE_VALUES]. *)
Definition checked_single_agg_id (agg val null_val : Z) : Z * Z :=
  if val =? null_val then (0, agg)
  else if agg =? val then (0, agg)
  else if agg =? null_val then (0, val)
  else (15, agg).

Definition agg_count_skip_val (w agg val skip_val : Z) : Z * Z :=
  if negb (val =? skip_val) then agg_count w agg else (agg, agg).

Definition agg_sum_skip_val (w agg val skip_val : Z) : Z * Z :=
  let old := agg in
  if negb (val =? skip_val) then
    if negb (old =? skip_val) then agg_sum w agg val else (old, val)
  else (old, agg).

(** [DEF_SKIP_AGG]. *)
Definition skip_agg (base_agg_func : Z -> Z -> Z) (agg val skip_val : Z) : Z :=
  if negb (val =? skip_val) then
    if negb (agg =? skip_val) then base_agg_func agg val else val
  else agg.

Definition agg_max_skip_val : Z -> Z -> Z -> Z := skip_agg agg_max.
Definition agg_min_skip_val : Z -> Z -> Z -> Z := skip_agg agg_min.

(** The slot of a projection; [w] is 32 or 64. *)
Definition write_projection_int (slot val init_val : Z) : Z :=
  if negb (val =? init_val) then val else slot.

(** ** Merging two results *)

Inductive AggType := kCount | kSum | kMin | kMax | kAvg.

Definition base_agg (kind : AggType) (w agg val : Z) : Z :=
  match kind with
  | kMin => agg_min agg val
  | kMax => agg_max agg val
  | _ => snd (agg_sum w agg val)
  end.

(** [AGGREGATE_ONE_VALUE] and [AGGREGATE_ONE_VALUE_SMALL]: the type of the slot is chosen by its
    width, 32 bits and any other for the former. *)
Definition AGGREGATE_ONE_VALUE (kind : AggType) (chosen_bytes val other : Z) : Z :=
  if chosen_bytes =? 4 then base_agg kind 32 val other else base_agg kind 64 val other.

Definition base_agg_skip_val (kind : AggType) (w agg val skip_val : Z) : Z :=
  match kind with
  | kMin => agg_min_skip_val agg val skip_val
  | kMax => agg_max_skip_val agg val skip_val
  | _ => snd (agg_sum_skip_val w agg val skip_val)
  end.

(** [skip_null_val] is a field of the description of the target. *)
Definition AGGREGATE_ONE_NULLABLE_VALUE (kind : AggType) (skip_null_val : bool)
    (chosen_bytes val other init_val : Z) : Z :=
  if skip_null_val then
    if chosen_bytes =? 4 then base_agg_skip_val kind 32 val other (swrap 32 init_val)
    else base_agg_skip_val kind 64 val other (swrap 64 init_val)
  else AGGREGATE_ONE_VALUE kind chosen_bytes val other.

Definition AGGREGATE_ONE_COUNT (chosen_bytes val other : Z) : Z :=
  if chosen_bytes =? 4 then snd (agg_sum 32 val other) else snd (agg_sum 64 val other).

(** [None] is [UNREACHABLE]; a width of neither 8 nor 16 bits does nothing when nulls are
    skipped. *)
Definition AGGREGATE_ONE_VALUE_SMALL (kind : AggType) (chosen_bytes val other : Z) : option Z :=
  if chosen_bytes =? 2 then Some (base_agg kind 16 val other)
  else if chosen_bytes =? 1 then Some (base_agg kind 8 val other)
  else None.

Definition AGGREGATE_ONE_NULLABLE_VALUE_SMALL (kind : AggType) (skip_null_val : bool)
    (chosen_bytes val other init_val : Z) : option Z :=
  if skip_null_val then
    if chosen_bytes =? 2 then Some (base_agg_skip_val kind 16 val other (swrap 16 init_val))
    else if chosen_bytes =? 1 then Some (base_agg_skip_val kind 8 val other (swrap 8 init_val))
    else Some val
  else AGGREGATE_ONE_VALUE_SMALL kind chosen_bytes val other.

(** [reduceOneSlotSingleValue]: [None] is the exception. *)
Definition reduceOneSlotSingleValue (lhs_proj_col rhs_proj_col init_val : Z) : option Z :=
  if rhs_proj_col =? init_val then Some lhs_proj_col
  else if lhs_proj_col =? init_val then Some rhs_proj_col
  else if negb (lhs_proj_col =? rhs_proj_col) then None
  else Some lhs_proj_col.

(** The aggregates of [reduceOneSlot] on integers: the slots of this and of that result, the second
    one the count of an average.  [None] is a failed check. *)
Definition reduceOneSlot (kind : AggType) (skip_null_val : bool)
    (chosen_bytes count_bytes init_val this1 this2 that1 that2 : Z) : option (Z * Z) :=
  let sum := AGGREGATE_ONE_NULLABLE_VALUE kSum skip_null_val chosen_bytes this1 that1 init_val in
  let small := chosen_bytes <=? 2 in
  match kind with
  | kCount =>
      if init_val =? 0 then Some (AGGREGATE_ONE_COUNT chosen_bytes this1 that1, this2) else None
  | kAvg => Some (sum, AGGREGATE_ONE_COUNT count_bytes this2 that2)
  | kSum => Some (sum, this2)
  | kMin | kMax =>
      if small then
        (fun v => (v, this2)) <$>
          AGGREGATE_ONE_NULLABLE_VALUE_SMALL kind skip_null_val chosen_bytes this1 that1 init_val
      else
        Some (AGGREGATE_ONE_NULLABLE_VALUE kind skip_null_val chosen_bytes this1 that1 init_val, this2)
  end.

(** * What aggregates compute

    Aggregates of a nullable integer column against their meaning in SQL, row by row and merged
    from the results of several kernels. *)

(** ** Meaning *)

(** The slots of an aggregate of a nullable column: at the start, and after a row.  An average has
    a sum and a count. *)
Definition agg_init (kind : AggType) (null_val : Z) : Z * Z :=
  match kind with kCount => (0, 0) | _ => (null_val, 0) end.

Definition add_row (kind : AggType) (w null_val : Z) (slots : Z * Z) (val : Z) : Z * Z :=
  let '(a, b) := slots in
  match kind with
  | kCount => (snd (agg_count_skip_val w a val null_val), b)
  | kSum => (snd (agg_sum_skip_val w a val null_val), b)
  | kMin => (agg_min_skip_val a val null_val, b)
  | kMax => (agg_max_skip_val a val null_val, b)
  | kAvg => (snd (agg_sum_skip_val w a val null_val), snd (agg_count_skip_val w b val null_val))
  end.

Definition aggregate (kind : AggType) (w null_val : Z) (rows : list Z) : Z * Z :=
  fold_left (add_row kind w null_val) rows (agg_init kind null_val).

(** The values that are not null. *)
Definition values (null_val : Z) (rows : list Z) : list Z := omap (sql null_val) rows.

Definition sum_of (vs : list Z) : Z := fold_right Z.add 0 vs.
Definition abs_sum (vs : list Z) : Z := sum_of (map Z.abs vs).

(** The smallest and the largest of [v] and [vs]. *)
Definition least (v : Z) (vs : list Z) : Z := fold_right Z.min v vs.
Definition greatest (v : Z) (vs : list Z) : Z := fold_right Z.max v vs.

(** The slots that stand for aggregates of values; without a value they hold the null. *)
Definition sum_slot (null_val : Z) (vs : list Z) : Z :=
  match vs with [] => null_val | _ => sum_of vs end.
Definition least_slot (null_val : Z) (vs : list Z) : Z :=
  match vs with [] => null_val | v :: vs' => least v vs' end.
Definition greatest_slot (null_val : Z) (vs : list Z) : Z :=
  match vs with [] => null_val | v :: vs' => greatest v vs' end.

Definition meaning (kind : AggType) (null_val : Z) (vs : list Z) : Z * Z :=
  match kind with
  | kCount => (Z.of_nat (length vs), 0)
  | kSum => (sum_slot null_val vs, 0)
  | kMin => (least_slot null_val vs, 0)
  | kMax => (greatest_slot null_val vs, 0)
  | kAvg => (sum_slot null_val vs, Z.of_nat (length vs))
  end.

(** What a slot of [w] bits can hold of rows: null is the smallest number, and the numbers of rows
    and sums fit. *)
Definition rows_fit (kind : AggType) (w null_val : Z) (rows : list Z) : Prop :=
  width_ok w /\ null_val = - 2 ^ (w - 1) /\
  match kind with
  | kMin | kMax => True
  | kCount => Z.of_nat (length rows) < 2 ^ (w - 1)
  | kSum => abs_sum (values null_val rows) < 2 ^ (w - 1)
  | kAvg => abs_sum (values null_val rows) < 2 ^ (w - 1) /\ Z.of_nat (length rows) < 2 ^ (w - 1)
  end.

(** ** Facts on lists of values *)

Lemma values_app n l k : values n (l ++ k) = values n l ++ values n k.
Proof. apply omap_app. Qed.

Lemma values_length n l : (length (values n l) <= length l)%nat.
Proof. induction l as [|x l IH]; simpl; [done|]. destruct (sql n x); simpl; lia. Qed.

Lemma values_not_null n l v : v ∈ values n l -> v <> n.
Proof. intros (x & _ & [-> H]%sql_some)%list_elem_of_omap. done. Qed.

Lemma sum_of_app l k : sum_of (l ++ k) = sum_of l + sum_of k.
Proof. induction l as [|x l IH]; simpl; [done|]. fold (sum_of (l ++ k)). fold (sum_of l). lia. Qed.

Lemma abs_sum_app l k : abs_sum (l ++ k) = abs_sum l + abs_sum k.
Proof. unfold abs_sum. by rewrite map_app, sum_of_app. Qed.

Lemma sum_of_cons x l : sum_of (x :: l) = x + sum_of l.
Proof. done. Qed.

Lemma abs_sum_cons x l : abs_sum (x :: l) = Z.abs x + abs_sum l.
Proof. done. Qed.

Lemma abs_sum_nonneg l : 0 <= abs_sum l.
Proof. induction l as [|x l IH]; [done|]. rewrite abs_sum_cons. lia. Qed.

Lemma sum_of_abs l : Z.abs (sum_of l) <= abs_sum l.
Proof. induction l as [|x l IH]; [done|]. rewrite abs_sum_cons, sum_of_cons. lia. Qed.

Lemma least_app v l k : least v (l ++ k) = Z.min (least v l) (least v k).
Proof.
  induction l as [|x l IH]; simpl.
  - induction k as [|y k IHk]; simpl; [lia|]. fold (least v k). lia.
  - fold (least v (l ++ k)) (least v l). lia.
Qed.

Lemma greatest_app v l k : greatest v (l ++ k) = Z.max (greatest v l) (greatest v k).
Proof.
  induction l as [|x l IH]; simpl.
  - induction k as [|y k IHk]; simpl; [lia|]. fold (greatest v k). lia.
  - fold (greatest v (l ++ k)) (greatest v l). lia.
Qed.

(** The smallest value is one of them and below the others. *)
Lemma least_spec v l : least v l ∈ v :: l /\ forall x, x ∈ v :: l -> least v l <= x.
Proof.
  induction l as [|y l [Hin Hle]]; simpl.
  - split; [set_solver|]. intros x Hx. assert (x = v) by set_solver. lia.
  - fold (least v l). split.
    + destruct (Z.min_spec y (least v l)) as [[_ ->]|[_ ->]]; set_solver.
    + intros x Hx. assert (x = y \/ x ∈ v :: l) as [->|Hx'%Hle] by set_solver; lia.
Qed.

Lemma greatest_spec v l : greatest v l ∈ v :: l /\ forall x, x ∈ v :: l -> x <= greatest v l.
Proof.
  induction l as [|y l [Hin Hle]]; simpl.
  - split; [set_solver|]. intros x Hx. assert (x = v) by set_solver. lia.
  - fold (greatest v l). split.
    + destruct (Z.max_spec y (greatest v l)) as [[_ ->]|[_ ->]]; set_solver.
    + intros x Hx. assert (x = y \/ x ∈ v :: l) as [->|Hx'%Hle] by set_solver; lia.
Qed.

(** The meaning does not depend on the order of the rows. *)
Lemma sum_of_permutation l k : l ≡ₚ k -> sum_of l = sum_of k.
Proof.
  induction 1 as [|x l k _ IH|x y l|l1 l2 l3 _ IH1 _ IH2]; simpl; [done | | lia | lia].
  fold (sum_of l) (sum_of k). lia.
Qed.

Lemma least_cons_permutation v l w k : v :: l ≡ₚ w :: k -> least v l = least w k.
Proof.
  intros H. destruct (least_spec v l) as [I1 L1]. destruct (least_spec w k) as [I2 L2].
  apply Z.le_antisymm; [apply L1; by rewrite H | apply L2; by rewrite <- H].
Qed.

Lemma greatest_cons_permutation v l w k : v :: l ≡ₚ w :: k -> greatest v l = greatest w k.
Proof.
  intros H. destruct (greatest_spec v l) as [I1 L1]. destruct (greatest_spec w k) as [I2 L2].
  apply Z.le_antisymm; [apply L2; by rewrite <- H | apply L1; by rewrite H].
Qed.

Lemma meaning_permutation kind n vs vs' : vs ≡ₚ vs' -> meaning kind n vs = meaning kind n vs'.
Proof.
  intros H. pose proof (sum_of_permutation _ _ H) as S. pose proof (Permutation_length H) as L.
  destruct vs as [|v vs], vs' as [|v' vs']; [done | done | done|].
  destruct kind; cbn [meaning sum_slot least_slot greatest_slot]; rewrite ?S, ?L; try done.
  - by rewrite (least_cons_permutation _ _ _ _ H).
  - by rewrite (greatest_cons_permutation _ _ _ _ H).
Qed.

Lemma values_permutation n l k : l ≡ₚ k -> values n l ≡ₚ values n k.
Proof.
  induction 1 as [|x l k _ IH|x y l|l1 l2 l3 _ IH1 _ IH2]; simpl; [done | | |by rewrite IH1].
  - destruct (sql n x); by rewrite IH.
  - destruct (sql n x), (sql n y); try done. constructor.
Qed.

Lemma rows_fit_permutation kind w n l k : l ≡ₚ k -> rows_fit kind w n l -> rows_fit kind w n k.
Proof.
  intros H (Hw & Hn & Hk). split; [done|]. split; [done|].
  assert (A : abs_sum (values n k) = abs_sum (values n l)).
  { unfold abs_sum. apply sum_of_permutation, Permutation_map, values_permutation. done. }
  rewrite (Permutation_length H) in Hk. rewrite A. exact Hk.
Qed.

(** ** Merging slots *)

(** A sum of bounded values is not the null. *)
Lemma sum_not_null w vs :
  abs_sum vs < 2 ^ (w - 1) -> - 2 ^ (w - 1) < sum_of vs < 2 ^ (w - 1).
Proof. intros H. pose proof (sum_of_abs vs). lia. Qed.

Lemma sum_slot_ne n vs : vs <> [] -> sum_slot n vs = sum_of vs.
Proof. by destruct vs. Qed.

Lemma sum_merge w n l k :
  width_ok w -> n = - 2 ^ (w - 1) -> abs_sum (l ++ k) < 2 ^ (w - 1) ->
  snd (agg_sum_skip_val w (sum_slot n l) (sum_slot n k) n) = sum_slot n (l ++ k).
Proof.
  intros Hw Hn H. unfold agg_sum_skip_val, agg_sum. pose proof (sum_not_null w _ H) as B.
  rewrite abs_sum_app in H. pose proof (abs_sum_nonneg l). pose proof (abs_sum_nonneg k).
  pose proof (sum_not_null w l ltac:(lia)). pose proof (sum_not_null w k ltac:(lia)).
  destruct k as [|y k]; [simpl sum_slot at 2; by rewrite Z.eqb_refl, app_nil_r|].
  rewrite (sum_slot_ne n (y :: k)) by done. rewrite (proj2 (Z.eqb_neq (sum_of (y :: k)) n)) by lia.
  destruct l as [|x l]; [simpl sum_slot at 1; by rewrite Z.eqb_refl|].
  rewrite (sum_slot_ne n (x :: l)), (proj2 (Z.eqb_neq (sum_of (x :: l)) n)) by (done || lia).
  rewrite sum_slot_ne by done. rewrite sum_of_app in B |- *. apply swrap_in_width; [done|].
  unfold in_width. lia.
Qed.

Lemma count_merge w j k :
  width_ok w -> Z.of_nat (j + k) < 2 ^ (w - 1) ->
  snd (agg_sum w (Z.of_nat j) (Z.of_nat k)) = Z.of_nat (j + k).
Proof.
  intros Hw H. simpl. rewrite <- Nat2Z.inj_add. apply swrap_in_width; [done|]. unfold in_width. lia.
Qed.

Lemma min_merge n l k :
  (forall x, x ∈ l ++ k -> x <> n) ->
  agg_min_skip_val (least_slot n l) (least_slot n k) n = least_slot n (l ++ k).
Proof.
  intros Hn. unfold agg_min_skip_val, skip_agg, agg_min.
  destruct k as [|y k]; [simpl least_slot at 2; by rewrite Z.eqb_refl, app_nil_r|].
  destruct (least_spec y k) as [Ik Lk].
  rewrite (proj2 (Z.eqb_neq (least_slot n (y :: k)) n)) by (apply Hn, elem_of_app; by right).
  destruct l as [|x l]; [simpl least_slot at 1; by rewrite Z.eqb_refl|].
  destruct (least_spec x l) as [Il Ll].
  rewrite (proj2 (Z.eqb_neq (least_slot n (x :: l)) n)) by (apply Hn, elem_of_app; by left).
  cbn [least_slot negb app]. rewrite least_app.
  assert (E : least x (y :: k) = Z.min x (least y k)).
  { destruct (least_spec x (y :: k)) as [I L].
    destruct (least_spec y k) as [I' L']. apply Z.le_antisymm; [|].
    - apply Z.min_glb; apply L; set_solver.
    - apply elem_of_cons in I as [->|I]; [lia|]. specialize (L' _ I). lia. }
  rewrite E. specialize (Ll x ltac:(set_solver)). destruct (Z.ltb_spec (least y k) (least x l)); lia.
Qed.

Lemma max_merge n l k :
  (forall x, x ∈ l ++ k -> x <> n) ->
  agg_max_skip_val (greatest_slot n l) (greatest_slot n k) n = greatest_slot n (l ++ k).
Proof.
  intros Hn. unfold agg_max_skip_val, skip_agg, agg_max.
  destruct k as [|y k]; [simpl greatest_slot at 2; by rewrite Z.eqb_refl, app_nil_r|].
  destruct (greatest_spec y k) as [Ik Lk].
  rewrite (proj2 (Z.eqb_neq (greatest_slot n (y :: k)) n)) by (apply Hn, elem_of_app; by right).
  destruct l as [|x l]; [simpl greatest_slot at 1; by rewrite Z.eqb_refl|].
  destruct (greatest_spec x l) as [Il Ll].
  rewrite (proj2 (Z.eqb_neq (greatest_slot n (x :: l)) n)) by (apply Hn, elem_of_app; by left).
  cbn [greatest_slot negb app]. rewrite greatest_app.
  assert (E : greatest x (y :: k) = Z.max x (greatest y k)).
  { destruct (greatest_spec x (y :: k)) as [I L].
    destruct (greatest_spec y k) as [I' L']. apply Z.le_antisymm; [|].
    - apply elem_of_cons in I as [->|I]; [lia|]. specialize (L' _ I). lia.
    - apply Z.max_lub; apply L; set_solver. }
  rewrite E. specialize (Ll x ltac:(set_solver)). destruct (Z.ltb_spec (greatest x l) (greatest y k)); lia.
Qed.

(** ** Row by row *)

(** A row is the slot of its value. *)
Lemma row_slot n row : sum_slot n (values n [row]) = row /\ least_slot n (values n [row]) = row /\
  greatest_slot n (values n [row]) = row.
Proof.
  simpl. unfold sql. destruct (Z.eqb_spec row n) as [->|]; simpl; [done|]. by rewrite Z.add_0_r.
Qed.

Lemma count_step w n rows row :
  width_ok w -> Z.of_nat (length (rows ++ [row])) < 2 ^ (w - 1) ->
  snd (agg_count_skip_val w (Z.of_nat (length (values n rows))) row n)
  = Z.of_nat (length (values n (rows ++ [row]))).
Proof.
  intros Hw H. pose proof (values_length n rows). rewrite values_app, length_app in *. simpl in *.
  unfold agg_count_skip_val, agg_count, sql. destruct (Z.eqb_spec row n); simpl; [f_equal; lia|].
  rewrite uwrap_small; [lia|]. assert (2 ^ (w - 1) <= 2 ^ w) by (apply Z.pow_le_mono_r; lia). lia.
Qed.

Lemma add_row_meaning kind w n rows row :
  rows_fit kind w n (rows ++ [row]) ->
  add_row kind w n (meaning kind n (values n rows)) row = meaning kind n (values n (rows ++ [row])).
Proof.
  intros (Hw & Hn & Hfit). destruct (row_slot n row) as (S1 & S2 & S3).
  assert (Hne : forall x, x ∈ values n rows ++ values n [row] -> x <> n)
    by (intros x; rewrite <- values_app; apply values_not_null).
  destruct kind; cbn [add_row meaning].
  - by rewrite count_step.
  - rewrite values_app in *. rewrite <- S1 at 1. by rewrite sum_merge.
  - rewrite values_app in *. rewrite <- S2 at 1. by rewrite min_merge.
  - rewrite values_app in *. rewrite <- S3 at 1. by rewrite max_merge.
  - destruct Hfit as [Hs Hc]. rewrite count_step by done. f_equal.
    rewrite values_app in *. rewrite <- S1 at 1. by rewrite sum_merge.
Qed.

Lemma rows_fit_app kind w n l k : rows_fit kind w n (l ++ k) -> rows_fit kind w n l /\ rows_fit kind w n k.
Proof.
  intros (Hw & Hn & H). rewrite values_app, abs_sum_app, length_app in H.
  pose proof (abs_sum_nonneg (values n l)). pose proof (abs_sum_nonneg (values n k)).
  split; (split; [done|]; split; [done|]); destruct kind; try done; lia.
Qed.

Lemma aggregate_meaning kind w n rows :
  rows_fit kind w n rows -> aggregate kind w n rows = meaning kind n (values n rows).
Proof.
  unfold aggregate. induction rows as [|row rows IH] using rev_ind; intros Hfit.
  - by destruct kind.
  - rewrite fold_left_app. simpl. rewrite IH by (by apply rows_fit_app in Hfit as [? _]).
    by apply add_row_meaning.
Qed.

(** ** Merging results *)

(** The slots of two results merged; [bytes] is the width of the slots. *)
Definition merge (kind : AggType) (bytes null_val : Z) (this that : Z * Z) : option (Z * Z) :=
  reduceOneSlot kind true bytes bytes (fst (agg_init kind null_val)) (fst this) (snd this)
    (fst that) (snd that).

Fixpoint merge_all (kind : AggType) (bytes null_val : Z) (this : Z * Z) (others : list (Z * Z))
    : option (Z * Z) :=
  match others with
  | [] => Some this
  | that :: others' =>
      match merge kind bytes null_val this that with
      | Some this => merge_all kind bytes null_val this others'
      | None => None
      end
  end.

(** The widths that a slot can have: 32 and 64 bits, for a minimum or a maximum also fewer. *)
Definition slot_width (kind : AggType) (bytes : Z) : Prop :=
  bytes = 4 \/ bytes = 8 \/ ((bytes = 1 \/ bytes = 2) /\ (kind = kMin \/ kind = kMax)).

Lemma swrap_null w n : width_ok w -> n = - 2 ^ (w - 1) -> swrap w n = n.
Proof. intros [->|[->|[->| ->]]] ->; done. Qed.

Lemma merge_meaning kind bytes n l k :
  slot_width kind bytes -> rows_fit kind (8 * bytes) n (l ++ k) ->
  merge kind bytes n (meaning kind n (values n l)) (meaning kind n (values n k))
  = Some (meaning kind n (values n (l ++ k))).
Proof.
  intros Hb (Hw & Hn & Hfit). pose proof (swrap_null _ n Hw Hn) as En.
  assert (Hne : forall x, x ∈ values n l ++ values n k -> x <> n)
    by (intros x; rewrite <- values_app; apply values_not_null).
  pose proof (values_length n l). pose proof (values_length n k).
  assert (Hcount : Z.of_nat (length (l ++ k)) < 2 ^ (8 * bytes - 1) ->
    snd (agg_sum (8 * bytes) (Z.of_nat (length (values n l))) (Z.of_nat (length (values n k))))
    = Z.of_nat (length (values n l ++ values n k))).
  { intros Hc. rewrite length_app in *. apply count_merge; [done | lia]. }
  unfold merge, reduceOneSlot, AGGREGATE_ONE_NULLABLE_VALUE, AGGREGATE_ONE_NULLABLE_VALUE_SMALL,
    AGGREGATE_ONE_COUNT, base_agg_skip_val. rewrite values_app in *.
  destruct Hb as [->|[->|[[->| ->] [->| ->]]]]; [destruct kind | destruct kind | | | |];
    cbn [meaning agg_init fst snd Z.eqb Pos.eqb Z.leb Z.compare Pos.compare Pos.compare_cont];
    change (8 * 4) with 32 in *; change (8 * 8) with 64 in *; change (8 * 1) with 8 in *;
    change (8 * 2) with 16 in *; cbn [fmap option_fmap option_map]; rewrite ?En;
    rewrite ?sum_merge, ?min_merge, ?max_merge by (done || lia); try done;
    rewrite Hcount by lia; done.
Qed.

Lemma merge_all_meaning kind bytes n piece pieces :
  slot_width kind bytes -> rows_fit kind (8 * bytes) n (concat (piece :: pieces)) ->
  merge_all kind bytes n (meaning kind n (values n piece))
    (map (fun p => meaning kind n (values n p)) pieces)
  = Some (meaning kind n (values n (concat (piece :: pieces)))).
Proof.
  intros Hb. revert piece. induction pieces as [|p pieces IH]; intros piece Hfit; simpl.
  - by rewrite app_nil_r.
  - simpl in Hfit. rewrite app_assoc in Hfit. rewrite merge_meaning; [|done|by apply rows_fit_app in Hfit as [? _]].
    rewrite app_assoc. by apply (IH (piece ++ p)).
Qed.

(** [C18] The aggregates of a nullable integer column are independent of how the rows are divided
    among kernels and of the order of the rows: the merged slots of the pieces are those of one pass
    over any arrangement of all rows, and they hold the count, sum, minimum, maximum or sum and count of
    the values that are not null, and null if there are none.  For a sum and an average the absolute
    values of the column must add up to less than 2^(w-1) for slots of w bits, so that no partial sum
    overflows or is the null value, and for a count and an average there must be fewer than 2^(w-1)
    rows; minimum and maximum need nothing. *)
Theorem parallel_aggregation kind bytes n piece pieces rows :
  slot_width kind bytes -> rows_fit kind (8 * bytes) n rows -> rows ≡ₚ concat (piece :: pieces) ->
  merge_all kind bytes n (aggregate kind (8 * bytes) n piece)
    (map (aggregate kind (8 * bytes) n) pieces)
  = Some (aggregate kind (8 * bytes) n rows) /\
  aggregate kind (8 * bytes) n rows = meaning kind n (values n rows).
Proof.
  intros Hb Hfit Hp. split; [|by apply aggregate_meaning].
  pose proof (rows_fit_permutation _ _ _ _ _ Hp Hfit) as Hfit'. simpl in Hfit'.
  rewrite (aggregate_meaning _ _ _ rows Hfit).
  rewrite aggregate_meaning by (by apply rows_fit_app in Hfit' as [? _]).
  assert (E : map (aggregate kind (8 * bytes) n) pieces = map (fun p => meaning kind n (values n p)) pieces).
  { apply rows_fit_app in Hfit' as [_ Hfit']. clear Hp. induction pieces as [|p pieces IH]; [done|]. simpl in *.
    apply rows_fit_app in Hfit' as [Hp Hrest]. by rewrite aggregate_meaning, IH. }
  rewrite E, merge_all_meaning by done. f_equal. apply meaning_permutation, values_permutation. done.
Qed.

Lemma parallel_aggregation_witness :
  merge_all kAvg 8 INT64_MIN (aggregate kAvg 64 INT64_MIN [7; INT64_MIN]) [aggregate kAvg 64 INT64_MIN [-3; 5]]
  = Some (9, 3) /\
  merge_all kMin 1 (-128) (aggregate kMin 8 (-128) [-128]) [aggregate kMin 8 (-128) [4; -5; -128]]
  = Some (-5, 0).
Proof.
  split.
  - refine (eq_trans (proj1 (parallel_aggregation kAvg 8 INT64_MIN [7; INT64_MIN] [[-3; 5]]
      [-3; 7; 5; INT64_MIN] _ _ _)) eq_refl).
    + by right; left.
    + split; [by do 3 right|]. split; [done|]. by split.
    + simpl. etransitivity; [apply perm_swap|]. apply perm_skip.
      etransitivity; [apply perm_skip, perm_swap|]. apply perm_swap.
  - refine (eq_trans (proj1 (parallel_aggregation kMin 1 (-128) [-128] [[4; -5; -128]]
      [-128; 4; -5; -128] _ _ _)) eq_refl).
    + right; right. split; [by left | by left].
    + split; [by left|]. done.
    + done.
Defined.

(** ** Edges *)

(** A sum that passes the value set aside for null begins anew: the first two values are lost. *)
Lemma sum_through_null :
  aggregate kSum 64 INT64_MIN [-4611686018427387904; -4611686018427387904; 5] = (5, 0).
Proof. reflexivity. Qed.

(** The check that a subquery gives a single value: [checked_single_agg_id] reports error 15
    exactly when it meets two different values that are not null, and otherwise the slot holds the
    only value, or null. *)
Theorem single_value_checked n rows :
  let run := fold_left (fun st row =>
    let '(err, agg) := st in
    if err =? 0 then checked_single_agg_id agg row n else (err, agg)) rows (0, n) in
  (fst run = 15 <-> exists a b, a ∈ values n rows /\ b ∈ values n rows /\ a <> b) /\
  (fst run = 0 \/ fst run = 15) /\
  (fst run = 0 -> (values n rows = [] /\ snd run = n) \/
     (snd run ∈ values n rows /\ forall v, v ∈ values n rows -> v = snd run)).
Proof.
  induction rows as [|row rows IH] using rev_ind; [simpl; naive_solver (set_solver || lia)|].
  rewrite fold_left_app, values_app. cbv zeta in *. cbn [fold_left].
  destruct (fold_left _ rows (0, n)) as [err agg]. simpl in IH. destruct IH as (I1 & I2 & I3).
  assert (Hv : values n [row] = if row =? n then [] else [row]) by (simpl; unfold sql; by destruct (row =? n)).
  rewrite Hv. destruct (Z.eqb_spec err 0) as [->|Ne].
  - unfold checked_single_agg_id. destruct (Z.eqb_spec row n) as [->|Nr].
    { rewrite app_nil_r. simpl. auto. }
    destruct (I3 eq_refl) as [[E0 En]|[En Hall]].
    + subst agg. rewrite E0, (proj2 (Z.eqb_neq n row)), Z.eqb_refl by congruence. simpl.
      split; [split; [lia | set_solver]|]. split; [by left|]. set_solver.
    + pose proof (values_not_null n rows agg En) as Nn.
      destruct (Z.eqb_spec agg row) as [->|Na]; simpl.
      * split; [split; [lia | set_solver]|]. split; [by left|]. set_solver.
      * rewrite (proj2 (Z.eqb_neq agg n)) by done. simpl. split; [|split; [by right | lia]].
        split; [intros _; exists agg, row; set_solver | done].
  - destruct I2 as [|E15]; [done|]. simpl. destruct (proj1 I1 E15) as (a & b & Ha & Hb & N).
    split; [split; [|done]; intros _; exists a, b; set_solver|]. split; [by right | lia].
Qed.
