(* ===== verification/CountDistinct.v ===== *)
(** * Sets of COUNT(DISTINCT ...) ([QueryEngine/CountDistinct.h])

    The three representations of the set of values a COUNT(DISTINCT x) has seen: a bitmap over
    the range of [x] ([agg_count_distinct_bitmap] of [RuntimeFunctions.cpp]), a hash set
    ([agg_count_distinct] of [RowFuncBuilder.cpp]) and, for APPROX_COUNT_DISTINCT, the registers
    of a HyperLogLog sketch ([HyperLogLog.h], [HyperLogLogRank.h]); their union when partial
    results are reduced, and their size when the result is read.

    A bitmap is the list of its bytes, 0 to 255.  The registers are a list of integers: bytes on
    the CPU, 32-bit words on a GPU.  A set handle is an optional set, [None] for the null handle.
    The estimate [hll_size] computes from the registers, in floating point, is a parameter. *)

From Stdlib Require Import ZArith Lia List Bool.
From stdpp Require Import base list gmap numbers.
From S2P Require Import Prelude MurmurHash.
Import ListNotations.
Local Open Scope Z_scope.
Local Open Scope hdk_scope.

(** [SOut] is an access past the end of a buffer, [SCheck] a failed [CHECK], [SType] a set read
    in another representation than its own. *)
Inductive SetError := SOut | SCheck | SType.

Definition check (b : bool) : result SetError unit := if b then Ok tt else Err SCheck.

(** ** Descriptor ([Descriptors/CountDistinctDescriptor.h]) *)

Inductive CountDistinctImplType := ImplInvalid | ImplBitmap | ImplHashSet.
Inductive ExecutorDeviceType := DeviceCPU | DeviceGPU.

#[global] Instance CountDistinctImplType_eq_dec : EqDecision CountDistinctImplType.
Proof. solve_decision. Defined.
#[global] Instance ExecutorDeviceType_eq_dec : EqDecision ExecutorDeviceType.
Proof. solve_decision. Defined.

Record CountDistinctDescriptor := mkCountDistinctDescriptor {
  impl_type_ : CountDistinctImplType;
  min_val : Z;
  bitmap_sz_bits : Z;
  approximate : bool;
  device_type : ExecutorDeviceType;
  sub_bitmap_count : Z;
}.

Definition bitmap_bits_to_bytes (bitmap_sz : Z) : Z :=
  if bitmap_sz mod 8 =? 0 then bitmap_sz / 8 else bitmap_sz / 8 + 1.

Definition align_size_to_int64 (addr : Z) : Z :=
  Z.shiftl (Z.shiftr (u64 (addr + 7)) 3) 3.

Definition bitmapSizeBytes (d : CountDistinctDescriptor) : result SetError Z :=
  let* _ := check (bool_decide (impl_type_ d = ImplBitmap)) in
  let approx_reg_bytes := if decide (device_type d = DeviceGPU) then 4 else 1 in
  Ok (if approximate d then s32 (Z.shiftl 1 (bitmap_sz_bits d)) * approx_reg_bytes
      else bitmap_bits_to_bytes (bitmap_sz_bits d)).

Definition bitmapPaddedSizeBytes (d : CountDistinctDescriptor) : result SetError Z :=
  let* effective_size := bitmapSizeBytes d in
  let padded_size :=
    if bool_decide (device_type d = DeviceGPU) || (1 <? sub_bitmap_count d)
    then align_size_to_int64 effective_size else effective_size in
  Ok (u64 (padded_size * sub_bitmap_count d)).

(** ** Buffers *)

Definition get (buf : list Z) (i : Z) : result SetError Z :=
  if 0 <=? i then match buf !! Z.to_nat i with Some v => Ok v | None => Err SOut end else Err SOut.

Definition put (buf : list Z) (i v : Z) : result SetError (list Z) :=
  let* _ := get buf i in Ok (<[Z.to_nat i := v]> buf).

(** ** Adding a value *)

Definition agg_count_distinct_bitmap (agg : list Z) (val min_val : Z) : result SetError (list Z) :=
  let bitmap_idx := u64 (val - min_val) in
  let* byte := get agg (Z.shiftr bitmap_idx 3) in
  put agg (Z.shiftr bitmap_idx 3) (u8 (Z.lor byte (Z.shiftl 1 (Z.land bitmap_idx 7)))).

Definition agg_count_distinct_bitmap_skip_val (agg : list Z) (val min_val skip_val : Z)
    : result SetError (list Z) :=
  if negb (val =? skip_val) then agg_count_distinct_bitmap agg val min_val else Ok agg.

Definition bit_is_set (bitset : option (list Z)) (val min_val max_val null_val null_bool_val : Z)
    : result SetError Z :=
  if val =? null_val then Ok null_bool_val
  else if (val <? min_val) || (max_val <? val) then Ok 0
  else match bitset with
       | None => Ok 0
       | Some bytes =>
           let bitmap_idx := u64 (val - min_val) in
           let* byte := get bytes (Z.shiftr bitmap_idx 3) in
           Ok (if Z.land byte (Z.shiftl 1 (Z.land bitmap_idx 7)) =? 0 then 0 else 1)
       end.

Definition agg_count_distinct (agg : gset Z) (val : Z) : gset Z := {[val]} ∪ agg.

Definition agg_count_distinct_skip_val (agg : gset Z) (val skip_val : Z) : gset Z :=
  if negb (val =? skip_val) then agg_count_distinct agg val else agg.

(** [__builtin_clzl] of a 64-bit word that is not 0. *)
Definition clz64 (x : Z) : Z := 63 - Z.log2 x.

Definition get_rank (x b : Z) : Z :=
  u8 (Z.min b (if x =? 0 then 64 else clz64 x) + 1).

(** The bytes of an [int64_t] key, from the low end. *)
Definition key_bytes (key : Z) : list Z :=
  map (fun i => u8 (Z.shiftr (u64 key) (8 * i))) [0; 1; 2; 3; 4; 5; 6; 7].

Definition agg_approximate_count_distinct (agg : list Z) (key b : Z) : result SetError (list Z) :=
  let hash := MurmurHash64A (key_bytes key) 0 in
  let index := u32 (Z.shiftr hash (64 - b)) in
  let rank := get_rank (u64 (Z.shiftl hash b)) (64 - b) in
  let* m := get agg index in
  put agg index (Z.max (u8 m) rank).

(** ** Size *)

(** [std::bitset<w>(v).count()]. *)
Definition bitset_count (w : nat) (v : Z) : Z :=
  Z.of_nat (length (List.filter (fun i => Z.testbit v (Z.of_nat i)) (seq 0 w))).

(** The [int64_t] at the index [i] of the bitmap. *)
Fixpoint word_of_bytes (bytes : list Z) : Z :=
  match bytes with
  | [] => 0
  | b :: bytes' => Z.lor b (Z.shiftl (word_of_bytes bytes') 8)
  end.

Definition get64 (bitmap : list Z) (i : nat) : result SetError Z :=
  let bytes := take 8 (drop (8 * i) bitmap) in
  if (length bytes =? 8)%nat then Ok (word_of_bytes bytes) else Err SOut.

Fixpoint count_words (bitmap : list Z) (i count : nat) (set_size : Z) : result SetError Z :=
  match count with
  | O => Ok set_size
  | S count' =>
      let* word := get64 bitmap i in
      count_words bitmap (S i) count' (set_size + bitset_count 64 word)
  end.

Fixpoint count_bytes (rem_bitmap : list Z) (i count : nat) (set_size : Z) : result SetError Z :=
  match count with
  | O => Ok set_size
  | S count' =>
      let* byte := get rem_bitmap (Z.of_nat i) in
      count_bytes rem_bitmap (S i) count' (set_size + bitset_count 8 byte)
  end.

Definition bitmap_set_size (bitmap : list Z) (bitmap_byte_sz : Z) : result SetError Z :=
  let bitmap_word_count := Z.shiftr bitmap_byte_sz 3 in
  let bitmap_rem_bytes := Z.land bitmap_byte_sz 7 in
  let* set_size := count_words bitmap 0 (Z.to_nat bitmap_word_count) 0 in
  count_bytes (drop (8 * Z.to_nat bitmap_word_count) bitmap) 0 (Z.to_nat bitmap_rem_bytes) set_size.

(** ** Union *)

(** The loop from [i] on, [count] times: [lhs[i] = lhs[i] | rhs[i]]. *)
Fixpoint bitmap_union_loop (lhs rhs : list Z) (i count : nat) : result SetError (list Z) :=
  match count with
  | O => Ok lhs
  | S count' =>
      let* l := get lhs (Z.of_nat i) in
      let* r := get rhs (Z.of_nat i) in
      let* lhs := put lhs (Z.of_nat i) (Z.lor l r) in
      bitmap_union_loop lhs rhs (S i) count'
  end.

Definition bitmap_set_union (lhs rhs : list Z) (bitmap_sz : Z) : result SetError (list Z) :=
  bitmap_union_loop lhs rhs 0 (Z.to_nat bitmap_sz).

(** The sub-bitmap at the offset [partial_padded_size * i] lies behind the first one, which is
    the only one written. *)
Fixpoint partial_union_loop (set_vals : list Z) (partial_padded_size size : Z) (i count : nat)
    : result SetError (list Z) :=
  match count with
  | O => Ok set_vals
  | S count' =>
      let partial_set_vals := drop (Z.to_nat partial_padded_size * i) set_vals in
      let* set_vals := bitmap_set_union set_vals partial_set_vals size in
      partial_union_loop set_vals partial_padded_size size (S i) count'
  end.

Definition partial_bitmap_union (set_vals : list Z) (d : CountDistinctDescriptor)
    : result SetError (list Z) :=
  let* padded := bitmapPaddedSizeBytes d in
  let* _ := check (padded mod sub_bitmap_count d =? 0) in
  let partial_padded_size := padded / sub_bitmap_count d in
  let* size := bitmapSizeBytes d in
  partial_union_loop set_vals partial_padded_size size 1 (Z.to_nat (sub_bitmap_count d) - 1).

(** The loop of [hll_unify], from [r] on: both sides get the maximum. *)
Fixpoint hll_unify_loop (lhs rhs : list Z) (r count : nat) : result SetError (list Z * list Z) :=
  match count with
  | O => Ok (lhs, rhs)
  | S count' =>
      let* x := get lhs (Z.of_nat r) in
      let* y := get rhs (Z.of_nat r) in
      let v := Z.max (s8 x) (s8 y) in
      let* lhs := put lhs (Z.of_nat r) v in
      let* rhs := put rhs (Z.of_nat r) v in
      hll_unify_loop lhs rhs (S r) count'
  end.

Definition hll_unify (lhs rhs : list Z) (m : Z) : result SetError (list Z * list Z) :=
  hll_unify_loop lhs rhs 0 (Z.to_nat m).

(** ** Sets *)

Inductive CountDistinctSet :=
| BitmapSet (bytes : list Z)
| Registers (M : list Z)
| HashSet (values : gset Z).

Section Size.
Context (hll_size : list Z -> Z -> Z).

(** The size, and the set afterwards: sub-bitmaps are merged into the first one. *)
Definition count_distinct_set_size (set_handle : option CountDistinctSet)
    (d : CountDistinctDescriptor) : result SetError (Z * option CountDistinctSet) :=
  match set_handle with
  | None => Ok (0, None)
  | Some set =>
      if decide (impl_type_ d = ImplBitmap) then
        if approximate d then
          let* _ := check (0 <? bitmap_sz_bits d) in
          match set with
          | Registers M => Ok (s64 (hll_size M (bitmap_sz_bits d)), set_handle)
          | _ => Err SType
          end
        else
          match set with
          | BitmapSet set_vals =>
              let* set_vals :=
                if 1 <? sub_bitmap_count d then partial_bitmap_union set_vals d else Ok set_vals in
              let* size := bitmapSizeBytes d in
              let* n := bitmap_set_size set_vals size in
              Ok (n, Some (BitmapSet set_vals))
          | _ => Err SType
          end
      else
        let* _ := check (bool_decide (impl_type_ d = ImplHashSet)) in
        match set with
        | HashSet values => Ok (Z.of_nat (size values), set_handle)
        | _ => Err SType
        end
  end.
End Size.

(** The new and the old set afterwards.  The four calls of [hll_unify] differ in the width of
    the registers only; a device is a CPU or a GPU, so that the [CHECK] of the last case holds. *)
Definition count_distinct_set_union (new_set old_set : CountDistinctSet)
    (new_desc old_desc : CountDistinctDescriptor)
    : result SetError (CountDistinctSet * CountDistinctSet) :=
  if decide (impl_type_ new_desc = ImplBitmap) then
    if approximate new_desc then
      let* _ := check (approximate old_desc) in
      match new_set, old_set with
      | Registers M, Registers N =>
          let* '(M, N) := hll_unify M N (s32 (Z.shiftl 1 (bitmap_sz_bits old_desc))) in
          Ok (Registers M, Registers N)
      | _, _ => Err SType
      end
    else
      let* _ := check (sub_bitmap_count new_desc =? sub_bitmap_count old_desc) in
      let* _ := check (1 <=? sub_bitmap_count old_desc) in
      let* bitmap_byte_sz :=
        if sub_bitmap_count old_desc =? 1 then bitmapSizeBytes old_desc
        else bitmapPaddedSizeBytes old_desc in
      match new_set, old_set with
      | BitmapSet new_bytes, BitmapSet old_bytes =>
          let* new_bytes := bitmap_set_union new_bytes old_bytes bitmap_byte_sz in
          Ok (BitmapSet new_bytes, BitmapSet old_bytes)
      | _, _ => Err SType
      end
  else
    let* _ := check (bool_decide (impl_type_ old_desc = ImplHashSet)) in
    match new_set, old_set with
    | HashSet new_values, HashSet old_values => Ok (HashSet (new_values ∪ old_values), old_set)
    | _, _ => Err SType
    end.

(** ** Reduction of two results: this set and that one, with their descriptors *)

(** [count_distinct_set_union_jit_rt], which the generated reduction calls. *)
Definition count_distinct_set_union_jit_rt (this_set that_set : CountDistinctSet)
    (this_desc that_desc : CountDistinctDescriptor)
    : result SetError (CountDistinctSet * CountDistinctSet) :=
  let* _ := check (bool_decide (impl_type_ that_desc <> ImplInvalid)) in
  let* _ := check (bool_decide (impl_type_ that_desc = impl_type_ this_desc)) in
  count_distinct_set_union this_set that_set this_desc that_desc.

(** [ResultSetStorage::reduceOneCountDistinctSlot]: that set is the new one, this the old one. *)
Definition reduceOneCountDistinctSlot (this_set that_set : CountDistinctSet)
    (this_desc that_desc : CountDistinctDescriptor)
    : result SetError (CountDistinctSet * CountDistinctSet) :=
  let* _ := check (bool_decide (impl_type_ this_desc <> ImplInvalid)) in
  let* _ := check (bool_decide (impl_type_ this_desc = impl_type_ that_desc)) in
  let* '(that_set, this_set) :=
    count_distinct_set_union that_set this_set that_desc this_desc in
  Ok (this_set, that_set).

(** * Bitmaps and registers as sets

    The bit of a bitmap at an index, and the effect of the operations of [CountDistinct] on it;
    the registers of a sketch as maxima over the keys it has seen. *)

Local Open Scope nat_scope.

(** ** Buffers *)

Lemma get_at buf i : i < length buf -> get buf (Z.of_nat i) = Ok (buf !!! i).
Proof.
  intros H. unfold get. rewrite Nat2Z.id.
  destruct (lookup_lt_is_Some_2 buf i H) as [v E]. rewrite E.
  rewrite (list_lookup_total_correct _ _ _ E).
  by replace (0 <=? Z.of_nat i)%Z with true by lia.
Qed.

Lemma put_at buf i v : i < length buf -> put buf (Z.of_nat i) v = Ok (<[i := v]> buf).
Proof. intros H. unfold put. rewrite get_at by done. simpl. by rewrite Nat2Z.id. Qed.

(** ** Bits of a bitmap *)

Definition bytes_ok (bm : list Z) : Prop := Forall (fun b => (0 <= b < 256)%Z) bm.

Definition bit_at (bm : list Z) (i : nat) : bool :=
  Z.testbit (bm !!! (i / 8)) (Z.of_nat (i mod 8)).

Lemma byte_range bm i : bytes_ok bm -> (0 <= bm !!! i < 256)%Z.
Proof.
  intros B. destruct (bm !! i) as [b|] eqn:E.
  - rewrite (list_lookup_total_correct _ _ _ E). by apply (Forall_lookup_1 _ _ _ _ B E).
  - rewrite list_lookup_total_alt, E. simpl. cbv. done.
Qed.

Lemma byte_high b n : (0 <= b < 256)%Z -> 8 <= n -> Z.testbit b (Z.of_nat n) = false.
Proof.
  intros Hb Hn. destruct (Z.eq_dec b 0%Z) as [->|]; [apply Z.testbit_0_l|].
  apply Z.bits_above_log2; [lia|]. enough (Z.log2 b < 8)%Z by lia. apply Z.log2_lt_pow2; lia.
Qed.

Lemma byte_bound b : (0 <= b)%Z -> (forall n, 8 <= n -> Z.testbit b (Z.of_nat n) = false) -> (b < 256)%Z.
Proof.
  intros Hb H. destruct (Z.eq_dec b 0%Z) as [->|]; [lia|].
  destruct (Z.le_gt_cases 8 (Z.log2 b)) as [L|L].
  - specialize (H (Z.to_nat (Z.log2 b)) ltac:(lia)). rewrite Z2Nat.id in H by lia.
    rewrite Z.bit_log2 in H by lia. discriminate.
  - apply (Z.log2_lt_pow2 b 8%Z); lia.
Qed.

Lemma lor_byte a b : (0 <= a < 256)%Z -> (0 <= b < 256)%Z -> (0 <= Z.lor a b < 256)%Z.
Proof.
  intros Ha Hb. assert (0 <= Z.lor a b)%Z by (apply Z.lor_nonneg; lia).
  split; [done|]. apply byte_bound; [done|]. intros n Hn.
  by rewrite Z.lor_spec, !byte_high.
Qed.

Lemma bit_insert bm j v i :
  j < length bm ->
  bit_at (<[j := v]> bm) i = if i / 8 =? j then Z.testbit v (Z.of_nat (i mod 8)) else bit_at bm i.
Proof.
  intros Hj. unfold bit_at. destruct (Nat.eqb_spec (i / 8) j) as [<-|N].
  - by rewrite list_lookup_total_insert_eq by lia.
  - by rewrite list_lookup_total_insert_ne by done.
Qed.

Lemma bytes_insert bm j v : bytes_ok bm -> (0 <= v < 256)%Z -> bytes_ok (<[j := v]> bm).
Proof. intros B Hv. by apply Forall_insert. Qed.

Lemma bytes_drop bm k : bytes_ok bm -> bytes_ok (drop k bm).
Proof. apply Forall_drop. Qed.

Lemma bytes_take bm k : bytes_ok bm -> bytes_ok (take k bm).
Proof. apply Forall_take. Qed.

Lemma bit_zero n i : i < 8 * n -> bit_at (replicate n 0%Z) i = false.
Proof.
  intros H. unfold bit_at. rewrite lookup_total_replicate_2; [apply Z.testbit_0_l|].
  apply Nat.Div0.div_lt_upper_bound. lia.
Qed.

(** The address of a bit. *)
Lemma bit_address idx :
  Z.shiftr (Z.of_nat idx) 3 = Z.of_nat (idx / 8) /\ Z.land (Z.of_nat idx) 7 = Z.of_nat (idx mod 8).
Proof.
  split.
  - rewrite Z.shiftr_div_pow2 by lia. rewrite Nat2Z.inj_div. done.
  - change 7%Z with (Z.ones 3). rewrite Z.land_ones by lia. by rewrite Nat2Z.inj_mod.
Qed.

Lemma testbit_one k i : Z.testbit (Z.shiftl 1 (Z.of_nat k)) (Z.of_nat i) = (i =? k).
Proof.
  rewrite Z.shiftl_1_l. destruct (Nat.eqb_spec i k) as [->|N].
  - apply Z.pow2_bits_true. lia.
  - apply Z.pow2_bits_false. lia.
Qed.

Lemma one_byte k : k < 8 -> (0 <= Z.shiftl 1 (Z.of_nat k) < 256)%Z.
Proof.
  intros H. rewrite Z.shiftl_1_l. split; [lia|].
  change 256%Z with (2 ^ 8)%Z. apply Z.pow_lt_mono_r; lia.
Qed.

(** Adding the value at the distance [idx] of the minimum sets the bit [idx]. *)
Lemma add_bit bm val min_val idx :
  bytes_ok bm -> val = (min_val + Z.of_nat idx)%Z -> (Z.of_nat idx < 2 ^ 64)%Z ->
  idx / 8 < length bm ->
  exists bm', agg_count_distinct_bitmap bm val min_val = Ok bm'
    /\ length bm' = length bm /\ bytes_ok bm'
    /\ forall i, bit_at bm' i = bit_at bm i || (i =? idx).
Proof.
  intros B -> Hi Hl. unfold agg_count_distinct_bitmap.
  replace (min_val + Z.of_nat idx - min_val)%Z with (Z.of_nat idx) by lia.
  rewrite u64_small by (change (2 ^ 64)%Z with 18446744073709551616%Z in Hi; lia).
  destruct (bit_address idx) as [-> ->].
  rewrite get_at by done. cbn [rbind]. rewrite put_at by done.
  pose proof (Nat.mod_upper_bound idx 8 ltac:(lia)) as Hm.
  assert (R := lor_byte _ _ (byte_range bm (idx / 8) B) (one_byte _ Hm)).
  rewrite u8_small by done.
  eexists. split; [done|]. split; [apply length_insert|]. split; [by apply bytes_insert|].
  intros i. rewrite bit_insert by done. destruct (Nat.eqb_spec (i / 8) (idx / 8)) as [E|N].
  - rewrite Z.lor_spec, testbit_one. unfold bit_at. rewrite E. f_equal.
    apply eq_iff_eq_true. rewrite !Nat.eqb_eq.
    pose proof (Nat.div_mod_eq i 8). pose proof (Nat.div_mod_eq idx 8). split; [lia | congruence].
  - destruct (Nat.eqb_spec i idx) as [->|]; [done | by rewrite orb_false_r].
Qed.

(** The test of a bit. *)
Lemma land_bit v k :
  (if (Z.land v (Z.shiftl 1 (Z.of_nat k)) =? 0)%Z then 0%Z else 1%Z) = b2z (Z.testbit v (Z.of_nat k)).
Proof.
  rewrite Z.shiftl_1_l. destruct (Z.testbit v (Z.of_nat k)) eqn:E; simpl.
  - destruct (Z.eqb_spec (Z.land v (2 ^ Z.of_nat k)%Z) 0%Z) as [Z|]; [|done].
    apply (f_equal (fun x => Z.testbit x (Z.of_nat k))) in Z.
    rewrite Z.land_spec, E, Z.pow2_bits_true, Z.testbit_0_l in Z by lia. discriminate.
  - replace (Z.land v (2 ^ Z.of_nat k)%Z) with 0%Z; [done|]. symmetry. apply Z.bits_inj'.
    intros n Hn. rewrite Z.land_spec, Z.testbit_0_l.
    destruct (Z.eq_dec n (Z.of_nat k)) as [->|]; [by rewrite E|].
    rewrite Z.pow2_bits_false by lia. apply andb_false_r.
Qed.

(** ** Union *)

Lemma union_loop_bits lhs rhs n i :
  bytes_ok lhs -> bytes_ok rhs -> i + n <= length lhs -> i + n <= length rhs ->
  exists bm, bitmap_union_loop lhs rhs i n = Ok bm
    /\ length bm = length lhs /\ bytes_ok bm
    /\ forall j, bit_at bm j
         = bit_at lhs j || (if decide (i <= j / 8 < i + n) then bit_at rhs j else false).
Proof.
  revert lhs i. induction n as [|n IH]; intros lhs i BL BR L R; cbn [bitmap_union_loop].
  - eexists. split; [done|]. repeat split; [done|]. intros j.
    rewrite decide_False by lia. by rewrite orb_false_r.
  - rewrite !get_at by lia. cbn [rbind]. rewrite put_at by lia. cbn [rbind].
    pose proof (lor_byte _ _ (byte_range lhs i BL) (byte_range rhs i BR)) as Rg.
    destruct (IH (<[i := Z.lor (lhs !!! i) (rhs !!! i)]> lhs) (S i)) as (bm & E & Ln & B & H);
      [by apply bytes_insert | done | rewrite length_insert; lia | lia |].
    exists bm. split; [done|]. rewrite length_insert in Ln. split; [done|]. split; [done|].
    intros j. rewrite H, bit_insert by lia.
    destruct (Nat.eqb_spec (j / 8) i) as [E'|N].
    + repeat case_decide; try lia. rewrite Z.lor_spec, orb_false_r.
      unfold bit_at. by rewrite E'.
    + f_equal. repeat case_decide; (done || lia).
Qed.

Lemma union_bits lhs rhs n :
  bytes_ok lhs -> bytes_ok rhs -> n <= length lhs -> n <= length rhs ->
  exists bm, bitmap_set_union lhs rhs (Z.of_nat n) = Ok bm
    /\ length bm = length lhs /\ bytes_ok bm
    /\ forall j, bit_at bm j = bit_at lhs j || (if decide (j / 8 < n) then bit_at rhs j else false).
Proof.
  intros BL BR L R. unfold bitmap_set_union. rewrite Nat2Z.id.
  destruct (union_loop_bits lhs rhs n 0 BL BR) as (bm & E & Ln & B & H); [lia | lia |].
  exists bm. repeat split; [done | done | done |]. intros j. rewrite H. f_equal.
  repeat case_decide; (done || lia).
Qed.

(** ** Size *)

(** The number of bits set among the [n] bits from [a] on. *)
Definition bits_set (bm : list Z) (a n : nat) : nat := length (List.filter (bit_at bm) (seq a n)).

Lemma bits_set_app bm a n m : bits_set bm a (n + m) = bits_set bm a n + bits_set bm (a + n) m.
Proof. unfold bits_set. by rewrite seq_app, List.filter_app, length_app. Qed.

Lemma filter_shift f g a n b :
  (forall i, i < n -> f (a + i) = g (b + i)) ->
  length (List.filter f (seq a n)) = length (List.filter g (seq b n)).
Proof.
  revert a b. induction n as [|n IH]; intros a b H; simpl; [done|].
  specialize (IH (S a) (S b)).
  rewrite <- (Nat.add_0_r a), <- (Nat.add_0_r b), H, (Nat.add_0_r a), (Nat.add_0_r b) by lia.
  assert (E : length (List.filter f (seq (S a) n)) = length (List.filter g (seq (S b) n))).
  { apply IH. intros i Hi. specialize (H (S i) ltac:(lia)).
    by rewrite !Nat.add_succ_r in H. }
  destruct (g b); simpl; lia.
Qed.

Lemma bitset_count_bits w v bm a :
  (forall i, i < w -> Z.testbit v (Z.of_nat i) = bit_at bm (a + i)) ->
  bitset_count w v = Z.of_nat (bits_set bm a w).
Proof. intros H. unfold bitset_count, bits_set. f_equal. by apply filter_shift. Qed.

Lemma word_bits bytes i :
  bytes_ok bytes -> i < 8 * length bytes -> Z.testbit (word_of_bytes bytes) (Z.of_nat i) = bit_at bytes i.
Proof.
  revert i. induction bytes as [|b bytes IH]; intros i B Hi; simpl in *; [lia|].
  apply Forall_cons_1 in B as [Hb B].
  rewrite Z.lor_spec, Z.shiftl_spec by lia. destruct (Nat.lt_ge_cases i 8) as [L|G].
  - rewrite (Z.testbit_neg_r _ (Z.of_nat i - 8)) by lia. rewrite orb_false_r.
    unfold bit_at. by rewrite (Nat.div_small i 8), (Nat.mod_small i 8) by lia.
  - rewrite byte_high by lia. replace (Z.of_nat i - 8)%Z with (Z.of_nat (i - 8)) by lia.
    rewrite IH by (done || lia). unfold bit_at.
    replace i with ((i - 8) + 1 * 8) at 3 4 by lia.
    rewrite Nat.div_add, Nat.Div0.mod_add, Nat.add_1_r by lia. done.
Qed.

Lemma bit_drop bm k i : bit_at (drop k bm) i = bit_at bm (8 * k + i).
Proof.
  unfold bit_at. rewrite !list_lookup_total_alt, lookup_drop.
  replace (8 * k + i) with (i + k * 8) by lia.
  rewrite Nat.div_add, Nat.Div0.mod_add by lia. by rewrite (Nat.add_comm k).
Qed.

Lemma bit_take bm k i : i / 8 < k -> bit_at (take k bm) i = bit_at bm i.
Proof. intros H. unfold bit_at. by rewrite !list_lookup_total_alt, lookup_take_lt. Qed.

Lemma count_words_bits bm n i acc :
  bytes_ok bm -> 8 * (i + n) <= length bm ->
  count_words bm i n acc = Ok (acc + Z.of_nat (bits_set bm (64 * i) (64 * n)))%Z.
Proof.
  intros B. revert i acc. induction n as [|n IH]; intros i acc H; cbn [count_words].
  - rewrite Nat.mul_0_r. unfold bits_set. simpl. f_equal. lia.
  - assert (L : length (take 8 (drop (8 * i) bm)) = 8) by (rewrite length_take, length_drop; lia).
    unfold get64. rewrite L. cbn [Nat.eqb rbind].
    rewrite (bitset_count_bits 64 _ bm (64 * i)).
    + rewrite IH by lia. f_equal. replace (64 * S n) with (64 + 64 * n) by lia.
      rewrite bits_set_app. replace (64 * S i) with (64 * i + 64) by lia. lia.
    + intros j Hj. rewrite word_bits by (first [by apply bytes_take, bytes_drop | rewrite L; lia]).
      rewrite bit_take, bit_drop by (apply Nat.Div0.div_lt_upper_bound; lia). f_equal. lia.
Qed.

Lemma count_bytes_bits bm n i acc :
  bytes_ok bm -> i + n <= length bm ->
  count_bytes bm i n acc = Ok (acc + Z.of_nat (bits_set bm (8 * i) (8 * n)))%Z.
Proof.
  intros B. revert i acc. induction n as [|n IH]; intros i acc H; cbn [count_bytes].
  - rewrite Nat.mul_0_r. unfold bits_set. simpl. f_equal. lia.
  - rewrite get_at by lia. cbn [Nat.eqb rbind]. rewrite (bitset_count_bits 8 _ bm (8 * i)).
    + rewrite IH by lia. f_equal. replace (8 * S n) with (8 + 8 * n) by lia.
      rewrite bits_set_app. replace (8 * S i) with (8 * i + 8) by lia. lia.
    + intros j Hj. unfold bit_at. replace (8 * i + j) with (j + i * 8) by lia.
      rewrite Nat.div_add, Nat.Div0.mod_add, Nat.div_small, Nat.mod_small by lia. done.
Qed.

Lemma bits_set_drop bm k a n : bits_set (drop k bm) a n = bits_set bm (8 * k + a) n.
Proof.
  unfold bits_set. apply filter_shift. intros i Hi. rewrite bit_drop. f_equal. lia.
Qed.

Lemma set_size_bits bm n :
  bytes_ok bm -> n <= length bm ->
  bitmap_set_size bm (Z.of_nat n) = Ok (Z.of_nat (bits_set bm 0 (8 * n))).
Proof.
  intros B L. unfold bitmap_set_size. destruct (bit_address n) as [-> ->]. rewrite !Nat2Z.id.
  pose proof (Nat.div_mod_eq n 8) as D.
  rewrite count_words_bits by (done || lia). cbn [Nat.eqb rbind].
  rewrite count_bytes_bits by (first [by apply bytes_drop | rewrite length_drop; lia]).
  rewrite bits_set_drop. f_equal.
  replace (8 * n) with (64 * (n / 8) + 8 * (n mod 8)) by lia.
  rewrite bits_set_app, Nat2Z.inj_add. do 3 f_equal. lia.
Qed.
