(* ===== verification/CountDistinctProps.v ===== *)
(** * COUNT(DISTINCT ...) counts distinct values

    The two exact representations refine a finite set of integers; a sketch is determined by the
    set of the keys it has seen. *)

From Stdlib Require Import ZArith Lia List Bool.
From stdpp Require Import base list gmap numbers.
From S2P Require Import Prelude MurmurHash CountDistinct.
Import ListNotations.
Local Open Scope Z_scope.
Local Open Scope hdk_scope.

(** ** Rows of a fragment, and the reduction of the fragments *)

(** The set a query starts with: zeroed memory, or an empty hash set. *)
Definition initial_set (d : CountDistinctDescriptor) : result SetError CountDistinctSet :=
  if decide (impl_type_ d = ImplBitmap) then
    let* bytes := bitmapPaddedSizeBytes d in
    Ok (if approximate d then Registers (replicate (Z.to_nat bytes) 0)
        else BitmapSet (replicate (Z.to_nat bytes) 0))
  else Ok (HashSet ∅).

(** One row: the aggregate the descriptor asks for. *)
Definition add_row (d : CountDistinctDescriptor) (skip_val : Z) (set : CountDistinctSet) (val : Z)
    : result SetError CountDistinctSet :=
  match set with
  | BitmapSet bm =>
      let* bm := agg_count_distinct_bitmap_skip_val bm val (min_val d) skip_val in
      Ok (BitmapSet bm)
  | Registers M =>
      let* M := agg_approximate_count_distinct M val (bitmap_sz_bits d) in
      Ok (Registers M)
  | HashSet values => Ok (HashSet (agg_count_distinct_skip_val values val skip_val))
  end.

Fixpoint add_rows (d : CountDistinctDescriptor) (skip_val : Z) (set : CountDistinctSet)
    (rows : list Z) : result SetError CountDistinctSet :=
  match rows with
  | [] => Ok set
  | val :: rows' => let* set := add_row d skip_val set val in add_rows d skip_val set rows'
  end.

Definition fragment_set (d : CountDistinctDescriptor) (skip_val : Z) (rows : list Z)
    : result SetError CountDistinctSet :=
  let* set := initial_set d in add_rows d skip_val set rows.

(** The generated reduction merges the sets of the other fragments into [this]. *)
Fixpoint reduce_sets (d : CountDistinctDescriptor) (skip_val : Z) (this : CountDistinctSet)
    (fragments : list (list Z)) : result SetError CountDistinctSet :=
  match fragments with
  | [] => Ok this
  | rows :: fragments' =>
      let* that := fragment_set d skip_val rows in
      let* '(this, _) := count_distinct_set_union_jit_rt this that d d in
      reduce_sets d skip_val this fragments'
  end.

Definition count_fragments (d : CountDistinctDescriptor) (skip_val : Z) (first : list Z)
    (fragments : list (list Z)) : result SetError CountDistinctSet :=
  let* this := fragment_set d skip_val first in reduce_sets d skip_val this fragments.

(** The specification: the values that are not null. *)
Definition not_null (skip_val : Z) (rows : list Z) : gset Z :=
  list_to_set (List.filter (fun v => negb (v =? skip_val)) rows).

(** ** Exact representations *)

(** A descriptor of an exact count on the CPU. *)
Definition exact_desc (d : CountDistinctDescriptor) : Prop :=
  impl_type_ d = ImplHashSet
  \/ (impl_type_ d = ImplBitmap /\ approximate d = false /\ device_type d = DeviceCPU
      /\ sub_bitmap_count d = 1 /\ 0 <= bitmap_sz_bits d <= INT64_MAX).

#[global] Instance exact_desc_dec d : Decision (exact_desc d) := _.

(** A value a bitmap has a bit for. *)
Definition in_range (d : CountDistinctDescriptor) (v : Z) : Prop :=
  impl_type_ d = ImplBitmap -> min_val d <= v < min_val d + bitmap_sz_bits d.

(** The bytes of the bitmap. *)
Definition bitmap_bytes (d : CountDistinctDescriptor) : nat :=
  Z.to_nat (bitmap_bits_to_bytes (bitmap_sz_bits d)).

(** The set holds exactly the values of [S]. *)
Definition holds (d : CountDistinctDescriptor) (S : gset Z) (set : CountDistinctSet) : Prop :=
  match set with
  | HashSet values => impl_type_ d = ImplHashSet /\ values = S
  | BitmapSet bm =>
      impl_type_ d = ImplBitmap /\ length bm = bitmap_bytes d /\ bytes_ok bm
      /\ forall v, v ∈ S <->
           exists i, (i < 8 * bitmap_bytes d)%nat /\ v = min_val d + Z.of_nat i /\ bit_at bm i = true
  | Registers _ => False
  end.

Lemma bits_to_bytes n :
  0 <= n -> 0 <= bitmap_bits_to_bytes n /\ n <= 8 * bitmap_bits_to_bytes n < n + 8.
Proof. intros H. unfold bitmap_bits_to_bytes. destruct (Z.eqb_spec (n mod 8) 0); divmod. Qed.

Lemma exact_bytes d :
  exact_desc d -> impl_type_ d = ImplBitmap ->
  bitmapSizeBytes d = Ok (Z.of_nat (bitmap_bytes d))
  /\ bitmapPaddedSizeBytes d = Ok (Z.of_nat (bitmap_bytes d))
  /\ bitmap_sz_bits d <= Z.of_nat (8 * bitmap_bytes d) < 2 ^ 64.
Proof.
  intros [E|(I & A & C & S & R)] I'; [congruence|].
  pose proof (bits_to_bytes _ (proj1 R)) as [H0 H1]. unfold bitmap_bytes, INT64_MAX in *.
  rewrite Nat2Z.inj_mul, Z2Nat.id by lia.
  unfold bitmapPaddedSizeBytes, bitmapSizeBytes. rewrite I, A, C, S.
  generalize dependent (bitmap_bits_to_bytes (bitmap_sz_bits d)). intros k H0 H1. simpl.
  rewrite Z.mul_1_r, u64_small by lia. repeat split; lia.
Qed.

Lemma initial_holds d :
  exact_desc d -> exists set, initial_set d = Ok set /\ holds d ∅ set.
Proof.
  intros Hd. unfold initial_set. destruct (decide (impl_type_ d = ImplBitmap)) as [I|N].
  - destruct (exact_bytes d Hd I) as (_ & -> & _).
    destruct Hd as [?|(_ & A & _)]; [congruence|]. simpl. rewrite A, Nat2Z.id.
    eexists. split; [done|]. simpl. split; [done|]. split; [by rewrite length_replicate|].
    split; [apply Forall_replicate; lia|].
    intros v. split; [set_solver|]. intros (i & Hi & _ & B).
    by rewrite bit_zero in B.
  - eexists. split; [done|]. simpl. destruct Hd as [?|[? _]]; [done | congruence].
Qed.

Lemma not_null_cons skip v rows :
  not_null skip (v :: rows) = (if v =? skip then ∅ else {[v]}) ∪ not_null skip rows.
Proof. unfold not_null. simpl. destruct (v =? skip); simpl; set_solver. Qed.

Lemma not_null_app skip l k : not_null skip (l ++ k) = not_null skip l ∪ not_null skip k.
Proof. unfold not_null. by rewrite List.filter_app, list_to_set_app_L. Qed.

Lemma add_row_holds d skip S set v :
  exact_desc d -> holds d S set -> (v <> skip -> in_range d v) ->
  exists set', add_row d skip set v = Ok set' /\ holds d (S ∪ (if v =? skip then ∅ else {[v]})) set'.
Proof.
  intros Hd H R. destruct set as [bm|M|values]; [| done |]; simpl in *.
  - destruct H as (I & L & B & Hb). unfold agg_count_distinct_bitmap_skip_val.
    destruct (Z.eqb_spec v skip) as [E|N]; cbn [negb].
    { eexists. split; [done|]. rewrite union_empty_r_L. by simpl. }
    specialize (R N I). destruct (exact_bytes d Hd I) as (_ & _ & Hn).
    set (idx := Z.to_nat (v - min_val d)).
    assert (Hidx : (idx < 8 * bitmap_bytes d)%nat) by lia.
    destruct (add_bit bm v (min_val d) idx B) as (bm' & -> & L' & B' & Hb'); [lia | lia | |].
    { rewrite L. apply Nat.Div0.div_lt_upper_bound. lia. }
    eexists. split; [done|]. simpl. repeat split; [done | congruence | done | |].
    + rewrite elem_of_union, elem_of_singleton, Hb. intros [(i & Hi & -> & Ht)| ->].
      * exists i. by rewrite Hb', Ht.
      * exists idx. rewrite Hb', Nat.eqb_refl, orb_true_r. lia.
    + rewrite elem_of_union, elem_of_singleton, Hb. intros (i & Hi & -> & Ht).
      rewrite Hb' in Ht. apply orb_true_iff in Ht as [Ht|Ht]; [left; by exists i|].
      apply Nat.eqb_eq in Ht. right. lia.
  - destruct H as [I ->]. eexists. split; [done|]. simpl. split; [done|].
    unfold agg_count_distinct_skip_val, agg_count_distinct. destruct (v =? skip); simpl; set_solver.
Qed.

Lemma add_rows_holds d skip rows :
  exact_desc d -> (forall v, v ∈ rows -> v <> skip -> in_range d v) ->
  forall S set, holds d S set ->
  exists set', add_rows d skip set rows = Ok set' /\ holds d (S ∪ not_null skip rows) set'.
Proof.
  intros Hd. induction rows as [|v rows IH]; intros R S set H; simpl.
  - exists set. split; [done|]. unfold not_null. simpl. by rewrite union_empty_r_L.
  - destruct (add_row_holds d skip S set v Hd H) as (set1 & -> & H1); [apply R; set_solver|].
    destruct (IH ltac:(set_solver) _ _ H1) as (set2 & E & H2). simpl.
    exists set2. split; [done|]. by rewrite not_null_cons, union_assoc_L.
Qed.

Lemma fragment_holds d skip rows :
  exact_desc d -> (forall v, v ∈ rows -> v <> skip -> in_range d v) ->
  exists set, fragment_set d skip rows = Ok set /\ holds d (not_null skip rows) set.
Proof.
  intros Hd R. unfold fragment_set. destruct (initial_holds d Hd) as (s & -> & H). simpl.
  destruct (add_rows_holds d skip rows Hd R _ _ H) as (s' & -> & H').
  exists s'. by rewrite union_empty_l_L in H'.
Qed.

Lemma union_holds d S T this that :
  exact_desc d -> holds d S this -> holds d T that ->
  exists this', count_distinct_set_union_jit_rt this that d d = Ok (this', that)
    /\ holds d (S ∪ T) this'.
Proof.
  intros Hd H1 H2. unfold count_distinct_set_union_jit_rt, count_distinct_set_union.
  destruct this as [bm1|?|vs1], that as [bm2|?|vs2]; simpl in H1, H2; try done;
    try (destruct H1 as [? _], H2 as [? _]; congruence).
  - destruct H1 as (I & L1 & B1 & Hb1), H2 as (_ & L2 & B2 & Hb2).
    destruct (exact_bytes d Hd I) as (E & _ & Hn).
    destruct Hd as [?|(_ & A & _ & Sc & _)]; [congruence|].
    rewrite E, !bool_decide_eq_true_2 by congruence. rewrite A, Sc. cbn [check rbind].
    rewrite decide_True by done. simpl.
    destruct (union_bits bm1 bm2 (bitmap_bytes d)) as (bm & -> & L & B & Hb); [done | done | lia | lia |].
    simpl. eexists. split; [done|]. split; [done|]. split; [congruence|]. split; [done|].
    intros v. rewrite elem_of_union, Hb1, Hb2. split.
    + intros [(i & Hi & -> & Ht)|(i & Hi & -> & Ht)]; exists i; rewrite Hb, Ht.
      * done.
      * rewrite decide_True by (apply Nat.Div0.div_lt_upper_bound; lia). by rewrite orb_true_r.
    + intros (i & Hi & -> & Ht). rewrite Hb in Ht. apply orb_true_iff in Ht as [Ht|Ht].
      * left. by exists i.
      * right. exists i. case_decide; [done | discriminate].
  - destruct H1 as [I ->], H2 as [_ ->].
    rewrite !bool_decide_eq_true_2 by congruence. rewrite decide_False by congruence. simpl.
    by eexists.
Qed.

Lemma reduce_holds d skip fragments :
  exact_desc d ->
  (forall rows v, rows ∈ fragments -> v ∈ rows -> v <> skip -> in_range d v) ->
  forall S this, holds d S this ->
  exists set, reduce_sets d skip this fragments = Ok set
    /\ holds d (S ∪ not_null skip (concat fragments)) set.
Proof.
  intros Hd. induction fragments as [|rows fragments IH]; intros R S this H; simpl.
  - exists this. split; [done|]. unfold not_null. simpl. by rewrite union_empty_r_L.
  - destruct (fragment_holds d skip rows Hd) as (that & -> & Ht); [set_solver|]. simpl.
    destruct (union_holds d _ _ _ _ Hd H Ht) as (this' & -> & H'). simpl.
    destruct (IH ltac:(set_solver) _ _ H') as (set & E & HE). exists set. split; [done|].
    by rewrite not_null_app, union_assoc_L.
Qed.

(** The bits of a bitmap and the elements of its set are equally many. *)
Lemma bits_set_size d S bm :
  holds d S (BitmapSet bm) -> bits_set bm 0 (8 * bitmap_bytes d) = size S.
Proof.
  intros (I & L & B & Hb). unfold bits_set.
  set (l := List.filter (bit_at bm) (seq 0 (8 * bitmap_bytes d))).
  assert (E : S = list_to_set (map (fun i => min_val d + Z.of_nat i) l)).
  { apply set_eq. intros v. rewrite Hb, elem_of_list_to_set, list_elem_of_In, in_map_iff. unfold l.
    setoid_rewrite List.filter_In. setoid_rewrite in_seq. split.
    - intros (i & Hi & -> & Ht). exists i. repeat split; [lia | lia | done].
    - intros (i & <- & Hi & Ht). exists i. repeat split; [lia | done]. }
  rewrite E, size_list_to_set; [by rewrite length_map|].
  apply (NoDup_fmap_2_strong (fun i => min_val d + Z.of_nat i)); [lia|].
  apply NoDup_ListNoDup, List.NoDup_filter, seq_NoDup.
Qed.

Lemma size_holds hll d S set :
  exact_desc d -> holds d S set ->
  count_distinct_set_size hll (Some set) d = Ok (Z.of_nat (size S), Some set).
Proof.
  intros Hd H. unfold count_distinct_set_size. destruct set as [bm|?|vs]; [|done|].
  - rewrite <- (bits_set_size d S bm H). simpl in H. destruct H as (I & L & B & _).
    destruct (exact_bytes d Hd I) as (E & _ & _).
    destruct Hd as [?|(_ & A & _ & Sc & _)]; [congruence|].
    rewrite decide_True by done. rewrite A, Sc, E. cbn [Z.ltb Z.compare Pos.compare rbind Pos.compare_cont].
    by rewrite set_size_bits by (done || lia).
  - destruct H as [I ->]. rewrite decide_False, bool_decide_eq_true_2 by congruence. done.
Qed.

(** [C28] COUNT(DISTINCT x) on a CPU is exact, with hash sets and with exact bitmaps of one part:
    whatever the fragments, adding the rows of every fragment to its own set and reducing the sets with
    the generated reduction ([count_distinct_set_union_jit_rt], not [reduceOneCountDistinctSlot]) gives
    a set whose size is the number of distinct values that are not null.  A bitmap must have a bit for
    every value that is not null; a hash set has no such limit. *)
Theorem distinct_count_exact hll_size d skip first fragments :
  exact_desc d ->
  (forall v, v ∈ first ++ concat fragments -> v <> skip -> in_range d v) ->
  exists set, count_fragments d skip first fragments = Ok set
    /\ count_distinct_set_size hll_size (Some set) d
       = Ok (Z.of_nat (size (not_null skip (first ++ concat fragments))), Some set).
Proof.
  intros Hd R. unfold count_fragments.
  destruct (fragment_holds d skip first Hd) as (this & -> & H).
  { intros v Hv. apply R. set_solver. }
  destruct (reduce_holds d skip fragments Hd) with (S := not_null skip first) (this := this)
    as (set & E & HE); [| done |].
  { intros rows v Hr Hv. apply R. rewrite elem_of_app. right.
    apply list_elem_of_In, in_concat. exists rows. by rewrite <- !list_elem_of_In. }
  exists set. split; [done|]. rewrite not_null_app. by apply size_holds.
Qed.

(** A bitmap over -3 .. 16, with the null value -128, and three fragments. *)
Definition sample_desc : CountDistinctDescriptor :=
  mkCountDistinctDescriptor ImplBitmap (-3) 20 false DeviceCPU 1.

Lemma distinct_count_exact_witness :
  exists set, count_fragments sample_desc (-128) [5; -128; -3; 5] [[16; 5]; []; [-3; -128; 0]] = Ok set
    /\ count_distinct_set_size (fun _ _ => 0) (Some set) sample_desc = Ok (4, Some set).
Proof.
  refine (distinct_count_exact (fun _ _ => 0) sample_desc (-128) [5; -128; -3; 5]
    [[16; 5]; []; [-3; -128; 0]] _ _).
  - right. repeat split; vm_compute; congruence.
  - intros v Hv Hn _. simpl in Hv |- *. set_unfold in Hv. lia.
Defined.

(** A bitmap built from the rows of a subquery answers IN: the null value gives the null
    boolean, and any other value gives 1 exactly if a row had it. *)
Theorem bitmap_answers_in d skip rows v null_bool :
  exact_desc d -> impl_type_ d = ImplBitmap ->
  (forall w, w ∈ rows -> w <> skip -> in_range d w) ->
  exists bm, fragment_set d skip rows = Ok (BitmapSet bm)
    /\ bit_is_set (Some bm) v (min_val d) (min_val d + bitmap_sz_bits d - 1) skip null_bool
       = Ok (if v =? skip then null_bool else b2z (bool_decide (v ∈ rows))).
Proof.
  intros Hd I R. destruct (fragment_holds d skip rows Hd R) as (set & -> & H).
  destruct set as [bm|?|?]; [|done|by destruct H; congruence]. exists bm. split; [done|].
  simpl in H. destruct H as (_ & L & B & Hb). unfold bit_is_set.
  destruct (Z.eqb_spec v skip) as [|N]; [done|].
  destruct (exact_bytes d Hd I) as (_ & _ & Hn).
  destruct (decide (min_val d <= v < min_val d + bitmap_sz_bits d)) as [Hr|Hr].
  - replace ((v <? min_val d) || (min_val d + bitmap_sz_bits d - 1 <? v)) with false by lia.
    set (idx := Z.to_nat (v - min_val d)). replace (v - min_val d) with (Z.of_nat idx) by lia.
    rewrite u64_small by lia. destruct (bit_address idx) as [-> ->].
    rewrite get_at by (rewrite L; apply Nat.Div0.div_lt_upper_bound; lia). cbn [rbind].
    rewrite land_bit. do 2 f_equal. fold (bit_at bm idx). apply eq_iff_eq_true.
    rewrite bool_decide_eq_true.
    assert (E : v ∈ not_null skip rows <-> v ∈ rows).
    { unfold not_null. rewrite elem_of_list_to_set, !list_elem_of_In, List.filter_In.
      destruct (Z.eqb_spec v skip); intuition done. }
    rewrite <- E, Hb. split; [intros Ht; exists idx; split; [lia | split; [lia | done]]|].
    intros (i & Hi & Ei & Ht). by replace idx with i by lia.
  - replace ((v <? min_val d) || (min_val d + bitmap_sz_bits d - 1 <? v)) with true by lia.
    rewrite bool_decide_eq_false_2; [done|]. intros Hv. apply Hr, (R v Hv N I).
Qed.

Lemma bitmap_answers_in_witness :
  exists bm, fragment_set sample_desc (-128) [5; -128; 16] = Ok (BitmapSet bm)
    /\ bit_is_set (Some bm) 16 (-3) 16 (-128) (-128) = Ok 1.
Proof.
  refine (bitmap_answers_in sample_desc (-128) [5; -128; 16] 16 (-128) _ _ _).
  - right. repeat split; vm_compute; congruence.
  - reflexivity.
  - intros v Hv Hn _. simpl in Hv |- *. set_unfold in Hv. lia.
Defined.

(** ** The reduction that is not generated *)

(** [ResultSetStorage::reduceOneCountDistinctSlot] leaves an exact set of [this] as it was: the
    union goes to the set of [that]. *)
Lemma reduce_slot_keeps_this this that this_desc that_desc this' that' :
  approximate that_desc = false ->
  reduceOneCountDistinctSlot this that this_desc that_desc = Ok (this', that') -> this' = this.
Proof.
  intros A H. unfold reduceOneCountDistinctSlot, count_distinct_set_union in H.
  inv_bind H. inv_bind H. inv_bind H. destruct a1 as [x y]. injection H as <- <-.
  rewrite A in Ha1. repeat (case_decide || inv_bind Ha1); destruct that, this; simplify_eq; try done.
  all: inv_bind Ha1; by simplify_eq.
Qed.

(** So the values only [that] has seen are not counted. *)
Example reduce_slot_loses_values :
  exists this that this' that',
    fragment_set sample_desc (-128) [1] = Ok this
    /\ fragment_set sample_desc (-128) [2; 3] = Ok that
    /\ reduceOneCountDistinctSlot this that sample_desc sample_desc = Ok (this', that')
    /\ count_distinct_set_size (fun _ _ => 0) (Some this') sample_desc = Ok (1, Some this').
Proof. do 4 eexists. repeat split; reflexivity. Qed.
