(* ===== verification/CountDistinctSketch.v ===== *)
(** * Sub-bitmaps and sketches

    The merge of the sub-bitmaps a GPU kernel leaves, and the registers of
    APPROX_COUNT_DISTINCT. *)

From Stdlib Require Import ZArith Lia List Bool.
From stdpp Require Import base list gmap numbers.
From S2P Require Import Prelude MurmurHash CountDistinct CountDistinctProps.
Import ListNotations.
Local Open Scope nat_scope.
Local Open Scope hdk_scope.

(** ** Sub-bitmaps *)

Lemma existsb_ext_in {A : Type} (f g : A -> bool) l :
  (forall x, In x l -> f x = g x) -> existsb f l = existsb g l.
Proof.
  induction l as [|x l IH]; intros H; simpl; [done|].
  rewrite H by (by left). f_equal. apply IH. intros y Hy. apply H. by right.
Qed.

(** The loop brings the bits of the sub-bitmaps [i .. i + n - 1] into the first one. *)
Lemma partial_loop_bits p size n i set :
  bytes_ok set -> size <= p -> 1 <= i -> p * (i + n) <= length set ->
  exists set', partial_union_loop set (Z.of_nat p) (Z.of_nat size) i n = Ok set'
    /\ length set' = length set /\ bytes_ok set'
    /\ forall j, bit_at set' j
         = bit_at set j || (if decide (j / 8 < size)
                            then existsb (fun k => bit_at set (8 * (p * k) + j)) (seq i n) else false).
Proof.
  revert i set. induction n as [|n IH]; intros i set B Hp Hi L; cbn [partial_union_loop].
  - eexists. split; [done|]. repeat split; [done|]. intros j. simpl.
    case_decide; by rewrite orb_false_r.
  - rewrite Nat2Z.id.
    destruct (union_bits set (drop (p * i) set) size) as (set1 & -> & L1 & B1 & H1);
      [done | by apply bytes_drop | nia | rewrite length_drop; nia |].
    cbn [rbind]. destruct (IH (S i) set1 B1 Hp) as (set' & -> & L' & B' & H'); [lia | nia |].
    exists set'. split; [done|]. split; [congruence|]. split; [done|].
    intros j. rewrite H', H1. case_decide as Hj; [|by rewrite orb_false_r].
    rewrite bit_drop, <- orb_assoc. cbn [seq existsb]. do 2 f_equal.
    apply existsb_ext_in. intros k Hk. apply in_seq in Hk. rewrite H1.
    case_decide as Hd; [exfalso | by rewrite orb_false_r].
    pose proof (Nat.div_mod_eq (8 * (p * k) + j) 8).
    pose proof (Nat.mod_upper_bound (8 * (p * k) + j) 8). nia.
Qed.

(** A descriptor of a bitmap in [sub_bitmap_count d] parts. *)
Definition split_desc (d : CountDistinctDescriptor) : Prop :=
  impl_type_ d = ImplBitmap /\ approximate d = false
  /\ (1 < sub_bitmap_count d <= 65536)%Z /\ (0 <= bitmap_sz_bits d <= 2 ^ 40)%Z.

(** The distance of the parts. *)
Definition part_bytes (d : CountDistinctDescriptor) : nat :=
  Z.to_nat (align_size_to_int64 (Z.of_nat (bitmap_bytes d))).

Lemma align_up n :
  (0 <= n < 2 ^ 60)%Z -> (n <= align_size_to_int64 n < n + 8)%Z.
Proof.
  intros H. change (2 ^ 60)%Z with 1152921504606846976%Z in H. unfold align_size_to_int64.
  rewrite u64_small by lia. rewrite Z.shiftl_mul_pow2, Z.shiftr_div_pow2 by lia.
  change (2 ^ 3)%Z with 8%Z. divmod.
Qed.

Lemma split_bytes d :
  split_desc d ->
  bitmapSizeBytes d = Ok (Z.of_nat (bitmap_bytes d))
  /\ bitmapPaddedSizeBytes d = Ok (Z.of_nat (part_bytes d) * sub_bitmap_count d)%Z
  /\ bitmap_bytes d <= part_bytes d.
Proof.
  intros (I & A & S & R). change (2 ^ 40)%Z with 1099511627776%Z in R.
  pose proof (bits_to_bytes _ (proj1 R)) as [H0 H1].
  assert (E : Z.of_nat (bitmap_bytes d) = bitmap_bits_to_bytes (bitmap_sz_bits d))
    by (unfold bitmap_bytes; lia).
  assert (Z : bitmapSizeBytes d = Ok (Z.of_nat (bitmap_bytes d))).
  { unfold bitmapSizeBytes. rewrite I, A, E. done. }
  pose proof (align_up (Z.of_nat (bitmap_bytes d)) ltac:(lia)) as Al.
  split; [done|]. unfold bitmapPaddedSizeBytes. rewrite Z. cbn [rbind].
  replace (1 <? sub_bitmap_count d)%Z with true by lia. rewrite orb_true_r.
  unfold part_bytes. rewrite Z2Nat.id by lia. split; [|lia].
  rewrite u64_small by nia. done.
Qed.

(** The size of a bitmap in parts is the number of indexes whose bit is set in some part. *)
Theorem sub_bitmaps_counted hll_size d set_vals :
  split_desc d -> bytes_ok set_vals ->
  length set_vals = part_bytes d * Z.to_nat (sub_bitmap_count d) ->
  exists set', count_distinct_set_size hll_size (Some (BitmapSet set_vals)) d
    = Ok (Z.of_nat (length (List.filter (fun j =>
            existsb (fun k => bit_at set_vals (8 * (part_bytes d * k) + j))
              (seq 0 (Z.to_nat (sub_bitmap_count d))))
            (seq 0 (8 * bitmap_bytes d)))), set').
Proof.
  intros Hd B L. destruct (split_bytes d Hd) as (E1 & E2 & Hle).
  destruct Hd as (I & A & Sc & R). set (c := Z.to_nat (sub_bitmap_count d)) in *.
  assert (Ec : sub_bitmap_count d = Z.of_nat c) by lia.
  unfold count_distinct_set_size. rewrite decide_True by done. rewrite A.
  replace (1 <? sub_bitmap_count d)%Z with true by lia.
  unfold partial_bitmap_union. rewrite E2. cbn [rbind].
  rewrite Z.mod_mul, Z.div_mul by lia. cbn [check rbind Z.eqb]. rewrite E1. cbn [rbind]. fold c.
  destruct (partial_loop_bits (part_bytes d) (bitmap_bytes d) (c - 1) 1 set_vals)
    as (set' & -> & L' & B' & H'); [done | done | lia | nia |].
  cbn [rbind]. rewrite set_size_bits by (done || nia). cbn [rbind].
  eexists. do 2 f_equal. unfold bits_set. f_equal. f_equal.
  apply List.filter_ext_in. intros j Hj. apply in_seq in Hj. rewrite H'.
  rewrite decide_True by (apply Nat.Div0.div_lt_upper_bound; lia).
  replace c with (S (c - 1)) at 2 by lia. cbn [seq existsb]. by rewrite Nat.mul_0_r.
Qed.

(** ** Sketches *)

Definition hll_hash (key : Z) : Z := MurmurHash64A (key_bytes key) 0.
Definition hll_index (b key : Z) : nat := Z.to_nat (u32 (Z.shiftr (hll_hash key) (64 - b))).
Definition hll_rank (b key : Z) : Z := get_rank (u64 (Z.shiftl (hll_hash key) b)) (64 - b).

Lemma agg_approximate_unfold M key b :
  agg_approximate_count_distinct M key b
  = let index := u32 (Z.shiftr (hll_hash key) (64 - b)) in
    let* m := get M index in put M index (Z.max (u8 m) (hll_rank b key)).
Proof. unfold agg_approximate_count_distinct, hll_rank, hll_hash. reflexivity. Qed.

(** The register [r] of the keys: the greatest rank of those with that index. *)
Definition max_rank (b : Z) (keys : list Z) (r : nat) : Z :=
  foldr (fun key acc => if decide (hll_index b key = r) then Z.max (hll_rank b key) acc else acc)
    0%Z keys.

Definition sketch (b : Z) (keys : list Z) : list Z :=
  map (max_rank b keys) (seq 0 (Z.to_nat (2 ^ b))).

Section Sketch.
Context (b : Z) (Hb : (4 <= b <= 16)%Z).

Lemma hll_index_lt key : hll_index b key < Z.to_nat (2 ^ b).
Proof.
  unfold hll_index, hll_hash. pose proof (murmur64_range (key_bytes key) 0) as R.
  set (h := MurmurHash64A _ _) in *. rewrite Z.shiftr_div_pow2 by lia.
  assert (0 < 2 ^ (64 - b))%Z by (apply Z.pow_pos_nonneg; lia).
  assert (2 ^ b <= 2 ^ 16)%Z by (apply Z.pow_le_mono_r; lia).
  assert (Q : (0 <= h / 2 ^ (64 - b) < 2 ^ b)%Z).
  { split; [apply Z.div_pos; lia|]. apply Z.div_lt_upper_bound; [lia|].
    rewrite <- Z.pow_add_r by lia. replace (64 - b + b)%Z with 64%Z by lia. apply R. }
  change (2 ^ 16)%Z with 65536%Z in *. rewrite u32_small by lia. lia.
Qed.

Lemma hll_rank_range key : (0 < hll_rank b key <= 65 - b)%Z.
Proof.
  unfold hll_rank, get_rank. set (x := u64 _).
  pose proof (u64_range (Z.shiftl (hll_hash key) b)) as R. fold x in R.
  assert (C : (x <> 0 -> 0 <= clz64 x <= 63)%Z).
  { intros N. unfold clz64. pose proof (Z.log2_nonneg x).
    assert (Z.log2 x < 64)%Z; [|lia]. apply Z.log2_lt_pow2; [lia|].
    change (2 ^ 64)%Z with 18446744073709551616%Z. lia. }
  destruct (Z.eqb_spec x 0) as [|N]; [|specialize (C N)]; rewrite u8_small by lia; lia.
Qed.

Lemma max_rank_range keys r : (0 <= max_rank b keys r <= 65 - b)%Z.
Proof.
  induction keys as [|k keys IH]; simpl; [lia|].
  pose proof (hll_rank_range k). case_decide; lia.
Qed.

Lemma max_rank_app l k r : max_rank b (l ++ k) r = Z.max (max_rank b l r) (max_rank b k r).
Proof.
  induction l as [|x l IH]; simpl.
  - pose proof (max_rank_range k r). lia.
  - rewrite IH. case_decide; lia.
Qed.

Lemma max_rank_elem keys key :
  key ∈ keys -> (hll_rank b key <= max_rank b keys (hll_index b key))%Z.
Proof.
  induction 1 as [k|k k' H IH]; simpl; [rewrite decide_True by done; lia|]. case_decide; lia.
Qed.

Lemma max_rank_mono l k r : (forall v, v ∈ l -> v ∈ k) -> (max_rank b l r <= max_rank b k r)%Z.
Proof.
  intros H. induction l as [|v l IH]; simpl.
  - apply max_rank_range.
  - specialize (IH ltac:(set_solver)). pose proof (max_rank_elem k v (H v ltac:(set_solver))).
    case_decide; [subst; lia | done].
Qed.

Lemma sketch_set l k : (forall v, v ∈ l <-> v ∈ k) -> sketch b l = sketch b k.
Proof.
  intros H. unfold sketch. apply map_ext. intros r.
  apply Z.le_antisymm; apply max_rank_mono; intros v; apply H.
Qed.

Lemma length_sketch keys : length (sketch b keys) = Z.to_nat (2 ^ b).
Proof. unfold sketch. by rewrite length_map, length_seq. Qed.

Lemma lookup_sketch keys r : r < Z.to_nat (2 ^ b) -> sketch b keys !! r = Some (max_rank b keys r).
Proof.
  intros H. unfold sketch. rewrite list_lookup_fmap, lookup_seq_lt by done. done.
Qed.

Lemma sketch_at keys r : r < Z.to_nat (2 ^ b) -> sketch b keys !!! r = max_rank b keys r.
Proof. intros H. by rewrite list_lookup_total_alt, lookup_sketch. Qed.

Lemma sketch_eq M keys :
  length M = Z.to_nat (2 ^ b) -> (forall r, r < Z.to_nat (2 ^ b) -> M !!! r = max_rank b keys r) ->
  M = sketch b keys.
Proof.
  intros L H. apply (list_eq_same_length _ _ (Z.to_nat (2 ^ b))); [by rewrite length_sketch | done |].
  intros r x y Hr Hx Hy. rewrite lookup_sketch in Hy by done.
  rewrite <- (list_lookup_total_correct _ _ _ Hx), H by done. congruence.
Qed.

Lemma add_key keys key :
  agg_approximate_count_distinct (sketch b keys) key b = Ok (sketch b (keys ++ [key])).
Proof.
  rewrite agg_approximate_unfold. cbv zeta.
  pose proof (hll_index_lt key) as Hi.
  replace (u32 (Z.shiftr (hll_hash key) (64 - b))) with (Z.of_nat (hll_index b key))
    by (unfold hll_index; pose proof (u32_range (Z.shiftr (hll_hash key) (64 - b))); lia).
  rewrite get_at by (by rewrite length_sketch). cbn [rbind].
  rewrite put_at by (by rewrite length_sketch). f_equal. rewrite sketch_at by done.
  pose proof (max_rank_range keys (hll_index b key)) as R. rewrite u8_small by lia.
  apply sketch_eq; [by rewrite length_insert, length_sketch|]. intros r Hr.
  rewrite max_rank_app. simpl. destruct (decide (hll_index b key = r)) as [<-|N].
  - rewrite list_lookup_total_insert_eq by (by rewrite length_sketch).
    pose proof (hll_rank_range key). lia.
  - rewrite list_lookup_total_insert_ne by done. rewrite sketch_at by done.
    pose proof (max_rank_range keys r). lia.
Qed.

Lemma unify_loop M N n i :
  i + n <= length M -> i + n <= length N ->
  exists M' N', hll_unify_loop M N i n = Ok (M', N')
    /\ length M' = length M /\ length N' = length N
    /\ (forall r, M' !!! r
          = if decide (i <= r < i + n) then Z.max (s8 (M !!! r)) (s8 (N !!! r)) else M !!! r)
    /\ forall r, N' !!! r
          = if decide (i <= r < i + n) then Z.max (s8 (M !!! r)) (s8 (N !!! r)) else N !!! r.
Proof.
  revert M N i. induction n as [|n IH]; intros M N i LM LN; cbn [hll_unify_loop].
  - exists M, N. split; [done|]. split; [done|]. split; [done|].
    split; intros r; rewrite decide_False by lia; done.
  - rewrite !get_at by lia. cbn [rbind]. rewrite !put_at by lia. cbn [rbind].
    set (v := Z.max _ _).
    destruct (IH (<[i := v]> M) (<[i := v]> N) (S i)) as (M' & N' & E & L1 & L2 & H1 & H2);
      [rewrite length_insert; lia.. |].
    rewrite length_insert in L1, L2. exists M', N'. split; [done|]. split; [done|]. split; [done|].
    split; intros r; rewrite ?H1, ?H2; destruct (decide (r = i)) as [->|Ne];
      rewrite ?list_lookup_total_insert_eq, ?list_lookup_total_insert_ne by lia;
      repeat case_decide; (done || lia).
Qed.

Lemma unify_sketch l k :
  hll_unify (sketch b l) (sketch b k) (2 ^ b) = Ok (sketch b (l ++ k), sketch b (l ++ k)).
Proof.
  unfold hll_unify.
  destruct (unify_loop (sketch b l) (sketch b k) (Z.to_nat (2 ^ b)) 0)
    as (M & N & -> & L1 & L2 & H1 & H2); [rewrite length_sketch; lia.. |].
  rewrite length_sketch in L1, L2.
  assert (S8 : forall keys r, s8 (max_rank b keys r) = max_rank b keys r).
  { intros keys r. pose proof (max_rank_range keys r). apply swrap_small; lia. }
  assert (E : forall r, r < Z.to_nat (2 ^ b) -> Z.max (s8 (sketch b l !!! r)) (s8 (sketch b k !!! r))
                                            = max_rank b (l ++ k) r).
  { intros r Hr. by rewrite !sketch_at, !S8, max_rank_app by done. }
  do 2 f_equal; apply sketch_eq; try done; intros r Hr; rewrite ?H1, ?H2, decide_True by lia;
    by apply E.
Qed.

End Sketch.

(** A descriptor of an approximate count on the CPU. *)
Definition approx_desc (d : CountDistinctDescriptor) : Prop :=
  impl_type_ d = ImplBitmap /\ approximate d = true /\ device_type d = DeviceCPU
  /\ sub_bitmap_count d = 1%Z /\ (4 <= bitmap_sz_bits d <= 16)%Z.

Lemma register_count n : (4 <= n <= 16)%Z -> s32 (Z.shiftl 1 n) = (2 ^ n)%Z /\ (0 < 2 ^ n <= 65536)%Z.
Proof.
  intros H. rewrite Z.shiftl_1_l. assert (0 < 2 ^ n)%Z by (apply Z.pow_pos_nonneg; lia).
  assert (2 ^ n <= 2 ^ 16)%Z by (apply Z.pow_le_mono_r; lia).
  change (2 ^ 16)%Z with 65536%Z in *. split; [apply s32_small; lia | lia].
Qed.

Lemma initial_sketch d :
  approx_desc d -> initial_set d = Ok (Registers (sketch (bitmap_sz_bits d) [])).
Proof.
  intros (I & A & C & S & R). destruct (register_count _ R) as [E P].
  unfold initial_set, bitmapPaddedSizeBytes, bitmapSizeBytes.
  rewrite !decide_True by done. rewrite bool_decide_eq_true_2 by done. rewrite C, S, A, E.
  cbn [check rbind decide_rel ExecutorDeviceType_eq_dec]. simpl.
  rewrite !Z.mul_1_r, u64_small by lia. do 2 f_equal.
  apply sketch_eq; [by rewrite length_replicate|]. intros r Hr.
  by rewrite lookup_total_replicate_2.
Qed.

Lemma rows_sketch d skip keys rows :
  approx_desc d ->
  add_rows d skip (Registers (sketch (bitmap_sz_bits d) keys)) rows
  = Ok (Registers (sketch (bitmap_sz_bits d) (keys ++ rows))).
Proof.
  intros Hd. revert keys. induction rows as [|v rows IH]; intros keys; cbn [add_rows add_row].
  - by rewrite app_nil_r.
  - rewrite add_key by apply Hd. cbn [rbind]. by rewrite IH, <- app_assoc.
Qed.

Lemma fragment_sketch d skip rows :
  approx_desc d -> fragment_set d skip rows = Ok (Registers (sketch (bitmap_sz_bits d) rows)).
Proof.
  intros Hd. unfold fragment_set. rewrite initial_sketch by done. cbn [rbind].
  by rewrite rows_sketch.
Qed.

(** Both reductions merge two sketches into that of all rows. *)
Lemma reduction_sketch d l k :
  approx_desc d ->
  let M := Registers (sketch (bitmap_sz_bits d) (l ++ k)) in
  count_distinct_set_union (Registers (sketch (bitmap_sz_bits d) l))
    (Registers (sketch (bitmap_sz_bits d) k)) d d = Ok (M, M).
Proof.
  intros (I & A & C & S & R). unfold count_distinct_set_union.
  rewrite decide_True by done. rewrite A. cbn [check rbind].
  destruct (register_count _ R) as [-> _]. by rewrite unify_sketch.
Qed.

Lemma jit_reduction d this that :
  impl_type_ d <> ImplInvalid ->
  count_distinct_set_union_jit_rt this that d d = count_distinct_set_union this that d d.
Proof.
  intros N. unfold count_distinct_set_union_jit_rt.
  by rewrite !bool_decide_eq_true_2 by done.
Qed.

Lemma reduce_sketch d skip l fragments :
  approx_desc d ->
  reduce_sets d skip (Registers (sketch (bitmap_sz_bits d) l)) fragments
  = Ok (Registers (sketch (bitmap_sz_bits d) (l ++ concat fragments))).
Proof.
  intros Hd. revert l. induction fragments as [|rows fragments IH]; intros l; cbn [reduce_sets].
  - simpl. by rewrite app_nil_r.
  - rewrite fragment_sketch by done. cbn [rbind].
    rewrite jit_reduction by (destruct Hd as [-> _]; done).
    rewrite reduction_sketch by done. cbn [rbind]. rewrite IH. simpl. by rewrite <- app_assoc.
Qed.

(** The sketch of APPROX_COUNT_DISTINCT depends on the set of keys only: the reduction of
    the sketches of the fragments is the sketch of any list of rows with the same values, in
    whatever order and however often they occur.  A register is the greatest rank among the keys
    with its index, at most 65 minus the bits of the index, and both reductions leave it in both
    sets. *)
Theorem sketch_of_values d skip first fragments :
  approx_desc d ->
  exists M, count_fragments d skip first fragments = Ok (Registers M)
    /\ (forall rows, (forall v, v ∈ rows <-> v ∈ first ++ concat fragments) ->
          fragment_set d skip rows = Ok (Registers M))
    /\ (forall r m, M !! r = Some m ->
          m = max_rank (bitmap_sz_bits d) (first ++ concat fragments) r
          /\ (0 <= m <= 65 - bitmap_sz_bits d)%Z)
    /\ forall that this, fragment_set d skip (concat fragments) = Ok that ->
         fragment_set d skip first = Ok this ->
         reduceOneCountDistinctSlot this that d d = Ok (Registers M, Registers M).
Proof.
  intros Hd. exists (sketch (bitmap_sz_bits d) (first ++ concat fragments)).
  pose proof Hd as (I & _ & _ & _ & R). unfold count_fragments.
  rewrite fragment_sketch by done. cbn [rbind]. rewrite reduce_sketch by done.
  split; [done|]. split; [|split].
  - intros rows E. rewrite fragment_sketch by done. do 2 f_equal. by apply sketch_set.
  - intros r m Hm. assert (Hr : r < Z.to_nat (2 ^ bitmap_sz_bits d)).
    { apply lookup_lt_Some in Hm. by rewrite length_sketch in Hm. }
    rewrite lookup_sketch in Hm by done. injection Hm as <-. split; [done|].
    by apply max_rank_range.
  - intros that this. rewrite !fragment_sketch by done. intros [= <-] [= <-].
    unfold reduceOneCountDistinctSlot. rewrite !bool_decide_eq_true_2 by congruence. cbn [check rbind].
    rewrite reduction_sketch by done. cbn [rbind].
    by rewrite (sketch_set _ R (concat fragments ++ first) (first ++ concat fragments)) by set_solver.
Qed.

(** Sixteen registers. *)
Definition sample_approx : CountDistinctDescriptor :=
  mkCountDistinctDescriptor ImplBitmap 0 4 true DeviceCPU 1.

Lemma sketch_of_values_witness :
  (exists M, count_fragments sample_approx 0 [7; 1] [[1]; [9; 7]] = Ok (Registers M)
    /\ fragment_set sample_approx 0 [9; 1; 7; 9] = Ok (Registers M))%Z.
Proof.
  destruct (sketch_of_values sample_approx 0 [7%Z; 1%Z] [[1%Z]; [9%Z; 7%Z]]) as (M & E & H & _).
  - repeat split; vm_compute; congruence.
  - exists M. split; [exact E|]. apply H. intros v.
    change ([7%Z; 1%Z] ++ concat [[1%Z]; [9%Z; 7%Z]]) with [7%Z; 1%Z; 1%Z; 9%Z; 7%Z].
    rewrite !elem_of_cons, elem_of_nil. tauto.
Defined.
