(* ===== verification/IRExpr.v ===== *)
(** * Types and expressions of the IR ([IR/Type.h], [IR/OpType.h], [IR/Expr.h])

    The types, operators and expressions that the range analysis and the generation of integer
    code look at.  Floating-point numbers are a parameter [F]. *)

From Stdlib Require Import ZArith Lia List Bool.
From stdpp Require Import base list numbers.
From S2P Require Import Prelude ExtractFromTime.
Import ListNotations.
Local Open Scope Z_scope.

(** ** Types

    The last argument is [nullable]; sizes are in bytes.  Dates are in seconds, as
    [canonicalize] makes them. *)
Inductive IrType :=
| BooleanType (n : bool)
| IntegerType (size : Z) (n : bool)
| DecimalType (scale : Z) (n : bool)
| FloatingPointType (size : Z) (n : bool)
| DateType (n : bool)
| TimeType (n : bool)
| TimestampType (unit : TimeUnit) (n : bool)
| IntervalType (n : bool)
| ExtDictionaryType (dictId : Z) (n : bool)
| ArrayType (elemType : IrType) (n : bool)
| TextType (n : bool).

Definition isBoolean (t : IrType) : bool := match t with BooleanType _ => true | _ => false end.
Definition isInteger (t : IrType) : bool := match t with IntegerType _ _ => true | _ => false end.
Definition isDecimal (t : IrType) : bool := match t with DecimalType _ _ => true | _ => false end.
Definition isFloatingPoint (t : IrType) : bool :=
  match t with FloatingPointType _ _ => true | _ => false end.
Definition isDate (t : IrType) : bool := match t with DateType _ => true | _ => false end.
Definition isTime (t : IrType) : bool := match t with TimeType _ => true | _ => false end.
Definition isTimestamp (t : IrType) : bool := match t with TimestampType _ _ => true | _ => false end.
Definition isInterval (t : IrType) : bool := match t with IntervalType _ => true | _ => false end.
Definition isExtDictionary (t : IrType) : bool :=
  match t with ExtDictionaryType _ _ => true | _ => false end.
Definition isNumber (t : IrType) : bool := isFloatingPoint t || isInteger t || isDecimal t.
Definition isDateTime (t : IrType) : bool := isDate t || isTime t || isTimestamp t.

Definition nullable (t : IrType) : bool :=
  match t with
  | BooleanType n | IntegerType _ n | DecimalType _ n | FloatingPointType _ n | DateType n
  | TimeType n | TimestampType _ n | IntervalType n | ExtDictionaryType _ n | ArrayType _ n
  | TextType n => n
  end.

(** [size], of the canonical type. *)
Definition type_size (t : IrType) : Z :=
  match t with
  | BooleanType _ => 1
  | IntegerType size _ | FloatingPointType size _ => size
  | ExtDictionaryType _ _ => 4
  | _ => 8
  end.

(** The unit of a timestamp, [kSecond] of any other type. *)
Definition unit_or_second (t : IrType) : TimeUnit :=
  match t with TimestampType unit _ => unit | _ => TU_kSecond end.

(** [inline_int_null_value]: the least integer of the width. *)
Definition inline_int_null_value (t : IrType) : Z := - 2 ^ (8 * type_size t - 1).

(** ** Operators *)

Inductive IrOp :=
| O_kEq | O_kBwEq | O_kNe | O_kLt | O_kGt | O_kLe | O_kGe | O_kAnd | O_kOr | O_kNot
| O_kMinus | O_kPlus | O_kMul | O_kDiv | O_kMod | O_kUMinus | O_kIsNull | O_kCast
| O_kArrayAt | O_kUnnest | O_kFunction | O_kIn.

Definition commuteComparison (op : IrOp) : IrOp :=
  match op with
  | O_kLt => O_kGt | O_kLe => O_kGe | O_kGt => O_kLt | O_kGe => O_kLe
  | _ => op
  end.

(** ** Expressions *)

Inductive Datum (F : Type) :=
| IntVal (v : Z)
| FpVal (v : F)
| StringVal (s : list Z).
Arguments IntVal {F} v.
Arguments FpVal {F} v.
Arguments StringVal {F} s.

(** [OtherExpr] stands for the expressions without a range of their own. *)
Inductive Expr (F : Type) :=
| Constant (type : IrType) (is_null : bool) (value : Datum F)
| ColumnVar (type : IrType) (tableId columnId rteIdx : Z) (isVirtual : bool)
| BinOper (type : IrType) (opType : IrOp) (leftOperand rightOperand : Expr F)
| UOper (type : IrType) (opType : IrOp) (operand : Expr F)
| CaseExpr (type : IrType) (exprPairs : list (Expr F * Expr F)) (elseExpr : Expr F)
| LikeExpr (type : IrType) (arg : Expr F)
| ExtractExpr (type : IrType) (field : DateExtractField) (from : Expr F)
| DateTruncExpr (type : IrType) (field : DateTruncField) (from : Expr F)
| OtherExpr (type : IrType).
Arguments Constant {F}.
Arguments ColumnVar {F}.
Arguments BinOper {F}.
Arguments UOper {F}.
Arguments CaseExpr {F}.
Arguments LikeExpr {F}.
Arguments ExtractExpr {F}.
Arguments DateTruncExpr {F}.
Arguments OtherExpr {F}.

Definition expr_type {F : Type} (e : Expr F) : IrType :=
  match e with
  | Constant t _ _ | ColumnVar t _ _ _ _ | BinOper t _ _ _ | UOper t _ _ | CaseExpr t _ _
  | LikeExpr t _ | ExtractExpr t _ _ | DateTruncExpr t _ _ | OtherExpr t => t
  end.

(** Induction that reaches into the branches of a CASE. *)
Lemma Expr_branches_ind {F : Type} (P : Expr F -> Prop)
  (HConst : forall t n v, P (Constant t n v))
  (HCol : forall t ti ci ri v, P (ColumnVar t ti ci ri v))
  (HBin : forall t op l r, P l -> P r -> P (BinOper t op l r))
  (HUn : forall t op e, P e -> P (UOper t op e))
  (HCase : forall t ps e, Forall (fun p => P (fst p) /\ P (snd p)) ps -> P e -> P (CaseExpr t ps e))
  (HLike : forall t e, P e -> P (LikeExpr t e))
  (HExtract : forall t f e, P e -> P (ExtractExpr t f e))
  (HTrunc : forall t f e, P e -> P (DateTruncExpr t f e))
  (HOther : forall t, P (OtherExpr t)) :
  forall e, P e.
Proof.
  fix IH 1. intros [t n v|t ti ci ri v|t op l r|t op e|t ps e|t e|t f e|t f e|t].
  - apply HConst.
  - apply HCol.
  - apply HBin; apply IH.
  - apply HUn, IH.
  - apply HCase; [|apply IH]. induction ps as [|[a b] ps IHps]; constructor; [|exact IHps].
    split; apply IH.
  - apply HLike, IH.
  - apply HExtract, IH.
  - apply HTrunc, IH.
  - apply HOther.
Qed.
