(* ===== verification/ExpressionRange.v ===== *)
(** * Ranges of expressions ([QueryEngine/ExpressionRange.h], [ExpressionRange.cpp])

    The interval of values an expression can have, computed from the statistics of the columns,
    and whether it can be null.  The planner chooses the layout of group-by tables and leaves out
    overflow checks on its account.

    Floating-point ranges are carried along over a type [F] with the operations of [FpOps]. *)

From Stdlib Require Import ZArith Lia List Bool.
From stdpp Require Import base list gmap numbers.
From S2P Require Import Prelude ExtractFromTime DateTruncate DateAdd IRExpr.
Import ListNotations.
Local Open Scope Z_scope.
Local Open Scope hdk_scope.

(** The operations on floating-point numbers; [None] is an overflow or underflow. *)
Class FpOps (F : Type) := {
  fp_arith : Z -> IrOp -> F -> F -> option F;    (* of the size in bytes *)
  fp_min : F -> F -> F;
  fp_max : F -> F -> F;
  fp_eqb : F -> F -> bool;
  fp_ltb : F -> F -> bool;
  fp_of_int : Z -> F;
  fp_of_decimal : Z -> Z -> F;                    (* divided by the scale *)
  fp_floor : F -> Z;
  fp_ceil : F -> Z;
}.

(** ** The class *)

Inductive ExpressionRange (F : Type) :=
| InvalidRange
| IntRange (int_min_ int_max_ bucket_ : Z) (has_nulls_ : bool)
| FpRange (size : Z) (fp_min_ fp_max_ : F) (has_nulls_ : bool)
| NullRange.
Arguments InvalidRange {F}.
Arguments IntRange {F}.
Arguments FpRange {F}.
Arguments NullRange {F}.

(** [RCheck] is a failed [CHECK], [RThrow] an exception or [abort]. *)
Inductive RangeError := RCheck | RThrow.

Definition of_option {A : Type} (o : option A) : result RangeError A :=
  match o with Some a => Ok a | None => Err RThrow end.

Section Ranges.
Context {F : Type} `{FpOps F}.
Abbreviation range := (ExpressionRange F).
Abbreviation range_result := (result RangeError range).

Definition getIntMin (r : range) : result RangeError Z :=
  match r with IntRange lo _ _ _ => Ok lo | _ => Err RCheck end.
Definition getIntMax (r : range) : result RangeError Z :=
  match r with IntRange _ hi _ _ => Ok hi | _ => Err RCheck end.
Definition hasNulls (r : range) : result RangeError bool :=
  match r with
  | InvalidRange => Err RCheck
  | IntRange _ _ _ n | FpRange _ _ _ n => Ok n
  | NullRange => Ok true
  end.
(** The nulls of an invalid range are never read. *)
Definition setNulls (n : bool) (r : range) : range :=
  match r with
  | IntRange lo hi b _ => IntRange lo hi b n
  | FpRange s lo hi _ => FpRange s lo hi n
  | _ => r
  end.
Definition setHasNulls (r : range) : range := setNulls true r.
Definition is_invalid (r : range) : bool := match r with InvalidRange => true | _ => false end.

(** [checked_int64_t]: an exception if the result does not fit. *)
Definition checked (z : Z) : option Z :=
  if (INT64_MIN <=? z) && (z <=? INT64_MAX) then Some z else None.

Definition checked_arith (op : IrOp) (x y : Z) : option Z :=
  match op with
  | O_kPlus => checked (x + y)
  | O_kMinus => checked (x - y)
  | O_kMul => checked (x * y)
  | O_kDiv => if y =? 0 then None else checked (Z.quot x y)
  | _ => None
  end.

(** [binOp]: the least and the greatest of the four limits; an exception makes the range
    invalid. *)
Definition int_binOp (op : IrOp) (lo1 hi1 lo2 hi2 : Z) (has_nulls : bool) : range :=
  match checked_arith op lo1 lo2, checked_arith op lo1 hi2,
        checked_arith op hi1 lo2, checked_arith op hi1 hi2 with
  | Some a, Some b, Some c, Some d =>
      IntRange (Z.min (Z.min a b) (Z.min c d)) (Z.max (Z.max a b) (Z.max c d)) 0 has_nulls
  | _, _, _, _ => InvalidRange
  end.

Definition fp_binOp (size : Z) (op : IrOp) (lo1 hi1 lo2 hi2 : F) (has_nulls : bool) : range :=
  match fp_arith size op lo1 lo2, fp_arith size op lo1 hi2,
        fp_arith size op hi1 lo2, fp_arith size op hi1 hi2 with
  | Some a, Some b, Some c, Some d =>
      FpRange size (fp_min (fp_min (fp_min a b) c) d) (fp_max (fp_max (fp_max a b) c) d) has_nulls
  | _, _, _, _ => InvalidRange
  end.

(** [DEF_OPERATOR]. *)
Definition range_operator (op : IrOp) (this other : range) : range_result :=
  match this, other with
  | InvalidRange, _ | _, InvalidRange => Ok InvalidRange
  | IntRange lo1 hi1 _ n1, IntRange lo2 hi2 _ n2 => Ok (int_binOp op lo1 hi1 lo2 hi2 (n1 || n2))
  | FpRange s1 lo1 hi1 n1, FpRange s2 lo2 hi2 n2 =>
      if s1 =? s2 then Ok (fp_binOp s1 op lo1 hi1 lo2 hi2 (n1 || n2)) else Err RCheck
  | _, _ => Err RCheck
  end.

(** The test on the product is made in [int64_t]. *)
Definition range_div (this other : range) (null_div_by_zero : bool) : range :=
  match this, other with
  | IntRange lo1 hi1 _ n1, IntRange lo2 hi2 _ n2 =>
      if s64 (lo2 * hi2) <=? 0 then InvalidRange
      else
        let div_range := int_binOp O_kDiv lo1 hi1 lo2 hi2 (n1 || n2) in
        if null_div_by_zero then setHasNulls div_range else div_range
  | _, _ => InvalidRange
  end.

(** [operator||]: the convex hull. *)
Definition range_or (this other : range) : range_result :=
  match this, other with
  | InvalidRange, InvalidRange => Ok InvalidRange
  | IntRange lo1 hi1 b1 n1, IntRange lo2 hi2 b2 n2 =>
      Ok (IntRange (Z.min lo1 lo2) (Z.max hi1 hi2) (Z.min b1 b2) (n1 || n2))
  | FpRange s1 lo1 hi1 n1, FpRange s2 lo2 hi2 n2 =>
      Ok (if s1 =? s2 then FpRange s1 (fp_min lo1 lo2) (fp_max hi1 hi2) (n1 || n2) else InvalidRange)
  | NullRange, NullRange => Err RCheck
  | _, _ => Ok InvalidRange
  end.

Definition range_eq (this other : range) : result RangeError bool :=
  match this, other with
  | InvalidRange, InvalidRange => Ok true
  | IntRange lo1 hi1 _ n1, IntRange lo2 hi2 _ n2 =>
      Ok (eqb n1 n2 && (lo1 =? lo2) && (hi1 =? hi2))
  | FpRange s1 lo1 hi1 n1, FpRange s2 lo2 hi2 n2 =>
      Ok (if s1 =? s2 then eqb n1 n2 && fp_eqb lo1 lo2 && fp_eqb hi1 hi2 else false)
  | NullRange, NullRange => Err RCheck
  | _, _ => Ok false
  end.

Fixpoint typeSupportsRange (t : IrType) : bool :=
  match t with
  | ArrayType elem _ => typeSupportsRange elem
  | _ => isNumber t || isBoolean t || isDateTime t || isExtDictionary t
  end.

(** ** Simple qualifiers *)

Definition extract_int (d : Datum F) : result RangeError Z :=
  match d with IntVal v => Ok v | _ => Err RCheck end.
Definition extract_fp (d : Datum F) : result RangeError F :=
  match d with FpVal v => Ok v | _ => Err RCheck end.

Definition apply_fp_qual (const_val : F) (op : IrOp) (r : range) : range_result :=
  match r with
  | FpRange s lo hi n =>
      Ok (match op with
          | O_kGt | O_kGe => FpRange s (fp_max lo const_val) hi n
          | O_kLt | O_kLe => FpRange s lo (fp_min hi const_val) n
          | O_kEq => FpRange s (fp_max lo const_val) (fp_min hi const_val) n
          | _ => r
          end)
  | _ => Err RCheck
  end.

(** An operator that bounds nothing leaves any range as it is. *)
Definition apply_int_qual (const_val : Z) (op : IrOp) (r : range) : range_result :=
  match op with
  | O_kGt | O_kGe | O_kLt | O_kLe | O_kEq =>
      match r with
      | IntRange lo hi b n =>
          Ok (match op with
              | O_kGt => IntRange (Z.max lo (s64 (const_val + 1))) hi b n
              | O_kGe => IntRange (Z.max lo const_val) hi b n
              | O_kLt => IntRange lo (Z.min hi (s64 (const_val - 1))) b n
              | O_kLe => IntRange lo (Z.min hi const_val) b n
              | _ => IntRange (Z.max lo const_val) (Z.min hi const_val) b n
              end)
      | _ => Err RCheck
      end
  | _ => Ok r
  end.

Definition apply_hpt_qual (const_val : Z) (const_type col_type : IrType) (op : IrOp) (r : range)
    : range_result :=
  let* v := of_option
    (get_datetime_scaled_epoch_unit const_val (unit_or_second const_type) (unit_or_second col_type)) in
  apply_int_qual v op r.

(** The column a qualifier constrains: the left operand, or the operand of a unary operator
    there, which is presumed to be a cast. *)
Definition qual_column (left_operand : Expr F) : option (IrType * Z * Z) :=
  match left_operand with
  | ColumnVar t ti ci _ _ => Some (t, ti, ci)
  | UOper _ _ (ColumnVar t ti ci _ _) => Some (t, ti, ci)
  | _ => None
  end.

Definition apply_simple_qual (tableId columnId : Z) (r : range) (qual : Expr F) : range_result :=
  match qual with
  | BinOper _ op left_operand (Constant const_type _ value) =>
      match qual_column left_operand with
      | Some (col_type, ti, ci) =>
          if negb ((ti =? tableId) && (ci =? columnId)) then Ok r
          else
            match r with
            | FpRange _ _ _ _ => let* v := extract_fp value in apply_fp_qual v op r
            | _ =>
                let* v := extract_int value in
                if isTimestamp col_type || isTimestamp const_type then
                  if isDateTime const_type && isDateTime col_type
                  then apply_hpt_qual v const_type col_type op r else Err RCheck
                else apply_int_qual v op r
            end
      | None => Ok r
      end
  | _ => Ok r
  end.

Fixpoint apply_quals (tableId columnId : Z) (r : range) (quals : list (Expr F)) : range_result :=
  match quals with
  | [] => Ok r
  | qual :: quals' =>
      let* r := apply_simple_qual tableId columnId r qual in
      apply_quals tableId columnId r quals'
  end.

Definition apply_simple_quals (tableId columnId : Z) (col_range : range)
    (simple_quals : option (list (Expr F))) : range_result :=
  match simple_quals with
  | None => Ok col_range
  | Some quals => apply_quals tableId columnId col_range quals
  end.

(** ** Columns *)

Record ChunkStats := mkChunkStats { stat_min : Datum F; stat_max : Datum F; stat_nulls : bool }.

Record FragmentInfo := mkFragmentInfo {
  physicalTableId : Z;
  frag_numTuples : Z;
  chunkMetadataMap : gmap Z ChunkStats;
}.

Record InputTableInfo := mkInputTableInfo {
  table_id : Z;
  info_numTuples : Z;
  fragments : list FragmentInfo;
}.

Definition isEmptyPhysicalFragment (f : FragmentInfo) : bool :=
  (0 <=? physicalTableId f) && (frag_numTuples f =? 0).

Definition get_conservative_datetrunc_bucket (field : DateTruncField) : Z :=
  let day_seconds := 24 * 3600 in
  let year_days := 365 in
  match field with
  | DT_kYear => year_days * day_seconds
  | DT_kQuarter => 90 * day_seconds
  | DT_kMonth => 28 * day_seconds
  | DT_kDay => day_seconds
  | DT_kHour => 3600
  | DT_kMinute => 60
  | DT_kMillennium => 1000 * year_days * day_seconds
  | DT_kCentury => 100 * year_days * day_seconds
  | DT_kDecade => 10 * year_days * day_seconds
  | DT_kWeek | DT_kWeekSunday | DT_kWeekSaturday => 7 * day_seconds
  | DT_kQuarterDay => 4 * 60 * 50
  | _ => 0
  end.

(** The comparison of [FIND_STAT_FRAG] on the statistic [stat]. *)
Definition stat_lt (is_fp : bool) (stat : ChunkStats -> Datum F) (col_id : Z) (lhs rhs : FragmentInfo)
    : result RangeError bool :=
  match chunkMetadataMap lhs !! col_id, chunkMetadataMap rhs !! col_id with
  | None, _ => Ok false
  | _, None => Err RCheck
  | Some l, Some r =>
      if is_fp then
        let* x := extract_fp (stat l) in let* y := extract_fp (stat r) in Ok (fp_ltb x y)
      else
        let* x := extract_int (stat l) in let* y := extract_int (stat r) in Ok (x <? y)
  end.

(** [std::min_element] and [std::max_element] with that comparison. *)
Fixpoint min_element (lt : FragmentInfo -> FragmentInfo -> result RangeError bool)
    (smallest : FragmentInfo) (l : list FragmentInfo) : result RangeError FragmentInfo :=
  match l with
  | [] => Ok smallest
  | f :: l' => let* b := lt f smallest in min_element lt (if b then f else smallest) l'
  end.

Fixpoint max_element (lt : FragmentInfo -> FragmentInfo -> result RangeError bool)
    (largest : FragmentInfo) (l : list FragmentInfo) : result RangeError FragmentInfo :=
  match l with
  | [] => Ok largest
  | f :: l' => let* b := lt largest f in max_element lt (if b then f else largest) l'
  end.

Definition some_has_nulls (col_id : Z) (frags : list FragmentInfo) : bool :=
  existsb (fun f => match chunkMetadataMap f !! col_id with
                    | Some s => stat_nulls s | None => false end) frags.

Definition elem_type (t : IrType) : IrType := match t with ArrayType e _ => e | _ => t end.

Definition getLeafColumnRange (type : IrType) (tableId columnId : Z) (isVirtual : bool)
    (query_infos : list InputTableInfo) (is_outer_join_proj : bool) : range_result :=
  let col_type := elem_type type in
  if negb (isBoolean col_type || isNumber col_type || isDateTime col_type
           || isExtDictionary col_type) then Ok InvalidRange
  else
    match List.find (fun i => tableId =? table_id i) query_infos with
    | None => Err RCheck
    | Some info =>
        if isVirtual then
          if isInteger col_type && (type_size col_type =? 8)
          then Ok (IntRange 0 (Z.max (s64 (info_numTuples info - 1)) 0) 0 is_outer_join_proj)
          else Err RCheck
        else if info_numTuples info =? 0 then
          Ok (if isFloatingPoint col_type
              then FpRange (type_size col_type) (fp_of_int 0) (fp_of_int (-1)) false
              else IntRange 0 (-1) 0 false)
        else
          match List.filter (fun f => negb (isEmptyPhysicalFragment f)) (fragments info) with
          | [] => Ok InvalidRange
          | f0 :: rest =>
              let is_fp := isFloatingPoint col_type in
              let* min_frag := min_element (stat_lt is_fp stat_min columnId) f0 rest in
              let* max_frag := max_element (stat_lt is_fp stat_max columnId) f0 rest in
              match chunkMetadataMap min_frag !! columnId with
              | None => Ok InvalidRange
              | Some min_it =>
                  match chunkMetadataMap max_frag !! columnId with
                  | None => Err RCheck
                  | Some max_it =>
                      let has_nulls := is_outer_join_proj || some_has_nulls columnId (fragments info) in
                      if is_fp then
                        let* min_val := extract_fp (stat_min min_it) in
                        let* max_val := extract_fp (stat_max max_it) in
                        Ok (FpRange (type_size col_type) min_val max_val has_nulls)
                      else
                        let* min_val := extract_int (stat_min min_it) in
                        let* max_val := extract_int (stat_max max_it) in
                        if max_val <? min_val then
                          if 0 <? min_val then Ok (IntRange 0 (-1) 0 has_nulls) else Err RCheck
                        else
                          let bucket :=
                            if isDate col_type then get_conservative_datetrunc_bucket DT_kDay else 0 in
                          Ok (IntRange min_val max_val bucket has_nulls)
                  end
              end
          end
    end.

(** What the analysis asks the executor for. *)
Record Executor := mkExecutor {
  getColRange : Z -> Z -> range;                 (* column, table *)
  containsLeftDeepOuterJoin : bool;
  null_div_by_zero : bool;
  getIdOfString : Z -> list Z -> Z;              (* in the proxy of a dictionary *)
}.

(** ** Expressions *)

(** [exp_to_scale] in [uint64_t]. *)
Fixpoint exp_to_scale (exp : nat) : Z :=
  match exp with O => 1 | S exp' => u64 (exp_to_scale exp' * 10) end.

Definition scale_up_interval_endpoint (endpoint scale : Z) : Z :=
  s64 (endpoint * s64 (exp_to_scale (Z.to_nat scale))).

Definition getConstantRange (type : IrType) (is_null : bool) (datum : Datum F) : range_result :=
  if is_null then Ok InvalidRange
  else
    match type with
    | IntegerType _ _ | DecimalType _ _ | TimeType _ | TimestampType _ _ | DateType _ =>
        let* v := extract_int datum in Ok (IntRange v v 0 false)
    | FloatingPointType size _ =>
        if (size =? 4) || (size =? 8) then
          let* v := extract_fp datum in Ok (FpRange size v v false)
        else Ok InvalidRange
    | _ => Ok InvalidRange
    end.

Definition getBinOperRange (ex : Executor) (op : IrOp) (lhs_type : IrType) (lhs rhs : range)
    : range_result :=
  match op with
  | O_kPlus | O_kMinus | O_kMul => range_operator op lhs rhs
  | O_kDiv =>
      match lhs_type with
      | DecimalType scale _ =>
          match lhs with
          | InvalidRange => Ok (range_div lhs rhs (null_div_by_zero ex))
          | IntRange lo hi _ n =>
              Ok (range_div (IntRange (scale_up_interval_endpoint lo scale)
                               (scale_up_interval_endpoint hi scale) 0 n)
                    rhs (null_div_by_zero ex))
          | _ => Err RCheck
          end
      | _ => Ok (range_div lhs rhs (null_div_by_zero ex))
      end
  | _ => Ok InvalidRange
  end.

Definition getColumnRange (ex : Executor) (type : IrType) (tableId columnId rteIdx : Z)
    (isVirtual : bool) (query_infos : list InputTableInfo) (simple_quals : option (list (Expr F)))
    : range_result :=
  if (0 <=? rteIdx) && (rteIdx <? Z.of_nat (length query_infos)) then
    let is_outer_join_proj := (0 <? rteIdx) && containsLeftDeepOuterJoin ex in
    if 0 <? tableId then
      let col_range := getColRange ex columnId tableId in
      let col_range := if is_outer_join_proj then setHasNulls col_range else col_range in
      apply_simple_quals tableId columnId col_range simple_quals
    else getLeafColumnRange type tableId columnId isVirtual query_infos is_outer_join_proj
  else Err RCheck.

(** The null of a boolean. *)
Definition NULL_BOOLEAN : Z := -128.

Definition getLikeRange (type arg_type : IrType) : range_result :=
  if isBoolean type
  then Ok (IntRange (if nullable arg_type then NULL_BOOLEAN else 0) 1 0 false)
  else Err RCheck.

Definition fpRangeFromDecimal (lo hi : Z) (n : bool) (scale size : Z) : range :=
  FpRange size (fp_of_decimal lo scale) (fp_of_decimal hi scale) n.

Definition same_unit (a b : TimeUnit) : bool :=
  match a, b with
  | TU_kMonth, TU_kMonth | TU_kDay, TU_kDay | TU_kSecond, TU_kSecond | TU_kMilli, TU_kMilli
  | TU_kMicro, TU_kMicro | TU_kNano, TU_kNano => true
  | _, _ => false
  end.

Definition getDateTimePrecisionCastRange (arg_range : range) (oper_type target_type : IrType)
    : range_result :=
  let oper_unit := unit_or_second oper_type in
  if isTimestamp oper_type && isDate target_type then
    let* scale := of_option (unitsPerSecond oper_unit) in
    let* lo := getIntMin arg_range in
    let* hi := getIntMax arg_range in
    let is_hpt := finer_than_second oper_unit in
    let* min_ts := of_option (DateTruncate DT_kDay (if is_hpt then Z.quot lo scale else lo)) in
    let* max_ts := of_option (DateTruncate DT_kDay (if is_hpt then Z.quot hi scale else hi)) in
    let* n := hasNulls arg_range in
    Ok (IntRange min_ts max_ts (get_conservative_datetrunc_bucket DT_kDay) n)
  else if isDateTime oper_type && isDateTime target_type
          && negb (same_unit oper_unit (unit_or_second target_type)) then
    let target_unit := unit_or_second target_type in
    let* lo := getIntMin arg_range in
    let* hi := getIntMax arg_range in
    let* min_ts := of_option (get_datetime_scaled_epoch_unit lo oper_unit target_unit) in
    let* max_ts := of_option (get_datetime_scaled_epoch_unit hi oper_unit target_unit) in
    let* n := hasNulls arg_range in
    Ok (IntRange min_ts max_ts 0 n)
  else Err RCheck.

(** A cast of a value with the range [arg_range]; not to a dictionary. *)
Definition getCastRange (type arg_type : IrType) (arg_range : range) : range_result :=
  if (isTimestamp type && negb (same_unit (unit_or_second type) (unit_or_second arg_type)))
     || (isTimestamp arg_type && isDate type)
  then getDateTimePrecisionCastRange arg_range arg_type type
  else
    match arg_range with
    | FpRange _ lo hi n =>
        Ok (match type with
            | FloatingPointType size _ => FpRange (if size =? 8 then 8 else 4) lo hi n
            | IntegerType _ _ => IntRange (fp_floor lo) (fp_ceil hi) 0 n
            | _ => InvalidRange
            end)
    | IntRange lo hi bucket n =>
        match type, arg_type with
        | DecimalType type_scale _, _ =>
            if bucket =? 0 then
              let arg_scale := match arg_type with DecimalType s _ => s | _ => 0 end in
              let scale := s64 (exp_to_scale (Z.to_nat (u32 (type_scale - arg_scale)))) in
              Ok (IntRange (s64 (lo * scale)) (s64 (hi * scale)) 0 n)
            else Err RCheck
        | _, DecimalType arg_scale _ =>
            if bucket =? 0 then
              let scale := s64 (exp_to_scale (Z.to_nat arg_scale)) in
              let scale_half := Z.quot scale 2 in
              match type with
              | FloatingPointType size _ => Ok (fpRangeFromDecimal lo hi n scale size)
              | _ =>
                  if scale =? 0 then Err RThrow
                  else Ok (IntRange (Z.quot (s64 (lo - scale_half)) scale)
                             (Z.quot (s64 (hi + scale_half)) scale) 0 n)
              end
            else Err RCheck
        | FloatingPointType size _, _ =>
            Ok (FpRange size (fp_of_int lo) (fp_of_int hi) n)
        | _, _ => Ok (if isInteger type || isDateTime type then arg_range else InvalidRange)
        end
    | InvalidRange => Ok InvalidRange
    | NullRange => Err RCheck
    end.

Definition getDictionaryCastRange (ex : Executor) (dictId : Z) (operand : Expr F) : range_result :=
  match operand with
  | Constant _ is_null value =>
      if is_null then Ok NullRange
      else match value with
           | StringVal s => let v := getIdOfString ex dictId s in Ok (IntRange v v 0 false)
           | _ => Err RCheck
           end
  | _ => Ok InvalidRange
  end.

Definition getExtractRange (field : DateExtractField) (from_type : IrType) (arg_range : range)
    : range_result :=
  let unit := unit_or_second from_type in
  let is_hpt := finer_than_second unit in
  let* has_nulls := if is_invalid arg_range then Ok true else hasNulls arg_range in
  let fixed (lo hi : Z) : range_result := Ok (IntRange lo hi 0 has_nulls) in
  match field with
  | DE_kYear =>
      match arg_range with
      | InvalidRange => Ok InvalidRange
      | IntRange lo hi _ n =>
          let* scale := of_option (unitsPerSecond unit) in
          let year (t : Z) := ExtractFromTime DE_kYear (if is_hpt then Z.quot t scale else t) in
          Ok (IntRange (year lo) (year hi) 0 n)
      | _ => Err RCheck
      end
  | DE_kEpoch | DE_kDateEpoch => Ok arg_range
  | DE_kQuarterDay | DE_kQuarter => fixed 1 4
  | DE_kMonth => fixed 1 12
  | DE_kDay => fixed 1 31
  | DE_kHour => fixed 0 23
  | DE_kMinute => fixed 0 59
  | DE_kSecond => fixed 0 60
  | DE_kMilli => fixed 0 999
  | DE_kMicro => fixed 0 999999
  | DE_kNano => fixed 0 999999999
  | DE_kDayOfWeek => fixed 0 6
  | DE_kIsoDayOfWeek => fixed 1 7
  | DE_kDayOfYear => fixed 1 366
  | DE_kWeek | DE_kWeekSunday | DE_kWeekSaturday => fixed 1 53
  end.

(** The unit argument of [getDateTruncConstantValue]. *)
Definition timestamp_unit (t : IrType) : option TimeUnit :=
  match t with TimestampType unit _ => Some unit | _ => None end.

Definition getDateTruncRange (field : DateTruncField) (from_type : IrType) (arg_range : range)
    : range_result :=
  match arg_range with
  | InvalidRange => Ok InvalidRange
  | _ =>
      let* lo := getIntMin arg_range in
      let* hi := getIntMax arg_range in
      let* min_ts := of_option (getDateTruncConstantValue lo field (timestamp_unit from_type)) in
      let* max_ts := of_option (getDateTruncConstantValue hi field (timestamp_unit from_type)) in
      let* scale := of_option (unitsPerSecond (unit_or_second from_type)) in
      let* n := hasNulls arg_range in
      Ok (IntRange min_ts max_ts (s64 (get_conservative_datetrunc_bucket field * scale)) n)
  end.

(** One turn of the loop over the branches of a CASE: the hull of the ranges so far and whether
    one is null; [None] ends the loop with an invalid range. *)
Definition case_step (crt_range expr_range : range) (has_nulls : bool)
    : result RangeError (option (range * bool)) :=
  match crt_range with
  | NullRange => Ok (Some (expr_range, true))
  | InvalidRange => Ok None
  | _ =>
      let* expr_range := if negb (is_invalid expr_range) then range_or expr_range crt_range
                         else Ok crt_range in
      Ok (Some (expr_range, has_nulls))
  end.

Definition is_null_constant (e : Expr F) : bool :=
  match e with Constant _ is_null _ => is_null | _ => false end.

(** After the loop. *)
Definition getCaseRange (hull : option (range * bool)) (else_expr : Expr F)
    (else_range : unit -> range_result) : range_result :=
  match hull with
  | None => Ok InvalidRange
  | Some (expr_range, has_nulls) =>
      let expr_range := if has_nulls then setHasNulls expr_range else expr_range in
      if is_null_constant else_expr then Ok (setHasNulls expr_range)
      else let* r := else_range tt in range_or expr_range r
  end.

Fixpoint getExpressionRange (query_infos : list InputTableInfo) (ex : Executor) (expr : Expr F)
    (simple_quals : option (list (Expr F))) : range_result :=
  if negb (typeSupportsRange (expr_type expr)) then Ok InvalidRange
  else
    match expr with
    | BinOper _ op lhs rhs =>
        let* l := getExpressionRange query_infos ex lhs simple_quals in
        let* r := getExpressionRange query_infos ex rhs simple_quals in
        getBinOperRange ex op (expr_type lhs) l r
    | Constant type is_null value => getConstantRange type is_null value
    | ColumnVar type tableId columnId rteIdx isVirtual =>
        getColumnRange ex type tableId columnId rteIdx isVirtual query_infos simple_quals
    | LikeExpr type arg => getLikeRange type (expr_type arg)
    | CaseExpr _ pairs else_expr =>
        let* hull :=
          (fix loop (ps : list (Expr F * Expr F)) (expr_range : range) (has_nulls : bool)
             : result RangeError (option (range * bool)) :=
             match ps with
             | [] => Ok (Some (expr_range, has_nulls))
             | (cond, e) :: ps' =>
                 if isBoolean (expr_type cond) then
                   let* crt_range := getExpressionRange query_infos ex e None in
                   let* step := case_step crt_range expr_range has_nulls in
                   match step with
                   | None => Ok None
                   | Some (expr_range, has_nulls) => loop ps' expr_range has_nulls
                   end
                 else Err RCheck
             end) pairs InvalidRange false in
        getCaseRange hull else_expr (fun _ => getExpressionRange query_infos ex else_expr None)
    | UOper type op operand =>
        match op with
        | O_kUnnest => getExpressionRange query_infos ex operand simple_quals
        | O_kCast =>
            match type with
            | ExtDictionaryType dictId _ => getDictionaryCastRange ex dictId operand
            | _ =>
                let* arg_range := getExpressionRange query_infos ex operand simple_quals in
                getCastRange type (expr_type operand) arg_range
            end
        | _ => Ok InvalidRange
        end
    | ExtractExpr _ field from =>
        let* arg_range := getExpressionRange query_infos ex from simple_quals in
        getExtractRange field (expr_type from) arg_range
    | DateTruncExpr _ field from =>
        let* arg_range := getExpressionRange query_infos ex from simple_quals in
        getDateTruncRange field (expr_type from) arg_range
    | OtherExpr _ => Ok InvalidRange
    end.

End Ranges.
