(* ===== verification/GeneratedCode.v ===== *)
(** * Integer code of expressions ([ArithmeticIR.cpp], [CastIR.cpp], [DateTimeIR.cpp])

    What the code that is generated for an expression computes from the values of its operands:
    arithmetic with its overflow checks on a CPU and on a GPU, casts between integers, dates and
    timestamps, EXTRACT and DATE_TRUNC.  A value is an integer of the width of its type, a null
    the [inline_int_null_value] of the type.  The variants the generator chooses between are
    branches here. *)

From Stdlib Require Import ZArith Lia List Bool.
From stdpp Require Import base list numbers.
From S2P Require Import Prelude ExtractFromTime DateTruncate DateAdd NullableOps IRExpr ExpressionRange.
Import ListNotations.
Local Open Scope Z_scope.
Local Open Scope hdk_scope.

(** The error codes of the executor, and undefined behaviour of an LLVM instruction. *)
Inductive GenError := ERR_OVERFLOW_OR_UNDERFLOW | ERR_DIV_BY_ZERO | GenTrap.

(** ** Arithmetic *)

Inductive NullCheckSuffix := NoSuffix | Suffix_nullable | Suffix_nullable_lhs | Suffix_nullable_rhs.

Definition get_null_check_suffix (lhs_type rhs_type : IrType) : NullCheckSuffix :=
  match nullable lhs_type, nullable rhs_type with
  | false, false => NoSuffix
  | true, true => Suffix_nullable
  | false, true => Suffix_nullable_rhs
  | true, false => Suffix_nullable_lhs
  end.

Definition is_empty (suffix : NullCheckSuffix) : bool :=
  match suffix with NoSuffix => true | _ => false end.

(** [inline_int_max_min] of [w] bits. *)
Definition chosen_max (w : Z) : Z := 2 ^ (w - 1) - 1.
Definition chosen_min (w : Z) : Z := - 2 ^ (w - 1).

Definition lift_arith (r : result ArithError Z) : result GenError Z :=
  match r with Ok v => Ok v | Err _ => Err GenTrap end.

(** The instruction of LLVM, without a null check. *)
Definition instruction (w : Z) (op : ArithOp) (lhs rhs : Z) : result GenError Z :=
  match op with
  | OpAdd => Ok (swrap w (lhs + rhs))
  | OpSub => Ok (swrap w (lhs - rhs))
  | OpMul => Ok (swrap w (lhs * rhs))
  | OpDiv => if (rhs =? 0) || ((lhs =? chosen_min w) && (rhs =? -1)) then Err GenTrap
             else Ok (Z.quot lhs rhs)
  | OpMod => if (rhs =? 0) || ((lhs =? chosen_min w) && (rhs =? -1)) then Err GenTrap
             else Ok (Z.rem lhs rhs)
  end.

(** The instruction, or the call of the runtime function for nullable operands. *)
Definition emit_arith (w : Z) (op : ArithOp) (suffix : NullCheckSuffix) (null_val lhs rhs : Z)
    : result GenError Z :=
  match suffix with
  | NoSuffix => instruction w op lhs rhs
  | Suffix_nullable => lift_arith (arith_nullable w op lhs rhs null_val)
  | Suffix_nullable_lhs => lift_arith (arith_nullable_lhs w op lhs rhs null_val)
  | Suffix_nullable_rhs => lift_arith (arith_nullable_rhs w op lhs rhs null_val)
  end.

(** [codegenSkipOverflowCheckForNull]: an operand is null. *)
Definition has_null_operand (suffix : NullCheckSuffix) (null_val lhs rhs : Z) : bool :=
  negb (is_empty suffix) && ((lhs =? null_val) || (rhs =? null_val)).

(** The intrinsics [sadd.with.overflow] and the like. *)
Definition exact_of (op : ArithOp) (lhs rhs : Z) : Z :=
  match op with OpSub => lhs - rhs | OpMul => lhs * rhs | _ => lhs + rhs end.

Definition arith_with_overflow (w : Z) (op : ArithOp) (lhs rhs : Z) : Z * bool :=
  let r := exact_of op lhs rhs in
  (swrap w r, negb ((chosen_min w <=? r) && (r <=? chosen_max w))).

Definition codegenBinOpWithOverflowForCPU (w : Z) (op : ArithOp) (suffix : NullCheckSuffix)
    (null_val lhs rhs : Z) : result GenError Z :=
  if has_null_operand suffix null_val lhs rhs then Ok null_val
  else
    let '(ret, overflow) := arith_with_overflow w op lhs rhs in
    if overflow then Err ERR_OVERFLOW_OR_UNDERFLOW else Ok ret.

(** The comparisons that detect an overflow on a GPU. *)
Definition add_detected (w lhs rhs : Z) : bool :=
  ((0 <? lhs) && (swrap w (chosen_max w - lhs) <? rhs))
  || ((lhs <? 0) && (rhs <? swrap w (chosen_min w - lhs))).

Definition sub_detected (w lhs rhs : Z) : bool :=
  ((rhs <? 0) && (swrap w (chosen_max w + rhs) <? lhs))
  || ((0 <? rhs) && (lhs <? swrap w (chosen_min w + rhs))).

Definition mul_detected (w lhs rhs : Z) : bool :=
  if rhs =? 0 then false
  else
    let rhs_is_negative := rhs <? 0 in
    let positive_rhs := if rhs_is_negative then swrap w (- rhs) else rhs in
    let adjusted_lhs := if rhs_is_negative then swrap w (- lhs) else lhs in
    (Z.quot (chosen_max w) positive_rhs <? adjusted_lhs)
    || (adjusted_lhs <? Z.quot (chosen_min w) positive_rhs).

Definition detected (w : Z) (op : ArithOp) (lhs rhs : Z) : bool :=
  match op with
  | OpAdd => add_detected w lhs rhs
  | OpSub => sub_detected w lhs rhs
  | OpMul => mul_detected w lhs rhs
  | _ => false
  end.

Inductive Device := OnCPU | OnGPU.

(** [codegenAdd], [codegenSub] and [codegenMul]. *)
Definition codegenAddSubMul (device : Device) (need_overflow_check : bool) (w : Z) (op : ArithOp)
    (suffix : NullCheckSuffix) (null_val lhs rhs : Z) : result GenError Z :=
  if need_overflow_check then
    match device with
    | OnCPU => codegenBinOpWithOverflowForCPU w op suffix null_val lhs rhs
    | OnGPU =>
        if negb (has_null_operand suffix null_val lhs rhs) && detected w op lhs rhs
        then Err ERR_OVERFLOW_OR_UNDERFLOW
        else emit_arith w op suffix null_val lhs rhs
    end
  else emit_arith w op suffix null_val lhs rhs.

(** [codegenDiv] on integers. *)
Definition codegenDiv (null_div_by_zero : bool) (w : Z) (suffix : NullCheckSuffix)
    (null_val lhs rhs : Z) : result GenError Z :=
  if null_div_by_zero then lift_arith (safe_div w lhs rhs null_val)
  else if negb (has_null_operand suffix null_val lhs rhs) && (rhs =? 0) then Err ERR_DIV_BY_ZERO
  else emit_arith w OpDiv suffix null_val lhs rhs.

(** What precedes a division of decimals: the dividend is scaled up. *)
Definition codegenDecimalUpscale (type_nullable : bool) (suffix : NullCheckSuffix)
    (scale null_val lhs rhs : Z) : result GenError Z :=
  let lhs_max := Z.quot INT64_MAX scale in
  let is_over :=
    if type_nullable then cmp_nullable OpGt lhs lhs_max null_val (-128) =? 1 else lhs_max <? lhs in
  if negb (has_null_operand suffix null_val lhs rhs) && is_over then Err ERR_OVERFLOW_OR_UNDERFLOW
  else emit_arith 64 OpMul suffix null_val lhs scale.

Definition codegenMod (w : Z) (suffix : NullCheckSuffix) (null_val lhs rhs : Z)
    : result GenError Z :=
  if rhs =? 0 then Err ERR_DIV_BY_ZERO else emit_arith w OpMod suffix null_val lhs rhs.

(** A negation has no range, so that its check is never left out. *)
Definition codegenUMinus (w : Z) (type_nullable : bool) (null_val operand : Z) : result GenError Z :=
  if negb (type_nullable && (operand =? null_val)) && (operand =? chosen_min w)
  then Err ERR_OVERFLOW_OR_UNDERFLOW
  else Ok (if type_nullable then uminus_nullable w operand null_val else swrap w (- operand)).

Section Checks.
Context {F : Type} `{FpOps F}.

Definition is_temporary_column (e : Expr F) : bool :=
  match e with ColumnVar _ tableId _ _ _ => tableId <? 0 | _ => false end.

(** No overflow check is needed: the range of the result lies in the type. *)
Definition checkExpressionRanges (query_infos : list InputTableInfo) (ex : Executor)
    (type : IrType) (op : IrOp) (lhs rhs : Expr F) (min max : Z) : result RangeError bool :=
  if is_temporary_column lhs || is_temporary_column rhs then Ok false
  else if isDecimal type then Ok false
  else if (0 <? Z.of_nat (length query_infos)) then
    let* r := getExpressionRange query_infos ex (BinOper type op lhs rhs) None in
    match r with
    | IntRange lo hi _ _ => Ok ((min <=? lo) && (hi <=? max))
    | _ => Ok false
    end
  else Ok false.
End Checks.

(** ** Casts *)

Definition coarser (a b : TimeUnit) : bool :=
  let rank (u : TimeUnit) : Z :=
    match u with
    | TU_kMonth => 0 | TU_kDay => 1 | TU_kSecond => 2 | TU_kMilli => 3 | TU_kMicro => 4 | TU_kNano => 5
    end in
  rank a <? rank b.

Definition units (u : TimeUnit) : Z := match unitsPerSecond u with Some n => n | None => 1 end.

(** [codegenCastBetweenIntTypesOverflowChecks]: the limits of [w] bits divided by the scale. *)
Definition cast_overflows (operand_nullable : bool) (w scale null_val operand : Z) : bool :=
  let over := Z.quot (chosen_max w) scale <? operand in
  let under := operand <=? Z.quot (chosen_min w) scale in
  if operand_nullable && (operand =? null_val) then false else over || under.

Definition codegenCastTimestampToDate (unit : TimeUnit) (nullable : bool) (ts : Z) : Z :=
  if finer_than_second unit then
    if nullable then DateTruncateHighPrecisionToDateNullable ts (units unit) INT64_MIN
    else DateTruncateHighPrecisionToDate ts (units unit)
  else if nullable && (ts =? INT64_MIN) then INT64_MIN
  else datetrunc_day_impl ts.

Definition codegenCastBetweenTimestamps (operand_unit target_unit : TimeUnit)
    (operand_nullable nullable : bool) (ts : Z) : result GenError Z :=
  if same_unit operand_unit target_unit then Ok ts
  else if coarser operand_unit target_unit then
    let scale := Z.quot (units target_unit) (units operand_unit) in
    if cast_overflows operand_nullable 64 scale INT64_MIN ts then Err ERR_OVERFLOW_OR_UNDERFLOW
    else if nullable then lift_arith (arith_nullable_lhs 64 OpMul ts scale INT64_MIN)
    else Ok (s64 (ts * scale))
  else
    let scale := Z.quot (units operand_unit) (units target_unit) in
    Ok (if nullable then floor_div_nullable_lhs ts scale INT64_MIN else Z.quot ts scale).

(** [codegenCastBetweenIntTypes] for types that are not decimals. *)
Definition codegenCastBetweenIntTypes (operand_type type : IrType) (operand : Z)
    : result GenError Z :=
  let null_val := inline_int_null_value operand_type in
  if isInteger type && isInteger operand_type && (type_size type <? type_size operand_type)
     && cast_overflows (nullable operand_type) (8 * type_size type) 1 null_val operand
  then Err ERR_OVERFLOW_OR_UNDERFLOW
  else if type_size type =? type_size operand_type then Ok operand
  else if nullable operand_type
  then Ok (cast_nullable (8 * type_size type) operand null_val (inline_int_null_value type))
  else Ok (swrap (8 * type_size type) operand).

(** [codegenCast] between integers, booleans, dates and times. *)
Definition codegenCast (operand_type type : IrType) (operand : Z) : result GenError Z :=
  if isBoolean operand_type && isBoolean type then Ok operand
  else if isTimestamp operand_type && isDate type
  then Ok (codegenCastTimestampToDate (unit_or_second operand_type) (nullable type) operand)
  else if (isTimestamp operand_type || isDate operand_type) && isTimestamp type
          && negb (same_unit (unit_or_second operand_type) (unit_or_second type))
  then codegenCastBetweenTimestamps (unit_or_second operand_type) (unit_or_second type)
         (nullable operand_type) (nullable type) operand
  else codegenCastBetweenIntTypes operand_type type operand.

(** ** Dates and times *)

(** [floor_div_nullable_lhs], or the signed division of a type without nulls. *)
Definition scale_down (nullable : bool) (scale ts : Z) : Z :=
  if nullable then floor_div_nullable_lhs ts scale INT64_MIN else Z.quot ts scale.

(** [mul_int64_t_nullable_lhs], or the multiplication of a type without nulls. *)
Definition scale_up (nullable : bool) (scale ts : Z) : Z :=
  if nullable && (ts =? INT64_MIN) then INT64_MIN else s64 (ts * scale).

Definition codegenExtractHighPrecisionTimestamps (unit : TimeUnit) (nullable : bool)
    (field : DateExtractField) (ts : Z) : Z :=
  if is_subsecond_extract_field field then
    match get_extract_high_precision_adjusted_scale field unit with
    | Some (kMul, n) => scale_up nullable n ts
    | Some (kDiv, n) => scale_down nullable n ts
    | None => ts
    end
  else scale_down nullable (units unit) ts.

Definition codegenExtract (from_type : IrType) (field : DateExtractField) (from : Z) : Z :=
  let unit := unit_or_second from_type in
  let n := nullable from_type in
  let from :=
    if finer_than_second unit then codegenExtractHighPrecisionTimestamps unit n field from
    else match get_extract_timestamp_precision_scale field with
         | Some scale => scale_up n scale from
         | None => from
         end in
  if n && (from =? INT64_MIN) then INT64_MIN else ExtractFromTime field from.

(** The places of a unit, and of a field from a second on. *)
Definition unitToDimension (unit : TimeUnit) : Z :=
  match unit with TU_kMilli => 3 | TU_kMicro => 6 | TU_kNano => 9 | _ => 0 end.
Definition trunc_dimension (field : DateTruncField) : option Z :=
  match field with
  | DT_kSecond => Some 0 | DT_kMilli => Some 3 | DT_kMicro => Some 6 | DT_kNano => Some 9
  | _ => None
  end.

(** [None] is the missing function of the invalid field. *)
Definition codegenDateTruncHighPrecisionTimestamps (unit : TimeUnit) (nullable : bool)
    (field : DateTruncField) (ts : Z) : option Z :=
  match trunc_dimension field with
  | Some trunc_dim =>
      let start_dim := unitToDimension unit in
      Some (if start_dim <=? trunc_dim then ts
            else
              let dscale := 10 ^ (start_dim - trunc_dim) in
              scale_up nullable dscale (scale_down nullable dscale ts))
  | None =>
      let scale := units unit in
      let ts := scale_down nullable scale ts in
      if nullable && (ts =? INT64_MIN) then Some INT64_MIN
      else
        match DateTruncate field ts with
        | Some r => Some (scale_up nullable scale r)
        | None => None
        end
  end.

Definition codegenDateTrunc (from_type : IrType) (field : DateTruncField) (from : Z) : option Z :=
  let unit := unit_or_second from_type in
  let n := nullable from_type in
  if finer_than_second unit then codegenDateTruncHighPrecisionTimestamps unit n field from
  else
    match trunc_dimension field with
    | Some _ => Some from
    | None => if n && (from =? INT64_MIN) then Some INT64_MIN else DateTruncate field from
    end.

(** * Code of whole expressions ([IRCodegen.cpp], [ArithmeticIR.cpp], [CaseIR.cpp], [ConstantIR.cpp])

    The value the generated code computes for an expression over integers, dates and times in one
    row.  The code of an arithmetic node depends on the ranges of its operands: an overflow check
    that the range analysis finds superfluous is not emitted.

    Columns, the conditions of a CASE and LIKE are given by functions of the row.  Decimals and
    floating-point numbers have other code, which is [NotGenerated] here. *)

Inductive CodeError := RunError (e : GenError) | PlanError (e : RangeError) | NotGenerated.

Definition run {A : Type} (r : result GenError A) : result CodeError A :=
  match r with Ok a => Ok a | Err e => Err (RunError e) end.
Definition plan {A : Type} (r : result RangeError A) : result CodeError A :=
  match r with Ok a => Ok a | Err e => Err (PlanError e) end.
Definition generated {A : Type} (o : option A) : result CodeError A :=
  match o with Some a => Ok a | None => Err NotGenerated end.

Definition arith_op (op : IrOp) : option ArithOp :=
  match op with
  | O_kPlus => Some OpAdd | O_kMinus => Some OpSub | O_kMul => Some OpMul
  | _ => None
  end.

(** The types [codegenCast] is modelled for. *)
Definition integer_valued (t : IrType) : bool :=
  match t with BooleanType _ | IntegerType _ _ | DateType _ | TimestampType _ _ => true | _ => false end.

Section Expressions.
Context {F : Type} `{FpOps F}.
Variables (query_infos : list (@InputTableInfo F)) (ex : @Executor F) (device : Device).

(** A row: the values of the columns by table, column and place of the table in the query, the
    conditions that hold, the values of LIKE. *)
Record Row := mkRow {
  row_column : Z -> Z -> Z -> Z;
  row_test : Expr F -> bool;
  row_like : Expr F -> Z;
}.
Variable row : Row.

(** [codegenIntArith]. *)
Definition codegenIntArith (type : IrType) (op : IrOp) (lhs rhs : Expr F) (lhs_lv rhs_lv : Z)
    : result CodeError Z :=
  let lhs_type := expr_type lhs in
  let rhs_type := expr_type rhs in
  let suffix := get_null_check_suffix lhs_type rhs_type in
  let oper_type := if isInterval rhs_type then rhs_type else lhs_type in
  let w := 8 * type_size oper_type in
  let null_val := inline_int_null_value oper_type in
  match op with
  | O_kPlus | O_kMinus | O_kMul =>
      let* aop := generated (arith_op op) in
      let* in_type := plan (checkExpressionRanges query_infos ex type op lhs rhs
                              (chosen_min w) (chosen_max w)) in
      run (codegenAddSubMul device (negb in_type) w aop suffix null_val lhs_lv rhs_lv)
  | O_kDiv => run (codegenDiv (null_div_by_zero ex) w suffix null_val lhs_lv rhs_lv)
  | O_kMod => run (codegenMod w suffix null_val lhs_lv rhs_lv)
  | _ => Err NotGenerated
  end.

(** [codegenArith] on integers and intervals. *)
Definition codegenArith (type : IrType) (op : IrOp) (lhs rhs : Expr F) (lhs_lv rhs_lv : Z)
    : result CodeError Z :=
  let lhs_type := expr_type lhs in
  let rhs_type := expr_type rhs in
  let* rhs_lv := if isInterval lhs_type
                 then run (codegenCastBetweenIntTypes rhs_type lhs_type rhs_lv) else Ok rhs_lv in
  let* lhs_lv := if negb (isInterval lhs_type) && isInterval rhs_type
                 then run (codegenCastBetweenIntTypes lhs_type rhs_type lhs_lv) else Ok lhs_lv in
  if isInteger lhs_type || isInterval lhs_type
  then codegenIntArith type op lhs rhs lhs_lv rhs_lv else Err NotGenerated.

Definition codegenConstant (type : IrType) (is_null : bool) (value : Datum F) : result CodeError Z :=
  if is_null then Ok (inline_int_null_value type)
  else
    match type, value with
    | FloatingPointType _ _, _ => Err NotGenerated
    | _, IntVal v => Ok v
    | _, _ => Err NotGenerated
    end.

(** [codegen]: dispatch on the expression; the branches of a CASE in turn. *)
Fixpoint codegen (expr : Expr F) : result CodeError Z :=
  match expr with
  | Constant type is_null value => codegenConstant type is_null value
  | ColumnVar _ tableId columnId rteIdx _ => Ok (row_column row tableId columnId rteIdx)
  | BinOper type op lhs rhs =>
      let* lhs_lv := codegen lhs in
      let* rhs_lv := codegen rhs in
      codegenArith type op lhs rhs lhs_lv rhs_lv
  | UOper type op operand =>
      match op, type with
      | O_kCast, (BooleanType _ | IntegerType _ _ | DateType _ | TimestampType _ _) =>
          let* operand_lv := codegen operand in
          if integer_valued (expr_type operand)
          then run (codegenCast (expr_type operand) type operand_lv) else Err NotGenerated
      | O_kUMinus, IntegerType size n =>
          let* operand_lv := codegen operand in
          run (codegenUMinus (8 * size) n (inline_int_null_value type) operand_lv)
      | _, _ => Err NotGenerated
      end
  | CaseExpr _ pairs else_expr =>
      (fix loop (ps : list (Expr F * Expr F)) : result CodeError Z :=
         match ps with
         | [] => codegen else_expr
         | (cond, e) :: ps' => if row_test row cond then codegen e else loop ps'
         end) pairs
  | LikeExpr _ _ => Ok (row_like row expr)
  | ExtractExpr _ field from =>
      let* from_lv := codegen from in Ok (codegenExtract (expr_type from) field from_lv)
  | DateTruncExpr _ field from =>
      let* from_lv := codegen from in generated (codegenDateTrunc (expr_type from) field from_lv)
  | OtherExpr _ => Err NotGenerated
  end.

End Expressions.
Arguments Row F : clear implicits.
Arguments mkRow {F}.
Arguments row_column {F}.
Arguments row_test {F}.
Arguments row_like {F}.
