(* ===== verification/RangeFacts.v ===== *)
(** * Overflow checks of the generated arithmetic *)

From Stdlib Require Import ZArith Lia List Bool.
From stdpp Require Import base list numbers gmap.
From S2P Require Import Prelude ExtractFromTime DateAdd NullableOps IRExpr ExpressionRange GeneratedCode.
Import ListNotations.
Local Open Scope Z_scope.
Local Open Scope hdk_scope.

(** A number that fits the width. *)
Definition fits (w r : Z) : bool := (chosen_min w <=? r) && (r <=? chosen_max w).

Lemma fits_in_width w r : fits w r = true <-> in_width w r.
Proof. unfold fits, in_width, chosen_min, chosen_max. lia. Qed.

Lemma width_half w : width_ok w -> 128 <= 2 ^ (w - 1).
Proof. intros [-> | [-> | [-> | ->]]]; vm_compute; congruence. Qed.

(** An addition, a subtraction or a multiplication. *)
Definition add_sub_mul (op : ArithOp) : Prop := op = OpAdd \/ op = OpSub \/ op = OpMul.

Lemma add_detected_exact w l r :
  width_ok w -> in_width w l -> in_width w r -> add_detected w l r = negb (fits w (l + r)).
Proof.
  intros Hw Hl Hr. pose proof (width_half w Hw) as Hh. unfold in_width in Hl, Hr.
  assert (E1 : 0 < l -> swrap w (chosen_max w - l) = chosen_max w - l)
    by (intros; apply swrap_in_width; [done|]; unfold in_width, chosen_max; lia).
  assert (E2 : l < 0 -> swrap w (chosen_min w - l) = chosen_min w - l)
    by (intros; apply swrap_in_width; [done|]; unfold in_width, chosen_min; lia).
  unfold add_detected, fits, chosen_max, chosen_min in *.
  destruct (Z.ltb_spec 0 l); destruct (Z.ltb_spec l 0); try lia;
    rewrite ?E1, ?E2 by lia; lia.
Qed.

Lemma sub_detected_exact w l r :
  width_ok w -> in_width w l -> in_width w r -> sub_detected w l r = negb (fits w (l - r)).
Proof.
  intros Hw Hl Hr. pose proof (width_half w Hw) as Hh. unfold in_width in Hl, Hr.
  assert (E1 : r < 0 -> swrap w (chosen_max w + r) = chosen_max w + r)
    by (intros; apply swrap_in_width; [done|]; unfold in_width, chosen_max; lia).
  assert (E2 : 0 < r -> swrap w (chosen_min w + r) = chosen_min w + r)
    by (intros; apply swrap_in_width; [done|]; unfold in_width, chosen_min; lia).
  unfold sub_detected, fits, chosen_max, chosen_min in *.
  destruct (Z.ltb_spec r 0); destruct (Z.ltb_spec 0 r); try lia;
    rewrite ?E1, ?E2 by lia; lia.
Qed.

(** The quotients of the limits bound the factors that fit. *)
Lemma mul_limits m a p :
  0 < p -> 0 < m ->
  (Z.quot (m - 1) p <? a) || (a <? Z.quot (- m) p) = negb ((- m <=? a * p) && (a * p <=? m - 1)).
Proof.
  intros Hp Hm. rewrite Z.quot_opp_l by lia. rewrite !Z.quot_div_nonneg by lia.
  pose proof (Z.div_mod (m - 1) p ltac:(lia)) as D1. pose proof (Z.mod_pos_bound (m - 1) p Hp) as B1.
  pose proof (Z.div_mod m p ltac:(lia)) as D2. pose proof (Z.mod_pos_bound m p Hp) as B2.
  set (q1 := (m - 1) / p) in *. set (q2 := m / p) in *.
  assert (L1 : a <= q1 <-> a * p <= m - 1) by (split; intros; nia).
  assert (L2 : - q2 <= a <-> - m <= a * p) by (split; intros; nia).
  destruct (Z.ltb_spec q1 a), (Z.ltb_spec a (- q2)), (Z.leb_spec (- m) (a * p)),
    (Z.leb_spec (a * p) (m - 1)); simpl; lia.
Qed.

Lemma mul_detected_exact w l r :
  width_ok w -> in_width w l -> in_width w r -> l <> chosen_min w -> r <> chosen_min w ->
  mul_detected w l r = negb (fits w (l * r)).
Proof.
  intros Hw Hl Hr Nl Nr. pose proof (width_half w Hw) as Hh.
  unfold in_width in Hl, Hr. unfold mul_detected, fits. unfold chosen_min, chosen_max in *.
  destruct (Z.eqb_spec r 0) as [->|N].
  { rewrite Z.mul_0_r. lia. }
  destruct (Z.ltb_spec r 0).
  - rewrite !swrap_in_width by (first [done | unfold in_width; lia]).
    rewrite mul_limits by lia. do 2 f_equal; f_equal; lia.
  - by rewrite mul_limits by lia.
Qed.

Lemma detected_exact w op l r :
  width_ok w -> add_sub_mul op -> in_width w l -> in_width w r ->
  l <> chosen_min w -> r <> chosen_min w ->
  detected w op l r = negb (fits w (exact_of op l r)).
Proof.
  intros Hw [-> | [-> | ->]] Hl Hr Nl Nr; simpl;
    auto using add_detected_exact, sub_detected_exact, mul_detected_exact.
Qed.

(** An operand is null only if its type is nullable. *)
Definition nulls_allowed (w : Z) (suffix : NullCheckSuffix) (l r : Z) : Prop :=
  (l = chosen_min w -> suffix = Suffix_nullable \/ suffix = Suffix_nullable_lhs)
  /\ (r = chosen_min w -> suffix = Suffix_nullable \/ suffix = Suffix_nullable_rhs).

Definition some_null (w l r : Z) : bool := (l =? chosen_min w) || (r =? chosen_min w).

Lemma null_operand_spec w suffix l r :
  nulls_allowed w suffix l r -> has_null_operand suffix (chosen_min w) l r = some_null w l r.
Proof.
  intros [Nl Nr]. unfold has_null_operand, some_null.
  destruct (Z.eqb_spec l (chosen_min w)) as [El|], (Z.eqb_spec r (chosen_min w)) as [Er|];
    simpl; try (rewrite andb_false_r; done);
    [destruct (Nl El) | destruct (Nl El) | destruct (Nr Er)]; by subst suffix.
Qed.

(** The operation without a check: null, or the wrapped result. *)
Lemma emit_arith_spec w op suffix l r :
  width_ok w -> add_sub_mul op -> nulls_allowed w suffix l r ->
  emit_arith w op suffix (chosen_min w) l r
  = Ok (if some_null w l r then chosen_min w else swrap w (exact_of op l r)).
Proof.
  intros Hw Hop [Nl Nr]. pose proof (width_half w Hw).
  assert (Em : swrap w (chosen_min w) = chosen_min w)
    by (apply swrap_in_width; [done|]; unfold in_width, chosen_min; lia).
  unfold emit_arith, arith_nullable, arith_nullable_lhs, arith_nullable_rhs, instruction, some_null.
  destruct (Z.eqb_spec l (chosen_min w)) as [El|], (Z.eqb_spec r (chosen_min w)) as [Er|];
    try (specialize (Nl El)); try (specialize (Nr Er)); destruct suffix; simpl;
    (try intuition discriminate); rewrite ?Em; try reflexivity;
    destruct Hop as [-> | [-> | ->]]; reflexivity.
Qed.

(** The operation with a check. *)
Lemma checked_arith_spec device w op suffix l r :
  width_ok w -> add_sub_mul op -> in_width w l -> in_width w r -> nulls_allowed w suffix l r ->
  codegenAddSubMul device true w op suffix (chosen_min w) l r
  = if some_null w l r then Ok (chosen_min w)
    else if fits w (exact_of op l r) then Ok (exact_of op l r) else Err ERR_OVERFLOW_OR_UNDERFLOW.
Proof.
  intros Hw Hop Hl Hr Hn. unfold codegenAddSubMul, codegenBinOpWithOverflowForCPU.
  rewrite (null_operand_spec w suffix l r Hn), (emit_arith_spec w op suffix l r Hw Hop Hn).
  destruct (some_null w l r) eqn:En; [by destruct device|].
  unfold some_null in En. apply orb_false_iff in En as [El%Z.eqb_neq Er%Z.eqb_neq].
  unfold arith_with_overflow. fold (fits w (exact_of op l r)).
  rewrite (detected_exact w op l r) by done. simpl.
  destruct (fits w (exact_of op l r)) eqn:Ef; simpl; destruct device; try done;
    by rewrite swrap_in_width by (done || by apply fits_in_width).
Qed.

(** * Intervals contain the results of arithmetic *)

(** ** Corners *)

Lemma checked_some z r : checked z = Some r -> r = z /\ INT64_MIN <= z <= INT64_MAX.
Proof.
  unfold checked. destruct (Z.leb_spec INT64_MIN z), (Z.leb_spec z INT64_MAX); simpl; try done.
  by intros [= ->].
Qed.

(** Between the lesser and the greater of two numbers. *)
Definition between (x a b : Z) : Prop := Z.min a b <= x <= Z.max a b.

Lemma between_hull x y1 y2 a b c d :
  between x y1 y2 -> between y1 a b -> between y2 c d ->
  Z.min (Z.min a b) (Z.min c d) <= x <= Z.max (Z.max a b) (Z.max c d).
Proof. unfold between. lia. Qed.

Lemma mul_between_l lo hi x y : lo <= x <= hi -> between (x * y) (lo * y) (hi * y).
Proof. unfold between. intros H. destruct (Z.le_gt_cases 0 y); nia. Qed.

Lemma mul_between_r lo hi x y : lo <= y <= hi -> between (x * y) (x * lo) (x * hi).
Proof. unfold between. intros H. destruct (Z.le_gt_cases 0 x); nia. Qed.

Lemma quot_between_l lo hi x y : y <> 0 -> lo <= x <= hi -> between (Z.quot x y) (Z.quot lo y) (Z.quot hi y).
Proof.
  intros Hy H. unfold between.
  assert (P : forall d, 0 < d -> Z.quot lo d <= Z.quot x d <= Z.quot hi d)
    by (intros d Hd; split; apply Z.quot_le_mono; lia).
  destruct (Z.lt_total y 0) as [N|[N|N]]; [|lia|specialize (P y N); lia].
  specialize (P (- y) ltac:(lia)). rewrite !Z.quot_opp_r in P by lia. lia.
Qed.

Lemma quot_between_pos lo hi x y :
  0 < lo -> lo <= y <= hi -> between (Z.quot x y) (Z.quot x lo) (Z.quot x hi).
Proof.
  intros Hlo H. unfold between.
  assert (P : forall a, 0 <= a -> Z.quot a hi <= Z.quot a y <= Z.quot a lo)
    by (intros a Ha; split; apply Z.quot_le_compat_l; lia).
  destruct (Z.le_gt_cases 0 x) as [G|G]; [specialize (P x G); lia|].
  specialize (P (- x) ltac:(lia)). rewrite !Z.quot_opp_l in P by lia. lia.
Qed.

Lemma quot_between_r lo hi x y :
  0 < lo * hi -> lo <= y <= hi -> between (Z.quot x y) (Z.quot x lo) (Z.quot x hi).
Proof.
  intros Hs H. destruct (Z.lt_total lo 0) as [N|[N|N]]; [|nia|by apply quot_between_pos].
  assert (Hhi : hi < 0) by nia.
  pose proof (quot_between_pos (- hi) (- lo) x (- y) ltac:(lia) ltac:(lia)) as P.
  rewrite !Z.quot_opp_r in P by lia. unfold between in *. lia.
Qed.

(** The exact result of an operator that has a range. *)
Definition exact_op (op : IrOp) (x y : Z) : Z :=
  match op with
  | O_kPlus => x + y
  | O_kMinus => x - y
  | O_kMul => x * y
  | _ => Z.quot x y
  end.

Section Ranges.
Context {F : Type} `{FpOps F}.
Abbreviation range := (ExpressionRange F).

Lemma int_binOp_inv op lo1 hi1 lo2 hi2 n :
  (int_binOp op lo1 hi1 lo2 hi2 n : range) = InvalidRange \/
  exists a b c d,
    checked_arith op lo1 lo2 = Some a /\ checked_arith op lo1 hi2 = Some b /\
    checked_arith op hi1 lo2 = Some c /\ checked_arith op hi1 hi2 = Some d /\
    int_binOp op lo1 hi1 lo2 hi2 n
    = (IntRange (Z.min (Z.min a b) (Z.min c d)) (Z.max (Z.max a b) (Z.max c d)) 0 n : range).
Proof.
  unfold int_binOp.
  destruct (checked_arith op lo1 lo2) as [a|]; [|by left].
  destruct (checked_arith op lo1 hi2) as [b|]; [|by left].
  destruct (checked_arith op hi1 lo2) as [c|]; [|by left].
  destruct (checked_arith op hi1 hi2) as [d|]; [|by left].
  right. by exists a, b, c, d.
Qed.

Lemma int_binOp_shape op lo1 hi1 lo2 hi2 n (R : range) :
  R = int_binOp op lo1 hi1 lo2 hi2 n -> R = InvalidRange \/ exists lo hi, R = IntRange lo hi 0 n.
Proof.
  intros ->. destruct (int_binOp_inv op lo1 hi1 lo2 hi2 n) as [I|(a & b & c & d & _ & _ & _ & _ & E)];
    [by left | right]. by rewrite E; eexists _, _.
Qed.

(** The corners of a rectangle bound an operator on it. *)
Lemma int_binOp_sound op lo1 hi1 lo2 hi2 n lo hi b n' x y :
  op = O_kPlus \/ op = O_kMinus \/ op = O_kMul \/ (op = O_kDiv /\ 0 < lo2 * hi2) ->
  (int_binOp op lo1 hi1 lo2 hi2 n : range) = IntRange lo hi b n' ->
  lo1 <= x <= hi1 -> lo2 <= y <= hi2 ->
  lo <= exact_op op x y <= hi /\ n' = n /\ INT64_MIN <= lo /\ hi <= INT64_MAX.
Proof.
  intros Hop E Hx Hy.
  destruct (int_binOp_inv op lo1 hi1 lo2 hi2 n) as [I|(p & q & r & s & Ep & Eq & Er & Es & E')];
    rewrite E in *; [done|]. injection E' as -> -> -> ->.
  destruct Hop as [-> |[-> |[-> |[-> Hs]]]]; unfold checked_arith in *; cbn [exact_op];
    [| | | rewrite !(proj2 (Z.eqb_neq _ _)) in * by nia];
    apply checked_some in Ep as [-> Bp], Eq as [-> Bq], Er as [-> Br], Es as [-> Bs];
    (split; [|split; [done | lia]]); try lia.
  - eapply between_hull; [by apply mul_between_l | by apply mul_between_r | by apply mul_between_r].
  - eapply between_hull; [apply quot_between_l; [nia | done] | by apply quot_between_r
                         | by apply quot_between_r].
Qed.

(** ** Values in a range *)

(** The value of an expression of type [t] is a number of the range, or null where the range says
    so.  The least number of the width is set aside for null in every type.  No integer
    expression has a floating-point range. *)
Definition in_range (t : IrType) (R : range) (v : Z) : Prop :=
  match R with
  | InvalidRange => True
  | IntRange lo hi _ n =>
      (lo <= v <= hi /\ v <> inline_int_null_value t)
      \/ (v = inline_int_null_value t /\ n = true /\ nullable t = true)
  | FpRange _ _ _ _ => False
  | NullRange => v = inline_int_null_value t /\ nullable t = true
  end.

(** A range no number of which is the null value of the type. *)
Definition null_free (t : IrType) (R : range) : Prop :=
  match R with IntRange lo _ _ _ => inline_int_null_value t < lo | _ => True end.

(** The value fits its type, too. *)
Definition value_ok (t : IrType) (R : range) (v : Z) : Prop :=
  in_width (8 * type_size t) v /\ in_range t R v.

Lemma suffix_allows s n1 n2 lo1 hi1 b1 m1 lo2 hi2 b2 m2 v1 v2 :
  in_range (IntegerType s n1) (IntRange lo1 hi1 b1 m1) v1 ->
  in_range (IntegerType s n2) (IntRange lo2 hi2 b2 m2) v2 ->
  nulls_allowed (8 * s) (get_null_check_suffix (IntegerType s n1) (IntegerType s n2)) v1 v2.
Proof.
  intros H1 H2. unfold in_range in H1, H2. simpl in H1, H2.
  change (inline_int_null_value (IntegerType s n1)) with (chosen_min (8 * s)) in H1.
  change (inline_int_null_value (IntegerType s n2)) with (chosen_min (8 * s)) in H2.
  split; intros E; unfold get_null_check_suffix; simpl;
    [destruct H1 as [[_ N]|(_ & _ & ->)] | destruct H2 as [[_ N]|(_ & _ & ->)]]; try done.
  - destruct n2; auto.
  - destruct n1; auto.
Qed.

(** ** Generated arithmetic stays in the range *)

Lemma arith_op_exact op aop x y :
  arith_op op = Some aop -> add_sub_mul aop /\ exact_of aop x y = exact_op op x y
    /\ (op = O_kPlus \/ op = O_kMinus \/ op = O_kMul).
Proof. unfold add_sub_mul. destruct op; simpl; try done; intros [= <-]; simpl; auto. Qed.

Lemma in_width_min w : width_ok w -> in_width w (chosen_min w).
Proof. intros Hw. pose proof (width_half w Hw). unfold in_width, chosen_min. lia. Qed.

Lemma swrap_width w z : width_ok w -> in_width w (swrap w z).
Proof. intros Hw. apply swrap_range. by apply width_pos. Qed.

(** Whatever the operands, the result fits the type. *)
Lemma arith_in_width device need w aop suffix v1 v2 v :
  width_ok w -> add_sub_mul aop ->
  codegenAddSubMul device need w aop suffix (chosen_min w) v1 v2 = Ok v -> in_width w v.
Proof.
  intros Hw Ha. pose proof (in_width_min w Hw). pose proof (fun z => swrap_width w z Hw).
  assert (E : forall r, emit_arith w aop suffix (chosen_min w) v1 v2 = Ok r -> in_width w r).
  { unfold emit_arith, arith_nullable, arith_nullable_lhs, arith_nullable_rhs, instruction, arith.
    intros r. destruct suffix; try destruct (_ && _); try destruct (negb _);
      destruct Ha as [-> |[-> | ->]]; simpl; intros [= <-]; auto. }
  unfold codegenAddSubMul, codegenBinOpWithOverflowForCPU. destruct need; [|apply E].
  destruct device.
  - destruct (has_null_operand _ _ _ _); [by intros [= <-]|].
    unfold arith_with_overflow. destruct (negb _); [done|]. intros [= <-]. auto.
  - destruct (negb _ && _); [done | apply E].
Qed.

Lemma operator_int op (R1 R2 R : range) :
  range_operator op R1 R2 = Ok R ->
  R = InvalidRange \/
  (exists s a b n, R = FpRange s a b n) \/
  exists lo1 hi1 b1 n1 lo2 hi2 b2 n2,
    R1 = IntRange lo1 hi1 b1 n1 /\ R2 = IntRange lo2 hi2 b2 n2 /\
    R = int_binOp op lo1 hi1 lo2 hi2 (n1 || n2).
Proof.
  destruct R1, R2; simpl; try discriminate; try (intros [= <-]; by left).
  - intros [= <-]. right. right. by repeat eexists.
  - destruct (_ =? _); [|done]. intros [= <-]. unfold fp_binOp.
    repeat (match goal with |- context [match ?x with Some _ => _ | None => _ end] => destruct x end;
            [|by left]). right. left. by repeat eexists.
Qed.

(** With an overflow check the value is null or exact, and in the range. *)
Lemma checked_sound device s n1 n2 op aop (R1 R2 R : range) v1 v2 v :
  width_ok (8 * s) -> arith_op op = Some aop ->
  value_ok (IntegerType s n1) R1 v1 -> value_ok (IntegerType s n2) R2 v2 ->
  range_operator op R1 R2 = Ok R -> null_free (IntegerType s (n1 || n2)) R ->
  codegenAddSubMul device true (8 * s) aop
    (get_null_check_suffix (IntegerType s n1) (IntegerType s n2)) (chosen_min (8 * s)) v1 v2 = Ok v ->
  value_ok (IntegerType s (n1 || n2)) R v.
Proof.
  intros Hw Ho [W1 H1] [W2 H2] HR Hf E.
  destruct (arith_op_exact op aop v1 v2 Ho) as (Ha & Ee & Hop).
  split; [exact (arith_in_width _ _ _ _ _ _ _ _ Hw Ha E)|].
  destruct (operator_int op R1 R2 R HR)
    as [-> |[(z & a & b & n & ->)|(lo1 & hi1 & b1 & m1 & lo2 & hi2 & b2 & m2 & -> & -> & Eb)]]; [done| |].
  { destruct R1, R2; simpl in HR, H1; try discriminate; try done.
    injection HR as HR. symmetry in HR.
    by apply int_binOp_shape in HR as [?|(? & ? & ?)]. }
  rewrite checked_arith_spec in E by (first [done | by eapply suffix_allows]).
  pose proof (int_binOp_shape _ _ _ _ _ _ _ Eb) as [->|(lo & hi & ->)]; [done|].
  unfold in_range in H1, H2 |- *. simpl in H1, H2, Hf |- *.
  change (inline_int_null_value (IntegerType s n1)) with (chosen_min (8 * s)) in H1.
  change (inline_int_null_value (IntegerType s n2)) with (chosen_min (8 * s)) in H2.
  change (inline_int_null_value (IntegerType s (n1 || n2))) with (chosen_min (8 * s)) in *.
  unfold some_null in E.
  destruct (Z.eqb_spec v1 (chosen_min (8 * s))) as [-> |N1].
  { injection E as <-. right. destruct H1 as [[_ ?]|(_ & -> & ->)]; [done|]. done. }
  destruct (Z.eqb_spec v2 (chosen_min (8 * s))) as [-> |N2].
  { injection E as <-. right. destruct H2 as [[_ ?]|(_ & -> & ->)]; [done|].
    rewrite !orb_true_r. by split. }
  simpl in E. destruct (fits _ _); [|done]. injection E as <-. left.
  destruct H1 as [[H1 _]|[? _]], H2 as [[H2 _]|[? _]]; try done.
  destruct (int_binOp_sound op lo1 hi1 lo2 hi2 (m1 || m2) lo hi 0 (m1 || m2) v1 v2) as (B & _);
    [tauto | done | done | done |]. rewrite Ee. lia.
Qed.

(** A check that is left out would have found nothing. *)
Lemma elided_equals_checked device device' s n1 n2 op aop (R1 R2 : range) lo hi b n v1 v2 :
  width_ok (8 * s) -> arith_op op = Some aop ->
  value_ok (IntegerType s n1) R1 v1 -> value_ok (IntegerType s n2) R2 v2 ->
  range_operator op R1 R2 = Ok (IntRange lo hi b n) ->
  chosen_min (8 * s) <= lo -> hi <= chosen_max (8 * s) ->
  codegenAddSubMul device false (8 * s) aop
    (get_null_check_suffix (IntegerType s n1) (IntegerType s n2)) (chosen_min (8 * s)) v1 v2
  = codegenAddSubMul device' true (8 * s) aop
      (get_null_check_suffix (IntegerType s n1) (IntegerType s n2)) (chosen_min (8 * s)) v1 v2.
Proof.
  intros Hw Ho [W1 H1] [W2 H2] HR Hlo Hhi.
  destruct (arith_op_exact op aop v1 v2 Ho) as (Ha & Ee & Hop).
  destruct (operator_int op R1 R2 _ HR)
    as [? |[(z & a & c & m & ?)|(lo1 & hi1 & b1 & m1 & lo2 & hi2 & b2 & m2 & -> & -> & Eb)]]; [done..|].
  pose proof (suffix_allows _ _ _ _ _ _ _ _ _ _ _ _ _ H1 H2) as Hn.
  rewrite checked_arith_spec by done. unfold codegenAddSubMul. rewrite emit_arith_spec by done.
  destruct (some_null (8 * s) v1 v2) eqn:En; [done|].
  unfold some_null in En. apply orb_false_iff in En as [N1%Z.eqb_neq N2%Z.eqb_neq].
  destruct H1 as [[H1 _]|[? _]], H2 as [[H2 _]|[? _]]; try done.
  destruct (int_binOp_sound op lo1 hi1 lo2 hi2 (m1 || m2) lo hi b n v1 v2) as (B & _);
    [tauto | done | done | done |]. rewrite <- Ee in B.
  replace (fits (8 * s) (exact_of aop v1 v2)) with true by (unfold fits; lia).
  f_equal. apply swrap_in_width; [done|]. apply fits_in_width. unfold fits. lia.
Qed.

(** ** Division *)

Lemma quot_in_width w x y :
  width_ok w -> in_width w x -> x <> chosen_min w -> in_width w (Z.quot x y).
Proof.
  intros Hw Hx N. pose proof (width_half w Hw). unfold in_width, chosen_min in *.
  destruct (Z.eq_dec y 0) as [->|Hy]; [rewrite Z.quot_0_r_ext by done; lia|].
  pose proof (Z.quot_abs x y Hy) as Q.
  assert (Z.quot (Z.abs x) (Z.abs y) <= Z.abs x).
  { rewrite Z.quot_div_nonneg by lia. apply Z.div_le_upper_bound; [lia | nia]. }
  lia.
Qed.

(** A division of numbers that are not null. *)
Lemma div_numbers flag w suffix x y v :
  width_ok w -> in_width w x -> x <> chosen_min w -> y <> chosen_min w -> y <> 0 ->
  codegenDiv flag w suffix (chosen_min w) x y = Ok v -> v = Z.quot x y.
Proof.
  intros Hw Wx Nx Ny N0. unfold codegenDiv, has_null_operand, safe_div, emit_arith, instruction,
    arith_nullable, arith_nullable_lhs, arith_nullable_rhs, arith.
  change (- 2 ^ (w - 1)) with (chosen_min w).
  rewrite !(proj2 (Z.eqb_neq _ _)) by done. simpl. rewrite !andb_false_r. simpl.
  rewrite swrap_in_width by (done || by apply quot_in_width).
  destruct flag, suffix; by intros [= <-].
Qed.

(** A division with a null operand. *)
Lemma div_null flag w suffix x y v :
  width_ok w -> nulls_allowed w suffix x y -> x = chosen_min w \/ y = chosen_min w ->
  codegenDiv flag w suffix (chosen_min w) x y = Ok v -> v = chosen_min w.
Proof.
  intros Hw Hn Hnull. unfold codegenDiv. rewrite (null_operand_spec w suffix x y Hn).
  assert (E : some_null w x y = true) by (unfold some_null; lia). rewrite E.
  assert (Em : swrap w (chosen_min w) = chosen_min w)
    by (apply swrap_in_width; [done | by apply in_width_min]).
  unfold safe_div, emit_arith, arith_nullable, arith_nullable_lhs, arith_nullable_rhs, some_null in *.
  simpl. destruct Hn as [Nx Ny].
  destruct (Z.eqb_spec x (chosen_min w)) as [Ex|Ex], (Z.eqb_spec y (chosen_min w)) as [Ey|Ey];
    try discriminate E; try (specialize (Nx Ex)); try (specialize (Ny Ey)); simpl;
    rewrite ?Em; (destruct flag; [by intros [= <-]|]);
    repeat match goal with H : _ \/ _ |- _ => destruct H end; subst suffix; try discriminate;
    simpl; by intros [= <-].
Qed.

Lemma div_sound flag s n1 n2 (R1 R2 : range) v1 v2 v :
  width_ok (8 * s) ->
  value_ok (IntegerType s n1) R1 v1 -> value_ok (IntegerType s n2) R2 v2 ->
  (forall lo2 hi2 b2 m2, R2 = IntRange lo2 hi2 b2 m2 -> s64 (lo2 * hi2) = lo2 * hi2) ->
  (flag = true -> n1 || n2 = true) ->
  null_free (IntegerType s (n1 || n2)) (range_div R1 R2 flag) ->
  codegenDiv flag (8 * s) (get_null_check_suffix (IntegerType s n1) (IntegerType s n2))
    (chosen_min (8 * s)) v1 v2 = Ok v ->
  range_div R1 R2 flag <> InvalidRange ->
  value_ok (IntegerType s (n1 || n2)) (range_div R1 R2 flag) v.
Proof.
  intros Hw [W1 H1] [W2 H2] Hp Hfl Hf E Hv. unfold range_div in *.
  destruct R1 as [|lo1 hi1 b1 m1| |], R2 as [|lo2 hi2 b2 m2| |]; try done.
  pose proof (suffix_allows _ _ _ _ _ _ _ _ _ _ _ _ _ H1 H2) as Hn.
  specialize (Hp _ _ _ _ eq_refl). rewrite Hp in *.
  destruct (Z.leb_spec (lo2 * hi2) 0) as [|Hs]; [done|].
  set (R := int_binOp O_kDiv lo1 hi1 lo2 hi2 (m1 || m2)) in *.
  destruct (int_binOp_shape _ _ _ _ _ _ R eq_refl) as [ER|(lo & hi & ER)];
    [rewrite ER in Hv; by destruct flag|].
  set (t := IntegerType s (n1 || n2)) in *.
  assert (G : (lo <= v <= hi /\ v <> chosen_min (8 * s))
              \/ (v = chosen_min (8 * s) /\ m1 || m2 = true /\ n1 || n2 = true)).
  { destruct (Z.eq_dec v1 (chosen_min (8 * s))) as [Z1|N1];
      [|destruct (Z.eq_dec v2 (chosen_min (8 * s))) as [Z2|N2]].
    - right. rewrite (div_null flag (8 * s) _ v1 v2 v Hw Hn (or_introl Z1) E). split; [done|].
      destruct H1 as [[_ ?]|(_ & -> & H1)]; [done|]. simpl in H1. by rewrite H1.
    - right. rewrite (div_null flag (8 * s) _ v1 v2 v Hw Hn (or_intror Z2) E). split; [done|].
      destruct H2 as [[_ ?]|(_ & -> & H2)]; [done|]. simpl in H2. by rewrite H2, !orb_true_r.
    - left. destruct H1 as [[H1 _]|[? _]], H2 as [[H2 _]|[? _]]; try done.
      rewrite (div_numbers flag (8 * s) _ v1 v2 v Hw W1 N1 N2 ltac:(nia) E) in *.
      destruct (int_binOp_sound O_kDiv lo1 hi1 lo2 hi2 (m1 || m2) lo hi 0 (m1 || m2) v1 v2) as (B & _);
        [tauto | done | done | done |]. cbn [exact_op] in B. split; [done|].
      rewrite ER in Hf. assert (chosen_min (8 * s) < lo) by (by destruct flag). lia. }
  split.
  - destruct G as [[_ N]|[-> _]]; [|by apply in_width_min].
    destruct (Z.eq_dec v1 (chosen_min (8 * s))) as [Z1|N1].
    { rewrite (div_null flag (8 * s) _ v1 v2 v Hw Hn (or_introl Z1) E). by apply in_width_min. }
    destruct (Z.eq_dec v2 (chosen_min (8 * s))) as [Z2|N2].
    { rewrite (div_null flag (8 * s) _ v1 v2 v Hw Hn (or_intror Z2) E). by apply in_width_min. }
    destruct H2 as [[H2 _]|[? _]]; [|done].
    rewrite (div_numbers flag (8 * s) _ v1 v2 v Hw W1 N1 N2 ltac:(nia) E). by apply quot_in_width.
  - rewrite ER. destruct flag; simpl; [|exact G]. destruct G as [G|(-> & _)]; [by left | right].
    split; [done|]. split; [done|]. exact (Hfl eq_refl).
Qed.

End Ranges.

(** * Ranges of columns from the statistics of the fragments *)

Section Leaf.
Context {F : Type} `{FpOps F}.
Abbreviation range := (ExpressionRange F).
Abbreviation fragment := (@FragmentInfo F).

(** An integer statistic of the column in a fragment. *)
Definition stat_of (stat : @ChunkStats F -> Datum F) (col_id : Z) (f : fragment) : option Z :=
  match chunkMetadataMap f !! col_id with
  | Some s => match stat s with IntVal x => Some x | _ => None end
  | None => None
  end.

(** A comparison that succeeds compares two statistics, or the first fragment has none. *)
Lemma stat_lt_inv stat col_id (f g : fragment) b :
  stat_lt false stat col_id f g = Ok b ->
  (chunkMetadataMap f !! col_id = None /\ stat_of stat col_id f = None /\ b = false) \/
  exists x y, stat_of stat col_id f = Some x /\ stat_of stat col_id g = Some y /\ b = (x <? y).
Proof.
  unfold stat_lt, stat_of. destruct (chunkMetadataMap f !! col_id) as [l|]; [|by intros [= <-]; left].
  destruct (chunkMetadataMap g !! col_id) as [r|]; [|done].
  destruct (stat l); try done. destruct (stat r); try done. intros [= <-]. right. by eexists _, _.
Qed.

Lemma min_element_least stat col_id l : forall (s m : fragment),
  min_element (stat_lt false stat col_id) s l = Ok m ->
  forall f x, In f (s :: l) -> stat_of stat col_id f = Some x ->
  exists y, stat_of stat col_id m = Some y /\ y <= x.
Proof.
  induction l as [|g l IH]; intros s m E f x Hf Hx; simpl in E.
  - injection E as <-. destruct Hf as [->|[]]. by exists x.
  - destruct (stat_lt false stat col_id g s) as [b|] eqn:Eb; [|done]. cbn [rbind] in E.
    assert (K : In f l \/ exists z, stat_of stat col_id (if b then g else s) = Some z /\ z <= x).
    { destruct Hf as [->|[->|Hf]]; [| |by left]; right;
        apply stat_lt_inv in Eb as [(_ & En & ->)|(u & w & Eu & Ew & ->)]; try congruence.
      - by exists x.
      - destruct (Z.ltb_spec u w); [exists u | exists w]; (split; [done|]);
          rewrite Hx in *; simplify_eq; lia.
      - destruct (Z.ltb_spec u w); [exists u | exists w]; (split; [done|]);
          rewrite Hx in *; simplify_eq; lia. }
    destruct K as [Hin|(z & Ez & Hz)]; [eapply IH; eauto; by right|].
    destruct (IH _ _ E _ z (or_introl eq_refl) Ez) as (y & Ey & Hy). exists y. split; [done | lia].
Qed.

(** A greatest fragment without the statistic stays. *)
Lemma max_element_missing stat col_id l (s m : fragment) :
  chunkMetadataMap s !! col_id = None -> max_element (stat_lt false stat col_id) s l = Ok m -> m = s.
Proof.
  intros Hs. induction l as [|g l IH]; simpl; [by intros [= <-]|].
  unfold stat_lt at 1. rewrite Hs. cbn [rbind]. exact IH.
Qed.

Lemma max_element_greatest stat col_id l : forall (s m : fragment),
  max_element (stat_lt false stat col_id) s l = Ok m ->
  forall y, stat_of stat col_id m = Some y ->
  forall f x, In f (s :: l) -> stat_of stat col_id f = Some x -> x <= y.
Proof.
  induction l as [|g l IH]; intros s m E y Ey f x Hf Hx; simpl in E.
  - injection E as <-. destruct Hf as [->|[]]. rewrite Ey in Hx. injection Hx. lia.
  - destruct (stat_lt false stat col_id s g) as [b|] eqn:Eb; [|done]. cbn [rbind] in E.
    destruct Hf as [->|[->|Hf]]; [| |eapply (IH _ _ E y Ey f x); [by right | done]].
    + apply stat_lt_inv in Eb as [(_ & En & ->)|(u & w & Eu & Ew & ->)]; [congruence|].
      rewrite Hx in Eu. injection Eu as <-. destruct (Z.ltb_spec x w).
      * pose proof (IH _ _ E y Ey g w (or_introl eq_refl) Ew). lia.
      * exact (IH _ _ E y Ey f x (or_introl eq_refl) Hx).
    + apply stat_lt_inv in Eb as [(Em & En & ->)|(u & w & Eu & Ew & ->)].
      { rewrite (max_element_missing stat col_id l s m Em E) in Ey. congruence. }
      rewrite Hx in Ew. injection Ew as <-. destruct (Z.ltb_spec u x).
      * exact (IH _ _ E y Ey f x (or_introl eq_refl) Hx).
      * pose proof (IH _ _ E y Ey s u (or_introl eq_refl) Eu). lia.
Qed.

(** ** The range of a column *)

(** A value of the column in a fragment with the given statistics. *)
Definition in_chunk (t : IrType) (s : @ChunkStats F) (v : Z) : Prop :=
  (exists a b, stat_min s = IntVal a /\ stat_max s = IntVal b /\ a <= v <= b /\ v <> inline_int_null_value t)
  \/ (v = inline_int_null_value t /\ stat_nulls s = true /\ nullable t = true).

Lemma some_has_nulls_in col_id (frags : list fragment) f s :
  In f frags -> chunkMetadataMap f !! col_id = Some s -> stat_nulls s = true ->
  some_has_nulls col_id frags = true.
Proof. intros Hf Hs Hn. apply existsb_exists. exists f. by rewrite Hs. Qed.

(** What the two searches give. *)
Lemma stat_range t col_id (frags : list fragment) f0 rest min_frag max_frag f s smin smax lo hi v :
  In f (f0 :: rest) -> chunkMetadataMap f !! col_id = Some s -> in_chunk t s v ->
  v <> inline_int_null_value t ->
  min_element (stat_lt false stat_min col_id) f0 rest = Ok min_frag ->
  max_element (stat_lt false stat_max col_id) f0 rest = Ok max_frag ->
  chunkMetadataMap min_frag !! col_id = Some smin -> chunkMetadataMap max_frag !! col_id = Some smax ->
  stat_min smin = IntVal lo -> stat_max smax = IntVal hi -> lo <= v <= hi.
Proof.
  intros Hf Hs Hv N Emin Emax Hmin Hmax Hlo Hhi.
  destruct Hv as [(a & b & Ea & Eb & Hab & _)|[? _]]; [|done].
  assert (Sa : stat_of stat_min col_id f = Some a) by (unfold stat_of; by rewrite Hs, Ea).
  assert (Sb : stat_of stat_max col_id f = Some b) by (unfold stat_of; by rewrite Hs, Eb).
  assert (Sl : stat_of stat_min col_id min_frag = Some lo) by (unfold stat_of; by rewrite Hmin, Hlo).
  assert (Sh : stat_of stat_max col_id max_frag = Some hi) by (unfold stat_of; by rewrite Hmax, Hhi).
  destruct (min_element_least _ _ _ _ _ Emin f a Hf Sa) as (y & Ey & Hy).
  rewrite Sl in Ey. injection Ey as <-.
  pose proof (max_element_greatest _ _ _ _ _ Emax hi Sh f b Hf Sb). lia.
Qed.

Lemma leaf_sound t table_id col_id (infos : list (@InputTableInfo F)) info outer f s (R : range) v :
  isFloatingPoint t = false -> elem_type t = t ->
  List.find (fun i => table_id =? ExpressionRange.table_id i) infos = Some info ->
  info_numTuples info <> 0 -> In f (fragments info) -> isEmptyPhysicalFragment f = false ->
  chunkMetadataMap f !! col_id = Some s -> in_chunk t s v ->
  getLeafColumnRange t table_id col_id false infos outer = Ok R -> in_range t R v.
Proof.
  intros Hfp He Hfind Hn Hf Hne Hs Hv E. unfold getLeafColumnRange in E. rewrite He, Hfind, Hfp in E.
  destruct (negb _); [by injection E as <-|]. destruct (Z.eqb_spec (info_numTuples info) 0); [done|].
  assert (Hin : In f (List.filter (fun f => negb (isEmptyPhysicalFragment f)) (fragments info)))
    by (apply filter_In; by rewrite Hne).
  destruct (List.filter _ _) as [|f0 rest]; [by injection E as <-|].
  destruct (min_element _ f0 rest) as [min_frag|] eqn:Emin; [|done].
  destruct (max_element _ f0 rest) as [max_frag|] eqn:Emax; [|done]. cbn [rbind] in E.
  destruct (chunkMetadataMap min_frag !! col_id) as [smin|] eqn:Hmin; [|by injection E as <-].
  destruct (chunkMetadataMap max_frag !! col_id) as [smax|] eqn:Hmax; [|done].
  destruct (stat_min smin) as [lo| |] eqn:Hlo; try done.
  destruct (stat_max smax) as [hi| |] eqn:Hhi; try done. cbn [extract_int rbind] in E.
  assert (Hnum : v <> inline_int_null_value t -> lo <= v <= hi)
    by (intros N; by eapply stat_range).
  assert (Hnull : v = inline_int_null_value t ->
                  outer || some_has_nulls col_id (fragments info) = true /\ nullable t = true).
  { intros N. destruct Hv as [(? & ? & _ & _ & _ & ?)|(_ & Hsn & Ht)]; [done|].
    rewrite (some_has_nulls_in col_id (fragments info) f s Hf Hs Hsn). by rewrite orb_true_r. }
  destruct (Z.eq_dec v (inline_int_null_value t)) as [N|N].
  - destruct (Hnull N) as [Ho Ht]. rewrite Ho in E.
    destruct (hi <? lo); [destruct (0 <? lo); [|done]|]; injection E as <-; by right.
  - specialize (Hnum N). destruct (Z.ltb_spec hi lo); [lia|]. injection E as <-. by left.
Qed.
End Leaf.
