(* ===== verification/RangeTimes.v ===== *)
(** * Truncated times and their buckets

    [DateTruncate] is monotone, and two different truncated times are at least as far apart as
    the bucket that [get_conservative_datetrunc_bucket] gives for the field: the entries of a
    group-by table over them can be numbered by the bucket.  The values of EXTRACT and DATE_TRUNC
    lie in the ranges that the analysis gives them. *)

From Stdlib Require Import ZArith Lia List Bool.
From stdpp Require Import base list gmap numbers.
From S2P Require Import Prelude Civil ExtractFromTime ExtractFacts DateTruncate DateTruncFacts DateAdd.
From S2P Require Import DateAddFacts GroupByRuntime NullableOps IRExpr ExpressionRange GeneratedCode RangeFacts.
Local Open Scope Z_scope.
Import ListNotations.
Local Open Scope hdk_scope.

(** ** The calendar is monotone *)

Lemma jan1_distance a b : a <= b -> 365 * (b - a) <= jan1 b - jan1 a.
Proof.
  intros H. rewrite !jan1_eq. unfold jan1_closed.
  assert (G : forall x y, x <= y -> x / 4 - x / 100 + x / 400 <= y / 4 - y / 100 + y / 400)
    by (intros x y Hxy; divmod).
  specialize (G (a - 1) (b - 1) ltac:(lia)). lia.
Qed.

(** The months are numbered by [12 * y + m]. *)
Lemma month_follows y m y' m' :
  1 <= m <= 12 -> 1 <= m' <= 12 -> 12 * y + m < 12 * y' + m' ->
  day_number y m 1 + days_in_month y m <= day_number y' m' 1.
Proof.
  intros Hm Hm' H. unfold day_number.
  pose proof (days_before_month_succ y m ltac:(lia)) as Hs.
  destruct (Z.eq_dec y y') as [<-|N].
  - pose proof (days_before_month_mono y (m + 1) m' ltac:(lia)). lia.
  - assert (Hy : y + 1 <= y') by lia. pose proof (jan1_mono (y + 1) y' Hy) as Hj.
    rewrite jan1_succ in Hj. pose proof (days_before_month_mono y (m + 1) 13 ltac:(lia)) as H13.
    change (days_before_month y 13) with (year_days y) in H13. rewrite year_days_leap in H13.
    pose proof (days_before_month_mono y' 1 m' ltac:(lia)) as H1.
    change (days_before_month y' 1) with 0 in H1. lia.
Qed.

Lemma date_monotone t t' :
  time_ok t -> time_ok t' -> t <= t' ->
  let '(y, m, _) := date_of t in let '(y', m', _) := date_of t' in
  1 <= m <= 12 /\ 1 <= m' <= 12 /\ 12 * y + m <= 12 * y' + m'.
Proof.
  intros Ht Ht' H. pose proof (date_of_spec t Ht) as V. pose proof (date_of_spec t' Ht') as V'.
  destruct (date_of t) as [[y m] d], (date_of t') as [[y' m'] d'].
  destruct V as [[Vm Vd] E], V' as [[Vm' Vd'] E']. split; [done|]. split; [done|].
  destruct (Z.le_gt_cases (12 * y + m) (12 * y' + m')) as [|G]; [done|exfalso].
  pose proof (month_follows y' m' y m Vm' Vm ltac:(lia)) as F.
  pose proof (Z.div_le_mono t t' 86400 ltac:(lia) H). unfold day_number in *. lia.
Qed.

(** ** Distances *)

(** Equal, or at least [n] apart. *)
Definition apart (n a b : Z) : Prop := a = b \/ a + n <= b.

Lemma apart_multiple n k a b : 0 < n -> k <= n -> a <= b -> apart k (n * (a / n)) (n * (b / n)).
Proof.
  intros Hn Hk H. unfold apart. pose proof (Z.div_le_mono a b n Hn H).
  destruct (Z.eq_dec (a / n) (b / n)) as [->|]; [by left | right; nia].
Qed.

Lemma apart_week w a b : a <= b -> apart 7 (week_begin w a) (week_begin w b).
Proof. intros H. unfold apart, week_begin. divmod. Qed.

Lemma apart_scale k n a b : 0 < k -> apart n a b -> apart (k * n) (k * a) (k * b).
Proof. intros Hk [->|H]; [by left | right; nia]. Qed.

Lemma apart_quarter y m y' m' :
  1 <= m <= 12 -> 1 <= m' <= 12 -> 12 * y + m <= 12 * y' + m' ->
  apart 90 (day_number y (quarter_month m) 1) (day_number y' (quarter_month m') 1).
Proof.
  intros Hm Hm' H. unfold apart, day_number.
  assert (Q : forall k, 1 <= k <= 12 -> quarter_month k = 1 \/ quarter_month k = 4
                     \/ quarter_month k = 7 \/ quarter_month k = 10)
    by (intros k Hk; unfold quarter_month; divmod).
  assert (D : forall z, days_before_month z 1 = 0 /\ days_before_month z 4 = 90 + b2z (is_leap z)
                 /\ days_before_month z 7 = 181 + b2z (is_leap z)
                 /\ days_before_month z 10 = 273 + b2z (is_leap z)).
  { intros z. rewrite !days_before_month_closed by lia. generalize (is_leap z). by intros []. }
  assert (O : y = y' -> quarter_month m <= quarter_month m') by (unfold quarter_month; divmod).
  assert (J : y + 1 <= y' -> jan1 y + 365 + b2z (is_leap y) <= jan1 y').
  { intros Hy. pose proof (jan1_mono (y + 1) y' Hy) as Hj. by rewrite jan1_succ in Hj. }
  pose proof (D y) as (A1 & A2 & A3 & A4). pose proof (D y') as (B1 & B2 & B3 & B4).
  assert (0 <= b2z (is_leap y) <= 1) by (destruct (is_leap y); simpl; lia).
  assert (0 <= b2z (is_leap y') <= 1) by (destruct (is_leap y'); simpl; lia).
  destruct (Z.eq_dec y y') as [<-|N].
  - specialize (O eq_refl).
    destruct (Q m Hm) as [E|[E|[E|E]]], (Q m' Hm') as [E'|[E'|[E'|E']]];
      rewrite E, E' in *; rewrite ?A1, ?A2, ?A3, ?A4 in *; lia.
  - right. specialize (J ltac:(lia)).
    destruct (Q m Hm) as [E|[E|[E|E]]], (Q m' Hm') as [E'|[E'|[E'|E']]];
      rewrite E, E'; rewrite ?A1, ?A2, ?A3, ?A4, ?B1, ?B2, ?B3, ?B4; lia.
Qed.

(** Years in groups of [n] that start with a year [n * k + o]. *)
Lemma apart_years n o y y' :
  0 < n -> y <= y' ->
  apart (365 * n) (jan1 (n * ((y - o) / n) + o)) (jan1 (n * ((y' - o) / n) + o)).
Proof.
  intros Hn H. destruct (apart_multiple n n (y - o) (y' - o) Hn ltac:(lia) ltac:(lia)) as [E|G].
  - left. congruence.
  - right. pose proof (jan1_distance (n * ((y - o) / n) + o) (n * ((y' - o) / n) + o) ltac:(lia)). lia.
Qed.

Lemma apart_months y m y' m' :
  1 <= m <= 12 -> 1 <= m' <= 12 -> 12 * y + m <= 12 * y' + m' ->
  apart 28 (day_number y m 1) (day_number y' m' 1).
Proof.
  intros Hm Hm' H. destruct (Z.eq_dec (12 * y + m) (12 * y' + m')) as [E|N].
  - left. by replace y' with y by lia; replace m' with m by lia.
  - right. pose proof (month_follows y m y' m' Hm Hm' ltac:(lia)).
    pose proof (days_in_month_bounds y m). lia.
Qed.

Lemma truncated_apart f t t' r r' :
  trunc_ok t -> trunc_ok t' -> t <= t' -> DateTruncate f t = Some r -> DateTruncate f t' = Some r' ->
  apart (get_conservative_datetrunc_bucket f) r r'.
Proof.
  intros Ht Ht' H Er Er'.
  pose proof (DateTruncate_date f t Ht) as D. pose proof (DateTruncate_date f t' Ht') as D'.
  pose proof (date_monotone t t' (trunc_ok_time_ok t Ht) (trunc_ok_time_ok t' Ht') H) as M.
  destruct (date_of t) as [[y m] d], (date_of t') as [[y' m'] d'].
  destruct M as (Hm & Hm' & M). rewrite D in Er. rewrite D' in Er'.
  assert (Hy : y <= y') by lia. pose proof (Z.div_le_mono t t' 86400 ltac:(lia) H) as Hd.
  pose proof (fun n o => apart_years n o y y') as AY.
  destruct f; cbn [period_start get_conservative_datetrunc_bucket] in *;
    try (injection Er as <-; injection Er' as <-); try discriminate;
    try (by apply apart_multiple; lia); try (right; lia).
  - specialize (AY 1 0 ltac:(lia) Hy). rewrite !Z.sub_0_r, !Z.div_1_r, !Z.mul_1_l, !Z.add_0_r in AY.
    exact (apart_scale 86400 _ _ _ ltac:(lia) AY).
  - exact (apart_scale 86400 _ _ _ ltac:(lia) (apart_quarter y m y' m' Hm Hm' M)).
  - exact (apart_scale 86400 _ _ _ ltac:(lia) (apart_months y m y' m' Hm Hm' M)).
  - exact (apart_scale 86400 _ _ _ ltac:(lia) (AY 1000 1 ltac:(lia) Hy)).
  - exact (apart_scale 86400 _ _ _ ltac:(lia) (AY 100 1 ltac:(lia) Hy)).
  - specialize (AY 10 0 ltac:(lia) Hy). rewrite !Z.sub_0_r, !Z.add_0_r in AY.
    exact (apart_scale 86400 _ _ _ ltac:(lia) AY).
  - exact (apart_scale 86400 _ _ _ ltac:(lia) (apart_week MONDAY _ _ Hd)).
  - exact (apart_scale 86400 _ _ _ ltac:(lia) (apart_week SUNDAY _ _ Hd)).
  - exact (apart_scale 86400 _ _ _ ltac:(lia) (apart_week SATURDAY _ _ Hd)).
Qed.

Lemma bucket_nonneg f : 0 <= get_conservative_datetrunc_bucket f.
Proof. destruct f; vm_compute; congruence. Qed.

(** Truncation is monotone. *)
Lemma DateTruncate_mono f t t' r r' :
  trunc_ok t -> trunc_ok t' -> t <= t' -> DateTruncate f t = Some r -> DateTruncate f t' = Some r' ->
  r <= r'.
Proof.
  intros Ht Ht' H E E'. pose proof (bucket_nonneg f).
  destruct (truncated_apart f t t' r r' Ht Ht' H E E'); lia.
Qed.

Lemma extract_year_mono t t' :
  time_ok t -> time_ok t' -> t <= t' -> extract_year t <= extract_year t'.
Proof.
  intros Ht Ht' H. rewrite !extract_year_date by done.
  pose proof (date_monotone t t' Ht Ht' H) as M.
  destruct (date_of t) as [[y m] d], (date_of t') as [[y' m'] d']. cbn [fst]. lia.
Qed.

(** The buckets of DATE_TRUNC are conservative: two different truncated times are at least a
    bucket apart, so that a group-by table whose entries are numbered by the bucket never puts
    two of them into one entry, from whatever smallest time it counts. *)
Theorem datetrunc_bucket_conservative f t t' r r' min_key :
  trunc_ok t -> trunc_ok t' -> t <= t' ->
  DateTruncate f t = Some r -> DateTruncate f t' = Some r' ->
  min_key <= r -> r' - min_key <= INT64_MAX -> 0 < get_conservative_datetrunc_bucket f ->
  r <= r' /\
  (key_bin r min_key (get_conservative_datetrunc_bucket f)
   = key_bin r' min_key (get_conservative_datetrunc_bucket f) <-> r = r').
Proof.
  intros Ht Ht' H E E' Hmin Hmax Hb.
  pose proof (DateTruncate_mono f t t' r r' Ht Ht' H E E') as Hle. split; [done|].
  pose proof (truncated_apart f t t' r r' Ht Ht' H E E') as A.
  set (b := get_conservative_datetrunc_bucket f) in *. unfold key_bin.
  unfold INT64_MAX in Hmax.
  rewrite !s64_small by lia. destruct (Z.eqb_spec b 0); [lia|].
  rewrite !Z.quot_div_nonneg by lia. split; [|by intros ->].
  intros Eq. destruct A as [|A]; [done|exfalso].
  pose proof (Z.div_mod (r - min_key) b ltac:(lia)). pose proof (Z.div_mod (r' - min_key) b ltac:(lia)).
  pose proof (Z.mod_pos_bound (r - min_key) b Hb). pose proof (Z.mod_pos_bound (r' - min_key) b Hb). nia.
Qed.

(** The first two quarters of 2023. *)
Lemma datetrunc_bucket_conservative_witness :
  key_bin 1672531200 1672531200 (get_conservative_datetrunc_bucket DT_kQuarter)
  <> key_bin 1680307200 1672531200 (get_conservative_datetrunc_bucket DT_kQuarter).
Proof.
  intros E.
  assert (T : forall t, 0 <= t <= 2000000000 -> trunc_ok t) by (unfold trunc_ok; consts; lia).
  pose proof (datetrunc_bucket_conservative DT_kQuarter 1680000000 1682000000 1672531200 1680307200
    1672531200 ltac:(apply T; lia) ltac:(apply T; lia) ltac:(lia) eq_refl eq_refl ltac:(lia)
    ltac:(unfold INT64_MAX; lia) ltac:(vm_compute; reflexivity)) as [_ P].
  apply P in E. lia.
Defined.

(** * Ranges of dates and times

    The values of EXTRACT, DATE_TRUNC and of casts between times lie in the ranges computed for
    them, for times from 1970 on where a unit finer than a second is involved. *)

(** ** Fields of a time *)

(** The ranges of the fields that do not depend on the argument. *)
Definition fixed_range (field : DateExtractField) : option (Z * Z) :=
  match field with
  | DE_kQuarterDay | DE_kQuarter => Some (1, 4)
  | DE_kMonth => Some (1, 12)
  | DE_kDay => Some (1, 31)
  | DE_kHour => Some (0, 23)
  | DE_kMinute => Some (0, 59)
  | DE_kSecond => Some (0, 60)
  | DE_kDayOfWeek => Some (0, 6)
  | DE_kIsoDayOfWeek => Some (1, 7)
  | DE_kDayOfYear => Some (1, 366)
  | DE_kWeek | DE_kWeekSunday | DE_kWeekSaturday => Some (1, 53)
  | _ => None
  end.

Lemma week1_length OFFSET y : week1 OFFSET (y + 1) <= week1 OFFSET y + 371.
Proof.
  unfold week1, week_begin. rewrite !day_number_jan4, jan1_succ.
  unfold b2z. destruct is_leap; divmod.
Qed.

Lemma extract_week_bounds OFFSET t :
  1 <= OFFSET <= 6 -> time_ok t -> 1 <= extract_week OFFSET t <= 53.
Proof.
  intros HO Ht. destruct (extract_week_spec OFFSET t HO Ht) as (y & B & ->).
  pose proof (week1_length OFFSET y). divmod.
Qed.

Lemma extract_fixed_bounds field t lo hi :
  time_ok t -> fixed_range field = Some (lo, hi) -> lo <= ExtractFromTime field t <= hi.
Proof.
  intros Ht E. destruct (extract_time_of_day t Ht) as (_ & Bh & Bm & Bs & Eq & _ & Ed & Ei).
  pose proof (date_of_spec t Ht) as V. pose proof (extract_day_of_year_date t Ht) as Edoy.
  pose proof (extract_month_date t Ht) as Em. pose proof (extract_day_date t Ht) as Edd.
  pose proof (extract_quarter_date t Ht) as Eqq.
  destruct (date_of t) as [[y m] d]. destruct V as [V _].
  pose proof (days_before_month_year y m d V) as By. destruct V as [Vm Vd].
  pose proof (days_in_month_bounds y m). cbn [fst snd] in *.
  assert (0 <= b2z (is_leap y) <= 1) by (destruct (is_leap y); simpl; lia).
  pose proof (fun O HO => extract_week_bounds O t HO Ht) as W.
  destruct field; cbn in E; try discriminate E; injection E as <- <-;
    cbn [ExtractFromTime] in *; try lia; try (rewrite Eqq; divmod); try (rewrite Eq; divmod);
    try (rewrite Ed; divmod); try (rewrite Ei; divmod);
    apply W; unfold MONDAY, SUNDAY, SATURDAY; lia.
Qed.

Lemma extract_year_bounds t : time_ok t -> - 1000000000000 < extract_year t < 1000000000000.
Proof.
  intros Ht. rewrite extract_year_date by done. pose proof (date_of_spec t Ht) as V.
  destruct (time_ok_day t Ht) as [_ B].
  destruct (date_of t) as [[y m] d]. destruct V as [V E]. cbn [fst].
  pose proof (days_before_month_year y m d V) as By.
  assert (0 <= b2z (is_leap y) <= 1) by (destruct (is_leap y); simpl; lia).
  unfold day_number in E. change (jan1 1970) with 0.
  assert (J0 : jan1 1970 = 0) by reflexivity.
  destruct (Z.le_gt_cases y 1970) as [L|G].
  - pose proof (jan1_distance y 1970 L). lia.
  - pose proof (jan1_distance 1970 y ltac:(lia)). lia.
Qed.

(** ** Scaling *)

(** The units of timestamps and their scales. *)
Lemma finer_units u : finer_than_second u = true -> 1000 <= units u <= 1000000000.
Proof. destruct u; try discriminate; intros _; unfold units; simpl; lia. Qed.

Lemma units_some u k : unitsPerSecond u = Some k -> units u = k.
Proof. unfold units. by intros ->. Qed.

Lemma div_time v k : 0 < k -> 0 <= v <= INT64_MAX -> 0 <= v / k <= INT64_MAX.
Proof.
  intros Hk Hv. split; [apply Z.div_pos; lia|].
  apply Z.le_trans with v; [|lia]. apply Z.div_le_upper_bound; nia.
Qed.

Lemma scale_down_spec n k v : 0 < k -> 0 <= v <= INT64_MAX -> scale_down n k v = v / k.
Proof.
  intros Hk Hv. pose proof (div_time v k Hk Hv). unfold scale_down, floor_div_nullable_lhs, floor_div_lhs.
  unfold INT64_MIN, INT64_MAX in *. rewrite (proj2 (Z.eqb_neq _ _)) by lia.
  rewrite (proj2 (Z.ltb_ge _ _)) by lia. rewrite Z.quot_div_nonneg by lia.
  rewrite s64_small by lia. by destruct n.
Qed.

Lemma scale_up_spec n k v : INT64_MIN < v -> INT64_MIN <= v * k <= INT64_MAX -> scale_up n k v = v * k.
Proof.
  intros Hv H. unfold scale_up. rewrite (proj2 (Z.eqb_neq v _)) by lia. rewrite andb_false_r.
  unfold INT64_MIN, INT64_MAX in *. apply s64_small. lia.
Qed.

Lemma scale_null k : 0 < k -> scale_down true k INT64_MIN = INT64_MIN /\ scale_up true k INT64_MIN = INT64_MIN.
Proof. done. Qed.

Section Times.
Context {F : Type} `{FpOps F}.
Abbreviation range := (ExpressionRange F).

(** A type of 64-bit times. *)
Definition time_type (t : IrType) : bool := isDate t || isTimestamp t.

(** Times of a range that the calendar functions can handle: no overflow, and none before 1970
    if the unit is finer than a second. *)
Definition times_ok (t : IrType) (lo hi : Z) : Prop :=
  trunc_ok lo /\ trunc_ok hi /\ (finer_than_second (unit_or_second t) = true -> 0 <= lo).

(** The seconds of a time. *)
Definition seconds (t : IrType) (v : Z) : Z :=
  if finer_than_second (unit_or_second t) then v / units (unit_or_second t) else v.

Lemma null_time t : time_type t = true -> inline_int_null_value t = INT64_MIN /\ type_size t = 8.
Proof. by destruct t. Qed.

Lemma times_ok_value t lo hi v :
  times_ok t lo hi -> lo <= v <= hi -> times_ok t v v /\ INT64_MIN < v <= INT64_MAX.
Proof.
  unfold times_ok, trunc_ok, INT64_MIN, INT64_MAX. intros (A & B & C) Hv.
  repeat split; try lia. intros E. specialize (C E). lia.
Qed.

Lemma times_ok_seconds t v :
  times_ok t v v -> trunc_ok (seconds t v) /\ time_ok (seconds t v) /\ INT64_MIN < seconds t v.
Proof.
  intros (A & _ & C). unfold seconds. assert (T : trunc_ok (seconds t v)).
  - unfold seconds. destruct (finer_than_second _) eqn:E; [|done]. specialize (C eq_refl).
    pose proof (finer_units _ E). unfold trunc_ok, INT64_MIN, INT64_MAX in *.
    pose proof (Z.div_pos v (units (unit_or_second t)) C ltac:(lia)).
    assert (v / units (unit_or_second t) <= v) by (apply Z.div_le_upper_bound; nia). lia.
  - fold (seconds t v). split; [done|]. split; [by apply trunc_ok_time_ok|].
    unfold trunc_ok in T. lia.
Qed.

Lemma seconds_mono t lo v :
  times_ok t lo lo -> times_ok t v v -> lo <= v -> seconds t lo <= seconds t v.
Proof.
  intros _ _ Hle. unfold seconds. destruct (finer_than_second _) eqn:E; [|done].
  pose proof (finer_units _ E). apply Z.div_le_mono; lia.
Qed.

(** ** EXTRACT *)

Definition extract_field_ok (t : IrType) (field : DateExtractField) : bool :=
  match field with
  | DE_kMilli | DE_kMicro | DE_kNano | DE_kDateEpoch => false
  | DE_kEpoch => negb (finer_than_second (unit_or_second t))
  | _ => true
  end.

(** The generated code extracts the field from the seconds. *)
Lemma codegenExtract_number t field v :
  time_type t = true -> times_ok t v v -> extract_field_ok t field = true ->
  codegenExtract t field v = ExtractFromTime field (seconds t v).
Proof.
  intros Ht Hv Hf. pose proof (times_ok_seconds t v Hv) as (_ & _ & Hs).
  assert (Sub : is_subsecond_extract_field field = false) by (by destruct field).
  assert (Sc : get_extract_timestamp_precision_scale field = None) by (by destruct field).
  unfold codegenExtract. rewrite Sc.
  assert (Ev : (if finer_than_second (unit_or_second t)
                then codegenExtractHighPrecisionTimestamps (unit_or_second t) (nullable t) field v
                else v) = seconds t v).
  { unfold seconds, codegenExtractHighPrecisionTimestamps. rewrite Sub.
    destruct (finer_than_second _) eqn:E; [|done]. destruct Hv as (A & _ & C).
    pose proof (finer_units _ E). apply scale_down_spec; [lia|]. split; [by apply C|].
    unfold trunc_ok in A. lia. }
  rewrite Ev. rewrite (proj2 (Z.eqb_neq (seconds t v) _)) by lia. by rewrite andb_false_r.
Qed.

Lemma codegenExtract_null t field :
  nullable t = true -> extract_field_ok t field = true -> codegenExtract t field INT64_MIN = INT64_MIN.
Proof.
  intros Hn Hf. unfold codegenExtract, codegenExtractHighPrecisionTimestamps. rewrite Hn.
  assert (Sub : is_subsecond_extract_field field = false) by (by destruct field).
  assert (Sc : get_extract_timestamp_precision_scale field = None) by (by destruct field).
  rewrite Sub, Sc. by destruct (finer_than_second _).
Qed.

(** An int64 result. *)
Lemma number_ok n lo hi b m v :
  INT64_MIN < v <= INT64_MAX -> lo <= v <= hi ->
  value_ok (IntegerType 8 n) (IntRange lo hi b m : range) v.
Proof.
  intros Hv Hr. unfold INT64_MIN, INT64_MAX in Hv. split.
  - unfold in_width. simpl. lia.
  - left. split; [done|]. change (inline_int_null_value (IntegerType 8 n)) with (-9223372036854775808). lia.
Qed.

Lemma extract_sound t n field lo hi b m (R' : range) v :
  time_type t = true -> (nullable t = true -> n = true) -> extract_field_ok t field = true ->
  times_ok t lo hi -> in_range t (IntRange lo hi b m : range) v ->
  getExtractRange field t (IntRange lo hi b m) = Ok R' ->
  value_ok (IntegerType 8 n) R' (codegenExtract t field v).
Proof.
  intros Ht Hnn Hf Hok Hv HR. destruct (null_time t Ht) as [En _]. unfold in_range in Hv.
  rewrite En in Hv. destruct Hv as [[Hv N]|(-> & -> & Hn)].
  - destruct (times_ok_value t lo hi v Hok Hv) as [Hvok Hvb].
    rewrite codegenExtract_number by done.
    destruct (times_ok_seconds t v Hvok) as (Ts & Tt & Tn).
    destruct (fixed_range field) as [[a c]|] eqn:Efix.
    { pose proof (extract_fixed_bounds field _ a c Tt Efix) as B.
      assert (ER : R' = IntRange a c 0 m)
        by (destruct field; cbn in Efix, HR; try discriminate Efix; injection Efix as <- <-; by injection HR).
      rewrite ER. apply number_ok; [|done]. unfold INT64_MIN, INT64_MAX.
      assert (0 <= a /\ c <= 366) by (destruct field; cbn in Efix; try discriminate; injection Efix as <- <-; lia).
      lia. }
    destruct field; cbn in Hf, Efix; try discriminate.
    + destruct (times_ok_value t lo hi lo Hok) as [Hlo _]; [lia|].
      destruct (times_ok_value t lo hi hi Hok) as [Hhi _]; [lia|].
      cbn [getExtractRange is_invalid hasNulls rbind] in HR.
      destruct (unitsPerSecond (unit_or_second t)) as [k|] eqn:Ek; [|done]. cbn [of_option rbind] in HR.
      assert (Es : forall x, times_ok t x x ->
        (if finer_than_second (unit_or_second t) then Z.quot x k else x) = seconds t x).
      { intros x (_ & _ & Hx). unfold seconds. rewrite (units_some _ _ Ek).
        destruct (finer_than_second _) eqn:E; [|done]. pose proof (finer_units _ E) as U.
        rewrite (units_some _ _ Ek) in U. apply Z.quot_div_nonneg; [by apply Hx | lia]. }
      rewrite (Es lo Hlo), (Es hi Hhi) in HR. injection HR as <-. cbn [ExtractFromTime].
      destruct (times_ok_seconds t lo Hlo) as (_ & Tl & _). destruct (times_ok_seconds t hi Hhi) as (_ & Th & _).
      apply number_ok; [pose proof (extract_year_bounds _ Tt); unfold INT64_MIN, INT64_MAX; lia|].
      split; apply extract_year_mono; try done; apply seconds_mono; (done || lia).
    + injection HR as <-. unfold seconds. apply negb_true_iff in Hf. rewrite Hf. by apply number_ok.
  - rewrite codegenExtract_null by done. rewrite (Hnn Hn). split.
    { unfold in_width, INT64_MIN. simpl. lia. }
    destruct field; cbn in HR, Hf; try discriminate; try (injection HR as <-; right; done).
    destruct (unitsPerSecond _); [|done]. injection HR as <-. right. done.
Qed.

(** ** DATE_TRUNC *)

(** The truncated time, exactly. *)
Definition truncated (t : IrType) (field : DateTruncField) (v : Z) : option Z :=
  let unit := unit_or_second t in
  if finer_than_second unit then
    match trunc_dimension field with
    | Some d =>
        let k := 10 ^ (unitToDimension unit - d) in
        Some (if unitToDimension unit <=? d then v else v / k * k)
    | None => match DateTruncate field (v / units unit) with
              | Some r => Some (r * units unit) | None => None end
    end
  else DateTruncate field v.

(** No truncated time is the null or below it. *)
Definition trunc_fits (t : IrType) (field : DateTruncField) (v : Z) : Prop :=
  forall r, truncated t field v = Some r -> INT64_MIN < r <= INT64_MAX.

Lemma div_mul_below v k : 0 < k -> 0 <= v -> 0 <= v / k * k <= v.
Proof.
  intros Hk Hv. pose proof (Z.div_mod v k ltac:(lia)). pose proof (Z.mod_pos_bound v k Hk).
  pose proof (Z.mod_le v k Hv Hk). lia.
Qed.

Lemma unsigned_mod_nonneg v k : 0 < k -> 0 <= v -> v - unsigned_mod v k = v / k * k.
Proof.
  intros Hk Hv. unfold unsigned_mod. rewrite Z.rem_mod_nonneg by lia.
  pose proof (Z.div_mod v k ltac:(lia)). pose proof (Z.mod_pos_bound v k Hk).
  destruct (Z.ltb_spec (v mod k) 0); lia.
Qed.

Lemma scale_steps n k v :
  0 < k -> 0 <= v <= INT64_MAX -> scale_up n k (scale_down n k v) = v / k * k.
Proof.
  intros Hk Hv. rewrite scale_down_spec by done. pose proof (div_time v k Hk Hv).
  pose proof (div_mul_below v k Hk ltac:(lia)).
  apply scale_up_spec; unfold INT64_MIN, INT64_MAX in *; lia.
Qed.

(** The planner's truncation of a constant. *)
Lemma constant_truncated t field v :
  time_type t = true -> times_ok t v v -> trunc_fits t field v ->
  getDateTruncConstantValue v field (timestamp_unit t) = truncated t field v.
Proof.
  intros Ht (A & _ & C) Hfit. unfold trunc_fits, truncated, getDateTruncConstantValue in *.
  destruct t as [| | | | n | |unit n| | | |]; try discriminate; simpl in C, Hfit |- *; [done|].
  destruct (finer_than_second unit) eqn:E; [|done]. specialize (C eq_refl).
  pose proof (finer_units _ E) as U. unfold trunc_ok, INT64_MAX in A.
  assert (Eu : unitsPerSecond unit = Some (units unit)) by (by destruct unit). rewrite Eu.
  rewrite floor_div_spec by (unfold INT64_MIN, INT64_MAX; lia).
  pose proof (div_mul_below v (units unit) ltac:(lia) C).
  assert (S : forall k, 0 < k -> s64 (v - unsigned_mod v k) = v / k * k).
  { intros k Hk. rewrite unsigned_mod_nonneg by done. pose proof (div_mul_below v k Hk C).
    apply s64_small. lia. }
  destruct field, unit; simpl in E; try discriminate; simpl; try reflexivity;
    try (apply f_equal; apply S; unfold kMilliSecsPerSec, kMicroSecsPerSec; lia);
    cbn [DateTruncate trunc_dimension] in Hfit;
    apply f_equal, s64_small; unfold units in *; cbn [unitsPerSecond] in *;
    first [specialize (Hfit _ eq_refl); unfold INT64_MIN, INT64_MAX in Hfit; lia
          | change (10 ^ (3 - 0)) with 1000; change (10 ^ (6 - 0)) with 1000000;
             change (10 ^ (9 - 0)) with 1000000000; lia].
Qed.

(** The generated code truncates likewise. *)
Lemma codegenDateTrunc_number t field v :
  time_type t = true -> times_ok t v v -> trunc_fits t field v ->
  codegenDateTrunc t field v = truncated t field v.
Proof.
  intros Ht (A & _ & C) Hfit. unfold trunc_fits, truncated, codegenDateTrunc in *.
  assert (Nv : v <> INT64_MIN) by (unfold trunc_ok in A; unfold INT64_MIN, INT64_MAX in *; lia).
  destruct (finer_than_second (unit_or_second t)) eqn:E.
  - specialize (C eq_refl). pose proof (finer_units _ E) as U.
    assert (Hv : 0 <= v <= INT64_MAX) by (unfold trunc_ok in A; lia).
    unfold codegenDateTruncHighPrecisionTimestamps. set (u := unit_or_second t) in *.
    destruct (trunc_dimension field) as [d|] eqn:Ed.
    + destruct (Z.leb_spec (unitToDimension u) d); [done|]. f_equal. apply scale_steps; [|done].
      apply Z.pow_pos_nonneg; lia.
    + pose proof (div_time v (units u) ltac:(lia) Hv) as D. rewrite scale_down_spec by (done || lia).
      rewrite (proj2 (Z.eqb_neq (v / units u) _)) by (unfold INT64_MIN; lia). rewrite andb_false_r.
      destruct (DateTruncate field (v / units u)) as [r|] eqn:Er; [|done].
      specialize (Hfit _ eq_refl). f_equal. apply scale_up_spec; [|lia].
      unfold INT64_MIN in *. nia.
  - rewrite (proj2 (Z.eqb_neq v _)) by done. rewrite andb_false_r. by destruct field.
Qed.

Lemma codegenDateTrunc_null t field :
  nullable t = true -> field <> DT_kInvalid -> codegenDateTrunc t field INT64_MIN = Some INT64_MIN.
Proof.
  intros Hn Hf. unfold codegenDateTrunc, codegenDateTruncHighPrecisionTimestamps. rewrite Hn.
  destruct (finer_than_second _) eqn:E; [|by destruct field].
  destruct field; try done; simpl; by destruct (_ <=? _).
Qed.

Lemma truncated_mono t field v v' r r' :
  times_ok t v v -> times_ok t v' v' -> v <= v' ->
  truncated t field v = Some r -> truncated t field v' = Some r' -> r <= r' /\ r' <= v'.
Proof.
  intros Hv Hv' Hle. destruct (times_ok_seconds t v Hv) as (T & _ & _).
  destruct (times_ok_seconds t v' Hv') as (T' & _ & _).
  destruct Hv as (A & _ & C), Hv' as (A' & _ & C'). unfold truncated, seconds in *.
  destruct (finer_than_second (unit_or_second t)) eqn:E.
  - specialize (C eq_refl). specialize (C' eq_refl). pose proof (finer_units _ E) as U.
    set (u := unit_or_second t) in *. destruct (trunc_dimension field) as [d|].
    + destruct (Z.leb_spec (unitToDimension u) d); [intros [= <-] [= <-]; lia|].
      set (k := 10 ^ _). assert (Hk : 0 < k) by (apply Z.pow_pos_nonneg; lia).
      intros [= <-] [= <-]. pose proof (Z.div_le_mono v v' k Hk Hle).
      pose proof (div_mul_below v' k Hk C'). nia.
    + destruct (DateTruncate field (v / units u)) as [q|] eqn:Eq; [|done].
      destruct (DateTruncate field (v' / units u)) as [q'|] eqn:Eq'; [|done].
      intros [= <-] [= <-]. pose proof (Z.div_le_mono v v' (units u) ltac:(lia) Hle) as Hd.
      pose proof (DateTruncate_mono field _ _ q q' T T' Hd Eq Eq').
      destruct (DateTruncate_floor field _ q' T' Eq') as [Hq' _].
      pose proof (div_mul_below v' (units u) ltac:(lia) C'). nia.
  - intros Er Er'. split; [exact (DateTruncate_mono field v v' r r' A A' Hle Er Er')|].
    exact (proj1 (DateTruncate_floor field v' r' A' Er')).
Qed.

Lemma truncated_defined t field v : field <> DT_kInvalid -> exists r, truncated t field v = Some r.
Proof.
  intros Hf. unfold truncated. destruct (finer_than_second _), field; try done; by eexists.
Qed.

(** If the truncated least time fits, every one does. *)
Lemma trunc_fits_range t field lo v :
  field <> DT_kInvalid ->
  times_ok t lo lo -> times_ok t v v -> lo <= v -> trunc_fits t field lo -> trunc_fits t field v.
Proof.
  intros Hf Hlo Hv Hle Hfit r Er. destruct (truncated_defined t field lo Hf) as [q Eq].
  destruct (truncated_mono t field lo v q r Hlo Hv Hle Eq Er). specialize (Hfit q Eq).
  destruct Hv as (A & _). unfold trunc_ok in A. lia.
Qed.

(** A time as the result. *)
Lemma time_ok_value t lo hi b m v :
  time_type t = true -> INT64_MIN < v <= INT64_MAX -> lo <= v <= hi ->
  value_ok t (IntRange lo hi b m : range) v.
Proof.
  intros Ht Hv Hr. destruct (null_time t Ht) as [En Es]. unfold value_ok, in_range, in_width.
  rewrite En, Es. change (2 ^ (8 * 8 - 1)) with 9223372036854775808.
  unfold INT64_MIN, INT64_MAX in *. split; [lia|]. left. lia.
Qed.

Lemma null_ok_value t lo hi b :
  time_type t = true -> nullable t = true -> value_ok t (IntRange lo hi b true : range) INT64_MIN.
Proof.
  intros Ht Hn. destruct (null_time t Ht) as [En Es]. unfold value_ok, in_range, in_width.
  rewrite En, Es. split; [by vm_compute | by right].
Qed.

Lemma trunc_sound t t' field lo hi b m (R' : range) v r :
  time_type t = true -> time_type t' = true -> (nullable t = true -> nullable t' = true) ->
  times_ok t lo hi -> trunc_fits t field lo ->
  in_range t (IntRange lo hi b m : range) v ->
  getDateTruncRange field t (IntRange lo hi b m) = Ok R' ->
  codegenDateTrunc t field v = Some r -> value_ok t' R' r.
Proof.
  intros Ht Ht' Hnn Hok Hfit Hv HR Er. destruct (null_time t Ht) as [En _]. unfold in_range in Hv.
  rewrite En in Hv. unfold getDateTruncRange in HR. cbn [getIntMin getIntMax hasNulls rbind] in HR.
  assert (Hf : field <> DT_kInvalid).
  { intros ->. destruct t; try discriminate; simpl in HR; try done.
    by destruct (finer_than_second _), (unitsPerSecond _). }
  assert (Eu : exists k, unitsPerSecond (unit_or_second t) = Some k).
  { destruct (unitsPerSecond (unit_or_second t)) eqn:Eu; [by eexists|].
    by destruct (getDateTruncConstantValue lo _ _), (getDateTruncConstantValue hi _ _). }
  destruct Eu as [k Eu]. rewrite Eu in HR.
  assert (R : exists lo' hi' b', R' = IntRange lo' hi' b' m /\
     getDateTruncConstantValue lo field (timestamp_unit t) = Some lo' /\
     getDateTruncConstantValue hi field (timestamp_unit t) = Some hi').
  { destruct (getDateTruncConstantValue lo _ _) as [lo'|]; [|done].
    destruct (getDateTruncConstantValue hi _ _) as [hi'|]; [|done].
    injection HR as <-. by eexists _, _, _. }
  destruct R as (lo' & hi' & b' & -> & Elo & Ehi). clear HR.
  destruct Hv as [[Hv N]|(-> & -> & Hn)].
  - destruct (times_ok_value t lo hi v Hok Hv) as [Hvok _].
    destruct (times_ok_value t lo hi lo Hok) as [Hlo _]; [lia|].
    destruct (times_ok_value t lo hi hi Hok) as [Hhi _]; [lia|].
    assert (Fv : trunc_fits t field v) by (apply (trunc_fits_range t field lo v); (done || lia)).
    assert (Fh : trunc_fits t field hi) by (apply (trunc_fits_range t field lo hi); (done || lia)).
    rewrite constant_truncated in Elo, Ehi by done. rewrite codegenDateTrunc_number in Er by done.
    apply time_ok_value; [done | by apply Fv |].
    destruct (truncated_mono t field lo v lo' r Hlo Hvok ltac:(lia) Elo Er).
    destruct (truncated_mono t field v hi r hi' Hvok Hhi ltac:(lia) Er Ehi). lia.
  - rewrite codegenDateTrunc_null in Er by done. injection Er as <-.
    apply null_ok_value; [done | by apply Hnn].
Qed.

End Times.
