(* ===== verification/RangeCasts.v ===== *)
(** * Ranges of casts

    The value of a cast between integers, or between dates and timestamps, lies in the range
    computed for the cast. *)

From Stdlib Require Import ZArith Lia List Bool.
From stdpp Require Import base list gmap numbers.
From S2P Require Import Prelude ExtractFromTime ExtractFacts DateTruncate DateTruncFacts DateAdd DateAddFacts.
From S2P Require Import NullableOps IRExpr ExpressionRange GeneratedCode RangeFacts RangeTimes.
Import ListNotations.
Local Open Scope Z_scope.
Local Open Scope hdk_scope.

Section Casts.
Context {F : Type} `{FpOps F}.
Abbreviation range := (ExpressionRange F).

(** ** Integers *)

Lemma cast_fits n w null_val v :
  width_ok w -> cast_overflows n w 1 null_val v = false -> v <> null_val ->
  chosen_min w < v <= chosen_max w.
Proof.
  intros Hw. unfold cast_overflows. rewrite !Z.quot_1_r.
  destruct (Z.eqb_spec v null_val); [done|]. rewrite andb_false_r. lia.
Qed.

Lemma width_mono a b : a <= b -> 2 ^ (8 * a - 1) <= 2 ^ (8 * b - 1).
Proof. intros Hab. apply Z.pow_le_mono_r; lia. Qed.

Lemma int_number_ok s n lo hi b m v :
  chosen_min (8 * s) < v <= chosen_max (8 * s) -> lo <= v <= hi ->
  value_ok (IntegerType s n) (IntRange lo hi b m : range) v.
Proof.
  intros Hv Hr. unfold value_ok, in_range, in_width, inline_int_null_value. simpl type_size.
  unfold chosen_min, chosen_max in Hv. split; [lia|]. left. lia.
Qed.

Lemma int_null_ok s n lo hi b :
  width_ok (8 * s) -> n = true ->
  value_ok (IntegerType s n) (IntRange lo hi b true : range) (chosen_min (8 * s)).
Proof. intros Hw ->. split; [by apply in_width_min | by right]. Qed.

Lemma cast_int_sound s n s' n' lo hi b m v r :
  width_ok (8 * s) -> width_ok (8 * s') -> (n = true -> n' = true) ->
  value_ok (IntegerType s n) (IntRange lo hi b m : range) v ->
  codegenCast (IntegerType s n) (IntegerType s' n') v = Ok r ->
  value_ok (IntegerType s' n') (IntRange lo hi b m : range) r.
Proof.
  intros Hw Hw' Hn [W Hv] E. unfold in_range in Hv. unfold codegenCast, codegenCastBetweenIntTypes in E.
  cbn [isBoolean isTimestamp isDate isInteger andb orb type_size nullable] in E.
  change (type_size (IntegerType s n)) with s in W.
  change (inline_int_null_value (IntegerType s n)) with (chosen_min (8 * s)) in *.
  change (inline_int_null_value (IntegerType s' n')) with (chosen_min (8 * s')) in *.
  pose proof (width_half _ Hw). pose proof (width_half _ Hw').
  destruct Hv as [[Hv N]|(-> & -> & Hn1)].
  - assert (B : chosen_min (8 * s') < v <= chosen_max (8 * s') /\ r = v); [|destruct B as [B ->]; by apply int_number_ok].
    destruct (Z.ltb_spec s' s) as [Hlt|Hge].
    + destruct (cast_overflows n (8 * s') 1 (chosen_min (8 * s)) v) eqn:Ec; [done|].
      simpl in E. pose proof (cast_fits _ _ _ _ Hw' Ec N) as B. split; [done|].
      destruct (Z.eqb_spec s' s); [lia|]. unfold cast_nullable in E.
      rewrite (proj2 (Z.eqb_neq v _) N) in E.
      rewrite swrap_in_width in E by (done || unfold in_width, chosen_min, chosen_max in *; lia).
      destruct n; by injection E as <-.
    + simpl in E. assert (B : chosen_min (8 * s') < v <= chosen_max (8 * s')).
      { pose proof (width_mono s s' Hge). unfold in_width, chosen_min, chosen_max in *. lia. }
      split; [done|]. destruct (Z.eqb_spec s' s); [by injection E as <-|]. unfold cast_nullable in E.
      rewrite (proj2 (Z.eqb_neq v _) N) in E.
      rewrite swrap_in_width in E by (done || unfold in_width, chosen_min, chosen_max in *; lia).
      destruct n; by injection E as <-.
  - simpl in Hn1. subst n. unfold cast_overflows, cast_nullable in E.
    rewrite !Z.eqb_refl in E. simpl in E. rewrite andb_false_r in E.
    destruct (Z.eqb_spec s' s) as [->|]; injection E as <-; by apply int_null_ok; auto.
Qed.

(** ** Times *)

(** The unit of a timestamp. *)
Definition time_unit (u : TimeUnit) : bool := match unitsPerSecond u with Some _ => true | None => false end.

Lemma unit_factor_units o n :
  time_unit o = true -> time_unit n = true -> coarser o n = true ->
  unit_factor o n = Some (Z.quot (units n) (units o)).
Proof. by destruct o, n. Qed.

Lemma finer_factor o n :
  time_unit o = true -> time_unit n = true -> same_unit o n = false -> coarser o n = false ->
  unit_factor n o = Some (Z.quot (units o) (units n)) /\ finer_than_second o = true.
Proof. by destruct o, n. Qed.

(** The types of a cast between times, of the given times. *)
Definition time_cast_ok (te t : IrType) (lo hi : Z) : Prop :=
  time_type te = true /\ time_type t = true /\ (nullable te = true -> nullable t = true) /\
  time_unit (unit_or_second te) = true /\ time_unit (unit_or_second t) = true /\ times_ok te lo hi.

(** To a finer unit: the product, after a check. *)
Lemma upscale_value on (n : bool) k v r :
  1 < k <= 86400000000000 -> v <> INT64_MIN -> INT64_MIN <= v * k <= INT64_MAX ->
  (if cast_overflows on 64 k INT64_MIN v then Err ERR_OVERFLOW_OR_UNDERFLOW
   else if n then lift_arith (arith_nullable_lhs 64 OpMul v k INT64_MIN) else Ok (s64 (v * k)))
     = (Ok r : result GenError Z) ->
  r = v * k /\ INT64_MIN < r.
Proof.
  intros Hk N Hb. unfold cast_overflows, arith_nullable_lhs, arith, s64.
  rewrite (proj2 (Z.eqb_neq v _) N), andb_false_r. cbn [negb lift_arith].
  rewrite swrap_in_width by (unfold width_ok, in_width, INT64_MIN, INT64_MAX in *; lia).
  destruct (_ <? v); [done|]. destruct (Z.leb_spec v (Z.quot (chosen_min 64) k)) as [|L]; [done|].
  cbn [orb]. intros Er. assert (r = v * k) as -> by (destruct n; by injection Er). split; [done|].
  unfold chosen_min in L. rewrite Z.quot_opp_l in L by lia.
  change (2 ^ (64 - 1)) with 9223372036854775808 in L.
  rewrite Z.quot_div_nonneg in L by lia.
  pose proof (Z.div_mod 9223372036854775808 k ltac:(lia)).
  pose proof (Z.mod_pos_bound 9223372036854775808 k ltac:(lia)). unfold INT64_MIN. nia.
Qed.

Lemma upscale_null (n : bool) k r :
  n = true ->
  (if cast_overflows true 64 k INT64_MIN INT64_MIN then Err ERR_OVERFLOW_OR_UNDERFLOW
   else if n then lift_arith (arith_nullable_lhs 64 OpMul INT64_MIN k INT64_MIN) else Ok (s64 (INT64_MIN * k)))
  = (Ok r : result GenError Z) -> r = INT64_MIN.
Proof. intros ->. by intros [= <-]. Qed.

(** The precision of the range is the precision of the value. *)
Definition precision_value (te t : IrType) (v : Z) : option Z :=
  get_datetime_scaled_epoch_unit v (unit_or_second te) (unit_or_second t).

Lemma quot_nonneg_mono a b k : 0 < k -> 0 <= a <= b -> 0 <= Z.quot a k <= Z.quot b k /\ Z.quot b k <= b.
Proof.
  intros Hk Hab. rewrite !Z.quot_div_nonneg by lia. pose proof (Z.div_pos a k ltac:(lia) Hk).
  pose proof (Z.div_le_mono a b k Hk ltac:(lia)). split; [lia|]. apply Z.div_le_upper_bound; nia.
Qed.

(** Between timestamps of different units. *)
Lemma cast_timestamps_sound te t lo hi m lo' hi' v r :
  time_cast_ok te t lo hi -> same_unit (unit_or_second te) (unit_or_second t) = false ->
  in_range te (IntRange lo hi 0 m : range) v ->
  precision_value te t lo = Some lo' -> precision_value te t hi = Some hi' ->
  codegenCastBetweenTimestamps (unit_or_second te) (unit_or_second t) (nullable te) (nullable t) v = Ok r ->
  value_ok t (IntRange lo' hi' 0 m : range) r.
Proof.
  intros (Te & Tt & Hn & Ue & Ut & Hok) Hs Hv Elo Ehi. destruct (null_time te Te) as [En _].
  unfold in_range in Hv. rewrite En in Hv. unfold codegenCastBetweenTimestamps, precision_value in *.
  rewrite Hs. set (o := unit_or_second te) in *. set (u := unit_or_second t) in *.
  destruct (coarser o u) eqn:Ec.
  - pose proof (unit_factor_units o u Ue Ut Ec) as Ek. set (k := Z.quot (units u) (units o)) in *.
    pose proof (unit_factor_range o u k Ek) as Bk.
    destruct Hv as [[Hv N]|(-> & -> & Hn1)].
    + destruct (times_ok_value te lo hi v Hok Hv) as [_ Bv].
      assert (Bl : INT64_MIN <= lo <= INT64_MAX /\ INT64_MIN <= hi <= INT64_MAX)
        by (destruct Hok as (A & B & _); unfold trunc_ok, INT64_MIN, INT64_MAX in *; lia).
      rewrite (scaled_epoch_unit_up o u k) in Elo, Ehi by tauto.
      destruct (Z.leb_spec INT64_MIN (lo * k)), (Z.leb_spec (lo * k) INT64_MAX); try done.
      destruct (Z.leb_spec INT64_MIN (hi * k)), (Z.leb_spec (hi * k) INT64_MAX); try done.
      injection Elo as <-. injection Ehi as <-. intros Er.
      apply (upscale_value _ _ k v r Bk N ltac:(nia)) in Er as [-> Hr].
      apply time_ok_value; [done | nia | nia].
    + rewrite Hn1. intros Er. apply (upscale_null _ k r (Hn Hn1)) in Er as ->.
      apply null_ok_value; [done | by apply Hn].
  - destruct (finer_factor o u Ue Ut Hs Ec) as [Ek Ef]. set (k := Z.quot (units o) (units u)) in *.
    pose proof (unit_factor_range u o k Ek) as Bk.
    rewrite (scaled_epoch_unit_down u o k) in Elo, Ehi by done. injection Elo as <-. injection Ehi as <-.
    fold (scale_down (nullable t) k v). intros [= <-].
    destruct Hv as [[Hv N]|(-> & -> & Hn1)].
    + destruct (times_ok_value te lo hi v Hok Hv) as [(_ & _ & Pv) Bv]. specialize (Pv Ef).
      destruct Hok as (_ & _ & Pl). specialize (Pl Ef).
      rewrite scale_down_spec by lia. rewrite <- Z.quot_div_nonneg by lia.
      pose proof (quot_nonneg_mono lo v k ltac:(lia) ltac:(lia)).
      pose proof (quot_nonneg_mono v hi k ltac:(lia) ltac:(lia)).
      apply time_ok_value; [done | unfold INT64_MIN, INT64_MAX in *; lia | lia].
    + rewrite (Hn Hn1). apply null_ok_value; [done | by apply Hn].
Qed.

(** To a date: the day of the time. *)
Lemma day_trunc v : trunc_ok v -> DateTruncate DT_kDay v = Some (86400 * (v / 86400)).
Proof. intros Hv. cbn [DateTruncate]. f_equal. apply trunc_mod; [done | lia]. Qed.

(** The midnight of a time, in seconds. *)
Lemma date_of_time u v :
  time_unit u = true -> trunc_ok v -> (finer_than_second u = true -> 0 <= v) ->
  truncate_high_precision_timestamp_to_date_impl v (units u)
  = 86400 * ((if finer_than_second u then v / units u else v) / 86400).
Proof.
  intros Hu Hv Hp. unfold trunc_ok in Hv.
  unfold truncate_high_precision_timestamp_to_date_impl, kSecsPerDay.
  destruct (finer_than_second u) eqn:E.
  - specialize (Hp eq_refl). pose proof (finer_units u E) as U.
    rewrite (s64_small (units u * 86400)) by lia.
    rewrite floor_div_spec by (unfold INT64_MIN, INT64_MAX in *; lia).
    rewrite Z.div_div by lia. set (k := units u * 86400) in *.
    pose proof (div_mul_below v k ltac:(lia) Hp). pose proof (Z.div_pos v k Hp ltac:(lia)).
    assert (v / k * 86400 <= v / k * k) by nia. unfold INT64_MAX in *.
    rewrite s64_small by lia. lia.
  - assert (units u = 1) as -> by (by destruct u). change (s64 (1 * 86400)) with 86400.
    rewrite floor_div_spec by (unfold INT64_MIN, INT64_MAX in *; lia).
    pose proof (div_bounds v 86400 ltac:(lia)). unfold INT64_MIN, INT64_MAX in *.
    rewrite s64_small by lia. lia.
Qed.

Lemma cast_date_number u n v :
  time_unit u = true -> trunc_ok v -> (finer_than_second u = true -> 0 <= v) ->
  codegenCastTimestampToDate u n v
  = 86400 * ((if finer_than_second u then v / units u else v) / 86400).
Proof.
  intros Hu Hv Hp. assert (N : v <> INT64_MIN) by (unfold trunc_ok in Hv; unfold INT64_MIN, INT64_MAX in *; lia).
  unfold codegenCastTimestampToDate. destruct (finer_than_second u) eqn:E.
  - pose proof (date_of_time u v Hu Hv) as Ei. rewrite E in Ei. specialize (Ei Hp).
    unfold DateTruncateHighPrecisionToDateNullable, DateTruncateHighPrecisionToDate.
    rewrite (proj2 (Z.eqb_neq v _) N). by destruct n.
  - rewrite (proj2 (Z.eqb_neq v _) N), andb_false_r. by apply trunc_mod.
Qed.

Lemma cast_date_null u : codegenCastTimestampToDate u true INT64_MIN = INT64_MIN.
Proof. by destruct u. Qed.

Lemma cast_date_sound te n lo hi m lo' hi' b v :
  isTimestamp te = true -> time_cast_ok te (DateType n) lo hi ->
  in_range te (IntRange lo hi 0 m : range) v ->
  DateTruncate DT_kDay (seconds te lo) = Some lo' -> DateTruncate DT_kDay (seconds te hi) = Some hi' ->
  value_ok (DateType n) (IntRange lo' hi' b m : range)
    (codegenCastTimestampToDate (unit_or_second te) n v).
Proof.
  intros Hts (Te & Tt & Hn & Ue & _ & Hok) Hv Elo Ehi. destruct (null_time te Te) as [En _].
  unfold in_range in Hv. rewrite En in Hv. destruct Hv as [[Hv N]|(-> & -> & Hn1)].
  - destruct (times_ok_value te lo hi v Hok Hv) as [Hvok Bv].
    destruct (times_ok_value te lo hi lo Hok) as [Hlo _]; [lia|].
    destruct (times_ok_value te lo hi hi Hok) as [Hhi _]; [lia|].
    destruct (times_ok_seconds te lo Hlo) as (Tl & _). destruct (times_ok_seconds te hi Hhi) as (Th & _).
    destruct (times_ok_seconds te v Hvok) as (Tv & _).
    pose proof (seconds_mono te lo v Hlo Hvok ltac:(lia)) as S1.
    pose proof (seconds_mono te v hi Hvok Hhi ltac:(lia)) as S2.
    rewrite day_trunc in Elo, Ehi by done. apply some_inj in Elo as <-, Ehi as <-.
    destruct Hvok as (Av & _ & Pv). rewrite cast_date_number by assumption.
    fold (seconds te v). unfold trunc_ok in Tv.
    pose proof (Z.div_le_mono _ _ 86400 ltac:(lia) S1). pose proof (Z.div_le_mono _ _ 86400 ltac:(lia) S2).
    pose proof (Z.div_mod (seconds te v) 86400 ltac:(lia)).
    pose proof (Z.mod_pos_bound (seconds te v) 86400 ltac:(lia)).
    unfold INT64_MIN, INT64_MAX in *. apply time_ok_value; [done | unfold INT64_MIN, INT64_MAX; lia | lia].
  - rewrite (Hn Hn1 : n = true) in *. rewrite cast_date_null.
    by apply null_ok_value.
Qed.

(** The seconds of a limit, as the range computes them. *)
Lemma limit_seconds te k x :
  unitsPerSecond (unit_or_second te) = Some k -> times_ok te x x ->
  (if finer_than_second (unit_or_second te) then Z.quot x k else x) = seconds te x.
Proof.
  intros Ek (_ & _ & Hx). unfold seconds. rewrite (units_some _ _ Ek).
  destruct (finer_than_second _) eqn:E; [|done]. pose proof (finer_units _ E) as U.
  rewrite (units_some _ _ Ek) in U. apply Z.quot_div_nonneg; [by apply Hx | lia].
Qed.

(** A cast between times that changes the precision. *)
Lemma cast_precision_sound te t lo hi b m (R' : range) v r :
  time_cast_ok te t lo hi ->
  (isTimestamp t && negb (same_unit (unit_or_second t) (unit_or_second te)))
    || (isTimestamp te && isDate t) = true ->
  in_range te (IntRange lo hi b m : range) v ->
  getDateTimePrecisionCastRange (IntRange lo hi b m) te t = Ok R' ->
  codegenCast te t v = Ok r -> value_ok t R' r.
Proof.
  intros Hok Hp Hv HR E. pose proof Hok as (Te & Tt & Hn & Ue & Ut & Ht).
  unfold getDateTimePrecisionCastRange in HR. cbn [getIntMin getIntMax hasNulls rbind] in HR.
  assert (Hb : isBoolean te && isBoolean t = false) by (by destruct te, t).
  unfold codegenCast in E. rewrite Hb in E.
  destruct (isTimestamp te && isDate t) eqn:Ed.
  - injection E as <-. apply andb_true_iff in Ed as [Ets Edt].
    destruct t as [| | | |n| | | | | |]; try discriminate.
    destruct (unitsPerSecond (unit_or_second te)) as [k|] eqn:Ek; [|done]. cbn [of_option rbind] in HR.
    destruct (Z.le_gt_cases lo hi) as [Hle|Hgt].
    + destruct (times_ok_value te lo hi lo Ht) as [Hlo _]; [lia|].
      destruct (times_ok_value te lo hi hi Ht) as [Hhi _]; [lia|].
      rewrite !(limit_seconds te k) in HR by done.
      destruct (DateTruncate DT_kDay (seconds te lo)) as [lo'|] eqn:El; [|done].
      destruct (DateTruncate DT_kDay (seconds te hi)) as [hi'|] eqn:Eh; [|done].
      injection HR as <-. by eapply cast_date_sound.
    + destruct (null_time te Te) as [En _]. unfold in_range in Hv. rewrite En in Hv.
      destruct Hv as [[Hv _]|(-> & -> & Hn1)]; [lia|].
      cbn [DateTruncate of_option rbind] in HR. injection HR as <-.
      rewrite (Hn Hn1 : n = true). simpl nullable. rewrite cast_date_null.
      by apply null_ok_value.
  - rewrite orb_false_r in Hp. apply andb_true_iff in Hp as [Ets Es%negb_true_iff].
    assert (Es' : same_unit (unit_or_second te) (unit_or_second t) = false)
      by (by destruct (unit_or_second te), (unit_or_second t)).
    assert (Edt : isDateTime te && isDateTime t = true) by (by destruct te, t).
    assert (Ete : isTimestamp te || isDate te = true) by (by destruct te).
    rewrite Edt, Es' in HR. rewrite Ete, Ets, Es' in E. cbn [andb negb] in HR, E.
    destruct (get_datetime_scaled_epoch_unit lo _ _) as [lo'|] eqn:El; [|done].
    destruct (get_datetime_scaled_epoch_unit hi _ _) as [hi'|] eqn:Eh; [|done].
    injection HR as <-. by eapply cast_timestamps_sound.
Qed.

(** ** Every cast *)

Definition cast_ok (te t : IrType) (R : range) : Prop :=
  (isInteger te = true /\ isInteger t = true /\ width_ok (8 * type_size te) /\
   width_ok (8 * type_size t) /\ (nullable te = true -> nullable t = true)) \/
  (forall lo hi b m, R = IntRange lo hi b m -> time_cast_ok te t lo hi).

Lemma cast_sound te t lo hi b m (R' : range) v r :
  cast_ok te t (IntRange lo hi b m) -> value_ok te (IntRange lo hi b m : range) v ->
  getCastRange t te (IntRange lo hi b m) = Ok R' -> codegenCast te t v = Ok r -> value_ok t R' r.
Proof.
  intros [(Ie & It & We & Wt & Hn)|Hok] Hv HR E.
  - destruct te as [|s n| | | | | | | | |]; try discriminate Ie.
    destruct t as [|s' n'| | | | | | | | |]; try discriminate It.
    injection HR as <-. exact (cast_int_sound s n s' n' lo hi b m v r We Wt Hn Hv E).
  - specialize (Hok _ _ _ _ eq_refl). pose proof Hok as (Te & Tt & Hn & _). unfold getCastRange in HR.
    destruct ((isTimestamp t && negb _) || _) eqn:Hp.
    { exact (cast_precision_sound te t lo hi b m R' v r Hok Hp (proj2 Hv) HR E). }
    apply orb_false_iff in Hp as [P1 P2].
    assert (R' = IntRange lo hi b m /\ r = v) as [-> ->].
    { unfold codegenCast, codegenCastBetweenIntTypes in E. rewrite P2 in E.
      assert (P1' : isTimestamp t && negb (same_unit (unit_or_second te) (unit_or_second t)) = false)
        by (destruct (unit_or_second te), (unit_or_second t); done).
      rewrite <- andb_assoc, P1', andb_false_r in E.
      destruct te, t; try discriminate; cbn in HR, E; by injection HR as <-; injection E as <-. }
    destruct Hv as [W Hv]. destruct (null_time te Te) as [En Es], (null_time t Tt) as [En' Es'].
    unfold value_ok, in_range in *. rewrite En', Es'. rewrite En, Es in *. split; [done|]. tauto.
Qed.

End Casts.
