(* ===== verification/RangeSound.v ===== *)
(** * Ranges narrowed by the filters of a query

    A filter on a column narrows its range to the rows that pass.  The range still contains the
    value of the column in such a row if the filter is on the column itself, in the same place of
    the query, and compares it with a constant of the same unit. *)

From Stdlib Require Import ZArith Lia List Bool.
From stdpp Require Import base list gmap numbers.
From S2P Require Import Prelude ExtractFromTime DateTruncate DateTruncFacts DateAdd DateAddFacts NullableOps.
From S2P Require Import IRExpr ExpressionRange GeneratedCode RangeFacts RangeTimes RangeCasts.
Import ListNotations.
Local Open Scope Z_scope.
Local Open Scope hdk_scope.

(** The comparison of a filter. *)
Definition comparison_holds (op : IrOp) (v c : Z) : Prop :=
  match op with
  | O_kGt => c < v
  | O_kGe => c <= v
  | O_kLt => v < c
  | O_kLe => v <= c
  | O_kEq => v = c
  | _ => True
  end.

Section Quals.
Context {F : Type} `{FpOps F}.
Abbreviation range := (ExpressionRange F).
Variable row : Row F.

(** What is known of the filter [qual] for the column [columnId] of the table in place [rteIdx]:
    it is not about the column, or it holds in the row as a plain comparison. *)
Definition qual_holds (tableId columnId rteIdx : Z) (qual : Expr F) : Prop :=
  match qual with
  | BinOper _ op left_operand (Constant const_type _ value) =>
      forall col_type, qual_column left_operand = Some (col_type, tableId, columnId) ->
      exists c, value = IntVal c /\ INT64_MIN < c < INT64_MAX /\
        (isTimestamp col_type || isTimestamp const_type = true ->
         same_unit (unit_or_second const_type) (unit_or_second col_type) = true) /\
        comparison_holds op (row_column row tableId columnId rteIdx) c
  | _ => True
  end.

Lemma same_unit_scaled v u u' :
  same_unit u u' = true -> get_datetime_scaled_epoch_unit v u u' <> None ->
  get_datetime_scaled_epoch_unit v u u' = Some v.
Proof.
  destruct u, u'; simpl; try discriminate; intros _ Hd; try done;
    unfold get_datetime_scaled_epoch_unit in *; simpl in *; by rewrite Z.quot_1_r.
Qed.

Lemma int_qual_sound t c op (R R' : range) v :
  INT64_MIN < c < INT64_MAX -> comparison_holds op v c -> R <> InvalidRange ->
  value_ok t R v -> apply_int_qual c op R = Ok R' -> value_ok t R' v /\ R' <> InvalidRange.
Proof.
  intros Hc Ho Hi [W Hv] E.
  assert (S1 : s64 (c + 1) = c + 1) by (unfold INT64_MIN, INT64_MAX in Hc; apply s64_small; lia).
  assert (S2 : s64 (c - 1) = c - 1) by (unfold INT64_MIN, INT64_MAX in Hc; apply s64_small; lia).
  destruct R as [|lo hi b n| |]; [done| |done|].
  - unfold in_range in Hv. unfold apply_int_qual in E. rewrite S1, S2 in E.
    destruct op; simpl in Ho; injection E as <-; (split; [split; [done|]|done]); unfold in_range;
      (destruct Hv as [[Hv N]|Hv]; [left; split; [lia | done] | by right]).
  - destruct op; simpl in E; try discriminate E; injection E as <-; by split.
Qed.

Lemma simple_qual_sound t tableId columnId rteIdx (R R' : range) qual :
  let v := row_column row tableId columnId rteIdx in
  qual_holds tableId columnId rteIdx qual -> R <> InvalidRange -> value_ok t R v ->
  apply_simple_qual tableId columnId R qual = Ok R' -> value_ok t R' v /\ R' <> InvalidRange.
Proof.
  intros v Hq Hi Hv E. unfold apply_simple_qual in E.
  assert (Same : Ok R = (Ok R' : result RangeError range) -> value_ok t R' v /\ R' <> InvalidRange)
    by (intros [= <-]; by split).
  destruct qual as [| |bt op l r| | | | | |]; try (by apply Same).
  destruct r as [ct isn value| | | | | | | |]; try (by apply Same).
  destruct (qual_column l) as [[[col_type ti] ci]|] eqn:Eq; [|by apply Same].
  destruct (Z.eqb_spec ti tableId) as [->|]; [|by apply Same].
  destruct (Z.eqb_spec ci columnId) as [->|]; [|by apply Same]. cbn [andb negb] in E.
  destruct (Hq col_type Eq) as (c & -> & Hc & Hu & Ho). fold v in Ho.
  destruct R as [|lo hi b n| |]; [done| |by destruct Hv| ];
    cbn [extract_int rbind] in E;
    (destruct (isTimestamp col_type || isTimestamp ct) eqn:Ets; [|by eapply int_qual_sound]);
    (destruct (isDateTime ct && isDateTime col_type); [|done]); unfold apply_hpt_qual in E;
    (destruct (get_datetime_scaled_epoch_unit c _ _) as [c'|] eqn:Ec; [|done]);
    (rewrite (same_unit_scaled c _ _ (Hu eq_refl)) in Ec by (by rewrite Ec));
    injection Ec as <-; by eapply int_qual_sound.
Qed.

Lemma simple_quals_sound t tableId columnId rteIdx quals :
  let v := row_column row tableId columnId rteIdx in
  Forall (qual_holds tableId columnId rteIdx) quals -> forall R R' : range,
  R <> InvalidRange -> value_ok t R v ->
  apply_quals tableId columnId R quals = Ok R' -> value_ok t R' v /\ R' <> InvalidRange.
Proof.
  intros v Hq. induction Hq as [|q qs Hq Hqs IH]; intros R R' Hi Hv E; simpl in E.
  - injection E as <-. by split.
  - destruct (apply_simple_qual tableId columnId R q) as [R1|] eqn:E1; [|done]. cbn [rbind] in E.
    destruct (simple_qual_sound _ _ _ rteIdx _ _ _ Hq Hi Hv E1) as [Hv1 Hi1].
    by eapply IH.
Qed.

End Quals.

(** * The ranges are sound

    The value that the generated code computes for an expression lies in the range that
    [getExpressionRange] computes for it, and the overflow checks that are left out on account of
    the ranges would have found nothing.  [supported] collects what is needed: numbers that keep
    clear of the null of their type, times for which the calendar does not overflow, divisors
    whose limits have a product in [int64_t], and filters that hold in the row. *)

Section Sound.
Context {F : Type} `{FpOps F}.
Abbreviation range := (ExpressionRange F).
Abbreviation filters := (option (list (Expr F))).
Variables (query_infos : list (@InputTableInfo F)) (ex : @Executor F) (device : Device) (row : Row F).
Abbreviation range_of := (getExpressionRange query_infos ex).
Abbreviation value_of := (codegen query_infos ex device row).

(** An invalid range says nothing. *)
Definition sound_value (t : IrType) (R : range) (v : Z) : Prop := R = InvalidRange \/ value_ok t R v.

(** A value of the type [te] is one of the type [t]. *)
Definition subtype (te t : IrType) : Prop :=
  type_size te = type_size t /\ (nullable te = true -> nullable t = true).

Definition arithmetic (op : IrOp) : bool :=
  match op with O_kPlus | O_kMinus | O_kMul | O_kDiv => true | _ => false end.

Definition is_fp (R : range) : bool := match R with FpRange _ _ _ _ => true | _ => false end.

(** An arithmetic node over integers of one width. *)
Definition arith_supported (t : IrType) (op : IrOp) (l r : Expr F) (q : filters) : Prop :=
  exists s n1 n2,
    expr_type l = IntegerType s n1 /\ expr_type r = IntegerType s n2 /\
    t = IntegerType s (n1 || n2) /\ width_ok (8 * s) /\
    (forall R, range_of (BinOper t op l r) q = Ok R -> null_free t R) /\
    (op = O_kDiv ->
       (forall lo hi b m, range_of r q = Ok (IntRange lo hi b m) -> s64 (lo * hi) = lo * hi) /\
       (null_div_by_zero ex = true -> n1 || n2 = true)).

Definition branch_supported (t : IrType) (e : Expr F) : Prop :=
  subtype (expr_type e) t /\ forall R, range_of e None = Ok R -> is_fp R = false.

Fixpoint supported (q : filters) (e : Expr F) : Prop :=
  match e with
  | Constant t is_null value =>
      forall v, is_null = false -> value = IntVal v ->
      in_width (8 * type_size t) v /\ v <> inline_int_null_value t
  | ColumnVar t ti ci ri vi =>
      (forall R, getColumnRange ex t ti ci ri vi query_infos None = Ok R ->
                 sound_value t R (row_column row ti ci ri)) /\
      (forall quals, q = Some quals -> Forall (qual_holds row ti ci ri) quals)
  | BinOper t op l r =>
      if arithmetic op then
        arith_supported t op l r q /\ supported q l /\ supported q r /\ supported None l /\ supported None r
      else True
  | UOper t op operand =>
      match op with
      | O_kCast =>
          supported q operand /\
          forall R, range_of operand q = Ok R -> cast_ok (expr_type operand) t R
      | _ => True
      end
  | CaseExpr t ps else_expr =>
      (fix all (ps : list (Expr F * Expr F)) : Prop :=
         match ps with
         | [] => True
         | (_, e) :: ps' => branch_supported t e /\ supported None e /\ all ps'
         end) ps
      /\ branch_supported t else_expr /\ supported None else_expr
      /\ (is_null_constant else_expr = true -> nullable t = true /\ width_ok (8 * type_size t))
  | LikeExpr t arg =>
      isBoolean t = true /\ nullable (expr_type arg) = false /\
      (row_like row e = 0 \/ row_like row e = 1)
  | ExtractExpr t field from =>
      exists n, t = IntegerType 8 n /\ (nullable (expr_type from) = true -> n = true) /\
      time_type (expr_type from) = true /\ extract_field_ok (expr_type from) field = true /\
      supported q from /\
      forall R, range_of from q = Ok R ->
      exists lo hi b m, R = IntRange lo hi b m /\ times_ok (expr_type from) lo hi
  | DateTruncExpr t field from =>
      time_type t = true /\ time_type (expr_type from) = true /\
      (nullable (expr_type from) = true -> nullable t = true) /\ supported q from /\
      forall lo hi b m, range_of from q = Ok (IntRange lo hi b m) ->
      times_ok (expr_type from) lo hi /\ trunc_fits (expr_type from) field lo
  | OtherExpr _ => True
  end.

(** ** Leaves *)

Lemma constant_sound t is_null value (R : range) v :
  (forall v, is_null = false -> value = IntVal v ->
     in_width (8 * type_size t) v /\ v <> inline_int_null_value t) ->
  getConstantRange t is_null value = Ok R -> codegenConstant t is_null value = Ok v ->
  sound_value t R v.
Proof.
  intros Hs. unfold getConstantRange, codegenConstant.
  destruct is_null; [by intros [= <-]; left|].
  destruct t; try (by intros [= <-]; left);
    destruct value as [c| |]; simpl; try discriminate; intros [= <-] [= <-];
    destruct (Hs c eq_refl eq_refl) as [W N]; right; (split; [done|]); left; (split; [lia | done]).
Qed.

Lemma quals_invalid ti ci quals (R' : range) :
  apply_quals ti ci InvalidRange quals = Ok R' -> R' = InvalidRange.
Proof.
  induction quals as [|qual quals IH]; simpl; [by intros [= <-]|].
  destruct (apply_simple_qual ti ci InvalidRange qual) as [R1|] eqn:E; [|done]. cbn [rbind].
  enough (R1 = InvalidRange) as -> by done. revert E. unfold apply_simple_qual, apply_hpt_qual, apply_int_qual.
  destruct qual as [| |bt op l r| | | | | |]; try by intros [= <-].
  destruct r as [ct isn value| | | | | | | |]; try by intros [= <-].
  destruct (qual_column l) as [[[col_type ti'] ci']|]; [|by intros [= <-]].
  destruct (negb _); [by intros [= <-]|]. destruct (extract_int value) as [c|]; [|done]. cbn [rbind].
  destruct (_ || _); [destruct (_ && _); [|done]; destruct (get_datetime_scaled_epoch_unit _ _ _); [|done]|];
    cbn [of_option rbind]; destruct op; try discriminate; by intros [= <-].
Qed.

Lemma narrowed_sound t ti ci ri quals (R0 R : range) :
  Forall (qual_holds row ti ci ri) quals -> sound_value t R0 (row_column row ti ci ri) ->
  apply_quals ti ci R0 quals = Ok R -> sound_value t R (row_column row ti ci ri).
Proof.
  intros Hq [-> |Hv] E; [left; by apply quals_invalid in E|].
  destruct (is_invalid R0) eqn:Ei.
  - left. destruct R0; try discriminate Ei. by apply quals_invalid in E.
  - right. assert (Hne : R0 <> InvalidRange) by (intros Er; rewrite Er in Ei; discriminate Ei).
    by apply (simple_quals_sound row t ti ci ri quals Hq R0 R Hne Hv E).
Qed.

Lemma column_sound t ti ci ri (vi : bool) (q : filters) (R : range) :
  (forall R, getColumnRange ex t ti ci ri vi query_infos None = Ok R ->
             sound_value t R (row_column row ti ci ri)) ->
  (forall quals, q = Some quals -> Forall (qual_holds row ti ci ri) quals) ->
  getColumnRange ex t ti ci ri vi query_infos q = Ok R -> sound_value t R (row_column row ti ci ri).
Proof.
  intros Hc Hq. destruct q as [quals|]; [|apply Hc]. specialize (Hq quals eq_refl).
  unfold getColumnRange in *. destruct (_ && _); [|done]. destruct (0 <? ti); [|apply Hc].
  cbn [apply_simple_quals] in *. specialize (Hc _ eq_refl). by eapply narrowed_sound.
Qed.

(** ** Arithmetic *)

Lemma typed_range t (op : IrOp) (l r : Expr F) (q : filters) (R : range) :
  range_of (BinOper t op l r) q = Ok R ->
  R = InvalidRange \/
  exists R1 R2, range_of l q = Ok R1 /\ range_of r q = Ok R2 /\
                getBinOperRange ex op (expr_type l) R1 R2 = Ok R.
Proof.
  cbn [getExpressionRange expr_type]. destruct (negb _); [intros [= <-]; by left|].
  destruct (range_of l q) as [R1|]; [|done]. destruct (range_of r q) as [R2|]; [|done].
  intros E. right. by exists R1, R2.
Qed.

Lemma arith_operands t op (l r : Expr F) v :
  value_of (BinOper t op l r) = Ok v ->
  exists v1 v2, value_of l = Ok v1 /\ value_of r = Ok v2 /\
                codegenArith query_infos ex device t op l r v1 v2 = Ok v.
Proof.
  cbn [codegen]. destruct (value_of l) as [v1|]; [|done]. destruct (value_of r) as [v2|]; [|done].
  intros E. by exists v1, v2.
Qed.

Lemma integer_arith s n1 n2 t op (l r : Expr F) v1 v2 :
  expr_type l = IntegerType s n1 -> expr_type r = IntegerType s n2 ->
  codegenArith query_infos ex device t op l r v1 v2 = codegenIntArith query_infos ex device t op l r v1 v2.
Proof. intros El Er. unfold codegenArith. by rewrite El, Er. Qed.

(** What a node without an overflow check computes is what it would with one. *)
Lemma elision_neutral s n1 n2 t op aop (l r : Expr F) no_check v1 v2 :
  expr_type l = IntegerType s n1 -> expr_type r = IntegerType s n2 -> width_ok (8 * s) ->
  arith_op op = Some aop ->
  (forall R, range_of l None = Ok R -> sound_value (IntegerType s n1) R v1) ->
  (forall R, range_of r None = Ok R -> sound_value (IntegerType s n2) R v2) ->
  checkExpressionRanges query_infos ex t op l r (chosen_min (8 * s)) (chosen_max (8 * s)) = Ok no_check ->
  codegenIntArith query_infos ex device t op l r v1 v2
  = run (codegenAddSubMul device true (8 * s) aop
      (get_null_check_suffix (IntegerType s n1) (IntegerType s n2)) (chosen_min (8 * s)) v1 v2).
Proof.
  intros El Er Hw Ho H1 H2 Ec. unfold codegenIntArith. rewrite El, Er. cbn [isInterval type_size].
  change (inline_int_null_value (IntegerType s n1)) with (chosen_min (8 * s)). rewrite Ec.
  assert (Hop : op = O_kPlus \/ op = O_kMinus \/ op = O_kMul)
    by (unfold arith_op in Ho; destruct op; try discriminate; auto).
  trans (run (codegenAddSubMul device (negb no_check) (8 * s) aop
    (get_null_check_suffix (IntegerType s n1) (IntegerType s n2)) (chosen_min (8 * s)) v1 v2)).
  { destruct Hop as [-> | [-> | ->]]; cbn in Ho; by injection Ho as <-. }
  destruct no_check; [|done]. f_equal. cbn [negb].
  unfold checkExpressionRanges in Ec. destruct (_ || _); [done|]. destruct (isDecimal t); [done|].
  destruct (0 <? _); [|done].
  destruct (range_of (BinOper t op l r) None) as [R|] eqn:ER; [|done]. cbn [rbind] in Ec.
  destruct R as [|lo hi b n| |]; try done. injection Ec as Ec. apply andb_true_iff in Ec as [Hlo Hhi].
  apply typed_range in ER as [?|(R1 & R2 & E1 & E2 & EB)]; [done|].
  assert (EB' : range_operator op R1 R2 = Ok (IntRange lo hi b n))
    by (destruct Hop as [-> | [-> | ->]]; exact EB).
  assert (R1 <> InvalidRange /\ R2 <> InvalidRange) as [N1 N2]
    by (split; intros ->; [|destruct R1]; discriminate EB').
  destruct (H1 R1 E1) as [?|V1]; [done|]. destruct (H2 R2 E2) as [?|V2]; [done|].
  apply (elided_equals_checked device device s n1 n2 op aop R1 R2 lo hi b n v1 v2 Hw Ho V1 V2 EB'); lia.
Qed.

Lemma arith_as_checked s n1 n2 t op aop (l r : Expr F) v1 v2 v :
  expr_type l = IntegerType s n1 -> expr_type r = IntegerType s n2 -> width_ok (8 * s) ->
  arith_op op = Some aop ->
  (forall R, range_of l None = Ok R -> sound_value (IntegerType s n1) R v1) ->
  (forall R, range_of r None = Ok R -> sound_value (IntegerType s n2) R v2) ->
  codegenIntArith query_infos ex device t op l r v1 v2 = Ok v ->
  codegenAddSubMul device true (8 * s) aop
    (get_null_check_suffix (IntegerType s n1) (IntegerType s n2)) (chosen_min (8 * s)) v1 v2 = Ok v.
Proof.
  intros El Er Hw Ho H1 H2 E.
  destruct (checkExpressionRanges query_infos ex t op l r (chosen_min (8 * s)) (chosen_max (8 * s)))
    as [no_check|e] eqn:Ec.
  - rewrite (elision_neutral s n1 n2 t op aop l r no_check) in E by done.
    destruct (codegenAddSubMul _ _ _ _ _ _ _ _); [by injection E as <- | done].
  - exfalso. unfold codegenIntArith in E. rewrite El, Er in E. cbn [isInterval type_size] in E.
    rewrite Ec in E. unfold arith_op in Ho. destruct op; done.
Qed.

Lemma range_div_invalid (R1 R2 : range) flag :
  R1 = InvalidRange \/ R2 = InvalidRange -> range_div R1 R2 flag = InvalidRange.
Proof. intros [-> | ->]; [done|]. by destruct R1. Qed.

Lemma operator_invalid op (R1 R2 R : range) :
  R1 = InvalidRange \/ R2 = InvalidRange -> range_operator op R1 R2 = Ok R -> R = InvalidRange.
Proof. intros [-> | ->]; [|destruct R1]; by intros [= <-]. Qed.

Lemma div_node s n1 n2 t (l r : Expr F) v1 v2 v :
  expr_type l = IntegerType s n1 -> expr_type r = IntegerType s n2 ->
  codegenIntArith query_infos ex device t O_kDiv l r v1 v2 = Ok v ->
  codegenDiv (null_div_by_zero ex) (8 * s)
    (get_null_check_suffix (IntegerType s n1) (IntegerType s n2)) (chosen_min (8 * s)) v1 v2 = Ok v.
Proof.
  intros El Er. unfold codegenIntArith. rewrite El, Er. cbn [isInterval type_size].
  change (inline_int_null_value (IntegerType s n1)) with (chosen_min (8 * s)).
  destruct (codegenDiv _ _ _ _ _ _); [by intros [= <-]|done].
Qed.

Lemma arith_sound t op (l r : Expr F) (q : filters) (R : range) v :
  arithmetic op = true -> arith_supported t op l r q ->
  (forall R v, range_of l q = Ok R -> value_of l = Ok v -> sound_value (expr_type l) R v) ->
  (forall R v, range_of r q = Ok R -> value_of r = Ok v -> sound_value (expr_type r) R v) ->
  (forall R v, range_of l None = Ok R -> value_of l = Ok v -> sound_value (expr_type l) R v) ->
  (forall R v, range_of r None = Ok R -> value_of r = Ok v -> sound_value (expr_type r) R v) ->
  range_of (BinOper t op l r) q = Ok R -> value_of (BinOper t op l r) = Ok v -> sound_value t R v.
Proof.
  intros Ha (s & n1 & n2 & El & Er & -> & Hw & Hf & Hd) Hl Hr Hl0 Hr0 ER EV. specialize (Hf R ER).
  apply arith_operands in EV as (v1 & v2 & E1 & E2 & EV). rewrite (integer_arith s n1 n2) in EV by done.
  apply typed_range in ER as [-> |(R1 & R2 & ER1 & ER2 & EB)]; [by left|].
  specialize (Hl R1 v1 ER1 E1). specialize (Hr R2 v2 ER2 E2). rewrite El in *. rewrite Er in *.
  assert (Hl0' : forall R, range_of l None = Ok R -> sound_value (IntegerType s n1) R v1) by auto.
  assert (Hr0' : forall R, range_of r None = Ok R -> sound_value (IntegerType s n2) R v2) by auto.
  destruct (arith_op op) as [aop|] eqn:Ho.
  - assert (EB' : range_operator op R1 R2 = Ok R) by (destruct op; try discriminate Ho; exact EB).
    destruct Hl as [Hi|V1]; [left; apply (operator_invalid op R1 R2 R); auto|].
    destruct Hr as [Hinv2|V2]; [left; apply (operator_invalid op R1 R2 R); auto|]. right.
    pose proof (arith_as_checked s n1 n2 _ op aop l r v1 v2 v El Er Hw Ho Hl0' Hr0' EV) as Ec.
    exact (checked_sound device s n1 n2 op aop R1 R2 R v1 v2 v Hw Ho V1 V2 EB' Hf Ec).
  - assert (op = O_kDiv) as -> by (destruct op; try discriminate; done).
    destruct (Hd eq_refl) as [Hp Hz]. simpl in EB. injection EB as <-.
    destruct Hl as [Hinv1|V1]; [left; apply range_div_invalid; by left|].
    destruct Hr as [Hinv2|V2]; [left; apply range_div_invalid; by right|].
    destruct (is_invalid (range_div R1 R2 (null_div_by_zero ex))) eqn:Ei.
    { left. by destruct (range_div _ _ _). }
    right. apply (div_node s n1 n2) in EV; [|done|done].
    apply (div_sound (null_div_by_zero ex) s n1 n2 R1 R2 v1 v2 v); try done.
    + intros lo2 hi2 b2 m2 ->. by eapply Hp.
    + intros E. by rewrite E in Ei.
Qed.

(** ** CASE *)

(** The loop over the branches. *)
Fixpoint case_hull (ps : list (Expr F * Expr F)) (expr_range : range) (has_nulls : bool)
    : result RangeError (option (range * bool)) :=
  match ps with
  | [] => Ok (Some (expr_range, has_nulls))
  | (cond, e) :: ps' =>
      if isBoolean (expr_type cond) then
        let* crt_range := range_of e None in
        let* step := case_step crt_range expr_range has_nulls in
        match step with
        | None => Ok None
        | Some (expr_range, has_nulls) => case_hull ps' expr_range has_nulls
        end
      else Err RCheck
  end.

Fixpoint case_value (ps : list (Expr F * Expr F)) (else_expr : Expr F) : result CodeError Z :=
  match ps with
  | [] => value_of else_expr
  | (cond, e) :: ps' => if row_test row cond then value_of e else case_value ps' else_expr
  end.

Fixpoint branches_supported (t : IrType) (ps : list (Expr F * Expr F)) : Prop :=
  match ps with
  | [] => True
  | (_, e) :: ps' => branch_supported t e /\ supported None e /\ branches_supported t ps'
  end.

Lemma case_range_eq t ps else_expr (q : filters) :
  range_of (CaseExpr t ps else_expr) q
  = if negb (typeSupportsRange t) then Ok InvalidRange
    else let* hull := case_hull ps InvalidRange false in
         getCaseRange hull else_expr (fun _ => range_of else_expr None).
Proof. done. Qed.

Lemma case_value_eq t ps else_expr : value_of (CaseExpr t ps else_expr) = case_value ps else_expr.
Proof. cbn [codegen]. by induction ps as [|[c e] ps IH]; [|simpl; rewrite IH]. Qed.

(** A value of the branches so far. *)
Definition covered (t : IrType) (R : range) (n : bool) (v : Z) : Prop :=
  (v = inline_int_null_value t /\ n = true /\ nullable t = true /\ in_width (8 * type_size t) v)
  \/ (value_ok t R v /\ exists lo hi b m, R = IntRange lo hi b m).

Definition hull_shape (R : range) : Prop := R = InvalidRange \/ exists lo hi b m, R = IntRange lo hi b m.

Lemma subtype_value te t (R : range) v : subtype te t -> value_ok te R v -> value_ok t R v.
Proof.
  intros [Es Hn] [W Hv]. unfold value_ok. rewrite <- Es. split; [done|]. revert Hv. unfold in_range.
  assert (En : inline_int_null_value te = inline_int_null_value t) by (unfold inline_int_null_value; by rewrite Es).
  rewrite En. destruct R; try done; tauto.
Qed.

Lemma hull_value t lo hi b m lo' hi' b' m' v :
  value_ok t (IntRange lo hi b m : range) v ->
  lo' <= lo -> hi <= hi' -> (m = true -> m' = true) -> value_ok t (IntRange lo' hi' b' m' : range) v.
Proof.
  intros [W Hv] Hl Hh Hm. split; [done|]. unfold in_range in *.
  destruct Hv as [[Hv N]|(-> & -> & Hn)]; [left; split; [lia | done] | right; auto].
Qed.

Lemma step_shape (Re R R' : range) n n' :
  is_fp Re = false -> hull_shape R -> case_step Re R n = Ok (Some (R', n')) -> hull_shape R'.
Proof.
  intros Hfp Hs E. destruct Re; try discriminate; cbn [case_step] in E; try discriminate E.
  - destruct Hs as [-> |(? & ? & ? & ? & ->)]; injection E as <- <-; right; by eexists _, _, _, _.
  - by injection E as <- <-.
Qed.

(** One step keeps the values so far and adds those of the branch. *)
Lemma step_covers t (Re R R' : range) n n' v :
  is_fp Re = false -> hull_shape R -> case_step Re R n = Ok (Some (R', n')) ->
  covered t R n v \/ sound_value t Re v -> covered t R' n' v.
Proof.
  intros Hfp Hs E Hv. destruct Re as [|lo hi b m| |]; try discriminate.
  - cbn [case_step] in E. destruct Hs as [-> |(lo1 & hi1 & b1 & m1 & ->)]; cbn [is_invalid negb rbind] in E.
    + injection E as <- <-.
      destruct Hv as [[Hn|[_ (? & ? & ? & ? & ?)]]|[?|Hv]]; try done; [by left|].
      right. split; [done | by eexists _, _, _, _].
    + injection E as <- <-.
      destruct Hv as [[Hn|[Hv _]]|[?|Hv]]; try done; [by left| |]; right;
        (split; [|by eexists _, _, _, _]); eapply hull_value; try exact Hv; try lia; intros ->;
        [done | apply orb_true_r].
  - injection E as <- <-.
    destruct Hv as [[(? & ? & ? & ?)|Hv]|[?|[W [-> Hn]]]]; [by left | by right | done | by left].
Qed.

Definition branch_sound (e : Expr F) : Prop :=
  forall (q : filters) R v, supported q e -> range_of e q = Ok R -> value_of e = Ok v ->
  sound_value (expr_type e) R v.

Lemma branch_value t e (Re : range) v :
  branch_sound e -> branch_supported t e -> supported None e -> range_of e None = Ok Re ->
  value_of e = Ok v -> sound_value t Re v.
Proof.
  intros He [Hsub _] Hs ER Ev. destruct (He None Re v Hs ER Ev) as [?|Hu]; [by left | right].
  by eapply subtype_value.
Qed.

Lemma case_hull_covers t ps : forall (R R' : range) n n',
  hull_shape R -> branches_supported t ps -> Forall (fun p => branch_sound (snd p)) ps ->
  case_hull ps R n = Ok (Some (R', n')) ->
  hull_shape R' /\ forall v, covered t R n v \/ (exists p, In p ps /\ value_of (snd p) = Ok v) ->
  covered t R' n' v.
Proof.
  induction ps as [|[c e] ps IH]; intros R R' n n' Hs Hb HF E; simpl in E.
  - injection E as <- <-. split; [done|]. by intros v [?|(p & [] & _)].
  - destruct Hb as (Hbe & Hse & Hb). inversion_clear HF as [|? ? He HF'].
    destruct (isBoolean (expr_type c)); [|done].
    destruct (range_of e None) as [Re|] eqn:ERe; [|done]. cbn [rbind] in E.
    destruct (case_step Re R n) as [[[R1 n1]|]|] eqn:Es; try done. cbn [rbind] in E.
    pose proof (proj2 Hbe Re ERe) as Hfp.
    destruct (IH R1 R' n1 n' (step_shape Re R R1 n n1 Hfp Hs Es) Hb HF' E) as [S1 C1].
    split; [done|]. intros v Hv. apply C1. destruct Hv as [Hv|(p & [<-|Hin] & Hp)].
    + left. exact (step_covers t Re R R1 n n1 v Hfp Hs Es (or_introl Hv)).
    + left. apply (step_covers t Re R R1 n n1 v Hfp Hs Es). right. by eapply branch_value.
    + right. by exists p.
Qed.

Lemma case_value_cases ps else_expr v :
  case_value ps else_expr = Ok v ->
  (exists p, In p ps /\ value_of (snd p) = Ok v) \/ value_of else_expr = Ok v.
Proof.
  induction ps as [|[c e] ps IH]; simpl; [by right|]. destruct (row_test row c).
  - intros E. left. exists (c, e). auto.
  - intros E. destruct (IH E) as [(p & Hp & Ep)|?]; [left; exists p; auto | by right].
Qed.

Lemma covered_setHasNulls t (R : range) n v :
  covered t R n v -> hull_shape R ->
  sound_value t (if n then setHasNulls R else R) v /\
  hull_shape (if n then setHasNulls R else R).
Proof.
  intros Hc Hs. destruct Hs as [-> |(lo & hi & b & m & ->)].
  { split; [left; by destruct n | left; by destruct n]. }
  split; [|right; destruct n; by eexists _, _, _, _]. right.
  destruct Hc as [(-> & -> & Hn & W)|[Hv _]].
  - split; [done | by right].
  - destruct n; [|done]. by eapply hull_value; [exact Hv | lia | lia | ].
Qed.

(** The hull of two ranges has the values of both. *)
Lemma range_or_sound t (R1 R2 R : range) v :
  hull_shape R1 -> is_fp R2 = false -> range_or R1 R2 = Ok R ->
  sound_value t R1 v \/ sound_value t R2 v -> sound_value t R v.
Proof.
  intros [-> |(lo & hi & b & m & ->)] Hfp E Hv.
  { left. destruct R2; simpl in E; by injection E. }
  destruct R2 as [|lo2 hi2 b2 m2| |]; try discriminate Hfp; simpl in E; injection E as <-; try by left.
  right. destruct Hv as [[?|Hv]|[?|Hv]]; try done; eapply hull_value; try exact Hv; try lia; intros ->;
    [done | apply orb_true_r].
Qed.

Lemma null_constant_value e v :
  is_null_constant e = true -> value_of e = Ok v -> v = inline_int_null_value (expr_type e).
Proof. destruct e as [t [|] d| | | | | | | |]; try done. by intros _ [= <-]. Qed.

Lemma set_null_sound t (R : range) :
  hull_shape R -> nullable t = true -> width_ok (8 * type_size t) ->
  sound_value t (setHasNulls R) (inline_int_null_value t).
Proof.
  intros [-> |(lo & hi & b & m & ->)] Hn Hw; [by left | right].
  split; [exact (in_width_min _ Hw) | by right].
Qed.

Lemma case_sound t ps else_expr (q : filters) (R : range) v :
  Forall (fun p => branch_sound (snd p)) ps -> branch_sound else_expr ->
  branches_supported t ps -> branch_supported t else_expr -> supported None else_expr ->
  (is_null_constant else_expr = true -> nullable t = true /\ width_ok (8 * type_size t)) ->
  range_of (CaseExpr t ps else_expr) q = Ok R -> value_of (CaseExpr t ps else_expr) = Ok v ->
  sound_value t R v.
Proof.
  intros HF He Hb Hbe Hse Hnull ER EV. rewrite case_range_eq in ER. rewrite case_value_eq in EV.
  destruct (negb _); [injection ER as <-; by left|].
  destruct (case_hull ps InvalidRange false) as [[[R0 n]|]|] eqn:EH; try done;
    cbn [rbind getCaseRange] in ER; [|injection ER as <-; by left].
  destruct (case_hull_covers t ps InvalidRange R0 false n (or_introl eq_refl) Hb HF EH) as [S0 C0].
  set (R1 := if n then setHasNulls R0 else R0) in *.
  assert (S1 : hull_shape R1).
  { destruct S0 as [E0|(lo & hi & b & m & E0)]; unfold R1; rewrite E0; destruct n;
      [by left | by left | right; by eexists _, _, _, _ | right; by eexists _, _, _, _]. }
  assert (Hbr : (exists p, In p ps /\ value_of (snd p) = Ok v) -> sound_value t R1 v)
    by (intros Hp; by apply covered_setHasNulls; [apply C0; right|]).
  apply case_value_cases in EV as [EV|EV].
  - specialize (Hbr EV). destruct (is_null_constant else_expr) eqn:En.
    + injection ER as <-. destruct S1 as [->|(lo & hi & b & m & E1)]; [by left|].
      rewrite E1 in *. destruct Hbr as [?|Hv]; [done | right]. by eapply hull_value; [exact Hv | lia | lia |].
    + destruct (range_of else_expr None) as [Re|] eqn:Ee; [|done]. cbn [rbind] in ER.
      eapply range_or_sound; [exact S1 | exact (proj2 Hbe Re Ee) | exact ER | by left].
  - destruct (is_null_constant else_expr) eqn:En.
    + injection ER as <-. rewrite (null_constant_value _ _ En EV). destruct (Hnull eq_refl) as [Hn Hw].
      unfold inline_int_null_value. rewrite (proj1 (proj1 Hbe)). by apply set_null_sound.
    + destruct (range_of else_expr None) as [Re|] eqn:Ee; [|done]. cbn [rbind] in ER.
      eapply range_or_sound; [exact S1 | exact (proj2 Hbe Re Ee) | exact ER | right].
      by eapply branch_value.
Qed.

(** ** Other nodes *)

Lemma cast_node_sound t operand (q : filters) (R : range) v :
  branch_sound operand -> supported q operand ->
  (forall R, range_of operand q = Ok R -> cast_ok (expr_type operand) t R) ->
  range_of (UOper t O_kCast operand) q = Ok R -> value_of (UOper t O_kCast operand) = Ok v ->
  sound_value t R v.
Proof.
  intros IH Hs Hc ER EV. cbn [getExpressionRange expr_type] in ER.
  destruct (negb (typeSupportsRange t)); [injection ER as <-; by left|].
  assert (EV' : exists v1, value_of operand = Ok v1 /\ codegenCast (expr_type operand) t v1 = Ok v).
  { cbn [codegen] in EV. destruct t; try discriminate EV;
      (destruct (value_of operand) as [v1|]; [|discriminate EV]); cbn [rbind] in EV;
      (destruct (integer_valued _); [|discriminate EV]); exists v1; (split; [done|]);
      destruct (codegenCast _ _ _); try discriminate EV; by injection EV as <-. }
  destruct EV' as (v1 & E1 & Ec).
  assert (ER' : (let* arg_range := range_of operand q in getCastRange t (expr_type operand) arg_range) = Ok R).
  { destruct t; try exact ER. cbn [codegen] in EV. discriminate EV. }
  clear ER. destruct (range_of operand q) as [R1|] eqn:E; [|done]. cbn [rbind] in ER'.
  specialize (Hc R1 eq_refl). specialize (IH q R1 v1 Hs E E1).
  assert (Hnone : getIntMin R1 = Err RCheck ->
                  getDateTimePrecisionCastRange R1 (expr_type operand) t = Ok R -> False).
  { intros Emin. unfold getDateTimePrecisionCastRange. rewrite Emin. cbn [rbind].
    destruct (_ && _); [by destruct (unitsPerSecond _)|]. by destruct (_ && _). }
  destruct R1 as [|lo hi b m| |].
  - left. unfold getCastRange in ER'. destruct (_ || _); [by destruct (Hnone eq_refl)|by injection ER'].
  - destruct IH as [?|Hv]; [done | right]. by eapply cast_sound.
  - by destruct IH as [?|[_ []]].
  - unfold getCastRange in ER'. destruct (_ || _); [by destruct (Hnone eq_refl)|done].
Qed.

Lemma extract_node_sound t field from (q : filters) (R : range) v :
  branch_sound from -> supported q (ExtractExpr t field from) ->
  range_of (ExtractExpr t field from) q = Ok R -> value_of (ExtractExpr t field from) = Ok v ->
  sound_value t R v.
Proof.
  intros IH (n & -> & Hn & Ht & Hf & Hs & Hr) ER EV. cbn [getExpressionRange expr_type codegen] in *.
  destruct (negb _); [injection ER as <-; by left|].
  destruct (range_of from q) as [R1|] eqn:E; [|done]. destruct (value_of from) as [v1|] eqn:E1; [|done].
  cbn [rbind] in *. injection EV as <-. destruct (Hr R1 eq_refl) as (lo & hi & b & m & -> & Hok).
  destruct (IH q _ v1 Hs E E1) as [?|[_ Hv]]; [done | right]. by eapply extract_sound.
Qed.

Lemma trunc_node_sound t field from (q : filters) (R : range) v :
  branch_sound from -> supported q (DateTruncExpr t field from) ->
  range_of (DateTruncExpr t field from) q = Ok R -> value_of (DateTruncExpr t field from) = Ok v ->
  sound_value t R v.
Proof.
  intros IH (Ht & Hfrom & Hn & Hs & Hr) ER EV. cbn [getExpressionRange expr_type codegen] in *.
  destruct (negb _); [injection ER as <-; by left|].
  destruct (range_of from q) as [R1|] eqn:E; [|done]. destruct (value_of from) as [v1|] eqn:E1; [|done].
  cbn [rbind] in *. destruct (codegenDateTrunc _ _ _) as [r|] eqn:Er; [|done]. injection EV as <-.
  destruct R1 as [|lo hi b m| |]; try done; [by injection ER as <-; left|].
  destruct (Hr _ _ _ _ eq_refl) as [Hok Hfit].
  destruct (IH q _ v1 Hs E E1) as [?|[_ Hv]]; [done | right]. by eapply trunc_sound.
Qed.

Lemma like_node_sound t arg (q : filters) (R : range) v :
  supported q (LikeExpr t arg) ->
  range_of (LikeExpr t arg) q = Ok R -> value_of (LikeExpr t arg) = Ok v -> sound_value t R v.
Proof.
  intros (Hb & Hn & Hv) ER EV. cbn [getExpressionRange codegen] in *.
  destruct (negb _); [injection ER as <-; by left|].
  unfold getLikeRange in ER. cbn [expr_type] in ER. rewrite Hb, Hn in ER. injection ER as <-.
  injection EV as <-. destruct t; try discriminate Hb. right. unfold value_ok, in_range, in_width.
  change (inline_int_null_value (BooleanType n)) with (-128). cbn [type_size]. change (2 ^ (8 * 1 - 1)) with 128.
  split; [lia|]. left. lia.
Qed.

(** Every value of the generated code lies in the range of the expression. *)
Lemma range_sound e : branch_sound e.
Proof.
  induction e using Expr_branches_ind; intros q R val Hs ER EV.
  - cbn [getExpressionRange expr_type codegen supported] in *.
    destruct (negb _); [injection ER as <-; by left | by eapply constant_sound].
  - cbn [getExpressionRange expr_type codegen supported] in *. destruct Hs as [Hc Hq].
    injection EV as <-. destruct (negb _); [injection ER as <-; by left | by eapply column_sound].
  - cbn [supported expr_type] in *. destruct (arithmetic op) eqn:Ea.
    + destruct Hs as (Ha & S1 & S2 & S3 & S4). eapply arith_sound; eauto.
    + left. apply typed_range in ER as [?|(R1 & R2 & _ & _ & EB)]; [done|].
      destruct op; try discriminate Ea; by injection EB as <-.
  - destruct op; try (cbn [getExpressionRange expr_type] in ER; destruct (negb _); injection ER as <-; by left).
    + cbn [supported expr_type] in *. destruct Hs as [Hs Hc]. by eapply cast_node_sound.
    + cbn [codegen] in EV. discriminate EV.
  - destruct Hs as (Hb & Hbe & Hse & Hn). cbn [expr_type].
    assert (Hb' : branches_supported t ps).
    { clear - Hb. induction ps as [|[c e'] ps IH]; simpl in *; [done | tauto]. }
    refine (case_sound t ps e q R val _ IHe Hb' Hbe Hse Hn ER EV).
    match goal with Hps : Forall _ ps |- _ => revert Hps end.
    apply List.Forall_impl. by intros p [_ ?].
  - by eapply like_node_sound.
  - by eapply extract_node_sound.
  - by eapply trunc_node_sound.
  - discriminate EV.
Qed.

End Sound.
