(* ===== verification/RangeProps.v ===== *)
(** * What the range analysis and the generated integer code guarantee *)

From Stdlib Require Import ZArith Lia List Bool.
From stdpp Require Import base list gmap numbers.
From S2P Require Import Prelude ExtractFromTime ExtractFacts DateTruncate DateTruncFacts DateAdd NullableOps IRExpr ExpressionRange.
From S2P Require Import GeneratedCode RangeFacts RangeTimes RangeCasts RangeSound.
Import ListNotations.
Local Open Scope Z_scope.
Local Open Scope hdk_scope.

Section Guarantees.
Context {F : Type} `{FpOps F}.
Variables (query_infos : list (@InputTableInfo F)) (ex : @Executor F) (row : Row F).


(** [C31] Integer arithmetic on [supported] operands (see [getExpressionRange_sound]) of one width, the
    least integer of which only nullable operands have, as their null, never wraps around silently:
    the code of an addition, subtraction or multiplication, with the check of a CPU, with that of a
    GPU or with none where the ranges allow to leave it out, gives null if an operand is null, the
    exact result if that fits the width (the least integer too, which then reads as null), and the
    overflow error of the executor otherwise. *)
Theorem arithmetic_exact device s n1 n2 t op aop (l r : Expr F) v1 v2 no_check :
  expr_type l = IntegerType s n1 -> expr_type r = IntegerType s n2 -> width_ok (8 * s) ->
  arith_op op = Some aop ->
  supported query_infos ex row None l -> supported query_infos ex row None r ->
  codegen query_infos ex device row l = Ok v1 -> codegen query_infos ex device row r = Ok v2 ->
  in_width (8 * s) v1 -> in_width (8 * s) v2 ->
  (v1 = chosen_min (8 * s) -> n1 = true) -> (v2 = chosen_min (8 * s) -> n2 = true) ->
  checkExpressionRanges query_infos ex t op l r (chosen_min (8 * s)) (chosen_max (8 * s)) = Ok no_check ->
  codegen query_infos ex device row (BinOper t op l r)
  = if some_null (8 * s) v1 v2 then Ok (chosen_min (8 * s))
    else if fits (8 * s) (exact_of aop v1 v2) then Ok (exact_of aop v1 v2)
    else Err (RunError ERR_OVERFLOW_OR_UNDERFLOW).
Proof.
  intros El Er Hw Ho Sl Sr E1 E2 W1 W2 N1 N2 Ec.
  assert (H1 : forall R, getExpressionRange query_infos ex l None = Ok R -> sound_value (IntegerType s n1) R v1)
    by (intros R HR; rewrite <- El; exact (range_sound query_infos ex device row l None R v1 Sl HR E1)).
  assert (H2 : forall R, getExpressionRange query_infos ex r None = Ok R -> sound_value (IntegerType s n2) R v2)
    by (intros R HR; rewrite <- Er; exact (range_sound query_infos ex device row r None R v2 Sr HR E2)).
  destruct (arith_op_exact op aop v1 v2 Ho) as (Ha & _).
  cbn [codegen]. rewrite E1, E2. cbn [rbind]. rewrite (integer_arith query_infos ex device s n1 n2) by done.
  rewrite (elision_neutral query_infos ex device s n1 n2 t op aop l r no_check) by done.
  rewrite checked_arith_spec; [|done|done|done|done|].
  - destruct (some_null _ _ _); [done|]. by destruct (fits _ _).
  - split; intros E; [specialize (N1 E) | specialize (N2 E)]; unfold get_null_check_suffix; simpl;
      destruct n1, n2; auto; done.
Qed.

(** The range of a column that is computed from the statistics of the chunks contains every
    value of the column that the statistics of its own fragment admit, whatever other fragments
    there are; null is one of them only if the range has nulls. *)
Theorem leaf_column_range t table_id col_id info outer f s R v :
  isFloatingPoint t = false -> elem_type t = t ->
  List.find (fun i => table_id =? ExpressionRange.table_id i) query_infos = Some info ->
  info_numTuples info <> 0 -> In f (fragments info) -> isEmptyPhysicalFragment f = false ->
  chunkMetadataMap f !! col_id = Some s -> in_chunk t s v ->
  getLeafColumnRange t table_id col_id false query_infos outer = Ok R ->
  in_range t R v.
Proof. exact (leaf_sound t table_id col_id query_infos info outer f s R v). Qed.

End Guarantees.

(** ** Witnesses *)

(** Integers in place of floating-point numbers, which the examples do not have. *)
Definition fp_int : FpOps Z := {|
  fp_arith := fun _ _ _ _ => None;
  fp_min := Z.min; fp_max := Z.max; fp_eqb := Z.eqb; fp_ltb := Z.ltb;
  fp_of_int := fun z => z; fp_of_decimal := Z.quot; fp_floor := fun z => z; fp_ceil := fun z => z
|}.

Module Example.
#[local] Existing Instance fp_int.

(** A table with a column of timestamps in seconds, from 1970 to 2023, some null. *)
Definition info : @InputTableInfo Z := {| table_id := 1; info_numTuples := 3; fragments := [] |}.
Definition ex : @Executor Z := {|
  getColRange := fun _ _ => IntRange 0 1700000000 0 true;
  containsLeftDeepOuterJoin := false;
  null_div_by_zero := false;
  getIdOfString := fun _ _ => 0
|}.
Definition row (v : Z) : Row Z :=
  {| row_column := fun _ _ _ => v; row_test := fun _ => true; row_like := fun _ => 1 |}.

Definition ts : Expr Z := ColumnVar (TimestampType TU_kSecond true) 1 1 0 false.
Definition year : Expr Z := ExtractExpr (IntegerType 8 true) DE_kYear ts.
Definition month : Expr Z := ExtractExpr (IntegerType 8 true) DE_kMonth ts.
Definition hundred : Expr Z := Constant (IntegerType 8 false) false (IntVal 100).
(** [EXTRACT(YEAR FROM ts) * 100 + EXTRACT(MONTH FROM ts)]. *)
Definition century_year : Expr Z := BinOper (IntegerType 8 true) O_kMul year hundred.
Definition period : Expr Z := BinOper (IntegerType 8 true) O_kPlus century_year month.

Lemma ts_supported v :
  0 <= v <= 1700000000 \/ v = INT64_MIN -> supported [info] ex (row v) None ts.
Proof.
  intros Hv. split; [|discriminate]. intros R [= <-]. right. split.
  - unfold in_width. simpl. unfold INT64_MIN in Hv. lia.
  - simpl. unfold inline_int_null_value. simpl. unfold INT64_MIN in Hv.
    destruct Hv as [Hv| ->]; [left; lia | by right].
Qed.

Lemma extract_supported v field :
  field = DE_kYear \/ field = DE_kMonth -> 0 <= v <= 1700000000 \/ v = INT64_MIN ->
  supported [info] ex (row v) None (ExtractExpr (IntegerType 8 true) field ts).
Proof.
  intros Hf Hv. exists true. repeat (split; [done|]). split; [by destruct Hf as [-> | ->]|].
  split; [by apply ts_supported|]. intros R [= <-]. exists 0, 1700000000, 0, true. split; [done|].
  unfold times_ok, trunc_ok, INT64_MIN, INT64_MAX. simpl. repeat split; try lia.
Qed.

Lemma century_supported v :
  0 <= v <= 1700000000 \/ v = INT64_MIN -> supported [info] ex (row v) None century_year.
Proof.
  intros Hv. pose proof (extract_supported v DE_kYear (or_introl eq_refl) Hv) as Sy.
  assert (Sh : supported [info] ex (row v) None hundred) by (intros c _ [= <-]; by vm_compute).
  simpl. split; [|auto]. exists 8, true, false. repeat (split; [done|]). split; [by vm_compute; auto|].
  split; [|done]. intros R. vm_compute. by intros [= <-].
Qed.

Lemma period_supported v :
  0 <= v <= 1700000000 \/ v = INT64_MIN -> supported [info] ex (row v) None period.
Proof.
  intros Hv. pose proof (century_supported v Hv) as Sc.
  pose proof (extract_supported v DE_kMonth (or_intror eq_refl) Hv) as Sm.
  change (if arithmetic O_kPlus then arith_supported [info] ex (IntegerType 8 true) O_kPlus century_year month None /\
    supported [info] ex (row v) None century_year /\ supported [info] ex (row v) None month /\
    supported [info] ex (row v) None century_year /\ supported [info] ex (row v) None month else True).
  split; [|auto]. exists 8, true, true. repeat (split; [done|]). split; [by vm_compute; auto|].
  split; [|done]. intros R. vm_compute. by intros [= <-].
Qed.


(** [100 + 100] in [int8_t], and the period above, whose additions have no check. *)
Definition hundred8 : Expr Z := Constant (IntegerType 1 false) false (IntVal 100).

Lemma arithmetic_exact_witness :
  codegen [info] ex OnGPU (row 0) (BinOper (IntegerType 1 false) O_kPlus hundred8 hundred8)
  = Err (RunError ERR_OVERFLOW_OR_UNDERFLOW) /\
  codegen [info] ex OnCPU (row 1699999999) period = Ok 202311.
Proof.
  assert (S8 : supported [info] ex (row 0) None hundred8) by (intros c _ [= <-]; by vm_compute).
  split.
  - exact (arithmetic_exact [info] ex (row 0) OnGPU 1 false false (IntegerType 1 false) O_kPlus OpAdd
      hundred8 hundred8 100 100 false eq_refl eq_refl (or_introl eq_refl) eq_refl S8 S8 eq_refl eq_refl
      ltac:(by vm_compute) ltac:(by vm_compute) ltac:(done) ltac:(done) eq_refl).
  - pose proof (century_supported 1699999999 ltac:(lia)) as Sc.
    pose proof (extract_supported 1699999999 DE_kMonth (or_intror eq_refl) ltac:(lia)) as Sm.
    exact (arithmetic_exact [info] ex (row 1699999999) OnCPU 8 true true (IntegerType 8 true) O_kPlus OpAdd
      century_year month 202300 11 true eq_refl eq_refl (or_intror (or_intror (or_intror eq_refl))) eq_refl
      Sc Sm eq_refl eq_refl
      ltac:(by vm_compute) ltac:(by vm_compute) ltac:(done) ltac:(done) eq_refl).
Defined.

(** A column with two chunks, one of which has nulls. *)
Definition chunk (lo hi : Z) (n : bool) : @FragmentInfo Z :=
  {| physicalTableId := 2; frag_numTuples := 10;
     chunkMetadataMap := {[ 1 := mkChunkStats (IntVal lo) (IntVal hi) n ]} |}.
Definition chunks : @InputTableInfo Z :=
  {| table_id := 2; info_numTuples := 20; fragments := [chunk 5 9 false; chunk (-3) 6 true] |}.

Lemma leaf_column_range_witness :
  in_range (IntegerType 4 true) (IntRange (-3) 9 0 true : ExpressionRange Z) 8.
Proof.
  apply (leaf_column_range [chunks] (IntegerType 4 true) 2 1 chunks false (chunk 5 9 false)
    (mkChunkStats (IntVal 5) (IntVal 9) false)); try reflexivity; try (by vm_compute).
  - by left.
  - left. exists 5, 9. split; [done|]. split; [done|]. split; [lia|by vm_compute].
Defined.

(** ** Where the range and the code part *)

(** The milliseconds of a time are those since the minute. *)
Lemma extract_milli_outside :
  getExtractRange DE_kMilli (TimestampType TU_kMilli false) (IntRange 0 59999 0 false : ExpressionRange Z)
  = Ok (IntRange 0 999 0 false) /\
  codegenExtract (TimestampType TU_kMilli false) DE_kMilli 59999 = 59999.
Proof. done. Qed.

(** The epoch is in seconds, its range in the unit of the argument. *)
Lemma extract_epoch_outside :
  getExtractRange DE_kEpoch (TimestampType TU_kMilli false) (IntRange 5000 5000 0 false : ExpressionRange Z)
  = Ok (IntRange 5000 5000 0 false) /\
  codegenExtract (TimestampType TU_kMilli false) DE_kEpoch 5000 = 5.
Proof. done. Qed.

(** The product of the limits of the divisor wraps around. *)
Lemma range_div_outside :
  range_div (IntRange 100 100 0 false) (IntRange (-3) (2 ^ 62) 0 false) false
  = (IntRange (-33) 0 0 false : ExpressionRange Z) /\
  codegenDiv false 64 NoSuffix INT64_MIN 100 1 = Ok 100.
Proof. done. Qed.

(** A time before 1970: the range and the code of a type without nulls round to zero, the code of
    a type with nulls down. *)
Lemma precision_cast_before_1970 :
  getCastRange (TimestampType TU_kSecond true) (TimestampType TU_kMilli true)
    (IntRange (-1) (-1) 0 false : ExpressionRange Z) = Ok (IntRange 0 0 0 false) /\
  codegenCast (TimestampType TU_kMilli true) (TimestampType TU_kSecond true) (-1) = Ok (-1) /\
  codegenCast (TimestampType TU_kMilli false) (TimestampType TU_kSecond false) (-1) = Ok 0.
Proof. done. Qed.

Lemma extract_year_before_1970 :
  getExtractRange DE_kYear (TimestampType TU_kMilli true) (IntRange (-1) (-1) 0 false : ExpressionRange Z)
  = Ok (IntRange 1970 1970 0 false) /\
  codegenExtract (TimestampType TU_kMilli true) DE_kYear (-1) = 1969.
Proof. done. Qed.

(** The filter [CAST(ts AS DATE) = d] narrows the timestamp to the midnight of [d]. *)
Lemma date_filter_outside :
  apply_simple_qual 1 1 (IntRange 0 1700000000 0 false : ExpressionRange Z)
    (BinOper (BooleanType false) O_kEq (UOper (DateType false) O_kCast ts)
       (Constant (DateType false) false (IntVal 86400)))
  = Ok (IntRange 86400 86400 0 false) /\
  codegenCast (TimestampType TU_kSecond true) (DateType true) 90000 = Ok 86400.
Proof. done. Qed.

(** A filter on one instance of a table narrows the column of another instance, too. *)
Lemma self_join_filter_narrows :
  let other : Expr Z := ColumnVar (TimestampType TU_kSecond true) 1 1 1 false in
  getExpressionRange [info; info] ex other
    (Some [BinOper (BooleanType false) O_kGt ts
             (Constant (TimestampType TU_kSecond false) false (IntVal 1600000000))])
  = Ok (IntRange 1600000001 1700000000 0 true).
Proof. done. Qed.

(** A cast between units of an expression without a range fails a [CHECK]. *)
Lemma precision_cast_invalid :
  getCastRange (TimestampType TU_kSecond true) (TimestampType TU_kMilli true)
    (InvalidRange : ExpressionRange Z) = Err RCheck.
Proof. done. Qed.

(** The null of LIKE is a number of its range, and leaves the range when it is widened. *)
Lemma like_null_widened :
  getLikeRange (BooleanType true) (TextType true) = Ok (IntRange (-128) 1 0 false : ExpressionRange Z) /\
  getCastRange (IntegerType 4 true) (BooleanType true) (IntRange (-128) 1 0 false : ExpressionRange Z)
  = Ok (IntRange (-128) 1 0 false) /\
  codegenCast (BooleanType true) (IntegerType 4 true) (-128) = Ok (- 2 ^ 31).
Proof. done. Qed.

(** The inner table of an outer join is temporary and empty: its columns are null, and have no
    nulls in their range. *)
Lemma empty_outer_table :
  getLeafColumnRange (IntegerType 4 true) 0 1 false
    [{| table_id := 0; info_numTuples := 0; fragments := [] |}] true
  = Ok (IntRange 0 (-1) 0 false : ExpressionRange Z).
Proof. done. Qed.

(** The result of a checked addition is the null of the type. *)
Lemma null_sentinel_result :
  codegenAddSubMul OnCPU true 8 OpAdd Suffix_nullable (-128) (-100) (-28) = Ok (-128).
Proof. done. Qed.

(** The check of a multiplication on a GPU. *)
Lemma gpu_mul_limits :
  codegenAddSubMul OnGPU true 8 OpMul NoSuffix (-128) (-128) (-1) = Ok (-128) /\
  codegenAddSubMul OnCPU true 8 OpMul NoSuffix (-128) (-128) (-1) = Err ERR_OVERFLOW_OR_UNDERFLOW /\
  codegenAddSubMul OnGPU true 8 OpMul NoSuffix (-128) 1 (-128) = Err ERR_OVERFLOW_OR_UNDERFLOW /\
  codegenAddSubMul OnCPU true 8 OpMul NoSuffix (-128) 1 (-128) = Ok (-128).
Proof. done. Qed.

(** A null divided by zero is null, its remainder an error. *)
Lemma null_modulo_zero :
  codegenDiv false 64 Suffix_nullable INT64_MIN INT64_MIN 0 = Ok INT64_MIN /\
  codegenMod 64 Suffix_nullable INT64_MIN INT64_MIN 0 = Err ERR_DIV_BY_ZERO.
Proof. done. Qed.

(** The dividend of a division of decimals is checked from above only. *)
Lemma decimal_upscale_underflow :
  codegenDecimalUpscale false NoSuffix 100 INT64_MIN 100000000000000000 1 = Err ERR_OVERFLOW_OR_UNDERFLOW /\
  codegenDecimalUpscale false NoSuffix 100 INT64_MIN (-100000000000000000) 1 = Ok 8446744073709551616.
Proof. done. Qed.

(** The millennium of a time in nanoseconds is out of range. *)
Lemma millennium_nanoseconds :
  codegenDateTrunc (TimestampType TU_kNano false) DT_kMillennium 0
  = Some (s64 (-30578688000 * 1000000000)) /\
  (-30578688000 * 1000000000 < INT64_MIN).
Proof. done. Qed.

End Example.
