(* ===== verification/FilterCode.v ===== *)
(** * Filters ([RelAlgTranslator.cpp], [LogicalIR.cpp], [CompareIR.cpp], [NativeCodegen.cpp],
    [ExpressionRewrite.cpp])

    A WHERE condition is split into its conjuncts, disjunctions of equalities in them are
    rewritten to IN, the conjuncts are put in an order of evaluation, and code is generated for
    each: comparisons, AND, OR, NOT, IS NULL over the integer code of [GeneratedCode.v].  A
    Boolean is 0, 1 or, as a byte, the null -128; LLVM's one-bit Booleans are 0 and 1 as well,
    since they are zero-extended.

    The likelihoods that steer the order of evaluation are floating-point numbers of a type [L]
    with the operations of [LikelihoodOps]. *)

From Stdlib Require Import ZArith Lia List Bool.
From stdpp Require Import base list numbers.
From S2P Require Import Prelude ExtractFromTime DateTruncate DateAdd NullableOps IRExpr ExpressionRange GeneratedCode.
Import ListNotations.
Local Open Scope Z_scope.
Local Open Scope hdk_scope.

(** ** Estimates ([NullableValue.h]) *)

Record NullableValue (T : Type) := mkNullableValue { isValid : bool; nv_value : T }.
Arguments mkNullableValue {T}.
Arguments isValid {T}.
Arguments nv_value {T}.

Definition nv_binary {T : Type} (default : T) (op : T -> T -> T) (a b : NullableValue T)
    : NullableValue T :=
  if negb (isValid a) && negb (isValid b) then mkNullableValue false default
  else mkNullableValue true (op (nv_value a) (nv_value b)).

(** The operators with a plain number on the right. *)
Definition nv_plain {T : Type} (default : T) (op : T -> T -> T) (a : NullableValue T) (v : T)
    : NullableValue T :=
  if negb (isValid a) then mkNullableValue false default else mkNullableValue true (op (nv_value a) v).

Class LikelihoodOps (L : Type) := {
  l_add : L -> L -> L; l_sub : L -> L -> L; l_mul : L -> L -> L; l_div : L -> L -> L;
  l_ltb : L -> L -> bool;
  l_half : L; l_one : L; l_two : L; l_tenth : L; l_ninety : L;
}.

#[export] Instance TimeUnit_eq_dec : EqDecision TimeUnit.
Proof. solve_decision. Defined.
#[export] Instance IrType_eq_dec : EqDecision IrType.
Proof. solve_decision. Defined.
#[export] Instance IrOp_eq_dec : EqDecision IrOp.
Proof. solve_decision. Defined.
#[export] Instance DateExtractField_eq_dec : EqDecision DateExtractField.
Proof. solve_decision. Defined.
#[export] Instance DateTruncField_eq_dec : EqDecision DateTruncField.
Proof. solve_decision. Defined.

Section Filters.
Context {F L : Type} `{FpOps F} `{LikelihoodOps L}.

(** What the IR keeps of the expressions that are [OtherExpr] and [LikeExpr] here. *)
Record ExprInfo := mkExprInfo {
  likelihood_of : Expr F -> option L;      (* a [LikelihoodExpr] *)
  likelihood_arg : Expr F -> Expr F;       (* its argument *)
  same_rest : Expr F -> Expr F -> bool;    (* [==] of what is not in [OtherExpr] and [LikeExpr] *)
  isRegexpExpr : Expr F -> bool;
  isFunctionOper : Expr F -> bool;
  isSimple : Expr F -> bool;               (* of a LIKE *)
}.
Variable info : ExprInfo.

(** ** Conjuncts ([RelAlgTranslator.cpp]) *)

Definition isComparison (op : IrOp) : bool :=
  match op with
  | O_kEq | O_kBwEq | O_kNe | O_kLt | O_kGt | O_kLe | O_kGe => true
  | _ => false
  end.

Definition is_constant (e : Expr F) : bool := match e with Constant _ _ _ => true | _ => false end.
Definition is_column (e : Expr F) : bool := match e with ColumnVar _ _ _ _ _ => true | _ => false end.
Definition is_uoper (e : Expr F) : bool := match e with UOper _ _ _ => true | _ => false end.

Definition simple_predicate_has_simple_cast (cast_operand const_operand : Expr F) : bool :=
  match cast_operand with
  | UOper type O_kCast (ColumnVar col_type _ _ _ _) =>
      is_constant const_operand &&
      ((isDateTime type && isDateTime col_type) || (isInteger type && isInteger col_type))
  | _ => false
  end.

(** A comparison of a column with a constant, the column on the left. *)
Definition normalize_simple_predicate (type : IrType) (op : IrOp) (left_operand right_operand : Expr F)
    : option (Expr F) :=
  if negb (isComparison op) then None
  else if is_uoper left_operand then
    if simple_predicate_has_simple_cast left_operand right_operand
    then Some (BinOper type op left_operand right_operand) else None
  else if is_uoper right_operand then
    if simple_predicate_has_simple_cast right_operand left_operand
    then Some (BinOper type (commuteComparison op) right_operand left_operand) else None
  else if is_column left_operand && is_constant right_operand
  then Some (BinOper type op left_operand right_operand)
  else if is_constant left_operand && is_column right_operand
  then Some (BinOper type (commuteComparison op) right_operand left_operand)
  else None.

Record QualsConjunctiveForm := mkQuals { cf_simple_quals : list (Expr F); cf_quals : list (Expr F) }.

(** *** ORs of equalities become IN ([ExpressionRewrite.cpp], [IR/Expr.cpp]) *)

Definition extract_cast_arg (expr : Expr F) : Expr F :=
  match expr with UOper _ O_kCast operand => operand | _ => expr end.

Definition DatumEqual (type : IrType) (a b : Datum F) : bool :=
  match type with
  | ArrayType _ _ => false
  | _ =>
      match a, b with
      | IntVal x, IntVal y => x =? y
      | FpVal x, FpVal y => fp_eqb x y
      | StringVal x, StringVal y => bool_decide (x = y)
      | _, _ => false
      end
  end.

(** [operator==] of the expressions: the types of operators are not compared. *)
Fixpoint expr_eqb (lhs rhs : Expr F) : bool :=
  match lhs, rhs with
  | ColumnVar _ table_id column_id rte_idx _, ColumnVar _ table_id' column_id' rte_idx' _ =>
      negb (rte_idx =? -1) && (table_id =? table_id') && (column_id =? column_id') && (rte_idx =? rte_idx')
  | Constant type is_null value, Constant type' is_null' value' =>
      if negb (bool_decide (type = type')) || negb (Bool.eqb is_null is_null') then false
      else if is_null then true else DatumEqual type value value'
  | UOper _ op operand, UOper _ op' operand' => bool_decide (op = op') && expr_eqb operand operand'
  | BinOper _ op l r, BinOper _ op' l' r' => bool_decide (op = op') && expr_eqb l l' && expr_eqb r r'
  | CaseExpr _ pairs else_expr, CaseExpr _ pairs' else_expr' =>
      (fix pairs_eqb (l l' : list (Expr F * Expr F)) : bool :=
         match l, l' with
         | [], [] => true
         | (c, v) :: l, (c', v') :: l' => expr_eqb c c' && expr_eqb v v' && pairs_eqb l l'
         | _, _ => false
         end) pairs pairs' && expr_eqb else_expr else_expr'
  | LikeExpr _ arg, LikeExpr _ arg' => expr_eqb arg arg' && same_rest info lhs rhs
  | ExtractExpr _ field from, ExtractExpr _ field' from' => bool_decide (field = field') && expr_eqb from from'
  | DateTruncExpr _ field from, DateTruncExpr _ field' from' => bool_decide (field = field') && expr_eqb from from'
  | OtherExpr _, OtherExpr _ => same_rest info lhs rhs
  | _, _ => false
  end.

(** [OrToInVisitor]: the argument of the IN and its constants, before their cast to the type of the
    argument. *)
Fixpoint or_to_in (expr : Expr F) : option (Expr F * list (Expr F)) :=
  match expr with
  | BinOper _ O_kEq arg rhs =>
      let rhs_no_cast := extract_cast_arg rhs in
      if is_constant rhs_no_cast then Some (arg, [rhs_no_cast]) else None
  | BinOper _ O_kOr lhs rhs =>
      match or_to_in lhs, or_to_in rhs with
      | Some (lhs_arg, lhs_values), Some (rhs_arg, rhs_values) =>
          if bool_decide (expr_type lhs_arg = expr_type rhs_arg) && expr_eqb lhs_arg rhs_arg
          then Some (lhs_arg, lhs_values ++ rhs_values) else None
      | _, _ => None
      end
  | _ => None
  end.

Definition is_expr_nullable (expr : Expr F) : bool :=
  match expr with Constant _ is_null _ => is_null | _ => nullable (expr_type expr) end.

(** A constant that is cast to a dictionary type is a constant no more. *)
Definition is_in_values_nullable (arg : Expr F) (values : list (Expr F)) : bool :=
  is_expr_nullable arg ||
  existsb (fun v => is_expr_nullable v || (isExtDictionary (expr_type arg) && nullable (expr_type arg))) values.

(** [RecursiveOrToInVisitor], with the other cases of [ExprRewriter]; an [InValues] is an
    [OtherExpr] of this IR. *)
Fixpoint visit_or_to_in (expr : Expr F) : Expr F :=
  match expr with
  | BinOper type op lhs rhs =>
      match (match op with O_kOr => or_to_in expr | _ => None end) with
      | Some (arg, values) => OtherExpr (BooleanType (is_in_values_nullable arg values))
      | None => BinOper type op (visit_or_to_in lhs) (visit_or_to_in rhs)
      end
  | UOper type op operand => UOper type op (visit_or_to_in operand)
  | CaseExpr type pairs else_expr =>
      CaseExpr type (map (fun p => (visit_or_to_in (fst p), visit_or_to_in (snd p))) pairs) (visit_or_to_in else_expr)
  | LikeExpr type arg => LikeExpr type (visit_or_to_in arg)
  | ExtractExpr type field from => ExtractExpr type field (visit_or_to_in from)
  | DateTruncExpr type field from => DateTruncExpr type field (visit_or_to_in from)
  | _ => expr
  end.

Definition strip_likelihood (expr : Expr F) : Expr F :=
  match likelihood_of info expr with Some _ => likelihood_arg info expr | None => expr end.

(** Without the rewriting of window functions, which a condition does not have.  A
    [LikelihoodExpr] is an [OtherExpr] of this IR. *)
Definition rewrite_expr (expr : Expr F) : Expr F :=
  let rewritten_expr := visit_or_to_in (strip_likelihood expr) in
  match likelihood_of info rewritten_expr with
  | Some _ => OtherExpr (expr_type rewritten_expr)
  | None => rewritten_expr
  end.

Fixpoint qual_to_conjunctive_form (qual_expr : Expr F) : QualsConjunctiveForm :=
  match qual_expr with
  | BinOper type op lhs rhs =>
      match op with
      | O_kAnd =>
          let lhs_cf := qual_to_conjunctive_form lhs in
          let rhs_cf := qual_to_conjunctive_form rhs in
          mkQuals (cf_simple_quals lhs_cf ++ cf_simple_quals rhs_cf) (cf_quals lhs_cf ++ cf_quals rhs_cf)
      | _ =>
          match normalize_simple_predicate type op lhs rhs with
          | Some simple_qual => mkQuals [simple_qual] []
          | None => mkQuals [] [qual_expr]
          end
      end
  | _ => mkQuals [] [rewrite_expr qual_expr]
  end.

Fixpoint qual_to_disjunctive_form (qual_expr : Expr F) : list (Expr F) :=
  match qual_expr with
  | BinOper _ O_kOr lhs rhs => qual_to_disjunctive_form lhs ++ qual_to_disjunctive_form rhs
  | BinOper _ _ _ _ => [qual_expr]
  | _ => [rewrite_expr qual_expr]
  end.

(** ** Order of evaluation ([LogicalIR.cpp]) *)

Definition is_zero_datum (type : IrType) (value : Datum F) : bool :=
  match type, value with
  | (BooleanType _ | IntegerType _ _ | DecimalType _ _), IntVal v => v =? 0
  | FloatingPointType _ _, FpVal v => fp_eqb v (fp_of_int 0)
  | _, _ => false
  end.

Definition is_div (e : Expr F) : bool :=
  match e with
  | BinOper _ O_kDiv _ (Constant type is_null value) => is_null || is_zero_datum type value
  | BinOper _ O_kDiv _ _ => true
  | _ => false
  end.

Fixpoint contains_unsafe_division (expr : Expr F) : bool :=
  is_div expr ||
  match expr with
  | BinOper _ _ l r => contains_unsafe_division l || contains_unsafe_division r
  | UOper _ _ e | LikeExpr _ e | ExtractExpr _ _ e | DateTruncExpr _ _ e => contains_unsafe_division e
  | CaseExpr _ pairs else_expr =>
      existsb (fun p => contains_unsafe_division (fst p) || contains_unsafe_division (snd p)) pairs
      || contains_unsafe_division else_expr
  | _ => false
  end.

Definition is_array (t : IrType) : bool := match t with ArrayType _ _ => true | _ => false end.

Definition should_defer_eval (expr : Expr F) : bool :=
  match expr with
  | LikeExpr _ _ => true
  | BinOper _ _ _ rhs => contains_unsafe_division expr || is_array (expr_type rhs)
  | _ => isRegexpExpr info expr || isFunctionOper info expr
  end.

Abbreviation Likelihood := (NullableValue L).
Definition no_likelihood : Likelihood := mkNullableValue false l_half.
Definition truth_likelihood : Likelihood := mkNullableValue true l_one.
Definition complement (a : Likelihood) : Likelihood := nv_binary l_half l_sub truth_likelihood a.

Fixpoint get_likelihood (expr : Expr F) : Likelihood :=
  match likelihood_of info expr with
  | Some l => mkNullableValue true l
  | None =>
      match expr with
      | UOper _ op operand =>
          let oper_likelihood := get_likelihood operand in
          if negb (isValid oper_likelihood) then no_likelihood
          else match op with O_kNot => complement oper_likelihood | _ => oper_likelihood end
      | BinOper _ op lhs rhs =>
          let lhs_likelihood := get_likelihood lhs in
          let rhs_likelihood := get_likelihood rhs in
          if negb (isValid lhs_likelihood) && negb (isValid rhs_likelihood) then no_likelihood
          else
            match op with
            | O_kOr =>
                complement (nv_binary l_half l_mul (complement lhs_likelihood) (complement rhs_likelihood))
            | O_kAnd => nv_binary l_half l_mul lhs_likelihood rhs_likelihood
            | _ => nv_plain l_half l_div (nv_binary l_half l_add lhs_likelihood rhs_likelihood) l_two
            end
      | _ => no_likelihood
      end
  end.

Abbreviation Weight := (NullableValue Z).
Definition w_add (a b : Z) : Z := u64 (a + b).

Fixpoint get_weight (expr : Expr F) (depth : nat) : Weight :=
  match expr with
  | LikeExpr _ _ => mkNullableValue true (if isSimple info expr then 200 else 1000)
  | UOper _ _ operand => nv_plain 1 w_add (get_weight operand (S depth)) 1
  | BinOper _ _ lhs rhs =>
      let lhs_weight := get_weight lhs (S depth) in
      let rhs_weight := get_weight rhs (S depth) in
      let rhs_weight :=
        if is_array (expr_type rhs) then nv_binary 1 w_add rhs_weight (mkNullableValue true 100)
        else rhs_weight in
      nv_plain 1 w_add (nv_binary 1 w_add lhs_weight rhs_weight) 1
  | _ =>
      if isRegexpExpr info expr then mkNullableValue true 2000
      else if (4 <? depth)%nat then mkNullableValue true 1 else mkNullableValue false 1
  end.

Definition unlikely (e : Expr F) : bool :=
  isValid (get_likelihood e) && l_ltb (nv_value (get_likelihood e)) l_tenth.
Definition likely (e : Expr F) : bool :=
  isValid (get_likelihood e) && l_ltb l_ninety (nv_value (get_likelihood e)).
Definition heavy (e : Expr F) : bool := isValid (get_weight e 0) && (10 <? nv_value (get_weight e 0)).

(** The loop over [simple_quals], then the one over [quals] with its flag. *)
Fixpoint prioritize_simple (hoisted : Expr F -> bool) (quals : list (Expr F))
    : list (Expr F) * list (Expr F) :=
  match quals with
  | [] => ([], [])
  | e :: quals' =>
      let '(primary, deferred) := prioritize_simple hoisted quals' in
      if hoisted e then (primary, deferred)
      else if should_defer_eval e then (primary, e :: deferred) else (e :: primary, deferred)
  end.

Fixpoint prioritize_rest (hoisted : Expr F -> bool) (short_circuit : bool) (quals : list (Expr F))
    : list (Expr F) * list (Expr F) * bool :=
  match quals with
  | [] => ([], [], short_circuit)
  | e :: quals' =>
      if hoisted e then prioritize_rest hoisted short_circuit quals'
      else if unlikely e && negb (contains_unsafe_division e) && negb short_circuit then
        let '(primary, deferred, sc) := prioritize_rest hoisted true quals' in (e :: primary, deferred, sc)
      else
        let '(primary, deferred, sc) := prioritize_rest hoisted short_circuit quals' in
        if short_circuit || should_defer_eval e then (primary, e :: deferred, sc)
        else (e :: primary, deferred, sc)
  end.

Definition prioritizeQuals (simple_quals quals : list (Expr F)) (hoisted_quals : Expr F -> bool)
    : list (Expr F) * list (Expr F) * bool :=
  let '(primary, deferred) := prioritize_simple hoisted_quals simple_quals in
  let '(primary', deferred', short_circuit) := prioritize_rest hoisted_quals false quals in
  (primary ++ primary', deferred ++ deferred', short_circuit).

(** ** Code of logical operators *)

Definition null_bool : Z := inline_int_null_value (BooleanType true).

Definition toBool (lv : Z) : bool := 0 <? lv.

Inductive ShortCircuit := NoShortCircuit | LeftFirst | RightFirst.

Definition short_circuit_order (op : IrOp) (lhs rhs : Expr F) : ShortCircuit :=
  let decides (e : Expr F) : bool :=
    match op with O_kOr => likely e | O_kAnd => unlikely e | _ => false end in
  if contains_unsafe_division rhs then LeftFirst
  else if contains_unsafe_division lhs then RightFirst
  else if decides lhs && heavy rhs then LeftFirst
  else if decides rhs && heavy lhs then RightFirst
  else NoShortCircuit.

(** The blocks that [codegenLogicalShortCircuit] emits; [rhs_lv] runs only when it is needed. *)
Definition short_circuit_code (type : IrType) (op : IrOp) (lhs_lv rhs_lv : result CodeError Z)
    : result CodeError Z :=
  let null_val := inline_int_null_value type in
  let cnst_lv := match op with O_kOr => 1 | _ => 0 end in
  let* lhs_lv := lhs_lv in
  if nullable type && (lhs_lv =? null_val) then Ok null_val
  else if lhs_lv =? cnst_lv then Ok cnst_lv
  else
    let* rhs_lv := rhs_lv in
    if nullable type && (rhs_lv =? null_val) then Ok null_val else Ok rhs_lv.

Definition codegenLogical (type : IrType) (op : IrOp) (lhs rhs : Expr F)
    (lhs_lv rhs_lv : result CodeError Z) : result CodeError Z :=
  match short_circuit_order op lhs rhs with
  | LeftFirst => short_circuit_code type op lhs_lv rhs_lv
  | RightFirst => short_circuit_code type op rhs_lv lhs_lv
  | NoShortCircuit =>
      let* lhs_lv := lhs_lv in
      let* rhs_lv := rhs_lv in
      match op with
      | O_kAnd => Ok (if nullable type then logical_and lhs_lv rhs_lv (inline_int_null_value type)
                      else b2z (toBool lhs_lv && toBool rhs_lv))
      | O_kOr => Ok (if nullable type then logical_or lhs_lv rhs_lv (inline_int_null_value type)
                     else b2z (toBool lhs_lv || toBool rhs_lv))
      | _ => Err NotGenerated
      end
  end.

Definition codegenLogicalNot (operand_type : IrType) (operand_lv : Z) : result CodeError Z :=
  if negb (isBoolean operand_type) then Err NotGenerated
  else Ok (if nullable operand_type
           then logical_not operand_lv (inline_int_null_value operand_type)
           else b2z (negb (toBool operand_lv))).

(** [codegenIsNull], without arrays and floating-point numbers. *)
Definition codegenIsNull (operand : Expr F) (operand_lv : result CodeError Z) : result CodeError Z :=
  match operand with
  | Constant _ true _ => Ok 1
  | _ =>
      let type := expr_type operand in
      if negb (nullable type) then Ok 0
      else if is_array type || isFloatingPoint type then Err NotGenerated
      else let* operand_lv := operand_lv in Ok (b2z (operand_lv =? inline_int_null_value type))
  end.

(** ** Code of comparisons ([CompareIR.cpp]) *)

Definition cmp_op (op : IrOp) : option CmpOp :=
  match op with
  | O_kEq => Some OpEq | O_kNe => Some OpNe | O_kLt => Some OpLt
  | O_kGt => Some OpGt | O_kLe => Some OpLe | O_kGe => Some OpGe
  | _ => None
  end.

(** Both types have the same [id], and values that are integers; the order of dictionary strings
    has other code. *)
Definition comparable (op : IrOp) (lhs_type rhs_type : IrType) : bool :=
  match lhs_type, rhs_type with
  | BooleanType _, BooleanType _ | IntegerType _ _, IntegerType _ _ | DecimalType _ _, DecimalType _ _
  | DateType _, DateType _ | TimeType _, TimeType _ | TimestampType _ _, TimestampType _ _
  | IntervalType _, IntervalType _ => true
  | ExtDictionaryType _ _, ExtDictionaryType _ _ => match op with O_kEq | O_kNe => true | _ => false end
  | _, _ => false
  end.

Definition codegenCmp (op : IrOp) (lhs_type rhs_type : IrType) (lhs_lv rhs_lv : Z)
    : result CodeError Z :=
  if negb (comparable op lhs_type rhs_type) then Err NotGenerated
  else
    let* cop := generated (cmp_op op) in
    let null_val := inline_int_null_value lhs_type in
    Ok match get_null_check_suffix lhs_type rhs_type with
       | NoSuffix => b2z (NullableOps.compare cop lhs_lv rhs_lv)
       | Suffix_nullable => cmp_nullable cop lhs_lv rhs_lv null_val null_bool
       | Suffix_nullable_lhs => cmp_nullable_lhs cop lhs_lv rhs_lv null_val null_bool
       | Suffix_nullable_rhs => cmp_nullable_rhs cop lhs_lv rhs_lv null_val null_bool
       end.

(** [lower_bw_eq]: equal, or both null; the parts of the disjunction. *)
Definition bw_eq_oper (type : IrType) (lhs rhs : Expr F) : Expr F := BinOper type O_kEq lhs rhs.
Definition both_are_null (lhs rhs : Expr F) : Expr F :=
  BinOper (BooleanType false) O_kAnd
    (UOper (BooleanType false) O_kIsNull lhs) (UOper (BooleanType false) O_kIsNull rhs).

(** ** Code of a filter *)

Variables (query_infos : list (@InputTableInfo F)) (ex : @Executor F) (device : Device) (row : Row F).

(** [codegen] of an expression of Boolean type; the operands of comparisons are integers. *)
Fixpoint codegen_filter (expr : Expr F) : result CodeError Z :=
  match expr with
  | BinOper type op lhs rhs =>
      match op with
      | O_kAnd | O_kOr => codegenLogical type op lhs rhs (codegen_filter lhs) (codegen_filter rhs)
      | O_kBwEq =>
          let eq_lv :=
            let* lhs_lv := codegen_filter lhs in
            let* rhs_lv := codegen_filter rhs in
            codegenCmp O_kEq (expr_type lhs) (expr_type rhs) lhs_lv rhs_lv in
          let null_lv :=
            codegenLogical (BooleanType false) O_kAnd
              (UOper (BooleanType false) O_kIsNull lhs) (UOper (BooleanType false) O_kIsNull rhs)
              (codegenIsNull lhs (codegen_filter lhs)) (codegenIsNull rhs (codegen_filter rhs)) in
          codegenLogical (BooleanType (nullable type)) O_kOr (bw_eq_oper type lhs rhs)
            (both_are_null lhs rhs) eq_lv null_lv
      | O_kEq | O_kNe | O_kLt | O_kGt | O_kLe | O_kGe =>
          let* lhs_lv := codegen_filter lhs in
          let* rhs_lv := codegen_filter rhs in
          codegenCmp op (expr_type lhs) (expr_type rhs) lhs_lv rhs_lv
      | _ => codegen query_infos ex device row expr
      end
  | UOper _ O_kNot operand =>
      let* operand_lv := codegen_filter operand in codegenLogicalNot (expr_type operand) operand_lv
  | UOper _ O_kIsNull operand => codegenIsNull operand (codegen_filter operand)
  | _ => codegen query_infos ex device row expr
  end.

(** The conjunction of the conditions: all of them run. *)
Fixpoint all_conditions (quals : list (Expr F)) : result CodeError bool :=
  match quals with
  | [] => Ok true
  | e :: quals' =>
      let* lv := codegen_filter e in
      let* rest := all_conditions quals' in
      Ok (toBool lv && rest)
  end.

(** The filter of [compileBody]: the deferred conditions run if the primary ones hold. *)
Definition filter_passes (simple_quals quals : list (Expr F)) (hoisted_filters : Expr F -> bool)
    : result CodeError bool :=
  let '(primary_quals, deferred_quals, _) := prioritizeQuals simple_quals quals hoisted_filters in
  let* filter_lv := all_conditions primary_quals in
  match deferred_quals with
  | [] => Ok filter_lv
  | _ => if filter_lv then all_conditions deferred_quals else Ok false
  end.

End Filters.
Arguments mkQuals {F}.
Arguments cf_simple_quals {F}.
Arguments cf_quals {F}.
