(* ===== verification/FilterProps.v ===== *)
(** * Filters compute the WHERE condition

    [meaning] is the three-valued truth of a condition, as SQL has it, over the values the
    generated integer code computes.  The theorems relate it to the code of [FilterCode.v]: a row
    that passes the filter satisfies the condition, and a row that satisfies the condition passes
    if no short-circuited operator sees a null first. *)

From Stdlib Require Import ZArith Lia List Bool Permutation.
From stdpp Require Import base list numbers.
From S2P Require Import Prelude ExtractFromTime DateTruncate DateAdd NullableOps IRExpr ExpressionRange GeneratedCode.
From S2P Require Import RangeProps FilterCode.
Import ListNotations.
Local Open Scope Z_scope.
Local Open Scope hdk_scope.

(** ** Truth *)

Abbreviation outcome := (result CodeError (option bool)).

(** Conjunction and disjunction that may leave out an operand the other one decides. *)
Definition lazy_and (a b : outcome) : outcome :=
  match a, b with
  | Ok (Some false), _ | _, Ok (Some false) => Ok (Some false)
  | Ok x, Ok y => Ok (kleene_and x y)
  | Err e, _ | _, Err e => Err e
  end.

Definition lazy_or (a b : outcome) : outcome :=
  match a, b with
  | Ok (Some true), _ | _, Ok (Some true) => Ok (Some true)
  | Ok x, Ok y => Ok (kleene_or x y)
  | Err e, _ | _, Err e => Err e
  end.

Definition sql_of (t : IrType) (v : Z) : option Z :=
  if nullable t then sql (inline_int_null_value t) v else Some v.

Definition sql_compare (cop : CmpOp) (a b : option Z) : option bool :=
  match a, b with Some x, Some y => Some (NullableOps.compare cop x y) | _, _ => None end.

Definition true_of (m : outcome) : Prop := m = Ok (Some true).

Lemma lazy_and_true a b : true_of (lazy_and a b) <-> true_of a /\ true_of b.
Proof.
  unfold true_of. destruct a as [[[]|]|], b as [[[]|]|]; simpl; split;
    try (by intros [? ?]); try (by intros [=]); done.
Qed.

Lemma lazy_or_true a b : true_of (lazy_or a b) <-> true_of a \/ true_of b.
Proof.
  unfold true_of. destruct a as [[[]|]|], b as [[[]|]|]; simpl; split;
    try (by intros [?|?]); try (by intros [=]); try done; by (left + right).
Qed.

(** The value of a Boolean of type [t]. *)
Definition boolean_value (t : IrType) (v : Z) : Prop :=
  v = 0 \/ v = 1 \/ (v = null_bool /\ nullable t = true).

Lemma toBool_truth t v : boolean_value t v -> toBool v = true <-> truth null_bool v = Some true.
Proof. intros [-> | [-> | [-> _]]]; by vm_compute. Qed.

Section Meaning.
Context {F L : Type} `{FpOps F} `{LikelihoodOps L}.
Variables (info : @ExprInfo F L) (query_infos : list (@InputTableInfo F)) (ex : @Executor F)
          (device : Device) (row : Row F).
Abbreviation value := (codegen query_infos ex device row).
Abbreviation code := (codegen_filter info query_infos ex device row).

(** The truth of a condition. *)
Fixpoint meaning (e : Expr F) : outcome :=
  match e with
  | BinOper type op l r =>
      match op with
      | O_kAnd => lazy_and (meaning l) (meaning r)
      | O_kOr => lazy_or (meaning l) (meaning r)
      | O_kBwEq =>
          let* a := value l in
          let* b := value r in
          Ok (Some (bool_decide (sql_of (expr_type l) a = sql_of (expr_type r) b)))
      | O_kEq | O_kNe | O_kLt | O_kGt | O_kLe | O_kGe =>
          let* a := value l in
          let* b := value r in
          let* cop := generated (cmp_op op) in
          Ok (sql_compare cop (sql_of (expr_type l) a) (sql_of (expr_type r) b))
      | _ => let* v := value e in Ok (truth null_bool v)
      end
  | UOper _ O_kNot e' => let* a := meaning e' in Ok (kleene_not a)
  | UOper _ O_kIsNull e' =>
      if nullable (expr_type e')
      then let* v := value e' in Ok (Some (bool_decide (sql_of (expr_type e') v = None)))
      else Ok (Some false)
  | _ => let* v := value e in Ok (truth null_bool v)
  end.

(** An operand of a comparison: no logical operator, and a null constant has a nullable type. *)
Definition operand_ok (e : Expr F) : Prop :=
  match e with
  | BinOper _ op _ _ => isComparison op = false /\ op <> O_kAnd /\ op <> O_kOr
  | UOper _ op _ => op <> O_kNot /\ op <> O_kIsNull
  | Constant t true _ => nullable t = true
  | _ => True
  end.

(** The types that the translator gives to a condition; Boolean columns hold 0, 1 and nulls. *)
Fixpoint typed (e : Expr F) : Prop :=
  let leaf := forall v, value e = Ok v -> boolean_value (expr_type e) v in
  match e with
  | BinOper type op l r =>
      type = BooleanType (nullable (expr_type l) || nullable (expr_type r)) /\
      match op with
      | O_kAnd | O_kOr =>
          isBoolean (expr_type l) = true /\ isBoolean (expr_type r) = true /\ typed l /\ typed r
      | O_kEq | O_kBwEq | O_kNe | O_kLt | O_kGt | O_kLe | O_kGe =>
          type_size (expr_type l) = type_size (expr_type r) /\ operand_ok l /\ operand_ok r
      | _ => False
      end
  | UOper type op e' =>
      match op with
      | O_kNot => isBoolean (expr_type e') = true /\ type = expr_type e' /\ typed e'
      | O_kIsNull => type = BooleanType false /\ operand_ok e'
      | _ => isBoolean type = true /\ leaf
      end
  | _ => isBoolean (expr_type e) = true /\ leaf
  end.

(** No short-circuited operator finds its first operand null, and IS NOT DISTINCT FROM has no
    operand that is null, or two. *)
Fixpoint no_null_first (e : Expr F) : Prop :=
  match e with
  | BinOper type op l r =>
      match op with
      | O_kAnd | O_kOr =>
          match short_circuit_order info op l r with
          | LeftFirst => code l <> Ok null_bool
          | RightFirst => code r <> Ok null_bool
          | NoShortCircuit => True
          end /\ no_null_first l /\ no_null_first r
      | O_kBwEq =>
          meaning (bw_eq_oper type l r) = Ok None ->
          short_circuit_order info O_kOr (bw_eq_oper type l r) (both_are_null l r) <> LeftFirst /\
          true_of (meaning e)
      | _ => True
      end
  | UOper _ O_kNot e' => no_null_first e'
  | _ => True
  end.

(** ** The code of the parts *)

Lemma operand_code e : operand_ok e -> code e = value e.
Proof.
  destruct e as [| |t op l r|t op e'| | | | |]; try done.
  - intros (Hc & Ha & Ho). destruct op; done.
  - intros (Hn & Hi). destruct op; done.
Qed.

Lemma cmp_code op lt rt l r v :
  codegenCmp op lt rt l r = Ok v -> type_size lt = type_size rt ->
  exists cop, cmp_op op = Some cop /\
    truth null_bool v = sql_compare cop (sql_of lt l) (sql_of rt r) /\
    boolean_value (BooleanType (nullable lt || nullable rt)) v.
Proof.
  intros E Hs. unfold codegenCmp in E. destruct (negb _); [done|].
  destruct (cmp_op op) as [cop|]; [|done]. injection E as <-. exists cop. split; [done|].
  assert (En : inline_int_null_value rt = inline_int_null_value lt)
    by (unfold inline_int_null_value; by rewrite Hs).
  unfold get_null_check_suffix, sql_of, sql. rewrite En.
  set (nv := inline_int_null_value lt).
  assert (Hb : forall b n, truth null_bool (b2z b) = Some b /\ boolean_value (BooleanType n) (b2z b))
    by (intros [] n; split; try done; unfold boolean_value; simpl; tauto).
  assert (Hn : truth null_bool null_bool = None /\ boolean_value (BooleanType true) null_bool)
    by (split; [done | right; by right]).
  unfold cmp_nullable, cmp_nullable_lhs, cmp_nullable_rhs.
  destruct (nullable lt), (nullable rt), (l =? nv), (r =? nv); cbn [orb negb andb sql_compare];
    first [apply Hb | apply Hn].
Qed.

(** [refines]: the code says what the condition means, or null.  [exact_code]: it says what the
    condition means. *)
Definition refines (x : result CodeError Z) (m : outcome) : Prop :=
  forall a, x = Ok a -> truth null_bool a = None \/ m = Ok (truth null_bool a).
Definition exact_code (x : result CodeError Z) (m : outcome) : Prop :=
  forall a, x = Ok a -> m = Ok (truth null_bool a).
Definition boolean_code (t : IrType) (x : result CodeError Z) : Prop :=
  forall a, x = Ok a -> boolean_value t a.

Definition logic (op : IrOp) : Prop := op = O_kAnd \/ op = O_kOr.
Definition lazy_op (op : IrOp) (a b : outcome) : outcome :=
  match op with O_kAnd => lazy_and a b | _ => lazy_or a b end.
Definition kleene_op (op : IrOp) (a b : option bool) : option bool :=
  match op with O_kAnd => kleene_and a b | _ => kleene_or a b end.

Lemma lazy_op_comm op a b t : lazy_op op a b = Ok t -> lazy_op op b a = Ok t.
Proof. destruct op, a as [[[]|]|], b as [[[]|]|]; simpl; congruence. Qed.

Lemma lazy_op_both op a b : lazy_op op (Ok a) (Ok b) = Ok (kleene_op op a b).
Proof. by destruct op, a as [[]|], b as [[]|]. Qed.

(** The operators are monotone: what is said with nulls stays true without them. *)
Lemma lazy_op_refines op a b ma mb :
  (a = None \/ ma = Ok a) -> (b = None \/ mb = Ok b) ->
  kleene_op op a b = None \/ lazy_op op ma mb = Ok (kleene_op op a b).
Proof.
  intros [-> | ->] [-> | ->].
  - left. by destruct op.
  - destruct op, b as [[]|]; try (by left); right; by destruct ma as [[[]|]|].
  - destruct op, a as [[]|]; try (by left); right; by destruct mb as [[[]|]|].
  - right. apply lazy_op_both.
Qed.

Lemma null_of_boolean n : inline_int_null_value (BooleanType n) = null_bool.
Proof. done. Qed.

(** The operator on two evaluated operands. *)
Definition eager_value (n : bool) (op : IrOp) (a b : Z) : Z :=
  match op with
  | O_kAnd => if n then logical_and a b null_bool else b2z (toBool a && toBool b)
  | _ => if n then logical_or a b null_bool else b2z (toBool a || toBool b)
  end.

Lemma eager_value_spec n op a b :
  logic op -> boolean_value (BooleanType n) a -> boolean_value (BooleanType n) b ->
  truth null_bool (eager_value n op a b) = kleene_op op (truth null_bool a) (truth null_bool b) /\
  boolean_value (BooleanType n) (eager_value n op a b).
Proof.
  intros [-> | ->] Ha Hb; unfold boolean_value in *; cbn [nullable] in *;
    destruct n, Ha as [-> | [-> | [-> ?]]], Hb as [-> | [-> | [-> ?]]]; try discriminate;
    (split; [by vm_compute | vm_compute; tauto]).
Qed.

(** A short-circuited operator: null if the first operand is, and else the operator. *)
Lemma short_circuit_spec n op x y v :
  logic op -> boolean_code (BooleanType n) x -> boolean_code (BooleanType n) y ->
  short_circuit_code (BooleanType n) op x y = Ok v ->
  boolean_value (BooleanType n) v /\
  exists a, x = Ok a /\
    ((a = null_bool /\ v = null_bool) \/
     (exists t, truth null_bool a = Some t /\ kleene_op op (Some t) None = Some t /\
    truth null_bool v = Some t) \/
     (exists b, y = Ok b /\ truth null_bool v = kleene_op op (truth null_bool a) (truth null_bool b))).
Proof.
  intros Ho Hx Hy E. unfold short_circuit_code in E. rewrite null_of_boolean in E. cbn [nullable] in E.
  destruct x as [a|]; [|done]. cbn [rbind] in E. pose proof (Hx a eq_refl) as Ha.
  assert (Hn : n = true -> boolean_value (BooleanType n) null_bool)
    by (intros ->; right; by right).
  destruct (n && (a =? null_bool)) eqn:En.
  { apply andb_true_iff in En as [Hn' ->%Z.eqb_eq]. injection E as <-.
    split; [by apply Hn|]. exists null_bool. split; [done|]. by left. }
  assert (A01 : a = 0 \/ a = 1).
  { destruct Ha as [? | [? | [-> Hn']]]; [by left | by right|]. cbn [nullable] in Hn'. by subst n. }
  destruct (a =? _) eqn:Ea in E.
  { apply Z.eqb_eq in Ea. injection E as <-. split; [destruct Ho as [-> | ->]; subst a; unfold boolean_value; tauto|].
    exists a. split; [done|]. right. left. exists (a =? 1).
    destruct Ho as [-> | ->]; subst a; by vm_compute. }
  apply Z.eqb_neq in Ea. destruct y as [b|]; [|done]. cbn [rbind] in E. pose proof (Hy b eq_refl) as Hb.
  assert (v = b) as ->.
  { destruct (n && (b =? null_bool)) eqn:Eb; injection E as <-; [|done].
    apply andb_true_iff in Eb as [_ Eb%Z.eqb_eq]. done. }
  split; [done|]. exists a. split; [done|]. right. right. exists b. split; [done|].
  unfold boolean_value in Hb. destruct Ho as [-> | ->], A01 as [-> | ->]; try done;
    destruct Hb as [-> | [-> | [-> _]]]; by vm_compute.
Qed.

(** [lazy_op] when the first operand decides. *)
Lemma lazy_op_decided op t m : kleene_op op (Some t) None = Some t -> lazy_op op (Ok (Some t)) m = Ok (Some t).
Proof. destruct op, t, m as [[[]|]|]; simpl; congruence. Qed.

Lemma short_circuit_refines n op x y mx my :
  logic op -> boolean_code (BooleanType n) x -> boolean_code (BooleanType n) y ->
  refines x mx -> refines y my -> refines (short_circuit_code (BooleanType n) op x y) (lazy_op op mx my).
Proof.
  intros Ho Hx Hy Rx Ry v E.
  destruct (short_circuit_spec n op x y v Ho Hx Hy E) as (_ & a & -> & [[_ ->]|[(t & Et & Ek & ->)|(b & -> & ->)]]).
  - by left.
  - destruct (Rx a eq_refl) as [?| ->]; [congruence|]. right. rewrite Et. by apply lazy_op_decided.
  - exact (lazy_op_refines op _ _ mx my (Rx a eq_refl) (Ry b eq_refl)).
Qed.

Lemma short_circuit_exact n op x y mx my :
  logic op -> boolean_code (BooleanType n) x -> boolean_code (BooleanType n) y ->
  exact_code x mx -> exact_code y my -> x <> Ok null_bool ->
  exact_code (short_circuit_code (BooleanType n) op x y) (lazy_op op mx my).
Proof.
  intros Ho Hx Hy Rx Ry N v E.
  destruct (short_circuit_spec n op x y v Ho Hx Hy E) as (_ & a & -> & [[-> _]|[(t & Et & Ek & ->)|(b & -> & ->)]]).
  - done.
  - rewrite (Rx a eq_refl), Et. by apply lazy_op_decided.
  - rewrite (Rx a eq_refl), (Ry b eq_refl). apply lazy_op_both.
Qed.

(** ** The code of AND and OR *)

Section Logical.
Variables (n : bool) (op : IrOp) (l r : Expr F) (x y : result CodeError Z) (mx my : outcome).
Hypotheses (Ho : logic op) (Hx : boolean_code (BooleanType n) x) (Hy : boolean_code (BooleanType n) y).
Abbreviation node := (codegenLogical info (BooleanType n) op l r x y).

Lemma eager_node a b :
  short_circuit_order info op l r = NoShortCircuit -> x = Ok a -> y = Ok b ->
  node = Ok (eager_value n op a b).
Proof. intros E -> ->. unfold codegenLogical. rewrite E. by destruct Ho as [-> | ->]. Qed.

Lemma eager_node_inv v :
  short_circuit_order info op l r = NoShortCircuit -> node = Ok v ->
  exists a b, x = Ok a /\ y = Ok b /\ v = eager_value n op a b.
Proof.
  intros E Ev. destruct x as [a|] eqn:Ex; [|unfold codegenLogical in Ev; by rewrite E in Ev].
  destruct y as [b|] eqn:Ey; [|unfold codegenLogical in Ev; by rewrite E in Ev].
  exists a, b. split; [done|]. split; [done|]. unfold codegenLogical in Ev. rewrite E in Ev.
  clear Hx Hy. destruct Ho as [Eo|Eo]; rewrite Eo in Ev |- *; by injection Ev as <-.
Qed.

Lemma logical_boolean : boolean_code (BooleanType n) node.
Proof.
  intros v E. destruct (short_circuit_order info op l r) eqn:Es.
  - destruct (eager_node_inv v Es E) as (a & b & Ea & Eb & ->).
    apply eager_value_spec; [exact Ho | exact (Hx a Ea) | exact (Hy b Eb)].
  - unfold codegenLogical in E. rewrite Es in E. exact (proj1 (short_circuit_spec n op x y v Ho Hx Hy E)).
  - unfold codegenLogical in E. rewrite Es in E. exact (proj1 (short_circuit_spec n op y x v Ho Hy Hx E)).
Qed.

Lemma logical_refines : refines x mx -> refines y my -> refines node (lazy_op op mx my).
Proof.
  intros Rx Ry v E. destruct (short_circuit_order info op l r) eqn:Es.
  - destruct (eager_node_inv v Es E) as (a & b & Ea & Eb & ->).
    destruct (eager_value_spec n op a b Ho (Hx a Ea) (Hy b Eb)) as [-> _].
    exact (lazy_op_refines op _ _ mx my (Rx a Ea) (Ry b Eb)).
  - unfold codegenLogical in E. rewrite Es in E.
    exact (short_circuit_refines n op x y mx my Ho Hx Hy Rx Ry v E).
  - unfold codegenLogical in E. rewrite Es in E.
    destruct (short_circuit_refines n op y x my mx Ho Hy Hx Ry Rx v E) as [?|E']; [by left|].
    right. by apply lazy_op_comm.
Qed.

Lemma logical_exact :
  match short_circuit_order info op l r with
  | LeftFirst => x <> Ok null_bool
  | RightFirst => y <> Ok null_bool
  | NoShortCircuit => True
  end -> exact_code x mx -> exact_code y my -> exact_code node (lazy_op op mx my).
Proof.
  intros N Rx Ry v E. destruct (short_circuit_order info op l r) eqn:Es.
  - destruct (eager_node_inv v Es E) as (a & b & Ea & Eb & ->).
    destruct (eager_value_spec n op a b Ho (Hx a Ea) (Hy b Eb)) as [-> _].
    rewrite (Rx a Ea), (Ry b Eb). apply lazy_op_both.
  - unfold codegenLogical in E. rewrite Es in E.
    exact (short_circuit_exact n op x y mx my Ho Hx Hy Rx Ry N v E).
  - unfold codegenLogical in E. rewrite Es in E. apply lazy_op_comm.
    exact (short_circuit_exact n op y x my mx Ho Hy Hx Ry Rx N v E).
Qed.
End Logical.

(** ** The code of every condition *)

Lemma boolean_weaken t n a :
  boolean_value t a -> (nullable t = true -> n = true) -> boolean_value (BooleanType n) a.
Proof. intros [?|[?|[? E]]] Hn; [by left | right; by left | right; right]. by rewrite (Hn E). Qed.

Lemma boolean_weaken_code t n x :
  boolean_code t x -> (nullable t = true -> n = true) -> boolean_code (BooleanType n) x.
Proof. intros Hx Hn a E. exact (boolean_weaken t n a (Hx a E) Hn). Qed.

Lemma sql_of_none t v : nullable t = true -> sql_of t v = None <-> v = inline_int_null_value t.
Proof. intros Hn. unfold sql_of. rewrite Hn. apply sql_none. Qed.

Lemma truth_b2z b : truth null_bool (b2z b) = Some b.
Proof. by destruct b. Qed.

Lemma boolean_b2z t b : boolean_value t (b2z b).
Proof. destruct b; [right; by left | by left]. Qed.

(** IS NULL never is null. *)
Lemma isnull_code t n e :
  operand_ok e ->
  exact_code (codegenIsNull e (code e)) (meaning (UOper t O_kIsNull e)) /\
  boolean_code (BooleanType n) (codegenIsNull e (code e)).
Proof.
  intros He. rewrite operand_code by done.
  assert (K : forall v, codegenIsNull e (value e) = Ok v ->
    exists b, v = b2z b /\ meaning (UOper t O_kIsNull e) = Ok (Some b)).
  { intros v E. cbn [meaning].
    assert (G : (if negb (nullable (expr_type e)) then Ok 0
                 else if is_array (expr_type e) || isFloatingPoint (expr_type e) then Err NotGenerated
                 else let* v := value e in Ok (b2z (v =? inline_int_null_value (expr_type e)))) = Ok v \/
                exists t0 w, e = Constant t0 true w).
    { destruct e as [t0 [] w| | | | | | | |]; try (by left). right. by eexists _, _. }
    destruct G as [G|(t0 & w & ->)].
    - destruct (nullable (expr_type e)) eqn:En; cbn [negb] in G.
      + destruct (_ || _); [done|]. destruct (value e) as [a|]; [|done]. injection G as <-.
        eexists. split; [done|]. cbn [rbind]. do 2 f_equal. pose proof (sql_of_none (expr_type e) a En).
        destruct (Z.eqb_spec a (inline_int_null_value (expr_type e)));
          [apply bool_decide_eq_true_2 | apply bool_decide_eq_false_2]; tauto.
      + injection G as <-. by exists false.
    - injection E as <-. exists true. split; [done|]. cbn. simpl in He. rewrite He. cbn.
      do 2 f_equal. apply bool_decide_eq_true_2. by apply sql_of_none. }
  split; intros v E; destruct (K v E) as (b & -> & Em).
  - by rewrite truth_b2z.
  - apply boolean_b2z.
Qed.

(** The comparison. *)
Definition cmp_meaning (op : IrOp) (l r : Expr F) : outcome :=
  let* a := value l in
  let* b := value r in
  let* cop := generated (cmp_op op) in
  Ok (sql_compare cop (sql_of (expr_type l) a) (sql_of (expr_type r) b)).

Definition cmp_node (op : IrOp) (l r : Expr F) : result CodeError Z :=
  let* a := code l in let* b := code r in codegenCmp op (expr_type l) (expr_type r) a b.

Lemma cmp_node_spec op l r :
  type_size (expr_type l) = type_size (expr_type r) -> operand_ok l -> operand_ok r ->
  exact_code (cmp_node op l r) (cmp_meaning op l r) /\
  boolean_code (BooleanType (nullable (expr_type l) || nullable (expr_type r))) (cmp_node op l r).
Proof.
  intros Hs Hl Hr. unfold cmp_node, cmp_meaning. rewrite !operand_code by done.
  destruct (value l) as [a|]; [|by split]. destruct (value r) as [b|]; [|by split]. cbn [rbind].
  split; intros v E; destruct (cmp_code op _ _ a b v E Hs) as (cop & Ec & Et & Hb).
  - rewrite Ec, Et. done.
  - exact Hb.
Qed.

(** IS NOT DISTINCT FROM, from its parts. *)
Definition bw_meaning (l r : Expr F) : outcome :=
  lazy_or (cmp_meaning O_kEq l r)
    (lazy_and (meaning (UOper (BooleanType false) O_kIsNull l)) (meaning (UOper (BooleanType false) O_kIsNull r))).

Lemma is_null_true t e :
  meaning (UOper t O_kIsNull e) = Ok (Some true) ->
  exists a, value e = Ok a /\ sql_of (expr_type e) a = None.
Proof.
  cbn [meaning]. destruct (nullable _); [|done]. destruct (value e) as [a|]; [|done].
  intros [= E]. exists a. split; [done|]. by apply bool_decide_eq_true_1 in E.
Qed.

Lemma is_null_value t e a :
  value e = Ok a -> meaning (UOper t O_kIsNull e) = Ok (Some (bool_decide (sql_of (expr_type e) a = None))).
Proof.
  intros E. cbn [meaning]. rewrite E. destruct (nullable _) eqn:En; [done|].
  unfold sql_of. by rewrite En.
Qed.

Lemma bw_meaning_spec t l r b :
  bw_meaning l r = Ok b ->
  meaning (BinOper t O_kBwEq l r) = Ok b \/
  (b = None /\ cmp_meaning O_kEq l r = Ok None /\ ~ true_of (meaning (BinOper t O_kBwEq l r))).
Proof.
  unfold bw_meaning. intros E.
  assert (V : exists x y, value l = Ok x /\ value r = Ok y).
  { destruct (value l) as [x|] eqn:El; destruct (value r) as [y|] eqn:Er; [by exists x, y | | |];
      unfold cmp_meaning in E; rewrite El, ?Er in E; cbn [rbind] in E;
      set (m := lazy_and _ _) in E;
      (assert (T : true_of m) by (unfold true_of; destruct m as [[[]|]|]; simpl in E; congruence));
      apply lazy_and_true in T as [T1 T2];
      apply is_null_true in T1 as (? & ? & _), T2 as (? & ? & _); congruence. }
  destruct V as (x & y & El & Er). rewrite (is_null_value _ l x El), (is_null_value _ r y Er) in E.
  unfold cmp_meaning in E |- *. cbn [meaning]. rewrite El, Er in E |- *.
  cbn [rbind generated cmp_op] in E |- *.
  destruct (sql_of (expr_type l) x) as [u|], (sql_of (expr_type r) y) as [w|]; cbn in E.
  - left. rewrite <- E. destruct (Z.eqb_spec u w) as [->|N]; [by rewrite bool_decide_eq_true_2 |].
    by rewrite bool_decide_eq_false_2 by congruence.
  - right. by injection E as <-.
  - right. by injection E as <-.
  - left. done.
Qed.

Lemma null_pair_code l r :
  operand_ok l -> operand_ok r ->
  let x := codegenIsNull l (code l) in let y := codegenIsNull r (code r) in
  let nl := UOper (BooleanType false) O_kIsNull l in let nr := UOper (BooleanType false) O_kIsNull r in
  exact_code (codegenLogical info (BooleanType false) O_kAnd nl nr x y) (lazy_and (meaning nl) (meaning nr)) /\
  forall n, boolean_code (BooleanType n) (codegenLogical info (BooleanType false) O_kAnd nl nr x y).
Proof.
  intros Hl Hr x y nl nr. destruct (isnull_code (BooleanType false) false l Hl) as [El Bl].
  destruct (isnull_code (BooleanType false) false r Hr) as [Er Br]. fold x nl in El, Bl. fold y nr in Er, Br.
  assert (Nx : x <> Ok null_bool) by (intros E; destruct (Bl _ E) as [?|[?|[_ ?]]]; done).
  assert (Ny : y <> Ok null_bool) by (intros E; destruct (Br _ E) as [?|[?|[_ ?]]]; done).
  split.
  - apply (logical_exact false O_kAnd nl nr x y _ _ (or_introl eq_refl) Bl Br); [|done | done].
    by destruct (short_circuit_order _ _ _ _).
  - intros n. apply (boolean_weaken_code (BooleanType false)); [|done].
    exact (logical_boolean false O_kAnd nl nr x y (or_introl eq_refl) Bl Br).
Qed.

Lemma bw_eq_code n l r :
  n = nullable (expr_type l) || nullable (expr_type r) ->
  type_size (expr_type l) = type_size (expr_type r) -> operand_ok l -> operand_ok r ->
  let e := BinOper (BooleanType n) O_kBwEq l r in
  boolean_code (BooleanType n) (code e) /\ refines (code e) (meaning e) /\
  (no_null_first e -> exact_code (code e) (meaning e)).
Proof.
  intros Hn Hs Hl Hr e. destruct (cmp_node_spec O_kEq l r Hs Hl Hr) as [Ex Bx]. rewrite <- Hn in Bx.
  destruct (null_pair_code l r Hl Hr) as [Ey By].
  set (y := codegenLogical info (BooleanType false) O_kAnd _ _ _ _) in Ey, By.
  assert (Ec : code e = codegenLogical info (BooleanType n) O_kOr (bw_eq_oper (BooleanType n) l r)
                          (both_are_null l r) (cmp_node O_kEq l r) y) by done.
  assert (Ho : logic O_kOr) by (by right).
  rewrite Ec. split; [|split].
  - exact (logical_boolean n O_kOr _ _ _ _ Ho Bx (By n)).
  - intros v E.
    destruct (logical_refines n O_kOr (bw_eq_oper (BooleanType n) l r) (both_are_null l r)
                (cmp_node O_kEq l r) y _ _ Ho Bx (By n) ltac:(right; by apply Ex) ltac:(right; by apply Ey) v E)
      as [|Em]; [by left|].
    destruct (bw_meaning_spec (BooleanType n) l r _ Em) as [?|(? & _)]; [by right | by left].
  - intros N v E.
    assert (Em : bw_meaning l r = Ok (truth null_bool v)).
    { refine (logical_exact n O_kOr (bw_eq_oper (BooleanType n) l r) (both_are_null l r)
                (cmp_node O_kEq l r) y _ _ Ho Bx (By n) _ Ex Ey v E).
      destruct (short_circuit_order _ _ _ _) eqn:Es; [done | |].
      - intros Eq. by destruct (N (Ex _ Eq)).
      - intros Ny. by destruct (By false _ Ny) as [?|[?|[_ ?]]]. }
    destruct (bw_meaning_spec (BooleanType n) l r _ Em) as [?|(_ & Ec' & Hf)]; [done|].
    by destruct Hf, (N Ec').
Qed.

Lemma code_boolean e : typed e -> boolean_code (expr_type e) (code e).
Proof.
  induction e as [| |t op l IHl r IHr|t op e' IH| | | | |]; try (by intros [_ Hv]).
  - intros [-> Ht]. destruct op; try done; cbn [expr_type];
      try (destruct Ht as (_ & _ & Hl & Hr);
           apply (logical_boolean _ _ l r); [by (left + right) | |];
           (eapply boolean_weaken_code; [first [by apply IHl | by apply IHr] |];
            intros ->; by rewrite ?orb_true_r));
      destruct Ht as (Hs & Hl & Hr); try exact (proj2 (cmp_node_spec _ l r Hs Hl Hr)).
    exact (proj1 (bw_eq_code _ l r eq_refl Hs Hl Hr)).
  - destruct op; try (by intros [_ Hv]).
    + intros (Hb & -> & He) v E. cbn [code] in E. destruct (code e') as [a|] eqn:Ea; [|done].
      specialize (IH He a eq_refl). destruct (expr_type e'); try discriminate Hb.
      cbn [expr_type]. cbn in E. injection E as <-. unfold boolean_value in *. cbn [nullable] in *.
      destruct n, IH as [-> | [-> | [-> ?]]]; try discriminate; vm_compute; tauto.
    + intros [-> He]. exact (proj2 (isnull_code (BooleanType false) false e' He)).
Qed.

Lemma not_value n a :
  boolean_value (BooleanType n) a ->
  exists v, codegenLogicalNot (BooleanType n) a = Ok v /\ truth null_bool v = kleene_not (truth null_bool a).
Proof.
  unfold boolean_value, codegenLogicalNot. cbn [isBoolean nullable negb].
  destruct n; intros [-> | [-> | [-> ?]]]; try discriminate; eexists; (split; [reflexivity | by vm_compute]).
Qed.

Lemma operands_boolean t l r :
  t = BooleanType (nullable (expr_type l) || nullable (expr_type r)) -> typed l -> typed r ->
  boolean_code t (code l) /\ boolean_code t (code r).
Proof.
  intros -> Hl Hr.
  split; (eapply boolean_weaken_code; [by apply code_boolean | intros ->; by rewrite ?orb_true_r]).
Qed.

(** The code never says true for false or false for true; without a null in the wrong place it is
    exact. *)
Lemma code_spec e :
  typed e -> refines (code e) (meaning e) /\ (no_null_first e -> exact_code (code e) (meaning e)).
Proof.
  assert (Leaf : forall e, code e = value e ->
            meaning e = (let* v := value e in Ok (truth null_bool v)) -> exact_code (code e) (meaning e)).
  { intros e0 -> -> v E. by rewrite E. }
  assert (Exact : forall x m, exact_code x m -> refines x m) by (intros x m Hx a Ea; right; by apply Hx).
  induction e as [| |t op l IHl r IHr|t op e' IH| | | | |]; try (intros _; split; [apply Exact|intros _]; by apply Leaf).
  - intros [Et Ht]. destruct op; try done.
    all: try (destruct Ht as (Hs & Hl & Hr);
              split; [apply Exact|intros _]; exact (proj1 (cmp_node_spec _ l r Hs Hl Hr))).
    + destruct Ht as (Hs & Hl & Hr). rewrite Et. exact (proj2 (bw_eq_code _ l r eq_refl Hs Hl Hr)).
    + destruct Ht as (_ & _ & Hl & Hr). destruct (operands_boolean t l r Et Hl Hr) as [Bl Br].
      destruct (IHl Hl) as [Rl Xl], (IHr Hr) as [Rr Xr]. subst t. split.
      * exact (logical_refines _ O_kAnd l r _ _ _ _ (or_introl eq_refl) Bl Br Rl Rr).
      * intros (N & Nl & Nr).
        exact (logical_exact _ O_kAnd l r _ _ _ _ (or_introl eq_refl) Bl Br N (Xl Nl) (Xr Nr)).
    + destruct Ht as (_ & _ & Hl & Hr). destruct (operands_boolean t l r Et Hl Hr) as [Bl Br].
      destruct (IHl Hl) as [Rl Xl], (IHr Hr) as [Rr Xr]. subst t. split.
      * exact (logical_refines _ O_kOr l r _ _ _ _ (or_intror eq_refl) Bl Br Rl Rr).
      * intros (N & Nl & Nr).
        exact (logical_exact _ O_kOr l r _ _ _ _ (or_intror eq_refl) Bl Br N (Xl Nl) (Xr Nr)).
  - destruct op; try (intros _; split; [apply Exact|intros _]; by apply Leaf).
    + intros (Hb & -> & He). destruct (IH He) as [R X].
      assert (V : forall v, code (UOper (expr_type e') O_kNot e') = Ok v -> exists a, code e' = Ok a /\
                    truth null_bool v = kleene_not (truth null_bool a)).
      { intros v E. cbn [codegen_filter] in E. destruct (code e') as [a|] eqn:Ea; [|done].
        exists a. split; [done|]. pose proof (code_boolean e' He a Ea) as Ha.
        destruct (expr_type e') as [n| | | | | | | | | |]; try discriminate Hb.
        destruct (not_value n a Ha) as (w & Ew & Tw). cbn [rbind] in E. rewrite Ew in E. by injection E as <-. }
      split; [intros v E | intros N v E]; destruct (V v E) as (a & Ea & ->); cbn [meaning].
      * destruct (R a Ea) as [-> | ->]; [by left | by right].
      * by rewrite (X N a Ea).
    + intros [_ He]. destruct (isnull_code t false e' He) as [Hx _].
      split; [by apply Exact | done].
Qed.

(** ** Conjuncts *)

Section Conjuncts.

(** The rewriting finds an OR of equalities that becomes an IN. *)
Fixpoint makes_in (e : Expr F) : bool :=
  match e with
  | BinOper _ op l r =>
      match (match op with O_kOr => or_to_in info e | _ => None end) with Some _ => true | None => makes_in l || makes_in r end
  | UOper _ _ e' | LikeExpr _ e' | ExtractExpr _ _ e' | DateTruncExpr _ _ e' => makes_in e'
  | CaseExpr _ pairs else_expr =>
      existsb (fun p => makes_in (fst p) || makes_in (snd p)) pairs || makes_in else_expr
  | _ => false
  end.

(** The parts of a condition, taken apart at [op], that are not binary operators have no such OR
    and no likelihood. *)
Fixpoint parts_kept (op : IrOp) (e : Expr F) : bool :=
  match e with
  | BinOper _ op' l r => if bool_decide (op' = op) then parts_kept op l && parts_kept op r else true
  | _ => negb (makes_in e) && match likelihood_of info e with Some _ => false | None => true end
  end.

Lemma visit_keeps e : makes_in e = false -> visit_or_to_in info e = e.
Proof.
  induction e using Expr_branches_ind; cbn [makes_in visit_or_to_in]; try done.
  - destruct (match op with O_kOr => _ | _ => _ end) as [[? ?]|]; [done|].
    intros [? ?]%orb_false_iff. by rewrite IHe1, IHe2.
  - intros ?. by rewrite IHe.
  - intros [Hp ?]%orb_false_iff. rewrite IHe by done. f_equal. clear IHe.
    match goal with HF : Forall _ ps |- _ => induction HF as [|[c v] l [Hc Hv] _ IH] end; [done|]. simpl in *.
    apply orb_false_iff in Hp as [[? ?]%orb_false_iff ?]. by rewrite Hc, Hv, IH.
  - intros ?. by rewrite IHe.
  - intros ?. by rewrite IHe.
  - intros ?. by rewrite IHe.
Qed.

Lemma rewrite_keeps e :
  negb (makes_in e) && match likelihood_of info e with Some _ => false | None => true end = true ->
  rewrite_expr info e = e.
Proof.
  intros [Hm Hl]%andb_true_iff. apply negb_true_iff in Hm. unfold rewrite_expr, strip_likelihood.
  destruct (likelihood_of info e) eqn:El; [done|]. by rewrite visit_keeps, El.
Qed.

Abbreviation conjuncts e :=
  (cf_simple_quals (qual_to_conjunctive_form info e) ++ cf_quals (qual_to_conjunctive_form info e)).

Lemma commute_cmp op cop : cmp_op op = Some cop ->
  exists cop', cmp_op (commuteComparison op) = Some cop' /\
    forall a b, sql_compare cop' b a = sql_compare cop a b.
Proof.
  destruct op; intros [= <-]; eexists; (split; [reflexivity|]); intros [a|] [b|]; simpl; try done;
    by rewrite Z.eqb_sym.
Qed.

Lemma commute_meaning t op l r :
  isComparison op = true ->
  true_of (meaning (BinOper t (commuteComparison op) r l)) <-> true_of (meaning (BinOper t op l r)).
Proof.
  intros Hc. unfold true_of.
  assert (op = O_kBwEq \/ op <> O_kBwEq) as [->|Nb] by (destruct op; (by left) || (by right)).
  { cbn [meaning commuteComparison]. destruct (value l), (value r); cbn [rbind]; try done.
    split; intros [= E%bool_decide_eq_true_1]; by rewrite bool_decide_eq_true_2. }
  destruct (cmp_op op) as [cop|] eqn:Ec; [|by destruct op].
  destruct (commute_cmp op cop Ec) as (cop' & Ec' & Hs).
  assert (M : forall o c x y, cmp_op o = Some c -> o <> O_kBwEq ->
    meaning (BinOper t o x y) = (let* a := value x in let* b := value y in
      Ok (sql_compare c (sql_of (expr_type x) a) (sql_of (expr_type y) b)))).
  { intros o c x y Eo No. destruct o; try done; cbn [meaning]; injection Eo as <-; done. }
  rewrite (M op cop l r Ec Nb), (M _ cop' r l Ec') by (by destruct op).
  destruct (value l), (value r); cbn [rbind]; try done. by rewrite Hs.
Qed.

Lemma normalized_cases t op (l r q : Expr F) :
  normalize_simple_predicate t op l r = Some q ->
  isComparison op = true /\ (q = BinOper t op l r \/ q = BinOper t (commuteComparison op) r l).
Proof.
  unfold normalize_simple_predicate. destruct (isComparison op); [|done]. cbn [negb]. intros E.
  split; [done|].
  repeat match type of E with (if ?b then _ else _) = _ => destruct b end; simplify_eq; by (left + right).
Qed.

Lemma commute_typed t op (l r : Expr F) :
  isComparison op = true -> typed (BinOper t op l r) -> typed (BinOper t (commuteComparison op) r l).
Proof.
  intros Hc [Et Ht]. split; [by rewrite orb_comm|]. destruct op; try done; destruct Ht as (? & ? & ?); by split.
Qed.

(** The conjuncts hold together exactly when the condition does. *)
Lemma conjuncts_true e :
  typed e -> parts_kept O_kAnd e = true ->
  Forall typed (conjuncts e) /\ (true_of (meaning e) <-> Forall (fun q => true_of (meaning q)) (conjuncts e)).
Proof.
  assert (One : forall q e0, typed q -> (true_of (meaning q) <-> true_of (meaning e0)) ->
    Forall typed [q] /\ (true_of (meaning e0) <-> Forall (fun q => true_of (meaning q)) [q])).
  { intros q e0 Hq Hm. rewrite !Forall_singleton. by rewrite Hm. }
  assert (Other : forall e0, rewrite_expr info e0 = e0 -> typed e0 -> Forall typed [rewrite_expr info e0] /\
    (true_of (meaning e0) <-> Forall (fun q => true_of (meaning q)) [rewrite_expr info e0]))
    by (intros e0 -> He; by apply One).
  induction e as [| |t op l IHl r IHr| | | | | |];
    try (intros He Hk; apply Other; [by apply rewrite_keeps | exact He]).
  intros He Hk. assert (op = O_kAnd \/ op <> O_kAnd) as [->|No] by (destruct op; (by left) || (by right)).
  - destruct He as [_ (_ & _ & Hl & Hr)]. apply andb_true_iff in Hk as [Kl Kr].
    destruct (IHl Hl Kl) as [Tl El], (IHr Hr Kr) as [Tr Er].
    cbn [qual_to_conjunctive_form cf_simple_quals cf_quals meaning]. rewrite lazy_and_true, El, Er.
    rewrite !Forall_app in *. tauto.
  - assert (E : qual_to_conjunctive_form info (BinOper t op l r) =
                match normalize_simple_predicate t op l r with
                | Some q => mkQuals [q] [] | None => mkQuals [] [BinOper t op l r] end)
      by (by destruct op).
    rewrite E. destruct (normalize_simple_predicate t op l r) as [q|] eqn:En; cbn [cf_simple_quals cf_quals app].
    + destruct (normalized_cases t op l r q En) as [Hc [-> | ->]]; apply One; try done.
      * by apply commute_typed.
      * by apply commute_meaning.
    + by apply One.
Qed.

(** A disjunctive form holds in one of its parts. *)
Lemma disjuncts_true e :
  typed e -> parts_kept O_kOr e = true ->
  true_of (meaning e) <-> Exists (fun q => true_of (meaning q)) (qual_to_disjunctive_form info e).
Proof.
  assert (Other : forall e0, rewrite_expr info e0 = e0 -> true_of (meaning e0) <->
    Exists (fun q => true_of (meaning q)) [rewrite_expr info e0])
    by (intros e0 ->; rewrite Exists_cons, Exists_nil; tauto).
  induction e as [| |t op l IHl r IHr| | | | | |]; try (intros He Hk; apply Other; by apply rewrite_keeps).
  intros He Hk. assert (op = O_kOr \/ op <> O_kOr) as [->|No] by (destruct op; (by left) || (by right)).
  - destruct He as [_ (_ & _ & Hl & Hr)]. apply andb_true_iff in Hk as [Kl Kr].
    cbn [qual_to_disjunctive_form meaning]. by rewrite lazy_or_true, IHl, IHr, Exists_app.
  - assert (E : qual_to_disjunctive_form info (BinOper t op l r) = [BinOper t op l r]) by (by destruct op).
    rewrite E, Exists_cons, Exists_nil. tauto.
Qed.

(** ** The order of evaluation *)

Lemma prioritize_simple_perm h qs p d :
  prioritize_simple info h qs = (p, d) -> Permutation (p ++ d) (List.filter (fun e => negb (h e)) qs).
Proof.
  revert p d. induction qs as [|e qs IH]; intros p d E; simpl in E.
  { by injection E as <- <-. }
  destruct (prioritize_simple info h qs) as [p0 d0]. specialize (IH p0 d0 eq_refl). cbn [List.filter].
  destruct (h e); cbn [negb]; [by injection E as <- <-|].
  destruct (should_defer_eval info e); injection E as <- <-; [|by constructor].
  rewrite <- Permutation_middle. by constructor.
Qed.

Lemma prioritize_rest_perm h qs : forall sc p d sc',
  prioritize_rest info h sc qs = (p, d, sc') -> Permutation (p ++ d) (List.filter (fun e => negb (h e)) qs).
Proof.
  induction qs as [|e qs IH]; intros sc p d sc' E; simpl in E.
  { by injection E as <- <- _. }
  cbn [List.filter]. destruct (h e); cbn [negb]; [by eapply IH|].
  destruct (_ && _ && _).
  { destruct (prioritize_rest info h true qs) as [[p0 d0] s0] eqn:E0. injection E as <- <- _.
    constructor. by eapply IH. }
  destruct (prioritize_rest info h sc qs) as [[p0 d0] s0] eqn:E0.
  destruct (_ || _); injection E as <- <- _; [rewrite <- Permutation_middle|]; constructor; by eapply IH.
Qed.

Lemma prioritize_perm s q h p d sc :
  prioritizeQuals info s q h = (p, d, sc) ->
  Permutation (p ++ d) (List.filter (fun e => negb (h e)) (s ++ q)).
Proof.
  unfold prioritizeQuals. destruct (prioritize_simple info h s) as [p0 d0] eqn:E0.
  destruct (prioritize_rest info h false q) as [[p1 d1] s1] eqn:E1. intros [= <- <- _].
  rewrite List.filter_app, <- (prioritize_simple_perm h s p0 d0 E0), <- (prioritize_rest_perm h q _ _ _ _ E1).
  rewrite <- !app_assoc. apply Permutation_app_head. rewrite !app_assoc. apply Permutation_app_tail.
  apply Permutation_app_comm.
Qed.

Definition condition_is (b : bool) (e : Expr F) : Prop := exists v, code e = Ok v /\ toBool v = b.

Lemma all_conditions_cases qs b :
  all_conditions info query_infos ex device row qs = Ok b ->
  if b then Forall (condition_is true) qs else Exists (condition_is false) qs.
Proof.
  revert b. induction qs as [|e qs IH]; intros b E; simpl in E; [by injection E as <-|].
  destruct (code e) as [v|] eqn:Ev; [|done]. cbn [rbind] in E.
  destruct (all_conditions _ _ _ _ _ qs) as [b0|]; [|done]. injection E as <-. specialize (IH b0 eq_refl).
  destruct (toBool v) eqn:Et, b0; simpl in *.
  - constructor; [by exists v | done].
  - by right.
  - left. by exists v.
  - by right.
Qed.

Lemma filter_passes_cases s q h b :
  filter_passes info query_infos ex device row s q h = Ok b ->
  let qs := List.filter (fun e => negb (h e)) (s ++ q) in
  if b then Forall (condition_is true) qs else Exists (condition_is false) qs.
Proof.
  unfold filter_passes. destruct (prioritizeQuals info s q h) as [[p d] sc] eqn:Ep. intros E.
  pose proof (prioritize_perm s q h p d sc Ep) as P. set (qs := List.filter _ _) in *.
  destruct (all_conditions _ _ _ _ _ p) as [bp|] eqn:E1; [|done]. cbn [rbind] in E.
  apply all_conditions_cases in E1.
  assert (G : if b then Forall (condition_is true) (p ++ d) else Exists (condition_is false) (p ++ d)).
  { destruct d as [|e0 d0].
    - injection E as <-. by rewrite app_nil_r.
    - destruct bp.
      + apply all_conditions_cases in E. destruct b; [by rewrite Forall_app | rewrite Exists_app; by right].
      + injection E as <-. rewrite Exists_app. by left. }
  destruct b; [by rewrite P in G | ].
  apply Exists_exists in G as (e & He & Hc). apply Exists_exists. exists e. split; [|done].
  by rewrite <- P.
Qed.

(** ** WHERE *)

Lemma condition_true e : typed e -> condition_is true e -> true_of (meaning e).
Proof.
  intros He (v & Ev & Tv). pose proof (code_boolean e He v Ev) as Hv. apply (toBool_truth _ v Hv) in Tv.
  destruct (proj1 (code_spec e He) v Ev) as [?|Em]; [congruence|]. unfold true_of. by rewrite Em, Tv.
Qed.

Lemma condition_false e : typed e -> no_null_first e -> condition_is false e -> ~ true_of (meaning e).
Proof.
  intros He N (v & Ev & Tv) T. pose proof (code_boolean e He v Ev) as Hv.
  unfold true_of in T. rewrite (proj2 (code_spec e He) N v Ev) in T. injection T as T.
  apply (toBool_truth _ v Hv) in T. congruence.
Qed.

Lemma all_conditions_runs qs :
  Forall (fun q => exists v, code q = Ok v) qs ->
  exists b, all_conditions info query_infos ex device row qs = Ok b.
Proof.
  induction 1 as [|q qs [v Ev] _ [b Eb]]; [by exists true|]. simpl. rewrite Ev, Eb. by eexists.
Qed.

Lemma filter_passes_runs s q h :
  Forall (fun q => exists v, code q = Ok v) (s ++ q) ->
  exists b, filter_passes info query_infos ex device row s q h = Ok b.
Proof.
  intros Hq. unfold filter_passes. destruct (prioritizeQuals info s q h) as [[p d] sc] eqn:Ep.
  assert (Hpd : Forall (fun q => exists v, code q = Ok v) (p ++ d)).
  { rewrite (prioritize_perm s q h p d sc Ep). rewrite Forall_forall in Hq |- *.
    intros e [He _]%filter_In. by apply Hq. }
  apply Forall_app in Hpd as [Hp Hd]. destruct (all_conditions_runs p Hp) as [bp ->]. cbn [rbind].
  destruct d as [|e d]; [by exists bp|]. destruct bp; [by apply all_conditions_runs | by exists false].
Qed.

End Conjuncts.
End Meaning.

(** ** Examples *)

(** Likelihoods in hundredths. *)
Definition hundredths : LikelihoodOps Z := {|
  l_add := Z.add; l_sub := Z.sub; l_mul := fun a b => a * b / 100; l_div := fun a b => 100 * a / b;
  l_ltb := Z.ltb; l_half := 50; l_one := 100; l_two := 200; l_tenth := 10; l_ninety := 90
|}.

Module FilterExample.
#[local] Existing Instance fp_int.
#[local] Existing Instance hundredths.

Definition no_info : @ExprInfo Z Z := {|
  likelihood_of := fun _ => None; likelihood_arg := fun e => e; same_rest := fun _ _ => false;
  isRegexpExpr := fun _ => false;
  isFunctionOper := fun _ => false; isSimple := fun _ => false |}.
Definition int_column (i : Z) : Expr Z := ColumnVar (IntegerType 4 true) 1 i 0 false.
Definition int_literal (v : Z) : Expr Z := Constant (IntegerType 4 false) false (IntVal v).
Definition binary (op : IrOp) (l r : Expr Z) : Expr Z := BinOper (BooleanType true) op l r.
Definition arithmetic_of (op : IrOp) (l r : Expr Z) : Expr Z := BinOper (IntegerType 4 true) op l r.
Definition row_of (a b c : Z) : Row Z :=
  {| row_column := fun _ i _ => if i =? 1 then a else if i =? 2 then b else c;
     row_test := fun _ => false; row_like := fun _ => 0 |}.
Definition null4 : Z := - 2 ^ 31.

(** The filter of a condition, without hoisting. *)
Definition passes (row : Row Z) (e : Expr Z) : result CodeError bool :=
  let cf := qual_to_conjunctive_form no_info e in
  filter_passes no_info [Example.info] Example.ex OnCPU row (cf_simple_quals cf) (cf_quals cf) (fun _ => false).
Definition says (row : Row Z) (e : Expr Z) : outcome := meaning [Example.info] Example.ex OnCPU row e.

(** [5 < a AND (b = 7 OR b IS NULL)]. *)
Definition example_where : Expr Z :=
  binary O_kAnd (binary O_kLt (int_literal 5) (int_column 1))
    (binary O_kOr (binary O_kEq (int_column 2) (int_literal 7))
       (UOper (BooleanType false) O_kIsNull (int_column 2))).


(** [a = 1 OR b / c = 1] with a null [a]: the division makes the OR short-circuit, and the null
    decides although the other operand is true. *)
Lemma null_or_true_lost :
  let e := binary O_kOr (binary O_kEq (int_column 1) (int_literal 1))
             (binary O_kEq (arithmetic_of O_kDiv (int_column 2) (int_column 3)) (int_literal 1)) in
  true_of (says (row_of null4 4 4) e) /\ passes (row_of null4 4 4) e = Ok false.
Proof. by vm_compute. Qed.

(** [NOT (a IS NOT DISTINCT FROM 1)] with a null [a]. *)
Lemma distinct_from_null_lost :
  let e := UOper (BooleanType true) O_kNot (binary O_kBwEq (int_column 1) (int_literal 1)) in
  true_of (says (row_of null4 0 0) e) /\ passes (row_of null4 0 0) e = Ok false.
Proof. by vm_compute. Qed.

(** [NOT (a = 1 OR a = 2 OR b = 3)] becomes a negated OR with an IN; the OR itself, as a conjunct, is
    left as it is. *)
Lemma or_becomes_in :
  let ors := binary O_kOr (binary O_kEq (int_column 1) (int_literal 1)) (binary O_kEq (int_column 1) (int_literal 2)) in
  let e := binary O_kOr ors (binary O_kEq (int_column 2) (int_literal 3)) in
  rewrite_expr no_info (UOper (BooleanType true) O_kNot e)
  = UOper (BooleanType true) O_kNot (binary O_kOr (OtherExpr (BooleanType true)) (binary O_kEq (int_column 2) (int_literal 3)))
  /\ or_to_in no_info ors = Some (int_column 1, [int_literal 1; int_literal 2])
  /\ cf_quals (qual_to_conjunctive_form no_info ors) = [ors].
Proof. by vm_compute. Qed.

(** A condition with a likelihood loses it. *)
Definition hinted : @ExprInfo Z Z := {|
  likelihood_of := fun e => match e with OtherExpr _ => Some 5 | _ => None end; likelihood_arg := fun _ => int_column 1;
  same_rest := fun _ _ => false; isRegexpExpr := fun _ => false; isFunctionOper := fun _ => false; isSimple := fun _ => false |}.
Lemma likelihood_lost :
  unlikely hinted (OtherExpr (BooleanType true)) = true /\
  unlikely hinted (rewrite_expr hinted (OtherExpr (BooleanType true))) = false.
Proof. by vm_compute. Qed.

(** [a <> 0 AND b / a = 1] is not evaluated for a zero [a]; [a <> 0 AND b % a = 1] is. *)
Lemma modulo_not_deferred :
  let guarded op := binary O_kAnd (binary O_kNe (int_column 1) (int_literal 0))
                      (binary O_kEq (arithmetic_of op (int_column 2) (int_column 1)) (int_literal 1)) in
  passes (row_of 0 5 0) (guarded O_kDiv) = Ok false /\
  passes (row_of 0 5 0) (guarded O_kMod) = Err (RunError ERR_DIV_BY_ZERO).
Proof. by vm_compute. Qed.
End FilterExample.
