(* ===== verification/FragmentSkip.v ===== *)
(** * Skipping fragments ([Execute.cpp])

    Before a fragment of the outer table is scanned, the simple conditions of the query are held
    against the statistics of its chunks: a fragment none of whose rows can pass is left out.
    The theorem at the end: no row of a fragment that is left out passes. *)

From Stdlib Require Import ZArith Lia List Bool.
From stdpp Require Import base list gmap numbers.
From S2P Require Import Prelude ExtractFromTime ExtractFacts DateTruncate DateTruncFacts DateAdd DateAddFacts.
From S2P Require Import NullableOps IRExpr ExpressionRange GeneratedCode RangeFacts RangeTimes RangeCasts.
From S2P Require Import RangeProps FilterCode FilterProps.
Import ListNotations.
Local Open Scope Z_scope.
Local Open Scope hdk_scope.

Inductive FragmentSkipStatus := SKIPPABLE | NOT_SKIPPABLE | INVALID.

(** The limits of a chunk in the unit of the constant; [None] is an overflow. *)
Definition get_hpt_overflow_underflow_safe_scaled_values (chunk_min chunk_max : Z)
    (lhs_type rhs_type : IrType) : result RangeError (option (Z * Z)) :=
  let lunit := unit_or_second lhs_type in
  let runit := unit_or_second rhs_type in
  if same_unit lunit runit then Err RCheck
  else if coarser runit lunit then
    let scale := Z.quot (units lunit) (units runit) in
    Ok (Some (Z.quot chunk_min scale, Z.quot chunk_max scale))
  else
    let scale := Z.quot (units runit) (units lunit) in
    match checked (chunk_min * scale), checked (chunk_max * scale) with
    | Some lo, Some hi => Ok (Some (lo, hi))
    | _, _ => Ok None
    end.

(** No value from [chunk_min] to [chunk_max] compares with the constant. *)
Definition cannot_match (op : IrOp) (chunk_min chunk_max rhs_val : Z) : bool :=
  match op with
  | O_kGe => chunk_max <? rhs_val
  | O_kGt => chunk_max <=? rhs_val
  | O_kLe => rhs_val <? chunk_min
  | O_kLt => rhs_val <=? chunk_min
  | O_kEq => (rhs_val <? chunk_min) || (chunk_max <? rhs_val)
  | _ => false
  end.

Section Skip.
Context {F : Type} `{FpOps F}.
Abbreviation fragment := (@FragmentInfo F).

Definition fp_leb (a b : F) : bool := fp_ltb a b || fp_eqb a b.

Definition canSkipFragmentForFpQual (op : IrOp) (col_id : Z) (fragment : fragment) (rhs_type : IrType)
    (rhs_value : Datum F) : result RangeError FragmentSkipStatus :=
  match chunkMetadataMap fragment !! col_id with
  | None => Ok NOT_SKIPPABLE
  | Some stats =>
      let* chunk_min := extract_fp (stat_min stats) in
      let* chunk_max := extract_fp (stat_max stats) in
      if fp_ltb chunk_max chunk_min then Ok INVALID
      else if negb (isFloatingPoint rhs_type) then Err RCheck
      else
        let* rhs_val := extract_fp rhs_value in
        let skip :=
          match op with
          | O_kGe => fp_ltb chunk_max rhs_val
          | O_kGt => fp_leb chunk_max rhs_val
          | O_kLe => fp_ltb rhs_val chunk_min
          | O_kLt => fp_leb rhs_val chunk_min
          | O_kEq => fp_ltb rhs_val chunk_min || fp_ltb chunk_max rhs_val
          | _ => false
          end in
        Ok (if skip then SKIPPABLE else NOT_SKIPPABLE)
  end.

(** The column of a simple condition, bare or under a cast: its type and number, and whether it is
    virtual; [None] if it is not a column of the outer table. *)
Definition outer_column (e : Expr F) : option (IrType * Z * bool) :=
  match e with
  | ColumnVar type tableId columnId rteIdx isVirtual =>
      if (tableId =? 0) || negb (rteIdx =? 0) then None else Some (type, columnId, isVirtual)
  | _ => None
  end.

Definition simple_column (lhs : Expr F) : result RangeError (option (IrType * Z * bool)) :=
  match outer_column lhs with
  | Some c => Ok (Some c)
  | None =>
      match lhs with
      | UOper _ op operand => match op with O_kCast => Ok (outer_column operand) | _ => Err RCheck end
      | _ => Ok None
      end
  end.

(** [codegenIntConst]. *)
Definition int_const (type : IrType) (is_null : bool) (value : Datum F) : result RangeError Z :=
  if is_null then Ok (inline_int_null_value type) else extract_int value.

(** The limits of the column in the fragment, and the first row if it is the row number.  A
    column without statistics that is not virtual has the limits 0 and 0. *)
Definition chunk_limits (fragment : fragment) (col_id : Z) (isVirtual : bool) (start_rowid : Z)
    (frag_offsets : list Z) (frag_idx : nat) : result RangeError (Z * Z * bool) :=
  match chunkMetadataMap fragment !! col_id with
  | Some stats =>
      let* chunk_min := extract_int (stat_min stats) in
      let* chunk_max := extract_int (stat_max stats) in
      Ok (chunk_min, chunk_max, false)
  | None =>
      if isVirtual then
        let* off := of_option (frag_offsets !! frag_idx) in
        let* next := of_option (frag_offsets !! S frag_idx) in
        Ok (s64 (off + start_rowid), s64 (next - 1 + start_rowid), true)
      else Ok (0, 0, false)
  end.

(** The limits in the unit of the constant: scaled for a cast between timestamps, truncated for a
    cast to a date. *)
Definition adjusted_limits (lhs_type col_type rhs_type : IrType) (chunk_min chunk_max : Z)
    : result RangeError (option (Z * Z)) :=
  let lhs_col_unit := unit_or_second col_type in
  let rhs_unit := unit_or_second rhs_type in
  let* scaled :=
    if isTimestamp lhs_type && negb (same_unit lhs_col_unit rhs_unit)
       && (coarser TU_kSecond lhs_col_unit || coarser TU_kSecond rhs_unit)
    then get_hpt_overflow_underflow_safe_scaled_values chunk_min chunk_max col_type rhs_type
    else Ok (Some (chunk_min, chunk_max)) in
  Ok match scaled with
     | None => None
     | Some (lo, hi) =>
         if isTimestamp col_type && isDate rhs_type
         then Some (DateTruncateHighPrecisionToDate lo (units lhs_col_unit),
                    DateTruncateHighPrecisionToDate hi (units lhs_col_unit))
         else Some (lo, hi)
     end.

(** What one condition says of the fragment. *)
Inductive Verdict := Answer (skip : bool) (rowid : Z) | Continue.

Definition skip_qual (fragment : fragment) (start_rowid : Z) (frag_offsets : list Z) (frag_idx : nat)
    (simple_qual : Expr F) : result RangeError Verdict :=
  match simple_qual with
  | BinOper _ op lhs rhs =>
      let* column := simple_column lhs in
      match column with
      | None => Ok Continue
      | Some (col_type, col_id, isVirtual) =>
          match rhs with
          | Constant rhs_type is_null value =>
              let lhs_type := expr_type lhs in
              if negb (isInteger lhs_type) && negb (isDateTime lhs_type) && negb (isFloatingPoint lhs_type)
              then Ok Continue
              else if isFloatingPoint lhs_type then
                let* status := canSkipFragmentForFpQual op col_id fragment rhs_type value in
                Ok match status with
                   | SKIPPABLE => Answer true (-1)
                   | INVALID => Answer false (-1)
                   | NOT_SKIPPABLE => Continue
                   end
              else
                let* limits := chunk_limits fragment col_id isVirtual start_rowid frag_offsets frag_idx in
                let '(chunk_min, chunk_max, is_rowid) := limits in
                if chunk_max <? chunk_min then Ok (Answer false (-1))
                else
                  let* adjusted := adjusted_limits lhs_type col_type rhs_type chunk_min chunk_max in
                  match adjusted with
                  | None => Ok (Answer false (-1))
                  | Some (chunk_min, chunk_max) =>
                      let* rhs_val := int_const rhs_type is_null value in
                      Ok (if cannot_match op chunk_min chunk_max rhs_val then Answer true (-1)
                          else match op with
                               | O_kEq => if is_rowid then Answer false (s64 (rhs_val - start_rowid)) else Continue
                               | _ => Continue
                               end)
                  end
          | _ => Ok (Answer false (-1))
          end
      end
  | _ => Ok (Answer false (-1))
  end.

Fixpoint skipFragment (fragment : fragment) (start_rowid : Z) (frag_offsets : list Z) (frag_idx : nat)
    (simple_quals : list (Expr F)) : result RangeError (bool * Z) :=
  match simple_quals with
  | [] => Ok (false, -1)
  | simple_qual :: quals =>
      let* verdict := skip_qual fragment start_rowid frag_offsets frag_idx simple_qual in
      match verdict with
      | Answer skip rowid => Ok (skip, rowid)
      | Continue => skipFragment fragment start_rowid frag_offsets frag_idx quals
      end
  end.

(** ** Conditions of inner joins *)

Inductive JoinType := JT_INNER | JT_LEFT | JT_SEMI | JT_ANTI | JT_INVALID.
Record JoinCondition := mkJoinCondition { join_quals : list (Expr F); join_type : JoinType }.

Context {L : Type}.
Variable info : @ExprInfo F L.

(** Each list of simple conditions is put before those there are. *)
Definition inner_join_simple_quals (quals : list (Expr F)) : list (Expr F) :=
  fold_left (fun acc qual => cf_simple_quals (qual_to_conjunctive_form info qual) ++ acc) quals [].

Fixpoint skip_inner_joins (fragment : fragment) (start_rowid : Z) (frag_offsets : list Z) (frag_idx : nat)
    (joins : list JoinCondition) (skip_frag : bool) : result RangeError (bool * Z) :=
  match joins with
  | [] => Ok (skip_frag, -1)
  | inner_join :: joins' =>
      match join_type inner_join with
      | JT_INNER =>
          let* temp_skip_frag := skipFragment fragment start_rowid frag_offsets frag_idx
                                   (inner_join_simple_quals (join_quals inner_join)) in
          if negb (snd temp_skip_frag =? -1) then Ok (skip_frag, snd temp_skip_frag)
          else skip_inner_joins fragment start_rowid frag_offsets frag_idx joins'
                 (skip_frag || fst temp_skip_frag)
      | _ => skip_inner_joins fragment start_rowid frag_offsets frag_idx joins' skip_frag
      end
  end.

Definition skipFragmentInnerJoins (fragment : fragment) (start_rowid : Z) (frag_offsets : list Z)
    (frag_idx : nat) (joins : list JoinCondition) : result RangeError (bool * Z) :=
  skip_inner_joins fragment start_rowid frag_offsets frag_idx joins false.

End Skip.

(** ** Soundness *)

Lemma same_unit_eq u u' : same_unit u u' = true -> u = u'.
Proof. by destruct u, u'. Qed.

Lemma cannot_match_sound op cop lo hi x c :
  cmp_op op = Some cop -> cannot_match op lo hi c = true -> lo <= x <= hi ->
  NullableOps.compare cop x c = false.
Proof.
  destruct op; intros [= <-] Hm Hx; simpl in *; try discriminate; zbool; try done; simpl in *; try discriminate; lia.
Qed.

Section SkipSound.
Context {F L : Type} `{FpOps F} `{LikelihoodOps L}.
Variables (info : @ExprInfo F L) (query_infos : list (@InputTableInfo F)) (ex : @Executor F)
          (device : Device) (row : Row F).
Abbreviation code := (codegen_filter info query_infos ex device row).
Abbreviation passes := (condition_is info query_infos ex device row true).
Abbreviation range := (ExpressionRange F).
Abbreviation fragment := (@FragmentInfo F).

(** The limits of a timestamp cast to another unit. *)
Lemma scaled_limits_sound te t rt lo hi lo' hi' v x :
  time_cast_ok te t lo hi -> same_unit (unit_or_second t) (unit_or_second rt) = true ->
  same_unit (unit_or_second te) (unit_or_second rt) = false ->
  value_ok te (IntRange lo hi 0 true : range) v -> lo <= hi ->
  get_hpt_overflow_underflow_safe_scaled_values lo hi te rt = Ok (Some (lo', hi')) ->
  codegenCastBetweenTimestamps (unit_or_second te) (unit_or_second t) (nullable te) (nullable t) v = Ok x ->
  value_ok t (IntRange lo' hi' 0 true : range) x.
Proof.
  intros Hok Hs Hd [_ Hv] Hle E Ec. apply same_unit_eq in Hs. rewrite <- Hs in *.
  unfold get_hpt_overflow_underflow_safe_scaled_values in E. rewrite <- Hs, Hd in E.
  pose proof Hok as (Te & Tt & Hn & Ue & Ut & Ht).
  apply (cast_timestamps_sound te t lo hi true lo' hi' v x Hok Hd Hv); [| |exact Ec]; unfold precision_value.
  all: destruct (coarser (unit_or_second t) (unit_or_second te)) eqn:Eu.
  1, 3: assert (Ec' : coarser (unit_or_second te) (unit_or_second t) = false)
          by (by destruct (unit_or_second te), (unit_or_second t));
        destruct (finer_factor _ _ Ue Ut Hd Ec') as [Ef _];
        injection E as <- <-; exact (scaled_epoch_unit_down _ _ _ _ Ef).
  all: assert (Ec' : coarser (unit_or_second te) (unit_or_second t) = true)
         by (by destruct (unit_or_second te), (unit_or_second t));
       pose proof (unit_factor_units _ _ Ue Ut Ec') as Ef;
       (destruct (checked (lo * _)) as [a|] eqn:Ea; [|done]);
       (destruct (checked (hi * _)) as [b|] eqn:Eb; [|done]); injection E as <- <-;
       apply checked_some in Ea as [-> Ha], Eb as [-> Hb];
       rewrite (scaled_epoch_unit_up _ _ _ _ Ef)
         by (destruct Ht as (A & B & _); unfold trunc_ok, INT64_MIN, INT64_MAX in *; lia);
       repeat (rewrite (proj2 (Z.leb_le _ _)) by lia); reflexivity.
Qed.

(** The limits of a column under a cast. *)
Lemma date_limits_sound te n lo hi v :
  isTimestamp te = true -> time_cast_ok te (DateType n) lo hi -> lo <= hi ->
  value_ok te (IntRange lo hi 0 true : range) v ->
  value_ok (DateType n)
    (IntRange (DateTruncateHighPrecisionToDate lo (units (unit_or_second te)))
              (DateTruncateHighPrecisionToDate hi (units (unit_or_second te))) 0 true : range)
    (codegenCastTimestampToDate (unit_or_second te) n v).
Proof.
  intros Hts Hok Hle [_ Hv]. pose proof Hok as (_ & _ & _ & Ue & _ & Ht).
  assert (D : forall x, lo <= x <= hi ->
    DateTruncate DT_kDay (seconds te x) = Some (DateTruncateHighPrecisionToDate x (units (unit_or_second te)))).
  { intros x Hx. destruct (times_ok_value te lo hi x Ht Hx) as [Hxo _].
    destruct (times_ok_seconds te x Hxo) as (Ts & _). destruct Hxo as (Tx & _ & Px).
    rewrite day_trunc by done. unfold DateTruncateHighPrecisionToDate. by rewrite date_of_time. }
  exact (cast_date_sound te n lo hi true _ _ 0 v Hts Hok Hv (D lo ltac:(lia)) (D hi ltac:(lia))).
Qed.

Lemma cast_limits_sound te t rt op lo hi lo' hi' v x :
  cast_ok te t (IntRange lo hi 0 true : range) -> comparable op t rt = true ->
  same_unit (unit_or_second t) (unit_or_second rt) = true -> lo <= hi ->
  value_ok te (IntRange lo hi 0 true : range) v ->
  adjusted_limits t te rt lo hi = Ok (Some (lo', hi')) -> codegenCast te t v = Ok x ->
  value_ok t (IntRange lo' hi' 0 true : range) x.
Proof.
  intros Hok Hc Hs Hle Hv E Ex. unfold adjusted_limits in E.
  assert (Ident : getCastRange t te (IntRange lo hi 0 true : range) = Ok (IntRange lo hi 0 true) ->
                  (lo', hi') = (lo, hi) -> value_ok t (IntRange lo' hi' 0 true : range) x).
  { intros HR [= -> ->]. exact (cast_sound te t lo hi 0 true _ v x Hok Hv HR Ex). }
  destruct Hok as [(Ie & It & _)|Hok].
  { destruct te; try discriminate Ie. destruct t; try discriminate It. by apply Ident; [|injection E as <- <-]. }
  specialize (Hok _ _ _ _ eq_refl). pose proof Hok as (Te & Tt & _ & Ue & Ut & _).
  destruct t as [| | | |n| |u n| | | |]; try discriminate Tt.
  - (* a date *)
    destruct rt as [| | | |rn| | | | | |]; try discriminate Hc. cbn [isTimestamp andb rbind isDate] in E.
    destruct te as [| | | |en| |eu en| | | |]; try discriminate Te.
    + by apply Ident; [|injection E as <- <-].
    + cbn [isTimestamp andb] in E. injection E as <- <-. injection Ex as <-.
      by apply (date_limits_sound (TimestampType eu en)).
  - (* a timestamp *)
    destruct rt as [| | | | | |ru rn| | | |]; try discriminate Hc. cbn [isTimestamp isDate] in E.
    rewrite andb_false_r in E. apply same_unit_eq in Hs. cbn [unit_or_second] in Hs. subst ru.
    destruct (same_unit (unit_or_second te) (unit_or_second (TimestampType u rn))) eqn:Eu.
    + cbn [negb andb rbind] in E. cbn [unit_or_second] in Eu. apply Ident; [|by injection E as <- <-].
      unfold getCastRange. apply same_unit_eq in Eu. cbn [unit_or_second isTimestamp isDate]. rewrite Eu.
      rewrite andb_false_r. by destruct te, u.
    + assert (Ef : coarser TU_kSecond (unit_or_second te) || coarser TU_kSecond u = true)
        by (cbn [unit_or_second] in Eu, Ut; by destruct (unit_or_second te), u).
      cbn [unit_or_second] in E. rewrite Ef in E. cbn [negb andb] in E.
      destruct (get_hpt_overflow_underflow_safe_scaled_values lo hi te _) as [[[a b]|]|] eqn:Eh; try done.
      injection E as <- <-.
      apply (scaled_limits_sound te (TimestampType u n) (TimestampType u rn) lo hi a b v x); try done.
      * by destruct u.
      * unfold codegenCast in Ex. cbn [unit_or_second] in Eu. cbn [unit_or_second isBoolean isTimestamp isDate] in Ex.
        rewrite Eu, !andb_false_r in Ex. by destruct te; try discriminate Te.
Qed.

(** ** Rows of a fragment *)

Section Fragment.
Variables (frag : fragment) (start_rowid : Z) (frag_offsets : list Z) (frag_idx : nat).

(** A value of the column in a row of the fragment: within the statistics of its chunk, or a row
    number. *)
Definition column_in_fragment (type : IrType) (columnId : Z) (isVirtual : bool) (v : Z) : Prop :=
  in_width (8 * type_size type) v /\
  match chunkMetadataMap frag !! columnId with
  | Some stats => in_chunk type stats v
  | None =>
      isVirtual = true /\ 0 <= start_rowid /\ isInteger type = true /\
      exists off next, frag_offsets !! frag_idx = Some off /\ frag_offsets !! S frag_idx = Some next /\
        0 <= off /\ next + start_rowid <= INT64_MAX /\ off + start_rowid <= v < next + start_rowid
  end.

(** What a simple condition needs: a column of the fragment, a cast that the ranges support, and a
    constant of the unit of the left side. *)
Definition simple_qual_ok (qual : Expr F) : Prop :=
  match qual with
  | BinOper _ op lhs (Constant rhs_type _ _) =>
      type_size (expr_type lhs) = type_size rhs_type /\
      same_unit (unit_or_second (expr_type lhs)) (unit_or_second rhs_type) = true /\
      match lhs with
      | ColumnVar type tableId columnId rteIdx isVirtual =>
          rteIdx = 0 -> column_in_fragment type columnId isVirtual (row_column row tableId columnId 0)
      | UOper type _ (ColumnVar col_type tableId columnId rteIdx isVirtual) =>
          rteIdx = 0 ->
          column_in_fragment col_type columnId isVirtual (row_column row tableId columnId 0) /\
          forall lo hi b, chunk_limits frag columnId isVirtual start_rowid frag_offsets frag_idx = Ok (lo, hi, b) ->
            cast_ok col_type type (IntRange lo hi 0 true : range)
      | _ => True
      end
  | _ => True
  end.

Lemma column_limits type columnId isVirtual v lo hi b :
  column_in_fragment type columnId isVirtual v ->
  chunk_limits frag columnId isVirtual start_rowid frag_offsets frag_idx = Ok (lo, hi, b) ->
  value_ok type (IntRange lo hi 0 true : range) v.
Proof.
  intros [W Hv] E. split; [done|]. unfold chunk_limits in E.
  destruct (chunkMetadataMap frag !! columnId) as [stats|].
  - destruct Hv as [(x & y & Ex & Ey & Hxy & N)|(-> & Hn & Ht)]; [left | by right].
    rewrite Ex, Ey in E. cbn [extract_int rbind] in E. by injection E as <- <- _.
  - destruct Hv as (-> & Hs & Hi & off & next & Eo & En & Ho & Hm & Hb). rewrite Eo, En in E.
    cbn [of_option rbind] in E. unfold INT64_MAX in Hm.
    rewrite !s64_small in E by lia. injection E as <- <- _. left. split; [lia|].
    unfold in_width in W. unfold inline_int_null_value. lia.
Qed.

(** A comparison that is true compares two numbers. *)
Lemma comparison_true t op lhs rhs_type is_null value x :
  code lhs = Ok x -> type_size (expr_type lhs) = type_size rhs_type ->
  isComparison op = true -> op <> O_kBwEq ->
  passes (BinOper t op lhs (Constant rhs_type is_null value)) ->
  exists cop c, cmp_op op = Some cop /\ comparable op (expr_type lhs) rhs_type = true /\
    codegenConstant rhs_type is_null value = Ok c /\ NullableOps.compare cop x c = true /\
    (nullable (expr_type lhs) = true -> x <> inline_int_null_value (expr_type lhs)).
Proof.
  intros Ex Hs Hc Hb (v & E & Tv).
  assert (E' : (let* c := codegenConstant rhs_type is_null value in
                codegenCmp op (expr_type lhs) rhs_type x c) = Ok v)
    by (destruct op; try discriminate; try done; cbn [codegen_filter] in E; by rewrite Ex in E).
  destruct (codegenConstant rhs_type is_null value) as [c|]; [|done]. cbn [rbind] in E'.
  destruct (cmp_code op _ _ x c v E' Hs) as (cop & Eo & Et & Hv).
  apply (toBool_truth _ v Hv) in Tv. rewrite Tv in Et. exists cop, c. split; [done|].
  split; [unfold codegenCmp in E'; by destruct (comparable op (expr_type lhs) rhs_type)|].
  split; [done|]. unfold sql_compare in Et.
  destruct (sql_of (expr_type lhs) x) as [x'|] eqn:Ex'; [|done].
  destruct (sql_of rhs_type c) as [c'|] eqn:Ec'; [|done]. injection Et as Et.
  unfold sql_of in Ex', Ec'. split.
  - destruct (nullable (expr_type lhs)), (nullable rhs_type);
      repeat match goal with H : sql _ _ = Some _ |- _ => apply sql_some in H as [<- _] end;
      simplify_eq; done.
  - intros Hn. rewrite Hn in Ex'. by apply sql_some in Ex' as [_ ?].
Qed.

Lemma comparison_code t op lhs rhs :
  isComparison op = true /\ op <> O_kBwEq -> passes (BinOper t op lhs rhs) -> exists x, code lhs = Ok x.
Proof.
  intros [Hc Hb] (v & Ev & _). destruct (code lhs) as [x|] eqn:Ex; [by exists x|].
  destruct op; try discriminate Hc; try done; cbn [codegen_filter] in Ev; by rewrite Ex in Ev.
Qed.

Lemma fp_skips_comparisons op columnId rhs_type (value : Datum F) :
  canSkipFragmentForFpQual op columnId frag rhs_type value = Ok SKIPPABLE ->
  isComparison op = true /\ op <> O_kBwEq.
Proof.
  unfold canSkipFragmentForFpQual. destruct (_ !! _) as [s|]; [|done].
  destruct (extract_fp (stat_min s)); [|done]. destruct (extract_fp (stat_max s)); [|done]. cbn [rbind].
  destruct (fp_ltb _ _); [done|]. destruct (negb _); [done|]. destruct (extract_fp value); [|done].
  by destruct op.
Qed.

Lemma constant_agrees rhs_type is_null (value : Datum F) c c' :
  codegenConstant rhs_type is_null value = Ok c -> int_const rhs_type is_null value = Ok c' -> c = c'.
Proof.
  unfold codegenConstant, int_const. destruct is_null; [congruence|].
  destruct rhs_type, value; simpl; congruence.
Qed.

(** The code of the left side keeps within the adjusted limits. *)
Lemma lhs_limits t op lhs rhs_type is_null value col_type columnId isVirtual lo hi b lo' hi' :
  simple_qual_ok (BinOper t op lhs (Constant rhs_type is_null value)) ->
  simple_column lhs = Ok (Some (col_type, columnId, isVirtual)) ->
  chunk_limits frag columnId isVirtual start_rowid frag_offsets frag_idx = Ok (lo, hi, b) -> lo <= hi ->
  adjusted_limits (expr_type lhs) col_type rhs_type lo hi = Ok (Some (lo', hi')) ->
  comparable op (expr_type lhs) rhs_type = true ->
  forall x, code lhs = Ok x -> value_ok (expr_type lhs) (IntRange lo' hi' 0 true : range) x.
Proof.
  intros (_ & Hu & Hq) Es El Hle Ea Hc x Ex.
  destruct lhs as [| type ti ci ri vi | |type uop operand| | | | |]; try discriminate Es.
  - unfold simple_column, outer_column in Es. destruct (Z.eqb_spec ri 0) as [->|]; [|by rewrite orb_true_r in Es].
    destruct (ti =? 0); [done|]. simpl in Es. injection Es as <- <- <-. injection Ex as <-.
    specialize (Hq eq_refl). cbn [expr_type] in *.
    assert ((lo', hi') = (lo, hi)) as [= -> ->]; [|by eapply column_limits].
    unfold adjusted_limits in Ea. rewrite Hu in Ea. rewrite andb_false_r in Ea. cbn [andb rbind] in Ea.
    by destruct type, rhs_type; try discriminate Hc; injection Ea as <- <-.
  - assert (uop = O_kCast) as -> by (destruct uop; done). cbn in Es.
    destruct operand as [| ct ti ci ri vi | | | | | | |]; try discriminate Es.
    cbn in Es. destruct (Z.eqb_spec ri 0) as [->|]; [|by rewrite orb_true_r in Es].
    destruct (ti =? 0); [done|]. simpl in Es. injection Es as <- <- <-.
    destruct (Hq eq_refl) as [Hv Hok]. specialize (Hok _ _ _ El).
    assert (Ec : codegenCast ct type (row_column row ti ci 0) = Ok x).
    { cbn in Ex. destruct type; try discriminate Ex; destruct (integer_valued ct); try discriminate Ex;
        by destruct (codegenCast ct _ _); simpl in Ex; simplify_eq. }
    cbn [expr_type] in *.
    exact (cast_limits_sound ct type rhs_type op lo hi lo' hi' _ x Hok Hc Hu Hle
             (column_limits _ _ _ _ _ _ _ Hv El) Ea Ec).
Qed.

Lemma skip_qual_sound qual rowid :
  simple_qual_ok qual -> skip_qual frag start_rowid frag_offsets frag_idx qual = Ok (Answer true rowid) ->
  ~ passes qual.
Proof.
  intros Hok E P. destruct qual as [| |t op lhs rhs| | | | | |]; try discriminate E. cbn [skip_qual] in E.
  destruct (simple_column lhs) as [[[[col_type columnId] isVirtual]|]|] eqn:Es; try discriminate E.
  cbn [rbind] in E. destruct rhs as [rhs_type is_null value| | | | | | | |]; try discriminate E.
  destruct (negb (isInteger _) && _ && _); [done|].
  destruct (isFloatingPoint (expr_type lhs)) eqn:Ef.
  { destruct (canSkipFragmentForFpQual op columnId frag rhs_type value) as [[]|] eqn:Ek; try discriminate E.
    assert (Hc : isComparison op = true /\ op <> O_kBwEq) by (by apply fp_skips_comparisons in Ek).
    destruct (comparison_code t op lhs _ Hc P) as [x Ex].
    destruct (comparison_true t op lhs rhs_type is_null value x Ex (proj1 Hok) (proj1 Hc) (proj2 Hc) P)
      as (_ & _ & _ & Hcmp & _). by destruct (expr_type lhs), rhs_type. }
  destruct (chunk_limits _ _ _ _ _ _) as [[[lo hi] is_rowid]|] eqn:El; [|done]. cbn [rbind] in E.
  destruct (Z.ltb_spec hi lo); [done|].
  destruct (adjusted_limits _ _ _ _ _) as [[[lo' hi']|]|] eqn:Ea; try discriminate E. cbn [rbind] in E.
  destruct (int_const rhs_type is_null value) as [c'|] eqn:Ec; [|done]. cbn [rbind] in E.
  destruct (cannot_match op lo' hi' c') eqn:Em; [|by destruct op, is_rowid].
  assert (Hc : isComparison op = true /\ op <> O_kBwEq) by (by destruct op).
  destruct (comparison_code t op lhs _ Hc P) as [x Ex].
  destruct (comparison_true t op lhs rhs_type is_null value x Ex (proj1 Hok) (proj1 Hc) (proj2 Hc) P)
    as (cop & c & Eo & Hcmp & Ecc & Ht & Hn).
  rewrite (constant_agrees _ _ _ _ _ Ecc Ec) in Ht.
  destruct (lhs_limits _ _ _ _ _ _ _ _ _ _ _ _ _ _ Hok Es El ltac:(lia) Ea Hcmp x Ex) as [_ [[Hx _]|(-> & _ & Hx)]].
  - rewrite (cannot_match_sound op cop lo' hi' x c' Eo Em Hx) in Ht. done.
  - by destruct (Hn Hx).
Qed.

(** A row that passes the filter satisfies the simple conditions. *)
Lemma passing_simple simple_quals quals hoisted :
  (forall q, In q simple_quals -> hoisted q = true -> passes q) ->
  filter_passes info query_infos ex device row simple_quals quals hoisted = Ok true ->
  Forall passes simple_quals.
Proof.
  intros Hh P. apply filter_passes_cases in P. rewrite List.Forall_forall in P |- *. intros q Hq.
  destruct (hoisted q) eqn:Eh; [by apply Hh|].
  apply P, filter_In. rewrite Eh. split; [apply in_or_app; by left | done].
Qed.

Lemma skipFragment_quals quals rowid :
  Forall simple_qual_ok quals ->
  skipFragment frag start_rowid frag_offsets frag_idx quals = Ok (true, rowid) -> ~ Forall passes quals.
Proof.
  intros Hq. induction Hq as [|q qs Hq Hqs IH]; simpl; [done|].
  destruct (skip_qual frag start_rowid frag_offsets frag_idx q) as [[skip r|]|] eqn:E; [| |done].
  - intros [= -> ->] P. by eapply skip_qual_sound, Forall_inv.
  - intros E' P. exact (IH E' (Forall_inv_tail P)).
Qed.

(** [C17] Fragments are skipped only if they contribute nothing: when the simple conditions of a
    query exclude a fragment on account of its statistics, no row of the fragment passes the filter
    of the query.  Times in units finer than a second are from 1970 on. *)
Theorem fragment_skip_sound simple_quals quals hoisted rowid :
  Forall simple_qual_ok simple_quals ->
  skipFragment frag start_rowid frag_offsets frag_idx simple_quals = Ok (true, rowid) ->
  (forall q, In q simple_quals -> hoisted q = true -> passes q) ->
  filter_passes info query_infos ex device row simple_quals quals hoisted <> Ok true.
Proof.
  intros Hok E Hh P. apply (skipFragment_quals simple_quals rowid Hok E).
  by apply (passing_simple simple_quals quals hoisted).
Qed.

(** The conditions of the inner joins. *)
Section InnerJoins.
Abbreviation simple_of := (inner_join_simple_quals info).

Definition inner_joins_pass (joins : list (@JoinCondition F)) : Prop :=
  forall j, In j joins -> join_type j = JT_INNER -> Forall passes (simple_of (join_quals j)).

Lemma inner_join_skip_sound joins : forall acc rowid,
  (forall j, In j joins -> join_type j = JT_INNER -> Forall simple_qual_ok (simple_of (join_quals j))) ->
  skip_inner_joins info frag start_rowid frag_offsets frag_idx joins acc = Ok (true, rowid) ->
  acc = true \/ ~ inner_joins_pass joins.
Proof.
  induction joins as [|j js IH]; intros acc rowid Hok E; simpl in E; [injection E as -> _; by left|].
  assert (Tail : forall acc', skip_inner_joins info frag start_rowid frag_offsets frag_idx js acc'
                              = Ok (true, rowid) -> acc' = true \/ ~ inner_joins_pass (j :: js)).
  { intros acc' E'. destruct (IH acc' rowid ltac:(intros; apply Hok; [by right | done]) E') as [|N]; [by left|].
    right. intros P. apply N. intros j' Hj'. apply P. by right. }
  destruct (join_type j) eqn:Ej; try (by apply Tail).
  destruct (skipFragment _ _ _ _ _) as [[skip r]|] eqn:Es; [|done]. cbn [rbind fst snd] in E.
  destruct (negb (r =? -1)); [injection E as -> _; by left|].
  destruct (Tail _ E) as [Ha|]; [|by right]. apply orb_true_iff in Ha as [->| ->]; [by left|].
  right. intros P.
  exact (skipFragment_quals _ r (Hok j (or_introl eq_refl) Ej) Es (P j (or_introl eq_refl) Ej)).
Qed.
End InnerJoins.
End Fragment.
End SkipSound.

(** ** Floating-point conditions *)

Section FpSkip.
Context {F : Type} `{FpOps F}.

(** The order of the numbers, NaN left aside. *)
Hypothesis fp_order : forall a b c : F, fp_ltb a b = true -> fp_ltb c b = false -> fp_ltb a c = true.
Hypothesis fp_asym : forall a b : F, fp_ltb a b = true -> fp_ltb b a = false.
Hypothesis fp_equal : forall a b c : F, fp_eqb a b = true -> fp_ltb c a = fp_ltb c b /\ fp_ltb a c = fp_ltb b c.

Definition fp_comparison (op : IrOp) (v c : F) : bool :=
  match op with
  | O_kGe => negb (fp_ltb v c)
  | O_kGt => fp_ltb c v
  | O_kLe => negb (fp_ltb c v)
  | O_kLt => fp_ltb v c
  | O_kEq => negb (fp_ltb v c) && negb (fp_ltb c v)
  | _ => true
  end.

Lemma fp_skip_sound op columnId (frag : @FragmentInfo F) stats lo hi rhs_type c v :
  chunkMetadataMap frag !! columnId = Some stats -> stat_min stats = FpVal lo -> stat_max stats = FpVal hi ->
  fp_ltb v lo = false -> fp_ltb hi v = false ->
  canSkipFragmentForFpQual op columnId frag rhs_type (FpVal c) = Ok SKIPPABLE -> fp_comparison op v c = false.
Proof.
  intros Es El Eh Hlo Hhi E. unfold canSkipFragmentForFpQual in E. rewrite Es, El, Eh in E.
  cbn [extract_fp rbind] in E. destruct (fp_ltb hi lo); [done|]. destruct (negb _); [done|].
  assert (Ge : fp_ltb hi c = true -> fp_ltb v c = true).
  { intros Hc. destruct (fp_ltb v c) eqn:Ev; [done|]. by rewrite (fp_order _ _ _ Hc Ev) in Hhi. }
  assert (Le : fp_ltb c lo = true -> fp_ltb c v = true) by (intros Hc; exact (fp_order _ _ _ Hc Hlo)).
  unfold fp_leb in E. destruct op; try discriminate E; simpl.
  - destruct (fp_ltb c lo); [by rewrite Le, andb_false_r|]. destruct (fp_ltb hi c); [by rewrite Ge | done].
  - destruct (fp_ltb v c) eqn:Ev; [|done]. destruct (fp_ltb c lo) eqn:El'.
    + by rewrite (fp_order _ _ _ Ev (fp_asym _ _ El')) in Hlo.
    + destruct (fp_eqb c lo) eqn:Eq; [|done]. by rewrite (proj1 (fp_equal _ _ v Eq)), Hlo in Ev.
  - destruct (fp_ltb c v) eqn:Ev; [|done]. destruct (fp_ltb hi c) eqn:Eh'.
    + by rewrite (fp_order _ _ _ Eh' (fp_asym _ _ Ev)) in Hhi.
    + destruct (fp_eqb hi c) eqn:Eq; [|done]. by rewrite <- (proj2 (fp_equal _ _ v Eq)), Hhi in Ev.
  - destruct (fp_ltb c lo); [by rewrite Le | done].
  - destruct (fp_ltb hi c); [by rewrite Ge | done].
Qed.
End FpSkip.

(** ** Examples *)

Module SkipExample.
#[local] Existing Instance fp_int.
#[local] Existing Instance hundredths.
Import FilterExample.

(** A fragment with an integer from 10 to 20 in column 1 and times of 1970 in column 2. *)
Definition chunk_of (lo hi : Z) : @ChunkStats Z := mkChunkStats (IntVal lo) (IntVal hi) true.
Definition frag_of (lo hi tlo thi : Z) : @FragmentInfo Z :=
  {| physicalTableId := 1; frag_numTuples := 5;
     chunkMetadataMap := {[ 1 := chunk_of lo hi; 2 := chunk_of tlo thi ]} |}.
Definition ts_milli : Expr Z := ColumnVar (TimestampType TU_kMilli true) 1 2 0 false.

(** [CAST(t AS TIMESTAMP(0)) >= c] and [25 < a]. *)
Definition late (c : Z) : Expr Z :=
  BinOper (BooleanType true) O_kGe (UOper (TimestampType TU_kSecond true) O_kCast ts_milli)
    (Constant (TimestampType TU_kSecond false) false (IntVal c)).
Definition large : Expr Z := binary O_kGt (int_column 1) (int_literal 25).

Lemma example_quals_ok a t :
  10 <= a <= 20 -> 1000 <= t <= 5000 ->
  Forall (simple_qual_ok (row_of a t 0) (frag_of 10 20 1000 5000) 0 [0; 5] 0) [late 3; large].
Proof.
  intros Ha Ht. constructor; [|constructor; [|constructor]]; (split; [done|]); (split; [done|]).
  - intros _. split.
    + split; [unfold in_width; simpl; lia|]. left. exists 1000, 5000. repeat (split; [done|]).
      unfold inline_int_null_value. simpl. lia.
    + intros lo hi b [= <- <- <-]. right. intros lo hi b0 m [= <- <- _ _].
      unfold time_cast_ok, times_ok, trunc_ok, INT64_MIN, INT64_MAX. simpl. repeat split; try done; lia.
  - intros _. split; [unfold in_width; simpl; lia|]. left. exists 10, 20. repeat (split; [done|]).
    unfold inline_int_null_value. simpl. lia.
Qed.

Lemma fragment_skip_sound_witness :
  filter_passes no_info [Example.info] Example.ex OnCPU (row_of 15 2000 0) [late 3; large] [] (fun _ => false)
  <> Ok true.
Proof.
  apply (fragment_skip_sound no_info [Example.info] Example.ex OnCPU (row_of 15 2000 0)
           (frag_of 10 20 1000 5000) 0 [0; 5] 0 [late 3; large] [] (fun _ => false) (-1)).
  - apply example_quals_ok; lia.
  - by vm_compute.
  - done.
Defined.

(** A time before 1970: the limit is rounded up, the cast rounds down, and the row that passes is
    skipped. *)
Lemma skip_before_1970 :
  let q := BinOper (BooleanType true) O_kLt (UOper (TimestampType TU_kSecond true) O_kCast ts_milli)
             (Constant (TimestampType TU_kSecond false) false (IntVal 0)) in
  skipFragment (frag_of 0 0 (-500) (-500)) 0 [0; 5] 0 [q] = Ok (true, -1) /\
  filter_passes no_info [Example.info] Example.ex OnCPU (row_of 0 (-500) 0) [q] [] (fun _ => false) = Ok true.
Proof. by vm_compute. Qed.

(** A column without statistics counts as all zeros. *)
Lemma skip_without_statistics :
  skipFragment {| physicalTableId := 1; frag_numTuples := 5; chunkMetadataMap := ∅ |} 0 [0; 5] 0 [large]
  = Ok (true, -1) /\
  filter_passes no_info [Example.info] Example.ex OnCPU (row_of 30 0 0) [large] [] (fun _ => false) = Ok true.
Proof. by vm_compute. Qed.

(** A condition on the row number after one that excludes the fragment in an earlier join: the
    fragment is skipped, and there is a row to look up. *)
Lemma skip_and_lookup :
  let rowid_is v := binary O_kEq (ColumnVar (IntegerType 8 false) 1 9 0 true) (Constant (IntegerType 8 false)
    false (IntVal v)) in
  skipFragmentInnerJoins no_info (frag_of 10 20 0 0) 0 [0; 5] 0
    [mkJoinCondition [large] JT_INNER; mkJoinCondition [rowid_is 3] JT_INNER] = Ok (true, 3).
Proof. by vm_compute. Qed.
End SkipExample.
