(* ===== verification/Dispatch.v ===== *)
(** * Dispatch of fragments ([QueryFragmentDescriptor.cpp], [Dispatchers/], [Execute.cpp])

    The fragments of the outer table that are not skipped are assigned to execution kernels on the
    devices that a policy chooses: a kernel per fragment, or one kernel per device with many
    fragments.  The kernels are then dispatched in turn, one of each device at a time. *)

From Stdlib Require Import ZArith Lia List Bool Permutation.
From stdpp Require Import base list gmap numbers countable fin_maps.
From S2P Require Import Prelude NullableOps IRExpr ExpressionRange GeneratedCode RangeProps FilterCode FilterProps FragmentSkip.
Import ListNotations.
Local Open Scope Z_scope.
Local Open Scope hdk_scope.

#[global] Instance Device_eq_dec : EqDecision Device.
Proof. solve_decision. Defined.
#[global] Instance Device_countable : Countable Device.
Proof.
  refine (inj_countable' (fun d => match d with OnCPU => false | OnGPU => true end)
            (fun b : bool => if b then OnGPU else OnCPU) _).
  by intros [].
Defined.

(** [DCheck] is a failed [CHECK]. *)
Inductive DispatchError := DCheck | DSkip (e : RangeError) | QueryMustRunOnCpu.

Definition skip_result {A : Type} (r : result RangeError A) : result DispatchError A :=
  match r with Ok a => Ok a | Err e => Err (DSkip e) end.
Definition check (b : bool) : result DispatchError unit := if b then Ok tt else Err DCheck.
Definition found {A : Type} (o : option A) : result DispatchError A :=
  match o with Some a => Ok a | None => Err DCheck end.

(** ** Policies *)

Record SchedulingAssignment := mkAssignment { sa_dt : Device; sa_device_id : Z }.

(** The device of a fragment at a memory level. *)
Abbreviation DeviceIds := (Device -> Z).

(** A policy sees the devices of the fragment, its number and the number of fragments; [None] is
    [UNREACHABLE]. *)
Class ExecutionPolicy (P : Type) := {
  scheduleSingleFragment : P -> DeviceIds -> nat -> nat -> option SchedulingAssignment }.

Record FragmentIDAssignmentExecutionPolicy := mkFragmentIDPolicy { dt_ : Device }.
#[export] Instance FragmentIDAssignment : ExecutionPolicy FragmentIDAssignmentExecutionPolicy := {|
  scheduleSingleFragment := fun p deviceIds _ _ => Some (mkAssignment (dt_ p) (deviceIds (dt_ p))) |}.

Inductive RoundRobinExecutionPolicy := mkRoundRobin.
#[export] Instance RoundRobin : ExecutionPolicy RoundRobinExecutionPolicy := {|
  scheduleSingleFragment := fun _ deviceIds frag_id _ =>
    let device_type := if Nat.odd frag_id then OnGPU else OnCPU in
    Some (mkAssignment device_type (deviceIds device_type)) |}.

(** The portions in the order of the map; sums are of [unsigned]. *)
Record ProportionBasedExecutionPolicy := mkProportion { proportion_ : list (Device * Z) }.
Definition total_parts_ (p : ProportionBasedExecutionPolicy) : Z :=
  fold_left (fun acc cur => u32 (acc + snd cur)) (proportion_ p) 0.

Fixpoint proportion_loop (deviceIds : DeviceIds) (frag_id frag_num total_parts scheduled_portion : Z)
    (portions : list (Device * Z)) : option SchedulingAssignment :=
  match portions with
  | [] => None
  | (device_type, portion) :: portions' =>
      if u64 (frag_id * total_parts) <? u64 (u32 (portion + scheduled_portion) * frag_num)
      then Some (mkAssignment device_type (deviceIds device_type))
      else proportion_loop deviceIds frag_id frag_num total_parts (u32 (scheduled_portion + portion)) portions'
  end.
#[export] Instance ProportionBased : ExecutionPolicy ProportionBasedExecutionPolicy := {|
  scheduleSingleFragment := fun p deviceIds frag_id frag_num =>
    proportion_loop deviceIds (Z.of_nat frag_id) (Z.of_nat frag_num) (total_parts_ p) 0 (proportion_ p) |}.

(** ** Data *)

Record FragmentsPerTable := mkFragmentsPerTable { ft_db_id : Z; ft_table_id : Z; fragment_ids : list nat }.

Record ExecutionKernelDescriptor := mkKernel {
  kernel_device_id : Z;
  kernel_fragments : list FragmentsPerTable;
  outer_tuple_count : option Z;
}.

Record InputDescriptor := mkInputDescriptor { id_db_id : Z; id_table_id : Z }.

(** The parts of [sort_info], [scan_limit] and the group-by expressions that a sample query is
    told by. *)
Record SampleInfo := mkSampleInfo {
  order_entries_empty : bool;
  limit : Z;
  offset : Z;
  scan_limit : Z;
  no_group_by : bool;         (* the single group-by expression is null *)
}.

Section Descriptor.
Context {F P L : Type} `{FpOps F} `{ExecutionPolicy P}.
Abbreviation fragment := (@FragmentInfo F).

Record RelAlgExecutionUnit := mkExecutionUnit {
  input_descs : list InputDescriptor;
  simple_quals : list (Expr F);
  quals : list (Expr F);
  unit_join_quals : list (@JoinCondition F);
  sample_info : SampleInfo;
}.

Record QueryFragmentDescriptor := mkDescriptor {
  allowed_outer_fragment_indices_ : list nat;
  selected_tables_fragments_ : gmap Z (list fragment);
  gpu_bytes_limit : Z -> Z;                         (* of a device *)
  tuple_count_per_gpu_device_ : gmap Z Z;
  execution_kernels_per_device_ : gmap (Device * Z) (list ExecutionKernelDescriptor);
  rowid_lookup_key_ : Z;
  outer_fragments_size_ : nat;
}.

Definition with_kernels k (d : QueryFragmentDescriptor) :=
  mkDescriptor (allowed_outer_fragment_indices_ d) (selected_tables_fragments_ d) (gpu_bytes_limit d)
    (tuple_count_per_gpu_device_ d) k (rowid_lookup_key_ d) (outer_fragments_size_ d).
Definition with_rowid r (d : QueryFragmentDescriptor) :=
  mkDescriptor (allowed_outer_fragment_indices_ d) (selected_tables_fragments_ d) (gpu_bytes_limit d)
    (tuple_count_per_gpu_device_ d) (execution_kernels_per_device_ d) r (outer_fragments_size_ d).
Definition with_tuple_count c (d : QueryFragmentDescriptor) :=
  mkDescriptor (allowed_outer_fragment_indices_ d) (selected_tables_fragments_ d) (gpu_bytes_limit d)
    c (execution_kernels_per_device_ d) (rowid_lookup_key_ d) (outer_fragments_size_ d).
Definition with_outer_size n (d : QueryFragmentDescriptor) :=
  mkDescriptor (allowed_outer_fragment_indices_ d) (selected_tables_fragments_ d) (gpu_bytes_limit d)
    (tuple_count_per_gpu_device_ d) (execution_kernels_per_device_ d) (rowid_lookup_key_ d) n.

(** The constructor: the first fragments of a table that is there several times. *)
Fixpoint select_fragments (descs : list InputDescriptor) (query_infos : list (@InputTableInfo F))
    (m : gmap Z (list fragment)) : result DispatchError (gmap Z (list fragment)) :=
  match descs, query_infos with
  | [], [] => Ok m
  | d :: descs', i :: infos' =>
      select_fragments descs' infos'
        (match m !! id_table_id d with Some _ => m | None => <[id_table_id d := fragments i]> m end)
  | _, _ => Err DCheck
  end.

Definition newDescriptor (ra_exe_unit : RelAlgExecutionUnit) (query_infos : list (@InputTableInfo F))
    (gpu_limit : Z -> Z) (allowed : list nat) : result DispatchError QueryFragmentDescriptor :=
  let* selected := select_fragments (input_descs ra_exe_unit) query_infos ∅ in
  Ok (mkDescriptor allowed selected gpu_limit ∅ ∅ (-1) 0).

(** [getFragOffsets]: the rows before each fragment, and all rows. *)
Fixpoint frag_offsets_from (off : Z) (frags : list fragment) : list Z :=
  off :: match frags with [] => [] | f :: frags' => frag_offsets_from (u64 (off + frag_numTuples f)) frags' end.
Definition getFragOffsets (frags : list fragment) : list Z := frag_offsets_from 0 frags.

(** ** Assignment *)

Variables (ra_exe_unit : RelAlgExecutionUnit) (start_rowid : Z -> Z) (frag_offsets : list Z)
          (policy : P) (deviceIds : nat -> DeviceIds) (device_count num_bytes_for_row : Z)
          (info : @ExprInfo F L).

Definition getTableFragmentIndices (table_idx outer_frag_idx : nat)
    (selected_tables_fragments : gmap Z (list fragment)) : result DispatchError (list nat) :=
  let* desc := found (input_descs ra_exe_unit !! table_idx) in
  let* inner_frags := found (selected_tables_fragments !! id_table_id desc) in
  let* outer_input_desc := found (input_descs ra_exe_unit !! 0%nat) in
  let* outer_table_fragments := found (selected_tables_fragments !! id_table_id outer_input_desc) in
  let* _ := check (outer_frag_idx <? length outer_table_fragments)%nat in
  match table_idx with
  | O => Ok [outer_frag_idx]
  | _ => Ok (seq 0 (length inner_frags))
  end.

Definition allowed (d : QueryFragmentDescriptor) (i : nat) : bool :=
  match allowed_outer_fragment_indices_ d with
  | [] => true
  | indices => existsb (Nat.eqb i) indices
  end.

Definition checkDeviceMemoryUsage (f : fragment) (device_id : Z) (d : QueryFragmentDescriptor)
    : result DispatchError QueryFragmentDescriptor :=
  let* _ := check (0 <=? device_id) in
  let count := u64 (default 0 (tuple_count_per_gpu_device_ d !! device_id) + frag_numTuples f) in
  if gpu_bytes_limit d device_id <? u64 (count * num_bytes_for_row) then Err QueryMustRunOnCpu
  else Ok (with_tuple_count (<[device_id := count]> (tuple_count_per_gpu_device_ d)) d).

(** The fragments of the tables from the [j]-th on. *)
Fixpoint tables_fragments (j : nat) (descs : list InputDescriptor) (outer_frag_idx : nat)
    (selected : gmap Z (list fragment)) : result DispatchError (list FragmentsPerTable) :=
  match descs with
  | [] => Ok []
  | desc :: descs' =>
      let* frag_ids := getTableFragmentIndices j outer_frag_idx selected in
      let* rest := tables_fragments (S j) descs' outer_frag_idx selected in
      Ok (mkFragmentsPerTable (id_db_id desc) (id_table_id desc) frag_ids :: rest)
  end.

Definition kernel_tables (table_desc_offset : option nat) (i : nat) (d : QueryFragmentDescriptor)
    : result DispatchError (list FragmentsPerTable) :=
  match table_desc_offset with
  | Some j =>
      let* frag_ids := getTableFragmentIndices j i (selected_tables_fragments_ d) in
      let* desc := found (input_descs ra_exe_unit !! j) in
      Ok [mkFragmentsPerTable (id_db_id desc) (id_table_id desc) frag_ids]
  | None => tables_fragments 0 (input_descs ra_exe_unit) i (selected_tables_fragments_ d)
  end.

Definition add_kernel (key : Device * Z) (k : ExecutionKernelDescriptor) (d : QueryFragmentDescriptor) :=
  let kernels := execution_kernels_per_device_ d in
  with_kernels (<[key := default [] (kernels !! key) ++ [k]]> kernels) d.

(** The body of the loop of [buildFragmentPerKernelForTable]. *)
Definition fragment_kernel (table_id : Z) (is_temporary_table : bool) (table_desc_offset : option nat)
    (frag_num i : nat) (f : fragment) (d : QueryFragmentDescriptor)
    : result DispatchError QueryFragmentDescriptor :=
  if negb (allowed d i) then Ok d
  else
    let* skip_frag := skip_result (skipFragment f (start_rowid table_id) frag_offsets i (simple_quals ra_exe_unit)) in
    if fst skip_frag then Ok d
    else
      let d := with_rowid (Z.max (rowid_lookup_key_ d) (snd skip_frag)) d in
      let* assignment := found (scheduleSingleFragment policy (deviceIds i) i frag_num) in
      let device_type := sa_dt assignment in
      let device_id := sa_device_id assignment in
      let* _ := check (0 <? match device_type with OnCPU => 1 | OnGPU => device_count end) in
      let* d := match device_type with OnGPU => checkDeviceMemoryUsage f device_id d | OnCPU => Ok d end in
      let* tables := kernel_tables table_desc_offset i d in
      let tuple_count := if is_temporary_table then None else Some (frag_numTuples f) in
      Ok (add_kernel (device_type, device_id) (mkKernel device_id tables tuple_count) d).

Fixpoint fragment_kernels (table_id : Z) (is_temporary_table : bool) (table_desc_offset : option nat)
    (frag_num i : nat) (frags : list fragment) (d : QueryFragmentDescriptor)
    : result DispatchError QueryFragmentDescriptor :=
  match frags with
  | [] => Ok d
  | f :: frags' =>
      let* d := fragment_kernel table_id is_temporary_table table_desc_offset frag_num i f d in
      fragment_kernels table_id is_temporary_table table_desc_offset frag_num (S i) frags' d
  end.

Definition buildFragmentPerKernelForTable (frags : list fragment) (table_id : Z)
    (is_temporary_table : bool) (table_desc_offset : option nat) (d : QueryFragmentDescriptor)
    : result DispatchError QueryFragmentDescriptor :=
  fragment_kernels table_id is_temporary_table table_desc_offset (length frags) 0 frags d.

Variable is_temporary : Z -> bool.

Fixpoint union_tables (j : nat) (descs : list InputDescriptor) (d : QueryFragmentDescriptor)
    : result DispatchError QueryFragmentDescriptor :=
  match descs with
  | [] => Ok d
  | desc :: descs' =>
      let table_id := id_table_id desc in
      let* frags := found (selected_tables_fragments_ d !! table_id) in
      let* d := buildFragmentPerKernelForTable frags table_id ((0 <? table_id) && is_temporary table_id) (Some j) d in
      union_tables (S j) descs' d
  end.

Definition buildFragmentPerKernelMapForUnion (d : QueryFragmentDescriptor) :=
  union_tables 0 (input_descs ra_exe_unit) d.

Definition buildFragmentPerKernelMap (d : QueryFragmentDescriptor)
    : result DispatchError QueryFragmentDescriptor :=
  let* outer_table_desc := found (input_descs ra_exe_unit !! 0%nat) in
  let outer_table_id := id_table_id outer_table_desc in
  let* outer_fragments := found (selected_tables_fragments_ d !! outer_table_id) in
  buildFragmentPerKernelForTable outer_fragments outer_table_id
    ((0 <? outer_table_id) && is_temporary outer_table_id) None
    (with_outer_size (length outer_fragments) d).

(** ** One kernel per device *)

(** The fragments that are not there yet, one after the other. *)
Fixpoint add_fragment_ids (curr_frag_ids frag_ids : list nat) : list nat :=
  match frag_ids with
  | [] => curr_frag_ids
  | frag_id :: frag_ids' =>
      add_fragment_ids (if existsb (Nat.eqb frag_id) curr_frag_ids then curr_frag_ids
                        else curr_frag_ids ++ [frag_id]) frag_ids'
  end.

(** The list of a kernel with the fragments of the [j]-th table. *)
Definition merge_table (j : nat) (desc : InputDescriptor) (frag_ids : list nat)
    (kernel_frag_list : list FragmentsPerTable) : result DispatchError (list FragmentsPerTable) :=
  if (length kernel_frag_list <? j + 1)%nat
  then Ok (kernel_frag_list ++ [mkFragmentsPerTable (id_db_id desc) (id_table_id desc) frag_ids])
  else
    let* t := found (kernel_frag_list !! j) in
    let* _ := check (ft_table_id t =? id_table_id desc) in
    Ok (<[j := mkFragmentsPerTable (ft_db_id t) (ft_table_id t) (add_fragment_ids (fragment_ids t) frag_ids)]>
          kernel_frag_list).

(** The step for the [j]-th table: the only kernel of the device, which may be new. *)
Definition add_table (key : Device * Z) (j : nat) (desc : InputDescriptor) (frag_ids : list nat)
    (kernels : gmap (Device * Z) (list ExecutionKernelDescriptor))
    : result DispatchError (gmap (Device * Z) (list ExecutionKernelDescriptor)) :=
  let kernels := match kernels !! key with
                 | Some _ => kernels | None => <[key := [mkKernel (snd key) [] None]]> kernels end in
  match kernels !! key with
  | Some [execution_kernel] =>
      let* kernel_frag_list := merge_table j desc frag_ids (kernel_fragments execution_kernel) in
      Ok (<[key := [mkKernel (kernel_device_id execution_kernel) kernel_frag_list
                      (outer_tuple_count execution_kernel)]]> kernels)
  | _ => Err DCheck
  end.

Fixpoint add_tables (key : Device * Z) (j : nat) (descs : list InputDescriptor) (outer_frag_id : nat)
    (d : QueryFragmentDescriptor) : result DispatchError QueryFragmentDescriptor :=
  match descs with
  | [] => Ok d
  | desc :: descs' =>
      let* frag_ids := getTableFragmentIndices j outer_frag_id (selected_tables_fragments_ d) in
      let* kernels := add_table key j desc frag_ids (execution_kernels_per_device_ d) in
      add_tables key (S j) descs' outer_frag_id (with_kernels kernels d)
  end.

Variable enable_inner_join_fragment_skipping : bool.

Definition skip_outer_fragment (table_id : Z) (i : nat) (f : fragment) : result RangeError (bool * Z) :=
  let* skip_frag := skipFragment f (start_rowid table_id) frag_offsets i (simple_quals ra_exe_unit) in
  if enable_inner_join_fragment_skipping && negb (fst skip_frag) && (snd skip_frag =? -1)
  then skipFragmentInnerJoins info f (start_rowid table_id) frag_offsets i (unit_join_quals ra_exe_unit)
  else Ok skip_frag.

Definition multifrag_kernel (table_id : Z) (i : nat) (f : fragment) (d : QueryFragmentDescriptor)
    : result DispatchError QueryFragmentDescriptor :=
  if negb (allowed d i) then Ok d
  else
    let* skip_frag := skip_result (skip_outer_fragment table_id i f) in
    if fst skip_frag then Ok d
    else
      let* assignment := found (scheduleSingleFragment policy (deviceIds i) i (outer_fragments_size_ d)) in
      let device_type := sa_dt assignment in
      let device_id := sa_device_id assignment in
      let* d := match device_type with OnGPU => checkDeviceMemoryUsage f device_id d | OnCPU => Ok d end in
      let* d := add_tables (device_type, device_id) 0 (input_descs ra_exe_unit) i d in
      Ok (with_rowid (Z.max (rowid_lookup_key_ d) (snd skip_frag)) d).

Fixpoint multifrag_kernels (table_id : Z) (i : nat) (frags : list fragment) (d : QueryFragmentDescriptor)
    : result DispatchError QueryFragmentDescriptor :=
  match frags with
  | [] => Ok d
  | f :: frags' =>
      let* d := multifrag_kernel table_id i f d in multifrag_kernels table_id (S i) frags' d
  end.

Definition buildMultifragKernelMap (d : QueryFragmentDescriptor)
    : result DispatchError QueryFragmentDescriptor :=
  let* outer_table_desc := found (input_descs ra_exe_unit !! 0%nat) in
  let outer_table_id := id_table_id outer_table_desc in
  let* outer_fragments := found (selected_tables_fragments_ d !! outer_table_id) in
  multifrag_kernels outer_table_id 0 outer_fragments (with_outer_size (length outer_fragments) d).

Definition buildFragmentKernelMap (union_all : option bool) (enable_multifrag_kernels : bool)
    (d : QueryFragmentDescriptor) : result DispatchError QueryFragmentDescriptor :=
  match union_all with
  | Some _ => buildFragmentPerKernelMapForUnion d
  | None => if enable_multifrag_kernels then buildMultifragKernelMap d else buildFragmentPerKernelMap d
  end.

(** ** Dispatch *)

Definition is_sample_query : result DispatchError bool :=
  let s := sample_info ra_exe_unit in
  let r := (length (input_descs ra_exe_unit) =? 1)%nat && (length (simple_quals ra_exe_unit) =? 0)%nat
           && (length (quals ra_exe_unit) =? 0)%nat && order_entries_empty s && negb (scan_limit s =? 0) in
  if r then let* _ := check (no_group_by s) in Ok true else Ok false.

(** The rows so far, and whether they suffice. *)
Definition terminateDispatchMaybe (tuple_count : Z) (kernel : ExecutionKernelDescriptor)
    : result DispatchError (Z * bool) :=
  let s := sample_info ra_exe_unit in
  let sample_query_limit := u64 (limit s + offset s) in
  match outer_tuple_count kernel with
  | None => Ok (tuple_count, false)
  | Some n =>
      let tuple_count := u64 (tuple_count + n) in
      let* sample := is_sample_query in
      Ok (tuple_count, sample && (0 <? sample_query_limit) && (sample_query_limit <=? tuple_count))
  end.

(** One pass over the devices: the next kernel of each.  The kernels that are left, what was
    dispatched, the rows so far, and whether to return. *)
Abbreviation pending := (list (list ExecutionKernelDescriptor)).
Fixpoint dispatch_pass (devices : pending) (tuple_count : Z)
    : result DispatchError (pending * list ExecutionKernelDescriptor * Z * bool) :=
  match devices with
  | [] => Ok ([], [], tuple_count, false)
  | [] :: devices' =>
      let* r := dispatch_pass devices' tuple_count in
      let '(rest, sent, tuple_count, stop) := r in Ok ([] :: rest, sent, tuple_count, stop)
  | (kernel :: kernels) :: devices' =>
      let* t := terminateDispatchMaybe tuple_count kernel in
      if snd t then Ok (kernels :: devices', [kernel], fst t, true)
      else
        let* r := dispatch_pass devices' (fst t) in
        let '(rest, sent, tuple_count, stop) := r in Ok (kernels :: rest, kernel :: sent, tuple_count, stop)
  end.

(** Passes until one dispatches nothing; [None] is too little fuel. *)
Fixpoint dispatch_loop (fuel : nat) (devices : pending) (tuple_count : Z)
    : option (result DispatchError (list ExecutionKernelDescriptor * bool)) :=
  match fuel with
  | O => None
  | S fuel' =>
      match dispatch_pass devices tuple_count with
      | Err e => Some (Err e)
      | Ok (rest, sent, tuple_count, stop) =>
          if stop then Some (Ok (sent, true))
          else
            match sent with
            | [] => Some (Ok ([], false))
            | _ =>
                match dispatch_loop fuel' rest tuple_count with
                | Some (Ok (more, stop)) => Some (Ok (sent ++ more, stop))
                | other => other
                end
            end
      end
  end.

(** [assignFragsToKernelDispatch], for the devices in the order of the map. *)
Definition assignFragsToKernelDispatch (devices : pending) :=
  dispatch_loop (S (length (concat devices))) devices 0.
End Descriptor.

(** ** Every fragment goes to one kernel *)

Definition outer_of (k : ExecutionKernelDescriptor) : list nat :=
  match kernel_fragments k with [] => [] | t :: _ => fragment_ids t end.

Definition kernels_ids (ks : list ExecutionKernelDescriptor) : list nat := concat (map outer_of ks).
Definition map_ids (m : gmap (Device * Z) (list ExecutionKernelDescriptor)) : list nat :=
  concat (map (fun p => kernels_ids (snd p)) (map_to_list m)).

Lemma map_ids_insert key l m :
  Permutation (map_ids (<[key := l]> m)) (kernels_ids l ++ map_ids (delete key m)).
Proof.
  unfold map_ids. rewrite <- insert_delete_eq, map_to_list_insert by apply lookup_delete_eq. done.
Qed.

Lemma map_ids_split key m :
  Permutation (map_ids m) (kernels_ids (default [] (m !! key)) ++ map_ids (delete key m)).
Proof.
  destruct (m !! key) as [l|] eqn:E; cbn [default].
  - rewrite <- (insert_id m key l E) at 1. apply map_ids_insert.
  - by rewrite delete_id.
Qed.

(** A device gains the fragments that its new kernels have more. *)
Lemma map_ids_update key l new m :
  Permutation (kernels_ids l) (kernels_ids (default [] (m !! key)) ++ new) ->
  Permutation (map_ids (<[key := l]> m)) (map_ids m ++ new).
Proof.
  intros P. rewrite map_ids_insert, P, (map_ids_split key m).
  rewrite <- !app_assoc. apply Permutation_app_head, Permutation_app_comm.
Qed.

Section Assigned.
Context {F P L : Type} `{FpOps F} `{ExecutionPolicy P} `{LikelihoodOps L}.
Abbreviation fragment := (@FragmentInfo F).
Variables (ra_exe_unit : @RelAlgExecutionUnit F) (start_rowid : Z -> Z) (frag_offsets : list Z)
          (policy : P) (deviceIds : nat -> DeviceIds) (device_count num_bytes_for_row : Z)
          (info : @ExprInfo F L) (is_temporary : Z -> bool).

(** The fragments that are kept: allowed, and not skipped. *)
Definition keeps (skip : nat -> fragment -> result RangeError (bool * Z)) (d : @QueryFragmentDescriptor F)
    (i : nat) (f : fragment) : bool :=
  allowed d i && match skip i f with Ok (true, _) => false | _ => true end.

Fixpoint kept (skip : nat -> fragment -> result RangeError (bool * Z)) (d : @QueryFragmentDescriptor F)
    (i : nat) (frags : list fragment) : list nat :=
  match frags with
  | [] => []
  | f :: frags' => (if keeps skip d i f then [i] else []) ++ kept skip d (S i) frags'
  end.

Lemma elem_of_kept skip d frags : forall i j,
  In j (kept skip d i frags) <-> exists k f, j = (i + k)%nat /\ frags !! k = Some f /\ keeps skip d j f = true.
Proof.
  induction frags as [|f frags IH]; intros i j; simpl; [split; [done | by intros (k & f & _ & E & _)]|].
  rewrite in_app_iff, IH. split.
  - intros [Hj|(k & g & -> & E & Hk)].
    + destruct (keeps skip d i f) eqn:Ek; [|done]. destruct Hj as [<-|[]]. exists 0%nat, f. by rewrite Nat.add_0_r.
    + exists (S k), g. split; [lia|]. by replace (i + S k)%nat with (S i + k)%nat in * by lia.
  - intros (k & g & -> & E & Hk). destruct k as [|k].
    + left. rewrite Nat.add_0_r in *. injection E as <-. rewrite Hk. by left.
    + right. exists k, g. replace (i + S k)%nat with (S i + k)%nat in * by lia. done.
Qed.

Lemma kept_NoDup skip d frags : forall i, List.NoDup (kept skip d i frags).
Proof.
  induction frags as [|f frags IH]; intros i; simpl; [constructor|].
  destruct (keeps skip d i f); [|apply IH]. constructor; [|apply IH].
  intros (k & g & E & _)%elem_of_kept. lia.
Qed.

Lemma kept_allowed skip (d d' : @QueryFragmentDescriptor F) frags : forall i,
  allowed_outer_fragment_indices_ d' = allowed_outer_fragment_indices_ d ->
  kept skip d' i frags = kept skip d i frags.
Proof.
  induction frags as [|f frags IH]; intros i E; simpl; [done|]. rewrite IH by done.
  unfold keeps, allowed. by rewrite E.
Qed.

(** What the steps leave as it is. *)
Definition same_tables (d d' : @QueryFragmentDescriptor F) : Prop :=
  allowed_outer_fragment_indices_ d' = allowed_outer_fragment_indices_ d /\
  selected_tables_fragments_ d' = selected_tables_fragments_ d /\
  outer_fragments_size_ d' = outer_fragments_size_ d.

Lemma checkDeviceMemoryUsage_spec f id (d d' : @QueryFragmentDescriptor F) :
  checkDeviceMemoryUsage num_bytes_for_row f id d = Ok d' ->
  same_tables d d' /\ execution_kernels_per_device_ d' = execution_kernels_per_device_ d.
Proof.
  unfold checkDeviceMemoryUsage. destruct (check _); [|done]. cbn [rbind].
  destruct (_ <? _); [done|]. by intros [= <-].
Qed.

Lemma memory_step dt f id (d d' : @QueryFragmentDescriptor F) :
  match dt with OnGPU => checkDeviceMemoryUsage num_bytes_for_row f id d | OnCPU => Ok d end = Ok d' ->
  same_tables d d' /\ execution_kernels_per_device_ d' = execution_kernels_per_device_ d.
Proof. destruct dt; [by intros [= <-] | apply checkDeviceMemoryUsage_spec]. Qed.

(** The fragments of the inner tables: all of them. *)
Fixpoint inner_tables (descs : list InputDescriptor) (selected : gmap Z (list fragment))
    : option (list FragmentsPerTable) :=
  match descs with
  | [] => Some []
  | desc :: descs' =>
      match selected !! id_table_id desc, inner_tables descs' selected with
      | Some frags, Some rest =>
          Some (mkFragmentsPerTable (id_db_id desc) (id_table_id desc) (seq 0 (length frags)) :: rest)
      | _, _ => None
      end
  end.

Lemma getTableFragmentIndices_spec j i selected desc ids :
  input_descs ra_exe_unit !! j = Some desc ->
  getTableFragmentIndices ra_exe_unit j i selected = Ok ids ->
  match j with
  | O => ids = [i]
  | _ => exists frags, selected !! id_table_id desc = Some frags /\ ids = seq 0 (length frags)
  end.
Proof.
  intros Ed E. unfold getTableFragmentIndices in E. rewrite Ed in E. cbn [found rbind] in E.
  destruct (selected !! id_table_id desc) as [frags|]; [|done]. cbn [found rbind] in E.
  destruct (input_descs ra_exe_unit !! 0%nat) as [d0|]; [|done]. cbn [found rbind] in E.
  destruct (selected !! id_table_id d0); [|done]. cbn [found rbind] in E.
  destruct (check _); [|done]. cbn [rbind] in E. destruct j; injection E as <-; [done|]. by exists frags.
Qed.

Lemma tables_fragments_inner descs i selected l : forall pre,
  input_descs ra_exe_unit = pre ++ descs -> pre <> [] ->
  tables_fragments ra_exe_unit (length pre) descs i selected = Ok l -> inner_tables descs selected = Some l.
Proof.
  revert l. induction descs as [|desc descs IH]; intros l pre Ep Hp E; simpl in E; [by injection E as <-|].
  destruct (getTableFragmentIndices _ _ _ _) as [ids|] eqn:Ei; [|done]. cbn [rbind] in E.
  destruct (tables_fragments _ _ descs _ _) as [rest|] eqn:Er; [|done]. cbn [rbind] in E. injection E as <-.
  assert (El : input_descs ra_exe_unit !! length pre = Some desc) by (rewrite Ep; by apply list_lookup_middle).
  apply (getTableFragmentIndices_spec _ _ _ desc) in Ei; [|done].
  destruct (length pre) eqn:Elen; [by destruct pre|]. destruct Ei as (frags & Ef & ->).
  replace (S (S n)) with (length (pre ++ [desc])) in Er by (rewrite length_app; simpl; lia).
  cbn [inner_tables]. rewrite Ef.
  by rewrite (IH rest (pre ++ [desc]) ltac:(by rewrite <- app_assoc) ltac:(by destruct pre) Er).
Qed.

Lemma kernel_tables_spec desc descs i (d : @QueryFragmentDescriptor F) tables :
  input_descs ra_exe_unit = desc :: descs -> kernel_tables ra_exe_unit None i d = Ok tables ->
  exists inner, inner_tables descs (selected_tables_fragments_ d) = Some inner /\
    tables = mkFragmentsPerTable (id_db_id desc) (id_table_id desc) [i] :: inner.
Proof.
  intros Ed E. unfold kernel_tables in E. rewrite Ed in E. cbn [tables_fragments] in E.
  destruct (getTableFragmentIndices _ _ _ _) as [ids|] eqn:Ei; [|done]. cbn [rbind] in E.
  destruct (tables_fragments _ 1 descs _ _) as [rest|] eqn:Er; [|done]. injection E as <-.
  apply (getTableFragmentIndices_spec _ _ _ desc) in Ei as ->; [|by rewrite Ed].
  exists rest. split; [|done]. by apply (tables_fragments_inner descs i _ rest [desc]).
Qed.

(** *** A kernel per fragment *)

Section PerFragment.
Variables (desc : InputDescriptor) (descs : list InputDescriptor).
Hypothesis Hdescs : input_descs ra_exe_unit = desc :: descs.
Abbreviation ids d := (map_ids (execution_kernels_per_device_ d)).

Definition skip_simple (table_id : Z) (i : nat) (f : fragment) : result RangeError (bool * Z) :=
  skipFragment f (start_rowid table_id) frag_offsets i (simple_quals ra_exe_unit).

(** Every kernel has one outer fragment, and all fragments of the inner tables. *)
Definition fragment_kernel_ok (selected : gmap Z (list fragment)) (k : ExecutionKernelDescriptor) : Prop :=
  exists i inner, inner_tables descs selected = Some inner /\
    kernel_fragments k = mkFragmentsPerTable (id_db_id desc) (id_table_id desc) [i] :: inner.

Definition kernels_ok (ok : gmap Z (list fragment) -> ExecutionKernelDescriptor -> Prop)
    (d : @QueryFragmentDescriptor F) : Prop :=
  map_Forall (fun _ ks => Forall (ok (selected_tables_fragments_ d)) ks) (execution_kernels_per_device_ d).

Lemma fragment_kernel_spec table_id tmp n i f (d d' : @QueryFragmentDescriptor F) :
  fragment_kernel ra_exe_unit start_rowid frag_offsets policy deviceIds device_count num_bytes_for_row
    table_id tmp None n i f d = Ok d' ->
  same_tables d d' /\
  Permutation (ids d') (ids d ++ (if keeps (skip_simple table_id) d i f then [i] else [])) /\
  (kernels_ok fragment_kernel_ok d -> kernels_ok fragment_kernel_ok d').
Proof.
  unfold fragment_kernel, keeps, skip_simple. intros E.
  destruct (allowed d i); cbn [negb andb] in *; [|injection E as <-; by rewrite app_nil_r].
  destruct (skipFragment _ _ _ _ _) as [[[] r]|]; [injection E as <-; by rewrite app_nil_r| |done].
  cbn [skip_result rbind fst snd] in E.
  destruct (scheduleSingleFragment policy _ _ _) as [[dt id]|]; [|done]. cbn [found rbind sa_dt sa_device_id] in E.
  destruct (check _); [|done]. cbn [rbind] in E.
  destruct (match dt with OnCPU => _ | OnGPU => _ end) as [d1|] eqn:Em; [|done]. cbn [rbind] in E.
  apply memory_step in Em as [(Sa & Ss & Sn) Sk].
  destruct (kernel_tables ra_exe_unit None i d1) as [tables|] eqn:Et; [|done]. injection E as <-.
  destruct (kernel_tables_spec desc descs i d1 tables Hdescs Et) as (inner & Ei & ->).
  cbn in Sa, Ss, Sn, Sk. split; [by split|]. cbn. split.
  - rewrite Sk. apply map_ids_update. unfold kernels_ids. by rewrite map_app, concat_app.
  - intros Hk. unfold kernels_ok. cbn. rewrite Ss, Sk in *. apply map_Forall_insert_2; [|exact Hk].
    apply Forall_app. split.
    + destruct (execution_kernels_per_device_ d !! (dt, id)) as [ks|] eqn:El; [|constructor]. exact (Hk _ _ El).
    + constructor; [|constructor]. by exists i, inner.
Qed.

Lemma fragment_kernels_spec table_id tmp n frags : forall i (d d' : @QueryFragmentDescriptor F),
  fragment_kernels ra_exe_unit start_rowid frag_offsets policy deviceIds device_count num_bytes_for_row
    table_id tmp None n i frags d = Ok d' ->
  same_tables d d' /\
  Permutation (ids d') (ids d ++ kept (skip_simple table_id) d i frags) /\
  (kernels_ok fragment_kernel_ok d -> kernels_ok fragment_kernel_ok d').
Proof.
  induction frags as [|f frags IH]; intros i d d' E; simpl in E; [injection E as <-; by rewrite app_nil_r|].
  destruct (fragment_kernel _ _ _ _ _ _ _ _ _ _ _ _ _ _) as [d1|] eqn:E1; [|done]. cbn [rbind] in E.
  destruct (fragment_kernel_spec _ _ _ _ _ _ _ E1) as ((A1 & A2 & A3) & P1 & K1).
  destruct (IH _ _ _ E) as ((B1 & B2 & B3) & P2 & K2).
  split; [split; [congruence | split; congruence]|]. split; [|auto].
  rewrite P2, P1, (kept_allowed _ d d1 frags (S i) A1), <- app_assoc. done.
Qed.
End PerFragment.

(** *** A kernel per device *)

Lemma add_fragment_ids_new l i : ~ In i l -> add_fragment_ids l [i] = l ++ [i].
Proof.
  intros Hi. simpl. destruct (existsb (Nat.eqb i) l) eqn:E; [|done].
  apply existsb_exists in E as (x & Hx & ->%Nat.eqb_eq). done.
Qed.

Lemma add_fragment_ids_known l new : (forall i, In i new -> In i l) -> add_fragment_ids l new = l.
Proof.
  induction new as [|i new IH]; intros Hn; simpl; [done|].
  assert (E : existsb (Nat.eqb i) l = true)
    by (apply existsb_exists; exists i; split; [apply Hn; by left | apply Nat.eqb_refl]).
  rewrite E. apply IH. intros j Hj. apply Hn. by right.
Qed.

(** [add_tables] on the list of the kernel. *)
Fixpoint merge_tables (j : nat) (descs : list InputDescriptor) (i : nat) (selected : gmap Z (list fragment))
    (l : list FragmentsPerTable) : result DispatchError (list FragmentsPerTable) :=
  match descs with
  | [] => Ok l
  | desc :: descs' =>
      let* frag_ids := getTableFragmentIndices ra_exe_unit j i selected in
      let* l := merge_table j desc frag_ids l in
      merge_tables (S j) descs' i selected l
  end.

(** The kernel of the device, or a new one. *)
Definition device_kernel (key : Device * Z) (ks : option (list ExecutionKernelDescriptor))
    : option ExecutionKernelDescriptor :=
  match ks with None => Some (mkKernel (snd key) [] None) | Some [k] => Some k | _ => None end.
Definition with_fragments (l : list FragmentsPerTable) (k : ExecutionKernelDescriptor) :=
  mkKernel (kernel_device_id k) l (outer_tuple_count k).

Lemma add_table_spec key j desc ids m m' :
  add_table key j desc ids m = Ok m' ->
  exists k l, device_kernel key (m !! key) = Some k /\ merge_table j desc ids (kernel_fragments k) = Ok l /\
    m' = <[key := [with_fragments l k]]> m.
Proof.
  unfold add_table. intros E. destruct (m !! key) as [ks|] eqn:Ek.
  - rewrite Ek in E. destruct ks as [|k [|]]; try discriminate E.
    destruct (merge_table _ _ _ _) as [l|] eqn:El; [|done]. injection E as <-. by exists k, l.
  - rewrite lookup_insert_eq in E. cbn [kernel_fragments] in E.
    destruct (merge_table _ _ _ _) as [l|] eqn:El; [|done]. injection E as <-.
    eexists _, l. split; [done|]. split; [done|]. by rewrite insert_insert_eq.
Qed.

Lemma add_tables_spec key descs i : forall j (d d' : @QueryFragmentDescriptor F),
  add_tables ra_exe_unit key j descs i d = Ok d' -> descs <> [] ->
  exists k l, device_kernel key (execution_kernels_per_device_ d !! key) = Some k /\
    merge_tables j descs i (selected_tables_fragments_ d) (kernel_fragments k) = Ok l /\
    d' = with_kernels (<[key := [with_fragments l k]]> (execution_kernels_per_device_ d)) d.
Proof.
  induction descs as [|desc descs IH]; intros j d d' E Hd; [done|]. cbn [add_tables] in E.
  cbn [merge_tables]. destruct (getTableFragmentIndices _ _ _ _) as [ids|]; [|done]. cbn [rbind] in *.
  destruct (add_table _ _ _ _ _) as [m|] eqn:Ea; [|done]. cbn [rbind] in E.
  destruct (add_table_spec _ _ _ _ _ _ Ea) as (k & l & Ek & El & ->). exists k.
  destruct descs as [|desc' descs].
  - injection E as <-. exists l. rewrite El. done.
  - destruct (IH _ _ _ E ltac:(done)) as (k' & l' & Ek' & El' & ->). cbn in Ek'.
    rewrite lookup_insert_eq in Ek'. injection Ek' as <-. exists l'. split; [done|]. rewrite El. cbn [rbind].
    split; [exact El'|]. unfold with_kernels. cbn. by rewrite insert_insert_eq.
Qed.

Lemma merge_inner_new ds i selected : forall dpre lpre l,
  input_descs ra_exe_unit = dpre ++ ds -> length dpre = length lpre -> lpre <> [] ->
  merge_tables (length lpre) ds i selected lpre = Ok l ->
  exists inner, inner_tables ds selected = Some inner /\ l = lpre ++ inner.
Proof.
  induction ds as [|desc ds IH]; intros dpre lpre l Ed El Hl E; simpl in E.
  { injection E as <-. exists []. by rewrite app_nil_r. }
  destruct (getTableFragmentIndices _ _ _ _) as [ids|] eqn:Ei; [|done]. cbn [rbind] in E.
  assert (Ej : input_descs ra_exe_unit !! length lpre = Some desc)
    by (rewrite Ed, <- El; by apply list_lookup_middle).
  apply (getTableFragmentIndices_spec _ _ _ desc) in Ei; [|done].
  unfold merge_table in E. rewrite (proj2 (Nat.ltb_lt _ _)) in E by lia. cbn [rbind] in E.
  set (t := mkFragmentsPerTable _ _ _) in E.
  replace (S (length lpre)) with (length (lpre ++ [t])) in E by (rewrite length_app; simpl; lia).
  destruct (IH (dpre ++ [desc]) (lpre ++ [t]) l) as (inner & Einner & ->); [by rewrite <- app_assoc| | |done|].
  - rewrite !length_app. simpl. lia.
  - by destruct lpre.
  - destruct (length lpre) eqn:Elen; [by destruct lpre|]. destruct Ei as (frags & Ef & Eids).
    exists (t :: inner). cbn [inner_tables]. rewrite Ef, Einner. unfold t. rewrite Eids.
    by rewrite <- app_assoc.
Qed.

Lemma merge_inner_known ds i selected : forall dpre lpre inner l,
  input_descs ra_exe_unit = dpre ++ ds -> length dpre = length lpre -> lpre <> [] ->
  inner_tables ds selected = Some inner ->
  merge_tables (length lpre) ds i selected (lpre ++ inner) = Ok l -> l = lpre ++ inner.
Proof.
  induction ds as [|desc ds IH]; intros dpre lpre inner l Ed El Hl Ei E; simpl in E; [by injection E|].
  cbn [inner_tables] in Ei. destruct (selected !! id_table_id desc) as [frags|] eqn:Ef; [|done].
  destruct (inner_tables ds selected) as [rest|] eqn:Er; [|done]. injection Ei as <-.
  destruct (getTableFragmentIndices _ _ _ _) as [ids|] eqn:Eids; [|done]. cbn [rbind] in E.
  assert (Ej : input_descs ra_exe_unit !! length lpre = Some desc)
    by (rewrite Ed, <- El; by apply list_lookup_middle).
  apply (getTableFragmentIndices_spec _ _ _ desc) in Eids; [|done].
  assert (ids = seq 0 (length frags)) as ->.
  { destruct (length lpre) eqn:Elen; [by destruct lpre|]. destruct Eids as (frags' & Ef' & ->). congruence. }
  set (t := mkFragmentsPerTable _ _ _) in *. unfold merge_table in E.
  rewrite (proj2 (Nat.ltb_ge _ _)) in E by (rewrite length_app; simpl; lia).
  rewrite list_lookup_middle in E by done. cbn [found rbind] in E. rewrite Z.eqb_refl in E.
  cbn [check rbind] in E. rewrite add_fragment_ids_known in E by done.
  assert (Et : <[length lpre := mkFragmentsPerTable (ft_db_id t) (ft_table_id t) (fragment_ids t)]> (lpre ++ t :: rest)
               = (lpre ++ [t]) ++ rest).
  { replace (length lpre) with (length lpre + 0)%nat by lia. rewrite insert_app_r. by rewrite <- app_assoc. }
  rewrite Et in E. replace (S (length lpre)) with (length (lpre ++ [t])) in E by (rewrite length_app; simpl; lia).
  rewrite (IH (dpre ++ [desc]) (lpre ++ [t]) rest l); [by rewrite <- app_assoc | by rewrite <- app_assoc
    | rewrite !length_app; simpl; lia | by destruct lpre | done | done].
Qed.

Section PerDevice.
Variables (desc : InputDescriptor) (descs : list InputDescriptor) (inner_skip : bool).
Hypothesis Hdescs : input_descs ra_exe_unit = desc :: descs.
Abbreviation ids d := (map_ids (execution_kernels_per_device_ d)).
Abbreviation skip_outer := (skip_outer_fragment ra_exe_unit start_rowid frag_offsets info inner_skip).

Definition device_kernel_ok (selected : gmap Z (list fragment)) (k : ExecutionKernelDescriptor) : Prop :=
  exists l inner, inner_tables descs selected = Some inner /\
    kernel_fragments k = mkFragmentsPerTable (id_db_id desc) (id_table_id desc) l :: inner.

Lemma merge_outer selected k i l :
  (kernel_fragments k = [] \/ device_kernel_ok selected k) -> ~ In i (outer_of k) ->
  merge_tables 0 (desc :: descs) i selected (kernel_fragments k) = Ok l ->
  exists inner, inner_tables descs selected = Some inner /\
    l = mkFragmentsPerTable (id_db_id desc) (id_table_id desc) (outer_of k ++ [i]) :: inner.
Proof.
  intros Hk Hi E. cbn [merge_tables] in E.
  destruct (getTableFragmentIndices _ _ _ _) as [ids|] eqn:Eids; [|done]. cbn [rbind] in E.
  apply (getTableFragmentIndices_spec _ _ _ desc) in Eids as ->; [|by rewrite Hdescs].
  unfold merge_table in E. unfold outer_of in *. destruct Hk as [Hk|(ids & inner & Hin & Hk)]; rewrite Hk in *.
  - cbn in E. destruct (merge_inner_new descs i selected [desc] [_] l Hdescs eq_refl ltac:(done) E)
      as (inner & Ei & ->). by exists inner.
  - cbn [length Nat.add Nat.ltb Nat.leb lookup list_lookup found rbind ft_table_id] in E.
    rewrite Z.eqb_refl in E. cbn [check rbind fragment_ids ft_db_id insert list_insert] in E.
    cbn [fragment_ids] in Hi |- *. rewrite (add_fragment_ids_new ids i Hi) in E.
    exists inner. split; [done|]. exact (merge_inner_known descs i selected [desc] [_] inner l Hdescs eq_refl ltac:(done) Hin E).
Qed.

Lemma in_map_ids key ks k i m : m !! key = Some ks -> In k ks -> In i (outer_of k) -> In i (map_ids m).
Proof.
  intros Ek Hk Hi. rewrite (map_ids_split key m), Ek. apply in_app_iff. left. unfold kernels_ids.
  apply in_concat. exists (outer_of k). split; [by apply in_map | done].
Qed.

Lemma multifrag_kernel_spec table_id i f (d d' : @QueryFragmentDescriptor F) :
  multifrag_kernel ra_exe_unit start_rowid frag_offsets policy deviceIds num_bytes_for_row info
    inner_skip table_id i f d = Ok d' ->
  kernels_ok device_kernel_ok d -> ~ In i (ids d) ->
  same_tables d d' /\
  Permutation (ids d') (ids d ++ (if keeps (skip_outer table_id) d i f then [i] else [])) /\
  kernels_ok device_kernel_ok d'.
Proof.
  unfold multifrag_kernel, keeps. intros E Hk Hi.
  destruct (allowed d i); cbn [negb andb] in *; [|injection E as <-; by rewrite app_nil_r].
  destruct (skip_outer table_id i f) as [[[] r]|]; [injection E as <-; by rewrite app_nil_r| |done].
  cbn [skip_result rbind fst snd] in E.
  destruct (scheduleSingleFragment policy _ _ _) as [[dt id]|]; [|done]. cbn [found rbind sa_dt sa_device_id] in E.
  destruct (match dt with OnCPU => _ | OnGPU => _ end) as [d1|] eqn:Em; [|done]. cbn [rbind] in E.
  apply memory_step in Em as [(Sa & Ss & Sn) Sk]. rewrite Hdescs in E.
  destruct (add_tables _ _ _ _ _ _) as [d2|] eqn:Ea; [|done]. injection E as <-.
  destruct (add_tables_spec _ _ _ _ _ _ Ea ltac:(done)) as (k & l & Edk & El & ->). rewrite Sk, Ss in *.
  set (m := execution_kernels_per_device_ d) in *.
  assert (Hko : (kernel_fragments k = [] \/ device_kernel_ok (selected_tables_fragments_ d) k) /\
                kernels_ids (default [] (m !! (dt, id))) = outer_of k).
  { unfold device_kernel in Edk. destruct (m !! (dt, id)) as [ks|] eqn:Ek.
    - pose proof (Hk _ _ Ek) as Hks. destruct ks as [|k0 [|]]; try discriminate Edk. injection Edk as ->.
      split; [right; by inversion Hks | cbn; apply app_nil_r].
    - injection Edk as <-. split; [by left | done]. }
  destruct Hko as [Hko Eo].
  assert (Hik : ~ In i (outer_of k)).
  { intros Hin. apply Hi. rewrite (map_ids_split (dt, id) m), Eo. apply in_app_iff. by left. }
  destruct (merge_outer _ _ _ _ Hko Hik El) as (inner & Ein & ->).
  split; [by split|]. cbn. fold m. split.
  - apply map_ids_update. rewrite Eo. cbn. by rewrite app_nil_r.
  - unfold kernels_ok. cbn. rewrite ?Ss. apply map_Forall_insert_2; [|exact Hk].
    constructor; [|constructor]. by eexists _, inner.
Qed.

Lemma multifrag_kernels_spec table_id frags : forall i (d d' : @QueryFragmentDescriptor F),
  multifrag_kernels ra_exe_unit start_rowid frag_offsets policy deviceIds num_bytes_for_row info
    inner_skip table_id i frags d = Ok d' ->
  kernels_ok device_kernel_ok d -> (forall j, In j (ids d) -> (j < i)%nat) ->
  same_tables d d' /\
  Permutation (ids d') (ids d ++ kept (skip_outer table_id) d i frags) /\
  kernels_ok device_kernel_ok d'.
Proof.
  induction frags as [|f frags IH]; intros i d d' E Hk Hi; simpl in E; [injection E as <-; by rewrite app_nil_r|].
  destruct (multifrag_kernel _ _ _ _ _ _ _ _ _ _ _ _) as [d1|] eqn:E1; [|done]. cbn [rbind] in E.
  destruct (multifrag_kernel_spec _ _ _ _ _ E1 Hk) as ((A1 & A2 & A3) & P1 & K1);
    [intros Hin; specialize (Hi i Hin); lia|].
  destruct (IH _ _ _ E K1) as ((B1 & B2 & B3) & P2 & K2).
  { intros j Hj. rewrite P1, in_app_iff in Hj. destruct Hj as [Hj|Hj]; [specialize (Hi j Hj); lia|].
    destruct (keeps _ _ _ _); [destruct Hj as [<-|[]]; lia | done]. }
  split; [split; [congruence | split; congruence]|]. split; [|done].
  rewrite P2, P1, (kept_allowed _ d d1 frags (S i) A1), <- app_assoc. done.
Qed.
End PerDevice.

(** ** No row is lost *)

Section Complete.
Variables (query_infos : list (@InputTableInfo F)) (ex : @Executor F)
          (device : Device) (row : Row F).
Variables (desc : InputDescriptor) (descs : list InputDescriptor) (frags : list fragment)
          (i : nat) (f : fragment).
Abbreviation passing := (condition_is info query_infos ex device row true).
Abbreviation rowid_start := (start_rowid (id_table_id desc)).

(** The row satisfies the simple conditions of the inner joins, which may exclude its fragment. *)
Definition joins_hold : Prop :=
  inner_joins_pass info query_infos ex device row (unit_join_quals ra_exe_unit) /\
  forall j, In j (unit_join_quals ra_exe_unit) -> join_type j = JT_INNER ->
    Forall (simple_qual_ok row f rowid_start frag_offsets i) (inner_join_simple_quals info (join_quals j)).

Lemma passing_not_skipped inner_skip hoisted :
  Forall (simple_qual_ok row f rowid_start frag_offsets i) (simple_quals ra_exe_unit) ->
  (inner_skip = true -> joins_hold) ->
  (forall q, In q (simple_quals ra_exe_unit) -> hoisted q = true -> passing q) ->
  filter_passes info query_infos ex device row (simple_quals ra_exe_unit) (quals ra_exe_unit) hoisted = Ok true ->
  forall r, skip_outer_fragment ra_exe_unit start_rowid frag_offsets info inner_skip (id_table_id desc) i f
            <> Ok (true, r).
Proof.
  intros Hq Hj Hh Hp r E. unfold skip_outer_fragment in E.
  destruct (skipFragment _ _ _ _ _) as [[skip r0]|] eqn:Es; [|done]. cbn [rbind fst snd] in E.
  destruct skip.
  { apply (skipFragment_quals info query_infos ex device row f _ _ _ _ r0 Hq Es).
    by apply (passing_simple info query_infos ex device row _ (quals ra_exe_unit) hoisted). }
  destruct (inner_skip && _ && _) eqn:Ei; [|done].
  apply andb_true_iff in Ei as [[Ei _]%andb_true_iff _]. destruct (Hj Ei) as [Hjp Hjq].
  by destruct (inner_join_skip_sound info query_infos ex device row f _ _ _ _ _ _ Hjq E).
Qed.

(** [C9] No row that the query selects is lost, and none is read twice, in a query that is not a
    UNION: the outer fragment, among those the query may read, of a row that passes the filter (and,
    where they are considered, the simple conditions of the inner joins) is assigned to exactly one
    execution kernel, in both modes of assignment and under every policy, whenever the assignment
    succeeds, and every kernel has all fragments of the inner tables.  The simple conditions compare a
    column with a constant of its unit ([simple_qual_ok]): the statistics of the fragment have the
    column and bound its values, and times under a cast are within the calendar and, in units finer than
    a second, from 1970 on. *)
Theorem every_row_dispatched inner_skip multifrag hoisted (d d' : @QueryFragmentDescriptor F) :
  input_descs ra_exe_unit = desc :: descs ->
  selected_tables_fragments_ d !! id_table_id desc = Some frags ->
  execution_kernels_per_device_ d = ∅ ->
  frags !! i = Some f -> allowed d i = true ->
  Forall (simple_qual_ok row f rowid_start frag_offsets i) (simple_quals ra_exe_unit) ->
  (multifrag && inner_skip = true -> joins_hold) ->
  (forall q, In q (simple_quals ra_exe_unit) -> hoisted q = true -> passing q) ->
  filter_passes info query_infos ex device row (simple_quals ra_exe_unit) (quals ra_exe_unit) hoisted = Ok true ->
  buildFragmentKernelMap ra_exe_unit start_rowid frag_offsets policy deviceIds device_count num_bytes_for_row
    info is_temporary inner_skip None multifrag d = Ok d' ->
  In i (map_ids (execution_kernels_per_device_ d')) /\
  List.NoDup (map_ids (execution_kernels_per_device_ d')) /\
  kernels_ok (device_kernel_ok desc descs) d'.
Proof.
  intros Hd Hf He Hi Ha Hq Hj Hh Hp E. unfold buildFragmentKernelMap, buildMultifragKernelMap,
    buildFragmentPerKernelMap, buildFragmentPerKernelForTable in E. rewrite Hd in E.
    cbn [lookup list_lookup found rbind] in E.
  rewrite Hf in E. cbn [found rbind] in E. set (d0 := with_outer_size (length frags) d) in *.
  assert (E0 : map_ids (execution_kernels_per_device_ d0) = []) by (cbn; by rewrite He).
  assert (K0 : forall ok, kernels_ok ok d0) by (intros ok; unfold kernels_ok; cbn; rewrite He; apply map_Forall_empty).
  assert (G : exists skip, (forall r, skip i f <> Ok (true, r)) /\
    Permutation (map_ids (execution_kernels_per_device_ d')) (kept skip d0 0 frags) /\
    kernels_ok (device_kernel_ok desc descs) d').
  { destruct multifrag.
    - destruct (multifrag_kernels_spec desc descs inner_skip Hd _ _ _ _ _ E (K0 _)) as (_ & P1 & K1);
        [by rewrite E0|]. rewrite E0 in P1. eexists. split; [|by split].
      exact (passing_not_skipped inner_skip hoisted Hq Hj Hh Hp).
    - destruct (fragment_kernels_spec desc descs Hd _ _ _ _ _ _ _ E) as (_ & P1 & K1). rewrite E0 in P1.
      exists (skip_simple (id_table_id desc)). split; [|split; [done|]].
      + intros r Er. apply (passing_not_skipped false hoisted Hq ltac:(done) Hh Hp r).
        unfold skip_outer_fragment. unfold skip_simple in Er. by rewrite Er.
      + specialize (K1 (K0 _)). intros key ks Ek. eapply Forall_impl; [exact (K1 key ks Ek)|].
        intros k (j & inner & Ei & Ek'). exists [j], inner. by rewrite Ek'. }
  destruct G as (skip & Hs & P1 & K1). rewrite P1. split; [|split; [apply kept_NoDup | done]].
  apply elem_of_kept. exists i, f. split; [done|]. split; [done|]. unfold keeps.
  change (allowed d0 i) with (allowed d i). rewrite Ha. destruct (skip i f) as [[[] r]|] eqn:Er; try done.
  by destruct (Hs r).
Qed.
End Complete.
End Assigned.

(** ** Dispatch in turn *)

Section InTurn.
Context {F : Type} `{FpOps F}.
Variable ra_exe_unit : @RelAlgExecutionUnit F.
Abbreviation pending := (list (list ExecutionKernelDescriptor)).

Definition rows_of (ks : list ExecutionKernelDescriptor) : Z :=
  fold_right (fun k acc => default 0 (outer_tuple_count k) + acc) 0 ks.
Definition enough (tuple_count : Z) : Prop :=
  is_sample_query ra_exe_unit = Ok true /\
  0 < u64 (limit (sample_info ra_exe_unit) + offset (sample_info ra_exe_unit)) <= tuple_count.

Lemma u64_mod z : u64 z = z mod 2 ^ 64.
Proof. done. Qed.

Lemma terminate_spec c k c' stop :
  0 <= c < 2 ^ 64 -> terminateDispatchMaybe ra_exe_unit c k = Ok (c', stop) ->
  c' = u64 (c + default 0 (outer_tuple_count k)) /\ (stop = true -> enough c').
Proof.
  intros Hc. unfold terminateDispatchMaybe. destruct (outer_tuple_count k) as [n|]; cbn [default].
  - destruct (is_sample_query ra_exe_unit) as [s|] eqn:Es; [|done]. intros [= <- <-]. split; [done|].
    intros [[-> E1]%andb_true_iff E2]%andb_true_iff. split; [done | lia].
  - intros [= <- <-]. rewrite Z.add_0_r, u64_mod, Z.mod_small by lia. done.
Qed.

Lemma dispatch_pass_spec devices : forall c rest sent c' stop,
  0 <= c < 2 ^ 64 -> dispatch_pass ra_exe_unit devices c = Ok (rest, sent, c', stop) ->
  Permutation (concat devices) (sent ++ concat rest) /\
  c' = u64 (c + rows_of sent) /\ (stop = true -> enough c') /\
  (stop = false -> sent = [] -> concat devices = []).
Proof.
  assert (B : forall z, 0 <= u64 z < 2 ^ 64) by (intros z; rewrite u64_mod; apply Z.mod_pos_bound; lia).
  induction devices as [|ks devices IH]; intros c rest sent c' stop Hc E; simpl in E.
  { injection E as <- <- <- <-. cbn. rewrite Z.add_0_r, u64_mod, Z.mod_small by lia. done. }
  destruct ks as [|k ks].
  - destruct (dispatch_pass ra_exe_unit devices c) as [[[[r s] c1] b]|] eqn:Ed; [|done].
    injection E as <- <- <- <-. exact (IH _ _ _ _ _ Hc Ed).
  - destruct (terminateDispatchMaybe ra_exe_unit c k) as [[c1 b]|] eqn:Et; [|done]. cbn [rbind fst snd] in E.
    destruct (terminate_spec c k c1 b Hc Et) as [-> Hb]. destruct b.
    + injection E as <- <- <- <-. cbn. rewrite Z.add_0_r. split; [done|]. split; [done|]. split; [exact Hb | done].
    + destruct (dispatch_pass ra_exe_unit devices _) as [[[[r s] c2] b]|] eqn:Ed; [|done].
      injection E as <- <- <- <-. destruct (IH _ _ _ _ _ (B _) Ed) as (P1 & -> & P3 & _).
      split; [|split; [|split; done]].
      * cbn. constructor. rewrite P1. rewrite !app_assoc. apply Permutation_app_tail, Permutation_app_comm.
      * change (rows_of (k :: s)) with (default 0 (outer_tuple_count k) + rows_of s).
        rewrite !u64_mod, Z.add_mod_idemp_l by lia. f_equal. lia.
Qed.

Lemma dispatch_loop_spec fuel : forall devices c,
  (length (concat devices) < fuel)%nat -> 0 <= c < 2 ^ 64 ->
  exists r, dispatch_loop ra_exe_unit fuel devices c = Some r /\
    forall sent stop, r = Ok (sent, stop) ->
      exists rest, Permutation (concat devices) (sent ++ rest) /\
        (stop = false -> rest = []) /\ (stop = true -> enough (u64 (c + rows_of sent))).
Proof.
  induction fuel as [|fuel IH]; intros devices c Hf Hc; [lia|]. cbn [dispatch_loop].
  destruct (dispatch_pass ra_exe_unit devices c) as [[[[rest sent] c1] stop]|e] eqn:Ed; [|by exists (Err e)].
  destruct (dispatch_pass_spec _ _ _ _ _ _ Hc Ed) as (P1 & -> & P3 & P4). destruct stop.
  { eexists. split; [done|]. intros s b [= <- <-]. exists (concat rest). by split; auto. }
  destruct sent as [|k sent].
  { eexists. split; [done|]. intros s b [= <- <-]. exists []. rewrite (P4 eq_refl eq_refl). by split. }
  destruct (IH rest (u64 (c + rows_of (k :: sent)))) as (r & Er & Hr).
  { apply Permutation_length in P1. rewrite length_app in P1. simpl in P1. lia. }
  { rewrite u64_mod. apply Z.mod_pos_bound. lia. }
  rewrite Er. destruct r as [[more b]|e]; [|by exists (Err e)]. eexists. split; [done|].
  intros s b' [= <- <-]. destruct (Hr more b eq_refl) as (left & P5 & P6 & P7). exists left.
  split; [rewrite P1, P5; by rewrite (app_assoc (k :: sent) more left)|]. split; [done|]. intros Eb. specialize (P7 Eb).
  assert (Es : rows_of ((k :: sent) ++ more) = rows_of (k :: sent) + rows_of more).
  { unfold rows_of. generalize (k :: sent). intros l. induction l as [|x l IHl]; simpl; lia. }
  change (k :: sent ++ more) with ((k :: sent) ++ more). rewrite Es. rewrite !u64_mod in *.
  rewrite Z.add_mod_idemp_l in P7 by lia.
  by replace (c + (rows_of (k :: sent) + rows_of more)) with (c + rows_of (k :: sent) + rows_of more) by lia.
Qed.

(** [C32] Dispatch ends, and leaves out kernels only if it may: whatever the order of the devices,
    every kernel is dispatched exactly once, unless the query is a sample with a limit; then the
    kernels that were dispatched have as many rows as the limit and the offset ask for. *)
Theorem dispatch_in_turn (devices : pending) :
  Forall (fun k => 0 <= default 0 (outer_tuple_count k)) (concat devices) ->
  rows_of (concat devices) < 2 ^ 64 ->
  exists r, assignFragsToKernelDispatch ra_exe_unit devices = Some r /\
    forall sent stop, r = Ok (sent, stop) ->
      exists rest, Permutation (concat devices) (sent ++ rest) /\
        (stop = false -> rest = []) /\
        (stop = true -> is_sample_query ra_exe_unit = Ok true /\
           u64 (limit (sample_info ra_exe_unit) + offset (sample_info ra_exe_unit)) <= rows_of sent).
Proof.
  intros Hn Hs.
  destruct (dispatch_loop_spec (S (length (concat devices))) devices 0 ltac:(lia) ltac:(lia)) as (r & Er & Hr).
  exists r. split; [done|]. intros sent stop E. destruct (Hr sent stop E) as (rest & P1 & P2 & P3).
  exists rest. split; [done|]. split; [done|]. intros Eb. destruct (P3 Eb) as [Hq Hl]. split; [done|].
  assert (Hsum : forall l l', Permutation l l' -> rows_of l = rows_of l')
    by (induction 1; simpl in *; lia).
  assert (Hpos : forall l, Forall (fun k => 0 <= default 0 (outer_tuple_count k)) l -> 0 <= rows_of l)
    by (induction 1; simpl in *; lia).
  assert (Happ : forall l l', rows_of (l ++ l') = rows_of l + rows_of l')
    by (intros l l'; induction l; simpl in *; lia).
  rewrite P1 in Hn. apply Forall_app in Hn as [Hn1 Hn2]. apply Hpos in Hn1, Hn2.
  rewrite (Hsum _ _ P1), Happ in Hs. 
  rewrite Z.add_0_l, (u64_mod (rows_of sent)), (Z.mod_small (rows_of sent)) in Hl by lia. lia.
Qed.
End InTurn.

(** ** Policies choose a device *)

(** The portions cover all fragments, if they add up to a positive [unsigned]. *)
Lemma proportion_schedules p (ids : DeviceIds) frag_id frag_num :
  Forall (fun q => 0 <= snd q) (proportion_ p) ->
  0 < fold_right (fun q acc => snd q + acc) 0 (proportion_ p) < 2 ^ 32 ->
  (frag_id < frag_num)%nat -> Z.of_nat frag_num < 2 ^ 32 ->
  exists a, scheduleSingleFragment p ids frag_id frag_num = Some a.
Proof.
  intros Hp Hs Hi Hn. cbn. unfold total_parts_. set (l := proportion_ p) in *.
  set (sum := fold_right (fun q acc => snd q + acc) 0) in *.
  assert (Pos : forall m, Forall (fun q => 0 <= snd q) m -> 0 <= sum m)
    by (induction 1; simpl in *; lia).
  assert (Tot : forall m acc, Forall (fun q => 0 <= snd q) m -> 0 <= acc -> acc + sum m < 2 ^ 32 ->
    fold_left (fun acc cur => u32 (acc + snd cur)) m acc = acc + sum m).
  { induction m as [|q m IH]; intros acc Hm Ha Hb; simpl in *; [lia|]. inversion Hm as [|? ? Hq Hm']; subst.
    pose proof (Pos m Hm'). rewrite u32_small by lia. rewrite IH by (done || lia). lia. }
  rewrite (Tot l 0 Hp ltac:(lia) ltac:(lia)), Z.add_0_l.
  assert (Loop : forall m done, Forall (fun q => 0 <= snd q) m -> 0 <= done -> 0 < sum m -> done + sum m = sum l ->
    exists a, proportion_loop ids (Z.of_nat frag_id) (Z.of_nat frag_num) (sum l) done m = Some a).
  { induction m as [|[dt q] m IH]; intros done' Hm Hd Hpos He; [simpl in Hpos; lia|].
    inversion Hm as [|? ? Hq Hm']; subst. cbn [snd] in Hq. cbn [proportion_loop].
    change (sum ((dt, q) :: m)) with (q + sum m) in *. pose proof (Pos m Hm').
    rewrite (u32_small (q + done')) by lia. rewrite (u32_small (done' + q)) by lia.
    rewrite !u64_mod, !Z.mod_small by nia.
    destruct (Z.ltb_spec (Z.of_nat frag_id * sum l) ((q + done') * Z.of_nat frag_num)) as [|Hge]; [by eexists|].
    apply IH; [done | lia | | lia]. destruct (Z.eq_dec (sum m) 0); [|lia].
    exfalso. assert (q + done' = sum l) as Hq' by lia. rewrite Hq' in Hge. nia. }
  apply Loop; [done | lia | lia | lia].
Qed.

(** ** Examples *)

Module DispatchExample.
#[local] Existing Instance fp_int.
#[local] Existing Instance hundredths.
Import FilterExample SkipExample.

Definition no_sample : SampleInfo := mkSampleInfo true 0 0 0 true.
(** A join of table 1 with table 2, of the rows with [a > 25]. *)
Definition join_unit : @RelAlgExecutionUnit Z :=
  mkExecutionUnit [mkInputDescriptor 1 1; mkInputDescriptor 1 2] [large] [] [] no_sample.
Definition outer_frags : list (@FragmentInfo Z) := [frag_of 10 20 0 0; frag_of 30 40 0 0; frag_of 20 30 0 0].
Definition inner_frags : list (@FragmentInfo Z) := [frag_of 0 1 0 0; frag_of 2 3 0 0].
Definition descriptor : @QueryFragmentDescriptor Z :=
  mkDescriptor [] {[ 1 := outer_frags; 2 := inner_frags ]} (fun _ => 1000) ∅ ∅ (-1) 0.
Definition one_device : nat -> DeviceIds := fun i _ => Z.of_nat (i mod 2).
Definition build (multifrag : bool) : result DispatchError (@QueryFragmentDescriptor Z) :=
  buildFragmentKernelMap join_unit (fun _ => 0) (getFragOffsets outer_frags) mkRoundRobin one_device 1 8
    no_info (fun _ => false) true None multifrag descriptor.

Lemma every_row_dispatched_witness :
  (exists d', build true = Ok d' /\ In 1%nat (map_ids (execution_kernels_per_device_ d'))) /\
  (exists d', build false = Ok d' /\ In 1%nat (map_ids (execution_kernels_per_device_ d'))).
Proof.
  assert (Q : Forall (simple_qual_ok (row_of 33 0 0) (frag_of 30 40 0 0) 0 (getFragOffsets outer_frags) 1) [large]).
  { constructor; [|constructor]. split; [done|]. split; [done|]. intros _.
    split; [unfold in_width; simpl; lia|]. left. exists 30, 40. repeat (split; [done|]).
    unfold inline_int_null_value. simpl. lia. }
  assert (W : forall multifrag d', build multifrag = Ok d' -> In 1%nat (map_ids (execution_kernels_per_device_ d'))).
  { intros multifrag d' E.
    refine (proj1 (every_row_dispatched join_unit (fun _ => 0) (getFragOffsets outer_frags) mkRoundRobin one_device
      1 8 no_info (fun _ => false) [Example.info] Example.ex OnCPU (row_of 33 0 0)
      (mkInputDescriptor 1 1) [mkInputDescriptor 1 2] outer_frags 1 (frag_of 30 40 0 0)
      true multifrag (fun _ => false) descriptor d' eq_refl eq_refl eq_refl eq_refl eq_refl Q _ _ _ E));
      [| done | by vm_compute].
    intros _. by split; intros j []. }
  split.
  - destruct (build true) as [d'|] eqn:E; [|by vm_compute in E]. exists d'. split; [done | exact (W true d' E)].
  - destruct (build false) as [d'|] eqn:E; [|by vm_compute in E]. exists d'. split; [done | exact (W false d' E)].
Defined.

(** The two modes: fragments 1 and 2, each in a kernel of its own, or by device. *)
Lemma build_both_modes :
  (fun d => map_ids (execution_kernels_per_device_ d)) <$> (match build false with Ok d => Some d | _ => None end)
    = Some [1; 2]%nat /\
  (fun d => map_ids (execution_kernels_per_device_ d)) <$> (match build true with Ok d => Some d | _ => None end)
    = Some [1; 2]%nat.
Proof. by vm_compute. Qed.

(** A sample query that stops after the second kernel of three. *)
Definition sample_unit : @RelAlgExecutionUnit Z :=
  mkExecutionUnit [mkInputDescriptor 1 1] [] [] [] (mkSampleInfo true 6 1 7 true).
Definition kernel_of (i : nat) (n : Z) : ExecutionKernelDescriptor :=
  mkKernel 0 [mkFragmentsPerTable 1 1 [i]] (Some n).

Lemma dispatch_in_turn_witness :
  exists r, assignFragsToKernelDispatch sample_unit [[kernel_of 0 5; kernel_of 2 5]; [kernel_of 1 5]] = Some r /\
    forall sent, r = Ok (sent, true) -> 7 <= rows_of sent.
Proof.
  destruct (dispatch_in_turn sample_unit [[kernel_of 0 5; kernel_of 2 5]; [kernel_of 1 5]])
    as (r & Er & Hr); [by repeat constructor | by vm_compute|].
  exists r. split; [exact Er|]. intros sent E. destruct (Hr sent true E) as (_ & _ & _ & H).
  exact (proj2 (H eq_refl)).
Defined.

(** The tables of a UNION: the second one may not have more fragments than the first, and each of
    its kernels lists all of its fragments. *)
Definition union_unit : @RelAlgExecutionUnit Z :=
  mkExecutionUnit [mkInputDescriptor 1 1; mkInputDescriptor 1 2] [] [] [] no_sample.
Definition build_union (first second : list (@FragmentInfo Z)) : result DispatchError (list nat) :=
  let* d := buildFragmentKernelMap union_unit (fun _ => 0) [0; 5; 10; 15] (mkFragmentIDPolicy OnCPU) (fun _ _ => 0) 1 8
    no_info (fun _ => false) true (Some true) false
    (mkDescriptor [] {[ 1 := first; 2 := second ]} (fun _ => 1000) ∅ ∅ (-1) 0) in
  Ok (map_ids (execution_kernels_per_device_ d)).

Lemma union_fragments :
  build_union [frag_of 0 1 0 0] inner_frags = Err DCheck /\
  build_union inner_frags inner_frags = Ok [0; 1; 0; 1; 0; 1]%nat.
Proof. by vm_compute. Qed.
End DispatchExample.
