(* ===== verification/ColumnEncoders.v ===== *)
(** * Column encoders and chunk statistics ([DataMgr/Encoder.h], [NoneEncoder.h], [FixedLengthEncoder.h],
  [DateDaysEncoder.h], [ChunkMetadata.h])

    An encoder keeps the least and the greatest value of a chunk and whether it has nulls.  The
    statistics are computed over blocks of the data in parallel, or per value, and merged.  At the
    end, what the range analysis and the skipping of fragments rely on: every value of a chunk
    lies within its statistics. *)

From Stdlib Require Import ZArith Lia List Bool.
From stdpp Require Import base list gmap numbers.
From S2P Require Import Prelude MurmurHash JoinColumn ExtractFromTime NullableOps IRExpr ExpressionRange RangeFacts RangeProps.
Import ListNotations.
Local Open Scope Z_scope.
Local Open Scope hdk_scope.

Inductive EncoderError := DecimalOverflow | DateOverflow | DateUnderflow | EncoderCheck.

(** ** Types of stored columns *)

(** The types of fixed width, with their size in bytes; floating-point numbers have the same code. *)
Inductive StorageType :=
| BooleanStorage
| IntegerStorage (size : Z)
| DecimalStorage (size precision : Z)
| DictionaryStorage (size : Z)
| DateStorage (in_days : bool) (size : Z)
| TimeStorage (size : Z)
| TimestampStorage (unit : TimeUnit) (size : Z).

Definition storage_size (t : StorageType) : Z :=
  match t with
  | BooleanStorage => 1
  | IntegerStorage size | DecimalStorage size _ | DictionaryStorage size | DateStorage _ size
  | TimeStorage size | TimestampStorage _ size => size
  end.

(** The encoder classes, with the width in bits of the stored type [V]: [NoneEncoder<T>] has
    [T = V], the others [T = int64_t]. *)
Inductive EncoderKind :=
| NoneEncoder (w : Z) (is_signed : bool)
| FixedLengthEncoder (w : Z)
| DateDaysEncoder (w : Z).

Definition createFixedLengthEncoderBySize (size : Z) : result EncoderError EncoderKind :=
  if (size =? 1) || (size =? 2) || (size =? 4) then Ok (FixedLengthEncoder (8 * size))
  else if size =? 8 then Ok (NoneEncoder 64 true)
  else Err EncoderCheck.

Definition Create (type : StorageType) : result EncoderError EncoderKind :=
  let size := storage_size type in
  match type with
  | BooleanStorage | IntegerStorage _ | DecimalStorage _ _ =>
      if (size =? 1) || (size =? 2) || (size =? 4) || (size =? 8) then Ok (NoneEncoder (8 * size) true)
      else Err EncoderCheck
  | DictionaryStorage _ =>
      if (size =? 1) || (size =? 2) then Ok (NoneEncoder (8 * size) false)
      else if size =? 4 then Ok (NoneEncoder 32 true) else Err EncoderCheck
  | DateStorage true _ =>
      if (size =? 2) || (size =? 4) || (size =? 8) then Ok (DateDaysEncoder (8 * size)) else Err EncoderCheck
  | DateStorage false _ | TimeStorage _ | TimestampStorage _ _ => createFixedLengthEncoderBySize size
  end.

(** ** Validators *)

(** Present if the encoder has a buffer, and with it a type. *)
Record Validators := mkValidators { decimal_max : option Z; days_limits : option (Z * Z) }.
Definition no_validators : Validators := mkValidators None None.

Definition DecimalOverflowValidator (type : StorageType) : option Z :=
  match type with DecimalStorage _ precision => Some (10 ^ precision) | _ => None end.
Definition DateDaysOverflowValidator (type : StorageType) : option (Z * Z) :=
  match type with
  | DateStorage true size => if size =? 2 then Some (-32768, 32767) else Some (INT32_MIN, INT32_MAX)
  | _ => None
  end.

Definition validate_decimal (v : Validators) (value : Z) : result EncoderError unit :=
  match decimal_max v with
  | None => Ok tt
  | Some max => if max <=? value then Err DecimalOverflow
                else if value <=? - max then Err DecimalOverflow else Ok tt
  end.

Definition get_epoch_days_from_seconds (seconds : Z) : Z :=
  if (seconds <? 0) && negb (Z.rem seconds 86400 =? 0) then Z.quot seconds 86400 - 1
  else Z.quot seconds 86400.
Definition get_epoch_seconds_from_days (days : Z) : Z := s64 (days * 86400).

Definition validate_date (v : Validators) (value : Z) : result EncoderError unit :=
  match days_limits v with
  | None => Ok tt
  | Some (min, max) =>
      let days := get_epoch_days_from_seconds value in
      if max <? days then Err DateOverflow else if days <? min then Err DateUnderflow else Ok tt
  end.

(** ** State *)

Record Encoder := mkEncoder { num_elems_ : Z; dataMin : Z; dataMax : Z; has_nulls : bool }.

(** The limits of [T] and [V], and the nulls of [V]. *)
Definition t_width (k : EncoderKind) : Z :=
  match k with NoneEncoder w _ => w | _ => 64 end.
Definition t_signed (k : EncoderKind) : bool := match k with NoneEncoder _ s => s | _ => true end.
Definition v_width (k : EncoderKind) : Z :=
  match k with NoneEncoder w _ | FixedLengthEncoder w | DateDaysEncoder w => w end.
Definition limit_max (w : Z) (is_signed : bool) : Z := if is_signed then 2 ^ (w - 1) - 1 else 2 ^ w - 1.
Definition limit_lowest (w : Z) (is_signed : bool) : Z := if is_signed then - 2 ^ (w - 1) else 0.
(** [static_cast] to an integer type. *)
Definition cast_to (w : Z) (is_signed : bool) (v : Z) : Z := if is_signed then swrap w v else v mod 2 ^ w.
Definition inline_null_value (w : Z) (is_signed : bool) : Z :=
  if is_signed then - 2 ^ (w - 1) else 2 ^ w - 1.
Definition inline_null_array_value (w : Z) (is_signed : bool) : Z :=
  if is_signed then - 2 ^ (w - 1) + 1 else 2 ^ w - 2.

Definition resetChunkStats (k : EncoderKind) (e : Encoder) : Encoder :=
  mkEncoder (num_elems_ e) (limit_max (t_width k) (t_signed k)) (limit_lowest (t_width k) (t_signed k)) false.
Definition newEncoder (k : EncoderKind) : Encoder := resetChunkStats k (mkEncoder 0 0 0 false).

(** The statistics given: whether anything changed. *)
Definition resetChunkStats_to (min max : Z) (nulls : bool) (e : Encoder) : Encoder * bool :=
  if (dataMin e =? min) && (dataMax e =? max) && eqb (has_nulls e) nulls then (e, false)
  else (mkEncoder (num_elems_ e) min max nulls, true).

Definition copyMetadata (from e : Encoder) : Encoder :=
  mkEncoder (num_elems_ from) (dataMin from) (dataMax from) (has_nulls from).

(** ** Statistics of single values *)

Definition add_value (e : Encoder) (data : Z) : Encoder :=
  mkEncoder (num_elems_ e) (Z.min (dataMin e) data) (Z.max (dataMax e) data) (has_nulls e).
Definition add_null (e : Encoder) : Encoder := mkEncoder (num_elems_ e) (dataMin e) (dataMax e) true.

(** [updateStats(int64_t, bool)]. *)
Definition updateStats_value (k : EncoderKind) (e : Encoder) (val : Z) (is_null : bool) : Encoder :=
  if is_null then add_null e else add_value e (cast_to (t_width k) (t_signed k) val).

(** [validateDataAndUpdateStats] and the two [encodeDataAndUpdateStats]: the stored value. *)
Definition encodeDataAndUpdateStats (k : EncoderKind) (v : Validators) (e : Encoder) (unencoded_data : Z)
    : result EncoderError (Encoder * Z) :=
  match k with
  | NoneEncoder w s =>
      if unencoded_data =? inline_null_value w s then Ok (add_null e, unencoded_data)
      else let* _ := validate_decimal v unencoded_data in Ok (add_value e unencoded_data, unencoded_data)
  | FixedLengthEncoder w =>
      let encoded_data := swrap w unencoded_data in
      if negb (unencoded_data =? encoded_data) then
        let* _ := validate_decimal v unencoded_data in Ok (e, encoded_data)
      else if unencoded_data =? - 2 ^ (w - 1) then Ok (add_null e, encoded_data)
      else let* _ := validate_decimal v unencoded_data in Ok (add_value e unencoded_data, encoded_data)
  | DateDaysEncoder w =>
      if unencoded_data =? - 2 ^ (w - 1) then Ok (add_null e, swrap w unencoded_data)
      else
        let* _ := validate_date v unencoded_data in
        let encoded_data := swrap w (get_epoch_days_from_seconds unencoded_data) in
        Ok (add_value e (get_epoch_seconds_from_days encoded_data), encoded_data)
  end.

Fixpoint updateStats (k : EncoderKind) (v : Validators) (e : Encoder) (src_data : list Z)
    : result EncoderError Encoder :=
  match src_data with
  | [] => Ok e
  | x :: src_data' =>
      let* r := encodeDataAndUpdateStats k v e x in updateStats k v (fst r) src_data'
  end.

(** ** Statistics of encoded blocks *)

Record Stats := mkStats { s_min : Z; s_max : Z; s_nulls : bool }.

(** The body of the loop over a block. *)
Definition encoded_step (k : EncoderKind) (v : Validators) (fixlen_array : bool) (s : Stats) (x : Z)
    : result EncoderError Stats :=
  let signed := t_signed k in
  if negb (x =? inline_null_value (v_width k) signed) then
    if negb fixlen_array || negb (x =? inline_null_array_value (v_width k) signed) then
      match k with
      | DateDaysEncoder _ =>
          let val := get_epoch_seconds_from_days x in
          Ok (mkStats (Z.min (s_min s) val) (Z.max (s_max s) val) (s_nulls s))
      | _ =>
          let* _ := validate_decimal v x in
          Ok (mkStats (Z.min (s_min s) x) (Z.max (s_max s) x) (s_nulls s))
      end
    else Ok s
  else Ok (mkStats (s_min s) (s_max s) true).

Fixpoint encoded_block (k : EncoderKind) (v : Validators) (fixlen_array : bool) (s : Stats) (data : list Z)
    : result EncoderError Stats :=
  match data with
  | [] => Ok s
  | x :: data' =>
      let* s := encoded_step k v fixlen_array s x in encoded_block k v fixlen_array s data'
  end.

Definition join_stats (lhs rhs : Stats) : Stats :=
  mkStats (Z.min (s_min lhs) (s_min rhs)) (Z.max (s_max lhs) (s_max rhs)) (s_nulls lhs || s_nulls rhs).

(** A run of [tbb::parallel_reduce]: a block starts from the identity or goes on from a result, and
    results are joined in order. *)
Inductive Reduction :=
| Block (data : list Z)
| GoOn (r : Reduction) (data : list Z)
| Joined (l r : Reduction).

Fixpoint reduction_data (r : Reduction) : list Z :=
  match r with
  | Block data => data
  | GoOn r data => reduction_data r ++ data
  | Joined l r => reduction_data l ++ reduction_data r
  end.

Fixpoint run_reduction (k : EncoderKind) (v : Validators) (fixlen_array : bool) (identity : Stats)
    (r : Reduction) : result EncoderError Stats :=
  match r with
  | Block data => encoded_block k v fixlen_array identity data
  | GoOn r data =>
      let* s := run_reduction k v fixlen_array identity r in encoded_block k v fixlen_array s data
  | Joined l r =>
      let* a := run_reduction k v fixlen_array identity l in
      let* b := run_reduction k v fixlen_array identity r in
      Ok (join_stats a b)
  end.

(** The reduction of a [FixedLengthEncoder] is over [V], to which the statistics are cast. *)
Definition init_stats (k : EncoderKind) (e : Encoder) : Stats :=
  match k with
  | FixedLengthEncoder w => mkStats (swrap w (dataMin e)) (swrap w (dataMax e)) (has_nulls e)
  | _ => mkStats (dataMin e) (dataMax e) (has_nulls e)
  end.

Definition updateStatsEncoded (k : EncoderKind) (v : Validators) (fixlen_array : bool) (e : Encoder)
    (r : Reduction) : result EncoderError Encoder :=
  let* s := run_reduction k v fixlen_array (init_stats k e) r in
  Ok (mkEncoder (num_elems_ e) (s_min s) (s_max s) (s_nulls s)).

Definition reduceStats (e that : Encoder) : Encoder :=
  mkEncoder (num_elems_ e) (Z.min (dataMin e) (dataMin that)) (Z.max (dataMax e) (dataMax that))
    (has_nulls e || has_nulls that).

(** ** Metadata *)

Section Metadata.
Context {F : Type} `{FpOps F}.

(** The member of the datum that the type selects. *)
Definition datum_width (type : StorageType) : Z :=
  match type with
  | BooleanStorage => 8
  | IntegerStorage size | DecimalStorage size _ => 8 * size
  | DictionaryStorage _ => 32
  | _ => 64
  end.

Definition fillChunkStats (type : StorageType) (e : Encoder) : @ChunkStats F :=
  mkChunkStats (IntVal (swrap (datum_width type) (dataMin e))) (IntVal (swrap (datum_width type) (dataMax e)))
    (has_nulls e).

Definition mergeStats (lhs rhs : @ChunkStats F) : result RangeError (@ChunkStats F) :=
  let* lmin := extract_int (stat_min lhs) in
  let* rmin := extract_int (stat_min rhs) in
  let* lmax := extract_int (stat_max lhs) in
  let* rmax := extract_int (stat_max rhs) in
  Ok (mkChunkStats (IntVal (Z.min lmin rmin)) (IntVal (Z.max lmax rmax)) (stat_nulls lhs || stat_nulls rhs)).

(** [computeStats] of a column of scalars: the encoder over the chunks of the array. *)
Fixpoint encode_chunks (k : EncoderKind) (e : Encoder) (chunks : list Reduction) : result EncoderError Encoder :=
  match chunks with
  | [] => Ok e
  | r :: chunks' => let* e := updateStatsEncoded k no_validators false e r in encode_chunks k e chunks'
  end.

Definition computeStats (type : StorageType) (chunks : list Reduction) : result EncoderError (@ChunkStats F) :=
  let* k := Create type in
  let* e := encode_chunks k (newEncoder k) chunks in
  Ok (fillChunkStats type e).
End Metadata.

(** The bytes of the statistics in a file. *)
Definition t_bytes (k : EncoderKind) : nat := Z.to_nat (t_width k / 8).

Definition writeMetadata (k : EncoderKind) (e : Encoder) : list Z :=
  le_bytes 8 (num_elems_ e) ++ le_bytes (t_bytes k) (dataMin e) ++ le_bytes (t_bytes k) (dataMax e)
    ++ [if has_nulls e then 1 else 0].

(** [fread] leaves what a short file does not give as it is; here the file is long enough. *)
Definition readMetadata (k : EncoderKind) (bytes : list Z) : option (Encoder * list Z) :=
  let n := t_bytes k in
  let number (bs : list Z) := cast_to (t_width k) (t_signed k) (of_le_bytes bs) in
  if (9 + 2 * n <=? length bytes)%nat then
    Some (mkEncoder (of_le_bytes (take 8 bytes)) (number (take n (drop 8 bytes)))
            (number (take n (drop (8 + n) bytes)))
            (negb (nth (8 + 2 * n) bytes 0 =? 0)),
          drop (9 + 2 * n) bytes)
  else None.

(** ** What the statistics say *)

(** The value that a stored number stands for. *)
Definition stored_value (k : EncoderKind) (x : Z) : Z :=
  match k with DateDaysEncoder _ => get_epoch_seconds_from_days x | _ => x end.
Definition is_null (k : EncoderKind) (x : Z) : bool := x =? inline_null_value (v_width k) (t_signed k).
Definition counted (k : EncoderKind) (fixlen : bool) (x : Z) : bool :=
  negb (is_null k x) && (negb fixlen || negb (x =? inline_null_array_value (v_width k) (t_signed k))).

(** [s'] summarizes [data] on top of [s]: it bounds the values, and its bounds are reached. *)
Record summary (k : EncoderKind) (fixlen : bool) (s : Stats) (data : list Z) (s' : Stats) : Prop := mkSummary {
  sum_bounds : forall x, In x data -> counted k fixlen x = true -> s_min s' <= stored_value k x <= s_max s';
  sum_start : s_min s' <= s_min s /\ s_max s <= s_max s';
  sum_min : s_min s' = s_min s \/ exists x, In x data /\ counted k fixlen x = true /\ s_min s' = stored_value k x;
  sum_max : s_max s' = s_max s \/ exists x, In x data /\ counted k fixlen x = true /\ s_max s' = stored_value k x;
  sum_nulls : s_nulls s' = true <-> s_nulls s = true \/ exists x, In x data /\ is_null k x = true;
}.

Lemma summary_nil k fixlen s : summary k fixlen s [] s.
Proof. split; [done | lia | by left | by left |]. split; [by left | by intros [|(x & [] & _)]]. Qed.

Lemma summary_app k fixlen s d1 s1 d2 s2 :
  summary k fixlen s d1 s1 -> summary k fixlen s1 d2 s2 -> summary k fixlen s (d1 ++ d2) s2.
Proof.
  intros [B1 S1 m1 M1 N1] [B2 S2 m2 M2 N2]. split.
  - intros x [Hx|Hx]%in_app_iff Hc; [specialize (B1 x Hx Hc); lia | by apply B2].
  - lia.
  - destruct m2 as [->|(x & Hx & Hc & E)]; [destruct m1 as [->|(x & Hx & Hc & E)]; [by left|]|];
      right; exists x; rewrite in_app_iff; tauto.
  - destruct M2 as [->|(x & Hx & Hc & E)]; [destruct M1 as [->|(x & Hx & Hc & E)]; [by left|]|];
      right; exists x; rewrite in_app_iff; tauto.
  - rewrite N2, N1. split; [intros [[|(x & Hx & E)]|(x & Hx & E)]; [by left | |] | intros [|(x & [Hx|Hx]%in_app_iff & E)]].
    + right. exists x. rewrite in_app_iff. tauto.
    + right. exists x. rewrite in_app_iff. tauto.
    + by do 2 left.
    + left. right. by exists x.
    + right. by exists x.
Qed.

Lemma summary_join k fixlen s d1 s1 d2 s2 :
  summary k fixlen s d1 s1 -> summary k fixlen s d2 s2 -> summary k fixlen s (d1 ++ d2) (join_stats s1 s2).
Proof.
  intros [B1 S1 m1 M1 N1] [B2 S2 m2 M2 N2]. split; cbn [join_stats s_min s_max s_nulls].
  - intros x [Hx|Hx]%in_app_iff Hc; [specialize (B1 x Hx Hc) | specialize (B2 x Hx Hc)]; lia.
  - lia.
  - destruct (Z.min_spec (s_min s1) (s_min s2)) as [[_ ->]|[_ ->]];
      [destruct m1 as [->|(x & Hx & Hc & E)] | destruct m2 as [->|(x & Hx & Hc & E)]]; try (by left);
      right; exists x; rewrite in_app_iff; tauto.
  - destruct (Z.max_spec (s_max s1) (s_max s2)) as [[_ ->]|[_ ->]];
      [destruct M2 as [->|(x & Hx & Hc & E)] | destruct M1 as [->|(x & Hx & Hc & E)]]; try (by left);
      right; exists x; rewrite in_app_iff; tauto.
  - rewrite orb_true_iff, N1, N2. split.
    + intros [[|(x & Hx & E)]|[|(x & Hx & E)]]; try (by left); right; exists x; rewrite in_app_iff; tauto.
    + intros [|(x & [Hx|Hx]%in_app_iff & E)]; [by do 2 left | left; right; by exists x | right; right; by exists x].
Qed.

(** The statistics are determined by the data. *)
Lemma summary_unique k fixlen s d s1 s2 :
  summary k fixlen s d s1 -> summary k fixlen s d s2 -> s1 = s2.
Proof.
  intros [B1 S1 m1 M1 N1] [B2 S2 m2 M2 N2].
  assert (En : s_nulls s1 = s_nulls s2).
  { destruct (s_nulls s1) eqn:E1, (s_nulls s2) eqn:E2; try done.
    - destruct N2 as [_ N2]. symmetry. apply N2, N1. done.
    - destruct N1 as [_ N1]. apply N1, N2. done. }
  assert (Emin : s_min s1 = s_min s2).
  { apply Z.le_antisymm.
    - destruct m2 as [->|(x & Hx & Hc & ->)]; [lia | apply B1; done].
    - destruct m1 as [->|(x & Hx & Hc & ->)]; [lia | apply B2; done]. }
  assert (Emax : s_max s1 = s_max s2).
  { apply Z.le_antisymm.
    - destruct M1 as [->|(x & Hx & Hc & ->)]; [lia | apply B2; done].
    - destruct M2 as [->|(x & Hx & Hc & ->)]; [lia | apply B1; done]. }
  destruct s1, s2. simpl in *. congruence.
Qed.

Lemma encoded_step_summary k v fixlen s x s' :
  encoded_step k v fixlen s x = Ok s' -> summary k fixlen s [x] s'.
Proof.
  unfold encoded_step. fold (is_null k x). intros E.
  assert (Count : counted k fixlen x = true -> s' = mkStats (Z.min (s_min s) (stored_value k x)) (Z.max (s_max s)
    (stored_value k x)) (s_nulls s) ->
                  summary k fixlen s [x] s').
  { intros Hc ->. unfold counted in Hc. apply andb_true_iff in Hc as Hc'. destruct Hc' as [Hn%negb_true_iff _].
    split; cbn [s_min s_max s_nulls].
    - intros y [<-|[]] _. lia.
    - lia.
    - destruct (Z.min_spec (s_min s) (stored_value k x)) as [[_ ->]|[_ ->]]; [by left|].
      right. exists x. split; [by left | done].
    - destruct (Z.max_spec (s_max s) (stored_value k x)) as [[_ ->]|[_ ->]]; [|by left].
      right. exists x. split; [by left | done].
    - split; [by left|]. intros [|(y & [<-|[]] & Ey)]; [done | congruence]. }
  destruct (is_null k x) eqn:En; cbn [negb] in E.
  - injection E as <-. assert (Hc : counted k fixlen x = false) by (unfold counted; by rewrite En).
    split; cbn [s_min s_max s_nulls]; try (by left); [|lia |].
    + intros y [<-|[]]. by rewrite Hc.
    + split; [|done]. intros _. right. exists x. split; [by left | done].
  - destruct (negb fixlen || _) eqn:Ea.
    + apply Count; [unfold counted; by rewrite En, Ea|].
      destruct k; [destruct (validate_decimal v x); [|done] | destruct (validate_decimal v x); [|done] |];
        by injection E as <-.
    + injection E as <-. assert (Hc : counted k fixlen x = false) by (unfold counted; by rewrite En, Ea).
      split; try (by left); [|lia |].
      * intros y [<-|[]]. by rewrite Hc.
      * split; [by left|]. intros [|(y & [<-|[]] & Ey)]; [done | congruence].
Qed.

Lemma encoded_block_summary k v fixlen data : forall s s',
  encoded_block k v fixlen s data = Ok s' -> summary k fixlen s data s'.
Proof.
  induction data as [|x data IH]; intros s s' E; simpl in E; [injection E as <-; apply summary_nil|].
  destruct (encoded_step k v fixlen s x) as [s1|] eqn:E1; [|done]. cbn [rbind] in E.
  apply (summary_app k fixlen s [x] s1 data s'); [by eapply encoded_step_summary | by apply IH].
Qed.

Lemma run_reduction_summary k v fixlen s r : forall s',
  run_reduction k v fixlen s r = Ok s' -> summary k fixlen s (reduction_data r) s'.
Proof.
  induction r as [data|r IH data|l IHl r IHr]; intros s' E; simpl in E.
  - by eapply encoded_block_summary.
  - destruct (run_reduction k v fixlen s r) as [s1|]; [|done]. cbn [rbind] in E.
    apply (summary_app k fixlen s _ s1); [by apply IH | by eapply encoded_block_summary].
  - destruct (run_reduction k v fixlen s l) as [a|]; [|done]. cbn [rbind] in E.
    destruct (run_reduction k v fixlen s r) as [b|]; [|done]. injection E as <-.
    apply summary_join; [by apply IHl | by apply IHr].
Qed.

(** ** Statistics of a chunk *)

Definition stats_of (e : Encoder) : Stats := mkStats (dataMin e) (dataMax e) (has_nulls e).
Definition chunks_data (chunks : list Reduction) : list Z := concat (map reduction_data chunks).

(** A number that can be stored; the seconds of a date are an [int64_t]. *)
Definition stored_ok (k : EncoderKind) (x : Z) : Prop :=
  limit_lowest (v_width k) (t_signed k) <= x <= limit_max (v_width k) (t_signed k) /\
  match k with
  | DateDaysEncoder _ => is_null k x = true \/ INT64_MIN < x * 86400 <= INT64_MAX
  | _ => True
  end.

(** What [Create] makes of a type. *)
Definition kind_ok (t : StorageType) (k : EncoderKind) : Prop :=
  match k with
  | NoneEncoder w true => width_ok w /\ datum_width t = w
  | NoneEncoder w false => (w = 8 \/ w = 16) /\ datum_width t = 32
  | FixedLengthEncoder w => (w = 8 \/ w = 16 \/ w = 32) /\ datum_width t = 64
  | DateDaysEncoder w => (w = 16 \/ w = 32 \/ w = 64) /\ datum_width t = 64
  end.

(** The type the executor sees, in seconds for a date. *)
Definition canonical (t : StorageType) (n : bool) : IrType :=
  match t with
  | BooleanStorage => BooleanType n
  | IntegerStorage size => IntegerType size n
  | DecimalStorage _ _ => DecimalType 0 n
  | DictionaryStorage _ => ExtDictionaryType 0 n
  | DateStorage _ _ => DateType n
  | TimeStorage _ => TimeType n
  | TimestampStorage u _ => TimestampType u n
  end.

(** The value of the column that a stored number is decoded to. *)
Definition decoded (k : EncoderKind) (t : StorageType) (x : Z) : Z :=
  if is_null k x then inline_int_null_value (canonical t true) else stored_value k x.

Lemma create_kind t k :
  Create t = Ok k ->
  kind_ok t k /\ forall n, inline_int_null_value (canonical t n) <= limit_lowest (v_width k) (t_signed k).
Proof.
  unfold Create, createFixedLengthEncoderBySize. intros E.
  assert (Size : forall s, (s =? 1) || (s =? 2) || (s =? 4) || (s =? 8) = true -> s = 1 \/ s = 2 \/ s = 4 \/ s = 8) by lia.
  destruct t as [|s|s p|s|[] s|s|u s]; cbn [storage_size] in E.
  - injection E as <-. split; [split; [by left | done]|]. intros n. by vm_compute.
  - destruct (_ || _) eqn:Es in E; [|done]. injection E as <-.
    destruct (Size s Es) as [-> | [-> | [-> | ->]]]; (split; [split; [unfold width_ok; lia | done]|]); intros n;
      by vm_compute.
  - destruct (_ || _) eqn:Es in E; [|done]. injection E as <-.
    destruct (Size s Es) as [-> | [-> | [-> | ->]]]; (split; [split; [unfold width_ok; lia | done]|]); intros n;
      by vm_compute.
  - destruct (_ || _) eqn:Es in E.
    + injection E as <-. assert (s = 1 \/ s = 2) as [-> | ->] by lia; (split; [split; [lia | done]|]); intros n;
        by vm_compute.
    + destruct (s =? 4) eqn:E4; [|done]. injection E as <-. split; [split; [unfold width_ok; lia | done]|].
      intros n. by vm_compute.
  - destruct (_ || _) eqn:Es in E; [|done]. injection E as <-.
    assert (s = 2 \/ s = 4 \/ s = 8) as [-> | [-> | ->]] by lia; (split; [split; [lia | done]|]); intros n; by vm_compute.
  - destruct (_ || _) eqn:Es in E; [injection E as <-; assert (s = 1 \/ s = 2 \/ s = 4) as [-> | [-> | ->]] by lia|];
      try ((split; [split; [lia | done]|]); intros n; by vm_compute).
    destruct (s =? 8); [|done]. injection E as <-. split; [split; [unfold width_ok; lia | done]|]. intros n. by vm_compute.
  - destruct (_ || _) eqn:Es in E; [injection E as <-; assert (s = 1 \/ s = 2 \/ s = 4) as [-> | [-> | ->]] by lia|];
      try ((split; [split; [lia | done]|]); intros n; by vm_compute).
    destruct (s =? 8); [|done]. injection E as <-. split; [split; [unfold width_ok; lia | done]|]. intros n. by vm_compute.
  - destruct (_ || _) eqn:Es in E; [injection E as <-; assert (s = 1 \/ s = 2 \/ s = 4) as [-> | [-> | ->]] by lia|];
      try ((split; [split; [lia | done]|]); intros n; by vm_compute).
    destruct (s =? 8); [|done]. injection E as <-. split; [split; [unfold width_ok; lia | done]|]. intros n. by vm_compute.
Qed.

Lemma summary_within k fixlen s data s' lo hi :
  summary k fixlen s data s' ->
  (forall x, In x data -> counted k fixlen x = true -> lo <= stored_value k x <= hi) ->
  lo <= s_min s <= hi -> lo <= s_max s <= hi ->
  lo <= s_min s' <= hi /\ lo <= s_max s' <= hi.
Proof.
  intros [_ _ m M _] Hx Hmin Hmax. split.
  - destruct m as [->|(x & Hi & Hc & ->)]; [done | by apply Hx].
  - destruct M as [->|(x & Hi & Hc & ->)]; [done | by apply Hx].
Qed.

(** Without validators nothing fails. *)
Lemma encoded_block_total k fixlen data : forall s, exists s', encoded_block k no_validators fixlen s data = Ok s'.
Proof.
  induction data as [|x data IH]; intros s; [by exists s|]. cbn [encoded_block].
  assert (exists s1, encoded_step k no_validators fixlen s x = Ok s1) as [s1 ->].
  { unfold encoded_step. destruct (negb _); [destruct (_ || _); [destruct k|]|]; by eexists. }
  apply IH.
Qed.

Lemma run_reduction_total k fixlen s r : exists s', run_reduction k no_validators fixlen s r = Ok s'.
Proof.
  induction r as [data|r [s1 E] data|l [a El] r [b Er]]; cbn [run_reduction].
  - apply encoded_block_total.
  - rewrite E. apply encoded_block_total.
  - rewrite El, Er. by eexists.
Qed.

Lemma updateStatsEncoded_summary k v fixlen e r e' :
  updateStatsEncoded k v fixlen e r = Ok e' -> summary k fixlen (init_stats k e) (reduction_data r) (stats_of e').
Proof.
  unfold updateStatsEncoded. destruct (run_reduction _ _ _ _ _) as [s|] eqn:E; [|done]. intros [= <-].
  apply run_reduction_summary in E. by destruct s.
Qed.

(** After a chunk the statistics are of type [V] if the encoder casts them to it. *)
Lemma updateStatsEncoded_fits t k v fixlen e r e' :
  kind_ok t k -> Forall (stored_ok k) (reduction_data r) ->
  updateStatsEncoded k v fixlen e r = Ok e' -> init_stats k e' = stats_of e'.
Proof.
  intros Hk Hd E%updateStatsEncoded_summary. destruct k as [| w |]; [done | | done].
  destruct Hk as [Hw _]. assert (Hp : 0 < w) by lia.
  assert (B : forall z, - 2 ^ (w - 1) <= swrap w z <= 2 ^ (w - 1) - 1)
    by (intros z; pose proof (swrap_range w z Hp); lia).
  destruct (summary_within _ _ _ _ _ (- 2 ^ (w - 1)) (2 ^ (w - 1) - 1) E) as [Hmin Hmax].
  - intros x Hx _. rewrite List.Forall_forall in Hd. by destruct (Hd x Hx).
  - apply B.
  - apply B.
  - cbn [stats_of s_min s_max] in Hmin, Hmax. unfold init_stats, stats_of. rewrite !swrap_small by lia. done.
Qed.

Lemma encode_chunks_summary t k chunks : forall e,
  kind_ok t k -> Forall (stored_ok k) (chunks_data chunks) -> init_stats k e = stats_of e ->
  exists e', encode_chunks k e chunks = Ok e' /\ summary k false (stats_of e) (chunks_data chunks) (stats_of e').
Proof.
  induction chunks as [|r chunks IH]; intros e Hk Hd Hi; [exists e; split; [done | apply summary_nil]|].
  cbn [encode_chunks]. apply Forall_app in Hd as [Hr Hd].
  destruct (run_reduction_total k false (init_stats k e) r) as [s Es].
  destruct (updateStatsEncoded k no_validators false e r) as [e1|] eqn:E1;
    [|unfold updateStatsEncoded in E1; by rewrite Es in E1].
  destruct (IH e1) as (e' & E' & S'); [done | done | by eapply updateStatsEncoded_fits |].
  exists e'. split; [done|]. apply summary_app with (s1 := stats_of e1); [|done].
  rewrite <- Hi. by eapply updateStatsEncoded_summary.
Qed.

Lemma new_chunks_summary t k r chunks :
  kind_ok t k -> Forall (stored_ok k) (chunks_data (r :: chunks)) ->
  exists e', encode_chunks k (newEncoder k) (r :: chunks) = Ok e' /\
             summary k false (init_stats k (newEncoder k)) (chunks_data (r :: chunks)) (stats_of e').
Proof.
  intros Hk Hd. cbn [encode_chunks]. apply Forall_app in Hd as [Hr Hd].
  destruct (run_reduction_total k false (init_stats k (newEncoder k)) r) as [s Es].
  destruct (updateStatsEncoded k no_validators false (newEncoder k) r) as [e1|] eqn:E1;
    [|unfold updateStatsEncoded in E1; by rewrite Es in E1].
  destruct (encode_chunks_summary t k chunks e1) as (e' & E' & S'); [done | done | by eapply updateStatsEncoded_fits |].
  exists e'. split; [done|]. apply summary_app with (s1 := stats_of e1); [|done].
  by eapply updateStatsEncoded_summary.
Qed.

(** The values of a type, and what the reduction starts from, are within the datum. *)
Lemma datum_limits t k :
  kind_ok t k ->
  let lo := - 2 ^ (datum_width t - 1) in let hi := 2 ^ (datum_width t - 1) - 1 in
  0 < datum_width t /\
  (forall x, stored_ok k x -> is_null k x = false -> lo <= stored_value k x <= hi) /\
  lo <= s_min (init_stats k (newEncoder k)) <= hi /\ lo <= s_max (init_stats k (newEncoder k)) <= hi.
Proof.
  intros Hk lo hi. unfold lo, hi. destruct k as [w []|w|w]; simpl in Hk.
  - destruct Hk as [Hw ->]. split; [by apply width_pos|]. unfold stored_ok. cbn.
    assert (0 < 2 ^ (w - 1)) by (apply Z.pow_pos_nonneg; [lia | destruct Hw as [->|[->|[->| ->]]]; lia]).
    split; [intros x [Hx _] _; lia | lia].
  - destruct Hk as [[-> | ->] ->]; unfold stored_ok; cbn; (split; [lia|]); (split; [intros x [Hx _] _; lia | lia]).
  - destruct Hk as [Hw ->]. split; [lia|].
    pose proof (swrap_range w (dataMin (newEncoder (FixedLengthEncoder w))) ltac:(lia)).
    pose proof (swrap_range w (dataMax (newEncoder (FixedLengthEncoder w))) ltac:(lia)).
    unfold init_stats, stored_ok. cbn [s_min s_max v_width t_signed stored_value limit_lowest limit_max].
    destruct Hw as [-> | [-> | ->]]; (split; [intros x [Hx _] _; lia | lia]).
  - destruct Hk as [Hw ->]. split; [lia|]. split; [|cbn; lia].
    intros x [_ [Hx|Hx]] Hn; [congruence|]. cbn [stored_value]. unfold get_epoch_seconds_from_days.
    rewrite s64_small; unfold INT64_MIN, INT64_MAX in *; lia.
Qed.

Lemma create_special t k :
  Create t = Ok k ->
  match k with
  | NoneEncoder _ false => exists size, t = DictionaryStorage size
  | DateDaysEncoder _ => exists size, t = DateStorage true size
  | _ => True
  end.
Proof.
  unfold Create, createFixedLengthEncoderBySize. destruct t as [|s|s p|s|[] s|s|u s]; cbn [storage_size]; intros E;
    repeat match type of E with context [if ?b then _ else _] => destruct b end; try done; injection E as <-;
    try done; by exists s.
Qed.

(** A number that is not null is not decoded to null. *)
Lemma stored_not_null t k n x :
  Create t = Ok k -> stored_ok k x -> is_null k x = false -> stored_value k x <> inline_int_null_value (canonical t n).
Proof.
  intros E [Hx Hd] Hn. destruct (create_kind t k E) as [_ Hl]. specialize (Hl n).
  pose proof (create_special t k E) as Ht. unfold is_null in Hn.
  destruct k as [w []|w|w]; cbn in Hx, Hl, Hn, Ht; cbn [stored_value]; try lia.
  - destruct Ht as [size ->]. change (inline_int_null_value _) with (-2147483648). lia.
  - destruct Ht as [size ->]. destruct Hd as [Hd|Hd]; [unfold is_null in Hd; cbn in Hd; congruence|].
    unfold get_epoch_seconds_from_days. rewrite s64_small by (unfold INT64_MIN, INT64_MAX in *; lia).
    change (inline_int_null_value _) with INT64_MIN. lia.
Qed.

(** ** Guarantees *)

(** A limit that some value reaches; [FixedLengthEncoder] starts from [0] for it. *)
Definition reached (k : EncoderKind) (data : list Z) (start limit : Z) : Prop :=
  (exists x, In x data /\ is_null k x = false /\ limit = stored_value k x) \/
  match k with FixedLengthEncoder _ => limit = start | _ => False end.

Lemma summary_ext k fixlen s data data' s' :
  (forall x, In x data <-> In x data') -> summary k fixlen s data s' -> summary k fixlen s data' s'.
Proof.
  intros Hd [B S m M N]. split.
  - intros x Hx. apply B. by apply Hd.
  - done.
  - destruct m as [|(x & Hx & ?)]; [by left|]. right. exists x. by rewrite <- Hd.
  - destruct M as [|(x & Hx & ?)]; [by left|]. right. exists x. by rewrite <- Hd.
  - rewrite N. split; (intros [|(x & Hx & ?)]; [by left|]; right; exists x; split; [by apply Hd | done]).
Qed.

Lemma stored_value_t k x :
  stored_ok k x -> is_null k x = false ->
  match k with
  | FixedLengthEncoder _ => True
  | _ => s_max (init_stats k (newEncoder k)) <= stored_value k x <= s_min (init_stats k (newEncoder k))
  end.
Proof.
  intros [Hx Hd] Hn. destruct k as [w s|w|w]; [by destruct s | done |].
  destruct Hd as [Hd|Hd]; [congruence|]. cbn [stored_value]. unfold get_epoch_seconds_from_days.
  rewrite s64_small; cbn; unfold INT64_MIN, INT64_MAX in *; lia.
Qed.

(** Where a value is, the limits are reached. *)
Lemma summary_reached t k data s :
  kind_ok t k -> Forall (stored_ok k) data -> summary k false (init_stats k (newEncoder k)) data s ->
  (exists x, In x data /\ is_null k x = false) ->
  reached k data (-1) (s_min s) /\ reached k data 0 (s_max s).
Proof.
  intros Hk Hd [B _ m M _] (x & Hx & Hn). rewrite List.Forall_forall in Hd.
  pose proof (stored_value_t k x (Hd x Hx) Hn) as Hv.
  assert (Hc : counted k false x = true) by (unfold counted; by rewrite Hn). specialize (B x Hx Hc).
  assert (Some_x : forall limit, (exists y, In y data /\ counted k false y = true /\ limit = stored_value k y) ->
                                 exists y, In y data /\ is_null k y = false /\ limit = stored_value k y).
  { intros limit (y & Hy & Hcy & E). exists y. unfold counted in Hcy. by destruct (is_null k y). }
  unfold reached. split.
  - destruct m as [E|?]; [|left; by apply Some_x]. destruct k as [w s0|w|w]; [left; exists x | right | left; exists x].
    + split; [done|]. split; [done | lia].
    + rewrite E. simpl in Hk. by destruct Hk as [[-> | [-> | ->]] _].
    + split; [done|]. split; [done | lia].
  - destruct M as [E|?]; [|left; by apply Some_x]. destruct k as [w s0|w|w]; [left; exists x | right | left; exists x].
    + split; [done|]. split; [done | lia].
    + rewrite E. simpl in Hk. by destruct Hk as [[-> | [-> | ->]] _].
    + split; [done|]. split; [done | lia].
Qed.

Section Guarantees.
Context {F : Type} `{FpOps F}.

(** The statistics in the metadata are those of the encoder. *)
Lemma computeStats_summary t k r chunks :
  Create t = Ok k -> Forall (stored_ok k) (chunks_data (r :: chunks)) ->
  exists s, computeStats t (r :: chunks) = Ok (mkChunkStats (IntVal (s_min s)) (IntVal (s_max s)) (s_nulls s)
    : @ChunkStats F) /\
            summary k false (init_stats k (newEncoder k)) (chunks_data (r :: chunks)) s.
Proof.
  intros E Hd. destruct (create_kind t k E) as [Hk _].
  destruct (new_chunks_summary t k r chunks Hk Hd) as (e & Ee & S). exists (stats_of e). split; [|done].
  unfold computeStats. rewrite E. cbn [rbind]. rewrite Ee. cbn [rbind]. unfold fillChunkStats.
  destruct (datum_limits t k Hk) as (Hw & Hx & Hmin & Hmax).
  assert (Hv : forall x, In x (chunks_data (r :: chunks)) -> counted k false x = true ->
                         - 2 ^ (datum_width t - 1) <= stored_value k x <= 2 ^ (datum_width t - 1) - 1).
  { intros x Hi Hc. rewrite List.Forall_forall in Hd. apply Hx; [by apply Hd|].
    unfold counted in Hc. by destruct (is_null k x). }
  destruct (summary_within _ _ _ _ _ _ _ S Hv Hmin Hmax) as [Lmin Lmax].
  cbn [stats_of s_min s_max] in Lmin, Lmax. rewrite !swrap_small by (done || lia). done.
Qed.

Lemma summary_in_chunk t k n s0 data s x :
  Create t = Ok k -> Forall (stored_ok k) data -> summary k false s0 data s -> In x data ->
  (is_null k x = true -> n = true) ->
  in_chunk (canonical t n) (mkChunkStats (IntVal (s_min s)) (IntVal (s_max s)) (s_nulls s) : @ChunkStats F) (decoded k t x).
Proof.
  intros E Hd S Hx Hn. rewrite List.Forall_forall in Hd. unfold decoded.
  destruct (is_null k x) eqn:Ex.
  - right. split; [by destruct t|]. split; [cbn; apply S; right; by exists x|].
    rewrite (Hn eq_refl). by destruct t.
  - left. exists (s_min s), (s_max s). split; [done|]. split; [done|]. split.
    + apply (sum_bounds _ _ _ _ _ S x Hx). unfold counted. by rewrite Ex.
    + apply (stored_not_null t k n x E); [by apply Hd | done].
Qed.

(** [C25] The statistics of a column.  However the blocks of its chunks are cut, ordered and joined by the
    parallel reduction, the statistics are the same: every value of the column lies within them, they
    have nulls exactly if the column has, and their limits are values of the column, except that those of
    a [FixedLengthEncoder] never leave [-1] and [0] outside. *)
Theorem computed_statistics t k n chunks :
  Create t = Ok k -> chunks <> [] -> Forall (stored_ok k) (chunks_data chunks) ->
  exists (s : @ChunkStats F) lo hi,
    computeStats t chunks = Ok s /\ stat_min s = IntVal lo /\ stat_max s = IntVal hi /\
    (forall x, In x (chunks_data chunks) -> (is_null k x = true -> n = true) ->
               in_chunk (canonical t n) s (decoded k t x)) /\
    (stat_nulls s = true <-> exists x, In x (chunks_data chunks) /\ is_null k x = true) /\
    ((exists x, In x (chunks_data chunks) /\ is_null k x = false) ->
     reached k (chunks_data chunks) (-1) lo /\ reached k (chunks_data chunks) 0 hi) /\
    forall chunks', chunks' <> [] -> (forall x, In x (chunks_data chunks') <-> In x (chunks_data chunks)) ->
                    computeStats t chunks' = Ok s.
Proof.
  intros E Hne Hd. destruct chunks as [|r chunks]; [done|]. destruct (create_kind t k E) as [Hk _].
  destruct (computeStats_summary t k r chunks E Hd) as (s & Es & S).
  exists (mkChunkStats (IntVal (s_min s)) (IntVal (s_max s)) (s_nulls s)), (s_min s), (s_max s).
  split; [done|]. split; [done|]. split; [done|]. split; [|split; [|split]].
  - intros x Hx Hn. by eapply summary_in_chunk.
  - cbn [stat_nulls]. rewrite (sum_nulls _ _ _ _ _ S). destruct k; cbn; split; auto; by intros [|].
  - by eapply summary_reached.
  - intros [|r' chunks'] Hne' Hin; [done|].
    assert (Hd' : Forall (stored_ok k) (chunks_data (r' :: chunks'))).
    { rewrite List.Forall_forall in Hd |- *. intros x Hx. by apply Hd, Hin. }
    destruct (computeStats_summary t k r' chunks' E Hd') as (s' & Es' & S').
    rewrite Es'. by rewrite (summary_unique _ _ _ _ _ _ (summary_ext _ _ _ _ _ _ Hin S') S).
Qed.

(** The range of a column of a table covers every stored value of it: the range that the executor finds
    from the statistics of all the fragments contains the value that each number stored in some fragment
    stands for, the statistics of the fragment being those computed from its chunks. *)
Theorem stored_column_range t k n chunks table_id col_id (infos : list (@InputTableInfo F)) info outer f s R x :
  Create t = Ok k -> Forall (stored_ok k) (chunks_data chunks) -> computeStats t chunks = Ok s ->
  In x (chunks_data chunks) -> (is_null k x = true -> n = true) ->
  List.find (fun i => table_id =? ExpressionRange.table_id i) infos = Some info ->
  info_numTuples info <> 0 -> In f (fragments info) -> isEmptyPhysicalFragment f = false ->
  chunkMetadataMap f !! col_id = Some s ->
  getLeafColumnRange (canonical t n) table_id col_id false infos outer = Ok R ->
  in_range (canonical t n) R (decoded k t x).
Proof.
  intros E Hd Es Hx Hn Hfind Ht Hf Hne Hs ER. destruct chunks as [|r chunks]; [done|].
  destruct (computeStats_summary t k r chunks E Hd) as (st & Est & S).
  rewrite Est in Es. injection Es as <-.
  refine (leaf_sound (canonical t n) table_id col_id infos info outer f _ R _ _ _ Hfind Ht Hf Hne Hs _ ER).
  - by destruct t.
  - by destruct t.
  - by eapply summary_in_chunk.
Qed.

(** Statistics merged cover both sides. *)
Lemma mergeStats_covers t (s1 s2 s : @ChunkStats F) v :
  mergeStats s1 s2 = Ok s -> in_chunk t s1 v \/ in_chunk t s2 v -> in_chunk t s v.
Proof.
  unfold mergeStats. destruct s1 as [[a1| |] [b1| |] n1], s2 as [[a2| |] [b2| |] n2]; try done. intros [= <-].
  intros [[(a & b & [= <-] & [= <-] & ? & ?)|(? & ? & ?)]|[(a & b & [= <-] & [= <-] & ? & ?)|(? & ? & ?)]].
  - left. do 2 eexists. split; [done|]. split; [done|]. split; [lia | done].
  - right. split; [done|]. split; [apply orb_true_iff; by left | done].
  - left. do 2 eexists. split; [done|]. split; [done|]. split; [lia | done].
  - right. split; [done|]. split; [apply orb_true_iff; by right | done].
Qed.
End Guarantees.

(** Encoders of two threads that started from the same statistics are reduced to that of both. *)
Lemma reduceStats_summary k fixlen s0 d1 d2 e that :
  summary k fixlen s0 d1 (stats_of e) -> summary k fixlen s0 d2 (stats_of that) ->
  summary k fixlen s0 (d1 ++ d2) (stats_of (reduceStats e that)).
Proof. exact (summary_join k fixlen s0 d1 (stats_of e) d2 (stats_of that)). Qed.

(** ** Values encoded one by one *)

Lemma epoch_days_floor seconds : get_epoch_days_from_seconds seconds = seconds / 86400.
Proof.
  unfold get_epoch_days_from_seconds.
  destruct (Z.ltb_spec seconds 0) as [Hs|Hs]; cbn [andb];
    [destruct (Z.eqb_spec (Z.rem seconds 86400) 0) as [Hr|Hr]; cbn [negb]|];
    Z.to_euclidean_division_equations; lia.
Qed.

Definition validators (t : StorageType) : Validators :=
  mkValidators (DecimalOverflowValidator t) (DateDaysOverflowValidator t).

(** A value that an encoder accepts and that fits is stored as it is, or as its day, and its statistics
    cover it and what they covered before. *)
Lemma encode_value_covered t k e x e' y :
  Create t = Ok k -> (forall size, t <> DateStorage true size \/ size = 2 \/ size = 4) ->
  match k with FixedLengthEncoder w => in_width w x | _ => True end ->
  encodeDataAndUpdateStats k (validators t) e x = Ok (e', y) ->
  dataMin e' <= dataMin e /\ dataMax e <= dataMax e' /\
  ((has_nulls e' = true /\ x = inline_null_value (v_width k) (t_signed k)) \/
   (has_nulls e' = has_nulls e /\ dataMin e' <= stored_value k y <= dataMax e' /\
    y = match k with DateDaysEncoder _ => x / 86400 | _ => x end)).
Proof.
  intros E Hsz Hf Ee. destruct (create_kind t k E) as [Hk _]. pose proof (create_special t k E) as Ht.
  destruct k as [w s|w|w]; cbn [encodeDataAndUpdateStats] in Ee.
  - destruct (Z.eqb_spec x (inline_null_value w s)) as [Ex|Ex].
    + injection Ee as <- <-. cbn. split; [lia|]. split; [lia|]. by left.
    + destruct (validate_decimal _ _); [|done]. injection Ee as <- <-. cbn. split; [lia|]. split; [lia|].
      right. split; [done|]. split; [lia | done].
  - destruct Hk as [Hw _]. rewrite (swrap_in_width w x) in Ee by (done || (unfold width_ok; lia)).
    rewrite Z.eqb_refl in Ee. cbn [negb] in Ee. destruct (Z.eqb_spec x (- 2 ^ (w - 1))) as [Ex|Ex].
    + injection Ee as <- <-. cbn. split; [lia|]. split; [lia|]. by left.
    + destruct (validate_decimal _ _); [|done]. injection Ee as <- <-. cbn. split; [lia|]. split; [lia|].
      right. split; [done|]. split; [lia | done].
  - destruct (Z.eqb_spec x (- 2 ^ (w - 1))) as [Ex|Ex].
    + injection Ee as <- <-. cbn. split; [lia|]. split; [lia|]. by left.
    + destruct Ht as [size ->]. destruct (Hsz size) as [?|Hsize]; [done|].
      destruct (validate_date _ _) as [[]|] eqn:Ev; [|done]. injection Ee as <- <-.
      assert (Hy : swrap w (get_epoch_days_from_seconds x) = x / 86400).
      { rewrite <- epoch_days_floor. unfold validate_date, validators, days_limits, DateDaysOverflowValidator in Ev.
        unfold Create in E. cbn [storage_size] in E.
        destruct Hsize as [-> | ->]; cbn in E, Ev; injection E as <-; apply swrap_small; try done;
          destruct (_ <? _) eqn:E1 in Ev; try done; destruct (_ <? _) eqn:E2 in Ev; try done;
          unfold INT32_MIN, INT32_MAX in *; lia. }
      rewrite Hy. cbn. split; [lia|]. split; [lia|]. right. split; [done|]. split; [lia | done].
Qed.

(** ** Metadata files *)

Definition encoder_ok (k : EncoderKind) (e : Encoder) : Prop :=
  let lo := limit_lowest (t_width k) (t_signed k) in let hi := limit_max (t_width k) (t_signed k) in
  0 <= num_elems_ e < 2 ^ 64 /\ lo <= dataMin e <= hi /\ lo <= dataMax e <= hi.

Lemma cast_bytes w s v :
  width_ok w -> limit_lowest w s <= v <= limit_max w s ->
  cast_to w s (of_le_bytes (le_bytes (Z.to_nat (w / 8)) v)) = v.
Proof.
  intros Hw Hv. rewrite of_le_bytes_le.
  assert (E : 256 ^ Z.of_nat (Z.to_nat (w / 8)) = 2 ^ w) by (by destruct Hw as [-> | [-> | [-> | ->]]]).
  rewrite E. destruct s; cbn in Hv |- *.
  - rewrite <- (swrap_small w v) at 2; [|by apply width_pos | lia].
    unfold swrap. rewrite Z.add_mod_idemp_l by (pose proof (width_pos w Hw); lia). done.
  - rewrite Z.mod_mod, Z.mod_small; [done | lia |]. assert (0 < 2 ^ w); [|lia]. 
    apply Z.pow_pos_nonneg; [lia|]. pose proof (width_pos w Hw). lia.
Qed.

(** The statistics written to a file are those read from it. *)
Lemma metadata_roundtrip t k e rest :
  Create t = Ok k -> encoder_ok k e -> readMetadata k (writeMetadata k e ++ rest) = Some (e, rest).
Proof.
  intros E (Hn & Hmin & Hmax). destruct (create_kind t k E) as [Hk _].
  assert (Hw : width_ok (t_width k)).
  { unfold width_ok. destruct k as [w []|w|w]; cbn in *; unfold width_ok in Hk; intuition lia. }
  assert (L : forall w v, length (le_bytes w v) = w) by exact le_bytes_length.
  assert (En : of_le_bytes (le_bytes 8 (num_elems_ e)) = num_elems_ e)
    by (rewrite of_le_bytes_le; by apply Z.mod_small).
  pose proof (cast_bytes (t_width k) (t_signed k) (dataMin e) Hw Hmin) as Emin.
  pose proof (cast_bytes (t_width k) (t_signed k) (dataMax e) Hw Hmax) as Emax.
  fold (t_bytes k) in Emin, Emax. unfold readMetadata, writeMetadata. set (n := t_bytes k) in *.
  set (b := if has_nulls e then 1 else 0). rewrite <- !app_assoc. cbn [app].
  set (bytes := le_bytes 8 (num_elems_ e) ++ le_bytes n (dataMin e) ++ le_bytes n (dataMax e) ++ b :: rest).
  assert (Hb : bytes = (le_bytes 8 (num_elems_ e) ++ le_bytes n (dataMin e) ++ le_bytes n (dataMax e)) ++ b :: rest)
    by (unfold bytes; by rewrite <- !app_assoc).
  assert (Hlen : (8 + 2 * n)%nat = length (le_bytes 8 (num_elems_ e) ++ le_bytes n (dataMin e) ++ le_bytes n (dataMax e)))
    by (rewrite !length_app, !L; lia).
  destruct (Nat.leb_spec (9 + 2 * n) (length bytes)) as [_|Hl]; [|rewrite Hb, length_app, <- Hlen in Hl; cbn in Hl; lia].
  assert (Ed : drop (9 + 2 * n) bytes = rest).
  { replace (9 + 2 * n)%nat with (8 + 2 * n + 1)%nat by lia. by rewrite Hb, <- drop_drop, drop_app_length'. }
  assert (Eb : nth (8 + 2 * n) bytes 0 = b) by (by rewrite Hb, Hlen, nth_middle).
  rewrite Ed, Eb. unfold bytes.
  assert (D8 : forall bs, drop 8 (le_bytes 8 (num_elems_ e) ++ bs) = bs) by (intros; by apply drop_app_length').
  rewrite take_app_length', <- drop_drop, !D8, take_app_length', drop_app_length', take_app_length' by (by rewrite L).
  rewrite En, Emin, Emax. unfold b. by destruct e as [? ? ? []].
Qed.

Module EncoderExample.
#[local] Existing Instance fp_int.

(** Dates in days, one null, over two chunks, one of which two threads go over. *)
Definition days : list Reduction := [Joined (Block [10; -32768]) (GoOn (Block []) [3]); Block [7]].

Lemma days_stored : Forall (stored_ok (DateDaysEncoder 16)) (chunks_data days).
Proof. repeat constructor; try (by vm_compute); first [by left | right; split; by vm_compute]. Qed.

Lemma computed_statistics_witness :
  exists s : @ChunkStats Z,
    computeStats (DateStorage true 2) days = Ok s /\ in_chunk (DateType true) s 864000 /\
    computeStats (DateStorage true 2) [Block [3; 7]; Block [10; -32768; 3]] = Ok s.
Proof.
  destruct (computed_statistics (F := Z) (DateStorage true 2) (DateDaysEncoder 16) true days
              eq_refl ltac:(done) days_stored) as (s & lo & hi & E & _ & _ & Hin & _ & _ & Hsplit).
  exists s. split; [done|]. split.
  - apply (Hin 10); [by left | done].
  - apply Hsplit; [done|]. intros x. cbn. tauto.
Defined.

Definition day_stats : @ChunkStats Z := mkChunkStats (IntVal 259200) (IntVal 864000) true.
Definition day_fragment : @FragmentInfo Z :=
  {| physicalTableId := 2; frag_numTuples := 4; chunkMetadataMap := {[ 1 := day_stats ]} |}.
Definition day_table : @InputTableInfo Z := {| table_id := 2; info_numTuples := 4; fragments := [day_fragment] |}.

Lemma stored_column_range_witness :
  in_range (DateType true) (IntRange 259200 864000 86400 true : ExpressionRange Z) INT64_MIN.
Proof.
  apply (stored_column_range (DateStorage true 2) (DateDaysEncoder 16) true days 2 1 [day_table] day_table false
           day_fragment day_stats _ (-32768) eq_refl days_stored); try reflexivity; try (by vm_compute).
  - cbn. tauto.
  - by left.
Defined.

(** ** Where statistics and values part *)

(** A column of times stored in four bytes starts from the casts of the limits of eight bytes. *)
Lemma fixed_length_padded :
  computeStats (TimestampStorage TU_kSecond 4) [Block [1700000000; 1600000000]]
  = Ok (mkChunkStats (IntVal (-1)) (IntVal 1700000000) false : @ChunkStats Z).
Proof. by vm_compute. Qed.

(** A value that does not fit is stored all the same, cut, and the statistics do not cover what is stored. *)
Lemma cut_value_not_covered e :
  encodeDataAndUpdateStats (FixedLengthEncoder 32) no_validators e (2 ^ 32 + 5) = Ok (e, 5).
Proof. done. Qed.

(** A null in seconds does not pass the check of the limits; a second of 1969 is taken for null. *)
Lemma date_nulls e :
  encodeDataAndUpdateStats (DateDaysEncoder 16) (validators (DateStorage true 2)) e INT64_MIN = Err DateUnderflow /\
  encodeDataAndUpdateStats (DateDaysEncoder 16) (validators (DateStorage true 2)) e (-32768) = Ok (add_null e, -32768).
Proof. done. Qed.
End EncoderExample.
