(* ===== verification/ArrowImport.v ===== *)
(** * Conversion of Arrow arrays ([ArrowStorage/ArrowStorageUtils.cpp])

    An array of Arrow has its nulls in a bitmap; a column of the storage has them in the values.  The import goes
    over the bitmap by bytes, with the bits before the first whole byte and after the last on their own.  Arrays
    of lists become numbers of a fixed count per row, strings ids of a dictionary. *)

From Stdlib Require Import ZArith Lia List Bool.
From stdpp Require Import base list gmap numbers.
From S2P Require Import Prelude MurmurHash JoinColumn ExtractFromTime NullableOps IRExpr ExpressionRange RangeFacts RangeProps ColumnEncoders.
Import ListNotations.
Local Open Scope Z_scope.
Local Open Scope hdk_scope.

Inductive ImportError := OutOfBounds | UnsupportedType | ArrayTooBig | ImportCheck.

(** ** Arrays *)

(** An array in memory, as the columnar format of Arrow has it: a slice [offset_, length_] of the buffers.  The
    buffer of booleans has a bit per value; an array without nulls may have no bitmap. *)
Record ArrowArray := mkArrowArray {
  length_ : nat;
  offset_ : nat;
  null_count : nat;
  null_bitmap : list Z;
  buffer : list Z;
}.

Definition at_pos (l : list Z) (i : nat) : result ImportError Z :=
  match l !! i with Some v => Ok v | None => Err OutOfBounds end.

(** A loop that writes one value, or a list of values, per turn. *)
Fixpoint for_each {I A : Type} (items : list I) (body : I -> result ImportError A) : result ImportError (list A) :=
  match items with
  | [] => Ok []
  | i :: items' => let* a := body i in let* rest := for_each items' body in Ok (a :: rest)
  end.

(** The type [T]: a boolean, of one byte, or an integer of a width. *)
Inductive ElemType := ElemBool | ElemInt (w : Z).
Definition null_value (T : ElemType) : Z := match T with ElemBool => -128 | ElemInt w => - 2 ^ (w - 1) end.
Definition null_array_value (T : ElemType) : Z := match T with ElemBool => -127 | ElemInt w => - 2 ^ (w - 1) + 1 end.

(** [(~byte >> i) & 1] and [(byte >> i) & 1]. *)
Definition null_bit (byte : Z) (i : nat) : bool := negb (Z.land (Z.shiftr (Z.lnot byte) (Z.of_nat i)) 1 =? 0).
Definition value_bit (byte : Z) (i : nat) : Z := Z.land (Z.shiftr byte (Z.of_nat i)) 1.

(** How a range of bits is cut into bytes. *)
Definition start_full_byte (offs : nat) : nat := ((offs + 7) / 8)%nat.
Definition end_full_byte (offs length : nat) : nat := ((offs + length) / 8)%nat.
Definition head_bits (offs length : nat) : nat :=
  if (offs mod 8 =? 0)%nat then 0%nat else Nat.min (8 - offs mod 8) length.
Definition tail_bits (offs length : nat) : nat :=
  if (head_bits offs length =? length)%nat then 0%nat else ((offs + length) mod 8)%nat.
Definition full_bytes (offs length : nat) : list nat :=
  seq (start_full_byte offs) (end_full_byte offs length - start_full_byte offs).

(** ** Copies *)

Definition convertBoolBitmapBufferWithNulls (src bitmap : list Z) (offs length : nat) (null_value : Z)
    : result ImportError (list Z) :=
  let* head := for_each (seq 0 (head_bits offs length)) (fun i =>
    let* valid := at_pos bitmap (offs / 8) in
    let* source := at_pos src (offs / 8) in
    Ok (if null_bit valid (offs mod 8 + i) then null_value else value_bit source (offs mod 8 + i))) in
  let* full := for_each (full_bytes offs length) (fun bitmap_idx =>
    let* source := at_pos src bitmap_idx in
    let* valid := at_pos bitmap bitmap_idx in
    Ok (map (fun bitmap_offset =>
               if null_bit valid bitmap_offset then null_value else value_bit source bitmap_offset) (seq 0 8))) in
  let* tail := for_each (seq 0 (tail_bits offs length)) (fun i =>
    let* valid := at_pos bitmap (end_full_byte offs length) in
    let* source := at_pos src (end_full_byte offs length) in
    Ok (if null_bit valid i then null_value else value_bit source i)) in
  Ok (head ++ concat full ++ tail).

Definition convertBoolBitmapBufferWithoutNulls (src : list Z) (offs length : nat) : result ImportError (list Z) :=
  let* head := for_each (seq 0 (head_bits offs length)) (fun i =>
    let* source := at_pos src (offs / 8) in Ok (value_bit source (offs mod 8 + i))) in
  let* full := for_each (full_bytes offs length) (fun bitmap_idx =>
    let* source := at_pos src bitmap_idx in
    Ok (map (fun bitmap_offset => value_bit source bitmap_offset) (seq 0 8))) in
  let* tail := for_each (seq 0 (tail_bits offs length)) (fun i =>
    let* source := at_pos src (end_full_byte offs length) in Ok (value_bit source i)) in
  Ok (head ++ concat full ++ tail).

(** The loops over numbers: [src_offs] counts from [offs]. *)
Definition copy_with_nulls (src bitmap : list Z) (offs length : nat) (null_value : Z) : result ImportError (list Z) :=
  let* head := for_each (seq 0 (head_bits offs length)) (fun i =>
    let* valid := at_pos bitmap (offs / 8) in
    let* val := at_pos src (offs + i) in
    Ok (if null_bit valid (offs mod 8 + i) then null_value else val)) in
  let* full := for_each (full_bytes offs length) (fun bitmap_idx =>
    let* valid := at_pos bitmap bitmap_idx in
    for_each (seq 0 8) (fun bitmap_offset =>
      let* val := at_pos src (offs + head_bits offs length + 8 * (bitmap_idx - start_full_byte offs) + bitmap_offset) in
      Ok (if null_bit valid bitmap_offset then null_value else val))) in
  let* tail := for_each (seq 0 (tail_bits offs length)) (fun i =>
    let* valid := at_pos bitmap (end_full_byte offs length) in
    let* val := at_pos src (offs + head_bits offs length
                            + 8 * (end_full_byte offs length - start_full_byte offs) + i) in
    Ok (if null_bit valid i then null_value else val)) in
  Ok (head ++ concat full ++ tail).

(** [std::copy(src + offs, src + offs + length, dst)]. *)
Definition copy_range (src : list Z) (offs length : nat) : result ImportError (list Z) :=
  if (offs + length <=? List.length src)%nat then Ok (take length (drop offs src)) else Err OutOfBounds.

Definition copyArrayDataReplacingNulls (T : ElemType) (arr : ArrowArray) (offs length : nat)
    : result ImportError (list Z) :=
  if (null_count arr =? length_ arr)%nat then Ok (repeat (null_value T) length)
  else if (null_count arr =? 0)%nat then
    match T with
    | ElemBool => convertBoolBitmapBufferWithoutNulls (buffer arr) offs length
    | ElemInt _ => copy_range (buffer arr) offs length
    end
  else
    match T with
    | ElemBool => convertBoolBitmapBufferWithNulls (buffer arr) (null_bitmap arr) offs length (null_value T)
    | ElemInt _ => copy_with_nulls (buffer arr) (null_bitmap arr) offs length (null_value T)
    end.

(** ** Columns of numbers *)

(** The values of the slice, where the array is used as it is. *)
Definition chunk_values (arr : ArrowArray) : list Z := take (length_ arr) (drop (offset_ arr) (buffer arr)).
Definition total_null_count (arr : list ArrowArray) : nat := list_sum (map null_count arr).
Definition total_length (arr : list ArrowArray) : nat := list_sum (map length_ arr).

(** The chunks are copied one after the other into one buffer. *)
Definition replaceNullValuesImpl (T : ElemType) (arr : list ArrowArray) : result ImportError (list (list Z)) :=
  match T, total_null_count arr with
  | ElemInt _, O => Ok (map chunk_values arr)
  | _, _ =>
      let* parts := for_each arr (fun chunk => copyArrayDataReplacingNulls T chunk 0 (length_ chunk)) in
      Ok [concat parts]
  end.

(** Days and times are of 32 bits and are cast to [w]. *)
Definition copyDateReplacingNulls (w : Z) (arr : ArrowArray) : result ImportError (list Z) :=
  let length := length_ arr in
  let null_value := - 2 ^ (w - 1) in
  if (null_count arr =? length)%nat then Ok (repeat null_value length)
  else if (null_count arr =? 0)%nat then
    let* src := copy_range (buffer arr) 0 length in Ok (map (swrap w) src)
  else
    let* full := for_each (seq 0 (length / 8)) (fun bitmap_idx =>
      let* valid := at_pos (null_bitmap arr) bitmap_idx in
      for_each (seq 0 8) (fun bitmap_offset =>
        let* val := at_pos (buffer arr) (8 * bitmap_idx + bitmap_offset) in
        Ok (if null_bit valid bitmap_offset then null_value else swrap w val))) in
    let* tail := for_each (seq 0 (length mod 8)) (fun i =>
      let* valid := at_pos (null_bitmap arr) (length / 8) in
      let* val := at_pos (buffer arr) (8 * (length / 8) + i) in
      Ok (if null_bit valid i then null_value else swrap w val)) in
    Ok (concat full ++ tail).

Definition convertDateReplacingNulls (w : Z) (arr : list ArrowArray) : result ImportError (list (list Z)) :=
  let* parts := for_each arr (copyDateReplacingNulls w) in Ok [concat parts].

Definition is_size (size : Z) : bool := (size =? 1) || (size =? 2) || (size =? 4) || (size =? 8).

(** [replaceNullValues] of the scalar types. *)
Definition replaceNullValues (arr : list ArrowArray) (type : StorageType) : result ImportError (list (list Z)) :=
  match type with
  | TimeStorage size => if size =? 8 then convertDateReplacingNulls 64 arr else Err UnsupportedType
  | DateStorage in_days size =>
      if negb in_days then Err UnsupportedType
      else if size =? 2 then convertDateReplacingNulls 16 arr
      else if size =? 4 then replaceNullValuesImpl (ElemInt 32) arr
      else if size =? 8 then convertDateReplacingNulls 64 arr
      else Err UnsupportedType
  | IntegerStorage size | TimestampStorage _ size =>
      if is_size size then replaceNullValuesImpl (ElemInt (8 * size)) arr else Err UnsupportedType
  | BooleanStorage => replaceNullValuesImpl ElemBool arr
  | DecimalStorage _ _ | DictionaryStorage _ => Err UnsupportedType
  end.

(** ** Decimals *)

(** The array as its accessors give it; a value is a number of 128 bits. *)
Record DecimalArray := mkDecimalArray { decimals : list (option Z); decimal_nulls : nat }.

Section Decimals.
(** [static_cast<int64_t>] of a [Decimal128]. *)
Context (decimal_to_int64 : Z -> Z).

Definition convertDecimalToInteger (type : StorageType) (arr : list DecimalArray) : result ImportError (list (list Z)) :=
  let size := storage_size type in
  if negb ((size =? 2) || (size =? 4) || (size =? 8)) then Err UnsupportedType
  else
    let w := 8 * size in
    let empty := (list_sum (map decimal_nulls arr) =? list_sum (map (fun c => length (decimals c)) arr))%nat in
    Ok [concat (map (fun c =>
          map (fun val =>
                 if empty || (decimal_nulls c =? length (decimals c))%nat then - 2 ^ (w - 1)
                 else match val with
                      | None => - 2 ^ (w - 1)
                      | Some val => swrap w (decimal_to_int64 val)
                      end) (decimals c)) arr)].
End Decimals.

(** ** Lists *)

(** A list array as its accessors give it. *)
Record ListArray := mkListArray {
  list_length : nat;
  list_null_count : nat;
  IsNull : nat -> bool;
  value_offset : nat -> nat;
  values : ArrowArray;
}.
Definition value_length (arr : ListArray) (i : nat) : nat := value_offset arr (S i) - value_offset arr i.

(** What a null is when it is assigned to an element: a [bool] cannot hold it. *)
Definition stored_null (T : ElemType) (v : Z) : Z := match T with ElemBool => 1 | ElemInt _ => v end.

(** A row of a column of lists of [list_size] elements: short lists are filled with nulls, long ones cut. *)
Definition fixed_row (T : ElemType) (list_size : nat) (chunk : ListArray) (i : nat) : result ImportError (list Z) :=
  if IsNull chunk i then
    Ok (stored_null T (null_array_value T) :: repeat (stored_null T (null_value T)) (list_size - 1))
  else
    let len := Nat.min (value_length chunk i) list_size in
    let* elems := copyArrayDataReplacingNulls T (values chunk) (value_offset chunk i) len in
    Ok (elems ++ repeat (stored_null T (null_value T)) (list_size - len)).

Definition replaceNullValuesFixedSizeArrayImpl (T : ElemType) (arr : list ListArray) (list_size : nat)
    : result ImportError (list (list Z)) :=
  let* chunks := for_each arr (fun chunk => for_each (seq 0 (list_length chunk)) (fixed_row T list_size chunk)) in
  Ok [concat (map (fun rows => concat rows) chunks)].

Definition elem_size (T : ElemType) : Z := match T with ElemBool => 1 | ElemInt w => w / 8 end.

(** The elements that a chunk takes of the new buffer. *)
Definition elems_of (chunk : ListArray) : nat := value_offset chunk (list_length chunk) - value_offset chunk 0.

(** The loop over the rows of a chunk with nulls: the offsets, and what is written to the elements. *)
Fixpoint varlen_rows (T : ElemType) (chunk : ListArray) (rows : list nat) (elem_offset : Z) (use_negative_offset : bool)
    : result ImportError (list Z * list Z) :=
  match rows with
  | [] => Ok ([], [])
  | i :: rows' =>
      let offset := s32 ((if use_negative_offset then - elem_offset else elem_offset) * elem_size T) in
      if IsNull chunk i then
        let* '(offsets, elems) := varlen_rows T chunk rows' elem_offset true in
        Ok (offset :: offsets, elems)
      else
        let elems_to_copy := value_length chunk i in
        let* row := copyArrayDataReplacingNulls T (values chunk) (value_offset chunk i) elems_to_copy in
        let* '(offsets, elems) := varlen_rows T chunk rows' (elem_offset + Z.of_nat elems_to_copy) false in
        Ok (offset :: offsets, row ++ elems)
  end.

Definition varlen_chunk (T : ElemType) (chunk : ListArray) (elem_offset : Z) : result ImportError (list Z * list Z) :=
  if (list_null_count chunk =? 0)%nat then
    let first_elem_offset := value_offset chunk 0 in
    let* elems := copyArrayDataReplacingNulls T (values chunk) first_elem_offset (elems_of chunk) in
    Ok (map (fun i => s32 (u32 (Z.of_nat (value_offset chunk i) + (elem_offset - Z.of_nat first_elem_offset)) * elem_size T))
          (seq 0 (list_length chunk)), elems)
  else varlen_rows T chunk (seq 0 (list_length chunk)) elem_offset false.

(** What is not written of the part of the buffer that a chunk takes stays as it is. *)
Fixpoint varlen_chunks (T : ElemType) (arr : list ListArray) (elem_offset : Z)
    : result ImportError (list Z * list (option Z)) :=
  match arr with
  | [] => Ok ([], [])
  | chunk :: arr' =>
      let* '(offsets, elems) := varlen_chunk T chunk elem_offset in
      let* '(offsets', elems') := varlen_chunks T arr' (elem_offset + Z.of_nat (elems_of chunk)) in
      Ok (offsets ++ offsets', map Some elems ++ repeat None (elems_of chunk - length elems) ++ elems')
  end.

(** The offsets, in bytes, and the elements. *)
Definition replaceNullValuesVarlenArrayImpl (T : ElemType) (arr : list ListArray)
    : result ImportError (list Z * list (option Z)) :=
  let elems_count := Z.of_nat (list_sum (map elems_of arr)) in
  if INT32_MAX <? elems_count then Err ArrayTooBig
  else
    let* '(offsets, elems) := varlen_chunks T arr 0 in
    match rev arr with
    | last_chunk :: _ =>
        if (list_length last_chunk =? 0)%nat then Err OutOfBounds
        else
          let last_offset :=
            if IsNull last_chunk (list_length last_chunk - 1) then - elems_count * elem_size T
            else elems_count * elem_size T in
          Ok (offsets ++ [s32 last_offset], elems)
    | [] => Err OutOfBounds
    end.

(** The reader of a column of arrays: the start in bytes and the length of a row, none for null. *)
Definition ChunkIter_get_nth_varlen (offsets : list Z) (n : nat) : option (option (Z * Z)) :=
  match offsets !! n, offsets !! S n with
  | Some offset, Some next_offset =>
      if 0 <=? next_offset then
        let offset := if offset <? 0 then - offset else offset in
        Some (Some (offset, next_offset - offset))
      else Some None
  | _, _ => None
  end.

(** ** Ranges of bits *)

Lemma for_each_ok {I A : Type} (items : list I) body (f : I -> A) :
  (forall i, In i items -> body i = Ok (f i)) -> for_each items body = Ok (map f items).
Proof.
  induction items as [|i items IH]; intros Hb; [done|]. cbn [for_each map].
  rewrite (Hb i (or_introl eq_refl)). cbn [rbind]. rewrite IH; [done|]. intros j Hj. apply Hb. by right.
Qed.

Lemma at_pos_ok (l : list Z) i : (i < length l)%nat -> at_pos l i = Ok (nth i l 0).
Proof. intros Hi. unfold at_pos. by destruct (nth_lookup_or_length l i 0) as [-> | ?]; [|lia]. Qed.

Lemma map_add_seq a n : map (Nat.add a) (seq 0 n) = seq a n.
Proof. rewrite <- (Nat.add_0_r a) at 2. generalize 0%nat. induction n as [|n IH]; intros b; [done|]. cbn.
  by rewrite IH, Nat.add_succ_r. Qed.

Lemma whole_bytes s n : concat (map (fun b => seq (8 * b) 8) (seq s n)) = seq (8 * s) (8 * n).
Proof.
  revert s. induction n as [|n IH]; intros s; [done|]. cbn [seq map concat]. rewrite IH.
  replace (8 * S n)%nat with (8 + 8 * n)%nat by lia. rewrite seq_app. f_equal. f_equal. lia.
Qed.

Lemma eight a : (a = 8 * (a / 8) + a mod 8 /\ a mod 8 < 8)%nat.
Proof. split; [apply Nat.div_mod_eq | by apply Nat.mod_upper_bound]. Qed.

(** Where the bits of a range are. *)
Lemma bit_range_cases offs length :
  (head_bits offs length = length /\ tail_bits offs length = 0%nat /\ full_bytes offs length = []) \/
  ((offs + head_bits offs length = 8 * start_full_byte offs)%nat /\
   (start_full_byte offs <= end_full_byte offs length)%nat /\
   (8 * end_full_byte offs length + tail_bits offs length = offs + length)%nat).
Proof.
  unfold tail_bits, full_bytes, head_bits, start_full_byte, end_full_byte.
  pose proof (eight offs). pose proof (eight (offs + 7)). pose proof (eight (offs + length)).
  destruct (Nat.eqb_spec (offs mod 8) 0) as [Ho|Ho].
  - destruct (Nat.eqb_spec 0 length) as [Hl|Hl]; [left | right; lia].
    split; [done|]. split; [done|]. by replace ((offs + length) / 8 - (offs + 7) / 8)%nat with 0%nat by lia.
  - destruct (Nat.eqb_spec (Nat.min (8 - offs mod 8) length) length) as [Hl|Hl]; [left | right; lia].
    split; [done|]. split; [done|]. by replace ((offs + length) / 8 - (offs + 7) / 8)%nat with 0%nat by lia.
Qed.

Lemma head_bit offs length i :
  (i < head_bits offs length)%nat -> ((offs + i) / 8 = offs / 8 /\ (offs + i) mod 8 = offs mod 8 + i)%nat.
Proof.
  unfold head_bits. destruct (Nat.eqb_spec (offs mod 8) 0); [lia|]. intros Hi.
  pose proof (eight offs). pose proof (eight (offs + i)). lia.
Qed.

Lemma byte_bit b k : (k < 8)%nat -> ((8 * b + k) / 8 = b /\ (8 * b + k) mod 8 = k)%nat.
Proof. intros Hk. pose proof (eight (8 * b + k)). lia. Qed.

Lemma bit_ranges offs length :
  seq offs length = map (Nat.add offs) (seq 0 (head_bits offs length))
    ++ concat (map (fun b => map (Nat.add (8 * b)) (seq 0 8)) (full_bytes offs length))
    ++ map (Nat.add (8 * end_full_byte offs length)) (seq 0 (tail_bits offs length)).
Proof.
  rewrite !map_add_seq, (map_ext _ (fun b => seq (8 * b) 8)) by (intros b; apply map_add_seq).
  destruct (bit_range_cases offs length) as [(-> & -> & ->)|(Hh & Hse & Ht)]; [cbn; by rewrite app_nil_r|].
  unfold full_bytes. rewrite whole_bytes.
  replace length with (head_bits offs length + (8 * (end_full_byte offs length - start_full_byte offs)
    + tail_bits offs length))%nat at 1 by lia.
  rewrite !seq_app. repeat f_equal; lia.
Qed.

Lemma three_loops offs length (row : nat -> Z) head_body full_body tail_body :
  (forall i, (i < head_bits offs length)%nat -> head_body i = Ok (row (offs + i)%nat)) ->
  (forall b, In b (full_bytes offs length) -> full_body b = Ok (map (fun k => row (8 * b + k)%nat) (seq 0 8))) ->
  (forall i, (i < tail_bits offs length)%nat -> tail_body i = Ok (row (8 * end_full_byte offs length + i)%nat)) ->
  (let* head := for_each (seq 0 (head_bits offs length)) head_body in
   let* full := for_each (full_bytes offs length) full_body in
   let* tail := for_each (seq 0 (tail_bits offs length)) tail_body in
   Ok (head ++ concat full ++ tail)) = Ok (map row (seq offs length)).
Proof.
  intros Hh Hf Ht.
  rewrite (for_each_ok _ head_body (fun i => row (offs + i)%nat)) by (intros i Hi%in_seq; apply Hh; lia).
  rewrite (for_each_ok _ full_body _ Hf).
  rewrite (for_each_ok _ tail_body (fun i => row (8 * end_full_byte offs length + i)%nat)) by (intros i Hi%in_seq;
    apply Ht; lia).
  cbn [rbind]. rewrite (bit_ranges offs length), !map_app, !map_map, concat_map, map_map. done.
Qed.

(** Every byte that is read is there. *)
Definition covers (bytes : list Z) (bits : nat) : Prop := (bits <= 8 * length bytes)%nat.

Lemma bytes_there bytes offs length :
  covers bytes (offs + length) ->
  (forall i, (i < head_bits offs length)%nat -> (offs / 8 < List.length bytes)%nat) /\
  (forall b, In b (full_bytes offs length) -> (b < List.length bytes)%nat) /\
  (forall i, (i < tail_bits offs length)%nat -> (end_full_byte offs length < List.length bytes)%nat).
Proof.
  unfold covers. intros Hc. split; [|split].
  - intros i. unfold head_bits. pose proof (eight offs). destruct (Nat.eqb_spec (offs mod 8) 0); lia.
  - intros b Hb%in_seq. unfold end_full_byte in Hb. pose proof (eight (offs + length)). lia.
  - intros i Hi. unfold tail_bits, end_full_byte in *. pose proof (eight (offs + length)).
    destruct (_ =? length)%nat; lia.
Qed.

Definition valid_at (bitmap : list Z) (i : nat) : bool := negb (null_bit (nth (i / 8) bitmap 0) (i mod 8)).
Definition bool_at (src : list Z) (i : nat) : Z := value_bit (nth (i / 8) src 0) (i mod 8).

(** The bits are those of the numbers. *)
Lemma value_bit_spec byte i : value_bit byte i = Z.b2z (Z.testbit byte (Z.of_nat i)).
Proof.
  unfold value_bit. change 1 with (Z.ones 1). rewrite Z.land_ones, Z.testbit_odd by lia.
  rewrite Zmod_odd. by destruct (Z.odd _).
Qed.
Lemma null_bit_spec byte i : null_bit byte i = negb (Z.testbit byte (Z.of_nat i)).
Proof.
  unfold null_bit. fold (value_bit (Z.lnot byte) i). rewrite value_bit_spec, Z.lnot_spec by lia.
  by destruct (Z.testbit byte (Z.of_nat i)).
Qed.

Lemma convertBool_nulls_spec src bitmap offs length null :
  covers src (offs + length) -> covers bitmap (offs + length) ->
  convertBoolBitmapBufferWithNulls src bitmap offs length null
  = Ok (map (fun i => if valid_at bitmap i then bool_at src i else null) (seq offs length)).
Proof.
  intros Hs Hb. destruct (bytes_there src offs length Hs) as (S1 & S2 & S3).
  destruct (bytes_there bitmap offs length Hb) as (B1 & B2 & B3). unfold valid_at, bool_at.
  apply three_loops.
  - intros i Hi. rewrite !at_pos_ok by eauto. cbn [rbind]. destruct (head_bit offs length i Hi) as [-> ->].
    by destruct (null_bit _ _).
  - intros b Hi. rewrite !at_pos_ok by eauto. cbn [rbind]. f_equal. apply map_ext_in. intros k [_ Hk]%in_seq.
    destruct (byte_bit b k) as [-> ->]; [lia|]. by destruct (null_bit _ _).
  - intros i Hi. rewrite !at_pos_ok by eauto. cbn [rbind].
    destruct (byte_bit (end_full_byte offs length) i) as [-> ->];
      [unfold tail_bits in Hi; pose proof (eight (offs + length)); destruct (_ =? length)%nat; lia|].
    by destruct (null_bit _ _).
Qed.

Lemma convertBool_spec src offs length :
  covers src (offs + length) ->
  convertBoolBitmapBufferWithoutNulls src offs length = Ok (map (bool_at src) (seq offs length)).
Proof.
  intros Hs. destruct (bytes_there src offs length Hs) as (S1 & S2 & S3). unfold bool_at.
  apply (three_loops offs length (bool_at src)); unfold bool_at.
  - intros i Hi. rewrite !at_pos_ok by eauto. cbn [rbind]. by destruct (head_bit offs length i Hi) as [-> ->].
  - intros b Hi. rewrite !at_pos_ok by eauto. cbn [rbind]. f_equal. apply map_ext_in. intros k [_ Hk]%in_seq.
    by destruct (byte_bit b k) as [-> ->]; [lia|].
  - intros i Hi. rewrite !at_pos_ok by eauto. cbn [rbind].
    by destruct (byte_bit (end_full_byte offs length) i) as [-> ->];
      [unfold tail_bits in Hi; pose proof (eight (offs + length)); destruct (_ =? length)%nat; lia|].
Qed.

Lemma copy_nulls_spec src bitmap offs length null :
  (offs + length <= List.length src)%nat -> covers bitmap (offs + length) ->
  copy_with_nulls src bitmap offs length null
  = Ok (map (fun i => if valid_at bitmap i then nth i src 0 else null) (seq offs length)).
Proof.
  intros Hs Hb. destruct (bytes_there bitmap offs length Hb) as (B1 & B2 & B3). unfold valid_at.
  destruct (bit_range_cases offs length) as [(Hh & Ht & Hf)|(Hh & Hse & Ht)].
  - apply three_loops.
    + intros i Hi. rewrite !at_pos_ok by (eauto || lia). cbn [rbind]. destruct (head_bit offs length i Hi) as [-> ->].
      by destruct (null_bit _ _).
    + by rewrite Hf.
    + rewrite Ht. lia.
  - apply three_loops.
    + intros i Hi. assert (head_bits offs length <= length)%nat by (unfold head_bits; destruct (_ =? 0)%nat; lia).
      rewrite !at_pos_ok by (eauto || lia). cbn [rbind]. destruct (head_bit offs length i Hi) as [-> ->].
      by destruct (null_bit _ _).
    + intros b Hi. rewrite !at_pos_ok by eauto. cbn [rbind]. apply in_seq in Hi as Hr.
      apply for_each_ok. intros k [_ Hk]%in_seq.
      replace (offs + head_bits offs length + 8 * (b - start_full_byte offs) + k)%nat with (8 * b + k)%nat by lia.
      rewrite at_pos_ok by lia. cbn [rbind]. destruct (byte_bit b k) as [-> ->]; [lia|]. by destruct (null_bit _ _).
    + intros i Hi. rewrite (at_pos_ok bitmap) by eauto. cbn [rbind].
      replace (offs + head_bits offs length + 8 * (end_full_byte offs length - start_full_byte offs) + i)%nat
        with (8 * end_full_byte offs length + i)%nat by lia.
      rewrite at_pos_ok by lia. cbn [rbind].
      destruct (byte_bit (end_full_byte offs length) i) as [-> ->];
        [unfold tail_bits in Hi; pose proof (eight (offs + length)); destruct (_ =? length)%nat; lia|].
      by destruct (null_bit _ _).
Qed.

(** ** What an array holds *)

Lemma slice_nth (l : list Z) len : forall offs, (offs + len <= List.length l)%nat ->
  take len (drop offs l) = map (fun j => nth j l 0) (seq offs len).
Proof.
  induction len as [|len IH]; intros offs Hl; [done|]. cbn [seq map]. rewrite <- IH by lia.
  destruct (nth_lookup_or_length l offs 0) as [E|E]; [|lia]. by rewrite (drop_S l _ offs E).
Qed.

Definition raw_at (T : ElemType) (arr : ArrowArray) (j : nat) : Z :=
  match T with ElemBool => bool_at (buffer arr) j | ElemInt _ => nth j (buffer arr) 0 end.
Definition row_valid (arr : ArrowArray) (j : nat) : bool :=
  match null_bitmap arr with [] => true | bitmap => valid_at bitmap j end.

(** The rows of the slice, [None] for null. *)
Definition row_at (T : ElemType) (arr : ArrowArray) (j : nat) : option Z :=
  if row_valid arr j then Some (raw_at T arr j) else None.
Definition rows (T : ElemType) (arr : ArrowArray) : list (option Z) :=
  map (row_at T arr) (seq (offset_ arr) (length_ arr)).

Definition or_null (T : ElemType) (v : option Z) : Z := default (null_value T) v.

(** The buffers are as long as the slice needs, and the nulls are counted. *)
Record array_ok (T : ElemType) (arr : ArrowArray) : Prop := mkArrayOk {
  ok_buffer : match T with
              | ElemBool => covers (buffer arr) (offset_ arr + length_ arr)
              | ElemInt _ => (offset_ arr + length_ arr <= List.length (buffer arr))%nat
              end;
  ok_bitmap : null_bitmap arr = [] \/ covers (null_bitmap arr) (offset_ arr + length_ arr);
  ok_nulls : null_count arr = List.length (List.filter (fun j => negb (row_valid arr j)) (seq (offset_ arr) (length_ arr)));
}.

Lemma filter_none {A : Type} (f : A -> bool) l : List.length (List.filter f l) = 0%nat -> forall x, In x l -> f x = false.
Proof.
  induction l as [|y l IH]; intros E x; [done|]. cbn [List.filter] in E. destruct (f y) eqn:Ey; [done|].
  intros [<-|Hx]; [done | by apply IH].
Qed.
Lemma filter_every {A : Type} (f : A -> bool) l :
  List.length (List.filter f l) = List.length l -> forall x, In x l -> f x = true.
Proof.
  induction l as [|y l IH]; intros E x; [done|]. cbn [List.filter] in E.
  destruct (f y) eqn:Ey; [intros [<-|Hx]; [done | apply IH; [by injection E | done]]|].
  pose proof (List.filter_length_le f l). cbn in E. lia.
Qed.

Section ArrayFacts.
Context (T : ElemType) (arr : ArrowArray) (OK : array_ok T arr).

Lemma no_nulls_valid : null_count arr = 0%nat -> forall i, (i < length_ arr)%nat -> row_valid arr (offset_ arr + i) = true.
Proof.
  intros E i Hi. rewrite (ok_nulls _ _ OK) in E. pose proof (filter_none _ _ E (offset_ arr + i)%nat) as N.
  rewrite in_seq in N. destruct (row_valid _ _); [done|]. cbn in N. discriminate N. lia.
Qed.
Lemma all_nulls_invalid : null_count arr = length_ arr -> forall i, (i < length_ arr)%nat ->
  row_valid arr (offset_ arr + i) = false.
Proof.
  intros E i Hi. rewrite (ok_nulls _ _ OK), <- (length_seq (length_ arr) (offset_ arr)) in E.
  rewrite length_seq in E at 1. pose proof (filter_every _ _ E (offset_ arr + i)%nat) as N.
  rewrite in_seq in N. destruct (row_valid _ _); [|done]. cbn in N. discriminate N. lia.
Qed.

(** A part of an array that is not sliced. *)
Lemma copy_spec offs len :
  offset_ arr = 0%nat -> (offs + len <= length_ arr)%nat ->
  copyArrayDataReplacingNulls T arr offs len = Ok (map (fun j => or_null T (row_at T arr j)) (seq offs len)).
Proof.
  intros E0 Hlen. unfold copyArrayDataReplacingNulls. destruct OK as [Hb Hm Hn]. rewrite E0 in Hb, Hm.
  cbn [Nat.add] in Hb, Hm.
  destruct (Nat.eqb_spec (null_count arr) (length_ arr)) as [Ea|Ea].
  { f_equal. rewrite <- (length_seq len offs) at 1. rewrite <- map_const. apply map_ext_in.
    intros j Hj%in_seq. unfold row_at. pose proof (all_nulls_invalid Ea j) as V. rewrite E0 in V. cbn in V.
    by rewrite V by lia. }
  destruct (Nat.eqb_spec (null_count arr) 0) as [Ez|Ez].
  { assert (V : forall j, In j (seq offs len) -> or_null T (row_at T arr j) = raw_at T arr j).
    { intros j Hj%in_seq. unfold row_at. pose proof (no_nulls_valid Ez j) as V. rewrite E0 in V. cbn in V.
      by rewrite V by lia. }
    rewrite (map_ext_in _ _ _ V). destruct T as [|w]; cbn [raw_at].
    - apply convertBool_spec. unfold covers in *. lia.
    - unfold copy_range. destruct (Nat.leb_spec (offs + len) (List.length (buffer arr))); [|lia]. f_equal.
      by apply slice_nth. }
  assert (Hbm : null_bitmap arr <> []).
  { intros E. apply Ez. rewrite Hn. unfold row_valid. rewrite E. clear. generalize (seq (offset_ arr) (length_ arr)).
    induction l as [|x l IH]; [done | exact IH]. }
  assert (V : forall j, or_null T (row_at T arr j) = if valid_at (null_bitmap arr) j then raw_at T arr j else null_value T).
  { intros j. unfold row_at, row_valid. destruct (null_bitmap arr) as [|b bm] eqn:E; [done|]. rewrite <- E.
    by destruct (valid_at _ _). }
  rewrite (map_ext _ _ V). destruct Hm as [Hm|Hm]; [done|]. destruct T as [|w]; cbn [raw_at].
  - apply convertBool_nulls_spec; unfold covers in *; lia.
  - apply copy_nulls_spec; unfold covers in *; lia.
Qed.
End ArrayFacts.

(** ** Columns of numbers *)

Lemma for_each_concat {I A : Type} (items : list I) (body : I -> result ImportError (list A)) (f : I -> list A) :
  (forall i, In i items -> body i = Ok (f i)) ->
  (let* parts := for_each items body in Ok [concat parts]) = Ok [concat (map f items)].
Proof. intros Hb. by rewrite (for_each_ok items body f Hb). Qed.

(** The rows of a column. *)
Definition column_rows (T : ElemType) (arr : list ArrowArray) : list (option Z) := concat (map (rows T) arr).

Lemma rows_values w arr :
  array_ok (ElemInt w) arr -> null_count arr = 0%nat ->
  chunk_values arr = map (or_null (ElemInt w)) (rows (ElemInt w) arr).
Proof.
  intros OK E. unfold chunk_values, rows. pose proof (ok_buffer _ _ OK) as Hb. cbn in Hb.
  rewrite slice_nth, map_map by lia. apply map_ext_in. intros j Hj%in_seq. unfold row_at.
  replace j with (offset_ arr + (j - offset_ arr))%nat by lia.
  by rewrite (no_nulls_valid _ _ OK E (j - offset_ arr)) by lia.
Qed.

Lemma list_sum_zero l : list_sum l = 0%nat -> forall x, In x l -> x = 0%nat.
Proof.
  induction l as [|y l IH]; intros E x; [done|]. assert (E' : (y + list_sum l = 0)%nat) by exact E.
  intros [<-|Hx]; [lia | apply IH; [lia | done]].
Qed.

(** An array with nulls, and one of booleans, is not a slice. *)
Definition import_ok (T : ElemType) (arr : list ArrowArray) : Prop :=
  Forall (array_ok T) arr /\
  (Forall (fun c => offset_ c = 0%nat) arr \/ (T <> ElemBool /\ total_null_count arr = 0%nat)).

Lemma replaceNullValuesImpl_spec T arr :
  import_ok T arr ->
  exists chunks, replaceNullValuesImpl T arr = Ok chunks /\ concat chunks = map (or_null T) (column_rows T arr).
Proof.
  intros [Hok Ho]. rewrite List.Forall_forall in Hok. unfold column_rows. rewrite concat_map, map_map.
  assert (Copied : Forall (fun c => offset_ c = 0%nat) arr ->
    (let* parts := for_each arr (fun chunk => copyArrayDataReplacingNulls T chunk 0 (length_ chunk)) in Ok [concat parts])
    = Ok [concat (map (fun c => map (or_null T) (rows T c)) arr)]).
  { intros H0. rewrite List.Forall_forall in H0. apply for_each_concat. intros c Hc.
    rewrite (copy_spec T c (Hok c Hc) 0 (length_ c) (H0 c Hc) ltac:(lia)). unfold rows. by rewrite (H0 c Hc), map_map. }
  unfold replaceNullValuesImpl. destruct T as [|w].
  - destruct Ho as [H0|[? _]]; [|done]. rewrite (Copied H0). eexists. split; [done|]. cbn. by rewrite app_nil_r.
  - destruct (total_null_count arr) eqn:En.
    + eexists. split; [done|]. f_equal. apply map_ext_in. intros c Hc. apply rows_values; [by apply Hok|].
      apply (list_sum_zero _ En). by apply in_map.
    + destruct Ho as [H0|[_ ?]]; [|done]. rewrite (Copied H0). eexists. split; [done|]. cbn. by rewrite app_nil_r.
Qed.

(** ** Dates and times *)

Definition date_or_null (w : Z) (v : option Z) : Z := match v with Some v => swrap w v | None => - 2 ^ (w - 1) end.

Lemma copyDate_loops w arr :
  (length_ arr <= List.length (buffer arr))%nat -> covers (null_bitmap arr) (length_ arr) ->
  (let* full := for_each (seq 0 (length_ arr / 8)) (fun bitmap_idx =>
     let* valid := at_pos (null_bitmap arr) bitmap_idx in
     for_each (seq 0 8) (fun bitmap_offset =>
       let* val := at_pos (buffer arr) (8 * bitmap_idx + bitmap_offset) in
       Ok (if null_bit valid bitmap_offset then - 2 ^ (w - 1) else swrap w val))) in
   let* tail := for_each (seq 0 (length_ arr mod 8)) (fun i =>
     let* valid := at_pos (null_bitmap arr) (length_ arr / 8) in
     let* val := at_pos (buffer arr) (8 * (length_ arr / 8) + i) in
     Ok (if null_bit valid i then - 2 ^ (w - 1) else swrap w val)) in
   Ok (concat full ++ tail))
  = Ok (map (fun j => if valid_at (null_bitmap arr) j then swrap w (nth j (buffer arr) 0) else - 2 ^ (w - 1))
          (seq 0 (length_ arr))).
Proof.
  intros Hs Hb. set (n := length_ arr) in *. pose proof (bytes_there (null_bitmap arr) 0 n Hb) as (_ & B2 & B3).
  assert (Ef : full_bytes 0 n = seq 0 (n / 8)) by (unfold full_bytes, end_full_byte; cbn [Nat.add]; by rewrite Nat.sub_0_r).
  assert (Et : tail_bits 0 n = (n mod 8)%nat) by (unfold tail_bits; cbn; by destruct n).
  assert (Ee : end_full_byte 0 n = (n / 8)%nat) by done.
  rewrite <- (three_loops 0 n _ (fun i => Err OutOfBounds)
    (fun bitmap_idx =>
       let* valid := at_pos (null_bitmap arr) bitmap_idx in
       for_each (seq 0 8) (fun bitmap_offset =>
         let* val := at_pos (buffer arr) (8 * bitmap_idx + bitmap_offset) in
         Ok (if null_bit valid bitmap_offset then - 2 ^ (w - 1) else swrap w val)))
    (fun i =>
       let* valid := at_pos (null_bitmap arr) (n / 8) in
       let* val := at_pos (buffer arr) (8 * (n / 8) + i) in
       Ok (if null_bit valid i then - 2 ^ (w - 1) else swrap w val))).
  - by rewrite Ef, Et.
  - cbn. lia.
  - rewrite Ef in *. intros b Hi. rewrite at_pos_ok by auto. cbn [rbind]. apply in_seq in Hi as Hr. pose proof (eight n).
    apply for_each_ok. intros k [_ Hk]%in_seq. rewrite at_pos_ok by lia. cbn [rbind]. unfold valid_at.
    destruct (byte_bit b k) as [-> ->]; [lia|]. by destruct (null_bit _ _).
  - rewrite Et in *. intros i Hi. pose proof (eight n). rewrite at_pos_ok by eauto. cbn [rbind].
    rewrite at_pos_ok by lia. cbn [rbind]. unfold valid_at. rewrite Ee.
    destruct (byte_bit (n / 8) i) as [-> ->]; [lia|]. by destruct (null_bit _ _).
Qed.

Lemma copyDate_spec w arr :
  array_ok (ElemInt 32) arr -> offset_ arr = 0%nat ->
  copyDateReplacingNulls w arr = Ok (map (date_or_null w) (rows (ElemInt 32) arr)).
Proof.
  intros OK E0. unfold copyDateReplacingNulls, rows. rewrite E0, map_map.
  pose proof (all_nulls_invalid _ _ OK) as Va. pose proof (no_nulls_valid _ _ OK) as Vn.
  destruct OK as [Hb Hm Hn]. rewrite E0 in Hb, Hm, Va, Vn. cbn [Nat.add] in Hb, Hm, Va, Vn.
  destruct (Nat.eqb_spec (null_count arr) (length_ arr)) as [Ea|Ea].
  { f_equal. rewrite <- (length_seq (length_ arr) 0) at 1. rewrite <- map_const. apply map_ext_in.
    intros j Hj%in_seq. unfold row_at. by rewrite Va by (done || lia). }
  destruct (Nat.eqb_spec (null_count arr) 0) as [Ez|Ez].
  { unfold copy_range. destruct (Nat.leb_spec (0 + length_ arr) (List.length (buffer arr))); [|lia]. cbn [rbind]. f_equal.
    rewrite slice_nth, map_map by lia. apply map_ext_in. intros j Hj%in_seq. unfold row_at. by rewrite Vn by (done || lia). }
  assert (Hbm : null_bitmap arr <> []).
  { intros E. apply Ez. rewrite Hn. unfold row_valid. rewrite E. clear. generalize (seq (offset_ arr) (length_ arr)).
    induction l as [|x l IH]; [done | exact IH]. }
  destruct Hm as [Hm|Hm]; [done|]. rewrite copyDate_loops by done. f_equal. apply map_ext. intros j.
  unfold row_at, row_valid. destruct (null_bitmap arr) as [|b bm] eqn:E; [done|]. rewrite <- E. by destruct (valid_at _ _).
Qed.

(** ** Columns of the storage *)

(** The type of the Arrow array that becomes a column. *)
Definition source_type (t : StorageType) : ElemType :=
  match t with
  | BooleanStorage => ElemBool
  | IntegerStorage size | TimestampStorage _ size => ElemInt (8 * size)
  | _ => ElemInt 32
  end.
Definition importable (t : StorageType) : bool :=
  match t with
  | BooleanStorage => true
  | IntegerStorage size | TimestampStorage _ size => is_size size
  | DateStorage in_days size => in_days && ((size =? 2) || (size =? 4) || (size =? 8))
  | TimeStorage size => size =? 8
  | DecimalStorage _ _ | DictionaryStorage _ => false
  end.

Definition storage_width (t : StorageType) : Z := 8 * storage_size t.
Definition stored_row (t : StorageType) (v : option Z) : Z := default (inline_null_value (storage_width t) true) v.
Definition row_fits (t : StorageType) (v : option Z) : Prop :=
  match v with Some v => in_width (storage_width t) v | None => True end.

(** What the import makes of a row: the days of a date and the values of a time are converted to the width of the column,
    which cuts a date that is too big for two bytes; the other values are copied. *)
Definition imported_row (t : StorageType) (v : option Z) : Z :=
  match t with
  | DateStorage _ size => if size =? 4 then stored_row t v else date_or_null (storage_width t) v
  | TimeStorage _ => date_or_null (storage_width t) v
  | _ => stored_row t v
  end.

Lemma imported_row_fits t v : importable t = true -> row_fits t v -> imported_row t v = stored_row t v.
Proof.
  intros Ht Hf. destruct t as [|s|s p|s|d s|s|u s]; try done; cbn [importable imported_row] in *.
  - destruct (s =? 4) eqn:E4; [done|]. apply andb_true_iff in Ht as [_ Hs]. destruct v as [v|]; [|done]. cbn in *.
    apply swrap_in_width; [unfold width_ok, storage_width; cbn; lia | done].
  - destruct v as [v|]; [|done]. cbn in *. apply swrap_in_width; [unfold width_ok, storage_width; cbn; lia | done].
Qed.

Lemma convertDate_spec w arr :
  Forall (array_ok (ElemInt 32)) arr -> Forall (fun c => offset_ c = 0%nat) arr ->
  exists chunks, convertDateReplacingNulls w arr = Ok chunks /\
                 concat chunks = map (date_or_null w) (column_rows (ElemInt 32) arr).
Proof.
  intros Hok H0. rewrite List.Forall_forall in Hok, H0. unfold convertDateReplacingNulls.
  rewrite (for_each_concat _ _ (fun c => map (date_or_null w) (rows (ElemInt 32) c)))
    by (intros c Hc; apply copyDate_spec; auto).
  eexists. split; [done|]. cbn. rewrite app_nil_r. unfold column_rows. by rewrite concat_map, map_map.
Qed.

Lemma replaceImpl_stored t arr :
  null_value (source_type t) = inline_null_value (storage_width t) true ->
  Forall (array_ok (source_type t)) arr -> Forall (fun c => offset_ c = 0%nat) arr ->
  exists chunks, replaceNullValuesImpl (source_type t) arr = Ok chunks /\
                 concat chunks = map (stored_row t) (column_rows (source_type t) arr).
Proof.
  intros En Hok H0. destruct (replaceNullValuesImpl_spec (source_type t) arr) as (chunks & E & Ec); [split;
    [done | by left]|].
  exists chunks. split; [done|]. rewrite Ec. apply map_ext. intros v. unfold or_null, stored_row. by rewrite En.
Qed.

Lemma import_rows t arr :
  importable t = true -> Forall (array_ok (source_type t)) arr -> Forall (fun c => offset_ c = 0%nat) arr ->
  exists chunks, replaceNullValues arr t = Ok chunks /\
                 concat chunks = map (imported_row t) (column_rows (source_type t) arr).
Proof.
  intros Ht Hok H0. destruct t as [|s|s p|s|d s|s|u s]; cbn [importable] in Ht; try done; cbn [replaceNullValues].
  - by apply (replaceImpl_stored BooleanStorage).
  - rewrite Ht. by apply (replaceImpl_stored (IntegerStorage s)).
  - apply andb_true_iff in Ht as [-> Hs]. cbn [negb].
    destruct (Z.eqb_spec s 2) as [->|N2]; [by apply convertDate_spec|].
    destruct (Z.eqb_spec s 4) as [->|N4]; [by apply (replaceImpl_stored (DateStorage true 4))|].
    assert (s = 8) as -> by lia. by apply convertDate_spec.
  - rewrite Ht. assert (s = 8) as -> by lia. by apply convertDate_spec.
  - rewrite Ht. by apply (replaceImpl_stored (TimestampStorage u s)).
Qed.

Lemma import_column_spec t arr :
  importable t = true -> Forall (array_ok (source_type t)) arr -> Forall (fun c => offset_ c = 0%nat) arr ->
  Forall (row_fits t) (column_rows (source_type t) arr) ->
  exists chunks, replaceNullValues arr t = Ok chunks /\
                 concat chunks = map (stored_row t) (column_rows (source_type t) arr).
Proof.
  intros Ht Hok H0 Hf. destruct (import_rows t arr Ht Hok H0) as (chunks & E & Ec). exists chunks. split; [done|].
  rewrite Ec. apply map_ext_in. intros v Hv. apply imported_row_fits; [done|]. rewrite List.Forall_forall in Hf. auto.
Qed.

(** [C16] The import of a column of numbers, booleans, dates in days or times, from arrays that are not slices.  Whatever
    the lengths of the chunks, with the bytes of the bitmap that are whole and the bits before and after them, no byte
    outside the buffers is read, and the column has the rows of the array in their order, each null as the null value of
    the type and each other value as [imported_row] has it; that is the value itself when it fits in the bytes of the
    column, and a date that does not fit in two bytes is cut. *)
Theorem imported_column t arr :
  importable t = true -> Forall (array_ok (source_type t)) arr -> Forall (fun c => offset_ c = 0%nat) arr ->
  exists chunks, replaceNullValues arr t = Ok chunks /\
                 concat chunks = map (imported_row t) (column_rows (source_type t) arr) /\
                 forall v, row_fits t v -> imported_row t v = stored_row t v.
Proof.
  intros Ht Hok H0. destruct (import_rows t arr Ht Hok H0) as (chunks & E & Ec). exists chunks.
  split; [done|]. split; [done|]. intros v. by apply imported_row_fits.
Qed.

(** ** Columns of lists *)

Definition list_elems (T : ElemType) (chunk : ListArray) (i : nat) : list Z :=
  map (fun j => or_null T (row_at T (values chunk) j)) (seq (value_offset chunk i) (value_length chunk i)).
Definition list_row (T : ElemType) (chunk : ListArray) (i : nat) : option (list Z) :=
  if IsNull chunk i then None else Some (list_elems T chunk i).
Definition list_rows (T : ElemType) (chunk : ListArray) : list (option (list Z)) :=
  map (list_row T chunk) (seq 0 (list_length chunk)).

(** The offsets go up to the values, and no null has elements. *)
Record list_ok (T : ElemType) (chunk : ListArray) : Prop := mkListOk {
  lo_values : array_ok T (values chunk);
  lo_whole : offset_ (values chunk) = 0%nat;
  lo_mono : forall i, (i < list_length chunk)%nat -> (value_offset chunk i <= value_offset chunk (S i))%nat;
  lo_last : (value_offset chunk (list_length chunk) <= length_ (values chunk))%nat;
  lo_null : forall i, (i < list_length chunk)%nat -> IsNull chunk i = true ->
            value_length chunk i = 0%nat /\ list_null_count chunk <> 0%nat;
}.

Lemma offset_up T chunk : list_ok T chunk -> forall i j, (i <= j <= list_length chunk)%nat ->
  (value_offset chunk i <= value_offset chunk j)%nat.
Proof.
  intros OK i j [Hij Hj]. induction Hij as [|j Hij IH]; [done|].
  pose proof (lo_mono _ _ OK j ltac:(lia)). pose proof (IH ltac:(lia)). lia.
Qed.

Lemma copy_elems T chunk i n :
  list_ok T chunk -> (i < list_length chunk)%nat -> (n <= value_length chunk i)%nat ->
  copyArrayDataReplacingNulls T (values chunk) (value_offset chunk i) n = Ok (take n (list_elems T chunk i)).
Proof.
  intros OK Hi Hn. unfold value_length in Hn. pose proof (offset_up T chunk OK (S i) (list_length chunk) ltac:(lia)).
  pose proof (lo_last _ _ OK). pose proof (lo_mono _ _ OK i Hi).
  rewrite (copy_spec T (values chunk) (lo_values _ _ OK) _ _ (lo_whole _ _ OK)) by lia. f_equal. unfold list_elems.
  rewrite firstn_map. f_equal. replace (value_length chunk i)
    with (n + (value_length chunk i - n))%nat by (unfold value_length; lia).
  rewrite seq_app, take_app_length'; [done | by rewrite length_seq].
Qed.

Lemma list_elems_length T chunk i : length (list_elems T chunk i) = value_length chunk i.
Proof. unfold list_elems. by rewrite length_map, length_seq. Qed.

(** Rows of a fixed count of elements: cut, or filled with nulls. *)
Definition fixed_elems (T : ElemType) (list_size : nat) (row : option (list Z)) : list Z :=
  match row with
  | None => stored_null T (null_array_value T) :: repeat (stored_null T (null_value T)) (list_size - 1)
  | Some l => take list_size l ++ repeat (stored_null T (null_value T)) (list_size - length l)
  end.

Lemma fixed_elems_length T n row : (1 <= n)%nat -> length (fixed_elems T n row) = n.
Proof. intros Hn. destruct row as [l|]; cbn; rewrite ?length_app, ?length_take, repeat_length; lia. Qed.

Lemma fixed_lists_spec T arr n :
  Forall (list_ok T) arr ->
  replaceNullValuesFixedSizeArrayImpl T arr n
  = Ok [concat (map (fixed_elems T n) (concat (map (list_rows T) arr)))].
Proof.
  intros Hok. rewrite List.Forall_forall in Hok. unfold replaceNullValuesFixedSizeArrayImpl.
  rewrite (for_each_ok _ _ (fun c => map (fixed_elems T n) (list_rows T c))).
  - cbn [rbind]. f_equal. f_equal. clear. induction arr as [|c arr IH]; [done|]. cbn. by rewrite map_app, concat_app, IH.
  - intros c Hc. unfold list_rows. rewrite map_map. apply for_each_ok. intros i [_ Hi]%in_seq. cbn in Hi.
    unfold fixed_row, list_row. destruct (IsNull c i); [done|].
    rewrite (copy_elems T c i) by (auto || lia). cbn [rbind fixed_elems]. f_equal. rewrite list_elems_length.
    destruct (Nat.le_gt_cases n (value_length c i)) as [Hl|Hl].
    + by rewrite Nat.min_r, Nat.sub_diag by lia; replace (n - value_length c i)%nat with 0%nat by lia.
    + by rewrite Nat.min_l, !take_ge by (rewrite ?list_elems_length; lia).
Qed.

(** ** Columns of lists of any length *)

Definition row_length (row : option (list Z)) : Z := match row with Some l => Z.of_nat (length l) | None => 0 end.
Definition is_none (row : option (list Z)) : bool := match row with None => true | Some _ => false end.
Definition row_elems (row : option (list Z)) : list Z := match row with Some l => l | None => [] end.
Definition signed (neg : bool) (v : Z) : Z := if neg then - v else v.

(** The offsets of rows from an element on, and with that of the end. *)
Fixpoint offsets_from (size p : Z) (neg : bool) (rs : list (option (list Z))) : list Z :=
  match rs with
  | [] => []
  | row :: rs' => signed neg (p * size) :: offsets_from size (p + row_length row) (is_none row) rs'
  end.
Fixpoint end_null (neg : bool) (rs : list (option (list Z))) : bool :=
  match rs with [] => neg | row :: rs' => end_null (is_none row) rs' end.
Fixpoint rows_length (rs : list (option (list Z))) : Z :=
  match rs with [] => 0 | row :: rs' => row_length row + rows_length rs' end.

Lemma offsets_app size rs1 : forall p neg rs2,
  offsets_from size p neg (rs1 ++ rs2)
  = offsets_from size p neg rs1 ++ offsets_from size (p + rows_length rs1) (end_null neg rs1) rs2.
Proof.
  induction rs1 as [|row rs1 IH]; intros p neg rs2; cbn; [by rewrite Z.add_0_r|]. rewrite IH. by rewrite Z.add_assoc.
Qed.

Lemma rows_length_app rs1 rs2 : rows_length (rs1 ++ rs2) = rows_length rs1 + rows_length rs2.
Proof. induction rs1 as [|row rs1 IH]; cbn; [done|]. rewrite IH. lia. Qed.

Lemma rows_length_elems rs : rows_length rs = Z.of_nat (length (concat (map row_elems rs))).
Proof. induction rs as [|[l|] rs IH]; cbn; [done | | done]. rewrite length_app. lia. Qed.

Lemma rows_length_nonneg rs : 0 <= rows_length rs.
Proof. rewrite rows_length_elems. lia. Qed.

Lemma row_length_nonneg row : 0 <= row_length row.
Proof. destruct row; unfold row_length; lia. Qed.

Definition read_offsets (offset next_offset : Z) : option (Z * Z) :=
  if 0 <=? next_offset then
    let offset := if offset <? 0 then - offset else offset in Some (offset, next_offset - offset)
  else None.
Lemma get_nth_first a b l : ChunkIter_get_nth_varlen (a :: b :: l) 0 = Some (read_offsets a b).
Proof. unfold read_offsets. cbn. by destruct (0 <=? b). Qed.
Lemma get_nth_next a l n : ChunkIter_get_nth_varlen (a :: l) (S n) = ChunkIter_get_nth_varlen l n.
Proof. done. Qed.

(** A row is read back if it is not a null before the first element. *)
Lemma read_row size rs : forall p neg n row,
  0 < size -> 0 <= p -> rs !! n = Some row ->
  (row = None -> 0 < p + rows_length (take n rs)) ->
  ChunkIter_get_nth_varlen (offsets_from size p neg rs ++ [signed (end_null neg rs) ((p + rows_length rs) * size)]) n
  = Some (match row with
          | None => None
          | Some l => Some ((p + rows_length (take n rs)) * size, Z.of_nat (length l) * size)
          end).
Proof.
  induction rs as [|r rs IH]; intros p neg n row Hs Hp Hn Hnull; [done|]. destruct n as [|n].
  - injection Hn as ->. cbn in Hnull. cbn [offsets_from app take rows_length]. rewrite Z.add_0_r in *.
    assert (E : exists rest, offsets_from size (p + row_length row) (is_none row) rs
                       ++ [signed (end_null neg (row :: rs)) ((p + (row_length row + rows_length rs)) * size)]
                     = signed (is_none row) ((p + row_length row) * size) :: rest).
    { destruct rs as [|r' rs]; cbn; [rewrite Z.add_0_r|]; by eexists. }
    destruct E as [rest E]. rewrite E, get_nth_first. f_equal. unfold read_offsets.
    destruct row as [l|]; unfold signed; cbn [is_none row_length] in *.
    + assert (0 <= p * size) by nia. rewrite Z.mul_add_distr_r. assert (0 <= Z.of_nat (length l) * size) by nia.
      destruct (Z.leb_spec 0 (p * size + Z.of_nat (length l) * size)); [|lia].
      destruct neg; [destruct (Z.ltb_spec (- (p * size)) 0) | destruct (Z.ltb_spec (p * size) 0); [lia|]];
        repeat f_equal; lia.
    + specialize (Hnull eq_refl). destruct (Z.leb_spec 0 (- ((p + 0) * size))); [nia | done].
  - cbn in Hn. cbn [take rows_length] in *. cbn [offsets_from app]. rewrite get_nth_next.
    specialize (IH (p + row_length r) (is_none r) n row Hs ltac:(pose proof (row_length_nonneg r); lia)
      Hn ltac:(intros E; specialize (Hnull E); lia)).
    cbn [end_null] in *.
    rewrite <- Z.add_assoc in IH. rewrite IH. destruct row; [|done]. do 3 f_equal. lia.
Qed.

Section Varlen.
Context (T : ElemType) (Hsize : 0 < elem_size T).

Lemma range_length chunk n : forall i,
  list_ok T chunk -> (i + n <= list_length chunk)%nat ->
  rows_length (map (list_row T chunk) (seq i n)) = Z.of_nat (value_offset chunk (i + n)) - Z.of_nat (value_offset chunk i).
Proof.
  induction n as [|n IH]; intros i OK Hi; [cbn; rewrite Nat.add_0_r; lia|]. cbn [seq map rows_length].
  rewrite IH by (done || lia). rewrite Nat.add_succ_r. cbn [Nat.add].
  pose proof (lo_mono _ _ OK i ltac:(lia)). unfold list_row. destruct (IsNull chunk i) eqn:En; cbn [row_length].
  - destruct (lo_null _ _ OK i ltac:(lia) En) as [E _]. unfold value_length in E. lia.
  - rewrite list_elems_length. unfold value_length. lia.
Qed.

Lemma chunk_length chunk : list_ok T chunk -> rows_length (list_rows T chunk) = Z.of_nat (elems_of chunk).
Proof.
  intros OK. unfold list_rows. rewrite range_length by (done || lia). unfold elems_of. cbn [Nat.add].
  pose proof (offset_up T chunk OK 0 (list_length chunk) ltac:(lia)). lia.
Qed.

Lemma varlen_rows_spec chunk n : forall i p neg,
  list_ok T chunk -> (i + n <= list_length chunk)%nat -> 0 <= p ->
  (p + rows_length (map (list_row T chunk) (seq i n))) * elem_size T <= INT32_MAX ->
  varlen_rows T chunk (seq i n) p neg
  = Ok (offsets_from (elem_size T) p neg (map (list_row T chunk) (seq i n)),
    concat (map row_elems (map (list_row T chunk) (seq i n)))).
Proof.
  induction n as [|n IH]; intros i p neg OK Hi Hp Hb; [done|]. cbn [seq map varlen_rows offsets_from] in *.
  cbn [rows_length] in Hb.
  pose proof (row_length_nonneg (list_row T chunk i)). pose proof (rows_length_nonneg (map (list_row T chunk)
    (seq (S i) n))).
  assert (Es : s32 ((if neg then - p else p) * elem_size T) = signed neg (p * elem_size T)).
  { unfold INT32_MAX in Hb. rewrite s32_small by (destruct neg; nia). destruct neg; unfold signed; nia. }
  rewrite Es. assert (Er : list_row T chunk i = if IsNull chunk i then None else Some (list_elems T chunk i)) by done.
  rewrite Er in *. clear Er.
  destruct (IsNull chunk i); cbn [row_length is_none row_elems] in *.
  - rewrite Z.add_0_r, IH by (done || lia). done.
  - rewrite (copy_elems T chunk i) by (done || lia). cbn [rbind]. rewrite list_elems_length in *.
    rewrite IH by (done || lia). cbn [rbind]. by rewrite take_ge by (rewrite list_elems_length; lia).
Qed.

(** The elements of a chunk without nulls, in one copy. *)
Lemma range_elems chunk n : forall i,
  list_ok T chunk -> (i + n <= list_length chunk)%nat -> (forall j, (j < list_length chunk)%nat -> IsNull chunk j = false) ->
  concat (map row_elems (map (list_row T chunk) (seq i n)))
  = map (fun j => or_null T (row_at T (values chunk) j))
      (seq (value_offset chunk i) (value_offset chunk (i + n) - value_offset chunk i)).
Proof.
  induction n as [|n IH]; intros i OK Hi Hnn; [by rewrite Nat.add_0_r, Nat.sub_diag|]. cbn [seq map concat].
  rewrite IH by (done || lia). rewrite Nat.add_succ_r. cbn [Nat.add]. unfold list_row. rewrite Hnn by lia. cbn [row_elems].
  pose proof (lo_mono _ _ OK i ltac:(lia)). pose proof (offset_up T chunk OK (S i) (S (i + n)) ltac:(lia)).
  unfold list_elems, value_length. rewrite <- map_app. f_equal.
  replace (value_offset chunk (S (i + n)) - value_offset chunk i)%nat
    with ((value_offset chunk (S i) - value_offset chunk i) + (value_offset chunk (S (i + n))
      - value_offset chunk (S i)))%nat by lia.
  rewrite seq_app. do 2 f_equal. lia.
Qed.

Lemma plain_offsets chunk p n : forall i,
  list_ok T chunk -> (i + n <= list_length chunk)%nat -> (forall j, (j < list_length chunk)%nat -> IsNull chunk j = false) ->
  0 <= p -> (p + Z.of_nat (elems_of chunk)) * elem_size T <= INT32_MAX ->
  map (fun i => s32 (u32 (Z.of_nat (value_offset chunk i) + (p - Z.of_nat (value_offset chunk 0))) * elem_size T)) (seq i n)
  = offsets_from (elem_size T) (p + (Z.of_nat (value_offset chunk i) - Z.of_nat (value_offset chunk 0))) false
      (map (list_row T chunk) (seq i n)).
Proof.
  induction n as [|n IH]; intros i OK Hi Hnn Hp Hb; [done|]. cbn [seq map offsets_from].
  pose proof (offset_up T chunk OK 0 i ltac:(lia)). pose proof (offset_up T chunk OK i (list_length chunk) ltac:(lia)).
  pose proof (lo_mono _ _ OK i ltac:(lia)). unfold elems_of, INT32_MAX in Hb.
  rewrite IH by (done || (unfold elems_of, INT32_MAX; lia)).
  assert (Er : list_row T chunk i = Some (list_elems T chunk i)) by (unfold list_row; by rewrite Hnn by lia).
  rewrite Er. cbn [row_length is_none]. rewrite list_elems_length. unfold value_length. f_equal.
  - rewrite u32_small by nia. rewrite s32_small by nia. unfold signed. f_equal. lia.
  - f_equal. lia.
Qed.

Lemma varlen_chunk_spec chunk p :
  list_ok T chunk -> 0 <= p -> (p + rows_length (list_rows T chunk)) * elem_size T <= INT32_MAX ->
  varlen_chunk T chunk p
  = Ok (offsets_from (elem_size T) p false (list_rows T chunk), concat (map row_elems (list_rows T chunk))).
Proof.
  intros OK Hp Hb. unfold varlen_chunk. destruct (Nat.eqb_spec (list_null_count chunk) 0) as [E0|E0].
  - assert (Hnn : forall j, (j < list_length chunk)%nat -> IsNull chunk j = false).
    { intros j Hj. destruct (IsNull chunk j) eqn:E; [|done]. by destruct (lo_null _ _ OK j Hj E). }
    rewrite (chunk_length chunk OK) in Hb. pose proof (offset_up T chunk OK 0 (list_length chunk) ltac:(lia)).
    rewrite (copy_spec T (values chunk) (lo_values _ _ OK) _ _ (lo_whole _ _ OK))
      by (pose proof (lo_last _ _ OK); unfold elems_of; lia).
    cbn [rbind]. unfold list_rows. rewrite (plain_offsets chunk p (list_length chunk) 0) by (done || lia).
    rewrite range_elems by (done || lia). cbn [Nat.add]. do 2 f_equal. f_equal. lia.
  - by apply varlen_rows_spec.
Qed.

(** No null ends a chunk that another follows. *)
Definition joined_ok (arr : list ListArray) : Prop :=
  Forall (fun c => end_null false (list_rows T c) = false) (removelast arr).

Lemma varlen_chunks_spec arr : forall p,
  Forall (list_ok T) arr -> joined_ok arr -> 0 <= p ->
  (p + rows_length (concat (map (list_rows T) arr))) * elem_size T <= INT32_MAX ->
  varlen_chunks T arr p
  = Ok (offsets_from (elem_size T) p false (concat (map (list_rows T) arr)),
        map Some (concat (map row_elems (concat (map (list_rows T) arr))))).
Proof.
  induction arr as [|c arr IH]; intros p Hok Hj Hp Hb; [done|].
  pose proof (Forall_inv Hok) as Hc. apply Forall_inv_tail in Hok. cbn [varlen_chunks map concat] in *.
  rewrite rows_length_app in Hb.
  pose proof (rows_length_nonneg (list_rows T c)). pose proof (rows_length_nonneg (concat (map (list_rows T) arr))).
  rewrite varlen_chunk_spec by (done || nia). cbn [rbind]. rewrite <- (chunk_length c Hc).
  assert (Hj' : joined_ok arr /\ (arr <> [] -> end_null false (list_rows T c) = false)).
  { unfold joined_ok in *. destruct arr as [|c' arr]; [split; [constructor | done]|].
    split; [by apply Forall_inv_tail in Hj | intros _; exact (Forall_inv Hj)]. }
  destruct Hj' as [Hj1 Hj2]. rewrite IH by (done || lia). cbn [rbind].
  rewrite offsets_app, !map_app, concat_app, map_app.
  replace (elems_of c - length (concat (map row_elems (list_rows T c))))%nat with 0%nat
    by (pose proof (chunk_length c Hc) as E; rewrite rows_length_elems in E; lia).
  cbn [repeat app]. do 2 f_equal. destruct arr as [|c' arr]; [done | by rewrite Hj2].
Qed.

Lemma end_null_app neg rs row : end_null neg (rs ++ [row]) = is_none row.
Proof. revert neg. induction rs as [|r rs IH]; intros neg; [done | apply IH]. Qed.

(** [C26] Columns of lists, of chunks of which the last is not empty and whose element arrays are
    whole and not slices, with offsets that go up ([list_ok]).  If every null list has no elements and
    some before it, no null ends a chunk that another follows, and the bytes of all elements are at most
    INT32_MAX, the column is read back: each null is null, and each list starts and ends where its
    elements are, each null element being the null value of its type. *)
Theorem varlen_lists_read_back arr l last_chunk :
  arr = l ++ [last_chunk] -> list_length last_chunk <> 0%nat -> Forall (list_ok T) arr -> joined_ok arr ->
  let rs := concat (map (list_rows T) arr) in
  rows_length rs * elem_size T <= INT32_MAX ->
  (forall n, rs !! n = Some None -> 0 < rows_length (take n rs)) ->
  exists offsets elems, replaceNullValuesVarlenArrayImpl T arr = Ok (offsets, map Some elems) /\
    forall n row, rs !! n = Some row ->
      match row with
      | None => ChunkIter_get_nth_varlen offsets n = Some None
      | Some elements => exists start : nat,
          ChunkIter_get_nth_varlen offsets n
          = Some (Some (Z.of_nat start * elem_size T, Z.of_nat (length elements) * elem_size T)) /\
          take (length elements) (drop start elems) = elements
      end.
Proof.
  intros Ea Hl Hok Hj rs Hb Hnull.
  assert (Hcount : Z.of_nat (list_sum (map elems_of arr)) = rows_length rs).
  { unfold rs. clear -Hok. induction Hok as [|c arr Hc Hok IH]; [done|]. cbn [map concat]. rewrite rows_length_app,
      chunk_length by done.
    change (list_sum (elems_of c :: map elems_of arr)) with (elems_of c + list_sum (map elems_of arr))%nat. lia. }
  assert (Hlast : IsNull last_chunk (list_length last_chunk - 1) = end_null false rs).
  { unfold rs. rewrite Ea, map_app, concat_app. cbn [map concat]. rewrite app_nil_r. unfold list_rows at 2.
    destruct (list_length last_chunk) as [|n] eqn:E; [done|]. cbn [Nat.sub]. rewrite Nat.sub_0_r, seq_S, map_app, app_assoc.
    cbn [map]. rewrite end_null_app. unfold list_row. by destruct (IsNull _ _). }
  pose proof (rows_length_nonneg rs). exists (offsets_from (elem_size T) 0 false rs ++ [signed (end_null false rs)
    ((0 + rows_length rs) * elem_size T)]).
  exists (concat (map row_elems rs)). split.
  - unfold replaceNullValuesVarlenArrayImpl. rewrite Hcount. destruct (Z.ltb_spec INT32_MAX (rows_length rs)); [nia|].
    rewrite varlen_chunks_spec by (done || lia). cbn [rbind]. fold rs. rewrite Ea, rev_app_distr. cbn [rev app].
    destruct (Nat.eqb_spec (list_length last_chunk) 0); [done|]. rewrite Hlast. do 4 f_equal.
    unfold INT32_MAX in Hb. destruct (end_null false rs); unfold signed; rewrite s32_small; nia.
  - intros n row Hn. pose proof (read_row (elem_size T) rs 0 false n row Hsize ltac:(lia) Hn) as R.
    destruct row as [elements|].
    + exists (Z.to_nat (rows_length (take n rs))). pose proof (rows_length_nonneg (take n rs)).
      rewrite R by done. rewrite Z2Nat.id by done. split; [done|].
      assert (Ee : concat (map row_elems rs)
                   = concat (map row_elems (take n rs)) ++ elements ++ concat (map row_elems (drop (S n) rs))).
      { rewrite <- (take_drop_middle rs n _ Hn) at 1. by rewrite map_app, concat_app. }
      rewrite Ee, rows_length_elems, Nat2Z.id, drop_app_length. by rewrite take_app_length.
    + apply R. intros _. cbn [Z.add]. by apply Hnull.
Qed.
End Varlen.

(** ** Decimals *)

Section DecimalFacts.
Context (decimal_to_int64 : Z -> Z).
(** A number that fits is not changed by the cast. *)
Context (decimal_cast : forall v, in_width 64 v -> decimal_to_int64 v = v).

Definition decimals_ok (c : DecimalArray) : Prop :=
  decimal_nulls c = length (List.filter (fun v => match v with None => true | Some _ => false end) (decimals c)).

Lemma all_none c :
  decimals_ok c -> decimal_nulls c = length (decimals c) -> forall v, In v (decimals c) -> v = None.
Proof. intros Hc E v Hv. unfold decimals_ok in Hc. rewrite Hc in E. pose proof (filter_every _ _ E v Hv). by destruct v. Qed.

Lemma decimal_nulls_le c : decimals_ok c -> (decimal_nulls c <= length (decimals c))%nat.
Proof. intros ->. apply List.filter_length_le. Qed.

Lemma list_sum_cons n l : list_sum (n :: l) = (n + list_sum l)%nat.
Proof. done. Qed.

Lemma every_chunk_none arr :
  Forall decimals_ok arr ->
  (list_sum (map decimal_nulls arr) <= list_sum (map (fun c => length (decimals c)) arr))%nat /\
  (list_sum (map decimal_nulls arr) = list_sum (map (fun c => length (decimals c)) arr) ->
   Forall (fun c => decimal_nulls c = length (decimals c)) arr).
Proof.
  intros Hok. induction Hok as [|c arr Hc Hok [Le IH]]; [by split|]. cbn [map]. rewrite !list_sum_cons.
  pose proof (decimal_nulls_le c Hc). split; [lia|]. intros E. constructor; [lia | apply IH; lia].
Qed.

Lemma imported_decimals size precision arr :
  size = 2 \/ size = 4 \/ size = 8 -> Forall decimals_ok arr ->
  Forall (row_fits (DecimalStorage size precision)) (concat (map decimals arr)) ->
  exists chunks, convertDecimalToInteger decimal_to_int64 (DecimalStorage size precision) arr = Ok chunks /\
                 concat chunks = map (stored_row (DecimalStorage size precision)) (concat (map decimals arr)).
Proof.
  intros Hs Hok Hf. unfold convertDecimalToInteger. cbn [storage_size].
  replace (negb _) with false by (destruct Hs as [-> | [-> | ->]]; done). eexists. split; [done|].
  cbn [concat]. rewrite app_nil_r, concat_map, map_map. f_equal. apply map_ext_in. intros c Hc. apply map_ext_in.
  intros v Hv.
  assert (Hnull : v = None -> stored_row (DecimalStorage size precision) v = - 2 ^ (8 * size - 1)) by (intros ->; done).
  rewrite List.Forall_forall in Hok, Hf.
  destruct (_ || _) eqn:E; [symmetry; apply Hnull; apply (all_none c); [by apply Hok | | done]|].
  - apply orb_true_iff in E as [E|E]; [|by apply Nat.eqb_eq in E].
    apply Nat.eqb_eq in E. apply every_chunk_none in E; [|by apply List.Forall_forall];
      rewrite List.Forall_forall in E. by apply E.
  - destruct v as [v|]; [|by rewrite Hnull]. cbn.
    assert (Hv' : in_width (8 * size) v).
    { apply (Hf (Some v)). apply in_concat. exists (decimals c). split; [by apply in_map | done]. }
    assert (Hw : width_ok (8 * size)) by (unfold width_ok; destruct Hs as [-> | [-> | ->]]; cbn; auto).
    rewrite decimal_cast, swrap_in_width; [done | done | done |].
    unfold in_width in *. destruct Hs as [-> | [-> | ->]]; cbn in *; lia.
Qed.
End DecimalFacts.

(** ** Examples *)

Module ImportExample.

(** Ten numbers, the third and the last null, and one more chunk. *)
Definition first_chunk : ArrowArray := mkArrowArray 10 0 2 [251; 1] [1; 2; 3; 4; 5; 6; 7; 8; 9; 10].
Definition second_chunk : ArrowArray := mkArrowArray 1 0 0 [] [11].

Lemma chunks_ok : Forall (array_ok (ElemInt 32)) [first_chunk; second_chunk].
Proof. repeat constructor; cbn; unfold covers; cbn; try lia; by vm_compute. Qed.

Lemma rows_in_width : Forall (row_fits (IntegerStorage 4)) (column_rows (ElemInt 32) [first_chunk; second_chunk]).
Proof.
  replace (column_rows (ElemInt 32) [first_chunk; second_chunk])
    with [Some 1; Some 2; None; Some 4; Some 5; Some 6; Some 7; Some 8; Some 9; None; Some 11] by (by vm_compute).
  repeat constructor; by vm_compute.
Qed.

Lemma imported_column_witness :
  exists chunks, replaceNullValues [first_chunk; second_chunk] (IntegerStorage 4) = Ok chunks /\
                 concat chunks = [1; 2; -2147483648; 4; 5; 6; 7; 8; 9; -2147483648; 11].
Proof.
  destruct (imported_column (IntegerStorage 4) [first_chunk; second_chunk] eq_refl chunks_ok ltac:(repeat constructor))
    as (chunks & E & Ec & _).
  exists chunks. split; [done|]. rewrite Ec. by vm_compute.
Defined.

(** Two chunks of lists; the second list is null. *)
Definition lists_a : ListArray :=
  mkListArray 3 1 (fun i => (i =? 1)%nat) (fun i => nth i [0; 2; 2; 3]%nat 3%nat) (mkArrowArray 3 0 0 [] [5; 6; 7]).
Definition lists_b : ListArray :=
  mkListArray 1 0 (fun _ => false) (fun i => nth i [1; 2]%nat 2%nat) (mkArrowArray 2 0 0 [] [8; 9]).

Lemma lists_stored : Forall (list_ok (ElemInt 32)) [lists_a; lists_b].
Proof.
  apply List.Forall_cons; [|apply List.Forall_cons; [|constructor]].
  - split; [split; [cbn; lia | by left | done] | done | | cbn; lia |].
    + intros [|[|[|i]]] Hi; cbn in *; lia.
    + intros [|[|[|i]]] Hi; cbn in *; try done; lia.
  - split; [split; [cbn; lia | by left | done] | done | | cbn; lia | done].
    intros [|i] Hi; cbn in *; lia.
Qed.

Lemma varlen_lists_read_back_witness :
  exists offsets elems, replaceNullValuesVarlenArrayImpl (ElemInt 32) [lists_a; lists_b] = Ok (offsets, map Some elems) /\
    ChunkIter_get_nth_varlen offsets 1 = Some None.
Proof.
  destruct (varlen_lists_read_back (ElemInt 32) ltac:(by vm_compute) [lists_a; lists_b] [lists_a] lists_b eq_refl
              ltac:(done) lists_stored) as (offsets & elems & E & R).
  - repeat constructor.
  - by vm_compute.
  - intros [|[|[|[|n]]]]; cbn; done.
  - exists offsets, elems. split; [done|]. apply (R 1%nat None). done.
Defined.

(** ** Where the import and the array part *)

(** A slice with nulls is read from the start of its buffers. *)
Definition sliced : ArrowArray := mkArrowArray 2 1 1 [5] [10; 20; 30].
Lemma slice_ignored :
  rows (ElemInt 64) sliced = [None; Some 30] /\
  replaceNullValues [sliced] (IntegerStorage 8) = Ok [[10; INT64_MIN]].
Proof. done. Qed.

(** A null list of booleans of a fixed size becomes a list of [true]. *)
Lemma null_booleans_true :
  replaceNullValuesFixedSizeArrayImpl ElemBool
    [mkListArray 1 1 (fun _ => true) (fun _ => 0%nat) (mkArrowArray 0 0 0 [] [])] 3 = Ok [[1; 1; 1]].
Proof. done. Qed.

(** A null list before any element, or at the end of a chunk, is read as an empty list. *)
Lemma null_list_lost :
  (let* '(offsets, _) := replaceNullValuesVarlenArrayImpl (ElemInt 32)
     [mkListArray 2 1 (fun i => (i =? 0)%nat) (fun i => nth i [0; 0; 1]%nat 1%nat) (mkArrowArray 1 0 0 [] [5])] in
   Ok (ChunkIter_get_nth_varlen offsets 0)) = Ok (Some (Some (0, 0))) /\
  (let* '(offsets, _) := replaceNullValuesVarlenArrayImpl (ElemInt 32)
     [mkListArray 2 1 (fun i => (i =? 1)%nat) (fun i => nth i [0; 1; 1]%nat 1%nat) (mkArrowArray 1 0 0 [] [5]);
      mkListArray 1 0 (fun _ => false) (fun i => i) (mkArrowArray 1 0 0 [] [6])] in
   Ok (ChunkIter_get_nth_varlen offsets 1)) = Ok (Some (Some (4, 0))).
Proof. done. Qed.

(** Elements under a null list are counted but not copied. *)
Lemma null_list_elements :
  replaceNullValuesVarlenArrayImpl (ElemInt 32)
    [mkListArray 2 1 (fun i => (i =? 0)%nat) (fun i => nth i [0; 2; 3]%nat 3%nat) (mkArrowArray 3 0 0 [] [5; 6; 7])]
  = Ok ([0; 0; 12], [Some 7; None; None]).
Proof. done. Qed.

(** A day that does not fit in two bytes is cut. *)
Lemma date_cut :
  replaceNullValues [mkArrowArray 1 0 0 [] [40000]] (DateStorage true 2) = Ok [[-25536]].
Proof. done. Qed.
End ImportExample.
