(* ===== verification/ArrowStorage.v ===== *)
(** * Tables and fragments ([ArrowStorage/ArrowStorage.cpp])

    A table has a chunked array per column and fragments, which are ranges of rows with the statistics of each
    column.  Rows are appended: a last fragment that is not full is filled first.  The executor reads the columns of
    a fragment, and the statistics of all of them.  At the end, what the storage promises to the executor: the
    fragments tile the rows, the rows are read back as they were appended, and the ranges cover them. *)

From Stdlib Require Import ZArith Lia List Bool.
From stdpp Require Import base list gmap numbers.
From S2P Require Import Prelude MurmurHash JoinColumn ExtractFromTime NullableOps IRExpr ExpressionRange RangeFacts RangeProps ColumnEncoders ArrowImport.
Import ListNotations.
Local Open Scope Z_scope.
Local Open Scope hdk_scope.

Inductive StorageError :=
| InvalidTable | MismatchedSchema | ImportFailed (e : ImportError) | EncoderFailed (e : EncoderError)
| StatsFailed (e : RangeError) | DivisionByZero | StorageCheck | NotFixedWidth.

Definition lift_error {E A : Type} (f : E -> StorageError) (r : result E A) : result StorageError A :=
  match r with Ok a => Ok a | Err e => Err (f e) end.

(** ** State *)

(** The chunks of a column, as the numbers stored in them. *)
Definition ChunkedArray : Type := list (list Z).

(** A column of an Arrow table; that of a dictionary as the ids of its strings. *)
Inductive ArrowColumn :=
| ArrayColumn (chunks : list ArrowArray)
| DecimalColumn (chunks : list DecimalArray)
| EncodedColumn (ids : ChunkedArray).

Section Storage.
Context {F : Type} `{FpOps F} {ArrowType : Type} `{EqDecision ArrowType}.

Record ChunkMetadata := mkChunkMetadata { numBytes : Z; numElements : Z; chunkStats : @ChunkStats F }.
Record DataFragment := mkDataFragment { offset : nat; row_count : nat; metadata : list ChunkMetadata }.
Record TableData := mkTableData {
  fragment_size : nat;
  schema : list ArrowType;
  column_types : list StorageType;
  col_data : list ChunkedArray;
  fragments : list DataFragment;
  table_rows : nat;
}.

Record ArrowTable := mkArrowTable { num_rows : nat; at_schema : list ArrowType; at_columns : list ArrowColumn }.

(** What Arrow and the threads provide: the part of a chunked array from a row on, and the blocks that a chunk is cut into
    for the statistics. *)
Context (Slice : ChunkedArray -> nat -> nat -> ChunkedArray) (blocks : list Z -> Reduction)
  (decimal_to_int64 : Z -> Z).

(** ** Fragments of new rows *)

(** The rows of the first new fragment: what the last one has room for, if it is not full. *)
Definition first_frag_size (table : TableData) (num_rows : nat) : nat :=
  let size := Nat.min (fragment_size table) num_rows in
  match rev (fragments table) with
  | last_frag :: _ =>
      if (row_count last_frag <? fragment_size table)%nat
      then Nat.min size (fragment_size table - row_count last_frag)
      else size
  | [] => size
  end.

Definition frag_count (table : TableData) (num_rows : nat) : result StorageError nat :=
  if (fragment_size table =? 0)%nat then Err DivisionByZero
  else Ok ((num_rows + fragment_size table - 1 - first_frag_size table num_rows) / fragment_size table + 1)%nat.

Definition frag_offset (table : TableData) (num_rows frag_idx : nat) : nat :=
  match frag_idx with O => 0 | S i => i * fragment_size table + first_frag_size table num_rows end.
Definition frag_row_count (table : TableData) (num_rows frag_idx : nat) : nat :=
  match frag_idx with
  | O => first_frag_size table num_rows
  | S _ => Nat.min (fragment_size table) (num_rows - frag_offset table num_rows frag_idx)
  end.

(** The metadata of a column of a new fragment. *)
Definition new_metadata (type : StorageType) (col_arr : ChunkedArray) (offset row_count : nat)
    : result StorageError ChunkMetadata :=
  let* stats := lift_error EncoderFailed (computeStats type (map blocks (Slice col_arr offset row_count))) in
  Ok (mkChunkMetadata (Z.of_nat row_count * storage_size type) (Z.of_nat row_count) stats).

Fixpoint columns_metadata (types : list StorageType) (cols : list ChunkedArray) (offset row_count : nat)
    : result StorageError (list ChunkMetadata) :=
  match types, cols with
  | type :: types', col :: cols' =>
      let* m := new_metadata type col offset row_count in
      let* ms := columns_metadata types' cols' offset row_count in
      Ok (m :: ms)
  | _, _ => Ok []
  end.

Fixpoint new_fragments (table : TableData) (cols : list ChunkedArray) (num_rows : nat) (idxs : list nat)
    : result StorageError (list DataFragment) :=
  match idxs with
  | [] => Ok []
  | i :: idxs' =>
      let offset := frag_offset table num_rows i in
      let row_count := frag_row_count table num_rows i in
      let* ms := columns_metadata (column_types table) cols offset row_count in
      let* rest := new_fragments table cols num_rows idxs' in
      Ok (mkDataFragment offset row_count ms :: rest)
  end.

(** ** Append *)

Fixpoint compareSchemas (lhs rhs : list ArrowType) : result StorageError unit :=
  match lhs, rhs with
  | [], [] => Ok tt
  | t :: lhs', u :: rhs' => if decide (t = u) then compareSchemas lhs' rhs' else Err MismatchedSchema
  | _, _ => Err MismatchedSchema
  end.

Definition convert_column (type : StorageType) (col : ArrowColumn) : result StorageError ChunkedArray :=
  match type, col with
  | DecimalStorage _ _, DecimalColumn chunks =>
      lift_error ImportFailed (convertDecimalToInteger decimal_to_int64 type chunks)
  | DictionaryStorage _, EncodedColumn ids => Ok ids
  | DecimalStorage _ _, _ | DictionaryStorage _, _ => Err StorageCheck
  | _, ArrayColumn chunks => lift_error ImportFailed (replaceNullValues chunks type)
  | _, _ => Err StorageCheck
  end.

Fixpoint convert_columns (types : list StorageType) (cols : list ArrowColumn) : result StorageError (list ChunkedArray) :=
  match types, cols with
  | type :: types', col :: cols' =>
      let* c := convert_column type col in let* cs := convert_columns types' cols' in Ok (c :: cs)
  | _, _ => Ok []
  end.

Fixpoint merge_metadata (last_frag first_frag : list ChunkMetadata) : result StorageError (list ChunkMetadata) :=
  match last_frag, first_frag with
  | m :: ms, m' :: ms' =>
      let* stats := lift_error StatsFailed (mergeStats (chunkStats m) (chunkStats m')) in
      let* rest := merge_metadata ms ms' in
      Ok (mkChunkMetadata (numBytes m + numBytes m') (numElements m + numElements m') stats :: rest)
  | [], _ => Ok []
  | _ :: _, [] => Err StorageCheck
  end.

Definition shift_fragment (rows : nat) (frag : DataFragment) : DataFragment :=
  mkDataFragment (offset frag + rows) (row_count frag) (metadata frag).

(** The fragments of a table with rows, and those of the rows appended: the last of the table takes the first new one if
    it is not full. *)
Definition merge_fragments (table : TableData) (new : list DataFragment) : result StorageError (list DataFragment) :=
  match rev (fragments table), new with
  | last_frag :: before, first_frag :: rest =>
      if (row_count last_frag <? fragment_size table)%nat then
        let* ms := merge_metadata (metadata last_frag) (metadata first_frag) in
        Ok (rev before ++ [mkDataFragment (offset last_frag) (row_count last_frag + row_count first_frag) ms]
              ++ map (shift_fragment (table_rows table)) rest)
      else Ok (fragments table ++ map (shift_fragment (table_rows table)) new)
  | _, _ => Err StorageCheck
  end.

Definition append_data (table : TableData) (cols : list ChunkedArray) (new : list DataFragment) (rows : nat)
    : result StorageError TableData :=
  if (table_rows table =? 0)%nat then
    Ok (mkTableData (fragment_size table) (schema table) (column_types table) cols new rows)
  else if (length (col_data table) =? length cols)%nat then
    let* frags := merge_fragments table new in
    Ok (mkTableData (fragment_size table) (schema table) (column_types table)
          (zip_with app (col_data table) cols) frags (table_rows table + rows))
  else Err StorageCheck.

Definition appendArrowTable (table : TableData) (at_ : ArrowTable) : result StorageError TableData :=
  let* _ := compareSchemas (schema table) (at_schema at_) in
  let* count := frag_count table (num_rows at_) in
  let* cols := convert_columns (column_types table) (at_columns at_) in
  let* new := new_fragments table cols (num_rows at_) (seq 0 count) in
  append_data table cols new (num_rows at_).

(** The tables of a storage. *)
Definition append_to (tables : gmap Z TableData) (table_id : Z) (at_ : ArrowTable)
    : result StorageError (gmap Z TableData) :=
  match tables !! table_id with
  | None => Err InvalidTable
  | Some table => let* table := appendArrowTable table at_ in Ok (<[table_id := table]> tables)
  end.

Definition newTable (fragment_size : nat) (schema : list ArrowType) (types : list StorageType) : TableData :=
  mkTableData fragment_size schema types [] [] 0.

(** ** Reads *)

(** [elem_size] is that of the column, [arrow_elem_size] that of the elements of the array. *)
Definition fetch_slice (table : TableData) (frag : DataFragment) (col : ChunkedArray) (num_bytes : nat)
    (elem_size arrow_elem_size : nat) : result StorageError ChunkedArray :=
  let rows_to_fetch := if (num_bytes =? 0)%nat then row_count frag else (num_bytes / elem_size)%nat in
  let elems := (elem_size / arrow_elem_size)%nat in
  if (elems =? 0)%nat then Err StorageCheck
  else Ok (Slice col (offset frag * elems) (rows_to_fetch * elems)).

Definition fetchFixedLenData (table : TableData) (frag : DataFragment) (col : ChunkedArray) (num_bytes : nat)
    (elem_size arrow_elem_size : nat) : result StorageError (list Z) :=
  let* chunks := fetch_slice table frag col num_bytes elem_size arrow_elem_size in
  Ok (concat (map (encode_column arrow_elem_size) chunks)).

(** [frag_idx] and [col_idx] are one less than the ids of the key. *)
Definition fetchBuffer (table : TableData) (frag_idx col_idx : nat) (num_bytes : nat) : result StorageError (list Z) :=
  match fragments table !! frag_idx, col_data table !! col_idx, column_types table !! col_idx with
  | Some frag, Some col, Some type =>
      let elem_size := Z.to_nat (storage_size type) in
      fetchFixedLenData table frag col num_bytes elem_size elem_size
  | _, _, _ => Err StorageCheck
  end.

(** The memory of the column itself, if it is in one chunk. *)
Definition getZeroCopyBufferMemory (table : TableData) (frag_idx col_idx : nat) (num_bytes : nat)
    : result StorageError (option (list Z)) :=
  match fragments table !! frag_idx, col_data table !! col_idx, column_types table !! col_idx with
  | Some frag, Some col, Some type =>
      let elem_size := Z.to_nat (storage_size type) in
      let* chunks := fetch_slice table frag col num_bytes elem_size elem_size in
      match chunks with [chunk] => Ok (Some (encode_column elem_size chunk)) | _ => Ok None end
  | _, _, _ => Err StorageCheck
  end.

Definition fragment_info (table_id : Z) (frag : DataFragment) : @FragmentInfo F :=
  mkFragmentInfo table_id (Z.of_nat (row_count frag))
    (list_to_map (imap (fun col_idx m => (Z.of_nat (S col_idx), chunkStats m)) (metadata frag))).

Definition getEmptyTableMetadata (id : Z) : @InputTableInfo F :=
  let empty_frag := mkFragmentInfo id 0 ∅ in mkInputTableInfo id 0 [empty_frag; empty_frag].

Definition getTableMetadata (table : TableData) (id : Z) : @InputTableInfo F :=
  match fragments table with
  | [] => getEmptyTableMetadata id
  | frags => mkInputTableInfo id (Z.of_nat (table_rows table)) (map (fragment_info id) frags)
  end.
End Storage.

(** ** Fragments of a range of rows *)

Section Layout.
Context {F : Type} {ArrowType : Type}.

(** The fragments follow one another from a row to another. *)
Fixpoint tiles (start : nat) (frags : list (@DataFragment F)) (stop : nat) : Prop :=
  match frags with
  | [] => start = stop
  | f :: frags' => offset f = start /\ tiles (start + row_count f) frags' stop
  end.

Lemma tiles_app l1 : forall a l2 c, tiles a (l1 ++ l2) c <-> exists b, tiles a l1 b /\ tiles b l2 c.
Proof.
  induction l1 as [|f l1 IH]; intros a l2 c; cbn.
  - split; [intros; by exists a | by intros (b & -> & ?)].
  - rewrite IH. split; [intros (E & b & ? & ?); by exists b | intros (b & (E & ?) & ?); split; [done | by exists b]].
Qed.

Lemma tiles_bound l : forall a c, tiles a l c -> (a <= c)%nat /\ Forall (fun f => (offset f + row_count f <= c)%nat) l.
Proof.
  induction l as [|f l IH]; intros a c; cbn; [intros ->; split; [lia | constructor]|].
  intros [E T]. destruct (IH _ _ T) as [Hle Hb]. split; [lia|]. constructor; [lia | done].
Qed.

Lemma tiles_shift r l : forall a c, tiles a l c -> tiles (a + r) (map (shift_fragment r) l) (c + r).
Proof.
  induction l as [|f l IH]; intros a c; cbn; [lia|]. intros [E T]. split; [lia|].
  replace (a + r + row_count f)%nat with (a + row_count f + r)%nat by lia. by apply IH.
Qed.

(** The rows of new fragments. *)
Context (table : @TableData F ArrowType) (n : nat) (Hfs : fragment_size table <> 0%nat).
Let fs := fragment_size table.
Let f0 := first_frag_size table n.
Let q := ((n + fs - 1 - f0) / fs)%nat.

Lemma first_frag_le : (f0 <= fs /\ f0 <= n)%nat.
Proof. unfold f0, fs, first_frag_size. destruct (rev _) as [|f l]; [lia|]. destruct (_ <? _)%nat; lia. Qed.

Lemma quotient : (n + fs - 1 - f0 < (q + 1) * fs /\ q * fs <= n + fs - 1 - f0)%nat.
Proof.
  pose proof (Nat.div_mod_eq (n + fs - 1 - f0) fs) as E. pose proof (Nat.mod_upper_bound (n + fs - 1 - f0) fs Hfs).
  fold q in E. nia.
Qed.

Lemma next_offset i : (i < q)%nat -> (frag_offset table n i + frag_row_count table n i = frag_offset table n (S i))%nat.
Proof.
  pose proof first_frag_le. pose proof quotient. intros Hi. unfold frag_row_count, frag_offset. fold f0 fs.
  destruct i as [|j]; [lia|]. assert (j * fs + f0 + fs < n)%nat by nia. lia.
Qed.
Lemma last_offset : (frag_offset table n q + frag_row_count table n q = n)%nat.
Proof.
  pose proof first_frag_le. pose proof quotient. unfold frag_row_count, frag_offset. fold f0 fs.
  destruct q as [|j]; [lia|]. assert (j * fs + f0 <= n)%nat by nia. nia.
Qed.
Lemma full_frag i : (0 < i < q)%nat -> frag_row_count table n i = fs.
Proof.
  pose proof first_frag_le. pose proof quotient. intros Hi. unfold frag_row_count, frag_offset. fold f0 fs.
  destruct i as [|j]; [lia|]. assert (j * fs + f0 + fs < n)%nat by nia. lia.
Qed.
Lemma frag_end_le i : (i <= q)%nat -> (frag_offset table n i + frag_row_count table n i <= n)%nat.
Proof.
  pose proof first_frag_le. pose proof quotient. intros Hi. unfold frag_row_count, frag_offset. fold f0 fs.
  destruct i as [|j]; [lia|]. assert (j * fs + f0 <= n)%nat by nia. lia.
Qed.
Lemma frag_rows_le i : (frag_row_count table n i <= fs)%nat.
Proof. pose proof first_frag_le. unfold frag_row_count. fold f0 fs. destruct i; lia. Qed.
Lemma more_frags : (0 < q)%nat -> (f0 < n)%nat.
Proof. pose proof quotient. pose proof first_frag_le. nia. Qed.

Lemma tiles_seq m : forall i (new : list (@DataFragment F)),
  (i + S m = S q)%nat ->
  Forall2 (fun i f => offset f = frag_offset table n i /\ row_count f = frag_row_count table n i) (seq i (S m)) new ->
  tiles (frag_offset table n i) new n /\ Forall (fun f => (0 < i)%nat -> row_count f = fs) (removelast new).
Proof.
  induction m as [|m IH]; intros i new Hi Hnew; cbn [seq] in Hnew.
  - inversion Hnew as [|? f ? ? [Ho Hr] Hn]; subst. inversion Hn; subst. cbn.
    split; [|constructor]. split; [done|]. rewrite Hr. replace i with q by lia. apply last_offset.
  - inversion Hnew as [|? f ? rest [Ho Hr] Hn]; subst. destruct (IH (S i) rest ltac:(lia) Hn) as [T Fl].
    destruct rest as [|f' rest]; [by inversion Hn|]. cbn [tiles removelast]. split.
    + split; [done|]. rewrite Hr, next_offset by lia. exact T.
    + constructor; [intros Hp; rewrite Hr; apply full_frag; lia|].
      eapply List.Forall_impl; [|exact Fl]. intros g Hg _. apply Hg. lia.
Qed.
End Layout.

(** ** Metadata *)

Section Metadata.
Context {F : Type} `{FpOps F} {ArrowType : Type} `{EqDecision ArrowType}.
Context (Slice : ChunkedArray -> nat -> nat -> ChunkedArray) (blocks : list Z -> Reduction).
(** A slice has the rows from its offset on; the blocks of a chunk are its values in their order. *)
Context (Slice_rows : forall c o n, concat (Slice c o n) = take n (drop o (concat c)))
        (blocks_data : forall l, reduction_data (blocks l) = l).

Definition rows_of (o n : nat) (col : ChunkedArray) : list Z := take n (drop o (concat col)).

(** Every number of a column can be stored. *)
Definition column_ok (t : StorageType) (rows : list Z) : Prop :=
  exists k, Create t = Ok k /\ Forall (stored_ok k) rows.

(** The statistics cover the values that the rows stand for. *)
Definition stats_cover (t : StorageType) (s : @ChunkStats F) (rows : list Z) : Prop :=
  (exists a b, stat_min s = IntVal a /\ stat_max s = IntVal b) /\
  forall k n x, Create t = Ok k -> In x rows -> (is_null k x = true -> n = true) ->
                in_chunk (canonical t n) s (decoded k t x).

Record meta_ok (t : StorageType) (rows : list Z) (m : @ChunkMetadata F) : Prop := mkMetaOk {
  mo_elems : numElements m = Z.of_nat (length rows);
  mo_bytes : numBytes m = Z.of_nat (length rows) * storage_size t;
  mo_stats : stats_cover t (chunkStats m) rows;
}.

Lemma slice_data c o n : chunks_data (map blocks (Slice c o n)) = rows_of o n c.
Proof.
  unfold chunks_data, rows_of. rewrite <- Slice_rows, map_map. f_equal. rewrite <- (map_id (Slice c o n)) at 2.
  apply map_ext. intros l. apply blocks_data.
Qed.

Lemma new_metadata_ok t col o n :
  column_ok t (concat col) -> (o + n <= length (concat col))%nat ->
  exists m, new_metadata Slice blocks t col o n = Ok m /\ meta_ok t (rows_of o n col) m.
Proof.
  intros (k & Ek & Hok) Hn. unfold new_metadata.
  assert (Hd : Forall (stored_ok k) (chunks_data (map blocks (Slice col o n)))).
  { rewrite slice_data. unfold rows_of. by apply Forall_take, Forall_drop. }
  assert (Hs : exists s : @ChunkStats F, computeStats t (map blocks (Slice col o n)) = Ok s /\
    stats_cover t s (rows_of o n col)).
  { rewrite <- slice_data. destruct (map blocks (Slice col o n)) as [|r rs].
    - unfold computeStats. rewrite Ek. cbn [rbind encode_chunks]. eexists. split; [done|]. split; [by do 2 eexists | done].
    - destruct (computeStats_summary (F := F) t k r rs Ek Hd) as (s & Es & S). eexists. split; [done|].
      split; [by do 2 eexists|]. intros k' n' x Ek' Hx Hnull. rewrite Ek in Ek'. injection Ek' as <-.
      by eapply summary_in_chunk. }
  destruct Hs as (s & Es & Hc). rewrite Es. cbn [lift_error rbind]. eexists. split; [done|].
  assert (Hl : length (rows_of o n col) = n) by (unfold rows_of; rewrite length_take, length_drop; lia).
  split; cbn; rewrite ?Hl; done.
Qed.

(** What a fragment says of the columns. *)
Definition frag_ok (types : list StorageType) (cols : list ChunkedArray) (f : @DataFragment F) : Prop :=
  Forall3 (fun t col m => meta_ok t (rows_of (offset f) (row_count f) col) m) types cols (metadata f).

Definition columns_ok (types : list StorageType) (cols : list ChunkedArray) (n : nat) : Prop :=
  Forall2 (fun t col => column_ok t (concat col) /\ length (concat col) = n) types cols.

Lemma columns_metadata_ok types cols n o r :
  columns_ok types cols n -> (o + r <= n)%nat ->
  exists ms, columns_metadata Slice blocks types cols o r = Ok ms /\
             Forall3 (fun t col m => meta_ok t (rows_of o r col) m) types cols ms.
Proof.
  intros Hc Hn. induction Hc as [|t col types cols [Ht Hl] Hc (ms & Ems & Hms)]; [exists []; split; [done | constructor]|].
  cbn [columns_metadata]. destruct (new_metadata_ok t col o r Ht ltac:(lia)) as (m & Em & Hm).
  rewrite Em, Ems. exists (m :: ms). split; [done | by constructor].
Qed.

(** Merged metadata cover the rows of both. *)
Lemma mergeStats_ok t s1 s2 r1 r2 :
  stats_cover t s1 r1 -> stats_cover t s2 r2 -> exists s, mergeStats s1 s2 = Ok s /\ stats_cover t s (r1 ++ r2).
Proof.
  intros [(a1 & b1 & A1 & B1) C1] [(a2 & b2 & A2 & B2) C2].
  assert (E : exists s, mergeStats s1 s2 = Ok s) by (unfold mergeStats; rewrite A1, A2, B1, B2; by eexists).
  destruct E as [s E]. exists s. split; [done|]. split.
  - unfold mergeStats in E. rewrite A1, A2, B1, B2 in E. injection E as <-. by do 2 eexists.
  - intros k n x Ek [Hx|Hx]%in_app_iff Hn; apply (mergeStats_covers _ s1 s2 s _ E); [left | right]; auto.
Qed.

(** ** Tables *)

(** The invariant of a table: all fragments but the last are full, they tile the rows, and their metadata are right. *)
Record table_ok (table : @TableData F ArrowType) : Prop := mkTableOk {
  to_size : fragment_size table <> 0%nat;
  to_cols : (fragments table = [] /\ col_data table = [] /\ table_rows table = 0%nat) \/
            columns_ok (column_types table) (col_data table) (table_rows table);
  to_tiles : tiles 0 (fragments table) (table_rows table);
  to_full : Forall (fun f => row_count f = fragment_size table) (removelast (fragments table));
  to_le : Forall (fun f => (row_count f <= fragment_size table)%nat) (fragments table);
  to_meta : Forall (frag_ok (column_types table) (col_data table)) (fragments table);
}.

Definition frag_at (table : @TableData F ArrowType) (n i : nat) (f : @DataFragment F) : Prop :=
  offset f = frag_offset table n i /\ row_count f = frag_row_count table n i.

Lemma new_fragments_ok (table : @TableData F ArrowType) cols n idxs :
  columns_ok (column_types table) cols n ->
  Forall (fun i => (frag_offset table n i + frag_row_count table n i <= n)%nat) idxs ->
  exists new, new_fragments Slice blocks table cols n idxs = Ok new /\ Forall2 (frag_at table n) idxs new /\
              Forall (frag_ok (column_types table) cols) new.
Proof.
  intros Hc Hi. induction Hi as [|i idxs Hi His (new & En & Hn & Hm)]; [by exists []|]. cbn [new_fragments].
  destruct (columns_metadata_ok _ _ _ _ _ Hc Hi) as (ms & Ems & Hms). rewrite Ems, En. cbn [rbind].
  eexists. split; [done|]. split; by constructor.
Qed.

(** The new fragments of a table, the first and the others. *)
Lemma new_fragments_layout (table : @TableData F ArrowType) cols n :
  fragment_size table <> 0%nat -> columns_ok (column_types table) cols n ->
  exists count first rest, frag_count table n = Ok count /\
    new_fragments Slice blocks table cols n (seq 0 count) = Ok (first :: rest) /\
    tiles 0 (first :: rest) n /\ row_count first = first_frag_size table n /\
    Forall (fun f => row_count f = fragment_size table) (removelast rest) /\
    Forall (fun f => (row_count f <= fragment_size table)%nat) (first :: rest) /\
    (rest <> [] -> (first_frag_size table n < n)%nat) /\
    Forall (frag_ok (column_types table) cols) (first :: rest).
Proof.
  intros Hfs Hc. set (q := ((n + fragment_size table - 1 - first_frag_size table n) / fragment_size table)%nat).
  assert (Hidx : Forall (fun i => (frag_offset table n i + frag_row_count table n i <= n)%nat) (seq 0 (S q))).
  { apply List.Forall_forall. intros i Hi%in_seq. apply (frag_end_le table n Hfs). fold q. lia. }
  destruct (new_fragments_ok table cols n _ Hc Hidx) as (new & En & Hn & Hm).
  exists (S q). destruct (tiles_seq table n Hfs q 0 new ltac:(done) Hn) as [T _].
  inversion Hn as [|? first ? rest [Ho Hr] Hrest]; subst. exists first, rest.
  unfold frag_count. destruct (Nat.eqb_spec (fragment_size table) 0); [done|]. rewrite Nat.add_1_r. fold q.
  split; [done|]. split; [done|]. split; [done|]. split; [done|].
  split; [|split; [|split; [|done]]].
  - destruct q as [|q'] eqn:Eq; [by inversion Hrest|].
    destruct (tiles_seq table n Hfs q' 1 rest) as [_ Fl]; [fold q; lia | done |].
    eapply List.Forall_impl; [|exact Fl]. intros f Hf. apply Hf. lia.
  - clear -Hn Hfs. induction Hn as [|i f idxs new [_ Hr] Hn IH]; constructor; [rewrite Hr; by apply frag_rows_le | done].
  - intros Hne. apply more_frags; [done|]. fold q. destruct q; [by inversion Hrest; subst | lia].
Qed.

(** *** Columns to which rows are appended *)

Lemma rows_of_old o r col new : (o + r <= length (concat col))%nat -> rows_of o r (col ++ new) = rows_of o r col.
Proof.
  intros Hl. unfold rows_of. rewrite concat_app, drop_app_le by lia. apply take_app_le. rewrite length_drop. lia.
Qed.
Lemma rows_of_new o r col new : rows_of (o + length (concat col)) r (col ++ new) = rows_of o r new.
Proof. unfold rows_of. rewrite concat_app, Nat.add_comm, <- drop_drop, drop_app_length. done. Qed.
Lemma rows_of_join o r r' col new :
  (o + r = length (concat col))%nat -> rows_of o (r + r') (col ++ new) = rows_of o r col ++ rows_of 0 r' new.
Proof.
  intros Hl. unfold rows_of. rewrite concat_app, drop_app_le by lia. rewrite drop_0, (take_ge (drop o _))
    by (rewrite length_drop; lia).
  rewrite take_app_ge by (rewrite length_drop; lia). rewrite length_drop. do 2 f_equal. lia.
Qed.

Lemma columns_ok_app types cols n new m :
  columns_ok types cols n -> columns_ok types new m -> columns_ok types (zip_with app cols new) (n + m).
Proof.
  intros Hc. revert new. induction Hc as [|t col types cols [(k & Ek & Hk) Hl] Hc IH]; intros new Hn;
    inversion Hn as [|? new0 ? news [(k' & Ek' & Hk') Hl'] Hn']; subst; constructor; [|by apply IH].
  rewrite concat_app. split; [|rewrite length_app; lia]. exists k. split; [done|].
  rewrite Ek in Ek'. injection Ek' as <-. by apply Forall_app.
Qed.

Lemma frag_ok_old types cols n new m f :
  columns_ok types cols n -> columns_ok types new m -> (offset f + row_count f <= n)%nat ->
  frag_ok types cols f -> frag_ok types (zip_with app cols new) f.
Proof.
  intros Hc Hn Hf. unfold frag_ok. generalize (metadata f). revert new Hn.
  induction Hc as [|t col types cols [_ Hl] Hc IH]; intros new Hn ms Hm;
    inversion Hn as [|? new0 ? news _ Hn']; subst; inversion Hm; subst; [constructor|].
  constructor; [|by apply IH]. rewrite rows_of_old by lia. done.
Qed.

Lemma frag_ok_new types cols n new m f :
  columns_ok types cols n -> columns_ok types new m ->
  frag_ok types new f -> frag_ok types (zip_with app cols new) (shift_fragment n f).
Proof.
  intros Hc Hn. unfold frag_ok. cbn [shift_fragment offset row_count metadata]. generalize (metadata f). revert new Hn.
  induction Hc as [|t col types cols [_ Hl] Hc IH]; intros new Hn ms Hm;
    inversion Hn as [|? new0 ? news _ Hn']; subst; inversion Hm; subst; [constructor|].
  constructor; [|by apply IH]. rewrite rows_of_new. done.
Qed.

Lemma frag_ok_join types cols n new m last_frag first_frag :
  columns_ok types cols n -> columns_ok types new m -> (offset last_frag + row_count last_frag = n)%nat ->
  offset first_frag = 0%nat -> frag_ok types cols last_frag -> frag_ok types new first_frag ->
  exists ms, merge_metadata (metadata last_frag) (metadata first_frag) = Ok ms /\
    frag_ok types (zip_with app cols new)
      (mkDataFragment (offset last_frag) (row_count last_frag + row_count first_frag) ms).
Proof.
  intros Hc Hn Hend Hfirst. unfold frag_ok. cbn [offset row_count metadata]. rewrite Hfirst.
  generalize (metadata last_frag), (metadata first_frag). revert new Hn.
  induction Hc as [|t col types cols [_ Hl] Hc IH]; intros new Hn ms1 ms2 H1 H2;
    inversion Hn as [|? new0 ? news _ Hn']; subst;
    inversion H1 as [|? ? m1 ? ? ms1' [E1 B1 S1] H1']; subst; inversion H2 as [|? ? m2 ? ? ms2' [E2 B2 S2] H2']; subst;
    [exists []; split; [done | constructor]|].
  cbn [merge_metadata]. destruct (mergeStats_ok t _ _ _ _ S1 S2) as (s & Es & Hs). rewrite Es. cbn [lift_error rbind].
  destruct (IH _ Hn' _ _ H1' H2') as (ms & Ems & Hms). rewrite Ems. cbn [rbind]. eexists. split; [done|].
  cbn [zip_with]. constructor; [|done]. rewrite rows_of_join by lia. split; cbn; [| | done].
  - rewrite E1, E2, length_app. lia.
  - rewrite B1, B2, length_app. lia.
Qed.

(** *** Fragments to which fragments are appended *)

Lemma removelast_cons {A : Type} (x : A) l : l <> [] -> removelast (x :: l) = x :: removelast l.
Proof. by destruct l. Qed.
Lemma removelast_shift n (l : list (@DataFragment F)) P :
  (forall f, P (shift_fragment n f) <-> P f) ->
  Forall P (removelast l) -> Forall P (removelast (map (shift_fragment n) l)).
Proof.
  intros HP. induction l as [|f l IH]; [done|]. destruct l as [|g l]; [done|]. cbn [map] in *.
  rewrite !removelast_cons by done. intros Hf. constructor; [apply HP; exact (Forall_inv Hf) | apply IH;
    exact (Forall_inv_tail Hf)].
Qed.
Lemma Forall_shift n (l : list (@DataFragment F)) P :
  (forall f, P (shift_fragment n f) <-> P f) -> Forall P l -> Forall P (map (shift_fragment n) l).
Proof. intros HP Hl. induction Hl; constructor; [by apply HP | done]. Qed.

(** A table without rows has no rows in its last fragment. *)
Lemma first_of_empty (table : @TableData F ArrowType) n :
  tiles 0 (fragments table) 0 -> first_frag_size table n = Nat.min (fragment_size table) n.
Proof.
  intros T. destruct (tiles_bound _ _ _ T) as [_ B]. unfold first_frag_size.
  destruct (rev (fragments table)) as [|l before] eqn:E; [done|].
  assert (Hl : In l (fragments table)) by (apply in_rev; rewrite E; by left).
  rewrite List.Forall_forall in B. specialize (B l Hl). destruct (Nat.ltb_spec (row_count l) (fragment_size table)); lia.
Qed.

(** The first new fragment is full if others follow. *)
Lemma first_is_full (table : @TableData F ArrowType) n frags (first : @DataFragment F) (rest : list (@DataFragment F)) :
  Forall (fun f => row_count f = fragment_size table) frags -> Forall (fun f => row_count f = fragment_size table)
    (removelast rest) ->
  (rest <> [] -> row_count first = fragment_size table) ->
  Forall (fun f => row_count f = fragment_size table) (removelast (frags ++ first :: map (shift_fragment n) rest)).
Proof.
  intros Hf Hr Hfirst. rewrite removelast_app by done. apply Forall_app. split; [done|].
  destruct rest as [|r rest]; [constructor|]. cbn [map]. rewrite removelast_cons by done.
  constructor; [by apply Hfirst|]. by apply (removelast_shift n (r :: rest)).
Qed.

Lemma append_empty_ok (table : @TableData F ArrowType) cols n first rest :
  table_ok table -> table_rows table = 0%nat -> columns_ok (column_types table) cols n ->
  tiles 0 (first :: rest) n -> row_count first = first_frag_size table n ->
  Forall (fun f => row_count f = fragment_size table) (removelast rest) ->
  Forall (fun f => (row_count f <= fragment_size table)%nat) (first :: rest) ->
  (rest <> [] -> (first_frag_size table n < n)%nat) ->
  Forall (frag_ok (column_types table) cols) (first :: rest) ->
  table_ok (mkTableData (fragment_size table) (schema table) (column_types table) cols (first :: rest) n).
Proof.
  intros OK E0 Hc T Hfirst Hfull Hle Hmore Hm. pose proof (to_tiles _ OK) as T0. rewrite E0 in T0.
  pose proof (first_of_empty table n T0) as Ef.
  split; cbn [fragment_size column_types col_data fragments table_rows];
    [by apply to_size | by right | done | | done | done].
  pose proof (first_is_full table 0 [] first rest (List.Forall_nil _) Hfull) as P. cbn [app] in P.
  assert (Es : map (shift_fragment 0) rest = rest).
  { rewrite <- (map_id rest) at 2. apply map_ext. intros [o r ms]. unfold shift_fragment. cbn. by rewrite Nat.add_0_r. }
  rewrite Es in P. apply P. intros Hne. specialize (Hmore Hne). lia.
Qed.

(** What holds of the fragments of new rows. *)
Record new_ok (table : @TableData F ArrowType) (cols : list ChunkedArray) (n : nat) (first : @DataFragment F)
    (rest : list (@DataFragment F)) : Prop := mkNewOk {
  no_cols : columns_ok (column_types table) cols n;
  no_tiles : tiles 0 (first :: rest) n;
  no_first : row_count first = first_frag_size table n;
  no_full : Forall (fun f => row_count f = fragment_size table) (removelast rest);
  no_le : Forall (fun f => (row_count f <= fragment_size table)%nat) (first :: rest);
  no_more : rest <> [] -> (first_frag_size table n < n)%nat;
  no_meta : Forall (frag_ok (column_types table) cols) (first :: rest);
}.

(** What holds of the fragments of a table. *)
Definition frags_ok (size : nat) (types : list StorageType) (cols : list ChunkedArray) (rows : nat)
    (frags : list (@DataFragment F)) : Prop :=
  tiles 0 frags rows /\ Forall (fun f => row_count f = size) (removelast frags) /\
  Forall (fun f => (row_count f <= size)%nat) frags /\ Forall (frag_ok types cols) frags.

Section Append.
Context (table : @TableData F ArrowType) (cols : list ChunkedArray) (n : nat) (first : @DataFragment F)
        (rest : list (@DataFragment F)) (before : list (@DataFragment F)) (last_frag : @DataFragment F).
Context (OK : table_ok table) (Hcols : columns_ok (column_types table) (col_data table) (table_rows table))
        (NEW : new_ok table cols n first rest) (Efrags : fragments table = rev before ++ [last_frag]).

Let types := column_types table.
Let both := zip_with app (col_data table) cols.

Lemma old_frags_ok : Forall (frag_ok types both) (fragments table).
Proof.
  destruct (tiles_bound _ _ _ (to_tiles _ OK)) as [_ B]. pose proof (to_meta _ OK) as M.
  rewrite List.Forall_forall in *. intros f Hf. eapply frag_ok_old; eauto. apply NEW.
Qed.
Lemma shifted_frags_ok l : Forall (frag_ok types cols) l -> Forall (frag_ok types both)
  (map (shift_fragment (table_rows table)) l).
Proof. intros Hl. induction Hl; constructor; [|done]. eapply frag_ok_new; eauto. apply NEW. Qed.

Lemma last_tiles : tiles 0 (rev before) (offset last_frag) /\
  (offset last_frag + row_count last_frag)%nat = table_rows table.
Proof. pose proof (to_tiles _ OK) as T. rewrite Efrags in T. apply tiles_app in T as (b & T1 & <- & T2). done. Qed.

Lemma before_full : Forall (fun f => row_count f = fragment_size table) (rev before).
Proof. pose proof (to_full _ OK) as Fl. by rewrite Efrags, removelast_last in Fl. Qed.

(** The last fragment has room. *)
Lemma merge_room_ok :
  (row_count last_frag < fragment_size table)%nat ->
  exists ms, merge_metadata (metadata last_frag) (metadata first) = Ok ms /\
    frags_ok (fragment_size table) types both (table_rows table + n)
      (rev before ++ [mkDataFragment (offset last_frag) (row_count last_frag + row_count first) ms]
         ++ map (shift_fragment (table_rows table)) rest).
Proof.
  intros Hroom. destruct NEW as [Hc [Ho T] Hf Hfull Hle Hmore Hm]. destruct last_tiles as [T1 T2].
  assert (Efirst : first_frag_size table n = Nat.min (Nat.min (fragment_size table) n)
    (fragment_size table - row_count last_frag)).
  { unfold first_frag_size. rewrite Efrags, rev_app_distr. cbn [rev app].
    by destruct (Nat.ltb_spec (row_count last_frag) (fragment_size table)); [|lia]. }
  destruct (frag_ok_join types (col_data table) (table_rows table) cols n last_frag first) as (ms & Ems & Hms);
    [done | done | done | done | | exact (Forall_inv Hm) |].
  { pose proof (to_meta _ OK) as M. rewrite Efrags in M. apply Forall_app in M as [_ M]. exact (Forall_inv M). }
  exists ms. split; [done|]. set (merged := mkDataFragment (offset last_frag) (row_count last_frag + row_count first)
    ms) in *.
  pose proof old_frags_ok as Mold. pose proof (to_le _ OK) as Lold. rewrite Efrags in Mold, Lold.
  apply Forall_app in Mold as [Mold _]. apply Forall_app in Lold as [Lold _].
  split; [|split; [|split]].
  - apply tiles_app. exists (offset last_frag). split; [done|]. cbn [app tiles]. split; [done|]. cbn [row_count merged].
    replace (offset last_frag + (row_count last_frag + row_count first))%nat with (row_count first + table_rows table)%nat by lia.
    rewrite (Nat.add_comm (table_rows table)). apply tiles_shift. cbn in T. exact T.
  - apply first_is_full; [exact before_full | done |]. intros Hne. specialize (Hmore Hne). cbn. lia.
  - apply Forall_app. split; [done|]. cbn [app]. constructor; [cbn; lia|].
    apply Forall_shift; [done | exact (Forall_inv_tail Hle)].
  - apply Forall_app. split; [done|]. cbn [app]. constructor; [done|].
    apply shifted_frags_ok. exact (Forall_inv_tail Hm).
Qed.

(** The last fragment is full. *)
Lemma merge_full_ok :
  (fragment_size table <= row_count last_frag)%nat ->
  frags_ok (fragment_size table) types both (table_rows table + n)
    (fragments table ++ map (shift_fragment (table_rows table)) (first :: rest)).
Proof.
  intros Hfl. destruct NEW as [Hc T Hf Hfull Hle Hmore Hm].
  assert (Efirst : first_frag_size table n = Nat.min (fragment_size table) n).
  { unfold first_frag_size. rewrite Efrags, rev_app_distr. cbn [rev app].
    by destruct (Nat.ltb_spec (row_count last_frag) (fragment_size table)); [lia|]. }
  assert (Hall : Forall (fun f => row_count f = fragment_size table) (fragments table)).
  { pose proof (to_le _ OK) as Lold. rewrite Efrags in *. apply Forall_app in Lold as [_ Lold]. apply Forall_inv in Lold.
    apply Forall_app. split; [exact before_full | constructor; [lia | constructor]]. }
  split; [|split; [|split]].
  - apply tiles_app. exists (table_rows table). split; [by apply to_tiles|].
    rewrite (Nat.add_comm _ n). by apply (tiles_shift (table_rows table) (first :: rest) 0 n).
  - cbn [map]. apply first_is_full; [done | done|]. intros Hne. specialize (Hmore Hne). cbn. lia.
  - apply Forall_app. split; [by apply to_le | by apply Forall_shift].
  - apply Forall_app. split; [exact old_frags_ok | by apply shifted_frags_ok].
Qed.
End Append.

Lemma append_data_ok (table : @TableData F ArrowType) cols n first rest :
  table_ok table -> new_ok table cols n first rest ->
  exists table', append_data table cols (first :: rest) n = Ok table' /\ table_ok table' /\
    table_rows table' = (table_rows table + n)%nat /\ column_types table' = column_types table /\
    schema table' = schema table /\ fragment_size table' = fragment_size table /\
    col_data table' = if (table_rows table =? 0)%nat then cols else zip_with app (col_data table) cols.
Proof.
  intros OK NEW. unfold append_data. destruct (Nat.eqb_spec (table_rows table) 0) as [E0|N0].
  { eexists. split; [done|]. split; [destruct NEW; by apply append_empty_ok | cbn; by rewrite E0]. }
  destruct (to_cols _ OK) as [(_ & _ & ?)|Hcols]; [done|].
  pose proof (Forall2_length Hcols) as L1. pose proof (Forall2_length (no_cols _ _ _ _ _ NEW)) as L2.
  destruct (Nat.eqb_spec (length (col_data table)) (length cols)) as [_|Hne]; [|by destruct Hne;
    transitivity (length (column_types table))].
  assert (Hrev : exists last_frag before, rev (fragments table) = last_frag :: before).
  { destruct (rev (fragments table)) as [|l b] eqn:E; [|by do 2 eexists].
    apply (f_equal (@rev _)) in E. rewrite rev_involutive in E. pose proof (to_tiles _ OK) as T. rewrite E in T.
    cbn in T. lia. }
  destruct Hrev as (last_frag & before & Er). unfold merge_fragments. rewrite Er.
  assert (Ef : fragments table = rev before ++ [last_frag]) by (rewrite <- (rev_involutive (fragments table)), Er; done).
  assert (Done : forall frags,
    frags_ok (fragment_size table) (column_types table) (zip_with app (col_data table) cols) (table_rows table + n) frags ->
    table_ok (mkTableData (fragment_size table) (schema table) (column_types table) (zip_with app (col_data table)
      cols) frags
                (table_rows table + n))).
  { intros frags (T & Fl & Le & Me). split; cbn; try done; [by apply to_size | right; apply columns_ok_app;
      [done | apply NEW]]. }
  destruct (Nat.ltb_spec (row_count last_frag) (fragment_size table)) as [Hr|Hr].
  - destruct (merge_room_ok table cols n first rest before last_frag OK Hcols NEW Ef Hr) as (ms & -> & Hok). cbn [rbind].
    eexists. split; [done|]. split; [by apply Done | done].
  - pose proof (merge_full_ok table cols n first rest before last_frag OK Hcols NEW Ef Hr) as Hok. cbn [rbind].
    eexists. split; [done|]. split; [by apply Done | done].
Qed.
End Metadata.

(** ** What is appended *)

Section Promises.
Context {F : Type} `{FpOps F} {ArrowType : Type} `{EqDecision ArrowType}.
Context (Slice : ChunkedArray -> nat -> nat -> ChunkedArray) (blocks : list Z -> Reduction) (decimal_to_int64 : Z -> Z).
Context (Slice_rows : forall c o n, concat (Slice c o n) = take n (drop o (concat c)))
        (blocks_data : forall l, reduction_data (blocks l) = l)
        (decimal_cast : forall v, in_width 64 v -> decimal_to_int64 v = v).

(** A value of the array fits in its own type. *)
Definition source_fits (T : ElemType) (v : option Z) : Prop :=
  match T, v with ElemInt w, Some v => in_width w v | _, _ => True end.

(** A column that can be imported, and the numbers that are stored for it. *)
Inductive input_column : StorageType -> ArrowColumn -> list Z -> Prop :=
| input_array t arr :
    importable t = true -> Forall (array_ok (source_type t)) arr -> Forall (fun c => offset_ c = 0%nat) arr ->
    Forall (fun v => row_fits t v /\ source_fits (source_type t) v) (column_rows (source_type t) arr) ->
    input_column t (ArrayColumn arr) (map (stored_row t) (column_rows (source_type t) arr))
| input_decimal size precision arr :
    size = 2 \/ size = 4 \/ size = 8 -> Forall decimals_ok arr ->
    Forall (row_fits (DecimalStorage size precision)) (concat (map decimals arr)) ->
    input_column (DecimalStorage size precision) (DecimalColumn arr)
      (map (stored_row (DecimalStorage size precision)) (concat (map decimals arr)))
| input_encoded size k ids :
    Create (DictionaryStorage size) = Ok k -> Forall (stored_ok k) (concat ids) ->
    input_column (DictionaryStorage size) (EncodedColumn ids) (concat ids).

(** A number that fits can be stored; so can a null. *)
Lemma stored_row_ok t k v :
  Create t = Ok k -> t_signed k = true -> v_width k = storage_width t ->
  match k with DateDaysEncoder _ => source_fits (ElemInt 32) v | _ => True end ->
  row_fits t v -> stored_ok k (stored_row t v).
Proof.
  intros E Hs Hv Hd Hf. unfold stored_ok. rewrite Hs, Hv.
  assert (Hp : 0 < storage_width t).
  { destruct (create_kind t k E) as [Hk _]. rewrite <- Hv. destruct k as [w []|w|w]; cbn in Hk |- *;
      unfold width_ok in Hk; lia. }
  assert (Hpow : 0 < 2 ^ (storage_width t - 1)) by (apply Z.pow_pos_nonneg; lia).
  destruct v as [v|]; unfold stored_row; cbn [default].
  - cbn in Hf. unfold in_width in Hf. split; [cbn; lia|]. destruct k as [| |w]; [done | done |]. right.
    cbn in Hd. unfold in_width, INT64_MIN, INT64_MAX in *. cbn in Hd. change (id v) with v. lia.
  - split; [cbn; lia|]. destruct k as [| |w]; [done | done |]. left. unfold is_null. rewrite Hs, Hv. apply Z.eqb_refl.
Qed.

(** The encoder of a type that is imported stores numbers of its size. *)
Lemma importable_encoder t :
  importable t = true \/ (exists size precision, t = DecimalStorage size precision /\ (size = 2 \/ size = 4 \/ size = 8)) ->
  exists k, Create t = Ok k /\ t_signed k = true /\ v_width k = storage_width t /\
            match k with DateDaysEncoder _ => source_type t = ElemInt 32 | _ => True end.
Proof.
  assert (Size : forall s, is_size s = true -> s = 1 \/ s = 2 \/ s = 4 \/ s = 8) by (unfold is_size; lia).
  intros [Hi|(size & precision & -> & Hs)]; [destruct t as [|s|s p|s|d s|s|u s]; cbn in Hi; try done|].
  - by eexists.
  - destruct (Size s Hi) as [-> | [-> | [-> | ->]]]; by eexists.
  - destruct d; [|done]. cbn in Hi. assert (s = 2 \/ s = 4 \/ s = 8) as [-> | [-> | ->]] by lia; by eexists.
  - assert (s = 8) as -> by lia. by eexists.
  - destruct (Size s Hi) as [-> | [-> | [-> | ->]]]; by eexists.
  - destruct Hs as [-> | [-> | ->]]; by eexists.
Qed.

Lemma convert_column_ok t col rows :
  input_column t col rows ->
  exists c, convert_column decimal_to_int64 t col = Ok c /\ concat c = rows /\ column_ok t rows.
Proof.
  intros [t0 arr Hi Hok H0 Hf | size precision arr Hs Hok Hf | size k ids Ek Hok].
  - destruct (import_column_spec t0 arr Hi Hok H0) as (chunks & Ec & Er); [eapply List.Forall_impl; [|exact Hf];
      by intros v [? _]|].
    exists chunks. split; [destruct t0; cbn in Hi; try done; cbn [convert_column]; by rewrite Ec|]. split; [done|].
    destruct (importable_encoder t0 (or_introl Hi)) as (k & Ek & Hsg & Hv & Hd). exists k. split; [done|].
    apply List.Forall_map. eapply List.Forall_impl; [|exact Hf]. intros v [Hr Hsrc].
    apply stored_row_ok; try done. destruct k; [done | done |]. by rewrite Hd in Hsrc.
  - destruct (imported_decimals decimal_to_int64 decimal_cast size precision arr Hs Hok Hf) as (chunks & Ec & Er).
    exists chunks. split; [cbn [convert_column]; by rewrite Ec|]. split; [done|].
    destruct (importable_encoder (DecimalStorage size precision)) as (k & Ek & Hsg & Hv & Hd); [right; by do 2 eexists|].
    exists k. split; [done|]. apply List.Forall_map. eapply List.Forall_impl; [|exact Hf]. intros v Hr.
    apply stored_row_ok; try done. destruct k; [done | done |]. by destruct (create_special _ _ Ek).
  - exists ids. split; [done|]. split; [done|]. by exists k.
Qed.

Lemma convert_columns_ok types cols inputs n :
  Forall3 input_column types cols inputs -> Forall (fun rows => length rows = n) inputs ->
  exists cs, convert_columns decimal_to_int64 types cols = Ok cs /\ map (@concat Z) cs = inputs /\ columns_ok types cs n.
Proof.
  intros Hi. induction Hi as [|t col rows types cols inputs Hc Hi IH]; intros Hl; [exists []; split; [done|]; split;
    [done | constructor]|].
  destruct (convert_column_ok t col rows Hc) as (c & Ec & Er & Hok).
  destruct (IH (Forall_inv_tail Hl)) as (cs & Ecs & Ers & Hcs). cbn [convert_columns]. rewrite Ec, Ecs. cbn [rbind].
  exists (c :: cs). split; [done|]. split; [cbn; by rewrite Er, Ers|].
  constructor; [|done]. rewrite Er. split; [done | exact (Forall_inv Hl)].
Qed.

Lemma compareSchemas_same (l : list ArrowType) : compareSchemas l l = Ok tt.
Proof. induction l as [|t l IH]; [done|]. cbn. by destruct (decide (t = t)). Qed.

(** An append to a table: the rows it has, and those it gets. *)
Definition append_input (table : @TableData F ArrowType) (at_ : ArrowTable) (inputs : list (list Z)) : Prop :=
  at_schema at_ = schema table /\ Forall3 input_column (column_types table) (at_columns at_) inputs /\
  Forall (fun rows => length rows = num_rows at_) inputs.

Definition contents (table : @TableData F ArrowType) : list (list Z) := map (@concat Z) (col_data table).

Lemma append_step (table : @TableData F ArrowType) at_ inputs :
  table_ok table -> append_input table at_ inputs ->
  exists table', appendArrowTable Slice blocks decimal_to_int64 table at_ = Ok table' /\ table_ok table' /\
    table_rows table' = (table_rows table + num_rows at_)%nat /\ column_types table' = column_types table /\
    schema table' = schema table /\
    contents table' = if (table_rows table =? 0)%nat then inputs else zip_with app (contents table) inputs.
Proof.
  intros OK (Hs & Hi & Hl). unfold appendArrowTable. rewrite Hs, compareSchemas_same. cbn [rbind].
  destruct (convert_columns_ok _ _ _ _ Hi Hl) as (cs & Ecs & Ers & Hcs).
  destruct (new_fragments_layout Slice blocks Slice_rows blocks_data table cs (num_rows at_) (to_size _ OK) Hcs)
    as (count & first & rest & Ec & En & T & Hf & Hfull & Hle & Hmore & Hm).
  rewrite Ec. cbn [rbind]. rewrite Ecs. cbn [rbind]. rewrite En. cbn [rbind].
  destruct (append_data_ok table cs (num_rows at_) first rest OK) as (table' & E' & OK' & Er & Et & Es & _ & Ed);
    [by split|].
  exists table'. split; [done|]. split; [done|]. split; [done|]. split; [done|]. split; [done|].
  unfold contents. rewrite Ed. destruct (_ =? 0)%nat; [done|]. rewrite <- Ers. clear.
  generalize (col_data table). induction cs as [|c cs IH]; intros [|d ds]; cbn; try done. by rewrite concat_app, IH.
Qed.

(** ** Reads *)

Lemma encode_column_app w l1 l2 : encode_column w (l1 ++ l2) = encode_column w l1 ++ encode_column w l2.
Proof. unfold encode_column. by rewrite map_app, concat_app. Qed.

Lemma encode_chunks_concat w (chunks : ChunkedArray) : concat (map (encode_column w) chunks)
  = encode_column w (concat chunks).
Proof. induction chunks as [|c chunks IH]; [done|]. cbn [map concat]. by rewrite encode_column_app, IH. Qed.

(** The read of a fragment gives the bytes of its rows. *)
Lemma fetch_rows (table : @TableData F ArrowType) i c f col t (m : @ChunkMetadata F) :
  fragments table !! i = Some f -> col_data table !! c = Some col -> column_types table !! c = Some t ->
  0 < storage_size t -> meta_ok t (rows_of (offset f) (row_count f) col) m ->
  length (rows_of (offset f) (row_count f) col) = row_count f ->
  fetchBuffer Slice table i c (Z.to_nat (numBytes m))
  = Ok (encode_column (Z.to_nat (storage_size t)) (rows_of (offset f) (row_count f) col)).
Proof.
  intros Hf Hc Ht Hs [_ Hb _] Hl. unfold fetchBuffer. rewrite Hf, Hc, Ht. unfold fetchFixedLenData, fetch_slice.
  set (w := Z.to_nat (storage_size t)). assert (Hw : w <> 0%nat) by (unfold w; lia).
  rewrite Nat.div_same by done. cbn [Nat.eqb rbind]. rewrite encode_chunks_concat, Slice_rows, !Nat.mul_1_r.
  rewrite Hl in Hb. do 2 f_equal. unfold rows_of. f_equal.
  replace (Z.to_nat (numBytes m)) with (row_count f * w)%nat by (rewrite Hb; unfold w; lia).
  destruct (Nat.eqb_spec (row_count f * w) 0) as [E|E]; [done|]. by rewrite Nat.div_mul.
Qed.

(** Memory that is not copied has the bytes that a copy has. *)
Lemma zero_copy_same (table : @TableData F ArrowType) i c num_bytes bytes :
  getZeroCopyBufferMemory Slice table i c num_bytes = Ok (Some bytes) -> fetchBuffer Slice table i c num_bytes = Ok bytes.
Proof.
  unfold getZeroCopyBufferMemory, fetchBuffer, fetchFixedLenData. destruct (fragments table !! i); [|done].
  destruct (col_data table !! c); [|done]. destruct (column_types table !! c); [|done].
  destruct (fetch_slice _ _ _ _ _ _ _) as [chunks|]; [|done]. cbn [rbind].
  destruct chunks as [|chunk [|]]; [done | | done]. intros [= <-]. cbn. by rewrite app_nil_r.
Qed.

(** The rows of a column of a table. *)
Definition column (table : @TableData F ArrowType) (c : nat) : list Z := default [] (contents table !! c).

Lemma column_data (table : @TableData F ArrowType) c t :
  table_ok table -> column_types table !! c = Some t ->
  (table_rows table = 0%nat /\ fragments table = [] /\ column table c = []) \/
  exists col, col_data table !! c = Some col /\ column table c = concat col /\ length (concat col) = table_rows table /\
              column_ok t (concat col).
Proof.
  intros OK Ht. destruct (to_cols _ OK) as [(Hf & Hc & Hr)|Hc].
  - left. split; [done|]. split; [done|]. unfold column, contents. by rewrite Hc.
  - right. destruct (Forall2_lookup_l _ _ _ _ _ Hc Ht) as (col & Ec & Hok & Hl). exists col. split; [done|].
    split; [|done]. unfold column, contents. change (map (@concat Z)) with (fmap (M := list) (@concat Z)).
    rewrite list_lookup_fmap. unfold ChunkedArray in *. by rewrite Ec.
Qed.

Lemma append_column (table table' : @TableData F ArrowType) at_ inputs c t :
  table_ok table -> append_input table at_ inputs -> column_types table !! c = Some t ->
  contents table' = (if (table_rows table =? 0)%nat then inputs else zip_with app (contents table) inputs) ->
  column table' c = column table c ++ default [] (inputs !! c).
Proof.
  intros OK (_ & Hi & _) Ht E. destruct (column_data table c t OK Ht) as [(Hr & _ & Ec)|(col & Ed & Ec & Hl & _)].
  - rewrite Hr in E. cbn in E. unfold column at 1. by rewrite E, Ec.
  - unfold column at 1. rewrite E. destruct (Nat.eqb_spec (table_rows table) 0) as [E0|N0].
    + rewrite Ec. rewrite E0 in Hl. by rewrite (nil_length_inv _ Hl).
    + assert (Hc : contents table !! c = Some (column table c)).
      { unfold column, contents. change (map (@concat Z)) with (fmap (M := list) (@concat Z)). rewrite list_lookup_fmap.
        unfold ChunkedArray in *. by rewrite Ed. }
      assert (Hin : exists rows, inputs !! c = Some rows).
      { apply lookup_lt_is_Some. pose proof (Forall3_length_lr _ _ _ _ Hi) as L. rewrite <- L.
        apply lookup_lt_is_Some. by eexists. }
      destruct Hin as [rows Hin]. rewrite Hin. by rewrite lookup_zip_with, Hc, Hin.
Qed.

Fixpoint append_all (table : @TableData F ArrowType) (ats : list ArrowTable)
  : result StorageError (@TableData F ArrowType) :=
  match ats with
  | [] => Ok table
  | at_ :: ats' => let* table := appendArrowTable Slice blocks decimal_to_int64 table at_ in append_all table ats'
  end.

Lemma append_all_ok batches : forall table : @TableData F ArrowType,
  table_ok table -> Forall (fun b => append_input table (fst b) (snd b)) batches ->
  exists table', append_all table (map fst batches) = Ok table' /\ table_ok table' /\
    column_types table' = column_types table /\
    table_rows table' = (table_rows table + list_sum (map (fun b => num_rows (fst b)) batches))%nat /\
    forall c t, column_types table !! c = Some t ->
      column table' c = column table c ++ concat (map (fun b => default [] (snd b !! c)) batches).
Proof.
  induction batches as [|[at_ inputs] batches IH]; intros table OK Hb.
  - exists table. split; [done|]. split; [done|]. split; [done|]. split; [cbn; lia|]. intros. by rewrite app_nil_r.
  - pose proof (Forall_inv Hb) as Hi. apply Forall_inv_tail in Hb. cbn [fst snd] in Hi.
    destruct (append_step table at_ inputs OK Hi) as (t1 & E1 & OK1 & Er1 & Et1 & Es1 & Ec1).
    destruct (IH t1 OK1) as (t2 & E2 & OK2 & Et2 & Er2 & Ec2).
    { eapply List.Forall_impl; [|exact Hb]. intros b. unfold append_input. by rewrite Et1, Es1. }
    exists t2. cbn [map append_all fst]. rewrite E1. cbn [rbind]. split; [done|]. split; [done|].
    split; [by rewrite Et2|]. split; [rewrite Er2, Er1, list_sum_cons; cbn [fst]; lia|].
    intros c t Ht. rewrite (Ec2 c t) by (by rewrite Et1). rewrite (append_column table t1 at_ inputs c t OK Hi Ht Ec1).
    cbn [map concat snd]. by rewrite app_assoc.
Qed.

(** The fragments of a column, read one after the other with the sizes of their metadata. *)
Fixpoint read_fragments (table : @TableData F ArrowType) (c i : nat) (frags : list (@DataFragment F))
    : result StorageError (list Z) :=
  match frags with
  | [] => Ok []
  | f :: frags' =>
      match metadata f !! c with
      | Some m =>
          let* bytes := fetchBuffer Slice table i c (Z.to_nat (numBytes m)) in
          let* rest := read_fragments table c (S i) frags' in
          Ok (bytes ++ rest)
      | None => Err StorageCheck
      end
  end.

Lemma create_size t k : Create t = Ok k -> 0 < storage_size t.
Proof.
  unfold Create, createFixedLengthEncoderBySize. destruct t as [|s|s p|s|[] s|s|u s]; cbn [storage_size]; intros E; try lia;
    repeat match type of E with context [if ?b then _ else _] => destruct b eqn:? end; try done; lia.
Qed.

Lemma frag_meta (types : list StorageType) (cols : list ChunkedArray) (f : @DataFragment F) c t col :
  frag_ok types cols f -> types !! c = Some t -> cols !! c = Some col ->
  exists m, metadata f !! c = Some m /\ meta_ok t (rows_of (offset f) (row_count f) col) m.
Proof.
  intros Hm Ht Hc. destruct (Forall3_lookup_l _ _ _ _ _ _ Hm Ht) as (col' & m & Hc' & Em & Hok).
  exists m. split; [done|]. rewrite Hc in Hc'. by injection Hc' as <-.
Qed.

Lemma read_fragments_ok (table : @TableData F ArrowType) c t col : 
  table_ok table -> column_types table !! c = Some t -> col_data table !! c = Some col ->
  length (concat col) = table_rows table -> column_ok t (concat col) ->
  forall frags before, fragments table = before ++ frags -> forall a, tiles a frags (table_rows table) ->
  read_fragments table c (length before) frags = Ok (encode_column (Z.to_nat (storage_size t)) (drop a (concat col))).
Proof.
  intros OK Ht Hcol Hl (k & Ek & _). pose proof (create_size t k Ek) as Hs.
  induction frags as [|f frags IH]; intros before Ef a T.
  - cbn in T. rewrite T, <- Hl, drop_all. done.
  - destruct T as [Ho T]. destruct (tiles_bound _ _ _ T) as [Hb _].
    assert (Hf : fragments table !! length before = Some f) by (rewrite Ef; by apply list_lookup_middle).
    assert (Hm : frag_ok (column_types table) (col_data table) f).
    { pose proof (to_meta _ OK) as M. rewrite Ef in M. apply Forall_app in M as [_ M]. exact (Forall_inv M). }
    destruct (frag_meta _ _ _ _ _ _ Hm Ht Hcol) as (m & Em & Hmeta). cbn [read_fragments]. rewrite Em.
    assert (Hlen : length (rows_of (offset f) (row_count f) col) = row_count f)
      by (unfold rows_of; rewrite length_take, length_drop; lia).
    rewrite (fetch_rows table (length before) c f col t m) by done. cbn [rbind].
    specialize (IH (before ++ [f])). rewrite length_app, Nat.add_1_r in IH.
    rewrite (IH ltac:(by rewrite <- app_assoc) _ T). cbn [rbind]. f_equal. rewrite <- encode_column_app. f_equal.
    unfold rows_of. rewrite Ho, <- drop_drop. by rewrite take_drop.
Qed.

Lemma newTable_ok size (sch : list ArrowType) types : size <> 0%nat ->
  table_ok (newTable size sch types : @TableData F ArrowType).
Proof. intros Hs. split; cbn; try done. by left. Qed.

(** [C3] A table refines a list of rows per column.  For a table whose fragments have at least one
    row, of columns of numbers, booleans, dates, times, decimals and ready-made dictionary ids, and
    batches of the schema of the table whose arrays are not slices and whose values fit in the stored
    types ([append_input]): whatever the batches, of any sizes and cut into any chunks, every append
    succeeds; the fragments tile the rows, all but the last are full, none has more rows than a fragment
    may have, and their metadata count and bound their rows; and the fragments of a column, read one
    after the other, are the bytes of the rows of the batches in the order of the appends. *)
Theorem appended_rows_read_back size sch types batches :
  size <> 0%nat ->
  Forall (fun b => append_input (newTable size sch types) (fst b) (snd b)) batches ->
  exists table, append_all (newTable size sch types) (map fst batches) = Ok table /\ table_ok table /\
    table_rows table = list_sum (map (fun b => num_rows (fst b)) batches) /\
    forall c t, types !! c = Some t ->
      read_fragments table c 0 (fragments table)
      = Ok (encode_column (Z.to_nat (storage_size t)) (concat (map (fun b => default [] (snd b !! c)) batches))).
Proof.
  intros Hs Hb. destruct (append_all_ok batches _ (newTable_ok size sch types Hs) Hb) as (table & E & OK & Et & Er & Ec).
  exists table. split; [done|]. split; [done|]. split; [done|]. intros c t Ht.
  pose proof (Ec c t Ht) as Ecol. change (column (newTable size sch types) c) with (@nil Z) in Ecol. cbn [app] in Ecol.
  assert (Ht' : column_types table !! c = Some t) by (by rewrite Et).
  destruct (column_data table c t OK Ht') as [(_ & Hf & E0)|(col & Ed & E1 & Hl & Hok)].
  - rewrite Hf. cbn [read_fragments]. by rewrite <- Ecol, E0.
  - pose proof (read_fragments_ok table c t col OK Ht' Ed Hl Hok (fragments table) [] eq_refl 0 (to_tiles _ OK)) as R.
    cbn [length] in R. by rewrite R, drop_0, <- E1, Ecol.
Qed.

(** ** Ranges *)

Lemma metadata_lookup (ms : list (@ChunkMetadata F)) c : forall s,
  (list_to_map (imap (fun i m => (Z.of_nat (s + S i), chunkStats m)) ms) : gmap Z (@ChunkStats F)) !! Z.of_nat (s + S c)
  = chunkStats <$> (ms !! c).
Proof.
  revert c. induction ms as [|m ms IH]; intros c s; [done|]. rewrite imap_cons, list_to_map_cons.
  destruct c as [|c].
  - by rewrite lookup_insert_eq.
  - rewrite lookup_insert_ne by lia.
    assert (E : imap ((fun i m => (Z.of_nat (s + S i), chunkStats m)) ∘ S) ms
                = imap (fun i m => (Z.of_nat (S s + S i), chunkStats m)) ms)
      by (apply imap_ext; intros i x _; cbn; do 2 f_equal; lia).
    rewrite E. replace (s + S (S c))%nat with (S s + S c)%nat by lia. apply IH.
Qed.

Lemma row_in_fragment (rows : list Z) x frags : forall a,
  tiles a frags (length rows) -> In x (drop a rows) ->
  exists f : @DataFragment F, In f frags /\ In x (take (row_count f) (drop (offset f) rows)).
Proof.
  induction frags as [|f frags IH]; intros a T Hx.
  - cbn in T. subst a. by rewrite drop_all in Hx.
  - destruct T as [Ho T]. rewrite <- (take_drop (row_count f) (drop a rows)) in Hx. apply in_app_iff in Hx as [Hx|Hx].
    + exists f. split; [by left | by rewrite Ho].
    + rewrite drop_drop in Hx. destruct (IH _ T Hx) as (g & Hg & Hgx). exists g. split; [by right | done].
Qed.

(** [C12] The range of a column that the executor finds from the metadata of a table contains the value of every row of the
    column, in whichever fragment it is, null only if the column may be null. *)
Theorem table_column_range (table : @TableData F ArrowType) c t k n id infos outer R x :
  table_ok table -> column_types table !! c = Some t -> Create t = Ok k ->
  In x (column table c) -> (is_null k x = true -> n = true) ->
  List.find (fun i => id =? ExpressionRange.table_id i) infos = Some (getTableMetadata table id) ->
  getLeafColumnRange (canonical t n) id (Z.of_nat (S c)) false infos outer = Ok R ->
  in_range (canonical t n) R (decoded k t x).
Proof.
  intros OK Ht Ek Hx Hn Hfind ER.
  destruct (column_data table c t OK Ht) as [(_ & _ & E0)|(col & Ed & E1 & Hl & _)]; [by rewrite E0 in Hx|].
  rewrite E1 in Hx. pose proof (to_tiles _ OK) as T. rewrite <- Hl in T.
  destruct (row_in_fragment (concat col) x (fragments table) 0 T) as (f & Hf & Hfx); [by rewrite drop_0|].
  pose proof (to_meta _ OK) as M. rewrite List.Forall_forall in M.
  destruct (frag_meta _ _ _ _ _ _ (M f Hf) Ht Ed) as (m & Em & [_ _ [_ Hstats]]).
  assert (Hinfo : getTableMetadata table id
                  = mkInputTableInfo id (Z.of_nat (table_rows table)) (map (fragment_info id) (fragments table)))
    by (unfold getTableMetadata; by destruct (fragments table)).
  assert (Hrow : row_count f <> 0%nat) by (intros E; by rewrite E in Hfx).
  destruct (tiles_bound _ _ _ T) as [_ B]. rewrite List.Forall_forall in B. specialize (B f Hf).
  refine (leaf_sound (canonical t n) id (Z.of_nat (S c)) infos (getTableMetadata table id) outer (fragment_info id f)
            (chunkStats m) R (decoded k t x) _ _ Hfind _ _ _ _ (Hstats k n x Ek Hfx Hn) ER).
  - by destruct t.
  - by destruct t.
  - rewrite Hinfo. cbn [info_numTuples]. lia.
  - rewrite Hinfo. cbn [ExpressionRange.fragments]. by apply in_map.
  - unfold isEmptyPhysicalFragment, fragment_info. cbn [frag_numTuples]. apply andb_false_iff. right. lia.
  - unfold fragment_info. cbn [chunkMetadataMap]. pose proof (metadata_lookup (metadata f) c 0) as L. cbn [Nat.add] in L.
    rewrite L. by rewrite Em.
Qed.
End Promises.

(** ** Examples *)

Module StorageExample.
#[local] Existing Instance fp_int.

(** Slices in one chunk, and chunks that two threads go over. *)
Definition one_chunk (c : ChunkedArray) (o n : nat) : ChunkedArray := [take n (drop o (concat c))].
Definition halves (l : list Z) : Reduction :=
  Joined (Block (take (length l / 2) l)) (Block (drop (length l / 2) l)).
Lemma one_chunk_rows c o n : concat (one_chunk c o n) = take n (drop o (concat c)).
Proof. cbn. by rewrite app_nil_r. Qed.
Lemma halves_data l : reduction_data (halves l) = l.
Proof. cbn. apply take_drop. Qed.

(** Fragments of four rows; batches of three and of six. *)
Definition numbers (l : list Z) : ArrowColumn := ArrayColumn [mkArrowArray (length l) 0 0 [] l].
Definition batch (l : list Z) : @ArrowTable nat * list (list Z) := (mkArrowTable (length l) [0%nat] [numbers l], [l]).
Definition batches : list (@ArrowTable nat * list (list Z)) := [batch [1; 2; 3]; batch [4; 5; 6; 7; 8; 9]].

Lemma batch_ok (table : @TableData Z nat) l :
  schema table = [0%nat] -> column_types table = [IntegerStorage 4] -> Forall (in_width 32) l ->
  append_input table (fst (batch l)) (snd (batch l)).
Proof.
  intros Es Et Hl. assert (Er : map (stored_row (IntegerStorage 4)) (column_rows (ElemInt 32)
    [mkArrowArray (length l) 0 0 [] l]) = l).
  { unfold column_rows. cbn [map concat]. rewrite app_nil_r. unfold rows. cbn [offset_ length_]. rewrite map_map.
    transitivity (map (fun j => nth j l 0) (seq 0 (length l))); [by apply map_ext|].
    rewrite <- slice_nth by lia. by rewrite drop_0, take_ge. }
  split; [by rewrite Es|]. split; [|by repeat constructor]. cbn [fst snd batch at_columns]. rewrite Et. constructor;
    [|constructor].
  rewrite <- Er at 2. apply (input_array (IntegerStorage 4)); [done | | by repeat constructor |].
  - constructor; [|constructor]. split; cbn; [lia | by left |]. induction (seq 0 (length l)) as [|i idxs IH];
      [done | exact IH].
  - unfold column_rows. cbn [map concat]. rewrite app_nil_r. apply List.Forall_forall. intros v Hv.
    apply in_map_iff in Hv as (j & <- & Hj%in_seq).
    cbn in Hj. rewrite List.Forall_forall in Hl. assert (in_width 32 (nth j l 0)) by (apply Hl, nth_In; lia). split; done.
Qed.

Lemma appended_rows_read_back_witness :
  exists table : @TableData Z nat,
    append_all one_chunk halves (fun z => z) (newTable 4 [0%nat] [IntegerStorage 4]) (map fst batches) = Ok table /\
    table_rows table = 9%nat /\
    read_fragments one_chunk table 0 0 (fragments table) = Ok (encode_column 4 [1; 2; 3; 4; 5; 6; 7; 8; 9]).
Proof.
  destruct (appended_rows_read_back (F := Z) one_chunk halves (fun z => z) one_chunk_rows halves_data (fun v _ => eq_refl)
              4 [0%nat] [IntegerStorage 4] batches ltac:(done)) as (table & E & _ & Er & Hread).
  - constructor; [|constructor; [|constructor]]; (apply batch_ok; [done | done |]); repeat constructor; by vm_compute.
  - exists table. split; [done|]. split; [done|]. exact (Hread 0%nat (IntegerStorage 4) eq_refl).
Defined.

Definition table9 : @TableData Z nat :=
  match append_all one_chunk halves (fun z => z) (newTable 4 [0%nat] [IntegerStorage 4]) (map fst batches) with
  | Ok table => table
  | Err _ => newTable 4 [0%nat] [IntegerStorage 4]
  end.

Lemma table9_ok : table_ok table9.
Proof.
  destruct (append_all_ok (F := Z) one_chunk halves (fun z => z) one_chunk_rows halves_data (fun v _ => eq_refl)
              batches (newTable 4 [0%nat] [IntegerStorage 4])) as (table & E & OK & _).
  - by apply newTable_ok.
  - constructor; [|constructor; [|constructor]]; (apply batch_ok; [done | done |]); repeat constructor; by vm_compute.
  - unfold table9. by rewrite E.
Qed.

(** The metadata of the three fragments give the range of the nine rows. *)
Lemma table_column_range_witness : in_range (IntegerType 4 false) (IntRange 1 9 0 false : ExpressionRange Z) 5.
Proof.
  apply (table_column_range table9 0 (IntegerStorage 4) (NoneEncoder 32 true) false 7 [getTableMetadata table9 7] false
           (IntRange 1 9 0 false) 5 table9_ok); try reflexivity; try (by vm_compute).
  vm_compute. tauto.
Defined.

(** ** Where the storage parts from what it says *)

(** A table without rows has two empty fragments, where the executor needs one. *)
Lemma empty_table_fragments (table : @TableData Z nat) id :
  fragments table = [] -> length (ExpressionRange.fragments (getTableMetadata table id)) = 2%nat.
Proof. intros E. unfold getTableMetadata. by rewrite E. Qed.

(** A size of zero is accepted when a table is created, and divides when rows are appended. *)
Lemma no_fragment_size (types : list StorageType) (at_ : ArrowTable) :
  at_schema at_ = [0%nat] ->
  appendArrowTable one_chunk halves (fun z => z) (newTable 0 [0%nat] types : @TableData Z nat) at_ = Err DivisionByZero.
Proof. intros E. unfold appendArrowTable. by rewrite E. Qed.
End StorageExample.

(** * Columns of strings

    A column of strings that is not encoded has offsets and bytes per chunk.  A read of a fragment puts the offsets and
    the bytes of its chunks together. *)

(** The chunks of a slice of the column: one offset more than rows. *)
Record StringChunk := mkStringChunk { s_offsets : list Z; s_bytes : list Z }.
Definition s_length (c : StringChunk) : nat := length (s_offsets c) - 1.
Definition offset_at (c : StringChunk) (i : nat) : Z := nth i (s_offsets c) 0.

(** The loop over chunks with [delta], and the last offset. *)
Fixpoint fetchVarLenOffsets (chunks : list StringChunk) (delta : Z) : list Z :=
  match chunks with
  | [] => [delta]
  | chunk :: chunks' =>
      let delta := u32 (delta - offset_at chunk 0) in
      map (fun val => u32 (val + delta)) (take (s_length chunk) (s_offsets chunk))
        ++ fetchVarLenOffsets chunks' (u32 (delta + offset_at chunk (s_length chunk)))
  end.

(** What is copied of each chunk. *)
Fixpoint fetchVarLenData (chunks : list StringChunk) (num_bytes remained : Z) : list Z :=
  match chunks with
  | [] => []
  | chunk :: chunks' =>
      if remained =? 0 then []
      else
        let chunk_size := Z.min (offset_at chunk (s_length chunk) - offset_at chunk 0) num_bytes in
        take (Z.to_nat chunk_size) (drop (Z.to_nat (offset_at chunk 0)) (s_bytes chunk))
          ++ fetchVarLenData chunks' num_bytes (u64 (remained - chunk_size))
  end.

(** The bytes of [rows] strings from a row on. *)
Fixpoint skip_chunks (chunks : list StringChunk) (start_offset : nat) : result StorageError (list StringChunk * nat) :=
  match chunks with
  | [] => Err StorageCheck
  | chunk :: chunks' =>
      if (s_length chunk <=? start_offset)%nat then skip_chunks chunks' (start_offset - s_length chunk)
      else Ok (chunks, start_offset)
  end.
Fixpoint sum_chunks (chunks : list StringChunk) (start_offset rows_remain : nat) : result StorageError Z :=
  match rows_remain, chunks with
  | O, _ => Ok 0
  | _, [] => Err StorageCheck
  | _, chunk :: chunks' =>
      let rows_in_chunk := Nat.min rows_remain (s_length chunk - start_offset) in
      let bytes := Z.abs (offset_at chunk (start_offset + rows_in_chunk)) - Z.abs (offset_at chunk start_offset) in
      let* rest := sum_chunks chunks' 0 (rows_remain - rows_in_chunk) in
      Ok (bytes + rest)
  end.
Definition computeTotalStringsLength (arr : list StringChunk) (offset rows : nat) : result StorageError Z :=
  let* '(chunks, start_offset) := skip_chunks arr offset in sum_chunks chunks start_offset rows.

(** ** Rows *)

Definition string_at (c : StringChunk) (i : nat) : list Z :=
  take (Z.to_nat (offset_at c (S i) - offset_at c i)) (drop (Z.to_nat (offset_at c i)) (s_bytes c)).
Definition string_rows (c : StringChunk) : list (list Z) := map (string_at c) (seq 0 (s_length c)).

Record string_ok (c : StringChunk) : Prop := mkStringOk {
  so_some : (0 < length (s_offsets c))%nat;
  so_first : 0 <= offset_at c 0;
  so_mono : forall i, (i < s_length c)%nat -> offset_at c i <= offset_at c (S i);
  so_last : offset_at c (s_length c) <= Z.of_nat (length (s_bytes c)) < 4294967296;
}.

Definition bytes_of (rows : list (list Z)) : Z := Z.of_nat (length (concat rows)).

(** The offsets of strings that follow one another. *)
Fixpoint starts (p : Z) (rows : list (list Z)) : list Z :=
  match rows with [] => [p] | r :: rows' => p :: starts (p + Z.of_nat (length r)) rows' end.

Lemma string_up c : string_ok c -> forall i j, (i <= j <= s_length c)%nat -> offset_at c i <= offset_at c j.
Proof.
  intros OK i j [Hij Hj]. induction Hij as [|j Hij IH]; [done|].
  pose proof (so_mono _ OK j ltac:(lia)). pose proof (IH ltac:(lia)). lia.
Qed.

Lemma string_length c i : string_ok c -> (i < s_length c)%nat ->
  Z.of_nat (length (string_at c i)) = offset_at c (S i) - offset_at c i.
Proof.
  intros OK Hi. pose proof (so_mono _ OK i Hi). pose proof (string_up c OK 0 i ltac:(lia)). pose proof (so_first _ OK).
  pose proof (string_up c OK (S i) (s_length c) ltac:(lia)). pose proof (so_last _ OK).
  unfold string_at. rewrite length_take, length_drop. lia.
Qed.

Lemma part_bytes c n : forall i, string_ok c -> (i + n <= s_length c)%nat ->
  concat (map (string_at c) (seq i n))
  = take (Z.to_nat (offset_at c (i + n) - offset_at c i)) (drop (Z.to_nat (offset_at c i)) (s_bytes c)).
Proof.
  induction n as [|n IH]; intros i OK Hi; [by rewrite Nat.add_0_r, Z.sub_diag|]. cbn [seq map concat].
  rewrite IH by (done || lia). rewrite Nat.add_succ_r. cbn [Nat.add]. unfold string_at.
  pose proof (so_mono _ OK i ltac:(lia)). pose proof (string_up c OK 0 i ltac:(lia)). pose proof (so_first _ OK).
  pose proof (string_up c OK (S i) (S (i + n)) ltac:(lia)).
  set (a := Z.to_nat (offset_at c i)). set (d := Z.to_nat (offset_at c (S i) - offset_at c i)).
  replace (Z.to_nat (offset_at c (S i))) with (a + d)%nat by lia.
  set (e := Z.to_nat (offset_at c (S (i + n)) - offset_at c (S i))).
  replace (Z.to_nat (offset_at c (S (i + n)) - offset_at c i)) with (d + e)%nat by lia.
  rewrite <- drop_drop. generalize (drop a (s_bytes c)). intros l. apply take_take_drop.
Qed.

Lemma chunk_bytes c : string_ok c ->
  concat (string_rows c)
  = take (Z.to_nat (offset_at c (s_length c) - offset_at c 0)) (drop (Z.to_nat (offset_at c 0)) (s_bytes c)) /\
  bytes_of (string_rows c) = offset_at c (s_length c) - offset_at c 0.
Proof.
  intros OK. pose proof (part_bytes c (s_length c) 0 OK ltac:(lia)) as E. cbn [Nat.add] in E. split; [exact E|].
  unfold bytes_of, string_rows. rewrite E, length_take, length_drop. pose proof (so_first _ OK). pose proof (so_last _ OK).
  pose proof (string_up c OK 0 (s_length c) ltac:(lia)). lia.
Qed.

Fixpoint starts_of (p : Z) (rows : list (list Z)) : list Z :=
  match rows with [] => [] | r :: rows' => p :: starts_of (p + Z.of_nat (length r)) rows' end.

Lemma bytes_of_cons r rows : bytes_of (r :: rows) = Z.of_nat (length r) + bytes_of rows.
Proof. unfold bytes_of. cbn [concat]. rewrite length_app. lia. Qed.
Lemma bytes_of_app r1 r2 : bytes_of (r1 ++ r2) = bytes_of r1 + bytes_of r2.
Proof. unfold bytes_of. rewrite concat_app, length_app. lia. Qed.

Lemma starts_app r1 : forall p r2, starts p (r1 ++ r2) = starts_of p r1 ++ starts (p + bytes_of r1) r2.
Proof.
  induction r1 as [|r r1 IH]; intros p r2; cbn [app starts starts_of]; [by rewrite Z.add_0_r|].
  rewrite IH, bytes_of_cons, Z.add_assoc. done.
Qed.

Lemma part_offsets c p n : forall i, string_ok c -> (i + n <= s_length c)%nat ->
  map (fun j => p + (offset_at c j - offset_at c 0)) (seq i n)
  = starts_of (p + (offset_at c i - offset_at c 0)) (map (string_at c) (seq i n)).
Proof.
  induction n as [|n IH]; intros i OK Hi; [done|]. cbn [seq map starts_of]. rewrite IH by (done || lia).
  rewrite string_length by (done || lia). do 2 f_equal. lia.
Qed.

Lemma chunk_offsets c p :
  string_ok c -> 0 <= p -> p + bytes_of (string_rows c) < 4294967296 ->
  map (fun val => u32 (val + u32 (p - offset_at c 0))) (take (s_length c) (s_offsets c)) = starts_of p (string_rows c).
Proof.
  intros OK Hp Hb. destruct (chunk_bytes c OK) as [_ Eb]. rewrite Eb in Hb. pose proof (so_some _ OK).
  pose proof (slice_nth (s_offsets c) (s_length c) 0 ltac:(unfold s_length; lia)) as E. rewrite drop_0 in E.
  rewrite E, map_map. pose proof (part_offsets c p (s_length c) 0 OK ltac:(lia)) as P.
  rewrite Z.sub_diag, Z.add_0_r in P.
  unfold string_rows. rewrite <- P. apply map_ext_in. intros j Hj%in_seq.
  change (nth j (s_offsets c) 0) with (offset_at c j).
  pose proof (string_up c OK 0 j ltac:(lia)). pose proof (string_up c OK j (s_length c) ltac:(lia)).
  unfold u32, uwrap. rewrite Zplus_mod_idemp_r, Z.mod_small; lia.
Qed.

Lemma fetch_offsets_spec chunks : forall p,
  Forall string_ok chunks -> 0 <= p -> p + bytes_of (concat (map string_rows chunks)) < 4294967296 ->
  fetchVarLenOffsets chunks p = starts p (concat (map string_rows chunks)).
Proof.
  induction chunks as [|c chunks IH]; intros p Hok Hp Hb; [done|]. pose proof (Forall_inv Hok) as OK.
  cbn [fetchVarLenOffsets map concat] in *. rewrite bytes_of_app in Hb. destruct (chunk_bytes c OK) as [_ Eb].
  assert (Hn : forall rows, 0 <= bytes_of rows) by (unfold bytes_of; lia).
  pose proof (Hn (string_rows c)). pose proof (Hn (concat (map string_rows chunks))).
  rewrite starts_app, chunk_offsets by (done || lia). f_equal.
  assert (Ed : u32 (u32 (p - offset_at c 0) + offset_at c (s_length c)) = p + bytes_of (string_rows c)).
  { unfold u32, uwrap. rewrite Zplus_mod_idemp_l, Z.mod_small; lia. }
  rewrite Ed. apply IH; [exact (Forall_inv_tail Hok) | lia | lia].
Qed.

Lemma fetch_data_spec chunks total : forall remained,
  Forall string_ok chunks -> remained = bytes_of (concat (map string_rows chunks)) -> remained <= total < 2 ^ 64 ->
  fetchVarLenData chunks total remained = concat (concat (map string_rows chunks)).
Proof.
  induction chunks as [|c chunks IH]; intros remained Hok Hr Ht; [done|]. pose proof (Forall_inv Hok) as OK.
  cbn [fetchVarLenData map concat] in *. rewrite bytes_of_app in Hr. destruct (chunk_bytes c OK) as [Ec Eb].
  assert (Hn : forall rows, 0 <= bytes_of rows) by (unfold bytes_of; lia).
  pose proof (Hn (string_rows c)). pose proof (Hn (concat (map string_rows chunks))).
  destruct (Z.eqb_spec remained 0) as [E0|E0].
  - symmetry. apply length_zero_iff_nil. rewrite concat_app, length_app. unfold bytes_of in *. lia.
  - rewrite Z.min_l, concat_app, Ec by lia. f_equal. rewrite u64_small by lia.
    apply IH; [exact (Forall_inv_tail Hok) | lia | lia].
Qed.

Lemma starts_lookup rows : forall p i r, rows !! i = Some r ->
  starts p rows !! i = Some (p + bytes_of (take i rows)) /\
  starts p rows !! S i = Some (p + bytes_of (take i rows) + Z.of_nat (length r)).
Proof.
  induction rows as [|r0 rows IH]; intros p i r Hi; [done|]. destruct i as [|i].
  - injection Hi as ->. cbn [starts take]. rewrite Z.add_0_r. split; [done|]. by destruct rows.
  - cbn [take]. rewrite bytes_of_cons, Z.add_assoc. apply (IH (p + Z.of_nat (length r0)) i r Hi).
Qed.

(** A fragment of strings is read back: from the offsets and the bytes that are fetched, every row is the string of
    the column, however the rows are spread over chunks and wherever the chunks start in their buffers. *)
Theorem strings_read_back chunks :
  Forall string_ok chunks ->
  let rows := concat (map string_rows chunks) in
  bytes_of rows < 4294967296 ->
  let offsets := fetchVarLenOffsets chunks 0 in
  let data := fetchVarLenData chunks (bytes_of rows) (bytes_of rows) in
  length offsets = S (length rows) /\
  forall i r, rows !! i = Some r ->
    exists a b, offsets !! i = Some a /\ offsets !! S i = Some b /\ 0 <= a <= b /\
      take (Z.to_nat (b - a)) (drop (Z.to_nat a) data) = r.
Proof.
  intros Hok rows Hb. cbn zeta. unfold rows in *. rewrite fetch_offsets_spec by (done || lia).
  rewrite fetch_data_spec by (done || lia). fold rows. split.
  - assert (L : forall l p, length (starts p l) = S (length l)) by (induction l as [|r l IH]; intros p; cbn;
      [done | by rewrite IH]).
    apply L.
  - intros i r Hi. destruct (starts_lookup rows 0 i r Hi) as [Ha Hb']. do 2 eexists. split; [exact Ha|]. split; [exact Hb'|].
    assert (0 <= bytes_of (take i rows)) by (unfold bytes_of; lia). split; [lia|].
    replace (0 + bytes_of (take i rows) + Z.of_nat (length r) - (0 + bytes_of (take i rows)))
      with (Z.of_nat (length r)) by lia.
    rewrite Z.add_0_l. unfold bytes_of. rewrite !Nat2Z.id.
    assert (E : concat rows = concat (take i rows) ++ r ++ concat (drop (S i) rows)).
    { rewrite <- (take_drop_middle rows i _ Hi) at 1. by rewrite concat_app. }
    rewrite E, drop_app_length. by rewrite take_app_length.
Qed.

(** The size of the rows of a fragment. *)
Lemma sum_chunks_spec chunks : forall start n,
  Forall string_ok chunks -> (start + n <= length (concat (map string_rows chunks)))%nat ->
  match chunks with c :: _ => (start <= s_length c)%nat | [] => True end ->
  sum_chunks chunks start n = Ok (bytes_of (take n (drop start (concat (map string_rows chunks))))).
Proof.
  induction chunks as [|c chunks IH]; intros start n Hok Hn Hs; [by destruct n; [|cbn in Hn; lia]|].
  destruct n as [|n]; [done|]. pose proof (Forall_inv Hok) as OK. cbn [sum_chunks map concat] in *.
  set (k := Nat.min (S n) (s_length c - start)). assert (Hl : length (string_rows c) = s_length c)
    by (unfold string_rows; by rewrite length_map, length_seq).
  rewrite length_app, Hl in Hn.
  rewrite IH; [|exact (Forall_inv_tail Hok) | lia | by destruct chunks; [|lia]]. cbn [rbind]. f_equal.
  rewrite drop_app_le, take_app, bytes_of_app, drop_0 by lia. rewrite length_drop, Hl.
  replace (S n - (s_length c - start))%nat with (S n - k)%nat by lia.
  replace (take (S n) (drop start (string_rows c))) with (take k (drop start (string_rows c)));
    [|destruct (Nat.le_gt_cases (S n) (s_length c - start)); unfold k;
      [by rewrite Nat.min_l | rewrite Nat.min_r, !take_ge by (rewrite ?length_drop; lia); done]].
  f_equal. unfold string_rows. rewrite skipn_map, firstn_map.
  replace (take k (drop start (seq 0 (s_length c)))) with (seq start k).
  - unfold bytes_of. rewrite part_bytes by (done || lia). pose proof (string_up c OK 0 start ltac:(lia)).
    pose proof (so_first _ OK).
    pose proof (string_up c OK start (start + k) ltac:(lia)). pose proof (string_up c OK (start + k) (s_length c)
      ltac:(lia)).
    pose proof (so_last _ OK). rewrite length_take, length_drop. lia.
  - replace (s_length c) with (start + (k + (s_length c - start - k)))%nat by lia. rewrite !seq_app.
    rewrite drop_app_length' by (by rewrite length_seq). by rewrite take_app_length' by (by rewrite length_seq).
Qed.

Lemma total_length_spec arr offset n :
  Forall string_ok arr -> (offset < length (concat (map string_rows arr)))%nat ->
  (offset + n <= length (concat (map string_rows arr)))%nat ->
  computeTotalStringsLength arr offset n = Ok (bytes_of (take n (drop offset (concat (map string_rows arr))))).
Proof.
  unfold computeTotalStringsLength. revert offset. induction arr as [|c arr IH]; intros offset Hok Ho Hn; [cbn in Ho; lia|].
  assert (Hl : length (string_rows c) = s_length c) by (unfold string_rows; by rewrite length_map, length_seq).
  cbn [skip_chunks]. destruct (Nat.leb_spec (s_length c) offset) as [Hs|Hs].
  - cbn [map concat] in *. rewrite length_app, Hl in *.
    rewrite IH; [|exact (Forall_inv_tail Hok) | lia | lia]. by rewrite drop_app_ge, Hl by lia.
  - cbn [rbind]. apply sum_chunks_spec; [done | done | lia].
Qed.

Module StringExample.
(** Two chunks, the second a part of its buffer. *)
Definition two_chunks : list StringChunk :=
  [mkStringChunk [0; 2; 2] [104; 105]; mkStringChunk [3; 6] [120; 121; 122; 97; 98; 99]].

Lemma two_chunks_ok : Forall string_ok two_chunks.
Proof.
  constructor; [|constructor; [|constructor]]; split; cbn; try lia.
  - intros [|[|i]] Hi; cbn; lia.
  - intros [|i] Hi; cbn; lia.
Qed.

Lemma strings_read_back_witness :
  length (fetchVarLenOffsets two_chunks 0) = 4%nat /\ fetchVarLenOffsets two_chunks 0 = [0; 2; 2; 5] /\
  exists a b, fetchVarLenOffsets two_chunks 0 !! 2%nat = Some a /\ fetchVarLenOffsets two_chunks 0 !! 3%nat = Some b /\
    0 <= a <= b /\ take (Z.to_nat (b - a)) (drop (Z.to_nat a) (fetchVarLenData two_chunks 5 5)) = [97; 98; 99].
Proof.
  destruct (strings_read_back two_chunks two_chunks_ok ltac:(by vm_compute)) as [L R].
  split; [exact L|]. split; [by vm_compute|]. exact (R 2%nat [97; 98; 99] eq_refl).
Defined.

(** An array without rows has no chunk where the first row would be. *)
Lemma no_rows_no_chunk : computeTotalStringsLength [mkStringChunk [0] []] 0 0 = Err StorageCheck.
Proof. done. Qed.

(** A read of a part of the bytes copies more than is left: six bytes where five are asked for. *)
Lemma partial_read_overruns :
  length (fetchVarLenData [mkStringChunk [0; 3] [1; 2; 3]; mkStringChunk [0; 3] [4; 5; 6]] 5 5) = 6%nat.
Proof. done. Qed.
End StringExample.
