(* ===== verification/Catalog.v ===== *)
(** * The catalogue of tables ([SchemaMgr/SimpleSchemaProvider.h], [ArrowStorage.cpp])

    A storage keeps its tables and columns under their ids and, a second time, under their names,
    the rows of each table, and the dictionaries of its columns.  [createTable] and [dropTable]
    change all of these; an exception leaves what was changed before it.  The rows of a table are
    modelled in [ArrowStorage]; here a table has what [createTable] gives it. *)

From Stdlib Require Import ZArith Lia List Bool String.
From stdpp Require Import base list gmap numbers strings fin_maps sorting.
From S2P Require Import Prelude StateMonad ExtractFromTime.
Import ListNotations.
Local Open Scope Z_scope.
Local Open Scope bm_scope.

(** ** Types of columns *)

(** The types by their ids; [ColumnTy] is [kColumn] and [kColumnList], which no table has. *)
Inductive SchemaType :=
| NullTy
| BooleanTy (n : bool)
| IntegerTy (size : Z) (n : bool)
| FloatTy (n : bool)
| DoubleTy (n : bool)
| DecimalTy (size precision scale : Z) (n : bool)
| VarCharTy (max_length : Z) (n : bool)
| TextTy (n : bool)
| DateTy (size : Z) (unit : TimeUnit) (n : bool)
| TimeTy (size : Z) (unit : TimeUnit) (n : bool)
| TimestampTy (unit : TimeUnit) (n : bool)
| IntervalTy (size : Z) (unit : TimeUnit) (n : bool)
| FixedLenArrayTy (numElems : Z) (elemType : SchemaType) (n : bool)
| VarLenArrayTy (elemType : SchemaType) (offsetSize : Z) (n : bool)
| ExtDictionaryTy (elemType : SchemaType) (dictId size : Z)
| ColumnTy (columnType : SchemaType) (n : bool).

Definition col_elem_type (type : SchemaType) : SchemaType :=
  match type with FixedLenArrayTy _ e _ | VarLenArrayTy e _ _ => e | _ => type end.

Fixpoint ty_nullable (type : SchemaType) : bool :=
  match type with
  | NullTy => true
  | BooleanTy n | IntegerTy _ n | FloatTy n | DoubleTy n | DecimalTy _ _ _ n | VarCharTy _ n | TextTy n
  | DateTy _ _ n | TimeTy _ _ n | TimestampTy _ n | IntervalTy _ _ n | FixedLenArrayTy _ _ n
  | VarLenArrayTy _ _ n | ColumnTy _ n => n
  | ExtDictionaryTy e _ _ => ty_nullable e
  end.

(** The types of Arrow that columns are imported from. *)
Inductive ArrowDataType :=
| A_int (bits : Z) | A_boolean | A_float32 | A_float64 | A_utf8 | A_decimal (precision scale : Z)
| A_time32 | A_date32 | A_timestamp (unit : TimeUnit) | A_list (elem : ArrowDataType).

Inductive CatalogError :=
| NoColumns | EmptyTableName | TableExists | EmptyColumnName | ReservedName | DuplicatedName
| UnknownDictionary | UnsupportedType | NotImportable | DictLimit | UnknownTable
| OutOfRange      (* [std::out_of_range] of [at] *)
| IdOverflow      (* signed overflow of [next_table_id_] *)
| CatalogCheck.

Fixpoint getArrowImportType (type : SchemaType) : result CatalogError ArrowDataType :=
  match type with
  | IntegerTy size _ =>
      if (size =? 1) || (size =? 2) || (size =? 4) || (size =? 8) then Ok (A_int (8 * size)) else Err NotImportable
  | BooleanTy _ => Ok A_boolean
  | FloatTy _ => Ok A_float32
  | DoubleTy _ => Ok A_float64
  | VarCharTy _ _ | TextTy _ | ExtDictionaryTy _ _ _ => Ok A_utf8
  | DecimalTy _ precision scale _ => Ok (A_decimal precision scale)
  | TimeTy _ _ _ => Ok A_time32
  | DateTy _ _ _ => Ok A_date32
  | TimestampTy unit _ =>
      match unit with
      | TU_kSecond | TU_kMilli | TU_kMicro | TU_kNano => Ok (A_timestamp unit)
      | _ => Err NotImportable
      end
  | FixedLenArrayTy _ e _ | VarLenArrayTy e _ _ =>
      match e with
      | DecimalTy _ _ _ _ => Ok (A_list A_float64)
      | _ => match getArrowImportType e with Ok t => Ok (A_list t) | Err x => Err x end
      end
  | NullTy | IntervalTy _ _ _ | ColumnTy _ _ => Err NotImportable
  end.

(** ** The state *)

Record TableInfo := mkTableInfo { ti_db_id : Z; ti_table_id : Z; ti_name : string; ti_fragments : nat }.
Record ColumnInfo := mkColumnInfo {
  ci_db_id : Z; ci_table_id : Z; ci_column_id : Z; ci_name : string; ci_type : SchemaType; is_rowid : bool }.
(** A dictionary, with the folder of its [StringDictionary]. *)
Record DictDescriptor := mkDictDescriptor { dict_id_ : Z; dictName : string; dict_folder : string }.

(** The part of [TableData] that [createTable] sets. *)
Record TableEntry := mkTableEntry {
  te_fragment_size : nat; te_schema : list (string * ArrowDataType * bool) }.

Record Catalog := mkCatalog {
  table_infos_ : gmap (Z * Z) TableInfo;
  table_index_by_name_ : gmap Z (gmap string TableInfo);
  column_infos_ : gmap (Z * Z * Z) ColumnInfo;
  column_index_by_name_ : gmap (Z * Z) (gmap string ColumnInfo);
  next_table_id_ : Z;
  next_dict_id_ : Z;
  tables_ : gmap Z TableEntry;
  dicts_ : gmap Z DictDescriptor;
}.
Definition newCatalog : Catalog := mkCatalog ∅ ∅ ∅ ∅ 1 1 ∅ ∅.

Abbreviation CM := (ST CatalogError Catalog).
Definition check_that (b : bool) : CM unit := if b then ret tt else throw CatalogCheck.
Definition lift_result {A : Type} (r : result CatalogError A) : CM A :=
  match r with Ok a => ret a | Err e => throw e end.

(** ** Schema provider *)

Definition getTableInfo (db_id table_id : Z) (c : Catalog) : option TableInfo := table_infos_ c !! (db_id, table_id).
Definition getTableInfo_by_name (db_id : Z) (name : string) (c : Catalog) : option TableInfo :=
  table_index_by_name_ c !! db_id ≫= (.!! name).
Definition getColumnInfo (db_id table_id col_id : Z) (c : Catalog) : option ColumnInfo :=
  column_infos_ c !! (db_id, table_id, col_id).
Definition getColumnInfo_by_name (db_id table_id : Z) (name : string) (c : Catalog) : option ColumnInfo :=
  column_index_by_name_ c !! (db_id, table_id) ≫= (.!! name).

Definition by_column_id (a b : ColumnInfo) : Prop := ci_column_id a <= ci_column_id b.
#[export] Instance by_column_id_dec a b : Decision (by_column_id a b) := Z_le_dec _ _.

Definition listColumnsNoLock (db_id table_id : Z) : CM (list ColumnInfo) :=
  let! index := gets (fun c => column_index_by_name_ c !! (db_id, table_id)) in
  match index with
  | None => throw CatalogCheck
  | Some table_cols => ret (merge_sort by_column_id (map snd (map_to_list table_cols)))
  end.

Definition set_tables (infos : gmap (Z * Z) TableInfo) (names : gmap Z (gmap string TableInfo)) (c : Catalog) : Catalog :=
  mkCatalog infos names (column_infos_ c) (column_index_by_name_ c) (next_table_id_ c) (next_dict_id_ c)
    (tables_ c) (dicts_ c).
Definition set_columns (infos : gmap (Z * Z * Z) ColumnInfo) (names : gmap (Z * Z) (gmap string ColumnInfo))
    (c : Catalog) : Catalog :=
  mkCatalog (table_infos_ c) (table_index_by_name_ c) infos names (next_table_id_ c) (next_dict_id_ c)
    (tables_ c) (dicts_ c).
Definition set_data (data : gmap Z TableEntry) (c : Catalog) : Catalog :=
  mkCatalog (table_infos_ c) (table_index_by_name_ c) (column_infos_ c) (column_index_by_name_ c)
    (next_table_id_ c) (next_dict_id_ c) data (dicts_ c).
Definition set_dicts (next : Z) (dicts : gmap Z DictDescriptor) (c : Catalog) : Catalog :=
  mkCatalog (table_infos_ c) (table_index_by_name_ c) (column_infos_ c) (column_index_by_name_ c)
    (next_table_id_ c) next (tables_ c) dicts.
Definition set_next_table (next : Z) (c : Catalog) : Catalog :=
  mkCatalog (table_infos_ c) (table_index_by_name_ c) (column_infos_ c) (column_index_by_name_ c)
    next (next_dict_id_ c) (tables_ c) (dicts_ c).

(** [operator[]] makes an empty index where there is none. *)
Definition addTableInfo (ti : TableInfo) (c : Catalog) : Catalog :=
  set_tables (<[(ti_db_id ti, ti_table_id ti) := ti]> (table_infos_ c))
    (<[ti_db_id ti := <[ti_name ti := ti]> (default ∅ (table_index_by_name_ c !! ti_db_id ti))]>
       (table_index_by_name_ c)) c.

Definition addColumnInfo (ci : ColumnInfo) (c : Catalog) : Catalog :=
  let ref := (ci_db_id ci, ci_table_id ci) in
  set_columns (<[(ref, ci_column_id ci) := ci]> (column_infos_ c))
    (<[ref := <[ci_name ci := ci]> (default ∅ (column_index_by_name_ c !! ref))]> (column_index_by_name_ c)) c.

Definition addRowidColumn (db_id table_id : Z) : CM unit :=
  let! index := gets (fun c => column_index_by_name_ c !! (db_id, table_id)) in
  match index with
  | None => throw CatalogCheck
  | Some cols =>
      modify (addColumnInfo (mkColumnInfo db_id table_id (Z.of_nat (size cols) + 1) "rowid" (IntegerTy 8 true) true))
  end.

(** The entries of the columns of a table are erased one by one; the empty index stays. *)
Definition erase_column (ref : Z * Z) (c : Catalog) (ci : ColumnInfo) : Catalog :=
  set_columns (delete (ci_db_id ci, ci_table_id ci, ci_column_id ci) (column_infos_ c))
    (alter (delete (ci_name ci)) ref (column_index_by_name_ c)) c.

Definition SchemaProvider_dropTable (db_id table_id : Z) : CM unit :=
  let! tinfo := gets (getTableInfo db_id table_id) in
  match tinfo with
  | None => throw CatalogCheck
  | Some tinfo =>
      let! col_infos := listColumnsNoLock (ti_db_id tinfo) (ti_table_id tinfo) in
      do! modify (fun c => set_tables (delete (ti_db_id tinfo, ti_table_id tinfo) (table_infos_ c))
                             (table_index_by_name_ c) c) in
      let! names := gets (fun c => table_index_by_name_ c !! db_id) in
      match names with
      | None => throw OutOfRange
      | Some names =>
          do! modify (fun c => set_tables (table_infos_ c)
                                 (<[db_id := delete (ti_name tinfo) names]> (table_index_by_name_ c)) c) in
          modify (fun c => fold_left (erase_column (ti_db_id tinfo, ti_table_id tinfo)) col_infos c)
      end
  end.

(** ** Tables of a storage *)

Definition MAX_DB_ID : Z := 2 ^ 24 - 1.
Definition MAX_SCHEMA_ID : Z := 2 ^ 7 - 1.
Definition getSchemaId (db_id : Z) : Z := Z.shiftr db_id 24.
Definition addSchemaId (db_id schema_id : Z) : Z := Z.lor db_id (Z.shiftl schema_id 24).
Definition addSchemaIdChecked (db_id schema_id : Z) : CM Z :=
  do! check_that ((0 <=? db_id) && (db_id <=? MAX_DB_ID)) in
  do! check_that ((0 <=? schema_id) && (schema_id <=? MAX_SCHEMA_ID)) in
  ret (addSchemaId db_id schema_id).

Record ColumnDescription := mkColumnDescription { cd_name : string; cd_type : SchemaType }.

Section Tables.
Variable db_id_ : Z.
Definition schema_id_ : Z := getSchemaId db_id_.

(** The check of a column: its name is not empty, not reserved and not used before, and its type has
    a case in the switch; the dictionary of a column that is not an array exists. *)
Definition check_column (c : Catalog) (col_names : list string) (col : ColumnDescription) : result CatalogError unit :=
  if decide (cd_name col = "") then Err EmptyColumnName
  else if decide (cd_name col = "rowid") then Err ReservedName
  else if decide (cd_name col ∈ col_names) then Err DuplicatedName
  else match cd_type col with
       | ExtDictionaryTy _ dict_id _ =>
           if (0 <? dict_id) && negb (bool_decide (is_Some (dicts_ c !! dict_id))) then Err UnknownDictionary else Ok tt
       | NullTy | ColumnTy _ _ => Err UnsupportedType
       | _ => Ok tt
       end.

Fixpoint check_columns (c : Catalog) (col_names : list string) (columns : list ColumnDescription)
    : result CatalogError unit :=
  match columns with
  | [] => Ok tt
  | col :: columns' =>
      match check_column c col_names col with
      | Ok _ => check_columns c (cd_name col :: col_names) columns'
      | Err e => Err e
      end
  end.

Definition checkNewTableParams (table_name : string) (columns : list ColumnDescription) : CM unit :=
  match columns with
  | [] => throw NoColumns
  | _ =>
      if decide (table_name = "") then throw EmptyTableName
      else
        let! tinfo := gets (getTableInfo_by_name db_id_ table_name) in
        match tinfo with
        | Some _ => throw TableExists
        | None => fun c => lift_result (check_columns c [] columns) c
        end
  end.

(** A new dictionary for a column; [emplace] does not replace. *)
Definition add_dictionary (table_name col_name : string) : CM Z :=
  let! next := gets next_dict_id_ in
  if MAX_DB_ID <? next then throw DictLimit
  else
    do! modify (fun c => set_dicts (next + 1) (dicts_ c) c) in
    let! dict_id := addSchemaIdChecked next schema_id_ in
    let dict_desc := mkDictDescriptor dict_id col_name (String.append table_name (String.append "." col_name)) in
    do! modify (fun c => set_dicts (next_dict_id_ c)
                           (match dicts_ c !! dict_id with
                            | Some _ => dicts_ c | None => <[dict_id := dict_desc]> (dicts_ c) end) c) in
    ret dict_id.

(** The id of the dictionary of a column.  A positive id is that of an existing dictionary; columns
    of one table with the same negative id share a new one. *)
Definition dict_of_column (table_name col_name : string) (sharing_id : Z) (dict_ids : gmap Z Z) : CM (Z * gmap Z Z) :=
  match (if sharing_id <? 0 then dict_ids !! sharing_id else None) with
  | Some dict_id => ret (dict_id, dict_ids)
  | None =>
      if sharing_id <=? 0 then
        let! dict_id := add_dictionary table_name col_name in
        ret (dict_id, if sharing_id <? 0 then <[sharing_id := dict_id]> dict_ids else dict_ids)
      else ret (sharing_id, dict_ids)
  end.

Definition with_elem (type elem_type : SchemaType) : SchemaType :=
  match type with
  | FixedLenArrayTy numElems _ n => FixedLenArrayTy numElems elem_type n
  | VarLenArrayTy _ offsetSize n => VarLenArrayTy elem_type offsetSize n
  | _ => elem_type
  end.

Definition column_type (table_name : string) (col : ColumnDescription) (dict_ids : gmap Z Z)
    : CM (SchemaType * gmap Z Z) :=
  match col_elem_type (cd_type col) with
  | ExtDictionaryTy e sharing_id size =>
      let! '(dict_id, dict_ids) := dict_of_column table_name (cd_name col) sharing_id dict_ids in
      ret (with_elem (cd_type col) (ExtDictionaryTy e dict_id size), dict_ids)
  | _ => ret (cd_type col, dict_ids)
  end.

Fixpoint add_columns (table_id : Z) (table_name : string) (next_col_id : Z) (dict_ids : gmap Z Z)
    (columns : list ColumnDescription) : CM unit :=
  match columns with
  | [] => ret tt
  | col :: columns' =>
      let! '(type, dict_ids) := column_type table_name col dict_ids in
      do! modify (addColumnInfo (mkColumnInfo db_id_ table_id next_col_id (cd_name col) type false)) in
      add_columns table_id table_name (next_col_id + 1) dict_ids columns'
  end.

Fixpoint schema_fields (columns : list ColumnDescription) : result CatalogError (list (string * ArrowDataType * bool)) :=
  match columns with
  | [] => Ok []
  | col :: columns' =>
      match getArrowImportType (cd_type col), schema_fields columns' with
      | Ok t, Ok fields => Ok ((cd_name col, t, ty_nullable (cd_type col)) :: fields)
      | Err e, _ => Err e
      | _, Err e => Err e
      end
  end.

Definition createTable (table_name : string) (columns : list ColumnDescription) (fragment_size : nat) : CM TableInfo :=
  let! table_id := gets next_table_id_ in
  do! (if table_id =? INT32_MAX then throw IdOverflow else modify (set_next_table (table_id + 1))) in
  do! checkNewTableParams table_name columns in
  let res := mkTableInfo db_id_ table_id table_name 0 in
  do! modify (addTableInfo res) in
  do! add_columns table_id table_name 1 ∅ columns in
  do! addRowidColumn db_id_ table_id in
  let! schema := lift_result (schema_fields columns) in
  let! tables := gets tables_ in
  match tables !! table_id with
  | Some _ => throw CatalogCheck
  | None =>
      do! modify (set_data (<[table_id := mkTableEntry fragment_size schema]> tables)) in
      ret res
  end.

(** The dictionaries of columns that are not arrays. *)
Definition column_dict (ci : ColumnInfo) : option Z :=
  match ci_type ci with ExtDictionaryTy _ dict_id _ => Some dict_id | _ => None end.

Definition dropTable (table_id : Z) (throw_if_not_exist : bool) : CM unit :=
  let! table := gets (fun c => tables_ c !! table_id) in
  match table with
  | None => if throw_if_not_exist then throw UnknownTable else throw OutOfRange
  | Some _ =>
      do! modify (fun c => set_data (delete table_id (tables_ c)) c) in
      let! col_infos := listColumnsNoLock db_id_ table_id in
      let dicts_to_remove : gset Z := list_to_set (omap column_dict col_infos) in
      do! SchemaProvider_dropTable db_id_ table_id in
      modify (fun c =>
        let used : gset Z := list_to_set (omap (fun pr => column_dict (snd pr)) (map_to_list (column_infos_ c))) in
        set_dicts (next_dict_id_ c) (filter (fun d => fst d ∉ dicts_to_remove ∖ used) (dicts_ c)) c)
  end.

Definition dropTable_by_name (table_name : string) (throw_if_not_exist : bool) : CM unit :=
  let! tinfo := gets (getTableInfo_by_name db_id_ table_name) in
  match tinfo with
  | None => if throw_if_not_exist then throw UnknownTable else ret tt
  | Some tinfo => dropTable (ti_table_id tinfo) false
  end.

(** The last statement of [appendArrowTable]: the object is the one both indices point to. *)
Definition set_fragments (table_id : Z) (fragments : nat) : CM unit :=
  let! tinfo := gets (getTableInfo db_id_ table_id) in
  match tinfo with
  | None => throw OutOfRange  (* a null pointer *)
  | Some ti => modify (addTableInfo (mkTableInfo (ti_db_id ti) (ti_table_id ti) (ti_name ti) fragments))
  end.

(** ** The indices agree *)

Lemma add_table_by_name ti c db n :
  getTableInfo_by_name db n (addTableInfo ti c)
  = if decide ((ti_db_id ti, ti_name ti) = (db, n)) then Some ti else getTableInfo_by_name db n c.
Proof.
  unfold getTableInfo_by_name, addTableInfo. cbn. destruct (decide (ti_db_id ti = db)) as [->|Hd].
  - rewrite lookup_insert_eq. cbn. destruct (decide (ti_name ti = n)) as [->|Hn].
    + rewrite lookup_insert_eq. by rewrite decide_True.
    + rewrite lookup_insert_ne, decide_False by congruence. by destruct (table_index_by_name_ c !! db).
  - by rewrite lookup_insert_ne, decide_False by congruence.
Qed.

Lemma add_table_by_id ti c db t :
  getTableInfo db t (addTableInfo ti c)
  = if decide ((ti_db_id ti, ti_table_id ti) = (db, t)) then Some ti else getTableInfo db t c.
Proof. apply lookup_insert. Qed.

Lemma add_column_by_name ci c db t n :
  getColumnInfo_by_name db t n (addColumnInfo ci c)
  = if decide ((ci_db_id ci, ci_table_id ci, ci_name ci) = (db, t, n)) then Some ci
    else getColumnInfo_by_name db t n c.
Proof.
  unfold getColumnInfo_by_name, addColumnInfo. cbn.
  destruct (decide ((ci_db_id ci, ci_table_id ci) = (db, t))) as [->|Hd].
  - rewrite lookup_insert_eq. cbn. destruct (decide (ci_name ci = n)) as [->|Hn].
    + rewrite lookup_insert_eq. by rewrite decide_True.
    + rewrite lookup_insert_ne, decide_False by congruence. by destruct (column_index_by_name_ c !! (db, t)).
  - by rewrite lookup_insert_ne, decide_False by congruence.
Qed.

Lemma add_column_by_id ci c db t i :
  getColumnInfo db t i (addColumnInfo ci c)
  = if decide ((ci_db_id ci, ci_table_id ci, ci_column_id ci) = (db, t, i)) then Some ci else getColumnInfo db t i c.
Proof. apply lookup_insert. Qed.

(** What holds of every catalogue: the two indices of the tables have the same entries, and so have those of the
    columns; ids are below the counters; the rows are those of tables of the catalogue; and the
    dictionary of every column that is not an array exists. *)
Record catalog_ok (c : Catalog) : Prop := mkCatalogOk {
  co_table : forall db t ti, getTableInfo db t c = Some ti ->
    ti_db_id ti = db /\ ti_table_id ti = t /\ db = db_id_ /\ t < next_table_id_ c /\
    getTableInfo_by_name db (ti_name ti) c = Some ti;
  co_name : forall db n ti, getTableInfo_by_name db n c = Some ti ->
    ti_name ti = n /\ ti_db_id ti = db /\ getTableInfo db (ti_table_id ti) c = Some ti;
  co_column : forall db t i ci, getColumnInfo db t i c = Some ci ->
    (ci_db_id ci, ci_table_id ci, ci_column_id ci) = (db, t, i) /\ is_Some (getTableInfo db t c) /\
    getColumnInfo_by_name db t (ci_name ci) c = Some ci;
  co_col_name : forall db t n ci, getColumnInfo_by_name db t n c = Some ci ->
    (ci_db_id ci, ci_table_id ci, ci_name ci) = (db, t, n) /\ getColumnInfo db t (ci_column_id ci) c = Some ci;
  co_index : forall db t, is_Some (column_index_by_name_ c !! (db, t)) -> t < next_table_id_ c;
  co_next : 1 <= next_dict_id_ c <= MAX_DB_ID + 1;
  co_dict : forall d, is_Some (dicts_ c !! d) -> exists k, 1 <= k < next_dict_id_ c /\ d = addSchemaId k schema_id_;
  co_used : forall db t i ci d, getColumnInfo db t i c = Some ci -> column_dict ci = Some d -> is_Some (dicts_ c !! d);
  co_data : forall t, is_Some (tables_ c !! t) ->
    is_Some (getTableInfo db_id_ t c) /\ is_Some (column_index_by_name_ c !! (db_id_, t));
}.

Lemma newCatalog_ok : catalog_ok newCatalog.
Proof.
  split; unfold getTableInfo, getTableInfo_by_name, getColumnInfo, getColumnInfo_by_name; cbn.
  all: intros; repeat match goal with
       | H : context [∅ !! _] |- _ => rewrite lookup_empty in H; cbn in H
       | H : is_Some None |- _ => by destruct H
       end; done.
Qed.

(** A number that no table has. *)
Lemma fresh_table c t : catalog_ok c -> next_table_id_ c <= t ->
  (forall db, getTableInfo db t c = None) /\ (forall db i, getColumnInfo db t i c = None) /\
  (forall db, column_index_by_name_ c !! (db, t) = None) /\ tables_ c !! t = None.
Proof.
  intros OK Ht. assert (Ht0 : forall db, getTableInfo db t c = None).
  { intros db. destruct (getTableInfo db t c) as [ti|] eqn:E; [|done]. apply (co_table _ OK) in E. lia. }
  split; [done|]. split; [|split].
  - intros db i. destruct (getColumnInfo db t i c) as [ci|] eqn:E; [|done].
    destruct (co_column _ OK _ _ _ _ E) as (_ & [? S] & _). by rewrite Ht0 in S.
  - intros db. destruct (column_index_by_name_ c !! (db, t)) eqn:E; [|done].
    assert (t < next_table_id_ c) by (eapply (co_index _ OK); by rewrite E). lia.
  - destruct (tables_ c !! t) eqn:E; [|done]. destruct (co_data _ OK t) as [[? S] _]; [by rewrite E|]. by rewrite Ht0 in S.
Qed.

Lemma set_next_ok c n : catalog_ok c -> next_table_id_ c <= n -> catalog_ok (set_next_table n c).
Proof.
  intros [T N C CN I D DD U A] Hn. split; try done.
  - intros db t ti E. destruct (T db t ti E) as (? & ? & ? & ? & ?). cbn. repeat split; try done. lia.
  - intros db t S. specialize (I db t S). cbn. lia.
Qed.

Lemma add_table_ok c name n : catalog_ok c -> getTableInfo_by_name db_id_ name c = None ->
  catalog_ok (addTableInfo (mkTableInfo db_id_ (next_table_id_ c) name n) (set_next_table (next_table_id_ c + 1) c)).
Proof.
  intros OK Hname. destruct (fresh_table c _ OK (Z.le_refl _)) as (F1 & F2 & F3 & F4).
  destruct (set_next_ok c (next_table_id_ c + 1) OK) as [T N C CN I D DD U A]; [lia|].
  set (c1 := set_next_table _ c) in *. assert (F1' : forall db, getTableInfo db (next_table_id_ c) c1 = None) by exact F1.
  assert (Grow : forall db t, is_Some (getTableInfo db t c1) ->
    is_Some (getTableInfo db t (addTableInfo (mkTableInfo db_id_ (next_table_id_ c) name n) c1))).
  { intros db t S. rewrite add_table_by_id. by destruct (decide _). }
  split; try done.
  - intros db t ti. rewrite add_table_by_id. cbn [ti_db_id ti_table_id]. destruct (decide _) as [[= <- <-]|_].
    + intros [= <-]. rewrite add_table_by_name, decide_True by done. cbn. repeat split. lia.
    + intros E. destruct (T db t ti E) as (E1 & E2 & E3 & E4 & E5). rewrite add_table_by_name.
      rewrite decide_False; [done|]. cbn. intros [= <- E6]. subst name.
      change (getTableInfo_by_name db_id_ (ti_name ti) c = Some ti) in E5. congruence.
  - intros db m ti. rewrite add_table_by_name. cbn [ti_db_id ti_name]. destruct (decide _) as [[= <- <-]|_].
    + intros [= <-]. by rewrite add_table_by_id, decide_True.
    + intros E. destruct (N db m ti E) as (E1 & E2 & E3). rewrite add_table_by_id.
      rewrite decide_False; [done|]. cbn. intros [= _ E4]. by rewrite <- E4, F1' in E3.
  - intros db t i ci E. destruct (C db t i ci E) as (E1 & E2 & E3). auto.
  - intros t S. destruct (A t S). auto.
Qed.

(** [fragments] of a table changes. *)
Lemma update_table_ok c ti n : catalog_ok c -> getTableInfo db_id_ (ti_table_id ti) c = Some ti ->
  catalog_ok (addTableInfo (mkTableInfo (ti_db_id ti) (ti_table_id ti) (ti_name ti) n) c).
Proof.
  intros [T N C CN I D DD U A] E0. destruct (T _ _ _ E0) as (H1 & _ & _ & H2 & H3). rewrite H1 in *.
  assert (Grow : forall db t, is_Some (getTableInfo db t c) ->
    is_Some (getTableInfo db t (addTableInfo (mkTableInfo db_id_ (ti_table_id ti) (ti_name ti) n) c))).
  { intros db t S. rewrite add_table_by_id. by destruct (decide _). }
  split; try done.
  - intros db t ti'. rewrite add_table_by_id. cbn [ti_db_id ti_table_id]. destruct (decide _) as [[= <- <-]|Hn].
    + intros [= <-]. by rewrite add_table_by_name, decide_True.
    + intros E. destruct (T db t ti' E) as (E1 & E2 & E3 & E4 & E5). rewrite add_table_by_name.
      rewrite decide_False; [done|]. cbn. intros [= E6 E7]. apply Hn.
      rewrite <- E6, <- E7, H3 in E5. injection E5 as <-. congruence.
  - intros db m ti'. rewrite add_table_by_name. cbn [ti_db_id ti_name]. destruct (decide _) as [[= <- <-]|Hn].
    + intros [= <-]. by rewrite add_table_by_id, decide_True.
    + intros E. destruct (N db m ti' E) as (E1 & E2 & E3). rewrite add_table_by_id.
      rewrite decide_False; [done|]. cbn. intros [= E4 E5]. apply Hn.
      rewrite <- E4, <- E5, E0 in E3. injection E3 as <-. congruence.
  - intros db t i ci E. destruct (C db t i ci E) as (E1 & E2 & E3). auto.
  - intros t S. destruct (A t S). auto.
Qed.

Lemma add_column_ok c ci : catalog_ok c ->
  is_Some (getTableInfo (ci_db_id ci) (ci_table_id ci) c) ->
  getColumnInfo (ci_db_id ci) (ci_table_id ci) (ci_column_id ci) c = None ->
  getColumnInfo_by_name (ci_db_id ci) (ci_table_id ci) (ci_name ci) c = None ->
  (forall d, column_dict ci = Some d -> is_Some (dicts_ c !! d)) ->
  catalog_ok (addColumnInfo ci c).
Proof.
  intros [T N C CN I D DD U A] Ht Hi Hn Hd. split; try done.
  - intros db t i ci'. rewrite add_column_by_id. destruct (decide _) as [[= <- <- <-]|Hne].
    + intros [= <-]. by rewrite add_column_by_name, decide_True.
    + intros E. destruct (C db t i ci' E) as (E1 & E2 & E3). split; [done|]. split; [done|].
      rewrite add_column_by_name, decide_False; [done|]. intros [= E4 E5 E6].
      by rewrite <- E4, <- E5, <- E6, Hn in E3.
  - intros db t m ci'. rewrite add_column_by_name. destruct (decide _) as [[= <- <- <-]|Hne].
    + intros [= <-]. by rewrite add_column_by_id, decide_True.
    + intros E. destruct (CN db t m ci' E) as (E1 & E2). split; [done|].
      rewrite add_column_by_id, decide_False; [done|]. intros [= E4 E5 E6].
      by rewrite <- E4, <- E5, <- E6, Hi in E2.
  - intros db t. cbn. destruct (decide ((ci_db_id ci, ci_table_id ci) = (db, t))) as [[= <- <-]|Hne].
    + intros _. destruct Ht as [ti E]. destruct (T _ _ _ E) as (_ & _ & _ & ? & _). done.
    + rewrite lookup_insert_ne by done. apply I.
  - intros db t i ci' d. rewrite add_column_by_id. destruct (decide _); [intros [= <-]; apply Hd|]. apply U.
  - intros t S. destruct (A t S) as [S1 S2]. split; [done|]. cbn. rewrite lookup_insert_is_Some.
    destruct (decide ((ci_db_id ci, ci_table_id ci) = (db_id_, t))); [by left | by right].
Qed.

(** ** Dictionaries *)

Lemma addSchemaId_low k s : 0 <= k <= MAX_DB_ID -> Z.land (addSchemaId k s) (Z.ones 24) = k.
Proof.
  intros Hk. unfold addSchemaId, MAX_DB_ID in *. rewrite Z.land_lor_distr_l, !Z.land_ones, Z.shiftl_mul_pow2 by lia.
  rewrite Z.mod_small by lia. rewrite Z.mod_mul by lia. apply Z.lor_0_r.
Qed.

Lemma addSchemaId_inj k k' s : 0 <= k <= MAX_DB_ID -> 0 <= k' <= MAX_DB_ID -> addSchemaId k s = addSchemaId k' s -> k = k'.
Proof. intros H1 H2 E. rewrite <- (addSchemaId_low k s H1), E. by apply addSchemaId_low. Qed.

Lemma set_dicts_ok c n ds : catalog_ok c -> dicts_ c ⊆ ds -> next_dict_id_ c <= n <= MAX_DB_ID + 1 ->
  (forall d, is_Some (ds !! d) -> exists k, 1 <= k < n /\ d = addSchemaId k schema_id_) ->
  catalog_ok (set_dicts n ds c).
Proof.
  intros [T N C CN I D DD U A] Hs Hn Hd. split; try done; cbn; [lia|].
  intros db t i ci d E Ed. destruct (U db t i ci d E Ed) as [x Ex]. exists x. by eapply lookup_weaken.
Qed.

(** Everything but the dictionaries stays, and no dictionary goes. *)
Definition more_dicts (c c' : Catalog) : Prop := exists n ds, c' = set_dicts n ds c /\ dicts_ c ⊆ ds.

Lemma more_dicts_refl c : more_dicts c c.
Proof. exists (next_dict_id_ c), (dicts_ c). by destruct c. Qed.

Lemma more_dicts_trans c1 c2 c3 : more_dicts c1 c2 -> more_dicts c2 c3 -> more_dicts c1 c3.
Proof. intros (n & ds & -> & H1) (n' & ds' & -> & H2). exists n', ds'. split; [done|]. by etrans. Qed.

(** The three ways to the dictionary of a column: it exists, it is shared with an earlier column, or it is new. *)
Inductive dict_choice (c c' : Catalog) (s : Z) (ids : gmap Z Z) : Z -> gmap Z Z -> Prop :=
| given_dict : 0 < s -> c' = c -> dict_choice c c' s ids s ids
| shared_dict d : s < 0 -> ids !! s = Some d -> c' = c -> dict_choice c c' s ids d ids
| new_dict d : s <= 0 -> (s < 0 -> ids !! s = None) -> dicts_ c !! d = None -> is_Some (dicts_ c' !! d) ->
    dict_choice c c' s ids d (if s <? 0 then <[s := d]> ids else ids).

Lemma add_dictionary_spec tn cn c r c' : catalog_ok c -> add_dictionary tn cn c = (r, c') ->
  catalog_ok c' /\ more_dicts c c' /\
  match r with
  | Ok d => dicts_ c !! d = None /\ is_Some (dicts_ c' !! d)
  | Err e => e = DictLimit \/ e = CatalogCheck
  end.
Proof.
  intros OK E. pose proof (co_next _ OK) as Hnext. unfold add_dictionary, bind, gets in E.
  destruct (Z.ltb_spec MAX_DB_ID (next_dict_id_ c)) as [|Hl].
  { injection E as <- <-. split; [done|]. split; [apply more_dicts_refl | by left]. }
  set (next := next_dict_id_ c) in *. set (d := addSchemaId next schema_id_) in *. unfold modify in E.
  assert (OK1 : catalog_ok (set_dicts (next + 1) (dicts_ c) c)).
  { apply set_dicts_ok; try done; [lia|]. intros d' S. destruct (co_dict _ OK d' S) as (k & ? & ?). exists k. split;
      [lia | done]. }
  assert (Fresh : dicts_ c !! d = None).
  { destruct (dicts_ c !! d) eqn:Ed; [|done]. destruct (co_dict _ OK d) as (k & Hk & E'); [by rewrite Ed|].
    apply addSchemaId_inj in E'; unfold next in *; lia. }
  unfold addSchemaIdChecked, check_that, bind, ret, throw in E. destruct (_ && _); [|injection E as <- <-].
  2:{ split; [done|]. split; [by eexists _, _ | by right]. }
  destruct (_ && _); [|injection E as <- <-; split; [done|]; split; [by eexists _, _ | by right]].
  cbn [dicts_ set_dicts] in E. fold d in E. rewrite Fresh in E. injection E as <- <-.
  split; [|split; [|split; [done|]; cbn; by rewrite lookup_insert_eq]].
  - apply (set_dicts_ok (set_dicts (next + 1) (dicts_ c) c) (next + 1)); try done; cbn; [by apply insert_subseteq | lia |].
    intros d' S. apply lookup_insert_is_Some' in S as [<-|S]; [exists next; split; [lia | done]|].
    destruct (co_dict _ OK d' S) as (k & ? & ?). exists k. split; [lia | done].
  - eexists _, _. split; [done|]. by apply insert_subseteq.
Qed.

Lemma dict_of_column_spec tn cn s ids c r c' : catalog_ok c -> dict_of_column tn cn s ids c = (r, c') ->
  catalog_ok c' /\ more_dicts c c' /\
  match r with
  | Ok (d, ids') => dict_choice c c' s ids d ids'
  | Err e => e = DictLimit \/ e = CatalogCheck
  end.
Proof.
  intros OK E. unfold dict_of_column in E. pose proof (more_dicts_refl c) as Refl.
  destruct (if s <? 0 then ids !! s else None) as [d|] eqn:Ei.
  { injection E as <- <-. split; [done|]. split; [done|]. destruct (Z.ltb_spec s 0); [by apply shared_dict | done]. }
  destruct (Z.leb_spec s 0) as [Hs|Hs]; [|injection E as <- <-; split; [done|]; split; [done|]; by apply given_dict].
  unfold bind in E. destruct (add_dictionary tn cn c) as [r1 c1] eqn:E1.
  destruct (add_dictionary_spec _ _ _ _ _ OK E1) as (OK1 & More & Hr).
  destruct r1 as [d|e]; injection E as <- <-; split; try done; split; try done.
  destruct Hr. apply new_dict; try done. intros Hneg. by replace (s <? 0) with true in Ei by lia.
Qed.

(** ** Columns of a new table *)

(** The dictionary of the values, or of the elements of an array. *)
Definition elem_dict (type : SchemaType) : option Z :=
  match col_elem_type type with ExtDictionaryTy _ d _ => Some d | _ => None end.

(** The type of a column, but for the dictionary. *)
Definition with_dict (type : SchemaType) (d : Z) : SchemaType :=
  match col_elem_type type with ExtDictionaryTy e _ size => with_elem type (ExtDictionaryTy e d size) | _ => type end.

Inductive column_choice (c c1 : Catalog) (type : SchemaType) (ids : gmap Z Z) : SchemaType -> gmap Z Z -> Prop :=
| no_dict : elem_dict type = None -> c1 = c -> column_choice c c1 type ids type ids
| some_dict s d ids1 : elem_dict type = Some s -> dict_choice c c1 s ids d ids1 ->
    column_choice c c1 type ids (with_dict type d) ids1.

Lemma column_type_spec tn col ids c r c' : catalog_ok c -> column_type tn col ids c = (r, c') ->
  catalog_ok c' /\ more_dicts c c' /\
  match r with
  | Ok (type, ids') => column_choice c c' (cd_type col) ids type ids'
  | Err e => e = DictLimit \/ e = CatalogCheck
  end.
Proof.
  intros OK E. unfold column_type in E. pose proof (more_dicts_refl c) as Refl.
  assert (None_ : elem_dict (cd_type col) = None -> (r, c') = (Ok (cd_type col, ids), c) -> catalog_ok c' /\
    more_dicts c c' /\
    match r with Ok (type, ids') => column_choice c c' (cd_type col)
      ids type ids' | Err e => e = DictLimit \/ e = CatalogCheck end).
  { intros He [= -> ->]. split; [done|]. split; [done|]. by apply no_dict. }
  unfold elem_dict in None_. destruct (col_elem_type (cd_type col)) as [| | | | | | | | | | | | | |e s size|] eqn:Ee;
    try (by apply None_; [done | rewrite <- E]).
  unfold bind in E. destruct (dict_of_column tn (cd_name col) s ids c) as [r1 c1] eqn:E1.
  destruct (dict_of_column_spec _ _ _ _ _ _ _ OK E1) as (OK1 & More & Hr).
  destruct r1 as [[d ids1]|e1]; injection E as <- <-; split; try done; split; try done.
  replace (with_elem (cd_type col) (ExtDictionaryTy e d size)) with (with_dict (cd_type col) d)
    by (unfold with_dict; by rewrite Ee).
  apply (some_dict _ _ _ _ s); [unfold elem_dict; by rewrite Ee | done].
Qed.

(** What the loop over the columns rests on: the table is in the catalogue, the next column id and the
    names of the columns to come are free, and the dictionaries it may take exist. *)
Record columns_ready (t i : Z) (ids : gmap Z Z) (cols : list ColumnDescription) (c : Catalog) : Prop := mkReady {
  cr_ok : catalog_ok c;
  cr_table : is_Some (getTableInfo db_id_ t c);
  cr_ids : forall j, i <= j -> getColumnInfo db_id_ t j c = None;
  cr_names : forall col, In col cols -> getColumnInfo_by_name db_id_ t (cd_name col) c = None;
  cr_nodup : List.NoDup (map cd_name cols);
  cr_shared : forall s d, ids !! s = Some d -> is_Some (dicts_ c !! d);
  cr_inj : forall s s' d, ids !! s = Some d -> ids !! s' = Some d -> s = s';
  cr_given : forall col e s z, In col cols -> cd_type col = ExtDictionaryTy e s z -> 0 < s -> is_Some (dicts_ c !! s);
}.

Lemma choice_dict c c1 s ids d ids1 : dict_choice c c1 s ids d ids1 -> more_dicts c c1 ->
  (forall s d, ids !! s = Some d -> is_Some (dicts_ c !! d)) ->
  (forall s s' d, ids !! s = Some d -> ids !! s' = Some d -> s = s') ->
  (s <= 0 -> is_Some (dicts_ c1 !! d)) /\
  (forall s d, ids1 !! s = Some d -> is_Some (dicts_ c1 !! d)) /\
  (forall s s' d, ids1 !! s = Some d -> ids1 !! s' = Some d -> s = s').
Proof.
  intros H (n & ds & E1 & Hs) Hd Hi.
  assert (Mono : forall d, is_Some (dicts_ c !! d) -> is_Some (dicts_ c1 !! d)).
  { rewrite E1. intros d' [x Ex]. exists x. by eapply lookup_weaken. }
  destruct H as [H0 ->|d H0 Hl ->|d H0 Hn Hf Hnew].
  - split; [lia|]. auto.
  - split; [eauto|]. auto.
  - split; [done|]. destruct (Z.ltb_spec s 0) as [Hneg|]; [|eauto]. split.
    + intros s' d' [[<- <-]|[_ E]]%lookup_insert_Some; eauto.
    + intros s1 s2 d' [[<- <-]|[N1 L1]]%lookup_insert_Some [[<- E']|[N2 L2]]%lookup_insert_Some; eauto.
      * destruct (Hd _ _ L2) as [x Ex]. by rewrite Hf in Ex.
      * subst d'. destruct (Hd _ _ L1) as [x Ex]. by rewrite Hf in Ex.
Qed.

Definition new_column (t i : Z) (col : ColumnDescription) (type : SchemaType) : ColumnInfo :=
  mkColumnInfo db_id_ t i (cd_name col) type false.

Lemma columns_step t i ids col cols c c1 type ids1 :
  columns_ready t i ids (col :: cols) c -> catalog_ok c1 -> more_dicts c c1 ->
  column_choice c c1 (cd_type col) ids type ids1 ->
  columns_ready t (i + 1) ids1 cols (addColumnInfo (new_column t i col type) c1).
Proof.
  intros [OK T I N ND S J G] OK1 More Ch. inversion ND as [|? ? Hnot ND']; subst.
  assert (Hids : (forall d, column_dict (new_column t i col type) = Some d -> is_Some (dicts_ c1 !! d)) /\
    (forall s d, ids1 !! s = Some d -> is_Some (dicts_ c1 !! d)) /\
    (forall s s' d, ids1 !! s = Some d -> ids1 !! s' = Some d -> s = s')).
  { destruct Ch as [He E1|s d ids1 He Ch].
    - split; [|subst c1; auto]. unfold column_dict, elem_dict in *. cbn.
      destruct (cd_type col) eqn:E; try done.
    - destruct (choice_dict _ _ _ _ _ _ Ch More S J) as (H1 & H2 & H3). split; [|done].
      unfold column_dict, elem_dict, with_dict in *. cbn. destruct (cd_type col)
        as [| | | | | | | | | | | |n e n'|e n n'|e s' z|] eqn:E;
        try done; cbn in *; [by destruct e | by destruct e|]. injection He as ->. intros d' [= <-].
      destruct Ch as [Hp ->|d Hp _ _|d Hp _ _ _]; [eapply G; [by left | done | done] | apply H1; lia | apply H1; lia]. }
  destruct Hids as (Hd & Hs & Hj). destruct More as (n & ds & -> & Hsub).
  split; try done.
  - apply add_column_ok; try done.
    + apply I. cbn. lia.
    + apply N. by left.
  - intros j Hij. rewrite add_column_by_id, decide_False; [apply I; lia|]. cbn. intros [=]. lia.
  - intros col' Hin. rewrite add_column_by_name, decide_False; [apply N; by right|]. cbn. intros [= E].
    apply Hnot. rewrite E. by apply in_map.
  - intros col' e s z Hin E Hp. destruct (G col' e s z (or_intror Hin) E Hp) as [x Ex]. exists x. by eapply lookup_weaken.
Qed.

(** What a new table leaves as it is. *)
Record others_kept (t : Z) (c c' : Catalog) : Prop := mkKept {
  kp_tables : table_infos_ c' = table_infos_ c;
  kp_names : table_index_by_name_ c' = table_index_by_name_ c;
  kp_next : next_table_id_ c' = next_table_id_ c;
  kp_data : tables_ c' = tables_ c;
  kp_dicts : dicts_ c ⊆ dicts_ c';
  kp_columns : forall db t' i, t' <> t -> getColumnInfo db t' i c' = getColumnInfo db t' i c;
  kp_col_names : forall db t' n, t' <> t -> getColumnInfo_by_name db t' n c' = getColumnInfo_by_name db t' n c;
}.

Lemma kept_refl t c : others_kept t c c.
Proof. by split. Qed.
Lemma kept_trans t c1 c2 c3 : others_kept t c1 c2 -> others_kept t c2 c3 -> others_kept t c1 c3.
Proof.
  intros [A1 A2 A3 A4 A5 A6 A7] [B1 B2 B3 B4 B5 B6 B7]. split; try congruence; [by etrans | |].
  - intros db t' i Hn. by rewrite B6, A6.
  - intros db t' n Hn. by rewrite B7, A7.
Qed.
Lemma kept_dicts t c c' : more_dicts c c' -> others_kept t c c'.
Proof. by intros (n & ds & -> & H). Qed.
Lemma kept_column t c ci : ci_table_id ci = t -> others_kept t c (addColumnInfo ci c).
Proof.
  intros <-. split; try done.
  - intros db t' i Hn. rewrite add_column_by_id, decide_False; [done|]. congruence.
  - intros db t' n Hn. rewrite add_column_by_name, decide_False; [done|]. congruence.
Qed.

(** The columns that the loop adds. *)
Inductive added (t : Z) : Z -> gmap Z Z -> Catalog -> list ColumnDescription -> list ColumnInfo -> Catalog -> Prop :=
| added_nil i ids c : added t i ids c [] [] c
| added_cons i ids c col cols type ids1 c1 infos c' :
    more_dicts c c1 -> column_choice c c1 (cd_type col) ids type ids1 ->
    added t (i + 1) ids1 (addColumnInfo (new_column t i col type) c1) cols infos c' ->
    added t i ids c (col :: cols) (new_column t i col type :: infos) c'.

Lemma add_columns_spec t tn cols : forall i ids c r c',
  columns_ready t i ids cols c -> add_columns t tn i ids cols c = (r, c') ->
  others_kept t c c' /\
  match r with
  | Ok _ => columns_ready t (i + Z.of_nat (length cols)) ∅ [] c' /\ exists infos, added t i ids c cols infos c'
  | Err e => catalog_ok c' /\ (e = DictLimit \/ e = CatalogCheck)
  end.
Proof.
  induction cols as [|col cols IH]; intros i ids c r c' R E; cbn [add_columns] in E.
  - injection E as <- <-. split; [apply kept_refl|]. split; [|exists []; constructor].
    destruct R as [OK T I N ND S J G]. rewrite Z.add_0_r. by split.
  - unfold bind at 1 in E. destruct (column_type tn col ids c) as [r1 c1] eqn:E1.
    destruct (column_type_spec _ _ _ _ _ _ (cr_ok _ _ _ _ _ R) E1) as (OK1 & More & Hr).
    pose proof (kept_dicts t _ _ More) as K1. destruct r1 as [[type ids1]|e]; [|injection E as <- <-; by split].
    pose proof (columns_step _ _ _ _ _ _ _ _ _ R OK1 More Hr) as R1.
    unfold bind, modify in E. destruct (IH _ _ _ _ _ R1 E) as [K2 H2]. split.
    + eapply kept_trans; [exact K1|]. eapply kept_trans; [|exact K2]. by apply kept_column.
    + destruct r as [u|e]; [|done]. destruct H2 as [R2 [infos A]]. split.
      * replace (i + Z.of_nat (length (col :: cols))) with (i + 1 + Z.of_nat (length cols)) by (cbn; lia). done.
      * eexists. econstructor; eassumption.
Qed.

Definition index_of (t : Z) (c : Catalog) : gmap string ColumnInfo := default ∅ (column_index_by_name_ c !! (db_id_, t)).

Lemma by_name_index t n c : getColumnInfo_by_name db_id_ t n c = index_of t c !! n.
Proof. unfold getColumnInfo_by_name, index_of. by destruct (column_index_by_name_ c !! (db_id_, t)). Qed.

Lemma add_column_index t i col type c c1 : more_dicts c c1 ->
  column_index_by_name_ (addColumnInfo (new_column t i col type) c1) !! (db_id_, t)
  = Some (<[cd_name col := new_column t i col type]> (index_of t c)).
Proof. intros (n & ds & -> & _). cbn. by rewrite lookup_insert_eq. Qed.

Lemma added_index t i ids c cols infos c' : added t i ids c cols infos c' ->
  (forall col, In col cols -> getColumnInfo_by_name db_id_ t (cd_name col) c = None) ->
  List.NoDup (map cd_name cols) ->
  size (index_of t c') = (size (index_of t c) + length cols)%nat /\
  (cols <> [] -> is_Some (column_index_by_name_ c' !! (db_id_, t))) /\
  (forall n, is_Some (getColumnInfo_by_name db_id_ t n c') ->
     is_Some (getColumnInfo_by_name db_id_ t n c) \/ In n (map cd_name cols)).
Proof.
  induction 1 as [i ids c|i ids c col cols type ids1 c1 infos c' More Ch A IH]; intros N ND.
  { split; [cbn; lia|]. split; [done | auto]. }
  inversion ND as [|? ? Hnot ND']; subst. set (c2 := addColumnInfo _ c1) in *.
  pose proof (add_column_index t i col type c c1 More) as Ei. fold c2 in Ei.
  assert (Ei' : index_of t c2 = <[cd_name col := new_column t i col type]> (index_of t c)) by (unfold index_of at 1;
    by rewrite Ei).
  destruct IH as (H1 & H2 & H3); [|done|].
  { intros col' Hin. rewrite by_name_index, Ei', lookup_insert_ne, <- by_name_index; [apply N; by right|].
    intros E. apply Hnot. rewrite E. by apply in_map. }
  split; [|split].
  - rewrite H1, Ei', map_size_insert_None; [cbn; lia|]. rewrite <- by_name_index. apply N. by left.
  - intros _. destruct cols; [inversion A; subst; by rewrite Ei | by apply H2].
  - intros n S. destruct (H3 n S) as [S'|Hin]; [|right; by right].
    rewrite by_name_index, Ei' in S'. apply lookup_insert_is_Some' in S' as [<-|S']; [right; by left|].
    left. by rewrite by_name_index.
Qed.

(** ** The checks *)

Lemma check_columns_spec c cols : forall names, check_columns c names cols = Ok tt ->
  List.NoDup (map cd_name cols) /\ (forall col, In col cols -> cd_name col <> "rowid" /\ cd_name col ∉ names) /\
  (forall col e s z, In col cols -> cd_type col = ExtDictionaryTy e s z -> 0 < s -> is_Some (dicts_ c !! s)).
Proof.
  induction cols as [|col cols IH]; intros names E; cbn [check_columns] in E.
  { split; [constructor|]. split; by intros. }
  destruct (check_column c names col) as [u|] eqn:Ec; [|done]. destruct (IH _ E) as (ND & Hn & Hd).
  unfold check_column in Ec. destruct (decide _) as [|_]; [done|]. destruct (decide _) as [|Hr]; [done|].
  destruct (decide _) as [|Hin]; [done|]. split; [|split].
  - cbn. constructor; [|done]. intros [col' [E' Hin']]%in_map_iff. destruct (Hn col' Hin') as [_ Hnot].
    apply Hnot. rewrite E'. by left.
  - intros col' [<-|Hin']; [done|]. destruct (Hn col' Hin') as [? Hnot]. split; [done|]. intros Hin2. apply Hnot. by right.
  - intros col' e s z [<-|Hin'] Et Hp; [|by eapply Hd]. rewrite Et in Ec.
    replace (0 <? s) with true in Ec by lia. cbn in Ec. destruct (bool_decide_reflect (is_Some (dicts_ c !! s))); done.
Qed.

Lemma checkNewTableParams_spec tn cols c r c' : checkNewTableParams tn cols c = (r, c') ->
  c' = c /\ (r = Ok tt -> cols <> [] /\ getTableInfo_by_name db_id_ tn c = None /\ check_columns c [] cols = Ok tt) /\
  (forall e, r = Err e -> e ∈ [NoColumns; EmptyTableName; TableExists; EmptyColumnName; ReservedName; DuplicatedName;
                               UnknownDictionary; UnsupportedType]).
Proof.
  unfold checkNewTableParams. destruct cols as [|col cols].
  { intros [= <- <-]. split; [done|]. split; [done|]. intros e [= <-]. set_solver. }
  destruct (decide _); [intros [= <- <-]; split; [done|]; split; [done|]; intros e0 [= <-]; set_solver|].
  unfold bind, gets. destruct (getTableInfo_by_name db_id_ tn c) eqn:E.
  { intros [= <- <-]. split; [done|]. split; [done|]. intros e0 [= <-]. set_solver. }
  assert (Errs : forall l names e, check_columns c names l = Err e ->
    e ∈ [EmptyColumnName; ReservedName; DuplicatedName; UnknownDictionary; UnsupportedType]).
  { induction l as [|x l IH]; intros names e; cbn [check_columns]; [done|].
    destruct (check_column c names x) as [u|e'] eqn:Ec; [apply IH|]. intros [= ->]. revert Ec. unfold check_column.
    repeat destruct (decide _); try (intros [= <-]; set_solver).
    destruct (cd_type x); try destruct (_ && _); try done; intros [= <-]; set_solver. }
  destruct (check_columns c [] (col :: cols)) as [[]|e] eqn:Ec; intros [= <- <-]; split; try done; split; try done.
  intros e' [= <-]. pose proof (Errs _ _ _ Ec). set_solver.
Qed.

(** ** Creation of a table *)

Lemma schema_fields_err cols e : schema_fields cols = Err e -> e = NotImportable.
Proof.
  assert (Ty : forall t x, getArrowImportType t = Err x -> x = NotImportable).
  { induction t as [| | | | | | | | | | | |k t IH n|t IH k n| |]; intros x; cbn [getArrowImportType]; try congruence.
    - destruct (_ || _); congruence.
    - destruct unit; congruence.
    - destruct t; intros H; cbv match in H; try done; destruct (getArrowImportType _) in H, IH; try done;
        injection H as <-; by apply IH.
    - destruct t; intros H; cbv match in H; try done; destruct (getArrowImportType _) in H, IH; try done;
        injection H as <-; by apply IH. }
  revert e. induction cols as [|col cols IH]; intros e; cbn; [done|].
  destruct (getArrowImportType (cd_type col)) eqn:E; [|intros [= <-]; by eapply Ty].
  destruct (schema_fields cols) as [|e'] eqn:E'; [done|]. intros [= <-]. by apply IH.
Qed.

Lemma check_columns_dicts c c' cols : dicts_ c = dicts_ c' -> forall names,
  check_columns c names cols = check_columns c' names cols.
Proof.
  intros E. induction cols as [|col cols IH]; intros names; [done|]. cbn [check_columns].
  replace (check_column c names col) with (check_column c' names col) by (unfold check_column; by rewrite E).
  destruct (check_column c' names col); [apply IH | done].
Qed.

Definition new_table (c : Catalog) (tn : string) : TableInfo := mkTableInfo db_id_ (next_table_id_ c) tn 0.
Definition with_table (c : Catalog) (tn : string) : Catalog :=
  addTableInfo (new_table c tn) (set_next_table (next_table_id_ c + 1) c).
Definition rowid_column (t : Z) (cols : list ColumnDescription) : ColumnInfo :=
  mkColumnInfo db_id_ t (Z.of_nat (length cols) + 1) "rowid" (IntegerTy 8 true) true.

Lemma with_table_ready c tn cols : catalog_ok c -> getTableInfo_by_name db_id_ tn c = None ->
  check_columns c [] cols = Ok tt -> columns_ready (next_table_id_ c) 1 ∅ cols (with_table c tn).
Proof.
  intros OK Hn Hc. destruct (fresh_table c _ OK (Z.le_refl _)) as (F1 & F2 & F3 & F4).
  destruct (check_columns_spec _ _ _ Hc) as (ND & Hr & Hd). split; try done.
  - by apply add_table_ok.
  - unfold with_table. rewrite add_table_by_id, decide_True; [by eexists | done].
  - intros j _. apply F2.
  - intros col _. unfold getColumnInfo_by_name. cbn. by rewrite F3.
Qed.

(** Where an exception leaves the catalogue. *)
Definition create_failed (tn : string) (c : Catalog) (e : CatalogError) (c' : Catalog) : Prop :=
  (e = IdOverflow /\ c' = c) \/
  (e ∈ [NoColumns; EmptyTableName; TableExists; EmptyColumnName; ReservedName; DuplicatedName;
        UnknownDictionary; UnsupportedType] /\ c' = set_next_table (next_table_id_ c + 1) c) \/
  (e ∈ [DictLimit; NotImportable; CatalogCheck] /\ getTableInfo_by_name db_id_ tn c' = Some (new_table c tn) /\
   tables_ c' !! next_table_id_ c = None).

Definition create_done (tn : string) (cols : list ColumnDescription) (fs : nat) (c : Catalog) (ti : TableInfo)
    (c' : Catalog) : Prop :=
  let t := next_table_id_ c in
  ti = new_table c tn /\ getTableInfo_by_name db_id_ tn c = None /\ check_columns c [] cols = Ok tt /\
  exists infos c1 fields,
    added t 1 ∅ (with_table c tn) cols infos c1 /\ others_kept t (with_table c tn) c1 /\ schema_fields cols = Ok fields /\
    c' = set_data (<[t := mkTableEntry fs fields]> (tables_ c)) (addColumnInfo (rowid_column t cols) c1).

Lemma rowid_added t cols infos c c1 :
  columns_ready t 1 ∅ cols c -> column_index_by_name_ c !! (db_id_, t) = None ->
  (forall col, In col cols -> cd_name col <> "rowid") -> cols <> [] ->
  added t 1 ∅ c cols infos c1 -> columns_ready t (1 + Z.of_nat (length cols)) ∅ [] c1 ->
  addRowidColumn db_id_ t c1 = (Ok tt, addColumnInfo (rowid_column t cols) c1) /\
  catalog_ok (addColumnInfo (rowid_column t cols) c1) /\ is_Some (column_index_by_name_ c1 !! (db_id_, t)).
Proof.
  intros R Hnone Hr Hne A R1. destruct (added_index _ _ _ _ _ _ _ A (cr_names _ _ _ _ _ R) (cr_nodup _ _ _ _ _ R))
    as (Hs & Hi & Hn).
  specialize (Hi Hne). destruct Hi as [idx Ei]. unfold index_of in Hs. rewrite Ei, Hnone in Hs. cbn in Hs.
  rewrite map_size_empty in Hs.
  split; [|split].
  - unfold addRowidColumn, bind, gets, modify. rewrite Ei, Hs. done.
  - destruct R1 as [OK T I _ _ _ _ _]. apply add_column_ok; try done.
    + apply I. cbn. lia.
    + destruct (getColumnInfo_by_name _ _ _ _) as [ci|] eqn:E; [|done]. exfalso. cbn in E.
      destruct (Hn "rowid") as [S|Hin]; [by rewrite E | |].
      * unfold getColumnInfo_by_name in S. rewrite Hnone in S. by destruct S.
      * apply in_map_iff in Hin as (col & E' & Hin). by apply (Hr col Hin).
  - by rewrite Ei.
Qed.

Lemma createTable_spec tn cols fs c r c' : catalog_ok c -> createTable tn cols fs c = (r, c') ->
  catalog_ok c' /\ match r with Ok ti => create_done tn cols fs c ti c' | Err e => create_failed tn c e c' end.
Proof.
  intros OK E. unfold createTable in E. unfold bind at 1, gets at 1 in E. set (t := next_table_id_ c) in *.
  unfold bind at 1 in E. destruct (Z.eqb_spec t INT32_MAX); [injection E as <- <-; split; [done | by left]|].
  unfold modify at 1 in E. set (c0 := set_next_table (t + 1) c) in *.
  assert (OK0 : catalog_ok c0) by (apply set_next_ok; [done | lia]).
  unfold bind at 1 in E. destruct (checkNewTableParams tn cols c0) as [r0 c0'] eqn:E0.
  destruct (checkNewTableParams_spec _ _ _ _ _ E0) as (-> & Hok & Herr).
  destruct r0 as [[]|e]; [|injection E as <- <-; split; [done|]; right; left; split; [by apply Herr | done]].
  destruct (Hok eq_refl) as (Hne & Hname & Hcheck). clear Hok Herr E0.
  rewrite (check_columns_dicts c0 c cols eq_refl) in Hcheck.
  unfold bind at 1, modify at 1 in E. change (addTableInfo _ c0) with (with_table c tn) in E.
  pose proof (with_table_ready c tn cols OK Hname Hcheck) as R. fold t in R.
  destruct (fresh_table c _ OK (Z.le_refl _)) as (_ & _ & F3 & F4). fold t in F3, F4.
  assert (Taken : forall c1, others_kept t (with_table c tn) c1 ->
    getTableInfo_by_name db_id_ tn c1 = Some (new_table c tn) /\ tables_ c1 !! t = None).
  { intros c1 K. unfold getTableInfo_by_name. rewrite (kp_names _ _ _ K), (kp_data _ _ _ K). split; [|exact F4].
    fold (getTableInfo_by_name db_id_ tn (with_table c tn)). unfold with_table. by rewrite add_table_by_name, decide_True. }
  unfold bind at 1 in E. destruct (add_columns t tn 1 ∅ cols (with_table c tn)) as [r1 c1] eqn:E1.
  destruct (add_columns_spec _ _ _ _ _ _ _ _ R E1) as [K H1].
  destruct r1 as [[]|e].
  2:{ injection E as <- <-. destruct H1 as [OK1 He]. split; [done|]. right; right. split; [set_solver | by apply Taken]. }
  destruct H1 as [R1 [infos A]]. destruct (check_columns_spec _ _ _ Hcheck) as (_ & Hr & _).
  destruct (rowid_added t cols infos _ _ R (F3 _) (fun col H => proj1 (Hr col H)) Hne A R1) as (E2 & OK2 & [idx Ei]).
  unfold bind at 1 in E. rewrite E2 in E. set (c2 := addColumnInfo (rowid_column t cols) c1) in *.
  assert (K2 : others_kept t (with_table c tn) c2) by (eapply kept_trans; [exact K | by apply kept_column]).
  destruct (Taken c2 K2) as [Tn Td]. unfold bind at 1, lift_result in E.
  destruct (schema_fields cols) as [fields|e] eqn:Ef.
  2:{ injection E as <- <-. split; [done|]. right; right. rewrite (schema_fields_err _ _ Ef). split; [set_solver | done]. }
  unfold ret at 1, bind at 1, gets in E. rewrite Td in E. injection E as <- <-. split.
  - destruct OK2 as [P1 P2 P3 P4 P5 P6 P7 P8 P9]. split; try done. intros t' S. cbn in S.
    apply lookup_insert_is_Some' in S as [<-|S]; [|by apply P9]. split.
    + change (is_Some (getTableInfo db_id_ t c2)). unfold getTableInfo. rewrite (kp_tables _ _ _ K2).
      change (is_Some (getTableInfo db_id_ t (with_table c tn))).
      unfold with_table. rewrite add_table_by_id, decide_True; [by eexists | done].
    + cbn. by rewrite lookup_insert_eq.
  - split; [done|]. split; [done|]. split; [done|]. exists infos, c1, fields. split; [done|]. split; [done|].
    split; [done|]. by rewrite <- (kp_data _ _ _ K2 : tables_ c2 = tables_ c).
Qed.

(** ** Removal of a table *)

Lemma list_columns_spec c t idx : catalog_ok c -> column_index_by_name_ c !! (db_id_, t) = Some idx ->
  exists cols, listColumnsNoLock db_id_ t c = (Ok cols, c) /\
    forall ci, In ci cols <-> getColumnInfo_by_name db_id_ t (ci_name ci) c = Some ci.
Proof.
  intros OK E. unfold listColumnsNoLock, bind, gets. rewrite E. eexists. split; [done|]. intros ci.
  assert (Hin : In ci (merge_sort by_column_id (map snd (map_to_list idx))) <-> In ci (map snd (map_to_list idx))).
  { rewrite <- !list_elem_of_In. by rewrite merge_sort_Permutation. }
  rewrite Hin, in_map_iff. unfold getColumnInfo_by_name. rewrite E. cbn. split.
  - intros ([n ci'] & <- & Hx). apply list_elem_of_In, elem_of_map_to_list in Hx. cbn.
    destruct (co_col_name _ OK db_id_ t n ci') as [[= _ _ <-] _]; [|done]. unfold getColumnInfo_by_name. by rewrite E.
  - intros Hx. exists (ci_name ci, ci). split; [done|]. by apply list_elem_of_In, elem_of_map_to_list.
Qed.

Definition column_ref (ci : ColumnInfo) : Z * Z * Z := (ci_db_id ci, ci_table_id ci, ci_column_id ci).

Lemma erase_columns ref l : forall c, let c' := fold_left (erase_column ref) l c in
  c' = set_columns (column_infos_ c') (column_index_by_name_ c') c /\
  (forall db t i, getColumnInfo db t i c' = if decide ((db, t, i) ∈ map column_ref l)
    then None else getColumnInfo db t i c) /\
  (forall db t n, getColumnInfo_by_name db t n c'
     = if decide ((db, t) = ref /\ n ∈ map ci_name l) then None else getColumnInfo_by_name db t n c) /\
  (forall r, is_Some (column_index_by_name_ c' !! r) <-> is_Some (column_index_by_name_ c !! r)).
Proof.
  induction l as [|ci l IH]; intros c c'.
  { subst c'. cbn. split; [by destruct c|]. split; [done|]. split; [|done]. intros db t n. rewrite decide_False;
      [done|]. by intros [_ ?%not_elem_of_nil]. }
  destruct (IH (erase_column ref c ci)) as (H1 & H2 & H3 & H4). cbn [fold_left] in c'. subst c'.
  set (c' := fold_left _ l _) in *. split; [rewrite H1; by destruct c|]. split; [|split].
  - intros db t i. rewrite H2. cbn [map]. unfold getColumnInfo, erase_column. cbn. fold (column_ref ci).
    destruct (decide ((db, t, i) ∈ map column_ref l)); [by rewrite decide_True by by right|].
    destruct (decide (column_ref ci = (db, t, i))) as [E|E].
    + rewrite E, lookup_delete_eq, decide_True by by left. done.
    + rewrite lookup_delete_ne, decide_False; [done| |done]. by intros [?|?]%elem_of_cons.
  - intros db t n. rewrite H3. cbn [map]. unfold getColumnInfo_by_name, erase_column. cbn.
    destruct (decide ((db, t) = ref /\ n ∈ map ci_name l)) as [[E1 E2]|Hn].
    { rewrite decide_True; [done|]. split; [done | by right]. }
    destruct (decide (ref = (db, t))) as [->|E].
    + rewrite lookup_alter_eq. destruct (decide (ci_name ci = n)) as [<-|En].
      * rewrite decide_True by (split; [done | by left]).
        destruct (column_index_by_name_ c !! (db, t)); cbn; [apply lookup_delete_eq | done].
      * rewrite decide_False by (intros [_ [?|?]%elem_of_cons]; [done | tauto]).
        destruct (column_index_by_name_ c !! (db, t)); cbn; [by apply lookup_delete_ne | done].
    + rewrite lookup_alter_ne by done. rewrite decide_False; [done|]. by intros [<- _].
  - intros r. rewrite H4. unfold erase_column. cbn. apply lookup_alter_is_Some.
Qed.

(** A table is gone, with its columns, and nothing else is but dictionaries that no column uses; those of
    arrays do not count. *)
Record dropped (t : Z) (ti : TableInfo) (c c' : Catalog) : Prop := mkDropped {
  dr_info : getTableInfo db_id_ t c = Some ti;
  dr_tables : forall db t', getTableInfo db t' c' = if decide ((db, t') = (db_id_, t)) then None else getTableInfo db t' c;
  dr_names : forall db n, getTableInfo_by_name db n c'
    = if decide ((db, n) = (db_id_, ti_name ti)) then None else getTableInfo_by_name db n c;
  dr_columns : forall db t' i, getColumnInfo db t' i c'
    = if decide ((db, t') = (db_id_, t)) then None else getColumnInfo db t' i c;
  dr_col_names : forall db t' n, getColumnInfo_by_name db t' n c'
    = if decide ((db, t') = (db_id_, t)) then None else getColumnInfo_by_name db t' n c;
  dr_index : forall r, is_Some (column_index_by_name_ c' !! r) <-> is_Some (column_index_by_name_ c !! r);
  dr_data : tables_ c' = delete t (tables_ c);
  dr_next : next_table_id_ c' = next_table_id_ c /\ next_dict_id_ c' = next_dict_id_ c;
  dr_dicts : dicts_ c' ⊆ dicts_ c;
  dr_used : forall db t' i ci d, getColumnInfo db t' i c' = Some ci -> column_dict ci = Some d ->
    dicts_ c' !! d = dicts_ c !! d;
}.

Lemma dropped_ok t ti c c' : catalog_ok c -> dropped t ti c c' -> catalog_ok c'.
Proof.
  intros [T N C CN I D DD U A] [Hi H1 H2 H3 H4 H5 H6 [H7 H7'] H8 H9].
  destruct (T _ _ _ Hi) as (Ht1 & Ht2 & _ & _ & Htn).
  split.
  - intros db t' x. rewrite H1, H2, H7. destruct (decide _) as [|Hne]; [done|]. intros E.
    destruct (T db t' x E) as (E1 & E2 & E3 & E4 & E5). rewrite decide_False; [done|].
    intros [= -> En]. rewrite En, Htn in E5. injection E5 as <-. congruence.
  - intros db n x. rewrite H2. destruct (decide _) as [|Hne]; [done|]. intros E.
    destruct (N db n x E) as (E1 & E2 & E3). rewrite H1, decide_False; [done|]. intros [= -> Et].
    rewrite Et, Hi in E3. injection E3 as <-. congruence.
  - intros db t' i x. rewrite H3, H4, H1. destruct (decide _) as [|Hne]; [done|]. apply C.
  - intros db t' n x. rewrite H4, H3. destruct (decide _) as [|Hne]; [done|]. apply CN.
  - intros db t'. rewrite H5, H7. apply I.
  - by rewrite H7'.
  - intros d [x Ex]. rewrite H7'. apply DD. exists x. by eapply lookup_weaken.
  - intros db t' i x d E Ed. rewrite (H9 _ _ _ _ _ E Ed). rewrite H3 in E. destruct (decide _); [done|]. by eapply U.
  - intros t' S. rewrite H6 in S. rewrite H1, H5. apply lookup_delete_is_Some in S as [Hne S].
    rewrite decide_False by congruence. by apply A.
Qed.

Lemma schema_drop c t ti : catalog_ok c -> getTableInfo db_id_ t c = Some ti ->
  is_Some (column_index_by_name_ c !! (db_id_, t)) ->
  exists c1, SchemaProvider_dropTable db_id_ t c = (Ok tt, c1) /\
    (forall db t', getTableInfo db t' c1 = if decide ((db, t') = (db_id_, t)) then None else getTableInfo db t' c) /\
    (forall db n, getTableInfo_by_name db n c1 = if decide ((db, n) = (db_id_, ti_name ti))
      then None else getTableInfo_by_name db n c) /\
    (forall db t' i, getColumnInfo db t' i c1 = if decide ((db, t') = (db_id_, t)) then None else getColumnInfo db t' i c) /\
    (forall db t' n, getColumnInfo_by_name db t' n c1
       = if decide ((db, t') = (db_id_, t)) then None else getColumnInfo_by_name db t' n c) /\
    (forall r, is_Some (column_index_by_name_ c1 !! r) <-> is_Some (column_index_by_name_ c !! r)) /\
    (tables_ c1, next_table_id_ c1, next_dict_id_ c1, dicts_ c1) = (tables_ c, next_table_id_ c, next_dict_id_ c, dicts_ c).
Proof.
  intros OK Hi [idx Ei]. destruct (co_table _ OK _ _ _ Hi) as (Ed & Et & _ & _ & Hn).
  destruct (list_columns_spec c t idx OK Ei) as (cols & El & Hin).
  unfold SchemaProvider_dropTable, bind at 1, gets at 1. rewrite Hi, Ed, Et. unfold bind at 1. rewrite El.
  unfold bind, modify, gets. cbn [table_index_by_name_ set_tables].
  destruct (table_index_by_name_ c !! db_id_) as [names|] eqn:En; [|by unfold getTableInfo_by_name in Hn; rewrite En in Hn].
  eexists. split; [done|].
  match goal with |- context [fold_left _ cols ?x] => set (c2 := x) end.
  destruct (erase_columns (db_id_, t) cols c2) as (H1 & H2 & H3 & H4).
  set (c1 := fold_left _ cols c2) in *.
  assert (F1 : table_infos_ c1 = table_infos_ c2) by by rewrite H1.
  assert (F2 : table_index_by_name_ c1 = table_index_by_name_ c2) by by rewrite H1.
  split; [|split; [|split; [|split; [|split; [|by rewrite H1]]]]].
  - intros db t'. unfold getTableInfo. rewrite F1. cbn. destruct (decide _) as [[= -> ->]|Hne]; [apply lookup_delete_eq|].
    by rewrite lookup_delete_ne by congruence.
  - intros db n. unfold getTableInfo_by_name. rewrite F2. cbn. destruct (decide (db_id_ = db)) as [<-|Hne].
    + rewrite lookup_insert_eq, En. cbn. destruct (decide _) as [[= ->]|Hn']; [apply lookup_delete_eq|].
      by rewrite lookup_delete_ne by congruence.
    + rewrite lookup_insert_ne by done. by rewrite decide_False by congruence.
  - intros db t' i. rewrite H2. change (getColumnInfo db t' i c2) with (getColumnInfo db t' i c).
    destruct (getColumnInfo db t' i c) as [ci|] eqn:E; [|by destruct (decide _), (decide _)].
    destruct (co_column _ OK _ _ _ _ E) as (Er & _ & Ename). destruct (decide ((db, t') = _)) as [[= -> ->]|Hne].
    + rewrite decide_True; [done|]. apply list_elem_of_In, in_map_iff. exists ci. split; [done|]. by apply Hin.
    + rewrite decide_False; [done|]. intros Hx. apply list_elem_of_In, in_map_iff in Hx as (ci' & E1 & E2).
      apply Hin in E2. destruct (co_col_name _ OK _ _ _ _ E2) as [E3 _]. unfold column_ref in E1. congruence.
  - intros db t' n. rewrite H3. change (getColumnInfo_by_name db t' n c2) with (getColumnInfo_by_name db t' n c).
    destruct (getColumnInfo_by_name db t' n c) as [ci|] eqn:E; [|by destruct (decide _), (decide _)].
    destruct (co_col_name _ OK _ _ _ _ E) as [Er _]. destruct (decide ((db, t') = (db_id_, t))) as [[= -> ->]|Hne].
    + rewrite decide_True; [done|]. split; [done|]. injection Er as _ _ <-. apply list_elem_of_In, in_map. by apply Hin.
    + by rewrite decide_False by tauto.
  - intros r. rewrite H4. done.
Qed.

Lemma dropTable_spec t b c r c' : catalog_ok c -> dropTable t b c = (r, c') ->
  match r with
  | Ok _ => exists ti, dropped t ti c c'
  | Err e => c' = c /\ tables_ c !! t = None /\ e = if b then UnknownTable else OutOfRange
  end.
Proof.
  intros OK E. unfold dropTable in E. unfold bind at 1, gets at 1 in E.
  destruct (tables_ c !! t) as [entry|] eqn:Et; [|by destruct b; injection E as <- <-].
  destruct (co_data _ OK t) as [[ti Hi] [idx Ei]]; [by rewrite Et|].
  unfold bind at 1, modify at 1 in E. set (c0 := set_data _ c) in *. assert (OK0 : catalog_ok c0).
  { destruct OK as [P1 P2 P3 P4 P5 P6 P7 P8 P9]. split; try done. intros t' S. cbn in S.
    apply lookup_delete_is_Some in S as [_ S]. by apply P9. }
  destruct (list_columns_spec c0 t idx OK0 Ei) as (cols & El & _). unfold bind at 1 in E. rewrite El in E.
  destruct (schema_drop c0 t ti OK0 Hi) as (c1 & Es & H1 & H2 & H3 & H4 & H5 & [= H6 H7 H8 H9]); [by exists idx|].
  unfold bind at 1 in E. rewrite Es in E. injection E as <- <-. exists ti. split; try done.
  - cbn. rewrite H9. apply map_filter_subseteq.
  - intros db t' i ci d Ec Ed. cbn [dicts_ set_dicts].
    destruct (dicts_ c !! d) as [x|] eqn:Ex.
    + apply map_lookup_filter_Some. split; [by rewrite H9|]. cbn [fst]. intros [_ Hnot]%elem_of_difference.
      apply Hnot, elem_of_list_to_set, list_elem_of_omap. exists ((db, t', i), ci). split; [|done].
      by apply elem_of_map_to_list.
    + apply map_lookup_filter_None. left. by rewrite H9.
Qed.

(** ** Histories *)

(** The calls of a client; what one throws is of no account. *)
Inductive catalog_step (c : Catalog) : Catalog -> Prop :=
| StepCreate tn cols fs r c' : createTable tn cols fs c = (r, c') -> catalog_step c c'
| StepDrop t b r c' : dropTable t b c = (r, c') -> catalog_step c c'
| StepDropByName tn b r c' : dropTable_by_name tn b c = (r, c') -> catalog_step c c'
| StepAppend t n r c' : set_fragments t n c = (r, c') -> catalog_step c c'.

Inductive catalog_reachable : Catalog -> Prop :=
| reach_new : catalog_reachable newCatalog
| reach_step c c' : catalog_reachable c -> catalog_step c c' -> catalog_reachable c'.

Lemma dropTable_ok t b c r c' : catalog_ok c -> dropTable t b c = (r, c') -> catalog_ok c'.
Proof.
  intros OK E. pose proof (dropTable_spec t b c r c' OK E) as H. destruct r; [|by destruct H as (-> & _)].
  destruct H as [ti H]. by eapply dropped_ok.
Qed.

Lemma catalog_step_ok c c' : catalog_ok c -> catalog_step c c' -> catalog_ok c'.
Proof.
  intros OK [tn cols fs r c1 E|t b r c1 E|tn b r c1 E|t n r c1 E].
  - by eapply createTable_spec.
  - by eapply dropTable_ok.
  - unfold dropTable_by_name, bind, gets in E. destruct (getTableInfo_by_name db_id_ tn c).
    + by eapply dropTable_ok.
    + by destruct b; injection E as <- <-.
  - unfold set_fragments, bind, gets in E. destruct (getTableInfo db_id_ t c) as [ti|] eqn:Ei; [|by injection E as <- <-].
    injection E as <- <-. destruct (co_table _ OK _ _ _ Ei) as (_ & Et & _). apply update_table_ok; [done|]. by rewrite Et.
Qed.

(** [C24] Whatever tables are created, dropped and appended to, and whichever of these calls throw, the catalogue stays
    consistent: tables and columns are found under their ids exactly as under their names,
      every column and all rows belong to
    a table, and the dictionary of every column that is not an array exists. *)
Theorem catalog_invariant c : catalog_reachable c -> catalog_ok c.
Proof. induction 1 as [|c c' _ IH S]; [apply newCatalog_ok | by eapply catalog_step_ok]. Qed.

(** [C36] A creation that throws.  If the parameters are refused, only the next table id has changed.  If there is no
    dictionary id left, or a type cannot be imported, the name is taken all the same: the table is in the catalogue and has no
    rows, cannot be created again, and dropping it throws as well. *)
Theorem create_error tn cols fs c e c' : catalog_ok c -> createTable tn cols fs c = (Err e, c') ->
  catalog_ok c' /\
  (e ∉ [DictLimit; NotImportable; CatalogCheck] /\ (c' = c \/ c' = set_next_table (next_table_id_ c + 1) c) \/
   e ∈ [DictLimit; NotImportable; CatalogCheck] /\
   (forall cols' fs', cols' <> [] -> tn <> "" -> next_table_id_ c' <> INT32_MAX -> 
      fst (createTable tn cols' fs' c') = Err TableExists) /\
   forall b, dropTable_by_name tn b c' = (Err OutOfRange, c')).
Proof.
  intros OK E. destruct (createTable_spec tn cols fs c _ c' OK E) as [OK' [[-> ->]|[[He ->]|(He & Hn & Ht)]]].
  - split; [done|]. left. split; [set_solver | by left].
  - split; [done|]. left. split; [set_solver | by right].
  - split; [done|]. right. split; [done|]. split.
    + intros cols' fs' Hc Htn Hm. unfold createTable, bind, gets. destruct (Z.eqb_spec (next_table_id_ c')
        INT32_MAX); [done|].
      unfold modify, checkNewTableParams. destruct cols' as [|col cols']; [done|]. destruct (decide (tn = "")); [done|].
      unfold bind, gets. change (getTableInfo_by_name db_id_ tn (set_next_table _ c'))
        with (getTableInfo_by_name db_id_ tn c').
      by rewrite Hn.
    + intros b. unfold dropTable_by_name, bind, gets. rewrite Hn. unfold dropTable, bind, gets. cbn. by rewrite Ht.
Qed.

(** ** A new table *)

Lemma with_dict_dict type s d : elem_dict type = Some s -> elem_dict (with_dict type d) = Some d.
Proof. unfold elem_dict, with_dict. destruct type as [| | | | | | | | | | | |k e n|e k n| |]; cbn; try done;
  by destruct e. Qed.

Lemma added_frame t i ids c cols infos c' : added t i ids c cols infos c' ->
  length infos = length cols /\ dicts_ c ⊆ dicts_ c' /\
  forall j, j < i -> getColumnInfo db_id_ t j c' = getColumnInfo db_id_ t j c.
Proof.
  induction 1 as [i ids c|i ids c col cols type ids1 c1 infos c' (n & ds & -> & Hs) Ch A (IH1 & IH2 & IH3)]; [done|].
  split; [cbn; lia|]. split; [etrans; [exact Hs | exact IH2]|]. intros j Hj. rewrite IH3 by lia.
  rewrite add_column_by_id, decide_False; [done|]. cbn. intros [=]. lia.
Qed.

(** A column has the name and the place of its description, and the type, but for the dictionary. *)
Definition described (t : Z) (k : nat) (col : ColumnDescription) (ci : ColumnInfo) : Prop :=
  ci = new_column t (Z.of_nat k + 1) col (ci_type ci) /\
  match elem_dict (cd_type col) with
  | None => ci_type ci = cd_type col
  | Some _ => exists d, elem_dict (ci_type ci) = Some d /\ ci_type ci = with_dict (cd_type col) d
  end.

Lemma added_columns t i ids c cols infos c' : added t i ids c cols infos c' -> forall p, i = Z.of_nat p + 1 ->
  forall k col ci, cols !! k = Some col -> infos !! k = Some ci ->
    described t (p + k) col ci /\ getColumnInfo db_id_ t (ci_column_id ci) c' = Some ci.
Proof.
  induction 1 as [i ids c|i ids c col cols type ids1 c1 infos c' More Ch A IH]; intros p Hp k col' ci Ec Ei; [done|].
  destruct k as [|k].
  - injection Ec as <-. injection Ei as <-. split.
    + unfold described. rewrite Nat.add_0_r, <- Hp. split; [done|]. cbn.
      destruct Ch as [He _|s d ids1 He _]; rewrite He; [done|]. exists d. split; [by eapply with_dict_dict | done].
    + destruct (added_frame _ _ _ _ _ _ _ A) as (_ & _ & F). cbn [ci_column_id new_column].
      rewrite F by lia. by rewrite add_column_by_id, decide_True.
  - rewrite <- Nat.add_succ_comm. apply (IH (S p) ltac:(lia) k); done.
Qed.

(** Dictionaries of the columns: [s] is the id of the description, [d] that of the column. *)
Lemma added_dicts t i ids c cols infos c' : added t i ids c cols infos c' ->
  (forall s d, ids !! s = Some d -> is_Some (dicts_ c !! d)) -> (forall s s' d, ids !! s = Some d ->
    ids !! s' = Some d -> s = s') ->
  forall k col ci s d, cols !! k = Some col -> infos !! k = Some ci ->
    elem_dict (cd_type col) = Some s -> elem_dict (ci_type ci) = Some d ->
    (0 < s -> d = s) /\ (s < 0 -> forall d0, ids !! s = Some d0 -> d = d0) /\
    (s <= 0 -> (s < 0 -> ids !! s = None) -> dicts_ c !! d = None) /\ (s <= 0 -> is_Some (dicts_ c' !! d)).
Proof.
  induction 1 as [i ids c|i ids c col cols type ids1 c1 infos c' More Ch A IH];
    intros Hd Hj k col' ci s d Ec Ei Es Ed; [done|].
  destruct (added_frame _ _ _ _ _ _ _ A) as (_ & Sub & _).
  assert (Hids : (forall s d, ids1 !! s = Some d -> is_Some (dicts_ c1 !! d)) /\
    (forall s s' d, ids1 !! s = Some d -> ids1 !! s' = Some d -> s = s') /\
    (forall s d, ids !! s = Some d -> ids1 !! s = Some d) /\ (forall s, s < 0 -> ids !! s = None -> ids1 !! s = None \/
      exists d, ids1 !! s = Some d /\ dicts_ c !! d = None)).
  { destruct Ch as [He ->|s' d' ids1 He Ch]; [split; [done|]; split; [done|]; split; [done | by left]|].
    destruct (choice_dict _ _ _ _ _ _ Ch More Hd Hj) as (_ & H2 & H3). split; [done|]. split; [done|].
    destruct Ch as [_ _|d' _ _ _|d' Hs' Hn Hf _]; [split; [done | by left] | split; [done | by left]|].
    destruct (Z.ltb_spec s' 0) as [Hneg|]; [|split; [done | by left]]. split.
    - intros s0 d0 E0. rewrite lookup_insert_ne; [done|]. intros <-. by rewrite Hn in E0.
    - intros s0 Hs0 E0. destruct (decide (s' = s0)) as [->|]; [right; exists d'; by rewrite lookup_insert_eq|].
      left. by rewrite lookup_insert_ne. }
  destruct Hids as (Hd1 & Hj1 & Hk & Hnew). destruct k as [|k].
  - injection Ec as <-. injection Ei as <-. cbn in Ed. destruct Ch as [He _|s' d' ids1 He Ch]; [congruence|].
    rewrite Es in He. injection He as <-. rewrite (with_dict_dict _ _ _ Es) in Ed. injection Ed as ->.
    destruct (choice_dict _ _ _ _ _ _ Ch More Hd Hj) as (H1 & _ & _).
    assert (Hin : s <= 0 -> is_Some (dicts_ c' !! d)).
    { intros H0. destruct (H1 H0) as [x Ex]. exists x. by eapply lookup_weaken. }
    destruct Ch as [Hs _|d Hs Hl _|d Hs Hn Hf Hx].
    + repeat split; try done; intros; lia.
    + split; [lia|]. split; [intros _ d0 E; congruence|]. split; [|done]. intros _ E. rewrite E in Hl; done.
    + split; [lia|]. split; [|done]. intros Hneg d0 E. by rewrite Hn in E.
  - cbn in Ec, Ei. destruct (IH Hd1 Hj1 k col' ci s d Ec Ei Es Ed) as (I1 & I2 & I3 & I4).
    split; [done|]. split; [eauto|]. split; [|done]. intros H0 Hn.
    assert (Down : dicts_ c1 !! d = None -> dicts_ c !! d = None).
    { destruct More as (n & ds & -> & Hs). intros E. by eapply lookup_weaken_None. }
    destruct (decide (s < 0)) as [Hneg|Hneg]; [|apply Down, I3; [done | lia]].
    destruct (Hnew s Hneg (Hn Hneg)) as [E|(d0 & E & Ef)]; [by apply Down, I3|].
    by rewrite (I2 Hneg d0 E).
Qed.

(** Two columns with new dictionaries share one exactly if they have the same negative id. *)
Lemma added_sharing t i ids c cols infos c' : added t i ids c cols infos c' ->
  (forall s d, ids !! s = Some d -> is_Some (dicts_ c !! d)) -> (forall s s' d, ids !! s = Some d ->
    ids !! s' = Some d -> s = s') ->
  forall k l col ci s d col' ci' s' d', (k < l)%nat -> cols !! k = Some col -> infos !! k = Some ci ->
    elem_dict (cd_type col) = Some s -> elem_dict (ci_type ci) = Some d -> s <= 0 ->
    cols !! l = Some col' -> infos !! l = Some ci' ->
    elem_dict (cd_type col') = Some s' -> elem_dict (ci_type ci') = Some d' -> s' <= 0 ->
    d = d' <-> s = s' /\ s < 0.
Proof.
  induction 1 as [i ids c|i ids c col0 cols type ids1 c1 infos c' More Ch A IH];
    intros Hd Hj k l col ci s d col' ci' s' d' Hkl Ec Ei Es Ed Hs Ec' Ei' Es' Ed' Hs'; [done|].
  destruct l as [|l]; [lia|]. cbn in Ec', Ei'.
  assert (Hids : (forall s d, ids1 !! s = Some d -> is_Some (dicts_ c1 !! d)) /\
                 (forall s s' d, ids1 !! s = Some d -> ids1 !! s' = Some d -> s = s')).
  { destruct Ch as [_ ->|s0 d0 ids1 He Ch]; [done|]. by destruct (choice_dict _ _ _ _ _ _ Ch More Hd Hj) as (_ & H2 & H3). }
  destruct Hids as [Hd1 Hj1]. destruct k as [|k]; [|eapply (IH Hd1 Hj1 k l); eauto; lia].
  injection Ec as <-. injection Ei as <-. cbn in Ed. destruct Ch as [He _|s0 d0 ids1 He Ch]; [congruence|].
  rewrite Es in He. injection He as <-. rewrite (with_dict_dict _ _ _ Es) in Ed. injection Ed as ->.
  destruct (added_dicts _ _ _ _ _ _ _ A Hd1 Hj1 l col' ci' s' d' Ec' Ei' Es' Ed') as (_ & I2 & I3 & _).
  cbn [dicts_ addColumnInfo set_columns] in I3.
  destruct (choice_dict _ _ _ _ _ _ Ch More Hd Hj) as (Hin & _ & _). specialize (Hin Hs).
  assert (Same : s < 0 -> ids1 !! s = Some d).
  { destruct Ch as [?|d _ Hl _|d _ _ _ _]; intros; [lia | done|]. replace (s <? 0) with true by lia.
    apply lookup_insert_eq. }
  assert (Old : s = 0 -> forall s0, ids1 !! s0 <> Some d).
  { destruct Ch as [?|d ? _ _|d _ _ Hf _]; intros; [lia | lia|]. replace (s <? 0) with false by lia.
    intros E0. destruct (Hd _ _ E0) as [x Ex]. congruence. }
  split.
  - intros <-. destruct (ids1 !! s') as [d0|] eqn:E0; [destruct (decide (s' < 0)) as [Hneg|Hneg]|].
    + rewrite <- (I2 Hneg d0 eq_refl) in E0. destruct (decide (s < 0)) as [Hn|Hn].
      * split; [by apply (Hj1 s s' d); [apply Same|] | done].
      * by destruct (Old ltac:(lia) s').
    + destruct Hin as [x Ex]. rewrite (I3 Hs') in Ex; [done | lia].
    + destruct Hin as [x Ex]. rewrite (I3 Hs') in Ex; done.
  - intros [<- Hneg]. symmetry. by apply I2; [|apply Same].
Qed.

(** The tables after a creation. *)
Lemma create_done_tables tn cols fs c ti c' : create_done tn cols fs c ti c' ->
  getTableInfo_by_name db_id_ tn c' = Some ti /\ is_Some (tables_ c' !! ti_table_id ti) /\
  (forall t', t' <> ti_table_id ti -> tables_ c' !! t' = tables_ c !! t' /\ forall db i,
     getTableInfo db t' c' = getTableInfo db t' c /\ getColumnInfo db t' i c' = getColumnInfo db t' i c).
Proof.
  intros (-> & Hn & Hc & infos & c1 & fields & A & K & _ & ->). cbn [ti_table_id new_table]. set (t :=
    next_table_id_ c) in *.
  split; [|split].
  - change (getTableInfo_by_name db_id_ tn c1 = Some (new_table c tn)). unfold getTableInfo_by_name.
    rewrite (kp_names _ _ _ K). fold (getTableInfo_by_name db_id_ tn (with_table c tn)).
    unfold with_table. by rewrite add_table_by_name, decide_True.
  - cbn. by rewrite lookup_insert_eq.
  - intros t' Ht. split; [cbn; by rewrite lookup_insert_ne|]. intros db i. split.
    + change (getTableInfo db t' c1 = getTableInfo db t' c). unfold getTableInfo at 1. rewrite (kp_tables _ _ _ K).
      fold (getTableInfo db t' (with_table c tn)). unfold with_table. rewrite add_table_by_id, decide_False; [done|].
      intros [= _ E]. by apply Ht.
    + change (getColumnInfo db t' i (addColumnInfo (rowid_column t cols) c1) = getColumnInfo db t' i c).
      rewrite add_column_by_id, decide_False by (intros [= _ E _]; by apply Ht). by rewrite (kp_columns _ _ _ K).
Qed.

(** [C35] A table that is created.  It is found by its name; its columns are those described, in order, followed by the
    rowid, and everything of the other tables is as before.  A positive dictionary id in a description is kept; otherwise
    the dictionary is new, and two columns share it exactly if their ids are the same negative number. *)
Theorem created_table tn cols fs c ti c' : catalog_ok c -> createTable tn cols fs c = (Ok ti, c') ->
  getTableInfo_by_name db_id_ tn c' = Some ti /\ is_Some (tables_ c' !! ti_table_id ti) /\
  (forall t', t' <> ti_table_id ti -> tables_ c' !! t' = tables_ c !! t' /\ forall db i,
     getTableInfo db t' c' = getTableInfo db t' c /\ getColumnInfo db t' i c' = getColumnInfo db t' i c) /\
  getColumnInfo db_id_ (ti_table_id ti) (Z.of_nat (length cols) + 1) c' = Some (rowid_column (ti_table_id ti) cols) /\
  exists infos, length infos = length cols /\
    (forall k col ci, cols !! k = Some col -> infos !! k = Some ci -> described (ti_table_id ti) k col ci /\
       getColumnInfo db_id_ (ti_table_id ti) (Z.of_nat k + 1) c' = Some ci) /\
    (forall k col ci s d, cols !! k = Some col -> infos !! k = Some ci ->
       elem_dict (cd_type col) = Some s -> elem_dict (ci_type ci) = Some d ->
       (0 < s -> d = s) /\ (s <= 0 -> dicts_ c !! d = None /\ is_Some (dicts_ c' !! d))) /\
    (forall k l col ci s d col' ci' s' d', (k < l)%nat -> cols !! k = Some col -> infos !! k = Some ci ->
       elem_dict (cd_type col) = Some s -> elem_dict (ci_type ci) = Some d -> s <= 0 ->
       cols !! l = Some col' -> infos !! l = Some ci' ->
       elem_dict (cd_type col') = Some s' -> elem_dict (ci_type ci') = Some d' -> s' <= 0 ->
       d = d' <-> s = s' /\ s < 0).
Proof.
  intros OK E. destruct (createTable_spec _ _ _ _ _ _ OK E) as [_ D]. pose proof (create_done_tables _ _ _ _ _ _ D)
    as (T1 & T2 & T3).
  split; [done|]. split; [done|]. split; [done|]. clear T1 T2 T3.
  destruct D as (-> & Hn & Hc & infos & c1 & fields & A & K & _ & ->). cbn [ti_table_id new_table]. set (t :=
    next_table_id_ c) in *.
  destruct (added_frame _ _ _ _ _ _ _ A) as (Hl & Sub & _).
  assert (No : forall s d, (∅ : gmap Z Z) !! s = Some d -> is_Some (dicts_ (with_table c tn) !! d))
    by by intros s d ?%lookup_empty_Some.
  assert (No' : forall s s' d, (∅ : gmap Z Z) !! s = Some d -> (∅ : gmap Z Z) !! s' = Some d -> s = s')
    by by intros s s' d ?%lookup_empty_Some.
  split.
  { change (getColumnInfo db_id_ t (Z.of_nat (length cols) + 1) (addColumnInfo (rowid_column t cols) c1)
            = Some (rowid_column t cols)). by rewrite add_column_by_id, decide_True. }
  exists infos. split; [done|]. split; [|split; [|apply (added_sharing _ _ _ _ _ _ _ A No No')]].
  - intros k col ci Ec Ei. destruct (added_columns _ _ _ _ _ _ _ A 0%nat eq_refl k col ci Ec Ei) as [Hd Hg]. split; [done|].
    destruct Hd as [Eci _]. rewrite Eci in Hg at 1. cbn [ci_column_id new_column] in Hg.
    change (getColumnInfo db_id_ t (Z.of_nat k + 1) (addColumnInfo (rowid_column t cols) c1) = Some ci).
    rewrite add_column_by_id, decide_False; [done|]. cbn. intros [= Hk]. apply lookup_lt_Some in Ec. lia.
  - intros k col ci s d Ec Ei Es Ed.
    destruct (added_dicts _ _ _ _ _ _ _ A No No' k col ci s d Ec Ei Es Ed) as (I1 & _ & I3 & I4).
    split; [done|]. intros H0. split; [apply (I3 H0); done | apply (I4 H0)].
Qed.

End Tables.

(** ** Examples *)

Module CatalogExample.
(** The first database of the first schema. *)
Definition db : Z := addSchemaId 1 1.
Definition dict (id : Z) : SchemaType := ExtDictionaryTy (TextTy true) id 4.
Definition cities : list ColumnDescription :=
  [mkColumnDescription "id" (IntegerTy 8 false); mkColumnDescription "name" (dict (-1));
   mkColumnDescription "tags" (VarLenArrayTy (dict (-1)) 4 true); mkColumnDescription "country" (dict 0)].
Definition created : Catalog := snd (createTable db "cities" cities 2 newCatalog).
Definition emptied : Catalog := snd (dropTable_by_name db "cities" true created).

(** The columns of the table; two of them share a dictionary. *)
Lemma cities_columns :
  fst (listColumnsNoLock db 1 created)
  = Ok [mkColumnInfo db 1 1 "id" (IntegerTy 8 false) false; mkColumnInfo db 1 2 "name" (dict 16777217) false;
        mkColumnInfo db 1 3 "tags" (VarLenArrayTy (dict 16777217) 4 true) false;
        mkColumnInfo db 1 4 "country" (dict 16777218) false; mkColumnInfo db 1 5 "rowid" (IntegerTy 8 true) true].
Proof. by vm_compute. Qed.

Lemma catalog_invariant_witness :
  getTableInfo_by_name db "cities" created <> None /\ getTableInfo_by_name db "cities" emptied = None /\ catalog_ok db emptied.
Proof.
  split; [by vm_compute|]. split; [by vm_compute|]. apply (catalog_invariant db emptied).
  apply (reach_step db created); [apply (reach_step db newCatalog); [apply reach_new|]|].
  - apply (StepCreate db newCatalog "cities" cities 2 _ created (surjective_pairing _)).
  - apply (StepDropByName db created "cities" true _ emptied (surjective_pairing _)).
Defined.

Lemma created_table_witness :
  exists ti, fst (createTable db "cities" cities 2 newCatalog) = Ok ti /\ getTableInfo_by_name db "cities" created = Some ti.
Proof.
  exists (mkTableInfo db 1 "cities" 0). assert (E : fst (createTable db "cities" cities 2 newCatalog)
    = Ok (mkTableInfo db 1 "cities" 0))
    by by vm_compute. split; [exact E|].
  refine (proj1 (created_table db "cities" cities 2 newCatalog (mkTableInfo db 1 "cities" 0) created (newCatalog_ok db) _)).
  rewrite <- E. apply surjective_pairing.
Defined.

(** Columns of intervals pass the check and cannot be imported. *)
Definition spans : list ColumnDescription := [mkColumnDescription "length" (IntervalTy 8 TU_kSecond true)].
Definition broken : Catalog := snd (createTable db "spans" spans 2 newCatalog).

Lemma create_error_witness :
  fst (createTable db "spans" spans 2 newCatalog) = Err NotImportable /\ getTableInfo_by_name db "spans" broken <> None /\
  forall b, dropTable_by_name db "spans" b broken = (Err OutOfRange, broken).
Proof.
  assert (E : fst (createTable db "spans" spans 2 newCatalog) = Err NotImportable) by by vm_compute.
  split; [exact E|]. split; [by vm_compute|].
  destruct (create_error db "spans" spans 2 newCatalog NotImportable broken (newCatalog_ok db)) as [_ [[Hn _]|(_ & _ & H)]].
  - rewrite <- E. apply surjective_pairing.
  - destruct Hn. right. left.
  - exact H.
Defined.

(** A table that is not there makes [dropTable] throw even if it should not. *)
Lemma drop_unknown_throws : dropTable db 7 false newCatalog = (Err OutOfRange, newCatalog).
Proof. done. Qed.

(** A dictionary goes with its table although a column of arrays of another table uses it. *)
Lemma array_dictionary_removed :
  let first := [mkColumnDescription "name" (dict 0)] in
  let second := [mkColumnDescription "names" (VarLenArrayTy (dict 16777217) 4 true)] in
  let c := snd (createTable db "second" second 2 (snd (createTable db "first" first 2 newCatalog))) in
  let c' := snd (dropTable_by_name db "first" true c) in
  elem_dict <$> (ci_type <$> getColumnInfo db 2 1 c') = Some (Some 16777217) /\
  is_Some (dicts_ c !! 16777217) /\ dicts_ c' !! 16777217 = None.
Proof. split; [by vm_compute|]. split; [eexists; by vm_compute | by vm_compute]. Qed.

(** A dictionary of arrays stays after the last of its tables is gone, and one that does not exist is accepted. *)
Lemma array_dictionaries :
  let names id := [mkColumnDescription "names" (VarLenArrayTy (dict id) 4 true)] in
  let c := snd (dropTable_by_name db "t" true (snd (createTable db "t" (names 0) 2 newCatalog))) in
  size (column_infos_ c) = 0%nat /\ is_Some (dicts_ c !! 16777217) /\
  let '(r, c') := createTable db "t" (names 77) 2 newCatalog in
  r = Ok (mkTableInfo db 1 "t" 0) /\ dicts_ c' !! 77 = None.
Proof. split; [by vm_compute|]. split; [eexists; by vm_compute | by vm_compute]. Qed.
End CatalogExample.
