(* ===== verification/BufferMgr.v ===== *)
(** * The buffer pool

    Model of [DataMgr/BufferMgr/BufferMgr.cpp] with [BufferSeg.h], the [Buffer] objects it
    manages ([Buffer.cpp], [Buffer.h], [CpuBuffer.cpp]) and the slab allocation of
    [CpuBufferMgr.cpp].  One call runs at a time: the mutexes of the source are held
    throughout, so the operations are sequential here.

    A [std::list] iterator is the identity of a list node: every segment carries a [node]
    number, unique in the pool, and an iterator is that number.  The heap of [Buffer]
    objects is a finite map; a pointer is a key of it.  Slab memory is a function from slab
    number and byte offset to byte.  Dereferencing an iterator or a pointer that does not
    exist, and indexing a vector out of range, give [UndefinedBehavior]. *)

From Stdlib Require Import ZArith Lia List Bool.
From stdpp Require Import base gmap list numbers.
From S2P Require Import Prelude StateMonad.
Import ListNotations.
Local Open Scope Z_scope.

(** ** Data *)

Abbreviation ChunkKey := (list Z).

Inductive MemStatus := FREE | USED.

#[global] Instance MemStatus_eq_dec : EqDecision MemStatus.
Proof. solve_decision. Defined.

Inductive MemPtr :=
| NullPtr
| SlabPtr (slab offset : Z)
| TokenPtr (token : Z).

#[global] Instance MemPtr_eq_dec : EqDecision MemPtr.
Proof. solve_decision. Defined.

Inductive BMError :=
| OutOfMemory (num_bytes : Z)
| FailedToCreateFirstSlab (num_bytes : Z)
| FailedToCreateSlab (num_bytes : Z)
| TooBigForSlab (num_bytes : Z)
| CheckFailure
| UndefinedBehavior
| OutOfFuel.

(** The classes derived from [OutOfMemory]. *)
Definition is_OutOfMemory (e : BMError) : bool :=
  match e with
  | OutOfMemory _ | FailedToCreateFirstSlab _ | FailedToCreateSlab _ | TooBigForSlab _ => true
  | _ => false
  end.

(** [pin_count] of the source is never read or written after construction. *)
Record BufferSeg := mkSeg {
  node : Z;
  start_page : Z;
  num_pages : Z;
  mem_status : MemStatus;
  buffer : option Z;
  chunk_key : ChunkKey;
  slab_num : Z;
  last_touched : Z
}.

Definition set_start_page (v : Z) (s : BufferSeg) : BufferSeg :=
  mkSeg (node s) v (num_pages s) (mem_status s) (buffer s) (chunk_key s) (slab_num s)
    (last_touched s).
Definition set_num_pages (v : Z) (s : BufferSeg) : BufferSeg :=
  mkSeg (node s) (start_page s) v (mem_status s) (buffer s) (chunk_key s)
    (slab_num s) (last_touched s).
Definition set_mem_status (v : MemStatus) (s : BufferSeg) : BufferSeg :=
  mkSeg (node s) (start_page s) (num_pages s) v (buffer s) (chunk_key s) (slab_num s)
    (last_touched s).
Definition set_buffer (v : option Z) (s : BufferSeg) : BufferSeg :=
  mkSeg (node s) (start_page s) (num_pages s) (mem_status s) v (chunk_key s)
    (slab_num s) (last_touched s).
Definition set_chunk_key (v : ChunkKey) (s : BufferSeg) : BufferSeg :=
  mkSeg (node s) (start_page s) (num_pages s) (mem_status s) (buffer s) v
    (slab_num s) (last_touched s).
Definition set_slab_num (v : Z) (s : BufferSeg) : BufferSeg :=
  mkSeg (node s) (start_page s) (num_pages s) (mem_status s) (buffer s) (chunk_key s)
    v (last_touched s).
Definition set_last_touched (v : Z) (s : BufferSeg) : BufferSeg :=
  mkSeg (node s) (start_page s) (num_pages s) (mem_status s) (buffer s) (chunk_key s)
    (slab_num s) v.

(** The constructors of [BufferSeg]; [node] is the list node that holds it. *)
Definition BufferSeg_new (node start_page num_pages : Z) (st : MemStatus) : BufferSeg :=
  mkSeg node start_page num_pages st None [] (-1) 0.

Definition is_free (s : BufferSeg) : bool := bool_decide (mem_status s = FREE).
Definition is_used (s : BufferSeg) : bool := bool_decide (mem_status s = USED).

Record Buffer := mkBuffer {
  b_mem : MemPtr;
  b_seg_it : Z;
  b_page_size : Z;
  b_num_pages : Z;
  b_pin_count : Z;
  b_size : Z;
  b_is_dirty : bool;
  b_is_updated : bool;
  b_is_appended : bool;
  b_page_dirty_flags : list bool;
  b_token : option Z
}.

Definition set_b_mem (v : MemPtr) (b : Buffer) : Buffer :=
  mkBuffer v (b_seg_it b) (b_page_size b) (b_num_pages b) (b_pin_count b) (b_size b)
    (b_is_dirty b) (b_is_updated b) (b_is_appended b) (b_page_dirty_flags b)
    (b_token b).
Definition set_b_seg_it (v : Z) (b : Buffer) : Buffer :=
  mkBuffer (b_mem b) v (b_page_size b) (b_num_pages b) (b_pin_count b) (b_size b)
    (b_is_dirty b) (b_is_updated b) (b_is_appended b) (b_page_dirty_flags b)
    (b_token b).
Definition set_b_page_size (v : Z) (b : Buffer) : Buffer :=
  mkBuffer (b_mem b) (b_seg_it b) v (b_num_pages b) (b_pin_count b) (b_size b)
    (b_is_dirty b) (b_is_updated b) (b_is_appended b) (b_page_dirty_flags b)
    (b_token b).
Definition set_b_num_pages (v : Z) (b : Buffer) : Buffer :=
  mkBuffer (b_mem b) (b_seg_it b) (b_page_size b) v (b_pin_count b) (b_size b)
    (b_is_dirty b) (b_is_updated b) (b_is_appended b) (b_page_dirty_flags b)
    (b_token b).
Definition set_b_pin_count (v : Z) (b : Buffer) : Buffer :=
  mkBuffer (b_mem b) (b_seg_it b) (b_page_size b) (b_num_pages b) v (b_size b)
    (b_is_dirty b) (b_is_updated b) (b_is_appended b) (b_page_dirty_flags b)
    (b_token b).
Definition set_b_size (v : Z) (b : Buffer) : Buffer :=
  mkBuffer (b_mem b) (b_seg_it b) (b_page_size b) (b_num_pages b) (b_pin_count b) v
    (b_is_dirty b) (b_is_updated b) (b_is_appended b) (b_page_dirty_flags b)
    (b_token b).
Definition set_b_is_dirty (v : bool) (b : Buffer) : Buffer :=
  mkBuffer (b_mem b) (b_seg_it b) (b_page_size b) (b_num_pages b) (b_pin_count b)
    (b_size b) v (b_is_updated b) (b_is_appended b) (b_page_dirty_flags b)
    (b_token b).
Definition set_b_is_updated (v : bool) (b : Buffer) : Buffer :=
  mkBuffer (b_mem b) (b_seg_it b) (b_page_size b) (b_num_pages b) (b_pin_count b)
    (b_size b) (b_is_dirty b) v (b_is_appended b) (b_page_dirty_flags b)
    (b_token b).
Definition set_b_is_appended (v : bool) (b : Buffer) : Buffer :=
  mkBuffer (b_mem b) (b_seg_it b) (b_page_size b) (b_num_pages b) (b_pin_count b)
    (b_size b) (b_is_dirty b) (b_is_updated b) v (b_page_dirty_flags b)
    (b_token b).
Definition set_b_page_dirty_flags (v : list bool) (b : Buffer) : Buffer :=
  mkBuffer (b_mem b) (b_seg_it b) (b_page_size b) (b_num_pages b) (b_pin_count b)
    (b_size b) (b_is_dirty b) (b_is_updated b) (b_is_appended b) v
    (b_token b).
Definition set_b_token (v : option Z) (b : Buffer) : Buffer :=
  mkBuffer (b_mem b) (b_seg_it b) (b_page_size b) (b_num_pages b) (b_pin_count b)
    (b_size b) (b_is_dirty b) (b_is_updated b) (b_is_appended b)
    (b_page_dirty_flags b) v.

(** [slabs_] holds the byte size of each slab in place of its address; [next_node] and
    [next_buffer] name the next list node and the next [Buffer] object, [alloc_calls] counts
    the calls of the slab allocator. *)
Record Mgr := mkMgr {
  slabs_ : list Z;
  slab_segments_ : list (list BufferSeg);
  unsized_segs_ : list BufferSeg;
  chunk_index_ : gmap ChunkKey Z;
  buffers_ : gmap Z Buffer;
  slab_mem : Z -> Z -> Z;
  num_pages_allocated_ : Z;
  current_max_slab_page_size_ : Z;
  allocations_capped_ : bool;
  max_buffer_id_ : Z;
  buffer_epoch_ : Z;
  next_node : Z;
  next_buffer : Z;
  alloc_calls : nat
}.

Definition set_slabs_ (v : list Z) (st : Mgr) : Mgr :=
  mkMgr v (slab_segments_ st) (unsized_segs_ st) (chunk_index_ st) (buffers_ st)
    (slab_mem st) (num_pages_allocated_ st) (current_max_slab_page_size_ st)
    (allocations_capped_ st) (max_buffer_id_ st) (buffer_epoch_ st)
    (next_node st) (next_buffer st) (alloc_calls st).
Definition set_slab_segments_ (v : list (list BufferSeg)) (st : Mgr) : Mgr :=
  mkMgr (slabs_ st) v (unsized_segs_ st) (chunk_index_ st) (buffers_ st)
    (slab_mem st) (num_pages_allocated_ st) (current_max_slab_page_size_ st)
    (allocations_capped_ st) (max_buffer_id_ st) (buffer_epoch_ st)
    (next_node st) (next_buffer st) (alloc_calls st).
Definition set_unsized_segs_ (v : list BufferSeg) (st : Mgr) : Mgr :=
  mkMgr (slabs_ st) (slab_segments_ st) v (chunk_index_ st) (buffers_ st)
    (slab_mem st) (num_pages_allocated_ st) (current_max_slab_page_size_ st)
    (allocations_capped_ st) (max_buffer_id_ st) (buffer_epoch_ st)
    (next_node st) (next_buffer st) (alloc_calls st).
Definition set_chunk_index_ (v : gmap ChunkKey Z) (st : Mgr) : Mgr :=
  mkMgr (slabs_ st) (slab_segments_ st) (unsized_segs_ st) v (buffers_ st)
    (slab_mem st) (num_pages_allocated_ st) (current_max_slab_page_size_ st)
    (allocations_capped_ st) (max_buffer_id_ st) (buffer_epoch_ st)
    (next_node st) (next_buffer st) (alloc_calls st).
Definition set_buffers_ (v : gmap Z Buffer) (st : Mgr) : Mgr :=
  mkMgr (slabs_ st) (slab_segments_ st) (unsized_segs_ st) (chunk_index_ st) v
    (slab_mem st) (num_pages_allocated_ st) (current_max_slab_page_size_ st)
    (allocations_capped_ st) (max_buffer_id_ st) (buffer_epoch_ st)
    (next_node st) (next_buffer st) (alloc_calls st).
Definition set_slab_mem (v : Z -> Z -> Z) (st : Mgr) : Mgr :=
  mkMgr (slabs_ st) (slab_segments_ st) (unsized_segs_ st) (chunk_index_ st)
    (buffers_ st) v (num_pages_allocated_ st)
    (current_max_slab_page_size_ st) (allocations_capped_ st)
    (max_buffer_id_ st) (buffer_epoch_ st) (next_node st) (next_buffer st)
    (alloc_calls st).
Definition set_num_pages_allocated_ (v : Z) (st : Mgr) : Mgr :=
  mkMgr (slabs_ st) (slab_segments_ st) (unsized_segs_ st) (chunk_index_ st)
    (buffers_ st) (slab_mem st) v (current_max_slab_page_size_ st)
    (allocations_capped_ st) (max_buffer_id_ st) (buffer_epoch_ st)
    (next_node st) (next_buffer st) (alloc_calls st).
Definition set_current_max_slab_page_size_ (v : Z) (st : Mgr) : Mgr :=
  mkMgr (slabs_ st) (slab_segments_ st) (unsized_segs_ st) (chunk_index_ st)
    (buffers_ st) (slab_mem st) (num_pages_allocated_ st) v
    (allocations_capped_ st) (max_buffer_id_ st) (buffer_epoch_ st)
    (next_node st) (next_buffer st) (alloc_calls st).
Definition set_allocations_capped_ (v : bool) (st : Mgr) : Mgr :=
  mkMgr (slabs_ st) (slab_segments_ st) (unsized_segs_ st) (chunk_index_ st)
    (buffers_ st) (slab_mem st) (num_pages_allocated_ st)
    (current_max_slab_page_size_ st) v (max_buffer_id_ st) (buffer_epoch_ st)
    (next_node st) (next_buffer st) (alloc_calls st).
Definition set_max_buffer_id_ (v : Z) (st : Mgr) : Mgr :=
  mkMgr (slabs_ st) (slab_segments_ st) (unsized_segs_ st) (chunk_index_ st)
    (buffers_ st) (slab_mem st) (num_pages_allocated_ st)
    (current_max_slab_page_size_ st) (allocations_capped_ st) v
    (buffer_epoch_ st) (next_node st) (next_buffer st) (alloc_calls st).
Definition set_buffer_epoch_ (v : Z) (st : Mgr) : Mgr :=
  mkMgr (slabs_ st) (slab_segments_ st) (unsized_segs_ st) (chunk_index_ st)
    (buffers_ st) (slab_mem st) (num_pages_allocated_ st)
    (current_max_slab_page_size_ st) (allocations_capped_ st)
    (max_buffer_id_ st) v (next_node st) (next_buffer st) (alloc_calls st).
Definition set_next_node (v : Z) (st : Mgr) : Mgr :=
  mkMgr (slabs_ st) (slab_segments_ st) (unsized_segs_ st) (chunk_index_ st)
    (buffers_ st) (slab_mem st) (num_pages_allocated_ st)
    (current_max_slab_page_size_ st) (allocations_capped_ st)
    (max_buffer_id_ st) (buffer_epoch_ st) v (next_buffer st)
    (alloc_calls st).
Definition set_next_buffer (v : Z) (st : Mgr) : Mgr :=
  mkMgr (slabs_ st) (slab_segments_ st) (unsized_segs_ st) (chunk_index_ st)
    (buffers_ st) (slab_mem st) (num_pages_allocated_ st)
    (current_max_slab_page_size_ st) (allocations_capped_ st)
    (max_buffer_id_ st) (buffer_epoch_ st) (next_node st) v (alloc_calls st).
Definition set_alloc_calls (v : nat) (st : Mgr) : Mgr :=
  mkMgr (slabs_ st) (slab_segments_ st) (unsized_segs_ st) (chunk_index_ st)
    (buffers_ st) (slab_mem st) (num_pages_allocated_ st)
    (current_max_slab_page_size_ st) (allocations_capped_ st)
    (max_buffer_id_ st) (buffer_epoch_ st) (next_node st) (next_buffer st) v.

(** The constants of a pool, set by its constructor. *)
Record Config := mkConfig {
  max_buffer_pool_size_ : Z;
  min_slab_size_ : Z;
  max_slab_size_ : Z;
  page_size_ : Z
}.

Definition max_buffer_pool_num_pages_ (c : Config) : Z := max_buffer_pool_size_ c / page_size_ c.
Definition max_num_pages_per_slab_ (c : Config) : Z := max_slab_size_ c / page_size_ c.
Definition min_num_pages_per_slab_ (c : Config) : Z := min_slab_size_ c / page_size_ c.

(** The [CHECK]s of the constructor. *)
Definition config_checks (c : Config) : bool :=
  (0 <? max_buffer_pool_size_ c) && (0 <? page_size_ c) && (0 <? min_slab_size_ c)
  && (0 <? max_slab_size_ c) && (min_slab_size_ c <=? max_slab_size_ c)
  && (min_slab_size_ c mod page_size_ c =? 0) && (max_slab_size_ c mod page_size_ c =? 0).

Definition BufferMgr_new (c : Config) : option Mgr :=
  if config_checks c then
    Some (mkMgr [] [] [] ∅ ∅ (fun _ _ => 0) 0 (max_num_pages_per_slab_ c) false 0 0 0 0 0%nat)
  else None.

(** ** The state and error monad

    A failed call keeps the state it reached, as a thrown exception does. *)

Abbreviation M := (ST BMError Mgr).

Definition check (b : bool) : M unit := if b then ret tt else throw CheckFailure.
Definition require {A : Type} (o : option A) : M A :=
  match o with Some a => ret a | None => throw UndefinedBehavior end.

(** [try ... catch (const OutOfMemory&)]. *)
Definition catch_oom {A : Type} (c : M A) (h : BMError -> M A) : M A :=
  fun st => match c st with
            | (Err e, st') => if is_OutOfMemory e then h e st' else (Err e, st')
            | r => r
            end.

Local Open Scope bm_scope.

(** ** Lists of segments *)

(** The segment of node [n], with the segments before it and the ones after it. *)
Fixpoint split_at (n : Z) (l : list BufferSeg)
    : option (list BufferSeg * BufferSeg * list BufferSeg) :=
  match l with
  | [] => None
  | s :: l' =>
      if node s =? n then Some ([], s, l')
      else match split_at n l' with
           | Some (pre, x, post) => Some (s :: pre, x, post)
           | None => None
           end
  end.

Definition update_node (n : Z) (f : BufferSeg -> BufferSeg) (l : list BufferSeg)
    : list BufferSeg := map (fun s => if node s =? n then f s else s) l.

(** All the list nodes of the pool. *)
Definition all_segs (st : Mgr) : list BufferSeg :=
  concat (slab_segments_ st) ++ unsized_segs_ st.

Definition find_node (n : Z) (l : list BufferSeg) : option BufferSeg :=
  List.find (fun s => node s =? n) l.

(** [*seg_it] and an assignment through [seg_it]. *)
Definition deref (n : Z) : M BufferSeg := fun st => require (find_node n (all_segs st)) st.
Definition update_seg (n : Z) (f : BufferSeg -> BufferSeg) : M unit :=
  modify (fun st => set_unsized_segs_ (update_node n f (unsized_segs_ st))
    (set_slab_segments_ (map (update_node n f) (slab_segments_ st)) st)).

(** [slab_segments_[slab_num]], read and written. *)
Definition get_slab (slab_num : Z) : M (list BufferSeg) :=
  fun st => if slab_num <? 0 then (Err UndefinedBehavior, st)
            else require (slab_segments_ st !! Z.to_nat slab_num) st.
Definition put_slab (slab_num : Z) (l : list BufferSeg) : M unit :=
  modify (fun st => set_slab_segments_ (<[Z.to_nat slab_num := l]> (slab_segments_ st)) st).

Definition fresh_node : M Z :=
  fun st => (Ok (next_node st), set_next_node (next_node st + 1) st).

(** [buffer_epoch_++] *)
Definition next_epoch : M Z :=
  fun st => (Ok (buffer_epoch_ st), set_buffer_epoch_ (u32 (buffer_epoch_ st + 1)) st).

(** [*buffer] and an assignment through [buffer]. *)
Definition get_buffer (b : Z) : M Buffer := fun st => require (buffers_ st !! b) st.
Definition update_buffer (b : Z) (f : Buffer -> Buffer) : M unit :=
  modify (fun st => set_buffers_ (alter f b (buffers_ st)) st).
Definition delete_buffer_object (b : Z) : M unit :=
  modify (fun st => set_buffers_ (delete b (buffers_ st)) st).

(** [seg.buffer->getPinCount()]; [None] when the pointer is null or dangling. *)
Definition seg_pin_count (buffers : gmap Z Buffer) (s : BufferSeg) : option Z :=
  match buffer s with
  | Some b => match buffers !! b with Some bf => Some (b_pin_count bf) | None => None end
  | None => None
  end.

(** What a pool is given from outside: its constants, the outcome of the [n]-th call of the
    slab allocator for a number of bytes, and the memory behind zero-copy tokens. *)
Class PoolEnv := {
  cfg : Config;
  alloc_ok : nat -> Z -> bool;
  token_size : Z -> Z;
  token_byte : Z -> Z -> Z
}.

Section Pool.

Context {E : PoolEnv}.

(** ** Memory *)

(** [memcpy] from [p + offset]; a null pointer may only be used for no bytes. *)
Definition read_bytes (p : MemPtr) (offset n : Z) : M (list Z) :=
  fun st =>
    let bytes (f : Z -> Z) := map (fun i => f (offset + Z.of_nat i)) (seq 0 (Z.to_nat n)) in
    match p with
    | NullPtr => if n =? 0 then (Ok [], st) else (Err UndefinedBehavior, st)
    | SlabPtr s o => (Ok (bytes (fun i => slab_mem st s (o + i))), st)
    | TokenPtr t => (Ok (bytes (token_byte t)), st)
    end.

Definition write_bytes (mem : Z -> Z -> Z) (slab offset : Z) (bytes : list Z) : Z -> Z -> Z :=
  fun s o =>
    if (s =? slab) && (offset <=? o) && (o <? offset + Z.of_nat (length bytes))
    then List.nth (Z.to_nat (o - offset)) bytes 0 else mem s o.

(** [CpuBuffer::writeData] from CPU memory; the memory of a token is read-only. *)
Definition writeData (b : Z) (src : list Z) (offset : Z) : M unit :=
  let! bf := get_buffer b in
  match b_mem bf, src with
  | SlabPtr s o, _ =>
      modify (fun st => set_slab_mem (write_bytes (slab_mem st) s (o + offset) src) st)
  | _, [] => ret tt
  | _, _ => throw UndefinedBehavior
  end.

Definition readData (b num_bytes offset : Z) : M (list Z) :=
  let! bf := get_buffer b in read_bytes (b_mem bf) offset num_bytes.

(** ** Slabs *)

(** [CpuBufferMgr::addSlab] *)
Definition addSlab (slab_size : Z) : M unit :=
  let! n := gets alloc_calls in
  do! modify (set_alloc_calls (S n)) in
  if alloc_ok n slab_size then
    let! node := fresh_node in
    modify (fun st =>
      set_slab_segments_
        (slab_segments_ st ++ [[BufferSeg_new node 0 (slab_size / page_size_ cfg) FREE]])
        (set_slabs_ (slabs_ st ++ [slab_size]) st))
  else throw (FailedToCreateSlab slab_size).

(** The loop of [findFreeBufferInSlab]: the changed list and the node found. *)
Fixpoint find_free (num_pages_requested slab_num epoch fresh : Z) (l : list BufferSeg)
    : option (list BufferSeg * Z) :=
  match l with
  | [] => None
  | s :: l' =>
      if is_free s && (num_pages_requested <=? num_pages s) then
        let excess_pages := num_pages s - num_pages_requested in
        let s' := set_slab_num slab_num (set_last_touched epoch
                    (set_mem_status USED (set_num_pages num_pages_requested s))) in
        Some (s' :: (if 0 <? excess_pages
                     then BufferSeg_new fresh (s32 (start_page s + num_pages_requested))
                            excess_pages FREE :: l'
                     else l'), node s)
      else
        match find_free num_pages_requested slab_num epoch fresh l' with
        | Some (l'', n) => Some (s :: l'', n)
        | None => None
        end
  end.

(** [None] is the end iterator. *)
Definition findFreeBufferInSlab (slab_num num_pages_requested : Z) : M (option Z) :=
  let! l := get_slab slab_num in
  let! st := gets id in
  match find_free num_pages_requested slab_num (buffer_epoch_ st) (next_node st) l with
  | Some (l', n) =>
      do! fresh_node in do! next_epoch in do! put_slab slab_num l' in ret (Some n)
  | None => ret None
  end.

(** ** Eviction *)

(** The [while] loop of [evict] over the segments from [evict_start] on: the pages
    released and the segments left. *)
Fixpoint evict_loop (num_pages_requested pages : Z) (l : list BufferSeg)
    : M (Z * list BufferSeg) :=
  if pages <? num_pages_requested then
    match l with
    | [] => throw UndefinedBehavior
    | s :: l' =>
        do! (if is_used s
             then fun st => match seg_pin_count (buffers_ st) s with
                            | Some p => check (p <? 1) st
                            | None => (Err UndefinedBehavior, st)
                            end
             else ret tt) in
        do! (if is_used s && negb (bool_decide (chunk_key s = []))
             then modify (fun st => set_chunk_index_ (delete (chunk_key s) (chunk_index_ st)) st)
             else ret tt) in
        do! (match buffer s with Some b => delete_buffer_object b | None => ret tt end) in
        evict_loop num_pages_requested (u64 (pages + num_pages s)) l'
    end
  else ret (pages, l).

Definition evict (evict_start num_pages_requested slab_num : Z) : M Z :=
  let! l := get_slab slab_num in
  let! '(pre, first, post) := require (split_at evict_start l) in
  let start := u64 (start_page first) in
  let! '(pages, rest) := evict_loop num_pages_requested 0 (first :: post) in
  let! data_node := fresh_node in
  let! epoch := next_epoch in
  let data_seg := set_slab_num slab_num (set_last_touched epoch
    (BufferSeg_new data_node (s32 start) num_pages_requested USED)) in
  let! free_node := fresh_node in
  let rest' :=
    if num_pages_requested <? pages then
      let excess_pages := pages - num_pages_requested in
      let free_seg := BufferSeg_new free_node (s32 (start + num_pages_requested))
                        excess_pages FREE in
      match rest with
      | r :: rest'' =>
          if is_free r
          then set_start_page (s32 (start + num_pages_requested))
                 (set_num_pages (u64 (num_pages r + excess_pages)) r) :: rest''
          else free_seg :: rest
      | [] => [free_seg]
      end
    else rest in
  do! put_slab slab_num (pre ++ data_seg :: rest') in
  ret data_node.

(** The inner loop over [evict_it] of [findFreeBuffer]: whether a window of enough
    unpinned pages starts here, its score, and whether the list ended first.  [None] is
    a null [buffer] in a used segment. *)
Fixpoint scan_window (buffers : gmap Z Buffer) (num_pages_requested page_count score : Z)
    (l : list BufferSeg) : option (bool * Z * bool) :=
  match l with
  | [] => Some (false, score, true)
  | s :: l' =>
      match (if is_used s then seg_pin_count buffers s else Some 0) with
      | None => None
      | Some pins =>
          if is_used s && (0 <? pins) then Some (false, score, false)
          else
            let page_count := u64 (page_count + num_pages s) in
            let score := if is_used s then Z.max score (last_touched s) else score in
            if num_pages_requested <=? page_count then Some (true, score, false)
            else scan_window buffers num_pages_requested page_count score l'
      end
  end.

(** Lowest score so far, with the window it belongs to: node and slab. *)
Definition Best : Type := Z * option (Z * Z).

(** The loop over [buffer_it] in one slab. *)
Fixpoint scan_slab (buffers : gmap Z Buffer) (num_pages_requested slab_num : Z)
    (l : list BufferSeg) (best : Best) : option Best :=
  match l with
  | [] => Some best
  | s :: l' =>
      match scan_window buffers num_pages_requested 0 0 l with
      | None => None
      | Some (solution_found, score, at_end) =>
          if solution_found && (score <? fst best)
          then scan_slab buffers num_pages_requested slab_num l' (score, Some (node s, slab_num))
          else if at_end then Some best
          else scan_slab buffers num_pages_requested slab_num l' best
      end
  end.

Fixpoint scan_slabs (buffers : gmap Z Buffer) (num_pages_requested slab_num : Z)
    (slabs : list (list BufferSeg)) (best : Best) : option Best :=
  match slabs with
  | [] => Some best
  | l :: slabs' =>
      match scan_slab buffers num_pages_requested slab_num l best with
      | None => None
      | Some best' => scan_slabs buffers num_pages_requested (slab_num + 1) slabs' best'
      end
  end.

(** The loop over the existing slabs of [findFreeBuffer]. *)
Fixpoint find_in_slabs (num_pages_requested : Z) (slab_num : nat) (count : nat)
    : M (option Z) :=
  match count with
  | O => ret None
  | S count' =>
      let! r := findFreeBufferInSlab (Z.of_nat slab_num) num_pages_requested in
      match r with
      | Some n => ret (Some n)
      | None => find_in_slabs num_pages_requested (S slab_num) count'
      end
  end.

(** The [while] loop of [findFreeBuffer] that adds a slab; [None] is falling through. *)
Fixpoint add_slab_loop (fuel : nat) (num_pages_requested num_slabs : Z) : M (option Z) :=
  match fuel with
  | O => throw OutOfFuel
  | S fuel' =>
      let! st := gets id in
      if negb (allocations_capped_ st)
         && (num_pages_allocated_ st <? max_buffer_pool_num_pages_ cfg)
      then
        let pagesLeft := max_buffer_pool_num_pages_ cfg - num_pages_allocated_ st in
        do! (if pagesLeft <? current_max_slab_page_size_ st
             then modify (set_current_max_slab_page_size_ pagesLeft) else ret tt) in
        let! cur := gets current_max_slab_page_size_ in
        if num_pages_requested <=? cur then
          let! added := catch_oom (do! addSlab (u64 (cur * page_size_ cfg)) in ret true)
                                  (fun _ => ret false) in
          if added then
            do! modify (fun st => set_num_pages_allocated_ (num_pages_allocated_ st + cur) st) in
            let! r := findFreeBufferInSlab num_slabs num_pages_requested in
            let! n := require r in ret (Some n)
          else if (cur / 2 <? num_pages_requested) && negb (cur =? num_pages_requested) then
            do! modify (set_current_max_slab_page_size_ num_pages_requested) in
            add_slab_loop fuel' num_pages_requested num_slabs
          else
            do! modify (set_current_max_slab_page_size_ (cur / 2)) in
            do! (if cur / 2 <? min_num_pages_per_slab_ cfg
                 then modify (set_allocations_capped_ true) else ret tt) in
            add_slab_loop fuel' num_pages_requested num_slabs
        else ret None
      else ret None
  end.

Definition add_slab_fuel : nat := 70.

Definition pages_for (num_bytes : Z) : Z := u64 (num_bytes + page_size_ cfg - 1) / page_size_ cfg.

Definition findFreeBuffer (num_bytes : Z) : M Z :=
  let num_pages_requested := pages_for num_bytes in
  if max_num_pages_per_slab_ cfg <? num_pages_requested then throw (TooBigForSlab num_bytes)
  else
    let! num_slabs := gets (fun st => length (slab_segments_ st)) in
    let! found := find_in_slabs num_pages_requested 0 num_slabs in
    match found with
    | Some n => ret n
    | None =>
        let! added := add_slab_loop add_slab_fuel num_pages_requested (Z.of_nat num_slabs) in
        match added with
        | Some n => ret n
        | None =>
            let! st := gets id in
            if (num_pages_allocated_ st =? 0) && allocations_capped_ st
            then throw (FailedToCreateFirstSlab num_bytes)
            else
              do! get_slab 0 in
              let! best := require (scan_slabs (buffers_ st) num_pages_requested 0
                                      (slab_segments_ st) (UINT64_MAX, None)) in
              match snd best with
              | None => throw (OutOfMemory num_bytes)
              | Some (start, slab) => evict start num_pages_requested slab
              end
        end
    end.

(** ** Segments of buffers *)

(** The merges of [removeSegment] with the previous and the next segment. *)
Definition merge_prev (pre : list BufferSeg) (s : BufferSeg) : list BufferSeg * BufferSeg :=
  match rev pre with
  | prev :: rpre =>
      if is_free prev
      then (rev rpre, set_num_pages (u64 (num_pages s + num_pages prev))
                        (set_start_page (start_page prev) s))
      else (pre, s)
  | [] => (pre, s)
  end.

Definition merge_next (s : BufferSeg) (post : list BufferSeg) : BufferSeg * list BufferSeg :=
  match post with
  | next :: post' =>
      if is_free next then (set_num_pages (u64 (num_pages s + num_pages next)) s, post')
      else (s, post)
  | [] => (s, post)
  end.

Definition removeSegment (seg_it : Z) : M unit :=
  let! seg := deref seg_it in
  if slab_num seg <? 0 then
    modify (fun st => set_unsized_segs_
      (List.filter (fun s => negb (node s =? seg_it)) (unsized_segs_ st)) st)
  else
    let! l := get_slab (slab_num seg) in
    let! '(pre, s, post) := require (split_at seg_it l) in
    let '(pre', s1) := merge_prev pre s in
    let '(s2, post') := merge_next s1 post in
    put_slab (slab_num seg) (pre' ++ set_buffer None (set_mem_status FREE s2) :: post').

(** The end of [reserveBuffer], from the copy of the chunk's key and buffer to the segment
    found for it ([new_seg_it]) on. *)
Definition reserve_tail (new_seg_it seg_it : Z) : M Z :=
  let! seg := deref seg_it in
  do! update_seg new_seg_it (fun s => set_chunk_key (chunk_key seg) (set_buffer (buffer seg) s)) in
  let! b := require (buffer seg) in
  let! bf := get_buffer b in
  let old_mem := b_mem bf in
  let! new_seg := deref new_seg_it in
  do! update_buffer b
        (set_b_mem (SlabPtr (slab_num new_seg) (start_page new_seg * page_size_ cfg))) in
  do! (if 0 <=? start_page seg then
         let! bytes := read_bytes old_mem 0 (b_size bf) in writeData b bytes 0
       else ret tt) in
  do! removeSegment seg_it in
  do! modify (fun st => set_chunk_index_
                (<[chunk_key new_seg := new_seg_it]> (chunk_index_ st)) st) in
  ret new_seg_it.

Definition reserveBuffer (seg_it num_bytes : Z) : M Z :=
  let num_pages_requested := pages_for num_bytes in
  let! seg := deref seg_it in
  let num_pages_extra_needed := u64 (num_pages_requested - num_pages seg) in
  if num_pages_requested <? num_pages seg then ret seg_it
  else
    let! grown :=
      (if 0 <=? slab_num seg then
         let! l := get_slab (slab_num seg) in
         let! '(pre, s, post) := require (split_at seg_it l) in
         match post with
         | next :: post' =>
             if is_free next && (num_pages_extra_needed <=? num_pages next) then
               let leftover_pages := num_pages next - num_pages_extra_needed in
               let s' := set_num_pages num_pages_requested s in
               let next' := set_start_page (s32 (start_page s' + num_pages s'))
                              (set_num_pages leftover_pages next) in
               do! put_slab (slab_num seg) (pre ++ s' :: next' :: post') in ret true
             else ret false
         | [] => ret false
         end
       else ret false) in
    if grown : bool then ret seg_it
    else
      let! new_seg_it := findFreeBuffer num_bytes in reserve_tail new_seg_it seg_it.

(** ** [Buffer] *)

Definition pin (b : Z) : M unit :=
  update_buffer b (fun bf => set_b_pin_count (s32 (b_pin_count bf + 1)) bf).
Definition unPin (b : Z) : M unit :=
  update_buffer b (fun bf => set_b_pin_count (s32 (b_pin_count bf - 1)) bf).

Definition reservedSize (bf : Buffer) : Z := u64 (b_page_size bf * b_num_pages bf).

Definition Buffer_reserve (b num_bytes : Z) : M unit :=
  let! bf := get_buffer b in
  let pages := u64 (num_bytes + b_page_size bf - 1) / b_page_size bf in
  if b_num_pages bf <? pages then
    do! (match b_token bf with
         | Some _ => update_buffer b (fun bf => set_b_mem NullPtr
                                        (set_b_size 0 (set_b_token None bf)))
         | None => ret tt
         end) in
    let! seg_it := reserveBuffer (b_seg_it bf) (u64 (b_page_size bf * pages)) in
    update_buffer b (fun bf => set_b_num_pages pages
      (set_b_page_dirty_flags (resize (Z.to_nat pages) false (b_page_dirty_flags bf))
         (set_b_seg_it seg_it bf)))
  else ret tt.

Definition setDirty (bf : Buffer) : Buffer := set_b_is_dirty true bf.
Definition setUpdated (bf : Buffer) : Buffer := set_b_is_dirty true (set_b_is_updated true bf).
Definition setAppended (bf : Buffer) : Buffer := set_b_is_dirty true (set_b_is_appended true bf).

Definition Buffer_read (b num_bytes offset : Z) : M (list Z) :=
  if num_bytes =? 0 then ret []
  else
    let! bf := get_buffer b in
    do! check (negb (bool_decide (b_mem bf = NullPtr))) in
    do! check (u64 (num_bytes + offset) <=? b_size bf) in
    readData b num_bytes offset.

(** [page_dirty_flags_[i] = true] for the pages from [first] to [last]. *)
Definition mark_pages (first last : Z) (flags : list bool) : list bool :=
  imap (fun i f => f || ((first <=? Z.of_nat i) && (Z.of_nat i <=? last))) flags.

(** [Buffer::write] once there is room for the bytes. *)
Definition write_tail (b : Z) (src : list Z) (offset : Z) : M unit :=
  let num_bytes := Z.of_nat (length src) in
  do! writeData b src offset in
  do! update_buffer b setDirty in
  let! bf := get_buffer b in
  do! (if offset <? b_size bf then update_buffer b setUpdated else ret tt) in
  do! (if b_size bf <? u64 (offset + num_bytes)
       then update_buffer b (fun bf => set_b_size (u64 (offset + num_bytes)) (setAppended bf))
       else ret tt) in
  let first_dirty_page := offset / b_page_size bf in
  let last_dirty_page := u64 (offset + num_bytes - 1) / b_page_size bf in
  do! (if last_dirty_page <? Z.of_nat (length (b_page_dirty_flags bf))
       then ret tt else throw UndefinedBehavior) in
  update_buffer b (fun bf => set_b_page_dirty_flags
    (mark_pages first_dirty_page last_dirty_page (b_page_dirty_flags bf)) bf).

Definition Buffer_write (b : Z) (src : list Z) (offset : Z) : M unit :=
  let num_bytes := Z.of_nat (length src) in
  do! check (0 <? num_bytes) in
  let! bf := get_buffer b in
  do! (if reservedSize bf <? u64 (num_bytes + offset)
       then Buffer_reserve b (u64 (num_bytes + offset)) else ret tt) in
  write_tail b src offset.

Definition Buffer_append (b : Z) (src : list Z) : M unit :=
  let num_bytes := Z.of_nat (length src) in
  do! update_buffer b setAppended in
  let! bf := get_buffer b in
  do! (if reservedSize bf <? u64 (num_bytes + b_size bf)
       then Buffer_reserve b (u64 (num_bytes + b_size bf)) else ret tt) in
  let! bf := get_buffer b in
  do! writeData b src (b_size bf) in
  update_buffer b (fun bf => set_b_size (u64 (b_size bf + num_bytes)) bf).

(** [new CpuBuffer(...)], the constructor of [Buffer]: when it throws, the object is gone. *)
Definition allocateBuffer (seg_it page_size initial_size : Z) : M Z :=
  let! b := gets next_buffer in
  do! modify (fun st => set_next_buffer (b + 1) (set_buffers_
        (<[b := mkBuffer NullPtr seg_it page_size 0 0 0 false false false [] None]> (buffers_ st))
        st)) in
  do! pin b in
  do! update_seg seg_it (set_buffer (Some b)) in
  catch_oom
    (do! (if 0 <? initial_size then Buffer_reserve b initial_size else ret tt) in ret b)
    (fun e => do! delete_buffer_object b in throw e).

Definition allocateZeroCopyBuffer (seg_it page_size token : Z) : M Z :=
  let! b := gets next_buffer in
  do! modify (fun st => set_next_buffer (b + 1) (set_buffers_
        (<[b := mkBuffer (TokenPtr token) seg_it page_size 0 0 0 false false false [] (Some token)]>
           (buffers_ st)) st)) in
  do! pin b in
  do! update_seg seg_it (set_buffer (Some b)) in
  do! update_buffer b (set_b_size (token_size token)) in
  ret b.

(** ** The chunk index *)

Definition deleteBuffer (key : ChunkKey) : M unit :=
  let! idx := gets chunk_index_ in
  match idx !! key with
  | None => throw CheckFailure
  | Some seg_it =>
      do! modify (fun st => set_chunk_index_ (delete key (chunk_index_ st)) st) in
      let! seg := deref seg_it in
      do! (match buffer seg with
           | Some b => do! delete_buffer_object b in update_seg seg_it (set_buffer None)
           | None => ret tt
           end) in
      removeSegment seg_it
  end.

(** The part of [createBuffer] and [createZeroCopyBuffer] under the chunk index lock. *)
Definition new_unsized_seg (key : ChunkKey) : M Z :=
  let! idx := gets chunk_index_ in
  do! check (bool_decide (idx !! key = None)) in
  let! seg_it := fresh_node in
  do! modify (fun st => set_unsized_segs_
        (unsized_segs_ st ++ [set_chunk_key key (BufferSeg_new seg_it (-1) 0 USED)]) st) in
  do! modify (fun st => set_chunk_index_ (<[key := seg_it]> (chunk_index_ st)) st) in
  ret seg_it.

Definition createBuffer (key : ChunkKey) (chunk_page_size initial_size : Z) : M Z :=
  let actual_chunk_page_size :=
    if chunk_page_size =? 0 then page_size_ cfg else chunk_page_size in
  let! seg_it := new_unsized_seg key in
  do! catch_oom (allocateBuffer seg_it actual_chunk_page_size initial_size)
        (fun e =>
           let! idx := gets chunk_index_ in
           match idx !! key with
           | None => throw CheckFailure
           | Some it =>
               do! update_seg it (set_buffer None) in
               do! deleteBuffer key in throw e
           end) in
  let! idx := gets chunk_index_ in
  let! it := require (idx !! key) in
  let! seg := deref it in
  let! b := require (buffer seg) in
  let! bf := get_buffer b in
  do! check ((initial_size =? 0) || negb (bool_decide (b_mem bf = NullPtr))) in
  ret b.

Definition createZeroCopyBuffer (key : ChunkKey) (token : Z) : M Z :=
  let! seg_it := new_unsized_seg key in
  allocateZeroCopyBuffer seg_it (page_size_ cfg) token.

Definition isBufferOnDevice (key : ChunkKey) (st : Mgr) : bool :=
  bool_decide (is_Some (chunk_index_ st !! key)).

(** [std::vector<int>::operator<]: the order of the keys of [chunk_index_]. *)
Fixpoint key_lt (a b : ChunkKey) : bool :=
  match a, b with
  | _, [] => false
  | [], _ :: _ => true
  | x :: a', y :: b' => (x <? y) || ((x =? y) && key_lt a' b')
  end.

Fixpoint insert_key (k : ChunkKey) (l : list ChunkKey) : list ChunkKey :=
  match l with
  | [] => [k]
  | x :: l' => if key_lt k x then k :: l else x :: insert_key k l'
  end.

(** The keys of the index in the order of the [std::map]. *)
Definition sorted_keys (idx : gmap ChunkKey Z) : list ChunkKey :=
  foldr insert_key [] (map fst (map_to_list idx)).

(** The [while] loop of [deleteBuffersWithPrefix] over the keys from the lower bound on.
    [std::search] finds a non-empty prefix in the first [size] elements exactly when they
    are equal to it, and an empty pattern at the start, which is the end of the range. *)
Fixpoint delete_prefix_loop (key_prefix : ChunkKey) (keys : list ChunkKey) : M unit :=
  match keys with
  | [] => ret tt
  | k :: keys' =>
      if (length k <? length key_prefix)%nat then throw UndefinedBehavior
      else if bool_decide (take (length key_prefix) k = key_prefix)
              && negb (bool_decide (key_prefix = []))
      then
        let! idx := gets chunk_index_ in
        let! seg_it := require (idx !! k) in
        let! seg := deref seg_it in
        let! pinned :=
          (match buffer seg with
           | Some b =>
               let! bf := get_buffer b in
               if negb (b_pin_count bf =? 0) then ret true
               else do! delete_buffer_object b in
                    do! update_seg seg_it (set_buffer None) in ret false
           | None => ret false
           end) in
        do! (if pinned : bool then ret tt
             else do! removeSegment seg_it in
                  modify (fun st => set_chunk_index_ (delete k (chunk_index_ st)) st)) in
        delete_prefix_loop key_prefix keys'
      else ret tt
  end.

Definition deleteBuffersWithPrefix (key_prefix : ChunkKey) : M unit :=
  let! idx := gets chunk_index_ in
  delete_prefix_loop key_prefix
    (List.filter (fun k => negb (key_lt k key_prefix)) (sorted_keys idx)).

(** ** Clearing and statistics *)

Definition reinit : M unit :=
  modify (fun st => set_num_pages_allocated_ 0
    (set_current_max_slab_page_size_ (max_num_pages_per_slab_ cfg)
       (set_allocations_capped_ false st))).

(** [delete buf.second->buffer] for every entry, then the containers are emptied. *)
Fixpoint delete_indexed (its : list Z) : M unit :=
  match its with
  | [] => ret tt
  | it :: its' =>
      let! seg := deref it in
      do! (match buffer seg with Some b => delete_buffer_object b | None => ret tt end) in
      delete_indexed its'
  end.

Definition clear : M unit :=
  let! idx := gets chunk_index_ in
  do! delete_indexed (map snd (map_to_list idx)) in
  modify (fun st => set_buffer_epoch_ 0 (set_unsized_segs_ [] (set_slab_segments_ []
    (set_slabs_ [] (set_chunk_index_ ∅ st))))).

(** The loop over one [segment_list]: the node of the current segment stays in the list
    when [deleteBuffer] merges it with its neighbours.  [fuel] bounds the nodes visited. *)
Fixpoint clear_slab_loop (fuel : nat) (slab_num : Z) (it : option Z) (pinned_exists : bool)
    : M bool :=
  match fuel, it with
  | _, None => ret pinned_exists
  | O, _ => throw OutOfFuel
  | S fuel', Some n =>
      let! seg := deref n in
      let! pinned_exists :=
        (if is_free seg then ret pinned_exists
         else let! pins := (fun st => require (seg_pin_count (buffers_ st) seg) st) in
              if pins <? 1 then do! deleteBuffer (chunk_key seg) in ret pinned_exists
              else ret true) in
      let! l := get_slab slab_num in
      let! '(_, _, post) := require (split_at n l) in
      clear_slab_loop fuel' slab_num (option_map node (head post)) pinned_exists
  end.

Fixpoint clear_slabs_loop (slab_num count : nat) (pinned_exists : bool) : M bool :=
  match count with
  | O => ret pinned_exists
  | S count' =>
      let! l := get_slab (Z.of_nat slab_num) in
      let! pinned_exists :=
        clear_slab_loop (S (length l)) (Z.of_nat slab_num) (option_map node (head l))
          pinned_exists in
      clear_slabs_loop (S slab_num) count' pinned_exists
  end.

Definition clearSlabs : M unit :=
  let! num_slabs := gets (fun st => length (slab_segments_ st)) in
  let! pinned_exists := clear_slabs_loop 0 num_slabs false in
  if pinned_exists : bool then ret tt
  else do! clear in reinit.

Definition getMaxSize : Z := u64 (page_size_ cfg * max_buffer_pool_num_pages_ cfg).
Definition getAllocated (st : Mgr) : Z := u64 (num_pages_allocated_ st * page_size_ cfg).
Definition isAllocationCapped (st : Mgr) : bool := allocations_capped_ st.
Definition getPageSize : Z := page_size_ cfg.
Definition BufferMgr_size (st : Mgr) : Z := num_pages_allocated_ st.
Definition getMaxBufferSize : Z := max_buffer_pool_size_ cfg.
Definition getMaxSlabSize : Z := max_slab_size_ cfg.

Definition getInUseSize (st : Mgr) : Z :=
  fold_left (fun in_use segment_list =>
    fold_left (fun in_use segment =>
      if is_free segment then in_use else u64 (in_use + num_pages segment * page_size_ cfg))
      segment_list in_use) (slab_segments_ st) 0.

Definition getNumChunks (st : Mgr) : Z := Z.of_nat (size (chunk_index_ st)).

Record MemoryData := mkMemoryData {
  slabNum : Z; startPage : Z; numPages : Z; touch : Z; md_chunk_key : ChunkKey;
  memStatus : MemStatus
}.

Record MemoryInfo := mkMemoryInfo {
  pageSize : Z; maxNumPages : Z; numPageAllocated : Z; mi_isAllocationCapped : bool;
  nodeMemoryData : list MemoryData
}.

Definition getMemoryInfo (st : Mgr) : MemoryInfo :=
  mkMemoryInfo getPageSize (getMaxSize / getPageSize) (getAllocated st / getPageSize)
    (isAllocationCapped st)
    (concat (imap (fun i l =>
       map (fun s => mkMemoryData (Z.of_nat i) (start_page s) (num_pages s) (last_touched s)
                       (chunk_key s) (mem_status s)) l) (slab_segments_ st))).

Definition getBufferId : M Z :=
  fun st => (Ok (max_buffer_id_ st), set_max_buffer_id_ (s32 (max_buffer_id_ st + 1)) st).

Definition alloc (num_bytes : Z) : M Z :=
  let! id := getBufferId in createBuffer [-1; id] (page_size_ cfg) num_bytes.

Definition free (b : Z) : M unit :=
  let! bf := get_buffer b in
  let! seg := deref (b_seg_it bf) in
  deleteBuffer (chunk_key seg).

End Pool.
