(* ===== verification/BufferInv.v ===== *)
(** * Lists of buffer segments

    Tiling, coalescing and node lookup: the facts about segment lists the pool invariant
    is built from. *)

From Stdlib Require Import ZArith Lia List Bool.
From stdpp Require Import base gmap list numbers.
From S2P Require Import Prelude StateMonad BufferMgr.
Import ListNotations.
Local Open Scope Z_scope.

(** [tiled a l e]: the segments of [l] cover the pages from [a] to [e] without gap. *)
Fixpoint tiled (a : Z) (l : list BufferSeg) (e : Z) : Prop :=
  match l with
  | [] => a = e
  | s :: l' => start_page s = a /\ 0 <= num_pages s /\ tiled (a + num_pages s) l' e
  end.

(** No two neighbours are free. *)
Fixpoint coalesced (l : list BufferSeg) : Prop :=
  match l with
  | s :: (t :: _) as l' => ~ (mem_status s = FREE /\ mem_status t = FREE) /\ coalesced l'
  | _ => True
  end.

Definition nodes (l : list BufferSeg) : list Z := map node l.

Lemma is_free_spec s : is_free s = true <-> mem_status s = FREE.
Proof. apply bool_decide_eq_true. Qed.
Lemma is_used_spec s : is_used s = true <-> mem_status s = USED.
Proof. apply bool_decide_eq_true. Qed.
Lemma is_free_false s : is_free s = false <-> mem_status s = USED.
Proof. unfold is_free. rewrite bool_decide_eq_false. destruct (mem_status s); naive_solver. Qed.
Lemma is_used_false s : is_used s = false <-> mem_status s = FREE.
Proof. unfold is_used. rewrite bool_decide_eq_false. destruct (mem_status s); naive_solver. Qed.

(** [seg_status] turns the boolean status tests of the context into equations. *)
Ltac seg_status :=
  repeat match goal with
  | H : is_free _ = true |- _ => apply is_free_spec in H
  | H : is_used _ = true |- _ => apply is_used_spec in H
  | H : is_free _ = false |- _ => apply is_free_false in H
  | H : is_used _ = false |- _ => apply is_used_false in H
  end.

(** ** Tiling *)

Lemma tiled_le a l e : tiled a l e -> a <= e.
Proof. revert a. induction l as [|s l IH]; intros a; cbn; [lia|]. intros (_ & ? & H). apply IH in H. lia. Qed.

Lemma tiled_app a l1 l2 e : tiled a (l1 ++ l2) e <-> exists m, tiled a l1 m /\ tiled m l2 e.
Proof.
  revert a. induction l1 as [|s l1 IH]; intros a; cbn.
  - split; [intros H; now exists a | intros (m & -> & H); exact H].
  - rewrite IH. split.
    + intros (? & ? & m & ? & ?). eauto.
    + intros (m & (? & ? & ?) & ?). eauto.
Qed.

(** Replacing a stretch of segments by another one that covers the same pages. *)
Lemma tiled_splice a pre mid mid' post e :
  (forall x y, a <= x -> y <= e -> tiled x mid y -> tiled x mid' y) ->
  tiled a (pre ++ mid ++ post) e -> tiled a (pre ++ mid' ++ post) e.
Proof.
  intros Hm. rewrite !tiled_app. intros (m & H1 & H2). rewrite tiled_app in H2.
  destruct H2 as (m' & H2 & H3). exists m. split; [exact H1|]. apply tiled_app.
  exists m'. split; [|exact H3]. apply Hm; [| | exact H2].
  - exact (tiled_le _ _ _ H1).
  - exact (tiled_le _ _ _ H3).
Qed.

Lemma tiled_in a l e s :
  tiled a l e -> s ∈ l -> a <= start_page s /\ 0 <= num_pages s /\ start_page s + num_pages s <= e.
Proof.
  revert a. induction l as [|t l IH]; intros a; cbn; [set_solver|].
  intros (<- & Ht & H) Hin. apply elem_of_cons in Hin as [->|Hin].
  - apply tiled_le in H. lia.
  - destruct (IH _ H Hin) as (? & ? & ?). lia.
Qed.

(** The page ranges of two segments of a tiling do not overlap. *)
Lemma tiled_disjoint a l e s t :
  tiled a l e -> NoDup (nodes l) -> s ∈ l -> t ∈ l -> node s <> node t ->
  start_page s + num_pages s <= start_page t \/ start_page t + num_pages t <= start_page s.
Proof.
  revert a. induction l as [|x l IH]; intros a; cbn; [set_solver|].
  intros (<- & Hx & H) Hnd Hs Ht Hne. apply list.NoDup_cons in Hnd as [Hni Hnd].
  apply elem_of_cons in Hs as [->|Hs], Ht as [->|Ht].
  - congruence.
  - left. now apply (tiled_in _ _ _ _ H) in Ht as (? & ? & ?).
  - right. now apply (tiled_in _ _ _ _ H) in Hs as (? & ? & ?).
  - now apply (IH _ H).
Qed.

(** ** Coalescing *)

Lemma coalesced_app_inv l1 l2 : coalesced (l1 ++ l2) -> coalesced l1 /\ coalesced l2.
Proof.
  induction l1 as [|s l1 IH]; intros H; [now split|].
  destruct l1 as [|t l1]; cbn in *.
  - split; [exact I|]. destruct l2; [exact I | now destruct H].
  - destruct H as [? H]. apply IH in H as [? ?]. repeat split; assumption.
Qed.

(** A list may be cut in front of any segment that is used on one side. *)
Lemma coalesced_join l1 s l2 :
  coalesced (l1 ++ [s]) -> coalesced (s :: l2) -> coalesced (l1 ++ s :: l2).
Proof.
  induction l1 as [|t l1 IH]; intros H1 H2; [exact H2|].
  destruct l1 as [|u l1]; cbn in *.
  - destruct H1 as [? _]. now split.
  - destruct H1 as [? H1]. split; [assumption|]. now apply IH.
Qed.

Lemma coalesced_snoc_used l s :
  mem_status s = USED -> coalesced l -> coalesced (l ++ [s]).
Proof.
  intros Hs. induction l as [|t l IH]; intros H; [exact I|].
  destruct l as [|u l]; cbn in *.
  - split; [|exact I]. intros [_ ?]; congruence.
  - destruct H as [? H]. split; [assumption|]. now apply IH.
Qed.

Lemma coalesced_cons_used l s :
  mem_status s = USED -> coalesced l -> coalesced (s :: l).
Proof. intros Hs H. destruct l as [|t l]; [exact I|]. split; [|exact H]. intros [? _]; congruence. Qed.

(** The neighbours only see the status of a segment. *)
Lemma coalesced_status l1 s s' l2 :
  mem_status s = mem_status s' -> coalesced (l1 ++ s :: l2) -> coalesced (l1 ++ s' :: l2).
Proof.
  intros Hs. induction l1 as [|t l1 IH].
  - destruct l2; [done|]. cbn. now rewrite Hs.
  - destruct l1 as [|u l1].
    + intros [? H]. split; [now rewrite <- Hs | now apply IH].
    + intros [? H]. split; [assumption | now apply IH].
Qed.

Lemma coalesced_used_mid pre s post :
  mem_status s = USED -> coalesced pre -> coalesced post -> coalesced (pre ++ s :: post).
Proof.
  intros Hs H1 H2. apply coalesced_join; [now apply coalesced_snoc_used | now apply coalesced_cons_used].
Qed.

(** ** Finding nodes *)

Lemma split_at_spec n l pre s post :
  split_at n l = Some (pre, s, post) -> l = pre ++ s :: post /\ node s = n.
Proof.
  revert pre. induction l as [|t l IH]; intros pre H; cbn in H; [discriminate|].
  destruct (Z.eqb_spec (node t) n); [now inversion H; subst|].
  destruct (split_at n l) as [[[pre' x] post']|]; [|discriminate]. inversion H; subst.
  destruct (IH pre' eq_refl) as [-> ?]. now split.
Qed.

Lemma split_at_in l s :
  NoDup (nodes l) -> s ∈ l -> exists pre post, split_at (node s) l = Some (pre, s, post).
Proof.
  induction l as [|t l IH]; intros Hnd Hin; [set_solver|]. cbn in *.
  apply list.NoDup_cons in Hnd as [Hni Hnd]. destruct (Z.eqb_spec (node t) (node s)) as [E|N].
  - apply elem_of_cons in Hin as [->|Hin]; [eauto|]. exfalso. apply Hni. rewrite E.
    unfold nodes. apply list_elem_of_fmap. eauto.
  - apply elem_of_cons in Hin as [->|Hin]; [congruence|].
    destruct (IH Hnd Hin) as (pre & post & ->). eauto.
Qed.

Lemma elem_mid {A : Type} (pre post : list A) (s : A) : s ∈ pre ++ s :: post.
Proof. apply elem_of_app. right. apply elem_of_cons. now left. Qed.

Lemma nodes_app l1 l2 : nodes (l1 ++ l2) = nodes l1 ++ nodes l2.
Proof. apply map_app. Qed.

Lemma nodes_in s l : s ∈ l -> node s ∈ nodes l.
Proof. intros H. apply list_elem_of_fmap. eauto. Qed.

Lemma nodes_in_inv n l : n ∈ nodes l -> exists s, s ∈ l /\ node s = n.
Proof. intros H. apply list_elem_of_fmap in H as (s & -> & H). eauto. Qed.

Lemma nodup_nodes_eq l s t : NoDup (nodes l) -> s ∈ l -> t ∈ l -> node s = node t -> s = t.
Proof.
  induction l as [|x l IH]; intros Hnd Hs Ht E; [set_solver|]. cbn in Hnd.
  apply list.NoDup_cons in Hnd as [Hni Hnd].
  apply elem_of_cons in Hs as [->|Hs], Ht as [->|Ht]; auto.
  - exfalso. apply Hni. rewrite E. now apply nodes_in.
  - exfalso. apply Hni. rewrite <- E. now apply nodes_in.
Qed.

Lemma update_node_elem n f l s :
  (forall x, node (f x) = node x) ->
  s ∈ update_node n f l <->
  exists x, x ∈ l /\ ((node x = n /\ s = f x) \/ (node x <> n /\ s = x)).
Proof.
  intros Hf. unfold update_node. rewrite list_elem_of_fmap. split.
  - intros (x & -> & Hx). exists x. split; [exact Hx|]. destruct (Z.eqb_spec (node x) n); auto.
  - intros (x & Hx & [[E ->]|[N ->]]); exists x; (split; [|exact Hx]);
      destruct (Z.eqb_spec (node x) n); congruence.
Qed.

Lemma update_node_nodes n f l : (forall x, node (f x) = node x) -> nodes (update_node n f l) = nodes l.
Proof.
  intros Hf. unfold nodes, update_node. rewrite map_map. apply map_ext. intros x.
  destruct (Z.eqb_spec (node x) n); auto.
Qed.

Lemma nodup_insert_after (pre post : list Z) n fr :
  NoDup (pre ++ n :: post) -> fr ∉ pre ++ n :: post -> NoDup (pre ++ n :: fr :: post).
Proof.
  intros Hnd Hni. change (n :: fr :: post) with ([n] ++ fr :: post).
  rewrite (app_assoc pre [n]), <- Permutation_middle, <- app_assoc. now apply list.NoDup_cons.
Qed.

(** ** The loop of [findFreeBufferInSlab] *)

Lemma find_free_some req i ep fr l l' n :
  find_free req i ep fr l = Some (l', n) ->
  exists pre s post, l = pre ++ s :: post /\ n = node s /\ mem_status s = FREE /\
    req <= num_pages s /\
    l' = pre ++ set_slab_num i (set_last_touched ep (set_mem_status USED (set_num_pages req s)))
           :: (if 0 <? num_pages s - req
               then BufferSeg_new fr (s32 (start_page s + req)) (num_pages s - req) FREE :: post
               else post).
Proof.
  revert l'. induction l as [|s l IH]; intros l' H; cbn in H; [discriminate|].
  destruct (is_free s && (req <=? num_pages s)) eqn:E.
  - inversion H; subst. apply andb_true_iff in E as [Ef El]. apply Z.leb_le in El.
    exists [], s, l. repeat split; auto. now apply is_free_spec.
  - destruct (find_free req i ep fr l) as [[l'' n']|]; [|discriminate]. inversion H; subst.
    destruct (IH l'' eq_refl) as (pre & x & post & -> & ? & ? & ? & ->).
    exists (s :: pre), x, post. repeat split; auto.
Qed.

Lemma find_free_none req i ep fr l s :
  find_free req i ep fr l = None -> s ∈ l -> mem_status s = FREE -> num_pages s < req.
Proof.
  induction l as [|t l IH]; intros H Hin Hs; [set_solver|]. cbn in H.
  destruct (is_free t && (req <=? num_pages t)) eqn:E; [discriminate|].
  destruct (find_free req i ep fr l) as [[? ?]|] eqn:E2; [discriminate|].
  apply elem_of_cons in Hin as [->|Hin]; [|now apply IH].
  apply andb_false_iff in E as [E|E]; [seg_status; congruence|]. lia.
Qed.

(** ** Total pages *)

Fixpoint pages_of (l : list BufferSeg) : Z :=
  match l with [] => 0 | s :: l' => num_pages s + pages_of l' end.

Lemma pages_of_app l1 l2 : pages_of (l1 ++ l2) = pages_of l1 + pages_of l2.
Proof. induction l1; cbn; lia. Qed.

Lemma tiled_pages a l e : tiled a l e -> e = a + pages_of l /\ 0 <= pages_of l.
Proof.
  revert a. induction l as [|s l IH]; intros a; cbn; [lia|].
  intros (_ & ? & T). apply IH in T. lia.
Qed.

Lemma pages_of_prefix l1 l2 :
  (forall s, s ∈ l2 -> 0 <= num_pages s) -> pages_of l1 <= pages_of (l1 ++ l2).
Proof.
  intros Hp. rewrite pages_of_app. assert (0 <= pages_of l2); [|lia].
  induction l2 as [|s l2 IH]; cbn; [lia|].
  assert (0 <= num_pages s) by (apply Hp; set_solver).
  assert (0 <= pages_of l2) by (apply IH; intros; apply Hp; set_solver). lia.
Qed.

(** The nodes of the used segments. *)
Definition used_nodes (l : list BufferSeg) : list Z := nodes (List.filter is_used l).

Lemma used_nodes_elem n l : n ∈ used_nodes l <-> exists s, s ∈ l /\ node s = n /\ mem_status s = USED.
Proof.
  unfold used_nodes. split.
  - intros (s & Hs & <-)%nodes_in_inv. apply list_elem_of_In, filter_In in Hs as [Hs Hu].
    exists s. rewrite list_elem_of_In. seg_status. auto.
  - intros (s & Hs & <- & Hu). apply nodes_in, list_elem_of_In, filter_In.
    rewrite <- list_elem_of_In, is_used_spec. auto.
Qed.

Lemma used_nodes_cons n s l :
  n ∈ used_nodes (s :: l) <-> (is_used s = true /\ n = node s) \/ n ∈ used_nodes l.
Proof.
  unfold used_nodes. cbn. destruct (is_used s); cbn; [|naive_solver].
  rewrite elem_of_cons. naive_solver.
Qed.

(** ** The segments [evict] leaves behind the new one *)

Definition leftover (free_node start req pages : Z) (rest : list BufferSeg) : list BufferSeg :=
  if req <? pages then
    let excess_pages := pages - req in
    let free_seg := BufferSeg_new free_node (s32 (start + req)) excess_pages FREE in
    match rest with
    | r :: rest'' =>
        if is_free r
        then set_start_page (s32 (start + req))
               (set_num_pages (u64 (num_pages r + excess_pages)) r) :: rest''
        else free_seg :: rest
    | [] => [free_seg]
    end
  else rest.

Lemma leftover_tiled fr start req pages rest e :
  0 <= start -> 0 <= req <= pages -> e < 2147483648 ->
  tiled (start + pages) rest e -> tiled (start + req) (leftover fr start req pages rest) e.
Proof.
  intros Hs Hr He T. pose proof (tiled_le _ _ _ T) as Hle. unfold leftover.
  destruct (Z.ltb_spec req pages); [|now replace req with pages by lia].
  rewrite s32_small by lia.
  assert (Hfree : tiled (start + req)
            (BufferSeg_new fr (start + req) (pages - req) FREE :: rest) e).
  { cbn. repeat split; [lia|]. now replace (start + req + (pages - req)) with (start + pages) by lia. }
  destruct rest as [|r rest]; [exact Hfree|]. destruct (is_free r); [|exact Hfree].
  destruct T as (Er & Hn & T). apply tiled_le in T as Hle'. cbn.
  rewrite u64_small by lia. repeat split; [lia|].
  now replace (start + req + (num_pages r + (pages - req))) with (start + pages + num_pages r) by lia.
Qed.

Lemma leftover_coalesced fr start req pages rest :
  coalesced rest -> coalesced (leftover fr start req pages rest).
Proof.
  intros Hc. unfold leftover. destruct (req <? pages); [|exact Hc].
  destruct rest as [|r rest]; [exact I|]. destruct (is_free r) eqn:Er.
  - exact (coalesced_status [] r _ rest eq_refl Hc).
  - split; [|exact Hc]. intros [_ Hr]. seg_status. congruence.
Qed.

Lemma leftover_nodes fr start req pages rest :
  nodes (leftover fr start req pages rest) = nodes rest \/
  nodes (leftover fr start req pages rest) = fr :: nodes rest.
Proof.
  unfold leftover. destruct (req <? pages); [|now left].
  destruct rest as [|r rest]; [now right|]. destruct (is_free r); [now left | now right].
Qed.

(** Used segments are left alone. *)
Lemma leftover_used fr start req pages rest x :
  mem_status x = USED -> x ∈ leftover fr start req pages rest <-> x ∈ rest.
Proof.
  intros Hx. unfold leftover. destruct (req <? pages); [|done].
  destruct rest as [|r rest].
  - rewrite list_elem_of_singleton. split; [intros ->; discriminate Hx | set_solver].
  - destruct (is_free r) eqn:Er; rewrite !elem_of_cons.
    + apply is_free_spec in Er. split; (intros [->|?]; [|now right]); [|congruence].
      cbn in Hx. congruence.
    + split; [intros [->|?]; [discriminate Hx | assumption] | now right].
Qed.

Lemma leftover_free fr start req pages rest x :
  mem_status x = FREE -> x ∈ leftover fr start req pages rest ->
  (buffer x = None /\ last_touched x = 0) \/
  (exists r, r ∈ rest /\ mem_status r = FREE /\ buffer x = buffer r /\
             last_touched x = last_touched r).
Proof.
  intros Hx. unfold leftover. destruct (req <? pages); [|right; eauto].
  destruct rest as [|r rest].
  - rewrite list_elem_of_singleton. intros ->. now left.
  - destruct (is_free r) eqn:Er; rewrite !elem_of_cons.
    + apply is_free_spec in Er. intros [->|?]; right; [exists r | exists x]; rewrite elem_of_cons; auto.
    + intros [->|[->|?]]; [now left | right; exists r | right; exists x]; rewrite elem_of_cons; auto.
Qed.

(** ** The merges of [removeSegment] *)

Lemma merge_prev_cases pre s :
  (merge_prev pre s = (pre, s) /\ (pre = [] \/ exists pre' p, pre = pre' ++ [p] /\ mem_status p = USED)) \/
  (exists pre' p, pre = pre' ++ [p] /\ mem_status p = FREE /\
     merge_prev pre s = (pre', set_num_pages (u64 (num_pages s + num_pages p))
                                 (set_start_page (start_page p) s))).
Proof.
  unfold merge_prev. destruct pre as [|p pre' _] using rev_ind; [auto|].
  rewrite rev_app_distr. cbn. destruct (is_free p) eqn:Ep; seg_status.
  - right. exists pre', p. now rewrite rev_involutive.
  - left. split; [reflexivity|]. right. eauto.
Qed.

Lemma merge_next_cases s post :
  (merge_next s post = (s, post) /\ (post = [] \/ exists n post', post = n :: post' /\ mem_status n = USED)) \/
  (exists n post', post = n :: post' /\ mem_status n = FREE /\
     merge_next s post = (set_num_pages (u64 (num_pages s + num_pages n)) s, post')).
Proof.
  unfold merge_next. destruct post as [|n post']; [auto|].
  destruct (is_free n) eqn:En; seg_status; [right | left]; eauto 8.
Qed.

(** The segment list after the segment [s] between [pre] and [post] is freed. *)
Definition freed (pre : list BufferSeg) (s : BufferSeg) (post : list BufferSeg) : list BufferSeg :=
  let '(pre', s1) := merge_prev pre s in
  let '(s2, post') := merge_next s1 post in
  pre' ++ set_buffer None (set_mem_status FREE s2) :: post'.

(** The freed segment with what it was merged with, between what is left. *)
Lemma freed_shape pre s post :
  exists pre0 fs fp post0 s',
    pre = pre0 ++ fs /\ post = fp ++ post0 /\ freed pre s post = pre0 ++ s' :: post0 /\
    (forall x, x ∈ fs ++ fp -> mem_status x = FREE) /\
    node s' = node s /\ mem_status s' = FREE /\ buffer s' = None /\
    last_touched s' = last_touched s /\
    (forall x y, 0 <= x -> y < 2147483648 -> tiled x (fs ++ s :: fp) y -> tiled x [s'] y) /\
    (pre0 = [] \/ exists q p, pre0 = q ++ [p] /\ (mem_status p = USED \/ fs <> [])) /\
    (post0 = [] \/ exists n q, post0 = n :: q /\ (mem_status n = USED \/ fp <> [])).
Proof.
  unfold freed.
  destruct (merge_prev_cases pre s) as [[-> Hp]|(pre' & p & -> & Fp & ->)];
    [destruct (merge_next_cases s post) as [[-> Hn]|(n & post' & -> & Fn & ->)]
    |set (s1 := set_num_pages _ _);
     destruct (merge_next_cases s1 post) as [[-> Hn]|(n & post' & -> & Fn & ->)]].
  - exists pre, [], [], post. eexists. split; [now rewrite app_nil_r|]. split; [reflexivity|].
    split; [reflexivity|]. split_and!; [set_solver | reflexivity | reflexivity | reflexivity | reflexivity | auto | |].
    + destruct Hp as [?|(q & p & -> & ?)]; [now left|]. right. eauto.
    + destruct Hn as [?|(q & p & -> & ?)]; [now left|]. right. eauto.
  - exists pre, [], [n], post'. eexists. split; [now rewrite app_nil_r|]. split; [reflexivity|].
    split; [reflexivity|]. split_and!; [set_solver | reflexivity | reflexivity | reflexivity | reflexivity | | |].
    + intros x y Hx Hy (E1 & E2 & E3 & E4 & E5). cbn in *. rewrite u64_small by lia. lia.
    + destruct Hp as [?|(q & p & -> & ?)]; [now left|]. right. eauto.
    + destruct post' as [|m q]; [now left|]. right. eauto.
  - exists pre', [p], [], post. eexists. split; [reflexivity|]. split; [reflexivity|].
    split; [reflexivity|]. split_and!; [set_solver | reflexivity | reflexivity | reflexivity | reflexivity | | |].
    + intros x y Hx Hy (E1 & E2 & E3 & E4 & E5). cbn in *. rewrite u64_small by lia. lia.
    + destruct pre' as [|m q _] using rev_ind; [now left|]. right. exists q, m. auto.
    + destruct Hn as [?|(q & m & -> & ?)]; [now left|]. right. eauto.
  - exists pre', [p], [n], post'. eexists. split; [reflexivity|]. split; [reflexivity|].
    split; [reflexivity|]. split_and!; [set_solver | reflexivity | reflexivity | reflexivity | reflexivity | | |].
    + intros x y Hx Hy (E1 & E2 & E3 & E4 & E5 & E6 & E7). cbn in *.
      rewrite !u64_small by (rewrite ?u64_small; lia). lia.
    + destruct pre' as [|m q _] using rev_ind; [now left|]. right. exists q, m. auto.
    + destruct post' as [|m q]; [now left|]. right. eauto.
Qed.

Lemma coalesced_adjacent q p f r :
  coalesced (q ++ p :: f :: r) -> mem_status f = FREE -> mem_status p = USED.
Proof.
  intros [_ [Hn _]]%coalesced_app_inv Hf. destruct (mem_status p); [|reflexivity]. now destruct Hn.
Qed.

Lemma coalesced_snoc q p s :
  coalesced (q ++ [p]) -> mem_status p = USED -> coalesced ((q ++ [p]) ++ [s]).
Proof.
  intros Hc Hp. rewrite <- app_assoc. apply (coalesced_join q p [s]); [exact Hc|].
  now apply coalesced_cons_used.
Qed.

Lemma freed_coalesced pre s post :
  coalesced (pre ++ s :: post) -> coalesced (freed pre s post).
Proof.
  destruct (freed_shape pre s post)
    as (pre0 & fs & fp & post0 & s' & -> & -> & -> & Hfree & _ & Hs' & _ & _ & _ & Hpre & Hpost).
  intros Hc. rewrite <- app_assoc in Hc.
  assert (Hc1 : coalesced pre0) by now apply coalesced_app_inv in Hc.
  assert (Hc2 : coalesced post0).
  { apply coalesced_app_inv in Hc as [_ Hc]. apply coalesced_app_inv in Hc as [_ Hc].
    change (s :: fp ++ post0) with ((s :: fp) ++ post0) in Hc. now apply coalesced_app_inv in Hc. }
  apply coalesced_join.
  - destruct Hpre as [->|(q & p & -> & Hp)]; [exact I|]. apply coalesced_snoc; [exact Hc1|].
    destruct Hp as [?|Hne]; [assumption|]. destruct fs as [|f fs]; [easy|].
    rewrite <- app_assoc in Hc. apply (coalesced_adjacent q p f _ Hc). apply Hfree. set_solver.
  - destruct Hpost as [->|(n & q & -> & Hn)]; [exact I|]. split; [|exact Hc2]. intros [_ Hfn].
    destruct Hn as [?|Hne]; [congruence|].
    destruct fp as [|f fp _] using rev_ind; [easy|].
    rewrite <- app_assoc in Hc. cbn in Hc.
    assert (Hu : mem_status f = USED).
    { apply (coalesced_adjacent (pre0 ++ fs ++ s :: fp) f n q); [|exact Hfn].
      now rewrite <- !app_assoc. }
    rewrite Hfree in Hu; [discriminate|]. rewrite !elem_of_app. right; right. set_solver.
Qed.

(** * The invariant of the buffer pool

    [layout]: the segments of every slab tile it, are coalesced and have distinct nodes.
    [ownership H]: every used segment outside the holes [H] owns one [Buffer] and is the
    one its key leads to; no other buffer and no other key exists.  A hole is a used
    segment an operation has taken out of, or not yet put into, the index. *)

(** Segment [s] is in slab [i], or in the list of unsized segments for [i = -1]. *)
Definition located (st : Mgr) (i : Z) (s : BufferSeg) : Prop :=
  (i = -1 /\ s ∈ unsized_segs_ st) \/
  (0 <= i /\ exists l, slab_segments_ st !! Z.to_nat i = Some l /\ s ∈ l).

Definition seg_shape (i : Z) (s : BufferSeg) : Prop :=
  0 <= last_touched s < 4294967296 /\
  (mem_status s = FREE -> buffer s = None) /\
  (mem_status s = USED -> slab_num s = i) /\
  (i = -1 -> mem_status s = USED /\ start_page s = -1 /\ num_pages s = 0).

(** Used and not a hole. *)
Definition owned (H : list Z) (st : Mgr) (i : Z) (s : BufferSeg) : Prop :=
  located st i s /\ mem_status s = USED /\ node s ∉ H.

(** The bounds under which the page arithmetic of the source is exact. *)
Class PoolOk `{PoolEnv} : Prop := {
  pool_checks : config_checks cfg = true;
  pool_slab_pages : max_num_pages_per_slab_ cfg < 2147483648;
  pool_page_size : page_size_ cfg < 2147483648;
  pool_pages : max_buffer_pool_num_pages_ cfg < 4294967296;
  pool_tokens : forall t, 0 <= token_size t
}.

Section Invariant.

Context `{PoolOk}.

Lemma page_size_pos : 0 < page_size_ cfg.
Proof. pose proof pool_checks as C. unfold config_checks in C. lia. Qed.

Lemma config_bounds :
  0 < page_size_ cfg < 2147483648 /\ 1 <= min_num_pages_per_slab_ cfg /\
  1 <= max_num_pages_per_slab_ cfg < 2147483648 /\
  0 <= max_buffer_pool_num_pages_ cfg < 4294967296.
Proof.
  pose proof pool_checks as C. pose proof pool_slab_pages. pose proof pool_page_size.
  pose proof pool_pages. unfold config_checks in C.
  unfold min_num_pages_per_slab_, max_num_pages_per_slab_, max_buffer_pool_num_pages_ in *.
  repeat rewrite andb_true_iff in C. repeat rewrite Z.ltb_lt in C.
  rewrite Z.leb_le, !Z.eqb_eq in C.
  destruct C as ((((((C1 & C2) & C3) & C4) & C5) & C6) & C7).
  pose proof (Z.div_mod (min_slab_size_ cfg) (page_size_ cfg)).
  pose proof (Z.div_mod (max_slab_size_ cfg) (page_size_ cfg)).
  pose proof (Z.div_pos (max_buffer_pool_size_ cfg) (page_size_ cfg)).
  repeat split; try lia; nia.
Qed.

(** The state of the [Buffer] of segment [s] in slab [i]. *)
Definition buf_ok (i : Z) (s : BufferSeg) (bf : Buffer) : Prop :=
  0 < b_page_size bf < 2147483648 /\ 0 <= b_num_pages bf /\
  b_page_size bf * b_num_pages bf <= num_pages s * page_size_ cfg /\
  0 <= b_size bf /\ Z.of_nat (length (b_page_dirty_flags bf)) = b_num_pages bf /\
  (0 <= i -> b_mem bf = SlabPtr i (start_page s * page_size_ cfg) /\ b_token bf = None /\
             b_size bf <= b_page_size bf * b_num_pages bf) /\
  (i = -1 -> match b_token bf with
             | Some t => b_mem bf = TokenPtr t /\ b_size bf = token_size t
             | None => b_mem bf = NullPtr /\ b_size bf = 0
             end).

Definition slab_pages (st : Mgr) : list Z := map (fun b => b / page_size_ cfg) (slabs_ st).

Definition sum_pages (l : list Z) : Z := fold_right Z.add 0 l.

Record layout (st : Mgr) : Prop := {
  ly_len : length (slabs_ st) = length (slab_segments_ st);
  ly_tiled : forall i l p, slab_segments_ st !! i = Some l -> slab_pages st !! i = Some p ->
    tiled 0 l p /\ coalesced l;
  ly_size : forall b, b ∈ slabs_ st ->
    exists p, b = p * page_size_ cfg /\ 0 <= p <= max_num_pages_per_slab_ cfg;
  ly_sum : num_pages_allocated_ st = sum_pages (slab_pages st) /\
           num_pages_allocated_ st <= max_buffer_pool_num_pages_ cfg;
  ly_cur : 0 <= current_max_slab_page_size_ st <= max_num_pages_per_slab_ cfg;
  ly_nodup : forall i l, slab_segments_ st !! i = Some l -> NoDup (nodes l);
  ly_unsized : NoDup (nodes (unsized_segs_ st));
  ly_cross : forall i s j t, located st i s -> located st j t -> node s = node t -> i = j;
  ly_fresh : forall i s, located st i s -> node s < next_node st;
  ly_shape : forall i s, located st i s -> seg_shape i s;
  ly_epoch : 0 <= buffer_epoch_ st < 4294967296
}.

Record ownership (H : list Z) (st : Mgr) : Prop := {
  ow_seg : forall i s, owned H st i s ->
    exists b bf, buffer s = Some b /\ buffers_ st !! b = Some bf /\ buf_ok i s bf /\
      chunk_index_ st !! chunk_key s = Some (node s) /\ chunk_key s <> [];
  ow_index : forall k n, chunk_index_ st !! k = Some n ->
    exists i s, owned H st i s /\ node s = n /\ chunk_key s = k;
  ow_buffers : forall b bf, buffers_ st !! b = Some bf ->
    b < next_buffer st /\ exists i s, owned H st i s /\ buffer s = Some b;
  ow_uniq : forall i s j t, owned H st i s -> owned H st j t -> buffer s = buffer t ->
    node s = node t
}.

(** Each buffer knows its segment, the buffers of [X] apart. *)
Definition seg_its (X : list Z) (st : Mgr) : Prop :=
  forall i s b bf, located st i s -> mem_status s = USED -> buffer s = Some b -> b ∉ X ->
    buffers_ st !! b = Some bf -> b_seg_it bf = node s.

(** ** Consequences *)

Lemma located_inj st i s j t :
  layout st -> located st i s -> located st j t -> node s = node t -> i = j /\ s = t.
Proof.
  intros L Hs Ht E. pose proof (ly_cross st L i s j t Hs Ht E) as <-. split; [reflexivity|].
  destruct Hs as [[-> Hs]|(? & l & El & Hs)], Ht as [[? Ht]|(? & l' & El' & Ht)]; try lia.
  - exact (nodup_nodes_eq _ _ _ (ly_unsized st L) Hs Ht E).
  - simplify_eq. exact (nodup_nodes_eq _ _ _ (ly_nodup st L _ _ El) Hs Ht E).
Qed.

Lemma all_segs_located st s : s ∈ all_segs st <-> exists i, located st i s.
Proof.
  unfold all_segs, located. rewrite elem_of_app, list_elem_of_In, in_concat. split.
  - intros [(l & Hl & Hs)|Hs]; [|eauto].
    apply list_elem_of_In, list_elem_of_lookup in Hl as (n & Hn). exists (Z.of_nat n). right.
    split; [lia|]. exists l. rewrite Nat2Z.id. split; [exact Hn | now apply list_elem_of_In].
  - intros (i & [[_ Hs]|(_ & l & Hl & Hs)]); [now right|]. left. exists l. split.
    + apply list_elem_of_In, list_elem_of_lookup. eauto.
    + now apply list_elem_of_In.
Qed.

Lemma find_node_located st i s :
  layout st -> located st i s -> find_node (node s) (all_segs st) = Some s.
Proof.
  intros L Hs. unfold find_node.
  destruct (List.find (fun x => node x =? node s) (all_segs st)) as [x|] eqn:F.
  - apply find_some in F as [Hx E]. apply Z.eqb_eq in E. apply list_elem_of_In in Hx.
    apply all_segs_located in Hx as (j & Hx). f_equal.
    now destruct (located_inj st j x i s L Hx Hs E).
  - assert (Hin : s ∈ all_segs st) by (apply all_segs_located; eauto).
    apply list_elem_of_In in Hin. pose proof (find_none _ _ F _ Hin) as N. cbv beta in N. lia.
Qed.

Lemma slab_lookup st i l :
  layout st -> slab_segments_ st !! i = Some l ->
  exists p, slab_pages st !! i = Some p /\ tiled 0 l p /\ coalesced l /\
    0 <= p <= max_num_pages_per_slab_ cfg.
Proof.
  intros L Hl. pose proof (lookup_lt_Some _ _ _ Hl) as Hlt. rewrite <- (ly_len st L) in Hlt.
  destruct (lookup_lt_is_Some_2 _ _ Hlt) as [b Hb].
  assert (Hp : slab_pages st !! i = Some (b / page_size_ cfg))
    by (unfold slab_pages; rewrite list_lookup_fmap, Hb; reflexivity).
  exists (b / page_size_ cfg). split; [exact Hp|].
  destruct (ly_tiled st L _ _ _ Hl Hp) as [? ?]. repeat split; try assumption;
    destruct (ly_size st L b) as (p & -> & ?); try (apply list_elem_of_lookup; eauto);
    rewrite Z.div_mul by (pose proof page_size_pos; lia); lia.
Qed.

(** A located segment of a slab is inside it. *)
Lemma located_range st i s :
  layout st -> located st i s -> 0 <= i ->
  0 <= start_page s /\ 0 <= num_pages s /\ start_page s + num_pages s < 2147483648.
Proof.
  intros L [[? _]|(_ & l & Hl & Hs)] Hi; [lia|].
  destruct (slab_lookup st _ l L Hl) as (p & _ & Ht & _ & Hp).
  destruct (tiled_in _ _ _ _ Ht Hs) as (? & ? & ?). pose proof pool_slab_pages. lia.
Qed.

(** The used page ranges of a slab are disjoint. *)
Lemma located_disjoint st i s t :
  layout st -> located st i s -> located st i t -> 0 <= i -> node s <> node t ->
  start_page s + num_pages s <= start_page t \/ start_page t + num_pages t <= start_page s.
Proof.
  intros L [[? _]|(_ & l & Hl & Hs)] [[? _]|(_ & l' & Hl' & Ht)] Hi N; try lia. simplify_eq.
  destruct (slab_lookup st _ l L Hl) as (p & _ & T & _ & _).
  exact (tiled_disjoint _ _ _ _ _ T (ly_nodup st L _ _ Hl) Hs Ht N).
Qed.

(** ** Changes of state that keep the layout *)

Lemma layout_ext st st' :
  slabs_ st' = slabs_ st -> slab_segments_ st' = slab_segments_ st ->
  unsized_segs_ st' = unsized_segs_ st -> num_pages_allocated_ st' = num_pages_allocated_ st ->
  0 <= current_max_slab_page_size_ st' <= max_num_pages_per_slab_ cfg ->
  next_node st <= next_node st' -> 0 <= buffer_epoch_ st' < 4294967296 ->
  layout st -> layout st'.
Proof.
  intros E1 E2 E3 E4 Hc Hn He L.
  assert (Hloc : forall i s, located st' i s <-> located st i s)
    by (intros; unfold located; now rewrite E2, E3).
  destruct L. split; unfold slab_pages in *; rewrite ?E1, ?E2, ?E3, ?E4; auto.
  - intros i s j t. rewrite !Hloc. eauto.
  - intros i s. rewrite Hloc. intros Hl. specialize (ly_fresh0 _ _ Hl). lia.
  - intros i s. rewrite Hloc. eauto.
Qed.

Lemma located_ext st st' i s :
  slab_segments_ st' = slab_segments_ st -> unsized_segs_ st' = unsized_segs_ st ->
  located st' i s <-> located st i s.
Proof. intros E1 E2. unfold located. now rewrite E1, E2. Qed.

(** Ownership depends on the owned segments, the buffers and the index only. *)
Lemma ownership_ext H1 H2 st st' :
  (forall i s, owned H2 st' i s <-> owned H1 st i s) ->
  buffers_ st' = buffers_ st -> chunk_index_ st' = chunk_index_ st ->
  next_buffer st <= next_buffer st' ->
  ownership H1 st -> ownership H2 st'.
Proof.
  intros Ho Eb Ei Hn [O1 O2 O3 O4]. split.
  - intros i s Hs. rewrite Ho in Hs. rewrite Eb, Ei. eauto.
  - intros k n. rewrite Ei. intros Hk. destruct (O2 _ _ Hk) as (i & s & Hs & ?).
    exists i, s. now rewrite Ho.
  - intros b bf. rewrite Eb. intros Hb. destruct (O3 _ _ Hb) as (Hlt & i & s & Hs & ?).
    split; [lia|]. exists i, s. now rewrite Ho.
  - intros i s j t. rewrite !Ho. eauto.
Qed.

(** ** Replacing the list of one slab *)

Lemma located_put st st' i l l' :
  slab_segments_ st !! i = Some l ->
  slab_segments_ st' = <[i := l']> (slab_segments_ st) ->
  unsized_segs_ st' = unsized_segs_ st ->
  forall j s, located st' j s <->
    (j = Z.of_nat i /\ s ∈ l') \/ (j <> Z.of_nat i /\ located st j s).
Proof.
  intros Hl E Eu j s. unfold located. rewrite E, Eu.
  pose proof (lookup_lt_Some _ _ _ Hl) as Hlt. split.
  - intros [[-> Hs]|(Hj & x & Hx & Hs)]; [right; split; [lia|]; now left|].
    destruct (decide (Z.to_nat j = i)) as [<-|N].
    + left. rewrite list_lookup_insert_eq in Hx by exact Hlt. simplify_eq.
      split; [lia | exact Hs].
    + right. split; [lia|]. right. split; [exact Hj|]. exists x.
      now rewrite list_lookup_insert_ne in Hx by auto.
  - intros [[-> Hs]|[N [[-> Hs]|(Hj & x & Hx & Hs)]]].
    + right. split; [lia|]. exists l'. rewrite Nat2Z.id, list_lookup_insert_eq by exact Hlt. eauto.
    + left. eauto.
    + right. split; [exact Hj|]. exists x. rewrite list_lookup_insert_ne by lia. eauto.
Qed.

Lemma located_slab st i l s : slab_segments_ st !! i = Some l -> s ∈ l -> located st (Z.of_nat i) s.
Proof. intros Hl Hs. right. split; [lia|]. exists l. rewrite Nat2Z.id. eauto. Qed.

Lemma layout_put st st' i l l' :
  layout st -> slab_segments_ st !! i = Some l ->
  slab_segments_ st' = <[i := l']> (slab_segments_ st) ->
  unsized_segs_ st' = unsized_segs_ st -> slabs_ st' = slabs_ st ->
  num_pages_allocated_ st' = num_pages_allocated_ st ->
  current_max_slab_page_size_ st' = current_max_slab_page_size_ st ->
  next_node st <= next_node st' -> 0 <= buffer_epoch_ st' < 4294967296 ->
  (forall p, 0 <= p < 2147483648 -> tiled 0 l p -> tiled 0 l' p) -> coalesced l' ->
  NoDup (nodes l') ->
  (forall s, s ∈ l' -> node s ∈ nodes l \/ next_node st <= node s < next_node st') ->
  (forall s, s ∈ l' -> seg_shape (Z.of_nat i) s) ->
  layout st'.
Proof.
  intros L Hl E Eu Es Ea Ec Hn He Ht Hco Hnd Hfr Hsh.
  pose proof (located_put st st' i l l' Hl E Eu) as Hloc.
  pose proof (lookup_lt_Some _ _ _ Hl) as Hlt.
  assert (Hold : forall s, s ∈ l' -> node s < next_node st ->
                 exists t, located st (Z.of_nat i) t /\ node t = node s).
  { intros s Hs Hlt'. destruct (Hfr s Hs) as [Hin|?]; [|lia].
    apply nodes_in_inv in Hin as (t & Ht' & E'). exists t.
    split; [exact (located_slab st i l t Hl Ht') | exact E']. }
  assert (Hnew : forall s, s ∈ l' -> node s < next_node st').
  { intros s Hs. destruct (Hfr s Hs) as [Hin|?]; [|lia].
    apply nodes_in_inv in Hin as (t & Ht' & <-).
    pose proof (ly_fresh st L _ _ (located_slab st i l t Hl Ht')). lia. }
  assert (Hcross : forall s j t, s ∈ l' -> j <> Z.of_nat i -> located st j t -> node s <> node t).
  { intros s j t Hs Hj Htl Eq. pose proof (ly_fresh st L _ _ Htl) as Hf.
    destruct (Hold s Hs ltac:(lia)) as (u & Hu & Eu').
    apply Hj. apply (ly_cross st L _ _ _ _ Htl Hu). congruence. }
  split.
  - rewrite Es, E, length_insert. apply (ly_len st L).
  - intros j x p. unfold slab_pages. rewrite E, Es. intros Hx Hp.
    destruct (decide (j = i)) as [->|N].
    + rewrite list_lookup_insert_eq in Hx by exact Hlt. simplify_eq.
      destruct (slab_lookup st i l L Hl) as (p' & Hp' & T & _ & Bp). unfold slab_pages in Hp'.
      simplify_eq. split; [|exact Hco]. apply Ht; [pose proof pool_slab_pages; lia | exact T].
    + rewrite list_lookup_insert_ne in Hx by auto. exact (ly_tiled st L _ _ _ Hx Hp).
  - rewrite Es. apply (ly_size st L).
  - unfold slab_pages. rewrite Es, Ea. apply (ly_sum st L).
  - rewrite Ec. apply (ly_cur st L).
  - intros j x. rewrite E. intros Hx. destruct (decide (j = i)) as [->|N].
    + rewrite list_lookup_insert_eq in Hx by exact Hlt. now simplify_eq.
    + rewrite list_lookup_insert_ne in Hx by auto. exact (ly_nodup st L _ _ Hx).
  - rewrite Eu. apply (ly_unsized st L).
  - intros a s b t. rewrite !Hloc. intros [[-> Hs]|[Na Hs]] [[-> Ht']|[Nb Ht']] Eq; auto.
    + now destruct (Hcross s b t Hs Nb Ht').
    + now destruct (Hcross t a s Ht' Na Hs).
    + exact (ly_cross st L _ _ _ _ Hs Ht' Eq).
  - intros a s. rewrite Hloc. intros [[-> Hs]|[Na Hs]]; [now apply Hnew|].
    pose proof (ly_fresh st L _ _ Hs). lia.
  - intros a s. rewrite Hloc. intros [[-> Hs]|[Na Hs]]; [now apply Hsh|].
    exact (ly_shape st L _ _ Hs).
  - exact He.
Qed.

(** A new segmentation [l'] of the slab [i] segmented as [l]; its fresh nodes are taken
    between [a] and [b]. *)
Record relaid (a b i : Z) (l l' : list BufferSeg) : Prop := {
  rl_tiled : forall p, 0 <= p < 2147483648 -> tiled 0 l p -> tiled 0 l' p;
  rl_coalesced : coalesced l';
  rl_nodup : NoDup (nodes l');
  rl_fresh : forall s, s ∈ l' -> node s ∈ nodes l \/ a <= node s < b;
  rl_shape : forall s, s ∈ l' -> seg_shape i s
}.

(** What is known of the list of slab [i]. *)
Lemma slab_facts st i l :
  layout st -> slab_segments_ st !! i = Some l ->
  NoDup (nodes l) /\ coalesced l /\ (forall n, n ∈ nodes l -> n < next_node st) /\
  (forall s, s ∈ l -> located st (Z.of_nat i) s /\ seg_shape (Z.of_nat i) s /\
     0 <= start_page s /\ 0 <= num_pages s /\ start_page s + num_pages s < 2147483648) /\
  (forall s, located st (Z.of_nat i) s -> s ∈ l).
Proof.
  intros L Hl. destruct (slab_lookup st i l L Hl) as (p & _ & _ & Hco & _).
  split; [exact (ly_nodup st L _ _ Hl)|]. split; [exact Hco|]. split.
  { intros n (s & Hs & <-)%nodes_in_inv. exact (ly_fresh st L _ _ (located_slab st i l s Hl Hs)). }
  split.
  - intros s Hs. pose proof (located_slab st i l s Hl Hs) as Hloc.
    split; [exact Hloc|]. split; [exact (ly_shape st L _ _ Hloc)|].
    apply (located_range st _ s L Hloc). lia.
  - intros s [[? _]|(_ & x & Hx & Hs)]; [lia|]. rewrite Nat2Z.id in Hx. now simplify_eq.
Qed.

Lemma layout_relaid st st' i l l' :
  layout st -> slab_segments_ st !! i = Some l ->
  slab_segments_ st' = <[i := l']> (slab_segments_ st) ->
  unsized_segs_ st' = unsized_segs_ st -> slabs_ st' = slabs_ st ->
  num_pages_allocated_ st' = num_pages_allocated_ st ->
  current_max_slab_page_size_ st' = current_max_slab_page_size_ st ->
  next_node st <= next_node st' -> 0 <= buffer_epoch_ st' < 4294967296 ->
  relaid (next_node st) (next_node st') (Z.of_nat i) l l' -> layout st'.
Proof. intros L Hl E1 E2 E3 E4 E5 Hn He []. eapply layout_put; eauto. Qed.

(** A slab list change that touches no owned segment: the segments that disappear are free
    or holes of [H1], the new ones free or holes of [H2]. *)
Lemma owned_put H1 H2 st st' i l l' :
  layout st -> slab_segments_ st !! i = Some l ->
  slab_segments_ st' = <[i := l']> (slab_segments_ st) ->
  unsized_segs_ st' = unsized_segs_ st ->
  (forall s, mem_status s = USED -> (s ∈ l /\ node s ∉ H1) <-> (s ∈ l' /\ node s ∉ H2)) ->
  (forall j s, j <> Z.of_nat i -> located st j s -> node s ∈ H1 <-> node s ∈ H2) ->
  forall j s, owned H2 st' j s <-> owned H1 st j s.
Proof.
  intros L Hl E Eu Hown Hout.
  pose proof (located_put st st' i l l' Hl E Eu) as Hloc.
  destruct (slab_facts st i l L Hl) as (_ & _ & _ & Hin & Hin').
  intros j s. unfold owned. rewrite Hloc. split.
  - intros ([[-> Hs]|[Nj Hs]] & Hu & Hnh).
    + destruct (Hown s Hu) as [_ Hb]. destruct (Hb (conj Hs Hnh)) as [Hs' ?].
      destruct (Hin s Hs') as [? _]. auto.
    + rewrite (Hout j s Nj Hs). auto.
  - intros (Hs & Hu & Hnh). destruct (decide (j = Z.of_nat i)) as [->|Nj].
    + apply Hin' in Hs. destruct (Hown s Hu) as [Hb _]. destruct (Hb (conj Hs Hnh)). auto.
    + rewrite <- (Hout j s Nj Hs). auto.
Qed.

End Invariant.
