(* ===== verification/BufferFind.v ===== *)
(** * Taking segments: [findFreeBufferInSlab], slab allocation, eviction, [findFreeBuffer] *)

From Stdlib Require Import ZArith Lia List Bool.
From stdpp Require Import base gmap list numbers.
From S2P Require Import Prelude StateMonad BufferMgr BufferInv.
Import ListNotations.
Local Open Scope Z_scope.

(** [msimpl] runs the monad. *)
Ltac msimpl :=
  cbn [bind ret throw gets modify check require fresh_node next_epoch catch_oom
       get_slab put_slab deref update_seg get_buffer update_buffer delete_buffer_object
       set_slabs_ set_slab_segments_ set_unsized_segs_ set_chunk_index_ set_buffers_
       set_slab_mem set_num_pages_allocated_ set_current_max_slab_page_size_
       set_allocations_capped_ set_max_buffer_id_ set_buffer_epoch_ set_next_node
       set_next_buffer set_alloc_calls
       slabs_ slab_segments_ unsized_segs_ chunk_index_ buffers_ slab_mem
       num_pages_allocated_ current_max_slab_page_size_ allocations_capped_ max_buffer_id_
       buffer_epoch_ next_node next_buffer alloc_calls id fst snd] in *.

Section Find.

Context `{PoolOk}.

(** The segment's buffer is in use. *)
Definition pinned (st : Mgr) (s : BufferSeg) : Prop :=
  exists b bf, buffer s = Some b /\ buffers_ st !! b = Some bf /\ 0 < b_pin_count bf.

(** What no search for space changes, and what it may only lose. *)
Record frame (st st' : Mgr) : Prop := {
  fr_unsized : unsized_segs_ st' = unsized_segs_ st;
  fr_mem : slab_mem st' = slab_mem st;
  fr_next : next_buffer st' = next_buffer st;
  fr_id : max_buffer_id_ st' = max_buffer_id_ st;
  fr_buffers : forall b bf, buffers_ st' !! b = Some bf -> buffers_ st !! b = Some bf;
  fr_index : forall k n, chunk_index_ st' !! k = Some n -> chunk_index_ st !! k = Some n
}.

Lemma frame_refl st : frame st st.
Proof. split; auto. Qed.

Lemma frame_trans st1 st2 st3 : frame st1 st2 -> frame st2 st3 -> frame st1 st3.
Proof. intros [] []. split; try congruence; auto. Qed.

(** [took st st' req n]: from [st], node [n] became a used segment of [req] pages that no
    buffer owns yet; every other owned segment of [st'] was there before, and the pinned
    and the unsized ones of [st] are all still there, unchanged. *)
Record took (st st' : Mgr) (req n : Z) : Prop := {
  tk_layout : layout st';
  tk_own : ownership [n] st';
  tk_seg : exists i s, located st' i s /\ 0 <= i /\ node s = n /\ mem_status s = USED /\
    num_pages s = req /\ buffer s = None;
  tk_survive : forall j s, owned [n] st' j s -> owned [] st j s;
  tk_keep : forall j s, owned [] st j s -> j = -1 \/ pinned st s -> owned [n] st' j s;
  tk_frame : frame st st'
}.

(** The pool as it was, up to its counters and unused slabs. *)
Record idle (st st' : Mgr) : Prop := {
  id_layout : layout st';
  id_own : ownership [] st';
  id_owned : forall j s, owned [] st' j s <-> owned [] st j s;
  id_frame : frame st st';
  id_buffers : buffers_ st' = buffers_ st;
  id_index : chunk_index_ st' = chunk_index_ st
}.

Lemma idle_refl st : layout st -> ownership [] st -> idle st st.
Proof. intros L O. split; auto using frame_refl. Qed.

Lemma idle_trans st1 st2 st3 : idle st1 st2 -> idle st2 st3 -> idle st1 st3.
Proof.
  intros [? ? Ho ? ? ?] [? ? Ho' ? ? ?]. split; eauto using frame_trans; try congruence.
  intros j s. now rewrite Ho', Ho.
Qed.

Lemma idle_took st1 st2 st3 req n : idle st1 st2 -> took st2 st3 req n -> took st1 st3 req n.
Proof.
  intros I T. destruct I as [_ _ Ho Hf Hb _], T as [? ? ? Hs Hk Hf'].
  split; eauto using frame_trans.
  - intros j s Hj. apply Ho, Hs, Hj.
  - intros j s Hj Hp. apply Hk; [now apply Ho|]. unfold pinned. now rewrite Hb.
Qed.

(** Changes of the counters and of the capping flag. *)
Lemma idle_counters st st' :
  layout st -> ownership [] st ->
  slabs_ st' = slabs_ st -> slab_segments_ st' = slab_segments_ st ->
  unsized_segs_ st' = unsized_segs_ st -> chunk_index_ st' = chunk_index_ st ->
  buffers_ st' = buffers_ st -> slab_mem st' = slab_mem st ->
  num_pages_allocated_ st' = num_pages_allocated_ st ->
  0 <= current_max_slab_page_size_ st' <= max_num_pages_per_slab_ cfg ->
  max_buffer_id_ st' = max_buffer_id_ st -> buffer_epoch_ st' = buffer_epoch_ st ->
  next_node st' = next_node st -> next_buffer st' = next_buffer st -> idle st st'.
Proof.
  intros L O E1 E2 E3 E4 E5 E6 E7 Hc E8 E9 E10 E11.
  assert (Hown : forall j s, owned [] st' j s <-> owned [] st j s)
    by (intros; unfold owned; now rewrite (located_ext st st') by assumption).
  split; auto.
  - apply (layout_ext st st'); auto; [lia|]. rewrite E9. apply (ly_epoch st L).
  - apply (ownership_ext [] [] st st'); auto. lia.
  - split; auto; intros; congruence.
Qed.

(** ** A free segment of a slab *)

(** The segments [find_free] makes out of the free segment [s]. *)
Definition taken (i ep fr req : Z) (s : BufferSeg) : list BufferSeg :=
  set_slab_num i (set_last_touched ep (set_mem_status USED (set_num_pages req s)))
  :: (if 0 <? num_pages s - req
      then [BufferSeg_new fr (s32 (start_page s + req)) (num_pages s - req) FREE] else []).

Lemma taken_elem i ep fr req s x :
  x ∈ taken i ep fr req s ->
  (mem_status x = USED /\ node x = node s /\ slab_num x = i /\ last_touched x = ep) \/
  (mem_status x = FREE /\ node x = fr /\ buffer x = None /\ last_touched x = 0).
Proof.
  unfold taken. destruct (0 <? _); intros Hx;
    repeat first [apply elem_of_cons in Hx as [->|Hx] | apply elem_of_nil in Hx as []]; auto.
Qed.

Lemma taken_tiled i ep fr req s x y :
  0 <= req <= num_pages s -> 0 <= x -> y < 2147483648 -> tiled x [s] y ->
  tiled x (taken i ep fr req s) y.
Proof.
  intros Hr Hx Hy (E1 & E2 & E3). cbn in E3. unfold taken.
  destruct (Z.ltb_spec 0 (num_pages s - req)); cbn; [rewrite s32_small by lia|];
    repeat split; lia.
Qed.

Lemma relaid_taken st i pre s post ep req :
  layout st -> slab_segments_ st !! i = Some (pre ++ s :: post) -> mem_status s = FREE ->
  0 <= req <= num_pages s -> 0 <= ep < 4294967296 ->
  relaid (next_node st) (next_node st + 1) (Z.of_nat i) (pre ++ s :: post)
    (pre ++ taken (Z.of_nat i) ep (next_node st) req s ++ post).
Proof.
  intros L Hl Hfree Hreq Hep.
  destruct (slab_facts st i _ L Hl) as (Hnd & Hco & Hlt & Hin & _).
  pose proof (coalesced_app_inv _ _ Hco) as [Hco1 Hco2].
  assert (Hni : next_node st ∉ nodes pre ++ node s :: nodes post).
  { intros Hn. change (node s :: nodes post) with (nodes (s :: post)) in Hn.
    rewrite <- nodes_app in Hn. specialize (Hlt _ Hn). lia. }
  rewrite nodes_app in Hnd. cbn in Hnd.
  assert (Hmem : forall x, x ∈ pre ++ taken (Z.of_nat i) ep (next_node st) req s ++ post ->
            x ∈ pre ++ s :: post \/ x ∈ taken (Z.of_nat i) ep (next_node st) req s).
  { intros x. rewrite !elem_of_app, elem_of_cons. tauto. }
  split.
  - intros p Hp. change (s :: post) with ([s] ++ post). apply tiled_splice.
    intros x y Hx Hy. apply taken_tiled; lia.
  - apply coalesced_used_mid; [reflexivity | exact Hco1 |]. destruct (0 <? _).
    + apply (coalesced_status [] s); [now rewrite Hfree | exact Hco2].
    + now apply (coalesced_app_inv [s] post).
  - unfold taken. rewrite nodes_app. cbn. destruct (0 <? _); [|exact Hnd].
    now apply nodup_insert_after.
  - intros x Hx. destruct (Hmem x Hx) as [?|Ht]; [left; now apply nodes_in|].
    destruct (taken_elem _ _ _ _ _ _ Ht) as [(_ & -> & _)|(_ & -> & _)]; [left|right; lia].
    apply nodes_in, elem_mid.
  - intros x Hx. destruct (Hmem x Hx) as [Ho|Ht]; [now apply Hin|]. unfold seg_shape.
    destruct (taken_elem _ _ _ _ _ _ Ht) as [(-> & _ & -> & ->)|(-> & _ & -> & ->)];
      repeat split; try lia; try discriminate.
Qed.

(** One hole [n] is made out of free segments and the holes [H1] of slab [i]. *)
Lemma hole_put H1 st st' i l l' n req :
  layout st -> ownership H1 st -> slab_segments_ st !! i = Some l ->
  slab_segments_ st' = <[i := l']> (slab_segments_ st) ->
  unsized_segs_ st' = unsized_segs_ st -> slabs_ st' = slabs_ st ->
  num_pages_allocated_ st' = num_pages_allocated_ st ->
  current_max_slab_page_size_ st' = current_max_slab_page_size_ st ->
  next_node st <= next_node st' -> 0 <= buffer_epoch_ st' < 4294967296 ->
  buffers_ st' = buffers_ st -> chunk_index_ st' = chunk_index_ st ->
  next_buffer st' = next_buffer st ->
  relaid (next_node st) (next_node st') (Z.of_nat i) l l' ->
  (forall s, mem_status s = USED -> (s ∈ l /\ node s ∉ H1) <-> (s ∈ l' /\ node s ∉ [n])) ->
  (forall j s, j <> Z.of_nat i -> located st j s -> node s ∈ H1 <-> node s ∈ [n]) ->
  (exists s, s ∈ l' /\ node s = n /\ mem_status s = USED /\ num_pages s = req /\ buffer s = None) ->
  layout st' /\ ownership [n] st' /\ (forall j s, owned [n] st' j s <-> owned H1 st j s) /\
  exists k s, located st' k s /\ 0 <= k /\ node s = n /\ mem_status s = USED /\
    num_pages s = req /\ buffer s = None.
Proof.
  intros L O Hl E1 E2 E3 E4 E5 Hn He Eb Ei Enb R Hown Hout (s & Hs & Hs').
  pose proof (owned_put H1 [n] st st' i l l' L Hl E1 E2 Hown Hout) as Heq.
  split; [exact (layout_relaid st st' i l l' L Hl E1 E2 E3 E4 E5 Hn He R)|].
  split; [exact (ownership_ext H1 [n] st st' Heq Eb Ei ltac:(lia) O)|].
  split; [exact Heq|]. exists (Z.of_nat i), s.
  split; [apply (located_put st st' i l l' Hl E1 E2); auto|]. split; [lia | exact Hs'].
Qed.

Lemma took_free_segment st i l l' n req :
  layout st -> ownership [] st -> slab_segments_ st !! i = Some l -> 0 <= req ->
  find_free req (Z.of_nat i) (buffer_epoch_ st) (next_node st) l = Some (l', n) ->
  took st (set_slab_segments_ (<[i := l']> (slab_segments_ st))
            (set_buffer_epoch_ (u32 (buffer_epoch_ st + 1))
              (set_next_node (next_node st + 1) st))) req n.
Proof.
  intros L O Hl Hreq F.
  destruct (find_free_some _ _ _ _ _ _ _ F) as (pre & s & post & -> & -> & Hfree & Hfit & El').
  assert (Er : l' = pre ++ taken (Z.of_nat i) (buffer_epoch_ st) (next_node st) req s ++ post)
    by (rewrite El'; unfold taken; destruct (0 <? _); reflexivity).
  clear El' F. set (st' := set_slab_segments_ _ _).
  assert (Hs : s ∈ pre ++ s :: post) by apply elem_mid.
  pose proof (located_slab st i _ s Hl Hs) as Hloc.
  destruct (hole_put [] st st' i _ l' (node s) req L O Hl) as (L' & O' & Heq & Hseg);
    try reflexivity; try (cbn; lia); try apply u32_range.
  - rewrite Er. apply relaid_taken; auto. apply (ly_epoch st L).
  - intros x Hx. rewrite Er, !elem_of_app, elem_of_cons, list_elem_of_singleton. split.
    + intros [Hin _]. assert (x <> s) by congruence. split; [tauto|]. intros E.
      destruct (located_inj st _ x _ s L (located_slab st i _ x Hl ltac:(set_solver)) Hloc E). auto.
    + intros [[Hin|[Ht|Hin]] Hn]; [set_solver | | set_solver].
      apply taken_elem in Ht as [(_ & E & _)|(E & _)]; congruence.
  - intros j x Hj Hx. rewrite list_elem_of_singleton, elem_of_nil. split; [intros []|].
    intros E. destruct (located_inj st j x _ s L Hx Hloc E). congruence.
  - exists (hd s (taken (Z.of_nat i) (buffer_epoch_ st) (next_node st) req s)).
    rewrite Er. split; [set_solver|]. repeat split.
    exact (proj1 (proj2 (ly_shape st L _ _ Hloc)) Hfree).
  - split; auto.
    + intros j x. apply Heq.
    + intros j x Hx _. now apply Heq.
    + split; auto.
Qed.

Lemma get_slab_nat st i l :
  slab_segments_ st !! i = Some l -> get_slab (Z.of_nat i) st = (Ok l, st).
Proof.
  intros Hl. unfold get_slab. destruct (Z.ltb_spec (Z.of_nat i) 0); [lia|].
  now rewrite Nat2Z.id, Hl.
Qed.

Lemma findFreeBufferInSlab_spec st i l req :
  layout st -> ownership [] st -> slab_segments_ st !! i = Some l -> 0 <= req ->
  (findFreeBufferInSlab (Z.of_nat i) req st = (Ok None, st) /\
   forall s, s ∈ l -> mem_status s = FREE -> num_pages s < req) \/
  (exists n st', findFreeBufferInSlab (Z.of_nat i) req st = (Ok (Some n), st') /\
                 took st st' req n).
Proof.
  intros L O Hl Hreq. unfold findFreeBufferInSlab, bind, gets, id.
  rewrite (get_slab_nat st i l Hl).
  destruct (find_free req (Z.of_nat i) (buffer_epoch_ st) (next_node st) l) as [[l' n]|] eqn:F.
  - right. exists n. eexists. split; [reflexivity|]. cbn. rewrite Nat2Z.id.
    exact (took_free_segment st i l l' n req L O Hl Hreq F).
  - left. split; [reflexivity|]. intros s Hs Hf. exact (find_free_none _ _ _ _ _ _ F Hs Hf).
Qed.

(** No free segment of the pool has [req] pages. *)
Definition no_free (st : Mgr) (req : Z) : Prop :=
  forall i s, located st i s -> 0 <= i -> mem_status s = FREE -> num_pages s < req.

Lemma find_in_slabs_spec st req count k :
  layout st -> ownership [] st -> 0 <= req ->
  (k + count = length (slab_segments_ st))%nat ->
  (find_in_slabs req k count st = (Ok None, st) /\
   forall i l s, (k <= i)%nat -> slab_segments_ st !! i = Some l -> s ∈ l ->
     mem_status s = FREE -> num_pages s < req) \/
  (exists n st', find_in_slabs req k count st = (Ok (Some n), st') /\ took st st' req n).
Proof.
  intros L O Hreq. revert k. induction count as [|count IH]; intros k Hk.
  - left. split; [reflexivity|]. intros i l s Hi Hl.
    apply lookup_lt_Some in Hl. lia.
  - cbn [find_in_slabs]. unfold bind.
    destruct (lookup_lt_is_Some_2 (slab_segments_ st) k ltac:(lia)) as [l Hl].
    destruct (findFreeBufferInSlab_spec st k l req L O Hl Hreq) as [[-> Hnone]|(n & st' & -> & T)].
    + destruct (IH (S k) ltac:(lia)) as [[-> Hrest]|?]; [left|now right].
      split; [reflexivity|]. intros i l' s Hi Hl' Hs Hf.
      destruct (decide (i = k)) as [->|]; [|apply (Hrest i l' s); auto; lia].
      simplify_eq. now apply Hnone.
    + right. eauto.
Qed.

(** ** A new slab *)

Lemma sum_pages_app l1 l2 : sum_pages (l1 ++ l2) = sum_pages l1 + sum_pages l2.
Proof. unfold sum_pages. induction l1; cbn; lia. Qed.

Definition with_slab (cur : Z) (st : Mgr) : Mgr :=
  set_num_pages_allocated_ (num_pages_allocated_ st + cur)
    (set_slab_segments_ (slab_segments_ st ++ [[BufferSeg_new (next_node st) 0 cur FREE]])
       (set_slabs_ (slabs_ st ++ [cur * page_size_ cfg])
          (set_next_node (next_node st + 1) (set_alloc_calls (S (alloc_calls st)) st)))).

Lemma with_slab_located cur st j s :
  located (with_slab cur st) j s <->
  located st j s \/ (j = Z.of_nat (length (slab_segments_ st)) /\
                     s = BufferSeg_new (next_node st) 0 cur FREE).
Proof.
  unfold located, with_slab; cbn. split.
  - intros [?|(Hj & l & Hl & Hs)]; [tauto|].
    apply lookup_app_Some in Hl as [Hl|[Hge Hl]]; [left; right; eauto|].
    apply list_lookup_singleton_Some in Hl as [E <-]. apply list_elem_of_singleton in Hs.
    right. split; [lia | exact Hs].
  - intros [[?|(Hj & l & Hl & Hs)]|[-> ->]]; [tauto| |].
    + right. split; [exact Hj|]. exists l. split; [now apply lookup_app_l_Some | exact Hs].
    + right. split; [lia|]. exists [BufferSeg_new (next_node st) 0 cur FREE].
      rewrite Nat2Z.id, lookup_app_r, Nat.sub_diag by lia. split; [reflexivity | set_solver].
Qed.

Lemma layout_with_slab cur st :
  layout st -> 0 <= cur <= max_num_pages_per_slab_ cfg ->
  num_pages_allocated_ st + cur <= max_buffer_pool_num_pages_ cfg -> layout (with_slab cur st).
Proof.
  intros L Hcur Hmax. pose proof page_size_pos as Hps.
  pose proof (with_slab_located cur st) as Hloc.
  assert (Esp : slab_pages (with_slab cur st) = slab_pages st ++ [cur]).
  { unfold slab_pages, with_slab; cbn. rewrite map_app. cbn. now rewrite Z.div_mul by lia. }
  assert (Hbound : forall j s, located st j s -> j < Z.of_nat (length (slab_segments_ st))).
  { intros j s [[-> _]|(? & l & Hl%lookup_lt_Some & _)]; lia. }
  pose proof (ly_len st L) as Hlen.
  assert (Hll : length (slab_pages st) = length (slab_segments_ st))
    by (unfold slab_pages; now rewrite length_map).
  split.
  - unfold with_slab; cbn. rewrite !length_app. cbn. lia.
  - intros i l p. rewrite Esp. unfold with_slab; cbn. intros Hl Hp.
    apply lookup_app_Some in Hl as [Hl|[Hge Hl]].
    + rewrite lookup_app_l in Hp by (apply lookup_lt_Some in Hl; lia).
      exact (ly_tiled st L _ _ _ Hl Hp).
    + rewrite lookup_app_r, Hll in Hp by lia.
      apply list_lookup_singleton_Some in Hl as [E <-]. rewrite E in Hp. simplify_eq/=.
      repeat split; lia.
  - unfold with_slab; cbn. intros b [Hb|Hb]%elem_of_app; [exact (ly_size st L b Hb)|].
    apply list_elem_of_singleton in Hb as ->. eauto.
  - rewrite Esp, sum_pages_app. destruct (ly_sum st L) as [E ?]. unfold with_slab; cbn. lia.
  - exact (ly_cur st L).
  - unfold with_slab; cbn. intros i l Hl.
    apply lookup_app_Some in Hl as [Hl|[_ Hl]]; [exact (ly_nodup st L _ _ Hl)|].
    apply list_lookup_singleton_Some in Hl as [_ <-]. apply NoDup_singleton.
  - exact (ly_unsized st L).
  - intros i s j t. rewrite !Hloc. intros [Hs|[-> ->]] [Ht|[-> ->]] E; auto.
    + exact (ly_cross st L _ _ _ _ Hs Ht E).
    + pose proof (ly_fresh st L _ _ Hs). cbn in E. lia.
    + pose proof (ly_fresh st L _ _ Ht). cbn in E. lia.
  - intros i s. rewrite Hloc. unfold with_slab; cbn. intros [Hs|[_ ->]]; [|cbn; lia].
    pose proof (ly_fresh st L _ _ Hs). lia.
  - intros i s. rewrite Hloc. intros [Hs|[-> ->]]; [exact (ly_shape st L _ _ Hs)|].
    unfold seg_shape; cbn. repeat split; try lia; discriminate.
  - exact (ly_epoch st L).
Qed.

Lemma idle_with_slab cur st :
  layout st -> ownership [] st -> 0 <= cur <= max_num_pages_per_slab_ cfg ->
  num_pages_allocated_ st + cur <= max_buffer_pool_num_pages_ cfg -> idle st (with_slab cur st).
Proof.
  intros L O Hcur Hmax.
  assert (Hown : forall j s, owned [] (with_slab cur st) j s <-> owned [] st j s).
  { intros j s. unfold owned. rewrite with_slab_located. split; [|tauto].
    intros ([?|[_ ->]] & Hu & ?); [tauto | discriminate Hu]. }
  split; auto.
  - now apply layout_with_slab.
  - apply (ownership_ext [] [] st); auto. cbn. lia.
  - split; auto.
Qed.

(** The new slab has room for the request it was made for. *)
Lemma took_new_slab cur req st :
  layout st -> ownership [] st -> 0 <= req <= cur -> cur <= max_num_pages_per_slab_ cfg ->
  num_pages_allocated_ st + cur <= max_buffer_pool_num_pages_ cfg ->
  exists n st', findFreeBufferInSlab (Z.of_nat (length (slab_segments_ st))) req
                  (with_slab cur st) = (Ok (Some n), st') /\ took st st' req n.
Proof.
  intros L O Hreq Hcur Hmax.
  pose proof (idle_with_slab cur st L O ltac:(lia) Hmax) as I.
  assert (Hl : slab_segments_ (with_slab cur st) !! length (slab_segments_ st)
               = Some [BufferSeg_new (next_node st) 0 cur FREE]).
  { unfold with_slab; cbn. now rewrite lookup_app_r, Nat.sub_diag by lia. }
  destruct (findFreeBufferInSlab_spec (with_slab cur st) _ _ req (id_layout _ _ I) (id_own _ _ I)
              Hl ltac:(lia)) as [[_ Hno]|(n & st' & E & T)].
  - specialize (Hno _ ltac:(apply list_elem_of_singleton; reflexivity) eq_refl). cbn in Hno. lia.
  - exists n, st'. split; [exact E|]. exact (idle_took _ _ _ _ _ I T).
Qed.

(** Why no slab was added: the pool is capped, full, or its next slab too small. *)
Definition no_slab (st : Mgr) (req : Z) : Prop :=
  allocations_capped_ st = true \/
  max_buffer_pool_num_pages_ cfg <= num_pages_allocated_ st \/
  (current_max_slab_page_size_ st < req /\
   current_max_slab_page_size_ st
     <= max_buffer_pool_num_pages_ cfg - num_pages_allocated_ st).

(** The pool is idle and has the same slabs. *)
Definition idle_slabs (st st' : Mgr) : Prop :=
  idle st st' /\ slab_segments_ st' = slab_segments_ st.

(** The slab size the loop tries. *)
Definition next_slab_pages (st : Mgr) : Z :=
  let left := max_buffer_pool_num_pages_ cfg - num_pages_allocated_ st in
  if left <? current_max_slab_page_size_ st then left else current_max_slab_page_size_ st.

Lemma set_capped_same st b : allocations_capped_ st = b -> set_allocations_capped_ b st = st.
Proof. intros <-. now destruct st. Qed.

(** The handler of a failed allocation: it halves the size of the next slab, or asks for
    no more than the request when half would be too small, and caps the pool below the
    minimum. *)
Lemma shrink_slab {A} (k : M A) st st1 req cur :
  (forall cur' cap, 0 <= cur' <= max_num_pages_per_slab_ cfg ->
     idle_slabs st (set_allocations_capped_ cap (set_current_max_slab_page_size_ cur' st1))) ->
  allocations_capped_ st1 = false -> 0 <= req <= cur -> cur <= max_num_pages_per_slab_ cfg ->
  exists st',
    (if (cur / 2 <? req) && negb (cur =? req)
     then do! modify (set_current_max_slab_page_size_ req) in k
     else do! modify (set_current_max_slab_page_size_ (cur / 2)) in
          do! (if cur / 2 <? min_num_pages_per_slab_ cfg
               then modify (set_allocations_capped_ true) else ret tt) in k)%bm st1 = k st' /\
    idle_slabs st st' /\
    ((cur / 2 < req < cur /\ current_max_slab_page_size_ st' = req) \/
     ((req <= cur / 2 \/ cur = req) /\ current_max_slab_page_size_ st' = cur / 2 /\
      (cur / 2 < min_num_pages_per_slab_ cfg -> allocations_capped_ st' = true))).
Proof.
  intros Hi Hcap Hreq Hmax.
  destruct (Z.ltb_spec (cur / 2) req) as [H1|H1]; destruct (Z.eqb_spec cur req) as [H2|H2];
    cbn [andb negb].
  2: { exists (set_current_max_slab_page_size_ req st1).
       split; [reflexivity|]. split; [exact (Hi req (allocations_capped_ st1) ltac:(lia))|].
       left. cbn. lia. }
  all: assert (Hd : 0 <= cur / 2 <= cur) by divmod;
    exists (set_allocations_capped_ (if cur / 2 <? min_num_pages_per_slab_ cfg then true else false)
              (set_current_max_slab_page_size_ (cur / 2) st1));
    (split; [unfold bind, modify, ret; destruct (cur / 2 <? min_num_pages_per_slab_ cfg);
               [reflexivity|]; now rewrite set_capped_same by exact Hcap|]);
    (split; [apply Hi; lia|]); right; cbn;
    destruct (Z.ltb_spec (cur / 2) (min_num_pages_per_slab_ cfg)); repeat split; lia.
Qed.

(** The outcome of one iteration of [add_slab_loop]: a slab, a reason to stop, or another
    round with a smaller slab size. *)
Lemma add_slab_step st req fuel :
  layout st -> ownership [] st -> 0 <= req ->
  let ns := Z.of_nat (length (slab_segments_ st)) in
  let run := add_slab_loop (S fuel) req ns st in
  let cur := next_slab_pages st in
  (exists n st', run = (Ok (Some n), st') /\ took st st' req n) \/
  (exists st', run = (Ok None, st') /\ idle_slabs st st' /\ no_slab st' req) \/
  (exists st', run = add_slab_loop fuel req ns st' /\ idle_slabs st st' /\
     allocations_capped_ st = false /\ req <= cur <= current_max_slab_page_size_ st /\
     ((cur / 2 < req < cur /\ current_max_slab_page_size_ st' = req) \/
      ((req <= cur / 2 \/ cur = req) /\ current_max_slab_page_size_ st' = cur / 2 /\
       (cur / 2 < min_num_pages_per_slab_ cfg -> allocations_capped_ st' = true)))).
Proof.
  intros L O Hreq ns run cur. pose proof config_bounds as (Bp & Bmin & Bmax & Bpool).
  pose proof (ly_cur st L) as Bc. destruct (ly_sum st L) as [_ Ba].
  subst run. cbn [add_slab_loop]. unfold bind, gets, id.
  destruct (allocations_capped_ st) eqn:Hcap; cbn [negb andb].
  { right; left. exists st. split; [reflexivity|]. split; [split; auto using idle_refl|]. now left. }
  destruct (Z.ltb_spec (num_pages_allocated_ st) (max_buffer_pool_num_pages_ cfg)) as [Hroom|Hfull].
  2: { right; left. exists st. split; [reflexivity|]. split; [split; auto using idle_refl|].
       right; now left. }
  set (st1 := set_current_max_slab_page_size_ cur st).
  assert (E1 : (if max_buffer_pool_num_pages_ cfg - num_pages_allocated_ st
                   <? current_max_slab_page_size_ st
                then @modify BMError Mgr (set_current_max_slab_page_size_
                       (max_buffer_pool_num_pages_ cfg - num_pages_allocated_ st))
                else @ret BMError Mgr unit tt) st = (Ok tt, st1)).
  { unfold st1, cur, next_slab_pages. destruct (_ <? _); [reflexivity|]. now destruct st. }
  rewrite E1. change (current_max_slab_page_size_ st1) with cur.
  assert (Bcur : 0 <= cur <= current_max_slab_page_size_ st /\
                 cur <= max_buffer_pool_num_pages_ cfg - num_pages_allocated_ st)
    by (unfold cur, next_slab_pages; zbool; lia).
  assert (I1 : idle st st1) by (apply idle_counters; auto; cbn; lia).
  destruct (Z.leb_spec req cur) as [Hfit|Hsmall].
  2: { right; left. exists st1. split; [reflexivity|]. split; [now split|]. right; right. cbn. lia. }
  unfold catch_oom, addSlab, bind, gets, modify, ret.
  change (alloc_calls st1) with (alloc_calls st).
  rewrite (u64_small (cur * page_size_ cfg)) by nia.
  destruct (alloc_ok (alloc_calls st) (cur * page_size_ cfg)) eqn:Ea.
  - left. cbn [fresh_node]. rewrite Z.div_mul by lia.
    destruct (took_new_slab cur req st1 (id_layout _ _ I1) (id_own _ _ I1) ltac:(lia) ltac:(lia)
                ltac:(cbn; lia)) as (n & st' & E & T).
    exists n, st'. split; [|exact (idle_took _ _ _ _ _ I1 T)].
    change (slab_segments_ st1) with (slab_segments_ st) in E. unfold ns.
    unfold with_slab in E. cbn in E |- *. rewrite E. reflexivity.
  - right; right. cbn [throw is_OutOfMemory].
    destruct (shrink_slab (add_slab_loop fuel req ns) st (set_alloc_calls (S (alloc_calls st)) st1)
                req cur) as (st' & E & Hi & Hcur); [ | exact Hcap | lia | lia | ].
    + intros. split; [apply idle_counters; auto; cbn; lia | reflexivity].
    + exists st'. split; [exact E|]. auto 10 with lia.
Qed.

(** The loop ends with a slab or a reason. *)
Definition slab_outcome (st : Mgr) (req : Z) (r : result BMError (option Z) * Mgr) : Prop :=
  (exists n st', r = (Ok (Some n), st') /\ took st st' req n) \/
  (exists st', r = (Ok None, st') /\ idle_slabs st st' /\ no_slab st' req).

Lemma slab_outcome_idle st st' req r :
  idle_slabs st st' -> slab_outcome st' req r -> slab_outcome st req r.
Proof.
  intros [I E] [(n & st2 & -> & T)|(st2 & -> & [I2 E2] & Hn)].
  - left. exists n, st2. split; [reflexivity | exact (idle_took _ _ _ _ _ I T)].
  - right. exists st2. split; [reflexivity|]. split; [|exact Hn].
    split; [exact (idle_trans _ _ _ I I2) | congruence].
Qed.

(** Two rounds are enough once the slab size is not above the request. *)
Lemma add_slab_loop_last st req fuel :
  layout st -> ownership [] st -> 0 <= req -> current_max_slab_page_size_ st <= req ->
  slab_outcome st req
    (add_slab_loop (S (S fuel)) req (Z.of_nat (length (slab_segments_ st))) st).
Proof.
  intros L O Hreq Hle. pose proof config_bounds as (_ & Bmin & _).
  destruct (add_slab_step st req (S fuel) L O Hreq)
    as [Ht|[Hn|(st' & -> & I & Hcap & Hc & Hs)]]; [now left | now right |].
  apply (slab_outcome_idle st st' req _ I). destruct I as [I E]. rewrite <- E.
  destruct Hs as [[? _]|(_ & Hc' & Hcap')]; [lia|].
  assert (Hcr : next_slab_pages st = req) by lia. rewrite Hcr in *.
  destruct (add_slab_step st' req fuel (id_layout _ _ I) (id_own _ _ I) Hreq)
    as [Ht|[Hn|(st2 & _ & _ & Hcap2 & Hc2 & _)]]; [now left | now right | exfalso].
  assert (req <= req / 2) by lia. assert (req / 2 = 0) by divmod.
  rewrite Hcap' in Hcap2 by lia. discriminate.
Qed.

Lemma add_slab_loop_result (k : nat) st req fuel :
  layout st -> ownership [] st -> 0 <= req ->
  current_max_slab_page_size_ st < 2 ^ Z.of_nat k -> (k + 3 <= fuel)%nat ->
  slab_outcome st req (add_slab_loop fuel req (Z.of_nat (length (slab_segments_ st))) st).
Proof.
  intros L O Hreq. revert st fuel L O. induction k as [|k IH]; intros st fuel L O Hk Hf.
  - destruct fuel as [|[|fuel]]; [lia | lia |].
    apply add_slab_loop_last; auto. cbn in Hk. lia.
  - destruct fuel as [|fuel]; [lia|].
    destruct (add_slab_step st req fuel L O Hreq)
      as [Ht|[Hn|(st' & -> & I & Hcap & Hc & Hs)]]; [now left | now right |].
    apply (slab_outcome_idle st st' req _ I). destruct I as [I E]. rewrite <- E.
    destruct Hs as [[_ Hc']|(_ & Hc' & _)].
    + destruct fuel as [|[|fuel]]; [lia | lia |].
      apply add_slab_loop_last; auto; [apply (id_layout _ _ I) | apply (id_own _ _ I) | lia].
    + apply IH; [apply (id_layout _ _ I) | apply (id_own _ _ I) | | lia].
      rewrite Nat2Z.inj_succ, Z.pow_succ_r in Hk by lia. rewrite Hc'. divmod.
Qed.

Lemma add_slab_loop_spec st req :
  layout st -> ownership [] st -> 0 <= req ->
  slab_outcome st req
    (add_slab_loop add_slab_fuel req (Z.of_nat (length (slab_segments_ st))) st).
Proof.
  intros L O Hreq. apply (add_slab_loop_result 31); auto; [|unfold add_slab_fuel; lia].
  pose proof (ly_cur st L). pose proof config_bounds. change (2 ^ Z.of_nat 31) with 2147483648. lia.
Qed.

(** ** Eviction: taking segments out of the index *)

(** An unpinned owned segment becomes a hole when its key and its buffer are deleted. *)
Definition disown (s : BufferSeg) (st : Mgr) : Mgr :=
  match buffer s with
  | Some b => set_buffers_ (delete b (buffers_ st))
                (set_chunk_index_ (delete (chunk_key s) (chunk_index_ st)) st)
  | None => st
  end.

Lemma disown_ownership X st i s :
  layout st -> ownership X st -> owned X st i s -> ownership (node s :: X) (disown s st).
Proof.
  intros L O Hs. destruct (ow_seg _ _ O i s Hs) as (b & bf & Eb & Hbf & _ & Hk & _).
  unfold disown. rewrite Eb. set (st' := set_buffers_ _ _).
  assert (E1 : buffers_ st' = delete b (buffers_ st)) by reflexivity.
  assert (E2 : chunk_index_ st' = delete (chunk_key s) (chunk_index_ st)) by reflexivity.
  assert (Hown : forall j t, owned (node s :: X) st' j t <-> owned X st j t /\ node t <> node s).
  { intros j t. unfold owned. rewrite (located_ext st st') by reflexivity.
    rewrite not_elem_of_cons. tauto. }
  assert (Hdiff : forall j t, owned X st j t -> node t <> node s ->
            chunk_key t <> chunk_key s /\ buffer t <> Some b).
  { intros j t Ht Hn. split.
    - intros Ek. destruct (ow_seg _ _ O j t Ht) as (_ & _ & _ & _ & _ & Hk' & _).
      rewrite Ek in Hk'. congruence.
    - intros Et. apply Hn, (ow_uniq _ _ O j t i s Ht Hs). congruence. }
  split.
  - intros j t Ht. apply Hown in Ht as [Ht Hn]. destruct (Hdiff j t Ht Hn) as [Dk Db].
    destruct (ow_seg _ _ O j t Ht) as (b' & bf' & Eb' & Hbf' & Hok & Hk' & Hne).
    exists b', bf'. rewrite E1, E2. split; [exact Eb'|]. split; [|split; [exact Hok|split; [|exact Hne]]].
    + rewrite lookup_delete_ne by congruence. exact Hbf'.
    + rewrite lookup_delete_ne by congruence. exact Hk'.
  - intros k n. rewrite E2, lookup_delete_Some. intros [Nk Hn].
    destruct (ow_index _ _ O k n Hn) as (j & t & Ht & En & Ek). exists j, t.
    split; [apply Hown; split; [exact Ht|] | now split]. intros E.
    destruct (located_inj st j t i s L (proj1 Ht) (proj1 Hs) E). congruence.
  - intros b' bf'. rewrite E1, lookup_delete_Some. intros [Nb Hb'].
    destruct (ow_buffers _ _ O b' bf' Hb') as (? & j & t & Ht & Et). split; [assumption|].
    exists j, t. split; [apply Hown; split; [exact Ht|] | exact Et]. intros E.
    destruct (located_inj st j t i s L (proj1 Ht) (proj1 Hs) E). congruence.
  - intros j t j' t' Ht Ht'. apply Hown in Ht as [Ht _], Ht' as [Ht' _].
    exact (ow_uniq _ _ O j t j' t' Ht Ht').
Qed.

Definition disown_all (l : list BufferSeg) (st : Mgr) : Mgr :=
  fold_left (fun st s => if is_used s then disown s st else st) l st.

(** Disowning touches the buffers and the index only. *)
Record thinner (st st' : Mgr) : Prop := {
  th_slabs : slabs_ st' = slabs_ st;
  th_segments : slab_segments_ st' = slab_segments_ st;
  th_allocated : num_pages_allocated_ st' = num_pages_allocated_ st;
  th_current : current_max_slab_page_size_ st' = current_max_slab_page_size_ st;
  th_node : next_node st' = next_node st;
  th_epoch : buffer_epoch_ st' = buffer_epoch_ st;
  th_frame : frame st st'
}.

Lemma thinner_refl st : thinner st st.
Proof. split; auto using frame_refl. Qed.

Lemma thinner_trans st1 st2 st3 : thinner st1 st2 -> thinner st2 st3 -> thinner st1 st3.
Proof. intros [] []. split; try congruence. eauto using frame_trans. Qed.

Lemma thinner_disown s st : thinner st (disown s st).
Proof.
  unfold disown. destruct (buffer s); [|apply thinner_refl]. repeat split; auto; cbn.
  - intros b bf [_ ?]%lookup_delete_Some. assumption.
  - intros k n [_ ?]%lookup_delete_Some. assumption.
Qed.

Lemma thinner_located st st' i s : thinner st st' -> located st' i s <-> located st i s.
Proof. intros T. apply located_ext; [apply (th_segments _ _ T) | apply (fr_unsized _ _ (th_frame _ _ T))]. Qed.

Lemma thinner_layout st st' : thinner st st' -> layout st -> layout st'.
Proof.
  intros T L. destruct T as [E1 E2 E3 E4 E5 E6 [E7 _ _ _ _ _]].
  apply (layout_ext st st'); auto; rewrite ?E4, ?E5, ?E6; [apply (ly_cur st L) | lia | apply (ly_epoch st L)].
Qed.

(** A segment [evict] may release. *)
Definition unpinned (st : Mgr) (s : BufferSeg) : Prop :=
  mem_status s = USED -> exists p, seg_pin_count (buffers_ st) s = Some p /\ p < 1.

Lemma unpinned_disown X st i s t :
  ownership X st -> owned X st i s -> owned X st i t -> node s <> node t ->
  seg_pin_count (buffers_ (disown s st)) t = seg_pin_count (buffers_ st) t.
Proof.
  intros O Hs Ht N. unfold disown, seg_pin_count.
  destruct (ow_seg _ _ O i s Hs) as (b & bf & Eb & _). rewrite Eb.
  destruct (buffer t) as [b'|] eqn:Et; [|reflexivity]. cbn.
  rewrite lookup_delete_ne; [reflexivity|]. intros ->.
  apply N, (ow_uniq _ _ O i s i t Hs Ht). congruence.
Qed.

(** One turn of [evict_loop]. *)
Lemma evict_loop_turn X st i s l req pages :
  layout st -> ownership X st -> located st i s -> (mem_status s = USED -> node s ∉ X) ->
  unpinned st s -> pages < req ->
  evict_loop req pages (s :: l) st
  = evict_loop req (u64 (pages + num_pages s)) l (if is_used s then disown s st else st).
Proof.
  intros L O Hloc Hnx Hun Hlt. cbn [evict_loop]. destruct (Z.ltb_spec pages req); [|lia].
  destruct (is_used s) eqn:Eu; seg_status.
  - destruct (Hun Eu) as (p & Ep & Hp). destruct (ow_seg _ _ O i s) as (b & bf & Eb & _ & _ & _ & Hne);
      [repeat split; auto|].
    unfold bind, check, modify, delete_buffer_object, disown. rewrite Ep, Eb. cbn [andb].
    destruct (Z.ltb_spec p 1); [|lia]. rewrite bool_decide_eq_false_2 by exact Hne. reflexivity.
  - destruct (ly_shape st L _ _ Hloc) as (_ & Hb & _). unfold bind. rewrite (Hb Eu). reflexivity.
Qed.

(** What a turn leaves for the segments behind [s]: none of them lost its buffer. *)
Lemma turn_facts X st i s l :
  layout st -> ownership X st -> NoDup (nodes (s :: l)) ->
  (forall t, t ∈ s :: l -> located st i t /\ (mem_status t = USED -> node t ∉ X)) ->
  let st1 := if is_used s then disown s st else st in
  let X1 := if is_used s then node s :: X else X in
  thinner st st1 /\ ownership X1 st1 /\
  (forall t, t ∈ l -> mem_status t = USED ->
     seg_pin_count (buffers_ st1) t = seg_pin_count (buffers_ st) t) /\
  (forall t, t ∈ l -> located st1 i t /\ (mem_status t = USED -> node t ∉ X1)).
Proof.
  intros L O [Hni Hnd]%list.NoDup_cons Hin st1 X1.
  destruct (Hin s) as [Hloc Hnx]; [set_solver|].
  assert (Hne : forall t, t ∈ l -> node s <> node t)
    by (intros t Ht E; apply Hni; rewrite E; now apply nodes_in).
  assert (T1 : thinner st st1)
    by (unfold st1; destruct (is_used s); auto using thinner_refl, thinner_disown).
  split; [exact T1|]. unfold X1, st1. destruct (is_used s) eqn:Eu; seg_status.
  - split; [apply (disown_ownership X st i s L O); repeat split; auto|]. split; intros t Ht.
    + intros Hu. destruct (Hin t) as [Hlt' Hnt]; [set_solver|].
      apply (unpinned_disown X st i s t O); [repeat split; auto | repeat split; auto | auto].
    + destruct (Hin t) as [Hlt' Hnt]; [set_solver|].
      split; [now apply (thinner_located st (disown s st)); [apply thinner_disown|]|].
      intros Hu. apply not_elem_of_cons. split; [|auto]. intros E. now apply (Hne t).
  - split; [exact O|]. split; [reflexivity|]. intros t Ht. apply Hin. set_solver.
Qed.

Lemma ownership_cons_used X mid s st :
  ownership (used_nodes mid ++ (if is_used s then node s :: X else X)) st ->
  ownership (used_nodes (s :: mid) ++ X) st.
Proof.
  intros O. refine (ownership_ext _ _ st _ _ eq_refl eq_refl (Z.le_refl _) O).
  intros j t. unfold owned.
  assert (Hm : node t ∉ used_nodes mid ++ (if is_used s then node s :: X else X)
               <-> node t ∉ used_nodes (s :: mid) ++ X).
  { rewrite !elem_of_app, used_nodes_cons.
    destruct (is_used s); rewrite ?elem_of_cons; naive_solver. }
  rewrite Hm. reflexivity.
Qed.

Lemma evict_loop_spec i req l : forall X st pages,
  layout st -> ownership X st -> NoDup (nodes l) ->
  (forall s, s ∈ l -> located st i s /\ (mem_status s = USED -> node s ∉ X)) ->
  (exists mid rest, l = mid ++ rest /\ (forall s, s ∈ mid -> unpinned st s) /\
                    req <= pages + pages_of mid) ->
  0 <= pages -> pages + pages_of l < 4294967296 -> (forall s, s ∈ l -> 0 <= num_pages s) ->
  exists mid rest, l = mid ++ rest /\ (forall s, s ∈ mid -> unpinned st s) /\
    req <= pages + pages_of mid /\
    evict_loop req pages l st = (Ok (pages + pages_of mid, rest), disown_all mid st) /\
    ownership (used_nodes mid ++ X) (disown_all mid st) /\ thinner st (disown_all mid st).
Proof.
  induction l as [|s l IH]; intros X st pages L O Hnd Hin (mid & rest & El & Hun & Hreq) Hp Hb Hpos.
  all: destruct (Z.ltb_spec pages req) as [Hlt|Hge].
  - destruct mid; [|discriminate]. cbn in Hreq. lia.
  - exists [], []. cbn. rewrite Z.add_0_r. destruct (Z.ltb_spec pages req); [lia|].
    split_and!; auto using thinner_refl; intros t []%elem_of_nil.
  - destruct mid as [|s' mid]; [cbn in Hreq; lia|]. cbn in El. injection El as <- ->.
    destruct (Hin s) as [Hloc Hnx]; [set_solver|]. cbn [pages_of] in Hb, Hreq.
    assert (Hs0 : 0 <= num_pages s) by (apply Hpos; set_solver).
    assert (Hl0 : pages_of [] <= pages_of (mid ++ rest))
      by (apply (pages_of_prefix []); intros; apply Hpos; set_solver). cbn in Hl0.
    rewrite (evict_loop_turn X st i s _ req pages L O Hloc Hnx (Hun s ltac:(set_solver)) Hlt).
    rewrite u64_small by lia.
    destruct (turn_facts X st i s _ L O Hnd Hin) as (T1 & O1 & Hpin & Hin1).
    set (st1 := if is_used s then disown s st else st) in *.
    apply list.NoDup_cons in Hnd as [_ Hnd].
    destruct (IH _ st1 (pages + num_pages s) (thinner_layout st st1 T1 L) O1 Hnd Hin1)
      as (mid' & rest' & El' & Hun' & Hreq' & Erun & O' & T'); [|lia|lia| |].
    + exists mid, rest. split; [reflexivity|]. split; [|lia].
      intros t Ht Hu. rewrite Hpin by (assumption || set_solver). apply (Hun t); [set_solver | exact Hu].
    + intros t Ht. apply Hpos. set_solver.
    + exists (s :: mid'), rest'. cbn [app pages_of disown_all fold_left]. fold st1.
      split; [now rewrite El'|]. split.
      { intros t [->|Ht]%elem_of_cons; [apply Hun; set_solver|]. intros Hu.
        rewrite <- (Hpin t) by (assumption || (rewrite El'; set_solver)). now apply (Hun' t). }
      split; [lia|]. split; [now rewrite Erun, Z.add_assoc|].
      split; [now apply ownership_cons_used | exact (thinner_trans _ _ _ T1 T')].
  - exists [], (s :: l). cbn [app pages_of disown_all fold_left evict_loop].
    rewrite Z.add_0_r. destruct (Z.ltb_spec pages req); [lia|].
    split_and!; auto using thinner_refl; intros t []%elem_of_nil.
Qed.

(** ** [evict] *)

Definition data_seg (n start req ep i : Z) : BufferSeg :=
  set_slab_num i (set_last_touched ep (BufferSeg_new n start req USED)).

Lemma evicted_nodes st pre mid rest start req ep i :
  NoDup (nodes (pre ++ mid ++ rest)) ->
  (forall n, n ∈ nodes (pre ++ mid ++ rest) -> n < next_node st) ->
  NoDup (nodes (pre ++ data_seg (next_node st) start req ep i
                  :: leftover (next_node st + 1) start req (pages_of mid) rest)).
Proof.
  intros Hnd Hlt.
  assert (Hsub : NoDup (nodes pre ++ nodes rest)).
  { rewrite !nodes_app in Hnd. apply list.NoDup_app in Hnd as (N1 & N2 & N3).
    apply list.NoDup_app in N3 as (_ & _ & N3). apply list.NoDup_app.
    split; [exact N1|]. split; [|exact N3]. intros x Hx Hr. apply (N2 x Hx), elem_of_app. now right. }
  assert (Hfr : forall n, n ∈ nodes pre ++ nodes rest -> n < next_node st).
  { intros n Hn. apply Hlt. rewrite !nodes_app, !elem_of_app in *. tauto. }
  assert (Hd : NoDup (nodes pre ++ next_node st :: nodes rest)).
  { rewrite <- Permutation_middle. apply list.NoDup_cons. split; [|exact Hsub].
    intros Hn%Hfr. lia. }
  set (left := leftover _ _ _ _ _).
  rewrite nodes_app. cbn [nodes map]. change (node (data_seg _ _ _ _ _)) with (next_node st).
  fold (nodes left). unfold left.
  destruct (leftover_nodes (next_node st + 1) start req (pages_of mid) rest) as [-> | ->];
    [exact Hd|]. apply nodup_insert_after; [exact Hd|].
  rewrite elem_of_app, elem_of_cons. intros Hn. assert (next_node st + 1 < next_node st); [|lia].
  apply Hfr, elem_of_app. destruct Hn as [?|[?|?]]; [tauto | lia | tauto].
Qed.

Lemma relaid_evict st i pre mid rest start ep req :
  layout st -> slab_segments_ st !! i = Some (pre ++ mid ++ rest) ->
  (forall x p, tiled x (mid ++ rest) p -> start = x) ->
  0 <= start -> 0 <= req <= pages_of mid -> 0 <= ep < 4294967296 ->
  relaid (next_node st) (next_node st + 2) (Z.of_nat i) (pre ++ mid ++ rest)
    (pre ++ data_seg (next_node st) start req ep (Z.of_nat i)
       :: leftover (next_node st + 1) start req (pages_of mid) rest).
Proof.
  intros L Hl Hstart Hs0 Hreq Hep. set (left := leftover _ _ _ _ _).
  destruct (slab_facts st i _ L Hl) as (Hnd & Hco & Hlt & Hin & _).
  pose proof (coalesced_app_inv _ _ Hco) as [Hco1 [_ Hco2]%coalesced_app_inv].
  assert (Hleft : forall x, x ∈ left -> node x ∈ nodes rest \/ node x = next_node st + 1).
  { intros x Hx%nodes_in. destruct (leftover_nodes (next_node st + 1) start req (pages_of mid) rest)
      as [E|E]; unfold left in Hx; rewrite E in Hx; [now left|].
    apply elem_of_cons in Hx. tauto. }
  split.
  - intros p Hp T. apply tiled_app in T as (m & T1 & T2). apply tiled_app. exists m.
    split; [exact T1|]. pose proof (Hstart _ _ T2) as ->. apply tiled_app in T2 as (m' & T2 & T3).
    apply tiled_pages in T2 as [-> _]. cbn. repeat split; [lia|].
    apply leftover_tiled; auto; lia.
  - apply coalesced_used_mid; [reflexivity | exact Hco1 | now apply leftover_coalesced].
  - now apply evicted_nodes.
  - intros x [Hx|[->|Hx]%elem_of_cons]%elem_of_app.
    + left. rewrite !nodes_app, elem_of_app. left. now apply nodes_in.
    + right. cbn. lia.
    + destruct (Hleft x Hx) as [Hr| ->]; [left|right; lia].
      rewrite !nodes_app, !elem_of_app. now right; right.
  - intros x [Hx|[->|Hx]%elem_of_cons]%elem_of_app.
    + apply Hin, elem_of_app. now left.
    + unfold seg_shape; cbn. repeat split; try lia; try discriminate.
    + destruct (mem_status x) eqn:Ex.
      * unfold seg_shape. rewrite Ex.
        destruct (leftover_free _ _ _ _ _ _ Ex Hx) as [[-> ->]|(r & Hr & Er & -> & ->)];
          [repeat split; try lia; try discriminate|].
        destruct (Hin r) as (_ & (B & Hb & _) & _); [set_solver|].
        repeat split; try lia; try discriminate. auto.
      * apply Hin. apply leftover_used in Hx; [|exact Ex]. rewrite !elem_of_app. tauto.
Qed.

(** The segments left by [evict] are those of the slab outside the window. *)
Lemma evicted_used st i pre mid rest start ep req x :
  layout st -> slab_segments_ st !! i = Some (pre ++ mid ++ rest) -> mem_status x = USED ->
  (x ∈ pre ++ mid ++ rest /\ node x ∉ used_nodes mid) <->
  (x ∈ pre ++ data_seg (next_node st) start req ep (Z.of_nat i)
         :: leftover (next_node st + 1) start req (pages_of mid) rest /\
   node x ∉ [next_node st]).
Proof.
  intros L Hl Hx. destruct (slab_facts st i _ L Hl) as (Hnd & _ & Hlt & _).
  rewrite !elem_of_app, elem_of_cons, list_elem_of_singleton.
  rewrite (leftover_used _ _ _ _ _ x Hx), used_nodes_elem. split.
  - intros [Hxl Hn]. split.
    { destruct Hxl as [?|[?|?]]; [tauto | exfalso; apply Hn; eauto | tauto]. }
    intros E. assert (node x < next_node st); [|lia]. apply Hlt, nodes_in.
    rewrite !elem_of_app. tauto.
  - intros [[Hp|[->|Hp]] Hn]; [| now destruct Hn |]; (split; [tauto|]);
      intros (t & Ht & Et & _); rewrite !nodes_app in Hnd.
    + apply list.NoDup_app in Hnd as (_ & Hd & _).
      apply (Hd _ (nodes_in x pre Hp)), elem_of_app. left. rewrite <- Et. now apply nodes_in.
    + apply list.NoDup_app in Hnd as (_ & _ & Hd).
      apply list.NoDup_app in Hd as (_ & Hd & _). apply (Hd (node t)); [now apply nodes_in|].
      rewrite Et. now apply nodes_in.
Qed.

Lemma evicted_elsewhere st i pre mid rest j x :
  layout st -> slab_segments_ st !! i = Some (pre ++ mid ++ rest) ->
  j <> Z.of_nat i -> located st j x ->
  node x ∈ used_nodes mid <-> node x ∈ [next_node st].
Proof.
  intros L Hl Hj Hx. rewrite list_elem_of_singleton, used_nodes_elem. split.
  - intros (t & Ht & Et & _). exfalso. apply Hj.
    apply (ly_cross st L j x (Z.of_nat i) t Hx); [|congruence].
    apply (located_slab st i _ t Hl). set_solver.
  - intros E. pose proof (ly_fresh st L _ _ Hx). lia.
Qed.

(** A window of unpinned segments holds no segment of a pinned buffer. *)
Lemma pinned_outside st i l mid j x :
  layout st -> slab_segments_ st !! i = Some l -> (forall t, t ∈ mid -> t ∈ l) ->
  (forall t, t ∈ mid -> unpinned st t) -> located st j x -> mem_status x = USED ->
  j = -1 \/ pinned st x -> node x ∉ used_nodes mid.
Proof.
  intros L Hl Hsub Hun Hx Hu Hk. rewrite used_nodes_elem. intros (t & Ht & Et & Htu).
  assert (Htl : located st (Z.of_nat i) t) by (apply (located_slab st i l t Hl); auto).
  destruct (located_inj st _ t j x L Htl Hx Et) as [<- ->].
  destruct Hk as [?|(b & bf & Eb & Hbf & Hpin)]; [lia|].
  destruct (Hun x Ht Hu) as (q & Eq & Hq). unfold seg_pin_count in Eq.
  rewrite Eb, Hbf in Eq. simplify_eq. lia.
Qed.

(** The state once the loop has freed the window [mid]: the slab is laid out again with
    the new segment and what is left of the window. *)
Lemma evicted_took st st1 st' i pre mid rest start req :
  layout st -> thinner st st1 -> ownership (used_nodes mid) st1 ->
  slab_segments_ st !! i = Some (pre ++ mid ++ rest) ->
  (forall s, s ∈ mid -> unpinned st s) ->
  (forall x p, tiled x (mid ++ rest) p -> start = x) ->
  0 <= start -> 0 <= req <= pages_of mid ->
  slab_segments_ st' = <[i := pre ++ data_seg (next_node st1) start req (buffer_epoch_ st1) (Z.of_nat i)
    :: leftover (next_node st1 + 1) start req (pages_of mid) rest]> (slab_segments_ st1) ->
  frame st1 st' -> unsized_segs_ st' = unsized_segs_ st1 -> slabs_ st' = slabs_ st1 ->
  num_pages_allocated_ st' = num_pages_allocated_ st1 ->
  current_max_slab_page_size_ st' = current_max_slab_page_size_ st1 ->
  next_node st' = next_node st1 + 2 -> 0 <= buffer_epoch_ st' < 4294967296 ->
  buffers_ st' = buffers_ st1 -> chunk_index_ st' = chunk_index_ st1 ->
  next_buffer st' = next_buffer st1 -> took st st' req (next_node st1).
Proof.
  intros L T O1 Hl Hun Hstart Hs0 Hreq Esl F' Eu Es Ena Ecu Enn Bep' Eb Ec Enb.
  pose proof (thinner_layout st st1 T L) as L1. destruct T as [E1 E2 E3 E4 E5 E6 F].
  assert (Hl1 : slab_segments_ st1 !! i = Some (pre ++ mid ++ rest)) by now rewrite E2.
  assert (Hloc1 : forall j x, located st1 j x <-> located st j x)
    by (intros; apply located_ext; [exact E2 | apply (fr_unsized _ _ F)]).
  destruct (hole_put (used_nodes mid) st1 st' i _ _ (next_node st1) req L1 O1 Hl1 Esl)
    as (L' & O' & Heq & Hseg); auto; try lia.
  - rewrite Enn. apply relaid_evict; auto. apply (ly_epoch st1 L1).
  - intros x Hx. now apply evicted_used.
  - intros j x Hj Hx. now apply (evicted_elsewhere st1 i pre mid rest j x).
  - eexists. split; [apply elem_mid | auto].
  - split; auto.
    + intros j x Hx. apply Heq in Hx as (Hx & Hu & _). apply Hloc1 in Hx.
      repeat split; auto. apply not_elem_of_nil.
    + intros j x (Hx & Hu & _) Hk. apply Heq. split; [now apply Hloc1|]. split; [exact Hu|].
      apply (pinned_outside st i _ mid j x L Hl); auto. set_solver.
    + exact (frame_trans st st1 st' F F').
Qed.

Lemma evict_spec st i l start pre first post req :
  layout st -> ownership [] st -> slab_segments_ st !! i = Some l -> 0 <= req ->
  split_at start l = Some (pre, first, post) ->
  (exists mid rest, first :: post = mid ++ rest /\ (forall s, s ∈ mid -> unpinned st s) /\
                    req <= pages_of mid) ->
  exists n st', evict start req (Z.of_nat i) st = (Ok n, st') /\ took st st' req n.
Proof.
  intros L O Hl Hreq Hsp Hwin. destruct (split_at_spec _ _ _ _ _ Hsp) as [El _].
  destruct (slab_facts st i l L Hl) as (Hnd & _ & _ & Hin & _).
  destruct (slab_lookup st i l L Hl) as (p & _ & T & _ & Bp).
  assert (Hfirst : forall x q, tiled x (first :: post) q -> start_page first = x)
    by (intros x q (E & _); exact E).
  rewrite El in T, Hnd. apply tiled_app in T as (m & T1 & T2).
  pose proof (tiled_le _ _ _ T1). pose proof (Hfirst _ _ T2). apply tiled_pages in T2 as [Ep Hp0].
  pose proof pool_slab_pages as Bmax.
  rewrite nodes_app in Hnd. apply list.NoDup_app in Hnd as (_ & _ & Hnd).
  assert (Hin' : forall s, s ∈ first :: post -> s ∈ l) by (rewrite El; intros; apply elem_of_app; now right).
  destruct (evict_loop_spec (Z.of_nat i) req (first :: post) [] st 0 L O Hnd)
    as (mid & rest & Emr & Hun & Hge & Erun & O1 & T); [|exact Hwin|lia|lia| |].
  - intros s Hs. split; [now apply Hin, Hin' | intros _; apply not_elem_of_nil].
  - intros s Hs. now apply Hin, Hin'.
  - rewrite app_nil_r in O1. rewrite Z.add_0_l in *. set (st1 := disown_all mid st) in *.
    eexists _, _. split.
    { unfold evict, bind. rewrite (get_slab_nat st i l Hl). cbn [require ret].
      rewrite Hsp. cbn [require ret]. rewrite Erun. fold st1.
      rewrite (u64_small (start_page first)), (s32_small (start_page first)) by lia.
      reflexivity. }
    unfold put_slab, modify. rewrite Nat2Z.id. rewrite El, Emr in Hl.
    apply (evicted_took st st1 _ i pre mid rest (start_page first) req L T O1 Hl Hun);
      try reflexivity; try apply u32_range; try (cbn; lia).
    + rewrite <- Emr. exact Hfirst.
    + split; auto.
Qed.

End Find.
