(* ===== verification/BufferScan.v ===== *)
(** * The search for the segments to evict

    The scan of [findFreeBuffer] finds a stretch of unpinned segments with enough pages
    whose most recently touched segment is as old as possible, or shows there is none. *)

From Stdlib Require Import ZArith Lia List Bool.
From stdpp Require Import base gmap list numbers.
From S2P Require Import Prelude StateMonad BufferMgr BufferInv BufferFind.
Import ListNotations.
Local Open Scope Z_scope.

Section Scan.

Context `{PoolOk}.

(** [mid] is a stretch at the front of [l] that can be evicted for [req] pages. *)
Definition window (st : Mgr) (req : Z) (l mid : list BufferSeg) : Prop :=
  (exists rest, l = mid ++ rest) /\ (forall s, s ∈ mid -> unpinned st s) /\ req <= pages_of mid.

(** The latest touch of a used segment. *)
Fixpoint window_score (l : list BufferSeg) : Z :=
  match l with
  | [] => 0
  | s :: l' => if is_used s then Z.max (last_touched s) (window_score l') else window_score l'
  end.

Lemma window_score_app l1 l2 : window_score (l1 ++ l2) = Z.max (window_score l1) (window_score l2).
Proof.
  assert (Hpos : forall l, 0 <= window_score l) by (induction l; cbn; [lia|]; case_match; lia).
  pose proof (Hpos l2). induction l1 as [|s l1 IH]; cbn; [lia|]. case_match; lia.
Qed.

Lemma window_score_range l :
  (forall s, s ∈ l -> 0 <= last_touched s < 4294967296) -> 0 <= window_score l < 4294967296.
Proof.
  induction l as [|s l IH]; intros Hl; cbn; [lia|].
  assert (0 <= window_score l < 4294967296) by (apply IH; intros; apply Hl; set_solver).
  assert (0 <= last_touched s < 4294967296) by (apply Hl; set_solver). case_match; lia.
Qed.

(** The segments [l] of a slab, as the scan needs them. *)
Definition scannable (st : Mgr) (l : list BufferSeg) : Prop :=
  (forall s, s ∈ l -> 0 <= num_pages s /\ 0 <= last_touched s < 4294967296) /\
  (forall s, s ∈ l -> mem_status s = USED -> exists p, seg_pin_count (buffers_ st) s = Some p) /\
  pages_of l < 4294967296.

Lemma scannable_tail st s l : scannable st (s :: l) -> scannable st l.
Proof.
  intros (H1 & H2 & H3). split_and!.
  - intros t Ht. apply H1. set_solver.
  - intros t Ht. apply H2. set_solver.
  - cbn in H3. assert (0 <= num_pages s) by (apply H1; set_solver). lia.
Qed.

Lemma scannable_pages st l : scannable st l -> 0 <= pages_of l.
Proof.
  intros (H1 & _). induction l as [|s l IH]; cbn; [lia|].
  assert (0 <= num_pages s) by (apply H1; set_solver).
  assert (0 <= pages_of l) by (apply IH; intros; apply H1; set_solver). lia.
Qed.

(** A window that needs a page contains the first segment. *)
Lemma window_cons st req s l mid :
  0 < req -> window st req (s :: l) mid ->
  exists mid', mid = s :: mid' /\ unpinned st s /\ window st (req - num_pages s) l mid'.
Proof.
  intros Hreq. destruct mid as [|t mid]; intros ((rest & E) & Hu & Hr); [cbn in Hr; lia|].
  cbn in E. injection E as <- E. exists mid. split; [reflexivity|]. split; [apply Hu; set_solver|].
  split; [eauto|]. split; [intros; apply Hu; set_solver | cbn in Hr; lia].
Qed.

Lemma window_extend st req s l mid :
  unpinned st s -> window st (req - num_pages s) l mid -> window st req (s :: l) (s :: mid).
Proof.
  intros Hs ((rest & ->) & Hu & Hr). split; [now exists rest|]. split; [|cbn; lia].
  intros t [->|?]%elem_of_cons; auto.
Qed.

(** The pin test of the inner loop. *)
Lemma scan_pins st s :
  (mem_status s = USED -> exists p, seg_pin_count (buffers_ st) s = Some p) ->
  exists pins, (if is_used s then seg_pin_count (buffers_ st) s else Some 0) = Some pins /\
    (is_used s && (0 <? pins) = true -> ~ unpinned st s) /\
    (is_used s && (0 <? pins) = false -> unpinned st s).
Proof.
  intros Hp. unfold unpinned. destruct (is_used s) eqn:Eu; seg_status.
  - destruct (Hp Eu) as [p Ep]. exists p. rewrite Ep, Eu. cbn [andb]. split_and!; [reflexivity| |].
    + intros Hlt Hun. destruct (Hun eq_refl) as (q & Eq & ?). simplify_eq. lia.
    + intros Hlt _. exists p. split; [reflexivity | lia].
  - exists 0. rewrite Eu. split_and!; [reflexivity | discriminate | discriminate].
Qed.

(** The inner loop: what it finds is the shortest window; what it does not find is not there,
    and when it reached the end there is no window further on either. *)
Lemma scan_window_spec st req l : forall page_count score,
  scannable st l -> 0 <= page_count < req -> page_count + pages_of l < 4294967296 -> 0 <= score ->
  exists found sc at_end,
    scan_window (buffers_ st) req page_count score l = Some (found, sc, at_end) /\
    (found = true -> at_end = false /\ exists mid, window st (req - page_count) l mid /\
       sc = Z.max score (window_score mid) /\
       forall mid', window st (req - page_count) l mid' -> window_score mid <= window_score mid') /\
    (found = false -> forall mid, ~ window st (req - page_count) l mid) /\
    (at_end = true -> pages_of l < req - page_count).
Proof.
  induction l as [|s l IH]; intros page_count score Hsc Hpc Hb Hs.
  - exists false, score, true. cbn. split; [reflexivity|]. split_and!; [discriminate| |lia].
    intros _ mid ((rest & E) & _ & Hr). symmetry in E. apply app_eq_nil in E as [-> _]. cbn in Hr. lia.
  - pose proof (scannable_tail st s l Hsc) as Hsc'. destruct Hsc as (H1 & H2 & _).
    destruct (H1 s ltac:(set_solver)) as [Hn Hlt]. cbn in Hb.
    pose proof (scannable_pages st l Hsc') as Hl0. cbn [scan_window pages_of].
    assert (Hnil := fun mid => window_cons st (req - page_count) s l mid ltac:(lia)).
    destruct (scan_pins st s (H2 s ltac:(set_solver))) as (pins & -> & Hpin & Hun).
    destruct (is_used s && (0 <? pins)).
    { exists false, score, false. split; [reflexivity|]. split_and!; [discriminate| |discriminate].
      intros _ mid Hw. destruct (Hnil mid Hw) as (_ & _ & Hs' & _). exact (Hpin eq_refl Hs'). }
    specialize (Hun eq_refl). clear Hpin. rewrite u64_small by lia.
    set (score' := if is_used s then Z.max score (last_touched s) else score).
    assert (Hs' : 0 <= score') by (unfold score'; destruct (is_used s); lia).
    assert (Esc : forall m, Z.max score' (window_score m) = Z.max score (window_score (s :: m)))
      by (intros m; unfold score'; cbn [window_score]; destruct (is_used s); lia).
    destruct (Z.leb_spec req (page_count + num_pages s)) as [Hen|Hen].
    + exists true, score', false. split; [reflexivity|]. split_and!; [|discriminate|discriminate].
      intros _. split; [reflexivity|]. exists [s]. split_and!.
      * apply window_extend; [exact Hun|]. split; [now exists l|]. split; [|cbn; lia].
        intros t []%elem_of_nil.
      * rewrite <- Esc. cbn. lia.
      * intros mid' Hw. destruct (Hnil mid' Hw) as (m' & -> & _).
        change (s :: m') with ([s] ++ m'). rewrite window_score_app. lia.
    + destruct (IH (page_count + num_pages s) score' Hsc' ltac:(lia) ltac:(lia) Hs')
        as (found & sc & at_end & E & Hf & Hnf & Hend).
      replace (req - (page_count + num_pages s)) with (req - page_count - num_pages s) in * by lia.
      exists found, sc, at_end. split; [exact E|]. split_and!.
      * intros Ef. destruct (Hf Ef) as (Ea & mid & Hw & Escore & Hmin).
        split; [exact Ea|]. exists (s :: mid). split_and!; [now apply window_extend | now rewrite <- Esc|].
        intros mid' Hw'. destruct (Hnil mid' Hw') as (m' & -> & _ & Hw2).
        specialize (Hmin m' Hw2). cbn [window_score]. destruct (is_used s); lia.
      * intros Ef mid Hw. destruct (Hnil mid Hw) as (m' & -> & _ & Hw'). exact (Hnf Ef m' Hw').
      * intros Ea. specialize (Hend Ea). lia.
Qed.

(** ** The best window *)

(** Of the places in [P] (slab and rest of its list), [best] is a window of the lowest
    score, or there is no window. *)
Definition best_of (st : Mgr) (req : Z) (P : Z -> list BufferSeg -> Prop) (best : Best) : Prop :=
  (forall k suf mid, P k suf -> window st req suf mid -> fst best <= window_score mid) /\
  match snd best with
  | None => fst best = UINT64_MAX
  | Some (n, k) => exists s suf mid, P k (s :: suf) /\ node s = n /\
                     window st req (s :: suf) mid /\ window_score mid = fst best
  end.

Lemma best_of_iff st req P Q best :
  (forall k suf, P k suf <-> Q k suf) -> best_of st req P best -> best_of st req Q best.
Proof.
  intros HPQ [H1 H2]. split.
  - intros k suf mid HQ. apply H1 with (k := k). now apply HPQ.
  - destruct (snd best) as [[n k]|]; [|exact H2]. destruct H2 as (s & suf & mid & HP & ?).
    exists s, suf, mid. split; [now apply HPQ | assumption].
Qed.

(** The non-empty ends of the list [l] of slab [k]. *)
Definition ends (k : Z) (l : list BufferSeg) (k' : Z) (suf : list BufferSeg) : Prop :=
  k' = k /\ suf <> [] /\ exists pre, l = pre ++ suf.

Lemma ends_cons k s l k' suf :
  ends k (s :: l) k' suf <-> (k' = k /\ suf = s :: l) \/ ends k l k' suf.
Proof.
  unfold ends. split.
  - intros (-> & Hne & [|t pre] & E); cbn in E; [left; auto|]. right. injection E as <- E. eauto.
  - intros [(-> & ->)|(-> & Hne & pre & ->)].
    + split_and!; [reflexivity | discriminate | now exists []].
    + split_and!; [reflexivity | exact Hne | now exists (s :: pre)].
Qed.

Lemma best_of_add st req P best (Q : Z -> list BufferSeg -> Prop) :
  best_of st req P best ->
  (forall k' suf mid, Q k' suf -> window st req suf mid -> fst best <= window_score mid) ->
  best_of st req (fun k' suf => P k' suf \/ Q k' suf) best.
Proof.
  intros [H1 H2] HQ. split.
  - intros k' suf mid [HP|Hq] Hw; eauto.
  - destruct (snd best) as [[n j]|]; [|exact H2]. destruct H2 as (s & suf & mid & ? & ?).
    exists s, suf, mid. auto.
Qed.

Lemma scan_slab_spec st req k l : forall P best,
  scannable st l -> 0 < req -> best_of st req P best ->
  exists best', scan_slab (buffers_ st) req k l best = Some best' /\
    best_of st req (fun k' suf => P k' suf \/ ends k l k' suf) best'.
Proof.
  induction l as [|s l IH]; intros P best Hsc Hreq Hbest.
  - exists best. split; [reflexivity|]. apply best_of_add; [exact Hbest|].
    intros k' suf mid (_ & Hne & pre & E). symmetry in E. apply app_eq_nil in E as [_ ->]. easy.
  - pose proof (scannable_tail st s l Hsc) as Hsc'. cbn [scan_slab].
    destruct (scan_window_spec st req (s :: l) 0 0 Hsc ltac:(lia)) as
      (found & sc & at_end & E & Hf & Hnf & Hend); [destruct Hsc as (_ & _ & ?); lia | lia |].
    rewrite Z.sub_0_r in *. rewrite E.
    assert (Hrec : forall best1,
      best_of st req (fun k' suf => P k' suf \/ (k' = k /\ suf = s :: l)) best1 ->
      exists best', scan_slab (buffers_ st) req k l best1 = Some best' /\
        best_of st req (fun k' suf => P k' suf \/ ends k (s :: l) k' suf) best').
    { intros best1 Hb1. destruct (IH _ best1 Hsc' Hreq Hb1) as (best' & -> & Hb').
      exists best'. split; [reflexivity|]. revert Hb'. apply best_of_iff. intros k' suf.
      rewrite ends_cons. tauto. }
    destruct found; cbn [andb].
    + destruct (Hf eq_refl) as (-> & mid & Hw & Esc & Hmin).
      assert (Hsc0 : sc = window_score mid)
        by (rewrite Esc; destruct Hw as ((rest & Em) & _); pose proof (window_score_range mid); 
            destruct Hsc as (Ht & _); assert (0 <= window_score mid < 4294967296)
              by (apply window_score_range; intros t Htm; apply Ht; rewrite Em; set_solver); lia).
      destruct (Z.ltb_spec sc (fst best)) as [Hlt|Hge]; apply Hrec.
      * destruct Hbest as [H1 _]. split; cbn [fst snd].
        -- intros k' suf m [HP|[-> ->]] Hw'; [specialize (H1 _ _ _ HP Hw') | specialize (Hmin _ Hw')]; lia.
        -- exists s, l, mid. split; [right; auto|]. auto.
      * apply best_of_add; [exact Hbest|]. intros k' suf m [-> ->] Hw'.
        specialize (Hmin _ Hw'). lia.
    + destruct at_end.
      * exists best. split; [reflexivity|]. apply best_of_add; [exact Hbest|].
        intros k' suf m (_ & _ & pre & Es) ((rest & ->) & _ & Hr). exfalso.
        specialize (Hend eq_refl). rewrite Es, !pages_of_app in Hend.
        destruct Hsc as (Ht & Hu & Hb). 
        assert (Hnn : forall x, (forall t, t ∈ x -> t ∈ s :: l) -> 0 <= pages_of x).
        { intros x Hx. apply (pages_of_prefix [] x). intros t Htx. apply Ht, Hx, Htx. }
        assert (0 <= pages_of pre /\ 0 <= pages_of rest)
          by (split; apply Hnn; intros t; rewrite Es; set_solver). lia.
      * apply Hrec. apply best_of_add; [exact Hbest|].
        intros k' suf m [-> ->] Hw. now destruct (Hnf eq_refl m).
Qed.

Lemma scan_slabs_spec st req slabs : forall k P best,
  (forall l, l ∈ slabs -> scannable st l) -> 0 < req -> best_of st req P best ->
  exists best', scan_slabs (buffers_ st) req k slabs best = Some best' /\
    best_of st req (fun k' suf => P k' suf \/ exists (i : nat) l, slabs !! i = Some l /\
                                    ends (k + Z.of_nat i) l k' suf) best'.
Proof.
  induction slabs as [|l slabs IH]; intros k P best Hsc Hreq Hbest.
  - exists best. split; [reflexivity|]. apply best_of_add; [exact Hbest|].
    intros k' suf mid (i & l & Hl & _). discriminate Hl.
  - cbn [scan_slabs].
    destruct (scan_slab_spec st req k l P best (Hsc l ltac:(set_solver)) Hreq Hbest)
      as (best1 & -> & Hb1).
    destruct (IH (k + 1) _ best1 ltac:(intros; apply Hsc; set_solver) Hreq Hb1) as (best' & -> & Hb').
    exists best'. split; [reflexivity|]. revert Hb'. apply best_of_iff. intros k' suf. split.
    + intros [[?|He]|(i & l' & Hl & He)]; [now left | right; exists 0%nat, l | right; exists (S i), l'].
      * now rewrite Z.add_0_r.
      * split; [exact Hl|]. now replace (k + Z.of_nat (S i)) with (k + 1 + Z.of_nat i) by lia.
    + intros [?|([|i] & l' & Hl & He)]; [tauto | left; right | right; exists i, l'].
      * cbn in Hl. simplify_eq. now rewrite Z.add_0_r in He.
      * split; [exact Hl|]. now replace (k + 1 + Z.of_nat i) with (k + Z.of_nat (S i)) by lia.
Qed.

(** ** The scan of a pool *)

(** The places of the pool: slab and rest of its list. *)
Definition place (st : Mgr) (k : Z) (suf : list BufferSeg) : Prop :=
  suf <> [] /\ 0 <= k /\ exists pre, slab_segments_ st !! Z.to_nat k = Some (pre ++ suf).

Lemma slab_scannable st l :
  layout st -> ownership [] st -> l ∈ slab_segments_ st -> scannable st l.
Proof.
  intros L O (i & Hl)%list_elem_of_lookup.
  destruct (slab_facts st i l L Hl) as (_ & _ & _ & Hin & _).
  destruct (slab_lookup st i l L Hl) as (p & _ & T & _ & Bp). apply tiled_pages in T.
  pose proof pool_slab_pages. split_and!; [| |lia].
  - intros s Hs. destruct (Hin s Hs) as (_ & (? & _) & _ & ? & _). lia.
  - intros s Hs Hu. destruct (Hin s Hs) as (Hloc & _).
    destruct (ow_seg _ _ O (Z.of_nat i) s) as (b & bf & Eb & Hbf & _);
      [repeat split; auto; apply not_elem_of_nil|].
    exists (b_pin_count bf). unfold seg_pin_count. now rewrite Eb, Hbf.
Qed.

Lemma scan_pool st req :
  layout st -> ownership [] st -> 0 < req ->
  exists best, scan_slabs (buffers_ st) req 0 (slab_segments_ st) (UINT64_MAX, None) = Some best /\
    best_of st req (place st) best.
Proof.
  intros L O Hreq.
  destruct (scan_slabs_spec st req (slab_segments_ st) 0 (fun _ _ => False) (UINT64_MAX, None))
    as (best & E & Hb); [intros; now apply slab_scannable | exact Hreq | now split; cbn |].
  exists best. split; [exact E|]. revert Hb. apply best_of_iff. intros k suf. unfold place, ends. split.
  - intros [[]|(i & l & Hl & -> & Hne & pre & ->)]. split; [exact Hne|]. split; [lia|].
    exists pre. now rewrite Z.add_0_l, Nat2Z.id.
  - intros (Hne & Hk & pre & Hl). right. exists (Z.to_nat k), (pre ++ suf).
    split; [exact Hl|]. split; [lia|]. eauto.
Qed.

(** Without a best window there is no window at all. *)
Lemma no_window st req best :
  layout st -> best_of st req (place st) best -> snd best = None ->
  forall k suf mid, place st k suf -> ~ window st req suf mid.
Proof.
  intros L [H1 H2] E k suf mid Hp Hw. rewrite E in H2. specialize (H1 _ _ _ Hp Hw).
  rewrite H2 in H1. assert (window_score mid < 4294967296); [|change UINT64_MAX with 18446744073709551615 in H1; lia].
  destruct Hp as (_ & Hk & pre & Hl), Hw as ((rest & ->) & _).
  destruct (slab_facts st _ _ L Hl) as (_ & _ & _ & Hin & _).
  apply window_score_range. intros s Hs. destruct (Hin s) as (_ & (? & _) & _); [|lia].
  rewrite !elem_of_app. tauto.
Qed.

(** ** [findFreeBuffer] *)

Inductive find_outcome (st : Mgr) (num_bytes : Z) : result BMError Z * Mgr -> Prop :=
| found n st' : took st st' (pages_for num_bytes) n -> find_outcome st num_bytes (Ok n, st')
| too_big : max_num_pages_per_slab_ cfg < pages_for num_bytes ->
    find_outcome st num_bytes (Err (TooBigForSlab num_bytes), st)
| no_first_slab st' : idle_slabs st st' -> num_pages_allocated_ st' = 0 ->
    allocations_capped_ st' = true ->
    find_outcome st num_bytes (Err (FailedToCreateFirstSlab num_bytes), st')
| out_of_memory st' : idle_slabs st st' -> slab_segments_ st <> [] ->
    no_free st (pages_for num_bytes) -> no_slab st' (pages_for num_bytes) ->
    (forall k suf mid, place st k suf -> ~ window st (pages_for num_bytes) suf mid) ->
    find_outcome st num_bytes (Err (OutOfMemory num_bytes), st')
| no_slab_at_all st' : idle_slabs st st' -> slab_segments_ st = [] ->
    no_slab st' (pages_for num_bytes) ->
    ~ (num_pages_allocated_ st' = 0 /\ allocations_capped_ st' = true) ->
    find_outcome st num_bytes (Err UndefinedBehavior, st').

Lemma pages_for_pos num_bytes :
  0 < num_bytes < 4611686018427387904 ->
  0 < pages_for num_bytes /\ num_bytes <= pages_for num_bytes * page_size_ cfg.
Proof.
  intros Hn. pose proof config_bounds as (Bp & _). unfold pages_for.
  rewrite u64_small by lia. split.
  - apply Z.div_str_pos. lia.
  - pose proof (Z.mul_succ_div_gt (num_bytes + page_size_ cfg - 1) _ page_size_pos). lia.
Qed.

Lemma idle_window st st' req suf mid :
  idle st st' -> window st' req suf mid <-> window st req suf mid.
Proof.
  intros I. unfold window, unpinned. now rewrite (id_buffers _ _ I).
Qed.

(** The end of [findFreeBuffer]: the scan and the eviction. *)
Lemma evict_best st0 st num_bytes :
  idle_slabs st0 st -> 0 < num_bytes < 4611686018427387904 ->
  no_free st0 (pages_for num_bytes) -> no_slab st (pages_for num_bytes) ->
  ~ (num_pages_allocated_ st = 0 /\ allocations_capped_ st = true) ->
  find_outcome st0 num_bytes
    (bind (get_slab 0) (fun _ =>
     bind (require (scan_slabs (buffers_ st) (pages_for num_bytes) 0 (slab_segments_ st)
                      (UINT64_MAX, None))) (fun best =>
     match snd best with
     | None => throw (OutOfMemory num_bytes)
     | Some (start, slab) => evict start (pages_for num_bytes) slab
     end)) st).
Proof.
  intros [I Es] Hn Hfree Hslab Hfirst. destruct (pages_for_pos num_bytes Hn) as [Hreq _].
  pose proof (id_layout _ _ I) as L. pose proof (id_own _ _ I) as O.
  destruct (slab_segments_ st) as [|l0 rest0] eqn:Eseg.
  { unfold bind, get_slab. rewrite Eseg. apply no_slab_at_all; auto. split; congruence. }
  assert (Eg : get_slab 0 st = (Ok l0, st)) by (apply (get_slab_nat st 0); now rewrite Eseg).
  unfold bind at 1. rewrite Eg, <- Eseg. rewrite <- Eseg in Es.
  destruct (scan_pool st (pages_for num_bytes) L O Hreq) as (best & E & Hb). rewrite E.
  unfold bind, require, ret. cbv beta iota.
  destruct (snd best) as [[start slab]|] eqn:Ebest.
  - destruct Hb as [_ Hb]. rewrite Ebest in Hb.
    destruct Hb as (s & suf & mid & (_ & Hk & pre & Hl) & <- & Hw & _).
    pose proof (ly_nodup st L _ _ Hl) as Hnd.
    destruct (split_at_in _ s Hnd (elem_mid pre suf s)) as (pre' & post' & Hsp).
    assert (Heq : pre' = pre /\ post' = suf).
    { destruct (split_at_spec _ _ _ _ _ Hsp) as [Eq _]. rewrite Eq in Hnd.
      assert (Hlen : forall (a b c d : list BufferSeg), NoDup (nodes (a ++ s :: b)) ->
                a ++ s :: b = c ++ s :: d -> c = a /\ d = b).
      { induction a as [|x a IH]; intros b [|y cc] d Hd He; cbn in *.
        - now injection He as ->.
        - injection He as <- ->. apply list.NoDup_cons in Hd as [Hd _]. exfalso. apply Hd.
          apply nodes_in, elem_mid.
        - injection He as -> He. apply list.NoDup_cons in Hd as [Hd _]. exfalso. apply Hd.
          apply nodes_in, elem_mid.
        - injection He as <- He. apply list.NoDup_cons in Hd as [_ Hd].
          destruct (IH b cc d Hd He) as [-> ->]. auto. }
      destruct (Hlen pre' post' pre suf Hnd (eq_sym Eq)). auto. }
    destruct Heq as [-> ->].
    destruct (evict_spec st (Z.to_nat slab) _ (node s) pre s suf (pages_for num_bytes) L O Hl
                (Z.lt_le_incl _ _ Hreq) Hsp) as (n & st' & Ee & T).
    { destruct Hw as ((rest & Er) & Hu & Hr). eauto. }
    rewrite Z2Nat.id in Ee by exact Hk. rewrite Ee. apply found. exact (idle_took _ _ _ _ _ I T).
  - apply out_of_memory; auto; [now split | congruence |].
    intros k suf mid Hp Hw. apply (no_window st _ best L Hb Ebest k suf mid).
    + unfold place in *. now rewrite Es.
    + now apply (idle_window st0 st).
Qed.

Lemma findFreeBuffer_spec st num_bytes :
  layout st -> ownership [] st -> 0 < num_bytes < 4611686018427387904 ->
  find_outcome st num_bytes (findFreeBuffer num_bytes st).
Proof.
  intros L O Hn. destruct (pages_for_pos num_bytes Hn) as [Hreq _]. unfold findFreeBuffer.
  destruct (Z.ltb_spec (max_num_pages_per_slab_ cfg) (pages_for num_bytes)) as [Hbig|_];
    [now apply too_big|].
  unfold bind at 1, gets at 1. unfold bind at 1.
  destruct (find_in_slabs_spec st (pages_for num_bytes) (length (slab_segments_ st)) 0 L O
              (Z.lt_le_incl _ _ Hreq) eq_refl) as [[-> Hno]|(n & st' & -> & T)]; [|now apply found].
  assert (Hfree : no_free st (pages_for num_bytes)).
  { intros i s [[? _]|(_ & l & Hl & Hs)] Hi Hf; [lia|]. exact (Hno _ l s ltac:(lia) Hl Hs Hf). }
  unfold bind at 1.
  destruct (add_slab_loop_spec st (pages_for num_bytes) L O (Z.lt_le_incl _ _ Hreq))
    as [(n & st' & -> & T)|(st' & -> & I & Hslab)]; [now apply found|].
  unfold bind at 1, gets at 1, id.
  destruct ((num_pages_allocated_ st' =? 0) && allocations_capped_ st') eqn:Ef.
  - apply andb_true_iff in Ef as [E1 E2]. apply Z.eqb_eq in E1. now apply no_first_slab.
  - apply evict_best; auto. intros [E1 E2]. rewrite E1, E2 in Ef. discriminate.
Qed.

End Scan.
