(* ===== verification/BufferOps.v ===== *)
(** * The operations on segments and buffers *)

From Stdlib Require Import ZArith Lia List Bool.
From stdpp Require Import base gmap list numbers.
From S2P Require Import Prelude StateMonad BufferMgr BufferInv BufferFind BufferScan.
Import ListNotations.
Local Open Scope Z_scope.

Section Ops.

Context `{PoolOk}.

(** ** [removeSegment] *)

(** Everything but the segment lists. *)
Record same_heap (st st' : Mgr) : Prop := {
  sh_slabs : slabs_ st' = slabs_ st;
  sh_index : chunk_index_ st' = chunk_index_ st;
  sh_buffers : buffers_ st' = buffers_ st;
  sh_mem : slab_mem st' = slab_mem st;
  sh_allocated : num_pages_allocated_ st' = num_pages_allocated_ st;
  sh_current : current_max_slab_page_size_ st' = current_max_slab_page_size_ st;
  sh_id : max_buffer_id_ st' = max_buffer_id_ st;
  sh_epoch : buffer_epoch_ st' = buffer_epoch_ st;
  sh_node : next_node st' = next_node st;
  sh_next : next_buffer st' = next_buffer st
}.

Lemma deref_located st i s : layout st -> located st i s -> deref (node s) st = (Ok s, st).
Proof. intros L Hs. unfold deref. now rewrite (find_node_located st i s L Hs). Qed.

Lemma relaid_freed st i pre s post :
  layout st -> slab_segments_ st !! i = Some (pre ++ s :: post) ->
  relaid (next_node st) (next_node st) (Z.of_nat i) (pre ++ s :: post) (freed pre s post).
Proof.
  intros L Hl. destruct (slab_facts st i _ L Hl) as (Hnd & Hco & _ & Hin & _).
  pose proof (freed_coalesced pre s post Hco) as Hco'.
  destruct (freed_shape pre s post)
    as (pre0 & fs & fp & post0 & s' & -> & -> & Ef & _ & Hn & Hs' & Hb & Ht & Htile & _).
  rewrite Ef in *.
  assert (Hperm : (pre0 ++ fs) ++ s :: fp ++ post0 = pre0 ++ (fs ++ s :: fp) ++ post0)
    by now rewrite <- !app_assoc.
  rewrite Hperm in *. split.
  - intros p Hp. apply (tiled_splice 0 pre0 (fs ++ s :: fp) [s'] post0 p). intros x y Hx Hy.
    apply Htile; lia.
  - exact Hco'.
  - rewrite !nodes_app in Hnd. cbn in Hnd. rewrite nodes_app. cbn. rewrite Hn.
    apply list.NoDup_app in Hnd as (N1 & N2 & N3). apply list.NoDup_app in N3 as (N3 & N4 & N5).
    assert (Hin1 : node s ∈ nodes fs ++ node s :: nodes fp) by apply elem_mid.
    apply list.NoDup_app. split; [exact N1|]. split; [|apply list.NoDup_cons; auto].
    intros x Hx [->|Hx']%elem_of_cons; apply (N2 _ Hx), elem_of_app; auto.
  - intros x [Hx|[->|Hx]%elem_of_cons]%elem_of_app; left.
    + rewrite !nodes_app, !elem_of_app. left. now apply nodes_in.
    + rewrite Hn. apply nodes_in. rewrite !elem_of_app, elem_of_cons. auto.
    + rewrite !nodes_app, !elem_of_app. right; right. now apply nodes_in.
  - intros x [Hx|[->|Hx]%elem_of_cons]%elem_of_app.
    + apply Hin. rewrite !elem_of_app. auto.
    + destruct (Hin s) as (_ & (B & _) & _); [rewrite !elem_of_app, elem_of_cons; auto|].
      unfold seg_shape. rewrite Hs', Hb, Ht. repeat split; try lia; discriminate.
    + apply Hin. rewrite !elem_of_app. auto.
Qed.

(** Used segments other than [s] are not touched. *)
Lemma freed_used pre s post x :
  NoDup (nodes (pre ++ s :: post)) -> mem_status x = USED ->
  x ∈ freed pre s post <-> x ∈ pre ++ s :: post /\ node x <> node s.
Proof.
  intros Hnd Hx.
  assert (Hne : forall y, y ∈ pre ++ post -> node y <> node s).
  { intros y Hy E. rewrite nodes_app in Hnd. cbn in Hnd. rewrite <- Permutation_middle in Hnd.
    apply list.NoDup_cons in Hnd as [Hd _]. apply Hd. rewrite <- E, <- nodes_app. now apply nodes_in. }
  destruct (freed_shape pre s post)
    as (pre0 & fs & fp & post0 & s' & -> & -> & -> & Hfree & Hn & Hs' & _).
  rewrite !elem_of_app, !elem_of_cons, !elem_of_app. split.
  - intros [?|[->|?]]; [|congruence|]; (split; [tauto|]); apply Hne; rewrite !elem_of_app; tauto.
  - intros [[[?|?]|[->|[?|?]]] Hn']; try tauto; exfalso;
      (rewrite (Hfree x) in Hx; [discriminate | apply elem_of_app; tauto]).
Qed.

(** Taking a segment without a slab from the list of those. *)
Lemma remove_unsized st s :
  layout st -> located st (-1) s ->
  let st' := set_unsized_segs_
    (List.filter (fun y => negb (node y =? node s)) (unsized_segs_ st)) st in
  layout st' /\ same_heap st st' /\
  forall j x, located st' j x <-> located st j x /\ node x <> node s.
Proof.
  intros L Hs st'.
  assert (Hmem : forall x, x ∈ unsized_segs_ st' <-> x ∈ unsized_segs_ st /\ node x <> node s).
  { intros x. cbn. rewrite !list_elem_of_In, filter_In, negb_true_iff, Z.eqb_neq. reflexivity. }
  assert (Hloc : forall j x, located st' j x <-> located st j x /\ (j = -1 -> node x <> node s)).
  { intros j x. unfold located. rewrite Hmem. split.
    - intros [(-> & ? & ?)|(? & ?)]; [auto|]. split; [auto | lia].
    - intros [[[-> ?]|?] Hn]; [left; auto | now right]. }
  split; [|split; [now split|]].
  - destruct L. split; auto.
    + unfold st', nodes; cbn. revert ly_unsized. unfold nodes.
      generalize (unsized_segs_ st) as u. induction u as [|y u IH]; cbn; [auto|].
      intros [N1 N2]%list.NoDup_cons. destruct (node y =? node s); cbn; [auto|].
      apply list.NoDup_cons. split; [|auto]. intros (z & Ez & Hz)%list_elem_of_fmap. apply N1.
      rewrite Ez. apply list_elem_of_fmap. exists z. split; [reflexivity|].
      apply list_elem_of_In, filter_In in Hz as [? _]. now apply list_elem_of_In.
    + intros a x b y [Hx _]%Hloc [Hy _]%Hloc. eauto.
    + intros a x [Hx _]%Hloc. eauto.
    + intros a x [Hx _]%Hloc. eauto.
  - intros j x. rewrite Hloc. split; (intros [Hxl Hn]; split; [exact Hxl|]); [|auto].
    intros E. destruct (located_inj st j x (-1) s L Hxl Hs E) as [-> ->]. now apply Hn.
Qed.

Lemma removeSegment_spec st i s :
  layout st -> located st i s -> mem_status s = USED ->
  exists st', removeSegment (node s) st = (Ok tt, st') /\ layout st' /\ same_heap st st' /\
    forall j x, mem_status x = USED ->
      located st' j x <-> located st j x /\ node x <> node s.
Proof.
  intros L Hs Hu. unfold removeSegment, bind at 1. rewrite (deref_located st i s L Hs).
  destruct (ly_shape st L i s Hs) as (_ & _ & Hi & _). rewrite (Hi Hu). clear Hi.
  pose proof Hs as [[-> Hin]|(Hi & l & Hl & Hin)].
  - cbn [Z.ltb Z.compare]. eexists. split; [reflexivity|].
    destruct (remove_unsized st s L Hs) as (L' & SH & Hloc). auto.
  - destruct (Z.ltb_spec i 0); [lia|].
    assert (Eg : get_slab i st = (Ok l, st)).
    { rewrite <- (Z2Nat.id i) by exact Hi. now apply get_slab_nat. }
    pose proof (ly_nodup st L _ _ Hl) as Hnd.
    destruct (split_at_in l s Hnd Hin) as (pre & post & Hsp).
    destruct (split_at_spec _ _ _ _ _ Hsp) as [El _].
    unfold bind. rewrite Eg. rewrite Hsp. cbn [require ret].
    destruct (merge_prev pre s) as [pre' s1] eqn:Em1. destruct (merge_next s1 post) as [s2 post'] eqn:Em2.
    assert (Efr : pre' ++ set_buffer None (set_mem_status FREE s2) :: post' = freed pre s post)
      by (unfold freed; now rewrite Em1, Em2).
    rewrite Efr. eexists. split; [reflexivity|]. rewrite El in *.
    match goal with |- layout ?s' /\ _ => set (st' := s') end.
    split; [|split; [now split|]].
    + apply (layout_relaid st st' (Z.to_nat i) _ (freed pre s post) L Hl); try reflexivity.
      * apply (ly_epoch st L).
      * exact (relaid_freed st (Z.to_nat i) pre s post L Hl).
    + intros j x Hx.
      rewrite (located_put st st' (Z.to_nat i) _ _ Hl eq_refl eq_refl), (freed_used _ _ _ _ Hnd Hx).
      rewrite Z2Nat.id by exact Hi.
      destruct (slab_facts st _ _ L Hl) as (_ & _ & _ & Hin1 & Hin2). rewrite Z2Nat.id in * by exact Hi.
      split.
      * intros [(-> & Hx' & Hn)|[Nj Hx']]; [split; [now apply Hin1 | exact Hn]|].
        split; [exact Hx'|]. intros E. now destruct (located_inj st j x i s L Hx' Hs E).
      * intros [Hx' Hn]. destruct (decide (j = i)) as [->|Nj]; [left|now right]. auto.
Qed.

(** ** One segment replaced *)

Lemma owned_same X st i x j s :
  layout st -> owned X st i x -> owned X st j s -> node x = node s -> x = s.
Proof. intros L [Hx _] [Hs _] E. now destruct (located_inj st i x j s L Hx Hs E). Qed.

(** [s'] takes the place of the owned segment [s], with its key and its buffer. *)
Lemma ownership_replace X X' st st' j s j' s' b bf' :
  layout st -> ownership X st -> owned X st j s -> buffer s = Some b ->
  buffer s' = Some b -> chunk_key s' = chunk_key s ->
  (forall i x, owned X' st' i x <->
     (i = j' /\ x = s') \/ (owned X st i x /\ node x <> node s)) ->
  buffers_ st' = <[b := bf']> (buffers_ st) ->
  chunk_index_ st' = <[chunk_key s := node s']> (chunk_index_ st) ->
  next_buffer st <= next_buffer st' -> buf_ok j' s' bf' ->
  ownership X' st'.
Proof.
  intros L O Hs Eb Eb' Ek Hown Ebs Eix Hn Hok.
  destruct (ow_seg _ _ O j s Hs) as (b0 & bf & E0 & Hbf & _ & Hk & Hne). simplify_eq.
  assert (Hdiff : forall i x, owned X st i x -> node x <> node s ->
            chunk_key x <> chunk_key s /\ buffer x <> Some b).
  { intros i x Hx Nx. split.
    - intros E. destruct (ow_seg _ _ O i x Hx) as (_ & _ & _ & _ & _ & Hk' & _). congruence.
    - intros E. apply Nx, (ow_uniq _ _ O i x j s Hx Hs). congruence. }
  split.
  - intros i x [[-> ->]|[Hx Nx]]%Hown.
    + exists b, bf'. rewrite Ebs, Eix, Ek, !lookup_insert_eq. auto.
    + destruct (ow_seg _ _ O i x Hx) as (b1 & bf1 & E1 & H1 & Ho & Hk1 & Hn1).
      destruct (Hdiff i x Hx Nx) as [Dk Db]. exists b1, bf1.
      rewrite Ebs, Eix, !lookup_insert_ne by congruence. auto.
  - intros k n. rewrite Eix, lookup_insert_Some. intros [[<- <-]|[Nk Hkn]].
    + exists j', s'. split; [apply Hown; auto | auto].
    + destruct (ow_index _ _ O k n Hkn) as (i & x & Hx & En & Ex). exists i, x.
      split; [|auto]. apply Hown. right. split; [exact Hx|]. intros E.
      apply Nk. rewrite <- Ex. now rewrite (owned_same X st i x j s L Hx Hs E).
  - intros b1 bf1. rewrite Ebs, lookup_insert_Some. intros [[<- <-]|[Nb Hb1]].
    + destruct (ow_buffers _ _ O b bf Hbf) as [? _]. split; [lia|]. exists j', s'.
      split; [apply Hown; auto | exact Eb'].
    + destruct (ow_buffers _ _ O b1 bf1 Hb1) as (? & i & x & Hx & Ex). split; [lia|].
      exists i, x. split; [|exact Ex]. apply Hown. right. split; [exact Hx|]. intros E.
      rewrite (owned_same X st i x j s L Hx Hs E) in Ex. congruence.
  - intros i x i2 x2 [[-> ->]|[Hx Nx]]%Hown [[-> ->]|[Hx2 Nx2]]%Hown E; auto.
    + exfalso. apply (Hdiff i2 x2 Hx2 Nx2). congruence.
    + exfalso. apply (Hdiff i x Hx Nx). congruence.
    + exact (ow_uniq _ _ O i x i2 x2 Hx Hx2 E).
Qed.

(** ** Assignments through an iterator *)

Definition upd (n : Z) (f : BufferSeg -> BufferSeg) (st : Mgr) : Mgr :=
  set_unsized_segs_ (update_node n f (unsized_segs_ st))
    (set_slab_segments_ (map (update_node n f) (slab_segments_ st)) st).

Lemma located_upd n f st i x :
  located (upd n f st) i x <->
  exists y, located st i y /\ x = (if node y =? n then f y else y).
Proof.
  unfold located, upd; cbn. unfold update_node at 1. rewrite list_elem_of_fmap. split.
  - intros [(-> & y & -> & Hy)|(Hi & l & Hl & Hx)]; [eauto|].
    rewrite list_lookup_fmap in Hl. apply fmap_Some in Hl as (l0 & Hl0 & ->).
    unfold update_node in Hx. apply list_elem_of_fmap in Hx as (y & -> & Hy). eauto 8.
  - intros (y & [[-> Hy]|(Hi & l & Hl & Hy)] & ->); [eauto|]. right. split; [exact Hi|].
    exists (update_node n f l). rewrite list_lookup_fmap, Hl. split; [reflexivity|].
    unfold update_node. apply list_elem_of_fmap. eauto.
Qed.

(** [f] changes neither the node nor the pages nor the status. *)
Definition in_place (f : BufferSeg -> BufferSeg) : Prop :=
  forall s, node (f s) = node s /\ start_page (f s) = start_page s /\
            num_pages (f s) = num_pages s /\ mem_status (f s) = mem_status s.

Lemma tiled_update n f l a e : in_place f -> tiled a (update_node n f l) e <-> tiled a l e.
Proof.
  intros Hf. revert a. induction l as [|s l IH]; intros a; cbn; [done|]. fold (update_node n f l).
  destruct (Hf s) as (_ & E1 & E2 & _).
  destruct (node s =? n); rewrite ?E1, ?E2, IH; reflexivity.
Qed.

Lemma coalesced_update n f l : in_place f -> coalesced (update_node n f l) <-> coalesced l.
Proof.
  intros Hf. induction l as [|s l IH]; [done|]. destruct l as [|t l]; [done|].
  cbn [update_node map] in *. cbn [coalesced]. rewrite IH.
  assert (E : forall x, mem_status (if node x =? n then f x else x) = mem_status x)
    by (intros x; destruct (node x =? n); [apply (Hf x) | reflexivity]).
  now rewrite !E.
Qed.

Lemma layout_upd n f st :
  layout st -> in_place f ->
  (forall i s, located st i s -> node s = n -> seg_shape i (f s)) -> layout (upd n f st).
Proof.
  intros L Hf Hsh. pose proof (located_upd n f st) as Hloc.
  assert (Hnode : forall y, node (if node y =? n then f y else y) = node y)
    by (intros y; destruct (node y =? n); [apply (Hf y) | reflexivity]).
  assert (Hnodes : forall l, nodes (update_node n f l) = nodes l)
    by (intros; apply update_node_nodes; intros; apply Hf).
  destruct L. split; auto.
  - unfold upd; cbn. now rewrite length_map.
  - unfold upd, slab_pages; cbn. intros i l p Hl Hp. rewrite list_lookup_fmap in Hl.
    apply fmap_Some in Hl as (l0 & Hl0 & ->). rewrite tiled_update, coalesced_update by exact Hf.
    eauto.
  - unfold upd; cbn. intros i l Hl. rewrite list_lookup_fmap in Hl.
    apply fmap_Some in Hl as (l0 & Hl0 & ->). rewrite Hnodes. eauto.
  - unfold upd; cbn. now rewrite Hnodes.
  - intros i s j t (y & Hy & ->)%Hloc (z & Hz & ->)%Hloc. rewrite !Hnode. eauto.
  - intros i s (y & Hy & ->)%Hloc. rewrite Hnode. unfold upd; cbn. eauto.
  - intros i s (y & Hy & ->)%Hloc. destruct (Z.eqb_spec (node y) n); eauto.
Qed.

(** ** Growing in place *)

(** [s] grown to [req] pages at the expense of the free segment behind it. *)
Definition grown (req : Z) (s : BufferSeg) : BufferSeg := set_num_pages req s.
Definition shrunk (req : Z) (s next : BufferSeg) : BufferSeg :=
  set_start_page (s32 (start_page s + req))
    (set_num_pages (num_pages next - (req - num_pages s)) next).

Lemma seg_shape_pages i s s' :
  0 <= i -> mem_status s' = mem_status s -> buffer s' = buffer s -> slab_num s' = slab_num s ->
  last_touched s' = last_touched s -> seg_shape i s -> seg_shape i s'.
Proof.
  intros Hi E1 E2 E3 E4 (H1 & H2 & H3 & _). unfold seg_shape. rewrite E1, E2, E3, E4.
  split_and!; auto; lia.
Qed.

Lemma relaid_grow st i pre s next post req :
  layout st -> slab_segments_ st !! i = Some (pre ++ s :: next :: post) ->
  num_pages s <= req -> req - num_pages s <= num_pages next ->
  relaid (next_node st) (next_node st) (Z.of_nat i) (pre ++ s :: next :: post)
    (pre ++ grown req s :: shrunk req s next :: post).
Proof.
  intros L Hl Hreq Hfit. destruct (slab_facts st i _ L Hl) as (Hnd & Hco & _ & Hin & _).
  destruct (Hin s (elem_mid _ _ _)) as (_ & Hsh & Bs).
  assert (Hnx : next ∈ pre ++ s :: next :: post) by (rewrite elem_of_app, !elem_of_cons; auto).
  destruct (Hin next Hnx) as (_ & Hshn & Bn).
  assert (En : nodes (pre ++ grown req s :: shrunk req s next :: post)
               = nodes (pre ++ s :: next :: post)) by (rewrite !nodes_app; reflexivity).
  split.
  - intros p Hp. change (s :: next :: post) with ([s; next] ++ post).
    change (grown req s :: shrunk req s next :: post)
      with ([grown req s; shrunk req s next] ++ post). apply tiled_splice.
    intros x y Hx Hy (E1 & E2 & E3 & E4 & E5). cbn in *. rewrite s32_small by lia.
    repeat split; lia.
  - apply (coalesced_status pre s (grown req s) _ eq_refl) in Hco.
    change (pre ++ grown req s :: next :: post) with (pre ++ [grown req s] ++ next :: post) in Hco.
    rewrite app_assoc in Hco.
    apply (coalesced_status _ next (shrunk req s next) _ eq_refl) in Hco.
    now rewrite <- app_assoc in Hco.
  - now rewrite En.
  - intros x Hx. left. rewrite <- En. now apply nodes_in.
  - intros x. rewrite elem_of_app, !elem_of_cons. intros [Hx|[->|[->|Hx]]].
    + apply Hin. rewrite elem_of_app. auto.
    + revert Hsh. apply seg_shape_pages; [lia|reflexivity..].
    + revert Hshn. apply seg_shape_pages; [lia|reflexivity..].
    + apply Hin. rewrite elem_of_app, !elem_of_cons. auto.
Qed.

Lemma grow_in_place st i pre s next post req :
  layout st -> ownership [] st -> slab_segments_ st !! i = Some (pre ++ s :: next :: post) ->
  mem_status s = USED -> mem_status next = FREE ->
  num_pages s <= req -> req - num_pages s <= num_pages next ->
  let st' := set_slab_segments_
               (<[i := pre ++ grown req s :: shrunk req s next :: post]> (slab_segments_ st)) st in
  layout st' /\ ownership [] st' /\
  forall j x, owned [] st' j x <->
    (j = Z.of_nat i /\ x = grown req s) \/ (owned [] st j x /\ node x <> node s).
Proof.
  intros L O Hl Hu Hf Hreq Hfit st'.
  destruct (slab_facts st i _ L Hl) as (Hnd & _ & _ & Hin & Hin2).
  destruct (Hin s (elem_mid _ _ _)) as (Hloc & _).
  pose proof (relaid_grow st i pre s next post req L Hl Hreq Hfit) as R.
  assert (Hout : forall x, x ∈ pre ++ next :: post -> node x <> node s).
  { intros x Hx E. rewrite nodes_app in Hnd. cbn in Hnd. rewrite <- Permutation_middle in Hnd.
    apply list.NoDup_cons in Hnd as [Hd _]. apply Hd. rewrite <- E.
    change (node next :: map node post) with (nodes (next :: post)). rewrite <- nodes_app.
    now apply nodes_in. }
  assert (Hown : forall j x, owned [] st' j x <->
            (j = Z.of_nat i /\ x = grown req s) \/ (owned [] st j x /\ node x <> node s)).
  { intros j x. unfold owned. rewrite (located_put st st' i _ _ Hl eq_refl eq_refl). split.
    - rewrite elem_of_app, !elem_of_cons. intros ([[-> Hx]|[Nj Hx]] & Hxu & Hnn).
      + destruct Hx as [Hx|[->|[->|Hx]]]; [right | auto | cbn in Hxu; congruence | right];
          (split; [split; [apply Hin; rewrite elem_of_app, !elem_of_cons; auto | auto]|]);
          apply Hout; rewrite elem_of_app, elem_of_cons; auto.
      + right. split; [auto|]. intros E. now destruct (located_inj st j x _ s L Hx Hloc E).
    - intros [[-> ->]|((Hx & Hxu & Hnn) & Nx)].
      + split; [left; split; [reflexivity | apply elem_mid]|]. auto using not_elem_of_nil.
      + split; [|auto]. destruct (decide (j = Z.of_nat i)) as [->|Nj]; [left|now right].
        split; [reflexivity|]. apply Hin2 in Hx.
        rewrite elem_of_app, !elem_of_cons in *. destruct Hx as [?|[->|[->|?]]]; auto; congruence. }
  split; [|split; [|exact Hown]].
  - refine (layout_relaid st st' i _ _ L Hl eq_refl eq_refl eq_refl eq_refl eq_refl (Z.le_refl _)
              (ly_epoch st L) R).
  - assert (Hos : owned [] st (Z.of_nat i) s) by (repeat split; auto using not_elem_of_nil).
    destruct (ow_seg _ _ O _ _ Hos) as (b & bf & Eb & Hbf & Hok & Hk & _).
    apply (ownership_replace [] [] st st' (Z.of_nat i) s (Z.of_nat i) (grown req s) b bf
             L O Hos Eb Eb eq_refl Hown).
    + symmetry. now apply insert_id.
    + symmetry. now apply insert_id.
    + apply Z.le_refl.
    + pose proof page_size_pos as Hps. destruct Hok as (? & ? & Hle & Hrest). split; [assumption|].
      split; [assumption|]. split; [cbn; nia | exact Hrest].
Qed.

(** ** Moving a buffer to another segment *)

Lemma alter_lookup (f : Buffer -> Buffer) (m : gmap Z Buffer) b bf :
  m !! b = Some bf -> alter f b m = <[b := f bf]> m.
Proof.
  intros Hb. apply map_eq. intros k. destruct (decide (k = b)) as [->|N].
  - now rewrite lookup_alter_eq, Hb, lookup_insert_eq.
  - now rewrite lookup_alter_ne, lookup_insert_ne by auto.
Qed.

(** The bytes of the memory of a buffer at [offset] of slab [slab]. *)
Definition slab_bytes (mem : Z -> Z -> Z) (slab offset n : Z) : list Z :=
  map (fun i => mem slab (offset + (0 + Z.of_nat i))) (seq 0 (Z.to_nat n)).

Lemma slab_bytes_length mem slab offset n :
  0 <= n -> Z.of_nat (length (slab_bytes mem slab offset n)) = n.
Proof. intros Hn. unfold slab_bytes. rewrite length_map, length_seq. lia. Qed.

Lemma slab_bytes_nth mem slab offset n i :
  0 <= i < n -> List.nth (Z.to_nat i) (slab_bytes mem slab offset n) 0 = mem slab (offset + i).
Proof.
  intros Hi. unfold slab_bytes. set (f := fun i : nat => mem slab (offset + (0 + Z.of_nat i))).
  rewrite (nth_indep _ 0 (f 0%nat)) by (rewrite length_map, length_seq; lia).
  rewrite map_nth, seq_nth by lia. unfold f. f_equal. lia.
Qed.

Lemma write_bytes_in mem slab offset bytes o :
  0 <= o < Z.of_nat (length bytes) ->
  write_bytes mem slab offset bytes slab (offset + o) = List.nth (Z.to_nat o) bytes 0.
Proof.
  intros Ho. unfold write_bytes. rewrite Z.eqb_refl. cbn [andb].
  destruct (Z.leb_spec offset (offset + o)); [|lia].
  destruct (Z.ltb_spec (offset + o) (offset + Z.of_nat (length bytes))); [|lia]. cbn [andb].
  do 2 f_equal. lia.
Qed.

Lemma write_bytes_out mem slab offset bytes s o :
  s <> slab \/ o < offset \/ offset + Z.of_nat (length bytes) <= o ->
  write_bytes mem slab offset bytes s o = mem s o.
Proof.
  intros Ho. unfold write_bytes. destruct (Z.eqb_spec s slab); [|reflexivity].
  destruct (Z.leb_spec offset o); [|reflexivity].
  destruct (Z.ltb_spec o (offset + Z.of_nat (length bytes))); [|reflexivity]. lia.
Qed.

Section Move.

(** Segment [s0], in slab [j], owned by buffer [b]; the hole [h] of slab [k]. *)
Context (st : Mgr) (j k b : Z) (s0 h : BufferSeg) (bf : Buffer).
Hypothesis L : layout st.
Hypothesis O : ownership [node h] st.
Hypothesis Hs0 : owned [node h] st j s0.
Hypothesis Hb0 : buffer s0 = Some b.
Hypothesis Hbf : buffers_ st !! b = Some bf.
Hypothesis Hh : located st k h.
Hypothesis Hk : 0 <= k.
Hypothesis Hhu : mem_status h = USED.
Hypothesis Hpages : num_pages s0 <= num_pages h.
Hypothesis Htok : b_token bf = None.

Definition moved_seg : BufferSeg := set_chunk_key (chunk_key s0) (set_buffer (buffer s0) h).
Definition moved_buf : Buffer := set_b_mem (SlabPtr k (start_page h * page_size_ cfg)) bf.
Definition filled : Mgr :=
  upd (node h) (fun s => set_chunk_key (chunk_key s0) (set_buffer (buffer s0) s)) st.
Definition moved (mem : Z -> Z -> Z) : Mgr :=
  set_slab_mem mem (set_buffers_ (<[b := moved_buf]> (buffers_ st)) filled).

Lemma filled_located i x :
  located filled i x <-> (i = k /\ x = moved_seg) \/ (located st i x /\ node x <> node h).
Proof.
  unfold filled. rewrite located_upd. split.
  - intros (y & Hy & ->). destruct (Z.eqb_spec (node y) (node h)) as [E|N]; [left|now right].
    destruct (located_inj st i y k h L Hy Hh E) as [-> ->]. now split.
  - intros [[-> ->]|[Hx N]].
    + exists h. split; [exact Hh|]. now rewrite Z.eqb_refl.
    + exists x. split; [exact Hx|]. destruct (Z.eqb_spec (node x) (node h)); [easy | reflexivity].
Qed.

Lemma filled_layout : layout filled.
Proof.
  unfold filled. apply layout_upd; [exact L | intros x; auto |]. intros i x Hx E.
  destruct (located_inj st i x k h L Hx Hh E) as [-> ->].
  destruct (ly_shape st L k h Hh) as (B1 & _ & B3 & B4).
  unfold seg_shape; cbn. rewrite Hhu. split_and!; try lia; try discriminate; auto.
Qed.

Lemma moved_located mem i x :
  located (moved mem) i x <-> (i = k /\ x = moved_seg) \/ (located st i x /\ node x <> node h).
Proof. unfold moved. rewrite (located_ext filled) by reflexivity. apply filled_located. Qed.

Lemma moved_layout mem : layout (moved mem).
Proof.
  apply (layout_ext filled (moved mem)); try reflexivity;
    [apply (ly_cur st L) | apply (ly_epoch st L) | exact filled_layout].
Qed.

Lemma moved_bounds : buf_ok j s0 bf /\ chunk_index_ st !! chunk_key s0 = Some (node s0) /\
  slab_num h = k /\ node s0 <> node h.
Proof.
  destruct (ow_seg _ _ O j s0 Hs0) as (b' & bf' & E & E' & Hok & Hki & _). simplify_eq.
  split; [exact Hok|]. split; [exact Hki|]. split.
  - exact (proj1 (proj2 (proj2 (ly_shape st L k h Hh))) Hhu).
  - intros E2. destruct Hs0 as (_ & _ & Hn). apply Hn. rewrite E2. now apply list_elem_of_singleton.
Qed.

Lemma moved_buf_ok : buf_ok k moved_seg moved_buf.
Proof.
  destruct moved_bounds as ((B1 & B2 & B3 & B4 & B5 & B6 & B7) & _). pose proof page_size_pos.
  unfold buf_ok, moved_buf, moved_seg; cbn.
  split_and!; [lia | lia | assumption | nia | assumption | assumption | | lia].
  intros _. split_and!; auto. destruct (Z.le_gt_cases 0 j) as [Hj|Hj].
  - now apply B6.
  - destruct Hs0 as ([[-> _]|[? _]] & _); [|lia]. specialize (B7 eq_refl). rewrite Htok in B7.
    destruct B7 as [_ ->]. nia.
Qed.

Definition moved_mem : Z -> Z -> Z :=
  if 0 <=? j
  then write_bytes (slab_mem st) k (start_page h * page_size_ cfg + 0)
         (slab_bytes (slab_mem st) j (start_page s0 * page_size_ cfg) (b_size bf))
  else slab_mem st.

Lemma start_page_sign : (0 <=? start_page s0) = (0 <=? j).
Proof.
  destruct Hs0 as (Hloc & Hu & _). destruct (ly_shape st L j s0 Hloc) as (_ & _ & _ & Hneg).
  pose proof Hloc as [[-> _]|[Hj _]].
  - destruct (Hneg eq_refl) as (_ & -> & _). reflexivity.
  - pose proof (located_range st j s0 L Hloc Hj). zbool; lia.
Qed.

Lemma reserve_tail_run st4 :
  removeSegment (node s0) (moved moved_mem) = (Ok tt, st4) ->
  reserve_tail (node h) (node s0) st
  = (Ok (node h), set_chunk_index_ (<[chunk_key s0 := node h]> (chunk_index_ st4)) st4).
Proof.
  intros Hrm. destruct moved_bounds as (Hok & _ & Hsn & _).
  destruct Hs0 as (Hloc & Hu & Hn).
  assert (Ed : deref (node h) filled = (Ok moved_seg, filled))
    by (apply (deref_located filled k moved_seg filled_layout), filled_located; auto).
  unfold reserve_tail. unfold bind at 1. rewrite (deref_located st j s0 L Hloc).
  unfold bind at 1, update_seg, modify at 1. fold (upd (node h)
    (fun s => set_chunk_key (chunk_key s0) (set_buffer (buffer s0) s)) st). fold filled.
  unfold bind at 1. rewrite Hb0 at 1. unfold require at 1, ret at 1.
  unfold bind at 1, get_buffer. change (buffers_ filled) with (buffers_ st).
  rewrite Hbf. unfold require at 1, ret at 1. unfold bind at 1. rewrite Ed.
  unfold bind at 1, update_buffer, modify at 1. change (buffers_ filled) with (buffers_ st).
  rewrite (alter_lookup _ _ b bf Hbf).
  change (slab_num moved_seg) with (slab_num h). change (start_page moved_seg) with (start_page h).
  rewrite Hsn. fold moved_buf. change (set_buffers_ _ filled) with (moved (slab_mem st)).
  assert (Ew : (if 0 <=? start_page s0
                then bind (read_bytes (b_mem bf) 0 (b_size bf)) (fun bytes => writeData b bytes 0)
                else ret tt) (moved (slab_mem st)) = (Ok tt, moved moved_mem)).
  { rewrite start_page_sign. unfold moved_mem. destruct (Z.leb_spec 0 j) as [Hj|Hj]; [|reflexivity].
    destruct Hok as (_ & _ & _ & _ & _ & Hm & _). destruct (Hm Hj) as (Em & _ & _). rewrite Em.
    unfold bind, read_bytes, writeData, get_buffer, bind, modify. cbn [moved set_slab_mem buffers_ set_buffers_].
    rewrite lookup_insert_eq. cbn [require ret]. unfold moved_buf at 1. cbn [set_b_mem b_mem].
    reflexivity. }
  unfold bind at 1. rewrite Ew. unfold bind at 1. rewrite Hrm. reflexivity.
Qed.

(** The moved contents, and every other segment of the pool. *)
Lemma moved_mem_in o :
  0 <= j -> 0 <= o < b_size bf ->
  moved_mem k (start_page h * page_size_ cfg + o)
  = slab_mem st j (start_page s0 * page_size_ cfg + o).
Proof.
  intros Hj Ho. unfold moved_mem. destruct (Z.leb_spec 0 j); [|lia]. rewrite Z.add_0_r.
  rewrite write_bytes_in by (rewrite slab_bytes_length; lia). now rewrite slab_bytes_nth by lia.
Qed.

Lemma moved_mem_out i x o :
  located st i x -> node x <> node h -> 0 <= o < num_pages x * page_size_ cfg ->
  moved_mem i (start_page x * page_size_ cfg + o)
  = slab_mem st i (start_page x * page_size_ cfg + o).
Proof.
  intros Hx Nx Ho. unfold moved_mem. destruct (Z.leb_spec 0 j) as [Hj|]; [|reflexivity].
  apply write_bytes_out. destruct (decide (i = k)) as [->|]; [|now left]. right.
  destruct moved_bounds as ((? & ? & Hle & ? & _ & Hm & _) & _). destruct (Hm Hj) as (_ & _ & Hsz).
  rewrite slab_bytes_length by assumption. pose proof page_size_pos as Hps.
  destruct (located_disjoint st k x h L Hx Hh Hk Nx); [left|right]; nia.
Qed.

(** What is owned once the old segment has been removed too. *)
Lemma moved_owned mem st' :
  (forall i x, mem_status x = USED ->
     located st' i x <-> located (moved mem) i x /\ node x <> node s0) ->
  forall i x, owned [] st' i x <->
    (i = k /\ x = moved_seg) \/ (owned [node h] st i x /\ node x <> node s0).
Proof.
  intros Hl i x. destruct moved_bounds as (_ & _ & _ & Hne). unfold owned. split.
  - intros (Hx & Hu & _). apply Hl in Hx as [Hx Nx]; [|exact Hu].
    apply moved_located in Hx as [?|[Hx Nh]]; [now left|]. right.
    rewrite list_elem_of_singleton. auto.
  - intros [[-> ->]|((Hx & Hu & Nh) & Nx)].
    + split; [|split; [exact Hhu | apply not_elem_of_nil]]. apply Hl; [exact Hhu|].
      split; [apply moved_located; auto|]. cbn. congruence.
    + split; [|split; [exact Hu | apply not_elem_of_nil]]. apply Hl; [exact Hu|].
      rewrite list_elem_of_singleton in Nh. split; [apply moved_located; auto | exact Nx].
Qed.

End Move.

(** ** [reserveBuffer] *)

(** Buffer [b], which had segment [s0] in [st], has segment [n] of at least [req] pages in
    [st'], with the same contents; no other segment changed, and the unpinned sized ones at
    most disappeared. *)
Record reserved (st st' : Mgr) (j : Z) (s0 : BufferSeg) (b : Z) (bf : Buffer) (req n : Z)
    : Prop := {
  rs_layout : layout st';
  rs_own : ownership [] st';
  rs_seg : exists k s', owned [] st' k s' /\ 0 <= k /\ node s' = n /\ buffer s' = Some b /\
    chunk_key s' = chunk_key s0 /\ req <= num_pages s' /\
    buffers_ st' !! b = Some (set_b_mem (SlabPtr k (start_page s' * page_size_ cfg)) bf) /\
    (0 <= j -> forall o, 0 <= o < b_size bf ->
       slab_mem st' k (start_page s' * page_size_ cfg + o)
       = slab_mem st j (start_page s0 * page_size_ cfg + o));
  rs_others : forall i x, owned [] st' i x -> node x <> n ->
    owned [] st i x /\ node x <> node s0 /\
    forall o, 0 <= i -> 0 <= o < num_pages x * page_size_ cfg ->
      slab_mem st' i (start_page x * page_size_ cfg + o)
      = slab_mem st i (start_page x * page_size_ cfg + o);
  rs_keep : forall i x, owned [] st i x -> node x <> node s0 -> i = -1 \/ pinned st x ->
    owned [] st' i x /\ node x <> n;
  rs_buffers : forall b' bf', b' <> b -> buffers_ st' !! b' = Some bf' ->
    buffers_ st !! b' = Some bf';
  rs_next : next_buffer st' = next_buffer st;
  rs_id : max_buffer_id_ st' = max_buffer_id_ st
}.

Lemma buf_ok_mem i s bf :
  0 <= i -> buf_ok i s bf -> set_b_mem (SlabPtr i (start_page s * page_size_ cfg)) bf = bf.
Proof. intros Hi (_ & _ & _ & _ & _ & Hm & _). destruct (Hm Hi) as [<- _]. now destruct bf. Qed.

(** The segment is kept. *)
Lemma reserved_same st j s0 b bf req :
  layout st -> ownership [] st -> owned [] st j s0 -> buffer s0 = Some b ->
  buffers_ st !! b = Some bf -> 0 <= j -> req <= num_pages s0 ->
  reserved st st j s0 b bf req (node s0).
Proof.
  intros L O Hs Hb Hbf Hj Hreq.
  destruct (ow_seg _ _ O j s0 Hs) as (b' & bf' & E1 & E2 & Hok & _).
  assert (b' = b) as -> by congruence. assert (bf' = bf) as -> by congruence.
  split; auto.
  exists j, s0. rewrite (buf_ok_mem j s0 bf Hj Hok). auto 10.
Qed.

Lemma reserved_grow st i pre s next post b bf req :
  layout st -> ownership [] st -> slab_segments_ st !! i = Some (pre ++ s :: next :: post) ->
  owned [] st (Z.of_nat i) s -> mem_status next = FREE -> buffer s = Some b ->
  buffers_ st !! b = Some bf -> num_pages s <= req -> req - num_pages s <= num_pages next ->
  reserved st (set_slab_segments_
    (<[i := pre ++ grown req s :: shrunk req s next :: post]> (slab_segments_ st)) st)
    (Z.of_nat i) s b bf req (node s).
Proof.
  intros L O Hl Hs Hf Hb Hbf Hreq Hfit.
  destruct (grow_in_place st i pre s next post req L O Hl (proj1 (proj2 Hs)) Hf Hreq Hfit)
    as (L' & O' & Hown).
  destruct (ow_seg _ _ O _ s Hs) as (b' & bf' & E1 & E2 & Hok & _).
  assert (b' = b) as -> by congruence. assert (bf' = bf) as -> by congruence.
  split; auto.
  - exists (Z.of_nat i), (grown req s).
    change (start_page (grown req s)) with (start_page s).
    rewrite (buf_ok_mem (Z.of_nat i) s bf (Zle_0_nat i) Hok).
    split; [apply Hown; auto|].
    split_and!; [lia | reflexivity | exact Hb | reflexivity | cbn; lia | exact Hbf | reflexivity].
  - intros j x Hx Nx. apply Hown in Hx as [[-> ->]|[Hx _]]; [now destruct Nx|]. auto.
  - intros j x Hx Nx _. split; [apply Hown; auto | exact Nx].
Qed.

(** The segment is moved. *)
Lemma reserved_move st st1 j s0 b bf req n :
  layout st -> ownership [] st -> owned [] st j s0 -> buffer s0 = Some b ->
  buffers_ st !! b = Some bf -> b_token bf = None -> j = -1 \/ 0 < b_pin_count bf ->
  num_pages s0 <= req -> took st st1 req n ->
  exists st', reserve_tail n (node s0) st1 = (Ok n, st') /\ reserved st st' j s0 b bf req n.
Proof.
  intros L O Hs Hb Hbf Htok Hpin Hreq [L1 O1 (k & h & Hh & Hk & <- & Hhu & Hhp & Hhb) Hsurv Hkeep F].
  assert (Hs1 : owned [node h] st1 j s0).
  { apply Hkeep; [exact Hs|]. destruct Hpin; [now left|]. right. exists b, bf. auto. }
  destruct (ow_seg _ _ O1 j s0 Hs1) as (b' & bf' & E1 & Hbf1 & _).
  assert (b' = b) as -> by congruence. pose proof (fr_buffers _ _ F _ _ Hbf1) as E3.
  assert (bf' = bf) as -> by congruence. clear E1 E3.
  destruct (moved_bounds st1 j k b s0 h bf L1 O1 Hs1 Hb Hbf1 Hh Hhu) as (Hok & Hki & Hsn & Hne).
  set (m := moved_mem st1 j k s0 h bf).
  pose proof (moved_layout st1 k b s0 h bf L1 Hh Hk Hhu m) as Lm.
  pose proof (moved_located st1 k b s0 h bf L1 Hh m) as Hlm.
  assert (Hs0m : located (moved st1 k b s0 h bf m) j s0)
    by (apply Hlm; right; split; [apply Hs1 | exact Hne]).
  destruct (removeSegment_spec _ j s0 Lm Hs0m (proj1 (proj2 Hs))) as (st4 & Erm & L4 & SH & Hl4).
  eexists. split; [exact (reserve_tail_run st1 j k b s0 h bf L1 O1 Hs1 Hb Hbf1 Hh Hk Hhu st4 Erm)|].
  match goal with |- reserved _ ?s' _ _ _ _ _ _ => set (st' := s') end.
  assert (L' : layout st') by exact (layout_ext st4 st' eq_refl eq_refl eq_refl eq_refl
    (ly_cur st4 L4) (Z.le_refl _) (ly_epoch st4 L4) L4).
  assert (Hown : forall i x, owned [] st' i x <->
            (i = k /\ x = moved_seg s0 h) \/ (owned [node h] st1 i x /\ node x <> node s0)).
  { apply (moved_owned st1 j k b s0 h bf L1 O1 Hs1 Hb Hbf1 Hh Hhu m). intros i x Hu.
    rewrite (located_ext st4 st') by reflexivity. now apply Hl4. }
  assert (Ebs : buffers_ st' = <[b := moved_buf k h bf]> (buffers_ st1))
    by (change (buffers_ st') with (buffers_ st4); now rewrite (sh_buffers _ _ SH)).
  assert (Emem : slab_mem st' = m) by (change (slab_mem st') with (slab_mem st4); now rewrite (sh_mem _ _ SH)).
  split.
  - exact L'.
  - apply (ownership_replace [node h] [] st1 st' j s0 k (moved_seg s0 h) b (moved_buf k h bf));
      auto.
    + unfold st'. cbn. now rewrite (sh_index _ _ SH).
    + change (next_buffer st') with (next_buffer st4). now rewrite (sh_next _ _ SH).
    + apply (moved_buf_ok st1 j k b s0 h bf); auto. rewrite Hhp. exact Hreq.
  - exists k, (moved_seg s0 h). split; [apply Hown; auto|]. rewrite Ebs, lookup_insert_eq, Emem.
    split_and!; auto; [cbn; lia|]. intros Hj o Ho. rewrite <- (fr_mem _ _ F).
    now apply (moved_mem_in st1 j k s0 h bf).
  - intros i x Hx Nx. apply Hown in Hx as [[-> ->]|[Hx Ns]]; [now destruct Nx|].
    split; [now apply Hsurv|]. split; [exact Ns|]. intros o Hi Ho. rewrite Emem.
    rewrite <- (fr_mem _ _ F).
    apply (moved_mem_out st1 j k b s0 h bf L1 O1 Hs1 Hb Hbf1 Hh Hk Hhu); auto; [lia | apply Hx].
  - intros i x Hx Ns Hk'. pose proof (Hkeep i x Hx Hk') as Hx1.
    split; [apply Hown; auto|]. destruct Hx1 as (_ & _ & Nh). now rewrite list_elem_of_singleton in Nh.
  - intros b1 bf1 Nb. rewrite Ebs, lookup_insert_ne by auto. apply (fr_buffers _ _ F).
  - change (next_buffer st') with (next_buffer st4). rewrite (sh_next _ _ SH). apply (fr_next _ _ F).
  - change (max_buffer_id_ st') with (max_buffer_id_ st4). rewrite (sh_id _ _ SH). apply (fr_id _ _ F).
Qed.

(** Errors of a reservation. *)
Definition reserve_error (st : Mgr) (e : BMError) : Prop :=
  is_OutOfMemory e = true \/ (e = UndefinedBehavior /\ slab_segments_ st = []).

(** A reservation either succeeds or fails, and a failure changes no buffer and no byte. *)
Definition reserve_outcome st j s0 b bf req (r : result BMError Z * Mgr) : Prop :=
  match r with
  | (Ok n, st') => reserved st st' j s0 b bf req n
  | (Err e, st') => idle st st' /\ reserve_error st e
  end.

Lemma reserve_outcome_move st j s0 b bf num_bytes (g : M bool) :
  layout st -> ownership [] st -> owned [] st j s0 -> buffer s0 = Some b ->
  buffers_ st !! b = Some bf -> b_token bf = None -> j = -1 \/ 0 < b_pin_count bf ->
  0 < num_bytes < 4611686018427387904 -> num_pages s0 <= pages_for num_bytes ->
  g st = (Ok false, st) ->
  reserve_outcome st j s0 b bf (pages_for num_bytes)
    (bind g (fun grown => if grown then ret (node s0)
        else bind (findFreeBuffer num_bytes) (fun n => reserve_tail n (node s0))) st).
Proof.
  intros L O Hs Hb Hbf Htok Hpin Hn Hmore Eg. unfold bind at 1. rewrite Eg. unfold bind.
  destruct (findFreeBuffer_spec st num_bytes L O Hn) as [n st1 T|Hbig|st1 [I _]|st1 [I _]|st1 [I _] Hnil].
  - destruct (reserved_move st st1 j s0 b bf _ n L O Hs Hb Hbf Htok Hpin Hmore T) as (st' & -> & R).
    exact R.
  - split; [now apply idle_refl | now left].
  - split; [exact I | now left].
  - split; [exact I | now left].
  - split; [exact I | now right].
Qed.

Lemma reserveBuffer_spec st j s0 b bf num_bytes :
  layout st -> ownership [] st -> owned [] st j s0 -> buffer s0 = Some b ->
  buffers_ st !! b = Some bf -> b_token bf = None -> j = -1 \/ 0 < b_pin_count bf ->
  0 < num_bytes < 4611686018427387904 ->
  reserve_outcome st j s0 b bf (pages_for num_bytes) (reserveBuffer (node s0) num_bytes st).
Proof.
  intros L O Hs Hb Hbf Htok Hpin Hn. destruct (pages_for_pos num_bytes Hn) as [Hreq _].
  pose proof (fun g Hm => reserve_outcome_move st j s0 b bf num_bytes g L O Hs Hb Hbf Htok Hpin Hn Hm)
    as Htail.
  unfold reserveBuffer.
  set (req := pages_for num_bytes) in *.
  pose proof (proj1 Hs) as Hloc. destruct (ly_shape st L j s0 Hloc) as (_ & _ & Hsn & Hneg).
  specialize (Hsn (proj1 (proj2 Hs))).
  unfold bind at 1. rewrite (deref_located st j s0 L Hloc).
  assert (Hrange : 0 <= num_pages s0 < 2147483648).
  { destruct (Z.le_gt_cases 0 j) as [Hj|Hj]; [pose proof (located_range st j s0 L Hloc Hj); lia|].
    destruct Hloc as [[-> _]|[? _]]; [|lia]. destruct (Hneg eq_refl) as (_ & _ & ->). lia. }
  destruct (Z.ltb_spec req (num_pages s0)) as [Hless|Hmore].
  { apply reserved_same; auto; [|lia].
    destruct Hloc as [[-> _]|[? _]]; [|assumption]. destruct (Hneg eq_refl) as (_ & _ & E). lia. }
  specialize (fun g => Htail g Hmore).
  rewrite Hsn. destruct (Z.leb_spec 0 j) as [Hj|Hj]; [|now apply Htail].
  pose proof Hloc as [[? _]|(_ & l & Hl & Hin)]; [lia|].
  assert (Eg : get_slab j st = (Ok l, st)) by (rewrite <- (Z2Nat.id j) by exact Hj; now apply get_slab_nat).
  destruct (split_at_in l s0 (ly_nodup st L _ _ Hl) Hin) as (pre & post & Hsp).
  destruct (split_at_spec _ _ _ _ _ Hsp) as [El _].
  destruct post as [|next post].
  { apply Htail. unfold bind. rewrite Eg, Hsp. reflexivity. }
  destruct (is_free next && (u64 (req - num_pages s0) <=? num_pages next)) eqn:Eroom.
  2: { apply Htail. unfold bind. rewrite Eg, Hsp. cbn [require ret]. rewrite Eroom. reflexivity. }
  pose proof Eroom as [Ef Efit]%andb_true_iff. apply is_free_spec in Ef. apply Z.leb_le in Efit.
  assert (Breq : req < 18446744073709551616).
  { unfold req, pages_for. pose proof (u64_range (num_bytes + page_size_ cfg - 1)).
    pose proof page_size_pos. apply Z.div_lt_upper_bound; [lia|]. nia. }
  rewrite u64_small in Efit by lia. rewrite El in Hl.
  unfold bind. rewrite Eg, Hsp. cbn [require ret]. rewrite Eroom, u64_small by lia.
  pose proof (reserved_grow st (Z.to_nat j) pre s0 next post b bf req L O Hl) as R.
  rewrite Z2Nat.id in R by exact Hj. apply R; auto.
Qed.

End Ops.
