(* ===== verification/BufferClient.v ===== *)
(** * What the clients of the buffer pool see

    A client holds [Buffer] objects and reads and writes their bytes.  [buffer_bytes] is
    the contents of a buffer; [keeps X st st'] says that an operation that led from [st]
    to [st'] left every buffer outside [X] alone, evictions of unpinned buffers apart. *)

From Stdlib Require Import ZArith Lia List Bool.
From stdpp Require Import base gmap list numbers.
From S2P Require Import Prelude StateMonad BufferMgr BufferInv BufferFind BufferScan BufferOps.
Import ListNotations.
Local Open Scope Z_scope.

Section Client.

Context `{PoolOk}.

(** ** The invariant and the view *)

Record wf (st : Mgr) : Prop := {
  wf_layout : layout st;
  wf_own : ownership [] st;
  wf_its : seg_its [] st
}.

Definition token_bytes (t n : Z) : list Z :=
  map (fun i => token_byte t (0 + Z.of_nat i)) (seq 0 (Z.to_nat n)).

Definition buffer_bytes (mem : Z -> Z -> Z) (bf : Buffer) : list Z :=
  match b_mem bf with
  | NullPtr => []
  | SlabPtr k o => slab_bytes mem k o (b_size bf)
  | TokenPtr t => token_bytes t (b_size bf)
  end.

(** Buffer [b] is [bf] and has segment [s] in slab [i]. *)
Definition has (st : Mgr) (i : Z) (s : BufferSeg) (b : Z) (bf : Buffer) : Prop :=
  owned [] st i s /\ buffer s = Some b /\ buffers_ st !! b = Some bf.

(** In use by a client, or without memory of the pool: not subject to eviction. *)
Definition held (bf : Buffer) : Prop :=
  0 < b_pin_count bf \/ forall k o, b_mem bf <> SlabPtr k o.

(** The chunk of key [key] has buffer [b]. *)
Definition named (st : Mgr) (key : ChunkKey) (b : Z) : Prop :=
  exists i s, owned [] st i s /\ chunk_key s = key /\ buffer s = Some b.

Record keeps (X : list Z) (st st' : Mgr) : Prop := {
  kp_from : forall b bf, b ∉ X -> buffers_ st' !! b = Some bf ->
    buffers_ st !! b = Some bf /\ buffer_bytes (slab_mem st') bf = buffer_bytes (slab_mem st) bf;
  kp_held : forall b bf, b ∉ X -> buffers_ st !! b = Some bf -> held bf ->
    buffers_ st' !! b = Some bf;
  kp_named : forall key b, b ∉ X -> named st' key b -> named st key b
}.

Lemma keeps_refl X st : keeps X st st.
Proof. split; auto. Qed.

Lemma keeps_trans X st1 st2 st3 : keeps X st1 st2 -> keeps X st2 st3 -> keeps X st1 st3.
Proof.
  intros [F1 K1 N1] [F2 K2 N2]. split; auto.
  intros b bf Hb Hbf. destruct (F2 b bf Hb Hbf) as [H2 E2]. destruct (F1 b bf Hb H2) as [H1 E1].
  split; congruence.
Qed.

Lemma keeps_weaken X Y st st' : (forall b, b ∈ X -> b ∈ Y) -> keeps X st st' -> keeps Y st st'.
Proof.
  intros Hi [F K N]. split; intros b bf Hb; [apply F | apply K | apply N];
    try (intros Hx; apply Hb, Hi, Hx).
Qed.

Lemma buffer_has st b bf : wf st -> buffers_ st !! b = Some bf -> exists i s, has st i s b bf.
Proof.
  intros [_ O _] Hb. destruct (ow_buffers _ _ O b bf Hb) as (_ & i & s & Hs & E).
  exists i, s. now split.
Qed.

Lemma has_ok st i s b bf :
  wf st -> has st i s b bf ->
  buf_ok i s bf /\ b_seg_it bf = node s /\ chunk_index_ st !! chunk_key s = Some (node s).
Proof.
  intros [L O I] (Hs & Eb & Hbf). destruct (ow_seg _ _ O i s Hs) as (b' & bf' & E1 & E2 & Hok & Hk & _).
  simplify_eq. split; [exact Hok|]. split; [|exact Hk].
  destruct Hs as (Hl & Hu & _). exact (I i s b bf Hl Hu Eb (not_elem_of_nil b) Hbf).
Qed.

Lemma has_held st i s b bf :
  wf st -> has st i s b bf -> held bf -> i = -1 \/ pinned st s.
Proof.
  intros W Hs Hh. destruct (has_ok st i s b bf W Hs) as ((_ & _ & _ & _ & _ & Hm & _) & _).
  destruct Hs as (([[-> _]|(Hi & _)] & _) & Eb & Hbf); [now left|]. right.
  destruct (Hm Hi) as (Em & _). exists b, bf. split; [exact Eb|]. split; [exact Hbf|].
  destruct Hh as [?|Hno]; [assumption|]. now destruct (Hno _ _ Em).
Qed.

(** The bytes of a sized buffer are inside its segment. *)
Lemma bytes_ext mem mem' i s bf :
  buf_ok i s bf -> -1 <= i ->
  (0 <= i -> forall o, 0 <= o < num_pages s * page_size_ cfg ->
     mem' i (start_page s * page_size_ cfg + o) = mem i (start_page s * page_size_ cfg + o)) ->
  buffer_bytes mem' bf = buffer_bytes mem bf.
Proof.
  intros (_ & _ & Hle & _ & _ & Hm & Hu) Hi Hmem. unfold buffer_bytes.
  destruct (Z.le_gt_cases 0 i) as [Hp|Hn].
  - destruct (Hm Hp) as (-> & _ & Hsz). unfold slab_bytes. apply map_ext_in. intros o Ho%in_seq.
    rewrite Z.add_0_l. apply Hmem; [exact Hp|]. lia.
  - assert (i = -1) as -> by lia. specialize (Hu eq_refl).
    destruct (b_token bf); destruct Hu as [-> _]; reflexivity.
Qed.

Lemma located_slot st i s : located st i s -> -1 <= i.
Proof. intros [[-> _]|[? _]]; lia. Qed.

(** ** One buffer changed in place *)

Lemma set_buffer_wf st i s b bf bf' :
  layout st -> ownership [] st -> seg_its [b] st ->
  has st i s b bf -> buf_ok i s bf' -> b_seg_it bf' = node s ->
  wf (set_buffers_ (<[b := bf']> (buffers_ st)) st) /\
  has (set_buffers_ (<[b := bf']> (buffers_ st)) st) i s b bf'.
Proof.
  intros L O I (Hs & Eb & Hbf) Hok Hit. set (st' := set_buffers_ _ st).
  assert (Hl : forall j x, located st' j x <-> located st j x) by (intros; now apply located_ext).
  split; [split|].
  - apply (layout_ext st st'); try reflexivity; [apply (ly_cur st L) | apply (ly_epoch st L) | exact L].
  - destruct (ow_seg _ _ O i s Hs) as (b0 & bf0 & _ & _ & _ & Hk & _).
    apply (ownership_replace [] [] st st' i s i s b bf' L O Hs Eb Eb eq_refl); auto.
    + intros j x. unfold owned. rewrite Hl. split.
      * intros Hx. destruct (decide (node x = node s)) as [E|N]; [left|now right].
        destruct (located_inj st j x i s L (proj1 Hx) (proj1 Hs) E). auto.
      * intros [[-> ->]|[Hx _]]; assumption.
    + symmetry. now apply insert_id.
    + apply Z.le_refl.
  - intros j x b1 bf1 Hx Hu E1 _. unfold st'; cbn. rewrite lookup_insert_Some.
    apply Hl in Hx. intros [[<- <-]|[N Hb1]].
    + assert (E : node x = node s); [|congruence].
      apply (ow_uniq _ _ O j x i s); [|exact Hs | congruence]. split; auto using not_elem_of_nil.
    + apply (I j x b1 bf1 Hx Hu E1); [|exact Hb1].
      apply not_elem_of_cons. split; [congruence | apply not_elem_of_nil].
  - unfold has, owned. rewrite Hl. split; [exact Hs|]. split; [exact Eb|]. apply lookup_insert_eq.
Qed.

Lemma wf_set_buffer st i s b bf bf' :
  wf st -> has st i s b bf -> buf_ok i s bf' -> b_seg_it bf' = node s ->
  wf (set_buffers_ (<[b := bf']> (buffers_ st)) st) /\
  has (set_buffers_ (<[b := bf']> (buffers_ st)) st) i s b bf'.
Proof.
  intros [L O I]. apply set_buffer_wf; auto. intros j x b1 bf1 Hx Hu E _ Hb.
  exact (I j x b1 bf1 Hx Hu E (not_elem_of_nil b1) Hb).
Qed.

Lemma keeps_set_buffer st b bf : keeps [b] st (set_buffers_ (<[b := bf]> (buffers_ st)) st).
Proof.
  split; [intros b1 bf1 N%not_elem_of_cons..|]; cbn; rewrite ?lookup_insert_ne by (intros ->; tauto);
    auto.
Qed.

(** ** A reservation, seen by the clients *)

Lemma reserved_has st st' j s0 b bf req n :
  wf st -> has st j s0 b bf -> reserved st st' j s0 b bf req n -> seg_its [b] st'.
Proof.
  intros [L O I] (Hs & Eb & Hbf) R i x b1 bf1 Hx Hu E1 N Hb1.
  apply not_elem_of_cons in N as [N _].
  destruct (rs_seg _ _ _ _ _ _ _ _ R) as (k & s' & Hs' & _ & En & Es' & _).
  assert (Hxo : owned [] st' i x) by (split; auto using not_elem_of_nil).
  assert (Nn : node x <> n).
  { intros E. rewrite <- En in E. pose proof (owned_same [] st' i x k s' (rs_layout _ _ _ _ _ _ _ _ R) Hxo Hs' E).
    congruence. }
  destruct (rs_others _ _ _ _ _ _ _ _ R i x Hxo Nn) as ((Hx0 & _) & _).
  apply (I i x b1 bf1 Hx0 Hu E1 (not_elem_of_nil b1)). exact (rs_buffers _ _ _ _ _ _ _ _ R b1 bf1 N Hb1).
Qed.

Lemma reserved_keeps st st' j s0 b bf req n :
  wf st -> has st j s0 b bf -> reserved st st' j s0 b bf req n -> keeps [b] st st'.
Proof.
  intros W Hb R. destruct (rs_seg _ _ _ _ _ _ _ _ R) as (k & s' & Hs' & _ & En & Es' & _).
  split; [intros b1 bf1 N Hb1|intros b1 bf1 N Hb1|intros key b1 N Hb1];
    apply not_elem_of_cons in N as [N _].
  - pose proof (rs_buffers _ _ _ _ _ _ _ _ R b1 bf1 N Hb1) as Hb0. split; [exact Hb0|].
    destruct (ow_buffers _ _ (rs_own _ _ _ _ _ _ _ _ R) b1 bf1 Hb1) as (_ & i & x & Hx & Ex).
    assert (Nn : node x <> n).
    { intros E. rewrite <- En in E.
      pose proof (owned_same [] st' i x k s' (rs_layout _ _ _ _ _ _ _ _ R) Hx Hs' E). congruence. }
    destruct (rs_others _ _ _ _ _ _ _ _ R i x Hx Nn) as (Hx0 & _ & Hmem).
    destruct (has_ok st i x b1 bf1 W (conj Hx0 (conj Ex Hb0))) as (Hok & _).
    exact (bytes_ext _ _ i x bf1 Hok (located_slot _ _ _ (proj1 Hx)) (fun Hi o Ho => Hmem o Hi Ho)).
  - intros Hh. destruct (buffer_has st b1 bf1 W Hb1) as (i & x & Hx).
    pose proof (has_held st i x b1 bf1 W Hx Hh) as Hp. destruct Hx as (Hx & Ex & _).
    assert (Nx : node x <> node s0).
    { intros E. destruct Hb as (Hs & Eb & _).
      pose proof (owned_same [] st i x j s0 (wf_layout _ W) Hx Hs E). congruence. }
    destruct (rs_keep _ _ _ _ _ _ _ _ R i x Hx Nx Hp) as [Hx' _].
    destruct (ow_seg _ _ (rs_own _ _ _ _ _ _ _ _ R) i x Hx') as (b2 & bf2 & E2 & Hb2 & _).
    assert (b2 = b1) as -> by congruence. pose proof (rs_buffers _ _ _ _ _ _ _ _ R b1 bf2 N Hb2).
    congruence.
  - destruct Hb1 as (i & x & Hx & Ek & Ex). assert (Nn : node x <> n).
    { intros E. rewrite <- En in E.
      pose proof (owned_same [] st' i x k s' (rs_layout _ _ _ _ _ _ _ _ R) Hx Hs' E). congruence. }
    exists i, x. split; [|now split]. apply (rs_others _ _ _ _ _ _ _ _ R i x Hx Nn).
Qed.

(** An operation on buffer [b] that leads to [st'], where [b] is [bf]. *)
Record touched (st st' : Mgr) (b : Z) (bf : Buffer) : Prop := {
  td_wf : wf st';
  td_keeps : keeps [b] st st';
  td_named : forall key, named st' key b <-> named st key b;
  td_buffer : buffers_ st' !! b = Some bf
}.

Lemma touched_refl st b bf : wf st -> buffers_ st !! b = Some bf -> touched st st b bf.
Proof. intros W Hb. split; auto using keeps_refl. Qed.

Lemma touched_trans st1 st2 st3 b bf2 bf3 :
  touched st1 st2 b bf2 -> touched st2 st3 b bf3 -> touched st1 st3 b bf3.
Proof.
  intros [_ K1 N1 _] [W K2 N2 B]. split; eauto using keeps_trans. intros key. now rewrite N2, N1.
Qed.

Lemma touched_set st i s b bf bf' :
  wf st -> has st i s b bf -> buf_ok i s bf' -> b_seg_it bf' = node s ->
  touched st (set_buffers_ (<[b := bf']> (buffers_ st)) st) b bf'.
Proof.
  intros W Hs Hok Hit. destruct (wf_set_buffer st i s b bf bf' W Hs Hok Hit) as [W' _].
  split; [exact W' | apply keeps_set_buffer | intros key; reflexivity | apply lookup_insert_eq].
Qed.

Lemma idle_wf st st' : wf st -> idle st st' -> wf st'.
Proof.
  intros [L O I] [L' O' Ho F Eb Ei]. split; auto.
  intros i s b bf Hs Hu E _ Hb. rewrite Eb in Hb.
  assert (Hown : owned [] st' i s) by (split; auto using not_elem_of_nil).
  apply Ho in Hown as (Hs0 & _). exact (I i s b bf Hs0 Hu E (not_elem_of_nil b) Hb).
Qed.

Lemma idle_named st st' key b : idle st st' -> named st' key b <-> named st key b.
Proof. intros I. unfold named. now setoid_rewrite (id_owned _ _ I). Qed.

Lemma idle_keeps st st' : idle st st' -> keeps [] st st'.
Proof.
  intros I. pose proof (id_buffers _ _ I) as Eb. pose proof (fr_mem _ _ (id_frame _ _ I)) as Em.
  split; rewrite ?Eb, ?Em; auto. intros key b _ Hn. now apply (idle_named st st').
Qed.

Lemma idle_touched st st' b bf :
  wf st -> idle st st' -> buffers_ st !! b = Some bf -> touched st st' b bf.
Proof.
  intros W I Hb. split.
  - exact (idle_wf st st' W I).
  - apply (keeps_weaken []); [intros x Hx; now apply not_elem_of_nil in Hx | now apply idle_keeps].
  - intros key. now apply idle_named.
  - now rewrite (id_buffers _ _ I).
Qed.

(** ** [Buffer::reserve] *)

(** The zero-copy token is dropped before memory of the pool is reserved. *)
Definition untoken (bf : Buffer) : Buffer :=
  match b_token bf with
  | Some _ => set_b_mem NullPtr (set_b_size 0 (set_b_token None bf))
  | None => bf
  end.

Lemma untoken_ok st i s b bf :
  wf st -> has st i s b bf ->
  buf_ok i s (untoken bf) /\ b_seg_it (untoken bf) = node s /\ b_token (untoken bf) = None.
Proof.
  intros W Hs. destruct (has_ok st i s b bf W Hs) as (Hok & Hit & _). unfold untoken.
  destruct (b_token bf) as [t|] eqn:Et; [|auto].
  destruct Hok as (B1 & B2 & B3 & B4 & B5 & B6 & B7). split; [|auto].
  refine (conj B1 (conj B2 (conj B3 (conj (Z.le_refl 0) (conj B5 (conj _ (fun _ => conj eq_refl eq_refl))))))).
  intros Hi. destruct (B6 Hi) as (_ & ? & _). congruence.
Qed.

(** The new state of a buffer after a reservation: more room, the same contents. *)
Record refitted (bf bf' : Buffer) : Prop := {
  rf_page_size : b_page_size bf' = b_page_size bf;
  rf_pin : b_pin_count bf' = b_pin_count bf;
  rf_size : b_size bf' = b_size bf;
  rf_dirty : b_is_dirty bf' = b_is_dirty bf;
  rf_updated : b_is_updated bf' = b_is_updated bf;
  rf_appended : b_is_appended bf' = b_is_appended bf;
  rf_pages : b_num_pages bf <= b_num_pages bf';
  rf_flags : forall i, nth i (b_page_dirty_flags bf') false = nth i (b_page_dirty_flags bf) false;
  rf_mem : exists k o, b_mem bf' = SlabPtr k o
}.

Definition pages_of_bytes (page_size num_bytes : Z) : Z := (num_bytes + page_size - 1) / page_size.

Lemma pages_of_bytes_spec page_size num_bytes :
  0 < page_size -> 0 < num_bytes ->
  0 < pages_of_bytes page_size num_bytes /\
  num_bytes <= page_size * pages_of_bytes page_size num_bytes < num_bytes + page_size.
Proof.
  intros Hp Hn. unfold pages_of_bytes.
  pose proof (Z.div_mod (num_bytes + page_size - 1) page_size ltac:(lia)).
  pose proof (Z.mod_pos_bound (num_bytes + page_size - 1) page_size Hp). split; [|lia].
  apply Z.div_str_pos. lia.
Qed.

Lemma nth_resize (n : nat) (l : list bool) i :
  (length l <= n)%nat -> nth i (resize n false l) false = nth i l false.
Proof.
  intros Hl. rewrite resize_ge by exact Hl.
  destruct (Nat.lt_ge_cases i (length l)) as [Hi|Hi].
  - now apply app_nth1.
  - rewrite app_nth2, (nth_overflow l) by lia. generalize (i - length l)%nat as j, (n - length l)%nat as m.
    induction j as [|j IH]; intros [|m]; cbn; auto.
Qed.

(** The state a failed operation on a buffer leaves: its token at most is dropped, and no
    other buffer is evicted. *)
Definition failed (st : Mgr) (b : Z) (bf : Buffer) (e : BMError) (st' : Mgr) : Prop :=
  touched st st' b (untoken bf) /\ reserve_error st e /\
  buffers_ st' = <[b := untoken bf]> (buffers_ st) /\ chunk_index_ st' = chunk_index_ st /\
  slab_mem st' = slab_mem st.

(** The outcomes of [Buffer::reserve] of [num_bytes > 0]. *)
Definition reserve_post (st : Mgr) (b : Z) (bf : Buffer) (num_bytes : Z)
    (r : result BMError unit * Mgr) : Prop :=
  match r with
  | (Ok _, st') => exists bf', touched st st' b bf' /\ refitted (untoken bf) bf' /\
      buffer_bytes (slab_mem st') bf' = buffer_bytes (slab_mem st) (untoken bf) /\
      num_bytes <= b_page_size bf' * b_num_pages bf' < 4611686018427387904
  | (Err e, st') => failed st b bf e st'
  end.

(** The buffer after [reserveBuffer] found segment [s'] of slab [k] for it. *)
Definition refit (pages n k : Z) (s' : BufferSeg) (bf : Buffer) : Buffer :=
  set_b_num_pages pages (set_b_page_dirty_flags (resize (Z.to_nat pages) false (b_page_dirty_flags bf))
    (set_b_seg_it n (set_b_mem (SlabPtr k (start_page s' * page_size_ cfg)) bf))).

Lemma refit_ok i s bf pages k s' :
  buf_ok i s bf -> -1 <= i -> b_token bf = None -> 0 <= k -> b_num_pages bf <= pages ->
  b_page_size bf * pages <= num_pages s' * page_size_ cfg ->
  buf_ok k s' (refit pages (node s') k s' bf) /\
  refitted bf (refit pages (node s') k s' bf).
Proof.
  intros (B1 & B2 & B3 & B4 & B5 & B6 & B7) Hi Et Hk Hp Hroom. split.
  - unfold buf_ok, refit; cbn. rewrite length_resize. split_and!; try assumption; try lia.
    intros _. split_and!; [reflexivity | exact Et|].
    destruct (Z.le_gt_cases 0 i) as [H0i|H0i]; [destruct (B6 H0i) as (_ & _ & ?); nia|].
    assert (i = -1) as -> by lia. specialize (B7 eq_refl). rewrite Et in B7. destruct B7 as [_ ->]. nia.
  - split; try reflexivity; [exact Hp | | cbn; eauto].
    intros x. cbn. apply nth_resize. lia.
Qed.

Lemma reserve_finish st st' i s b bf pages n bytes :
  wf st -> has st i s b bf -> b_token bf = None -> b_num_pages bf < pages ->
  bytes = b_page_size bf * pages -> 0 < bytes < 4611686018427387904 ->
  reserved st st' i s b bf (pages_for bytes) n ->
  exists bf', touched st (set_buffers_ (<[b := bf']> (buffers_ st')) st') b bf' /\ refitted bf bf' /\
    buffer_bytes (slab_mem st') bf' = buffer_bytes (slab_mem st) bf /\
    b_num_pages bf' = pages /\
    alter (fun x => set_b_num_pages pages
      (set_b_page_dirty_flags (resize (Z.to_nat pages) false (b_page_dirty_flags x))
         (set_b_seg_it n x))) b (buffers_ st') = <[b := bf']> (buffers_ st').
Proof.
  intros W Hs Et Hpages Hbytes Hn R. destruct (has_ok st i s b bf W Hs) as (Hok & _ & _).
  pose proof (located_slot _ _ _ (proj1 (proj1 Hs))) as Hi.
  destruct (pages_for_pos bytes Hn) as [_ Hroom].
  destruct (rs_seg _ _ _ _ _ _ _ _ R) as (k & s' & Hs' & Hk & <- & Eb' & Ek & Hreq & Hb' & Hmem).
  pose proof page_size_pos as Hps.
  assert (Hfit : b_page_size bf * pages <= num_pages s' * page_size_ cfg) by nia.
  destruct (refit_ok i s bf pages k s' Hok Hi Et Hk (Z.lt_le_incl _ _ Hpages) Hfit) as [Hok' Href].
  set (bf' := refit pages (node s') k s' bf) in *. exists bf'.
  pose proof (rs_layout _ _ _ _ _ _ _ _ R) as L'. pose proof (rs_own _ _ _ _ _ _ _ _ R) as O'.
  pose proof (reserved_has st st' i s b bf _ _ W Hs R) as I'.
  split_and!; [| exact Href | | reflexivity | exact (alter_lookup _ _ b _ Hb')].
  - destruct (set_buffer_wf st' k s' b _ bf' L' O' I' (conj Hs' (conj Eb' Hb')) Hok' eq_refl)
      as [W' _].
    split; [exact W' | | | apply lookup_insert_eq].
    + apply (keeps_trans [b] st st'); [exact (reserved_keeps st st' i s b bf _ _ W Hs R)|].
      apply keeps_set_buffer.
    + intros key. change (named st' key b <-> named st key b).
      destruct Hs as (Hso & Ebs & _). split; intros (j & x & Hx & <- & Ex).
      * assert (x = s') as -> by (apply (owned_same [] st' j x k s' L' Hx Hs'),
          (ow_uniq _ _ O' j x k s' Hx Hs'); congruence).
        exists i, s. auto.
      * assert (x = s) as -> by (apply (owned_same [] st j x i s (wf_layout _ W) Hx Hso),
          (ow_uniq _ _ (wf_own _ W) j x i s Hx Hso); congruence).
        exists k, s'. auto.
  - unfold buffer_bytes at 1. unfold bf' at 1, refit; cbn [b_mem set_b_num_pages
      set_b_page_dirty_flags set_b_seg_it set_b_mem]. destruct Hok as (_ & _ & _ & _ & _ & B6 & B7).
    change (b_size bf') with (b_size bf). unfold buffer_bytes.
    destruct (Z.le_gt_cases 0 i) as [H0i|H0i].
    + destruct (B6 H0i) as (-> & _ & _). unfold slab_bytes. apply map_ext_in. intros o Ho%in_seq.
      rewrite Z.add_0_l. apply Hmem; [exact H0i | lia].
    + assert (i = -1) as -> by lia. specialize (B7 eq_refl). rewrite Et in B7.
      destruct B7 as [-> ->]. reflexivity.
Qed.

Lemma untoken_run st i s b bf :
  wf st -> has st i s b bf ->
  exists st0,
    (match b_token bf with
     | Some _ => update_buffer b (fun bf => set_b_mem NullPtr (set_b_size 0 (set_b_token None bf)))
     | None => ret tt
     end) st = (Ok tt, st0) /\
    touched st st0 b (untoken bf) /\ has st0 i s b (untoken bf) /\
    slab_mem st0 = slab_mem st /\ slab_segments_ st0 = slab_segments_ st /\
    buffers_ st0 = <[b := untoken bf]> (buffers_ st) /\ chunk_index_ st0 = chunk_index_ st.
Proof.
  intros W Hs. destruct (untoken_ok st i s b bf W Hs) as (Hok & Hit & _). revert Hok Hit.
  unfold untoken. destruct (b_token bf) as [t|] eqn:Et; intros Hok Hit.
  - eexists. split.
    { unfold update_buffer, modify. rewrite (alter_lookup _ _ b bf (proj2 (proj2 Hs))). reflexivity. }
    split; [exact (touched_set st i s b bf _ W Hs Hok Hit)|].
    split; [|split_and!; reflexivity]. exact (proj2 (wf_set_buffer st i s b bf _ W Hs Hok Hit)).
  - exists st. split; [reflexivity|]. split; [apply touched_refl; [exact W | apply Hs]|].
    split_and!; auto. symmetry. apply insert_id, Hs.
Qed.

(** A buffer with pages is in a slab. *)
Lemma sized_slab st i s b bf :
  wf st -> has st i s b bf -> 0 < b_num_pages bf -> 0 <= i.
Proof.
  intros W Hs Hp. destruct (has_ok st i s b bf W Hs) as ((B1 & _ & B3 & _) & _).
  pose proof (located_slot _ _ _ (proj1 (proj1 Hs))). destruct (Z.le_gt_cases 0 i); [assumption|].
  destruct (ly_shape st (wf_layout _ W) i s (proj1 (proj1 Hs))) as (_ & _ & _ & Hneg).
  destruct (Hneg ltac:(lia)) as (_ & _ & E). rewrite E in B3. nia.
Qed.

Lemma enough_room st i s b bf num_bytes :
  wf st -> has st i s b bf -> 0 < num_bytes <= b_page_size bf * b_num_pages bf ->
  reserve_post st b bf num_bytes (Ok tt, st).
Proof.
  intros W Hs Hn. destruct (has_ok st i s b bf W Hs) as ((B1 & B2 & B3 & _ & _ & B6 & _) & _).
  assert (Hi : 0 <= i) by (apply (sized_slab st i s b bf W Hs); nia).
  destruct (B6 Hi) as (Em & Et & _). exists bf.
  assert (Eu : untoken bf = bf) by (unfold untoken; now rewrite Et). rewrite Eu.
  split; [apply touched_refl; [exact W | apply Hs]|]. split; [split; eauto; lia|].
  split; [reflexivity|].
  pose proof (located_range st i s (wf_layout _ W) (proj1 (proj1 Hs)) Hi) as Hr.
  pose proof config_bounds as (Hc & _). nia.
Qed.

Lemma Buffer_reserve_spec st b bf num_bytes :
  wf st -> buffers_ st !! b = Some bf -> held bf -> 0 < num_bytes < 2305843009213693952 ->
  reserve_post st b bf num_bytes (Buffer_reserve b num_bytes st).
Proof.
  intros W Hb Hh Hn. destruct (buffer_has st b bf W Hb) as (i & s & Hs).
  destruct (has_ok st i s b bf W Hs) as (Hok & Hit & _). pose proof Hok as (B1 & B2 & B3 & _ & _ & B6 & _).
  destruct (pages_of_bytes_spec (b_page_size bf) num_bytes (proj1 B1) (proj1 Hn)) as [Hpos Hrange].
  unfold Buffer_reserve, get_buffer. unfold bind at 1. rewrite Hb. unfold require at 1, ret at 1.
  rewrite u64_small by lia. fold (pages_of_bytes (b_page_size bf) num_bytes).
  set (pages := pages_of_bytes (b_page_size bf) num_bytes) in *.
  destruct (Z.ltb_spec (b_num_pages bf) pages) as [Hlt|Hge].
  - destruct (untoken_run st i s b bf W Hs) as (st0 & E0 & T0 & Hs0 & Em & Eseg & Ebs & Ei).
    destruct (untoken_ok st i s b bf W Hs) as (_ & _ & Et).
    unfold bind at 1. rewrite E0. rewrite Hit, u64_small by lia.
    assert (Eps : b_page_size (untoken bf) = b_page_size bf /\ b_num_pages (untoken bf) = b_num_pages bf
                  /\ b_pin_count (untoken bf) = b_pin_count bf)
      by (unfold untoken; now destruct (b_token bf)).
    destruct Eps as (Eps & Enp & Epin).
    assert (Hpin : i = -1 \/ 0 < b_pin_count (untoken bf)).
    { destruct (has_held st i s b bf W Hs Hh) as [?|(b' & bf' & E1 & E2 & ?)]; [now left|right].
      destruct Hs as (_ & E3 & E4). assert (b' = b) as -> by congruence.
      assert (bf' = bf) as -> by congruence. lia. }
    pose proof (td_wf _ _ _ _ T0) as W0. pose proof Hs0 as (Ho0 & Eb0 & Hb0).
    pose proof (reserveBuffer_spec st0 i s b (untoken bf) (b_page_size bf * pages)
                  (wf_layout _ W0) (wf_own _ W0) Ho0 Eb0 Hb0 Et Hpin ltac:(nia)) as Hr.
    unfold bind at 1. destruct (reserveBuffer (node s) (b_page_size bf * pages) st0) as [[n|e] st1];
      cbn [reserve_outcome] in Hr.
    + destruct (reserve_finish st0 st1 i s b (untoken bf) pages n _ W0 Hs0 Et ltac:(lia)
                  ltac:(now rewrite Eps) ltac:(nia) Hr) as (bf' & T1 & Href & Ebytes & Ep & Ea).
      unfold update_buffer, modify. rewrite Ea. exists bf'.
      rewrite (rf_page_size _ _ Href), Eps, Ep. split; [exact (touched_trans _ _ _ _ _ _ T0 T1)|].
      split; [exact Href|]. split; [|lia]. cbn. now rewrite Ebytes, Em.
    + destruct Hr as [I He]. unfold reserve_post, failed. split_and!.
      * exact (touched_trans _ _ _ _ _ _ T0 (idle_touched _ _ _ _ W0 I Hb0)).
      * unfold reserve_error in *. now rewrite Eseg in He.
      * now rewrite (id_buffers _ _ I).
      * now rewrite (id_index _ _ I).
      * now rewrite (fr_mem _ _ (id_frame _ _ I)).
  - cbn. apply (enough_room st i s b bf num_bytes W Hs); nia.
Qed.

(** The reservation at the start of [write] and [append]. *)
Lemma make_room st b bf num_bytes :
  wf st -> buffers_ st !! b = Some bf -> held bf -> 0 < num_bytes < 2305843009213693952 ->
  reserve_post st b bf num_bytes
    ((if reservedSize bf <? num_bytes then Buffer_reserve b num_bytes else ret tt) st).
Proof.
  intros W Hb Hh Hn. destruct (Z.ltb_spec (reservedSize bf) num_bytes) as [Hlt|Hge].
  - now apply Buffer_reserve_spec.
  - destruct (buffer_has st b bf W Hb) as (i & s & Hs).
    destruct (has_ok st i s b bf W Hs) as ((B1 & B2 & _) & _).
    apply (enough_room st i s b bf num_bytes W Hs). split; [lia|].
    unfold reservedSize, u64, uwrap in Hge.
    pose proof (Z.mod_le (b_page_size bf * b_num_pages bf) (2 ^ 64)). nia.
Qed.

(** A buffer with memory of a slab is in that slab. *)
Lemma slab_has st b bf k o :
  wf st -> buffers_ st !! b = Some bf -> b_mem bf = SlabPtr k o ->
  exists s, has st k s b bf /\ 0 <= k /\ o = start_page s * page_size_ cfg.
Proof.
  intros W Hb Em. destruct (buffer_has st b bf W Hb) as (i & s & Hs).
  destruct (has_ok st i s b bf W Hs) as ((_ & _ & _ & _ & _ & B6 & B7) & _).
  pose proof (located_slot _ _ _ (proj1 (proj1 Hs))). destruct (Z.le_gt_cases 0 i) as [Hi|Hi].
  - destruct (B6 Hi) as (E & _ & _). rewrite Em in E. injection E as -> ->. eauto.
  - specialize (B7 ltac:(lia)). rewrite Em in B7. destruct (b_token bf); now destruct B7.
Qed.

End Client.
