(* ===== verification/BufferRW.v ===== *)
(** * Reading and writing buffers

    [Buffer_write], [Buffer_append] and [Buffer_read] against the contents of a buffer as a
    list of bytes. *)

From Stdlib Require Import ZArith Lia List Bool.
From stdpp Require Import base gmap list numbers.
From S2P Require Import Prelude StateMonad BufferMgr BufferInv BufferFind BufferScan BufferOps.
From S2P Require Import BufferClient.
Import ListNotations.
Local Open Scope Z_scope.

(** [old] with [src] written at [off], lengthened when [src] goes past its end. *)
Definition overwrite (old : list Z) (off : nat) (src : list Z) : list Z :=
  take off old ++ src ++ drop (off + length src) old.

Lemma slab_bytes_lookup mem k o n i :
  slab_bytes mem k o n !! i
  = if bool_decide (Z.of_nat i < n) then Some (mem k (o + Z.of_nat i)) else None.
Proof.
  unfold slab_bytes. rewrite list_lookup_fmap. case_bool_decide as Hi.
  - rewrite lookup_seq_lt by lia. reflexivity.
  - rewrite lookup_seq_ge by lia. reflexivity.
Qed.

Lemma slab_bytes_len mem k o n : length (slab_bytes mem k o n) = Z.to_nat n.
Proof. unfold slab_bytes. now rewrite length_map, length_seq. Qed.

(** The contents after a write inside or at the end of them. *)
Lemma slab_bytes_write mem k o n off src :
  0 <= off <= n ->
  slab_bytes (write_bytes mem k (o + off) src) k o (Z.max n (off + Z.of_nat (length src)))
  = overwrite (slab_bytes mem k o n) (Z.to_nat off) src.
Proof.
  intros Hoff. apply list_eq. intros i. unfold overwrite.
  rewrite slab_bytes_lookup. unfold write_bytes. rewrite Z.eqb_refl. cbn [andb].
  destruct (Nat.lt_ge_cases i (Z.to_nat off)) as [H1|H1].
  { rewrite lookup_app_l by (rewrite length_take, slab_bytes_len; lia).
    rewrite lookup_take_lt, slab_bytes_lookup by exact H1. rewrite !bool_decide_true by lia.
    destruct (Z.leb_spec (o + off) (o + Z.of_nat i)); [lia | reflexivity]. }
  rewrite lookup_app_r by (rewrite length_take, slab_bytes_len; lia).
  rewrite length_take, slab_bytes_len, Nat.min_l by lia.
  destruct (Z.leb_spec (o + off) (o + Z.of_nat i)); [|lia]. cbn [andb].
  destruct (Nat.lt_ge_cases (i - Z.to_nat off) (length src)) as [H2|H2].
  - rewrite lookup_app_l by exact H2. rewrite bool_decide_true by lia.
    destruct (Z.ltb_spec (o + Z.of_nat i) (o + off + Z.of_nat (length src))); [|lia].
    rewrite nth_lookup.
    replace (Z.to_nat (o + Z.of_nat i - (o + off))) with (i - Z.to_nat off)%nat by lia.
    destruct (lookup_lt_is_Some_2 src _ H2) as [x ->]. reflexivity.
  - rewrite lookup_app_r, lookup_drop, slab_bytes_lookup by exact H2.
    replace (Z.to_nat off + length src + (i - Z.to_nat off - length src))%nat with i by lia.
    destruct (Z.ltb_spec (o + Z.of_nat i) (o + off + Z.of_nat (length src))); [lia|].
    destruct (decide (Z.of_nat i < n)).
    + now rewrite !bool_decide_true by lia.
    + now rewrite !bool_decide_false by lia.
Qed.

Lemma slab_bytes_sub mem k o n off m :
  0 <= off -> 0 <= m -> off + m <= n ->
  map (fun i => mem k (o + (off + Z.of_nat i))) (seq 0 (Z.to_nat m))
  = take (Z.to_nat m) (drop (Z.to_nat off) (slab_bytes mem k o n)).
Proof.
  intros H1 H2 H3. apply list_eq. intros i. rewrite list_lookup_fmap.
  destruct (Nat.lt_ge_cases i (Z.to_nat m)) as [Hi|Hi].
  - rewrite lookup_seq_lt, lookup_take_lt, lookup_drop, slab_bytes_lookup by exact Hi.
    rewrite bool_decide_true by lia. cbn. do 2 f_equal. lia.
  - rewrite lookup_seq_ge, lookup_take_ge by exact Hi. reflexivity.
Qed.

Section RW.

Context `{PoolOk}.

(** ** Writing into the segment of a buffer *)

Lemma write_inside st k s b bf off src :
  wf st -> has st k s b bf -> 0 <= k -> 0 <= off ->
  off + Z.of_nat (length src) <= b_page_size bf * b_num_pages bf ->
  let st' := set_slab_mem
    (write_bytes (slab_mem st) k (start_page s * page_size_ cfg + off) src) st in
  writeData b src off st = (Ok tt, st') /\ touched st st' b bf.
Proof.
  intros W Hs Hk Hoff Hfit st'. destruct (has_ok st k s b bf W Hs) as (Hok & Hit & _).
  destruct Hok as (B1 & B2 & B3 & _ & _ & B6 & _). destruct (B6 Hk) as (Em & _ & _).
  pose proof Hs as (Ho & Eb & Hb). split.
  { unfold writeData, bind, get_buffer. rewrite Hb. cbn [require ret]. now rewrite Em. }
  pose proof W as [L O I]. split; [split| | |exact Hb].
  - apply (layout_ext st st'); try reflexivity; [apply (ly_cur st L) | apply (ly_epoch st L) | exact L].
  - apply (ownership_ext [] [] st st'); try reflexivity. exact O.
  - exact I.
  - split; auto. intros b1 bf1 N%not_elem_of_cons Hb1. split; [exact Hb1|].
    destruct (buffer_has st b1 bf1 W Hb1) as (j & x & Hx).
    destruct (has_ok st j x b1 bf1 W Hx) as (Hok1 & _).
    apply (bytes_ext _ _ j x bf1 Hok1); [exact (located_slot _ _ _ (proj1 (proj1 Hx)))|].
    intros Hj o Ho1. apply write_bytes_out. destruct (decide (j = k)) as [->|]; [|now left]. right.
    assert (Nn : node x <> node s).
    { intros E. destruct Hx as (Hxo & Ex & _). pose proof (owned_same [] st k x k s L Hxo Ho E).
      assert (b1 = b) by congruence. tauto. }
    pose proof page_size_pos as Hps.
    destruct (located_disjoint st k x s L (proj1 (proj1 Hx)) (proj1 Ho) Hk Nn); [left|right]; nia.
  - reflexivity.
Qed.

(** A buffer that keeps its memory and gets the size [size]. *)
Lemma buf_ok_resized k s bf bf' :
  buf_ok k s bf -> 0 <= k -> b_page_size bf' = b_page_size bf -> b_num_pages bf' = b_num_pages bf ->
  length (b_page_dirty_flags bf') = length (b_page_dirty_flags bf) -> b_mem bf' = b_mem bf ->
  b_token bf' = b_token bf -> 0 <= b_size bf' <= b_page_size bf * b_num_pages bf ->
  buf_ok k s bf'.
Proof.
  intros (B1 & B2 & B3 & B4 & B5 & B6 & B7) Hk E1 E2 E3 E4 E5 Hsz. destruct (B6 Hk) as (M1 & M2 & _).
  unfold buf_ok. rewrite E1, E2, E3, E4, E5.
  split_and!; auto; try lia. intros _. split_and!; auto; lia.
Qed.

(** The steps of [write] after the room is reserved. *)
Definition written (bf : Buffer) (off n : Z) : Buffer :=
  let bf1 := setDirty bf in
  let bf2 := if off <? b_size bf then setUpdated bf1 else bf1 in
  let bf3 := if b_size bf <? off + n then set_b_size (off + n) (setAppended bf2) else bf2 in
  set_b_page_dirty_flags (mark_pages (off / b_page_size bf) ((off + n - 1) / b_page_size bf)
    (b_page_dirty_flags bf)) bf3.

Lemma written_size bf off n : b_size (written bf off n) = Z.max (b_size bf) (off + n).
Proof.
  unfold written. destruct (Z.ltb_spec (b_size bf) (off + n)); destruct (off <? b_size bf); cbn; lia.
Qed.

Lemma written_same bf off n :
  b_mem (written bf off n) = b_mem bf /\ b_seg_it (written bf off n) = b_seg_it bf /\
  b_page_size (written bf off n) = b_page_size bf /\
  b_num_pages (written bf off n) = b_num_pages bf /\
  b_token (written bf off n) = b_token bf /\ b_pin_count (written bf off n) = b_pin_count bf /\
  length (b_page_dirty_flags (written bf off n)) = length (b_page_dirty_flags bf).
Proof.
  unfold written. destruct (b_size bf <? off + n), (off <? b_size bf); cbn;
    split_and!; try reflexivity; unfold mark_pages; apply length_imap.
Qed.

Lemma update_buffer_run b f st bf :
  buffers_ st !! b = Some bf ->
  update_buffer b f st = (Ok tt, set_buffers_ (<[b := f bf]> (buffers_ st)) st).
Proof. intros Hb. unfold update_buffer, modify. now rewrite (alter_lookup f _ b bf Hb). Qed.

(** The last page written has a dirty flag. *)
Lemma last_page bf off n :
  0 < b_page_size bf -> 0 <= off -> 0 < n -> off + n <= b_page_size bf * b_num_pages bf ->
  (off + n - 1) / b_page_size bf < b_num_pages bf.
Proof. intros Hp Ho Hn Hf. apply Z.div_lt_upper_bound; lia. Qed.

Lemma write_tail_run st k s b bf off src :
  wf st -> has st k s b bf -> 0 <= k -> 0 <= off -> src <> [] ->
  off + Z.of_nat (length src) <= b_page_size bf * b_num_pages bf < 18446744073709551616 ->
  let st1 := set_slab_mem
    (write_bytes (slab_mem st) k (start_page s * page_size_ cfg + off) src) st in
  write_tail b src off st
  = (Ok tt, set_buffers_ (<[b := written bf off (Z.of_nat (length src))]> (buffers_ st)) st1).
Proof.
  intros W Hs Hk Hoff Hne Hfit st1. destruct (has_ok st k s b bf W Hs) as (Hok & _ & _).
  destruct Hok as (B1 & B2 & _ & _ & B5 & _).
  destruct (write_inside st k s b bf off src W Hs Hk Hoff (proj1 Hfit)) as [Ew _]. fold st1 in Ew.
  assert (Hlen : 0 < Z.of_nat (length src)) by (destruct src; [easy | cbn; lia]).
  pose proof (last_page bf off _ (proj1 B1) Hoff Hlen (proj1 Hfit)) as Hlast.
  assert (Hb1 : buffers_ st1 !! b = Some bf) by apply Hs.
  unfold write_tail. unfold bind at 1. rewrite Ew. unfold bind at 1.
  rewrite (update_buffer_run b setDirty st1 bf Hb1). unfold bind at 1, get_buffer; cbn [buffers_ set_buffers_].
  rewrite lookup_insert_eq. unfold require, ret. cbv beta iota. rewrite !u64_small by lia.
  change (b_size (setDirty bf)) with (b_size bf). change (b_page_size (setDirty bf)) with (b_page_size bf).
  change (b_page_dirty_flags (setDirty bf)) with (b_page_dirty_flags bf). rewrite B5.
  destruct (Z.ltb_spec ((off + Z.of_nat (length src) - 1) / b_page_size bf) (b_num_pages bf)) as [_|?]; [|lia].
  unfold written, bind, ret. change (buffers_ st1) with (buffers_ st).
  destruct (off <? b_size bf), (b_size bf <? off + Z.of_nat (length src));
    rewrite ?(update_buffer_run b _ _ _ (lookup_insert_eq _ _ _)); cbn [buffers_ set_buffers_];
    rewrite ?insert_insert_eq; reflexivity.
Qed.

Definition write_post (st : Mgr) (b : Z) (bf : Buffer) (off : Z) (src : list Z)
    (r : result BMError unit * Mgr) : Prop :=
  match r with
  | (Ok _, st') => exists bf', touched st st' b bf' /\
      buffer_bytes (slab_mem st') bf'
      = overwrite (buffer_bytes (slab_mem st) (untoken bf)) (Z.to_nat off) src /\
      b_pin_count bf' = b_pin_count bf /\ b_is_dirty bf' = true /\
      (forall i, nth i (b_page_dirty_flags bf') false
         = nth i (b_page_dirty_flags bf) false ||
           ((off / b_page_size bf <=? Z.of_nat i) &&
            (Z.of_nat i <=? (off + Z.of_nat (length src) - 1) / b_page_size bf)))
  | (Err e, st') => failed st b bf e st'
  end.

Lemma mark_pages_nth first last flags i :
  last < Z.of_nat (length flags) ->
  nth i (mark_pages first last flags) false
  = nth i flags false || ((first <=? Z.of_nat i) && (Z.of_nat i <=? last)).
Proof.
  intros Hl. unfold mark_pages. rewrite !nth_lookup, list_lookup_imap.
  destruct (flags !! i) eqn:E; cbn; [reflexivity|]. apply lookup_ge_None in E.
  destruct (Z.leb_spec (Z.of_nat i) last); [lia|]. now rewrite andb_false_r.
Qed.

Lemma untoken_same bf :
  b_page_size (untoken bf) = b_page_size bf /\ b_pin_count (untoken bf) = b_pin_count bf /\
  b_page_dirty_flags (untoken bf) = b_page_dirty_flags bf.
Proof. unfold untoken. now destruct (b_token bf). Qed.

Lemma written_flags bf off n :
  b_page_dirty_flags (written bf off n)
  = mark_pages (off / b_page_size bf) ((off + n - 1) / b_page_size bf) (b_page_dirty_flags bf).
Proof. unfold written. now destruct (b_size bf <? off + n), (off <? b_size bf). Qed.

Lemma written_dirty bf off n : b_is_dirty (written bf off n) = true.
Proof. unfold written. now destruct (b_size bf <? off + n), (off <? b_size bf). Qed.

(** [write_tail] once the reservation has succeeded. *)
Lemma write_reserved st st1 b bf bf1 off src :
  touched st st1 b bf1 -> refitted (untoken bf) bf1 ->
  buffer_bytes (slab_mem st1) bf1 = buffer_bytes (slab_mem st) (untoken bf) ->
  0 <= off <= b_size (untoken bf) -> src <> [] ->
  off + Z.of_nat (length src) <= b_page_size bf1 * b_num_pages bf1 < 4611686018427387904 ->
  write_post st b bf off src (write_tail b src off st1).
Proof.
  intros T R Eb Hoff Hne Hfit. destruct (rf_mem _ _ R) as (k & o & Em).
  pose proof (td_wf _ _ _ _ T) as W1.
  destruct (slab_has st1 b bf1 k o W1 (td_buffer _ _ _ _ T) Em) as (s & Hs & Hk & ->).
  destruct (has_ok st1 k s b bf1 W1 Hs) as (Hok & Hit & _). pose proof Hok as (B1 & B2 & _ & B4 & B5 & B6 & _).
  destruct (B6 Hk) as (_ & _ & Hsz).
  rewrite (write_tail_run st1 k s b bf1 off src W1 Hs Hk (proj1 Hoff) Hne ltac:(lia)).
  destruct (write_inside st1 k s b bf1 off src W1 Hs Hk (proj1 Hoff) (proj1 Hfit)) as [_ T2].
  cbv zeta in T2. set (st2 := set_slab_mem _ st1) in *. set (bf' := written bf1 off _).
  destruct (written_same bf1 off (Z.of_nat (length src))) as (E1 & E2 & E3 & E4 & E5 & E6 & E7).
  fold bf' in E1, E2, E3, E4, E5, E6, E7.
  assert (Esz : b_size bf' = Z.max (b_size bf1) (off + Z.of_nat (length src))) by apply written_size.
  assert (Hs2 : has st2 k s b bf1) by exact Hs.
  assert (Hok' : buf_ok k s bf') by (apply (buf_ok_resized k s bf1); auto; lia).
  destruct (untoken_same bf) as (U1 & U2 & U3).
  exists bf'. split_and!.
  - apply (touched_trans st st1 _ b bf1 _ T), (touched_trans st1 st2 _ b bf1 _ T2).
    apply (touched_set st2 k s b bf1); auto; [apply (td_wf _ _ _ _ T2) | congruence].
  - rewrite <- Eb. unfold buffer_bytes. rewrite E1, Em. cbn [slab_mem st2 set_slab_mem set_buffers_].
    rewrite Esz. apply slab_bytes_write. rewrite (rf_size _ _ R). lia.
  - rewrite E6, (rf_pin _ _ R). exact U2.
  - apply written_dirty.
  - intros i. unfold bf'. rewrite written_flags, (rf_page_size _ _ R), U1, mark_pages_nth.
    + now rewrite (rf_flags _ _ R), U3.
    + rewrite B5, <- U1, <- (rf_page_size _ _ R). apply last_page; try lia.
      destruct src; [easy | cbn; lia].
Qed.

Lemma Buffer_write_spec st b bf off src :
  wf st -> buffers_ st !! b = Some bf -> held bf -> src <> [] ->
  0 <= off <= b_size (untoken bf) -> off + Z.of_nat (length src) < 2305843009213693952 ->
  write_post st b bf off src (Buffer_write b src off st).
Proof.
  intros W Hb Hh Hne Hoff Hlen.
  assert (Hpos : 0 < Z.of_nat (length src)) by (destruct src; [easy | cbn; lia]).
  unfold Buffer_write, check. destruct (Z.ltb_spec 0 (Z.of_nat (length src))); [|lia].
  unfold bind at 1, ret at 1. unfold bind at 1, get_buffer. rewrite Hb. unfold require.
  rewrite u64_small by lia.
  pose proof (make_room st b bf (Z.of_nat (length src) + off) W Hb Hh ltac:(lia)) as Hr.
  unfold ret at 1, bind.
  destruct ((if reservedSize bf <? Z.of_nat (length src) + off
             then Buffer_reserve b (Z.of_nat (length src) + off) else ret tt) st) as [[[]|e] st1].
  - destruct Hr as (bf1 & T & R & Eb & Hfit). apply (write_reserved st st1 b bf bf1); auto; lia.
  - exact Hr.
Qed.

(** ** Appending *)

Lemma overwrite_end old src : overwrite old (length old) src = old ++ src.
Proof.
  unfold overwrite. rewrite take_ge by lia. rewrite drop_ge by lia. now rewrite app_nil_r.
Qed.

(** The size of a buffer is the length of its contents. *)
Lemma bytes_length st i s b bf :
  wf st -> has st i s b bf -> Z.of_nat (length (buffer_bytes (slab_mem st) bf)) = b_size bf.
Proof.
  intros W Hs. destruct (has_ok st i s b bf W Hs) as ((_ & _ & _ & B4 & _ & B6 & B7) & _).
  pose proof (located_slot _ _ _ (proj1 (proj1 Hs))). unfold buffer_bytes.
  destruct (Z.le_gt_cases 0 i) as [Hi|Hi].
  - destruct (B6 Hi) as (-> & _). now apply slab_bytes_length.
  - specialize (B7 ltac:(lia)). destruct (b_token bf) as [t|]; destruct B7 as [-> E].
    + unfold token_bytes. rewrite length_map, length_seq. lia.
    + now rewrite E.
Qed.

(** The outcome of appending [src] to the contents of [bf]. *)
Definition append_post (st : Mgr) (b : Z) (bf : Buffer) (src : list Z)
    (r : result BMError unit * Mgr) : Prop :=
  match r with
  | (Ok _, st') => exists bf', touched st st' b bf' /\
      buffer_bytes (slab_mem st') bf' = buffer_bytes (slab_mem st) (untoken bf) ++ src /\
      b_pin_count bf' = b_pin_count bf /\ b_is_dirty bf' = true /\ b_is_appended bf' = true
  | (Err e, st') => failed st b (setAppended bf) e st'
  end.

Lemma append_reserved st st1 b bf bf1 src :
  touched st st1 b bf1 -> refitted (untoken (setAppended bf)) bf1 ->
  buffer_bytes (slab_mem st1) bf1 = buffer_bytes (slab_mem st) (untoken (setAppended bf)) ->
  Z.of_nat (length src) + b_size bf1 <= b_page_size bf1 * b_num_pages bf1 < 4611686018427387904 ->
  append_post st b bf src
    ((let! bf := get_buffer b in
      do! writeData b src (b_size bf) in
      update_buffer b (fun bf => set_b_size (u64 (b_size bf + Z.of_nat (length src))) bf))%bm st1).
Proof.
  intros T R Eb Hfit. destruct (rf_mem _ _ R) as (k & o & Em). pose proof (td_wf _ _ _ _ T) as W1.
  destruct (slab_has st1 b bf1 k o W1 (td_buffer _ _ _ _ T) Em) as (s & Hs & Hk & ->).
  destruct (has_ok st1 k s b bf1 W1 Hs) as (Hok & Hit & _). pose proof Hok as (_ & _ & _ & B4 & _ & B6 & _).
  destruct (write_inside st1 k s b bf1 (b_size bf1) src W1 Hs Hk B4 ltac:(lia)) as [Ew T2].
  cbv zeta in Ew, T2. set (st2 := set_slab_mem _ st1) in *.
  unfold bind at 1, get_buffer. rewrite (td_buffer _ _ _ _ T). unfold require, ret.
  unfold bind. rewrite Ew. rewrite (update_buffer_run b _ st2 bf1 (td_buffer _ _ _ _ T2)).
  rewrite u64_small by lia. set (bf' := set_b_size _ bf1). exists bf'.
  assert (Hok' : buf_ok k s bf') by (apply (buf_ok_resized k s bf1); auto; cbn; lia).
  assert (Hs2 : has st2 k s b bf1) by exact Hs. split_and!.
  - apply (touched_trans st st1 _ b bf1 _ T), (touched_trans st1 st2 _ b bf1 _ T2).
    apply (touched_set st2 k s b bf1); auto. apply (td_wf _ _ _ _ T2).
  - transitivity (overwrite (buffer_bytes (slab_mem st1) bf1) (Z.to_nat (b_size bf1)) src).
    + unfold buffer_bytes. change (b_mem bf') with (b_mem bf1). rewrite Em.
      cbn [slab_mem st2 set_slab_mem set_buffers_]. change (b_size bf') with (b_size bf1 + Z.of_nat (length src)).
      rewrite <- slab_bytes_write by lia. f_equal. lia.
    + rewrite <- (bytes_length st1 k s b bf1 W1 Hs), Nat2Z.id, overwrite_end, Eb.
      f_equal. unfold untoken. cbn. now destruct (b_token bf).
  - cbn. rewrite (rf_pin _ _ R). unfold untoken; cbn. now destruct (b_token bf).
  - cbn. rewrite (rf_dirty _ _ R). unfold untoken; cbn. now destruct (b_token bf).
  - cbn. rewrite (rf_appended _ _ R). unfold untoken; cbn. now destruct (b_token bf).
Qed.

Lemma untoken_size st i s b bf : wf st -> has st i s b bf -> 0 <= b_size (untoken bf) <= b_size bf.
Proof.
  intros W Hs. destruct (has_ok st i s b bf W Hs) as ((_ & _ & _ & B4 & _) & _).
  unfold untoken. destruct (b_token bf); cbn; lia.
Qed.

Lemma append_post_from st st0 b bf src r :
  touched st st0 b (setAppended bf) -> slab_mem st0 = slab_mem st ->
  slab_segments_ st0 = slab_segments_ st -> chunk_index_ st0 = chunk_index_ st ->
  buffers_ st0 = <[b := setAppended bf]> (buffers_ st) ->
  append_post st0 b bf src r -> append_post st b bf src r.
Proof.
  intros T Em Es Ei Eb0. destruct r as [[u|e] st']; cbn.
  - intros (bf' & T' & Eb & Hrest). exists bf'. rewrite <- Em.
    split; [exact (touched_trans _ _ _ _ _ _ T T') | auto].
  - intros (T' & He & Ebs & Ei' & Em'). unfold failed. rewrite Ebs, Ei', Em', Eb0, insert_insert_eq.
    split_and!; auto; [exact (touched_trans _ _ _ _ _ _ T T')|].
    unfold reserve_error in *. now rewrite <- Es.
Qed.

Lemma Buffer_append_spec st b bf src :
  wf st -> buffers_ st !! b = Some bf -> held bf -> src <> [] ->
  b_size bf + Z.of_nat (length src) < 2305843009213693952 ->
  append_post st b bf src (Buffer_append b src st).
Proof.
  intros W Hb Hh Hne Hlen.
  assert (Hpos : 0 < Z.of_nat (length src)) by (destruct src; [easy | cbn; lia]).
  destruct (buffer_has st b bf W Hb) as (i & s & Hs).
  destruct (has_ok st i s b bf W Hs) as (Hok & Hit & _).
  pose proof (touched_set st i s b bf (setAppended bf) W Hs Hok Hit) as T0.
  destruct (wf_set_buffer st i s b bf (setAppended bf) W Hs Hok Hit) as [W0 Hs0].
  unfold Buffer_append. unfold bind at 1. rewrite (update_buffer_run b _ st bf Hb).
  set (st0 := set_buffers_ _ st) in *. apply (append_post_from st st0 b bf src _ T0 eq_refl eq_refl eq_refl eq_refl).
  unfold bind at 1, get_buffer at 1. rewrite (td_buffer _ _ _ _ T0). unfold require at 1, ret at 1.
  destruct Hok as (_ & _ & _ & B4 & _).
  change (b_size (setAppended bf)) with (b_size bf). rewrite u64_small by lia.
  pose proof (make_room st0 b (setAppended bf) (Z.of_nat (length src) + b_size bf) W0
                (td_buffer _ _ _ _ T0) Hh ltac:(lia)) as Hr.
  unfold bind at 1.
  destruct ((if reservedSize (setAppended bf) <? Z.of_nat (length src) + b_size bf
             then Buffer_reserve b (Z.of_nat (length src) + b_size bf) else ret tt) st0)
    as [[[]|e] st1].
  - destruct Hr as (bf1 & T & R & Eb & Hfit). apply (append_reserved st0 st1 b bf bf1); auto.
    pose proof (untoken_size st0 i s b _ W0 Hs0) as Hsz. rewrite (rf_size _ _ R). cbn in Hsz. lia.
  - exact Hr.
Qed.

(** ** Reading *)

Lemma Buffer_read_spec st b bf n off :
  wf st -> buffers_ st !! b = Some bf -> 0 < n -> 0 <= off -> off + n < 18446744073709551616 ->
  Buffer_read b n off st
  = (if bool_decide (b_mem bf = NullPtr) then Err CheckFailure
     else if b_size bf <? off + n then Err CheckFailure
     else Ok (take (Z.to_nat n) (drop (Z.to_nat off) (buffer_bytes (slab_mem st) bf))), st).
Proof.
  intros W Hb Hn Hoff Hlen. unfold Buffer_read.
  destruct (Z.eqb_spec n 0); [lia|]. unfold bind at 1, get_buffer. rewrite Hb. unfold require, ret.
  rewrite u64_small by lia. unfold check, bind at 1.
  case_bool_decide as En; cbn [negb]; [reflexivity|]. unfold ret, bind at 1.
  rewrite (Z.add_comm n off), Z.leb_antisym.
  destruct (Z.ltb_spec (b_size bf) (off + n)) as [Hlt|Hge]; cbn [negb]; [reflexivity|].
  unfold readData, bind, get_buffer. rewrite Hb. unfold require, ret, read_bytes, buffer_bytes.
  destruct (b_mem bf) as [|k o|t]; [easy| |].
  - do 2 f_equal. apply slab_bytes_sub; lia.
  - do 2 f_equal. unfold token_bytes.
    exact (slab_bytes_sub (fun _ => token_byte t) 0 0 (b_size bf) off n Hoff (Z.lt_le_incl _ _ Hn) Hge).
Qed.

(** ** Reading what was written *)

Lemma overwrite_sub old off src :
  (off <= length old)%nat -> take (length src) (drop off (overwrite old off src)) = src.
Proof.
  intros Ho. unfold overwrite. rewrite drop_app_length' by (rewrite length_take; lia).
  apply take_app_length.
Qed.

Lemma overwrite_length old off src :
  (off <= length old)%nat -> length (overwrite old off src) = max (length old) (off + length src).
Proof.
  intros Ho. unfold overwrite. rewrite !length_app, length_take, length_drop. lia.
Qed.

Lemma untoken_length st b bf :
  wf st -> buffers_ st !! b = Some bf ->
  Z.of_nat (length (buffer_bytes (slab_mem st) (untoken bf))) = b_size (untoken bf).
Proof.
  intros W Hb. destruct (buffer_has st b bf W Hb) as (i & s & Hs).
  destruct (untoken_run st i s b bf W Hs) as (st0 & _ & T & Hs0 & <- & _).
  exact (bytes_length st0 i s b _ (td_wf _ _ _ _ T) Hs0).
Qed.

Lemma read_overwritten st b bf old off src :
  wf st -> buffers_ st !! b = Some bf -> src <> [] -> 0 <= off ->
  off + Z.of_nat (length src) < 2305843009213693952 ->
  buffer_bytes (slab_mem st) bf = overwrite old (Z.to_nat off) src ->
  off <= Z.of_nat (length old) ->
  Buffer_read b (Z.of_nat (length src)) off st = (Ok src, st).
Proof.
  intros W Hb Hne Hoff Hl Eb Ho. destruct (buffer_has st b bf W Hb) as (i & s & Hs).
  assert (Hpos : 0 < Z.of_nat (length src)) by (destruct src; [easy | cbn; lia]).
  pose proof (bytes_length st i s b bf W Hs) as Hlen. rewrite Eb, overwrite_length in Hlen by lia.
  rewrite (Buffer_read_spec st b bf _ off W Hb Hpos Hoff) by lia.
  rewrite bool_decide_false.
  - destruct (Z.ltb_spec (b_size bf) (off + Z.of_nat (length src))); [lia|].
    now rewrite Eb, Nat2Z.id, overwrite_sub by lia.
  - intros En. apply (f_equal (@length Z)) in Eb. rewrite overwrite_length in Eb by lia.
    unfold buffer_bytes in Eb. rewrite En in Eb. cbn in Eb. lia.
Qed.

End RW.
