(* ===== verification/BufferLife.v ===== *)
(** * Creating and deleting buffers *)

From Stdlib Require Import ZArith Lia List Bool.
From stdpp Require Import base gmap list numbers.
From S2P Require Import Prelude StateMonad BufferMgr BufferInv BufferFind BufferScan BufferOps.
From S2P Require Import BufferClient BufferRW.
Import ListNotations.
Local Open Scope Z_scope.

Section Life.

Context `{PoolOk}.

(** ** Deleting *)

(** [st'] is [st] without segment [s] and its buffer [b]. *)
Record closed (st st' : Mgr) (s : BufferSeg) (b : Z) : Prop := {
  cl_layout : layout st';
  cl_owned : forall j x, owned [] st' j x <-> owned [] st j x /\ node x <> node s;
  cl_buffers : buffers_ st' = delete b (buffers_ st);
  cl_index : chunk_index_ st' = delete (chunk_key s) (chunk_index_ st);
  cl_mem : slab_mem st' = slab_mem st;
  cl_next : next_buffer st' = next_buffer st
}.

Lemma has_unique st i s b bf j x :
  wf st -> has st i s b bf -> owned [] st j x -> node x <> node s ->
  buffer x <> Some b /\ chunk_key x <> chunk_key s.
Proof.
  intros W (Hs & Eb & _) Hx N. destruct W as [L O I]. split.
  - intros E. apply N, (ow_uniq _ _ O j x i s Hx Hs). congruence.
  - intros E. destruct (ow_seg _ _ O j x Hx) as (? & ? & _ & _ & _ & K1 & _).
    destruct (ow_seg _ _ O i s Hs) as (? & ? & _ & _ & _ & K2 & _). congruence.
Qed.

Lemma closed_ownership st st' i s b bf :
  wf st -> has st i s b bf -> closed st st' s b -> ownership [] st'.
Proof.
  intros W Hs [L' Ho Eb Ei _ En]. pose proof W as [L O I].
  split.
  - intros j x [Hx N]%Ho. destruct (has_unique st i s b bf j x W Hs Hx N) as [N1 N2].
    destruct (ow_seg _ _ O j x Hx) as (b1 & bf1 & E1 & E2 & Hok & Hk & Hne).
    exists b1, bf1. rewrite Eb, Ei, !lookup_delete_ne by congruence. auto.
  - intros k n. rewrite Ei, lookup_delete_Some. intros [Nk Hk].
    destruct (ow_index _ _ O k n Hk) as (j & x & Hx & E1 & E2). exists j, x. split; [|auto].
    apply Ho. split; [exact Hx|]. intros E.
    pose proof (owned_same [] st j x i s L Hx (proj1 Hs) E). congruence.
  - intros b1 bf1. rewrite Eb, lookup_delete_Some. intros [Nb Hb].
    destruct (ow_buffers _ _ O b1 bf1 Hb) as (Hlt & j & x & Hx & E1). split; [lia|].
    exists j, x. split; [|exact E1]. apply Ho. split; [exact Hx|]. intros E.
    pose proof (owned_same [] st j x i s L Hx (proj1 Hs) E). destruct Hs as (_ & E2 & _). congruence.
  - intros j x k y [Hx _]%Ho [Hy _]%Ho. exact (ow_uniq _ _ O j x k y Hx Hy).
Qed.

Lemma closed_wf st st' i s b bf :
  wf st -> has st i s b bf -> closed st st' s b -> wf st' /\ keeps [b] st st' /\
  (forall key, ~ named st' key b).
Proof.
  intros W Hs C. pose proof (closed_ownership st st' i s b bf W Hs C) as O'.
  destruct C as [L' Ho Eb Ei Em En]. pose proof W as [L O I]. split; [|split].
  - split; auto. intros j x b1 bf1 Hx Hu E1 _. rewrite Eb, lookup_delete_Some. intros [_ Hb].
    assert (Hxo : owned [] st' j x) by (split; auto using not_elem_of_nil).
    apply Ho in Hxo as [(Hx0 & _) _]. exact (I j x b1 bf1 Hx0 Hu E1 (not_elem_of_nil b1) Hb).
  - split.
    + intros b1 bf1 N. rewrite Eb, lookup_delete_Some, Em. tauto.
    + intros b1 bf1 N%not_elem_of_cons Hb _. rewrite Eb, lookup_delete_ne by (intros ->; tauto). exact Hb.
    + intros key b1 _ (j & x & Hx & Ek & Ex). apply Ho in Hx as [Hx _]. exists j, x. auto.
  - intros key (j & x & Hx & _ & Ex). apply Ho in Hx as [Hx N].
    now destruct (has_unique st i s b bf j x W Hs Hx N).
Qed.

(** The state before [removeSegment] in [deleteBuffer]. *)
Definition unlinked (st : Mgr) (s : BufferSeg) (b : Z) : Mgr :=
  set_chunk_index_ (delete (chunk_key s) (chunk_index_ st))
    (upd (node s) (set_buffer None) (set_buffers_ (delete b (buffers_ st)) st)).

Lemma unlinked_located st s b j x :
  located (unlinked st s b) j x <->
  exists y, located st j y /\ x = (if node y =? node s then set_buffer None y else y).
Proof. exact (located_upd (node s) (set_buffer None) (set_buffers_ (delete b (buffers_ st)) st) j x). Qed.

Lemma unlinked_layout st i s b :
  layout st -> owned [] st i s -> layout (unlinked st s b).
Proof.
  intros L (Hs & Hu & _). set (st1 := set_buffers_ (delete b (buffers_ st)) st).
  assert (L1 : layout st1)
    by (apply (layout_ext st st1); try reflexivity; [apply (ly_cur st L) | apply (ly_epoch st L) | exact L]).
  assert (L2 : layout (upd (node s) (set_buffer None) st1)).
  { apply layout_upd; [exact L1 | intros x; auto |]. intros j x Hx E.
    destruct (located_inj st j x i s L Hx Hs E) as [-> ->].
    destruct (ly_shape st L i s Hs) as (B1 & _ & B3 & B4).
    unfold seg_shape; cbn. split_and!; auto; lia. }
  apply (layout_ext (upd (node s) (set_buffer None) st1) (unlinked st s b));
    try reflexivity; [apply (ly_cur st L) | apply (ly_epoch st L) | exact L2].
Qed.

Lemma removeSegment_closed st i s b bf :
  wf st -> has st i s b bf ->
  exists st', removeSegment (node s) (unlinked st s b) = (Ok tt, st') /\ closed st st' s b.
Proof.
  intros [L O I] (Hs & Eb & Hb).
  pose proof (unlinked_layout st i s b L Hs) as L1.
  assert (Hs1 : located (unlinked st s b) i (set_buffer None s)).
  { apply unlinked_located. exists s. split; [apply Hs|]. now rewrite Z.eqb_refl. }
  destruct (removeSegment_spec _ i (set_buffer None s) L1 Hs1 (proj1 (proj2 Hs)))
    as (st' & E & L' & SH & Hl). exists st'. split; [exact E|].
  split; [exact L' | | apply (sh_buffers _ _ SH) | apply (sh_index _ _ SH) | apply (sh_mem _ _ SH)
         | apply (sh_next _ _ SH)].
  intros j x. unfold owned. split.
  - intros (Hx & Hu & Hn). apply Hl in Hx as [Hx N]; [|exact Hu]. cbn in N.
    apply unlinked_located in Hx as (y & Hy & ->).
    destruct (Z.eqb_spec (node y) (node s)) as [Ey|Ny]; [now destruct N|]. auto.
  - intros ((Hx & Hu & Hn) & N). split; [|auto]. apply Hl; [exact Hu|]. split; [|exact N].
    apply unlinked_located. exists x. split; [exact Hx|].
    destruct (Z.eqb_spec (node x) (node s)); [easy | reflexivity].
Qed.

Lemma named_has st key b :
  wf st -> named st key b -> exists i s bf, has st i s b bf /\ chunk_key s = key.
Proof.
  intros W (i & s & Hs & Ek & Eb). destruct (ow_seg _ _ (wf_own _ W) i s Hs) as (b1 & bf & E1 & E2 & _).
  assert (b1 = b) as -> by congruence. exists i, s, bf. split; [now split | exact Ek].
Qed.

Lemma deleteBuffer_spec st key b :
  wf st -> named st key b ->
  exists st', deleteBuffer key st = (Ok tt, st') /\ wf st' /\ keeps [b] st st' /\
    (forall key', ~ named st' key' b) /\ buffers_ st' !! b = None /\ chunk_index_ st' !! key = None.
Proof.
  intros W Hn. destruct (named_has st key b W Hn) as (i & s & bf & Hs & <-).
  destruct (has_ok st i s b bf W Hs) as (_ & _ & Hk). pose proof Hs as (Ho & Eb & Hb).
  destruct (removeSegment_closed st i s b bf W Hs) as (st' & Er & C).
  destruct (closed_wf st st' i s b bf W Hs C) as (W' & K & Nn).
  exists st'. split; [|split_and!; auto].
  - unfold deleteBuffer, bind at 1, gets. rewrite Hk. unfold bind at 1, modify at 1. unfold bind at 1.
    rewrite (deref_located (set_chunk_index_ (delete (chunk_key s) (chunk_index_ st)) st) i s);
      [|apply (layout_ext st); try reflexivity; [apply (ly_cur st (wf_layout _ W))
        | apply (ly_epoch st (wf_layout _ W)) | apply W] | apply Ho].
    unfold bind at 1. rewrite Eb. exact Er.
  - rewrite (cl_buffers _ _ _ _ C). apply lookup_delete_eq.
  - rewrite (cl_index _ _ _ _ C). apply lookup_delete_eq.
Qed.

Lemma deleteBuffer_absent st key :
  chunk_index_ st !! key = None -> deleteBuffer key st = (Err CheckFailure, st).
Proof. intros E. unfold deleteBuffer, bind, gets. now rewrite E. Qed.

(** ** Creating *)

(** The segment of a buffer just created, and the state with the buffer [bf] in it. *)
Definition opened_seg (st : Mgr) (key : ChunkKey) : BufferSeg :=
  set_buffer (Some (next_buffer st)) (set_chunk_key key (BufferSeg_new (next_node st) (-1) 0 USED)).

Definition opened (st : Mgr) (key : ChunkKey) (bf : Buffer) : Mgr :=
  set_next_buffer (next_buffer st + 1)
    (set_buffers_ (<[next_buffer st := bf]> (buffers_ st))
       (set_chunk_index_ (<[key := next_node st]> (chunk_index_ st))
          (set_unsized_segs_ (unsized_segs_ st ++ [opened_seg st key])
             (set_next_node (next_node st + 1) st)))).

Lemma opened_located st key bf j x :
  located (opened st key bf) j x <-> (j = -1 /\ x = opened_seg st key) \/ located st j x.
Proof.
  unfold located, opened; cbn. rewrite elem_of_app, list_elem_of_singleton. tauto.
Qed.

Lemma opened_layout st key bf : layout st -> layout (opened st key bf).
Proof.
  intros L. pose proof (opened_located st key bf) as Hl. destruct L. split; auto.
  - unfold opened; cbn. rewrite nodes_app. apply list.NoDup_app. split; [exact ly_unsized|].
    split; [|apply NoDup_singleton]. intros n (s & Hs & E)%nodes_in_inv Hn%list_elem_of_singleton.
    assert (located st (-1) s) as Hf%ly_fresh by (left; auto). cbn in Hn. lia.
  - intros i s j t [[-> ->]|Hs]%Hl [[-> ->]|Ht]%Hl E; auto; [apply ly_fresh in Ht | apply ly_fresh in Hs |];
      cbn in E; [lia..|]. eauto.
  - intros i s [[-> ->]|Hs]%Hl; cbn; [lia|]. apply ly_fresh in Hs. lia.
  - intros i s [[-> ->]|Hs]%Hl; [|eauto]. unfold seg_shape; cbn.
    split; [lia|]. split; [discriminate|]. auto.
Qed.

Lemma opened_owned st key bf j x :
  owned [] (opened st key bf) j x <-> (j = -1 /\ x = opened_seg st key) \/ owned [] st j x.
Proof.
  unfold owned. rewrite opened_located. split; [tauto|].
  intros [[-> ->]|?]; [|tauto]. split; [auto|]. split; [reflexivity | apply not_elem_of_nil].
Qed.

Lemma opened_ownership st key bf :
  wf st -> chunk_index_ st !! key = None -> key <> [] -> buf_ok (-1) (opened_seg st key) bf ->
  ownership [] (opened st key bf).
Proof.
  intros [L O I] Hkey Hne Hok. pose proof (opened_owned st key bf) as Ho.
  assert (Hbnew : forall j x, owned [] st j x -> exists b, buffer x = Some b /\ b < next_buffer st).
  { intros j x Hx. destruct (ow_seg _ _ O j x Hx) as (b & bf1 & E & Hb & _). exists b.
    split; [exact E | apply (ow_buffers _ _ O b bf1 Hb)]. }
  split.
  - intros j x [[-> ->]|Hx]%Ho.
    + exists (next_buffer st), bf. cbn. rewrite !lookup_insert_eq. auto.
    + destruct (ow_seg _ _ O j x Hx) as (b & bf1 & E & Hb & Hok1 & Hk & Hn). exists b, bf1.
      destruct (ow_buffers _ _ O b bf1 Hb) as [Hlt _]. cbn.
      rewrite !lookup_insert_ne; [auto | intros E1; rewrite E1 in Hkey; congruence | lia].
  - intros k n. cbn. rewrite lookup_insert_Some. intros [[<- <-]|[N Hk]].
    + exists (-1), (opened_seg st key). split; [apply Ho; auto | auto].
    + destruct (ow_index _ _ O k n Hk) as (j & x & Hx & ?). exists j, x. split; [apply Ho; auto | auto].
  - intros b bf1. cbn. rewrite lookup_insert_Some. intros [[<- <-]|[N Hb]].
    + split; [lia|]. exists (-1), (opened_seg st key). split; [apply Ho; auto | reflexivity].
    + destruct (ow_buffers _ _ O b bf1 Hb) as (Hlt & j & x & Hx & E). split; [lia|].
      exists j, x. split; [apply Ho; auto | exact E].
  - intros j x k y [[-> ->]|Hx]%Ho [[-> ->]|Hy]%Ho E; auto.
    + destruct (Hbnew k y Hy) as (b & E1 & ?). cbn in E. assert (b = next_buffer st) by congruence. lia.
    + destruct (Hbnew j x Hx) as (b & E1 & ?). cbn in E. assert (b = next_buffer st) by congruence. lia.
    + exact (ow_uniq _ _ O j x k y Hx Hy E).
Qed.

Lemma opened_wf st key bf :
  wf st -> chunk_index_ st !! key = None -> key <> [] ->
  buf_ok (-1) (opened_seg st key) bf -> b_seg_it bf = next_node st ->
  wf (opened st key bf) /\ has (opened st key bf) (-1) (opened_seg st key) (next_buffer st) bf /\
  keeps [next_buffer st] st (opened st key bf).
Proof.
  intros W Hkey Hne Hok Hit. pose proof W as [L O I]. pose proof (opened_owned st key bf) as Ho.
  split; [split|split].
  - now apply opened_layout.
  - now apply opened_ownership.
  - intros j x b bf1 Hx Hu E _. cbn. apply opened_located in Hx as [[-> ->]|Hx].
    + cbn in E. injection E as <-. rewrite lookup_insert_eq. intros [= <-]. exact Hit.
    + destruct (ow_seg _ _ O j x) as (b1 & bf2 & E1 & Hb & _); [split; auto using not_elem_of_nil|].
      destruct (ow_buffers _ _ O b1 bf2 Hb) as [Hlt _]. assert (b1 = b) as -> by congruence.
      rewrite lookup_insert_ne by lia. exact (I j x b bf1 Hx Hu E (not_elem_of_nil b)).
  - split; [apply Ho; auto|]. split; [reflexivity | apply lookup_insert_eq].
  - split.
    + intros b bf1 N%not_elem_of_cons. cbn. rewrite lookup_insert_ne by (intros <-; tauto). auto.
    + intros b bf1 N%not_elem_of_cons Hb _. cbn. now rewrite lookup_insert_ne by (intros <-; tauto).
    + intros k b N%not_elem_of_cons (j & x & Hx & Ek & Ex). apply Ho in Hx as [[-> ->]|Hx].
      * cbn in Ex. injection Ex as <-. tauto.
      * exists j, x. auto.
Qed.

(** The assignments through the iterator of a new segment. *)
Lemma update_node_other n f l : (forall s, s ∈ l -> node s <> n) -> update_node n f l = l.
Proof.
  intros Hn. unfold update_node. rewrite <- map_id. apply map_ext_in. intros s Hs.
  apply list_elem_of_In in Hs. destruct (Z.eqb_spec (node s) n); [now destruct (Hn s Hs) | reflexivity].
Qed.

Lemma update_fresh st f x :
  layout st -> node x = next_node st ->
  map (update_node (next_node st) f) (slab_segments_ st) = slab_segments_ st /\
  update_node (next_node st) f (unsized_segs_ st ++ [x]) = unsized_segs_ st ++ [f x].
Proof.
  intros L E. split.
  - rewrite <- map_id. apply map_ext_in. intros l Hl. apply update_node_other. intros s Hs.
    apply list_elem_of_In, list_elem_of_lookup in Hl as (i & Hi).
    pose proof (ly_fresh st L _ _ (located_slab st i l s Hi Hs)). lia.
  - unfold update_node. rewrite map_app. cbn. rewrite E, Z.eqb_refl.
    f_equal. apply update_node_other. intros s Hs.
    assert (located st (-1) s) as Hf%(ly_fresh st L) by (left; auto). lia.
Qed.

(** The new segment in the lists and the index, before its buffer is made. *)
Definition listed (st : Mgr) (key : ChunkKey) : Mgr :=
  set_chunk_index_ (<[key := next_node st]> (chunk_index_ st))
    (set_unsized_segs_ (unsized_segs_ st ++
       [set_chunk_key key (BufferSeg_new (next_node st) (-1) 0 USED)])
       (set_next_node (next_node st + 1) st)).

Lemma new_unsized_seg_run st key :
  chunk_index_ st !! key = None -> new_unsized_seg key st = (Ok (next_node st), listed st key).
Proof.
  intros E. unfold new_unsized_seg, bind, gets, check. rewrite bool_decide_true by exact E. reflexivity.
Qed.

(** The buffer [bf], unpinned, is put in its segment and pinned. *)
Definition link (seg_it : Z) (bf : Buffer) : M Z :=
  (let! b := gets next_buffer in
   do! modify (fun st => set_next_buffer (b + 1) (set_buffers_ (<[b := bf]> (buffers_ st)) st)) in
   do! pin b in
   do! update_seg seg_it (set_buffer (Some b)) in ret b)%bm.

Lemma link_run st key bf :
  layout st -> b_pin_count bf = 0 ->
  link (next_node st) bf (listed st key)
  = (Ok (next_buffer st), opened st key (set_b_pin_count 1 bf)).
Proof.
  intros L Hp. set (b := next_buffer st). set (f := set_buffer (Some b)).
  transitivity (@Ok BMError Z b,
    set_unsized_segs_ (update_node (next_node st) f (unsized_segs_ st ++
        [set_chunk_key key (BufferSeg_new (next_node st) (-1) 0 USED)]))
      (set_slab_segments_ (map (update_node (next_node st) f) (slab_segments_ st))
        (set_next_buffer (b + 1) (set_buffers_ (alter
          (fun x => set_b_pin_count (s32 (b_pin_count x + 1)) x) b (<[b := bf]> (buffers_ st)))
          (listed st key))))); [reflexivity|].
  destruct (update_fresh st f
    (set_chunk_key key (BufferSeg_new (next_node st) (-1) 0 USED)) L eq_refl) as [-> ->].
  rewrite (alter_lookup _ _ b bf (lookup_insert_eq _ _ _)), insert_insert_eq, Hp.
  reflexivity.
Qed.

Definition new_buffer (mem : MemPtr) (seg_it page_size size : Z) (token : option Z) : Buffer :=
  mkBuffer mem seg_it page_size 0 1 size false false false [] token.

Lemma new_buffer_ok st key page_size token :
  0 < page_size < 2147483648 ->
  buf_ok (-1) (opened_seg st key)
    (match token with
     | Some t => new_buffer (TokenPtr t) (next_node st) page_size (token_size t) (Some t)
     | None => new_buffer NullPtr (next_node st) page_size 0 None
     end).
Proof.
  intros Hp. unfold buf_ok. pose proof pool_tokens as Ht.
  destruct token as [t|]; cbn; (split_and!; try lia; auto).
Qed.

(** ** [createZeroCopyBuffer] *)

Lemma allocateZeroCopyBuffer_link seg_it page_size t st :
  allocateZeroCopyBuffer seg_it page_size t st
  = bind (link seg_it (mkBuffer (TokenPtr t) seg_it page_size 0 0 0 false false false [] (Some t)))
      (fun b => bind (update_buffer b (set_b_size (token_size t))) (fun _ => ret b)) st.
Proof. reflexivity. Qed.

Lemma createZeroCopyBuffer_spec st key t :
  wf st -> chunk_index_ st !! key = None -> key <> [] ->
  let b := next_buffer st in
  let bf := new_buffer (TokenPtr t) (next_node st) (page_size_ cfg) (token_size t) (Some t) in
  exists st', createZeroCopyBuffer key t st = (Ok b, st') /\ wf st' /\ keeps [b] st st' /\
    buffers_ st' !! b = Some bf /\ named st' key b.
Proof.
  intros W Hk Hne b bf. pose proof config_bounds as (Hc & _).
  pose proof (new_buffer_ok st key (page_size_ cfg) (Some t) Hc) as Hok. cbv iota in Hok. fold bf in Hok.
  destruct (opened_wf st key bf W Hk Hne Hok eq_refl) as (W' & Hs & K).
  exists (opened st key bf). split; [|split_and!; auto].
  - set (bf0 := mkBuffer (TokenPtr t) (next_node st) (page_size_ cfg) 0 0 0 false false false [] (Some t)).
    pose proof (link_run st key bf0 (wf_layout _ W) eq_refl) as E.
    unfold createZeroCopyBuffer. unfold bind at 1. rewrite (new_unsized_seg_run st key Hk).
    rewrite allocateZeroCopyBuffer_link. fold bf0. unfold bind at 1. rewrite E. unfold bind, update_buffer, modify, ret; cbn.
    rewrite (alter_lookup _ _ _ _ (lookup_insert_eq _ _ _)), insert_insert_eq. reflexivity.
  - apply Hs.
  - exists (-1), (opened_seg st key). split; [apply Hs|]. auto.
Qed.

(** ** [createBuffer] *)

Lemma allocateBuffer_link seg_it page_size initial_size st :
  allocateBuffer seg_it page_size initial_size st
  = bind (link seg_it (mkBuffer NullPtr seg_it page_size 0 0 0 false false false [] None))
      (fun b => catch_oom
        (bind (if 0 <? initial_size then Buffer_reserve b initial_size else ret tt) (fun _ => ret b))
        (fun e => bind (delete_buffer_object b) (fun _ => throw e))) st.
Proof. reflexivity. Qed.

Definition actual_page_size (chunk_page_size : Z) : Z :=
  if chunk_page_size =? 0 then page_size_ cfg else chunk_page_size.

(** The outcomes: a new empty pinned buffer under [key]; or, out of memory, the pool as it
    was; or the search for space left the pool in an undefined state. *)
Definition create_post (st : Mgr) (key : ChunkKey) (chunk_page_size initial_size : Z)
    (r : result BMError Z * Mgr) : Prop :=
  match r with
  | (Ok b, st') => b = next_buffer st /\ wf st' /\ keeps [b] st st' /\ named st' key b /\
      exists bf, buffers_ st' !! b = Some bf /\ b_pin_count bf = 1 /\ b_size bf = 0 /\
        b_page_size bf = actual_page_size chunk_page_size /\
        initial_size <= b_page_size bf * b_num_pages bf
  | (Err e, st') =>
      if is_OutOfMemory e then
        wf st' /\ buffers_ st' = buffers_ st /\ chunk_index_ st' = chunk_index_ st /\
        slab_mem st' = slab_mem st
      else e = UndefinedBehavior /\ slab_segments_ st = []
  end.

(** The roll-back: the buffer object and the segment made for it are removed. *)
Definition rollback (key : ChunkKey) (e : BMError) : M Z :=
  (let! idx := gets chunk_index_ in
   match idx !! key with
   | None => throw CheckFailure
   | Some it => do! update_seg it (set_buffer None) in do! deleteBuffer key in throw e
   end)%bm.

Lemma rollback_run st key b bf e :
  wf st -> named st key b -> buffers_ st !! b = Some bf ->
  exists st', rollback key e (set_buffers_ (delete b (buffers_ st)) st) = (Err e, st') /\
    wf st' /\ buffers_ st' = delete b (buffers_ st) /\
    chunk_index_ st' = delete key (chunk_index_ st) /\ slab_mem st' = slab_mem st.
Proof.
  intros W Hn Hb. destruct (named_has st key b W Hn) as (i & s & bf1 & Hs & <-).
  destruct (has_ok st i s b bf1 W Hs) as (_ & _ & Hk). pose proof Hs as (Ho & Eb & _).
  destruct (removeSegment_closed st i s b bf1 W Hs) as (st' & Er & C).
  destruct (closed_wf st st' i s b bf1 W Hs C) as (W' & _ & _).
  exists st'. destruct C. split; [|auto].
  unfold rollback, bind at 1, gets; cbn [chunk_index_ set_buffers_]. rewrite Hk.
  unfold bind at 1, update_seg, modify at 1. unfold bind at 1, deleteBuffer.
  unfold bind at 1, gets; cbn [chunk_index_ set_unsized_segs_ set_slab_segments_ set_buffers_]. rewrite Hk.
  unfold bind at 1, modify at 1. unfold bind at 1.
  match goal with |- context [deref (node s) ?x] => change x with (unlinked st s b) end.
  assert (Hs1 : located (unlinked st s b) i (set_buffer None s)).
  { apply unlinked_located. exists s. split; [apply Ho|]. now rewrite Z.eqb_refl. }
  rewrite (deref_located (unlinked st s b) i (set_buffer None s)
             (unlinked_layout st i s b (wf_layout _ W) Ho) Hs1 : deref (node s) _ = _).
  cbn [buffer set_buffer]. unfold bind, ret. rewrite Er. reflexivity.
Qed.

(** The result of [createBuffer] once its buffer is allocated. *)
Definition result_buffer (key : ChunkKey) (initial_size : Z) : M Z :=
  (let! idx := gets chunk_index_ in
   let! it := require (idx !! key) in
   let! seg := deref it in
   let! b := require (buffer seg) in
   let! bf := get_buffer b in
   do! check ((initial_size =? 0) || negb (bool_decide (b_mem bf = NullPtr))) in
   ret b)%bm.

Lemma result_buffer_run st key b bf initial_size :
  wf st -> named st key b -> buffers_ st !! b = Some bf ->
  initial_size = 0 \/ b_mem bf <> NullPtr ->
  result_buffer key initial_size st = (Ok b, st).
Proof.
  intros W Hn Hb Hm. destruct (named_has st key b W Hn) as (i & s & bf1 & Hs & <-).
  destruct (has_ok st i s b bf1 W Hs) as (_ & _ & Hk). pose proof Hs as (Ho & Eb & _).
  unfold result_buffer, bind at 1, gets. unfold bind at 1. rewrite Hk. unfold require at 1, ret at 1.
  unfold bind at 1. rewrite (deref_located st i s (wf_layout _ W) (proj1 Ho)).
  unfold bind at 1. rewrite Eb. unfold require at 1, ret at 1. unfold bind at 1, get_buffer.
  rewrite Hb. unfold require, ret, bind, check.
  destruct (Z.eqb_spec initial_size 0); [reflexivity|].
  destruct Hm; [easy|]. rewrite bool_decide_false by assumption. reflexivity.
Qed.

Lemma createBuffer_unfold key chunk_page_size initial_size st :
  chunk_index_ st !! key = None ->
  createBuffer key chunk_page_size initial_size st
  = bind (catch_oom (allocateBuffer (next_node st) (actual_page_size chunk_page_size) initial_size)
            (rollback key)) (fun _ => result_buffer key initial_size) (listed st key).
Proof.
  intros E. unfold createBuffer. unfold bind at 1. rewrite (new_unsized_seg_run st key E). reflexivity.
Qed.

Lemma opened_named st key bf : named (opened st key bf) key (next_buffer st).
Proof. exists (-1), (opened_seg st key). split; [apply opened_owned; auto | auto]. Qed.

Lemma next_buffer_fresh st : wf st -> buffers_ st !! next_buffer st = None.
Proof.
  intros W. destruct (buffers_ st !! next_buffer st) as [bf|] eqn:E; [|reflexivity].
  destruct (ow_buffers _ _ (wf_own _ W) _ _ E). lia.
Qed.

(** The reservation inside the constructor of the buffer fails. *)
Lemma create_fails st key bf st1 e :
  wf st -> chunk_index_ st !! key = None -> b_token bf = None ->
  failed (opened st key bf) (next_buffer st) bf e st1 -> is_OutOfMemory e = true ->
  exists st', rollback key e (set_buffers_ (delete (next_buffer st) (buffers_ st1)) st1)
              = (Err e, st') /\
    wf st' /\ buffers_ st' = buffers_ st /\ chunk_index_ st' = chunk_index_ st /\
    slab_mem st' = slab_mem st.
Proof.
  intros W Hk Et (T & _ & Eb & Ei & Em) He. set (b := next_buffer st) in *.
  assert (Hn : named st1 key b) by (apply (td_named _ _ _ _ T), opened_named).
  destruct (rollback_run st1 key b _ e (td_wf _ _ _ _ T) Hn (td_buffer _ _ _ _ T))
    as (st' & Er & W' & Eb' & Ei' & Em').
  exists st'. split; [exact Er|split_and!; [exact W' | | | now rewrite Em', Em]].
  - rewrite Eb', Eb. cbn. rewrite insert_insert_eq, delete_insert_id; [reflexivity|].
    now apply next_buffer_fresh.
  - rewrite Ei', Ei. cbn. now apply delete_insert_id.
Qed.

Lemma createBuffer_spec st key chunk_page_size initial_size :
  wf st -> chunk_index_ st !! key = None -> key <> [] ->
  0 < actual_page_size chunk_page_size < 2147483648 -> 0 <= initial_size < 2305843009213693952 ->
  create_post st key chunk_page_size initial_size (createBuffer key chunk_page_size initial_size st).
Proof.
  intros W Hk Hne Hp Hn. set (ps := actual_page_size chunk_page_size) in *.
  set (b := next_buffer st). set (bf := new_buffer NullPtr (next_node st) ps 0 None).
  pose proof (new_buffer_ok st key ps None Hp) as Hok. cbv iota in Hok. fold bf in Hok.
  destruct (opened_wf st key bf W Hk Hne Hok eq_refl) as (W1 & Hs1 & K1). fold b in Hs1, K1.
  rewrite (createBuffer_unfold key chunk_page_size initial_size st Hk). fold ps.
  unfold bind at 1, catch_oom at 1. rewrite allocateBuffer_link. unfold bind at 1.
  rewrite (link_run st key (mkBuffer NullPtr (next_node st) ps 0 0 0 false false false [] None)
             (wf_layout _ W) eq_refl). fold b.
  change (set_b_pin_count 1 _) with bf.
  destruct (Z.ltb_spec 0 initial_size) as [Hpos|Hzero].
  - pose proof (Buffer_reserve_spec (opened st key bf) b bf initial_size W1 (proj2 (proj2 Hs1))
                  (or_introl eq_refl) (conj Hpos (proj2 Hn))) as Hr.
    unfold catch_oom at 1, bind at 1.
    destruct (Buffer_reserve b initial_size (opened st key bf)) as [[[]|e] st2]; cbn [reserve_post] in Hr.
    + destruct Hr as (bf2 & T & R & _ & Hfit). destruct (rf_mem _ _ R) as (k & o & Emem).
      assert (Hn2 : named st2 key b) by (apply (td_named _ _ _ _ T), opened_named).
      unfold ret. rewrite (result_buffer_run st2 key b bf2 initial_size (td_wf _ _ _ _ T) Hn2
        (td_buffer _ _ _ _ T)) by (right; congruence).
      split; [reflexivity|]. split; [apply (td_wf _ _ _ _ T)|].
      split; [exact (keeps_trans _ _ _ _ K1 (td_keeps _ _ _ _ T))|]. split; [exact Hn2|].
      exists bf2. split; [exact (td_buffer _ _ _ _ T)|]. destruct R. cbn in *. split_and!; auto; lia.
    + destruct (is_OutOfMemory e) eqn:Ee.
      * destruct (create_fails st key bf st2 e W Hk eq_refl Hr Ee) as (st' & Er & Hrest).
        fold b in Er. unfold bind, delete_buffer_object, modify, throw. rewrite Ee, Er.
        unfold create_post. rewrite Ee. exact Hrest.
      * rewrite Ee. unfold create_post. rewrite Ee.
        destruct Hr as (_ & [He|[-> He]] & _); [congruence|]. auto.
  - assert (initial_size = 0) as -> by lia. unfold catch_oom, bind at 1, ret.
    rewrite (result_buffer_run _ key b bf 0 W1 (opened_named st key bf) (proj2 (proj2 Hs1)))
      by now left.
    split; [reflexivity|]. split; [exact W1|]. split; [exact K1|]. split; [apply opened_named|].
    exists bf. split; [apply Hs1|]. cbn. split_and!; auto; lia.
Qed.

End Life.
