(* ===== verification/BufferFacts.v ===== *)
(** * The properties of the buffer pool

    The clients' protocol as a step relation, the invariant of every reachable pool, and
    the contracts of the operations of [BufferMgr] and [Buffer]. *)

From Stdlib Require Import ZArith Lia List Bool.
From stdpp Require Import base gmap list numbers.
From S2P Require Import Prelude StateMonad BufferMgr BufferInv BufferFind BufferScan BufferOps.
From S2P Require Import BufferClient BufferRW BufferLife.
Import ListNotations.
Local Open Scope Z_scope.

(** ** The protocol *)

Inductive Op :=
| OpCreate (key : ChunkKey) (page_size initial_size : Z)
| OpCreateZeroCopy (key : ChunkKey) (token : Z)
| OpDelete (key : ChunkKey)
| OpReserve (b num_bytes : Z)
| OpWrite (b : Z) (src : list Z) (offset : Z)
| OpAppend (b : Z) (src : list Z)
| OpRead (b num_bytes offset : Z)
| OpPin (b : Z)
| OpUnPin (b : Z).

Section Protocol.

Context `{PoolOk}.

Definition void {A : Type} (c : M A) : M unit := bind c (fun _ => ret tt).

Definition exec (o : Op) : M unit :=
  match o with
  | OpCreate key page_size initial_size => void (createBuffer key page_size initial_size)
  | OpCreateZeroCopy key token => void (createZeroCopyBuffer key token)
  | OpDelete key => deleteBuffer key
  | OpReserve b num_bytes => Buffer_reserve b num_bytes
  | OpWrite b src offset => Buffer_write b src offset
  | OpAppend b src => Buffer_append b src
  | OpRead b num_bytes offset => void (Buffer_read b num_bytes offset)
  | OpPin b => pin b
  | OpUnPin b => unPin b
  end.

Definition max_bytes : Z := 2305843009213693952.

(** What a client may call in a state: on existing buffers, changing only buffers it holds,
    without gaps, and with sizes that leave room in 64 bits. *)
Definition allowed (st : Mgr) (o : Op) : Prop :=
  match o with
  | OpCreate key page_size initial_size =>
      key <> [] /\ 0 < actual_page_size page_size < 2147483648 /\ 0 <= initial_size < max_bytes
  | OpCreateZeroCopy key _ => key <> []
  | OpDelete _ => True
  | OpReserve b num_bytes =>
      (exists bf, buffers_ st !! b = Some bf /\ held bf) /\ 0 < num_bytes < max_bytes
  | OpWrite b src offset =>
      (exists bf, buffers_ st !! b = Some bf /\ held bf /\ 0 <= offset <= b_size (untoken bf)) /\
      src <> [] /\ offset + Z.of_nat (length src) < max_bytes
  | OpAppend b src =>
      (exists bf, buffers_ st !! b = Some bf /\ held bf /\
                  b_size bf + Z.of_nat (length src) < max_bytes) /\ src <> []
  | OpRead b num_bytes offset =>
      (exists bf, buffers_ st !! b = Some bf) /\ 0 < num_bytes /\ 0 <= offset /\
      offset + num_bytes < max_bytes
  | OpPin b | OpUnPin b => exists bf, buffers_ st !! b = Some bf
  end.

(** A call that ends, normally or with an exception the caller can see. *)
Inductive step (st : Mgr) (o : Op) (st' : Mgr) : Prop :=
| step_call r : allowed st o -> exec o st = (r, st') -> r <> Err UndefinedBehavior -> step st o st'.

Inductive reachable : Mgr -> Prop :=
| reach_new st : BufferMgr_new cfg = Some st -> reachable st
| reach_step st o st' : reachable st -> step st o st' -> reachable st'.

Lemma BufferMgr_new_wf st : BufferMgr_new cfg = Some st -> wf st.
Proof.
  unfold BufferMgr_new. rewrite pool_checks. intros [= <-].
  assert (Hno : forall st i s, unsized_segs_ st = [] -> slab_segments_ st = [] -> ~ located st i s).
  { intros st i s E1 E2 [[_ Hs]|(_ & l & Hl & _)]; [rewrite E1 in Hs | rewrite E2 in Hl]; [|discriminate].
    now apply not_elem_of_nil in Hs. }
  pose proof config_bounds as (_ & _ & Hm & Hp). split; [split|split|]; cbn;
    try (intros; exfalso; match goal with
         | L : located _ _ _ |- _ => now apply Hno in L
         | L : owned _ _ _ _ |- _ => destruct L as [L _]; now apply Hno in L end).
  all: try (intros; discriminate).
  all: try lia; try reflexivity; try constructor.
  all: try (intros b Hb; now apply not_elem_of_nil in Hb).
  all: try (split; [reflexivity | lia]).
Qed.

(** The buffers an operation may change. *)
Definition target (st : Mgr) (o : Op) : list Z :=
  match o with
  | OpCreate _ _ _ | OpCreateZeroCopy _ _ => [next_buffer st]
  | OpDelete key =>
      match chunk_index_ st !! key with
      | Some n => match find_node n (all_segs st) with
                  | Some s => match buffer s with Some b => [b] | None => [] end
                  | None => []
                  end
      | None => []
      end
  | OpReserve b _ | OpWrite b _ _ | OpAppend b _ | OpPin b | OpUnPin b => [b]
  | OpRead _ _ _ => []
  end.

(** The outcome of an operation: undefined, or a sound pool in which the other buffers are
    as they were. *)
Definition sound (st : Mgr) (X : list Z) {A : Type} (r : result BMError A * Mgr) : Prop :=
  fst r = Err UndefinedBehavior \/ (wf (snd r) /\ keeps X st (snd r)).

Lemma sound_void st X {A : Type} (c : M A) : sound st X (c st) -> sound st X (void c st).
Proof.
  unfold sound, void, bind. destruct (c st) as [[a|e] st']; cbn;
    [|intros [[= ->]|Hs]; [now left | now right]].
  intros [E|Hs]; [discriminate | now right].
Qed.

Lemma sound_same st X {A : Type} (r : result BMError A) : wf st -> sound st X (r, st).
Proof. intros W. right. split; [exact W | apply keeps_refl]. Qed.

Lemma sound_touched st st' b bf {A : Type} (r : result BMError A) :
  touched st st' b bf -> sound st [b] (r, st').
Proof. intros T. right. split; [apply (td_wf _ _ _ _ T) | apply (td_keeps _ _ _ _ T)]. Qed.

(** The name of a buffer is in the index and in the buffer itself. *)
Lemma named_iff st key b :
  wf st -> named st key b <->
  exists bf, buffers_ st !! b = Some bf /\ chunk_index_ st !! key = Some (b_seg_it bf).
Proof.
  intros W. split.
  - intros Hn. destruct (named_has st key b W Hn) as (i & s & bf & Hs & <-).
    destruct (has_ok st i s b bf W Hs) as (_ & E & Hk). exists bf.
    split; [apply Hs | congruence].
  - intros (bf & Hb & Hk). destruct (buffer_has st b bf W Hb) as (i & s & Hs).
    destruct (has_ok st i s b bf W Hs) as (_ & E & _). rewrite E in Hk.
    destruct (ow_index _ _ (wf_own _ W) _ _ Hk) as (j & x & Hx & En & Ek).
    pose proof (owned_same [] st j x i s (wf_layout _ W) Hx (proj1 Hs) En) as ->.
    exists i, s. split; [apply Hs|]. split; [exact Ek | apply Hs].
Qed.

Lemma keeps_equal X st st' :
  wf st -> wf st' -> buffers_ st' = buffers_ st -> chunk_index_ st' = chunk_index_ st ->
  slab_mem st' = slab_mem st -> keeps X st st'.
Proof.
  intros W W' Eb Ei Em. split; rewrite ?Eb, ?Em; auto.
  intros key b _. rewrite !named_iff by assumption. now rewrite Eb, Ei.
Qed.

Lemma update_buffer_sound st b f bf :
  wf st -> buffers_ st !! b = Some bf ->
  (forall i s, buf_ok i s bf -> buf_ok i s (f bf)) -> b_seg_it (f bf) = b_seg_it bf ->
  sound st [b] (update_buffer b f st).
Proof.
  intros W Hb Hf Hit. rewrite (update_buffer_run b f st bf Hb).
  destruct (buffer_has st b bf W Hb) as (i & s & Hs). destruct (has_ok st i s b bf W Hs) as (Hok & E & _).
  apply (sound_touched st _ b (f bf)). apply (touched_set st i s b bf); auto. congruence.
Qed.

Lemma delete_sound st key : wf st -> sound st (target st (OpDelete key)) (deleteBuffer key st).
Proof.
  intros W. cbn [target]. destruct (chunk_index_ st !! key) as [n|] eqn:E.
  - destruct (ow_index _ _ (wf_own _ W) key n E) as (i & s & Hs & <- & <-).
    destruct (ow_seg _ _ (wf_own _ W) i s Hs) as (b & bf & Eb & Hb & _).
    rewrite (find_node_located st i s (wf_layout _ W) (proj1 Hs)), Eb.
    destruct (deleteBuffer_spec st (chunk_key s) b W) as (st' & -> & W' & K & _); [exists i, s; auto|].
    now right.
  - rewrite (deleteBuffer_absent st key E). now apply sound_same.
Qed.

Lemma create_sound st key page_size initial_size :
  wf st -> allowed st (OpCreate key page_size initial_size) ->
  sound st [next_buffer st] (createBuffer key page_size initial_size st).
Proof.
  intros W (Hne & Hp & Hn). destruct (chunk_index_ st !! key) as [n|] eqn:E.
  - replace (createBuffer key page_size initial_size st) with (@Err BMError Z CheckFailure, st);
      [now apply sound_same|].
    unfold createBuffer, new_unsized_seg, bind, gets, check. now rewrite bool_decide_false by congruence.
  - pose proof (createBuffer_spec st key page_size initial_size W E Hne Hp Hn) as Hc.
    destruct (createBuffer key page_size initial_size st) as [[b|e] st']; cbn [create_post] in Hc.
    + destruct Hc as (-> & W' & K & _). now right.
    + destruct (is_OutOfMemory e); [|left; cbn; now destruct Hc as [-> _]].
      destruct Hc as (W' & Eb & Ei & Em). right. split; [exact W' | now apply keeps_equal].
Qed.

Lemma createZeroCopy_sound st key t :
  wf st -> key <> [] -> sound st [next_buffer st] (createZeroCopyBuffer key t st).
Proof.
  intros W Hne. destruct (chunk_index_ st !! key) as [n|] eqn:E.
  - replace (createZeroCopyBuffer key t st) with (@Err BMError Z CheckFailure, st);
      [now apply sound_same|].
    unfold createZeroCopyBuffer, new_unsized_seg, bind, gets, check.
    now rewrite bool_decide_false by congruence.
  - destruct (createZeroCopyBuffer_spec st key t W E Hne) as (st' & -> & W' & K & _). now right.
Qed.

Lemma exec_sound st o : wf st -> allowed st o -> sound st (target st o) (exec o st).
Proof.
  intros W. destruct o as [key ps n|key t|key|b n|b src off|b src|b n off|b|b]; cbn [exec target].
  - intros Ha. now apply sound_void, create_sound.
  - intros Ha. now apply sound_void, createZeroCopy_sound.
  - intros _. now apply delete_sound.
  - intros ((bf & Hb & Hh) & Hn). pose proof (Buffer_reserve_spec st b bf n W Hb Hh Hn) as Hr.
    destruct (Buffer_reserve b n st) as [[[]|e] st']; cbn in Hr.
    + destruct Hr as (bf' & T & _). exact (sound_touched _ _ _ _ _ T).
    + destruct Hr as (T & _). exact (sound_touched _ _ _ _ _ T).
  - intros ((bf & Hb & Hh & Ho) & Hne & Hl). pose proof (Buffer_write_spec st b bf off src W Hb Hh Hne Ho Hl) as Hr.
    destruct (Buffer_write b src off st) as [[[]|e] st']; cbn in Hr.
    + destruct Hr as (bf' & T & _). exact (sound_touched _ _ _ _ _ T).
    + destruct Hr as (T & _). exact (sound_touched _ _ _ _ _ T).
  - intros ((bf & Hb & Hh & Hl) & Hne). pose proof (Buffer_append_spec st b bf src W Hb Hh Hne Hl) as Hr.
    destruct (Buffer_append b src st) as [[[]|e] st']; cbn in Hr.
    + destruct Hr as (bf' & T & _). exact (sound_touched _ _ _ _ _ T).
    + destruct Hr as (T & _). exact (sound_touched _ _ _ _ _ T).
  - intros ((bf & Hb) & Hn & Ho & Hl). apply sound_void.
    rewrite (Buffer_read_spec st b bf n off W Hb Hn Ho) by (unfold max_bytes in Hl; lia).
    now apply sound_same.
  - intros (bf & Hb). apply (update_buffer_sound st b _ bf W Hb); auto.
  - intros (bf & Hb). apply (update_buffer_sound st b _ bf W Hb); auto.
Qed.

Lemma reachable_wf st : reachable st -> wf st.
Proof.
  induction 1 as [st E|st o st' _ W [r Ha Er Nr]]; [now apply BufferMgr_new_wf|].
  pose proof (exec_sound st o W Ha) as [Eu|[W' _]]; rewrite Er in *; [now destruct Nr | exact W'].
Qed.

(** ** Accounting *)

(** The pages of the segments of [l] with the status [m]. *)
Fixpoint status_pages (m : MemStatus) (l : list BufferSeg) : Z :=
  match l with
  | [] => 0
  | s :: l' => (if bool_decide (mem_status s = m) then num_pages s else 0) + status_pages m l'
  end.

Lemma status_pages_sum l : status_pages USED l + status_pages FREE l = pages_of l.
Proof.
  induction l as [|s l IH]; cbn; [reflexivity|].
  destruct (mem_status s); repeat case_bool_decide; try discriminate; try congruence; lia.
Qed.

Lemma status_pages_range m a l e : tiled a l e -> 0 <= status_pages m l <= e - a.
Proof.
  revert a. induction l as [|s l IH]; intros a; cbn; [lia|]. intros (_ & ? & T).
  specialize (IH _ T). case_bool_decide; lia.
Qed.

Definition pool_pages_of (m : MemStatus) (st : Mgr) : Z :=
  sum_pages (map (status_pages m) (slab_segments_ st)).

(** The slabs of [ls] tile slabs of [ps] pages. *)
Lemma pool_sum ls ps :
  length ls = length ps -> (forall i l p, ls !! i = Some l -> ps !! i = Some p -> tiled 0 l p) ->
  sum_pages (map (status_pages USED) ls) + sum_pages (map (status_pages FREE) ls) = sum_pages ps /\
  0 <= sum_pages (map (status_pages USED) ls) /\ 0 <= sum_pages (map (status_pages FREE) ls).
Proof.
  revert ps. induction ls as [|l ls IH]; intros [|p ps] Hlen Ht; cbn in *; try lia.
  destruct (IH ps ltac:(lia) (fun i => Ht (S i))) as (E & ? & ?).
  pose proof (Ht 0%nat l p eq_refl eq_refl) as T. pose proof (status_pages_sum l).
  destruct (tiled_pages 0 l p T) as [-> _].
  pose proof (status_pages_range USED _ _ _ T). pose proof (status_pages_range FREE _ _ _ T).
  unfold sum_pages in *. lia.
Qed.

Lemma in_use_loop l acc a e :
  tiled a l e -> 0 <= acc -> acc + (e - a) * page_size_ cfg < 18446744073709551616 ->
  fold_left (fun in_use segment =>
      if is_free segment then in_use else u64 (in_use + num_pages segment * page_size_ cfg)) l acc
  = acc + status_pages USED l * page_size_ cfg.
Proof.
  pose proof page_size_pos as Hp. revert acc a. induction l as [|s l IH]; intros acc a; cbn; [lia|].
  intros (_ & Hs & T) Hacc Hb. pose proof (tiled_pages _ _ _ T) as [-> Hl].
  change (is_free s) with (bool_decide (mem_status s = FREE)). destruct (mem_status s); repeat case_bool_decide;
    try discriminate; try congruence.
  - rewrite (IH acc (a + num_pages s)); [lia | exact T | lia | nia].
  - rewrite u64_small by nia. rewrite (IH _ (a + num_pages s)); [lia | exact T | nia | nia].
Qed.

Lemma in_use_slabs ls ps acc :
  length ls = length ps -> (forall i l p, ls !! i = Some l -> ps !! i = Some p -> tiled 0 l p) ->
  0 <= acc -> acc + sum_pages ps * page_size_ cfg < 18446744073709551616 ->
  fold_left (fun in_use segment_list =>
    fold_left (fun in_use segment =>
      if is_free segment then in_use else u64 (in_use + num_pages segment * page_size_ cfg))
      segment_list in_use) ls acc
  = acc + sum_pages (map (status_pages USED) ls) * page_size_ cfg.
Proof.
  pose proof page_size_pos as Hp.
  revert ps acc. induction ls as [|l ls IH]; intros [|p ps] acc Hlen Ht Hacc Hb; cbn in *; try lia.
  pose proof (Ht 0%nat l p eq_refl eq_refl) as T. pose proof (status_pages_range USED _ _ _ T).
  destruct (pool_sum ls ps ltac:(lia) (fun i => Ht (S i))) as (E & ? & ?).
  unfold sum_pages in *. rewrite (in_use_loop l acc 0 p T Hacc) by nia.
  rewrite (IH ps); [lia | lia | exact (fun i => Ht (S i)) | nia | nia].
Qed.

Lemma slab_pages_tiled st :
  layout st -> length (slab_segments_ st) = length (slab_pages st) /\
  forall i l p, slab_segments_ st !! i = Some l -> slab_pages st !! i = Some p -> tiled 0 l p.
Proof.
  intros L. split.
  - unfold slab_pages. rewrite length_map. symmetry. apply (ly_len st L).
  - intros i l p Hl Hp. apply (ly_tiled st L i l p Hl Hp).
Qed.

Lemma accounting st :
  layout st ->
  getInUseSize st + pool_pages_of FREE st * page_size_ cfg = getAllocated st /\
  0 <= pool_pages_of FREE st /\ getAllocated st <= getMaxSize.
Proof.
  intros L. destruct (slab_pages_tiled st L) as [Hlen Ht]. destruct (ly_sum st L) as [Es Hs].
  pose proof config_bounds as (Bp & _ & _ & Bm).
  destruct (pool_sum _ _ Hlen Ht) as (E & H1 & H2). unfold pool_pages_of.
  assert (Bs : 0 <= num_pages_allocated_ st * page_size_ cfg < 18446744073709551616) by nia.
  unfold getInUseSize, getAllocated, getMaxSize.
  rewrite (in_use_slabs _ (slab_pages st) 0 Hlen Ht) by lia.
  rewrite !u64_small by nia. split; [nia|]. split; [exact H2 | nia].
Qed.

(** ** Disjointness *)

Lemma buffers_apart st b1 bf1 b2 bf2 k o1 o2 :
  wf st -> b1 <> b2 -> buffers_ st !! b1 = Some bf1 -> buffers_ st !! b2 = Some bf2 ->
  b_mem bf1 = SlabPtr k o1 -> b_mem bf2 = SlabPtr k o2 ->
  o1 + b_page_size bf1 * b_num_pages bf1 <= o2 \/ o2 + b_page_size bf2 * b_num_pages bf2 <= o1.
Proof.
  intros W Hne H1 H2 E1 E2.
  destruct (slab_has st b1 bf1 k o1 W H1 E1) as (s1 & Hs1 & Hk & ->).
  destruct (slab_has st b2 bf2 k o2 W H2 E2) as (s2 & Hs2 & _ & ->).
  destruct (has_ok st k s1 b1 bf1 W Hs1) as ((_ & _ & F1 & _) & _).
  destruct (has_ok st k s2 b2 bf2 W Hs2) as ((_ & _ & F2 & _) & _).
  assert (N : node s1 <> node s2).
  { intros E. destruct Hs1 as (O1 & B1 & _), Hs2 as (O2 & B2 & _).
    pose proof (owned_same [] st k s1 k s2 (wf_layout _ W) O1 O2 E). congruence. }
  pose proof page_size_pos.
  destruct (located_disjoint st k s1 s2 (wf_layout _ W) (proj1 (proj1 Hs1)) (proj1 (proj1 Hs2)) Hk N);
    [left|right]; nia.
Qed.

End Protocol.
