(* ===== verification/BufferProps.v ===== *)
(** * The contracts of the buffer pool *)

From Stdlib Require Import ZArith Lia List Bool.
From stdpp Require Import base gmap list numbers.
From S2P Require Import Prelude StateMonad BufferMgr BufferInv BufferFind BufferScan BufferOps.
From S2P Require Import BufferClient BufferRW BufferLife BufferFacts.
Import ListNotations.
Local Open Scope Z_scope.

(** ** A small pool

    64 pages of 64 bytes in slabs of 8 to 16 pages; every slab allocation succeeds. *)
Definition small_pool : PoolEnv :=
  {| cfg := mkConfig 4096 512 1024 64; alloc_ok := fun _ _ => true;
     token_size := fun t => Z.max 0 t; token_byte := fun _ i => i |}.

Lemma small_pool_ok : @PoolOk small_pool.
Proof. split; try (vm_compute; reflexivity). intros t. apply Z.le_max_l. Qed.

(** The pool after its construction and after the buffer of chunk [[1; 2]] is made. *)
Definition pool0 : Mgr := mkMgr [] [] [] ∅ ∅ (fun _ _ => 0) 0 16 false 0 0 0 0 0%nat.
Definition pool1 : Mgr := snd (@createBuffer small_pool [1; 2] 0 100 pool0).

Lemma pool0_reachable : @reachable small_pool pool0.
Proof. apply reach_new. reflexivity. Qed.

Lemma pool1_reachable : @reachable small_pool pool1.
Proof.
  apply (@reach_step small_pool pool0 (OpCreate [1; 2] 0 100)); [exact pool0_reachable|].
  apply (@step_call small_pool pool0 _ pool1 (Ok tt)); [|vm_compute; reflexivity | discriminate].
  cbn. split; [discriminate|]. vm_compute. repeat split; discriminate.
Qed.

Lemma pool1_buffer :
  exists bf, buffers_ pool1 !! 0 = Some bf /\ b_pin_count bf = 1 /\ b_size bf = 0 /\
    b_token bf = None.
Proof. eexists. split; [vm_compute; reflexivity|]. repeat split. Qed.

Section Contracts.

Context `{PoolOk}.

(** [C2] The invariant of the pool holds in every state reachable by the clients' protocol:
    the segments of every slab tile it, no two neighbouring ones are free, every used segment owns exactly one buffer,
    is the segment the chunk index gives for its key and holds the buffer's memory, and
    no other buffer or index entry exists. *)
Theorem pool_invariant (st : Mgr) : reachable st -> wf st.
Proof. exact (reachable_wf st). Qed.

(** [C8] An operation changes the buffers it is called on only: every other buffer that is
    left has the same state, name and bytes, and the pinned and zero-copy ones are all
    left, whatever was evicted. *)
Theorem step_isolation (st st' : Mgr) (o : Op) :
  reachable st -> step st o st' -> keeps (target st o) st st'.
Proof.
  intros Hr [r Ha Er Nr]. destruct (exec_sound st o (reachable_wf st Hr) Ha) as [E|[_ K]];
    rewrite Er in *; [now destruct Nr | exact K].
Qed.

(** The memory of two buffers in the same slab never overlaps. *)
Theorem buffers_disjoint (st : Mgr) (b1 b2 : Z) (bf1 bf2 : Buffer) (k o1 o2 : Z) :
  reachable st -> b1 <> b2 -> buffers_ st !! b1 = Some bf1 -> buffers_ st !! b2 = Some bf2 ->
  b_mem bf1 = SlabPtr k o1 -> b_mem bf2 = SlabPtr k o2 ->
  o1 + b_page_size bf1 * b_num_pages bf1 <= o2 \/ o2 + b_page_size bf2 * b_num_pages bf2 <= o1.
Proof. intros Hr. apply buffers_apart, reachable_wf, Hr. Qed.

(** The bytes in use and the free ones add up to the bytes allocated, which stay
    within the maximum of the pool. *)
Theorem pool_accounting (st : Mgr) :
  reachable st ->
  getInUseSize st + pool_pages_of FREE st * page_size_ cfg = getAllocated st /\
  0 <= pool_pages_of FREE st /\ getAllocated st <= getMaxSize.
Proof. intros Hr. apply accounting, (wf_layout _ (reachable_wf st Hr)). Qed.

(** Every outcome of [findFreeBuffer]: a used segment of the pages requested, taken
    from free space, a new slab or unpinned segments only; [TooBigForSlab]; out of memory
    only when no free segment, no new slab and no run of unpinned segments is large
    enough; or an access to the first slab of a pool that has none. *)
Theorem findFreeBuffer_outcomes (st : Mgr) (num_bytes : Z) :
  reachable st -> 0 < num_bytes < 4611686018427387904 ->
  find_outcome st num_bytes (findFreeBuffer num_bytes st).
Proof.
  intros Hr. pose proof (reachable_wf st Hr) as [L O _]. now apply findFreeBuffer_spec.
Qed.

(** The eviction scan finds the run of unpinned segments with the oldest latest touch
    among all the runs of sufficient size of all the slabs, or none when there is none. *)
Theorem eviction_scan_minimal (st : Mgr) (req : Z) :
  reachable st -> 0 < req ->
  exists best, scan_slabs (buffers_ st) req 0 (slab_segments_ st) (UINT64_MAX, None) = Some best /\
    (forall k suf mid, place st k suf -> window st req suf mid -> fst best <= window_score mid) /\
    match snd best with
    | Some (n, k) => exists s suf mid, place st k (s :: suf) /\ node s = n /\
        window st req (s :: suf) mid /\ window_score mid = fst best
    | None => forall k suf mid, place st k suf -> ~ window st req suf mid
    end.
Proof.
  intros Hr Hq. pose proof (reachable_wf st Hr) as [L O _].
  destruct (scan_pool st req L O Hq) as (best & E & Hb). exists best. split; [exact E|].
  pose proof Hb as [Hmin Hbest]. split; [exact Hmin|].
  destruct (snd best) as [[n k]|] eqn:Es; [exact Hbest|]. exact (no_window st req best L Hb Es).
Qed.

(** A reservation leaves the contents of the buffer as they were and makes the room
    asked for; when it fails for lack of memory it evicts nothing. *)
Theorem reserve_preserves_contents (st : Mgr) (b : Z) (bf : Buffer) (num_bytes : Z) :
  reachable st -> buffers_ st !! b = Some bf -> held bf -> b_token bf = None ->
  0 < num_bytes < max_bytes ->
  match Buffer_reserve b num_bytes st with
  | (Ok _, st') => exists bf', buffers_ st' !! b = Some bf' /\
      buffer_bytes (slab_mem st') bf' = buffer_bytes (slab_mem st) bf /\
      b_pin_count bf' = b_pin_count bf /\ b_size bf' = b_size bf /\
      num_bytes <= b_page_size bf' * b_num_pages bf'
  | (Err e, st') => reserve_error st e /\ buffers_ st' = buffers_ st /\ slab_mem st' = slab_mem st
  end.
Proof.
  intros Hr Hb Hh Ht Hn. pose proof (Buffer_reserve_spec st b bf num_bytes (reachable_wf st Hr) Hb Hh Hn) as Hp.
  assert (Eu : untoken bf = bf) by (unfold untoken; now rewrite Ht).
  destruct (Buffer_reserve b num_bytes st) as [[u|e] st']; cbn in Hp.
  - destruct Hp as (bf' & T & R & Eb & Hfit). rewrite Eu in *. destruct R. exists bf'.
    split; [exact (td_buffer _ _ _ _ T)|]. split_and!; auto; lia.
  - destruct Hp as (_ & He & Eb & _ & Em). rewrite Eu in Eb. split_and!; auto.
    rewrite Eb. now apply insert_id.
Qed.

(** [C15] A write to a held buffer succeeds or fails for lack of memory, evicting nothing;
    what was written is read back, the bytes around it are kept, and the pages written are
    marked dirty. *)
Theorem write_read_roundtrip (st : Mgr) (b : Z) (bf : Buffer) (off : Z) (src : list Z) :
  reachable st -> buffers_ st !! b = Some bf -> allowed st (OpWrite b src off) ->
  match Buffer_write b src off st with
  | (Ok _, st') =>
      Buffer_read b (Z.of_nat (length src)) off st' = (Ok src, st') /\
      exists bf', buffers_ st' !! b = Some bf' /\
        buffer_bytes (slab_mem st') bf'
        = overwrite (buffer_bytes (slab_mem st) (untoken bf)) (Z.to_nat off) src /\
        (forall i, off / b_page_size bf <= Z.of_nat i
                   <= (off + Z.of_nat (length src) - 1) / b_page_size bf ->
           nth i (b_page_dirty_flags bf') false = true)
  | (Err e, st') => reserve_error st e /\ buffers_ st' = <[b := untoken bf]> (buffers_ st)
  end.
Proof.
  intros Hr Hb ((bf0 & Hb0 & Hh & Ho) & Hne & Hl). simplify_eq. pose proof (reachable_wf st Hr) as W.
  pose proof (Buffer_write_spec st b bf off src W Hb Hh Hne Ho Hl) as Hp.
  destruct (Buffer_write b src off st) as [[u|e] st']; cbn in Hp; [|now destruct Hp as (_ & ? & ? & _)].
  destruct Hp as (bf' & T & Eb & _ & _ & Hflags). pose proof (td_wf _ _ _ _ T) as W'.
  pose proof (td_buffer _ _ _ _ T) as Hb'. split.
  - exact (read_overwritten st' b bf' _ off src W' Hb' Hne (proj1 Ho) Hl Eb
             (eq_ind_r (fun n => off <= n) (proj2 Ho) (untoken_length st b bf W Hb))).
  - exists bf'. split_and!; auto. intros i Hi. rewrite Hflags.
    destruct Hi as [H1 H2]. apply Z.leb_le in H1, H2. rewrite H1, H2. apply orb_true_r.
Qed.

(** Appending puts the bytes behind the contents of the buffer, marks it appended and
    dirty, and fails only for lack of memory; a zero-copy buffer loses its contents. *)
Theorem append_contents (st : Mgr) (b : Z) (bf : Buffer) (src : list Z) :
  reachable st -> buffers_ st !! b = Some bf -> allowed st (OpAppend b src) ->
  match Buffer_append b src st with
  | (Ok _, st') => exists bf', buffers_ st' !! b = Some bf' /\
      buffer_bytes (slab_mem st') bf'
      = (match b_token bf with Some _ => [] | None => buffer_bytes (slab_mem st) bf end) ++ src /\
      b_is_dirty bf' = true /\ b_is_appended bf' = true /\ b_pin_count bf' = b_pin_count bf
  | (Err e, st') => reserve_error st e /\ slab_mem st' = slab_mem st /\
      chunk_index_ st' = chunk_index_ st
  end.
Proof.
  intros Hr Hb ((bf0 & Hb0 & Hh & Hl) & Hne). simplify_eq.
  pose proof (Buffer_append_spec st b bf src (reachable_wf st Hr) Hb Hh Hne Hl) as Hp.
  destruct (Buffer_append b src st) as [[u|e] st']; cbn in Hp;
    [|destruct Hp as (_ & ? & _ & ? & ?); auto].
  destruct Hp as (bf' & T & Eb & Hrest). exists bf'. split; [exact (td_buffer _ _ _ _ T)|].
  split; [|tauto]. rewrite Eb. unfold untoken. now destruct (b_token bf).
Qed.


(** [deleteBuffer] removes the buffer and the index entry of an existing key and keeps
    every other buffer; under an unknown key it fails. *)
Theorem deleteBuffer_contract (st : Mgr) (key : ChunkKey) :
  reachable st ->
  match chunk_index_ st !! key with
  | Some _ => exists b st', deleteBuffer key st = (Ok tt, st') /\ named st key b /\
      buffers_ st' !! b = None /\ chunk_index_ st' !! key = None /\ keeps [b] st st'
  | None => deleteBuffer key st = (Err CheckFailure, st)
  end.
Proof.
  intros Hr. pose proof (reachable_wf st Hr) as W.
  destruct (chunk_index_ st !! key) as [n|] eqn:E; [|now apply deleteBuffer_absent].
  destruct (ow_index _ _ (wf_own _ W) key n E) as (i & s & Hs & _ & <-).
  destruct (ow_seg _ _ (wf_own _ W) i s Hs) as (b & bf & Eb & _).
  assert (Hn : named st (chunk_key s) b) by (exists i, s; auto).
  destruct (deleteBuffer_spec st (chunk_key s) b W Hn) as (st' & Ed & _ & K & _ & Hb & Hi).
  exists b, st'. auto 10.
Qed.

Lemma add_slab_loop_small fuel req num_slabs st :
  allocations_capped_ st = false -> num_pages_allocated_ st = 0 ->
  current_max_slab_page_size_ st = max_num_pages_per_slab_ cfg ->
  max_buffer_pool_num_pages_ cfg < req <= max_num_pages_per_slab_ cfg ->
  exists st', add_slab_loop (S fuel) req num_slabs st = (Ok None, st') /\
    allocations_capped_ st' = false /\ slab_segments_ st' = slab_segments_ st.
Proof.
  intros E1 E2 E3 Hr. cbn [add_slab_loop]. unfold bind at 1, gets, id. rewrite E1, E2, E3. cbn [negb andb].
  destruct (Z.ltb_spec 0 (max_buffer_pool_num_pages_ cfg)); [|now exists st].
  rewrite Z.sub_0_r.
  destruct (Z.ltb_spec (max_buffer_pool_num_pages_ cfg) (max_num_pages_per_slab_ cfg)); [|lia].
  unfold bind at 1, modify. unfold bind at 1, gets.
  change (current_max_slab_page_size_ (set_current_max_slab_page_size_ ?v st)) with v. cbv beta iota.
  destruct (Z.leb_spec req (max_buffer_pool_num_pages_ cfg)); [lia|].
  eexists. split; [reflexivity|]. now split.
Qed.

(** In a new pool, a request for more pages than the pool may ever have, but no more
    than a slab, reads the first slab of an empty list of slabs. *)
Theorem findFreeBuffer_empty_pool (st : Mgr) (num_bytes : Z) :
  BufferMgr_new cfg = Some st ->
  max_buffer_pool_num_pages_ cfg < pages_for num_bytes <= max_num_pages_per_slab_ cfg ->
  fst (findFreeBuffer num_bytes st) = Err UndefinedBehavior.
Proof.
  unfold BufferMgr_new. rewrite pool_checks. intros [= <-] Hr. pose proof config_bounds as (_ & _ & _ & Bm).
  unfold findFreeBuffer. destruct (Z.ltb_spec (max_num_pages_per_slab_ cfg) (pages_for num_bytes)); [lia|].
  unfold bind at 1, gets; cbn [length slab_segments_]. unfold bind at 1; cbn [find_in_slabs ret].
  unfold bind at 1, add_slab_fuel.
  match goal with |- context [add_slab_loop 70 _ _ ?s] => set (st0 := s) end.
  destruct (add_slab_loop_small 69 (pages_for num_bytes) (Z.of_nat 0) st0 eq_refl eq_refl eq_refl Hr)
    as (st1 & -> & Ec & Es).
  unfold bind at 1, gets, id. rewrite Ec, andb_false_r. unfold bind, get_slab. now rewrite Es.
Qed.

End Contracts.

(** ** The contracts in the small pool *)

(** Two buffers, the second one written. *)
Definition pool2 : Mgr := snd (@createBuffer small_pool [1; 3] 0 64 pool1).

Lemma pool2_step : @step small_pool pool1 (OpCreate [1; 3] 0 64) pool2.
Proof.
  apply (@step_call small_pool pool1 _ pool2 (Ok tt)); [|vm_compute; reflexivity | discriminate].
  cbn. split; [discriminate|]. vm_compute. repeat split; discriminate.
Qed.

Lemma pool2_reachable : @reachable small_pool pool2.
Proof. exact (@reach_step small_pool pool1 _ pool2 pool1_reachable pool2_step). Qed.

(** The [n]-th buffer of [st]. *)
Definition buffer_at (st : Mgr) (b : Z) : Buffer :=
  match buffers_ st !! b with
  | Some bf => bf
  | None => mkBuffer NullPtr 0 0 0 0 0 false false false [] None
  end.

Lemma write_allowed : @allowed small_pool pool1 (OpWrite 0 [7; 8; 9] 0).
Proof.
  split; [|split; [discriminate | reflexivity]]. exists (buffer_at pool1 0).
  split; [vm_compute; reflexivity|]. split; [left; vm_compute; reflexivity|].
  vm_compute. split; discriminate.
Qed.

Lemma append_allowed : @allowed small_pool pool1 (OpAppend 0 [7; 8; 9]).
Proof.
  split; [|discriminate]. exists (buffer_at pool1 0).
  split; [vm_compute; reflexivity|]. split; [left; vm_compute; reflexivity|].
  vm_compute. reflexivity.
Qed.

Lemma create_allowed : @allowed small_pool pool1 (OpCreate [1; 3] 0 64).
Proof. cbn. split; [discriminate|]. vm_compute. repeat split; discriminate. Qed.

Lemma pool_invariant_witness : @wf small_pool pool2.
Proof. exact (@pool_invariant small_pool small_pool_ok pool2 pool2_reachable). Defined.

Lemma step_isolation_witness : @keeps small_pool [1] pool1 pool2.
Proof.
  exact (@step_isolation small_pool small_pool_ok pool1 pool2 _ pool1_reachable pool2_step).
Defined.

Lemma buffers_disjoint_witness : 0 + 64 * 2 <= 128 \/ 128 + 64 * 1 <= 0.
Proof.
  exact (@buffers_disjoint small_pool small_pool_ok pool2 0 1 (buffer_at pool2 0) (buffer_at pool2 1)
    0 0 128 pool2_reachable ltac:(discriminate) ltac:(vm_compute; reflexivity)
    ltac:(vm_compute; reflexivity) ltac:(vm_compute; reflexivity) ltac:(vm_compute; reflexivity)).
Defined.

Lemma pool_accounting_witness :
  @getInUseSize small_pool pool2 = 192 /\
  192 + pool_pages_of FREE pool2 * 64 = 1024 /\ 1024 <= @getMaxSize small_pool.
Proof.
  split; [vm_compute; reflexivity|].
  destruct (@pool_accounting small_pool small_pool_ok pool2 pool2_reachable) as (E & _ & Hle).
  split; [exact E | exact Hle].
Defined.

Lemma findFreeBuffer_outcomes_witness :
  @find_outcome small_pool pool2 1000 (@findFreeBuffer small_pool 1000 pool2).
Proof.
  apply (@findFreeBuffer_outcomes small_pool small_pool_ok pool2 1000 pool2_reachable). lia.
Defined.

Lemma eviction_scan_minimal_witness :
  exists best, scan_slabs (buffers_ pool2) 4 0 (slab_segments_ pool2) (UINT64_MAX, None) = Some best.
Proof.
  destruct (@eviction_scan_minimal small_pool small_pool_ok pool2 4 pool2_reachable) as (best & E & _);
    [lia|]. exists best. exact E.
Defined.

Lemma reserve_preserves_contents_witness :
  match @Buffer_reserve small_pool 0 600 pool1 with
  | (Ok _, st') => exists bf', buffers_ st' !! 0 = Some bf' /\ 600 <= b_page_size bf' * b_num_pages bf'
  | _ => False
  end.
Proof.
  pose proof (@reserve_preserves_contents small_pool small_pool_ok pool1 0 (buffer_at pool1 0) 600
    pool1_reachable ltac:(vm_compute; reflexivity) ltac:(left; vm_compute; reflexivity)
    ltac:(vm_compute; reflexivity) ltac:(vm_compute; split; reflexivity)) as T.
  assert (E : exists st', @Buffer_reserve small_pool 0 600 pool1 = (Ok tt, st'))
    by (eexists; vm_compute; reflexivity).
  destruct E as [st' E]. rewrite E in *. destruct T as (bf' & H1 & _ & _ & _ & H2). now exists bf'.
Defined.

Lemma write_read_roundtrip_witness :
  exists st', @Buffer_write small_pool 0 [7; 8; 9] 0 pool1 = (Ok tt, st') /\
    @Buffer_read small_pool 0 3 0 st' = (Ok [7; 8; 9], st').
Proof.
  pose proof (@write_read_roundtrip small_pool small_pool_ok pool1 0 (buffer_at pool1 0) 0 [7; 8; 9]
    pool1_reachable ltac:(vm_compute; reflexivity) write_allowed) as T.
  assert (E : exists st', @Buffer_write small_pool 0 [7; 8; 9] 0 pool1 = (Ok tt, st'))
    by (eexists; vm_compute; reflexivity).
  destruct E as [st' E]. exists st'. rewrite E in *. split; [reflexivity | exact (proj1 T)].
Defined.

Lemma append_contents_witness :
  exists st', @Buffer_append small_pool 0 [7; 8; 9] pool1 = (Ok tt, st') /\
    exists bf', buffers_ st' !! 0 = Some bf' /\
      @buffer_bytes small_pool (slab_mem st') bf'
      = @buffer_bytes small_pool (slab_mem pool1) (buffer_at pool1 0) ++ [7; 8; 9].
Proof.
  pose proof (@append_contents small_pool small_pool_ok pool1 0 (buffer_at pool1 0) [7; 8; 9]
    pool1_reachable ltac:(vm_compute; reflexivity) append_allowed) as T.
  assert (E : exists st', @Buffer_append small_pool 0 [7; 8; 9] pool1 = (Ok tt, st'))
    by (eexists; vm_compute; reflexivity).
  destruct E as [st' E]. exists st'. rewrite E in *. split; [reflexivity|].
  destruct T as (bf' & H1 & H2 & _). exists bf'. split; [exact H1 | exact H2].
Defined.


Lemma deleteBuffer_contract_witness :
  exists b st', @deleteBuffer [1; 3] pool2 = (Ok tt, st') /\ named pool2 [1; 3] b /\
    buffers_ st' !! b = None /\ chunk_index_ st' !! [1; 3] = None /\ @keeps small_pool [b] pool2 st'.
Proof.
  pose proof (@deleteBuffer_contract small_pool small_pool_ok pool2 [1; 3] pool2_reachable) as T.
  assert (E : exists n, chunk_index_ pool2 !! [1; 3] = Some n) by (eexists; vm_compute; reflexivity).
  destruct E as [n E]. rewrite E in T. exact T.
Defined.

(** A pool smaller than its slabs. *)
Definition tiny_pool : PoolEnv :=
  {| cfg := mkConfig 512 512 1024 64; alloc_ok := fun _ _ => true;
     token_size := fun t => Z.max 0 t; token_byte := fun _ i => i |}.

Lemma tiny_pool_ok : @PoolOk tiny_pool.
Proof. split; try (vm_compute; reflexivity). intros t. apply Z.le_max_l. Qed.

Lemma findFreeBuffer_empty_pool_witness :
  fst (@findFreeBuffer tiny_pool 1000 pool0) = Err UndefinedBehavior.
Proof.
  apply (@findFreeBuffer_empty_pool tiny_pool tiny_pool_ok pool0 1000);
    [reflexivity | vm_compute; split; [reflexivity | discriminate]].
Defined.
