(* ===== verification/StringLike.v ===== *)
(** * LIKE matching and string comparison ([Utils/StringLike.cpp])

    A string argument is the list of its [char]s, each a signed 8-bit integer; the length
    passed beside the pointer is the length of the list.  A null pointer is [None]. *)

From Stdlib Require Import ZArith List Bool.
From S2P Require Import Prelude.
Import ListNotations.
Local Open Scope Z_scope.

Inductive LikeStatus := kLIKE_TRUE | kLIKE_FALSE | kLIKE_ABORT | kLIKE_ERROR.

(** Character codes. *)
Definition ch_percent : Z := 37.
Definition ch_underscore : Z := 95.
Definition ch_open : Z := 91.
Definition ch_close : Z := 93.

Definition lowercase (c : Z) : Z := if (65 <=? c) && (c <=? 90) then 97 + (c - 65) else c.

(** ** Substring search *)

(** The inner loop: the first [j] at which [pattern] and [str] at [i] differ, or [pat_len].
    [fold] is the identity or [lowercase]. *)
Fixpoint simple_inner (fuel : nat) (fold : Z -> Z) (str pattern : list Z) (i j : nat) : nat :=
  match fuel with
  | O => j
  | S fuel' =>
      if (j <? length pattern)%nat && (nth j pattern 0 =? fold (nth (j + i) str 0))
      then simple_inner fuel' fold str pattern i (S j)
      else j
  end.

(** The outer loop over the [n] positions from [i] on. *)
Fixpoint simple_outer (n : nat) (fold : Z -> Z) (str pattern : list Z) (i : nat) : bool :=
  match n with
  | O => false
  | S n' =>
      let j := simple_inner (S (length pattern)) fold str pattern i 0 in
      if (length pattern <=? j)%nat then true else simple_outer n' fold str pattern (S i)
  end.

Definition search_len (str pattern : list Z) : Z :=
  Z.of_nat (length str) - Z.of_nat (length pattern) + 1.

Definition string_like_simple (str pattern : list Z) : bool :=
  simple_outer (Z.to_nat (search_len str pattern)) (fun c => c) str pattern 0.

Definition string_ilike_simple (str pattern : list Z) : bool :=
  simple_outer (Z.to_nat (search_len str pattern)) lowercase str pattern 0.

(** ** LIKE *)

Section Like.

Context (escape_char : Z) (is_ilike : bool).

(** The comparisons of [*s] with a pattern character. *)
Definition char_matches (s p : Z) : bool := if is_ilike then lowercase s =? p else s =? p.

(** The loop after a ['%']: wildcards are skipped, each ['_'] with a character; [None] is
    the early [kLIKE_ABORT]. *)
Fixpoint skip_wildcards (s p : list Z) : option (list Z * list Z) :=
  match p with
  | [] => Some (s, p)
  | q :: p' =>
      if q =? ch_percent then skip_wildcards s p'
      else if q =? ch_underscore then
        match s with
        | [] => None
        | _ :: s' => skip_wildcards s' p'
        end
      else Some (s, p)
  end.

(** The scan of a character set from [pp]: the position of a character equal to [c] before
    the first closing bracket, with what is left of the pattern there. *)
Inductive SetScan := SetFound (rest : list Z) | SetClosed | SetOpen.

Fixpoint scan_set (c : Z) (pp : list Z) : SetScan :=
  match pp with
  | [] => SetOpen
  | q :: pp' =>
      if q =? ch_close then SetClosed
      else if char_matches c q then SetFound pp'
      else scan_set c pp'
  end.

(** The pattern behind the first closing bracket. *)
Fixpoint after_set (x : list Z) : option (list Z) :=
  match x with
  | [] => None
  | q :: x' => if q =? ch_close then Some x' else after_set x'
  end.

(** The first character to look for after the wildcards; [None] is [kLIKE_ERROR]. *)
Definition first_pat (p : list Z) : option Z :=
  match p with
  | [] => None
  | q :: p' => if q =? escape_char then match p' with [] => None | q' :: _ => Some q' end
               else Some q
  end.

(** Whether [string_like_match] is worth a try at the character [c]; [None] is
    [kLIKE_ERROR]. *)
Definition try_here (c : Z) (p : list Z) (firstpat : Z) : option bool :=
  match p with
  | q :: p' =>
      if (firstpat =? ch_open) && negb (q =? escape_char) then
        match scan_set c p' with
        | SetFound _ => Some true
        | SetClosed => Some false
        | SetOpen => None
        end
      else Some (char_matches c firstpat)
  | [] => None
  end.

(** The loop over the string after the wildcards, with [match_at] the recursive call. *)
Fixpoint scan_string (match_at : list Z -> option LikeStatus) (p : list Z) (firstpat : Z)
    (s : list Z) : option LikeStatus :=
  match s with
  | [] => Some kLIKE_ABORT
  | c :: s' =>
      match try_here c p firstpat with
      | None => Some kLIKE_ERROR
      | Some true =>
          match match_at s with
          | Some kLIKE_FALSE => scan_string match_at p firstpat s'
          | r => r
          end
      | Some false => scan_string match_at p firstpat s'
      end
  end.

(** The end of the function, when the string or the pattern is exhausted. *)
Fixpoint only_percent (p : list Z) : bool :=
  match p with
  | [] => true
  | q :: p' => (q =? ch_percent) && only_percent p'
  end.

(** [string_like_match]; [fuel] bounds the pattern characters visited and [None] says that
    it ran out. *)
Fixpoint like_match (fuel : nat) (s p : list Z) : option LikeStatus :=
  match fuel with
  | O => None
  | S fuel' =>
      match s, p with
      | c :: s', q :: p' =>
          if q =? escape_char then
            match p' with
            | [] => Some kLIKE_ERROR
            | q' :: p'' => if char_matches c q' then like_match fuel' s' p'' else Some kLIKE_FALSE
            end
          else if q =? ch_percent then
            match skip_wildcards s p' with
            | None => Some kLIKE_ABORT
            | Some (s1, []) => Some kLIKE_TRUE
            | Some (s1, p1) =>
                match first_pat p1 with
                | None => Some kLIKE_ERROR
                | Some firstpat => scan_string (fun x => like_match fuel' x p1) p1 firstpat s1
                end
            end
          else if q =? ch_underscore then like_match fuel' s' p'
          else if q =? ch_open then
            match scan_set c p' with
            | SetFound rest =>
                match after_set rest with
                | None => Some kLIKE_ERROR
                | Some p'' => like_match fuel' s' p''
                end
            | _ => Some kLIKE_FALSE
            end
          else if char_matches c q then like_match fuel' s' p'
          else Some kLIKE_FALSE
      | _ :: _, [] => Some kLIKE_FALSE
      | [], _ => Some (if only_percent p then kLIKE_TRUE else kLIKE_ABORT)
      end
  end.

Definition string_like_match (s p : list Z) : option LikeStatus := like_match (S (length p)) s p.

End Like.

Definition is_true_status (r : option LikeStatus) : bool :=
  match r with Some kLIKE_TRUE => true | _ => false end.

Definition string_like (str pattern : list Z) (escape_char : Z) : bool :=
  is_true_status (string_like_match escape_char false str pattern).

Definition string_ilike (str pattern : list Z) (escape_char : Z) : bool :=
  is_true_status (string_like_match escape_char true str pattern).

(** ** Comparison *)

(** The loop over the common prefix, then the difference of the next characters taken as
    [unsigned char], 0 at the end of a string. *)
Fixpoint StringCompare (s1 s2 : list Z) : Z :=
  match s1, s2 with
  | c1 :: s1', c2 :: s2' => if c1 =? c2 then StringCompare s1' s2' else u8 c1 - u8 c2
  | c1 :: _, [] => u8 c1
  | [], c2 :: _ => - u8 c2
  | [], [] => 0
  end.

Definition string_lt (lhs rhs : list Z) : bool := StringCompare lhs rhs <? 0.
Definition string_le (lhs rhs : list Z) : bool := StringCompare lhs rhs <=? 0.
Definition string_gt (lhs rhs : list Z) : bool := 0 <? StringCompare lhs rhs.
Definition string_ge (lhs rhs : list Z) : bool := 0 <=? StringCompare lhs rhs.
Definition string_eq (lhs rhs : list Z) : bool := StringCompare lhs rhs =? 0.
Definition string_ne (lhs rhs : list Z) : bool := negb (StringCompare lhs rhs =? 0).

(** The [_nullable] entry points. *)
Definition nullable {A : Type} (base_func : A -> A -> bool) (lhs rhs : option A) (bool_null : Z)
    : Z :=
  match lhs, rhs with
  | Some l, Some r => if base_func l r then 1 else 0
  | _, _ => bool_null
  end.

Definition string_like_simple_nullable := nullable string_like_simple.
Definition string_ilike_simple_nullable := nullable string_ilike_simple.
Definition string_like_nullable (lhs rhs : option (list Z)) (escape_char bool_null : Z) : Z :=
  nullable (fun l r => string_like l r escape_char) lhs rhs bool_null.
Definition string_ilike_nullable (lhs rhs : option (list Z)) (escape_char bool_null : Z) : Z :=
  nullable (fun l r => string_ilike l r escape_char) lhs rhs bool_null.
Definition string_lt_nullable := nullable string_lt.
Definition string_le_nullable := nullable string_le.
Definition string_gt_nullable := nullable string_gt.
Definition string_ge_nullable := nullable string_ge.
Definition string_eq_nullable := nullable string_eq.
Definition string_ne_nullable := nullable string_ne.
