(* ===== verification/StringLikeFacts.v ===== *)
(** * LIKE against its meaning

    A pattern is a list of tokens; [Matches] says which strings a list of tokens denotes.
    The matcher returns [kLIKE_TRUE] exactly on those, and [kLIKE_ABORT] only when no
    suffix of the string matches either, which is why its callers may stop there. *)

From Stdlib Require Import ZArith Lia List Bool.
From S2P Require Import Prelude StringLike.
Import ListNotations.
Local Open Scope Z_scope.

Inductive Token := TLit (c : Z) | TAny | TOne | TSet (chars : list Z).

Definition is_any (t : Token) : bool := match t with TAny => true | _ => false end.

Section Meaning.

Context (escape_char : Z) (is_ilike : bool).

#[local] Abbreviation char_matches := (char_matches is_ilike).
#[local] Abbreviation like_match := (like_match escape_char is_ilike).

(** ** Patterns *)

(** [set] is the character set being read, in reverse; [None] outside of one. *)
Fixpoint parse_from (set : option (list Z)) (p : list Z) : option (list Token) :=
  match set, p with
  | None, [] => Some []
  | Some _, [] => None
  | Some cs, q :: p' =>
      if q =? ch_close then option_map (cons (TSet (rev cs))) (parse_from None p')
      else parse_from (Some (q :: cs)) p'
  | None, q :: p' =>
      if q =? escape_char then
        match p' with
        | [] => None
        | q' :: p'' => option_map (cons (TLit q')) (parse_from None p'')
        end
      else if q =? ch_percent then option_map (cons TAny) (parse_from None p')
      else if q =? ch_underscore then option_map (cons TOne) (parse_from None p')
      else if q =? ch_open then parse_from (Some []) p'
      else option_map (cons (TLit q)) (parse_from None p')
  end.

Definition parse (p : list Z) : option (list Token) := parse_from None p.

(** Whether a token other than ['%'] accepts a character. *)
Definition accepts (t : Token) (c : Z) : bool :=
  match t with
  | TLit q => char_matches c q
  | TOne => true
  | TSet cs => existsb (char_matches c) cs
  | TAny => false
  end.

Inductive Matches : list Token -> list Z -> Prop :=
| M_nil : Matches [] []
| M_char t ts c s : accepts t c = true -> Matches ts s -> Matches (t :: ts) (c :: s)
| M_any pre ts s : Matches ts s -> Matches (TAny :: ts) (pre ++ s).

(** ** Laws of [Matches] *)

Lemma Matches_char t ts s :
  is_any t = false ->
  Matches (t :: ts) s <-> exists c s', s = c :: s' /\ accepts t c = true /\ Matches ts s'.
Proof.
  intros Ht. split.
  - intros Hm. inversion Hm; subst; [eauto | discriminate].
  - intros (c & s' & -> & Ha & Hm). now constructor.
Qed.

Lemma Matches_any ts s : Matches (TAny :: ts) s <-> exists pre s', s = pre ++ s' /\ Matches ts s'.
Proof.
  split.
  - intros Hm. inversion Hm; subst; [discriminate | eauto].
  - intros (pre & s' & -> & Hm). now constructor.
Qed.

Lemma Matches_any_nil s : Matches [TAny] s.
Proof. rewrite <- (app_nil_r s). constructor. constructor. Qed.

Lemma Matches_any_extend ts pre s : Matches (TAny :: ts) s -> Matches (TAny :: ts) (pre ++ s).
Proof.
  rewrite !Matches_any. intros (pre' & s' & -> & Hm). exists (pre ++ pre'), s'.
  now rewrite app_assoc.
Qed.

Lemma Matches_any_any ts s : Matches (TAny :: TAny :: ts) s <-> Matches (TAny :: ts) s.
Proof.
  split.
  - rewrite (Matches_any (TAny :: ts)). intros (pre & s' & -> & Hm). now apply Matches_any_extend.
  - intros Hm. rewrite Matches_any. now exists [], s.
Qed.

Lemma Matches_any_cons ts c s :
  Matches (TAny :: ts) (c :: s) <-> Matches ts (c :: s) \/ Matches (TAny :: ts) s.
Proof.
  rewrite !Matches_any. split.
  - intros ([|d pre] & s' & E & Hm); cbn in E; [left; now rewrite E | right].
    injection E as <- ->. eauto.
  - intros [Hm|(pre & s' & -> & Hm)]; [now exists [], (c :: s) | now exists (c :: pre), s'].
Qed.

Lemma Matches_any_one ts c s :
  Matches (TAny :: TOne :: ts) (c :: s) <-> Matches (TAny :: ts) s.
Proof.
  rewrite !Matches_any. split.
  - intros (pre & s' & E & Hm). apply Matches_char in Hm as (d & t & -> & _ & Hm); [|reflexivity].
    destruct pre as [|e pre]; cbn in E; injection E as -> ->; [now exists [], t|].
    exists (pre ++ [d]), t. now rewrite <- app_assoc.
  - intros (pre & s' & -> & Hm).
    destruct (exists_last (l := c :: pre) ltac:(discriminate)) as (pre' & d & E).
    exists pre', (d :: s'). split; [|now apply M_char].
    change (c :: pre ++ s') with ((c :: pre) ++ s'). rewrite E. now rewrite <- app_assoc.
Qed.

Lemma not_Matches_any_one_nil ts : ~ Matches (TAny :: TOne :: ts) [].
Proof.
  rewrite Matches_any. intros (pre & s' & E & Hm). symmetry in E. apply app_eq_nil in E as [-> ->].
  apply Matches_char in Hm as (? & ? & ? & _); [discriminate | reflexivity].
Qed.

(** ** Character sets *)

Lemma parse_set cs p ts :
  parse_from (Some cs) p = Some ts ->
  exists set rest ts', p = set ++ ch_close :: rest /\ ~ In ch_close set /\
    ts = TSet (rev cs ++ set) :: ts' /\ parse rest = Some ts'.
Proof.
  revert cs. induction p as [|q p IH]; intros cs; cbn [parse_from]; [discriminate|].
  destruct (Z.eqb_spec q ch_close) as [->|Nq].
  - destruct (parse_from None p) as [ts'|] eqn:E; [|discriminate]. intros [= <-].
    exists [], p, ts'. rewrite app_nil_r. auto.
  - intros E. destruct (IH _ E) as (set & rest & ts' & -> & Hn & -> & Hr).
    exists (q :: set), rest, ts'. cbn [rev]. rewrite <- app_assoc. cbn. intuition congruence.
Qed.

Lemma after_set_close set rest :
  ~ In ch_close set -> after_set (set ++ ch_close :: rest) = Some rest.
Proof.
  induction set as [|q set IH]; cbn; [reflexivity|]. intros Hn.
  destruct (Z.eqb_spec q ch_close); [tauto | auto].
Qed.

Lemma scan_set_close c set rest :
  ~ In ch_close set ->
  if existsb (char_matches c) set
  then exists r, scan_set is_ilike c (set ++ ch_close :: rest) = SetFound r /\
                 after_set r = Some rest
  else scan_set is_ilike c (set ++ ch_close :: rest) = SetClosed.
Proof.
  induction set as [|q set IH]; cbn; [reflexivity|]. intros Hn.
  destruct (Z.eqb_spec q ch_close); [tauto|]. destruct (char_matches c q); cbn; [|apply IH; tauto].
  exists (set ++ ch_close :: rest). split; [reflexivity|]. apply after_set_close. tauto.
Qed.

(** ** One character of the pattern *)

(** The pattern starts with the token [t] for one character, and goes on with [rest]. *)
Record starts (p : list Z) (t : Token) (rest : list Z) (ts : list Token) : Prop := {
  st_char : is_any t = false;
  st_rest : parse rest = Some ts;
  st_shorter : (length rest < length p)%nat;
  st_match : forall fuel c s,
    like_match (S fuel) (c :: s) p
    = if accepts t c then like_match fuel s rest else Some kLIKE_FALSE;
  st_try : t <> TOne -> exists fp, first_pat escape_char p = Some fp /\
    forall c, try_here escape_char is_ilike c p fp = Some (accepts t c)
}.

Lemma try_open c p' :
  escape_char <> ch_open ->
  try_here escape_char is_ilike c (ch_open :: p') ch_open
  = match scan_set is_ilike c p' with
    | SetFound _ => Some true | SetClosed => Some false | SetOpen => None end.
Proof.
  intros Ne. cbn [try_here]. rewrite Z.eqb_refl. destruct (Z.eqb_spec ch_open escape_char); [congruence|].
  reflexivity.
Qed.

Lemma starts_set p' ts :
  escape_char <> ch_open -> parse_from (Some []) p' = Some ts ->
  exists t rest ts', ts = t :: ts' /\ t <> TOne /\ starts (ch_open :: p') t rest ts'.
Proof.
  intros Ne E. destruct (parse_set [] p' ts E) as (set & rest & ts' & -> & Hn & -> & Hr).
  exists (TSet set), rest, ts'. split; [reflexivity|]. split; [discriminate|].
  assert (Eo : (ch_open =? escape_char) = false) by (apply Z.eqb_neq; congruence).
  split; [reflexivity | exact Hr | cbn; rewrite length_app; cbn; lia | |].
  - intros fuel c s. cbn [StringLike.like_match]. rewrite Eo. cbn [accepts].
    change (ch_open =? ch_percent) with false. change (ch_open =? ch_underscore) with false.
    change (ch_open =? ch_open) with true. cbv iota.
    pose proof (scan_set_close c set rest Hn) as Hs.
    destruct (existsb (char_matches c) set); [|now rewrite Hs].
    destruct Hs as (r & -> & ->). reflexivity.
  - intros _. exists ch_open. cbn [first_pat]. rewrite Eo. split; [reflexivity|]. intros c.
    rewrite (try_open c _ Ne). cbn [accepts].
    pose proof (scan_set_close c set rest Hn) as Hs.
    destruct (existsb (char_matches c) set); [|now rewrite Hs]. now destruct Hs as (r & -> & _).
Qed.

Lemma starts_escape q p' ts :
  parse p' = Some ts -> starts (escape_char :: q :: p') (TLit q) p' ts.
Proof.
  intros E. split; [reflexivity | exact E | cbn; lia | |].
  - intros fuel c s. cbn [StringLike.like_match]. now rewrite Z.eqb_refl.
  - intros _. exists q. cbn [first_pat try_here]. rewrite Z.eqb_refl. split; [reflexivity|].
    intros c. now rewrite andb_false_r.
Qed.

Lemma starts_plain q p' ts :
  q <> escape_char -> q <> ch_percent -> q <> ch_underscore -> q <> ch_open ->
  parse p' = Some ts -> starts (q :: p') (TLit q) p' ts.
Proof.
  intros N1%Z.eqb_neq N2%Z.eqb_neq N3%Z.eqb_neq N4%Z.eqb_neq E.
  split; [reflexivity | exact E | cbn; lia | |].
  - intros fuel c s. cbn [StringLike.like_match]. now rewrite N1, N2, N3, N4.
  - intros _. exists q. cbn [first_pat try_here]. rewrite N1, N4. split; reflexivity.
Qed.

Lemma starts_one p' ts :
  escape_char <> ch_underscore -> parse p' = Some ts -> starts (ch_underscore :: p') TOne p' ts.
Proof.
  intros Ne E. split; [reflexivity | exact E | cbn; lia | | easy].
  intros fuel c s. cbn [StringLike.like_match].
  destruct (Z.eqb_spec ch_underscore escape_char); [congruence|]. reflexivity.
Qed.

(** A pattern that does not start with a ['%']. *)
Lemma parse_starts q p' ts :
  escape_char <> ch_underscore -> escape_char <> ch_percent -> q <> ch_percent ->
  parse (q :: p') = Some ts ->
  exists t rest ts', ts = t :: ts' /\ starts (q :: p') t rest ts' /\ (t = TOne -> q = ch_underscore).
Proof.
  intros Eu Ep Nq. unfold parse. cbn [parse_from].
  destruct (Z.eqb_spec q escape_char) as [->|N1].
  - destruct p' as [|q' p'']; [discriminate|].
    destruct (parse_from None p'') as [ts'|] eqn:E; [|discriminate]. intros [= <-].
    exists (TLit q'), p'', ts'. split; [reflexivity|]. split; [now apply starts_escape | discriminate].
  - destruct (Z.eqb_spec q ch_percent); [easy|].
    destruct (Z.eqb_spec q ch_underscore) as [->|N2].
    { destruct (parse_from None p') as [ts'|] eqn:E; [|discriminate]. intros [= <-].
      exists TOne, p', ts'. split; [reflexivity|]. split; [now apply starts_one | reflexivity]. }
    destruct (Z.eqb_spec q ch_open) as [->|N3].
    { intros E. destruct (starts_set p' ts (not_eq_sym N1) E) as (t & rest & ts' & -> & Ht & Hs).
      exists t, rest, ts'. split; [reflexivity|]. split; [exact Hs | easy]. }
    destruct (parse_from None p') as [ts'|] eqn:E; [|discriminate]. intros [= <-].
    exists (TLit q), p', ts'. split; [reflexivity|]. split; [now apply starts_plain | discriminate].
Qed.

Lemma parse_percent p' :
  escape_char <> ch_percent -> parse (ch_percent :: p') = option_map (cons TAny) (parse p').
Proof.
  intros Ne. unfold parse. cbn [parse_from].
  destruct (Z.eqb_spec ch_percent escape_char); [congruence | reflexivity].
Qed.

(** ** The wildcards after a ['%'] *)

Lemma skip_wildcards_spec p s ts :
  escape_char <> ch_underscore -> escape_char <> ch_percent -> parse p = Some ts ->
  match skip_wildcards s p with
  | None => ~ Matches (TAny :: ts) s
  | Some (s1, p1) => exists ts1, parse p1 = Some ts1 /\
      (Matches (TAny :: ts) s <-> Matches (TAny :: ts1) s1) /\ (length p1 <= length p)%nat /\
      match p1 with [] => True | q :: _ => q <> ch_percent /\ q <> ch_underscore end
  end.
Proof.
  intros Eu Ep. revert s ts. induction p as [|q p IH]; intros s ts Hp; cbn [skip_wildcards].
  - exists ts. split; [exact Hp|]. split; [reflexivity|]. cbn. auto.
  - destruct (Z.eqb_spec q ch_percent) as [->|N1].
    + rewrite (parse_percent p Ep) in Hp. destruct (parse p) as [ts'|] eqn:E; [|discriminate].
      injection Hp as <-. specialize (IH s ts' eq_refl).
      destruct (skip_wildcards s p) as [[s1 p1]|]; [|now rewrite Matches_any_any].
      destruct IH as (ts1 & H1 & H2 & H3 & H4). exists ts1. rewrite Matches_any_any. cbn; auto.
    + destruct (Z.eqb_spec q ch_underscore) as [->|N2]; [|].
      * destruct (parse_starts _ _ _ Eu Ep N1 Hp) as (t & rest & ts' & -> & _ & _).
        assert (E : t = TOne /\ parse p = Some ts').
        { revert Hp. unfold parse at 1. cbn [parse_from].
          destruct (Z.eqb_spec ch_underscore escape_char); [congruence|].
          change (ch_underscore =? ch_percent) with false. change (ch_underscore =? ch_underscore) with true.
          cbv iota. unfold parse. destruct (parse_from None p); [|discriminate]. now intros [= <- <-]. }
        destruct E as [-> E]. destruct s as [|c s]; [apply not_Matches_any_one_nil|].
        specialize (IH s ts' E). destruct (skip_wildcards s p) as [[s1 p1]|];
          [|now rewrite Matches_any_one].
        destruct IH as (ts1 & H1 & H2 & H3 & H4). exists ts1. rewrite Matches_any_one. cbn; auto.
      * exists ts. split; [exact Hp|]. split; [reflexivity|]. auto.
Qed.

(** ** The matcher *)

(** What a status says of the tokens [ts] and the string [s]. *)
Definition says (ts : list Token) (s : list Z) (r : option LikeStatus) : Prop :=
  match r with
  | Some kLIKE_TRUE => Matches ts s
  | Some kLIKE_FALSE => ~ Matches ts s
  | Some kLIKE_ABORT => forall pre s', s = pre ++ s' -> ~ Matches ts s'
  | Some kLIKE_ERROR | None => False
  end.

Lemma says_any ts s r :
  r <> Some kLIKE_FALSE ->
  match r with
  | Some kLIKE_TRUE => Matches (TAny :: ts) s
  | Some kLIKE_ABORT => ~ Matches (TAny :: ts) s
  | _ => False
  end -> says (TAny :: ts) s r.
Proof.
  destruct r as [[]|]; cbn; auto. intros _ Hn pre s' -> Hm. now apply Hn, Matches_any_extend.
Qed.

Lemma only_percent_spec p ts :
  escape_char <> ch_underscore -> escape_char <> ch_percent -> parse p = Some ts ->
  only_percent p = true <-> Matches ts [].
Proof.
  intros Eu Ep. revert ts. induction p as [|q p IH]; intros ts Hp; cbn [only_percent].
  - injection Hp as <-. split; [constructor | reflexivity].
  - destruct (Z.eqb_spec q ch_percent) as [->|N]; cbn [andb].
    + rewrite (parse_percent p Ep) in Hp. destruct (parse p) as [ts'|]; [|discriminate].
      injection Hp as <-. rewrite (IH ts' eq_refl), Matches_any. split.
      * intros Hm. now exists [], [].
      * intros (pre & s' & E & Hm). symmetry in E. now apply app_eq_nil in E as [-> ->].
    + split; [discriminate|]. intros Hm.
      destruct (parse_starts _ _ _ Eu Ep N Hp) as (t & rest & ts' & -> & Hs & _).
      apply (Matches_char t ts' [] (st_char _ _ _ _ Hs)) in Hm as (? & ? & ? & _). discriminate.
Qed.

(** The scan of the string for the first token [t]. *)
Lemma scan_string_spec match_at p fp t ts s :
  is_any t = false ->
  (forall c, try_here escape_char is_ilike c p fp = Some (accepts t c)) ->
  (forall x, says (t :: ts) x (match_at x)) ->
  match scan_string escape_char is_ilike match_at p fp s with
  | Some kLIKE_TRUE => Matches (TAny :: t :: ts) s
  | Some kLIKE_ABORT => ~ Matches (TAny :: t :: ts) s
  | _ => False
  end.
Proof.
  intros Ht Htry Hat. induction s as [|c s IH]; cbn [scan_string].
  - rewrite Matches_any. intros (pre & s' & E & Hm). symmetry in E. apply app_eq_nil in E as [-> ->].
    apply (Matches_char t ts [] Ht) in Hm as (? & ? & ? & _). discriminate.
  - assert (Hskip : ~ Matches (t :: ts) (c :: s) ->
      match scan_string escape_char is_ilike match_at p fp s with
      | Some kLIKE_TRUE => Matches (TAny :: t :: ts) (c :: s)
      | Some kLIKE_ABORT => ~ Matches (TAny :: t :: ts) (c :: s)
      | _ => False
      end).
    { intros Hn. destruct (scan_string escape_char is_ilike match_at p fp s) as [[]|]; try tauto;
        rewrite Matches_any_cons; tauto. }
    rewrite Htry. destruct (accepts t c) eqn:Ea.
    + specialize (Hat (c :: s)). destruct (match_at (c :: s)) as [[]|]; cbn in Hat; try tauto.
      * rewrite Matches_any_cons. now left.
      * rewrite Matches_any. intros (pre & s' & E & Hm). exact (Hat pre s' E Hm).
    + apply Hskip. rewrite (Matches_char t ts (c :: s) Ht). intros (d & x & [= <- <-] & E & _). congruence.
Qed.

(** A one-character token in front. *)
Lemma says_char t ts c s r :
  is_any t = false -> (accepts t c = true -> says ts s r) ->
  says (t :: ts) (c :: s) (if accepts t c then r else Some kLIKE_FALSE).
Proof.
  intros Ht Hr. destruct (accepts t c) eqn:Ea.
  - specialize (Hr eq_refl). destruct r as [[]|]; cbn in *; try tauto.
    + now constructor.
    + rewrite (Matches_char t ts _ Ht). intros (d & x & [= <- <-] & _ & Hm). tauto.
    + intros pre s' E. rewrite (Matches_char t ts _ Ht). intros (d & x & -> & _ & Hm).
      destruct pre as [|e pre]; cbn in E.
      * injection E as <- <-. exact (Hr [] s eq_refl Hm).
      * injection E as <- ->. apply (Hr (pre ++ [d]) x); [now rewrite <- app_assoc | exact Hm].
  - cbn. rewrite (Matches_char t ts _ Ht). intros (d & x & [= <- <-] & E & _). congruence.
Qed.

Lemma like_match_spec fuel s p ts :
  escape_char <> ch_underscore -> escape_char <> ch_percent -> parse p = Some ts ->
  (length p < fuel)%nat -> says ts s (like_match fuel s p).
Proof.
  intros Eu Ep. revert s p ts. induction fuel as [|fuel IH]; intros s p ts Hp Hf; [lia|].
  destruct s as [|c s].
  - cbn [StringLike.like_match]. pose proof (only_percent_spec p ts Eu Ep Hp) as Ho.
    destruct (only_percent p); cbn; [now apply Ho|].
    intros pre s' E. symmetry in E. apply app_eq_nil in E as [_ ->]. rewrite <- Ho. discriminate.
  - destruct p as [|q p].
    { injection Hp as <-. cbn. intros Hm. inversion Hm. }
    destruct (Z.eq_dec q ch_percent) as [->|Nq].
    + pose proof Hp as Hp'. rewrite (parse_percent p Ep) in Hp'.
      destruct (parse p) as [ts'|] eqn:E; [|discriminate]. injection Hp' as <-.
      cbn [StringLike.like_match]. destruct (Z.eqb_spec ch_percent escape_char); [congruence|].
      change (ch_percent =? ch_percent) with true. cbv iota.
      pose proof (skip_wildcards_spec p (c :: s) ts' Eu Ep E) as Hk.
      destruct (skip_wildcards (c :: s) p) as [[s1 p1]|]; [|now apply says_any].
      destruct Hk as (ts1 & Hp1 & Heq & Hlen & Hq). destruct p1 as [|q1 p1].
      { injection Hp1 as <-. apply says_any; [discriminate|]. apply Heq, Matches_any_nil. }
      destruct (parse_starts q1 p1 ts1 Eu Ep (proj1 Hq) Hp1) as (t & rest & ts2 & -> & Hs & Ht).
      destruct (st_try _ _ _ _ Hs) as (fp & -> & Htry); [intros ->; now apply (proj2 Hq), Ht|].
      pose proof (scan_string_spec (fun x => like_match fuel x (q1 :: p1)) (q1 :: p1) fp t ts2 s1
                    (st_char _ _ _ _ Hs) Htry) as Hscan.
      cbn [length] in Hf. specialize (Hscan (fun x => IH x (q1 :: p1) _ Hp1 ltac:(lia))).
      revert Hscan. destruct (scan_string _ _ _ _ _ _) as [[]|]; try tauto; intros Hscan;
        (apply says_any; [discriminate|]); now rewrite Heq.
    + destruct (parse_starts q p ts Eu Ep Nq Hp) as (t & rest & ts' & -> & Hs & _).
      rewrite (st_match _ _ _ _ Hs). apply says_char; [apply (st_char _ _ _ _ Hs)|]. intros _.
      apply IH; [apply (st_rest _ _ _ _ Hs)|]. pose proof (st_shorter _ _ _ _ Hs). lia.
Qed.

End Meaning.
