(* ===== verification/StringLikeProps.v ===== *)
(** * The properties of LIKE and of the string comparisons *)

From Stdlib Require Import ZArith Lia List Bool.
From S2P Require Import Prelude StringLike StringLikeFacts.
Import ListNotations.
Local Open Scope Z_scope.

(** ** Termination *)

Lemma skip_wildcards_length s p s1 p1 :
  skip_wildcards s p = Some (s1, p1) -> (length p1 <= length p)%nat.
Proof.
  revert s. induction p as [|q p IH]; intros s; cbn; [now intros [= <- <-]|].
  destruct (q =? ch_percent); [intros E; specialize (IH _ E); lia|].
  destruct (q =? ch_underscore); [|now intros [= <- <-]].
  destruct s as [|c s]; [discriminate|]. intros E. specialize (IH _ E). lia.
Qed.

Lemma scan_set_length is_ilike c p rest :
  scan_set is_ilike c p = SetFound rest -> (length rest < length p)%nat.
Proof.
  induction p as [|q p IH]; cbn; [discriminate|]. destruct (q =? ch_close); [discriminate|].
  destruct (char_matches is_ilike c q); [intros [= <-]; lia|]. intros E. specialize (IH E). lia.
Qed.

Lemma after_set_length p rest : after_set p = Some rest -> (length rest < length p)%nat.
Proof.
  induction p as [|q p IH]; cbn; [discriminate|]. destruct (q =? ch_close); [intros [= <-]; lia|].
  intros E. specialize (IH E). lia.
Qed.

Lemma scan_string_ends escape_char is_ilike match_at p fp s :
  (forall x, match_at x <> None) -> scan_string escape_char is_ilike match_at p fp s <> None.
Proof.
  intros Hm. induction s as [|c s IH]; cbn; [discriminate|].
  destruct (try_here escape_char is_ilike c p fp) as [[]|]; try assumption; [|discriminate].
  specialize (Hm (c :: s)). now destruct (match_at (c :: s)) as [[]|].
Qed.

Lemma like_match_ends escape_char is_ilike fuel s p :
  (length p < fuel)%nat -> like_match escape_char is_ilike fuel s p <> None.
Proof.
  revert s p. induction fuel as [|fuel IH]; intros s p Hf; [lia|].
  destruct s as [|c s], p as [|q p]; cbn [like_match]; try discriminate. cbn [length] in Hf.
  destruct (q =? escape_char).
  { destruct p as [|q' p]; [discriminate|]. cbn [length] in Hf.
    destruct (char_matches is_ilike c q'); [apply IH; lia | discriminate]. }
  destruct (q =? ch_percent).
  { destruct (skip_wildcards (c :: s) p) as [[s1 p1]|] eqn:E; [|discriminate].
    apply skip_wildcards_length in E. destruct p1 as [|q1 p1]; [discriminate|].
    destruct (first_pat escape_char (q1 :: p1)); [|discriminate].
    apply scan_string_ends. intros x. apply IH. lia. }
  destruct (q =? ch_underscore); [apply IH; lia|].
  destruct (q =? ch_open).
  { destruct (scan_set is_ilike c p) as [rest| |] eqn:E; try discriminate.
    apply scan_set_length in E. destruct (after_set rest) as [p'|] eqn:E'; [|discriminate].
    apply after_set_length in E'. apply IH. lia. }
  destruct (char_matches is_ilike c q); [apply IH; lia | discriminate].
Qed.

(** ** Substrings *)

(** [pattern] equals, up to [fold], what [str] has at [i]. *)
Definition occurs_at (fold : Z -> Z) (str pattern : list Z) (i : nat) : Prop :=
  firstn (length pattern) (skipn i (map fold str)) = pattern.

Lemma simple_inner_bound fuel fold str pattern i j :
  (j <= length pattern)%nat -> (simple_inner fuel fold str pattern i j <= length pattern)%nat.
Proof.
  revert j. induction fuel as [|fuel IH]; intros j Hj; cbn [simple_inner]; [exact Hj|].
  destruct (Nat.ltb_spec j (length pattern)); cbn [andb]; [|exact Hj].
  destruct (nth j pattern 0 =? fold (nth (j + i) str 0)); [apply IH; lia | exact Hj].
Qed.

Lemma simple_inner_spec fuel fold str pattern i j :
  (length pattern - j < fuel)%nat -> (j <= length pattern)%nat ->
  simple_inner fuel fold str pattern i j = length pattern <->
  forall k, (j <= k < length pattern)%nat -> nth k pattern 0 = fold (nth (k + i) str 0).
Proof.
  revert j. induction fuel as [|fuel IH]; intros j Hf Hj; [lia|]. cbn [simple_inner].
  destruct (Nat.ltb_spec j (length pattern)) as [Hlt|Hge]; cbn [andb].
  - destruct (Z.eqb_spec (nth j pattern 0) (fold (nth (j + i) str 0))) as [E|N].
    + rewrite IH by lia. split; intros Hk k Hr; [|apply Hk; lia].
      destruct (Nat.eq_dec k j) as [->|]; [exact E | apply Hk; lia].
    + split; [lia|]. intros Hk. now destruct (N (Hk j ltac:(lia))).
  - split; [|lia]. intros _ k Hr. lia.
Qed.

Lemma occurs_at_nth fold str pattern i :
  (i + length pattern <= length str)%nat ->
  occurs_at fold str pattern i <->
  forall k, (k < length pattern)%nat -> nth k pattern 0 = fold (nth (k + i) str 0).
Proof.
  intros Hi. unfold occurs_at.
  assert (Hlen : length (firstn (length pattern) (skipn i (map fold str))) = length pattern)
    by (rewrite firstn_length_le; [reflexivity|]; rewrite length_skipn, length_map; lia).
  assert (Hnth : forall k, (k < length pattern)%nat ->
    nth k (firstn (length pattern) (skipn i (map fold str))) 0 = fold (nth (k + i) str 0)).
  { intros k Hk. rewrite nth_firstn. destruct (Nat.ltb_spec k (length pattern)); [|lia].
    rewrite nth_skipn, (nth_indep _ 0 (fold 0)) by (rewrite length_map; lia).
    rewrite map_nth. do 2 f_equal. lia. }
  split.
  - intros E k Hk. rewrite <- (Hnth k Hk). now rewrite E.
  - intros Hk. apply nth_ext with (d := 0) (d' := 0); [exact Hlen|]. intros k Hr. rewrite Hlen in Hr.
    rewrite Hnth by exact Hr. symmetry. now apply Hk.
Qed.

Lemma simple_outer_spec n fold str pattern i :
  (i + n + length pattern <= S (length str))%nat ->
  simple_outer n fold str pattern i = true <->
  exists k, (i <= k < i + n)%nat /\ occurs_at fold str pattern k.
Proof.
  revert i. induction n as [|n IH]; intros i Hi; cbn [simple_outer].
  - split; [discriminate|]. intros (k & Hk & _). lia.
  - pose proof (simple_inner_spec (S (length pattern)) fold str pattern i 0 ltac:(lia) ltac:(lia)) as Hs.
    pose proof (simple_inner_bound (S (length pattern)) fold str pattern i 0 ltac:(lia)) as Hb.
    assert (Ho : occurs_at fold str pattern i <->
                 simple_inner (S (length pattern)) fold str pattern i 0 = length pattern).
    { rewrite Hs, occurs_at_nth by lia. split; intros Hk k Hr; apply Hk; lia. }
    destruct (Nat.leb_spec (length pattern) (simple_inner (S (length pattern)) fold str pattern i 0)).
    + split; [|reflexivity]. intros _. exists i. split; [lia|]. apply Ho. lia.
    + rewrite IH by lia. split; intros (k & Hk & Hok); exists k; (split; [|exact Hok]); [lia|].
      destruct (Nat.eq_dec k i) as [->|]; [|lia]. apply Ho in Hok. lia.
Qed.

Definition fold_of (is_ilike : bool) : Z -> Z := if is_ilike then lowercase else fun c => c.

Definition simple_of (is_ilike : bool) : list Z -> list Z -> bool :=
  if is_ilike then string_ilike_simple else string_like_simple.

Lemma simple_of_spec is_ilike str pattern :
  simple_of is_ilike str pattern = true <->
  exists pre post, map (fold_of is_ilike) str = pre ++ pattern ++ post.
Proof.
  assert (E : simple_of is_ilike str pattern
              = simple_outer (Z.to_nat (search_len str pattern)) (fold_of is_ilike) str pattern 0)
    by now destruct is_ilike. rewrite E. clear E. unfold search_len.
  destruct (Nat.le_gt_cases (length pattern) (length str)) as [Hle|Hgt].
  - rewrite simple_outer_spec by lia. unfold occurs_at. split.
    + intros (k & Hk & Ho). exists (firstn k (map (fold_of is_ilike) str)).
      exists (skipn (length pattern) (skipn k (map (fold_of is_ilike) str))).
      rewrite <- Ho at 1. now rewrite firstn_skipn, firstn_skipn.
    + intros (pre & post & E). exists (length pre). pose proof (f_equal (@length Z) E) as Hl.
      rewrite length_map, !length_app in Hl. split; [lia|].
      rewrite E, skipn_app, skipn_all, Nat.sub_diag. cbn [skipn app].
      now rewrite firstn_app, firstn_all, Nat.sub_diag, app_nil_r.
  - replace (Z.to_nat _) with 0%nat by lia. split; [discriminate|].
    intros (pre & post & E). apply (f_equal (@length Z)) in E.
    rewrite length_map, !length_app in E. lia.
Qed.

(** ** Patterns without special characters *)

Definition plain (escape_char : Z) (p : list Z) : Prop :=
  forall c, In c p -> c <> escape_char /\ c <> ch_percent /\ c <> ch_underscore /\ c <> ch_open.

Lemma parse_plain escape_char p q ts :
  plain escape_char p -> parse escape_char q = Some ts ->
  parse escape_char (p ++ q) = Some (map TLit p ++ ts).
Proof.
  intros Hp Hq. induction p as [|c p IH]; [exact Hq|].
  destruct (Hp c (or_introl eq_refl)) as (N1%Z.eqb_neq & N2%Z.eqb_neq & N3%Z.eqb_neq & N4%Z.eqb_neq).
  cbn [app]. unfold parse in *. cbn [parse_from]. rewrite N1, N2, N3, N4, IH; [reflexivity|].
  intros d Hd. apply Hp. now right.
Qed.

Lemma Matches_plain is_ilike p ts s :
  Matches is_ilike (map TLit p ++ ts) s <->
  exists s1 s2, s = s1 ++ s2 /\ map (fold_of is_ilike) s1 = p /\ Matches is_ilike ts s2.
Proof.
  revert s. induction p as [|c p IH]; intros s; cbn [map app].
  - split; [now exists [], s|]. intros ([|d s1] & s2 & -> & E & Hm); [exact Hm | discriminate].
  - rewrite Matches_char by reflexivity. split.
    + intros (d & s' & -> & Ha & Hm). apply IH in Hm as (s1 & s2 & -> & <- & Hm).
      exists (d :: s1), s2. split; [reflexivity|]. split; [|exact Hm]. cbn. f_equal.
      unfold accepts, char_matches, fold_of in *. destruct is_ilike; now apply Z.eqb_eq.
    + intros ([|d s1] & s2 & -> & E & Hm); [discriminate|]. cbn in E. injection E as <- <-.
      exists d, (s1 ++ s2). split; [reflexivity|]. split; [|apply IH; eauto].
      unfold accepts, char_matches, fold_of. destruct is_ilike; apply Z.eqb_refl.
Qed.

Definition like_of (is_ilike : bool) : list Z -> list Z -> Z -> bool :=
  if is_ilike then string_ilike else string_like.

Lemma like_of_status is_ilike s p escape_char :
  like_of is_ilike s p escape_char = is_true_status (string_like_match escape_char is_ilike s p).
Proof. now destruct is_ilike. Qed.

Lemma like_of_spec is_ilike s p escape_char ts :
  escape_char <> ch_underscore -> escape_char <> ch_percent -> parse escape_char p = Some ts ->
  like_of is_ilike s p escape_char = true <-> Matches is_ilike ts s.
Proof.
  intros Eu Ep Hp. rewrite like_of_status. unfold string_like_match.
  pose proof (like_match_spec escape_char is_ilike _ s p ts Eu Ep Hp (Nat.lt_succ_diag_r _)) as Hs.
  destruct (like_match escape_char is_ilike (S (length p)) s p) as [[]|]; cbn in *;
    split; try easy. intros Hm. now destruct (Hs [] s eq_refl).
Qed.

(** ** Lexicographic order *)

Fixpoint lex_compare (a b : list Z) : comparison :=
  match a, b with
  | [], [] => Eq
  | [], _ => Lt
  | _, [] => Gt
  | x :: a', y :: b' => match x ?= y with Eq => lex_compare a' b' | r => r end
  end.

Definition is_char (c : Z) : Prop := -128 <= c <= 127.

Lemma u8_char c : is_char c -> u8 c = if c <? 0 then c + 256 else c.
Proof.
  unfold is_char. intros Hc. destruct (Z.ltb_spec c 0); unfold u8, uwrap; change (2 ^ 8) with 256.
  - rewrite <- (Z_mod_plus_full c 1), Z.mul_1_l. apply Z.mod_small. lia.
  - apply Z.mod_small. lia.
Qed.

Lemma StringCompare_lex s1 s2 :
  (forall c, In c s1 -> is_char c /\ c <> 0) -> (forall c, In c s2 -> is_char c /\ c <> 0) ->
  (StringCompare s1 s2 ?= 0) = lex_compare (map u8 s1) (map u8 s2).
Proof.
  revert s2. induction s1 as [|c1 s1 IH]; intros [|c2 s2] H1 H2; cbn [StringCompare lex_compare map].
  - reflexivity.
  - destruct (H2 c2 (or_introl eq_refl)) as [Hc N]. rewrite (u8_char c2 Hc). unfold is_char in Hc.
    destruct (Z.ltb_spec c2 0); apply Z.compare_lt_iff; lia.
  - destruct (H1 c1 (or_introl eq_refl)) as [Hc N]. rewrite (u8_char c1 Hc). unfold is_char in Hc.
    destruct (Z.ltb_spec c1 0); apply Z.compare_gt_iff; lia.
  - destruct (H1 c1 (or_introl eq_refl)) as [Hc1 _]. destruct (H2 c2 (or_introl eq_refl)) as [Hc2 _].
    destruct (Z.eqb_spec c1 c2) as [->|N].
    + rewrite Z.compare_refl. apply IH; intros c Hc; [apply H1 | apply H2]; now right.
    + rewrite (u8_char c1 Hc1), (u8_char c2 Hc2). unfold is_char in *.
      assert (E : forall x y, x <> y -> (x - y ?= 0) = match x ?= y with Eq => Eq | r => r end).
      { intros x y Nxy. destruct (Z.compare_spec x y); [lia | apply Z.compare_lt_iff; lia
          | apply Z.compare_gt_iff; lia]. }
      destruct (Z.ltb_spec c1 0), (Z.ltb_spec c2 0);
        (rewrite E by lia); destruct (_ ?= _) eqn:Ec; try reflexivity;
        apply Z.compare_eq_iff in Ec; lia.
Qed.

(** ** The properties *)

(** [C10] LIKE and ILIKE return true exactly on the strings a well-formed pattern denotes:
    an escaped or plain character stands for itself, ['_'] for any character, ['%'] for any
    string and a bracketed set for one of its characters. *)
Theorem string_like_correct (s p : list Z) (escape_char : Z) (ts : list Token) (is_ilike : bool) :
  escape_char <> ch_underscore -> escape_char <> ch_percent -> parse escape_char p = Some ts ->
  (if is_ilike then string_ilike s p escape_char else string_like s p escape_char) = true
  <-> Matches is_ilike ts s.
Proof. intros Eu Ep Hp. rewrite <- (like_of_spec is_ilike s p escape_char ts Eu Ep Hp). now destruct is_ilike. Qed.

(** The early abort is sound: the recursive matcher returns [kLIKE_ABORT] only when no
    suffix of the string matches, so that the scan for a later start may stop; a well-formed
    pattern never gives [kLIKE_ERROR]. *)
Theorem like_abort_sound (s p : list Z) (escape_char : Z) (ts : list Token) (is_ilike : bool) :
  escape_char <> ch_underscore -> escape_char <> ch_percent -> parse escape_char p = Some ts ->
  string_like_match escape_char is_ilike s p <> Some kLIKE_ERROR /\
  (string_like_match escape_char is_ilike s p = Some kLIKE_ABORT ->
   forall pre s', s = pre ++ s' -> ~ Matches is_ilike ts s').
Proof.
  intros Eu Ep Hp. unfold string_like_match.
  pose proof (like_match_spec escape_char is_ilike _ s p ts Eu Ep Hp (Nat.lt_succ_diag_r _)) as Hs.
  destruct (like_match escape_char is_ilike (S (length p)) s p) as [[]|]; cbn in Hs; split;
    try easy; auto.
Qed.

(** The matcher ends on every pattern, well formed or not: a bound of one more than the
    length of the pattern on the characters of the pattern visited is never exhausted. *)
Theorem string_like_match_terminates (s p : list Z) (escape_char : Z) (is_ilike : bool) :
  exists status, string_like_match escape_char is_ilike s p = Some status.
Proof.
  pose proof (like_match_ends escape_char is_ilike (S (length p)) s p (Nat.lt_succ_diag_r _)) as H.
  unfold string_like_match. destruct (like_match escape_char is_ilike (S (length p)) s p); [eauto | easy].
Qed.

(** The simple variants search for the pattern as a substring, of the string or of the
    string in lower case. *)
Theorem string_like_simple_substring (s p : list Z) :
  (string_like_simple s p = true <-> exists pre post, s = pre ++ p ++ post) /\
  (string_ilike_simple s p = true <-> exists pre post, map lowercase s = pre ++ p ++ post).
Proof.
  split.
  - pose proof (simple_of_spec false s p) as Hs. cbn in Hs. rewrite map_id in Hs. exact Hs.
  - exact (simple_of_spec true s p).
Qed.

(** The substring search used for the patterns of the form [%p%], with [p] free of special
    characters, gives the result of the general matcher. *)
Theorem like_simple_equivalent (s p : list Z) (escape_char : Z) :
  escape_char <> ch_underscore -> escape_char <> ch_percent -> plain escape_char p ->
  string_like s (ch_percent :: p ++ [ch_percent]) escape_char = string_like_simple s p /\
  string_ilike s (ch_percent :: p ++ [ch_percent]) escape_char = string_ilike_simple s p.
Proof.
  intros Eu Ep Hp.
  assert (Hl : parse escape_char [ch_percent] = Some [TAny]) by now rewrite parse_percent.
  assert (Hparse : parse escape_char (ch_percent :: p ++ [ch_percent])
                   = Some (TAny :: map TLit p ++ [TAny])).
  { rewrite parse_percent by exact Ep. now rewrite (parse_plain escape_char p _ [TAny] Hp Hl). }
  assert (Heq : forall b, like_of b s (ch_percent :: p ++ [ch_percent]) escape_char = simple_of b s p).
  { intros b. apply eq_true_iff_eq.
    rewrite (like_of_spec b s _ escape_char _ Eu Ep Hparse), simple_of_spec, Matches_any. split.
    - intros (pre & s' & -> & Hm). apply Matches_plain in Hm as (s1 & s2 & -> & <- & _).
      exists (map (fold_of b) pre), (map (fold_of b) s2). now rewrite !map_app.
    - intros (pre & post & E). apply map_eq_app in E as (a & rest & -> & _ & E).
      apply map_eq_app in E as (s1 & s2 & -> & Es & _).
      exists a, (s1 ++ s2). split; [reflexivity|]. apply Matches_plain.
      exists s1, s2. split; [reflexivity|]. split; [exact Es | apply Matches_any_nil]. }
  split; [exact (Heq false) | exact (Heq true)].
Qed.

(** On strings without the character 0 the comparison operators are those of the
    lexicographic order of the strings as unsigned bytes. *)
Theorem string_compare_lexicographic (s1 s2 : list Z) :
  (forall c, In c s1 -> is_char c /\ c <> 0) -> (forall c, In c s2 -> is_char c /\ c <> 0) ->
  let o := lex_compare (map u8 s1) (map u8 s2) in
  string_lt s1 s2 = match o with Lt => true | _ => false end /\
  string_le s1 s2 = match o with Gt => false | _ => true end /\
  string_gt s1 s2 = match o with Gt => true | _ => false end /\
  string_ge s1 s2 = match o with Lt => false | _ => true end /\
  string_eq s1 s2 = match o with Eq => true | _ => false end /\
  string_ne s1 s2 = match o with Eq => false | _ => true end.
Proof.
  intros H1 H2. cbv zeta. rewrite <- (StringCompare_lex s1 s2 H1 H2).
  unfold string_lt, string_le, string_gt, string_ge, string_eq, string_ne.
  destruct (Z.compare_spec (StringCompare s1 s2) 0) as [->|Hlt|Hgt]; [easy| |];
    repeat split; zbool; lia.
Qed.

(** ** Witnesses: the pattern [a%[bc]_] and the string [axxby] *)

Definition sample_pattern : list Z := [97; 37; 91; 98; 99; 93; 95].
Definition sample_tokens : list Token := [TLit 97; TAny; TSet [98; 99]; TOne].

Lemma string_like_correct_witness :
  string_like [97; 120; 120; 98; 121] sample_pattern 92 = true /\
  Matches false sample_tokens [97; 120; 120; 98; 121].
Proof.
  split; [reflexivity|].
  apply (string_like_correct [97; 120; 120; 98; 121] sample_pattern 92 sample_tokens false);
    [discriminate | discriminate | reflexivity | reflexivity].
Defined.

Lemma like_abort_sound_witness :
  string_like_match 92 false [97; 120; 98] sample_pattern = Some kLIKE_ABORT /\
  ~ Matches false sample_tokens [97; 120; 98].
Proof.
  split; [reflexivity|].
  refine (proj2 (like_abort_sound [97; 120; 98] sample_pattern 92 sample_tokens false _ _ _) _ [] _ _);
    try discriminate; reflexivity.
Defined.

Lemma like_simple_equivalent_witness :
  string_like [120; 97; 98; 121] [37; 97; 98; 37] 92 = string_like_simple [120; 97; 98; 121] [97; 98].
Proof.
  refine (proj1 (like_simple_equivalent [120; 97; 98; 121] [97; 98] 92 _ _ _)); try discriminate.
  intros c [<-|[<-|[]]]; repeat split; discriminate.
Defined.

Lemma string_compare_lexicographic_witness : string_lt [97; 98] [97; -61] = true.
Proof.
  refine (proj1 (string_compare_lexicographic [97; 98] [97; -61] _ _));
    intros c [<-|[<-|[]]]; unfold is_char; lia.
Defined.

(** The end of a string counts as the character 0. *)
Example string_eq_nul : string_eq [97] [97; 0] = true.
Proof. reflexivity. Qed.
