(* ===== verification/DictStorage.v ===== *)
(** * The storage of a string dictionary

    [offset_map_] and [payload_map_] of [StringDictionary]: the entry of each string, and
    the characters of all the strings.  Both grow by blocks filled with canary bytes, in
    memory or in the mapped file alike.  A string is the list of its [char]s. *)

From Stdlib Require Import ZArith Lia List Bool.
From stdpp Require Import base list numbers sets.
From S2P Require Import Prelude StateMonad.
Import ListNotations.
Local Open Scope Z_scope.

(** [DCheck] is a failed [CHECK], [DEncoding] and [DTooLong] the exceptions of
    [throw_encoding_error] and [throw_string_too_long_error], [DRuntime] another exception,
    [DUndefined] an access out of range, [DLoop] a loop that does not end. *)
Inductive DictError := DCheck | DEncoding | DTooLong | DRuntime | DUndefined | DLoop.

Definition MAX_STRLEN : Z := 32767.
Definition MAX_STRCOUNT : Z := 2147483647.

Definition len {A : Type} (l : list A) : Z := Z.of_nat (length l).

Record StringIdxEntry := mkEntry { off : Z; size : Z }.

(** Eight bytes of the canary [0xff]. *)
Definition canary_entry : StringIdxEntry := mkEntry 281474976710655 65535.
Definition sizeof_entry : Z := 8.

Record Storage := mkStorage {
  offset_map_ : Z -> StringIdxEntry;
  payload_map_ : Z -> Z;
  offset_file_size_ : Z;
  payload_file_size_ : Z;
  payload_file_off_ : Z
}.

(** What a dictionary is given from outside: the system's page size, the flag for parallel
    bulk additions, the number of threads of the machine and the override of it, and the
    regular expression matcher. *)
Class DictEnv := {
  SYSTEM_PAGE_SIZE : Z;
  g_enable_stringdict_parallel : bool;
  hardware_concurrency : Z;
  g_cpu_threads_override : Z;
  regexp_like : list Z -> list Z -> Z -> bool
}.

(** The environment is sane: pages hold whole entries, and the number of threads is known. *)
Class DictEnvOk `{DictEnv} : Prop := {
  page_size_entries : exists k, 0 < k /\ SYSTEM_PAGE_SIZE = k * sizeof_entry;
  threads_known : 0 < hardware_concurrency < 1073741824;
  override_range : g_cpu_threads_override < 2147483648
}.

Section Storage.

Context `{DictEnv}.

Definition canary_buff_size_to_add (min_capacity_requested : Z) : Z :=
  Z.max (1024 * SYSTEM_PAGE_SIZE)
    ((min_capacity_requested / SYSTEM_PAGE_SIZE + 1) * SYSTEM_PAGE_SIZE).

Definition addPayloadCapacity (min_capacity_requested : Z) (s : Storage) : Storage :=
  let n := canary_buff_size_to_add min_capacity_requested in
  mkStorage (offset_map_ s)
    (fun i => if (payload_file_size_ s <=? i) && (i <? payload_file_size_ s + n)
              then -1 else payload_map_ s i)
    (offset_file_size_ s) (payload_file_size_ s + n) (payload_file_off_ s).

Definition addOffsetCapacity (min_capacity_requested : Z) (s : Storage) : Storage :=
  let n := canary_buff_size_to_add min_capacity_requested in
  mkStorage
    (fun i => if (offset_file_size_ s / sizeof_entry <=? i)
                 && (i <? (offset_file_size_ s + n) / sizeof_entry)
              then canary_entry else offset_map_ s i)
    (payload_map_ s) (offset_file_size_ s + n) (payload_file_size_ s) (payload_file_off_ s).

(** The storage of a new dictionary. *)
Definition empty_storage : Storage :=
  addOffsetCapacity 0 (addPayloadCapacity 0
    (mkStorage (fun _ => canary_entry) (fun _ => -1) 0 0 0)).

Definition checkAndConditionallyIncreasePayloadCapacity (write_length : Z) (s : Storage)
    : result DictError Storage :=
  if payload_file_size_ s <? payload_file_off_ s + write_length then
    let min_capacity_needed := u64 (write_length - (payload_file_size_ s - payload_file_off_ s)) in
    let s' := addPayloadCapacity min_capacity_needed s in
    if payload_file_off_ s' + write_length <=? payload_file_size_ s' then Ok s' else Err DCheck
  else Ok s.

Definition checkAndConditionallyIncreaseOffsetCapacity (str_count write_length : Z) (s : Storage)
    : result DictError Storage :=
  let offset_file_off := str_count * sizeof_entry in
  if offset_file_size_ s <=? offset_file_off + write_length then
    let min_capacity_needed := u64 (write_length - (offset_file_size_ s - offset_file_off)) in
    let s' := addOffsetCapacity min_capacity_needed s in
    if offset_file_off + write_length <=? offset_file_size_ s' then Ok s' else Err DCheck
  else Ok s.

(** [memcpy] of [str] to the end of the payload; the entry of the string goes to
    [offset_map_[id]]. *)
Definition put_payload (str : list Z) (s : Storage) : Storage :=
  let o := payload_file_off_ s in
  mkStorage (offset_map_ s)
    (fun i => if (o <=? i) && (i <? o + Z.of_nat (length str))
              then List.nth (Z.to_nat (i - o)) str 0 else payload_map_ s i)
    (offset_file_size_ s) (payload_file_size_ s) (o + Z.of_nat (length str)).

Definition put_entry (id : Z) (e : StringIdxEntry) (s : Storage) : Storage :=
  mkStorage (fun i => if i =? id then e else offset_map_ s i) (payload_map_ s)
    (offset_file_size_ s) (payload_file_size_ s) (payload_file_off_ s).

Definition make_entry (offset len : Z) : StringIdxEntry := mkEntry (uwrap 48 offset) (u16 len).

Definition appendToStorage (str_count : Z) (str : list Z) (s : Storage)
    : result DictError Storage :=
  match checkAndConditionallyIncreasePayloadCapacity (Z.of_nat (length str)) s with
  | Err e => Err e
  | Ok s1 =>
      let str_meta := make_entry (payload_file_off_ s1) (Z.of_nat (length str)) in
      match checkAndConditionallyIncreaseOffsetCapacity str_count sizeof_entry (put_payload str s1) with
      | Err e => Err e
      | Ok s2 => Ok (put_entry str_count str_meta s2)
      end
  end.

(** The loop of [appendToStorageBulk] from the [i]-th new string on. *)
Fixpoint append_bulk_loop (str_count i : Z) (strs : list (list Z)) (s : Storage) : Storage :=
  match strs with
  | [] => s
  | str :: strs' =>
      let str_meta := make_entry (payload_file_off_ s) (Z.of_nat (length str)) in
      append_bulk_loop str_count (i + 1) strs' (put_entry (str_count + i) str_meta (put_payload str s))
  end.

Definition appendToStorageBulk (str_count : Z) (strs : list (list Z)) (sum_new_strings_lengths : Z)
    (s : Storage) : result DictError Storage :=
  match checkAndConditionallyIncreasePayloadCapacity sum_new_strings_lengths s with
  | Err e => Err e
  | Ok s1 =>
      match checkAndConditionallyIncreaseOffsetCapacity str_count
              (sizeof_entry * Z.of_nat (length strs)) s1 with
      | Err e => Err e
      | Ok s2 => Ok (append_bulk_loop str_count 0 strs s2)
      end
  end.

(** ** Reading *)

Definition read_payload (s : Storage) (offset len : Z) : list Z :=
  map (fun i => payload_map_ s (offset + Z.of_nat i)) (seq 0 (Z.to_nat len)).

Definition getStringFromStorageFast (s : Storage) (string_id : Z) : list Z :=
  let str_meta := offset_map_ s string_id in read_payload s (off str_meta) (size str_meta).

(** [None] is the canary. *)
Definition getStringFromStorage (s : Storage) (string_id : Z)
    : result DictError (option (list Z)) :=
  if string_id <? 0 then Err DCheck
  else if size (offset_map_ s string_id) =? 65535 then Ok None
  else Ok (Some (getStringFromStorageFast s string_id)).

Definition getStringChecked (s : Storage) (string_id : Z) : result DictError (list Z) :=
  match getStringFromStorage s string_id with
  | Ok (Some str) => Ok str
  | Ok None => Err DCheck
  | Err e => Err e
  end.

Definition is_canary (s : Storage) (string_id : Z) : bool :=
  size (offset_map_ s string_id) =? 65535.

(** The binary search of [getNumStringsFromStorage]: the last guess and the lower bound. *)
Fixpoint canary_search (fuel : nat) (s : Storage) (min_bound max_bound guess : Z)
    : option (Z * Z) :=
  if max_bound <? min_bound then Some (guess, min_bound)
  else
    match fuel with
    | O => None
    | S fuel' =>
        let guess := (max_bound + min_bound) / 2 in
        if is_canary s guess then canary_search fuel' s min_bound (guess - 1) guess
        else canary_search fuel' s (guess + 1) max_bound guess
    end.

Definition getNumStringsFromStorage (s : Storage) (storage_slots : Z) : option Z :=
  if storage_slots =? 0 then Some 0
  else
    match canary_search 65 s 0 (storage_slots - 1) 0 with
    | Some (guess, min_bound) => Some (guess + (if guess <? min_bound then 1 else 0))
    | None => None
    end.

End Storage.

(** * The storage holds the strings it was given *)

(** The characters of a list of strings. *)
Definition total (strs : list (list Z)) : Z := fold_right (fun str n => len str + n) 0 strs.

Lemma len_app {A : Type} (l1 l2 : list A) : len (l1 ++ l2) = len l1 + len l2.
Proof. unfold len. rewrite length_app. lia. Qed.

Lemma len_nonneg {A : Type} (l : list A) : 0 <= len l.
Proof. unfold len. lia. Qed.

Lemma total_app l1 l2 : total (l1 ++ l2) = total l1 + total l2.
Proof. unfold total. induction l1 as [|s l1 IH]; cbn in *; lia. Qed.

Lemma total_nonneg strs : 0 <= total strs.
Proof. induction strs as [|s strs IH]; cbn; [lia|]. pose proof (len_nonneg s). unfold total in *. lia. Qed.

Lemma total_bound strs :
  (forall str, str ∈ strs -> len str <= MAX_STRLEN) -> total strs <= MAX_STRLEN * len strs.
Proof.
  unfold len at 2. induction strs as [|s strs IH]; intros Hs; cbn; [lia|].
  assert (len s <= MAX_STRLEN) by (apply Hs; set_solver).
  assert (total strs <= MAX_STRLEN * Z.of_nat (length strs)) by (apply IH; set_solver).
  unfold total, MAX_STRLEN in *. lia.
Qed.

Lemma total_take strs i str : strs !! i = Some str -> total (take i strs) + len str <= total strs.
Proof.
  intros Hi. rewrite <- (take_drop_middle strs i str Hi) at 2. rewrite total_app. cbn.
  pose proof (total_nonneg (drop (S i) strs)). unfold total in *. lia.
Qed.

(** [s] holds the strings [strs] and canaries behind them. *)
Record stored (s : Storage) (strs : list (list Z)) : Prop := {
  sd_entry : forall i str, strs !! i = Some str ->
    offset_map_ s (Z.of_nat i) = mkEntry (total (take i strs)) (len str);
  sd_bytes : forall i str j c, strs !! i = Some str -> str !! j = Some c ->
    payload_map_ s (total (take i strs) + Z.of_nat j) = c;
  sd_off : payload_file_off_ s = total strs;
  sd_payload : total strs <= payload_file_size_ s;
  sd_offsets : len strs * sizeof_entry <= offset_file_size_ s;
  sd_whole : offset_file_size_ s mod sizeof_entry = 0;
  sd_canary : forall i, len strs <= i < offset_file_size_ s / sizeof_entry ->
    offset_map_ s i = canary_entry;
  sd_len : forall str, str ∈ strs -> len str <= MAX_STRLEN
}.

Section Facts.

Context `{DictEnvOk}.

Lemma page_pos : 0 < SYSTEM_PAGE_SIZE.
Proof. destruct page_size_entries as (k & ? & ->). unfold sizeof_entry. lia. Qed.

Lemma canary_size_spec n :
  0 <= n -> n < canary_buff_size_to_add n /\ canary_buff_size_to_add n mod sizeof_entry = 0.
Proof.
  intros Hn. unfold canary_buff_size_to_add. pose proof page_pos as Hp. split.
  - pose proof (Z.mul_succ_div_gt n _ Hp). lia.
  - destruct page_size_entries as (k & _ & ->).
    destruct (Z.max_spec (1024 * (k * sizeof_entry)) ((n / (k * sizeof_entry) + 1) * (k * sizeof_entry)))
      as [[_ ->]|[_ ->]]; rewrite Z.mul_assoc; now apply Z.mod_mul.
Qed.

(** ** Growing *)

Lemma stored_grow_payload s strs n : 0 <= n -> stored s strs -> stored (addPayloadCapacity n s) strs.
Proof.
  intros Hn [E B O P Q W C L]. destruct (canary_size_spec n Hn) as [Hc _].
  split; cbn; auto; [|lia].
  intros i str j c Hi Hj. pose proof (total_take strs i str Hi).
  assert (Z.of_nat j < len str) by (unfold len; apply lookup_lt_Some in Hj; lia).
  destruct (Z.leb_spec (payload_file_size_ s) (total (take i strs) + Z.of_nat j)); [lia|].
  cbn. eauto.
Qed.

Lemma stored_grow_offsets s strs n : 0 <= n -> stored s strs -> stored (addOffsetCapacity n s) strs.
Proof.
  intros Hn [E B O P Q W C L]. destruct (canary_size_spec n Hn) as [Hc Hm].
  assert (Hdiv : offset_file_size_ s = sizeof_entry * (offset_file_size_ s / sizeof_entry))
    by (apply Z.div_exact; [easy | exact W]).
  unfold sizeof_entry in *.
  split; cbn; auto; unfold sizeof_entry; try lia.
  - intros i str Hi. rewrite <- (E i str Hi). apply lookup_lt_Some in Hi. unfold len in Q.
    destruct (Z.leb_spec (offset_file_size_ s / 8) (Z.of_nat i)); [lia | reflexivity].
  - rewrite Z.add_mod, W, Hm by easy. reflexivity.
  - intros i Hi. destruct (Z.leb_spec (offset_file_size_ s / 8) i); cbn.
    + destruct (Z.ltb_spec i ((offset_file_size_ s + canary_buff_size_to_add n) / 8)); [reflexivity | lia].
    + apply C. lia.
Qed.

Lemma increase_payload_spec s strs n :
  0 <= n < 18446744073709551616 -> stored s strs ->
  exists s', checkAndConditionallyIncreasePayloadCapacity n s = Ok s' /\ stored s' strs /\
    payload_file_off_ s' + n <= payload_file_size_ s' /\ offset_map_ s' = offset_map_ s /\
    offset_file_size_ s' = offset_file_size_ s.
Proof.
  intros Hn S. unfold checkAndConditionallyIncreasePayloadCapacity.
  destruct (Z.ltb_spec (payload_file_size_ s) (payload_file_off_ s + n)) as [Hlt|Hge].
  - pose proof (sd_payload _ _ S). pose proof (sd_off _ _ S).
    rewrite u64_small by lia. set (m := n - (payload_file_size_ s - payload_file_off_ s)).
    destruct (canary_size_spec m ltac:(lia)) as [Hc _].
    destruct (Z.leb_spec (payload_file_off_ (addPayloadCapacity m s) + n)
                (payload_file_size_ (addPayloadCapacity m s))) as [Hle|Hgt]; cbn in *; [|lia].
    eexists. split; [reflexivity|]. split; [apply stored_grow_payload; [lia | exact S]|]. cbn. auto.
  - exists s. auto.
Qed.

Lemma increase_offsets_spec s strs n :
  0 <= n < 18446744073709551616 -> stored s strs ->
  exists s', checkAndConditionallyIncreaseOffsetCapacity (len strs) n s = Ok s' /\ stored s' strs /\
    len strs * sizeof_entry + n <= offset_file_size_ s' /\ payload_map_ s' = payload_map_ s /\
    payload_file_off_ s' = payload_file_off_ s /\ payload_file_size_ s' = payload_file_size_ s.
Proof.
  intros Hn S. unfold checkAndConditionallyIncreaseOffsetCapacity. pose proof (sd_offsets _ _ S).
  destruct (Z.leb_spec (offset_file_size_ s) (len strs * sizeof_entry + n)) as [Hle|Hgt].
  - rewrite u64_small by lia. set (m := n - (offset_file_size_ s - len strs * sizeof_entry)).
    destruct (canary_size_spec m ltac:(lia)) as [Hc _].
    destruct (Z.leb_spec (len strs * sizeof_entry + n) (offset_file_size_ (addOffsetCapacity m s)))
      as [Hle'|Hgt]; cbn in *; [|lia].
    eexists. split; [reflexivity|]. split; [apply stored_grow_offsets; [lia | exact S]|]. cbn. auto.
  - exists s. split; [reflexivity|]. split; [exact S|]. split; [lia | auto].
Qed.

(** ** Appending *)

Lemma stored_put s strs str :
  stored s strs -> len strs < MAX_STRCOUNT -> len str <= MAX_STRLEN ->
  payload_file_off_ s + len str <= payload_file_size_ s ->
  len strs * sizeof_entry + sizeof_entry <= offset_file_size_ s ->
  stored (put_entry (len strs) (make_entry (payload_file_off_ s) (len str)) (put_payload str s))
    (strs ++ [str]).
Proof.
  intros [E B O P Q W C L] Hcount Hlen Hp Hq. pose proof (total_nonneg strs). pose proof (len_nonneg str).
  pose proof (total_bound strs L). unfold MAX_STRLEN, MAX_STRCOUNT, sizeof_entry in *.
  assert (Et : total (strs ++ [str]) = total strs + len str) by (rewrite total_app; cbn; lia).
  split; cbn; fold (len str); rewrite ?len_app; change (len [str]) with 1; rewrite ?Et, ?O;
    unfold sizeof_entry; try lia.
  - intros i x Hi. apply lookup_app_Some in Hi as [Hi|[Hge Hi]].
    + pose proof (lookup_lt_Some _ _ _ Hi) as Hlt. unfold len.
      destruct (Z.eqb_spec (Z.of_nat i) (Z.of_nat (length strs))); [lia|].
      rewrite take_app_le by lia. exact (E i x Hi).
    + apply list_lookup_singleton_Some in Hi as [Hi <-]. assert (i = length strs) as -> by lia.
      unfold len at 1. rewrite Z.eqb_refl, take_app_length. unfold make_entry.
      f_equal; [apply Z.mod_small; change (2 ^ 48) with 281474976710656; lia | apply u16_small; lia].
  - intros i x j c Hi Hj. apply lookup_app_Some in Hi as [Hi|[Hge Hi]].
    + pose proof (lookup_lt_Some _ _ _ Hi) as Hlt. rewrite take_app_le by lia.
      pose proof (total_take strs i x Hi). pose proof (lookup_lt_Some _ _ _ Hj).
      destruct (Z.leb_spec (total strs) (total (take i strs) + Z.of_nat j)); [unfold len in *; lia|].
      cbn. eauto.
    + apply list_lookup_singleton_Some in Hi as [Hi <-]. assert (i = length strs) as -> by lia.
      rewrite take_app_length. pose proof (lookup_lt_Some _ _ _ Hj).
      destruct (Z.leb_spec (total strs) (total strs + Z.of_nat j)); [|lia].
      destruct (Z.ltb_spec (total strs + Z.of_nat j) (total strs + len str)); [|unfold len in *; lia].
      cbn. replace (Z.to_nat (total strs + Z.of_nat j - total strs)) with j by lia.
      now apply nth_lookup_Some.
  - intros i Hi. destruct (Z.eqb_spec i (len strs)); [lia|]. apply C. lia.
  - intros x [Hx|Hx%list_elem_of_singleton]%elem_of_app; [auto | subst; exact Hlen].
Qed.

(** The payload is written before the entries grow; the order does not matter. *)
Lemma increase_offsets_put count n str s :
  checkAndConditionallyIncreaseOffsetCapacity count n (put_payload str s)
  = match checkAndConditionallyIncreaseOffsetCapacity count n s with
    | Ok s' => Ok (put_payload str s')
    | Err e => Err e
    end.
Proof.
  unfold checkAndConditionallyIncreaseOffsetCapacity. cbn.
  destruct (_ <=? _); [|reflexivity]. destruct (_ <=? _); reflexivity.
Qed.

Lemma appendToStorage_spec s strs str :
  stored s strs -> len strs < MAX_STRCOUNT -> len str <= MAX_STRLEN ->
  exists s', appendToStorage (len strs) str s = Ok s' /\ stored s' (strs ++ [str]).
Proof.
  intros S Hc Hl. pose proof (len_nonneg str) as Hn. unfold appendToStorage. fold (len str).
  destruct (increase_payload_spec s strs (len str) ltac:(unfold MAX_STRLEN in *; lia) S)
    as (s1 & -> & S1 & Hp & _).
  rewrite increase_offsets_put.
  destruct (increase_offsets_spec s1 strs sizeof_entry ltac:(unfold sizeof_entry; lia) S1)
    as (s2 & -> & S2 & Ho & _ & Ef & Ez).
  eexists. split; [reflexivity|]. rewrite <- Ef. apply stored_put; auto. lia.
Qed.

Lemma append_bulk_spec strs' s strs count i :
  stored s strs -> len strs = count + i -> len strs + len strs' <= MAX_STRCOUNT ->
  (forall str, str ∈ strs' -> len str <= MAX_STRLEN) ->
  payload_file_off_ s + total strs' <= payload_file_size_ s ->
  (len strs + len strs') * sizeof_entry <= offset_file_size_ s ->
  stored (append_bulk_loop count i strs' s) (strs ++ strs').
Proof.
  revert s strs i. induction strs' as [|str strs' IH]; intros s strs i S Hi Hc Hl Hp Ho; cbn.
  - now rewrite app_nil_r.
  - fold (len str). change (total (str :: strs')) with (len str + total strs') in Hp.
    pose proof (total_nonneg strs'). pose proof (len_nonneg strs').
    assert (Ec : len (str :: strs') = 1 + len strs') by (unfold len; cbn; lia).
    rewrite Ec in *. unfold sizeof_entry in *. rewrite <- Hi.
    replace (strs ++ str :: strs') with ((strs ++ [str]) ++ strs') by now rewrite <- app_assoc.
    apply IH.
    + apply stored_put; auto; try lia; [apply Hl; set_solver | unfold sizeof_entry; lia].
    + rewrite len_app. change (len [str]) with 1. lia.
    + rewrite len_app. change (len [str]) with 1. lia.
    + intros x Hx. apply Hl. set_solver.
    + cbn. fold (len str). lia.
    + cbn. rewrite len_app. change (len [str]) with 1. unfold sizeof_entry. lia.
Qed.

Lemma appendToStorageBulk_spec s strs strs' :
  stored s strs -> len strs + len strs' <= MAX_STRCOUNT ->
  (forall str, str ∈ strs' -> len str <= MAX_STRLEN) ->
  exists s', appendToStorageBulk (len strs) strs' (total strs') s = Ok s' /\ stored s' (strs ++ strs').
Proof.
  intros S Hc Hl. pose proof (total_nonneg strs'). pose proof (total_bound strs' Hl).
  pose proof (len_nonneg strs). pose proof (len_nonneg strs').
  unfold appendToStorageBulk, MAX_STRCOUNT, MAX_STRLEN in *.
  destruct (increase_payload_spec s strs (total strs') ltac:(lia) S) as (s1 & -> & S1 & Hp & _).
  fold (len strs').
  destruct (increase_offsets_spec s1 strs (sizeof_entry * len strs') ltac:(unfold sizeof_entry; lia) S1)
    as (s2 & -> & S2 & Ho & _ & Ef & Ez).
  eexists. split; [reflexivity|].
  apply append_bulk_spec; auto; unfold MAX_STRCOUNT, sizeof_entry in *; lia.
Qed.

Lemma stored_empty : stored empty_storage [].
Proof.
  pose proof (canary_size_spec 0 ltac:(lia)) as [Hc Hm].
  split; cbn; try easy; try lia; rewrite ?Z.add_0_l.
  - unfold len, sizeof_entry in *. cbn. lia.
  - intros i Hi. now destruct (_ && _).
Qed.

(** ** Reading back *)

Lemma read_payload_stored s strs i str :
  stored s strs -> strs !! i = Some str -> read_payload s (total (take i strs)) (len str) = str.
Proof.
  intros S Hi. unfold read_payload, len. rewrite Nat2Z.id. apply list_eq. intros j.
  rewrite list_lookup_fmap. destruct (decide (j < length str)%nat) as [Hj|Hj].
  - rewrite lookup_seq_lt by exact Hj. cbn. destruct (lookup_lt_is_Some_2 str j Hj) as [c Hc].
    rewrite Hc. f_equal. exact (sd_bytes _ _ S i str j c Hi Hc).
  - rewrite lookup_seq_ge by lia. cbn. symmetry. apply lookup_ge_None. lia.
Qed.

Lemma read_fast s strs i str :
  stored s strs -> strs !! i = Some str -> getStringFromStorageFast s (Z.of_nat i) = str.
Proof.
  intros S Hi. unfold getStringFromStorageFast. rewrite (sd_entry _ _ S i str Hi). cbn.
  exact (read_payload_stored s strs i str S Hi).
Qed.

Lemma stored_size s strs i str :
  stored s strs -> strs !! i = Some str -> size (offset_map_ s (Z.of_nat i)) = len str.
Proof. intros S Hi. now rewrite (sd_entry _ _ S i str Hi). Qed.

Lemma stored_len s strs i str : stored s strs -> strs !! i = Some str -> len str <= MAX_STRLEN.
Proof. intros S Hi. apply (sd_len _ _ S). now apply list_elem_of_lookup_2 with i. Qed.

Lemma read_storage s strs i str :
  stored s strs -> strs !! i = Some str -> getStringFromStorage s (Z.of_nat i) = Ok (Some str).
Proof.
  intros S Hi. unfold getStringFromStorage.
  rewrite (read_fast s strs i str S Hi), (stored_size s strs i str S Hi).
  pose proof (stored_len s strs i str S Hi). unfold MAX_STRLEN in *.
  destruct (Z.ltb_spec (Z.of_nat i) 0); [lia|]. destruct (Z.eqb_spec (len str) 65535); [lia | reflexivity].
Qed.

Lemma read_checked s strs i str :
  stored s strs -> strs !! i = Some str -> getStringChecked s (Z.of_nat i) = Ok str.
Proof. intros S Hi. unfold getStringChecked. now rewrite (read_storage s strs i str S Hi). Qed.

(** ** Counting the strings of a recovered storage *)

Lemma canary_iff s strs i :
  stored s strs -> 0 <= i < offset_file_size_ s / sizeof_entry ->
  is_canary s i = (len strs <=? i).
Proof.
  intros S Hi. unfold is_canary. destruct (Z.leb_spec (len strs) i) as [Hge|Hlt].
  - now rewrite (sd_canary _ _ S i) by lia.
  - unfold len in Hlt.
    destruct (lookup_lt_is_Some_2 strs (Z.to_nat i) ltac:(lia)) as [str Hs].
    pose proof (stored_len s strs _ str S Hs). pose proof (stored_size s strs _ str S Hs) as E.
    rewrite Z2Nat.id in E by lia. rewrite E. unfold MAX_STRLEN in *. lia.
Qed.

Lemma midpoint lo hi : lo <= hi ->
  lo <= (hi + lo) / 2 <= hi /\ 2 * ((hi + lo) / 2) <= hi + lo <= 2 * ((hi + lo) / 2) + 1.
Proof. divmod. Qed.

(** The range halves at every guess. *)
Lemma canary_search_spec s strs slots fuel lo hi guess :
  stored s strs -> slots = offset_file_size_ s / sizeof_entry ->
  0 <= lo <= len strs -> len strs <= hi + 1 <= slots -> hi - lo + 1 < 2 ^ Z.of_nat fuel ->
  (lo <= hi \/ guess = len strs \/ guess + 1 = len strs) ->
  exists g, canary_search fuel s lo hi guess = Some (g, len strs) /\
    (g = len strs \/ g + 1 = len strs).
Proof.
  intros S Es. revert lo hi guess. induction fuel as [|fuel IH]; intros lo hi guess Hlo Hhi Hf Hg.
  - change (2 ^ Z.of_nat 0) with 1 in Hf. cbn. destruct (Z.ltb_spec hi lo); [|lia].
    exists guess. replace lo with (len strs) by lia. split; [reflexivity | lia].
  - cbn [canary_search]. destruct (Z.ltb_spec hi lo) as [Hlt|Hle].
    + exists guess. replace lo with (len strs) by lia. split; [reflexivity | lia].
    + replace (Z.of_nat (Datatypes.S fuel)) with (Z.of_nat fuel + 1) in Hf by lia.
      rewrite Z.pow_add_r in Hf by lia. change (2 ^ 1) with 2 in Hf.
      pose proof (midpoint lo hi Hle) as Hm. set (mid := (hi + lo) / 2) in *.
      rewrite (canary_iff s strs mid S ltac:(lia)).
      destruct (Z.leb_spec (len strs) mid); apply IH; lia.
Qed.

Lemma getNumStringsFromStorage_spec s strs :
  stored s strs -> offset_file_size_ s < 2 ^ 63 ->
  getNumStringsFromStorage s (offset_file_size_ s / sizeof_entry) = Some (len strs).
Proof.
  intros S Hsz. set (slots := offset_file_size_ s / sizeof_entry).
  pose proof (sd_offsets _ _ S) as Ho. pose proof (len_nonneg strs) as Hn.
  assert (Hs : len strs <= slots < 2 ^ 60) by (subst slots; unfold sizeof_entry in *; divmod).
  unfold getNumStringsFromStorage. destruct (Z.eqb_spec slots 0) as [E|E]; [f_equal; lia|].
  destruct (canary_search_spec s strs slots 65 0 (slots - 1) 0 S eq_refl ltac:(lia) ltac:(lia))
    as (g & -> & [->|Hg]); try lia.
  - rewrite Z.ltb_irrefl. f_equal. lia.
  - destruct (Z.ltb_spec g (len strs)); [f_equal; lia | lia].
Qed.

End Facts.
