(* ===== verification/StringDictionary.v ===== *)
(** * The string dictionary ([StringDictionary/StringDictionary.cpp])

    A dictionary numbers the strings it is given, in the order in which they come, and finds
    the number of a string through an open addressing hash table.  The dictionaries modelled
    are the local ones: the constructor of [StringDictionaryClient] fails, so [client_] is
    null.  Every public operation runs under [rw_mutex_], and is one transition here. *)

From Stdlib Require Import ZArith Lia List Bool.
From stdpp Require Import base list numbers gmap.
From S2P Require Import Prelude StateMonad StringLike DictStorage.
Import ListNotations.
Local Open Scope Z_scope.
Local Open Scope bm_scope.

Definition INVALID_STR_ID : Z := -1.

(** ** State *)

Record compare_cache_value_t := mkCompare { index : Z; diff : Z }.

(** Pattern, [icase], [is_simple] and escape character. *)
Definition LikeKey : Type := list Z * bool * bool * Z.

Record StringDictionary := mkDict {
  dict_ref_ : Z * Z;
  materialize_hashes_ : bool;
  str_count_ : Z;
  collisions_ : Z;
  string_id_string_dict_hash_table_ : list Z;
  hash_cache_ : list Z;
  sorted_cache : list Z;
  storage_ : Storage;
  like_cache_ : gmap LikeKey (list Z);
  regex_cache_ : gmap (list Z * Z) (list Z);
  equal_cache_ : gmap (list Z) Z;
  compare_cache_ : gmap (list Z) compare_cache_value_t;
  strings_cache_ : option (list (list Z))
}.

#[local] Abbreviation table_ := string_id_string_dict_hash_table_.

Definition set_count (n : Z) (d : StringDictionary) : StringDictionary :=
  mkDict (dict_ref_ d) (materialize_hashes_ d) n (collisions_ d) (table_ d) (hash_cache_ d)
    (sorted_cache d) (storage_ d) (like_cache_ d) (regex_cache_ d) (equal_cache_ d)
    (compare_cache_ d) (strings_cache_ d).
Definition set_collisions (n : Z) (d : StringDictionary) : StringDictionary :=
  mkDict (dict_ref_ d) (materialize_hashes_ d) (str_count_ d) n (table_ d) (hash_cache_ d)
    (sorted_cache d) (storage_ d) (like_cache_ d) (regex_cache_ d) (equal_cache_ d)
    (compare_cache_ d) (strings_cache_ d).
Definition set_table (t : list Z) (d : StringDictionary) : StringDictionary :=
  mkDict (dict_ref_ d) (materialize_hashes_ d) (str_count_ d) (collisions_ d) t (hash_cache_ d)
    (sorted_cache d) (storage_ d) (like_cache_ d) (regex_cache_ d) (equal_cache_ d)
    (compare_cache_ d) (strings_cache_ d).
Definition set_hashes (h : list Z) (d : StringDictionary) : StringDictionary :=
  mkDict (dict_ref_ d) (materialize_hashes_ d) (str_count_ d) (collisions_ d) (table_ d) h
    (sorted_cache d) (storage_ d) (like_cache_ d) (regex_cache_ d) (equal_cache_ d)
    (compare_cache_ d) (strings_cache_ d).
Definition set_sorted (c : list Z) (d : StringDictionary) : StringDictionary :=
  mkDict (dict_ref_ d) (materialize_hashes_ d) (str_count_ d) (collisions_ d) (table_ d)
    (hash_cache_ d) c (storage_ d) (like_cache_ d) (regex_cache_ d) (equal_cache_ d)
    (compare_cache_ d) (strings_cache_ d).
Definition set_storage (s : Storage) (d : StringDictionary) : StringDictionary :=
  mkDict (dict_ref_ d) (materialize_hashes_ d) (str_count_ d) (collisions_ d) (table_ d)
    (hash_cache_ d) (sorted_cache d) s (like_cache_ d) (regex_cache_ d) (equal_cache_ d)
    (compare_cache_ d) (strings_cache_ d).
Definition set_caches (l : gmap LikeKey (list Z)) (r : gmap (list Z * Z) (list Z))
    (e : gmap (list Z) Z) (c : gmap (list Z) compare_cache_value_t)
    (s : option (list (list Z))) (d : StringDictionary) : StringDictionary :=
  mkDict (dict_ref_ d) (materialize_hashes_ d) (str_count_ d) (collisions_ d) (table_ d)
    (hash_cache_ d) (sorted_cache d) (storage_ d) l r e c s.

Abbreviation DM := (ST DictError StringDictionary).

(** A computation that reads the dictionary and can fail. *)
Definition query {A : Type} (f : StringDictionary -> result DictError A) : DM A :=
  fun d => (f d, d).

Definition check (b : bool) : DM unit := if b then ret tt else throw DCheck.

(** ** Hashing *)

Definition hash_string (str : list Z) : Z :=
  fold_left (fun str_hash c => u32 (str_hash * 997 + c)) str 1.

Definition round_up_p2 (num : Z) : Z :=
  let i := u64 (num - 1) in
  let i := Z.lor i (Z.shiftr i 1) in
  let i := Z.lor i (Z.shiftr i 2) in
  let i := Z.lor i (Z.shiftr i 4) in
  let i := Z.lor i (Z.shiftr i 8) in
  let i := Z.lor i (Z.shiftr i 16) in
  let i := u64 (i + 1) in
  if (i =? 0) || (UINT32_MAX <? i) then UINT32_MAX else i.

(** The loop over the slots of the table from [bucket] on: it stops at a free slot and at a
    used one for which [stop] holds, and counts the slots it passes.  It goes around the
    table, so as many steps as there are slots show whether it ends. *)
Fixpoint probe (fuel : nat) (stop : Z -> result DictError bool) (table : list Z)
    (bucket steps : Z) : result DictError (Z * Z) :=
  match fuel with
  | O => Err DLoop
  | S fuel' =>
      match table !! Z.to_nat bucket with
      | None => Err DUndefined
      | Some candidate_string_id =>
          if candidate_string_id =? INVALID_STR_ID then Ok (bucket, steps)
          else
            match stop candidate_string_id with
            | Err e => Err e
            | Ok true => Ok (bucket, steps)
            | Ok false =>
                let bucket := u32 (bucket + 1) in
                probe fuel' stop table (if bucket =? len table then 0 else bucket) (steps + 1)
            end
      end
  end.

Definition first_bucket (hash : Z) (table : list Z) : Z := u32 (Z.land hash (u64 (len table - 1))).

(** The test on the cached hash of a candidate. *)
Definition hash_may_match (d : StringDictionary) (hash candidate : Z) : result DictError bool :=
  if materialize_hashes_ d then
    match hash_cache_ d !! Z.to_nat candidate with
    | Some h => Ok (hash =? h)
    | None => Err DUndefined
    end
  else Ok true.

(** The comparison of sizes, then [memcmp]. *)
Definition same_string (s : Storage) (input_string : list Z) (candidate : Z) : bool :=
  if len input_string =? size (offset_map_ s candidate)
  then bool_decide (input_string = getStringFromStorageFast s candidate)
  else false.

Definition is_string (d : StringDictionary) (hash : Z) (input_string : list Z) (candidate : Z)
    : result DictError bool :=
  match hash_may_match d hash candidate with
  | Ok true => Ok (same_string (storage_ d) input_string candidate)
  | r => r
  end.

Definition computeBucket (d : StringDictionary) (hash : Z) (input_string : list Z)
    (table : list Z) : result DictError Z :=
  match probe (S (length table)) (is_string d hash input_string) table
          (first_bucket hash table) 0 with
  | Ok (bucket, _) => Ok bucket
  | Err e => Err e
  end.

(** The bucket and the number of collisions. *)
Definition computeUniqueBucketWithHash (hash : Z) (table : list Z) : result DictError (Z * Z) :=
  probe (S (length table)) (fun _ => Ok false) table (first_bucket hash table) 0.

Definition is_string_in_memory (d : StringDictionary) (hash : Z) (input_string : list Z)
    (storage_high_water_mark : Z) (input_strings : list (list Z)) (string_memory_ids : list nat)
    (candidate : Z) : result DictError bool :=
  match hash_may_match d hash candidate with
  | Ok true =>
      if (0 <? candidate) && (storage_high_water_mark <=? candidate) then
        let memory_offset := Z.to_nat (u64 (candidate - storage_high_water_mark)) in
        match string_memory_ids !! memory_offset with
        | None => Err DUndefined
        | Some string_memory_id =>
            match input_strings !! string_memory_id with
            | None => Err DUndefined
            | Some candidate_string =>
                Ok ((len input_string =? len candidate_string)
                    && bool_decide (input_string = candidate_string))
            end
        end
      else Ok (same_string (storage_ d) input_string candidate)
  | r => r
  end.

Definition computeBucketFromStorageAndMemory (d : StringDictionary) (hash : Z)
    (input_string : list Z) (table : list Z) (storage_high_water_mark : Z)
    (input_strings : list (list Z)) (string_memory_ids : list nat) : result DictError Z :=
  match probe (S (length table))
          (is_string_in_memory d hash input_string storage_high_water_mark input_strings
             string_memory_ids)
          table (first_bucket hash table) 0 with
  | Ok (bucket, _) => Ok bucket
  | Err e => Err e
  end.

Definition fillRateIsHigh (d : StringDictionary) (num_strings : Z) : bool :=
  len (table_ d) <=? num_strings * 2.

(** ** Growing the hash table *)

(** [id] goes to its bucket of the new table. *)
Definition place (hash id : Z) (table : list Z) (collisions : Z)
    : result DictError (list Z * Z) :=
  match computeUniqueBucketWithHash hash table with
  | Ok (bucket, steps) => Ok (<[Z.to_nat bucket := s32 id]> table, u64 (collisions + steps))
  | Err e => Err e
  end.

(** The loop that places [n] ids from [i] on, with the hashes that [hash_of] gives. *)
Fixpoint place_loop (n : nat) (hash_of : Z -> result DictError Z) (i : Z) (table : list Z)
    (collisions : Z) : result DictError (list Z * Z) :=
  match n with
  | O => Ok (table, collisions)
  | S n' =>
      match hash_of i with
      | Err e => Err e
      | Ok hash =>
          match place hash i table collisions with
          | Err e => Err e
          | Ok (table', collisions') => place_loop n' hash_of (i + 1) table' collisions'
          end
      end
  end.

Definition hash_at (l : list Z) (i : Z) : result DictError Z :=
  match l !! Z.to_nat i with
  | Some h => Ok h
  | None => Err DUndefined
  end.

Definition stored_hash (s : Storage) (i : Z) : result DictError Z :=
  match getStringChecked s i with
  | Ok str => Ok (hash_string str)
  | Err e => Err e
  end.

Definition increaseHashTableCapacity : DM unit :=
  let! d := gets id in
  let new_str_ids := replicate (2 * length (table_ d)) INVALID_STR_ID in
  let hash_of := if materialize_hashes_ d then hash_at (hash_cache_ d) else stored_hash (storage_ d) in
  let! '(table, collisions) :=
    query (fun d => place_loop (Z.to_nat (str_count_ d)) hash_of 0 new_str_ids (collisions_ d)) in
  do! modify (set_collisions collisions) in
  do! (if materialize_hashes_ d
       then modify (fun d => set_hashes (hash_cache_ d ++ replicate (length (hash_cache_ d)) 0) d)
       else ret tt) in
  modify (set_table table).

Definition increaseHashTableCapacityFromStorageAndMemory (str_count storage_high_water_mark : Z)
    (string_memory_ids : list nat) (input_strings_hashes : list Z) : DM unit :=
  let! d := gets id in
  let new_str_ids := replicate (2 * length (table_ d)) INVALID_STR_ID in
  let hash_of_memory i :=
    match string_memory_ids !! Z.to_nat (i - storage_high_water_mark) with
    | Some string_memory_id => hash_at input_strings_hashes (Z.of_nat string_memory_id)
    | None => Err DUndefined
    end in
  let! '(table, collisions) :=
    query (fun d =>
      if materialize_hashes_ d
      then place_loop (Z.to_nat str_count) (hash_at (hash_cache_ d)) 0 new_str_ids (collisions_ d)
      else
        match place_loop (Z.to_nat storage_high_water_mark) (stored_hash (storage_ d)) 0
                new_str_ids (collisions_ d) with
        | Err e => Err e
        | Ok (table, collisions) =>
            place_loop (length string_memory_ids) hash_of_memory storage_high_water_mark table
              collisions
        end) in
  do! modify (set_collisions collisions) in
  do! (if materialize_hashes_ d
       then modify (fun d => set_hashes (hash_cache_ d ++ replicate (length (hash_cache_ d)) 0) d)
       else ret tt) in
  modify (set_table table).

(** ** Adding strings *)

Definition invalidateInvertedIndex (d : StringDictionary) : StringDictionary :=
  set_caches ∅ ∅ ∅ ∅ (strings_cache_ d) d.

(** [vector[i] = v]. *)
Definition store_at {A : Type} (i : Z) (v : A) (l : list A) : result DictError (list A) :=
  if (0 <=? i) && (i <? len l) then Ok (<[Z.to_nat i := v]> l) else Err DUndefined.

Definition load_at {A : Type} (i : Z) (l : list A) : result DictError A :=
  match (if 0 <=? i then l !! Z.to_nat i else None) with
  | Some v => Ok v
  | None => Err DUndefined
  end.

Definition put_table (bucket id : Z) : DM unit :=
  let! table := query (fun d => store_at bucket id (table_ d)) in modify (set_table table).

Definition put_hash (i hash : Z) : DM unit :=
  let! m := gets materialize_hashes_ in
  if m then
    let! hashes := query (fun d => store_at i hash (hash_cache_ d)) in modify (set_hashes hashes)
  else ret tt.

Section Env.

Context `{DictEnv}.

Definition append (str : list Z) : DM unit :=
  let! s := query (fun d => appendToStorage (str_count_ d) str (storage_ d)) in
  modify (set_storage s).

(** [inline_int_null_value<int32_t>()]. *)
Definition null_id : Z := INT32_MIN.

Definition getOrAddImpl (str : list Z) : DM Z :=
  if len str =? 0 then ret null_id
  else
    do! check (len str <=? MAX_STRLEN) in
    let hash := hash_string str in
    let! bucket := query (fun d => computeBucket d hash str (table_ d)) in
    let! id := query (fun d => load_at bucket (table_ d)) in
    if negb (id =? INVALID_STR_ID) then ret id
    else
      let! high := gets (fun d => fillRateIsHigh d (str_count_ d)) in
      do! (if high then increaseHashTableCapacity else ret tt) in
      let! bucket := query (fun d => computeBucket d hash str (table_ d)) in
      let! id := query (fun d => load_at bucket (table_ d)) in
      do! (if id =? INVALID_STR_ID then
             let! str_count := gets str_count_ in
             do! check (str_count <? MAX_STRCOUNT) in
             do! append str in
             do! put_table bucket (s32 str_count) in
             do! put_hash str_count hash in
             do! modify (set_count (u64 (str_count + 1))) in
             modify invalidateInvertedIndex
           else ret tt) in
      query (fun d => load_at bucket (table_ d)).

Definition getOrAdd (str : list Z) : DM Z := getOrAddImpl str.

(** *** In bulk *)

(** The type [T] of the encoded ids. *)
Inductive IdType := UInt8 | UInt16 | Int32.

Definition inline_int_null_value (T : IdType) : Z :=
  match T with UInt8 => 255 | UInt16 => 65535 | Int32 => INT32_MIN end.
Definition max_valid_int_value (T : IdType) : Z :=
  match T with UInt8 => 254 | UInt16 => 65534 | Int32 => INT32_MAX end.
(** Conversion to [T]. *)
Definition to_id (T : IdType) (v : Z) : Z :=
  match T with UInt8 => u8 v | UInt16 => u16 v | Int32 => s32 v end.

(** The body of the loop of [getOrAddBulk]: the id given to [input_string]. *)
Definition getOrAddBulk_step (T : IdType) (input_string : list Z) : DM Z :=
  if len input_string =? 0 then ret (to_id T (inline_int_null_value T))
  else
    do! check (len input_string <=? MAX_STRLEN) in
    let hash := hash_string input_string in
    let! bucket := query (fun d => computeBucket d hash input_string (table_ d)) in
    let! id := query (fun d => load_at bucket (table_ d)) in
    if negb (id =? INVALID_STR_ID) then ret (to_id T id)
    else
      let! str_count := gets str_count_ in
      if max_valid_int_value T <? str_count then throw DEncoding
      else
        do! check (str_count <? MAX_STRCOUNT) in
        let! high := gets (fun d => fillRateIsHigh d str_count) in
        let! bucket :=
          if high then
            do! increaseHashTableCapacity in
            query (fun d => computeBucket d hash input_string (table_ d))
          else ret bucket in
        do! append input_string in
        do! put_hash str_count hash in
        let string_id := s32 str_count in
        do! put_table bucket string_id in
        do! modify (set_count (u64 (str_count + 1))) in
        ret (to_id T string_id).

Fixpoint getOrAddBulk_loop (T : IdType) (input_strings : list (list Z)) : DM (list Z) :=
  match input_strings with
  | [] => ret []
  | input_string :: rest =>
      let! id := getOrAddBulk_step T input_string in
      let! ids := getOrAddBulk_loop T rest in
      ret (id :: ids)
  end.

Definition getOrAddBulk_serial (T : IdType) (input_strings : list (list Z)) : DM (list Z) :=
  let! initial_str_count := gets str_count_ in
  let! ids := getOrAddBulk_loop T input_strings in
  let! str_count := gets str_count_ in
  do! (if 0 <? u64 (str_count - initial_str_count) then modify invalidateInvertedIndex
       else ret tt) in
  ret ids.

(** The hashes of empty strings are left at 0. *)
Definition hashStrings (string_vec : list (list Z)) : list Z :=
  map (fun str => if len str =? 0 then 0 else hash_string str) string_vec.

(** What the loop of [getOrAddBulkParallel] keeps beside the dictionary. *)
Record BulkState := mkBulk {
  shadow_str_count : Z;
  string_memory_ids : list nat;
  sum_new_string_lengths : Z
}.

Definition parallel_step (T : IdType) (input_strings : list (list Z))
    (input_strings_hashes : list Z) (storage_high_water_mark : Z) (input_string_idx : nat)
    (input_string : list Z) (b : BulkState) : DM (Z * BulkState) :=
  if len input_string =? 0 then ret (to_id T (inline_int_null_value T), b)
  else
    do! check (len input_string <=? MAX_STRLEN) in
    let! high := gets (fun d => fillRateIsHigh d (shadow_str_count b)) in
    do! (if high
         then increaseHashTableCapacityFromStorageAndMemory (shadow_str_count b)
                storage_high_water_mark (string_memory_ids b) input_strings_hashes
         else ret tt) in
    let! hash := query (fun _ => hash_at input_strings_hashes (Z.of_nat input_string_idx)) in
    let! bucket :=
      query (fun d => computeBucketFromStorageAndMemory d hash input_string (table_ d)
                        storage_high_water_mark input_strings (string_memory_ids b)) in
    let! id := query (fun d => load_at bucket (table_ d)) in
    if negb (id =? INVALID_STR_ID) then ret (to_id T id, b)
    else if max_valid_int_value T <? shadow_str_count b then throw DEncoding
    else
      do! check (shadow_str_count b <? MAX_STRCOUNT) in
      do! put_table bucket (s32 (shadow_str_count b)) in
      do! put_hash (shadow_str_count b) hash in
      ret (to_id T (shadow_str_count b),
           mkBulk (u64 (shadow_str_count b + 1)) (string_memory_ids b ++ [input_string_idx])
             (u64 (sum_new_string_lengths b + len input_string))).

Fixpoint parallel_loop (T : IdType) (input_strings : list (list Z))
    (input_strings_hashes : list Z) (storage_high_water_mark : Z) (input_string_idx : nat)
    (rest : list (list Z)) (b : BulkState) : DM (list Z * BulkState) :=
  match rest with
  | [] => ret ([], b)
  | input_string :: rest' =>
      let! '(id, b') := parallel_step T input_strings input_strings_hashes
                          storage_high_water_mark input_string_idx input_string b in
      let! '(ids, b'') := parallel_loop T input_strings input_strings_hashes
                            storage_high_water_mark (S input_string_idx) rest' b' in
      ret (id :: ids, b'')
  end.

Definition appendBulk (input_strings : list (list Z)) (b : BulkState) : DM unit :=
  let strs := map (fun i => nth i input_strings []) (string_memory_ids b) in
  let! s := query (fun d => appendToStorageBulk (str_count_ d) strs (sum_new_string_lengths b)
                              (storage_ d)) in
  modify (set_storage s).

Definition getOrAddBulkParallel (T : IdType) (input_strings : list (list Z)) : DM (list Z) :=
  let input_strings_hashes := hashStrings input_strings in
  let! str_count := gets str_count_ in
  let! '(ids, b) := parallel_loop T input_strings input_strings_hashes str_count 0 input_strings
                      (mkBulk str_count [] 0) in
  do! appendBulk input_strings b in
  do! modify (set_count (shadow_str_count b)) in
  do! (if 0 <? u64 (shadow_str_count b - str_count) then modify invalidateInvertedIndex
       else ret tt) in
  ret ids.

Definition getOrAddBulk (T : IdType) (input_strings : list (list Z)) : DM (list Z) :=
  if g_enable_stringdict_parallel then getOrAddBulkParallel T input_strings
  else getOrAddBulk_serial T input_strings.

Fixpoint getOrAddBulkArray (string_array_vec : list (list (list Z))) : DM (list (list Z)) :=
  match string_array_vec with
  | [] => ret []
  | strings :: rest =>
      let! ids := getOrAddBulk Int32 strings in
      let! ids_array := getOrAddBulkArray rest in
      ret (ids :: ids_array)
  end.

(** ** Looking up *)

Definition getUnlocked (d : StringDictionary) (sv : list Z) : result DictError Z :=
  match computeBucket d (hash_string sv) sv (table_ d) with
  | Ok bucket => load_at bucket (table_ d)
  | Err e => Err e
  end.

Definition getIdOfString (d : StringDictionary) (str : list Z) : result DictError Z :=
  getUnlocked d str.

Definition getStringUnlocked (d : StringDictionary) (string_id : Z) : result DictError (list Z) :=
  if string_id <? s32 (str_count_ d) then getStringChecked (storage_ d) string_id else Err DCheck.

Definition getString (d : StringDictionary) (string_id : Z) : result DictError (list Z) :=
  getStringUnlocked d string_id.

Definition getStringBytes (d : StringDictionary) (string_id : Z) : result DictError (list Z) :=
  if 0 <=? string_id then
    if string_id <? s32 (str_count_ d) then getStringChecked (storage_ d) string_id else Err DCheck
  else Err DCheck.

Definition storageEntryCount (d : StringDictionary) : Z := str_count_ d.

Definition eachStringSerially {A : Type} (d : StringDictionary) (generation : Z)
    (serial_callback : list Z -> Z -> A -> A) (a : A) : result DictError A :=
  let n := Z.min (u64 generation) (str_count_ d) in
  if n <=? INT32_MAX + 1 then
    Ok (fold_left
          (fun a id => serial_callback (getStringFromStorageFast (storage_ d) (Z.of_nat id))
                         (s32 (Z.of_nat id)) a)
          (seq 0 (Z.to_nat n)) a)
  else Err DCheck.

(** The size of the vector is [generation] as an [int64_t]; a negative one is
    [std::length_error]. *)
Definition getStringViews (d : StringDictionary) (generation : Z) : result DictError (list (list Z)) :=
  let num_strings := s64 generation in
  if negb (num_strings <=? MAX_STRCOUNT) then Err DCheck
  else if num_strings <? 0 then Err DRuntime
  else
    Ok (map (fun i => getStringFromStorageFast (storage_ d) (Z.of_nat i)) (seq 0 (Z.to_nat num_strings))).

End Env.
