(* ===== verification/DictFacts.v ===== *)
(** * The hash table of a dictionary

    Linear probing ends at a table with a free slot, and finds every id that was placed. *)

From Stdlib Require Import ZArith Lia List Bool.
From stdpp Require Import base list numbers sets gmap.
From S2P Require Import Prelude StateMonad DictStorage StringDictionary.
Import ListNotations.
Local Open Scope Z_scope.

(** The [d]-th slot from [b] on, around the table. *)
Definition slot (table : list Z) (b : Z) (d : nat) : nat :=
  Z.to_nat ((b + Z.of_nat d) mod len table).

Definition used (table : list Z) : nat := length (List.filter (fun id => negb (id =? INVALID_STR_ID)) table).

(** ** Generic facts *)

Lemma least (P : nat -> Prop) `{!forall n, Decision (P n)} n :
  P n -> exists m, (m <= n)%nat /\ P m /\ forall k, (k < m)%nat -> ~ P k.
Proof.
  induction n as [n IH] using lt_wf_ind. intros Hn.
  destruct (decide (Exists P (seq 0 n))) as [E|E].
  - apply Exists_exists in E as (k & Hk%elem_of_seq & Pk).
    destruct (IH k ltac:(lia) Pk) as (m & Hm & Pm & Hl). exists m. split; [lia | auto].
  - exists n. split; [lia|]. split; [exact Hn|]. intros k Hk Pk. apply E, Exists_exists.
    exists k. split; [apply elem_of_seq; lia | exact Pk].
Qed.

Lemma used_free table : (used table < length table)%nat -> exists k, table !! k = Some INVALID_STR_ID.
Proof.
  unfold used. induction table as [|id table IH]; cbn; [lia|].
  destruct (Z.eqb_spec id INVALID_STR_ID) as [->|Hid]; cbn; intros Hu; [now exists 0%nat|].
  destruct IH as [k Hk]; [lia|]. now exists (S k).
Qed.

Lemma used_insert table k id :
  table !! k = Some INVALID_STR_ID -> id <> INVALID_STR_ID -> used (<[k := id]> table) = S (used table).
Proof.
  unfold used. revert k. induction table as [|x table IH]; intros [|k] Hk Hid; cbn in *; try discriminate.
  - injection Hk as ->. destruct (Z.eqb_spec id INVALID_STR_ID); [contradiction | reflexivity].
  - destruct (negb _); cbn; now rewrite IH.
Qed.

Lemma used_replicate n : used (replicate n INVALID_STR_ID) = 0%nat.
Proof. unfold used. induction n; cbn; auto. Qed.

Lemma insert_len {A : Type} (l : list A) k x : len (<[k := x]> l) = len l.
Proof. unfold len. now rewrite length_insert. Qed.

(** ** Probing *)

Section Probe.

Context (table : list Z) (b : Z).
Hypothesis (Hsize : 0 < len table <= 4294967296) (Hb : 0 <= b < len table).

Lemma slot_lt d : (slot table b d < length table)%nat.
Proof.
  unfold slot. pose proof (Z.mod_pos_bound (b + Z.of_nat d) (len table) ltac:(lia)).
  unfold len in *. lia.
Qed.

Lemma slot_lookup d : exists id, table !! slot table b d = Some id.
Proof. apply lookup_lt_is_Some_2, slot_lt. Qed.

Lemma slot_0 : slot table b 0 = Z.to_nat b.
Proof. unfold slot. rewrite Z.add_0_r, Z.mod_small by lia. reflexivity. Qed.

(** Every slot is reached in less than a turn. *)
Lemma slot_reaches k : (k < length table)%nat -> exists d, (d < length table)%nat /\ slot table b d = k.
Proof.
  intros Hk. exists (Z.to_nat ((Z.of_nat k - b) mod len table)).
  pose proof (Z.mod_pos_bound (Z.of_nat k - b) (len table) ltac:(lia)).
  split; [unfold len in *; lia|]. unfold slot. rewrite Z2Nat.id by lia.
  rewrite Z.add_mod_idemp_r by lia. replace (b + (Z.of_nat k - b)) with (Z.of_nat k) by lia.
  rewrite Z.mod_small by (unfold len; lia). lia.
Qed.

Definition next_bucket : Z := if u32 (b + 1) =? len table then 0 else u32 (b + 1).

Lemma next_bucket_spec : next_bucket = (b + 1) mod len table.
Proof.
  unfold next_bucket. destruct (Z.eq_dec (b + 1) 4294967296) as [E|E].
  - rewrite E. change (u32 4294967296) with 0. replace (len table) with 4294967296 by lia. reflexivity.
  - rewrite u32_small by lia. destruct (Z.eqb_spec (b + 1) (len table)) as [->|N].
    + now rewrite Z.mod_same by lia.
    + now rewrite Z.mod_small by lia.
Qed.

Lemma next_bucket_range : 0 <= next_bucket < len table.
Proof. rewrite next_bucket_spec. apply Z.mod_pos_bound. lia. Qed.

Lemma slot_next d : slot table next_bucket d = slot table b (S d).
Proof.
  unfold slot. rewrite next_bucket_spec, Z.add_mod_idemp_l by lia. f_equal. f_equal. lia.
Qed.

End Probe.

(** The slots before the [d]-th are used and do not satisfy the test. *)
Definition passed (stop : Z -> result DictError bool) (table : list Z) (b : Z) (d : nat) : Prop :=
  forall d', (d' < d)%nat -> exists id, table !! slot table b d' = Some id /\
    id <> INVALID_STR_ID /\ stop id = Ok false.

Lemma probe_at stop table d : 0 < len table <= 4294967296 -> forall fuel b steps id,
  0 <= b < len table -> passed stop table b d ->
  table !! slot table b d = Some id -> (id = INVALID_STR_ID \/ stop id = Ok true) ->
  (d < fuel)%nat ->
  probe fuel stop table b steps = Ok (Z.of_nat (slot table b d), steps + Z.of_nat d).
Proof.
  intros Hs. induction d as [|d IH]; intros fuel b steps id Hb Hp Hid Hstop Hf;
    (destruct fuel as [|fuel]; [lia|]); cbn [probe].
  - rewrite slot_0 in * by lia. rewrite Hid, Z2Nat.id by lia. rewrite Z.add_0_r.
    destruct (Z.eqb_spec id INVALID_STR_ID); [reflexivity|]. destruct Hstop as [?| ->]; [contradiction | reflexivity].
  - destruct (Hp 0%nat ltac:(lia)) as (id0 & H0 & Hn & Hf0). rewrite slot_0 in H0 by lia.
    rewrite H0, Hf0. destruct (Z.eqb_spec id0 INVALID_STR_ID); [contradiction|].
    fold (next_bucket table b).
    rewrite <- (slot_next table b Hs Hb) in Hid |- *.
    rewrite (IH fuel (next_bucket table b) (steps + 1) id).
    + f_equal. f_equal. lia.
    + now apply next_bucket_range.
    + intros d' Hd'. rewrite (slot_next table b Hs Hb). apply Hp. lia.
    + exact Hid.
    + exact Hstop.
    + lia.
Qed.

(** A table with a free slot stops every probe. *)
Lemma probe_ends stop stopb table b steps :
  0 < len table <= 4294967296 -> 0 <= b < len table -> (used table < length table)%nat ->
  (forall id, id ∈ table -> id <> INVALID_STR_ID -> stop id = Ok (stopb id)) ->
  exists d id, table !! slot table b d = Some id /\
    (id = INVALID_STR_ID \/ id <> INVALID_STR_ID /\ stopb id = true) /\ passed stop table b d /\
    probe (S (length table)) stop table b steps = Ok (Z.of_nat (slot table b d), steps + Z.of_nat d).
Proof.
  intros Hs Hb Hu Hstop. destruct (used_free table Hu) as [k Hk].
  destruct (slot_reaches table b Hs k (lookup_lt_Some _ _ _ Hk)) as (d0 & Hd0 & Ek).
  set (P d := match table !! slot table b d with
              | Some id => id = INVALID_STR_ID \/ stopb id = true
              | None => False
              end).
  assert (Pdec : forall d, Decision (P d)) by (intros d; unfold P; destruct (table !! slot table b d); apply _).
  destruct (least P d0) as (d & Hd & Pd & Hmin).
  { unfold P. rewrite Ek, Hk. now left. }
  unfold P in Pd. destruct (table !! slot table b d) as [id|] eqn:Hid; [|contradiction].
  assert (Hpass : passed stop table b d).
  { intros d' Hd'. destruct (slot_lookup table b Hs d') as [id' Hid']. exists id'.
    split; [exact Hid'|]. specialize (Hmin d' Hd'). unfold P in Hmin. rewrite Hid' in Hmin.
    assert (id' <> INVALID_STR_ID) by tauto. split; [assumption|].
    rewrite (Hstop id') by eauto using list_elem_of_lookup_2. f_equal.
    destruct (stopb id'); [tauto | reflexivity]. }
  assert (Hcase : id = INVALID_STR_ID \/ id <> INVALID_STR_ID /\ stopb id = true)
    by (destruct (Z.eq_dec id INVALID_STR_ID); tauto).
  exists d, id. repeat (split; [assumption|]).
  apply probe_at with id; auto; [|lia].
  destruct Hcase as [->|[Hn Hb']]; [now left|]. right.
  rewrite (Hstop id) by eauto using list_elem_of_lookup_2. now rewrite Hb'.
Qed.

Lemma land_le a b : 0 <= a -> 0 <= b -> Z.land a b <= b.
Proof.
  intros Ha Hb. rewrite <- (Z2N.id a), <- (Z2N.id b), <- N2Z.inj_land by assumption.
  apply N2Z.inj_le, N.land_le_r.
Qed.

Lemma first_bucket_range hash table :
  0 < len table <= 4294967296 -> 0 <= hash -> 0 <= first_bucket hash table < len table.
Proof.
  intros Hs Hh. unfold first_bucket. rewrite u64_small by lia.
  pose proof (land_le hash (len table - 1) Hh ltac:(lia)).
  assert (0 <= Z.land hash (len table - 1)) by (apply Z.land_nonneg; lia).
  rewrite u32_small by lia. lia.
Qed.

Lemma first_bucket_len hash t1 t2 : len t1 = len t2 -> first_bucket hash t1 = first_bucket hash t2.
Proof. unfold first_bucket. now intros ->. Qed.

(** ** Tables *)

(** The table holds the ids [0 .. n-1], each reached from the first bucket of its hash without
    passing a free slot. *)
Record table_ok (hashes table : list Z) : Prop := {
  to_size : 0 < len table <= 4294967296;
  to_ids : forall id, id ∈ table -> id = INVALID_STR_ID \/
    exists i, id = Z.of_nat i /\ (i < length hashes)%nat;
  to_path : forall i hash, hashes !! i = Some hash -> exists d,
    table !! slot table (first_bucket hash table) d = Some (Z.of_nat i) /\
    forall d', (d' < d)%nat -> exists id, table !! slot table (first_bucket hash table) d' = Some id /\
      id <> INVALID_STR_ID;
  to_used : used table = length hashes
}.

Lemma table_ok_new n : 0 < Z.of_nat n <= 4294967296 -> table_ok [] (replicate n INVALID_STR_ID).
Proof.
  intros Hn. split.
  - unfold len. now rewrite length_replicate.
  - intros id Hid. apply elem_of_replicate in Hid as [-> _]. now left.
  - intros i hash Hi. destruct i; discriminate.
  - apply used_replicate.
Qed.

(** A new id goes to the free slot at which the probe for its hash ends. *)
Lemma table_ok_insert hashes table hash d :
  table_ok hashes table -> 0 <= hash ->
  table !! slot table (first_bucket hash table) d = Some INVALID_STR_ID ->
  (forall d', (d' < d)%nat -> exists id, table !! slot table (first_bucket hash table) d' = Some id /\
    id <> INVALID_STR_ID) ->
  table_ok (hashes ++ [hash])
    (<[slot table (first_bucket hash table) d := Z.of_nat (length hashes)]> table).
Proof.
  intros [Hs Hi Hp Hu] Hh Hfree Hpass. set (k := slot table (first_bucket hash table) d) in *.
  set (table' := <[k := Z.of_nat (length hashes)]> table).
  assert (El : len table' = len table) by apply insert_len.
  assert (Hslot : forall b e, slot table' b e = slot table b e) by (intros; unfold slot; now rewrite El).
  assert (Hkeep : forall j id, table !! j = Some id -> id <> INVALID_STR_ID -> table' !! j = Some id).
  { intros j id Hj Hn. unfold table'. rewrite list_lookup_insert_ne; [exact Hj|]. congruence. }
  split; rewrite ?El; auto.
  - intros id Hid. apply list_elem_of_lookup in Hid as [j Hj]. rewrite length_app; cbn.
    destruct (decide (k = j)) as [<-|N].
    + unfold table' in Hj. rewrite list_lookup_insert_eq in Hj by (eapply lookup_lt_Some; eauto).
      injection Hj as <-. right. exists (length hashes). split; [reflexivity | lia].
    + unfold table' in Hj. rewrite list_lookup_insert_ne in Hj by exact N.
      destruct (Hi id) as [->|(i & -> & Hlt)]; [eauto using list_elem_of_lookup_2| now left |].
      right. exists i. split; [reflexivity | lia].
  - intros i h Hlook. rewrite (first_bucket_len h table' table El).
    apply lookup_app_Some in Hlook as [Hold|[Hge Hnew]].
    + destruct (Hp i h Hold) as (e & He & Hbefore). exists e. rewrite Hslot. split.
      * apply Hkeep; [exact He | unfold INVALID_STR_ID; lia].
      * intros d' Hd'. destruct (Hbefore d' Hd') as (id & Hid & Hn). exists id. rewrite Hslot. auto.
    + apply list_lookup_singleton_Some in Hnew as [Hz <-]. exists d. rewrite Hslot. fold k. split.
      * unfold table'. rewrite list_lookup_insert_eq by (eapply lookup_lt_Some; eauto). f_equal. lia.
      * intros d' Hd'. destruct (Hpass d' Hd') as (id & Hid & Hn). exists id. rewrite Hslot. auto.
  - unfold table'. rewrite used_insert, Hu, length_app by (auto; unfold INVALID_STR_ID; lia). cbn. lia.
Qed.

(** ** Placing ids *)

Lemma unique_bucket hashes table hash :
  table_ok hashes table -> 0 <= hash -> (length hashes < length table)%nat ->
  exists d, computeUniqueBucketWithHash hash table
    = Ok (Z.of_nat (slot table (first_bucket hash table) d), Z.of_nat d) /\
    table !! slot table (first_bucket hash table) d = Some INVALID_STR_ID /\
    table_ok (hashes ++ [hash])
      (<[slot table (first_bucket hash table) d := Z.of_nat (length hashes)]> table).
Proof.
  intros T Hh Hroom. destruct (to_size _ _ T) as [Hs1 Hs2].
  destruct (probe_ends (fun _ => Ok false) (fun _ => false) table (first_bucket hash table) 0)
    as (d & id & Hid & [->|[_ Hf]] & Hpass & Hp); auto; try discriminate.
  - now apply first_bucket_range.
  - now rewrite (to_used _ _ T).
  - exists d. split; [exact Hp|]. split; [exact Hid|]. apply table_ok_insert; auto.
    intros d' Hd'. destruct (Hpass d' Hd') as (id' & ? & ? & _). eauto.
Qed.

Lemma place_spec hashes table hash collisions :
  table_ok hashes table -> 0 <= hash -> (length hashes < length table)%nat ->
  Z.of_nat (length hashes) < 2147483648 ->
  exists table' collisions', place hash (Z.of_nat (length hashes)) table collisions
    = Ok (table', collisions') /\ table_ok (hashes ++ [hash]) table' /\ len table' = len table.
Proof.
  intros T Hh Hroom Hmax. destruct (unique_bucket hashes table hash T Hh Hroom) as (d & E & _ & T').
  unfold place. rewrite E, s32_small, Nat2Z.id by lia. eexists _, _. split; [reflexivity|].
  split; [exact T' | apply insert_len].
Qed.

Lemma place_loop_spec hash_of hashes n : forall i table collisions,
  table_ok (take i hashes) table -> (i + n <= length hashes)%nat ->
  (forall j hash, (i <= j < i + n)%nat -> hashes !! j = Some hash -> hash_of (Z.of_nat j) = Ok hash /\ 0 <= hash) ->
  (i + n <= length table)%nat -> Z.of_nat (i + n) <= 2147483648 ->
  exists table' collisions', place_loop n hash_of (Z.of_nat i) table collisions
    = Ok (table', collisions') /\ table_ok (take (i + n) hashes) table' /\ len table' = len table.
Proof.
  induction n as [|n IH]; intros i table collisions T Hlen Hof Hroom Hmax; cbn [place_loop].
  - rewrite Nat.add_0_r. eauto.
  - destruct (lookup_lt_is_Some_2 hashes i ltac:(lia)) as [hash Hi].
    destruct (Hof i hash ltac:(lia) Hi) as [-> Hpos].
    destruct (place_spec (take i hashes) table hash collisions T Hpos) as (t1 & c1 & E & T1 & L1);
      rewrite ?length_take; try lia.
    rewrite length_take, Nat.min_l in E by lia. rewrite E.
    rewrite <- take_S_r in T1 by exact Hi.
    replace (Z.of_nat i + 1) with (Z.of_nat (S i)) by lia.
    destruct (IH (S i) t1 c1 T1) as (t2 & c2 & E2 & T2 & L2); try lia.
    + intros j h Hj. apply Hof. lia.
    + unfold len in L1. lia.
    + exists t2, c2. split; [exact E2|].
      replace (i + S n)%nat with (S i + n)%nat by lia. split; [exact T2 | congruence].
Qed.

(** * What a string dictionary stands for

    [represents d strs]: the dictionary [d] stores the strings [strs], all different, under
    the ids [0, 1, ...], and its hash table finds each of them. *)

#[local] Abbreviation table_ := string_id_string_dict_hash_table_.

(** ** The abstract dictionary *)

Fixpoint position (strs : list (list Z)) (str : list Z) : option nat :=
  match strs with
  | [] => None
  | s :: strs' => if decide (s = str) then Some 0%nat else S <$> position strs' str
  end.

(** The id of a string, [INVALID_STR_ID] when it has none. *)
Definition find_id (strs : list (list Z)) (str : list Z) : Z :=
  match position strs str with
  | Some i => Z.of_nat i
  | None => INVALID_STR_ID
  end.

Lemma position_Some strs str i : position strs str = Some i -> strs !! i = Some str.
Proof.
  revert i. induction strs as [|s strs IH]; intros i; cbn; [discriminate|].
  destruct (decide (s = str)) as [->|N]; [intros [= <-]; reflexivity|].
  intros (j & Hj & ->)%fmap_Some. now apply IH.
Qed.

Lemma position_None strs str : position strs str = None <-> str ∉ strs.
Proof.
  induction strs as [|s strs IH]; cbn; [split; set_solver|].
  destruct (decide (s = str)) as [->|N]; [split; [discriminate | set_solver]|].
  rewrite fmap_None, IH. set_solver.
Qed.

Lemma position_NoDup strs str i : NoDup strs -> strs !! i = Some str -> position strs str = Some i.
Proof.
  intros Hn Hi. destruct (position strs str) as [j|] eqn:E.
  - f_equal. apply position_Some in E. exact (NoDup_lookup _ _ _ _ Hn E Hi).
  - apply position_None in E. destruct E. eapply list_elem_of_lookup_2; eauto.
Qed.

Lemma find_id_lookup strs str i : NoDup strs -> strs !! i = Some str -> find_id strs str = Z.of_nat i.
Proof. intros Hn Hi. unfold find_id. now rewrite (position_NoDup strs str i Hn Hi). Qed.

Lemma find_id_absent strs str : str ∉ strs -> find_id strs str = INVALID_STR_ID.
Proof. intros Hn. unfold find_id. now rewrite (proj2 (position_None strs str) Hn). Qed.

Lemma find_id_cases strs str :
  (find_id strs str = INVALID_STR_ID /\ str ∉ strs) \/
  exists i, find_id strs str = Z.of_nat i /\ strs !! i = Some str.
Proof.
  unfold find_id. destruct (position strs str) as [i|] eqn:E.
  - right. exists i. split; [reflexivity | now apply position_Some].
  - left. split; [reflexivity | now apply position_None].
Qed.

Lemma hash_string_range str : 0 <= hash_string str < 4294967296.
Proof.
  unfold hash_string. destruct str as [|c str] using rev_ind; [cbn; lia|].
  rewrite fold_left_app. cbn. apply u32_range.
Qed.

(** ** The invariant *)

(** The storage and the cached hashes. *)
Record holds (d : StringDictionary) (strs : list (list Z)) : Prop := {
  ho_storage : stored (storage_ d) strs;
  ho_hashes : materialize_hashes_ d = true -> forall i str, strs !! i = Some str ->
    hash_cache_ d !! i = Some (hash_string str);
  ho_nodup : NoDup strs
}.

Definition hashes_of (strs : list (list Z)) : list Z := map hash_string strs.

Record represents (d : StringDictionary) (strs : list (list Z)) : Prop := {
  rp_holds : holds d strs;
  rp_count : str_count_ d = len strs;
  rp_max : len strs <= MAX_STRCOUNT;
  rp_nonempty : [] ∉ strs;
  rp_table : table_ok (hashes_of strs) (table_ d);
  rp_power : exists k, 1 <= k <= 32 /\ len (table_ d) = 2 ^ k;
  rp_room : 2 * len strs <= len (table_ d);
  rp_hroom : materialize_hashes_ d = true -> len (table_ d) <= 2 * len (hash_cache_ d)
}.

Lemma hashes_lookup strs i str :
  strs !! i = Some str -> hashes_of strs !! i = Some (hash_string str).
Proof. intros Hi. unfold hashes_of. change (map hash_string strs) with (hash_string <$> strs).
  now rewrite list_lookup_fmap, Hi. Qed.

Lemma hashes_lookup_inv strs i h :
  hashes_of strs !! i = Some h -> exists str, strs !! i = Some str /\ h = hash_string str.
Proof.
  unfold hashes_of. change (map hash_string strs) with (hash_string <$> strs).
  rewrite list_lookup_fmap. intros (str & Hs & ->)%fmap_Some. eauto.
Qed.

Lemma hashes_of_app l1 l2 : hashes_of (l1 ++ l2) = hashes_of l1 ++ hashes_of l2.
Proof. apply map_app. Qed.

Lemma hashes_of_length strs : length (hashes_of strs) = length strs.
Proof. apply length_map. Qed.

(** ** Lookup *)

Lemma same_string_spec s strs str i x :
  stored s strs -> strs !! i = Some x -> same_string s str (Z.of_nat i) = bool_decide (x = str).
Proof.
  intros S Hi. unfold same_string. rewrite (stored_size s strs i x S Hi), (read_fast s strs i x S Hi).
  destruct (bool_decide_reflect (x = str)) as [->|N].
  - rewrite Z.eqb_refl. now apply bool_decide_eq_true.
  - destruct (_ =? _); [|reflexivity]. apply bool_decide_eq_false. congruence.
Qed.

Lemma is_string_spec d strs str i x :
  holds d strs -> strs !! i = Some x ->
  is_string d (hash_string str) str (Z.of_nat i) = Ok (bool_decide (x = str)).
Proof.
  intros [S Hh _] Hi. unfold is_string, hash_may_match.
  destruct (materialize_hashes_ d); [|now rewrite (same_string_spec _ strs str i x)].
  rewrite Nat2Z.id, (Hh eq_refl i x Hi). destruct (Z.eqb_spec (hash_string str) (hash_string x)) as [E|E].
  - now rewrite (same_string_spec _ strs str i x).
  - symmetry. f_equal. apply bool_decide_eq_false. congruence.
Qed.

(** A probe that stops at the string [str]: at the slot of its id, or at a free one where its
    id can go. *)
Lemma probe_string stop strs table str :
  NoDup strs -> table_ok (hashes_of strs) table -> (length strs < length table)%nat ->
  (forall i x, strs !! i = Some x -> stop (Z.of_nat i) = Ok (bool_decide (x = str))) ->
  exists k steps,
    probe (S (length table)) stop table (first_bucket (hash_string str) table) 0 = Ok (Z.of_nat k, steps) /\
    table !! k = Some (find_id strs str) /\
    (find_id strs str = INVALID_STR_ID ->
       table_ok (hashes_of (strs ++ [str])) (<[k := len strs]> table)).
Proof.
  intros Hnd T Hroom Hstop. pose proof (hash_string_range str) as Hh. pose proof (to_size _ _ T) as Hs.
  set (stopb id := bool_decide (strs !! Z.to_nat id = Some str)).
  destruct (probe_ends stop stopb table (first_bucket (hash_string str) table) 0)
    as (e & id & Hid & Hcase & Hpass & Hp); auto.
  - apply first_bucket_range; [exact Hs | lia].
  - now rewrite (to_used _ _ T), hashes_of_length.
  - intros id Hid Hn. destruct (to_ids _ _ T id Hid) as [|(i & -> & Hi)]; [contradiction|].
    rewrite hashes_of_length in Hi. destruct (lookup_lt_is_Some_2 strs i Hi) as [x Hx].
    rewrite (Hstop i x Hx). unfold stopb. rewrite Nat2Z.id, Hx.
    f_equal. apply bool_decide_ext. split; congruence.
  - exists (slot table (first_bucket (hash_string str) table) e), (0 + Z.of_nat e).
    split; [exact Hp|].
    destruct (find_id_cases strs str) as [[-> Hn]|(i & Ei & Hi)].
    + destruct Hcase as [->|[_ Hb]].
      * split; [exact Hid|]. intros _. rewrite hashes_of_app. unfold len.
        rewrite <- (hashes_of_length strs). apply table_ok_insert; auto; [lia|].
        intros d' Hd'. destruct (Hpass d' Hd') as (id' & ? & ? & _). eauto.
      * unfold stopb in Hb. apply bool_decide_eq_true in Hb. destruct Hn.
        eapply list_elem_of_lookup_2; eauto.
    + rewrite Ei. split; [|unfold INVALID_STR_ID; lia].
      destruct (to_path _ _ T i (hash_string str) (hashes_lookup strs i str Hi)) as (e' & He' & Hbefore).
      assert (Hle : (e <= e')%nat).
      { destruct (le_lt_dec e e') as [|Hlt]; [assumption|]. exfalso.
        destruct (Hpass e' Hlt) as (id' & Hid' & _ & Hf). rewrite He' in Hid'. injection Hid' as <-.
        rewrite (Hstop i str Hi), bool_decide_eq_true_2 in Hf by reflexivity. discriminate. }
      assert (Hn : id <> INVALID_STR_ID).
      { destruct (decide (e = e')) as [->|].
        - rewrite He' in Hid. injection Hid as <-. unfold INVALID_STR_ID. lia.
        - destruct (Hbefore e ltac:(lia)) as (id' & Hid' & Hn'). congruence. }
      destruct Hcase as [->|[_ Hb]]; [contradiction|].
      rewrite Hid. f_equal. unfold stopb in Hb. apply bool_decide_eq_true in Hb.
      assert (Z.to_nat id = i) as <- by exact (NoDup_lookup _ _ _ _ Hnd Hb Hi).
      destruct (to_ids _ _ T id ltac:(eauto using list_elem_of_lookup_2)) as [|(j & -> & _)];
        [contradiction | lia].
Qed.

(** The bucket of a string: that of its id, or a free one where its id can go. *)
Lemma computeBucket_spec d strs table str :
  holds d strs -> table_ok (hashes_of strs) table -> (length strs < length table)%nat ->
  exists k, computeBucket d (hash_string str) str table = Ok (Z.of_nat k) /\
    table !! k = Some (find_id strs str) /\
    (find_id strs str = INVALID_STR_ID ->
       table_ok (hashes_of (strs ++ [str])) (<[k := len strs]> table)).
Proof.
  intros Ho T Hroom.
  destruct (probe_string (is_string d (hash_string str) str) strs table str) as (k & steps & E & L & Tk);
    auto; [apply Ho | intros i x Hi; now apply is_string_spec with strs|].
  exists k. unfold computeBucket. rewrite E. auto.
Qed.

(** ** Growing the table *)

(** [d'] is [d] with other tables. *)
Definition rehashed (d d' : StringDictionary) : Prop :=
  exists table hashes collisions, d' = set_table table (set_hashes hashes (set_collisions collisions d)).

Lemma stored_hash_spec s strs i str :
  stored s strs -> strs !! i = Some str -> stored_hash s (Z.of_nat i) = Ok (hash_string str).
Proof. intros S Hi. unfold stored_hash. now rewrite (read_checked s strs i str S Hi). Qed.

Lemma holds_hash_of d strs i hash :
  holds d strs -> hashes_of strs !! i = Some hash ->
  (if materialize_hashes_ d then hash_at (hash_cache_ d) else stored_hash (storage_ d)) (Z.of_nat i)
  = Ok hash /\ 0 <= hash.
Proof.
  intros [S Hh _] (str & Hi & ->)%hashes_lookup_inv. split; [|apply hash_string_range].
  destruct (materialize_hashes_ d).
  - unfold hash_at. now rewrite Nat2Z.id, (Hh eq_refl i str Hi).
  - exact (stored_hash_spec _ strs i str S Hi).
Qed.

(** All the ids, placed in a table of twice the size. *)
Lemma place_all d strs n collisions :
  holds d strs -> (length strs <= n)%nat -> 0 < Z.of_nat n <= 4294967296 -> len strs <= MAX_STRCOUNT ->
  exists table' collisions',
    place_loop (length strs)
      (if materialize_hashes_ d then hash_at (hash_cache_ d) else stored_hash (storage_ d)) 0
      (replicate n INVALID_STR_ID) collisions = Ok (table', collisions') /\
    table_ok (hashes_of strs) table' /\ len table' = Z.of_nat n.
Proof.
  intros Ho Hn Hs Hmax. unfold len, MAX_STRCOUNT in Hmax.
  destruct (place_loop_spec
              (if materialize_hashes_ d then hash_at (hash_cache_ d) else stored_hash (storage_ d))
              (hashes_of strs) (length strs) 0 (replicate n INVALID_STR_ID) collisions)
    as (t & c & E & T & L).
  - rewrite take_0. now apply table_ok_new.
  - rewrite hashes_of_length. lia.
  - intros j hash _ Hj. now apply (holds_hash_of d strs).
  - rewrite length_replicate. lia.
  - lia.
  - exists t, c. split; [exact E|]. cbn in T. rewrite <- (hashes_of_length strs), firstn_all in T.
    split; [exact T|]. rewrite L. unfold len. now rewrite length_replicate.
Qed.

Lemma increase_spec d strs :
  holds d strs -> str_count_ d = len strs -> len strs <= MAX_STRCOUNT ->
  (length strs <= 2 * length (table_ d))%nat -> 0 < 2 * len (table_ d) <= 4294967296 ->
  exists d', increaseHashTableCapacity d = (Ok tt, d') /\ rehashed d d' /\ holds d' strs /\
    table_ok (hashes_of strs) (table_ d') /\ len (table_ d') = 2 * len (table_ d) /\
    (materialize_hashes_ d = true -> len (hash_cache_ d') = 2 * len (hash_cache_ d)).
Proof.
  intros Ho Hc Hmax Hfit Hsize. unfold increaseHashTableCapacity, bind, query, gets, modify; cbn.
  rewrite Hc. unfold len at 1. rewrite Nat2Z.id.
  destruct (place_all d strs (2 * length (table_ d)) (collisions_ d)) as (t & c & E & T & L);
    auto; [unfold len in Hsize; lia|].
  change (length (table_ d) + (length (table_ d) + 0))%nat with (2 * length (table_ d))%nat.
  rewrite E. clear E. destruct Ho as [S Hh Hn].
  assert (El : len t = 2 * len (table_ d)) by (rewrite L; unfold len; lia).
  destruct (materialize_hashes_ d) eqn:M; cbn.
  - eexists. split; [reflexivity|]. split; [repeat eexists|]. split; [|split; [exact T | split; [exact El|]]].
    + split; cbn; auto. intros _ i str Hi. apply lookup_app_l_Some. auto.
    + intros _. cbn. unfold len. rewrite length_app, length_replicate. lia.
  - eexists. split; [reflexivity|]. split; [exists t, (hash_cache_ d), c; now destruct d|].
    split; [|split; [exact T | split; [exact El | easy]]].
    split; cbn; auto. rewrite M. discriminate.
Qed.

(** ** Adding a string *)

Lemma store_at_ok {A : Type} i (v : A) l : (i < length l)%nat -> store_at (Z.of_nat i) v l = Ok (<[i := v]> l).
Proof.
  intros Hi. unfold store_at, len. destruct (Z.leb_spec 0 (Z.of_nat i)); [|lia].
  destruct (Z.ltb_spec (Z.of_nat i) (Z.of_nat (length l))); [|lia]. now rewrite Nat2Z.id.
Qed.

Lemma load_at_ok {A : Type} i (v : A) l : l !! i = Some v -> load_at (Z.of_nat i) l = Ok v.
Proof.
  intros Hi. unfold load_at. destruct (Z.leb_spec 0 (Z.of_nat i)); [|lia]. now rewrite Nat2Z.id, Hi.
Qed.

(** [d] with one more string, stored in [s], its id in slot [k]. *)
Definition with_string (s : Storage) (k : nat) (hash : Z) (d : StringDictionary) : StringDictionary :=
  set_count (str_count_ d + 1)
    (set_table (<[k := str_count_ d]> (table_ d))
       (set_hashes (if materialize_hashes_ d then <[Z.to_nat (str_count_ d) := hash]> (hash_cache_ d)
                    else hash_cache_ d)
          (set_storage s d))).

Section Env.

Context `{DictEnvOk}.

Lemma add_holds d strs str s k :
  holds d strs -> str_count_ d = len strs -> str ∉ strs ->
  (materialize_hashes_ d = true -> (length strs < length (hash_cache_ d))%nat) ->
  stored s (strs ++ [str]) -> holds (with_string s k (hash_string str) d) (strs ++ [str]).
Proof.
  intros [S Hh Hn] Hc Hnew Hroom Ss. split; cbn; auto.
  - intros M i x Hi. rewrite M, Hc. unfold len. rewrite Nat2Z.id. specialize (Hroom M).
    apply lookup_app_Some in Hi as [Hi|[Hge Hi]].
    + rewrite list_lookup_insert_ne by (apply lookup_lt_Some in Hi; lia). auto.
    + apply list_lookup_singleton_Some in Hi as [Hz <-]. assert (i = length strs) as -> by lia.
      now rewrite list_lookup_insert_eq.
  - apply NoDup_app. split; [exact Hn|]. split; [set_solver | apply NoDup_singleton].
Qed.

Lemma add_represents d strs str s k :
  represents d strs -> 2 * len strs < len (table_ d) -> len strs < MAX_STRCOUNT -> str <> [] -> str ∉ strs ->
  stored s (strs ++ [str]) ->
  table_ok (hashes_of (strs ++ [str])) (<[k := len strs]> (table_ d)) ->
  represents (with_string s k (hash_string str) d) (strs ++ [str]).
Proof.
  intros R Hfill Hmax Hne Hnew Ss T. destruct R as [Ho Hc Hm Hnil Ht (e & He & Hp) Hroom Hh].
  assert (Heven : len (table_ d) = 2 * 2 ^ (e - 1))
    by (rewrite Hp, <- Z.pow_succ_r by lia; f_equal; lia).
  split; cbn; rewrite ?insert_len, ?len_app; change (len [str]) with 1; try lia.
  - apply add_holds; auto. intros M. specialize (Hh M). unfold len in *. lia.
  - set_solver.
  - now rewrite Hc.
  - eauto.
  - intros M. rewrite M, insert_len. auto.
Qed.

Lemma append_spec d strs str :
  holds d strs -> str_count_ d = len strs -> len strs < MAX_STRCOUNT -> len str <= MAX_STRLEN ->
  exists s, append str d = (Ok tt, set_storage s d) /\ stored s (strs ++ [str]).
Proof.
  intros Ho Hc Hmax Hl. destruct (appendToStorage_spec (storage_ d) strs str (ho_storage _ _ Ho) Hmax Hl)
    as (s & E & S). exists s. split; [|exact S].
  unfold append, bind, query, modify. now rewrite Hc, E.
Qed.

Lemma put_table_spec d k id :
  (k < length (table_ d))%nat -> put_table (Z.of_nat k) id d = (Ok tt, set_table (<[k := id]> (table_ d)) d).
Proof. intros Hk. unfold put_table, bind, query, modify. now rewrite store_at_ok. Qed.

Lemma put_hash_spec d i hash :
  (materialize_hashes_ d = true -> (i < length (hash_cache_ d))%nat) ->
  put_hash (Z.of_nat i) hash d
  = (Ok tt, set_hashes (if materialize_hashes_ d then <[i := hash]> (hash_cache_ d) else hash_cache_ d) d).
Proof.
  intros Hi. unfold put_hash, bind, query, gets, modify, ret. destruct (materialize_hashes_ d) eqn:M.
  - now rewrite store_at_ok by auto.
  - now destruct d.
Qed.

(** A full table is doubled only while its size is below 2^32. *)
Lemma double_size n count :
  (exists k, 1 <= k <= 32 /\ n = 2 ^ k) -> n <= count * 2 -> count <= MAX_STRCOUNT ->
  0 < 2 * n <= 4294967296 /\ exists k, 1 <= k <= 32 /\ 2 * n = 2 ^ k.
Proof.
  intros (e & He & Hp) Hhigh Hm. unfold MAX_STRCOUNT in Hm.
  assert (Hpow : 2 * n = 2 ^ (e + 1)) by (rewrite Hp, Z.pow_add_r by lia; lia).
  assert (e <= 31).
  { destruct (Z_le_gt_dec e 31) as [|G]; [assumption|].
    assert (e = 32) as -> by lia. change (2 ^ 32) with 4294967296 in Hp. lia. }
  assert (2 ^ (e + 1) <= 2 ^ 32) by (apply Z.pow_le_mono_r; lia).
  assert (0 < 2 ^ e) by (apply Z.pow_pos_nonneg; lia). change (2 ^ 32) with 4294967296 in *.
  split; [lia|]. exists (e + 1). split; [lia | exact Hpow].
Qed.

Lemma table_make_room d strs :
  represents d strs ->
  exists d', (if fillRateIsHigh d (str_count_ d) then increaseHashTableCapacity else ret tt) d = (Ok tt, d') /\
    rehashed d d' /\ represents d' strs /\ 2 * len strs < len (table_ d').
Proof.
  intros R. pose proof R as [Ho Hc Hm Hnil Ht Hp Hroom Hh]. unfold fillRateIsHigh. rewrite Hc.
  destruct (Z.leb_spec (len (table_ d)) (len strs * 2)) as [Hhigh|Hlow].
  - destruct (double_size _ _ Hp Hhigh Hm) as [Hsize Hp'].
    destruct (increase_spec d strs) as (d' & E & Hre & Ho' & T' & L' & H'); auto; [unfold len in *; lia|].
    exists d'. split; [exact E|]. split; [exact Hre|].
    assert (Em : materialize_hashes_ d' = materialize_hashes_ d /\ str_count_ d' = str_count_ d)
      by (destruct Hre as (? & ? & ? & ->); now cbn).
    destruct Em as [Em Ec]. split; [|lia]. split; auto; try congruence; try lia.
    + now rewrite L'.
    + rewrite Em. intros M. specialize (Hh M). specialize (H' M). lia.
  - exists d. split; [reflexivity|]. split; [|split; [exact R | lia]].
    exists (table_ d), (hash_cache_ d), (collisions_ d). now destruct d.
Qed.

(** Everything but the queries' caches stays a representation. *)
Lemma represents_caches d strs l r e c s :
  represents d strs -> represents (set_caches l r e c s d) strs.
Proof. intros [[S Hh Hn] Hc Hm Hnil Ht Hp Hroom Hhr]. split; cbn; auto. now split. Qed.

Lemma represents_free d strs : represents d strs -> (length strs < length (table_ d))%nat.
Proof.
  intros [_ _ _ _ _ (e & He & Hp) Hroom _]. unfold len in *.
  assert (0 < 2 ^ e) by (apply Z.pow_pos_nonneg; lia). lia.
Qed.

Lemma lookup_bucket d strs str :
  represents d strs ->
  exists k, computeBucket d (hash_string str) str (table_ d) = Ok (Z.of_nat k) /\
    load_at (Z.of_nat k) (table_ d) = Ok (find_id strs str) /\ (k < length (table_ d))%nat /\
    (find_id strs str = INVALID_STR_ID ->
       table_ok (hashes_of (strs ++ [str])) (<[k := len strs]> (table_ d))).
Proof.
  intros R. destruct (computeBucket_spec d strs (table_ d) str) as (k & E & Hk & T);
    [apply R | apply R | now apply represents_free|].
  exists k. split; [exact E|]. split; [now apply load_at_ok|]. split; [|exact T].
  eapply lookup_lt_Some; eauto.
Qed.

Lemma getUnlocked_spec d strs str : represents d strs -> getUnlocked d str = Ok (find_id strs str).
Proof.
  intros R. destruct (lookup_bucket d strs str R) as (k & E & L & _).
  unfold getUnlocked. now rewrite E, L.
Qed.

Lemma represents_hash_room d strs :
  represents d strs -> 2 * len strs < len (table_ d) -> materialize_hashes_ d = true ->
  (length strs < length (hash_cache_ d))%nat.
Proof. intros [_ _ _ _ _ _ _ Hh] Hf M. specialize (Hh M). unfold len in *. lia. Qed.

End Env.
