(* ===== verification/DictOps.v ===== *)
(** * Adding strings refines the abstract dictionary *)

From Stdlib Require Import ZArith Lia List Bool.
From stdpp Require Import base list numbers sets gmap.
From S2P Require Import Prelude StateMonad DictStorage StringDictionary DictFacts.
Import ListNotations.
Local Open Scope Z_scope.

#[local] Abbreviation table_ := string_id_string_dict_hash_table_.

(** ** The abstract operation *)

(** The id of [str] and the strings afterwards: the empty string is the null value, a known
    string keeps its id, and a new one gets the next id. *)
Definition add_string (null : Z) (strs : list (list Z)) (str : list Z) : Z * list (list Z) :=
  if decide (str = []) then (null, strs)
  else match position strs str with
       | Some i => (Z.of_nat i, strs)
       | None => (len strs, strs ++ [str])
       end.

Lemma add_string_nil null strs : add_string null strs [] = (null, strs).
Proof. reflexivity. Qed.

Lemma add_string_known null strs str i :
  NoDup strs -> str <> [] -> strs !! i = Some str -> add_string null strs str = (Z.of_nat i, strs).
Proof.
  intros Hn Hne Hi. unfold add_string. rewrite decide_False by exact Hne.
  now rewrite (position_NoDup strs str i Hn Hi).
Qed.

Lemma add_string_new null strs str :
  str <> [] -> str ∉ strs -> add_string null strs str = (len strs, strs ++ [str]).
Proof.
  intros Hne Hn. unfold add_string. rewrite decide_False by exact Hne.
  now rewrite (proj2 (position_None strs str) Hn).
Qed.

(** ** Running the monad *)

Lemma run_query {A B : Type} (f : StringDictionary -> result DictError A) (k : A -> DM B) d a :
  f d = Ok a -> bind (query f) k d = k a d.
Proof. unfold bind, query. now intros ->. Qed.

Lemma run_gets {A B : Type} (f : StringDictionary -> A) (k : A -> DM B) d :
  bind (gets f) k d = k (f d) d.
Proof. reflexivity. Qed.

Lemma run_modify {B : Type} (f : StringDictionary -> StringDictionary) (k : unit -> DM B) d :
  bind (modify f) k d = k tt (f d).
Proof. reflexivity. Qed.

Lemma run_check {B : Type} (b : bool) (k : unit -> DM B) d : b = true -> bind (check b) k d = k tt d.
Proof. now intros ->. Qed.

Lemma run_check_fail {B : Type} (b : bool) (k : unit -> DM B) d :
  b = false -> bind (check b) k d = (Err DCheck, d).
Proof. now intros ->. Qed.

Lemma len_zero {A : Type} (l : list A) : l <> [] -> (len l =? 0) = false.
Proof. destruct l; [contradiction|]. intros _. apply Z.eqb_neq. unfold len. cbn. lia. Qed.

Section Env.

Context `{DictEnvOk}.

(** The caches that [invalidateInvertedIndex] empties. *)
Definition no_caches (d : StringDictionary) : Prop :=
  like_cache_ d = ∅ /\ regex_cache_ d = ∅ /\ equal_cache_ d = ∅ /\ compare_cache_ d = ∅.

(** What the additions leave alone. *)
Definition same_frame (d d' : StringDictionary) : Prop :=
  dict_ref_ d' = dict_ref_ d /\ materialize_hashes_ d' = materialize_hashes_ d /\
  sorted_cache d' = sorted_cache d /\ strings_cache_ d' = strings_cache_ d.

Definition same_caches (d d' : StringDictionary) : Prop :=
  like_cache_ d' = like_cache_ d /\ regex_cache_ d' = regex_cache_ d /\
  equal_cache_ d' = equal_cache_ d /\ compare_cache_ d' = compare_cache_ d.

Lemma rehashed_frame d d' : rehashed d d' -> same_frame d d' /\ same_caches d d'.
Proof. intros (? & ? & ? & ->). repeat split. Qed.

(** ** One string *)

Lemma getOrAddImpl_known d strs str i :
  represents d strs -> str <> [] -> len str <= MAX_STRLEN -> strs !! i = Some str ->
  getOrAddImpl str d = (Ok (Z.of_nat i), d).
Proof.
  intros R Hne Hl Hi. unfold getOrAddImpl. rewrite (len_zero str Hne).
  rewrite run_check by (apply Z.leb_le; exact Hl).
  destruct (lookup_bucket d strs str R) as (k & E & L & _).
  rewrite (run_query _ _ d _ E), (run_query _ _ d _ L).
  rewrite (find_id_lookup strs str i (ho_nodup _ _ (rp_holds _ _ R)) Hi).
  destruct (Z.eqb_spec (Z.of_nat i) INVALID_STR_ID); [unfold INVALID_STR_ID in *; lia | reflexivity].
Qed.

(** The steps that put a new string into a free bucket. *)
Lemma put_string d strs str k :
  represents d strs -> 2 * len strs < len (table_ d) -> len strs < MAX_STRCOUNT ->
  str <> [] -> len str <= MAX_STRLEN -> str ∉ strs -> (k < length (table_ d))%nat ->
  table_ok (hashes_of (strs ++ [str])) (<[k := len strs]> (table_ d)) ->
  exists s,
    append str d = (Ok tt, set_storage s d) /\
    put_table (Z.of_nat k) (s32 (len strs)) (set_storage s d)
    = (Ok tt, set_table (<[k := len strs]> (table_ d)) (set_storage s d)) /\
    represents (with_string s k (hash_string str) d) (strs ++ [str]).
Proof.
  intros R Hf Hmax Hne Hl Hn Hk T.
  destruct (append_spec d strs str) as (s & E & S); auto; [apply R | apply R |].
  exists s. split; [exact E|]. pose proof (len_nonneg strs). unfold MAX_STRCOUNT in Hmax.
  rewrite s32_small by lia. split.
  - now rewrite (put_table_spec (set_storage s d) k).
  - now apply add_represents.
Qed.

Lemma u64_succ (strs : list (list Z)) : len strs < MAX_STRCOUNT -> u64 (len strs + 1) = len strs + 1.
Proof. intros Hm. pose proof (len_nonneg strs). unfold MAX_STRCOUNT in Hm. apply u64_small. lia. Qed.

Lemma getOrAddImpl_new d strs str :
  represents d strs -> str <> [] -> len str <= MAX_STRLEN -> str ∉ strs -> len strs < MAX_STRCOUNT ->
  exists d', getOrAddImpl str d = (Ok (len strs), d') /\ represents d' (strs ++ [str]) /\
    same_frame d d' /\ no_caches d'.
Proof.
  intros R Hne Hl Hn Hmax. unfold getOrAddImpl. rewrite (len_zero str Hne).
  rewrite run_check by (apply Z.leb_le; exact Hl).
  pose proof (find_id_absent strs str Hn) as Eid.
  destruct (lookup_bucket d strs str R) as (k & E & L & _). rewrite Eid in L.
  rewrite (run_query _ _ d _ E), (run_query _ _ d _ L). cbn [negb]. rewrite Z.eqb_refl. cbn [negb].
  rewrite run_gets. destruct (table_make_room d strs R) as (d1 & E1 & Hre & R1 & Hf).
  rewrite (bind_ok _ _ _ _ _ E1).
  destruct (lookup_bucket d1 strs str R1) as (k1 & Ek & Lk & Hk & T). rewrite Eid in Lk, T.
  rewrite (run_query _ _ d1 _ Ek), (run_query _ _ d1 _ Lk). rewrite Z.eqb_refl.
  destruct (put_string d1 strs str k1) as (s & Ea & Ep & R2); auto.
  assert (Ec : str_count_ d1 = len strs) by apply R1.
  rewrite bind_assoc, run_gets, Ec. rewrite bind_assoc, run_check by (apply Z.ltb_lt; exact Hmax).
  rewrite bind_assoc, (bind_ok _ _ _ _ _ Ea). rewrite bind_assoc, (bind_ok _ _ _ _ _ Ep).
  set (d2 := set_table _ _). unfold len at 1.
  rewrite bind_assoc, (bind_ok _ _ _ _ _ (put_hash_spec d2 (length strs) (hash_string str)
                                          (represents_hash_room d1 strs R1 Hf))).
  rewrite bind_assoc, run_modify, u64_succ, run_modify by exact Hmax.
  match goal with |- context [query _ ?D] => set (d3 := D) end.
  assert (E3 : d3 = invalidateInvertedIndex (with_string s k1 (hash_string str) d1)).
  { unfold d3, d2, with_string. rewrite Ec. unfold len. now rewrite Nat2Z.id. }
  exists d3. split; [|split; [|split]].
  - unfold query. rewrite (load_at_ok k1 (len strs)); [reflexivity|].
    rewrite E3. cbn. rewrite Ec. now rewrite list_lookup_insert_eq.
  - rewrite E3. now apply represents_caches.
  - destruct (proj1 (rehashed_frame _ _ Hre)) as (? & ? & ? & ?). rewrite E3. repeat split; assumption.
  - rewrite E3. repeat split.
Qed.

(** [getOrAdd] does what the abstract dictionary does. *)
Lemma getOrAdd_spec d strs str :
  represents d strs -> len str <= MAX_STRLEN -> (len strs < MAX_STRCOUNT \/ str = [] \/ str ∈ strs) ->
  exists d', getOrAdd str d = (Ok (fst (add_string null_id strs str)), d') /\
    represents d' (snd (add_string null_id strs str)) /\ same_frame d d' /\
    (d' = d \/ no_caches d').
Proof.
  intros R Hl Hroom. unfold getOrAdd. destruct (decide (str = [])) as [->|Hne].
  - exists d. split; [reflexivity|]. split; [exact R|]. split; [repeat split | now left].
  - destruct (position strs str) as [i|] eqn:Ep.
    + pose proof (position_Some _ _ _ Ep) as Hi.
      rewrite (add_string_known null_id strs str i) by (auto; apply R). cbn.
      exists d. split; [now apply (getOrAddImpl_known d strs)|]. split; [exact R|]. split; [repeat split | now left].
    + apply position_None in Ep. rewrite add_string_new by assumption. cbn.
      destruct (getOrAddImpl_new d strs str) as (d' & E & R' & F & C); auto; [set_solver|].
      eauto 6.
Qed.

Lemma getOrAdd_too_long d str :
  MAX_STRLEN < len str -> getOrAdd str d = (Err DCheck, d).
Proof.
  intros Hl. unfold getOrAdd, getOrAddImpl. unfold MAX_STRLEN in Hl.
  destruct (Z.eqb_spec (len str) 0); [lia|]. apply run_check_fail. unfold MAX_STRLEN. lia.
Qed.

Lemma getOrAdd_full d strs str :
  represents d strs -> str <> [] -> len str <= MAX_STRLEN -> str ∉ strs -> len strs = MAX_STRCOUNT ->
  fst (getOrAdd str d) = Err DCheck.
Proof.
  intros R Hne Hl Hn Hmax. unfold getOrAdd, getOrAddImpl. rewrite (len_zero str Hne).
  rewrite run_check by (apply Z.leb_le; exact Hl).
  pose proof (find_id_absent strs str Hn) as Eid.
  destruct (lookup_bucket d strs str R) as (k & E & L & _). rewrite Eid in L.
  rewrite (run_query _ _ d _ E), (run_query _ _ d _ L), Z.eqb_refl. cbn [negb].
  rewrite run_gets. destruct (table_make_room d strs R) as (d1 & E1 & Hre & R1 & Hf).
  rewrite (bind_ok _ _ _ _ _ E1).
  destruct (lookup_bucket d1 strs str R1) as (k1 & Ek & Lk & Hk & T). rewrite Eid in Lk.
  rewrite (run_query _ _ d1 _ Ek), (run_query _ _ d1 _ Lk), Z.eqb_refl.
  rewrite bind_assoc, run_gets, (rp_count _ _ R1). rewrite bind_assoc, run_check_fail; [reflexivity|].
  rewrite Hmax. reflexivity.
Qed.

(** ** Many strings *)

(** What [getOrAddBulk] does to the abstract dictionary: it stops at the first string that is
    too long or for which the type of the ids has no room left. *)
Fixpoint add_strings (T : IdType) (strs input_strings : list (list Z))
    : result DictError (list Z) * list (list Z) :=
  match input_strings with
  | [] => (Ok [], strs)
  | str :: rest =>
      if MAX_STRLEN <? len str then (Err DCheck, strs)
      else if bool_decide (str <> [] /\ str ∉ strs) && (max_valid_int_value T <? len strs)
      then (Err DEncoding, strs)
      else if bool_decide (str <> [] /\ str ∉ strs) && (MAX_STRCOUNT <=? len strs)
      then (Err DCheck, strs)
      else
        let '(id, strs') := add_string (inline_int_null_value T) strs str in
        match add_strings T strs' rest with
        | (Ok ids, strs'') => (Ok (to_id T id :: ids), strs'')
        | (Err e, strs'') => (Err e, strs'')
        end
  end.

Lemma bulk_step_known d strs T str i :
  represents d strs -> str <> [] -> len str <= MAX_STRLEN -> strs !! i = Some str ->
  getOrAddBulk_step T str d = (Ok (to_id T (Z.of_nat i)), d).
Proof.
  intros R Hne Hl Hi. unfold getOrAddBulk_step. rewrite (len_zero str Hne).
  rewrite run_check by (apply Z.leb_le; exact Hl).
  destruct (lookup_bucket d strs str R) as (k & E & L & _).
  rewrite (run_query _ _ d _ E), (run_query _ _ d _ L).
  rewrite (find_id_lookup strs str i (ho_nodup _ _ (rp_holds _ _ R)) Hi).
  destruct (Z.eqb_spec (Z.of_nat i) INVALID_STR_ID); [unfold INVALID_STR_ID in *; lia | reflexivity].
Qed.

(** The prefix of a step for a new string, up to the tests for room. *)
Lemma bulk_step_absent d strs T str :
  represents d strs -> str <> [] -> len str <= MAX_STRLEN -> str ∉ strs ->
  max_valid_int_value T < len strs \/ MAX_STRCOUNT <= len strs ->
  getOrAddBulk_step T str d
  = (Err (if max_valid_int_value T <? len strs then DEncoding else DCheck), d).
Proof.
  intros R Hne Hl Hn Hfull. unfold getOrAddBulk_step. rewrite (len_zero str Hne).
  rewrite run_check by (apply Z.leb_le; exact Hl).
  destruct (lookup_bucket d strs str R) as (k & E & L & _).
  rewrite (run_query _ _ d _ E), (run_query _ _ d _ L), (find_id_absent strs str Hn), Z.eqb_refl.
  cbn [negb]. rewrite run_gets, (rp_count _ _ R).
  destruct (Z.ltb_spec (max_valid_int_value T) (len strs)) as [|Hle]; [reflexivity|].
  apply run_check_fail. apply Z.ltb_ge. lia.
Qed.

(** The bucket for a new string, in a table with room. *)
Lemma bulk_bucket d strs str k :
  represents d strs -> str ∉ strs ->
  computeBucket d (hash_string str) str (table_ d) = Ok (Z.of_nat k) ->
  exists d1 k1,
    (if fillRateIsHigh d (str_count_ d)
     then bind increaseHashTableCapacity
            (fun _ => query (fun d => computeBucket d (hash_string str) str (table_ d)))
     else ret (Z.of_nat k)) d = (Ok (Z.of_nat k1), d1) /\
    rehashed d d1 /\ represents d1 strs /\ 2 * len strs < len (table_ d1) /\
    (k1 < length (table_ d1))%nat /\
    table_ok (hashes_of (strs ++ [str])) (<[k1 := len strs]> (table_ d1)).
Proof.
  intros R Hn E. destruct (table_make_room d strs R) as (d1 & E1 & Hre & R1 & Hf).
  destruct (lookup_bucket d1 strs str R1) as (k1 & Ek & _ & Hk & T).
  specialize (T (find_id_absent strs str Hn)). exists d1, k1.
  destruct (fillRateIsHigh d (str_count_ d)).
  - rewrite (bind_ok _ _ _ _ _ E1). unfold query. rewrite Ek. auto 6.
  - injection E1 as <-. rewrite E in Ek. injection Ek as Ek. apply Nat2Z.inj in Ek as ->. auto 6.
Qed.

Lemma bulk_step_new d strs T str :
  represents d strs -> str <> [] -> len str <= MAX_STRLEN -> str ∉ strs ->
  len strs <= max_valid_int_value T -> len strs < MAX_STRCOUNT ->
  exists d', getOrAddBulk_step T str d = (Ok (to_id T (len strs)), d') /\
    represents d' (strs ++ [str]) /\ same_frame d d' /\ same_caches d d'.
Proof.
  intros R Hne Hl Hn Hv Hmax. unfold getOrAddBulk_step. rewrite (len_zero str Hne).
  rewrite run_check by (apply Z.leb_le; exact Hl).
  destruct (lookup_bucket d strs str R) as (k & E & L & _).
  rewrite (run_query _ _ d _ E), (run_query _ _ d _ L), (find_id_absent strs str Hn), Z.eqb_refl.
  cbn [negb]. rewrite run_gets. pose proof (rp_count _ _ R) as Ec. rewrite Ec.
  destruct (Z.ltb_spec (max_valid_int_value T) (len strs)); [lia|].
  rewrite run_check by (apply Z.ltb_lt; exact Hmax). rewrite run_gets.
  destruct (bulk_bucket d strs str k R Hn E) as (d1 & k1 & E1 & Hre & R1 & Hf & Hk & T1).
  rewrite Ec in E1. rewrite (bind_ok _ _ _ _ _ E1).
  destruct (put_string d1 strs str k1) as (s & Ea & Ep & R2); auto.
  rewrite (bind_ok _ _ _ _ _ Ea).
  unfold len at 1.
  rewrite (bind_ok _ _ _ _ _ (put_hash_spec (set_storage s d1) (length strs) (hash_string str)
                                 (represents_hash_room d1 strs R1 Hf))).
  rewrite (bind_ok _ _ _ _ _ (put_table_spec (set_hashes _ (set_storage s d1)) k1 _ Hk)).
  rewrite u64_succ, run_modify by exact Hmax.
  match goal with |- context [ret _ ?D] => set (d3 := D) end.
  pose proof (len_nonneg strs). unfold MAX_STRCOUNT in Hmax.
  assert (Es : s32 (len strs) = len strs) by (apply s32_small; lia).
  assert (E3 : d3 = with_string s k1 (hash_string str) d1).
  { unfold d3, with_string. rewrite (rp_count _ _ R1), Es. unfold len. now rewrite Nat2Z.id. }
  exists d3. destruct (rehashed_frame _ _ Hre) as [F C].
  rewrite Es. split; [reflexivity|]. rewrite E3. split; [exact R2 | split; [exact F | exact C]].
Qed.

Lemma same_frame_trans d1 d2 d3 : same_frame d1 d2 -> same_frame d2 d3 -> same_frame d1 d3.
Proof. unfold same_frame. intuition congruence. Qed.

Lemma same_caches_trans d1 d2 d3 : same_caches d1 d2 -> same_caches d2 d3 -> same_caches d1 d3.
Proof. unfold same_caches. intuition congruence. Qed.

Lemma bulk_step_too_long d T str :
  MAX_STRLEN < len str -> getOrAddBulk_step T str d = (Err DCheck, d).
Proof.
  intros Hl. unfold getOrAddBulk_step. unfold MAX_STRLEN in Hl.
  destruct (Z.eqb_spec (len str) 0); [lia|]. apply run_check_fail. unfold MAX_STRLEN. lia.
Qed.

(** The result of the loop, with the id of the first string in front. *)
Definition with_id (id : Z) (r : result DictError (list Z) * list (list Z))
    : result DictError (list Z) * list (list Z) :=
  match r with
  | (Ok ids, strs) => (Ok (id :: ids), strs)
  | (Err e, strs) => (Err e, strs)
  end.

(** The loop run from [d] ends as [r] says. *)
Definition loop_outcome (T : IdType) (input_strings : list (list Z)) (d : StringDictionary)
    (r : result DictError (list Z) * list (list Z)) : Prop :=
  exists d', getOrAddBulk_loop T input_strings d = (fst r, d') /\ represents d' (snd r) /\
    same_frame d d' /\ same_caches d d'.

Lemma loop_continue T str rest d d1 id r :
  getOrAddBulk_step T str d = (Ok id, d1) -> same_frame d d1 -> same_caches d d1 ->
  loop_outcome T rest d1 r -> loop_outcome T (str :: rest) d (with_id id r).
Proof.
  intros E1 F1 C1 (d2 & E2 & R2 & F2 & C2). exists d2. cbn [getOrAddBulk_loop].
  rewrite (bind_ok _ _ _ _ _ E1). unfold bind at 1. rewrite E2.
  destruct r as [[ids|e] strs]; (split; [reflexivity|]);
    eauto using same_frame_trans, same_caches_trans.
Qed.

Lemma loop_stop T str rest d e strs :
  represents d strs -> getOrAddBulk_step T str d = (Err e, d) ->
  loop_outcome T (str :: rest) d (Err e, strs).
Proof.
  intros R E. exists d. cbn [getOrAddBulk_loop]. rewrite (bind_err _ _ _ _ _ E).
  split; [reflexivity|]. split; [exact R|]. split; repeat split.
Qed.

Lemma bulk_loop_spec T input_strings : forall d strs,
  represents d strs -> loop_outcome T input_strings d (add_strings T strs input_strings).
Proof.
  induction input_strings as [|str rest IH]; intros d strs R; cbn [add_strings].
  { exists d. repeat split; apply R. }
  destruct (Z.ltb_spec MAX_STRLEN (len str)) as [Hlong|Hl].
  { apply loop_stop; [exact R | now apply bulk_step_too_long]. }
  destruct (decide (str = [])) as [->|Hne].
  { rewrite bool_decide_eq_false_2 by tauto. cbn [andb]. rewrite add_string_nil.
    apply (loop_continue T [] rest d d); [reflexivity | repeat split | repeat split | auto]. }
  destruct (position strs str) as [i|] eqn:Ep.
  - pose proof (position_Some _ _ _ Ep) as Hi.
    rewrite bool_decide_eq_false_2 by (intros [_ Hn]; apply Hn; eapply list_elem_of_lookup_2; eauto).
    cbn [andb]. rewrite (add_string_known _ strs str i) by (auto; apply R).
    apply (loop_continue T str rest d d); [now apply (bulk_step_known d strs) | repeat split | repeat split | auto].
  - apply position_None in Ep. rewrite bool_decide_eq_true_2 by auto. cbn [andb].
    destruct (Z.ltb_spec (max_valid_int_value T) (len strs)) as [Hv|Hv].
    { apply loop_stop; [exact R|]. rewrite (bulk_step_absent d strs T str) by auto.
      now rewrite (proj2 (Z.ltb_lt _ _) Hv). }
    destruct (Z.leb_spec MAX_STRCOUNT (len strs)) as [Hm|Hm].
    { apply loop_stop; [exact R|]. rewrite (bulk_step_absent d strs T str) by auto.
      now rewrite (proj2 (Z.ltb_ge _ _) Hv). }
    rewrite add_string_new by assumption.
    destruct (bulk_step_new d strs T str) as (d1 & E1 & R1 & F1 & C1); auto.
    apply (loop_continue T str rest d d1); auto.
Qed.

Lemma add_strings_grows T input_strings : forall strs,
  exists added, snd (add_strings T strs input_strings) = strs ++ added.
Proof.
  induction input_strings as [|str rest IH]; intros strs; cbn [add_strings].
  { exists []. now rewrite app_nil_r. }
  destruct (MAX_STRLEN <? len str); [exists []; now rewrite app_nil_r|].
  destruct (bool_decide _ && _); [exists []; now rewrite app_nil_r|].
  destruct (bool_decide _ && _); [exists []; now rewrite app_nil_r|].
  assert (Hadd : exists a, snd (add_string (inline_int_null_value T) strs str) = strs ++ a).
  { unfold add_string. destruct (decide _); [exists []; now rewrite app_nil_r|].
    destruct (position strs str); [exists []; now rewrite app_nil_r | eauto]. }
  destruct (add_string (inline_int_null_value T) strs str) as [id strs1], Hadd as [a Ha]; cbn in Ha; subst strs1.
  destruct (IH (strs ++ a)) as [b Hb].
  destruct (add_strings T (strs ++ a) rest) as [[ids|e] s]; cbn in *; subst s; exists (a ++ b); now rewrite app_assoc.
Qed.

(** [getOrAddBulk] does what the abstract dictionary does, errors included; after an error the
    caches are left as they were. *)
Lemma getOrAddBulk_serial_spec d strs T input_strings :
  represents d strs ->
  exists d', getOrAddBulk_serial T input_strings d = (fst (add_strings T strs input_strings), d') /\
    represents d' (snd (add_strings T strs input_strings)) /\ same_frame d d' /\
    match fst (add_strings T strs input_strings) with
    | Ok _ => (snd (add_strings T strs input_strings) = strs /\ same_caches d d') \/ no_caches d'
    | Err _ => same_caches d d'
    end.
Proof.
  intros R. destruct (bulk_loop_spec T input_strings d strs R) as (d1 & E1 & R1 & F1 & C1).
  destruct (add_strings_grows T input_strings strs) as [added Ea].
  unfold getOrAddBulk_serial. rewrite run_gets.
  destruct (add_strings T strs input_strings) as [[ids|e] strs'] eqn:E; cbn in *; subst strs'.
  - rewrite (bind_ok _ _ _ _ _ E1), run_gets, (rp_count _ _ R), (rp_count _ _ R1), len_app.
    pose proof (rp_max _ _ R1) as Hm. rewrite len_app in Hm. pose proof (len_nonneg strs).
    pose proof (len_nonneg added). unfold MAX_STRCOUNT in Hm.
    rewrite u64_small by lia. destruct (Z.ltb_spec 0 (len strs + len added - len strs)) as [Hadd|Hno].
    + exists (invalidateInvertedIndex d1). split; [reflexivity|]. split; [now apply represents_caches|].
      split; [exact F1|]. right. repeat split.
    + exists d1. split; [reflexivity|]. split; [exact R1|]. split; [exact F1|]. left.
      destruct added; [|unfold len in *; cbn in *; lia]. now rewrite app_nil_r.
  - rewrite (bind_err _ _ _ _ _ E1). exists d1. split; [reflexivity|]. split; [exact R1|].
    split; [exact F1 | exact C1].
Qed.

End Env.
