(* ===== verification/DictParallel.v ===== *)
(** * The parallel bulk addition

    [getOrAddBulkParallel] keeps the new strings in memory until the end.  On a dictionary
    that already has a string it does what the serial loop does. *)

From Stdlib Require Import ZArith Lia List Bool.
From stdpp Require Import base list numbers sets gmap.
From S2P Require Import Prelude StateMonad DictStorage StringDictionary DictFacts DictOps.
Import ListNotations.
Local Open Scope Z_scope.

#[local] Abbreviation table_ := string_id_string_dict_hash_table_.

(** In the middle of the loop: [strs0] is in storage, [mem] in memory. *)
Record in_progress (inputs : list (list Z)) (d : StringDictionary) (b : BulkState)
    (strs0 mem : list (list Z)) : Prop := {
  ip_storage : stored (storage_ d) strs0;
  ip_count : str_count_ d = len strs0;
  ip_first : strs0 <> [];
  ip_memory : Forall2 (fun i str => inputs !! i = Some str /\ str <> []) (string_memory_ids b) mem;
  ip_lengths : forall str, str ∈ mem -> len str <= MAX_STRLEN;
  ip_shadow : shadow_str_count b = len (strs0 ++ mem);
  ip_sum : sum_new_string_lengths b = total mem;
  ip_max : len (strs0 ++ mem) <= MAX_STRCOUNT;
  ip_nodup : NoDup (strs0 ++ mem);
  ip_nonempty : [] ∉ strs0 ++ mem;
  ip_hashes : materialize_hashes_ d = true -> forall i str, (strs0 ++ mem) !! i = Some str ->
    hash_cache_ d !! i = Some (hash_string str);
  ip_table : table_ok (hashes_of (strs0 ++ mem)) (table_ d);
  ip_power : exists k, 1 <= k <= 32 /\ len (table_ d) = 2 ^ k;
  ip_room : 2 * len (strs0 ++ mem) <= len (table_ d);
  ip_hroom : materialize_hashes_ d = true -> len (table_ d) <= 2 * len (hash_cache_ d)
}.

Section Env.

Context `{DictEnvOk}.

Lemma in_progress_start inputs d strs :
  represents d strs -> strs <> [] -> in_progress inputs d (mkBulk (str_count_ d) [] 0) strs [].
Proof.
  intros R Hne. pose proof R as [[S Hh Hn] Hc Hm Hnil T Hp Hr Hhr].
  split; cbn; rewrite ?app_nil_r; auto. set_solver.
Qed.

(** ** Lookup *)

Lemma memory_lookup inputs d b strs0 mem j x :
  in_progress inputs d b strs0 mem -> mem !! j = Some x ->
  exists k, string_memory_ids b !! j = Some k /\ inputs !! k = Some x /\ x <> [].
Proof.
  intros I Hj. destruct (Forall2_lookup_r _ _ _ _ _ (ip_memory _ _ _ _ _ I) Hj) as (k & Hk & Hx & Hne).
  eauto.
Qed.

Lemma in_memory_spec inputs d b strs0 mem str i x :
  in_progress inputs d b strs0 mem -> (strs0 ++ mem) !! i = Some x ->
  is_string_in_memory d (hash_string str) str (len strs0) inputs (string_memory_ids b) (Z.of_nat i)
  = Ok (bool_decide (x = str)).
Proof.
  intros I Hi. unfold is_string_in_memory, hash_may_match.
  assert (Hfound :
    (if (0 <? Z.of_nat i) && (len strs0 <=? Z.of_nat i) then
       match string_memory_ids b !! Z.to_nat (u64 (Z.of_nat i - len strs0)) with
       | Some m =>
           match inputs !! m with
           | Some c => Ok ((len str =? len c) && bool_decide (str = c))
           | None => Err DUndefined
           end
       | None => Err DUndefined
       end
     else Ok (same_string (storage_ d) str (Z.of_nat i))) = Ok (bool_decide (x = str))).
  { pose proof (ip_max _ _ _ _ _ I) as Hm. apply lookup_app_Some in Hi as [Hi|[Hge Hi]].
    - rewrite (same_string_spec _ strs0 str i x (ip_storage _ _ _ _ _ I) Hi).
      apply lookup_lt_Some in Hi. unfold len. destruct (Z.leb_spec (Z.of_nat (length strs0)) (Z.of_nat i)); [lia|].
      now rewrite andb_false_r.
    - pose proof (ip_first _ _ _ _ _ I) as Hne. assert (0 < length strs0)%nat by (destruct strs0; [done | cbn; lia]).
      rewrite len_app in Hm. pose proof (lookup_lt_Some _ _ _ Hi). unfold len, MAX_STRCOUNT in *.
      destruct (Z.ltb_spec 0 (Z.of_nat i)); [|lia].
      destruct (Z.leb_spec (Z.of_nat (length strs0)) (Z.of_nat i)); [|lia]. cbn.
      rewrite u64_small by lia. replace (Z.to_nat (Z.of_nat i - Z.of_nat (length strs0))) with (i - length strs0)%nat by lia.
      destruct (memory_lookup inputs d b strs0 mem _ x I Hi) as (m & -> & -> & _). f_equal.
      destruct (bool_decide_reflect (x = str)) as [->|N].
      + rewrite Z.eqb_refl. now apply bool_decide_eq_true.
      + apply andb_false_iff. right. apply bool_decide_eq_false. congruence. }
  destruct (materialize_hashes_ d) eqn:M; [|exact Hfound].
  rewrite Nat2Z.id, (ip_hashes _ _ _ _ _ I M i x Hi).
  destruct (Z.eqb_spec (hash_string str) (hash_string x)) as [E|E]; [exact Hfound|].
  symmetry. f_equal. apply bool_decide_eq_false. congruence.
Qed.

Lemma in_progress_free inputs d b strs0 mem :
  in_progress inputs d b strs0 mem -> (length (strs0 ++ mem) < length (table_ d))%nat.
Proof.
  intros I. destruct (ip_power _ _ _ _ _ I) as (e & He & Hp). pose proof (ip_room _ _ _ _ _ I).
  assert (0 < 2 ^ e) by (apply Z.pow_pos_nonneg; lia). unfold len in *. lia.
Qed.

Lemma memory_bucket inputs d b strs0 mem str :
  in_progress inputs d b strs0 mem ->
  exists k, computeBucketFromStorageAndMemory d (hash_string str) str (table_ d) (len strs0) inputs
              (string_memory_ids b) = Ok (Z.of_nat k) /\
    load_at (Z.of_nat k) (table_ d) = Ok (find_id (strs0 ++ mem) str) /\ (k < length (table_ d))%nat /\
    (find_id (strs0 ++ mem) str = INVALID_STR_ID ->
       table_ok (hashes_of ((strs0 ++ mem) ++ [str])) (<[k := len (strs0 ++ mem)]> (table_ d))).
Proof.
  intros I.
  destruct (probe_string
              (is_string_in_memory d (hash_string str) str (len strs0) inputs (string_memory_ids b))
              (strs0 ++ mem) (table_ d) str) as (k & steps & E & L & T).
  - apply I.
  - apply I.
  - eapply in_progress_free; eauto.
  - intros i x Hi. eapply in_memory_spec; eauto.
  - exists k. unfold computeBucketFromStorageAndMemory. rewrite E. split; [reflexivity|].
    split; [now apply load_at_ok|]. split; [eapply lookup_lt_Some; eauto | exact T].
Qed.

(** ** Growing *)

Lemma hashStrings_lookup inputs i str :
  inputs !! i = Some str -> str <> [] -> hash_at (hashStrings inputs) (Z.of_nat i) = Ok (hash_string str).
Proof.
  intros Hi Hne. unfold hash_at, hashStrings. rewrite Nat2Z.id.
  change (map ?f inputs) with (f <$> inputs). rewrite list_lookup_fmap, Hi. cbn.
  now rewrite (len_zero str Hne).
Qed.

Definition memory_hash (inputs : list (list Z)) (b : BulkState) (strs0 : list (list Z)) (i : Z)
    : result DictError Z :=
  match string_memory_ids b !! Z.to_nat (i - len strs0) with
  | Some m => hash_at (hashStrings inputs) (Z.of_nat m)
  | None => Err DUndefined
  end.

Lemma memory_hash_spec inputs d b strs0 mem j hash :
  in_progress inputs d b strs0 mem -> (length strs0 <= j)%nat ->
  hashes_of (strs0 ++ mem) !! j = Some hash -> memory_hash inputs b strs0 (Z.of_nat j) = Ok hash /\ 0 <= hash.
Proof.
  intros I Hj (x & Hx & ->)%hashes_lookup_inv. split; [|apply hash_string_range].
  rewrite lookup_app_r in Hx by exact Hj. unfold memory_hash, len.
  replace (Z.to_nat (Z.of_nat j - Z.of_nat (length strs0))) with (j - length strs0)%nat by lia.
  destruct (memory_lookup inputs d b strs0 mem _ x I Hx) as (m & -> & Hm & Hne).
  now apply hashStrings_lookup.
Qed.

(** The ids placed in a new table: from the cached hashes, or from the storage and then from
    the memory. *)
Lemma place_progress inputs d b strs0 mem n collisions :
  in_progress inputs d b strs0 mem -> (length (strs0 ++ mem) <= n)%nat -> 0 < Z.of_nat n <= 4294967296 ->
  exists table' collisions',
    (if materialize_hashes_ d
     then place_loop (length (strs0 ++ mem)) (hash_at (hash_cache_ d)) 0 (replicate n INVALID_STR_ID) collisions
     else
       match place_loop (length strs0) (stored_hash (storage_ d)) 0 (replicate n INVALID_STR_ID) collisions with
       | Err e => Err e
       | Ok (table, collisions) =>
           place_loop (length mem) (memory_hash inputs b strs0) (len strs0) table collisions
       end) = Ok (table', collisions') /\
    table_ok (hashes_of (strs0 ++ mem)) table' /\ len table' = Z.of_nat n.
Proof.
  intros I Hn Hs. pose proof (ip_max _ _ _ _ _ I) as Hmax. unfold len, MAX_STRCOUNT in Hmax.
  pose proof (ip_hashes _ _ _ _ _ I) as Hh. pose proof (table_ok_new n Hs) as T0.
  assert (Lr : len (replicate n INVALID_STR_ID) = Z.of_nat n) by (unfold len; now rewrite length_replicate).
  pose proof (hashes_of_length (strs0 ++ mem)) as Lh. rewrite length_app in *.
  destruct (materialize_hashes_ d).
  - destruct (place_loop_spec (hash_at (hash_cache_ d)) (hashes_of (strs0 ++ mem))
                (length strs0 + length mem) 0 (replicate n INVALID_STR_ID) collisions)
      as (t & c & E & T & L); rewrite ?take_0, ?length_replicate; auto; try lia.
    + intros j hash _ (x & Hx & ->)%hashes_lookup_inv. split; [|apply hash_string_range].
      unfold hash_at. now rewrite Nat2Z.id, (Hh eq_refl j x Hx).
    + exists t, c. split; [exact E|]. cbn in T. rewrite <- Lh, firstn_all in T. split; [exact T | congruence].
  - destruct (place_loop_spec (stored_hash (storage_ d)) (hashes_of (strs0 ++ mem))
                (length strs0) 0 (replicate n INVALID_STR_ID) collisions)
      as (t & c & E & T & L); rewrite ?take_0, ?length_replicate; auto; try lia.
    + intros j hash Hj (x & Hx & ->)%hashes_lookup_inv. split; [|apply hash_string_range].
      rewrite lookup_app_l in Hx by lia. exact (stored_hash_spec _ strs0 j x (ip_storage _ _ _ _ _ I) Hx).
    + change (Z.of_nat 0) with 0 in E. rewrite E.
      destruct (place_loop_spec (memory_hash inputs b strs0) (hashes_of (strs0 ++ mem))
                  (length mem) (length strs0) t c T) as (t2 & c2 & E2 & T2 & L2); try lia.
      * intros j hash Hj Hx. eapply memory_hash_spec; eauto. lia.
      * unfold len in *. lia.
      * exists t2, c2. split; [exact E2|]. rewrite <- Lh, firstn_all in T2. split; [exact T2 | congruence].
Qed.

Lemma memory_make_room inputs d b strs0 mem :
  in_progress inputs d b strs0 mem ->
  exists d', (if fillRateIsHigh d (shadow_str_count b)
              then increaseHashTableCapacityFromStorageAndMemory (shadow_str_count b) (len strs0)
                     (string_memory_ids b) (hashStrings inputs)
              else ret tt) d = (Ok tt, d') /\
    rehashed d d' /\ in_progress inputs d' b strs0 mem /\ 2 * len (strs0 ++ mem) < len (table_ d').
Proof.
  intros I. pose proof (ip_shadow _ _ _ _ _ I) as Hc. pose proof (ip_room _ _ _ _ _ I) as Hroom.
  pose proof (ip_max _ _ _ _ _ I) as Hm. unfold fillRateIsHigh. rewrite Hc.
  destruct (Z.leb_spec (len (table_ d)) (len (strs0 ++ mem) * 2)) as [Hhigh|Hlow].
  - destruct (double_size _ _ (ip_power _ _ _ _ _ I) Hhigh Hm) as [Hsize Hp'].
    destruct (place_progress inputs d b strs0 mem (2 * length (table_ d)) (collisions_ d) I)
      as (t & c & E & T & L); [unfold len in *; lia | unfold len in *; lia |].
    unfold increaseHashTableCapacityFromStorageAndMemory. rewrite run_gets.
    erewrite run_query.
    2:{ unfold len at 1 2. rewrite !Nat2Z.id.
        rewrite (Forall2_length _ _ _ (ip_memory _ _ _ _ _ I)). exact E. }
    cbv beta iota. rewrite run_modify. cbn [id].
    assert (El : len t = 2 * len (table_ d)) by (rewrite L; unfold len; lia).
    destruct (materialize_hashes_ d) eqn:M; rewrite ?run_modify; cbn;
      (eexists; split; [reflexivity|]).
    + split; [repeat eexists|]. split; [|cbn; lia].
      pose proof I as [? ? ? ? ? ? ? ? ? ? Hh ? ? ? Hhr]. split; cbn; auto; rewrite ?El; auto; try lia.
      * intros _ i str Hi. apply lookup_app_l_Some. auto.
      * intros _. specialize (Hhr M). unfold len in *. rewrite length_app, length_replicate. lia.
    + split; [exists t, (hash_cache_ d), c; now destruct d|]. split; [|cbn; lia].
      pose proof I as [? ? ? ? ? ? ? ? ? ? Hh ? ? ? Hhr]. split; cbn; auto; rewrite ?El; auto; try lia.
      rewrite M. discriminate.
  - exists d. split; [reflexivity|]. split; [|split; [exact I | lia]].
    exists (table_ d), (hash_cache_ d), (collisions_ d). now destruct d.
Qed.

(** ** One step *)

(** The start of a step: the table has room, and the bucket of the string is known. *)
Lemma step_bucket T inputs d b strs0 mem idx str :
  in_progress inputs d b strs0 mem -> inputs !! idx = Some str -> str <> [] -> len str <= MAX_STRLEN ->
  exists d1 k, rehashed d d1 /\ in_progress inputs d1 b strs0 mem /\ 2 * len (strs0 ++ mem) < len (table_ d1) /\
    (k < length (table_ d1))%nat /\
    (find_id (strs0 ++ mem) str = INVALID_STR_ID ->
       table_ok (hashes_of ((strs0 ++ mem) ++ [str])) (<[k := len (strs0 ++ mem)]> (table_ d1))) /\
    parallel_step T inputs (hashStrings inputs) (len strs0) idx str b d
    = (if negb (find_id (strs0 ++ mem) str =? INVALID_STR_ID)
       then ret (to_id T (find_id (strs0 ++ mem) str), b)
       else if max_valid_int_value T <? len (strs0 ++ mem) then throw DEncoding
       else
         bind (check (len (strs0 ++ mem) <? MAX_STRCOUNT)) (fun _ =>
         bind (put_table (Z.of_nat k) (s32 (len (strs0 ++ mem)))) (fun _ =>
         bind (put_hash (len (strs0 ++ mem)) (hash_string str)) (fun _ =>
         ret (to_id T (len (strs0 ++ mem)),
              mkBulk (u64 (len (strs0 ++ mem) + 1)) (string_memory_ids b ++ [idx])
                (u64 (sum_new_string_lengths b + len str))))))) d1.
Proof.
  intros I Hi Hne Hl. destruct (memory_make_room inputs d b strs0 mem I) as (d1 & E1 & Hre & I1 & Hf).
  destruct (memory_bucket inputs d1 b strs0 mem str I1) as (k & Ek & Lk & Hk & Tk).
  exists d1, k. split; [exact Hre|]. split; [exact I1|]. split; [exact Hf|]. split; [exact Hk|]. split; [exact Tk|].
  unfold parallel_step. rewrite (len_zero str Hne), run_check by (apply Z.leb_le; exact Hl).
  rewrite run_gets, (bind_ok _ _ _ _ _ E1).
  rewrite (run_query _ _ d1 _ (hashStrings_lookup inputs idx str Hi Hne)).
  rewrite (run_query _ _ d1 _ Ek), (run_query _ _ d1 _ Lk).
  now rewrite (ip_shadow _ _ _ _ _ I1).
Qed.

Lemma step_new T inputs d b strs0 mem idx str :
  in_progress inputs d b strs0 mem -> inputs !! idx = Some str -> str <> [] -> len str <= MAX_STRLEN ->
  str ∉ strs0 ++ mem -> len (strs0 ++ mem) <= max_valid_int_value T -> len (strs0 ++ mem) < MAX_STRCOUNT ->
  exists d' b', parallel_step T inputs (hashStrings inputs) (len strs0) idx str b d
      = (Ok (to_id T (len (strs0 ++ mem)), b'), d') /\
    in_progress inputs d' b' strs0 (mem ++ [str]) /\ same_frame d d' /\ same_caches d d'.
Proof.
  intros I Hi Hne Hl Hn Hv Hmax.
  destruct (step_bucket T inputs d b strs0 mem idx str I Hi Hne Hl) as (d1 & k & Hre & I1 & Hf & Hk & Tk & E).
  specialize (Tk (find_id_absent _ _ Hn)). rewrite (find_id_absent _ _ Hn), Z.eqb_refl in E. cbn [negb] in E.
  destruct (Z.ltb_spec (max_valid_int_value T) (len (strs0 ++ mem))); [lia|].
  pose proof I1 as [S Hc Hfst Hmem Hlen Hsh Hsum Hm Hnd Hnil Hh Ht Hp Hr Hhr].
  pose proof (len_nonneg (strs0 ++ mem)). pose proof (len_nonneg str). pose proof (total_nonneg mem).
  pose proof (total_bound mem Hlen) as Htot. pose proof (len_nonneg strs0). pose proof (len_nonneg mem).
  assert (Hh1 : materialize_hashes_ d1 = true -> (length (strs0 ++ mem) < length (hash_cache_ d1))%nat)
    by (intros M; specialize (Hhr M); unfold len in *; lia).
  rewrite run_check in E by (apply Z.ltb_lt; exact Hmax).
  rewrite (bind_ok _ _ _ _ _ (put_table_spec d1 k _ Hk)) in E.
  change (put_hash (len (strs0 ++ mem))) with (put_hash (Z.of_nat (length (strs0 ++ mem)))) in E.
  rewrite (bind_ok _ _ _ _ _ (put_hash_spec (set_table _ d1) (length (strs0 ++ mem)) (hash_string str) Hh1)) in E.
  unfold MAX_STRCOUNT, MAX_STRLEN in *. rewrite Hsum in E.
  assert (len mem <= len (strs0 ++ mem)) by (rewrite len_app; lia).
  rewrite s32_small, !u64_small in E by lia.
  eexists _, _. split; [exact E|]. destruct (rehashed_frame _ _ Hre) as [F C]. split; [|split; [exact F | exact C]].
  assert (Elast : strs0 ++ mem ++ [str] = (strs0 ++ mem) ++ [str]) by apply app_assoc.
  split; cbn; rewrite ?Elast, ?insert_len; auto.
  - apply Forall2_app; [exact Hmem|]. repeat constructor; auto.
  - intros x [Hx|Hx%list_elem_of_singleton]%elem_of_app; [auto | now subst].
  - rewrite (len_app (strs0 ++ mem)). reflexivity.
  - rewrite total_app. cbn. lia.
  - rewrite (len_app (strs0 ++ mem)). change (len [str]) with 1. unfold MAX_STRCOUNT. lia.
  - apply NoDup_app. split; [exact Hnd|]. split; [set_solver | apply NoDup_singleton].
  - set_solver.
  - intros M i x Hx. rewrite M. specialize (Hh1 M). apply lookup_app_Some in Hx as [Hx|[Hge Hx]].
    + rewrite list_lookup_insert_ne by (apply lookup_lt_Some in Hx; lia). auto.
    + apply list_lookup_singleton_Some in Hx as [Hz <-].
      assert (i = length (strs0 ++ mem)) as -> by lia. now rewrite list_lookup_insert_eq.
  - destruct Hp as (e & He & Hp). assert (len (table_ d1) = 2 * 2 ^ (e - 1))
      by (rewrite Hp, <- Z.pow_succ_r by lia; f_equal; lia).
    rewrite (len_app (strs0 ++ mem)). change (len [str]) with 1. lia.
  - intros M. rewrite M, insert_len. auto.
Qed.

Lemma step_known T inputs d b strs0 mem idx str i :
  in_progress inputs d b strs0 mem -> inputs !! idx = Some str -> str <> [] -> len str <= MAX_STRLEN ->
  (strs0 ++ mem) !! i = Some str ->
  exists d', parallel_step T inputs (hashStrings inputs) (len strs0) idx str b d
      = (Ok (to_id T (Z.of_nat i), b), d') /\
    in_progress inputs d' b strs0 mem /\ same_frame d d' /\ same_caches d d'.
Proof.
  intros I Hi Hne Hl Hx.
  destruct (step_bucket T inputs d b strs0 mem idx str I Hi Hne Hl) as (d1 & k & Hre & I1 & _ & _ & _ & E).
  rewrite (find_id_lookup _ str i (ip_nodup _ _ _ _ _ I) Hx) in E.
  destruct (Z.eqb_spec (Z.of_nat i) INVALID_STR_ID); [unfold INVALID_STR_ID in *; lia|].
  destruct (rehashed_frame _ _ Hre) as [F C]. eauto.
Qed.

Lemma step_full T inputs d b strs0 mem idx str :
  in_progress inputs d b strs0 mem -> inputs !! idx = Some str -> str <> [] -> len str <= MAX_STRLEN ->
  str ∉ strs0 ++ mem -> max_valid_int_value T < len (strs0 ++ mem) \/ MAX_STRCOUNT <= len (strs0 ++ mem) ->
  fst (parallel_step T inputs (hashStrings inputs) (len strs0) idx str b d)
  = Err (if max_valid_int_value T <? len (strs0 ++ mem) then DEncoding else DCheck).
Proof.
  intros I Hi Hne Hl Hn Hfull.
  destruct (step_bucket T inputs d b strs0 mem idx str I Hi Hne Hl) as (d1 & k & _ & I1 & _ & _ & _ & E).
  rewrite E, (find_id_absent _ _ Hn), Z.eqb_refl. cbn [negb].
  destruct (Z.ltb_spec (max_valid_int_value T) (len (strs0 ++ mem))) as [|Hle]; [reflexivity|].
  rewrite run_check_fail; [reflexivity|]. apply Z.ltb_ge. lia.
Qed.

Lemma step_too_long T inputs hashes hwm idx str b d :
  MAX_STRLEN < len str -> fst (parallel_step T inputs hashes hwm idx str b d) = Err DCheck.
Proof.
  intros Hl. unfold parallel_step. unfold MAX_STRLEN in Hl.
  destruct (Z.eqb_spec (len str) 0); [lia|]. rewrite run_check_fail; [reflexivity|]. unfold MAX_STRLEN. lia.
Qed.

(** ** The loop *)

(** The loop run from [d] ends as [r] says; an error leaves the table with ids of strings that
    are not stored. *)
Definition progress_outcome (T : IdType) (inputs : list (list Z)) (strs0 : list (list Z))
    (idx : nat) (rest : list (list Z)) (b : BulkState) (d : StringDictionary)
    (r : result DictError (list Z) * list (list Z)) : Prop :=
  let run := parallel_loop T inputs (hashStrings inputs) (len strs0) idx rest b d in
  match fst r with
  | Err e => fst run = Err e
  | Ok ids =>
      exists d' b' mem', run = (Ok (ids, b'), d') /\ in_progress inputs d' b' strs0 mem' /\
        snd r = strs0 ++ mem' /\ same_frame d d' /\ same_caches d d'
  end.

Lemma progress_continue T inputs strs0 idx str rest b b1 d d1 id r :
  parallel_step T inputs (hashStrings inputs) (len strs0) idx str b d = (Ok (id, b1), d1) ->
  same_frame d d1 -> same_caches d d1 ->
  progress_outcome T inputs strs0 (S idx) rest b1 d1 r ->
  progress_outcome T inputs strs0 idx (str :: rest) b d (with_id id r).
Proof.
  intros E1 F1 C1 P. unfold progress_outcome in *. cbn [parallel_loop].
  rewrite (bind_ok _ _ _ _ _ E1). destruct r as [[ids|e] strs]; cbn in *.
  - destruct P as (d2 & b2 & mem2 & E2 & I2 & Es & F2 & C2). exists d2, b2, mem2.
    rewrite (bind_ok _ _ _ _ _ E2). split; [reflexivity|]. split; [exact I2|]. split; [exact Es|].
    eauto using same_frame_trans, same_caches_trans.
  - unfold bind. destruct (parallel_loop _ _ _ _ _ _ _ _) as [[[]|e'] d2]; [discriminate|]. cbn in *. congruence.
Qed.

Lemma progress_stop T inputs strs0 idx str rest b d e strs :
  fst (parallel_step T inputs (hashStrings inputs) (len strs0) idx str b d) = Err e ->
  progress_outcome T inputs strs0 idx (str :: rest) b d (Err e, strs).
Proof.
  intros E. unfold progress_outcome. cbn. unfold bind.
  destruct (parallel_step _ _ _ _ _ _ _ _) as [[[]|e'] d1]; [discriminate | cbn in *; congruence].
Qed.

Lemma parallel_loop_spec T inputs strs0 rest : forall idx b d mem,
  drop idx inputs = rest -> in_progress inputs d b strs0 mem ->
  progress_outcome T inputs strs0 idx rest b d (add_strings T (strs0 ++ mem) rest).
Proof.
  induction rest as [|str rest IH]; intros idx b d mem Hd I; cbn [add_strings].
  { exists d, b, mem. repeat split; apply I. }
  assert (Hi : inputs !! idx = Some str) by (rewrite <- (Nat.add_0_r idx), <- lookup_drop, Hd; reflexivity).
  assert (Hd' : drop (S idx) inputs = rest)
    by (rewrite <- Nat.add_1_r, <- drop_drop, Hd; reflexivity).
  destruct (Z.ltb_spec MAX_STRLEN (len str)) as [Hlong|Hl].
  { apply progress_stop. now apply step_too_long. }
  destruct (decide (str = [])) as [->|Hne].
  { rewrite bool_decide_eq_false_2 by tauto. cbn [andb]. rewrite add_string_nil.
    apply (progress_continue T inputs strs0 idx [] rest b b d d); [reflexivity | repeat split | repeat split | eauto]. }
  destruct (position (strs0 ++ mem) str) as [i|] eqn:Ep.
  - pose proof (position_Some _ _ _ Ep) as Hx.
    rewrite bool_decide_eq_false_2 by (intros [_ Hn]; apply Hn; eapply list_elem_of_lookup_2; eauto).
    cbn [andb]. rewrite (add_string_known _ _ str i) by (auto; apply I).
    destruct (step_known T inputs d b strs0 mem idx str i) as (d1 & E1 & I1 & F1 & C1); auto.
    eapply progress_continue; eauto.
  - apply position_None in Ep. rewrite bool_decide_eq_true_2 by auto. cbn [andb].
    destruct (Z.ltb_spec (max_valid_int_value T) (len (strs0 ++ mem))) as [Hv|Hv].
    { apply progress_stop. rewrite (step_full T inputs d b strs0 mem) by auto.
      now rewrite (proj2 (Z.ltb_lt _ _) Hv). }
    destruct (Z.leb_spec MAX_STRCOUNT (len (strs0 ++ mem))) as [Hm|Hm].
    { apply progress_stop. rewrite (step_full T inputs d b strs0 mem) by auto.
      now rewrite (proj2 (Z.ltb_ge _ _) Hv). }
    rewrite add_string_new by assumption.
    destruct (step_new T inputs d b strs0 mem idx str) as (d1 & b1 & E1 & I1 & F1 & C1); auto.
    eapply progress_continue; eauto. rewrite <- app_assoc. eauto.
Qed.

(** ** The end *)

Lemma memory_strings inputs d b strs0 mem :
  in_progress inputs d b strs0 mem -> map (fun i => nth i inputs []) (string_memory_ids b) = mem.
Proof.
  intros I. pose proof (ip_memory _ _ _ _ _ I) as M. clear I. induction M as [|i str ids mem' [Hi _] M IH]; cbn;
    [reflexivity|].
  f_equal; [|exact IH]. now apply nth_lookup_Some.
Qed.

Lemma finish inputs d b strs0 mem :
  in_progress inputs d b strs0 mem ->
  exists s, appendBulk inputs b d = (Ok tt, set_storage s d) /\
    represents (set_count (shadow_str_count b) (set_storage s d)) (strs0 ++ mem).
Proof.
  intros I. pose proof (memory_strings inputs d b strs0 mem I) as Em.
  pose proof I as [S Hc Hfst Hmem Hlen Hsh Hsum Hm Hnd Hnil Hh Ht Hp Hr Hhr].
  destruct (appendToStorageBulk_spec (storage_ d) strs0 mem S) as (s & E & S'); auto; [rewrite <- len_app; exact Hm|].
  exists s. unfold appendBulk. rewrite Em, Hsum. split.
  - unfold bind, query, modify. now rewrite Hc, E.
  - split; cbn; auto. split; cbn; auto.
Qed.

(** On a dictionary that is not empty, the parallel bulk addition does what the abstract
    dictionary does. *)
Lemma getOrAddBulkParallel_spec T inputs d strs :
  represents d strs -> strs <> [] ->
  let r := add_strings T strs inputs in
  match fst r with
  | Err e => fst (getOrAddBulkParallel T inputs d) = Err e
  | Ok ids => exists d', getOrAddBulkParallel T inputs d = (Ok ids, d') /\ represents d' (snd r) /\
      same_frame d d' /\ (snd r = strs /\ same_caches d d' \/ no_caches d')
  end.
Proof.
  intros R Hne. cbn zeta. unfold getOrAddBulkParallel. rewrite run_gets.
  pose proof (parallel_loop_spec T inputs strs inputs 0 _ d [] eq_refl (in_progress_start inputs d strs R Hne)) as P.
  rewrite app_nil_r in P. unfold progress_outcome in P. rewrite (rp_count _ _ R) in *.
  destruct (add_strings T strs inputs) as [[ids|e] strs']; cbn [fst snd] in *.
  - destruct P as (d1 & b1 & mem & E & I & -> & F & C). rewrite (bind_ok _ _ _ _ _ E).
    destruct (finish inputs d1 b1 strs mem I) as (s & Ea & R').
    rewrite (bind_ok _ _ _ _ _ Ea), run_modify, (ip_shadow _ _ _ _ _ I), len_app.
    rewrite (ip_shadow _ _ _ _ _ I), len_app in R'.
    pose proof (ip_max _ _ _ _ _ I) as Hm. rewrite len_app in Hm. pose proof (len_nonneg strs).
    pose proof (len_nonneg mem). unfold MAX_STRCOUNT in Hm. rewrite u64_small by lia.
    destruct (Z.ltb_spec 0 (len strs + len mem - len strs)) as [Hadd|Hno]; rewrite ?run_modify; cbn [bind ret].
    + eexists. split; [reflexivity|]. split; [now apply represents_caches|]. split; [exact F|]. right. repeat split.
    + eexists. split; [reflexivity|]. split; [exact R'|]. split; [exact F|]. left.
      destruct mem; [|unfold len in *; cbn in *; lia]. split; [now rewrite app_nil_r | exact C].
  - unfold bind. destruct (parallel_loop _ _ _ _ _ _ _ _) as [[[]|e'] d2]; [discriminate|]. cbn in *. congruence.
Qed.

(** ** Errors *)

(** The stored strings and their number. *)
Definition same_strings (d d' : StringDictionary) : Prop :=
  storage_ d' = storage_ d /\ str_count_ d' = str_count_ d.

Definition keeps_strings {A : Type} (c : DM A) : Prop := forall d, same_strings d (snd (c d)).

Lemma keeps_strings_bind {A B : Type} (c : DM A) (k : A -> DM B) :
  keeps_strings c -> (forall a, keeps_strings (k a)) -> keeps_strings (bind c k).
Proof.
  intros Hc Hk d. specialize (Hc d). unfold bind. destruct (c d) as [[a|e] d1]; [|exact Hc].
  destruct Hc as [E1 E2], (Hk a d1) as [E3 E4]. split; cbn in *; congruence.
Qed.

Lemma keeps_strings_pure {A : Type} (c : DM A) : (forall d, snd (c d) = d) -> keeps_strings c.
Proof. intros E d. rewrite E. now split. Qed.

Lemma keeps_strings_modify f : (forall d, same_strings d (f d)) -> keeps_strings (modify f).
Proof. intros Hf d. apply Hf. Qed.

Ltac strings_kept :=
  repeat first
    [ apply keeps_strings_bind; [|intros ?]
    | progress cbv beta iota
    | apply keeps_strings_modify; intros ?; now split
    | apply keeps_strings_pure; intros ?; reflexivity
    | match goal with
      | |- keeps_strings (if ?b then _ else _) => destruct b
      | |- keeps_strings (let '(_, _) := ?x in _) => destruct x
      end ].

Lemma parallel_step_strings T inputs hashes hwm idx str b : keeps_strings (parallel_step T inputs hashes hwm idx str b).
Proof.
  unfold parallel_step, increaseHashTableCapacityFromStorageAndMemory, put_table, put_hash, check. strings_kept.
Qed.

Lemma parallel_loop_strings T inputs hashes hwm rest : forall idx b,
  keeps_strings (parallel_loop T inputs hashes hwm idx rest b).
Proof.
  induction rest as [|str rest IH]; intros idx b; cbn [parallel_loop]; [strings_kept|].
  apply keeps_strings_bind; [apply parallel_step_strings | intros [id b']].
  apply keeps_strings_bind; [apply IH | intros [ids b'']]. strings_kept.
Qed.

(** An error leaves the strings as they were. *)
Lemma getOrAddBulkParallel_error T inputs d strs e :
  represents d strs -> strs <> [] -> fst (add_strings T strs inputs) = Err e ->
  same_strings d (snd (getOrAddBulkParallel T inputs d)).
Proof.
  intros R Hne Ee. unfold getOrAddBulkParallel. rewrite run_gets.
  pose proof (parallel_loop_spec T inputs strs inputs 0 _ d [] eq_refl (in_progress_start inputs d strs R Hne)) as P.
  rewrite app_nil_r in P. unfold progress_outcome in P. rewrite Ee, (rp_count _ _ R) in *.
  pose proof (parallel_loop_strings T inputs (hashStrings inputs) (len strs) inputs 0 (mkBulk (len strs) [] 0) d) as K.
  unfold bind. destruct (parallel_loop _ _ _ _ _ _ _ _) as [[[]|e'] d1]; [discriminate | exact K].
Qed.

End Env.
