(* ===== verification/DictQueries.v ===== *)
(** * Queries on a string dictionary

    Bulk lookups, the LIKE, regular expression and comparison queries with their caches, the
    translation of ids between dictionaries, and the recovery of a dictionary from its files. *)

From Stdlib Require Import ZArith Lia List Bool.
From stdpp Require Import base list numbers gmap.
From S2P Require Import Prelude StateMonad StringLike DictStorage StringDictionary.
Import ListNotations.
Local Open Scope Z_scope.
Local Open Scope bm_scope.

#[local] Abbreviation table_ := string_id_string_dict_hash_table_.

(** ** Parallel loops

    [tbb::parallel_for] cuts a range into pieces, and a thread runs some of them.  A schedule
    lists the pieces with the thread that runs them, in the order in which they end.  The
    bodies write at their own index only, so the pieces are run one after the other. *)

Definition Schedule : Type := list (nat * (nat * nat)).

Section Parallel.

Context {A : Type} (body : nat -> A -> result DictError (A * Z)) (note : Z -> Z -> Z).

Fixpoint run_range (n : nat) (i : nat) (a : A) (count : Z) : result DictError (A * Z) :=
  match n with
  | O => Ok (a, count)
  | S n' =>
      match body i a with
      | Err e => Err e
      | Ok (a', k) => run_range n' (S i) a' (count + k)
      end
  end.

(** At the end of a piece the count of its thread is updated with [note]. *)
Fixpoint run_schedule (schedule : Schedule) (a : A) (counts : list Z)
    : result DictError (A * list Z) :=
  match schedule with
  | [] => Ok (a, counts)
  | (thread, (first, last)) :: rest =>
      match run_range (last - first) first a 0 with
      | Err e => Err e
      | Ok (a', k) =>
          match counts !! thread with
          | None => Err DUndefined
          | Some old => run_schedule rest a' (<[thread := note old k]> counts)
          end
      end
  end.

End Parallel.

Definition sum_counts (counts : list Z) : Z := fold_right Z.add 0 counts.

(** The ranges of a schedule. *)
Definition schedule_indices (schedule : Schedule) : list nat :=
  concat (map (fun '(_, (first, last)) => seq first (last - first)) schedule).

Record ThreadInfo := mkThreadInfo { num_threads : Z; num_elems_per_thread : Z }.

Definition make_ThreadInfo (max_thread_count num_elems target_elems_per_thread : Z) : ThreadInfo :=
  let n := Z.min (Z.max max_thread_count 1)
             (Z.quot (num_elems + target_elems_per_thread - 1) target_elems_per_thread) in
  mkThreadInfo n (Z.max (Z.quot (num_elems + n - 1) n) 1).

Section Env.

Context `{DictEnv}.

(** ** Bulk lookup *)

(** The body of the loop of [getBulk]. *)
Definition getBulk_body (d : StringDictionary) (T : IdType) (string_vec : list (list Z))
    (num_dict_strings : Z) (string_idx : nat) (encoded_vec : list Z)
    : result DictError (list Z * Z) :=
  let input_string := nth string_idx string_vec [] in
  if len input_string =? 0
  then Ok (<[string_idx := to_id T (inline_int_null_value T)]> encoded_vec, 0)
  else if MAX_STRLEN <? len input_string then Err DTooLong
  else
    match getUnlocked d input_string with
    | Err e => Err e
    | Ok string_id =>
        if (string_id =? INVALID_STR_ID) || (num_dict_strings <=? string_id)
        then Ok (<[string_idx := to_id T INVALID_STR_ID]> encoded_vec, 1)
        else Ok (<[string_idx := to_id T string_id]> encoded_vec, 0)
    end.

(** Ids and the number of strings not found. *)
Definition getBulk (d : StringDictionary) (T : IdType) (string_vec : list (list Z))
    (generation : Z) (schedule : Schedule) : result DictError (list Z * Z) :=
  let num_lookup_strings := len string_vec in
  if num_lookup_strings =? 0 then Ok ([], 0)
  else
    let thread_info := make_ThreadInfo hardware_concurrency num_lookup_strings 1000 in
    let num_dict_strings := if 0 <=? generation then generation else storageEntryCount d in
    if num_dict_strings =? 0
    then Ok (map (fun _ => to_id T INVALID_STR_ID) string_vec, num_lookup_strings)
    else
      match run_schedule (getBulk_body d T string_vec num_dict_strings) (fun _ k => k) schedule
              (map (fun _ => 0) string_vec)
              (replicate (Z.to_nat (num_threads thread_info)) 0) with
      | Err e => Err e
      | Ok (encoded_vec, counts) => Ok (encoded_vec, sum_counts counts)
      end.

(** ** Queries with worker threads *)

Definition cpu_threads : Z :=
  if g_cpu_threads_override <=? 0 then Z.max (u32 (2 * hardware_concurrency)) 1
  else g_cpu_threads_override.

(** [for (string_id = start; string_id < bound; string_id += step)]. *)
Fixpoint strided (fuel : nat) (start step bound : Z) : list Z :=
  match fuel with
  | O => []
  | S fuel' => if start <? bound then start :: strided fuel' (start + step) step bound else []
  end.

(** The strings that satisfy [p], among the given ids. *)
Fixpoint select_ids (d : StringDictionary) (p : list Z -> bool) (ids : list Z)
    : result DictError (list Z) :=
  match ids with
  | [] => Ok []
  | string_id :: rest =>
      match getStringUnlocked d string_id with
      | Err e => Err e
      | Ok str =>
          match select_ids d p rest with
          | Err e => Err e
          | Ok found => Ok (if p str then string_id :: found else found)
          end
      end
  end.

(** The results of the workers from [worker_idx] on, one after the other. *)
Fixpoint worker_results (n : nat) (d : StringDictionary) (p : list Z -> bool)
    (worker_idx worker_count generation : Z) : result DictError (list Z) :=
  match n with
  | O => Ok []
  | S n' =>
      match select_ids d p (strided (S (Z.to_nat generation)) worker_idx worker_count generation) with
      | Err e => Err e
      | Ok found =>
          match worker_results n' d p (worker_idx + 1) worker_count generation with
          | Err e => Err e
          | Ok rest => Ok (found ++ rest)
          end
      end
  end.

Definition scan_strings (p : list Z -> bool) (generation : Z) : DM (list Z) :=
  do! check (0 <? cpu_threads) in
  let! str_count := gets str_count_ in
  do! check (generation <=? str_count) in
  query (fun d => worker_results (Z.to_nat cpu_threads) d p 0 cpu_threads generation).

Definition is_like (str pattern : list Z) (icase is_simple : bool) (escape : Z) : bool :=
  if icase then
    if is_simple then string_ilike_simple str pattern else string_ilike str pattern escape
  else
    if is_simple then string_like_simple str pattern else string_like str pattern escape.

Definition getLike (pattern : list Z) (icase is_simple : bool) (escape generation : Z)
    : DM (list Z) :=
  let cache_key := (pattern, icase, is_simple, escape) in
  let! cached := gets (fun d => like_cache_ d !! cache_key) in
  match cached with
  | Some ids => ret ids
  | None =>
      let! result := scan_strings (fun str => is_like str pattern icase is_simple escape) generation in
      do! modify (fun d => set_caches (<[cache_key := result]> (like_cache_ d)) (regex_cache_ d)
                             (equal_cache_ d) (compare_cache_ d) (strings_cache_ d) d) in
      ret result
  end.

Definition getRegexpLike (pattern : list Z) (escape generation : Z) : DM (list Z) :=
  let cache_key := (pattern, escape) in
  let! cached := gets (fun d => regex_cache_ d !! cache_key) in
  match cached with
  | Some ids => ret ids
  | None =>
      let! result := scan_strings (fun str => regexp_like str pattern escape) generation in
      do! modify (fun d => set_caches (like_cache_ d) (<[cache_key := result]> (regex_cache_ d))
                             (equal_cache_ d) (compare_cache_ d) (strings_cache_ d) d) in
      ret result
  end.

(** ** Comparisons *)

Inductive CompOp := OpEq | OpNe | OpLt | OpLe | OpGt | OpGe | OpOther.

(** [for (idx = 0; idx <= cur_size; idx++)] without [eq_id]. *)
Definition all_but (eq_id cur_size : Z) : list Z :=
  List.filter (fun idx => negb (idx =? eq_id))
    (map Z.of_nat (seq 0 (Z.to_nat (cur_size + 1)))).

Definition getEquals (pattern : list Z) (comp_operator : CompOp) (generation : Z) : DM (list Z) :=
  let! cur_size := gets (fun d => s32 (str_count_ d)) in
  let! cached := gets (fun d => equal_cache_ d !! pattern) in
  match cached with
  | Some eq_id =>
      ret (match comp_operator with OpEq => [eq_id] | _ => all_but eq_id cur_size end)
  | None =>
      let! result := scan_strings (fun str => bool_decide (str = pattern)) generation in
      let! eq_id :=
        match result with
        | [] => ret (MAX_STRLEN + 1)
        | eq_id :: _ =>
            do! modify (fun d => set_caches (like_cache_ d) (regex_cache_ d)
                                   (<[pattern := eq_id]> (equal_cache_ d)) (compare_cache_ d)
                                   (strings_cache_ d) d) in
            ret eq_id
        end in
      ret (match comp_operator with
           | OpNe => result ++ all_but eq_id cur_size
           | _ => result
           end)
  end.

(** The string of an id of a sorted cache; a canary is the empty string. *)
Definition payload_or_nil (s : Storage) (id : Z) : list Z :=
  match getStringFromStorage s id with
  | Ok (Some str) => str
  | _ => []
  end.

Definition id_lt (s : Storage) (a b : Z) : bool := string_lt (payload_or_nil s a) (payload_or_nil s b).

(** [std::sort], as an insertion sort. *)
Fixpoint insert_sorted (lt : Z -> Z -> bool) (x : Z) (l : list Z) : list Z :=
  match l with
  | [] => [x]
  | y :: l' => if lt y x then y :: insert_sorted lt x l' else x :: l
  end.
Definition std_sort (lt : Z -> Z -> bool) (l : list Z) : list Z := fold_right (insert_sorted lt) [] l.

Definition sortCache (d : StringDictionary) (cache : list Z) : list Z := std_sort (id_lt (storage_ d)) cache.

(** The loops of [mergeSortedCache]. *)
Fixpoint merge_caches (fuel : nat) (s : Storage) (temp_sorted_cache sorted : list Z) : list Z :=
  match fuel with
  | O => temp_sorted_cache ++ sorted
  | S fuel' =>
      match temp_sorted_cache, sorted with
      | t :: temp', c :: sorted' =>
          if id_lt s t c then t :: merge_caches fuel' s temp' sorted
          else c :: merge_caches fuel' s temp_sorted_cache sorted'
      | _, _ => temp_sorted_cache ++ sorted
      end
  end.

Definition mergeSortedCache (temp_sorted_cache : list Z) (d : StringDictionary) : StringDictionary :=
  set_sorted
    (merge_caches (length temp_sorted_cache + length (sorted_cache d)) (storage_ d)
       temp_sorted_cache (sorted_cache d)) d.

Definition buildSortedCache (d : StringDictionary) : StringDictionary :=
  let cur_cache_size := length (sorted_cache d) in
  let temp_sorted_cache :=
    map (fun i => s32 (Z.of_nat i)) (seq cur_cache_size (Z.to_nat (str_count_ d) - cur_cache_size)) in
  mergeSortedCache (sortCache d temp_sorted_cache) d.

(** [std::lower_bound] halves the range; on a sorted range it finds the first element that is
    not less than the pattern. *)
Fixpoint lower_bound_loop (fuel : nat) (s : Storage) (cache : list Z) (pattern : list Z)
    (first count : nat) : nat :=
  match fuel with
  | O => first
  | S fuel' =>
      match count with
      | O => first
      | _ =>
          let step := Nat.div2 count in
          if string_lt (payload_or_nil s (nth (first + step) cache 0)) pattern
          then lower_bound_loop fuel' s cache pattern (first + step + 1) (count - step - 1)
          else lower_bound_loop fuel' s cache pattern first step
      end
  end.
Definition lower_bound (s : Storage) (cache : list Z) (pattern : list Z) : nat :=
  lower_bound_loop (S (length cache)) s cache pattern 0 (length cache).

(** The position of the pattern in the sorted cache. *)
Definition compare_position (d : StringDictionary) (pattern : list Z) : compare_cache_value_t :=
  let cache_itr := lower_bound (storage_ d) (sorted_cache d) pattern in
  match sorted_cache d !! cache_itr with
  | None => mkCompare (s32 (len (sorted_cache d) - 1)) 1
  | Some id =>
      if negb (string_eq (payload_or_nil (storage_ d) id) pattern)
      then mkCompare (s32 (Z.of_nat cache_itr - 1)) 1
      else mkCompare (s32 (Z.of_nat cache_itr)) 0
  end.

(** The ids of the sorted cache from [a] up to [b]. *)
Definition cache_between (cache : list Z) (a b : Z) : list Z :=
  take (Z.to_nat b - Z.to_nat a) (drop (Z.to_nat a) cache).

(** The ids that the operator selects, given the position. *)
Definition compare_ids (comp_operator : CompOp) (c : compare_cache_value_t) (cache : list Z) : list Z :=
  let n := len cache in
  let bound :=
    if negb (diff c =? 0) then
      if (index c =? 0) && (0 <? diff c) then u64 (index c) else u64 (index c + 1)
    else u64 (index c) in
  match comp_operator with
  | OpLt => cache_between cache 0 bound
  | OpLe => cache_between cache 0 (u64 (index c + 1))
  | OpGt =>
      cache_between cache
        (if (index c =? 0) && (0 <? diff c) then u64 (index c) else u64 (index c + 1)) n
  | OpGe => cache_between cache bound n
  | OpEq => if diff c =? 0 then cache_between cache (u64 (index c)) (u64 (index c) + 1) else []
  | OpNe =>
      if diff c =? 0
      then cache_between cache 0 (u64 (index c)) ++ cache_between cache (u64 (index c) + 1) n
      else concat (map (fun _ => cache) cache)
  | OpOther => []
  end.

(** The part of [getCompare] after the sorted cache is up to date. *)
Definition compare_by_position (pattern : list Z) (comp_operator : CompOp) : DM (list Z) :=
  let! cached := gets (fun d => compare_cache_ d !! pattern) in
  let! c :=
    match cached with
    | Some c => ret c
    | None =>
        let! c := gets (fun d => compare_position d pattern) in
        do! modify (fun d => set_caches (like_cache_ d) (regex_cache_ d) (equal_cache_ d)
                               (<[pattern := c]> (compare_cache_ d)) (strings_cache_ d) d) in
        ret c
    end in
  gets (fun d => compare_ids comp_operator c (sorted_cache d)).

Definition getCompare (pattern : list Z) (comp_operator : CompOp) (generation : Z) : DM (list Z) :=
  let! str_count := gets str_count_ in
  if str_count =? 0 then ret []
  else
    let! stale := gets (fun d => len (sorted_cache d) <? str_count) in
    if stale then
      match comp_operator with
      | OpEq | OpNe => getEquals pattern comp_operator generation
      | _ => do! modify buildSortedCache in compare_by_position pattern comp_operator
      end
    else compare_by_position pattern comp_operator.

(** ** Copies of the strings *)

(** The lambda [copy]. *)
Definition copy_range (d : StringDictionary) (start_id end_id : Z) : result DictError (list (list Z)) :=
  if start_id <=? end_id then
    fold_right
      (fun i acc =>
         match getStringUnlocked d (start_id + Z.of_nat i), acc with
         | Ok str, Ok strs => Ok (str :: strs)
         | Err e, _ => Err e
         | _, Err e => Err e
         end)
      (Ok []) (seq 0 (Z.to_nat (end_id - start_id)))
  else Err DCheck.

(** The loop that starts the workers; their results come one after the other. *)
Fixpoint copy_workers (n : nat) (d : StringDictionary) (stride start : Z)
    : result DictError (list (list Z)) :=
  match n with
  | O => Ok []
  | S n' =>
      if start <? str_count_ d then
        match copy_range d start (Z.min (start + stride) (str_count_ d)) with
        | Err e => Err e
        | Ok strs =>
            match copy_workers n' d stride (start + stride) with
            | Err e => Err e
            | Ok rest => Ok (strs ++ rest)
            end
        end
      else Ok []
  end.

Definition copyStrings : DM (list (list Z)) :=
  let! cached := gets strings_cache_ in
  match cached with
  | Some strs => ret strs
  | None =>
      let! strs :=
        query (fun d =>
          let worker_count := if 10000 <? str_count_ d then cpu_threads else 1 in
          if negb (0 <? worker_count) then Err DCheck
          else if 10000 <? str_count_ d
          then copy_workers (Z.to_nat worker_count) d
                 ((str_count_ d + (worker_count - 1)) / worker_count) 0
          else copy_range d 0 (str_count_ d)) in
      do! modify (fun d => set_caches (like_cache_ d) (regex_cache_ d) (equal_cache_ d)
                             (compare_cache_ d) (Some strs) d) in
      ret strs
  end.

(** ** Translation between dictionaries *)

(** [StringDictionaryProxy::transientIdToIndex]. *)
Definition transientIdToIndex (id : Z) : Z := u32 (-2 - id).

Definition source_string (source_dict : StringDictionary) (transient_string_vec : list (list Z))
    (source_id : Z) : result DictError (list Z) :=
  if source_id =? INT32_MIN then Ok []
  else if source_id <? 0 then
    match transient_string_vec !! Z.to_nat (transientIdToIndex source_id) with
    | Some str => Ok str
    | None => Err DCheck
    end
  else getString source_dict source_id.

Fixpoint source_strings (source_dict : StringDictionary) (transient_string_vec : list (list Z))
    (source_ids : list Z) : result DictError (list (list Z)) :=
  match source_ids with
  | [] => Ok []
  | source_id :: rest =>
      match source_string source_dict transient_string_vec source_id with
      | Err e => Err e
      | Ok str =>
          match source_strings source_dict transient_string_vec rest with
          | Err e => Err e
          | Ok strs => Ok (str :: strs)
          end
      end
  end.

(** The state is that of [dest_dict]. *)
Definition populate_string_ids (source_ids : list Z) (source_dict : StringDictionary)
    (transient_string_vec : list (list Z)) : DM (list Z) :=
  let! strings := query (fun _ => source_strings source_dict transient_string_vec source_ids) in
  getOrAddBulk Int32 strings.

(** The rows are handed out by an atomic counter, and the workers reach [getOrAddBulk] in some
    order [rows]. *)
Fixpoint populate_string_array_ids (rows : list nat) (source_array_ids : list (list Z))
    (source_dict : StringDictionary) (dest_array_ids : list (list Z)) : DM (list (list Z)) :=
  match rows with
  | [] => ret dest_array_ids
  | row :: rest =>
      let! ids := populate_string_ids (nth row source_array_ids []) source_dict [] in
      populate_string_array_ids rest source_array_ids source_dict (<[row := ids]> dest_array_ids)
  end.

(** What the callback for strings that are not in the destination does: it may write the
    translated ids, and tells whether the string is untranslated. *)
Definition StringLookupCallback : Type := list Z -> Z -> list Z -> bool * list Z.

Definition translate_body (source dest : StringDictionary) (num_dest_strings : Z)
    (dest_has_transients : bool) (callback : StringLookupCallback) (source_string_id : nat)
    (translated_ids : list Z) : result DictError (list Z * Z) :=
  let source_str := getStringFromStorageFast (storage_ source) (Z.of_nat source_string_id) in
  let hash := if materialize_hashes_ source
              then hash_at (hash_cache_ source) (Z.of_nat source_string_id)
              else Ok (hash_string source_str) in
  match hash with
  | Err e => Err e
  | Ok hash =>
      match computeBucket dest hash source_str (table_ dest) with
      | Err e => Err e
      | Ok hash_bucket =>
          match load_at hash_bucket (table_ dest) with
          | Err e => Err e
          | Ok translated_string_id =>
              let translated_ids := <[source_string_id := translated_string_id]> translated_ids in
              if (translated_string_id =? INVALID_STR_ID) || (num_dest_strings <=? translated_string_id)
              then
                if dest_has_transients then
                  let '(untranslated, translated_ids) :=
                    callback source_str (Z.of_nat source_string_id) translated_ids in
                  Ok (translated_ids, b2z untranslated)
                else Ok (translated_ids, 1)
              else Ok (translated_ids, 0)
          end
      end
  end.

(** The translated ids, and the number of strings not translated. *)
Definition buildDictionaryTranslationMap (source dest : StringDictionary)
    (translated_ids : list Z) (source_generation dest_generation : Z) (dest_has_transients : bool)
    (callback : StringLookupCallback) (schedule : Schedule) : result DictError (list Z * Z) :=
  if negb ((0 <=? source_generation) && (0 <=? dest_generation)) then Err DCheck
  else if source_generation =? 0 then Ok (translated_ids, 0)
  else if bool_decide (dict_ref_ source = dict_ref_ dest) then Err DRuntime
  else if negb ((source_generation <=? str_count_ source) && (dest_generation <=? str_count_ dest))
  then Err DCheck
  else
    let thread_info := make_ThreadInfo hardware_concurrency source_generation 1000 in
    let n := Z.to_nat source_generation in
    if dest_generation =? 0
    then Ok (replicate n INVALID_STR_ID ++ drop n translated_ids, source_generation)
    else
      match run_schedule (translate_body source dest dest_generation dest_has_transients callback)
              Z.add schedule translated_ids
              (replicate (Z.to_nat (num_threads thread_info)) 0) with
      | Err e => Err e
      | Ok (translated_ids, counts) => Ok (translated_ids, sum_counts counts)
      end.

(** ** Construction and recovery *)

(** A new dictionary, temporary or on new files.  [collisions_] is not initialised. *)
Definition blank_dictionary (dict_ref : Z * Z) (materializeHashes : bool)
    (initial_capacity collisions : Z) : StringDictionary :=
  mkDict dict_ref materializeHashes 0 collisions
    (replicate (Z.to_nat initial_capacity) INVALID_STR_ID)
    (replicate (Z.to_nat initial_capacity) 0) [] empty_storage ∅ ∅ ∅ ∅ None.

Definition new_dictionary (dict_ref : Z * Z) (materializeHashes : bool)
    (initial_capacity collisions : Z) : result DictError StringDictionary :=
  if Z.land initial_capacity (u64 (initial_capacity - 1)) =? 0
  then Ok (blank_dictionary dict_ref materializeHashes initial_capacity collisions)
  else Err DCheck.

(** The hash and the length of the strings that one task reads. *)
Fixpoint recover_chunk (n : nat) (s : Storage) (curr_id : Z) : result DictError (list (Z * Z)) :=
  match n with
  | O => Ok []
  | S n' =>
      match getStringFromStorage s curr_id with
      | Err e => Err e
      | Ok None => Ok []
      | Ok (Some str) =>
          match recover_chunk n' s (curr_id + 1) with
          | Err e => Err e
          | Ok rest => Ok ((hash_string str, len str) :: rest)
          end
      end
  end.

(** The body of the loop over the hashes that a task returned. *)
Definition process_hash (entry : Z * Z) : DM unit :=
  let '(hash, size) := entry in
  let! '(bucket, steps) := query (fun d => computeUniqueBucketWithHash hash (table_ d)) in
  do! modify (fun d => set_collisions (u64 (collisions_ d + steps)) d) in
  do! modify (fun d =>
        let s := storage_ d in
        set_storage (mkStorage (offset_map_ s) (payload_map_ s) (offset_file_size_ s)
                       (payload_file_size_ s) (payload_file_off_ s + size)) d) in
  let! str_count := gets str_count_ in
  do! put_table bucket (s32 str_count) in
  do! put_hash str_count hash in
  modify (set_count (u64 (str_count + 1))).

Fixpoint processHashVec (hashVec : list (Z * Z)) : DM unit :=
  match hashVec with
  | [] => ret tt
  | entry :: rest => do! process_hash entry in processHashVec rest
  end.

(** One task after the other. *)
Fixpoint processDictionaryFutures (dictionary_futures : list (list (Z * Z))) : DM unit :=
  match dictionary_futures with
  | [] => ret tt
  | hashVec :: rest => do! processHashVec hashVec in processDictionaryFutures rest
  end.

(** The loop that starts the tasks, with the futures that are still to be processed. *)
Fixpoint recover_loop (fuel : nat) (s : Storage) (str_count items_per_thread thread_count : Z)
    (string_id thread_inits : Z) (dictionary_futures : list (list (Z * Z))) : DM unit :=
  match fuel with
  | O => throw DLoop
  | S fuel' =>
      if string_id <? str_count then
        let! hashVec :=
          query (fun _ => recover_chunk (Z.to_nat (Z.min items_per_thread (str_count - string_id)))
                            s string_id) in
        let dictionary_futures := dictionary_futures ++ [hashVec] in
        let thread_inits := u32 (thread_inits + 1) in
        let! dictionary_futures :=
          if thread_inits mod thread_count =? 0
          then do! processDictionaryFutures dictionary_futures in ret []
          else ret dictionary_futures in
        recover_loop fuel' s str_count items_per_thread thread_count
          (u32 (string_id + items_per_thread)) thread_inits dictionary_futures
      else processDictionaryFutures dictionary_futures
  end.

(** A dictionary on the files of another one: the entries and the payload are those of [s]. *)
Definition recover_dictionary (dict_ref : Z * Z) (materializeHashes : bool)
    (initial_capacity : Z) (s : Storage) : result DictError StringDictionary :=
  if negb (Z.land initial_capacity (u64 (initial_capacity - 1)) =? 0) then Err DCheck
  else
    match getNumStringsFromStorage s (offset_file_size_ s / sizeof_entry) with
    | None => Err DLoop
    | Some str_count =>
        let max_entries :=
          Z.max (round_up_p2 (u64 (str_count * 2 + 1))) (round_up_p2 (Z.max initial_capacity 1)) in
        let d :=
          mkDict dict_ref materializeHashes 0 0
            (replicate (Z.to_nat max_entries) INVALID_STR_ID)
            (if materializeHashes then replicate (Z.to_nat (max_entries / 2)) 0
             else replicate (Z.to_nat initial_capacity) 0)
            []
            (mkStorage (offset_map_ s) (payload_map_ s) (offset_file_size_ s)
               (payload_file_size_ s) 0)
            ∅ ∅ ∅ ∅ None in
        if str_count =? 0 then Ok d
        else if hardware_concurrency =? 0 then Err DUndefined
        else
          let items_per_thread :=
            Z.max 2000 (Z.min 200000 (u32 (str_count / hardware_concurrency + 1))) in
          match recover_loop (S (Z.to_nat str_count)) s str_count items_per_thread
                  hardware_concurrency 0 0 [] d with
          | (Ok _, d') => Ok d'
          | (Err e, _) => Err e
          end
    end.

End Env.
