(* ===== verification/DictQueryFacts.v ===== *)
(** * The queries find the strings they are asked for *)

From Stdlib Require Import ZArith Lia List Bool.
From stdpp Require Import base list numbers sets gmap.
From S2P Require Import Prelude StateMonad StringLike DictStorage StringDictionary DictFacts DictOps DictQueries.
Import ListNotations.
Local Open Scope Z_scope.

#[local] Abbreviation table_ := string_id_string_dict_hash_table_.

(** ** Reading *)

Section Env.

Context `{DictEnvOk}.

Lemma getString_spec d strs i str :
  represents d strs -> strs !! i = Some str -> getString d (Z.of_nat i) = Ok str.
Proof.
  intros R Hi. unfold getString, getStringUnlocked. rewrite (rp_count _ _ R).
  pose proof (rp_max _ _ R) as Hm. pose proof (lookup_lt_Some _ _ _ Hi). unfold MAX_STRCOUNT, len in *.
  rewrite s32_small by lia. destruct (Z.ltb_spec (Z.of_nat i) (Z.of_nat (length strs))); [|lia].
  exact (read_checked _ strs i str (ho_storage _ _ (rp_holds _ _ R)) Hi).
Qed.

Lemma getString_bad d strs id :
  represents d strs -> id < 0 \/ len strs <= id -> getString d id = Err DCheck.
Proof.
  intros R Hid. unfold getString, getStringUnlocked. rewrite (rp_count _ _ R).
  pose proof (rp_max _ _ R) as Hm. pose proof (len_nonneg strs). unfold MAX_STRCOUNT in *.
  rewrite s32_small by lia. destruct (Z.ltb_spec id (len strs)); [|reflexivity].
  unfold getStringChecked, getStringFromStorage. destruct (Z.ltb_spec id 0); [reflexivity | lia].
Qed.

(** ** Scans *)

(** [id] is that of a string below [generation] that satisfies [p]. *)
Definition selected (strs : list (list Z)) (p : list Z -> bool) (generation : Z) (id : Z) : Prop :=
  exists i str, id = Z.of_nat i /\ strs !! i = Some str /\ id < generation /\ p str = true.

Lemma strided_in fuel : forall start step bound x,
  0 < step -> (Z.to_nat (bound - start) < fuel)%nat ->
  x ∈ strided fuel start step bound <-> exists k, 0 <= k /\ x = start + k * step /\ x < bound.
Proof.
  induction fuel as [|fuel IH]; intros start step bound x Hs Hf; [lia|]. cbn.
  destruct (Z.ltb_spec start bound) as [Hlt|Hge].
  - rewrite elem_of_cons, IH by lia. split.
    + intros [->|(k & Hk & -> & Hb)]; [exists 0; lia | exists (k + 1); lia].
    + intros (k & Hk & -> & Hb). destruct (Z.eq_dec k 0) as [->|]; [left; lia|]. right. exists (k - 1). lia.
  - split; [set_solver|]. intros (k & Hk & -> & Hb). nia.
Qed.

Lemma strided_NoDup fuel : forall start step bound,
  0 < step -> (Z.to_nat (bound - start) < fuel)%nat -> NoDup (strided fuel start step bound).
Proof.
  induction fuel as [|fuel IH]; intros start step bound Hs Hf; [lia|]. cbn.
  destruct (Z.ltb_spec start bound); [|apply NoDup_nil_2].
  apply NoDup_cons. split; [|apply IH; lia].
  intros (k & Hk & E & _)%strided_in; [nia | lia | lia].
Qed.

Lemma select_ids_spec d strs p ids :
  represents d strs -> (forall id, id ∈ ids -> 0 <= id < len strs) ->
  exists found, select_ids d p ids = Ok found /\
    (forall id, id ∈ found <-> id ∈ ids /\ exists str, strs !! Z.to_nat id = Some str /\ p str = true) /\
    (NoDup ids -> NoDup found).
Proof.
  intros R. induction ids as [|id ids IH]; intros Hin; cbn.
  - exists []. split; [reflexivity|]. split; [set_solver | auto].
  - assert (Hid : 0 <= id < len strs) by (apply Hin; set_solver). unfold len in Hid.
    destruct (lookup_lt_is_Some_2 strs (Z.to_nat id) ltac:(lia)) as [str Hs].
    pose proof (getString_spec d strs _ str R Hs) as E. rewrite Z2Nat.id in E by lia.
    unfold getString in E. rewrite E.
    destruct IH as (found & -> & Hf & Hn); [intros x Hx; apply Hin; set_solver|].
    eexists. split; [reflexivity|]. split.
    + intros x. destruct (p str) eqn:Ep; rewrite ?elem_of_cons, Hf; split.
      * intros [->|[? ?]]; eauto.
      * intros [[->|?] ?]; eauto.
      * intros [? ?]. eauto.
      * intros [[->|?] (str' & Hs' & Ep')]; [congruence | eauto].
    + intros [Hni Hnd]%NoDup_cons. destruct (p str); [|auto]. apply NoDup_cons. split; [|auto].
      rewrite Hf. tauto.
Qed.

Lemma strided_mod w count generation x :
  0 <= w < count -> 0 <= generation ->
  x ∈ strided (S (Z.to_nat generation)) w count generation <-> 0 <= x < generation /\ x mod count = w.
Proof.
  intros Hw Hg. rewrite strided_in by lia. split.
  - intros (k & Hk & -> & Hb). split; [nia|]. rewrite Z.mod_add by lia. apply Z.mod_small. lia.
  - intros [Hx Hm]. exists (x / count). pose proof (Z.div_mod x count ltac:(lia)).
    pose proof (Z.div_pos x count). lia.
Qed.

(** The workers share the ids by their remainders. *)
Lemma worker_results_spec d strs p count generation n : forall w,
  represents d strs -> 0 <= generation <= len strs -> 0 <= w -> 0 < count -> w + Z.of_nat n = count ->
  exists found, worker_results n d p w count generation = Ok found /\
    (forall id, id ∈ found <-> selected strs p generation id /\ w <= id mod count) /\ NoDup found.
Proof.
  induction n as [|n IH]; intros w R Hg Hw Hpos Hc; cbn [worker_results].
  - exists []. split; [reflexivity|]. split; [|apply NoDup_nil_2]. intros id. split; [set_solver|].
    intros [(i & str & -> & _) Hm]. pose proof (Z.mod_pos_bound (Z.of_nat i) count Hpos). lia.
  - set (ids := strided _ _ _ _).
    assert (Hids : forall x, x ∈ ids <-> 0 <= x < generation /\ x mod count = w)
      by (intros x; apply strided_mod; lia).
    destruct (select_ids_spec d strs p ids R) as (found & -> & Hf & Hn).
    { intros x [Hx _]%Hids. lia. }
    destruct (IH (w + 1) R Hg) as (rest & -> & Hr & Hnr); try lia.
    exists (found ++ rest). split; [reflexivity|]. split.
    + intros id. rewrite elem_of_app, Hf, Hr, Hids. unfold selected. split.
      * intros [[[Hid Hm] (str & Hs & Ep)]|[Hsel Hm]]; [|split; [exact Hsel | lia]].
        split; [|lia]. exists (Z.to_nat id), str. rewrite Z2Nat.id by lia. repeat split; auto; lia.
      * intros [(i & str & -> & Hs & Hlt & Ep) Hm].
        destruct (Z.eq_dec (Z.of_nat i mod count) w) as [E|N].
        -- left. rewrite Nat2Z.id. split; [split; [lia | exact E] | eauto].
        -- right. split; [eauto 7 | lia].
    + apply NoDup_app. split; [|split; [|exact Hnr]].
      * apply Hn. apply strided_NoDup; lia.
      * intros x [[_ Hm]%Hids _]%Hf [_ Hm']%Hr. lia.
Qed.

Lemma cpu_threads_pos : 0 < cpu_threads.
Proof.
  unfold cpu_threads. destruct threads_known. destruct (Z.leb_spec g_cpu_threads_override 0); lia.
Qed.

(** The ids that the workers find, each once. *)
Definition scan_result (strs : list (list Z)) (p : list Z -> bool) (generation : Z) (ids : list Z) : Prop :=
  NoDup ids /\ forall id, id ∈ ids <-> selected strs p generation id.

Lemma scan_strings_spec d strs p generation :
  represents d strs -> 0 <= generation <= len strs ->
  exists ids, scan_strings p generation d = (Ok ids, d) /\ scan_result strs p generation ids.
Proof.
  intros R Hg. pose proof cpu_threads_pos as Hc. unfold scan_strings.
  rewrite run_check by (now apply Z.ltb_lt). rewrite run_gets, (rp_count _ _ R).
  rewrite run_check by (apply Z.leb_le; lia).
  destruct (worker_results_spec d strs p cpu_threads generation (Z.to_nat cpu_threads) 0 R Hg)
    as (ids & E & Hin & Hn); try lia.
  exists ids. unfold query. rewrite E. split; [reflexivity|]. split; [exact Hn|].
  intros id. rewrite Hin. split; [tauto|]. intros Hs. split; [exact Hs|].
  destruct Hs as (i & _ & -> & _). pose proof (Z.mod_pos_bound (Z.of_nat i) cpu_threads Hc). lia.
Qed.

Lemma scan_strings_bad d strs p generation :
  represents d strs -> len strs < generation -> scan_strings p generation d = (Err DCheck, d).
Proof.
  intros R Hg. pose proof cpu_threads_pos as Hc. unfold scan_strings.
  rewrite run_check by (now apply Z.ltb_lt). rewrite run_gets, (rp_count _ _ R).
  apply run_check_fail. apply Z.leb_gt. lia.
Qed.

(** ** The caches of the scans *)

(** Every cached result is that of a scan up to some generation. *)
Record scan_caches_ok (d : StringDictionary) (strs : list (list Z)) : Prop := {
  co_like : forall pattern icase is_simple escape ids,
    like_cache_ d !! (pattern, icase, is_simple, escape) = Some ids ->
    exists g, 0 <= g <= len strs /\
      scan_result strs (fun str => is_like str pattern icase is_simple escape) g ids;
  co_regex : forall pattern escape ids, regex_cache_ d !! (pattern, escape) = Some ids ->
    exists g, 0 <= g <= len strs /\ scan_result strs (fun str => regexp_like str pattern escape) g ids;
  co_equal : forall pattern id, equal_cache_ d !! pattern = Some id ->
    exists i, id = Z.of_nat i /\ strs !! i = Some pattern
}.

Lemma selected_app strs added p g id :
  g <= len strs -> selected (strs ++ added) p g id <-> selected strs p g id.
Proof.
  intros Hg. unfold selected. split; intros (i & str & -> & Hi & Hlt & Hp); exists i, str; repeat split; auto.
  - rewrite lookup_app_l in Hi; [exact Hi | unfold len in *; lia].
  - now apply lookup_app_l_Some.
Qed.

Lemma scan_result_app strs added p g ids :
  g <= len strs -> scan_result strs p g ids -> scan_result (strs ++ added) p g ids.
Proof. intros Hg [Hn Hi]. split; [exact Hn|]. intros id. rewrite selected_app by exact Hg. apply Hi. Qed.

(** Additions keep the cached results right for their generation. *)
Lemma scan_caches_app d d' strs added :
  scan_caches_ok d strs -> same_caches d d' -> scan_caches_ok d' (strs ++ added).
Proof.
  intros [L G E] (El & Eg & Ee & _). pose proof (len_nonneg added). split; rewrite ?El, ?Eg, ?Ee, ?len_app.
  - intros p ic si e ids Hl. destruct (L _ _ _ _ _ Hl) as (g & Hg & Hr). exists g.
    split; [lia | apply scan_result_app; [lia | exact Hr]].
  - intros p e ids Hl. destruct (G _ _ _ Hl) as (g & Hg & Hr). exists g.
    split; [lia | apply scan_result_app; [lia | exact Hr]].
  - intros p id Hl. destruct (E _ _ Hl) as (i & -> & Hi). exists i. split; [reflexivity|].
    now apply lookup_app_l_Some.
Qed.

Lemma scan_caches_empty d strs : no_caches d -> scan_caches_ok d strs.
Proof. intros (El & Eg & Ee & _). split; rewrite ?El, ?Eg, ?Ee; intros *; rewrite lookup_empty; discriminate. Qed.

(** ** LIKE *)

Lemma getLike_cached d pattern icase is_simple escape generation ids :
  like_cache_ d !! (pattern, icase, is_simple, escape) = Some ids ->
  getLike pattern icase is_simple escape generation d = (Ok ids, d).
Proof. intros E. unfold getLike. rewrite run_gets, E. reflexivity. Qed.

Lemma getLike_fresh d strs pattern icase is_simple escape generation :
  represents d strs -> scan_caches_ok d strs -> 0 <= generation <= len strs ->
  like_cache_ d !! (pattern, icase, is_simple, escape) = None ->
  exists ids d', getLike pattern icase is_simple escape generation d = (Ok ids, d') /\
    scan_result strs (fun str => is_like str pattern icase is_simple escape) generation ids /\
    represents d' strs /\ scan_caches_ok d' strs /\
    d' = set_caches (<[(pattern, icase, is_simple, escape) := ids]> (like_cache_ d)) (regex_cache_ d)
           (equal_cache_ d) (compare_cache_ d) (strings_cache_ d) d.
Proof.
  intros R [L G E] Hg Hnone. unfold getLike. rewrite run_gets, Hnone.
  destruct (scan_strings_spec d strs (fun str => is_like str pattern icase is_simple escape) generation R Hg)
    as (ids & Es & Hr).
  rewrite (bind_ok _ _ _ _ _ Es), run_modify. eexists ids, _. split; [reflexivity|].
  split; [exact Hr|]. split; [now apply represents_caches|]. split; [|reflexivity].
  split; cbn; auto. intros p ic si e ids'.
  destruct (decide ((pattern, icase, is_simple, escape) = (p, ic, si, e))) as [[= <- <- <- <-]|N].
  - rewrite lookup_insert_eq. intros [= <-]. eauto.
  - rewrite lookup_insert_ne by exact N. apply L.
Qed.

Lemma getRegexpLike_fresh d strs pattern escape generation :
  represents d strs -> scan_caches_ok d strs -> 0 <= generation <= len strs ->
  regex_cache_ d !! (pattern, escape) = None ->
  exists ids d', getRegexpLike pattern escape generation d = (Ok ids, d') /\
    scan_result strs (fun str => regexp_like str pattern escape) generation ids /\
    represents d' strs /\ scan_caches_ok d' strs /\
    d' = set_caches (like_cache_ d) (<[(pattern, escape) := ids]> (regex_cache_ d))
           (equal_cache_ d) (compare_cache_ d) (strings_cache_ d) d.
Proof.
  intros R [L G E] Hg Hnone. unfold getRegexpLike. rewrite run_gets, Hnone.
  destruct (scan_strings_spec d strs (fun str => regexp_like str pattern escape) generation R Hg)
    as (ids & Es & Hr).
  rewrite (bind_ok _ _ _ _ _ Es), run_modify. eexists ids, _. split; [reflexivity|].
  split; [exact Hr|]. split; [now apply represents_caches|]. split; [|reflexivity].
  split; cbn; auto. intros p e ids'.
  destruct (decide ((pattern, escape) = (p, e))) as [[= <- <-]|N].
  - rewrite lookup_insert_eq. intros [= <-]. eauto.
  - rewrite lookup_insert_ne by exact N. apply G.
Qed.

End Env.
