(* ===== verification/DictCompareFacts.v ===== *)
(** * The order of strings without the character 0

    On such strings [string_lt] is a strict total order; with the character 0 it is not even
    a strict weak order. *)

From Stdlib Require Import ZArith Lia List Bool Sorted Permutation.
From stdpp Require Import base list numbers sets gmap.
From S2P Require Import Prelude StateMonad StringLike StringLikeProps DictStorage.
From S2P Require Import StringDictionary DictFacts DictOps DictQueries DictQueryFacts.
Import ListNotations.
Local Open Scope Z_scope.

Definition clean (str : list Z) : Prop := forall c, In c str -> is_char c /\ c <> 0.

Lemma lex_refl a : lex_compare a a = Eq.
Proof. induction a as [|x a IH]; cbn; [reflexivity|]. now rewrite Z.compare_refl. Qed.

Lemma lex_opp a b : lex_compare b a = CompOpp (lex_compare a b).
Proof.
  revert b. induction a as [|x a IH]; intros [|y b]; cbn; auto.
  rewrite (Z.compare_antisym x y). destruct (x ?= y); cbn; auto.
Qed.

Lemma lex_eq a b : lex_compare a b = Eq -> a = b.
Proof.
  revert b. induction a as [|x a IH]; intros [|y b]; cbn; try discriminate; auto.
  destruct (Z.compare_spec x y) as [->| |]; try discriminate. intros E. f_equal. auto.
Qed.

Lemma lex_trans a b c : lex_compare a b = Lt -> lex_compare b c = Lt -> lex_compare a c = Lt.
Proof.
  revert b c. induction a as [|x a IH]; intros [|y b] [|z c]; cbn; try discriminate; auto.
  destruct (Z.compare_spec x y), (Z.compare_spec y z), (Z.compare_spec x z); try discriminate; try lia; eauto.
Qed.

Lemma u8_inj a b : clean a -> clean b -> map u8 a = map u8 b -> a = b.
Proof.
  revert b. induction a as [|x a IH]; intros [|y b] Ha Hb E; cbn in E; try discriminate; auto.
  injection E as Ex E. f_equal.
  - destruct (Ha x (or_introl eq_refl)) as [Hx _], (Hb y (or_introl eq_refl)) as [Hy _].
    rewrite (u8_char x Hx), (u8_char y Hy) in Ex. unfold is_char in *. zbool; lia.
  - apply IH; auto; intros c Hc; [apply Ha | apply Hb]; now right.
Qed.

Section Order.

Context (a b c : list Z) (Ha : clean a) (Hb : clean b) (Hc : clean c).

Lemma string_lt_lex x y : clean x -> clean y ->
  string_lt x y = match lex_compare (map u8 x) (map u8 y) with Lt => true | _ => false end.
Proof.
  intros Hx Hy. rewrite <- (StringCompare_lex x y Hx Hy). unfold string_lt.
  destruct (Z.compare_spec (StringCompare x y) 0); zbool; lia.
Qed.

Lemma string_lt_irrefl : string_lt a a = false.
Proof. rewrite string_lt_lex by assumption. now rewrite lex_refl. Qed.

Lemma string_lt_trans : string_lt a b = true -> string_lt b c = true -> string_lt a c = true.
Proof.
  rewrite !string_lt_lex by assumption.
  destruct (lex_compare (map u8 a) (map u8 b)) eqn:E1; try discriminate.
  destruct (lex_compare (map u8 b) (map u8 c)) eqn:E2; try discriminate.
  now rewrite (lex_trans _ _ _ E1 E2).
Qed.

Lemma string_lt_asym : string_lt a b = true -> string_lt b a = false.
Proof.
  rewrite !string_lt_lex by assumption. rewrite (lex_opp (map u8 a)).
  now destruct (lex_compare (map u8 a) (map u8 b)).
Qed.

Lemma string_lt_total : string_lt a b = false -> string_lt b a = false -> a = b.
Proof.
  rewrite !string_lt_lex by assumption. rewrite (lex_opp (map u8 a)).
  destruct (lex_compare (map u8 a) (map u8 b)) eqn:E; try discriminate.
  intros _ _. apply u8_inj; auto. now apply lex_eq.
Qed.

Lemma string_eq_clean : string_eq a b = true <-> a = b.
Proof.
  unfold string_eq. split.
  - intros E%Z.eqb_eq. apply u8_inj; auto. apply lex_eq. rewrite <- StringCompare_lex by assumption.
    now rewrite E.
  - intros ->. apply Z.eqb_eq, Z.compare_eq. rewrite StringCompare_lex by assumption. apply lex_refl.
Qed.

End Order.

(** The other operators, in terms of [string_lt]. *)
Lemma string_ops_lt a b : clean a -> clean b ->
  string_gt a b = string_lt b a /\ string_le a b = negb (string_lt b a) /\
  string_ge a b = negb (string_lt a b).
Proof.
  intros Ha Hb. rewrite !string_lt_lex by assumption. rewrite (lex_opp (map u8 a)).
  rewrite <- (StringCompare_lex a b Ha Hb). unfold string_gt, string_le, string_ge.
  destruct (Z.compare_spec (StringCompare a b) 0); cbn; repeat split; zbool; lia.
Qed.

(** [not (y < x)] is transitive. *)
Lemma string_ge_trans a b c : clean a -> clean b -> clean c ->
  string_lt b a = false -> string_lt c b = false -> string_lt c a = false.
Proof.
  intros Ha Hb Hc Hba Hcb. destruct (string_lt c a) eqn:E; [|reflexivity].
  destruct (string_lt a b) eqn:E2.
  - now rewrite (string_lt_trans c a b Hc Ha Hb E E2) in Hcb.
  - rewrite (string_lt_total a b Ha Hb E2 Hba) in E. congruence.
Qed.

(** The end of a string compares as the character 0, whatever follows in the other one, so
    the equivalence of the order is not transitive. *)
Example string_lt_not_weak :
  string_eq [97; 0; 98] [97] = true /\ string_eq [97] [97; 0; 99] = true /\
  string_lt [97; 0; 98] [97; 0; 99] = true.
Proof. repeat split. Qed.

(** * The sorted cache and the comparison queries *)

(** ** Sorting ids by their strings *)

Section Sort.

Context (str : Z -> list Z).

(** [a] is not after [b]. *)
Definition not_after (a b : Z) : Prop := string_lt (str b) (str a) = false.

Definition sorted_ids (l : list Z) : Prop := StronglySorted not_after l.
Definition clean_ids (l : list Z) : Prop := forall id, id ∈ l -> clean (str id).

Lemma not_after_trans a b c :
  clean (str a) -> clean (str b) -> clean (str c) -> not_after a b -> not_after b c -> not_after a c.
Proof. unfold not_after. intros Ha Hb Hc. apply string_ge_trans; assumption. Qed.

Lemma lt_not_after a b : clean (str a) -> clean (str b) -> string_lt (str a) (str b) = true -> not_after a b.
Proof. intros Ha Hb. now apply string_lt_asym. Qed.

Lemma Forall_trans a b l :
  clean (str a) -> clean (str b) -> clean_ids l -> not_after a b -> Forall (not_after b) l -> Forall (not_after a) l.
Proof.
  intros Ha Hb Hl Hab. rewrite !Forall_forall. intros Hf x Hx.
  apply not_after_trans with b; auto.
Qed.

Lemma insert_sorted_perm lt x l : insert_sorted lt x l ≡ₚ x :: l.
Proof.
  induction l as [|y l IH]; cbn; [reflexivity|]. destruct (lt y x); [|reflexivity].
  rewrite IH. apply Permutation_swap.
Qed.

Lemma insert_sorted_sorted x l :
  clean (str x) -> clean_ids l -> sorted_ids l ->
  sorted_ids (insert_sorted (fun a b => string_lt (str a) (str b)) x l).
Proof.
  intros Hx. induction l as [|y l IH]; intros Hl Hs; cbn; [repeat constructor|].
  apply StronglySorted_inv in Hs as [Hs Hf].
  assert (Hy : clean (str y)) by (apply Hl; set_solver).
  assert (Hl' : clean_ids l) by (intros z Hz; apply Hl; set_solver).
  destruct (string_lt (str y) (str x)) eqn:E.
  - constructor; [now apply IH|]. rewrite insert_sorted_perm. constructor; [now apply lt_not_after | exact Hf].
  - constructor; [now constructor|]. constructor; [exact E|]. now apply Forall_trans with y.
Qed.

Lemma std_sort_perm lt l : std_sort lt l ≡ₚ l.
Proof. induction l as [|x l IH]; cbn; [reflexivity|]. now rewrite insert_sorted_perm, IH. Qed.

Lemma std_sort_sorted l :
  clean_ids l -> sorted_ids (std_sort (fun a b => string_lt (str a) (str b)) l).
Proof.
  induction l as [|x l IH]; intros Hl; [constructor|].
  change (std_sort ?lt (x :: l)) with (insert_sorted lt x (std_sort lt l)). apply insert_sorted_sorted.
  - apply Hl. set_solver.
  - intros id Hid. rewrite std_sort_perm in Hid. apply Hl. set_solver.
  - apply IH. intros id Hid. apply Hl. set_solver.
Qed.

End Sort.

(** ** Merging *)

Lemma merge_perm s fuel : forall l1 l2, merge_caches fuel s l1 l2 ≡ₚ l1 ++ l2.
Proof.
  induction fuel as [|fuel IH]; intros [|t l1] [|c l2]; cbn; rewrite ?app_nil_r; auto.
  destruct (id_lt s t c); rewrite IH; [reflexivity|]. apply Permutation_middle.
Qed.

Lemma merge_sorted s fuel : forall l1 l2,
  (length l1 + length l2 <= fuel)%nat ->
  clean_ids (payload_or_nil s) l1 -> clean_ids (payload_or_nil s) l2 ->
  sorted_ids (payload_or_nil s) l1 -> sorted_ids (payload_or_nil s) l2 ->
  sorted_ids (payload_or_nil s) (merge_caches fuel s l1 l2).
Proof.
  induction fuel as [|fuel IH]; intros [|t l1] [|c l2] Hf C1 C2 S1 S2; cbn in *; rewrite ?app_nil_r; auto; try lia.
  pose proof S1 as S1'. pose proof S2 as S2'.
  apply StronglySorted_inv in S1' as [Ht Ft]. apply StronglySorted_inv in S2' as [Hc Fc].
  assert (Ct : clean (payload_or_nil s t)) by (apply C1; set_solver).
  assert (Cc : clean (payload_or_nil s c)) by (apply C2; set_solver).
  assert (C1' : clean_ids (payload_or_nil s) l1) by (intros x Hx; apply C1; set_solver).
  assert (C2' : clean_ids (payload_or_nil s) l2) by (intros x Hx; apply C2; set_solver).
  destruct (id_lt s t c) eqn:E; (constructor; [apply IH; auto; cbn; lia|]); rewrite merge_perm.
  - apply Forall_app. split; [exact Ft|].
    assert (not_after (payload_or_nil s) t c) by now apply lt_not_after.
    constructor; [assumption|]. now apply Forall_trans with c.
  - assert (not_after (payload_or_nil s) c t) by exact E.
    apply Forall_app. split; [|exact Fc]. constructor; [assumption|]. now apply Forall_trans with t.
Qed.

(** ** The cache of a dictionary *)

Section Cache.

Context `{DictEnvOk}.

Definition clean_strings (strs : list (list Z)) : Prop := forall str, str ∈ strs -> clean str.

(** The sorted cache holds the first ids of the dictionary, in the order of their strings. *)
Record sorted_ok (d : StringDictionary) : Prop := {
  so_perm : sorted_cache d ≡ₚ map Z.of_nat (seq 0 (length (sorted_cache d)));
  so_sorted : sorted_ids (payload_or_nil (storage_ d)) (sorted_cache d);
  so_short : len (sorted_cache d) <= str_count_ d
}.

Lemma payload_lookup d strs i str :
  represents d strs -> strs !! i = Some str -> payload_or_nil (storage_ d) (Z.of_nat i) = str.
Proof.
  intros R Hi. unfold payload_or_nil.
  now rewrite (read_storage _ strs i str (ho_storage _ _ (rp_holds _ _ R)) Hi).
Qed.

Lemma clean_range d strs l :
  represents d strs -> clean_strings strs -> (forall id, id ∈ l -> exists i, id = Z.of_nat i /\ (i < length strs)%nat) ->
  clean_ids (payload_or_nil (storage_ d)) l.
Proof.
  intros R Hc Hl id Hid. destruct (Hl id Hid) as (i & -> & Hi).
  destruct (lookup_lt_is_Some_2 strs i Hi) as [str Hs]. rewrite (payload_lookup d strs i str R Hs).
  apply Hc. eapply list_elem_of_lookup_2; eauto.
Qed.

Lemma elem_of_ids n id : id ∈ map Z.of_nat (seq 0 n) <-> exists i, id = Z.of_nat i /\ (i < n)%nat.
Proof.
  change (map Z.of_nat (seq 0 n)) with (Z.of_nat <$> seq 0 n). rewrite list_elem_of_fmap. split.
  - intros (i & -> & Hi%elem_of_seq). exists i. split; [reflexivity | lia].
  - intros (i & -> & Hi). exists i. split; [reflexivity | apply elem_of_seq; lia].
Qed.

(** The ids that are not in the sorted cache yet. *)
Lemma new_ids d strs :
  represents d strs -> let n := length (sorted_cache d) in
  map (fun i => s32 (Z.of_nat i)) (seq n (Z.to_nat (str_count_ d) - n)) = map Z.of_nat (seq n (length strs - n)).
Proof.
  intros R. cbn zeta. rewrite (rp_count _ _ R). unfold len. rewrite Nat2Z.id.
  apply map_ext_in. intros i Hi%in_seq. apply s32_small. pose proof (rp_max _ _ R) as Hm.
  unfold len, MAX_STRCOUNT in Hm. lia.
Qed.

(** Whatever the strings are, the new cache has every id once. *)
Lemma buildSortedCache_perm d strs :
  represents d strs -> sorted_cache d ≡ₚ map Z.of_nat (seq 0 (length (sorted_cache d))) ->
  len (sorted_cache d) <= len strs ->
  sorted_cache (buildSortedCache d) ≡ₚ map Z.of_nat (seq 0 (length strs)).
Proof.
  intros R P L. unfold buildSortedCache, mergeSortedCache. rewrite (new_ids d strs R). cbn.
  unfold len in L. set (n := length (sorted_cache d)) in *.
  rewrite merge_perm. unfold sortCache. rewrite std_sort_perm, P.
  rewrite Permutation_app_comm, <- map_app, <- seq_app.
  now replace (n + (length strs - n))%nat with (length strs) by lia.
Qed.

Lemma represents_sorted d strs c : represents d strs -> represents (set_sorted c d) strs.
Proof. intros [[S Hh Hn] ? ? ? ? ? ? ?]. split; cbn; auto. now split. Qed.

Lemma buildSortedCache_ok d strs :
  represents d strs -> clean_strings strs -> sorted_ok d ->
  let d' := buildSortedCache d in
  represents d' strs /\ sorted_ok d' /\ sorted_cache d' ≡ₚ map Z.of_nat (seq 0 (length strs)) /\
  compare_cache_ d' = compare_cache_ d.
Proof.
  intros R Hc [P S L]. cbn zeta. rewrite (rp_count _ _ R) in L.
  pose proof (buildSortedCache_perm d strs R P L) as Hperm. unfold len in L.
  assert (Hlen : length (sorted_cache (buildSortedCache d)) = length strs)
    by (rewrite Hperm, length_map, length_seq; reflexivity).
  split; [now apply represents_sorted|]. split; [|split; [exact Hperm | reflexivity]].
  split; [now rewrite Hlen | | change (str_count_ (buildSortedCache d)) with (str_count_ d); rewrite (rp_count _ _ R); unfold len; rewrite Hlen; lia].
  unfold buildSortedCache, mergeSortedCache. rewrite (new_ids d strs R). cbn. set (n := length (sorted_cache d)) in *.
  assert (Ctemp : clean_ids (payload_or_nil (storage_ d)) (map Z.of_nat (seq n (length strs - n)))).
  { apply clean_range with strs; auto. intros id Hid.
    apply list_elem_of_fmap in Hid as (i & -> & Hi%elem_of_seq). exists i. split; [reflexivity | lia]. }
  assert (Ccache : clean_ids (payload_or_nil (storage_ d)) (sorted_cache d)).
  { apply clean_range with strs; auto. intros id Hid. rewrite P in Hid. apply elem_of_ids in Hid as (i & -> & Hi).
    exists i. split; [reflexivity | lia]. }
  apply merge_sorted; auto.
  - intros id Hid. unfold sortCache in Hid. rewrite std_sort_perm in Hid. auto.
  - apply std_sort_sorted. exact Ctemp.
Qed.

End Cache.

(** ** Cuts of a list *)

Lemma cut_take (Q : Z -> Prop) l m :
  (forall j x, l !! j = Some x -> Q x <-> (j < m)%nat) ->
  forall x, x ∈ take m l <-> x ∈ l /\ Q x.
Proof.
  intros HQ x. rewrite !list_elem_of_lookup. split.
  - intros [j Hj]. rewrite lookup_take_Some in Hj. destruct Hj as [Hj Hlt]. rewrite HQ by exact Hj. eauto.
  - intros [[j Hj] Hx]. exists j. rewrite lookup_take_Some. split; [exact Hj | now rewrite <- HQ by exact Hj].
Qed.

Lemma cut_drop (Q : Z -> Prop) l m :
  (forall j x, l !! j = Some x -> Q x <-> (m <= j)%nat) ->
  forall x, x ∈ drop m l <-> x ∈ l /\ Q x.
Proof.
  intros HQ x. rewrite !list_elem_of_lookup. split.
  - intros [j Hj]. rewrite lookup_drop in Hj. split; [eauto|]. apply (HQ _ _ Hj). lia.
  - intros [[j Hj] Hx]. exists (j - m)%nat. rewrite lookup_drop. apply (HQ _ _ Hj) in Hx.
    now replace (m + (j - m))%nat with j by lia.
Qed.

Lemma cache_between_take l m : (m <= length l)%nat -> cache_between l 0 (Z.of_nat m) = take m l.
Proof. intros Hm. unfold cache_between. rewrite Nat2Z.id. cbn. now rewrite Nat.sub_0_r. Qed.

Lemma cache_between_drop l m : cache_between l (Z.of_nat m) (len l) = drop m l.
Proof.
  unfold cache_between, len. rewrite !Nat2Z.id. apply take_ge. rewrite length_drop. lia.
Qed.

(** ** The position of a pattern *)

Section Position.

Context (s : Storage) (cache : list Z) (pattern : list Z).
Hypothesis (Hclean : clean_ids (payload_or_nil s) cache) (Hp : clean pattern).
Hypothesis (Hsorted : sorted_ids (payload_or_nil s) cache).

Definition below (j : nat) : bool := string_lt (payload_or_nil s (nth j cache 0)) pattern.

Lemma sorted_lookup i j a b :
  (i < j)%nat -> cache !! i = Some a -> cache !! j = Some b -> not_after (payload_or_nil s) a b.
Proof.
  revert i j. clear Hclean. induction Hsorted as [|x l Hs IH Hf]; intros [|i] [|j] Hij Ha Hb; cbn in *;
    try discriminate; try lia.
  - injection Ha as ->. rewrite Forall_forall in Hf. apply Hf. eapply list_elem_of_lookup_2; eauto.
  - apply (IH Hs i j); auto. lia.
Qed.

Lemma nth_cache j a : cache !! j = Some a -> nth j cache 0 = a.
Proof. apply nth_lookup_Some. Qed.

(** Once a string is not below the pattern, no later one is. *)
Lemma below_mono i j : (i <= j < length cache)%nat -> below i = false -> below j = false.
Proof.
  intros Hij. destruct (decide (i = j)) as [->|N]; [auto|].
  destruct (lookup_lt_is_Some_2 cache i ltac:(lia)) as [a Ha].
  destruct (lookup_lt_is_Some_2 cache j ltac:(lia)) as [b Hb].
  unfold below. rewrite (nth_cache i a Ha), (nth_cache j b Hb). intros Hi.
  apply string_ge_trans with (payload_or_nil s a); auto; try (eapply Hclean, list_elem_of_lookup_2; eauto).
  apply (sorted_lookup i j a b); auto. lia.
Qed.

Lemma lower_bound_loop_spec fuel : forall first count,
  (count < fuel)%nat -> (first + count <= length cache)%nat ->
  (forall j, (j < first)%nat -> below j = true) ->
  (forall j, (first + count <= j < length cache)%nat -> below j = false) ->
  let k := lower_bound_loop fuel s cache pattern first count in
  (k <= length cache)%nat /\ (forall j, (j < k)%nat -> below j = true) /\
  (forall j, (k <= j < length cache)%nat -> below j = false).
Proof.
  induction fuel as [|fuel IH]; intros first count Hf Hn Hlo Hhi; [lia|]. cbn [lower_bound_loop]. cbn zeta.
  destruct count as [|count].
  - rewrite Nat.add_0_r in *. split; [lia | auto].
  - assert (Hstep : (Nat.div2 (S count) < S count)%nat) by (apply Nat.lt_div2; lia).
    set (step := Nat.div2 (S count)) in *.
    destruct (string_lt (payload_or_nil s (nth (first + step) cache 0)) pattern) eqn:E.
    + apply IH; try lia.
      * intros j Hj. destruct (below j) eqn:Ej; [reflexivity|].
        assert (Ef : below (first + step) = false) by (apply (below_mono j); [lia | exact Ej]).
        unfold below in Ef. congruence.
      * intros j Hj. apply Hhi. lia.
    + apply IH; try lia; [exact Hlo|]. intros j Hj. apply (below_mono (first + step)); [lia | exact E].
Qed.

Lemma lower_bound_spec :
  let k := lower_bound s cache pattern in
  (k <= length cache)%nat /\ (forall j, (j < k)%nat -> below j = true) /\
  (forall j, (k <= j < length cache)%nat -> below j = false).
Proof. apply lower_bound_loop_spec; try lia. Qed.

End Position.

(** ** Comparison queries *)

Definition op_holds (op : CompOp) (str pattern : list Z) : bool :=
  match op with
  | OpEq => string_eq str pattern
  | OpNe => string_ne str pattern
  | OpLt => string_lt str pattern
  | OpLe => string_le str pattern
  | OpGt => string_gt str pattern
  | OpGe => string_ge str pattern
  | OpOther => false
  end.

(** The strings below the pattern. *)
Definition count_below (strs : list (list Z)) (pattern : list Z) : nat :=
  length (List.filter (fun str => string_lt str pattern) strs).

Section Compare.

Context `{DictEnvOk} (d : StringDictionary) (strs : list (list Z)) (pattern : list Z).
Hypothesis (R : represents d strs) (Hcs : clean_strings strs) (Hcp : clean pattern).
Hypothesis (So : sorted_ok d) (Hfull : sorted_cache d ≡ₚ map Z.of_nat (seq 0 (length strs))).

#[local] Abbreviation cache := (sorted_cache d).
#[local] Abbreviation str_at := (payload_or_nil (storage_ d)).
#[local] Abbreviation k := (lower_bound (storage_ d) (sorted_cache d) pattern).

Lemma cache_elem id : id ∈ cache <-> exists i str, id = Z.of_nat i /\ strs !! i = Some str.
Proof.
  rewrite Hfull, elem_of_ids. split.
  - intros (i & -> & Hi). destruct (lookup_lt_is_Some_2 strs i Hi) as [x Hx]. eauto.
  - intros (i & x & -> & Hx). exists i. split; [reflexivity|]. eapply lookup_lt_Some; eauto.
Qed.

Lemma cache_str id : id ∈ cache -> exists i, id = Z.of_nat i /\ strs !! i = Some (str_at id).
Proof.
  intros (i & x & -> & Hx)%cache_elem. exists i. split; [reflexivity|].
  now rewrite (payload_lookup d strs i x R Hx).
Qed.

Lemma cache_clean : clean_ids str_at cache.
Proof.
  intros id Hid. destruct (cache_str id Hid) as (i & _ & Hx). apply Hcs. eapply list_elem_of_lookup_2; eauto.
Qed.

Lemma cache_NoDup : NoDup cache.
Proof.
  rewrite Hfull. change (map Z.of_nat (seq 0 (length strs))) with (Z.of_nat <$> seq 0 (length strs)).
  apply NoDup_fmap_2; [intros x y; lia | apply NoDup_seq].
Qed.

(** Different ids have different strings. *)
Lemma cache_inj a b : a ∈ cache -> b ∈ cache -> str_at a = str_at b -> a = b.
Proof.
  intros Ha Hb E. destruct (cache_str a Ha) as (i & Ea & Hi), (cache_str b Hb) as (j & Eb & Hj).
  rewrite E in Hi. rewrite Ea, Eb. f_equal.
  exact (NoDup_lookup _ _ _ _ (ho_nodup _ _ (rp_holds _ _ R)) Hi Hj).
Qed.

Lemma cache_length : length cache = length strs.
Proof. rewrite Hfull, length_map, length_seq. reflexivity. Qed.

Lemma k_spec : (k <= length cache)%nat /\
  forall j id, cache !! j = Some id -> string_lt (str_at id) pattern = (j <? k)%nat.
Proof.
  destruct (lower_bound_spec (storage_ d) cache pattern cache_clean Hcp (so_sorted _ So)) as (Hk & Hlo & Hhi).
  split; [exact Hk|]. intros j id Hj. specialize (Hlo j). specialize (Hhi j).
  unfold below in *. rewrite (nth_lookup_Some _ _ _ _ Hj) in *. pose proof (lookup_lt_Some _ _ _ Hj).
  destruct (Nat.ltb_spec j k); [auto | apply Hhi; lia].
Qed.

(** The pattern is one of the strings, and then stands at [k]. *)
Lemma k_found : pattern ∈ strs -> exists id, cache !! k = Some id /\ str_at id = pattern.
Proof.
  intros (i & Hi)%list_elem_of_lookup. destruct k_spec as [Hk Hlt].
  assert (Hid : Z.of_nat i ∈ cache) by (apply cache_elem; eauto).
  assert (Ei : str_at (Z.of_nat i) = pattern) by exact (payload_lookup d strs i pattern R Hi).
  apply list_elem_of_lookup in Hid as [j Hj]. pose proof (Hlt j _ Hj) as Ej.
  rewrite Ei, string_lt_irrefl in Ej by exact Hcp. symmetry in Ej. apply Nat.ltb_ge in Ej.
  destruct (decide (j = k)) as [->|N]; [eauto|].
  destruct (lookup_lt_is_Some_2 cache k) as [x Hx]; [apply lookup_lt_Some in Hj; lia|].
  exists x. split; [exact Hx|].
  assert (Hxin : x ∈ cache) by (eapply list_elem_of_lookup_2; eauto).
  symmetry. apply string_lt_total; [exact Hcp | now apply cache_clean | |].
  - rewrite <- Ei. apply (sorted_lookup (storage_ d) cache (so_sorted _ So) k j x _); auto. lia.
  - rewrite (Hlt k x Hx). apply Nat.ltb_irrefl.
Qed.

Lemma above_spec j id : cache !! j = Some id ->
  string_lt pattern (str_at id) = if decide (pattern ∈ strs) then (k <? j)%nat else (k <=? j)%nat.
Proof.
  intros Hj. destruct k_spec as [Hk Hlt].
  assert (Hid : id ∈ cache) by (eapply list_elem_of_lookup_2; eauto).
  pose proof (cache_clean id Hid) as Hc. pose proof (Hlt j id Hj) as Ej.
  assert (Hge : (k <= j)%nat -> str_at id <> pattern -> string_lt pattern (str_at id) = true).
  { intros Hkj N. destruct (string_lt pattern (str_at id)) eqn:E; [reflexivity|]. destruct N.
    apply string_lt_total; auto. rewrite Ej. now apply Nat.ltb_ge. }
  assert (Hlow : (j < k)%nat -> string_lt pattern (str_at id) = false).
  { intros Hjk. apply string_lt_asym; auto. rewrite Ej. now apply Nat.ltb_lt. }
  destruct (decide (pattern ∈ strs)) as [Hin|Hout].
  - destruct (k_found Hin) as (x & Hx & Ex). destruct (Nat.ltb_spec k j) as [Hkj|Hjk].
    + apply Hge; [lia|]. intros E.
      assert (id = x) as -> by (apply cache_inj; auto; [eapply list_elem_of_lookup_2; eauto | congruence]).
      pose proof (NoDup_lookup _ _ _ _ cache_NoDup Hj Hx). lia.
    + destruct (decide (j = k)) as [->|N]; [|apply Hlow; lia].
      rewrite Hj in Hx. injection Hx as ->. rewrite Ex. now apply string_lt_irrefl.
  - destruct (Nat.leb_spec k j) as [Hkj|Hjk]; [|now apply Hlow]. apply Hge; [lia|].
    intros E. apply Hout. destruct (cache_str id Hid) as (i & _ & Hi). rewrite E in Hi.
    eapply list_elem_of_lookup_2; eauto.
Qed.

Lemma position_spec :
  compare_position d pattern
  = if decide (pattern ∈ strs) then mkCompare (Z.of_nat k) 0 else mkCompare (Z.of_nat k - 1) 1.
Proof.
  pose proof (rp_max _ _ R) as Hm. unfold MAX_STRCOUNT, len in Hm. pose proof cache_length as Hl.
  destruct k_spec as [Hk _]. unfold compare_position. destruct (decide (pattern ∈ strs)) as [Hin|Hout].
  - destruct (k_found Hin) as (x & Hx & Ex). rewrite Hx, Ex.
    rewrite (proj2 (string_eq_clean pattern pattern Hcp Hcp) eq_refl). cbn [negb].
    rewrite s32_small by lia. reflexivity.
  - destruct (cache !! k) as [x|] eqn:Hx.
    + assert (Hid : x ∈ cache) by (eapply list_elem_of_lookup_2; eauto).
      destruct (string_eq (str_at x) pattern) eqn:E.
      * apply string_eq_clean in E; [|now apply cache_clean | exact Hcp].
        destruct Hout, (cache_str x Hid) as (i & _ & Hi). rewrite E in Hi. eapply list_elem_of_lookup_2; eauto.
      * cbn [negb]. rewrite s32_small by lia. reflexivity.
    + apply lookup_ge_None in Hx. unfold len. rewrite s32_small by lia. f_equal. lia.
Qed.

(** Exactly the strings before [k] are below the pattern. *)
Lemma strings_of_cache : map str_at cache ≡ₚ strs.
Proof.
  assert (E : str_at <$> (Z.of_nat <$> seq 0 (length strs)) = strs).
  { apply list_eq. intros i. rewrite !list_lookup_fmap. destruct (strs !! i) as [x|] eqn:Hx.
    - rewrite lookup_seq_lt by (eapply lookup_lt_Some; eauto). cbn. f_equal. now apply (payload_lookup d strs).
    - rewrite lookup_seq_ge by (now apply lookup_ge_None). reflexivity. }
  etransitivity; [apply Permutation_map, Hfull | exact (Permutation_refl' E)].
Qed.

Lemma filter_perm (f : list Z -> bool) l1 l2 : l1 ≡ₚ l2 -> List.filter f l1 ≡ₚ List.filter f l2.
Proof.
  induction 1 as [|x l1 l2 P IH|x y l|l1 l2 l3 P1 IH1 P2 IH2]; cbn.
  - reflexivity.
  - destruct (f x); [now constructor | exact IH].
  - destruct (f x), (f y); try reflexivity. apply perm_swap.
  - now rewrite IH1.
Qed.

Lemma filter_cut (f : list Z -> bool) (l : list (list Z)) m :
  (m <= length l)%nat -> (forall j x, l !! j = Some x -> f x = (j <? m)%nat) -> length (List.filter f l) = m.
Proof.
  revert m. induction l as [|x l IH]; intros m Hm Hf; cbn in *; [lia|].
  destruct m as [|m].
  - rewrite (Hf 0%nat x eq_refl). cbn. apply IH; [lia|]. intros j y Hy. apply (Hf (S j) y Hy).
  - rewrite (Hf 0%nat x eq_refl). cbn. f_equal. apply IH; [lia|]. intros j y Hy. apply (Hf (S j) y Hy).
Qed.

Lemma count_below_k : count_below strs pattern = k.
Proof.
  destruct k_spec as [Hk Hlt]. unfold count_below.
  assert (E : List.filter (fun str => string_lt str pattern) (map str_at cache)
    ≡ₚ List.filter (fun str => string_lt str pattern) strs).
  { apply filter_perm, strings_of_cache. }
  rewrite <- E. apply filter_cut; [now rewrite length_map|].
  intros j x Hx. change (map str_at cache) with (str_at <$> cache) in Hx. rewrite list_lookup_fmap in Hx.
  apply fmap_Some in Hx as (id & Hid & ->). auto.
Qed.

(** The answer of a comparison is right when the ids are the ids it should give. *)
Definition answers (op : CompOp) (ids : list Z) : Prop :=
  NoDup ids /\ forall id, id ∈ ids <-> exists i str, id = Z.of_nat i /\ strs !! i = Some str /\
    op_holds op str pattern = true.

Lemma answers_cut op ids (Q : Z -> Prop) :
  NoDup ids -> (forall id, id ∈ ids <-> id ∈ cache /\ Q id) ->
  (forall id, id ∈ cache -> Q id <-> op_holds op (str_at id) pattern = true) -> answers op ids.
Proof.
  intros Hn Hi HQ. split; [exact Hn|]. intros id. rewrite Hi. split.
  - intros [Hid Hq]. destruct (cache_str id Hid) as (i & -> & Hx). exists i, (str_at (Z.of_nat i)).
    split; [reflexivity|]. split; [exact Hx|]. now apply HQ.
  - intros (i & x & -> & Hx & Ho). assert (Hid : Z.of_nat i ∈ cache) by (apply cache_elem; eauto).
    split; [exact Hid|]. apply HQ; [exact Hid|]. now rewrite (payload_lookup d strs i x R Hx).
Qed.

Lemma op_at op j id : cache !! j = Some id ->
  match op with OpLt | OpLe | OpGt | OpGe => True | _ => False end ->
  op_holds op (str_at id) pattern
  = match op with
    | OpLt => (j <? k)%nat
    | OpGe => (k <=? j)%nat
    | OpLe => if decide (pattern ∈ strs) then (j <? S k)%nat else (j <? k)%nat
    | _ => if decide (pattern ∈ strs) then (S k <=? j)%nat else (k <=? j)%nat
    end.
Proof.
  intros Hj Hop. destruct k_spec as [_ Hlt]. pose proof (Hlt j id Hj) as E1. pose proof (above_spec j id Hj) as E2.
  assert (Hid : id ∈ cache) by (eapply list_elem_of_lookup_2; eauto).
  destruct (string_ops_lt (str_at id) pattern (cache_clean id Hid) Hcp) as (Egt & Ele & Ege).
  destruct op; try contradiction; cbn [op_holds]; rewrite ?Egt, ?Ele, ?Ege, ?E1, ?E2.
  - reflexivity.
  - destruct (decide _); zify; repeat match goal with |- context [(?a <? ?b)%nat] => destruct (Nat.ltb_spec a b)
      | |- context [(?a <=? ?b)%nat] => destruct (Nat.leb_spec a b) end; cbn; lia.
  - destruct (decide _); reflexivity.
  - rewrite Nat.leb_antisym. reflexivity.
Qed.

Lemma answers_take op m :
  (m <= length cache)%nat ->
  (forall j id, cache !! j = Some id -> op_holds op (str_at id) pattern = (j <? m)%nat) ->
  answers op (cache_between cache 0 (Z.of_nat m)).
Proof.
  intros Hm Ho. rewrite cache_between_take by exact Hm.
  apply answers_cut with (Q := fun id => op_holds op (str_at id) pattern = true); [| |tauto].
  - apply sublist_NoDup with cache; [apply cache_NoDup | apply sublist_take].
  - apply cut_take. intros j id Hj. rewrite (Ho j id Hj). apply Nat.ltb_lt.
Qed.

Lemma answers_drop op m :
  (forall j id, cache !! j = Some id -> op_holds op (str_at id) pattern = (m <=? j)%nat) ->
  answers op (cache_between cache (Z.of_nat m) (len cache)).
Proof.
  intros Ho. rewrite cache_between_drop.
  apply answers_cut with (Q := fun id => op_holds op (str_at id) pattern = true); [| |tauto].
  - apply sublist_NoDup with cache; [apply cache_NoDup | apply sublist_drop].
  - apply cut_drop. intros j id Hj. rewrite (Ho j id Hj). apply Nat.leb_le.
Qed.

(** The four orders, right unless exactly one string is below a pattern that is not in the
    dictionary; [<=] is always right. *)
Lemma compare_ids_spec op :
  match op with OpLt | OpLe | OpGt | OpGe => True | _ => False end ->
  op = OpLe \/ pattern ∈ strs \/ count_below strs pattern <> 1%nat ->
  answers op (compare_ids op (compare_position d pattern) cache).
Proof.
  intros Hop Hok. rewrite count_below_k in Hok. rewrite position_spec.
  pose proof (rp_max _ _ R) as Hm. unfold MAX_STRCOUNT, len in Hm. pose proof cache_length as Hl.
  destruct k_spec as [Hk _].
  pose proof (fun j id Hj => op_at op j id Hj Hop) as Ho.
  destruct (decide (pattern ∈ strs)) as [Hin|Hout].
  - assert (Hlt : (k < length cache)%nat).
    { destruct (k_found Hin) as (x & Hx & _). eapply lookup_lt_Some; eauto. }
    unfold compare_ids. cbn [diff index]. rewrite !u64_small by lia. change (0 <? 0) with false.
    rewrite andb_false_r. change (negb (0 =? 0)) with false. cbn iota.
    replace (Z.of_nat k + 1) with (Z.of_nat (S k)) by lia.
    destruct op; try contradiction; (apply answers_take; [lia | exact Ho]) || (apply answers_drop; exact Ho).
  - unfold compare_ids. cbn [diff index]. change (negb (1 =? 0)) with true. change (0 <? 1) with true. cbn iota.
    replace (Z.of_nat k - 1 + 1) with (Z.of_nat k) by lia. rewrite (u64_small (Z.of_nat k)) by lia.
    rewrite andb_true_r.
    destruct op; try contradiction; try (apply answers_take; [lia | exact Ho]);
      (destruct Hok as [|[|Hok]]; [discriminate | contradiction|]);
      (destruct (Z.eqb_spec (Z.of_nat k - 1) 0); [lia|]);
      (apply answers_take; [lia | exact Ho]) || (apply answers_drop; exact Ho).
Qed.

End Compare.

(** ** The query *)

Section Query.

Context `{DictEnvOk}.

(** Cached positions are those of a complete sorted cache. *)
Definition compare_ok (d : StringDictionary) (strs : list (list Z)) : Prop :=
  forall pattern c, compare_cache_ d !! pattern = Some c ->
    len (sorted_cache d) = len strs /\ c = compare_position d pattern.

Lemma sorted_full d strs :
  represents d strs -> sorted_ok d -> len (sorted_cache d) = len strs ->
  sorted_cache d ≡ₚ map Z.of_nat (seq 0 (length strs)).
Proof. intros R [P _ _] E. unfold len in E. rewrite P. now replace (length (sorted_cache d)) with (length strs) by lia. Qed.

Lemma by_position d strs pattern op :
  represents d strs -> clean_strings strs -> clean pattern -> sorted_ok d ->
  len (sorted_cache d) = len strs -> compare_ok d strs ->
  match op with OpLt | OpLe | OpGt | OpGe => True | _ => False end ->
  op = OpLe \/ pattern ∈ strs \/ count_below strs pattern <> 1%nat ->
  exists ids d',
    compare_by_position pattern op d = (Ok ids, d') /\
    represents d' strs /\ sorted_ok d' /\ compare_ok d' strs /\ answers strs pattern op ids.
Proof.
  intros R Hcs Hcp So Hl Co Hop Hok.
  pose proof (compare_ids_spec d strs pattern R Hcs Hcp So (sorted_full d strs R So Hl) op Hop Hok) as Ha.
  unfold compare_by_position. rewrite run_gets. destruct (compare_cache_ d !! pattern) as [c|] eqn:Ec.
  - destruct (Co pattern c Ec) as [_ ->]. eexists _, d. split; [reflexivity|]. auto.
  - eexists _, _. split; [reflexivity|]. split; [now apply represents_caches|].
    split; [destruct So; now split|]. split; [|exact Ha].
    intros p c. cbn. destruct (decide (pattern = p)) as [<-|N].
    + rewrite lookup_insert_eq. intros [= <-]. auto.
    + rewrite lookup_insert_ne by exact N. intros Hc. exact (Co p c Hc).
Qed.

Lemma getCompare_spec d strs pattern op generation :
  represents d strs -> clean_strings strs -> clean pattern -> sorted_ok d -> compare_ok d strs ->
  match op with OpLt | OpLe | OpGt | OpGe => True | _ => False end ->
  op = OpLe \/ pattern ∈ strs \/ count_below strs pattern <> 1%nat ->
  exists ids d', getCompare pattern op generation d = (Ok ids, d') /\ represents d' strs /\
    sorted_ok d' /\ compare_ok d' strs /\ answers strs pattern op ids.
Proof.
  intros R Hcs Hcp So Co Hop Hok. unfold getCompare. rewrite run_gets, (rp_count _ _ R).
  destruct (Z.eqb_spec (len strs) 0) as [E0|E0].
  - assert (strs = []) as -> by (destruct strs; [reflexivity | unfold len in E0; cbn in E0; lia]).
    exists [], d. split; [reflexivity|]. split; [exact R|]. split; [exact So|]. split; [exact Co|].
    split; [apply NoDup_nil_2|]. intros id. split; [set_solver|]. intros (i & x & _ & Hx & _). destruct i; discriminate.
  - rewrite run_gets. destruct (Z.ltb_spec (len (sorted_cache d)) (len strs)) as [Hst|Hge].
    + destruct (buildSortedCache_ok d strs R Hcs So) as (R' & So' & Hp & Hcc).
      assert (Hl' : len (sorted_cache (buildSortedCache d)) = len strs)
        by (unfold len; rewrite Hp, length_map, length_seq; reflexivity).
      assert (Co' : compare_ok (buildSortedCache d) strs).
      { intros p c Hc. rewrite Hcc in Hc. destruct (Co p c Hc). lia. }
      destruct (by_position _ strs pattern op R' Hcs Hcp So' Hl' Co' Hop Hok) as (ids & d' & E & Hrest).
      exists ids, d'. split; [|exact Hrest].
      destruct op; try contradiction; rewrite run_modify; exact E.
    + assert (Hl : len (sorted_cache d) = len strs).
      { pose proof (so_short _ So) as Hs. rewrite (rp_count _ _ R) in Hs. lia. }
      exact (by_position d strs pattern op R Hcs Hcp So Hl Co Hop Hok).
Qed.

End Query.
