(* ===== verification/DictBulkFacts.v ===== *)
(** * Parallel loops, bulk lookup and translation *)

From Stdlib Require Import ZArith Lia List Bool.
From stdpp Require Import base list numbers sets gmap.
From S2P Require Import Prelude StateMonad StringLike DictStorage StringDictionary DictFacts DictOps.
From S2P Require Import DictQueries DictQueryFacts.
Import ListNotations.
Local Open Scope Z_scope.

#[local] Abbreviation table_ := string_id_string_dict_hash_table_.

(** ** Loops that write at their own index *)

Section Writes.

Context {B : Type} (v : nat -> B).

Definition writes (js : list nat) (a : list B) : list B := fold_left (fun a j => <[j := v j]> a) js a.

Lemma writes_length js : forall a, length (writes js a) = length a.
Proof. induction js as [|j js IH]; intros a; cbn; [reflexivity|]. fold (writes js). now rewrite IH, length_insert. Qed.

Lemma writes_app js1 js2 a : writes (js1 ++ js2) a = writes js2 (writes js1 a).
Proof. apply fold_left_app. Qed.

Lemma writes_lookup js : forall a j,
  (j < length a)%nat -> writes js a !! j = if decide (j ∈ js) then Some (v j) else a !! j.
Proof.
  induction js as [|k js IH]; intros a j Hj; [reflexivity|]. cbn. fold (writes js).
  rewrite IH by (now rewrite length_insert). destruct (decide (j ∈ js)) as [Hin|Hout].
  - now rewrite decide_True by (apply elem_of_cons; auto).
  - destruct (decide (k = j)) as [->|N].
    + rewrite list_lookup_insert_eq by exact Hj. now rewrite decide_True by (apply elem_of_cons; auto).
    + rewrite list_lookup_insert_ne by exact N. rewrite decide_False; [reflexivity|].
      rewrite elem_of_cons. intros [->|]; [congruence | contradiction].
Qed.

(** Every index once: all the elements are written. *)
Lemma writes_all js a : js ≡ₚ seq 0 (length a) -> writes js a = map v (seq 0 (length a)).
Proof.
  intros P. apply list_eq. intros j. change (map v (seq 0 (length a))) with (v <$> seq 0 (length a)).
  rewrite list_lookup_fmap. destruct (decide (j < length a)%nat) as [Hj|Hj].
  - rewrite writes_lookup by exact Hj. rewrite lookup_seq_lt by exact Hj. cbn.
    rewrite decide_True; [reflexivity|]. rewrite P. apply elem_of_seq. lia.
  - rewrite lookup_seq_ge by lia. apply lookup_ge_None. rewrite writes_length. lia.
Qed.

End Writes.

(** ** Sums *)

Definition sum_over (c : nat -> Z) (js : list nat) : Z := fold_right (fun j n => c j + n) 0 js.

Lemma sum_over_app c l1 l2 : sum_over c (l1 ++ l2) = sum_over c l1 + sum_over c l2.
Proof. unfold sum_over. induction l1 as [|x l1 IH]; cbn; [lia | rewrite IH; lia]. Qed.

Lemma sum_over_perm c l1 l2 : l1 ≡ₚ l2 -> sum_over c l1 = sum_over c l2.
Proof. unfold sum_over. induction 1; cbn; lia. Qed.

Lemma sum_counts_insert counts t old k :
  counts !! t = Some old -> sum_counts (<[t := k]> counts) = sum_counts counts - old + k.
Proof.
  unfold sum_counts. revert t. induction counts as [|x counts IH]; intros [|t] Ht; try discriminate.
  - injection Ht as ->. cbn. lia.
  - change (<[S t := k]> (x :: counts)) with (x :: <[t := k]> counts). cbn [fold_right]. rewrite (IH t Ht). lia.
Qed.

Lemma sum_counts_zero n : sum_counts (replicate n 0) = 0.
Proof. unfold sum_counts. induction n as [|n IH]; cbn; [reflexivity | exact IH]. Qed.

(** ** Counting by threads *)

Section Counts.

Context (c : nat -> Z) (n : nat).

(** The pieces lie in the range and the threads have a count. *)
Definition fits (threads : nat) (schedule : Schedule) : Prop :=
  forall t first last, (t, (first, last)) ∈ schedule -> (t < threads)%nat /\ (last <= n)%nat.

Definition piece_count (first last : nat) : Z := sum_over c (seq first (last - first)).

(** The counts of the threads at the end. *)
Fixpoint note_pieces (note : Z -> Z -> Z) (schedule : Schedule) (counts : list Z) : list Z :=
  match schedule with
  | [] => counts
  | (t, (first, last)) :: rest =>
      note_pieces note rest (<[t := note (nth t counts 0) (piece_count first last)]> counts)
  end.

(** Adding the counts of the pieces up gives the count of all the indices. *)
Lemma note_pieces_add schedule : forall counts,
  fits (length counts) schedule ->
  sum_counts (note_pieces Z.add schedule counts) = sum_counts counts + sum_over c (schedule_indices schedule).
Proof.
  induction schedule as [|[t [first last]] rest IH]; intros counts Hf; cbn [note_pieces]; [cbn; lia|].
  destruct (Hf t first last ltac:(set_solver)) as [Ht _].
  destruct (lookup_lt_is_Some_2 counts t Ht) as [old Ho].
  rewrite IH by (rewrite length_insert; intros t' f' l' Hin; apply (Hf t' f'); set_solver).
  rewrite (sum_counts_insert counts t old) by exact Ho. rewrite (nth_lookup_Some _ _ _ _ Ho).
  change (schedule_indices ((t, (first, last)) :: rest)) with (seq first (last - first) ++ schedule_indices rest).
  rewrite sum_over_app. unfold piece_count. lia.
Qed.

(** Storing them does so when no thread runs two pieces. *)
Lemma note_pieces_store schedule : forall counts,
  fits (length counts) schedule -> NoDup (map fst schedule) ->
  (forall t piece, (t, piece) ∈ schedule -> counts !! t = Some 0) ->
  sum_counts (note_pieces (fun _ k => k) schedule counts)
  = sum_counts counts + sum_over c (schedule_indices schedule).
Proof.
  induction schedule as [|[t [first last]] rest IH]; intros counts Hf Hn Hz; cbn [note_pieces]; [cbn; lia|].
  destruct (Hf t first last ltac:(set_solver)) as [Ht _].
  pose proof (Hz t (first, last) ltac:(set_solver)) as Ho. cbn [map fst] in Hn. apply NoDup_cons in Hn as [Hnew Hn].
  rewrite IH; auto.
  - rewrite (sum_counts_insert counts t 0) by exact Ho.
    change (schedule_indices ((t, (first, last)) :: rest)) with (seq first (last - first) ++ schedule_indices rest).
    rewrite sum_over_app. unfold piece_count. lia.
  - rewrite length_insert. intros t' f' l' Hin. apply (Hf t' f'). set_solver.
  - intros t' piece Hin. rewrite list_lookup_insert_ne; [apply (Hz t' piece); set_solver|].
    intros ->. apply Hnew. apply list_elem_of_In, in_map_iff. exists (t', piece). split;
      [reflexivity | now apply list_elem_of_In].
Qed.

End Counts.

(** ** Running a schedule *)

Section Run.

Context {B : Type} (v : nat -> B) (c : nat -> Z) (n : nat).
Context (body : nat -> list B -> result DictError (list B * Z)).
Hypothesis Hbody : forall i a, (i < n)%nat -> length a = n -> body i a = Ok (<[i := v i]> a, c i).

Lemma run_range_spec m : forall i a count, (m = 0 \/ i + m <= n)%nat -> length a = n ->
  run_range body m i a count = Ok (writes v (seq i m) a, count + sum_over c (seq i m)).
Proof.
  induction m as [|m IH]; intros i a count Hi Ha; cbn; [f_equal; f_equal; lia|].
  rewrite Hbody by (auto; lia). rewrite IH; [|lia | now rewrite length_insert].
  f_equal. f_equal. unfold sum_over. cbn. lia.
Qed.

Lemma run_schedule_spec note schedule : forall a counts,
  fits n (length counts) schedule -> length a = n ->
  run_schedule body note schedule a counts
  = Ok (writes v (schedule_indices schedule) a, note_pieces c note schedule counts).
Proof.
  induction schedule as [|[t [first last]] rest IH]; intros a counts Hf Ha; cbn [run_schedule]; [reflexivity|].
  destruct (Hf t first last ltac:(set_solver)) as [Ht Hl].
  rewrite run_range_spec by (auto; lia).
  destruct (lookup_lt_is_Some_2 counts t Ht) as [old Ho]. rewrite Ho, IH.
  - change (schedule_indices ((t, (first, last)) :: rest)) with (seq first (last - first) ++ schedule_indices rest).
    rewrite writes_app. cbn [note_pieces]. rewrite (nth_lookup_Some _ _ _ _ Ho). unfold piece_count. do 4 f_equal.
  - rewrite length_insert. intros t' f' l' Hin. apply (Hf t' f'). set_solver.
  - now rewrite writes_length.
Qed.

End Run.

(** A body that also reads its own element, which no other piece has written. *)
Section RunFresh.

Context {B : Type} (a0 : list B) (v : nat -> B) (c : nat -> Z) (n : nat).
Context (body : nat -> list B -> result DictError (list B * Z)).
Hypothesis Hbody : forall i a, (i < n)%nat -> length a = n -> a !! i = a0 !! i ->
  body i a = Ok (<[i := v i]> a, c i).

Lemma run_range_fresh m : forall i a count, (m = 0 \/ i + m <= n)%nat -> length a = n ->
  (forall j, (i <= j < i + m)%nat -> a !! j = a0 !! j) ->
  run_range body m i a count = Ok (writes v (seq i m) a, count + sum_over c (seq i m)).
Proof.
  induction m as [|m IH]; intros i a count Hi Ha Hf; cbn; [f_equal; f_equal; lia|].
  rewrite Hbody by (auto; try apply Hf; lia).
  rewrite IH; [|lia | now rewrite length_insert |].
  - f_equal. f_equal. unfold sum_over. cbn. lia.
  - intros j Hj. rewrite list_lookup_insert_ne by lia. apply Hf. lia.
Qed.

Lemma run_schedule_fresh note schedule : forall a counts,
  fits n (length counts) schedule -> length a = n -> NoDup (schedule_indices schedule) ->
  (forall j, j ∈ schedule_indices schedule -> a !! j = a0 !! j) ->
  run_schedule body note schedule a counts
  = Ok (writes v (schedule_indices schedule) a, note_pieces c note schedule counts).
Proof.
  induction schedule as [|[t [first last]] rest IH]; intros a counts Hf Ha Hn Hfr; cbn [run_schedule]; [reflexivity|].
  destruct (Hf t first last ltac:(set_solver)) as [Ht Hl].
  change (schedule_indices ((t, (first, last)) :: rest))
    with (seq first (last - first) ++ schedule_indices rest) in *.
  apply list.NoDup_app in Hn as (_ & Hsep & Hn).
  rewrite run_range_fresh; [|lia | exact Ha |].
  - destruct (lookup_lt_is_Some_2 counts t Ht) as [old Ho]. rewrite Ho, IH; auto.
    + rewrite writes_app. cbn [note_pieces]. rewrite (nth_lookup_Some _ _ _ _ Ho). reflexivity.
    + rewrite length_insert. intros t' f' l' Hin. apply (Hf t' f'). set_solver.
    + now rewrite writes_length.
    + intros j Hj. assert (Hjs : j ∉ seq first (last - first)) by (intros Hs; now apply (Hsep j)).
      destruct (decide (j < length a)%nat) as [Hlt|Hge].
      * rewrite writes_lookup, decide_False by assumption. apply Hfr. set_solver.
      * rewrite <- Hfr by set_solver. rewrite !(proj2 (lookup_ge_None _ _)); rewrite ?writes_length; auto; lia.
  - intros j Hj. apply Hfr, elem_of_app. left. apply elem_of_seq. lia.
Qed.

End RunFresh.

(** ** Bulk lookup *)

Section Env.

Context `{DictEnvOk}.

Definition found_id (strs : list (list Z)) (generation : Z) (str : list Z) : Z :=
  if (find_id strs str =? INVALID_STR_ID) || (generation <=? find_id strs str) then INVALID_STR_ID
  else find_id strs str.

(** The id that [getBulk] gives for a string. *)
Definition bulk_id (T : IdType) (strs : list (list Z)) (generation : Z) (str : list Z) : Z :=
  to_id T (if decide (str = []) then inline_int_null_value T else found_id strs generation str).

(** Whether it counts as not found. *)
Definition not_found (strs : list (list Z)) (generation : Z) (str : list Z) : Z :=
  b2z (bool_decide (str <> [] /\ found_id strs generation str = INVALID_STR_ID)).

Lemma getBulk_body_spec d strs T inputs g i a :
  represents d strs -> (forall str, str ∈ inputs -> len str <= MAX_STRLEN) -> (i < length inputs)%nat ->
  getBulk_body d T inputs g i a
  = Ok (<[i := bulk_id T strs g (nth i inputs [])]> a, not_found strs g (nth i inputs [])).
Proof.
  intros R Hl Hi. unfold getBulk_body, bulk_id, not_found. set (str := nth i inputs []).
  destruct (decide (str = [])) as [E|Hne].
  - rewrite E. cbn [len length]. now rewrite bool_decide_eq_false_2 by tauto.
  - rewrite (len_zero str Hne).
    assert (Hs : len str <= MAX_STRLEN).
    { apply Hl. destruct (lookup_lt_is_Some_2 inputs i Hi) as [x Hx]. unfold str.
      rewrite (nth_lookup_Some _ _ _ _ Hx). eapply list_elem_of_lookup_2; eauto. }
    destruct (Z.ltb_spec MAX_STRLEN (len str)); [lia|].
    rewrite (getUnlocked_spec d strs str R). unfold found_id.
    destruct ((find_id strs str =? INVALID_STR_ID) || (g <=? find_id strs str)) eqn:Eq.
    + now rewrite bool_decide_eq_true_2 by auto.
    + rewrite bool_decide_eq_false_2; [reflexivity|]. intros [_ E]. rewrite E in Eq. discriminate.
Qed.

(** A schedule for [n] elements: every index once, on threads that exist. *)
Definition covers (n : nat) (threads : Z) (schedule : Schedule) : Prop :=
  schedule_indices schedule ≡ₚ seq 0 n /\ fits n (Z.to_nat threads) schedule.

Definition count_not_found (strs : list (list Z)) (g : Z) (inputs : list (list Z)) : Z :=
  fold_right (fun str n => not_found strs g str + n) 0 inputs.

Lemma sum_over_nth (f : list Z -> Z) inputs :
  sum_over (fun i => f (nth i inputs [])) (seq 0 (length inputs)) = fold_right (fun str n => f str + n) 0 inputs.
Proof.
  unfold sum_over. induction inputs as [|x inputs IH]; cbn; [reflexivity|].
  rewrite <- seq_shift. rewrite <- IH. f_equal. clear IH.
  generalize (seq 0 (length inputs)). induction l as [|j l IH]; cbn; [reflexivity | now rewrite IH].
Qed.

Lemma map_nth_seq {A : Type} (f : list Z -> A) inputs :
  map (fun i => f (nth i inputs [])) (seq 0 (length inputs)) = map f inputs.
Proof.
  induction inputs as [|x inputs IH]; cbn; [reflexivity|]. f_equal. rewrite <- seq_shift, map_map. exact IH.
Qed.

(** The ids are right for every schedule; the number of strings not found is, when every
    thread runs one piece. *)
Lemma getBulk_spec d strs T inputs g schedule :
  represents d strs -> (forall str, str ∈ inputs -> len str <= MAX_STRLEN) -> 0 < g ->
  covers (length inputs) (num_threads (make_ThreadInfo hardware_concurrency (len inputs) 1000)) schedule ->
  exists count, getBulk d T inputs g schedule = Ok (map (bulk_id T strs g) inputs, count) /\
    (NoDup (map fst schedule) -> count = count_not_found strs g inputs).
Proof.
  intros R Hl Hg [Hp Hf]. unfold getBulk. destruct (Z.eqb_spec (len inputs) 0) as [E|E].
  { destruct inputs; [|unfold len in E; cbn in E; lia]. exists 0. split; [reflexivity | auto]. }
  destruct (Z.leb_spec 0 g); [|lia]. destruct (Z.eqb_spec g 0); [lia|].
  set (threads := Z.to_nat _) in *.
  pose proof (run_schedule_spec (fun i => bulk_id T strs g (nth i inputs []))
                (fun i => not_found strs g (nth i inputs [])) (length inputs)
                (getBulk_body d T inputs g)
                (fun i a Hi _ => getBulk_body_spec d strs T inputs g i a R Hl Hi)
                (fun _ k => k) schedule (map (fun _ => 0) inputs) (replicate threads 0)) as Er.
  rewrite length_replicate, length_map in Er. rewrite Er by auto. clear Er.
  eexists. split; [f_equal; f_equal|].
  - rewrite writes_all; rewrite length_map; [|exact Hp]. apply map_nth_seq.
  - intros Hn. rewrite note_pieces_store with (n := length inputs); auto.
    + rewrite sum_counts_zero, (sum_over_perm _ _ _ Hp), sum_over_nth. cbn. reflexivity.
    + now rewrite length_replicate.
    + intros t [first last] Hin. apply lookup_replicate. destruct (Hf t first last Hin). split; [reflexivity | lia].
Qed.

(** ** Translation *)

(** The callback looks the string up elsewhere, and writes the id it finds. *)
Definition looks_up (callback : StringLookupCallback) (lookup : list Z -> Z) : Prop :=
  forall str i ids, callback str (Z.of_nat i) ids = (lookup str =? INVALID_STR_ID, <[i := lookup str]> ids).

(** The id of a source string in the destination.  An id beyond the generation stays in the
    map when there are no transient strings. *)
Definition translated_id (dstrs : list (list Z)) (g : Z) (transients : bool) (lookup : list Z -> Z)
    (str : list Z) : Z :=
  if found_id dstrs g str =? INVALID_STR_ID
  then if transients then lookup str else find_id dstrs str
  else find_id dstrs str.

Definition untranslated (dstrs : list (list Z)) (g : Z) (transients : bool) (lookup : list Z -> Z)
    (str : list Z) : Z :=
  if found_id dstrs g str =? INVALID_STR_ID
  then if transients then b2z (lookup str =? INVALID_STR_ID) else 1
  else 0.

Lemma translate_body_spec source dest sstrs dstrs g transients callback lookup i a :
  represents source sstrs -> represents dest dstrs -> looks_up callback lookup -> (i < length sstrs)%nat ->
  translate_body source dest g transients callback i a
  = Ok (<[i := translated_id dstrs g transients lookup (nth i sstrs [])]> a,
        untranslated dstrs g transients lookup (nth i sstrs [])).
Proof.
  intros Rs Rd Hcb Hi. destruct (lookup_lt_is_Some_2 sstrs i Hi) as [str Hs].
  rewrite (nth_lookup_Some _ _ _ _ Hs). unfold translate_body.
  pose proof (rp_holds _ _ Rs) as Ho.
  rewrite (read_fast _ sstrs i str (ho_storage _ _ Ho) Hs).
  assert (Eh : (if materialize_hashes_ source then hash_at (hash_cache_ source) (Z.of_nat i) else Ok (hash_string str))
    = Ok (hash_string str)).
  { destruct (materialize_hashes_ source) eqn:M; [|reflexivity].
    unfold hash_at. now rewrite Nat2Z.id, (ho_hashes _ _ Ho M i str Hs). }
  rewrite Eh. destruct (lookup_bucket dest dstrs str Rd) as (k & -> & -> & _).
  unfold translated_id, untranslated, found_id.
  destruct ((find_id dstrs str =? INVALID_STR_ID) || (g <=? find_id dstrs str)) eqn:E.
  - rewrite Z.eqb_refl. destruct transients; [|reflexivity]. rewrite Hcb. now rewrite list_insert_insert_eq.
  - apply orb_false_iff in E as [-> _]. reflexivity.
Qed.

Definition count_untranslated (dstrs : list (list Z)) (g : Z) (transients : bool)
    (lookup : list Z -> Z) (strs : list (list Z)) : Z :=
  fold_right (fun str n => untranslated dstrs g transients lookup str + n) 0 strs.

Lemma translation_spec source dest sstrs dstrs ids sg dg transients callback lookup schedule :
  represents source sstrs -> represents dest dstrs -> dict_ref_ source <> dict_ref_ dest ->
  looks_up callback lookup -> 0 < sg <= len sstrs -> 0 < dg <= len dstrs -> len ids = sg ->
  covers (Z.to_nat sg) (num_threads (make_ThreadInfo hardware_concurrency sg 1000)) schedule ->
  buildDictionaryTranslationMap source dest ids sg dg transients callback schedule
  = Ok (map (translated_id dstrs dg transients lookup) (take (Z.to_nat sg) sstrs),
        count_untranslated dstrs dg transients lookup (take (Z.to_nat sg) sstrs)).
Proof.
  intros Rs Rd Hne Hcb Hsg Hdg Hids [Hp Hf]. unfold buildDictionaryTranslationMap.
  destruct (Z.leb_spec 0 sg); [|lia]. destruct (Z.leb_spec 0 dg); [|lia]. cbn [andb negb].
  destruct (Z.eqb_spec sg 0); [lia|]. rewrite bool_decide_eq_false_2 by exact Hne.
  rewrite (rp_count _ _ Rs), (rp_count _ _ Rd).
  destruct (Z.leb_spec sg (len sstrs)); [|lia]. destruct (Z.leb_spec dg (len dstrs)); [|lia]. cbn [andb negb].
  destruct (Z.eqb_spec dg 0); [lia|]. set (threads := Z.to_nat (num_threads _)) in *.
  assert (Hn : length ids = Z.to_nat sg) by (unfold len in *; lia).
  assert (Ht : length (take (Z.to_nat sg) sstrs) = Z.to_nat sg) by (rewrite length_take; unfold len in *; lia).
  assert (Hnth : forall i, (i < Z.to_nat sg)%nat -> nth i sstrs [] = nth i (take (Z.to_nat sg) sstrs) []).
  { intros i Hi. rewrite !nth_lookup, lookup_take_lt by exact Hi. reflexivity. }
  pose proof (run_schedule_spec
                (fun i => translated_id dstrs dg transients lookup (nth i (take (Z.to_nat sg) sstrs) []))
                (fun i => untranslated dstrs dg transients lookup (nth i (take (Z.to_nat sg) sstrs) []))
                (Z.to_nat sg) (translate_body source dest dg transients callback)) as Er.
  rewrite Er; clear Er.
  - rewrite writes_all by (now rewrite Hn). rewrite Hn.
    rewrite (note_pieces_add _ (Z.to_nat sg)) by (now rewrite length_replicate).
    rewrite sum_counts_zero, (sum_over_perm _ _ _ Hp). f_equal. f_equal.
    + pose proof (map_nth_seq (translated_id dstrs dg transients lookup) (take (Z.to_nat sg) sstrs)) as Em.
      rewrite Ht in Em. exact Em.
    + pose proof (sum_over_nth (untranslated dstrs dg transients lookup) (take (Z.to_nat sg) sstrs)) as Es.
      rewrite Ht in Es. exact Es.
  - intros i a Hi _. rewrite <- Hnth by exact Hi.
    apply (translate_body_spec source dest sstrs dstrs); auto. unfold len in *. lia.
  - now rewrite length_replicate.
  - exact Hn.
Qed.

End Env.
