(* ===== verification/DictLife.v ===== *)
(** * The life of a dictionary

    Recovering a dictionary from its files, the invariant of a dictionary with its caches, and
    that every operation keeps it, in any order. *)

From Stdlib Require Import ZArith Lia List Bool.
From stdpp Require Import base list numbers sets gmap.
From S2P Require Import Prelude StateMonad StringLike DictStorage StringDictionary DictFacts DictOps.
From S2P Require Import DictParallel DictQueries DictQueryFacts DictCompareFacts.
Import ListNotations.
Local Open Scope Z_scope.

#[local] Abbreviation table_ := string_id_string_dict_hash_table_.

(** ** Rounding up to a power of two *)

(** Some bit of [y] from [i] on is set, among [w]. *)
Fixpoint window (y : Z) (w : nat) (i : Z) : bool :=
  match w with
  | O => false
  | S w' => Z.testbit y i || window y w' (i + 1)
  end.

Lemma window_add y w1 : forall w2 i, window y (w1 + w2) i = window y w1 i || window y w2 (i + Z.of_nat w1).
Proof.
  induction w1 as [|w1 IH]; intros w2 i; cbn [Nat.add window]; [now rewrite Z.add_0_r|].
  rewrite IH, orb_assoc. do 2 f_equal. lia.
Qed.

Lemma window_true y w : forall i, window y w i = true <-> exists j, (j < w)%nat /\ Z.testbit y (i + Z.of_nat j) = true.
Proof.
  induction w as [|w IH]; intros i; cbn [window].
  - split; [discriminate | intros (j & Hj & _); lia].
  - rewrite orb_true_iff, IH. split.
    + intros [Hi|(j & Hj & Hb)].
      * exists 0%nat. rewrite Z.add_0_r. split; [lia | exact Hi].
      * exists (S j). split; [lia|]. now replace (i + Z.of_nat (S j)) with (i + 1 + Z.of_nat j) by lia.
    + intros ([|j] & Hj & Hb); [left; now rewrite Z.add_0_r in Hb|]. right. exists j. split; [lia|].
      now replace (i + 1 + Z.of_nat j) with (i + Z.of_nat (S j)) by lia.
Qed.

(** One step of the smearing doubles the window. *)
Lemma smear_step y z w :
  (forall i, 0 <= i -> Z.testbit z i = window y w i) ->
  forall i, 0 <= i -> Z.testbit (Z.lor z (Z.shiftr z (Z.of_nat w))) i = window y (w + w) i.
Proof.
  intros Hz i Hi. rewrite Z.lor_spec, Z.shiftr_spec, window_add, !Hz by lia. reflexivity.
Qed.

Definition smear (i : Z) : Z :=
  let i := Z.lor i (Z.shiftr i 1) in
  let i := Z.lor i (Z.shiftr i 2) in
  let i := Z.lor i (Z.shiftr i 4) in
  let i := Z.lor i (Z.shiftr i 8) in
  Z.lor i (Z.shiftr i 16).

Lemma smear_window y i : 0 <= i -> Z.testbit (smear y) i = window y 32 i.
Proof.
  unfold smear. apply (smear_step y _ 16), (smear_step y _ 8), (smear_step y _ 4), (smear_step y _ 2), (smear_step y _ 1).
  intros j Hj. cbn. now rewrite orb_false_r.
Qed.

Lemma smear_ones y : 0 < y < 4294967296 -> smear y = 2 ^ (Z.log2 y + 1) - 1.
Proof.
  intros Hy. pose proof (Z.log2_nonneg y). assert (Hlog : Z.log2 y < 32) by (apply Z.log2_lt_pow2; lia).
  replace (2 ^ (Z.log2 y + 1) - 1) with (Z.ones (Z.log2 y + 1)) by (rewrite Z.ones_equiv; lia).
  apply Z.bits_inj'. intros i Hi. rewrite smear_window by exact Hi.
  destruct (Z_lt_le_dec (Z.log2 y) i) as [Hout|Hin].
  - rewrite Z.ones_spec_high by lia. apply not_true_is_false. intros (j & _ & Hb)%window_true.
    rewrite Z.bits_above_log2 in Hb by lia. discriminate.
  - rewrite Z.ones_spec_low by lia. apply window_true. exists (Z.to_nat (Z.log2 y - i)). split; [lia|].
    replace (i + Z.of_nat (Z.to_nat (Z.log2 y - i))) with (Z.log2 y) by lia. apply Z.bit_log2. lia.
Qed.

(** [round_up_p2] is the least power of two that is not below its argument. *)
Lemma round_up_p2_spec num : 1 <= num <= 2147483648 -> round_up_p2 num = 2 ^ Z.log2_up num.
Proof.
  intros Hn. unfold round_up_p2. rewrite (u64_small (num - 1)) by lia. fold (smear (num - 1)).
  destruct (Z.eq_dec num 1) as [->|N]; [reflexivity|].
  rewrite smear_ones by lia. replace (2 ^ (Z.log2 (num - 1) + 1) - 1 + 1) with (2 ^ (Z.log2 (num - 1) + 1)) by lia.
  rewrite Z.log2_up_eqn by lia. unfold Z.pred. replace (Z.succ (Z.log2 (num + -1))) with (Z.log2 (num - 1) + 1)
    by (rewrite <- Z.add_1_r; f_equal).
  pose proof (Z.log2_nonneg (num - 1)).
  assert (Hlog : Z.log2 (num - 1) < 31) by (apply Z.log2_lt_pow2; lia).
  assert (0 < 2 ^ (Z.log2 (num - 1) + 1)) by (apply Z.pow_pos_nonneg; lia).
  assert (2 ^ (Z.log2 (num - 1) + 1) <= 2 ^ 31) by (apply Z.pow_le_mono_r; lia).
  change (2 ^ 31) with 2147483648 in *. rewrite u64_small by lia.
  destruct (Z.eqb_spec (2 ^ (Z.log2 (num - 1) + 1)) 0); [lia|].
  unfold UINT32_MAX. destruct (Z.ltb_spec 4294967295 (2 ^ (Z.log2 (num - 1) + 1))); [lia | reflexivity].
Qed.

Lemma round_up_p2_above num : 1 <= num <= 2147483648 -> num <= round_up_p2 num.
Proof. intros Hn. rewrite round_up_p2_spec by exact Hn. apply Z.log2_up_le_pow2; lia. Qed.

(** ** The loop over the recovered strings *)

(** What is known of a string: its hash and its length. *)
Definition info (str : list Z) : Z * Z := (hash_string str, len str).

(** The first [i] strings have been put into the table. *)
Record recovering (s : Storage) (strs : list (list Z)) (d : StringDictionary) (i : nat) : Prop := {
  rc_storage : storage_ d = mkStorage (offset_map_ s) (payload_map_ s) (offset_file_size_ s)
                              (payload_file_size_ s) (total (take i strs));
  rc_count : str_count_ d = Z.of_nat i;
  rc_table : table_ok (take i (hashes_of strs)) (table_ d);
  rc_size : 2 * len strs < len (table_ d);
  rc_hashes : materialize_hashes_ d = true -> forall j str, (j < i)%nat -> strs !! j = Some str ->
    hash_cache_ d !! j = Some (hash_string str);
  rc_hroom : materialize_hashes_ d = true -> len (table_ d) <= 2 * len (hash_cache_ d)
}.

Definition same_tables (d d' : StringDictionary) : Prop :=
  len (table_ d') = len (table_ d) /\ materialize_hashes_ d' = materialize_hashes_ d /\
  dict_ref_ d' = dict_ref_ d /\ same_caches d d' /\ sorted_cache d' = sorted_cache d.

Lemma recover_step s strs d i str :
  recovering s strs d i -> strs !! i = Some str -> len strs <= MAX_STRCOUNT ->
  exists d', process_hash (info str) d = (Ok tt, d') /\
    recovering s strs d' (S i) /\ same_tables d d'.
Proof.
  intros [Hs Hc Ht Hsz Hh Hr] Hi Hmax. pose proof (lookup_lt_Some _ _ _ Hi) as Hlt.
  unfold len, MAX_STRCOUNT in Hmax. pose proof (hashes_of_length strs) as Hl.
  destruct (unique_bucket (take i (hashes_of strs)) (table_ d) (hash_string str) Ht) as (e & E & Hfree & T').
  { apply hash_string_range. }
  { rewrite length_take. unfold len in Hsz. lia. }
  rewrite length_take, Nat.min_l in T' by lia.
  rewrite <- take_S_r in T' by (now apply hashes_lookup).
  set (k := slot _ _ _) in *. pose proof (lookup_lt_Some _ _ _ Hfree) as Hk.
  eexists. split; [|split].
  - unfold process_hash, info. rewrite (run_query _ _ d _ E). cbv beta iota.
    rewrite run_modify, run_modify, run_gets. cbn [str_count_ set_storage set_collisions]. rewrite Hc.
    rewrite s32_small by lia.
    match goal with |- bind (put_table _ _) _ ?D = _ => rewrite (bind_ok _ _ _ _ _ (put_table_spec D k _ Hk)) end.
    match goal with |- bind (put_hash _ _) _ ?D = _ =>
      assert (Hroom : materialize_hashes_ D = true -> (i < length (hash_cache_ D))%nat)
        by (cbn; intros M; specialize (Hr M); unfold len in *; lia);
      rewrite (bind_ok _ _ _ _ _ (put_hash_spec D i (hash_string str) Hroom)) end.
    reflexivity.
  - split; cbn; rewrite ?insert_len; auto.
    + rewrite Hs. cbn. f_equal. rewrite (take_S_r _ _ _ Hi), total_app. cbn. lia.
    + rewrite u64_small by lia. lia.
    + intros M j x Hj Hx. rewrite M. destruct (decide (i = j)) as [->|N].
      * assert (x = str) as -> by congruence. apply list_lookup_insert_eq. specialize (Hr M). unfold len in *. lia.
      * rewrite list_lookup_insert_ne by exact N. apply (Hh M); auto. lia.
    + intros M. rewrite M, insert_len. auto.
  - unfold same_tables, same_caches. cbn. rewrite insert_len. repeat split.
Qed.

Lemma recover_all s strs n : forall d i,
  recovering s strs d i -> (i + n = length strs)%nat -> len strs <= MAX_STRCOUNT ->
  exists d', processHashVec (map info (drop i strs)) d = (Ok tt, d') /\
    recovering s strs d' (length strs) /\ same_tables d d'.
Proof.
  induction n as [|n IH]; intros d i Hrec Hn Hmax.
  - rewrite drop_ge by lia. exists d. split; [reflexivity|]. replace (length strs) with i by lia.
    split; [exact Hrec | repeat split].
  - destruct (lookup_lt_is_Some_2 strs i ltac:(lia)) as [str Hi].
    rewrite (drop_S _ _ _ Hi). cbn [map processHashVec].
    destruct (recover_step s strs d i str Hrec Hi Hmax) as (d1 & E1 & Hrec1 & Hst1).
    destruct (IH d1 (S i) Hrec1) as (d2 & E2 & Hrec2 & Hst2); [lia | exact Hmax|].
    exists d2. rewrite (bind_ok _ _ _ _ _ E1). split; [exact E2|]. split; [exact Hrec2|].
    unfold same_tables, same_caches in *. intuition congruence.
Qed.

(** ** Tasks and futures *)

Lemma process_app l1 : forall l2 d,
  processHashVec (l1 ++ l2) d = bind (processHashVec l1) (fun _ => processHashVec l2) d.
Proof.
  induction l1 as [|x l1 IH]; intros l2 d; [reflexivity|]. cbn [processHashVec app].
  unfold bind in *. destruct (process_hash x d) as [[[]|e] d']; [apply IH | reflexivity].
Qed.

Lemma process_futures l : forall d, processDictionaryFutures l d = processHashVec (concat l) d.
Proof.
  induction l as [|x l IH]; intros d; [reflexivity|]. cbn [processDictionaryFutures concat].
  rewrite process_app. unfold bind. destruct (processHashVec x d) as [[[]|e] d']; [apply IH | reflexivity].
Qed.

(** A task returns the hashes of its strings. *)
Lemma recover_chunk_spec s strs n : forall i,
  stored s strs -> (i + n <= length strs)%nat ->
  recover_chunk n s (Z.of_nat i) = Ok (map info (take n (drop i strs))).
Proof.
  induction n as [|n IH]; intros i S Hn; cbn [recover_chunk]; [reflexivity|].
  destruct (lookup_lt_is_Some_2 strs i ltac:(lia)) as [str Hi].
  rewrite (read_storage s strs i str S Hi), (drop_S _ _ _ Hi).
  replace (Z.of_nat i + 1) with (Z.of_nat (Datatypes.S i)) by lia. rewrite IH by (auto; lia). reflexivity.
Qed.

Section Env.

Context `{DictEnvOk}.

(** The loop processes the strings in order, whatever the number of tasks. *)
Lemma recover_loop_spec s strs items threads fuel : forall i inits futures d,
  stored s strs -> (length strs - i < fuel)%nat -> Z.of_nat i < 4294767296 ->
  0 < items <= 200000 -> len strs <= MAX_STRCOUNT ->
  recover_loop fuel s (len strs) items threads (Z.of_nat i) inits futures d
  = processHashVec (concat futures ++ map info (drop i strs)) d.
Proof.
  induction fuel as [|fuel IH]; intros i inits futures d S Hf Hi Hit Hmax; [lia|].
  cbn [recover_loop]. unfold len at 1. unfold MAX_STRCOUNT in Hmax.
  destruct (Z.ltb_spec (Z.of_nat i) (Z.of_nat (length strs))) as [Hlt|Hge].
  - set (n := Z.to_nat (Z.min items (len strs - Z.of_nat i))).
    assert (Hn : (i + n <= length strs)%nat) by (unfold n, len in *; lia).
    rewrite (run_query _ _ d _ (recover_chunk_spec s strs n i S Hn)).
    rewrite (u32_small (Z.of_nat i + items)) by (unfold len in *; lia).
    replace (Z.of_nat i + items) with (Z.of_nat (i + Z.to_nat items)) by lia.
    assert (Hdrop : drop (i + Z.to_nat items) strs = drop (i + n) strs).
    { unfold n, len. destruct (Z.min_spec items (Z.of_nat (length strs) - Z.of_nat i)) as [[_ ->]|[? ->]];
        [reflexivity|]. rewrite !drop_ge by lia. reflexivity. }
    assert (Hsplit : map info (drop i strs)
      = map info (take n (drop i strs)) ++ map info (drop (i + Z.to_nat items) strs))
      by (rewrite Hdrop, <- map_app, <- drop_drop, take_drop; reflexivity).
    assert (Hnext : forall fs d',
              recover_loop fuel s (len strs) items threads (Z.of_nat (i + Z.to_nat items)) (u32 (inits + 1)) fs d'
              = processHashVec (concat fs ++ map info (drop (i + Z.to_nat items) strs)) d')
      by (intros fs d'; apply IH; auto; unfold len in *; lia).
    assert (Hcat : concat (futures ++ [map info (take n (drop i strs))])
      = concat futures ++ map info (take n (drop i strs)))
      by (rewrite concat_app; cbn; now rewrite app_nil_r).
    rewrite Hsplit, app_assoc, <- Hcat.
    destruct (u32 (inits + 1) mod threads =? 0).
    + rewrite bind_assoc, process_app. unfold bind. rewrite <- process_futures.
      destruct (processDictionaryFutures _ d) as [[[]|e] d']; [|reflexivity]. apply Hnext.
    + apply Hnext.
  - rewrite process_futures, drop_ge by lia. cbn. now rewrite app_nil_r.
Qed.

(** ** The recovered dictionary *)

Lemma power_of_two_max a b :
  1 <= a <= 2147483648 -> 2 <= b <= 2147483648 ->
  let m := Z.max (round_up_p2 a) (round_up_p2 b) in
  a <= m /\ (exists k, 1 <= k <= 32 /\ m = 2 ^ k) /\ m <= 4294967296.
Proof.
  intros Ha Hb. cbn zeta. pose proof (round_up_p2_above a Ha) as La.
  split; [lia|]. rewrite (round_up_p2_spec a Ha), (round_up_p2_spec b ltac:(lia)).
  assert (Hlog : forall x, 1 <= x <= 2147483648 -> 0 <= Z.log2_up x <= 31).
  { intros x Hx. split; [apply Z.log2_up_nonneg|].
    apply Z.log2_up_le_pow2; [lia|]. change (2 ^ 31) with 2147483648. lia. }
  pose proof (Z.log2_up_pos b ltac:(lia)).
  pose proof (Hlog a Ha). pose proof (Hlog b ltac:(lia)).
  assert (Hk : exists k, 1 <= k <= 31 /\ Z.max (2 ^ Z.log2_up a) (2 ^ Z.log2_up b) = 2 ^ k).
  { destruct (Z_le_gt_dec (Z.log2_up a) (Z.log2_up b)) as [Hle|Hgt].
    - exists (Z.log2_up b). split; [lia|]. apply Z.max_r. apply Z.pow_le_mono_r; lia.
    - exists (Z.log2_up a). split; [lia|]. apply Z.max_l. apply Z.pow_le_mono_r; lia. }
  destruct Hk as (k & Hk & ->). split; [exists k; split; [lia | reflexivity]|].
  change 4294967296 with (2 ^ 32). apply Z.pow_le_mono_r; lia.
Qed.

Lemma recovered_represents s strs d :
  stored s strs -> NoDup strs -> [] ∉ strs -> len strs <= MAX_STRCOUNT ->
  (exists k, 1 <= k <= 32 /\ len (table_ d) = 2 ^ k) ->
  recovering s strs d (length strs) -> represents d strs.
Proof.
  intros S Hn Hne Hmax Hp [Hs Hc Ht Hsz Hh Hr]. rewrite firstn_all in Hs.
  rewrite <- (hashes_of_length strs), firstn_all in Ht.
  split; auto; try lia.
  split; auto.
  - rewrite Hs. destruct S. split; cbn; auto.
  - intros M i str Hi. apply (Hh M); [eapply lookup_lt_Some; eauto | exact Hi].
Qed.

Lemma recover_dictionary_spec ref m cap s strs :
  stored s strs -> NoDup strs -> [] ∉ strs -> len strs < 1073741824 -> offset_file_size_ s < 2 ^ 63 ->
  Z.land cap (cap - 1) = 0 -> 2 <= cap <= 2147483648 ->
  exists d, recover_dictionary ref m cap s = Ok d /\ represents d strs.
Proof.
  intros S Hn Hne Hmax Hfile Hcap Hc. unfold recover_dictionary. rewrite u64_small, Hcap by lia. cbn [negb].
  rewrite (getNumStringsFromStorage_spec s strs S Hfile). pose proof (len_nonneg strs) as Hnn.
  rewrite u64_small by lia. rewrite (Z.max_l cap 1) by lia.
  destruct (power_of_two_max (len strs * 2 + 1) cap ltac:(lia) Hc) as (Ha & Hp & Hm).
  set (max_entries := Z.max _ _) in *. set (d0 := mkDict _ _ _ _ _ _ _ _ _ _ _ _ _).
  assert (Hlen : len (replicate (Z.to_nat max_entries) INVALID_STR_ID) = max_entries)
    by (unfold len; rewrite length_replicate; lia).
  assert (Hrec : recovering s strs d0 0).
  { split; cbn; rewrite ?Hlen; auto; try lia.
    - apply table_ok_new. lia.
    - intros M. subst m. unfold len. rewrite length_replicate.
      destruct Hp as (k & Hk & ->). replace k with (Z.succ (k - 1)) by lia. rewrite Z.pow_succ_r by lia.
      rewrite (Z.mul_comm 2), Z.div_mul by lia. rewrite Z2Nat.id by (apply Z.pow_nonneg; lia). lia. }
  destruct (recover_all s strs (length strs) d0 0 Hrec) as (d' & E & Hrec' & Hst); [lia | unfold MAX_STRCOUNT; lia|].
  assert (R : represents d' strs).
  { apply (recovered_represents s); auto; [unfold MAX_STRCOUNT; lia|].
    destruct Hst as [-> _]. cbn. now rewrite Hlen. }
  destruct (Z.eqb_spec (len strs) 0) as [Ez|Ez].
  - exists d0. split; [reflexivity|]. assert (strs = []) as -> by (destruct strs; [reflexivity | unfold len in Ez;
      cbn in Ez; lia]).
    cbn in E. injection E as <-. exact R.
  - destruct threads_known as [Ht _]. destruct (Z.eqb_spec hardware_concurrency 0); [lia|].
    change 0 with (Z.of_nat 0) at 3.
    rewrite (recover_loop_spec s strs); auto; try (unfold MAX_STRCOUNT, len in *; lia).
    cbn [concat app]. rewrite E. eauto.
Qed.

End Env.

(** * The life of a dictionary

    Operations as steps, what they keep, and what holds of every dictionary that they lead to.
    A failed [CHECK] ends the process; an exception of [throw_encoding_error] does not. *)

Section Env.

Context `{DictEnvOk}.

(** ** Steps *)

Inductive DictOp :=
| DGetOrAdd (str : list Z)
| DGetOrAddBulk (T : IdType) (strs : list (list Z))
| DGetLike (pattern : list Z) (icase is_simple : bool) (escape generation : Z)
| DGetRegexpLike (pattern : list Z) (escape generation : Z)
| DGetCompare (pattern : list Z) (op : CompOp) (generation : Z)
| DCopyStrings.

Definition discard {A : Type} (c : DM A) : DM unit := bind c (fun _ => ret tt).

Definition exec (op : DictOp) : DM unit :=
  match op with
  | DGetOrAdd str => discard (getOrAdd str)
  | DGetOrAddBulk T strs => discard (getOrAddBulk T strs)
  | DGetLike pattern icase is_simple escape generation =>
      discard (getLike pattern icase is_simple escape generation)
  | DGetRegexpLike pattern escape generation => discard (getRegexpLike pattern escape generation)
  | DGetCompare pattern op generation => discard (getCompare pattern op generation)
  | DCopyStrings => discard copyStrings
  end.

(** A generation is a [size_t]; bulk additions are parallel only into a dictionary that has a
    string. *)
Definition op_args (d : StringDictionary) (op : DictOp) : Prop :=
  match op with
  | DGetLike _ _ _ _ g | DGetRegexpLike _ _ g | DGetCompare _ _ g => 0 <= g
  | DGetOrAddBulk _ _ => g_enable_stringdict_parallel = true -> str_count_ d <> 0
  | _ => True
  end.

(** A query asks for all the strings that the dictionary has. *)
Definition asks_all (d : StringDictionary) (op : DictOp) : Prop :=
  match op with
  | DGetLike _ _ _ _ g | DGetRegexpLike _ _ g => g = str_count_ d
  | _ => True
  end.

(** An encoding error of the parallel addition leaves ids of strings that are not stored. *)
Definition recoverable (op : DictOp) : Prop :=
  match op with DGetOrAddBulk _ _ => g_enable_stringdict_parallel = false | _ => True end.

(** With [strict], the operations succeed and the queries ask for all the strings. *)
Inductive step (strict : bool) (d : StringDictionary) : StringDictionary -> Prop :=
| step_ok op d' :
    op_args d op -> (strict = true -> asks_all d op) -> exec op d = (Ok tt, d') -> step strict d d'
| step_encoding op d' :
    strict = false -> op_args d op -> recoverable op -> exec op d = (Err DEncoding, d') -> step strict d d'.

Inductive steps (strict : bool) (d : StringDictionary) : StringDictionary -> Prop :=
| steps_refl : steps strict d d
| steps_one d1 d2 : steps strict d d1 -> step strict d1 d2 -> steps strict d d2.

(** ** What they keep *)

Definition string_at (strs : list (list Z)) (id : Z) : list Z := nth (Z.to_nat id) strs [].

(** Cached answers of scans are those of some generation; the sorted cache has the first ids,
    each once, in the order of their strings when these have no character 0; the copy of the
    strings is a beginning of them. *)
Record caches_ok (d : StringDictionary) (strs : list (list Z)) : Prop := {
  ca_scans : scan_caches_ok d strs;
  ca_first : sorted_cache d ≡ₚ map Z.of_nat (seq 0 (length (sorted_cache d)));
  ca_short : len (sorted_cache d) <= len strs;
  ca_sorted : clean_strings strs -> sorted_ids (string_at strs) (sorted_cache d);
  ca_copy : forall copy, strings_cache_ d = Some copy -> exists rest, strs = copy ++ rest
}.

(** The cached answers are those that a scan, or a search in the sorted cache, gives now. *)
Record caches_exact (d : StringDictionary) (strs : list (list Z)) : Prop := {
  ce_like : forall pattern icase is_simple escape ids,
    like_cache_ d !! (pattern, icase, is_simple, escape) = Some ids ->
    scan_result strs (fun str => is_like str pattern icase is_simple escape) (len strs) ids;
  ce_regex : forall pattern escape ids, regex_cache_ d !! (pattern, escape) = Some ids ->
    scan_result strs (fun str => regexp_like str pattern escape) (len strs) ids;
  ce_compare : compare_ok d strs
}.

Record alive (d : StringDictionary) (strs : list (list Z)) : Prop := {
  al_represents : represents d strs;
  al_caches : caches_ok d strs
}.

Record inv (strict : bool) (d : StringDictionary) (strs : list (list Z)) : Prop := {
  in_alive : alive d strs;
  in_exact : strict = true -> caches_exact d strs
}.

(** *** The sorted cache *)

Lemma sorted_ids_ext f g l : (forall id, id ∈ l -> f id = g id) -> sorted_ids f l -> sorted_ids g l.
Proof.
  intros E. induction 1 as [|x l S IH F]; [constructor|].
  constructor; [apply IH; intros; apply E; set_solver|].
  rewrite Forall_forall in *. intros y Hy. specialize (F y Hy). unfold not_after in *.
  rewrite <- !E by set_solver. exact F.
Qed.

Lemma cached_id d strs id :
  caches_ok d strs -> id ∈ sorted_cache d -> exists i str, id = Z.of_nat i /\ strs !! i = Some str.
Proof.
  intros C Hid. rewrite (ca_first _ _ C) in Hid. apply elem_of_ids in Hid as (i & -> & Hi).
  pose proof (ca_short _ _ C) as Hs. unfold len in Hs.
  destruct (lookup_lt_is_Some_2 strs i ltac:(lia)) as [str Hstr]. eauto.
Qed.

Lemma string_at_lookup strs i str : strs !! i = Some str -> string_at strs (Z.of_nat i) = str.
Proof. intros Hi. unfold string_at. rewrite Nat2Z.id. now apply nth_lookup_Some. Qed.

(** In terms of the storage. *)
Lemma caches_sorted_ok d strs :
  represents d strs -> caches_ok d strs -> clean_strings strs -> sorted_ok d.
Proof.
  intros R C Hc. split; [apply C | | rewrite (rp_count _ _ R); apply C].
  apply sorted_ids_ext with (string_at strs); [|now apply C]. intros id Hid.
  destruct (cached_id d strs id C Hid) as (i & str & -> & Hi).
  now rewrite (string_at_lookup _ _ _ Hi), (payload_lookup d strs i str R Hi).
Qed.

Lemma built_inv strict d strs :
  inv strict d strs -> len (sorted_cache d) < len strs ->
  inv strict (buildSortedCache d) strs /\ len (sorted_cache (buildSortedCache d)) = len strs.
Proof.
  intros [[R C] X] Hl. pose proof (buildSortedCache_perm d strs R (ca_first _ _ C) (ca_short _ _ C)) as P.
  assert (Hlen : length (sorted_cache (buildSortedCache d)) = length strs)
    by (rewrite P, length_map, length_seq; reflexivity).
  assert (R' : represents (buildSortedCache d) strs) by now apply represents_sorted.
  split; [|unfold len; now rewrite Hlen]. split; [split; [exact R'|]|].
  - split; [destruct C as [[] ? ? ? ?]; now split | now rewrite Hlen | unfold len; rewrite Hlen; lia | | apply C].
    intros Hc. destruct (buildSortedCache_ok d strs R Hc (caches_sorted_ok d strs R C Hc)) as (_ & [_ S _] & _).
    apply sorted_ids_ext with (payload_or_nil (storage_ d)); [|exact S]. intros id Hid.
    rewrite P in Hid. apply elem_of_ids in Hid as (i & -> & Hi).
    destruct (lookup_lt_is_Some_2 strs i Hi) as [str Hstr].
    now rewrite (string_at_lookup _ _ _ Hstr), (payload_lookup d strs i str R Hstr).
  - intros Hs. destruct (X Hs) as [L G K]. split; [exact L | exact G|].
    intros p c Hc. destruct (K p c Hc). lia.
Qed.

(** *** Additions *)

Lemma caches_ok_app d d' strs added :
  caches_ok d strs -> same_frame d d' -> scan_caches_ok d' (strs ++ added) -> caches_ok d' (strs ++ added).
Proof.
  intros C (_ & _ & Es & Ec) S. pose proof (ca_short _ _ C). pose proof (len_nonneg added).
  split; rewrite ?Es; [exact S | apply C | rewrite len_app; lia | |].
  - intros Hc. apply sorted_ids_ext with (string_at strs).
    + intros id Hid. destruct (cached_id d strs id C Hid) as (i & str & -> & Hi).
      rewrite (string_at_lookup strs i str Hi). symmetry. apply string_at_lookup. now apply lookup_app_l_Some.
    + apply C. intros str Hstr. apply Hc. set_solver.
  - intros copy Hcopy. rewrite Ec in Hcopy. destruct (ca_copy _ _ C copy Hcopy) as [rest ->].
    exists (rest ++ added). symmetry. apply app_assoc.
Qed.

Lemma caches_exact_empty d strs : no_caches d -> caches_exact d strs.
Proof.
  intros (El & Eg & _ & Ec). split; rewrite ?El, ?Eg; try (intros *; rewrite lookup_empty; discriminate).
  intros p c. rewrite Ec, lookup_empty. discriminate.
Qed.

(** The position of a pattern depends on the strings and the sorted cache only. *)
Lemma lower_bound_loop_ext s s' cache pattern fuel : forall first count,
  (first + count <= length cache)%nat ->
  (forall id, id ∈ cache -> payload_or_nil s' id = payload_or_nil s id) ->
  lower_bound_loop fuel s' cache pattern first count = lower_bound_loop fuel s cache pattern first count.
Proof.
  induction fuel as [|fuel IH]; intros first count Hc E; cbn [lower_bound_loop]; [reflexivity|].
  destruct count as [|count]; [reflexivity|].
  assert (Hd : (Nat.div2 (S count) < S count)%nat) by (apply Nat.lt_div2; lia).
  rewrite E by (apply list_elem_of_In, nth_In; lia).
  destruct (string_lt _ _); apply IH; auto; lia.
Qed.

Lemma compare_position_ext d d' strs pattern :
  represents d strs -> represents d' strs -> caches_ok d strs -> sorted_cache d' = sorted_cache d ->
  compare_position d' pattern = compare_position d pattern.
Proof.
  intros R R' C Es.
  assert (E : forall id, id ∈ sorted_cache d -> payload_or_nil (storage_ d') id = payload_or_nil (storage_ d) id).
  { intros id Hid. destruct (cached_id d strs id C Hid) as (i & str & -> & Hi).
    now rewrite (payload_lookup d strs i str R Hi), (payload_lookup d' strs i str R' Hi). }
  unfold compare_position, lower_bound. rewrite Es, (lower_bound_loop_ext (storage_ d)) by (auto; lia).
  destruct (sorted_cache d !! _) as [id|] eqn:Ei; [|reflexivity].
  rewrite E; [reflexivity | eapply list_elem_of_lookup_2; eauto].
Qed.

(** Additions that empty the caches when they add something. *)
Lemma inv_added strict d d' strs added :
  inv strict d strs -> represents d' (strs ++ added) -> same_frame d d' ->
  (same_caches d d' /\ (strict = true -> added = [])) \/ no_caches d' -> inv strict d' (strs ++ added).
Proof.
  intros [[R C] X] R' F [[S Ha]|N].
  - assert (S' : scan_caches_ok d' (strs ++ added)) by (apply scan_caches_app with d; [apply C | exact S]).
    split; [split; [exact R' | now apply caches_ok_app with d]|]. intros Hs. specialize (X Hs). specialize (Ha Hs).
    subst added. rewrite app_nil_r in *. destruct X as [L G K], S as (El & Eg & _ & Ec), F as (_ & _ & Es & _).
    split; rewrite ?El, ?Eg; auto. intros p c. rewrite Ec. intros Hc. destruct (K p c Hc) as [Hl ->].
    rewrite Es. split; [exact Hl|]. symmetry. now apply (compare_position_ext d d' strs).
  - split; [split; [exact R'|] | intros _; now apply caches_exact_empty].
    apply caches_ok_app with d; [exact C | exact F | now apply scan_caches_empty].
Qed.

(** The outcome of a computation from a live dictionary: it stays one, with more strings. *)
Definition keeps {A : Type} (strict : bool) (d : StringDictionary) (c : DM A) : Prop :=
  forall strs r d', inv strict d strs -> c d = (r, d') ->
    r = Err DCheck \/ (exists e, r = Err e /\ strict = true) \/ exists added, inv strict d' (strs ++ added).

Lemma keeps_discard {A : Type} strict d (c : DM A) : keeps strict d c -> keeps strict d (discard c).
Proof.
  intros Hc strs r d' Ha. unfold discard, bind. destruct (c d) as [[a|e] d1] eqn:E; intros [= <- <-].
  - destruct (Hc strs _ _ Ha E) as [|[(e & ? & _)|]]; [discriminate | discriminate | auto].
  - destruct (Hc strs _ _ Ha E) as [[= ->]|[(e' & [= ->] & ->)|]]; eauto.
Qed.

Lemma inv_same strict d strs : inv strict d strs -> exists added, inv strict d (strs ++ added).
Proof. intros Ha. exists []. now rewrite app_nil_r. Qed.

Lemma getOrAdd_keeps strict d str : keeps strict d (getOrAdd str).
Proof.
  intros strs r d' I E. pose proof (al_represents _ _ (in_alive _ _ _ I)) as R.
  destruct (Z_lt_le_dec MAX_STRLEN (len str)) as [Hl|Hl].
  { rewrite getOrAdd_too_long in E by exact Hl. injection E as <- <-. now left. }
  destruct (decide (len strs < MAX_STRCOUNT \/ str = [] \/ str ∈ strs)) as [Hroom|Hfull].
  - destruct (getOrAdd_spec d strs str R Hl Hroom) as (d1 & E1 & R1 & F & Hd).
    rewrite E1 in E. injection E as <- <-. right. right.
    destruct Hd as [->|Hno]; [now apply inv_same|].
    assert (Hadd : exists a, snd (add_string null_id strs str) = strs ++ a).
    { unfold add_string. destruct (decide _); [exists []; now rewrite app_nil_r|].
      destruct (position strs str); [exists []; now rewrite app_nil_r | eauto]. }
    destruct Hadd as [a Ea]. rewrite Ea in R1. exists a. eapply inv_added; eauto.
  - left. pose proof (rp_max _ _ R). assert (str <> [] /\ str ∉ strs /\ len strs = MAX_STRCOUNT) as (? & ? & ?).
    { repeat split; [tauto | tauto |]. destruct (Z_lt_le_dec (len strs) MAX_STRCOUNT); [tauto | lia]. }
    pose proof (getOrAdd_full d strs str) as F. rewrite E in F. cbn in F. auto.
Qed.

Lemma serial_keeps strict d T strs' : keeps strict d (getOrAddBulk_serial T strs').
Proof.
  intros strs r d' I E. pose proof (al_represents _ _ (in_alive _ _ _ I)) as R. right.
  destruct (getOrAddBulk_serial_spec d strs T strs' R) as (d1 & E1 & R1 & F & Hc).
  destruct (add_strings_grows T strs' strs) as [added Ea].
  rewrite E1 in E. injection E as <- <-. rewrite Ea in *.
  destruct (fst (add_strings T strs strs')) as [ids|e].
  - right. exists added. apply (inv_added strict d); auto. destruct Hc as [[E0 Hs]|Hno]; [left; split; [exact Hs|]|auto].
    intros _. apply app_inv_head with strs. now rewrite app_nil_r.
  - destruct strict; [left; eauto|]. right. exists added. apply (inv_added false d); auto. left. split; [exact Hc | easy].
Qed.

Lemma parallel_keeps strict d T strs' ids d' strs :
  inv strict d strs -> strs <> [] -> getOrAddBulkParallel T strs' d = (Ok ids, d') ->
  exists added, inv strict d' (strs ++ added).
Proof.
  intros I Hne E. pose proof (al_represents _ _ (in_alive _ _ _ I)) as R.
  pose proof (getOrAddBulkParallel_spec T strs' d strs R Hne) as P. cbn zeta in P.
  destruct (add_strings_grows T strs' strs) as [added Ea].
  destruct (fst (add_strings T strs strs')) as [ids'|e]; [|rewrite E in P; discriminate].
  destruct P as (d1 & E1 & R1 & F & Hc). rewrite E1 in E. injection E as <- <-. rewrite Ea in *.
  exists added. apply (inv_added strict d); auto. destruct Hc as [[E0 Hs]|Hno]; [left; split; [exact Hs|]|auto].
  intros _. apply app_inv_head with strs. now rewrite app_nil_r.
Qed.

(** *** Queries *)

(** A query that changes the answers kept. *)
Lemma inv_caches strict d strs l r e c s :
  inv strict d strs -> scan_caches_ok (set_caches l r e c s d) strs ->
  (forall copy, s = Some copy -> exists rest, strs = copy ++ rest) ->
  (strict = true -> caches_exact (set_caches l r e c s d) strs) -> inv strict (set_caches l r e c s d) strs.
Proof.
  intros [[R C] _] S Hs X. split; [split; [now apply represents_caches|] | exact X].
  destruct C. now split.
Qed.

Lemma getLike_keeps strict d pattern icase is_simple escape g :
  0 <= g -> (strict = true -> g = str_count_ d) -> keeps strict d (getLike pattern icase is_simple escape g).
Proof.
  intros Hg Hall strs r d' I E. pose proof I as [[R C] X].
  destruct (like_cache_ d !! (pattern, icase, is_simple, escape)) as [ids|] eqn:El.
  { rewrite (getLike_cached d _ _ _ _ g ids El) in E. injection E as <- <-. right. right. now apply inv_same. }
  destruct (Z_le_gt_dec g (len strs)) as [Hle|Hgt].
  - destruct (getLike_fresh d strs pattern icase is_simple escape g R (ca_scans _ _ C) ltac:(lia) El)
      as (ids & d1 & E1 & Hids & _ & S1 & Ed).
    rewrite E1 in E. injection E as <- <-. right. right. apply inv_same. subst d1. apply inv_caches; auto; [apply C|].
    intros Hs. rewrite (rp_count _ _ R) in Hall. rewrite (Hall Hs) in Hids. destruct (X Hs) as [L G K].
    split; cbn; auto. intros p ic si e' ids'.
    destruct (decide ((pattern, icase, is_simple, escape) = (p, ic, si, e'))) as [[= <- <- <- <-]|N].
    + rewrite lookup_insert_eq. now intros [= <-].
    + rewrite lookup_insert_ne by exact N. apply L.
  - unfold getLike in E. rewrite run_gets, El in E.
    rewrite (bind_err _ _ _ _ _ (scan_strings_bad d strs _ g R ltac:(lia))) in E. injection E as <- <-. now left.
Qed.

Lemma getRegexpLike_keeps strict d pattern escape g :
  0 <= g -> (strict = true -> g = str_count_ d) -> keeps strict d (getRegexpLike pattern escape g).
Proof.
  intros Hg Hall strs r d' I E. pose proof I as [[R C] X].
  destruct (regex_cache_ d !! (pattern, escape)) as [ids|] eqn:El.
  { unfold getRegexpLike in E. rewrite run_gets, El in E. injection E as <- <-. right. right. now apply inv_same. }
  destruct (Z_le_gt_dec g (len strs)) as [Hle|Hgt].
  - destruct (getRegexpLike_fresh d strs pattern escape g R (ca_scans _ _ C) ltac:(lia) El)
      as (ids & d1 & E1 & Hids & _ & S1 & Ed).
    rewrite E1 in E. injection E as <- <-. right. right. apply inv_same. subst d1. apply inv_caches; auto; [apply C|].
    intros Hs. rewrite (rp_count _ _ R) in Hall. rewrite (Hall Hs) in Hids. destruct (X Hs) as [L G K].
    split; cbn; auto. intros p e' ids'. destruct (decide ((pattern, escape) = (p, e'))) as [[= <- <-]|N].
    + rewrite lookup_insert_eq. now intros [= <-].
    + rewrite lookup_insert_ne by exact N. apply G.
  - unfold getRegexpLike in E. rewrite run_gets, El in E.
    rewrite (bind_err _ _ _ _ _ (scan_strings_bad d strs _ g R ltac:(lia))) in E. injection E as <- <-. now left.
Qed.

Lemma compare_by_position_keeps strict pattern op d strs r d' :
  inv strict d strs -> len (sorted_cache d) = len strs -> compare_by_position pattern op d = (r, d') ->
  inv strict d' strs.
Proof.
  intros I Hl. unfold compare_by_position. rewrite run_gets.
  destruct (compare_cache_ d !! pattern) as [c|]; intros [= <- <-]; [exact I|].
  pose proof I as [[R C] X]. apply inv_caches; auto; [destruct C as [[] ? ? ? ?]; now split | apply C|].
  intros Hs. destruct (X Hs) as [L G K]. split; auto. intros p c. cbn. destruct (decide (pattern = p)) as [<-|N].
  - rewrite lookup_insert_eq. intros [= <-]. auto.
  - rewrite lookup_insert_ne by exact N. apply K.
Qed.

(** The cached id of a pattern is its id. *)
Lemma getEquals_keeps strict d pattern op g : 0 <= g -> keeps strict d (getEquals pattern op g).
Proof.
  intros Hg strs r d' I E. pose proof I as [[R C] X]. unfold getEquals in E. rewrite !run_gets in E.
  destruct (equal_cache_ d !! pattern) as [id|] eqn:El; [injection E as <- <-; right; right; now apply inv_same|].
  destruct (Z_le_gt_dec g (len strs)) as [Hle|Hgt].
  - destruct (scan_strings_spec d strs (fun str => bool_decide (str = pattern)) g R ltac:(lia)) as (ids & Es & Hn & Hids).
    rewrite (bind_ok _ _ _ _ _ Es) in E. right. right. destruct ids as [|id ids].
    + injection E as <- <-. now apply inv_same.
    + cbn in E. injection E as <- <-. apply inv_same. apply inv_caches; auto; [|apply C | ].
      * destruct C as [[L G Q] ? ? ? ?]. split; cbn; auto. intros p id'. destruct (decide (pattern = p)) as [<-|N].
        -- rewrite lookup_insert_eq. intros [= <-].
           destruct (proj1 (Hids id) ltac:(set_solver)) as (i & str & -> & Hi & _ & Hb).
           apply bool_decide_eq_true in Hb as ->. eauto.
        -- rewrite lookup_insert_ne by exact N. apply Q.
      * intros Hs. destruct (X Hs) as [L G K]. now split.
  - rewrite (bind_err _ _ _ _ _ (scan_strings_bad d strs _ g R ltac:(lia))) in E. injection E as <- <-. now left.
Qed.

Lemma getCompare_keeps strict d pattern op g : 0 <= g -> keeps strict d (getCompare pattern op g).
Proof.
  intros Hg strs r d' I E. pose proof I as [[R C] _]. unfold getCompare in E. rewrite run_gets in E.
  destruct (str_count_ d =? 0); [injection E as <- <-; right; right; now apply inv_same|].
  rewrite run_gets, (rp_count _ _ R) in E.
  assert (Hpos : forall d1, inv strict d1 strs -> len (sorted_cache d1) = len strs ->
    compare_by_position pattern op d1 = (r, d') -> exists added, inv strict d' (strs ++ added))
    by (intros d1 I1 Hl E1; apply inv_same; eapply compare_by_position_keeps; eauto).
  destruct (Z.ltb_spec (len (sorted_cache d)) (len strs)) as [Hlt|Hge].
  - destruct (built_inv strict d strs I Hlt) as [I1 Hl].
    destruct op; try (rewrite run_modify in E; right; right; now apply (Hpos (buildSortedCache d)));
      exact (getEquals_keeps strict d pattern _ g Hg strs r d' I E).
  - right. right. apply (Hpos d); auto. pose proof (ca_short _ _ C). lia.
Qed.

(** ** Copies *)

Lemma copy_range_spec d strs a b :
  represents d strs -> (a <= b <= length strs)%nat ->
  copy_range d (Z.of_nat a) (Z.of_nat b) = Ok (take (b - a) (drop a strs)).
Proof.
  intros R Hab. unfold copy_range. destruct (Z.leb_spec (Z.of_nat a) (Z.of_nat b)); [|lia].
  replace (Z.to_nat (Z.of_nat b - Z.of_nat a)) with (b - a)%nat by lia.
  assert (Hgen : forall n k, (a + k + n <= length strs)%nat ->
    fold_right (fun i acc =>
         match getStringUnlocked d (Z.of_nat a + Z.of_nat i), acc with
         | Ok str, Ok strs => Ok (str :: strs)
         | Err e, _ => Err e
         | _, Err e => Err e
         end) (Ok []) (seq k n) = Ok (take n (drop (a + k) strs))).
  { induction n as [|n IH]; intros k Hk; [reflexivity|]. cbn [seq fold_right].
    destruct (lookup_lt_is_Some_2 strs (a + k) ltac:(lia)) as [str Hs].
    rewrite <- Nat2Z.inj_add. pose proof (getString_spec d strs (a + k) str R Hs) as Eg. unfold getString in Eg.
    rewrite Eg, IH by lia. rewrite (drop_S _ _ _ Hs). now rewrite Nat.add_succ_r. }
  rewrite Hgen by lia. now rewrite Nat.add_0_r.
Qed.

Lemma copy_workers_spec d strs stride n : forall start,
  represents d strs -> (0 < stride)%nat ->
  copy_workers n d (Z.of_nat stride) (Z.of_nat start) = Ok (take (n * stride) (drop start strs)).
Proof.
  induction n as [|n IH]; intros start R Hs; cbn [copy_workers]; [reflexivity|].
  rewrite (rp_count _ _ R). unfold len.
  destruct (Z.ltb_spec (Z.of_nat start) (Z.of_nat (length strs))) as [Hlt|Hge].
  - rewrite <- Nat2Z.inj_add, <- Nat2Z.inj_min. rewrite (copy_range_spec d strs) by (auto; lia).
    rewrite IH by assumption. f_equal. rewrite <- drop_drop.
    destruct (le_lt_dec (start + stride) (length strs)) as [Hle|Hgt].
    + rewrite Nat.min_l by lia. replace (start + stride - start)%nat with stride by lia.
      cbn [Nat.mul]. apply take_take_drop.
    + rewrite Nat.min_r by lia. rewrite (take_ge (drop start strs) (length strs - start)) by (rewrite length_drop; lia).
      rewrite (drop_ge (drop start strs)) by (rewrite length_drop; lia). rewrite take_nil, app_nil_r.
      rewrite take_ge; [reflexivity|]. rewrite length_drop. cbn [Nat.mul]. lia.
  - rewrite drop_ge by lia. now rewrite take_nil.
Qed.

(** The first copy has all the strings. *)
Lemma copyStrings_spec d strs :
  represents d strs -> strings_cache_ d = None ->
  copyStrings d = (Ok strs, set_caches (like_cache_ d) (regex_cache_ d) (equal_cache_ d)
                              (compare_cache_ d) (Some strs) d).
Proof.
  intros R Hnone. pose proof cpu_threads_pos as Hc. pose proof (rp_count _ _ R) as Hcount.
  unfold copyStrings. rewrite run_gets, Hnone.
  erewrite run_query with (a := strs); [reflexivity|]. cbv zeta beta. rewrite Hcount.
  destruct (Z.ltb_spec 10000 (len strs)) as [Hbig|Hsmall].
  - destruct (Z.ltb_spec 0 cpu_threads); [|lia]. cbn [negb].
    set (stride := (len strs + (cpu_threads - 1)) / cpu_threads).
    assert (Hne : cpu_threads <> 0) by lia.
    pose proof (Z.div_mod (len strs + (cpu_threads - 1)) cpu_threads Hne) as Hdm.
    pose proof (Z.mod_pos_bound (len strs + (cpu_threads - 1)) cpu_threads Hc) as Hmod. fold stride in Hdm.
    assert (Hs : 0 < stride) by nia.
    replace stride with (Z.of_nat (Z.to_nat stride)) by lia. change 0 with (Z.of_nat 0) at 1.
    rewrite (copy_workers_spec d strs) by (auto; lia). f_equal. cbn [drop]. apply take_ge.
    assert (Z.of_nat (length strs) <= cpu_threads * stride) by (unfold len in *; nia).
    apply Nat2Z.inj_le. rewrite Nat2Z.inj_mul, !Z2Nat.id by lia. assumption.
  - change (negb (0 <? 1)) with false. cbn iota. change 0 with (Z.of_nat 0). unfold len.
    rewrite (copy_range_spec d strs) by (auto; lia). f_equal. cbn [drop]. rewrite Nat.sub_0_r. apply firstn_all.
Qed.

Lemma copyStrings_keeps strict d : keeps strict d copyStrings.
Proof.
  intros strs r d' I E. pose proof I as [[R C] X]. right. right. apply inv_same.
  destruct (strings_cache_ d) as [c|] eqn:Hc.
  - unfold copyStrings in E. rewrite run_gets, Hc in E. injection E as <- <-. exact I.
  - rewrite (copyStrings_spec d strs R Hc) in E. injection E as <- <-.
    apply inv_caches; auto; [destruct C as [[] ? ? ? ?]; now split | |].
    + intros copy [= <-]. exists []. now rewrite app_nil_r.
    + intros Hs. destruct (X Hs). now split.
Qed.

(** ** Sequences of operations *)

Lemma bulk_keeps strict d T strs' r d' strs :
  inv strict d strs -> op_args d (DGetOrAddBulk T strs') -> exec (DGetOrAddBulk T strs') d = (r, d') ->
  r = Ok tt \/ recoverable (DGetOrAddBulk T strs') ->
  r = Err DCheck \/ (exists e, r = Err e /\ strict = true) \/ exists added, inv strict d' (strs ++ added).
Proof.
  intros I Hop E Hr. cbn in Hop, E, Hr. unfold getOrAddBulk in E.
  destruct g_enable_stringdict_parallel eqn:Eg.
  - destruct Hr as [-> |]; [|discriminate]. right. right. unfold discard, bind in E.
    destruct (getOrAddBulkParallel T strs' d) as [[ids|e] d1] eqn:E1; [|discriminate]. injection E as <-.
    apply (parallel_keeps strict d T strs' ids d1 strs); auto. intros ->. apply (Hop eq_refl).
    now rewrite (rp_count _ _ (al_represents _ _ (in_alive _ _ _ I))).
  - apply (keeps_discard strict d _ (serial_keeps strict d T strs') strs r d' I E).
Qed.

Lemma exec_keeps strict d op r d' strs :
  inv strict d strs -> op_args d op -> (strict = true -> asks_all d op) -> exec op d = (r, d') ->
  r = Ok tt \/ recoverable op ->
  r = Err DCheck \/ (exists e, r = Err e /\ strict = true) \/ exists added, inv strict d' (strs ++ added).
Proof.
  intros I Hop Hall E Hr. destruct op; [| now apply (bulk_keeps strict d T strs0) | | | | ];
    revert I E; apply keeps_discard;
    auto using getOrAdd_keeps, getLike_keeps, getRegexpLike_keeps, getCompare_keeps, copyStrings_keeps.
Qed.

Lemma step_inv strict d d' strs : inv strict d strs -> step strict d d' -> exists added, inv strict d' (strs ++ added).
Proof.
  intros I [op d1 Hop Hall E|op d1 Hs Hop Hr E].
  - destruct (exec_keeps strict d op _ _ strs I Hop Hall E) as [|[(? & ? & _)|]]; auto; discriminate.
  - subst strict. destruct (exec_keeps false d op _ _ strs I Hop ltac:(discriminate) E (or_intror Hr))
      as [|[(? & _ & ?)|]]; auto; discriminate.
Qed.

Lemma steps_inv strict d d' :
  steps strict d d' -> forall strs, inv strict d strs -> exists added, inv strict d' (strs ++ added).
Proof.
  induction 1 as [|d1 d2 Hs IH Hst]; intros strs Ha; [now apply inv_same|].
  destruct (IH strs Ha) as [a1 Ha1]. destruct (step_inv _ _ _ _ Ha1 Hst) as [a2 Ha2].
  exists (a1 ++ a2). now rewrite app_assoc.
Qed.

Lemma alive_inv d strs : alive d strs -> inv false d strs.
Proof. intros A. split; [exact A | discriminate]. Qed.

Lemma step_alive d d' strs : alive d strs -> step false d d' -> exists added, alive d' (strs ++ added).
Proof. intros A Hs. destruct (step_inv _ _ _ _ (alive_inv _ _ A) Hs) as (a & I & _). eauto. Qed.

Lemma steps_alive d d' : steps false d d' -> forall strs, alive d strs -> exists added, alive d' (strs ++ added).
Proof. intros Hs strs A. destruct (steps_inv _ _ _ Hs strs (alive_inv _ _ A)) as (a & I & _). eauto. Qed.

(** ** New dictionaries *)

Lemma power_check k : 0 <= k -> Z.land (2 ^ k) (2 ^ k - 1) = 0.
Proof.
  intros Hk. replace (2 ^ k - 1) with (Z.ones k) by (rewrite Z.ones_equiv; lia).
  rewrite Z.land_ones by exact Hk. apply Z.mod_same. pose proof (Z.pow_pos_nonneg 2 k ltac:(lia) Hk). lia.
Qed.

Lemma blank_inv strict ref m k collisions :
  1 <= k <= 32 -> inv strict (blank_dictionary ref m (2 ^ k) collisions) [].
Proof.
  intros Hk. assert (0 < 2 ^ k) by (apply Z.pow_pos_nonneg; lia).
  assert (2 ^ k <= 2 ^ 32) by (apply Z.pow_le_mono_r; lia). change (2 ^ 32) with 4294967296 in *.
  assert (Hlen : forall x : Z, len (replicate (Z.to_nat (2 ^ k)) x) = 2 ^ k)
    by (intros x; unfold len; rewrite length_replicate; lia).
  assert (N : no_caches (blank_dictionary ref m (2 ^ k) collisions)) by (repeat split).
  split; [|intros _; now apply caches_exact_empty].
  split; [|split; [now apply scan_caches_empty | reflexivity | reflexivity | constructor | discriminate]].
  split; cbn; rewrite ?Hlen; auto.
  - split; cbn; auto; [apply stored_empty | intros _ i str Hi; destruct i; discriminate | apply NoDup_nil_2].
  - unfold len, MAX_STRCOUNT. cbn. lia.
  - set_solver.
  - apply table_ok_new. lia.
  - eauto.
  - unfold len. cbn. lia.
  - lia.
Qed.

Lemma blank_alive ref m k collisions :
  1 <= k <= 32 -> alive (blank_dictionary ref m (2 ^ k) collisions) [].
Proof. intros Hk. exact (in_alive _ _ _ (blank_inv false ref m k collisions Hk)). Qed.

Lemma new_dictionary_spec ref m k collisions :
  1 <= k <= 32 -> new_dictionary ref m (2 ^ k) collisions = Ok (blank_dictionary ref m (2 ^ k) collisions).
Proof.
  intros Hk. assert (0 < 2 ^ k) by (apply Z.pow_pos_nonneg; lia).
  assert (2 ^ k <= 2 ^ 32) by (apply Z.pow_le_mono_r; lia). change (2 ^ 32) with 4294967296 in *.
  unfold new_dictionary. rewrite u64_small, power_check by lia. reflexivity.
Qed.

End Env.
