(* ===== verification/DictProps.v ===== *)
(** * Properties of the string dictionary *)

From Stdlib Require Import ZArith Lia List Bool.
From stdpp Require Import base list numbers sets gmap.
From S2P Require Import Prelude StateMonad StringLike StringLikeProps DictStorage.
From S2P Require Import StringDictionary DictFacts DictOps DictParallel DictQueries DictQueryFacts.
From S2P Require Import DictCompareFacts DictBulkFacts DictLife.
Import ListNotations.
Local Open Scope Z_scope.

Section Properties.

Context `{DictEnvOk}.

(** [C1] [getOrAdd] refines the dictionary as a list of different strings: the empty string
    is the null value, a known string keeps its id, a new string gets the next id; a string
    that is too long, or new when the dictionary is full, fails a [CHECK]. *)
Theorem getOrAdd_refines (d : StringDictionary) (strs : list (list Z)) (str : list Z) :
  represents d strs ->
  if MAX_STRLEN <? len str then getOrAdd str d = (Err DCheck, d)
  else if bool_decide (str <> [] /\ str ∉ strs) && (MAX_STRCOUNT <=? len strs)
  then fst (getOrAdd str d) = Err DCheck
  else exists d', getOrAdd str d = (Ok (fst (add_string null_id strs str)), d') /\
         represents d' (snd (add_string null_id strs str)).
Proof.
  intros R. destruct (Z.ltb_spec MAX_STRLEN (len str)) as [Hl|Hl]; [now apply getOrAdd_too_long|].
  pose proof (rp_max _ _ R). destruct (bool_decide_reflect (str <> [] /\ str ∉ strs)) as [[Hne Hn]|Hk]; cbn [andb].
  - destruct (Z.leb_spec MAX_STRCOUNT (len strs)) as [Hf|Hr].
    + apply (getOrAdd_full d strs); auto. lia.
    + destruct (getOrAdd_spec d strs str R Hl (or_introl Hr)) as (d' & E & R' & _). eauto.
  - destruct (getOrAdd_spec d strs str R Hl) as (d' & E & R' & _); [|eauto].
    right. destruct (decide (str = [])); [auto|]. destruct (decide (str ∈ strs)); [auto | tauto].
Qed.

(** What [getOrAdd] was given comes back: the id it returns for a string is the id that a
    lookup finds, [getString] gives the string for it, and adding the string again changes
    nothing. *)
Theorem getOrAdd_round_trip (d : StringDictionary) (strs : list (list Z)) (str : list Z) :
  represents d strs -> str <> [] -> len str <= MAX_STRLEN -> len strs < MAX_STRCOUNT ->
  exists id d', getOrAdd str d = (Ok id, d') /\ getString d' id = Ok str /\
    getIdOfString d' str = Ok id /\ getOrAdd str d' = (Ok id, d').
Proof.
  intros R Hne Hl Hr. destruct (getOrAdd_spec d strs str R Hl (or_introl Hr)) as (d' & E & R' & _).
  assert (Hi : exists i, fst (add_string null_id strs str) = Z.of_nat i /\ snd (add_string null_id strs str)
    !! i = Some str).
  { unfold add_string. rewrite decide_False by exact Hne. destruct (position strs str) as [i|] eqn:Ep; cbn.
    - exists i. split; [reflexivity | now apply position_Some].
    - exists (length strs). split; [reflexivity|]. now rewrite lookup_app_r, Nat.sub_diag by lia. }
  destruct Hi as (i & Ei & Hi). rewrite Ei in E. set (strs' := snd (add_string null_id strs str)) in *.
  exists (Z.of_nat i), d'. split; [exact E|]. split; [now apply (getString_spec d' strs')|].
  split; [|now apply (getOrAddImpl_known d' strs')].
  unfold getIdOfString. rewrite (getUnlocked_spec d' strs' str R').
  now rewrite (find_id_lookup strs' str i (ho_nodup _ _ (rp_holds _ _ R')) Hi).
Qed.

(** A lookup ends, and finds the id of a string exactly when the dictionary has it: the
    probe around the hash table always meets a free slot. *)
Theorem getIdOfString_exact (d : StringDictionary) (strs : list (list Z)) (str : list Z) :
  represents d strs ->
  getIdOfString d str = Ok (find_id strs str) /\
  (forall i, strs !! i = Some str <-> getIdOfString d str = Ok (Z.of_nat i)).
Proof.
  intros R. unfold getIdOfString. rewrite (getUnlocked_spec d strs str R). split; [reflexivity|]. intros i. split.
  - intros Hi. now rewrite (find_id_lookup strs str i (ho_nodup _ _ (rp_holds _ _ R)) Hi).
  - intros [= E]. destruct (find_id_cases strs str) as [[E' _]|(j & E' & Hj)]; rewrite E' in E.
    + unfold INVALID_STR_ID in E. lia.
    + now apply Nat2Z.inj in E as <-.
Qed.

(** The serial [getOrAddBulk] adds the strings one after the other.  At a string that is
    too long, or for which the id type has no value left, it stops with the error; the strings
    added before stay, the dictionary remains consistent, and the query caches are not emptied. *)
Theorem getOrAddBulk_refines (d : StringDictionary) (strs inputs : list (list Z)) (T : IdType) :
  represents d strs ->
  exists d', getOrAddBulk_serial T inputs d = (fst (add_strings T strs inputs), d') /\
    represents d' (snd (add_strings T strs inputs)) /\
    match fst (add_strings T strs inputs) with
    | Ok _ => (snd (add_strings T strs inputs) = strs /\ same_caches d d') \/ no_caches d'
    | Err _ => same_caches d d'
    end.
Proof.
  intros R. destruct (getOrAddBulk_serial_spec d strs T inputs R) as (d' & E & R' & _ & C). eauto.
Qed.

(** [C7] On a dictionary with at least one string, the parallel bulk addition returns the ids,
    or the error, of the serial one.  When they succeed, both leave a dictionary with the same
    strings.  When they fail, the parallel one leaves the stored strings and their number as they
    were, while the serial one keeps the strings that it added before the one that failed. *)
Theorem parallel_bulk_equivalent (d : StringDictionary) (strs inputs : list (list Z)) (T : IdType) :
  represents d strs -> strs <> [] ->
  fst (getOrAddBulkParallel T inputs d) = fst (getOrAddBulk_serial T inputs d) /\
  match fst (getOrAddBulk_serial T inputs d) with
  | Ok ids =>
      exists strs', represents (snd (getOrAddBulk_serial T inputs d)) strs' /\
        represents (snd (getOrAddBulkParallel T inputs d)) strs'
  | Err _ =>
      storage_ (snd (getOrAddBulkParallel T inputs d)) = storage_ d /\
      str_count_ (snd (getOrAddBulkParallel T inputs d)) = str_count_ d /\
      exists added, represents (snd (getOrAddBulk_serial T inputs d)) (strs ++ added)
  end.
Proof.
  intros R Hne. destruct (getOrAddBulk_serial_spec d strs T inputs R) as (d1 & E1 & R1 & _).
  pose proof (getOrAddBulkParallel_spec T inputs d strs R Hne) as P. cbn zeta in P. rewrite E1. cbn [fst snd].
  pose proof (getOrAddBulkParallel_error T inputs d strs) as Q. destruct (add_strings_grows T inputs strs) as [a Ea].
  destruct (fst (add_strings T strs inputs)) as [ids|e].
  - destruct P as (d2 & E2 & R2 & _). rewrite E2. split; [reflexivity|]. eauto.
  - split; [exact P|]. destruct (Q e R Hne eq_refl) as [Q1 Q2]. rewrite Ea in R1. eauto.
Qed.

(** [C23] Every dictionary reached from a new one by additions (single, bulk, and parallel bulk
    into a dictionary that has a string), queries and copies, with the id type of a serial bulk
    addition running full on the way, is consistent: the table finds exactly the stored strings,
    which are all different; a cached LIKE or REGEXP answer is that of a scan up to some
    generation, a cached equality is right; the sorted cache has the first ids, each once and in
    the order of their strings when no string has the character 0; a kept copy is a beginning of
    the strings.  And when no addition has failed and every LIKE and REGEXP query was for all the
    strings ([strict]), the cached answers are those that a scan of all the strings gives now, and
    the cached positions of the comparisons are those of a sorted cache with all the strings: what
    an addition makes stale, it removes. *)
Theorem dictionary_invariant (strict : bool) (ref : Z * Z) (m : bool) (k collisions : Z) (d d' : StringDictionary) :
  1 <= k <= 32 -> new_dictionary ref m (2 ^ k) collisions = Ok d -> steps strict d d' ->
  exists strs, represents d' strs /\ caches_ok d' strs /\ (strict = true -> caches_exact d' strs).
Proof.
  intros Hk E Hs. rewrite (new_dictionary_spec ref m k collisions Hk) in E. injection E as <-.
  destruct (steps_inv _ _ d' Hs [] (blank_inv strict ref m k collisions Hk)) as (strs & [[R C] X]). eauto.
Qed.

(** Ids are stable: whatever is done to a consistent dictionary, an id keeps denoting the
    same string and a string keeps its id. *)
Theorem string_ids_stable (d d' : StringDictionary) (strs : list (list Z)) (id : Z) (str : list Z) :
  alive d strs -> steps false d d' -> getString d id = Ok str ->
  getString d' id = Ok str /\ getIdOfString d' str = Ok id.
Proof.
  intros Ha Hs E. pose proof (al_represents _ _ Ha) as R.
  destruct (Z_lt_le_dec id 0) as [Hneg|Hpos]; [now rewrite (getString_bad d strs id R) in E by auto|].
  destruct (Z_lt_le_dec id (len strs)) as [Hlt|Hge]; [|now rewrite (getString_bad d strs id R) in E by auto].
  unfold len in Hlt. destruct (lookup_lt_is_Some_2 strs (Z.to_nat id) ltac:(lia)) as [x Hx].
  pose proof (getString_spec d strs _ x R Hx) as Ex. rewrite Z2Nat.id in Ex by lia. rewrite E in Ex. injection Ex as <-.
  destruct (steps_alive d d' Hs strs Ha) as (added & [R' _]).
  assert (Hx' : (strs ++ added) !! Z.to_nat id = Some str) by now apply lookup_app_l_Some.
  pose proof (getString_spec d' _ _ str R' Hx') as Es. rewrite Z2Nat.id in Es by lia. split; [exact Es|].
  unfold getIdOfString. rewrite (getUnlocked_spec d' _ str R').
  rewrite (find_id_lookup _ str _ (ho_nodup _ _ (rp_holds _ _ R')) Hx'). f_equal. lia.
Qed.

(** [C13] Recovery: a dictionary of fewer than 2^30 strings, opened again on its files, finds
    the same strings under the same ids, whatever the number of recovery tasks. *)
Theorem recover_round_trip (d : StringDictionary) (strs : list (list Z)) (ref : Z * Z) (m : bool) (cap : Z) :
  represents d strs -> len strs < 1073741824 -> offset_file_size_ (storage_ d) < 2 ^ 63 ->
  Z.land cap (cap - 1) = 0 -> 2 <= cap <= 2147483648 ->
  exists d', recover_dictionary ref m cap (storage_ d) = Ok d' /\
    forall str id, getIdOfString d' str = getIdOfString d str /\ getString d' id = getString d id.
Proof.
  intros R Hlt Hf Hcap Hc. pose proof (rp_holds _ _ R) as Ho.
  destruct (recover_dictionary_spec ref m cap (storage_ d) strs (ho_storage _ _ Ho) (ho_nodup _ _ Ho)
    (rp_nonempty _ _ R) Hlt Hf Hcap Hc)
    as (d' & E & R').
  exists d'. split; [exact E|]. intros str id. split.
  - unfold getIdOfString. now rewrite (getUnlocked_spec d strs str R), (getUnlocked_spec d' strs str R').
  - destruct (Z_lt_le_dec id 0); [rewrite (getString_bad d strs), (getString_bad d' strs); auto|].
    destruct (Z_lt_le_dec id (len strs)) as [Hl|Hg]; [|rewrite (getString_bad d strs), (getString_bad d' strs); auto].
    unfold len in Hl. destruct (lookup_lt_is_Some_2 strs (Z.to_nat id) ltac:(lia)) as [x Hx].
    pose proof (getString_spec d strs _ x R Hx) as E1. pose proof (getString_spec d' strs _ x R' Hx) as E2.
    rewrite Z2Nat.id in E1, E2 by lia. congruence.
Qed.

(** A LIKE query that is not cached returns, once each, the ids below the generation whose
    strings match, whatever the number of workers; a cached one returns the matches below the
    generation of the query that was cached. *)
Theorem getLike_exact (d : StringDictionary) (strs : list (list Z)) (pattern : list Z)
    (icase is_simple : bool) (escape generation : Z) :
  represents d strs -> scan_caches_ok d strs -> 0 <= generation <= len strs ->
  exists ids d' g, getLike pattern icase is_simple escape generation d = (Ok ids, d') /\
    represents d' strs /\ scan_caches_ok d' strs /\ NoDup ids /\
    (forall id, id ∈ ids <-> exists i str, id = Z.of_nat i /\ strs !! i = Some str /\ id < g /\
       is_like str pattern icase is_simple escape = true) /\
    (like_cache_ d !! (pattern, icase, is_simple, escape) = None -> g = generation).
Proof.
  intros R C Hg. destruct (like_cache_ d !! (pattern, icase, is_simple, escape)) as [ids|] eqn:El.
  - destruct (co_like _ _ C _ _ _ _ _ El) as (g & _ & Hn & Hi). exists ids, d, g.
    rewrite (getLike_cached d _ _ _ _ generation ids El). split; [reflexivity|].
    split; [exact R|]. split; [exact C|]. split; [exact Hn|]. split; [exact Hi | discriminate].
  - destruct (getLike_fresh d strs pattern icase is_simple escape generation R C Hg El)
      as (ids & d' & E & [Hn Hi] & R' & C' & _).
    exists ids, d', generation. split; [exact E|]. split; [exact R'|]. split; [exact C'|].
    split; [exact Hn|]. split; [exact Hi | reflexivity].
Qed.

(** The comparisons [<], [<=], [>] and [>=] return, once each, the ids of the strings of
    which they hold, for strings without the character 0; except that [<], [>] and [>=] need
    the pattern to be in the dictionary, or the number of strings below it to differ from one. *)
Theorem getCompare_exact (d : StringDictionary) (strs : list (list Z)) (pattern : list Z)
    (op : CompOp) (generation : Z) :
  represents d strs -> clean_strings strs -> clean pattern -> sorted_ok d -> compare_ok d strs ->
  (op = OpLe \/ (op = OpLt \/ op = OpGt \/ op = OpGe) /\ (pattern ∈ strs \/ count_below strs pattern <> 1%nat)) ->
  exists ids d', getCompare pattern op generation d = (Ok ids, d') /\
    represents d' strs /\ sorted_ok d' /\ compare_ok d' strs /\ NoDup ids /\
    forall id, id ∈ ids <-> exists i str, id = Z.of_nat i /\ strs !! i = Some str /\ op_holds op str pattern = true.
Proof.
  intros R Hc Hp So Co Hop.
  destruct (getCompare_spec d strs pattern op generation R Hc Hp So Co) as (ids & d' & E & R' & S' & C' & Hn & Hi).
  - now destruct Hop as [->|[[->|[->| ->]] _]].
  - destruct Hop as [->|[_ Hx]]; auto.
  - exists ids, d'. auto 7.
Qed.

(** [getBulk] encodes every string with its id when that is below the generation, and
    with [INVALID_STR_ID] otherwise, under every schedule of the threads; the number of
    strings not found that it returns is right when no thread runs two pieces of the range. *)
Theorem getBulk_exact (d : StringDictionary) (strs inputs : list (list Z)) (T : IdType)
    (generation : Z) (schedule : Schedule) :
  represents d strs -> (forall str, str ∈ inputs -> len str <= MAX_STRLEN) -> 0 < generation ->
  covers (length inputs) (num_threads (make_ThreadInfo hardware_concurrency (len inputs) 1000)) schedule ->
  exists count, getBulk d T inputs generation schedule = Ok (map (bulk_id T strs generation) inputs, count) /\
    (NoDup (map fst schedule) -> count = count_not_found strs generation inputs).
Proof. apply getBulk_spec. Qed.

(** The translation map gives, for every string of the source below its generation, the
    id of the same string in the destination below its generation, else what the callback
    finds among the transient strings; and counts the strings that have neither, under every
    schedule of the threads. *)
Theorem translation_map_exact (source dest : StringDictionary) (sstrs dstrs : list (list Z))
    (ids : list Z) (sg dg : Z) (callback : StringLookupCallback) (lookup : list Z -> Z)
    (schedule : Schedule) :
  represents source sstrs -> represents dest dstrs -> dict_ref_ source <> dict_ref_ dest ->
  looks_up callback lookup -> 0 < sg <= len sstrs -> 0 < dg <= len dstrs -> len ids = sg ->
  covers (Z.to_nat sg) (num_threads (make_ThreadInfo hardware_concurrency sg 1000)) schedule ->
  exists translated, buildDictionaryTranslationMap source dest ids sg dg true callback schedule
    = Ok (translated, count_untranslated dstrs dg true lookup (take (Z.to_nat sg) sstrs)) /\
    forall i str, (i < Z.to_nat sg)%nat -> sstrs !! i = Some str ->
      translated !! i = Some (if found_id dstrs dg str =? INVALID_STR_ID then lookup str else find_id dstrs str).
Proof.
  intros Rs Rd Hr Hcb Hsg Hdg Hi Hcov. eexists. split; [now apply translation_spec with (lookup := lookup)|].
  intros i str Hlt Hs. change (map ?f ?l) with (f <$> l). rewrite list_lookup_fmap, lookup_take_lt, Hs by exact Hlt.
  reflexivity.
Qed.

End Properties.

(** ** A small dictionary *)

#[local] Instance demo_env : DictEnv := {|
  SYSTEM_PAGE_SIZE := 4096;
  g_enable_stringdict_parallel := false;
  hardware_concurrency := 4;
  g_cpu_threads_override := 0;
  regexp_like := fun _ _ _ => false
|}.

#[local] Instance demo_env_ok : DictEnvOk.
Proof. split; cbn; [exists 512; split; [lia | reflexivity] | lia | lia]. Qed.

Definition str_a : list Z := [97].
Definition str_b : list Z := [98].
Definition str_c : list Z := [99].
Definition str_d : list Z := [100].

(** [after c d] is the dictionary that [c] leaves. *)
Definition after {A : Type} (c : DM A) (d : StringDictionary) : StringDictionary := snd (c d).

Definition fresh : StringDictionary := blank_dictionary (1, 1) true (2 ^ 1) 0.

(** The strings [b] and [d], in a table of two slots at first. *)
Definition demo : StringDictionary := after (getOrAddBulk_serial Int32 [str_b; str_d]) fresh.

Lemma blank_ok : alive fresh [].
Proof. exact (blank_alive (1, 1) true 1 0 ltac:(lia)). Qed.

Lemma demo_strings : add_strings Int32 [] [str_b; str_d] = (Ok [0; 1], [str_b; str_d]).
Proof. vm_compute. reflexivity. Qed.

(** What is known of [demo]. *)
Lemma demo_spec :
  represents demo [str_b; str_d] /\ sorted_cache demo = [] /\ no_caches demo /\ strings_cache_ demo = None.
Proof.
  destruct (getOrAddBulk_serial_spec fresh [] Int32 [str_b; str_d] (al_represents _ _ blank_ok))
    as (d' & E & R & (_ & _ & Es & Ec) & C).
  rewrite demo_strings in *. cbn [fst snd] in *. unfold demo, after. rewrite E. cbn [snd].
  split; [exact R|]. split; [exact Es|]. split; [|exact Ec]. destruct C as [[E' _]|C]; [discriminate | exact C].
Qed.

Lemma demo_represents : represents demo [str_b; str_d].
Proof. apply demo_spec. Qed.

Lemma demo_alive : alive demo [str_b; str_d].
Proof.
  destruct demo_spec as (R & Hs & Hn & Hc). split; [exact R|].
  split; rewrite ?Hs, ?Hc; [now apply scan_caches_empty | reflexivity | vm_compute; discriminate | constructor | discriminate].
Qed.

Lemma demo_sorted : sorted_ok demo /\ compare_ok demo [str_b; str_d].
Proof.
  destruct demo_spec as (R & Hs & (_ & _ & _ & Hc) & _). split.
  - split; rewrite Hs; [reflexivity | constructor |]. rewrite (rp_count _ _ R). unfold len. cbn. lia.
  - intros p c. rewrite Hc, lookup_empty. discriminate.
Qed.

Lemma str_clean c : is_char c -> c <> 0 -> clean [c].
Proof. intros H1 H2 x [<-|[]]. auto. Qed.

Lemma step_after strict op d :
  op_args d op -> asks_all d op -> fst (exec op d) = Ok tt -> step strict d (after (exec op) d).
Proof.
  intros Hop Hall E. apply (step_ok strict d op); [exact Hop | auto|]. unfold after. rewrite <- E. now destruct (exec op d).
Qed.

(** ** Witnesses *)

Lemma getOrAdd_refines_witness :
  exists d', getOrAdd str_a demo = (Ok 2, d') /\ represents d' [str_b; str_d; str_a].
Proof. exact (getOrAdd_refines demo [str_b; str_d] str_a demo_represents). Defined.

Lemma getOrAdd_round_trip_witness :
  exists id d', getOrAdd str_a demo = (Ok id, d') /\ getString d' id = Ok str_a /\
    getIdOfString d' str_a = Ok id /\ getOrAdd str_a d' = (Ok id, d').
Proof.
  apply (getOrAdd_round_trip demo [str_b; str_d] str_a demo_represents); [discriminate | vm_compute;
    discriminate | reflexivity].
Defined.

Lemma getIdOfString_exact_witness : getIdOfString demo str_d = Ok 1.
Proof. exact (proj1 (getIdOfString_exact demo [str_b; str_d] str_d demo_represents)). Defined.

Lemma getOrAddBulk_refines_witness :
  exists d', getOrAddBulk_serial UInt8 [str_d; []; str_c] demo = (Ok [1; 255; 2], d') /\
    represents d' [str_b; str_d; str_c].
Proof.
  destruct (getOrAddBulk_refines demo [str_b; str_d] [str_d; []; str_c] UInt8 demo_represents) as (d' & E & R & _).
  exists d'. split; [exact E | exact R].
Defined.

Lemma parallel_bulk_equivalent_witness :
  fst (getOrAddBulkParallel Int32 [str_a; str_a; str_b] demo)
  = fst (getOrAddBulk_serial Int32 [str_a; str_a; str_b] demo).
Proof.
  exact (proj1 (parallel_bulk_equivalent demo [str_b; str_d] [str_a; str_a;
    str_b] Int32 demo_represents ltac:(discriminate))).
Defined.

(** A comparison, then an addition. *)
Definition compared : StringDictionary := after (exec (DGetCompare str_b OpLe 1)) (after (exec (DGetOrAdd str_a)) fresh).

Lemma dictionary_invariant_witness :
  exists strs, represents (after (exec (DGetOrAdd str_b)) compared) strs /\
    caches_ok (after (exec (DGetOrAdd str_b)) compared) strs /\
    (true = true -> caches_exact (after (exec (DGetOrAdd str_b)) compared) strs).
Proof.
  apply (dictionary_invariant true (1, 1) true 1 0 fresh); [lia | reflexivity |].
  apply steps_one with compared; [apply steps_one with (after (exec (DGetOrAdd str_a)) fresh);
    [apply steps_one with fresh; [apply steps_refl|]|]|]; (apply step_after; [| |vm_compute; reflexivity]);
    try exact I; cbn; lia.
Defined.

Lemma string_ids_stable_witness :
  getString (after (exec (DGetOrAdd str_a)) demo) 1 = Ok str_d /\
  getIdOfString (after (exec (DGetOrAdd str_a)) demo) str_d = Ok 1.
Proof.
  apply (string_ids_stable demo _ [str_b; str_d] 1 str_d demo_alive); [|vm_compute; reflexivity].
  apply steps_one with demo; [apply steps_refl|].
  apply step_after; [exact I | exact I | vm_compute; reflexivity].
Defined.

Lemma recover_round_trip_witness :
  exists d', recover_dictionary (2, 3) false 16 (storage_ demo) = Ok d' /\
    forall str id, getIdOfString d' str = getIdOfString demo str /\ getString d' id = getString demo id.
Proof.
  apply (recover_round_trip demo [str_b; str_d]);
    [exact demo_represents | reflexivity | vm_compute; reflexivity | reflexivity | lia].
Defined.

Lemma getLike_exact_witness :
  exists ids d' g, getLike [37] false false 92 2 demo = (Ok ids, d') /\
    represents d' [str_b; str_d] /\ scan_caches_ok d' [str_b; str_d] /\ NoDup ids /\
    (forall id, id ∈ ids <-> exists i str, id = Z.of_nat i /\ [str_b; str_d] !! i = Some str /\ id < g /\
       is_like str [37] false false 92 = true) /\
    (like_cache_ demo !! ([37], false, false, 92) = None -> g = 2).
Proof.
  exact (getLike_exact demo [str_b; str_d] [37] false false 92 2 demo_represents (ca_scans _ _ (al_caches _ _ demo_alive))
           ltac:(vm_compute; split; discriminate)).
Defined.

Lemma getCompare_exact_witness :
  exists ids d', getCompare str_d OpLt 2 demo = (Ok ids, d') /\
    represents d' [str_b; str_d] /\ sorted_ok d' /\ compare_ok d' [str_b; str_d] /\ NoDup ids /\
    forall id, id ∈ ids <-> exists i str, id = Z.of_nat i /\ [str_b; str_d] !! i = Some str /\
      op_holds OpLt str str_d = true.
Proof.
  apply (getCompare_exact demo [str_b; str_d] str_d OpLt 2 demo_represents).
  - intros x [->|[->|[]%not_elem_of_nil]%elem_of_cons]%elem_of_cons; apply str_clean; unfold is_char; lia.
  - apply str_clean; unfold is_char; lia.
  - apply demo_sorted.
  - apply demo_sorted.
  - right. split; [auto | left; set_solver].
Defined.

Lemma getBulk_exact_witness :
  exists count, getBulk demo UInt8 [str_d; str_a] 2 [(0%nat, (0%nat, 2%nat))] = Ok ([1; 255], count) /\
    (NoDup [0%nat] -> count = 1).
Proof.
  apply (getBulk_exact demo [str_b; str_d] [str_d; str_a] UInt8 2 [(0%nat, (0%nat, 2%nat))] demo_represents).
  - intros x [->|[->|[]%not_elem_of_nil]%elem_of_cons]%elem_of_cons; vm_compute; discriminate.
  - lia.
  - split; [reflexivity|]. intros t f l [= -> -> ->]%list_elem_of_singleton. vm_compute. lia.
Defined.

(** A second dictionary, with the string [d]. *)
Definition other : StringDictionary :=
  after (getOrAddBulk_serial Int32 [str_d]) (blank_dictionary (1, 2) false (2 ^ 4) 0).

Lemma other_represents : represents other [str_d].
Proof.
  destruct (getOrAddBulk_serial_spec (blank_dictionary (1, 2) false (2 ^ 4) 0) [] Int32 [str_d]
              (al_represents _ _ (blank_alive (1, 2) false 4 0 ltac:(lia)))) as (d' & E & R & _).
  assert (Ea : add_strings Int32 [] [str_d] = (Ok [0], [str_d])) by (vm_compute; reflexivity).
  rewrite Ea in *. cbn [fst snd] in *. unfold other, after. now rewrite E.
Qed.

Definition no_transients : StringLookupCallback := fun _ i ids => (true, <[Z.to_nat i := -1]> ids).

Lemma translation_map_exact_witness :
  exists translated, buildDictionaryTranslationMap demo other [0; 0] 2 1 true no_transients [(0%nat, (0%nat, 2%nat))]
    = Ok (translated, count_untranslated [str_d] 1 true (fun _ => -1) [str_b; str_d]) /\
    forall i str, (i < 2)%nat -> [str_b; str_d] !! i = Some str ->
      translated !! i = Some (if found_id [str_d] 1 str =? INVALID_STR_ID then -1 else find_id [str_d] str).
Proof.
  apply (translation_map_exact demo other [str_b; str_d] [str_d] [0; 0] 2 1 no_transients (fun _ => -1)
           [(0%nat, (0%nat, 2%nat))] demo_represents other_represents).
  - vm_compute. discriminate.
  - intros str i ids. unfold no_transients. now rewrite Nat2Z.id.
  - vm_compute. split; [reflexivity | discriminate].
  - vm_compute. split; [reflexivity | discriminate].
  - reflexivity.
  - split; [reflexivity|]. intros t f l [= -> -> ->]%list_elem_of_singleton. vm_compute. lia.
Defined.

(** * Edges of the string dictionary

    Inputs on which the code does something else than its comments or its callers expect. *)

#[local] Instance edge_env : DictEnv := {|
  SYSTEM_PAGE_SIZE := 4096;
  g_enable_stringdict_parallel := true;
  hardware_concurrency := 2;
  g_cpu_threads_override := 1;
  regexp_like := fun _ _ _ => false
|}.

(** A dictionary with the given strings. *)
Definition dict_of (strs : list (list Z)) : StringDictionary :=
  snd (getOrAddBulk_serial Int32 strs (blank_dictionary (1, 1) true 16 0)).

Definition run2 {A B : Type} (c1 : DM A) (c2 : DM B) (d : StringDictionary) : result DictError B :=
  fst (bind c1 (fun _ => c2) d).

(** In an empty dictionary the id 0 of a string in memory is taken for one in storage, so a
    repeated first string is added twice; the serial loop adds it once. *)
Example parallel_adds_twice :
  fst (getOrAddBulkParallel Int32 [[97]; [97]] (blank_dictionary (1, 1) true 16 0)) = Ok [0; 1] /\
  fst (getOrAddBulk_serial Int32 [[97]; [97]] (blank_dictionary (1, 1) true 16 0)) = Ok [0; 0].
Proof. split; vm_compute; reflexivity. Qed.

(** With [a] and [c] in the dictionary, [< b] misses [a], and [> b] and [>= b] include it. *)
Example compare_between :
  fst (getCompare [98] OpLt 2 (dict_of [[97]; [99]])) = Ok [] /\
  fst (getCompare [98] OpGt 2 (dict_of [[97]; [99]])) = Ok [0; 1] /\
  fst (getCompare [98] OpGe 2 (dict_of [[97]; [99]])) = Ok [0; 1] /\
  fst (getCompare [98] OpLe 2 (dict_of [[97]; [99]])) = Ok [0].
Proof. repeat split; vm_compute; reflexivity. Qed.

(** [<> b], when the sorted cache is up to date, returns all the ids as often as there are
    strings. *)
Example compare_ne_repeats :
  run2 (getCompare [98] OpLe 2) (getCompare [98] OpNe 2) (dict_of [[97]; [99]]) = Ok [0; 1; 0; 1].
Proof. vm_compute. reflexivity. Qed.

(** [<> a], when it is not, includes the id of [a] itself and an id that no string has. *)
Example equals_ne_wrong : fst (getCompare [97] OpNe 2 (dict_of [[97]; [99]])) = Ok [0; 1; 2].
Proof. vm_compute. reflexivity. Qed.

(** The cache of LIKE results does not know the generation they are for. *)
Example like_cache_generation :
  run2 (getLike [37] false false 92 1) (getLike [37] false false 92 2) (dict_of [[97]; [99]]) = Ok [0] /\
  fst (getLike [37] false false 92 2 (dict_of [[97]; [99]])) = Ok [0; 1].
Proof. split; vm_compute; reflexivity. Qed.

(** A copy of the strings is kept for good. *)
Example copy_not_refreshed :
  run2 (bind copyStrings (fun _ => getOrAdd [98])) copyStrings (dict_of [[97]]) = Ok [[97]].
Proof. vm_compute. reflexivity. Qed.

(** A table of one slot passes the check for a power of two, and the lookup of a second string
    goes around it for ever. *)
Example capacity_one_loops :
  run2 (getOrAdd [97]) (getOrAdd [98]) (blank_dictionary (1, 1) true 1 0) = Err DLoop.
Proof. vm_compute. reflexivity. Qed.

(** A thread that runs two pieces keeps the count of the last one. *)
Example bulk_count_lost :
  getBulk (dict_of [[97]]) Int32 [[98]; [97]] 1 [(0%nat, (0%nat, 1%nat)); (0%nat, (1%nat, 2%nat))] = Ok ([-1; 0], 0) /\
  getBulk (dict_of [[97]]) Int32 [[98]; [97]] 1 [(0%nat, (0%nat, 2%nat))] = Ok ([-1; 0], 1).
Proof. split; vm_compute; reflexivity. Qed.

(** Without transient strings, a string that the destination got after its generation counts
    as untranslated, and has its id in the map all the same. *)
Example translated_beyond_generation :
  buildDictionaryTranslationMap (snd (getOrAddBulk_serial Int32 [[98]] (blank_dictionary (1, 2) true 16 0)))
    (dict_of [[97]; [98]]) [0] 1 1 false (fun _ _ ids => (false, ids)) [(0%nat, (0%nat, 1%nat))]
  = Ok ([1], 1).
Proof. vm_compute. reflexivity. Qed.

(** 254 strings, so that ids of one byte run out at the second new one. *)
Definition nearly_full : StringDictionary :=
  dict_of (map (fun i => [65 + Z.of_nat i / 20; 65 + Z.of_nat i mod 20]) (seq 0 254)).

(** After an error, the parallel addition has left in the table an id without a string: the same
    addition again reads [string_memory_ids] out of its range; the serial one gives the error
    again. *)
Example parallel_failure_repeated :
  fst (getOrAddBulkParallel UInt8 [[97]; [98]] nearly_full) = Err DEncoding /\
  fst (getOrAddBulkParallel UInt8 [[97]; [98]] (snd (getOrAddBulkParallel UInt8 [[97]; [98]] nearly_full)))
  = Err DUndefined /\
  fst (getOrAddBulk_serial UInt8 [[97]; [98]] (snd (getOrAddBulk_serial UInt8 [[97]; [98]] nearly_full)))
  = Err DEncoding.
Proof. repeat split; vm_compute; reflexivity. Qed.

(** A serial addition that fails does not empty the caches: the position cached for [<= zz] stays
    that of a sorted cache without the string [a] that was added, and the answer misses an id. *)
Example compare_stale_after_failure :
  let d := snd (getOrAddBulk_serial UInt8 [[97]; [98]] (snd (getCompare [122; 122] OpLe 254 nearly_full))) in
  str_count_ d = 255 /\
  (exists ids, fst (getCompare [122; 122] OpLe 255 d) = Ok ids /\ length ids = 254%nat) /\
  (exists ids, fst (getCompare [122; 122] OpLe 255 (invalidateInvertedIndex d)) = Ok ids /\ length ids = 255%nat).
Proof. cbv zeta. split; [vm_compute; reflexivity|]. split; eexists; split; vm_compute; reflexivity. Qed.
