(* ===== verification/DictColumns.v ===== *)
(** * Columns of dictionary ids ([ArrowStorage/ArrowStorageUtils.cpp])

    The import of a column of strings adds them to the dictionary of the column and stores their ids, in one, two or four
    bytes; a column that Arrow has encoded already has its own strings added and its indices mapped.  A row whose id
    fits is read back as its string. *)

From Stdlib Require Import ZArith Lia List Bool.
From stdpp Require Import base list numbers sets gmap.
From S2P Require Import Prelude StateMonad StringLike DictStorage StringDictionary DictFacts DictOps.
From S2P Require Import DictQueries DictQueryFacts DictParallel DictBulkFacts DictProps.
Import ListNotations.
Local Open Scope Z_scope.
Local Open Scope bm_scope.

Section Columns.
Context `{DictEnv}.

(** The greatest value of the unsigned type of the index; the ids of four bytes are not converted. *)
Definition index_max (T : IdType) : Z := match T with UInt8 => 255 | UInt16 => 65535 | Int32 => INT32_MAX end.

(** An id that does not fit, or of a null, is the invalid one. *)
Definition narrow_index (T : IdType) (raw : Z) : Z :=
  match T with
  | Int32 => raw
  | _ => if (index_max T <? raw) || (raw =? INT32_MIN) then to_id T INVALID_STR_ID else to_id T raw
  end.

(** The strings of all the chunks are added in one call; the view of a null is empty. *)
Definition createDictionaryEncodedColumn (T : IdType) (arr : list (list (list Z))) : DM (list (list Z)) :=
  let! ids := getOrAddBulk Int32 (concat arr) in
  ret [map (narrow_index T) ids].

(** [createDictionaryEncodedColumn] of a type of a size in bytes. *)
Definition createDictionaryEncodedColumn_of_size (size : Z) (arr : list (list (list Z))) : DM (list (list Z)) :=
  if size =? 4 then createDictionaryEncodedColumn Int32 arr
  else if size =? 2 then createDictionaryEncodedColumn UInt16 arr
  else if size =? 1 then createDictionaryEncodedColumn UInt8 arr
  else throw DCheck.

(** A chunk that Arrow has encoded: the strings, and an index per row, with whether the row is null. *)
Record DictionaryArray := mkDictionaryArray { dictionary : list (list Z); indices : list (nat * bool) }.

(** The rows are mapped by their indices, those of nulls too. *)
Fixpoint map_indices (mapping : list Z) (rows : list (nat * bool)) : result DictError (list Z) :=
  match rows with
  | [] => Ok []
  | (index, _) :: rows' =>
      match mapping !! index with
      | Some id => match map_indices mapping rows' with Ok ids => Ok (id :: ids) | Err e => Err e end
      | None => Err DCheck
      end
  end.

Fixpoint convertArrowDictionary (arr : list DictionaryArray) : DM (list (list Z)) :=
  match arr with
  | [] => ret []
  | chunk :: arr' =>
      let! indices_mapping := getOrAddBulk Int32 (dictionary chunk) in
      let! ids := query (fun _ => map_indices indices_mapping (indices chunk)) in
      let! converted_chunks := convertArrowDictionary arr' in
      ret (ids :: converted_chunks)
  end.
End Columns.

(** ** Rows *)

Section Rows.
Context `{DictEnvOk}.

(** The id of a string among the strings of a dictionary. *)
Definition id_of (strs : list (list Z)) (str : list Z) (id : Z) : Prop :=
  (str = [] /\ id = INT32_MIN) \/ (exists i, strs !! i = Some str /\ id = Z.of_nat i).

Lemma id_of_grows strs added str id : id_of strs str id -> id_of (strs ++ added) str id.
Proof.
  intros [?|(i & Hi & ->)]; [by left|]. right. exists i. split; [by apply lookup_app_l_Some | done].
Qed.

(** The ids that [add_strings] gives are those of the strings. *)
Lemma add_strings_ids inputs : forall strs ids strs',
  add_strings Int32 strs inputs = (Ok ids, strs') -> len strs' <= MAX_STRCOUNT ->
  Forall2 (id_of strs') inputs ids.
Proof.
  induction inputs as [|str rest IH]; intros strs ids strs' E Hm; cbn [add_strings] in E; [injection E as <- <-;
    constructor|].
  destruct (MAX_STRLEN <? len str); [done|]. do 2 (destruct (bool_decide _ && _); [done|]).
  destruct (add_string (inline_int_null_value Int32) strs str) as [id strs1] eqn:E1.
  pose proof (add_strings_grows Int32 rest strs1) as [added Ea].
  destruct (add_strings Int32 strs1 rest) as [[ids1|] strs2] eqn:E2; [|done]. injection E as <- <-. cbn in Ea.
  constructor; [|by eapply IH]. rewrite Ea. apply id_of_grows. unfold add_string in E1.
  assert (Hl : forall l : list (list Z), 0 <= len l) by (intros; apply len_nonneg).
  rewrite Ea, len_app in Hm. pose proof (Hl added). pose proof (Hl strs1). unfold MAX_STRCOUNT in Hm.
  destruct (decide (str = [])) as [Hs|Hs]; [injection E1 as <- <-; by left|]. right.
  destruct (position strs str) as [i|] eqn:Ep.
  - injection E1 as <- <-. apply position_Some in Ep as Hi. exists i. split; [done|].
    pose proof (lookup_lt_Some _ _ _ Hi). unfold len in *. cbn. apply s32_small. lia.
  - injection E1 as <- <-. exists (length strs). split; [by apply list_lookup_middle|]. unfold len in *. cbn.
    rewrite length_app in *. apply s32_small. cbn in *. lia.
Qed.
End Rows.

Section ReadBack.
Context `{DictEnvOk}.

(** The dictionary as its users see it: the parallel addition of the first strings is left out. *)
Definition bulk_ready (strs : list (list Z)) : Prop := g_enable_stringdict_parallel = false \/ strs <> [].

Lemma getOrAddBulk_spec d strs inputs ids strs' :
  represents d strs -> bulk_ready strs -> add_strings Int32 strs inputs = (Ok ids, strs') ->
  exists d', getOrAddBulk Int32 inputs d = (Ok ids, d') /\ represents d' strs'.
Proof.
  intros R Hr E. unfold getOrAddBulk. destruct g_enable_stringdict_parallel eqn:Eg.
  - destruct Hr as [?|Hne]; [congruence|]. pose proof (getOrAddBulkParallel_spec Int32 inputs d strs R Hne) as P.
    cbn zeta in P. rewrite E in P. cbn [fst snd] in P. destruct P as (d' & E' & R' & _). by exists d'.
  - destruct (getOrAddBulk_serial_spec d strs Int32 inputs R) as (d' & E' & R' & _). rewrite E in *. by exists d'.
Qed.

(** What a row of the column has for its string: the null value for an empty one, and for one whose id is not below the
    greatest value of the type of the index, which is the null value too; the id for any other. *)
Definition stored_id (T : IdType) (strs : list (list Z)) (str : list Z) (id : Z) : Prop :=
  (str = [] /\ id = inline_int_null_value T) \/
  (exists i, strs !! i = Some str /\ id = if Z.of_nat i <? index_max T then Z.of_nat i else inline_int_null_value T).

Lemma narrow_stored T d strs str id :
  represents d strs -> id_of strs str id -> stored_id T strs str (narrow_index T id).
Proof.
  intros R [[-> ->]|(i & Hi & ->)]; [left; split; [done | by destruct T]|]. right. exists i. split; [done|].
  pose proof (lookup_lt_Some _ _ _ Hi) as Hl. pose proof (rp_max _ _ R) as Hm. unfold len, MAX_STRCOUNT in Hm.
  assert (Hn : Z.of_nat i =? INT32_MIN = false) by (apply Z.eqb_neq; unfold INT32_MIN; lia).
  destruct T; cbn [narrow_index index_max inline_int_null_value to_id]; rewrite ?Hn, ?orb_false_r.
  - destruct (Z.ltb_spec 255 (Z.of_nat i)), (Z.ltb_spec (Z.of_nat i) 255); rewrite ?(u8_small (Z.of_nat i)) by lia;
      reflexivity || lia.
  - destruct (Z.ltb_spec 65535 (Z.of_nat i)), (Z.ltb_spec (Z.of_nat i) 65535); rewrite ?(u16_small (Z.of_nat i)) by lia;
      reflexivity || lia.
  - destruct (Z.ltb_spec (Z.of_nat i) INT32_MAX); [done | unfold INT32_MAX in *; lia].
Qed.

Lemma stored_id_read T d strs str id i :
  represents d strs -> stored_id T strs str id -> strs !! i = Some str -> Z.of_nat i < index_max T ->
  id = Z.of_nat i /\ getString d id = Ok str.
Proof.
  intros R Hs Hi Hlt. assert (Hne : str <> []).
  { intros ->. apply (rp_nonempty _ _ R). by apply list_elem_of_lookup_2 in Hi. }
  destruct Hs as [[? _]|(j & Hj & ->)]; [done|].
  assert (j = i) as -> by (eapply NoDup_lookup; [apply (ho_nodup _ _ (rp_holds _ _ R)) | done | done]).
  rewrite (proj2 (Z.ltb_lt _ _) Hlt). split; [done | by apply (getString_spec d strs)].
Qed.

(** [C27] The import of strings, when the dictionary takes them all (none is too long, and it does not run full; with
    parallel additions it has a string already).  The dictionary keeps its strings under their ids and the new ones
    follow; every row of the column has exactly what [stored_id] says: the null value for an empty string or null, and for
    a string whose id is not below the greatest value of the index type, else the id of its string.  So every row whose id
    fits is read back as its string, whatever the other rows are. *)
Theorem strings_column_read_back T arr d strs ids strs' :
  represents d strs -> bulk_ready strs -> add_strings Int32 strs (concat arr) = (Ok ids, strs') ->
  exists d' col, createDictionaryEncodedColumn T arr d = (Ok [col], d') /\ represents d' strs' /\
    (exists added, strs' = strs ++ added) /\
    Forall2 (stored_id T strs') (concat arr) col /\
    forall j str i, concat arr !! j = Some str -> strs' !! i = Some str -> Z.of_nat i < index_max T ->
      col !! j = Some (Z.of_nat i) /\ getString d' (Z.of_nat i) = Ok str.
Proof.
  intros R Hr E. destruct (getOrAddBulk_spec d strs (concat arr) ids strs' R Hr E) as (d' & E' & R').
  exists d', (map (narrow_index T) ids). split; [unfold createDictionaryEncodedColumn; by rewrite (bind_ok _ _ _ _ _ E')|].
  split; [done|]. split; [pose proof (add_strings_grows Int32 (concat arr) strs) as G; by rewrite E in G|].
  pose proof (add_strings_ids (concat arr) strs ids strs' E (rp_max _ _ R')) as Hids.
  assert (Hst : Forall2 (stored_id T strs') (concat arr) (map (narrow_index T) ids)).
  { change (map (narrow_index T) ids) with (narrow_index T <$> ids). apply Forall2_fmap_r.
    eapply Forall2_impl; [exact Hids|]. intros str id Hid. by apply (narrow_stored T d' strs'). }
  split; [done|]. intros j str i Hj Hi Hlt. destruct (Forall2_lookup_l _ _ _ _ _ Hst Hj) as (id & Hid & Hs).
  destruct (stored_id_read T d' strs' str id i R' Hs Hi Hlt) as [-> G]. by split.
Qed.

(** A chunk that Arrow has encoded: the row that is not null is read back as the string of its index. *)
Lemma map_indices_spec mapping rows :
  (forall index null, In (index, null) rows -> (index < length mapping)%nat) ->
  exists ids, map_indices mapping rows = Ok ids /\
    Forall2 (fun row id => mapping !! fst row = Some id) rows ids.
Proof.
  induction rows as [|[index null] rows IH]; intros Hr; [exists []; split; [done | constructor]|].
  destruct IH as (ids & E & Hids); [intros i n Hi; eapply Hr; by right|]. cbn [map_indices].
  destruct (lookup_lt_is_Some_2 mapping index) as [id Hid]; [eapply Hr; by left|].
  rewrite Hid, E. exists (id :: ids). split; [done | by constructor].
Qed.

Lemma encoded_chunk_read_back chunk d strs ids strs' :
  represents d strs -> bulk_ready strs -> add_strings Int32 strs (dictionary chunk) = (Ok ids, strs') ->
  (forall index null, In (index, null) (indices chunk) -> (index < length (dictionary chunk))%nat) ->
  exists d' col, convertArrowDictionary [chunk] d = (Ok [col], d') /\ represents d' strs' /\
    forall j index null str, indices chunk !! j = Some (index, null) -> dictionary chunk !! index = Some str -> str <> [] ->
      exists id, col !! j = Some id /\ getString d' id = Ok str.
Proof.
  intros R Hr E Hin. destruct (getOrAddBulk_spec d strs _ ids strs' R Hr E) as (d' & E' & R').
  pose proof (add_strings_ids _ strs ids strs' E (rp_max _ _ R')) as Hids.
  pose proof (Forall2_length _ _ _ Hids) as Hl.
  destruct (map_indices_spec ids (indices chunk)) as (col & Ec & Hcol); [intros i n Hi; rewrite <- Hl; by eapply Hin|].
  exists d', col. split.
  - cbn [convertArrowDictionary]. rewrite (bind_ok _ _ _ _ _ E'). unfold query, bind. cbn. by rewrite Ec.
  - split; [done|]. intros j index null str Hj Hs Hne.
    destruct (Forall2_lookup_l _ _ _ _ _ Hcol Hj) as (id & Hid & Hm). cbn [fst] in Hm. exists id. split; [done|].
    destruct (Forall2_lookup_lr _ _ _ _ _ _ Hids Hs Hm) as [[? _]|(i & Hi & ->)]; [done|].
    by apply (getString_spec d' strs').
Qed.
End ReadBack.

(** ** Examples *)

Module ColumnExample.
#[local] Existing Instances demo_env demo_env_ok.

(** Two chunks of strings, one null, on a dictionary of two strings. *)
Definition words : list (list (list Z)) := [[str_d; []]; [str_c]].

Lemma words_added : add_strings Int32 [str_b; str_d] (concat words) = (Ok [1; INT32_MIN; 2], [str_b; str_d; str_c]).
Proof. vm_compute. reflexivity. Qed.

Lemma strings_column_read_back_witness :
  exists d' col, createDictionaryEncodedColumn UInt8 words demo = (Ok [col], d') /\
    col !! 2%nat = Some 2 /\ getString d' 2 = Ok str_c.
Proof.
  destruct (strings_column_read_back UInt8 words demo [str_b; str_d] [1; INT32_MIN; 2] [str_b; str_d; str_c]
              demo_represents ltac:(by left) words_added) as (d' & col & E & _ & _ & _ & Hread).
  exists d', col. split; [exact E|]. apply (Hread 2%nat str_c 2%nat); [reflexivity | reflexivity | vm_compute; reflexivity].
Defined.

(** The string with the greatest id that fits in one byte is stored as the null value. *)
Lemma greatest_index_is_null : narrow_index UInt8 255 = inline_int_null_value UInt8 /\ narrow_index UInt8 254 = 254.
Proof. split; reflexivity. Qed.

(** A null row of a chunk that Arrow has encoded is taken for the string of its index. *)
Lemma encoded_null_lost :
  fst (convertArrowDictionary [mkDictionaryArray [str_b] [(0%nat, true)]] demo) = Ok [[0]].
Proof. vm_compute. reflexivity. Qed.
End ColumnExample.
