(* ===== verification/StringDictionaryProxy.v ===== *)
(** * The string dictionary proxy ([StringDictionary/StringDictionaryProxy.cpp])

    A query sees a dictionary through a proxy: the strings that the dictionary had at the
    generation of the proxy, and transient strings of the query, which are kept in the proxy
    under the ids -2, -3, ...  The proxy and its dictionary are separate objects, so the
    functions take both; what changes is the state of the monad.  [client_] of a dictionary is
    null, so [transientUnion] uses [StringLocalCallback]. *)

From Stdlib Require Import ZArith Lia List Bool.
From stdpp Require Import base list numbers gmap.
From S2P Require Import Prelude StateMonad StringLike DictStorage StringDictionary DictQueries.
Import ListNotations.
Local Open Scope Z_scope.
Local Open Scope bm_scope.

(** ** State

    [transient_string_vec_] holds pointers to the keys of [transient_str_to_int_]; nothing is
    ever taken out of the map, so they are modelled by the strings. *)

Record StringDictionaryProxy := mkProxy {
  string_dict_id_ : Z;
  transient_str_to_int_ : gmap (list Z) Z;
  transient_string_vec_ : list (list Z);
  generation_ : Z
}.

Definition new_proxy (string_dict_id generation : Z) : StringDictionaryProxy :=
  mkProxy string_dict_id ∅ [] generation.

Definition set_transients (m : gmap (list Z) Z) (v : list (list Z)) (p : StringDictionaryProxy)
    : StringDictionaryProxy := mkProxy (string_dict_id_ p) m v (generation_ p).
Definition set_generation (g : Z) (p : StringDictionaryProxy) : StringDictionaryProxy :=
  mkProxy (string_dict_id_ p) (transient_str_to_int_ p) (transient_string_vec_ p) g.

Abbreviation PM := (ST DictError StringDictionaryProxy).

Definition from_result {A : Type} (r : result DictError A) : PM A := fun p => (r, p).

(** ** Ids *)

Definition transientIndexToId (index : Z) : Z := s32 (u32 (-2 - index)).

Definition truncate_to_generation (id generation : Z) : result DictError Z :=
  if id =? INVALID_STR_ID then Ok id
  else if 0 <=? id then Ok (if u64 generation <=? id then INVALID_STR_ID else id)
  else Err DCheck.

Definition getIdOfStringFromClient `{DictEnv} (d : StringDictionary) (p : StringDictionaryProxy)
    (str : list Z) : result DictError Z :=
  if 0 <=? generation_ p then
    match getIdOfString d str with
    | Ok id => truncate_to_generation id (generation_ p)
    | Err e => Err e
    end
  else Err DCheck.

Definition lookupTransientStringUnlocked (p : StringDictionaryProxy) (lookup_string : list Z) : Z :=
  match transient_str_to_int_ p !! lookup_string with
  | None => INVALID_STR_ID
  | Some id => id
  end.

(** The common end of [getIdOfString] and [getIdOfStringNoGeneration]. *)
Definition or_transient (p : StringDictionaryProxy) (str : list Z) (str_id : Z) : Z :=
  if negb (str_id =? INVALID_STR_ID) || bool_decide (transient_str_to_int_ p = ∅) then str_id
  else match transient_str_to_int_ p !! str with
       | Some id => id
       | None => INVALID_STR_ID
       end.

Definition Proxy_getIdOfString `{DictEnv} (d : StringDictionary) (p : StringDictionaryProxy)
    (str : list Z) : result DictError Z :=
  match getIdOfStringFromClient d p str with
  | Ok str_id => Ok (or_transient p str str_id)
  | Err e => Err e
  end.

Definition getIdOfStringNoGeneration `{DictEnv} (d : StringDictionary) (p : StringDictionaryProxy)
    (str : list Z) : result DictError Z :=
  match getIdOfString d str with
  | Ok str_id => Ok (or_transient p str str_id)
  | Err e => Err e
  end.

(** ** Sizes *)

Definition Proxy_storageEntryCount (d : StringDictionary) (p : StringDictionaryProxy)
    : result DictError Z :=
  let num_storage_entries :=
    if generation_ p =? -1 then storageEntryCount d else u64 (generation_ p) in
  if num_storage_entries <=? INT32_MAX then Ok num_storage_entries else Err DCheck.

Definition transientEntryCountUnlocked (p : StringDictionaryProxy) : result DictError Z :=
  let num_transient_entries := Z.of_nat (base.size (transient_str_to_int_ p)) in
  if num_transient_entries <=? INT32_MAX - 1 then Ok num_transient_entries else Err DCheck.

Definition entryCountUnlocked (d : StringDictionary) (p : StringDictionaryProxy)
    : result DictError Z :=
  (let* n := Proxy_storageEntryCount d p in
   let* m := transientEntryCountUnlocked p in
   Ok (u64 (n + m)))%hdk.

Definition updateGeneration (generation : Z) : PM unit :=
  if generation =? -1 then ret tt
  else
    let! old := gets generation_ in
    if negb (old =? -1) then
      if old =? generation then ret tt else throw DCheck
    else modify (set_generation generation).

(** [operator==]. *)
Definition Proxy_eq (lhs rhs : StringDictionaryProxy) : bool :=
  (string_dict_id_ lhs =? string_dict_id_ rhs)
  && bool_decide (transient_str_to_int_ lhs = transient_str_to_int_ rhs).

(** ** Strings *)

Definition transient_string (p : StringDictionaryProxy) (string_id : Z) : option (list Z) :=
  transient_string_vec_ p !! Z.to_nat (transientIdToIndex string_id).

Definition Proxy_getStringUnlocked (d : StringDictionary) (p : StringDictionaryProxy)
    (string_id : Z) : result DictError (list Z) :=
  let transient :=
    match transient_string p string_id with
    | Some str => Ok str
    | None => Err DCheck
    end in
  if 0 <=? string_id then
    match Proxy_storageEntryCount d p with
    | Ok n => if 0 <? n then getString d string_id else transient
    | Err e => Err e
    end
  else transient.

Definition Proxy_getString (d : StringDictionary) (p : StringDictionaryProxy) (string_id : Z)
    : result DictError (list Z) :=
  if INT32_MIN =? string_id then Ok [] else Proxy_getStringUnlocked d p string_id.

(** A transient id out of range is read past the end of the vector. *)
Fixpoint Proxy_getStrings (d : StringDictionary) (p : StringDictionaryProxy) (string_ids : list Z)
    : result DictError (list (list Z)) :=
  match string_ids with
  | [] => Ok []
  | string_id :: rest =>
      let str :=
        if 0 <=? string_id then getString d string_id
        else if INT32_MIN =? string_id then Ok []
        else match transient_string p string_id with
             | Some str => Ok str
             | None => Err DUndefined
             end in
      (let* str := str in
       let* strings := Proxy_getStrings d p rest in
       Ok (str :: strings))%hdk
  end.

Definition Proxy_getStringBytes (d : StringDictionary) (p : StringDictionaryProxy) (string_id : Z)
    : result DictError (list Z) :=
  if 0 <=? string_id then getStringBytes d string_id
  else match transient_string p string_id with
       | Some str => Ok str
       | None => Err DCheck
       end.

(** Transient strings first, then those of the dictionary. *)
Definition Proxy_eachStringSerially {A : Type} (d : StringDictionary) (p : StringDictionaryProxy)
    (serial_callback : list Z -> Z -> A -> A) (a : A) : result DictError A :=
  let a1 :=
    fold_left
      (fun a index => serial_callback (nth index (transient_string_vec_ p) [])
                        (transientIndexToId (Z.of_nat index)) a)
      (seq 0 (length (transient_string_vec_ p))) a in
  eachStringSerially d (generation_ p) serial_callback a1.

(** ** Adding transient strings *)

Definition getOrAddTransientUnlocked (str : list Z) : PM Z :=
  let! new_index := gets (fun p => u32 (Z.of_nat (base.size (transient_str_to_int_ p)))) in
  let transient_id := transientIndexToId new_index in
  let! found := gets (fun p => transient_str_to_int_ p !! str) in
  match found with
  | None =>
      do! modify (fun p => set_transients (<[str := transient_id]> (transient_str_to_int_ p))
                             (transient_string_vec_ p ++ [str]) p) in
      ret transient_id
  | Some id => ret id
  end.

Section Env.

Context `{DictEnv}.

Definition getOrAddTransient (d : StringDictionary) (str : list Z) : PM Z :=
  let! string_id := (fun p => (getIdOfStringFromClient d p str, p)) in
  if negb (string_id =? INVALID_STR_ID) then ret string_id
  else getOrAddTransientUnlocked str.

(** [getOrAdd] goes to the dictionary. *)
Definition Proxy_getOrAdd (str : list Z) : DM Z := getOrAdd str.

(** ** Bulk lookups *)

Fixpoint transientLookupBulkUnlocked (p : StringDictionaryProxy) (lookup_strings : list (list Z))
    (string_ids : list Z) : list Z * Z :=
  match lookup_strings, string_ids with
  | lookup_string :: lookup_strings', string_id :: string_ids' =>
      let '(ids, num_strings_not_found) :=
        transientLookupBulkUnlocked p lookup_strings' string_ids' in
      if negb (string_id =? INVALID_STR_ID) then (string_id :: ids, num_strings_not_found)
      else
        let id := lookupTransientStringUnlocked p lookup_string in
        (id :: ids, b2z (id =? INVALID_STR_ID) + num_strings_not_found)
  | _, _ => (string_ids, 0)
  end.

(** The body of the loop of [transientLookupBulkParallelUnlocked]. *)
Definition transient_lookup_body (p : StringDictionaryProxy) (lookup_strings : list (list Z))
    (string_idx : nat) (string_ids : list Z) : result DictError (list Z * Z) :=
  if negb (nth string_idx string_ids 0 =? INVALID_STR_ID) then Ok (string_ids, 0)
  else
    let id := lookupTransientStringUnlocked p (nth string_idx lookup_strings []) in
    Ok (<[string_idx := id]> string_ids, b2z (id =? INVALID_STR_ID)).

Definition transientLookupBulkParallelUnlocked (p : StringDictionaryProxy)
    (lookup_strings : list (list Z)) (string_ids : list Z) (schedule : Schedule)
    : result DictError (list Z * Z) :=
  let thread_info := make_ThreadInfo hardware_concurrency (len lookup_strings) 20000 in
  if negb ((1 <=? num_threads thread_info) && (1 <=? num_elems_per_thread thread_info))
  then Err DCheck
  else
    match run_schedule (transient_lookup_body p lookup_strings) (fun _ k => k) schedule string_ids
            (replicate (Z.to_nat (num_threads thread_info)) 0) with
    | Err e => Err e
    | Ok (string_ids, counts) => Ok (string_ids, sum_counts counts)
    end.

Definition transientLookupBulk (p : StringDictionaryProxy) (lookup_strings : list (list Z))
    (string_ids : list Z) (schedule : Schedule) : result DictError (list Z * Z) :=
  if (len lookup_strings =? 0) || bool_decide (transient_str_to_int_ p = ∅)
  then Ok (string_ids, 0)
  else if len lookup_strings <? 20000
  then Ok (transientLookupBulkUnlocked p lookup_strings string_ids)
  else transientLookupBulkParallelUnlocked p lookup_strings string_ids schedule.

(** The schedules are those of [getBulk] and of the transient lookups. *)
Definition getTransientBulkImpl (d : StringDictionary) (p : StringDictionaryProxy)
    (strings : list (list Z)) (bulk_schedule lookup_schedule : Schedule)
    : result DictError (list Z * Z) :=
  if len strings =? 0 then Ok ([], 0)
  else
    match getBulk d Int32 strings (generation_ p) bulk_schedule with
    | Err e => Err e
    | Ok (string_ids, not_found) =>
        if not_found =? 0 then Ok (string_ids, 0)
        else transientLookupBulk p strings string_ids lookup_schedule
    end.

Definition getTransientBulk (d : StringDictionary) (p : StringDictionaryProxy)
    (strings : list (list Z)) (bulk_schedule lookup_schedule : Schedule)
    : result DictError (list Z) :=
  if 0 <=? generation_ p then
    match getTransientBulkImpl d p strings bulk_schedule lookup_schedule with
    | Ok (string_ids, _) => Ok string_ids
    | Err e => Err e
    end
  else Err DCheck.

(** The loop of [getOrAddTransientBulk]. *)
Fixpoint add_missing (strings : list (list Z)) (string_ids : list Z) : PM (list Z) :=
  match strings, string_ids with
  | str :: strings', string_id :: string_ids' =>
      let! id := (if string_id =? INVALID_STR_ID then getOrAddTransientUnlocked str
                  else ret string_id) in
      let! ids := add_missing strings' string_ids' in
      ret (id :: ids)
  | _, _ => ret string_ids
  end.

Definition getOrAddTransientBulk (d : StringDictionary) (strings : list (list Z))
    (schedule : Schedule) : PM (list Z) :=
  let! generation := gets generation_ in
  if negb (0 <=? generation) then throw DCheck
  else if len strings =? 0 then ret []
  else
    let! '(string_ids, num_strings_not_found) :=
      from_result (getBulk d Int32 strings generation schedule) in
    if 0 <? num_strings_not_found then add_missing strings string_ids else ret string_ids.

(** ** Maps of ids *)

Record IdMap := mkIdMap {
  offset_ : Z;
  vector_map_ : list Z;
  num_untranslated_strings_ : Z
}.

Definition IdMap_new (tran_size dict_size : Z) : IdMap :=
  let offset := u32 (tran_size + 1) in
  mkIdMap offset (replicate (Z.to_nat (offset + dict_size)) INVALID_STR_ID) (-1).

Definition IdMap_empty (m : IdMap) : bool := len (vector_map_ m) =? 1.
Definition getIndex (m : IdMap) (id : Z) : Z := u64 (offset_ m + id).
Definition numTransients (m : IdMap) : Z := u64 (offset_ m - 1).
Definition numNonTransients (m : IdMap) : Z := u64 (len (vector_map_ m) - offset_ m).
Definition domainStart (m : IdMap) : Z := s32 (- s32 (offset_ m)).
Definition domainEnd (m : IdMap) : Z := s32 (numNonTransients m).
Definition numUntranslatedStrings (m : IdMap) : result DictError Z :=
  if 0 <=? num_untranslated_strings_ m then Ok (num_untranslated_strings_ m) else Err DCheck.
Definition set_vector_map (v : list Z) (m : IdMap) : IdMap :=
  mkIdMap (offset_ m) v (num_untranslated_strings_ m).
Definition setNumUntranslatedStrings (n : Z) (m : IdMap) : IdMap :=
  mkIdMap (offset_ m) (vector_map_ m) n.

(** [operator[]], out of range undefined. *)
Definition id_at (m : IdMap) (id : Z) : result DictError Z := load_at (getIndex m id) (vector_map_ m).
Definition set_id_at (m : IdMap) (id v : Z) : result DictError IdMap :=
  match store_at (getIndex m id) v (vector_map_ m) with
  | Ok l => Ok (set_vector_map l m)
  | Err e => Err e
  end.

Definition initIdMap (p : StringDictionaryProxy) : IdMap :=
  IdMap_new (u32 (len (transient_string_vec_ p))) (u32 (generation_ p)).

(** ** Translation to another proxy *)

(** [dest_transient_lookup_callback]: it writes the id among the transient strings of the
    destination. *)
Definition dest_transient_lookup_callback (dest_proxy : StringDictionaryProxy)
    : StringLookupCallback :=
  fun source_string source_string_id translated =>
    let id := lookupTransientStringUnlocked dest_proxy source_string in
    (id =? INVALID_STR_ID, <[Z.to_nat source_string_id := id]> translated).

(** The transient strings, into the front of the map, with the number of those not found. *)
Definition translate_transients (p : StringDictionaryProxy) (dest_dict : StringDictionary)
    (dest_proxy : StringDictionaryProxy) (bulk_schedule lookup_schedule : Schedule)
    (id_map : IdMap) : result DictError (IdMap * Z) :=
  if numTransients id_map =? 0 then Ok (id_map, 0)
  else
    let transient_lookup_strings := rev (transient_string_vec_ p) in
    match getTransientBulkImpl dest_dict dest_proxy transient_lookup_strings bulk_schedule
            lookup_schedule with
    | Err e => Err e
    | Ok (string_ids, n) =>
        Ok (set_vector_map (string_ids ++ drop (length string_ids) (vector_map_ id_map)) id_map, n)
    end.

(** The strings of the dictionary, behind them. *)
Definition translate_stored (d : StringDictionary) (p : StringDictionaryProxy)
    (dest_dict : StringDictionary) (dest_proxy : StringDictionaryProxy)
    (num_dest_transients : Z) (schedule : Schedule) (id_map : IdMap)
    : result DictError (IdMap * Z) :=
  if 0 <? generation_ p then
    match buildDictionaryTranslationMap d dest_dict
            (drop (Z.to_nat (offset_ id_map)) (vector_map_ id_map))
            (generation_ p) (generation_ dest_proxy) (0 <? num_dest_transients)
            (dest_transient_lookup_callback dest_proxy) schedule with
    | Err e => Err e
    | Ok (translated_ids, n) =>
        Ok (set_vector_map (take (Z.to_nat (offset_ id_map)) (vector_map_ id_map)
                              ++ translated_ids) id_map, n)
    end
  else Ok (id_map, 0).

Record TranslationSchedules := mkSchedules {
  bulk_schedule : Schedule;
  lookup_schedule : Schedule;
  map_schedule : Schedule
}.

Definition buildIntersectionTranslationMapToOtherProxyUnlocked (d : StringDictionary)
    (p : StringDictionaryProxy) (dest_dict : StringDictionary) (dest_proxy : StringDictionaryProxy)
    (schedules : TranslationSchedules) : result DictError IdMap :=
  let id_map := initIdMap p in
  if IdMap_empty id_map then Ok id_map
  else
    (let* '(id_map, num_transient_strings_not_translated) :=
       translate_transients p dest_dict dest_proxy (bulk_schedule schedules)
         (lookup_schedule schedules) id_map in
     let* num_dest_transients := transientEntryCountUnlocked dest_proxy in
     let* '(id_map, num_persisted_strings_not_translated) :=
       translate_stored d p dest_dict dest_proxy num_dest_transients (map_schedule schedules)
         id_map in
     let* _ := entryCountUnlocked dest_dict dest_proxy in
     let num_total_entries := u64 (len (vector_map_ id_map) - 1) in
     let num_strings_not_translated :=
       u64 (num_transient_strings_not_translated + num_persisted_strings_not_translated) in
     if (0 <? num_total_entries) && (num_strings_not_translated <=? num_total_entries)
     then Ok (setNumUntranslatedStrings num_strings_not_translated id_map)
     else Err DCheck)%hdk.

(** The mutexes taken by a translation, in order. *)
Inductive ProxyLock := SourceRead | DestWrite.
Definition order_translation_locks (source_dict_id dest_dict_id : Z) : list ProxyLock :=
  if source_dict_id =? dest_dict_id then [DestWrite]
  else if source_dict_id <? dest_dict_id then [SourceRead; DestWrite]
  else [DestWrite; SourceRead].

(** The two loops of [buildUnionTranslationMapToOtherProxy]: [fetch] gives the string of a
    source id; the state is the destination. *)
Fixpoint add_untranslated (fetch : Z -> result DictError (list Z)) (source_string_ids : list Z)
    (id_map : IdMap) : PM IdMap :=
  match source_string_ids with
  | [] => ret id_map
  | source_string_id :: rest =>
      let! cur := from_result (id_at id_map source_string_id) in
      if cur =? INVALID_STR_ID then
        let! source_string := from_result (fetch source_string_id) in
        let! dest_string_id := getOrAddTransientUnlocked source_string in
        let! id_map := from_result (set_id_at id_map source_string_id dest_string_id) in
        add_untranslated fetch rest id_map
      else add_untranslated fetch rest id_map
  end.

(** [for (id = first; id < last; ++id)]. *)
Definition id_range (first last : Z) : list Z :=
  map (fun i => first + Z.of_nat i) (seq 0 (Z.to_nat (last - first))).

Definition max_allowed_transients : Z := INT32_MAX - 2.

Definition buildUnionTranslationMapToOtherProxy (d : StringDictionary) (p : StringDictionaryProxy)
    (dest_dict : StringDictionary) (schedules : TranslationSchedules) : PM IdMap :=
  let! id_map := (fun dest_proxy =>
    (buildIntersectionTranslationMapToOtherProxyUnlocked d p dest_dict dest_proxy schedules,
     dest_proxy)) in
  if IdMap_empty id_map then ret id_map
  else
    let! num_untranslated_strings := from_result (numUntranslatedStrings id_map) in
    if 0 <? num_untranslated_strings then
      let! dest_transients := (fun dest_proxy => (transientEntryCountUnlocked dest_proxy, dest_proxy)) in
      if max_allowed_transients <? u64 (num_untranslated_strings + dest_transients)
      then throw DRuntime
      else
        let map_domain_start := domainStart id_map in
        let map_domain_end := domainEnd id_map in
        let! id_map := add_untranslated (Proxy_getStringUnlocked d p)
                         (id_range map_domain_start (-1)) id_map in
        add_untranslated (getString d) (id_range 0 map_domain_end) id_map
    else ret id_map.

(** ** Union *)

(** [StringLocalCallback::operator()]: the state is the proxy that takes the strings, with its
    dictionary [d], and the map. *)
Definition StringLocalCallback (d : StringDictionary) (sv : list Z) (old_id : Z)
    (state : result DictError (StringDictionaryProxy * IdMap))
    : result DictError (StringDictionaryProxy * IdMap) :=
  (let* '(p, id_map) := state in
   let* new_id := getUnlocked d sv in
   let '(r, p') :=
     (if new_id =? INVALID_STR_ID then getOrAddTransientUnlocked sv else ret new_id) p in
   let* id := r in
   let* id_map := set_id_at id_map old_id id in
   Ok (p', id_map))%hdk.

(** [transientUnion] of the proxy [p] on [d] with the strings of [rhs]. *)
Definition transientUnion (d : StringDictionary) (p : StringDictionaryProxy)
    (rhs_dict : StringDictionary) (rhs : StringDictionaryProxy)
    : result DictError (StringDictionaryProxy * IdMap) :=
  (let* r := Proxy_eachStringSerially rhs_dict rhs (StringLocalCallback d)
               (Ok (p, initIdMap rhs)) in r)%hdk.

(** ** Queries *)

(** The transient strings that satisfy [q]. *)
Definition transient_matches (p : StringDictionaryProxy) (q : list Z -> bool) : list Z :=
  omap (fun index => if q (nth index (transient_string_vec_ p) [])
                     then Some (transientIndexToId (Z.of_nat index)) else None)
    (seq 0 (length (transient_string_vec_ p))).

Definition Proxy_is_like (str pattern : list Z) (icase is_simple : bool) (escape : Z) : bool :=
  if icase then
    if is_simple then string_ilike_simple str pattern else string_ilike str pattern escape
  else
    if is_simple then string_like_simple str pattern else string_like str pattern escape.

Definition Proxy_getLike (p : StringDictionaryProxy) (pattern : list Z) (icase is_simple : bool)
    (escape : Z) : DM (list Z) :=
  if negb (0 <=? generation_ p) then throw DCheck
  else
    let! result := getLike pattern icase is_simple escape (generation_ p) in
    ret (result ++ transient_matches p (fun str => Proxy_is_like str pattern icase is_simple escape)).

(** [std::string::compare]: the bytes as unsigned numbers, then the lengths. *)
Fixpoint string_compare (a b : list Z) : Z :=
  match a, b with
  | [], [] => 0
  | [], _ :: _ => -1
  | _ :: _, [] => 1
  | x :: a', y :: b' =>
      if u8 x =? u8 y then string_compare a' b' else if u8 x <? u8 y then -1 else 1
  end.

(** The only failure is an unsupported operator. *)
Definition do_compare (str pattern : list Z) (comp_operator : CompOp) : option bool :=
  let res := string_compare str pattern in
  match comp_operator with
  | OpLt => Some (res <? 0)
  | OpLe => Some (res <=? 0)
  | OpEq => Some (res =? 0)
  | OpGt => Some (0 <? res)
  | OpGe => Some (0 <=? res)
  | OpNe => Some (negb (res =? 0))
  | OpOther => None
  end.

Definition Proxy_getCompare (p : StringDictionaryProxy) (pattern : list Z) (comp_operator : CompOp)
    : DM (list Z) :=
  if negb (0 <=? generation_ p) then throw DCheck
  else
    let! result := getCompare pattern comp_operator (generation_ p) in
    match comp_operator, transient_string_vec_ p with
    | OpOther, _ :: _ => throw DRuntime
    | _, _ => ret (result ++ transient_matches p (fun str =>
                match do_compare str pattern comp_operator with Some b => b | None => false end))
    end.

Definition Proxy_getRegexpLike (p : StringDictionaryProxy) (pattern : list Z) (escape : Z)
    : DM (list Z) :=
  if negb (0 <=? generation_ p) then throw DCheck
  else
    let! result := getRegexpLike pattern escape (generation_ p) in
    ret (result ++ transient_matches p (fun str => regexp_like str pattern escape)).

End Env.
