(* ===== verification/DictInterface.v ===== *)
(** * What a string dictionary promises to its clients

    The laws on which [StringDictionaryProxy] rests, as classes: a dictionary that holds the
    strings [strs] under their positions, and a pair of dictionaries whose ids can be
    translated.  The dictionaries of [DictFacts] satisfy them. *)

From Stdlib Require Import ZArith Lia List Bool.
From stdpp Require Import base list numbers sets gmap.
From S2P Require Import Prelude StateMonad StringLike DictStorage StringDictionary DictFacts DictOps.
From S2P Require Import DictQueries DictQueryFacts DictBulkFacts.
Import ListNotations.
Local Open Scope Z_scope.

(** ** The laws *)

(** The id of a string in a bulk lookup at a generation; nothing is looked up at generation
    0, where the empty string has no null id. *)
Definition bulk_id32 (strs : list (list Z)) (g : Z) (str : list Z) : Z :=
  if g =? 0 then INVALID_STR_ID else bulk_id Int32 strs g str.

(** The strings counted as not found. *)
Definition bulk_missing (strs : list (list Z)) (g : Z) (strings : list (list Z)) : Z :=
  len (filter (fun str => bulk_id32 strs g str = INVALID_STR_ID) strings).

Class DictionarySpec `{DictEnv} (d : StringDictionary) (strs : list (list Z)) : Prop := {
  ds_nodup : NoDup strs;
  ds_nonempty : [] ∉ strs;
  ds_max : len strs <= MAX_STRCOUNT;
  ds_count : storageEntryCount d = len strs;
  ds_lookup str : getUnlocked d str = Ok (find_id strs str);
  ds_string i str : strs !! i = Some str -> getString d (Z.of_nat i) = Ok str;
  ds_each (A : Type) g (callback : list Z -> Z -> A -> A) a : 0 <= g <= len strs ->
    eachStringSerially d g callback a
    = Ok (fold_left (fun a i => callback (nth i strs []) (Z.of_nat i) a) (seq 0 (Z.to_nat g)) a);
  ds_bulk strings g schedule :
    (forall str, str ∈ strings -> len str <= MAX_STRLEN) -> 0 <= g ->
    covers (length strings)
      (num_threads (make_ThreadInfo hardware_concurrency (len strings) 1000)) schedule ->
    exists count,
      getBulk d Int32 strings g schedule = Ok (map (bulk_id32 strs g) strings, count) /\
      (NoDup (map fst schedule) -> count = bulk_missing strs g strings)
}.

(** The id of a source string in the translation map: that of the dictionary below the
    generation, else what the callback finds. *)
Definition map_id (dstrs : list (list Z)) (dg : Z) (lookup : list Z -> Z) (str : list Z) : Z :=
  if dg =? 0 then INVALID_STR_ID
  else if found_id dstrs dg str =? INVALID_STR_ID then lookup str else found_id dstrs dg str.

Definition map_missing (dstrs : list (list Z)) (dg : Z) (lookup : list Z -> Z)
    (strings : list (list Z)) : Z :=
  len (filter (fun str => map_id dstrs dg lookup str = INVALID_STR_ID) strings).

Class TranslationSpec `{DictEnv} (source dest : StringDictionary) (sstrs dstrs : list (list Z))
    : Prop := {
  ts_map ids sg dg callback lookup schedule :
    looks_up callback lookup -> 0 < sg <= len sstrs -> 0 <= dg <= len dstrs -> len ids = sg ->
    covers (Z.to_nat sg) (num_threads (make_ThreadInfo hardware_concurrency sg 1000)) schedule ->
    buildDictionaryTranslationMap source dest ids sg dg true callback schedule
    = Ok (map (map_id dstrs dg lookup) (take (Z.to_nat sg) sstrs),
          map_missing dstrs dg lookup (take (Z.to_nat sg) sstrs))
}.

(** ** The dictionaries keep them *)

Existing Class represents.

Lemma find_id_bounds strs str : len strs <= MAX_STRCOUNT -> -1 <= find_id strs str < 2147483648.
Proof.
  intros Hm. unfold MAX_STRCOUNT in Hm.
  destruct (find_id_cases strs str) as [[-> _]|(i & -> & Hi)]; [unfold INVALID_STR_ID; lia|].
  apply lookup_lt_Some in Hi. unfold len in *. lia.
Qed.

Lemma found_id_cases strs g str :
  (found_id strs g str = INVALID_STR_ID) \/
  (found_id strs g str = find_id strs str /\ 0 <= find_id strs str < g).
Proof.
  unfold found_id. destruct (find_id_cases strs str) as [[-> _]|(i & -> & _)]; [now left|].
  unfold INVALID_STR_ID. destruct (Z.eqb_spec (Z.of_nat i) (-1)); [lia|]. cbn [orb].
  destruct (Z.leb_spec g (Z.of_nat i)); [now left|]. right. lia.
Qed.

Lemma fold_missing (P : list Z -> Prop) `{forall s, Decision (P s)} (f : list Z -> Z) l :
  (forall str, str ∈ l -> f str = b2z (bool_decide (P str))) ->
  fold_right (fun str n => f str + n) 0 l = len (filter P l).
Proof.
  induction l as [|x l IH]; intros Hf; [reflexivity|]. cbn [fold_right]. rewrite filter_cons.
  rewrite IH, (Hf x) by set_solver. destruct (decide (P x)) as [Hx|Hx].
  - rewrite bool_decide_eq_true_2 by exact Hx. unfold len. cbn. lia.
  - rewrite bool_decide_eq_false_2 by exact Hx. reflexivity.
Qed.

Lemma filter_always {A : Type} (P : A -> Prop) `{forall x, Decision (P x)} (l : list A) :
  (forall x, x ∈ l -> P x) -> filter P l = l.
Proof.
  induction l as [|x l IH]; intros Hp; [reflexivity|]. rewrite filter_cons.
  destruct (decide (P x)) as [_|N]; [f_equal; apply IH; set_solver | destruct N; apply Hp; set_solver].
Qed.

Section Instances.

Context `{DictEnvOk}.

Lemma represents_bulk d strs strings g schedule :
  represents d strs -> (forall str, str ∈ strings -> len str <= MAX_STRLEN) -> 0 <= g ->
  covers (length strings)
    (num_threads (make_ThreadInfo hardware_concurrency (len strings) 1000)) schedule ->
  exists count,
    getBulk d Int32 strings g schedule = Ok (map (bulk_id32 strs g) strings, count) /\
    (NoDup (map fst schedule) -> count = bulk_missing strs g strings).
Proof.
  intros R Hl Hg Hc. unfold bulk_missing, bulk_id32. destruct (Z.eqb_spec g 0) as [->|Hne].
  - exists (len strings). unfold getBulk. split.
    + destruct (Z.eqb_spec (len strings) 0) as [E|_]; [|reflexivity].
      destruct strings; [reflexivity | unfold len in E; cbn in E; lia].
    + intros _. now rewrite filter_always.
  - destruct (getBulk_spec d strs Int32 strings g schedule R Hl ltac:(lia) Hc) as (count & E & Hn).
    exists count. split; [exact E|]. intros Hd. rewrite (Hn Hd). unfold count_not_found.
    apply fold_missing. intros str Hin. unfold not_found. f_equal. apply bool_decide_ext.
    unfold bulk_id, to_id. pose proof (find_id_bounds strs str (rp_max _ _ R)).
    destruct (decide (str = [])) as [->|Hs]; [split; [tauto | discriminate]|].
    destruct (found_id_cases strs g str) as [-> | [-> Hf]]; [tauto|].
    rewrite s32_small by lia. tauto.
Qed.

#[export] Instance represents_spec d strs (R : represents d strs) : DictionarySpec d strs.
Proof.
  pose proof (rp_max _ _ R) as Hm. unfold MAX_STRCOUNT in Hm. split.
  - apply (ho_nodup _ _ (rp_holds _ _ R)).
  - apply (rp_nonempty _ _ R).
  - exact Hm.
  - apply (rp_count _ _ R).
  - intros str. now apply getUnlocked_spec.
  - intros i str. now apply getString_spec.
  - intros A g callback a Hg. unfold eachStringSerially. rewrite (rp_count _ _ R), u64_small by lia.
    rewrite Z.min_l by lia. destruct (Z.leb_spec g (INT32_MAX + 1)); [|unfold INT32_MAX in *; lia].
    f_equal. assert (Hs : forall i, i ∈ seq 0 (Z.to_nat g) -> (i < length strs)%nat)
      by (intros i Hi%elem_of_seq; unfold len in *; lia).
    revert a Hs. generalize (seq 0 (Z.to_nat g)). induction l as [|i l IH]; intros a Hs; [reflexivity|].
    cbn [fold_left]. destruct (lookup_lt_is_Some_2 strs i) as [str Hi]; [apply Hs; set_solver|].
    rewrite (read_fast _ strs i str (ho_storage _ _ (rp_holds _ _ R)) Hi).
    rewrite (nth_lookup_Some _ _ _ _ Hi). apply lookup_lt_Some in Hi.
    rewrite s32_small by (unfold len in *; lia). apply IH. set_solver.
  - intros. now apply represents_bulk.
Qed.

Lemma represents_translate source dest sstrs dstrs :
  represents source sstrs -> represents dest dstrs -> dict_ref_ source <> dict_ref_ dest ->
  TranslationSpec source dest sstrs dstrs.
Proof.
  intros Rs Rd Hne. split. intros ids sg dg callback lookup schedule Hcb Hsg Hdg Hids Hc.
  unfold map_missing, map_id. destruct (Z.eqb_spec dg 0) as [->|Hd].
  - unfold buildDictionaryTranslationMap.
    destruct (Z.leb_spec 0 sg); [|lia]. destruct (Z.eqb_spec sg 0); [lia|]. cbn [andb negb Z.leb Z.compare].
    rewrite bool_decide_eq_false_2 by exact Hne. rewrite (rp_count _ _ Rs), (rp_count _ _ Rd).
    destruct (Z.leb_spec sg (len sstrs)); [|lia]. destruct (Z.leb_spec 0 (len dstrs)); [|lia].
    cbn [andb negb Z.eqb]. rewrite drop_ge, app_nil_r by (unfold len in *; lia). f_equal.
    assert (Ht : length (take (Z.to_nat sg) sstrs) = Z.to_nat sg)
      by (rewrite length_take; unfold len in *; lia). f_equal.
    + rewrite <- Ht at 1. clear. induction (take _ _) as [|x l IH]; cbn; [reflexivity | now rewrite IH].
    + rewrite filter_always by auto. unfold len in *. lia.
  - rewrite (translation_spec source dest sstrs dstrs ids sg dg true callback lookup schedule);
      auto; [|lia]. unfold count_untranslated. f_equal. f_equal.
    + apply map_ext. intros str. unfold translated_id.
      destruct (found_id_cases dstrs dg str) as [-> | [-> Hf]]; [reflexivity|].
      destruct (_ =? _); reflexivity.
    + apply fold_missing. intros str _. unfold untranslated.
      destruct (found_id_cases dstrs dg str) as [-> | [-> Hf]]; [cbn [Z.eqb]|].
      * rewrite Z.eqb_refl. f_equal.
        destruct (Z.eqb_spec (lookup str) INVALID_STR_ID) as [->|N];
          [now rewrite bool_decide_eq_true_2 | now rewrite bool_decide_eq_false_2].
      * unfold INVALID_STR_ID. destruct (Z.eqb_spec (find_id dstrs str) (-1)); [lia|].
        now rewrite bool_decide_eq_false_2 by lia.
Qed.

End Instances.
