(* ===== verification/ProxyFacts.v ===== *)
(** * The proxy numbers its strings

    The invariant of a proxy, and what its operations do, against the laws of the dictionary
    under it ([DictInterface]). *)

From Stdlib Require Import ZArith Lia List Bool.
From stdpp Require Import base list numbers sets gmap.
From S2P Require Import Prelude StateMonad StringLike DictStorage StringDictionary DictFacts DictQueries DictBulkFacts.
From S2P Require Import StringDictionaryProxy DictInterface.
Import ListNotations.
Local Open Scope Z_scope.

#[local] Abbreviation vec := transient_string_vec_.

(** ** Ids of transient strings *)

(** The id of a string among the transient strings. *)
Definition transient_id (trans : list (list Z)) (str : list Z) : Z :=
  match position trans str with
  | Some i => -2 - Z.of_nat i
  | None => INVALID_STR_ID
  end.

Lemma transientIndexToId_small i :
  0 <= i <= max_allowed_transients -> transientIndexToId i = -2 - i.
Proof.
  unfold max_allowed_transients, INT32_MAX, transientIndexToId. intros Hi.
  unfold u32, s32, uwrap, swrap. change (2 ^ 32) with 4294967296. change (2 ^ (32 - 1)) with 2147483648.
  divmod.
Qed.

Lemma transientIdToIndex_small i :
  0 <= i <= max_allowed_transients -> transientIdToIndex (-2 - i) = i.
Proof.
  unfold max_allowed_transients, INT32_MAX, transientIdToIndex. intros Hi. rewrite u32_small; lia.
Qed.

Lemma position_app l1 l2 str i : position l1 str = Some i -> position (l1 ++ l2) str = Some i.
Proof.
  revert i. induction l1 as [|x l1 IH]; intros i; cbn; [discriminate|].
  destruct (decide (x = str)); [auto|]. intros (j & Ej & ->)%fmap_Some. now rewrite (IH j Ej).
Qed.

Lemma position_end l str : str ∉ l -> position (l ++ [str]) str = Some (length l).
Proof.
  induction l as [|x l IH]; intros Hn; cbn; [now rewrite decide_True|].
  rewrite decide_False by set_solver. rewrite IH by set_solver. reflexivity.
Qed.

Lemma position_elem l str : str ∈ l -> exists i, position l str = Some i.
Proof. intros Hs. destruct (position l str) eqn:E; [eauto|]. now apply position_None in E. Qed.

(** A transient string keeps its id. *)
Lemma transient_id_app l1 l2 str : str ∈ l1 -> transient_id (l1 ++ l2) str = transient_id l1 str.
Proof.
  intros [i Ei]%position_elem. unfold transient_id. now rewrite Ei, (position_app _ _ _ _ Ei).
Qed.

Lemma transient_id_cases l str :
  (transient_id l str = INVALID_STR_ID /\ str ∉ l) \/
  (exists i, transient_id l str = -2 - Z.of_nat i /\ l !! i = Some str).
Proof.
  unfold transient_id. destruct (position l str) eqn:E; [right | left].
  - apply position_Some in E. eauto.
  - split; [reflexivity | now apply position_None].
Qed.

Lemma transient_id_absent l str : transient_id l str = INVALID_STR_ID <-> str ∉ l.
Proof.
  destruct (transient_id_cases l str) as [[-> ?]|(i & -> & Hi)]; [tauto|].
  unfold INVALID_STR_ID. split; [lia|]. intros []. now apply list_elem_of_lookup_2 in Hi.
Qed.

(** The transient strings after [str] has been added, and its id. *)
Definition add_transient (trans : list (list Z)) (str : list Z) : list (list Z) :=
  if decide (str ∈ trans) then trans else trans ++ [str].

Lemma add_transient_grows l str : exists added, add_transient l str = l ++ added /\ (length added <= 1)%nat.
Proof.
  unfold add_transient. destruct (decide _); [exists [] | exists [str]; auto].
  rewrite app_nil_r. auto.
Qed.

Lemma add_transient_in l str : str ∈ add_transient l str.
Proof. unfold add_transient. destruct (decide _); set_solver. Qed.

(** ** The invariant *)

Record proxy_ok (p : StringDictionaryProxy) : Prop := {
  pk_map str id : transient_str_to_int_ p !! str = Some id <->
    exists i, vec p !! i = Some str /\ id = -2 - Z.of_nat i;
  pk_size : base.size (transient_str_to_int_ p) = length (vec p);
  pk_room : len (vec p) <= max_allowed_transients
}.

Lemma new_proxy_ok id g : proxy_ok (new_proxy id g).
Proof.
  split; cbn; [|reflexivity | unfold len; cbn; unfold max_allowed_transients, INT32_MAX; lia].
  intros str i. rewrite lookup_empty. split; [discriminate|]. intros (j & Hj & _). now destruct j.
Qed.

Lemma proxy_nodup p : proxy_ok p -> NoDup (vec p).
Proof.
  intros K. apply NoDup_alt. intros i j str Hi Hj.
  assert (Ei : transient_str_to_int_ p !! str = Some (-2 - Z.of_nat i)) by (apply (pk_map p K); eauto).
  assert (Ej : transient_str_to_int_ p !! str = Some (-2 - Z.of_nat j)) by (apply (pk_map p K); eauto).
  rewrite Ei in Ej. injection Ej. lia.
Qed.

Lemma proxy_lookup p str : proxy_ok p -> lookupTransientStringUnlocked p str = transient_id (vec p) str.
Proof.
  intros K. unfold lookupTransientStringUnlocked, transient_id.
  destruct (position (vec p) str) as [i|] eqn:E.
  - assert (Hm : transient_str_to_int_ p !! str = Some (-2 - Z.of_nat i)); [|now rewrite Hm].
    apply (pk_map p K). exists i. split; [now apply position_Some | reflexivity].
  - destruct (transient_str_to_int_ p !! str) eqn:Em; [|reflexivity].
    apply (pk_map p K) in Em as (i & Hi & _). apply position_None in E. destruct E.
    now apply list_elem_of_lookup_2 in Hi.
Qed.

Lemma proxy_map_empty p : proxy_ok p -> transient_str_to_int_ p = ∅ <-> vec p = [].
Proof.
  intros K. rewrite <- map_size_empty_iff, (pk_size p K). split; [apply length_zero_iff_nil | now intros ->].
Qed.

Lemma or_transient_spec p str id : proxy_ok p ->
  or_transient p str id = if id =? INVALID_STR_ID then transient_id (vec p) str else id.
Proof.
  intros K. unfold or_transient. destruct (Z.eqb_spec id INVALID_STR_ID) as [->|]; [|reflexivity].
  cbn [negb orb]. rewrite <- (proxy_lookup p str K). unfold lookupTransientStringUnlocked.
  destruct (bool_decide_reflect (transient_str_to_int_ p = ∅)) as [->|_]; [|now destruct (_ !! _)].
  now rewrite lookup_empty.
Qed.

(** The same dictionary and generation. *)
Definition same_view (p p' : StringDictionaryProxy) : Prop :=
  string_dict_id_ p' = string_dict_id_ p /\ generation_ p' = generation_ p.

Lemma same_view_trans p1 p2 p3 : same_view p1 p2 -> same_view p2 p3 -> same_view p1 p3.
Proof. intros [? ?] [? ?]. split; congruence. Qed.

(** ** Adding *)

Lemma getOrAddTransientUnlocked_spec p str :
  proxy_ok p -> len (vec p) < max_allowed_transients \/ str ∈ vec p ->
  exists p', getOrAddTransientUnlocked str p
    = (Ok (transient_id (add_transient (vec p) str) str), p') /\
    proxy_ok p' /\ same_view p p' /\ vec p' = add_transient (vec p) str.
Proof.
  intros K Hroom. unfold getOrAddTransientUnlocked, bind, gets, modify.
  pose proof (proxy_lookup p str K) as El. unfold lookupTransientStringUnlocked in El.
  pose proof (pk_room p K) as Hr. pose proof (len_nonneg (vec p)) as Hpos.
  unfold add_transient. destruct (decide (str ∈ vec p)) as [Hin|Hn].
  - destruct (transient_str_to_int_ p !! str) as [id|].
    + exists p. rewrite El. split; [reflexivity|]. split; [exact K|]. repeat split.
    + symmetry in El. now apply transient_id_absent in El.
  - assert (Hnone : transient_str_to_int_ p !! str = None).
    { destruct (_ !! str) as [id|] eqn:E; [|reflexivity]. apply (pk_map p K) in E as (i & Hi & _).
      destruct Hn. now apply list_elem_of_lookup_2 in Hi. }
    rewrite Hnone. destruct Hroom as [Hroom|]; [|easy]. unfold transient_id. rewrite position_end by exact Hn.
    rewrite (pk_size p K). fold (len (vec p)). unfold max_allowed_transients, INT32_MAX in *.
    rewrite u32_small by lia. rewrite transientIndexToId_small
      by (unfold max_allowed_transients, INT32_MAX; lia).
    eexists. split; [reflexivity|]. split; [|repeat split]. split; cbn.
    + intros s id. destruct (decide (str = s)) as [<-|Ns].
      * rewrite lookup_insert_eq. split.
        -- intros [= <-]. exists (length (vec p)). split; [now rewrite lookup_app_r, Nat.sub_diag by lia | reflexivity].
        -- intros (i & Hi & ->). apply lookup_app_Some in Hi as [Hi|[Hge Hi]].
           ++ destruct Hn. now apply list_elem_of_lookup_2 in Hi.
           ++ apply list_lookup_singleton_Some in Hi as [Hi _]. unfold len. do 2 f_equal. lia.
      * rewrite lookup_insert_ne by exact Ns. rewrite (pk_map p K). split.
        -- intros (i & Hi & ->). exists i. split; [now apply lookup_app_l_Some | reflexivity].
        -- intros (i & Hi & ->). exists i. split; [|reflexivity].
           apply lookup_app_Some in Hi as [Hi|[_ Hi]]; [exact Hi|].
           apply list_lookup_singleton_Some in Hi as [_ Hi]. congruence.
    + rewrite map_size_insert_None by exact Hnone. rewrite (pk_size p K), length_app. cbn. lia.
    + unfold len in *. rewrite length_app. cbn. unfold max_allowed_transients, INT32_MAX. lia.
Qed.

(** ** Views *)

(** The id that a proxy gives to a string: that of the dictionary when it was there at the
    generation, else that among the transient strings. *)
Definition proxy_id (strs : list (list Z)) (g : Z) (trans : list (list Z)) (str : list Z) : Z :=
  if found_id strs g str =? INVALID_STR_ID then transient_id trans str else found_id strs g str.

(** The generation is set and lies within the dictionary. *)
Definition generation_ok (p : StringDictionaryProxy) (strs : list (list Z)) : Prop :=
  0 <= generation_ p <= len strs.

(** The strings of the dictionary are read through the proxy. *)
Definition reads_storage (p : StringDictionaryProxy) : Prop :=
  generation_ p = -1 \/ 0 < generation_ p.

Section View.

Context `{DictEnv} (d : StringDictionary) (strs : list (list Z)) `{!DictionarySpec d strs}.

Lemma getIdOfStringFromClient_spec p str :
  generation_ok p strs -> getIdOfStringFromClient d p str = Ok (found_id strs (generation_ p) str).
Proof.
  intros [Hg Hm]. pose proof (ds_max (d := d)) as Hmax. unfold MAX_STRCOUNT in Hmax.
  unfold getIdOfStringFromClient, truncate_to_generation, getIdOfString, found_id.
  destruct (Z.leb_spec 0 (generation_ p)); [|lia]. rewrite ds_lookup, u64_small by lia.
  pose proof (find_id_bounds strs str (ds_max (d := d))). unfold INVALID_STR_ID.
  destruct (Z.eqb_spec (find_id strs str) (-1)) as [->|]; [reflexivity|]. cbn [orb].
  destruct (Z.leb_spec 0 (find_id strs str)); [|lia]. reflexivity.
Qed.

Lemma Proxy_getIdOfString_spec p str :
  proxy_ok p -> generation_ok p strs ->
  Proxy_getIdOfString d p str = Ok (proxy_id strs (generation_ p) (vec p) str).
Proof.
  intros K G. unfold Proxy_getIdOfString, proxy_id. rewrite getIdOfStringFromClient_spec by exact G.
  now rewrite or_transient_spec.
Qed.

Lemma transient_string_at p i :
  proxy_ok p -> Z.of_nat i <= max_allowed_transients -> transient_string p (-2 - Z.of_nat i) = vec p !! i.
Proof.
  intros K Hi. unfold transient_string. rewrite transientIdToIndex_small by lia. now rewrite Nat2Z.id.
Qed.

Lemma Proxy_storageEntryCount_spec p :
  reads_storage p -> generation_ p <= len strs ->
  Proxy_storageEntryCount d p = Ok (if generation_ p =? -1 then len strs else generation_ p).
Proof.
  intros Hr Hg. pose proof (ds_max (d := d)) as Hmax. unfold MAX_STRCOUNT in Hmax.
  unfold Proxy_storageEntryCount, INT32_MAX. destruct (Z.eqb_spec (generation_ p) (-1)).
  - rewrite ds_count. destruct (Z.leb_spec (len strs) 2147483647); [reflexivity | lia].
  - destruct Hr; [easy|]. rewrite u64_small by lia.
    destruct (Z.leb_spec (generation_ p) 2147483647); [reflexivity | lia].
Qed.

(** The strings of the transient ids. *)
Lemma getString_transient p i str :
  proxy_ok p -> vec p !! i = Some str -> Proxy_getString d p (-2 - Z.of_nat i) = Ok str.
Proof.
  intros K Hi. pose proof (pk_room p K) as Hr. apply lookup_lt_Some in Hi as Hl.
  unfold max_allowed_transients, INT32_MAX in Hr. unfold len in Hr.
  unfold Proxy_getString, Proxy_getStringUnlocked, INT32_MIN.
  destruct (Z.eqb_spec (-2147483648) (-2 - Z.of_nat i)); [lia|].
  destruct (Z.leb_spec 0 (-2 - Z.of_nat i)); [lia|]. rewrite transient_string_at, Hi; auto.
  unfold max_allowed_transients, INT32_MAX. lia.
Qed.

Lemma getString_stored p i str :
  reads_storage p -> generation_ p <= len strs -> strs !! i = Some str ->
  Proxy_getString d p (Z.of_nat i) = Ok str.
Proof.
  intros Hr Hg Hi. apply lookup_lt_Some in Hi as Hl. unfold Proxy_getString, Proxy_getStringUnlocked, INT32_MIN.
  destruct (Z.eqb_spec (-2147483648) (Z.of_nat i)); [lia|].
  destruct (Z.leb_spec 0 (Z.of_nat i)); [|lia]. rewrite Proxy_storageEntryCount_spec by assumption.
  destruct (Z.ltb_spec 0 (if generation_ p =? -1 then len strs else generation_ p)) as [_|Hz].
  - now apply ds_string.
  - destruct Hr as [E|Hr]; [rewrite E in Hz; cbn in Hz; unfold len in Hz; lia|].
    destruct (Z.eqb_spec (generation_ p) (-1)); lia.
Qed.

Lemma getString_null p : Proxy_getString d p INT32_MIN = Ok [].
Proof. reflexivity. Qed.

(** Adding a transient string. *)
Lemma getOrAddTransient_spec p str :
  proxy_ok p -> generation_ok p strs -> len (vec p) < max_allowed_transients ->
  exists p', getOrAddTransient d str p = (Ok (proxy_id strs (generation_ p) (vec p') str), p') /\
    proxy_ok p' /\ same_view p p' /\
    vec p' = if found_id strs (generation_ p) str =? INVALID_STR_ID
             then add_transient (vec p) str else vec p.
Proof.
  intros K G Hr. unfold getOrAddTransient, bind at 1. rewrite getIdOfStringFromClient_spec by exact G.
  unfold proxy_id. destruct (Z.eqb_spec (found_id strs (generation_ p) str) INVALID_STR_ID) as [E|E]; cbn [negb].
  - destruct (getOrAddTransientUnlocked_spec p str K (or_introl Hr)) as (p' & Er & K' & V & Ev).
    exists p'. rewrite Er, Ev. auto.
  - exists p. split; [reflexivity|]. split; [exact K|]. repeat split.
Qed.

(** What the id of a string denotes. *)
Lemma proxy_id_string p str :
  proxy_ok p -> generation_ok p strs -> proxy_id strs (generation_ p) (vec p) str <> INVALID_STR_ID ->
  Proxy_getString d p (proxy_id strs (generation_ p) (vec p) str) = Ok str.
Proof.
  intros K [Hg Hm]. unfold proxy_id.
  destruct (found_id_cases strs (generation_ p) str) as [-> | [-> Hf]].
  - rewrite Z.eqb_refl. destruct (transient_id_cases (vec p) str) as [[-> _]|(i & -> & Hi)]; [easy|].
    intros _. now apply getString_transient.
  - unfold INVALID_STR_ID at 1 3. destruct (Z.eqb_spec (find_id strs str) (-1)); [lia|]. intros _.
    destruct (find_id_cases strs str) as [[E _]|(i & E & Hi)]; [unfold INVALID_STR_ID in E; lia|].
    rewrite E. apply getString_stored; [right; lia | lia | exact Hi].
Qed.

End View.

(** Additions to the dictionary do not change what a proxy sees. *)
Lemma find_id_app strs added str :
  str ∈ strs -> find_id (strs ++ added) str = find_id strs str.
Proof.
  intros [i Ei]%position_elem. unfold find_id. now rewrite Ei, (position_app _ _ _ _ Ei).
Qed.

Lemma find_id_beyond strs added str :
  str ∉ strs -> find_id (strs ++ added) str = INVALID_STR_ID \/ len strs <= find_id (strs ++ added) str.
Proof.
  intros Hn. destruct (find_id_cases (strs ++ added) str) as [[-> _]|(i & -> & Hi)]; [now left|]. right.
  apply lookup_app_Some in Hi as [Hi|[Hge _]]; [|unfold len; lia].
  destruct Hn. now apply list_elem_of_lookup_2 in Hi.
Qed.

Lemma found_id_app strs added g str :
  g <= len strs -> found_id (strs ++ added) g str = found_id strs g str.
Proof.
  intros Hg. unfold found_id. destruct (decide (str ∈ strs)) as [Hin|Hn].
  - now rewrite find_id_app.
  - rewrite (find_id_absent strs str Hn). destruct (find_id_beyond strs added str Hn) as [-> | Hb]; [reflexivity|].
    destruct (_ =? _); [reflexivity|]. cbn [orb Z.eqb]. destruct (Z.leb_spec g (find_id (strs ++ added) str)); [|lia].
    now rewrite Z.eqb_refl.
Qed.
