(* ===== verification/ProxyUnion.v ===== *)
(** * Maps of ids and the union of two proxies *)

From Stdlib Require Import ZArith Lia List Bool.
From stdpp Require Import base list numbers sets gmap.
From S2P Require Import Prelude StateMonad StringLike DictStorage StringDictionary DictFacts DictQueries DictBulkFacts.
From S2P Require Import StringDictionaryProxy DictInterface ProxyFacts.
Import ListNotations.
Local Open Scope Z_scope.

#[local] Abbreviation vec := transient_string_vec_.

(** ** Maps of ids *)

Definition in_domain (m : IdMap) (id : Z) : Prop :=
  0 <= offset_ m + id < len (vector_map_ m) /\ len (vector_map_ m) <= 4294967296.

Lemma id_at_spec m id v :
  in_domain m id -> vector_map_ m !! Z.to_nat (offset_ m + id) = Some v -> id_at m id = Ok v.
Proof.
  intros [Hd Hm] Hv. unfold id_at, getIndex. rewrite u64_small by lia.
  rewrite <- (Z2Nat.id (offset_ m + id)) by lia. now apply load_at_ok.
Qed.

Lemma id_at_total m id : in_domain m id -> exists v, id_at m id = Ok v.
Proof.
  intros Hd. destruct (lookup_lt_is_Some_2 (vector_map_ m) (Z.to_nat (offset_ m + id))) as [v Hv].
  { destruct Hd as [Hd _]. unfold len in Hd. lia. }
  exists v. now apply id_at_spec.
Qed.

(** An assignment. *)
Lemma set_id_at_spec m id v :
  in_domain m id ->
  exists m', set_id_at m id v = Ok m' /\ offset_ m' = offset_ m /\
    length (vector_map_ m') = length (vector_map_ m) /\
    num_untranslated_strings_ m' = num_untranslated_strings_ m /\ id_at m' id = Ok v /\
    forall id', in_domain m id' -> id' <> id -> id_at m' id' = id_at m id'.
Proof.
  intros Hd. pose proof Hd as [[H0 H1] Hm]. unfold set_id_at, getIndex. rewrite u64_small by lia.
  assert (Es : store_at (offset_ m + id) v (vector_map_ m)
               = Ok (<[Z.to_nat (offset_ m + id) := v]> (vector_map_ m))).
  { rewrite <- store_at_ok by (unfold len in H1; lia). now rewrite Z2Nat.id by lia. }
  rewrite Es. eexists. split; [reflexivity|]. cbn.
  assert (Hdom : forall i, in_domain m i ->
    in_domain (set_vector_map (<[Z.to_nat (offset_ m + id) := v]> (vector_map_ m)) m) i)
    by (intros i; unfold in_domain, len; cbn; now rewrite length_insert).
  split; [reflexivity|]. split; [apply length_insert|]. split; [reflexivity|]. split.
  - apply id_at_spec; [auto|]. cbn. apply list_lookup_insert_eq. unfold len in H1. lia.
  - intros id' Hd' Hne. destruct (id_at_total m id' Hd') as [w Hw]. rewrite Hw.
    pose proof Hd' as [[H0' H1'] _].
    unfold id_at, getIndex in *. cbn. rewrite u64_small in * by lia. unfold load_at in *.
    destruct (Z.leb_spec 0 (offset_ m + id')); [|lia]. rewrite list_lookup_insert_ne by lia. exact Hw.
Qed.

Lemma in_domain_same m m' id :
  offset_ m' = offset_ m -> length (vector_map_ m') = length (vector_map_ m) ->
  in_domain m id -> in_domain m' id.
Proof. unfold in_domain, len. now intros -> ->. Qed.

(** The map that a translation starts with. *)
Lemma initIdMap_spec p g :
  len (vec p) <= max_allowed_transients -> generation_ p = g -> 0 <= g <= MAX_STRCOUNT ->
  initIdMap p = mkIdMap (len (vec p) + 1)
                  (replicate (length (vec p)) INVALID_STR_ID
                     ++ INVALID_STR_ID :: replicate (Z.to_nat g) INVALID_STR_ID) (-1).
Proof.
  unfold max_allowed_transients, INT32_MAX, MAX_STRCOUNT. intros Hl <- Hg.
  pose proof (len_nonneg (vec p)). unfold initIdMap, IdMap_new.
  rewrite (u32_small (len (vec p))), (u32_small (generation_ p)), (u32_small (_ + 1)) by lia.
  f_equal.
  replace (Z.to_nat (len (vec p) + 1 + generation_ p))
    with (length (vec p) + (1 + Z.to_nat (generation_ p)))%nat by (unfold len in *; lia).
  now rewrite replicate_add.
Qed.

Lemma initIdMap_domain p g id :
  len (vec p) <= max_allowed_transients -> generation_ p = g -> 0 <= g <= MAX_STRCOUNT ->
  -1 - len (vec p) <= id < g -> in_domain (initIdMap p) id.
Proof.
  intros Hl Hg Hm Hid. rewrite (initIdMap_spec p g Hl Hg Hm). unfold in_domain. cbn.
  unfold len in *. rewrite length_app. cbn. rewrite !length_replicate.
  unfold max_allowed_transients, INT32_MAX, MAX_STRCOUNT in *. lia.
Qed.

Lemma initIdMap_invalid p g id v :
  len (vec p) <= max_allowed_transients -> generation_ p = g -> 0 <= g <= MAX_STRCOUNT ->
  in_domain (initIdMap p) id -> id_at (initIdMap p) id = Ok v -> v = INVALID_STR_ID.
Proof.
  intros Hl Hg Hm Hd. destruct (lookup_lt_is_Some_2 (vector_map_ (initIdMap p))
    (Z.to_nat (offset_ (initIdMap p) + id))) as [w Hw].
  { destruct Hd as [Hd _]. unfold len in Hd. lia. }
  rewrite (id_at_spec _ _ w Hd Hw). intros [= <-].
  unfold initIdMap, IdMap_new in Hw. cbn in Hw. now apply lookup_replicate in Hw as [? _].
Qed.

(** ** The union *)

Lemma fold_left_over {A B C : Type} (f : A -> B -> A) (g : C -> B) l : forall a,
  fold_left f (map g l) a = fold_left (fun a c => f a (g c)) l a.
Proof. induction l as [|x l IH]; intros a; cbn; [reflexivity | apply IH]. Qed.

Lemma fold_left_agree {A B : Type} (f g : A -> B -> A) l : forall a,
  (forall a x, x ∈ l -> f a x = g a x) -> fold_left f l a = fold_left g l a.
Proof.
  induction l as [|x l IH]; intros a Hfg; cbn; [reflexivity|].
  rewrite Hfg by set_solver. apply IH. set_solver.
Qed.

(** The id of a string in the proxy that takes it: every string of the dictionary is found,
    whatever the generation of the proxy. *)
Definition union_id (strs trans : list (list Z)) (str : list Z) : Z :=
  if find_id strs str =? INVALID_STR_ID then transient_id trans str else find_id strs str.

Definition union_has (strs trans : list (list Z)) (str : list Z) : Prop :=
  find_id strs str <> INVALID_STR_ID \/ str ∈ trans.

Lemma union_id_app strs trans added str :
  union_has strs trans str -> union_id strs (trans ++ added) str = union_id strs trans str.
Proof.
  unfold union_id. intros Hu. destruct (Z.eqb_spec (find_id strs str) INVALID_STR_ID) as [E|]; [|reflexivity].
  destruct Hu as [|Hin]; [easy | now apply transient_id_app].
Qed.

Section Union.

Context `{DictEnv} (d : StringDictionary) (strs : list (list Z)) `{!DictionarySpec d strs}.

(** One call of the callback. *)
Lemma StringLocalCallback_spec p m str id :
  proxy_ok p -> len (vec p) < max_allowed_transients -> in_domain m id ->
  exists p' m', StringLocalCallback d str id (Ok (p, m)) = Ok (p', m') /\
    proxy_ok p' /\ same_view p p' /\
    (exists added, vec p' = vec p ++ added /\ (length added <= 1)%nat) /\
    offset_ m' = offset_ m /\ length (vector_map_ m') = length (vector_map_ m) /\
    union_has strs (vec p') str /\ id_at m' id = Ok (union_id strs (vec p') str) /\
    (forall id', in_domain m id' -> id' <> id -> id_at m' id' = id_at m id').
Proof.
  intros K Hr Hd. unfold StringLocalCallback. cbn [rbind]. rewrite ds_lookup. cbn [rbind].
  unfold union_id, union_has.
  destruct (Z.eqb_spec (find_id strs str) INVALID_STR_ID) as [E|E].
  - destruct (getOrAddTransientUnlocked_spec p str K (or_introl Hr)) as (p' & Er & K' & V & Ev).
    rewrite Er. cbn [rbind]. set (v := transient_id _ _).
    destruct (set_id_at_spec m id v Hd) as (m' & Em & Eo & El & _ & Ei & Hk).
    exists p', m'. rewrite Em, Ev. split; [reflexivity|]. split; [exact K'|]. split; [exact V|].
    split; [apply add_transient_grows|]. split_and!; auto using add_transient_in.
  - cbn. destruct (set_id_at_spec m id (find_id strs str) Hd) as (m' & Em & Eo & El & _ & Ei & Hk).
    exists p, m'. rewrite Em. split; [reflexivity|]. split; [exact K|]. split; [now split|].
    split; [exists []; rewrite app_nil_r; auto|]. split_and!; auto.
Qed.

(** The calls for a list of strings and their old ids. *)
Lemma union_fold l : forall p m,
  proxy_ok p -> len (vec p) + len l <= max_allowed_transients ->
  (forall str id, (str, id) ∈ l -> in_domain m id) -> NoDup (map snd l) ->
  exists p' m', fold_left (fun st x => StringLocalCallback d (fst x) (snd x) st) l (Ok (p, m)) = Ok (p', m') /\
    proxy_ok p' /\ same_view p p' /\ (exists added, vec p' = vec p ++ added) /\
    offset_ m' = offset_ m /\ length (vector_map_ m') = length (vector_map_ m) /\
    (forall str id, (str, id) ∈ l ->
       union_has strs (vec p') str /\ id_at m' id = Ok (union_id strs (vec p') str)) /\
    (forall id, in_domain m id -> id ∉ map snd l -> id_at m' id = id_at m id).
Proof.
  induction l as [|[str id] l IH]; intros p m K Hr Hd Hn.
  { exists p, m. split; [reflexivity|]. split; [exact K|]. split; [now split|].
    split; [exists []; now rewrite app_nil_r|]. split_and!; auto. intros str id []%elem_of_nil. }
  cbn [fold_left fst snd map] in *. apply list.NoDup_cons in Hn as [Hni Hn].
  destruct (StringLocalCallback_spec p m str id K) as
    (p1 & m1 & E1 & K1 & V1 & (a1 & Ea1 & La1) & Eo1 & El1 & Hu1 & Hi1 & Hk1);
    [unfold len in Hr; cbn in Hr; unfold len; lia | apply (Hd str id); set_solver |].
  rewrite E1. destruct (IH p1 m1 K1) as (p' & m' & E & K' & V & (a & Ea) & Eo & El & Hin & Hk);
    [rewrite Ea1; unfold len in *; rewrite length_app; cbn in Hr; lia | | exact Hn |].
  { intros s i Hs. apply (in_domain_same m); auto. apply (Hd s i). set_solver. }
  exists p', m'. split; [exact E|]. split; [exact K'|]. split; [now apply (same_view_trans p p1)|].
  split; [exists (a1 ++ a); now rewrite Ea, Ea1, app_assoc|]. split_and!; [congruence | congruence | |].
  - intros s i [[= -> ->]|Hs]%elem_of_cons; [|now apply Hin]. rewrite Ea. split.
    + destruct Hu1 as [?|?]; [now left | right; set_solver].
    + rewrite union_id_app by exact Hu1. rewrite Hk; auto. apply (in_domain_same m); auto.
      apply (Hd str id). set_solver.
  - intros i Hi [Hne Hni']%not_elem_of_cons. rewrite Hk; auto. now apply (in_domain_same m).
Qed.

(** What the id of a string denotes in the union. *)
Lemma union_id_string p str :
  proxy_ok p -> reads_storage p -> generation_ p <= len strs -> union_has strs (vec p) str ->
  Proxy_getString d p (union_id strs (vec p) str) = Ok str.
Proof.
  intros K Hr Hg Hu. unfold union_id.
  destruct (Z.eqb_spec (find_id strs str) INVALID_STR_ID) as [E|E].
  - destruct (transient_id_cases (vec p) str) as [[_ Hn]|(i & -> & Hi)];
      [destruct Hu; easy | now apply getString_transient].
  - destruct (find_id_cases strs str) as [[? _]|(i & -> & Hi)]; [easy|]. now apply (getString_stored d strs).
Qed.

End Union.

(** The strings of a proxy with their ids, in the order of [eachStringSerially]. *)
Definition strings_of (strs : list (list Z)) (p : StringDictionaryProxy) : list (list Z * Z) :=
  map (fun i => (nth i (vec p) [], -2 - Z.of_nat i)) (seq 0 (length (vec p))) ++
  map (fun i => (nth i strs [], Z.of_nat i)) (seq 0 (Z.to_nat (generation_ p))).

Lemma strings_of_transient strs p i str :
  vec p !! i = Some str -> (str, -2 - Z.of_nat i) ∈ strings_of strs p.
Proof.
  intros Hi. apply elem_of_app. left. apply list_elem_of_fmap. exists i.
  rewrite (nth_lookup_Some _ _ _ _ Hi). split; [reflexivity|]. apply elem_of_seq.
  apply lookup_lt_Some in Hi. lia.
Qed.

Lemma strings_of_stored strs p i str :
  strs !! i = Some str -> Z.of_nat i < generation_ p -> (str, Z.of_nat i) ∈ strings_of strs p.
Proof.
  intros Hi Hg. apply elem_of_app. right. apply list_elem_of_fmap. exists i.
  rewrite (nth_lookup_Some _ _ _ _ Hi). split; [reflexivity|]. apply elem_of_seq. lia.
Qed.

Lemma strings_of_ids strs p :
  map snd (strings_of strs p)
  = map (fun i => -2 - Z.of_nat i) (seq 0 (length (vec p))) ++
    map Z.of_nat (seq 0 (Z.to_nat (generation_ p))).
Proof. unfold strings_of. now rewrite map_app, !map_map. Qed.

Lemma strings_of_domain strs p id :
  0 <= generation_ p -> id ∈ map snd (strings_of strs p) <->
  (-1 - len (vec p) <= id <= -2 \/ 0 <= id < generation_ p).
Proof.
  intros Hg. rewrite strings_of_ids, elem_of_app. unfold len. split.
  - intros [(i & -> & Hi%elem_of_seq)%list_elem_of_fmap|(i & -> & Hi%elem_of_seq)%list_elem_of_fmap]; lia.
  - intros [Hi|Hi]; [left|right]; apply list_elem_of_fmap.
    + exists (Z.to_nat (-2 - id)). rewrite elem_of_seq. lia.
    + exists (Z.to_nat id). rewrite elem_of_seq. lia.
Qed.

Lemma strings_of_nodup strs p : NoDup (map snd (strings_of strs p)).
Proof.
  rewrite strings_of_ids. apply list.NoDup_app. split; [|split].
  - assert (Hinj : Inj (=) (=) (fun i => -2 - Z.of_nat i)) by (intros i j; lia).
    apply (NoDup_fmap_2 (fun i => -2 - Z.of_nat i)), NoDup_seq.
  - intros x (i & -> & _)%list_elem_of_fmap (j & E & _)%list_elem_of_fmap. lia.
  - apply (NoDup_fmap_2 Z.of_nat), NoDup_seq.
Qed.

Lemma strings_of_length strs p :
  0 <= generation_ p -> len (strings_of strs p) = len (vec p) + generation_ p.
Proof. intros Hg. unfold strings_of, len. rewrite length_app, !length_map, !length_seq. lia. Qed.

Lemma Proxy_eachStringSerially_spec `{DictEnv} {A : Type} d strs `{!DictionarySpec d strs} p
    (callback : list Z -> Z -> A -> A) a :
  proxy_ok p -> generation_ok p strs ->
  Proxy_eachStringSerially d p callback a
  = Ok (fold_left (fun a x => callback (fst x) (snd x) a) (strings_of strs p) a).
Proof.
  intros K G. unfold Proxy_eachStringSerially. rewrite (ds_each (d := d)) by exact G.
  unfold strings_of. rewrite fold_left_app, !fold_left_over. do 2 f_equal.
  apply fold_left_agree. intros acc i Hi%elem_of_seq.
  rewrite transientIndexToId_small; [reflexivity|]. pose proof (pk_room p K). unfold len in *. lia.
Qed.

(** [transientUnion]: the strings of [rhs] are strings of the proxy, under the ids in the map. *)
Lemma transientUnion_spec `{DictEnv} d strs rd rstrs p rhs `{!DictionarySpec d strs} `{!DictionarySpec rd rstrs} :
  proxy_ok p -> proxy_ok rhs -> generation_ok rhs rstrs ->
  len (vec p) + len (vec rhs) + generation_ rhs <= max_allowed_transients ->
  exists p' m, transientUnion d p rd rhs = Ok (p', m) /\ proxy_ok p' /\ same_view p p' /\
    (exists added, vec p' = vec p ++ added) /\
    (forall str id, (str, id) ∈ strings_of rstrs rhs ->
       union_has strs (vec p') str /\ id_at m id = Ok (union_id strs (vec p') str)) /\
    id_at m INVALID_STR_ID = Ok INVALID_STR_ID.
Proof.
  intros K Kr G Hr. pose proof G as [Hg Hgm]. pose proof (ds_max (d := rd)) as Hmax.
  assert (Hgr : 0 <= generation_ rhs <= MAX_STRCOUNT) by lia.
  unfold transientUnion. rewrite (Proxy_eachStringSerially_spec rd rstrs) by assumption. cbn [rbind].
  pose proof (strings_of_length rstrs rhs Hg) as Hl.
  assert (Hdom : forall id, -1 - len (vec rhs) <= id < generation_ rhs -> in_domain (initIdMap rhs) id)
    by (intros id Hid; apply (initIdMap_domain rhs (generation_ rhs)); auto using pk_room).
  destruct (union_fold d strs (strings_of rstrs rhs) p (initIdMap rhs) K) as
    (p' & m & E & K' & V & Ha & Eo & El & Hin & Hk);
    [lia | | apply strings_of_nodup |].
  { intros str id Hs. apply Hdom. assert (Hid : id ∈ map snd (strings_of rstrs rhs))
      by (apply list_elem_of_fmap; exists (str, id); auto).
    apply strings_of_domain in Hid; [|exact Hg]. pose proof (len_nonneg (vec rhs)). lia. }
  exists p', m. split_and!; auto.
  assert (Hd1 : in_domain (initIdMap rhs) INVALID_STR_ID)
    by (apply Hdom; unfold INVALID_STR_ID; pose proof (len_nonneg (vec rhs)); lia).
  rewrite Hk; [| exact Hd1 |].
  - destruct (id_at_total _ _ Hd1) as [v Ev]. rewrite Ev. f_equal.
    now apply (initIdMap_invalid rhs (generation_ rhs) INVALID_STR_ID v); auto using pk_room.
  - rewrite strings_of_domain by exact Hg. unfold INVALID_STR_ID. lia.
Qed.
