(* ===== verification/ProxyTranslate.v ===== *)
(** * Bulk lookups through a proxy, and the translation of ids to another proxy *)

From Stdlib Require Import ZArith Lia List Bool.
From stdpp Require Import base list numbers sets gmap.
From S2P Require Import Prelude StateMonad StringLike DictStorage StringDictionary DictFacts DictQueries DictBulkFacts.
From S2P Require Import StringDictionaryProxy DictInterface ProxyFacts ProxyUnion.
Import ListNotations.
Local Open Scope Z_scope.

#[local] Abbreviation vec := transient_string_vec_.

(** ** Transient lookups *)

(** An id that was not found is looked up among the transient strings. *)
Definition or_trans (trans : list (list Z)) (f : list Z -> Z) (str : list Z) : Z :=
  if f str =? INVALID_STR_ID then transient_id trans str else f str.

(** The number of strings without an id. *)
Definition missing (f : list Z -> Z) (strings : list (list Z)) : Z :=
  len (filter (fun str => f str = INVALID_STR_ID) strings).

Lemma missing_cons f str strings :
  missing f (str :: strings) = b2z (f str =? INVALID_STR_ID) + missing f strings.
Proof.
  unfold missing. rewrite filter_cons. destruct (Z.eqb_spec (f str) INVALID_STR_ID) as [E|E].
  - rewrite decide_True by exact E. unfold len. cbn. lia.
  - now rewrite decide_False by exact E.
Qed.

Lemma missing_zero f strings str : missing f strings = 0 -> str ∈ strings -> f str <> INVALID_STR_ID.
Proof.
  unfold missing, len. intros E Hin Hf.
  assert (Hx : str ∈ filter (fun s => f s = INVALID_STR_ID) strings) by now apply list_elem_of_filter.
  destruct (filter _ strings); [now apply elem_of_nil in Hx | cbn in E; lia].
Qed.

Lemma missing_bound f strings : 0 <= missing f strings <= len strings.
Proof.
  induction strings as [|x l IH]; [unfold missing, len; cbn; lia|].
  rewrite missing_cons. unfold len in *. cbn [length]. unfold b2z. destruct (_ =? _); lia.
Qed.

Lemma missing_ext f g strings :
  (forall str, str ∈ strings -> f str = g str) -> missing f strings = missing g strings.
Proof.
  induction strings as [|x l IH]; intros Hfg; [reflexivity|].
  rewrite !missing_cons, Hfg, IH by set_solver. reflexivity.
Qed.

Lemma missing_rev f strings : missing f (rev strings) = missing f strings.
Proof.
  unfold missing, len. f_equal. apply Permutation_length, filter_Permutation.
  symmetry. apply Permutation_rev.
Qed.

Lemma transientLookupBulkUnlocked_spec p f strings :
  proxy_ok p ->
  transientLookupBulkUnlocked p strings (map f strings)
  = (map (or_trans (vec p) f) strings, missing (or_trans (vec p) f) strings).
Proof.
  intros K. induction strings as [|str strings IH]; [reflexivity|].
  cbn [map transientLookupBulkUnlocked]. rewrite IH, missing_cons, (proxy_lookup p str K).
  assert (Eg : or_trans (vec p) f str = if f str =? INVALID_STR_ID then transient_id (vec p) str else f str)
    by reflexivity.
  rewrite Eg. destruct (Z.eqb_spec (f str) INVALID_STR_ID) as [E|E]; cbn [negb]; [reflexivity|].
  destruct (Z.eqb_spec (f str) INVALID_STR_ID); [easy | reflexivity].
Qed.

Section Env.

Context `{DictEnvOk}.

Lemma thread_info_ok n target :
  0 < n -> 0 < target ->
  1 <= num_threads (make_ThreadInfo hardware_concurrency n target) /\
  1 <= num_elems_per_thread (make_ThreadInfo hardware_concurrency n target).
Proof.
  intros Hn Ht. pose proof threads_known as Hk. unfold make_ThreadInfo. cbn.
  assert (1 <= Z.quot (n + target - 1) target) by (apply Z.quot_le_lower_bound; lia). lia.
Qed.

(** The parallel loop does the same, under every schedule that gives a thread one piece. *)
Lemma transientLookupBulkParallelUnlocked_spec p f strings schedule :
  proxy_ok p -> 0 < len strings ->
  covers (length strings) (num_threads (make_ThreadInfo hardware_concurrency (len strings) 20000)) schedule ->
  NoDup (map fst schedule) ->
  transientLookupBulkParallelUnlocked p strings (map f strings) schedule
  = Ok (map (or_trans (vec p) f) strings, missing (or_trans (vec p) f) strings).
Proof.
  intros K Hpos [Hp Hf] Hn. unfold transientLookupBulkParallelUnlocked.
  destruct (thread_info_ok (len strings) 20000 Hpos ltac:(lia)) as [H1 H2].
  destruct (Z.leb_spec 1 (num_threads (make_ThreadInfo hardware_concurrency (len strings) 20000))); [|lia].
  destruct (Z.leb_spec 1 (num_elems_per_thread (make_ThreadInfo hardware_concurrency (len strings) 20000))); [|lia].
  cbn [andb negb]. set (threads := Z.to_nat _) in *. set (g := or_trans (vec p) f).
  rewrite (run_schedule_fresh (map f strings) (fun i => g (nth i strings []))
             (fun i => b2z (f (nth i strings []) =? INVALID_STR_ID) * b2z (g (nth i strings []) =? INVALID_STR_ID))
             (length strings)).
  - rewrite writes_all; rewrite length_map; [|exact Hp]. rewrite map_nth_seq.
    rewrite note_pieces_store with (n := length strings).
    + rewrite sum_counts_zero, (sum_over_perm _ _ _ Hp).
      rewrite (sum_over_nth (fun s => b2z (f s =? INVALID_STR_ID) * b2z (g s =? INVALID_STR_ID))).
      do 2 f_equal. cbn [Z.add]. apply fold_missing. intros str _. unfold g, or_trans.
      destruct (Z.eqb_spec (f str) INVALID_STR_ID) as [_|E].
      * destruct (Z.eqb_spec (transient_id (vec p) str) INVALID_STR_ID) as [->|N];
          [now rewrite bool_decide_eq_true_2 | now rewrite bool_decide_eq_false_2].
      * now rewrite bool_decide_eq_false_2.
    + now rewrite length_replicate.
    + exact Hn.
    + intros t [first last] Hin. apply lookup_replicate. destruct (Hf t first last Hin). split; [reflexivity | lia].
  - intros i a Hi Ha Hai. unfold transient_lookup_body, g, or_trans.
    destruct (lookup_lt_is_Some_2 strings i Hi) as [str Hs].
    assert (Ea : a !! i = Some (f str)) by (rewrite Hai; change (map f strings) with (f <$> strings);
      now rewrite list_lookup_fmap, Hs).
    rewrite (nth_lookup_Some _ _ _ _ Ea), (nth_lookup_Some _ _ _ _ Hs), (proxy_lookup p str K).
    destruct (Z.eqb_spec (f str) INVALID_STR_ID) as [E|E]; cbn [negb b2z].
    + now rewrite Z.mul_1_l.
    + now rewrite list_insert_id.
  - now rewrite length_replicate.
  - apply length_map.
  - rewrite Hp. apply NoDup_seq.
  - reflexivity.
Qed.

(** The schedules of the two loops fit the strings, and no thread runs two pieces of one. *)
Record schedules_ok (n : Z) (bulk lookup : Schedule) : Prop := {
  so_bulk : covers (Z.to_nat n) (num_threads (make_ThreadInfo hardware_concurrency n 1000)) bulk;
  so_bulk_once : NoDup (map fst bulk);
  so_lookup : 20000 <= n ->
    covers (Z.to_nat n) (num_threads (make_ThreadInfo hardware_concurrency n 20000)) lookup;
  so_lookup_once : 20000 <= n -> NoDup (map fst lookup)
}.

(** The id of a string for a proxy with a transient string. *)
Definition view_id (strs : list (list Z)) (g : Z) (trans : list (list Z)) : list Z -> Z :=
  or_trans trans (bulk_id32 strs g).

Lemma getTransientBulkImpl_spec d strs `{!DictionarySpec d strs} p strings bulk lookup :
  proxy_ok p -> generation_ok p strs -> vec p <> [] ->
  (forall str, str ∈ strings -> len str <= MAX_STRLEN) -> schedules_ok (len strings) bulk lookup ->
  getTransientBulkImpl d p strings bulk lookup
  = Ok (map (view_id strs (generation_ p) (vec p)) strings,
        missing (view_id strs (generation_ p) (vec p)) strings).
Proof.
  intros K [Hg _] Hne Hl [Hb Hb1 Hk Hk1].
  assert (En : Z.to_nat (len strings) = length strings) by (unfold len; lia). rewrite En in Hb, Hk.
  unfold getTransientBulkImpl. destruct (Z.eqb_spec (len strings) 0) as [E|E].
  { destruct strings; [reflexivity | unfold len in E; cbn in E; lia]. }
  destruct (ds_bulk (d := d) strings (generation_ p) bulk Hl Hg Hb) as (count & -> & Hcount).
  rewrite (Hcount Hb1). set (f := bulk_id32 strs (generation_ p)).
  change (bulk_missing strs (generation_ p) strings) with (missing f strings).
  destruct (Z.eqb_spec (missing f strings) 0) as [Ez|Ez].
  - assert (Hall : forall s, s ∈ strings -> view_id strs (generation_ p) (vec p) s = f s).
    { intros s Hs. pose proof (missing_zero f strings s Ez Hs). unfold view_id, or_trans. fold f.
      now destruct (Z.eqb_spec (f s) INVALID_STR_ID). }
    f_equal. f_equal.
    + apply map_ext_in. intros s Hs%list_elem_of_In. symmetry. now apply Hall.
    + symmetry. rewrite <- Ez. now apply missing_ext.
  - unfold transientLookupBulk. destruct (Z.eqb_spec (len strings) 0); [easy|]. cbn [orb].
    rewrite bool_decide_eq_false_2 by (now rewrite proxy_map_empty).
    destruct (Z.ltb_spec (len strings) 20000) as [Hs|Hs].
    + now rewrite transientLookupBulkUnlocked_spec.
    + pose proof (len_nonneg strings).
      apply transientLookupBulkParallelUnlocked_spec; auto; lia.
Qed.

(** ** The intersection *)

Lemma transientEntryCountUnlocked_spec p : proxy_ok p -> transientEntryCountUnlocked p = Ok (len (vec p)).
Proof.
  intros K. unfold transientEntryCountUnlocked. rewrite (pk_size p K). fold (len (vec p)).
  pose proof (pk_room p K). unfold max_allowed_transients, INT32_MAX in *.
  destruct (Z.leb_spec (len (vec p)) (2147483647 - 1)); [reflexivity | lia].
Qed.

Lemma entryCountUnlocked_spec d strs `{!DictionarySpec d strs} p :
  proxy_ok p -> generation_ok p strs -> entryCountUnlocked d p = Ok (generation_ p + len (vec p)).
Proof.
  intros K [Hg Hm]. pose proof (ds_max (d := d)) as Hmax. unfold MAX_STRCOUNT in Hmax.
  pose proof (pk_room p K) as Hr. unfold max_allowed_transients, INT32_MAX in Hr.
  pose proof (len_nonneg (vec p)).
  unfold entryCountUnlocked, Proxy_storageEntryCount, INT32_MAX.
  destruct (Z.eqb_spec (generation_ p) (-1)); [lia|]. rewrite u64_small by lia.
  destruct (Z.leb_spec (generation_ p) 2147483647); [|lia]. cbn [rbind].
  rewrite transientEntryCountUnlocked_spec by exact K. cbn [rbind]. now rewrite u64_small by lia.
Qed.

Lemma lookup_callback p : proxy_ok p -> looks_up (dest_transient_lookup_callback p) (transient_id (vec p)).
Proof.
  intros K str i ids. unfold dest_transient_lookup_callback. now rewrite (proxy_lookup p str K), Nat2Z.id.
Qed.

(** The source [p] on [d], and the destination [q] on [dd]. *)
Section Translate.

Context (d dd : StringDictionary) (sstrs dstrs : list (list Z)).
Context `{!DictionarySpec d sstrs} `{!DictionarySpec dd dstrs}.
Context (p q : StringDictionaryProxy) (schedules : TranslationSchedules).

Record translatable : Prop := {
  tl_source : proxy_ok p;
  tl_dest : proxy_ok q;
  tl_source_gen : generation_ok p sstrs;
  tl_dest_gen : generation_ok q dstrs;
  tl_short str : str ∈ vec p -> len str <= MAX_STRLEN;
  tl_dicts : 0 < generation_ p -> TranslationSpec d dd sstrs dstrs;
  tl_schedules : schedules_ok (len (vec p)) (bulk_schedule schedules) (lookup_schedule schedules);
  tl_map : 0 < generation_ p -> covers (Z.to_nat (generation_ p))
    (num_threads (make_ThreadInfo hardware_concurrency (generation_ p) 1000)) (map_schedule schedules)
}.

Hypothesis Ht : translatable.
Hypothesis Htrans : vec q <> [].

#[local] Abbreviation sg := (generation_ p).
#[local] Abbreviation dg := (generation_ q).
#[local] Abbreviation from_transient := (view_id dstrs dg (vec q)).
#[local] Abbreviation from_stored := (map_id dstrs dg (transient_id (vec q))).
#[local] Abbreviation stored := (take (Z.to_nat sg) sstrs).

Lemma source_generation : 0 <= sg <= MAX_STRCOUNT.
Proof. destruct (tl_source_gen Ht). pose proof (ds_max (d := d)). lia. Qed.

Lemma source_init :
  initIdMap p = mkIdMap (len (vec p) + 1)
                  (replicate (length (vec p)) INVALID_STR_ID
                     ++ INVALID_STR_ID :: replicate (Z.to_nat sg) INVALID_STR_ID) (-1).
Proof. apply initIdMap_spec; [apply (pk_room p (tl_source Ht)) | reflexivity | exact source_generation]. Qed.

Lemma translate_transients_spec :
  translate_transients p dd q (bulk_schedule schedules) (lookup_schedule schedules) (initIdMap p)
  = Ok (mkIdMap (len (vec p) + 1)
          (map from_transient (rev (vec p)) ++ INVALID_STR_ID :: replicate (Z.to_nat sg) INVALID_STR_ID) (-1),
        missing from_transient (vec p)).
Proof.
  pose proof (pk_room p (tl_source Ht)) as Hr. pose proof (len_nonneg (vec p)).
  unfold max_allowed_transients, INT32_MAX in Hr.
  unfold translate_transients. rewrite source_init. unfold numTransients. cbn [offset_].
  rewrite u64_small by lia. destruct (Z.eqb_spec (len (vec p) + 1 - 1) 0) as [E|E].
  { assert (En : vec p = []) by (destruct (vec p); [reflexivity | unfold len in E; cbn in E; lia]).
    now rewrite En. }
  assert (El : len (rev (vec p)) = len (vec p)) by (unfold len; now rewrite length_rev).
  rewrite (getTransientBulkImpl_spec dd dstrs); auto using tl_dest, tl_dest_gen.
  - unfold set_vector_map. cbn [offset_ vector_map_ num_untranslated_strings_]. rewrite missing_rev.
    rewrite length_map, length_rev. do 4 f_equal.
    rewrite drop_app_length'; [reflexivity | now rewrite length_replicate].
  - intros str Hs. apply (tl_short Ht). apply list_elem_of_In. apply in_rev. now apply list_elem_of_In.
  - rewrite El. apply (tl_schedules Ht).
Qed.

Lemma translate_stored_spec n :
  translate_stored d p dd q (len (vec q)) (map_schedule schedules)
    (mkIdMap (len (vec p) + 1)
       (map from_transient (rev (vec p)) ++ INVALID_STR_ID :: replicate (Z.to_nat sg) INVALID_STR_ID) n)
  = Ok (mkIdMap (len (vec p) + 1)
          (map from_transient (rev (vec p)) ++ INVALID_STR_ID :: map from_stored stored) n,
        missing from_stored stored).
Proof.
  destruct (tl_source_gen Ht) as [Hs0 Hs1]. unfold translate_stored.
  destruct (Z.ltb_spec 0 sg) as [Hpos|Hz].
  - assert (Hl : length (map from_transient (rev (vec p)) ++ [INVALID_STR_ID])
                 = Z.to_nat (len (vec p) + 1)).
    { rewrite length_app, length_map, length_rev. unfold len. cbn. lia. }
    cbn [offset_ vector_map_]. rewrite cons_middle, app_assoc.
    rewrite drop_app_length' by (now rewrite Hl). rewrite take_app_length' by (now rewrite Hl).
    destruct (Z.ltb_spec 0 (len (vec q))) as [_|Hq];
      [|destruct (vec q); [easy | unfold len in Hq; cbn in Hq; lia]].
    rewrite (ts_map (TranslationSpec := tl_dicts Ht Hpos) _ sg dg _ (transient_id (vec q))).
    + unfold set_vector_map. cbn [offset_ num_untranslated_strings_].
      rewrite <- app_assoc. reflexivity.
    + apply lookup_callback, (tl_dest Ht).
    + lia.
    + apply (tl_dest_gen Ht).
    + unfold len. rewrite length_replicate. lia.
    + now apply (tl_map Ht).
  - assert (E : sg = 0) by lia. rewrite E. cbn [Z.to_nat replicate take map].
    now rewrite take_0.
Qed.

Definition translated_map : IdMap :=
  mkIdMap (len (vec p) + 1)
    (map from_transient (rev (vec p)) ++ INVALID_STR_ID :: map from_stored stored)
    (missing from_transient (vec p) + missing from_stored stored).

Lemma stored_length : len stored = sg.
Proof. destruct (tl_source_gen Ht). unfold len in *. rewrite length_take. lia. Qed.

Lemma translated_length : len (vector_map_ translated_map) = len (vec p) + 1 + sg.
Proof.
  pose proof stored_length as E. cbn. unfold len in *.
  rewrite length_app, length_map, length_rev. cbn [length]. rewrite length_map. lia.
Qed.

(** The map of the intersection, with the number of strings without a translation. *)
Lemma intersection_spec :
  0 < len (vec p) + sg ->
  buildIntersectionTranslationMapToOtherProxyUnlocked d p dd q schedules = Ok translated_map.
Proof.
  intros Hpos. pose proof (pk_room p (tl_source Ht)) as Hr. pose proof (len_nonneg (vec p)) as Hl0.
  pose proof source_generation as Hg. unfold max_allowed_transients, INT32_MAX, MAX_STRCOUNT in *.
  unfold buildIntersectionTranslationMapToOtherProxyUnlocked.
  assert (Hne : IdMap_empty (initIdMap p) = false).
  { rewrite source_init. unfold IdMap_empty, len. cbn. rewrite length_app, length_replicate. cbn.
    rewrite length_replicate. apply Z.eqb_neq. unfold len in *. lia. }
  rewrite Hne, translate_transients_spec. cbn [rbind].
  rewrite (transientEntryCountUnlocked_spec q (tl_dest Ht)). cbn [rbind].
  rewrite translate_stored_spec. cbn [rbind].
  rewrite (entryCountUnlocked_spec dd dstrs q (tl_dest Ht) (tl_dest_gen Ht)). cbn [rbind].
  pose proof translated_length as El. cbn [translated_map vector_map_] in El |- *. rewrite El.
  pose proof (missing_bound from_transient (vec p)) as B1.
  pose proof (missing_bound from_stored stored) as B2. rewrite stored_length in B2.
  rewrite !u64_small by lia.
  destruct (Z.ltb_spec 0 (len (vec p) + 1 + sg - 1)); [|lia].
  destruct (Z.leb_spec (missing from_transient (vec p) + missing from_stored stored)
              (len (vec p) + 1 + sg - 1)); [|lia]. reflexivity.
Qed.

End Translate.

End Env.
