(* ===== verification/ProxyMerge.v ===== *)
(** * The union of two proxies by translation ([buildUnionTranslationMapToOtherProxy]) *)

From Stdlib Require Import ZArith Lia List Bool.
From stdpp Require Import base list numbers sets gmap.
From S2P Require Import Prelude StateMonad StringLike DictStorage StringDictionary DictFacts DictQueries DictBulkFacts.
From S2P Require Import StringDictionaryProxy DictInterface ProxyFacts ProxyUnion ProxyTranslate.
Import ListNotations.
Local Open Scope Z_scope.

#[local] Abbreviation vec := transient_string_vec_.

(** ** The loop over the ids without a translation *)

(** What the loop leaves at an id of the string [str] that had [v]. *)
Definition completed (trans : list (list Z)) (str : list Z) (v v' : Z) : Prop :=
  if v =? INVALID_STR_ID then str ∈ trans /\ v' = transient_id trans str else v' = v.

Lemma completed_app trans added str v v' : completed trans str v v' -> completed (trans ++ added) str v v'.
Proof.
  unfold completed. destruct (v =? INVALID_STR_ID); [|auto]. intros [Hin ->].
  split; [set_solver | symmetry; now apply transient_id_app].
Qed.

Record loop_done (l : list Z) (str_of : Z -> list Z) (q q' : StringDictionaryProxy) (m m' : IdMap) : Prop := {
  ld_ok : proxy_ok q';
  ld_view : same_view q q';
  ld_grows : exists added, vec q' = vec q ++ added /\ (length added <= length l)%nat;
  ld_offset : offset_ m' = offset_ m;
  ld_length : length (vector_map_ m') = length (vector_map_ m);
  ld_at id v : id ∈ l -> in_domain m id -> id_at m id = Ok v ->
    exists v', id_at m' id = Ok v' /\ completed (vec q') (str_of id) v v';
  ld_other id : in_domain m id -> id ∉ l -> id_at m' id = id_at m id
}.

Lemma loop_done_nil str_of q m : proxy_ok q -> loop_done [] str_of q q m m.
Proof.
  intros K. split; auto; [now split | exists []; rewrite app_nil_r; auto |].
  intros id v []%elem_of_nil.
Qed.

(** One turn, which left [q1] and [m1]. *)
Lemma loop_done_cons id l str_of q q1 q' m m1 m' :
  id ∉ l -> in_domain m id -> loop_done [id] str_of q q1 m m1 -> loop_done l str_of q1 q' m1 m' ->
  loop_done (id :: l) str_of q q' m m'.
Proof.
  intros Hni Hd [_ V1 (a1 & E1 & L1) O1 N1 A1 X1] [K V (a & E & L) O N A X].
  assert (Hd1 : forall i, in_domain m i -> in_domain m1 i) by (intros; now apply (in_domain_same m)).
  split; [exact K | now apply (same_view_trans q q1) | | congruence | congruence | |].
  - exists (a1 ++ a). rewrite E, E1, app_assoc, length_app. cbn in *. split; [reflexivity | lia].
  - intros i v Hi Hdi Hv. destruct (decide (i = id)) as [->|Ne].
    + destruct (A1 id v ltac:(set_solver) Hd Hv) as (v' & Hv' & Hc). exists v'.
      rewrite X by auto. split; [exact Hv'|]. rewrite E. now apply completed_app.
    + apply A; [set_solver | auto |]. rewrite X1; auto. set_solver.
  - intros i Hi [Ne Hn]%not_elem_of_cons. rewrite X by auto. apply X1; [exact Hi | set_solver].
Qed.

Lemma loop_turn str_of id q m :
  proxy_ok q -> len (vec q) < max_allowed_transients -> in_domain m id ->
  exists q1 m1, loop_done [id] str_of q q1 m m1 /\
    forall fetch l, fetch id = Ok (str_of id) ->
      add_untranslated fetch (id :: l) m q = add_untranslated fetch l m1 q1.
Proof.
  intros K Hr Hd. destruct (id_at_total m id Hd) as [v Hv].
  destruct (Z.eqb_spec v INVALID_STR_ID) as [Ev|Ev].
  - destruct (getOrAddTransientUnlocked_spec q (str_of id) K (or_introl Hr)) as (q1 & E1 & K1 & V1 & Eq1).
    set (t := transient_id _ _) in E1.
    destruct (set_id_at_spec m id t Hd) as (m1 & Em & Eo & El & _ & Ei & Hk).
    exists q1, m1. split.
    + destruct (add_transient_grows (vec q) (str_of id)) as (a & Ea & La).
      split; auto; [exists a; rewrite Eq1; auto | |].
      * intros i w ->%list_elem_of_singleton _ Hw. exists t. split; [exact Ei|].
        rewrite Hv in Hw. injection Hw as <-. unfold completed. rewrite Ev, Z.eqb_refl, Eq1.
        split; [apply add_transient_in | reflexivity].
      * intros i Hi Hn. apply Hk; [exact Hi | set_solver].
    + intros fetch l Hf. cbn [add_untranslated]. unfold bind at 1, from_result at 1. rewrite Hv.
      destruct (Z.eqb_spec v INVALID_STR_ID); [|easy]. unfold bind at 1, from_result at 1. rewrite Hf.
      unfold bind at 1. rewrite E1. fold t. unfold bind at 1, from_result at 1. now rewrite Em.
  - exists q, m. split.
    + split; auto; [now split | exists []; rewrite app_nil_r; cbn; auto |].
      intros i w ->%list_elem_of_singleton _ Hw. exists w. split; [exact Hw|].
      rewrite Hv in Hw. injection Hw as <-. unfold completed. now destruct (Z.eqb_spec v INVALID_STR_ID).
    + intros fetch l _. cbn [add_untranslated]. unfold bind at 1, from_result at 1. rewrite Hv.
      destruct (Z.eqb_spec v INVALID_STR_ID); [easy | reflexivity].
Qed.

Lemma add_untranslated_spec fetch str_of l : forall q m,
  proxy_ok q -> len (vec q) + len l <= max_allowed_transients -> NoDup l ->
  (forall id, id ∈ l -> in_domain m id /\ fetch id = Ok (str_of id)) ->
  exists q' m', add_untranslated fetch l m q = (Ok m', q') /\ loop_done l str_of q q' m m'.
Proof.
  induction l as [|id l IH]; intros q m K Hr Hn Hf.
  { exists q, m. split; [reflexivity | now apply loop_done_nil]. }
  apply list.NoDup_cons in Hn as [Hni Hn]. destruct (Hf id ltac:(set_solver)) as [Hd Hfid].
  destruct (loop_turn str_of id q m K) as (q1 & m1 & D & Hrun);
    [unfold len in *; cbn in Hr; lia | exact Hd |].
  rewrite (Hrun fetch l Hfid). destruct (ld_grows _ _ _ _ _ _ D) as (a & Ea & La).
  destruct (IH q1 m1 (ld_ok _ _ _ _ _ _ D)) as (q' & m' & E & D');
    [rewrite Ea; unfold len in *; rewrite length_app; cbn in *; lia | exact Hn | |].
  - intros i Hi. destruct (Hf i ltac:(set_solver)) as [Hdi Hfi]. split; [|exact Hfi].
    apply (in_domain_same m); [apply (ld_offset _ _ _ _ _ _ D) | apply (ld_length _ _ _ _ _ _ D) | exact Hdi].
  - exists q', m'. split; [exact E|]. now apply (loop_done_cons id l str_of q q1 q' m m1 m').
Qed.

(** ** The map after the translation *)

Lemma id_range_elem a b id : id ∈ id_range a b <-> a <= id < b.
Proof.
  unfold id_range. split.
  - intros (i & -> & Hi%elem_of_seq)%list_elem_of_fmap. lia.
  - intros Hi. apply list_elem_of_fmap. exists (Z.to_nat (id - a)). rewrite elem_of_seq. lia.
Qed.

Lemma id_range_nodup a b : NoDup (id_range a b).
Proof.
  assert (Hinj : Inj (=) (=) (fun i => a + Z.of_nat i)) by (intros i j; lia).
  apply (NoDup_fmap_2 (fun i => a + Z.of_nat i)), NoDup_seq.
Qed.

Lemma id_range_length a b : a <= b -> len (id_range a b) = b - a.
Proof. intros Hab. unfold id_range, len. rewrite length_map, length_seq. lia. Qed.

(** A string that had [v] in the map, an id of it in the view of [trans] or none, has its id in
    the later view. *)
Lemma completed_view strs g trans added str v v' :
  v = view_id strs g trans str \/ (v = INVALID_STR_ID /\ bulk_id32 strs g str = INVALID_STR_ID) ->
  completed (trans ++ added) str v v' ->
  v' = view_id strs g (trans ++ added) str /\ v' <> INVALID_STR_ID.
Proof.
  intros Hv Hc. unfold completed, view_id, or_trans in *.
  assert (Hnew : str ∈ trans ++ added -> transient_id (trans ++ added) str <> INVALID_STR_ID)
    by (rewrite transient_id_absent; tauto).
  destruct (Z.eqb_spec (bulk_id32 strs g str) INVALID_STR_ID) as [Eb|Eb].
  - destruct (Z.eqb_spec v INVALID_STR_ID) as [Ev|Ev]; [destruct Hc as [Hin ->]; auto|].
    destruct Hv as [->|[? _]]; [|easy]. subst v'. split; [|exact Ev].
    symmetry. apply transient_id_app. destruct (decide (str ∈ trans)); [assumption|].
    destruct Ev. now apply transient_id_absent.
  - destruct Hv as [->|[_ ?]]; [|easy]. destruct (Z.eqb_spec (bulk_id32 strs g str) INVALID_STR_ID); [easy|].
    subst v'. auto.
Qed.

Section Merge.

Context `{DictEnvOk} (d dd : StringDictionary) (sstrs dstrs : list (list Z)).
Context `{!DictionarySpec d sstrs} `{!DictionarySpec dd dstrs}.
Context (p q : StringDictionaryProxy) (schedules : TranslationSchedules).
Hypothesis Ht : translatable d dd sstrs dstrs p q schedules.
Hypothesis Htrans : vec q <> [].
Hypothesis Hroom : len (vec q) + len (vec p) + generation_ p <= max_allowed_transients.

#[local] Abbreviation sg := (generation_ p).
#[local] Abbreviation dg := (generation_ q).
#[local] Abbreviation the_map := (translated_map sstrs dstrs p q).

Lemma map_domain id : -1 - len (vec p) <= id < sg -> in_domain the_map id.
Proof.
  intros Hid. pose proof (translated_length d dd sstrs dstrs p q schedules Ht) as El.
  pose proof (len_nonneg (vec q)). unfold in_domain. rewrite El. cbn [translated_map offset_].
  unfold max_allowed_transients, INT32_MAX in *. lia.
Qed.

(** The entry of a string is its id in the view of the destination, or nothing. *)
Lemma stored_view str : str <> [] ->
  map_id dstrs dg (transient_id (vec q)) str = view_id dstrs dg (vec q) str \/
  (map_id dstrs dg (transient_id (vec q)) str = INVALID_STR_ID /\ bulk_id32 dstrs dg str = INVALID_STR_ID).
Proof.
  intros Hne. unfold map_id, view_id, or_trans, bulk_id32, bulk_id, to_id.
  destruct (Z.eqb_spec dg 0); [now right|]. left. rewrite decide_False by exact Hne.
  pose proof (find_id_bounds dstrs str (ds_max (d := dd))).
  destruct (found_id_cases dstrs dg str) as [-> | [-> Hf]]; [reflexivity|].
  now rewrite s32_small by lia.
Qed.

Lemma entry_transient i str :
  vec p !! i = Some str -> id_at the_map (-2 - Z.of_nat i) = Ok (view_id dstrs dg (vec q) str).
Proof.
  intros Hi. apply lookup_lt_Some in Hi as Hl.
  apply id_at_spec; [apply map_domain; destruct (tl_source_gen _ _ _ _ _ _ _ Ht); unfold len; lia|].
  cbn [translated_map offset_ vector_map_].
  replace (Z.to_nat (len (vec p) + 1 + (-2 - Z.of_nat i))) with (length (vec p) - S i)%nat by (unfold len; lia).
  rewrite lookup_app_l by (rewrite length_map, length_rev; lia).
  change (map ?f ?l) with (f <$> l). rewrite list_lookup_fmap.
  destruct (lookup_lt_is_Some_2 (rev (vec p)) (length (vec p) - S i)) as [x Hx];
    [rewrite length_rev; lia|].
  rewrite Hx. cbn. do 2 f_equal. apply (nth_lookup_Some _ _ [] _) in Hx. rewrite <- Hx, rev_nth by lia.
  replace (length (vec p) - S (length (vec p) - S i))%nat with i by lia. now apply nth_lookup_Some.
Qed.

Lemma entry_stored i str :
  sstrs !! i = Some str -> Z.of_nat i < sg ->
  id_at the_map (Z.of_nat i) = Ok (map_id dstrs dg (transient_id (vec q)) str).
Proof.
  intros Hi Hg. apply id_at_spec; [apply map_domain; pose proof (len_nonneg (vec p)); lia|].
  cbn [translated_map offset_ vector_map_].
  rewrite lookup_app_r by (rewrite length_map, length_rev; unfold len; lia).
  rewrite length_map, length_rev.
  replace (Z.to_nat (len (vec p) + 1 + Z.of_nat i) - length (vec p))%nat with (S i) by (unfold len; lia).
  apply lookup_cons_Some. right. split; [lia|]. replace (S i - 1)%nat with i by lia.
  change (map ?f ?l) with (f <$> l). now rewrite list_lookup_fmap, lookup_take_lt, Hi by lia.
Qed.

Lemma entry_invalid : id_at the_map INVALID_STR_ID = Ok INVALID_STR_ID.
Proof.
  destruct (tl_source_gen _ _ _ _ _ _ _ Ht). apply id_at_spec;
    [apply map_domain; pose proof (len_nonneg (vec p)); unfold INVALID_STR_ID; lia|].
  cbn [translated_map offset_ vector_map_]. unfold INVALID_STR_ID at 1.
  rewrite lookup_app_r by (rewrite length_map, length_rev; unfold len; lia).
  rewrite length_map, length_rev.
  now replace (Z.to_nat (len (vec p) + 1 + -1) - length (vec p))%nat with 0%nat by (unfold len; lia).
Qed.

(** The entry of any string of the source. *)
Lemma entry_of str id :
  (str, id) ∈ strings_of sstrs p ->
  exists v, id_at the_map id = Ok v /\
    (v = view_id dstrs dg (vec q) str \/ (v = INVALID_STR_ID /\ bulk_id32 dstrs dg str = INVALID_STR_ID)).
Proof.
  unfold strings_of. intros [(i & [= -> ->] & Hi%elem_of_seq)%list_elem_of_fmap
                            |(i & [= -> ->] & Hi%elem_of_seq)%list_elem_of_fmap]%elem_of_app.
  - destruct (lookup_lt_is_Some_2 (vec p) i ltac:(lia)) as [str Hs]. rewrite (nth_lookup_Some _ _ _ _ Hs).
    exists (view_id dstrs dg (vec q) str). split; [now apply entry_transient | now left].
  - destruct (tl_source_gen _ _ _ _ _ _ _ Ht) as [Hg Hm].
    destruct (lookup_lt_is_Some_2 sstrs i) as [str Hs]; [unfold len in Hm; lia|].
    rewrite (nth_lookup_Some _ _ _ _ Hs). eexists. split; [apply (entry_stored i str Hs); lia|].
    apply stored_view. intros ->. apply (ds_nonempty (d := d)). now apply list_elem_of_lookup_2 in Hs.
Qed.

(** ** The union *)

(** The proxy and the map that the union leaves. *)
Record merged (q' : StringDictionaryProxy) (m' : IdMap) : Prop := {
  mg_ok : proxy_ok q';
  mg_view : same_view q q';
  mg_grows : exists added, vec q' = vec q ++ added;
  mg_at str id : (str, id) ∈ strings_of sstrs p ->
    id_at m' id = Ok (view_id dstrs dg (vec q') str) /\ view_id dstrs dg (vec q') str <> INVALID_STR_ID;
  mg_invalid : id_at m' INVALID_STR_ID = Ok INVALID_STR_ID
}.

(** Nothing to add. *)
Lemma merged_complete :
  num_untranslated_strings_ the_map = 0 -> merged q the_map.
Proof.
  intros Hz. cbn in Hz. pose proof (missing_bound (view_id dstrs dg (vec q)) (vec p)) as B1.
  pose proof (missing_bound (map_id dstrs dg (transient_id (vec q))) (take (Z.to_nat sg) sstrs)) as B2.
  split; [apply (tl_dest _ _ _ _ _ _ _ Ht) | now split | exists []; now rewrite app_nil_r | |
          exact entry_invalid].
  unfold strings_of. intros str id
    [(i & [= -> ->] & Hi%elem_of_seq)%list_elem_of_fmap
    |(i & [= -> ->] & Hi%elem_of_seq)%list_elem_of_fmap]%elem_of_app.
  - destruct (lookup_lt_is_Some_2 (vec p) i ltac:(lia)) as [str Hs]. rewrite (nth_lookup_Some _ _ _ _ Hs).
    split; [now apply entry_transient|]. apply missing_zero with (vec p); [lia|].
    now apply list_elem_of_lookup_2 in Hs.
  - destruct (tl_source_gen _ _ _ _ _ _ _ Ht) as [Hg Hm].
    destruct (lookup_lt_is_Some_2 sstrs i) as [str Hs]; [unfold len in Hm; lia|].
    rewrite (nth_lookup_Some _ _ _ _ Hs).
    assert (Hn : map_id dstrs dg (transient_id (vec q)) str <> INVALID_STR_ID).
    { apply missing_zero with (take (Z.to_nat sg) sstrs); [lia|].
      apply list_elem_of_lookup_2 with i. now rewrite lookup_take_lt by lia. }
    assert (Hne : str <> []).
    { intros ->. apply (ds_nonempty (d := d)). now apply list_elem_of_lookup_2 in Hs. }
    destruct (stored_view str Hne) as [E|[E _]]; [|easy].
    rewrite <- E. split; [apply entry_stored; [exact Hs | lia] | exact Hn].
Qed.

(** The strings that the two loops fetch. *)
Lemma fetch_transient id :
  -1 - len (vec p) <= id < -1 ->
  Proxy_getStringUnlocked d p id = Ok (nth (Z.to_nat (-2 - id)) (vec p) []).
Proof.
  intros Hid. destruct (lookup_lt_is_Some_2 (vec p) (Z.to_nat (-2 - id))) as [str Hs]; [unfold len in Hid; lia|].
  rewrite (nth_lookup_Some _ _ _ _ Hs).
  pose proof (getString_transient d p _ str (tl_source _ _ _ _ _ _ _ Ht) Hs) as E.
  replace (-2 - Z.of_nat (Z.to_nat (-2 - id))) with id in E by lia. unfold Proxy_getString in E.
  pose proof (pk_room p (tl_source _ _ _ _ _ _ _ Ht)). unfold max_allowed_transients, INT32_MAX, INT32_MIN in *.
  destruct (Z.eqb_spec (-2147483648) id); [lia | exact E].
Qed.

Lemma fetch_stored id : 0 <= id < sg -> getString d id = Ok (nth (Z.to_nat id) sstrs []).
Proof.
  intros Hid. destruct (tl_source_gen _ _ _ _ _ _ _ Ht) as [_ Hm].
  destruct (lookup_lt_is_Some_2 sstrs (Z.to_nat id)) as [str Hs]; [unfold len in Hm; lia|].
  rewrite (nth_lookup_Some _ _ _ _ Hs). rewrite <- (Z2Nat.id id) by lia. now apply (ds_string (d := d)).
Qed.

Lemma map_domain_ends : domainStart the_map = -1 - len (vec p) /\ domainEnd the_map = sg.
Proof.
  pose proof (translated_length d dd sstrs dstrs p q schedules Ht) as El.
  destruct (tl_source_gen _ _ _ _ _ _ _ Ht) as [Hg _].
  pose proof (len_nonneg (vec p)). pose proof (len_nonneg (vec q)).
  unfold max_allowed_transients, INT32_MAX in *. unfold domainStart, domainEnd, numNonTransients.
  rewrite El. cbn [translated_map offset_].
  rewrite u64_small, (s32_small (len (vec p) + 1)) by lia.
  rewrite !s32_small by lia. lia.
Qed.

(** The two loops. *)
Lemma merged_loops q1 m1 q2 m2 :
  loop_done (id_range (-1 - len (vec p)) (-1)) (fun id => nth (Z.to_nat (-2 - id)) (vec p) []) q q1 the_map m1 ->
  loop_done (id_range 0 sg) (fun id => nth (Z.to_nat id) sstrs []) q1 q2 m1 m2 -> merged q2 m2.
Proof.
  intros [K1 V1 (a1 & E1 & _) O1 N1 A1 X1] [K2 V2 (a2 & E2 & _) O2 N2 A2 X2].
  pose proof (len_nonneg (vec p)) as Hl0. destruct (tl_source_gen _ _ _ _ _ _ _ Ht) as [Hg _].
  assert (Hd1 : forall id, -1 - len (vec p) <= id < sg -> in_domain m1 id)
    by (intros; apply (in_domain_same the_map); auto using map_domain).
  split; [exact K2 | now apply (same_view_trans q q1) | exists (a1 ++ a2); now rewrite E2, E1, app_assoc | |].
  - intros str id Hs. destruct (entry_of str id Hs) as (v & Hv & Hcase).
    assert (Hdone : exists v', id_at m2 id = Ok v' /\ completed (vec q2) str v v').
    { unfold strings_of in Hs. apply elem_of_app in Hs as
        [(i & [= -> ->] & Hi%elem_of_seq)%list_elem_of_fmap|(i & [= -> ->] & Hi%elem_of_seq)%list_elem_of_fmap].
      - destruct (A1 (-2 - Z.of_nat i) v) as (v' & Hv' & Hc);
          [apply id_range_elem; unfold len; lia | apply map_domain; unfold len; lia | exact Hv |].
        exists v'. rewrite X2; [|apply Hd1; unfold len; lia | rewrite id_range_elem; lia].
        split; [exact Hv'|]. rewrite E2. apply completed_app.
        now replace (Z.to_nat (-2 - (-2 - Z.of_nat i))) with i in Hc by lia.
      - destruct (A2 (Z.of_nat i) v) as (v' & Hv' & Hc);
          [apply id_range_elem; lia | apply Hd1; lia | |].
        + rewrite X1; [exact Hv | apply map_domain; lia | rewrite id_range_elem; lia].
        + exists v'. rewrite Nat2Z.id in Hc. auto. }
    destruct Hdone as (v' & Hv' & Hc). rewrite E2, E1, <- app_assoc in Hc |- *.
    destruct (completed_view dstrs dg (vec q) (a1 ++ a2) str v v' Hcase Hc) as [<- Hne]. auto.
  - rewrite X2, X1; [exact entry_invalid | | | |]; rewrite ?id_range_elem; unfold INVALID_STR_ID; try lia;
      [apply map_domain | apply Hd1]; lia.
Qed.

Lemma union_nonempty :
  0 < len (vec p) + sg ->
  exists q' m', buildUnionTranslationMapToOtherProxy d p dd schedules q = (Ok m', q') /\ merged q' m'.
Proof.
  intros Hpos. pose proof (len_nonneg (vec p)) as Hl0. pose proof (len_nonneg (vec q)) as Hlq.
  destruct (tl_source_gen _ _ _ _ _ _ _ Ht) as [Hg _]. destruct map_domain_ends as [Es Ee].
  pose proof (missing_bound (view_id dstrs dg (vec q)) (vec p)) as B1.
  pose proof (missing_bound (map_id dstrs dg (transient_id (vec q))) (take (Z.to_nat sg) sstrs)) as B2.
  rewrite (stored_length d dd sstrs dstrs p q schedules Ht) in B2.
  pose proof Hroom as Hroom'. unfold max_allowed_transients, INT32_MAX in Hroom'.
  unfold buildUnionTranslationMapToOtherProxy, bind at 1.
  rewrite (intersection_spec d dd sstrs dstrs p q schedules Ht Htrans Hpos).
  assert (Hne : IdMap_empty the_map = false).
  { unfold IdMap_empty. rewrite (translated_length d dd sstrs dstrs p q schedules Ht). apply Z.eqb_neq. lia. }
  rewrite Hne. unfold bind at 1, from_result at 1, numUntranslatedStrings.
  destruct (Z.leb_spec 0 (num_untranslated_strings_ the_map)) as [Hn|Hn]; [|cbn in Hn; lia].
  destruct (Z.ltb_spec 0 (num_untranslated_strings_ the_map)) as [Hlt|Hle].
  2: { exists q, the_map. split; [reflexivity|]. apply merged_complete. lia. }
  unfold bind at 1. rewrite (transientEntryCountUnlocked_spec q (tl_dest _ _ _ _ _ _ _ Ht)).
  rewrite u64_small by (cbn [translated_map num_untranslated_strings_]; lia).
  destruct (Z.ltb_spec max_allowed_transients (num_untranslated_strings_ the_map + len (vec q))) as [Hb|_];
    [cbn [translated_map num_untranslated_strings_] in Hb; lia|].
  rewrite Es, Ee.
  destruct (add_untranslated_spec (Proxy_getStringUnlocked d p) (fun id => nth (Z.to_nat (-2 - id)) (vec p) [])
              (id_range (-1 - len (vec p)) (-1)) q the_map (tl_dest _ _ _ _ _ _ _ Ht)) as (q1 & m1 & R1 & D1);
    [rewrite id_range_length by lia; lia | apply id_range_nodup | |].
  { intros id Hid%id_range_elem. split; [apply map_domain; lia | now apply fetch_transient]. }
  unfold bind at 1. rewrite R1. destruct (ld_grows _ _ _ _ _ _ D1) as (a1 & Ea & La).
  pose proof (id_range_length (-1 - len (vec p)) (-1) ltac:(lia)) as El.
  destruct (add_untranslated_spec (getString d) (fun id => nth (Z.to_nat id) sstrs [])
              (id_range 0 sg) q1 m1 (ld_ok _ _ _ _ _ _ D1)) as (q2 & m2 & R2 & D2);
    [rewrite id_range_length, Ea by lia; unfold len in *; rewrite length_app; lia | apply id_range_nodup | |].
  { intros id Hid%id_range_elem. split; [|now apply fetch_stored].
    apply (in_domain_same the_map); [apply (ld_offset _ _ _ _ _ _ D1) | apply (ld_length _ _ _ _ _ _ D1) |].
    apply map_domain. lia. }
  exists q2, m2. split; [exact R2 | now apply (merged_loops q1 m1)].
Qed.

End Merge.

(** What the ids of the map denote. *)
Lemma view_id_denotes `{DictEnv} dd dstrs `{!DictionarySpec dd dstrs} q' str :
  proxy_ok q' -> generation_ok q' dstrs -> view_id dstrs (generation_ q') (vec q') str <> INVALID_STR_ID ->
  Proxy_getString dd q' (view_id dstrs (generation_ q') (vec q') str) = Ok str /\
  (str <> [] -> Proxy_getIdOfString dd q' str = Ok (view_id dstrs (generation_ q') (vec q') str)).
Proof.
  intros K G Hv. rewrite (Proxy_getIdOfString_spec dd dstrs) by assumption.
  assert (Hid : str <> [] ->
    view_id dstrs (generation_ q') (vec q') str = proxy_id dstrs (generation_ q') (vec q') str).
  { intros Hne. unfold view_id, or_trans, proxy_id, bulk_id32, bulk_id, to_id. rewrite decide_False by exact Hne.
    pose proof (find_id_bounds dstrs str (ds_max (d := dd))).
    destruct (found_id_cases dstrs (generation_ q') str) as [-> | [-> Hf]].
    - now destruct (generation_ q' =? 0).
    - destruct (Z.eqb_spec (generation_ q') 0); [lia|]. now rewrite s32_small by lia. }
  split; [|intros Hne; now rewrite Hid]. destruct (decide (str = [])) as [->|Hne].
  - unfold view_id, or_trans, bulk_id32 in *. destruct (Z.eqb_spec (generation_ q') 0) as [_|_]; [|reflexivity].
    cbn [Z.eqb] in Hv |- *. rewrite Z.eqb_refl in Hv |- *.
    destruct (transient_id_cases (vec q') []) as [[E _]|(i & -> & Hi)]; [easy | now apply getString_transient].
  - rewrite Hid in * by exact Hne. now apply (proxy_id_string dd dstrs).
Qed.
