(* ===== verification/ProxyLife.v ===== *)
(** * The life of a proxy

    A dictionary and a proxy on it, with their operations in any order; the queries through a
    proxy; and the order of the locks of a translation. *)

From Stdlib Require Import ZArith Lia List Bool.
From stdpp Require Import base list numbers sets gmap.
From S2P Require Import Prelude StateMonad StringLike DictStorage StringDictionary DictFacts DictOps DictQueries DictQueryFacts DictBulkFacts DictLife.
From S2P Require Import StringDictionaryProxy DictInterface ProxyFacts ProxyUnion.
Import ListNotations.
Local Open Scope Z_scope.

#[local] Abbreviation vec := transient_string_vec_.

(** ** Operations that only add transient strings *)

(** [p'] has the strings of [p] and at most [n] more. *)
Record grown (n : nat) (p p' : StringDictionaryProxy) : Prop := {
  gr_ok : proxy_ok p';
  gr_view : same_view p p';
  gr_vec : exists added, vec p' = vec p ++ added /\ (length added <= n)%nat
}.

Lemma grown_refl n p : proxy_ok p -> grown n p p.
Proof. intros K. split; [exact K | now split | exists []; rewrite app_nil_r; split; [reflexivity | cbn; lia]]. Qed.

Lemma grown_trans n1 n2 p1 p2 p3 : grown n1 p1 p2 -> grown n2 p2 p3 -> grown (n1 + n2) p1 p3.
Proof.
  intros [_ V1 (a1 & E1 & L1)] [K V2 (a2 & E2 & L2)]. split; [exact K | now apply (same_view_trans p1 p2)|].
  exists (a1 ++ a2). rewrite E2, E1, app_assoc, length_app. split; [reflexivity | lia].
Qed.

Lemma grown_unlocked p str id p' :
  proxy_ok p -> len (vec p) < max_allowed_transients -> getOrAddTransientUnlocked str p = (Ok id, p') -> grown 1 p p'.
Proof.
  intros K Hr E. destruct (getOrAddTransientUnlocked_spec p str K (or_introl Hr)) as (p1 & E1 & K1 & V1 & Ev).
  rewrite E1 in E. injection E as _ <-. split; auto. rewrite Ev. apply add_transient_grows.
Qed.

Lemma grown_missing strings : forall p string_ids ids p',
  proxy_ok p -> len (vec p) + len strings <= max_allowed_transients ->
  add_missing strings string_ids p = (Ok ids, p') -> grown (length strings) p p'.
Proof.
  induction strings as [|str strings IH]; intros p string_ids ids p' K Hr E.
  { cbn in E. injection E as _ <-. now apply grown_refl. }
  destruct string_ids as [|string_id string_ids]; cbn in E; [injection E as _ <-; now apply grown_refl|].
  apply bind_ok_inv in E as (id & p1 & E1 & E). apply bind_ok_inv in E as (rest & p2 & E2 & E).
  injection E as _ <-. assert (Hr1 : len (vec p) < max_allowed_transients) by (unfold len in *; cbn in Hr; lia).
  assert (G1 : grown 1 p p1).
  { destruct (string_id =? INVALID_STR_ID); [now apply (grown_unlocked p str id)|].
    injection E1 as _ <-. now apply grown_refl. }
  apply (grown_trans 1 (length strings) p p1 p2 G1). destruct G1 as [K1 _ (a & Ea & La)].
  apply (IH p1 string_ids rest p2 K1); [|exact E2].
  rewrite Ea. unfold len in *. rewrite length_app. cbn in Hr. lia.
Qed.

Section Env.

Context `{DictEnvOk}.

Lemma grown_bulk d strings schedule p ids p' :
  proxy_ok p -> len (vec p) + len strings <= max_allowed_transients ->
  getOrAddTransientBulk d strings schedule p = (Ok ids, p') -> grown (length strings) p p'.
Proof.
  intros K Hr E. unfold getOrAddTransientBulk in E. apply bind_ok_inv in E as (g & p1 & E1 & E).
  injection E1 as <- <-. destruct (negb (0 <=? generation_ p)); [discriminate|].
  destruct (len strings =? 0); [injection E as _ <-; now apply grown_refl|].
  apply bind_ok_inv in E as ([string_ids n] & p1 & E1 & E). unfold from_result in E1.
  injection E1 as E1 <-. destruct (0 <? n); [now apply (grown_missing strings p string_ids ids)|].
  injection E as _ <-. now apply grown_refl.
Qed.

(** *** The union by translation *)

Lemma run_range_keeps {A : Type} (body : nat -> A -> result DictError (A * Z)) (P : A -> Prop) n :
  (forall i a a' k, P a -> body i a = Ok (a', k) -> P a') ->
  forall i a count a' k, P a -> run_range body n i a count = Ok (a', k) -> P a'.
Proof.
  intros Hb. induction n as [|n IH]; intros i a count a' k Ha; cbn; [now intros [= <- _]|].
  destruct (body i a) as [[a1 k1]|] eqn:E; [|discriminate]. eauto.
Qed.

Lemma run_schedule_keeps {A : Type} (body : nat -> A -> result DictError (A * Z)) note (P : A -> Prop) schedule :
  (forall i a a' k, P a -> body i a = Ok (a', k) -> P a') ->
  forall a counts a' counts', P a -> run_schedule body note schedule a counts = Ok (a', counts') -> P a'.
Proof.
  intros Hb. induction schedule as [|[t [f l]] rest IH]; intros a counts a' counts' Ha; cbn; [now intros [= <- _]|].
  destruct (run_range body (l - f) f a 0) as [[a1 k]|] eqn:E; [|discriminate].
  apply (run_range_keeps body P _ Hb) in E; [|exact Ha]. destruct (counts !! t); [eauto | discriminate].
Qed.

Ltac by_cases :=
  repeat match goal with
  | |- context [match ?x with _ => _ end] => destruct x
  end; try discriminate.

Lemma getBulk_length d T strings g schedule ids n :
  getBulk d T strings g schedule = Ok (ids, n) -> length ids = length strings.
Proof.
  unfold getBulk. destruct (Z.eqb_spec (len strings) 0) as [E|_].
  { intros [= <- _]. unfold len in E. cbn. lia. }
  destruct (_ =? 0); [intros [= <- _]; apply length_map|].
  destruct (run_schedule _ _ _ _ _) as [[l c]|] eqn:E; [|discriminate]. intros [= <- _].
  apply (run_schedule_keeps _ _ (fun l => length l = length strings)) in E; [exact E | | apply length_map].
  intros i a a' k Ha. unfold getBulk_body. by_cases; intros [= <- _]; now rewrite length_insert.
Qed.

Lemma transientLookupBulkUnlocked_length p strings : forall ids,
  length (fst (transientLookupBulkUnlocked p strings ids)) = length ids.
Proof.
  induction strings as [|str strings IH]; intros [|id ids]; cbn; try reflexivity. specialize (IH ids).
  destruct (transientLookupBulkUnlocked p strings ids). destruct (negb _); cbn in *; now rewrite IH.
Qed.

Lemma getTransientBulkImpl_length d p strings bs ls ids n :
  getTransientBulkImpl d p strings bs ls = Ok (ids, n) -> length ids = length strings.
Proof.
  unfold getTransientBulkImpl. destruct (Z.eqb_spec (len strings) 0) as [E|_].
  { intros [= <- _]. unfold len in E. cbn. lia. }
  destruct (getBulk _ _ _ _ _) as [[l c]|] eqn:E; [|discriminate]. apply getBulk_length in E.
  destruct (c =? 0); [now intros [= <- _]|]. unfold transientLookupBulk.
  destruct (_ || _); [now intros [= <- _]|]. destruct (_ <? _).
  - intros [= E']. pose proof (transientLookupBulkUnlocked_length p strings l) as L. now rewrite E' in L; cbn in L; congruence.
  - unfold transientLookupBulkParallelUnlocked. destruct (negb _); [discriminate|].
    destruct (run_schedule _ _ _ _ _) as [[l' c']|] eqn:E'; [|discriminate]. intros [= <- _].
    apply (run_schedule_keeps _ _ (fun l => length l = length strings)) in E'; [exact E' | | exact E].
    intros i a a' k Ha. unfold transient_lookup_body. by_cases; intros [= <- _]; now rewrite ?length_insert.
Qed.

Lemma translation_length d dd ids sg dg b q schedule ids' n :
  (Z.to_nat sg <= length ids)%nat ->
  buildDictionaryTranslationMap d dd ids sg dg b (dest_transient_lookup_callback q) schedule = Ok (ids', n) ->
  length ids' = length ids.
Proof.
  intros Hl. unfold buildDictionaryTranslationMap. destruct (negb _); [discriminate|].
  destruct (sg =? 0); [now intros [= <- _]|]. destruct (bool_decide _); [discriminate|].
  destruct (negb _); [discriminate|]. destruct (dg =? 0).
  { intros [= <- _]. rewrite length_app, length_replicate, length_drop. lia. }
  destruct (run_schedule _ _ _ _ _) as [[l c]|] eqn:E; [|discriminate]. intros [= <- _].
  apply (run_schedule_keeps _ _ (fun l => length l = length ids)) in E; [exact E | | reflexivity].
  intros i a a' k Ha. unfold translate_body, dest_transient_lookup_callback.
  by_cases; intros [= <- _]; now rewrite ?length_insert.
Qed.

(** [m'] has the shape of [m]. *)
Definition same_shape (m m' : IdMap) : Prop :=
  offset_ m' = offset_ m /\ length (vector_map_ m') = length (vector_map_ m).

Lemma translate_transients_shape p dd q bs ls m m' n :
  (length (vec p) <= length (vector_map_ m))%nat ->
  translate_transients p dd q bs ls m = Ok (m', n) -> same_shape m m'.
Proof.
  intros Hl. unfold translate_transients. destruct (_ =? 0); [intros [= <- _]; now split|].
  destruct (getTransientBulkImpl _ _ _ _ _) as [[ids k]|] eqn:E; [|discriminate]. intros [= <- _].
  apply getTransientBulkImpl_length in E. rewrite length_rev in E. split; [reflexivity|]. cbn.
  rewrite length_app, length_drop. lia.
Qed.

Lemma translate_stored_shape d p dd q n schedule m m' k :
  (Z.to_nat (offset_ m) + Z.to_nat (generation_ p) <= length (vector_map_ m))%nat ->
  translate_stored d p dd q n schedule m = Ok (m', k) -> same_shape m m'.
Proof.
  intros Hl. unfold translate_stored. destruct (0 <? _); [|intros [= <- _]; now split].
  destruct (buildDictionaryTranslationMap _ _ _ _ _ _ _ _) as [[ids j]|] eqn:E; [|discriminate]. intros [= <- _].
  apply translation_length in E; [|rewrite length_drop; lia]. rewrite length_drop in E. split; [reflexivity|]. cbn.
  rewrite length_app, length_take. lia.
Qed.

(** The map has an entry for every string of the source. *)
Lemma intersection_shape d p dd q schedules m :
  proxy_ok p -> 0 <= generation_ p <= MAX_STRCOUNT ->
  buildIntersectionTranslationMapToOtherProxyUnlocked d p dd q schedules = Ok m ->
  offset_ m = len (vec p) + 1 /\ len (vector_map_ m) = len (vec p) + 1 + generation_ p.
Proof.
  intros K Hg. pose proof (initIdMap_spec p _ (pk_room p K) eq_refl Hg) as Ei.
  assert (Hshape : offset_ (initIdMap p) = len (vec p) + 1 /\
    length (vector_map_ (initIdMap p)) = (length (vec p) + 1 + Z.to_nat (generation_ p))%nat).
  { rewrite Ei. cbn. rewrite length_app. cbn. rewrite !length_replicate. split; [reflexivity | lia]. }
  clear Ei. unfold buildIntersectionTranslationMapToOtherProxyUnlocked. cbv zeta.
  destruct Hshape as [Ho Hl]. unfold len in *.
  destruct (IdMap_empty (initIdMap p)); [intros [= <-]; lia|].
  destruct (translate_transients _ _ _ _ _ _) as [[m1 n1]|] eqn:E1; [|discriminate]. cbn.
  apply translate_transients_shape in E1 as [Ho1 Hl1]; [|lia].
  destruct (transientEntryCountUnlocked q) as [n|]; [|discriminate]. cbn.
  destruct (translate_stored _ _ _ _ _ _ _) as [[m2 n2]|] eqn:E2; [|discriminate]. cbn.
  apply translate_stored_shape in E2 as [Ho2 Hl2]; [|lia].
  destruct (entryCountUnlocked dd q); [|discriminate]. cbn. destruct (_ && _); [|discriminate].
  intros [= <-]. cbn. lia.
Qed.

Lemma grown_untranslated fetch source_ids : forall m p m' p',
  proxy_ok p -> len (vec p) + len source_ids <= max_allowed_transients ->
  add_untranslated fetch source_ids m p = (Ok m', p') -> grown (length source_ids) p p'.
Proof.
  induction source_ids as [|id ids IH]; intros m p m' p' K Hr E; cbn [add_untranslated] in E.
  { injection E as _ <-. now apply grown_refl. }
  assert (Hr1 : len (vec p) < max_allowed_transients) by (unfold len in *; cbn in Hr; lia).
  apply bind_ok_inv in E as (cur & p1 & E1 & E). injection E1 as _ <-.
  destruct (cur =? INVALID_STR_ID).
  - apply bind_ok_inv in E as (str & p1 & E1 & E). injection E1 as _ <-.
    apply bind_ok_inv in E as (dest & p1 & E1 & E). apply bind_ok_inv in E as (m1 & p2 & E2 & E). injection E2 as _ <-.
    pose proof (grown_unlocked p str dest p1 K Hr1 E1) as G1.
    apply (grown_trans 1 (length ids) p p1 p' G1). destruct G1 as [K1 _ (a & Ea & La)].
    apply (IH m1 p1 m' p' K1); [|exact E]. rewrite Ea. unfold len in *. rewrite length_app. cbn in Hr. lia.
  - change (length (id :: ids)) with (1 + length ids)%nat. apply (grown_trans 1 (length ids) p p p');
      [now apply grown_refl|]. apply (IH m p m' p' K); [unfold len in *; cbn in Hr; lia | exact E].
Qed.

Lemma length_id_range first last : length (id_range first last) = Z.to_nat (last - first).
Proof. unfold id_range. now rewrite length_map, length_seq. Qed.

Lemma grown_translation d p dd schedules q m q' :
  proxy_ok p -> 0 <= generation_ p <= MAX_STRCOUNT -> proxy_ok q ->
  len (vec q) + len (vec p) + generation_ p <= max_allowed_transients ->
  buildUnionTranslationMapToOtherProxy d p dd schedules q = (Ok m, q') ->
  grown (length (vec p) + Z.to_nat (generation_ p)) q q'.
Proof.
  intros Kp Hg Kq Hr E. unfold buildUnionTranslationMapToOtherProxy in E.
  apply bind_ok_inv in E as (m0 & q0 & E0 & E). injection E0 as E0 <-.
  apply intersection_shape in E0 as [Ho Hl]; auto.
  destruct (IdMap_empty m0); [injection E as _ <-; now apply grown_refl|].
  apply bind_ok_inv in E as (n & q0 & E0 & E). injection E0 as _ <-.
  destruct (0 <? n); [|injection E as _ <-; now apply grown_refl].
  apply bind_ok_inv in E as (t & q0 & E0 & E). injection E0 as _ <-.
  destruct (_ <? _); [discriminate|]. cbv zeta in E. apply bind_ok_inv in E as (m1 & q1 & E1 & E).
  pose proof (len_nonneg (vec p)). pose proof (len_nonneg (vec q)). unfold max_allowed_transients, INT32_MAX in Hr.
  unfold domainStart, domainEnd, numNonTransients in *. rewrite Ho, Hl in *.
  rewrite u64_small, (s32_small (len (vec p) + 1)) in * by lia. rewrite !s32_small in * by lia.
  assert (L1 : length (id_range (- (len (vec p) + 1)) (-1)) = length (vec p))
    by (rewrite length_id_range; unfold len; lia).
  apply grown_untranslated in E1 as G1; [|exact Kq | unfold len at 2; rewrite L1; unfold len, max_allowed_transients, INT32_MAX in *; lia].
  rewrite L1 in G1. apply (grown_trans _ _ q q1 q' G1). destruct G1 as [K1 _ (a & Ea & La)].
  set (ids := id_range 0 _) in E. assert (L2 : length ids = Z.to_nat (generation_ p))
    by (unfold ids; rewrite length_id_range; lia).
  rewrite <- L2. apply grown_untranslated in E; [exact E | exact K1|].
  rewrite Ea. unfold len in *. rewrite length_app, L2. unfold max_allowed_transients, INT32_MAX. lia.
Qed.

(** ** A dictionary with a proxy *)

Definition System : Type := StringDictionary * StringDictionaryProxy.

(** What can happen: an operation of the dictionary, by anyone, the serial and the parallel bulk
    additions included; new transient strings; the union with another proxy, by [transientUnion]
    and by [buildUnionTranslationMapToOtherProxy], with this one as the destination; setting the
    generation again.  The additions keep to the number of transient ids. *)
Inductive sys_step : System -> System -> Prop :=
| sys_dictionary d d' p : step false d d' -> sys_step (d, p) (d', p)
| sys_add d p str id p' :
    len (vec p) < max_allowed_transients -> getOrAddTransient d str p = (Ok id, p') -> sys_step (d, p) (d, p')
| sys_bulk d p strings schedule ids p' :
    len (vec p) + len strings <= max_allowed_transients ->
    getOrAddTransientBulk d strings schedule p = (Ok ids, p') -> sys_step (d, p) (d, p')
| sys_union d p rd rhs rstrs p' m :
    represents rd rstrs -> proxy_ok rhs -> generation_ok rhs rstrs ->
    len (vec p) + len (vec rhs) + generation_ rhs <= max_allowed_transients ->
    transientUnion d p rd rhs = Ok (p', m) -> sys_step (d, p) (d, p')
| sys_translation d p source_dict source sstrs schedules m p' :
    represents source_dict sstrs -> proxy_ok source -> generation_ok source sstrs ->
    len (vec p) + len (vec source) + generation_ source <= max_allowed_transients ->
    buildUnionTranslationMapToOtherProxy source_dict source d schedules p = (Ok m, p') ->
    sys_step (d, p) (d, p')
| sys_generation d p generation p' :
    updateGeneration generation p = (Ok tt, p') -> sys_step (d, p) (d, p').

Inductive sys_steps : System -> System -> Prop :=
| sys_refl s : sys_steps s s
| sys_next s1 s2 s3 : sys_steps s1 s2 -> sys_step s2 s3 -> sys_steps s1 s3.

Record sys_ok (s : System) (strs : list (list Z)) : Prop := {
  sy_alive : alive (fst s) strs;
  sy_proxy : proxy_ok (snd s);
  sy_generation : generation_ok (snd s) strs
}.

(** The strings of both only grow. *)
Definition sys_grown (s s' : System) (strs : list (list Z)) : Prop :=
  exists added trans, sys_ok s' (strs ++ added) /\ vec (snd s') = vec (snd s) ++ trans /\
    generation_ (snd s') = generation_ (snd s).

Lemma generation_ok_same p p' strs : same_view p p' -> generation_ok p strs -> generation_ok p' strs.
Proof. unfold generation_ok. now intros [_ ->]. Qed.

Lemma sys_grown_proxy n d p p' strs : sys_ok (d, p) strs -> grown n p p' -> sys_grown (d, p) (d, p') strs.
Proof.
  intros [A K G] [K' V (a & Ea & _)]. exists [], a. rewrite app_nil_r.
  split; [split; auto; now apply (generation_ok_same p) | split; [exact Ea | apply V]].
Qed.

Lemma sys_step_grown s s' strs : sys_ok s strs -> sys_step s s' -> sys_grown s s' strs.
Proof.
  intros Hok Hs. destruct Hs as [d d' p Hst|d p str id p' Hr E|d p strings schedule ids p' Hr E
                               |d p rd rhs rstrs p' m R Kr Gr Hr E|d p rd rhs rstrs schedules m p' R Kr Gr Hr E
                               |d p g p' E].
  - destruct Hok as [A K G]. destruct (step_alive _ _ _ A Hst) as [added A'].
    exists added, []. rewrite app_nil_r. split; [|auto]. split; auto.
    cbn in G |- *. unfold generation_ok, len in *. rewrite length_app. lia.
  - apply (sys_grown_proxy 1); [exact Hok|]. destruct Hok as [A K G]. cbn [fst snd] in *.
    pose proof (al_represents _ _ A) as R. unfold getOrAddTransient in E.
    apply bind_ok_inv in E as (sid & p1 & E1 & E). injection E1 as _ <-.
    destruct (negb (sid =? INVALID_STR_ID)); [injection E as _ <-; now apply grown_refl|].
    now apply (grown_unlocked p str id).
  - apply (sys_grown_proxy (length strings)); [exact Hok|]. destruct Hok as [A K G].
    now apply (grown_bulk d strings schedule p ids).
  - destruct Hok as [A K G]. cbn [fst snd] in *. pose proof (al_represents _ _ A) as R'.
    destruct (transientUnion_spec d strs rd rstrs p rhs K Kr Gr Hr) as (p1 & m1 & E1 & K1 & V & (a & Ea) & _).
    rewrite E1 in E. injection E as <- _. exists [], a. rewrite app_nil_r.
    split; [split; auto; now apply (generation_ok_same p) | split; [exact Ea | apply V]].
  - apply (sys_grown_proxy (length (vec rhs) + Z.to_nat (generation_ rhs))); [exact Hok|].
    destruct Hok as [A K G], Gr as [Hg Hm]. pose proof (rp_max _ _ R).
    apply (grown_translation rd rhs d schedules p m); auto; lia.
  - apply (sys_grown_proxy 0); [exact Hok|]. destruct Hok as [A K [Hg _]]. cbn [fst snd] in *.
    unfold updateGeneration in E. destruct (g =? -1); [injection E as <-; now apply grown_refl|].
    apply bind_ok_inv in E as (old & p1 & E1 & E). injection E1 as <- <-.
    destruct (Z.eqb_spec (generation_ p) (-1)); [lia|]. cbn [negb] in E.
    destruct (_ =? g); [injection E as <-; now apply grown_refl | discriminate].
Qed.

Lemma sys_steps_grown s s' : sys_steps s s' -> forall strs, sys_ok s strs -> sys_grown s s' strs.
Proof.
  induction 1 as [s|s1 s2 s3 Hs IH Hst]; intros strs Hok.
  { exists [], []. rewrite !app_nil_r. auto. }
  destruct (IH strs Hok) as (a1 & t1 & Ok1 & E1 & G1).
  destruct (sys_step_grown s2 s3 _ Ok1 Hst) as (a2 & t2 & Ok2 & E2 & G2).
  exists (a1 ++ a2), (t1 ++ t2). rewrite !app_assoc. rewrite <- E1. split; [exact Ok2|]. split; congruence.
Qed.

(** An id that a proxy has given out. *)
Lemma proxy_id_grows strs added trans trans' g str :
  g <= len strs -> proxy_id strs g trans str <> INVALID_STR_ID ->
  proxy_id (strs ++ added) g (trans ++ trans') str = proxy_id strs g trans str.
Proof.
  intros Hg. unfold proxy_id. rewrite found_id_app by exact Hg.
  destruct (found_id strs g str =? INVALID_STR_ID); [|reflexivity]. intros Hn.
  apply transient_id_app. destruct (decide (str ∈ trans)); [assumption|]. destruct Hn.
  now apply transient_id_absent.
Qed.

(** ** Queries *)

Lemma transient_matches_spec p q id :
  proxy_ok p -> id ∈ transient_matches p q <->
  exists i str, id = -2 - Z.of_nat i /\ vec p !! i = Some str /\ q str = true.
Proof.
  intros K. pose proof (pk_room p K) as Hr. unfold transient_matches. rewrite list_elem_of_omap. split.
  - intros (i & Hi%elem_of_seq & E). destruct (lookup_lt_is_Some_2 (vec p) i ltac:(lia)) as [str Hs].
    rewrite (nth_lookup_Some _ _ _ _ Hs) in E. destruct (q str) eqn:Eq; [|discriminate].
    injection E as <-. exists i, str. rewrite transientIndexToId_small by (unfold len in Hr; lia). auto.
  - intros (i & str & -> & Hs & Eq). apply lookup_lt_Some in Hs as Hl. exists i. split; [apply elem_of_seq; lia|].
    rewrite (nth_lookup_Some _ _ _ _ Hs), Eq. f_equal. apply transientIndexToId_small. unfold len in Hr. lia.
Qed.

(** A LIKE query that is not in the cache finds exactly the matching strings of the view. *)
Lemma Proxy_getLike_spec d strs p pattern icase is_simple escape :
  represents d strs -> scan_caches_ok d strs -> proxy_ok p -> generation_ok p strs ->
  like_cache_ d !! (pattern, icase, is_simple, escape) = None ->
  exists ids d', Proxy_getLike p pattern icase is_simple escape d = (Ok ids, d') /\ represents d' strs /\
    forall id, id ∈ ids <->
      selected strs (fun str => is_like str pattern icase is_simple escape) (generation_ p) id \/
      exists i str, id = -2 - Z.of_nat i /\ vec p !! i = Some str /\
        is_like str pattern icase is_simple escape = true.
Proof.
  intros R C K [Hg Hm] Hc.
  destruct (getLike_fresh d strs pattern icase is_simple escape (generation_ p) R C ltac:(lia) Hc)
    as (ids & d' & E & [Hn Hids] & R' & C' & _).
  unfold Proxy_getLike. destruct (Z.leb_spec 0 (generation_ p)); [|lia]. cbn [negb].
  rewrite (bind_ok _ _ _ _ _ E). eexists _, d'. split; [reflexivity|]. split; [exact R'|].
  intros id. rewrite elem_of_app, Hids, transient_matches_spec by exact K. reflexivity.
Qed.

End Env.

(** ** Locks *)

(** The mutex that a lock of a translation takes, by the id of its dictionary. *)
Definition lock_of (source_dict_id dest_dict_id : Z) (l : ProxyLock) : Z :=
  match l with SourceRead => source_dict_id | DestWrite => dest_dict_id end.

Definition lock_sequence (source_dict_id dest_dict_id : Z) : list Z :=
  map (lock_of source_dict_id dest_dict_id) (order_translation_locks source_dict_id dest_dict_id).

(** A thread in the middle of taking the locks of a translation: those it has, and the one it
    waits for. *)
Definition waits (source dest : Z) (held : list Z) (next : Z) : Prop :=
  exists rest, lock_sequence source dest = held ++ next :: rest.

Lemma waits_above source dest held next l : waits source dest held next -> l ∈ held -> l < next.
Proof.
  unfold waits, lock_sequence, order_translation_locks. intros [rest E] Hin.
  destruct (Z.eqb_spec source dest); [|destruct (Z.ltb_spec source dest)]; cbn in E;
    (destruct held as [|h held]; [now apply elem_of_nil in Hin|]; injection E as <- E;
     destruct held as [|h' held]; [|destruct held; discriminate || (injection E as <- E; now destruct held)]);
    try discriminate; injection E as <- _; apply list_elem_of_singleton in Hin; lia.
Qed.

(** A thread that waits for a lock of its translation. *)
Record Waiting := mkWaiting {
  w_source : Z;
  w_dest : Z;
  w_held : list Z;
  w_next : Z
}.

Definition is_waiting (t : Waiting) : Prop := waits (w_source t) (w_dest t) (w_held t) (w_next t).

Lemma max_next (ts : list Waiting) :
  ts <> [] -> exists t, t ∈ ts /\ forall t', t' ∈ ts -> w_next t' <= w_next t.
Proof.
  induction ts as [|t ts IH]; [easy|]. intros _. destruct (decide (ts = [])) as [->|Hne].
  { exists t. split; [set_solver|]. intros t' ->%list_elem_of_singleton. lia. }
  destruct (IH Hne) as (m & Hm & Hmax). destruct (Z_le_gt_dec (w_next t) (w_next m)).
  - exists m. split; [set_solver|]. intros t' [->|Ht]%elem_of_cons; [lia | auto].
  - exists t. split; [set_solver|]. intros t' [->|Ht]%elem_of_cons; [lia|]. specialize (Hmax t' Ht). lia.
Qed.

Lemma no_cycle ts :
  ts <> [] -> (forall t, t ∈ ts -> is_waiting t) ->
  exists t, t ∈ ts /\ forall t', t' ∈ ts -> w_next t ∉ w_held t'.
Proof.
  intros Hne Hw. destruct (max_next ts Hne) as (t & Ht & Hmax). exists t. split; [exact Ht|].
  intros t' Ht' Hin. pose proof (waits_above _ _ _ _ _ (Hw t' Ht') Hin). specialize (Hmax t' Ht'). lia.
Qed.
