(* ===== verification/ProxyProps.v ===== *)
(** * The properties of string dictionary proxies *)

From Stdlib Require Import ZArith Lia List Bool.
From stdpp Require Import base list numbers sets gmap.
From S2P Require Import Prelude StateMonad StringLike DictStorage StringDictionary DictFacts DictOps DictQueries DictQueryFacts DictBulkFacts DictLife DictProps.
From S2P Require Import StringDictionaryProxy DictInterface ProxyFacts ProxyUnion ProxyTranslate ProxyMerge ProxyLife.
Import ListNotations.
Local Open Scope Z_scope.

#[local] Abbreviation vec := transient_string_vec_.

(** Nothing to translate. *)
Lemma union_empty `{DictEnv} d dd p q schedules :
  proxy_ok p -> vec p = [] -> generation_ p = 0 ->
  buildUnionTranslationMapToOtherProxy d p dd schedules q = (Ok (initIdMap p), q).
Proof.
  intros K Ev Eg. unfold buildUnionTranslationMapToOtherProxy, bind at 1,
    buildIntersectionTranslationMapToOtherProxyUnlocked.
  assert (Ei : IdMap_empty (initIdMap p) = true).
  { rewrite (initIdMap_spec p 0); [| apply (pk_room p K) | exact Eg | unfold MAX_STRCOUNT; lia].
    now rewrite Ev. }
  now rewrite !Ei.
Qed.

Section Properties.

Context `{DictEnvOk}.

(** [getOrAddTransient] implements a view of a dictionary, the strings it had at the
    generation of the proxy and a list of transient strings: a string of the view keeps its id,
    another one becomes the next transient string; either way the id denotes the string, looking
    it up gives the id, and no string of the view changes its id. *)
Theorem getOrAddTransient_refines (d : StringDictionary) (strs : list (list Z))
    (p : StringDictionaryProxy) (str : list Z) :
  represents d strs -> proxy_ok p -> generation_ok p strs -> len (vec p) < max_allowed_transients ->
  exists id p', getOrAddTransient d str p = (Ok id, p') /\ proxy_ok p' /\ same_view p p' /\
    vec p' = (if found_id strs (generation_ p) str =? INVALID_STR_ID
              then add_transient (vec p) str else vec p) /\
    id = proxy_id strs (generation_ p) (vec p') str /\
    Proxy_getString d p' id = Ok str /\ Proxy_getIdOfString d p' str = Ok id /\
    forall other v, Proxy_getIdOfString d p other = Ok v -> v <> INVALID_STR_ID ->
      Proxy_getIdOfString d p' other = Ok v.
Proof.
  intros R K G Hr. destruct (getOrAddTransient_spec d strs p str K G Hr) as (p' & E & K' & V & Ev).
  pose proof (generation_ok_same p p' strs V G) as G'. destruct V as [Vd Vg].
  exists (proxy_id strs (generation_ p) (vec p') str), p'.
  assert (Hid : proxy_id strs (generation_ p') (vec p') str <> INVALID_STR_ID).
  { rewrite Vg. unfold proxy_id. destruct (Z.eqb_spec (found_id strs (generation_ p) str) INVALID_STR_ID); [|assumption].
    rewrite Ev, transient_id_absent. intros Hn. destruct Hn. apply add_transient_in. }
  split_and!; auto; [now split | rewrite <- Vg; now apply (proxy_id_string d strs) |
    rewrite (Proxy_getIdOfString_spec d strs) by assumption; now rewrite Vg |].
  intros other v. rewrite !(Proxy_getIdOfString_spec d strs) by assumption. rewrite Vg. intros [= <-] Hn. f_equal.
  assert (Ha : exists a, vec p' = vec p ++ a).
  { rewrite Ev. destruct (_ =? _); [destruct (add_transient_grows (vec p) str) as (a & -> & _); eauto|].
    exists []. now rewrite app_nil_r. }
  destruct Ha as [a Ea]. rewrite Ea. pose proof (proxy_id_grows strs [] (vec p) a (generation_ p) other) as Hg.
  rewrite app_nil_r in Hg. apply Hg; [apply G | exact Hn].
Qed.

(** [C34] Whatever is done to a dictionary and to a proxy on it that has a generation (0 or more and at
    most the number of strings), in whatever order (single and bulk
    additions to the dictionary, the parallel ones included where they succeed into a dictionary
    that has a string; queries of it; transient strings, one or many; [transientUnion] and
    [buildUnionTranslationMapToOtherProxy] into the proxy; [updateGeneration]), as long as the
    transient strings keep within their number of ids and no CHECK fails, the proxy keeps the ids it
    has given out and what they denote; and a string that is added to the dictionary after the
    generation of the proxy stays invisible to it. *)
Theorem proxy_snapshot (s s' : System) (strs : list (list Z)) :
  sys_ok s strs -> sys_steps s s' ->
  (exists strs', sys_ok s' strs') /\
  (forall str id, Proxy_getIdOfString (fst s) (snd s) str = Ok id -> id <> INVALID_STR_ID ->
     Proxy_getIdOfString (fst s') (snd s') str = Ok id /\ Proxy_getString (fst s') (snd s') id = Ok str) /\
  (forall str, Proxy_getIdOfString (fst s) (snd s) str = Ok INVALID_STR_ID ->
     exists v, Proxy_getIdOfString (fst s') (snd s') str = Ok v /\ v < 0).
Proof.
  intros Hok Hs. destruct (sys_steps_grown s s' Hs strs Hok) as (a & t & Hok' & Ev & Eg).
  destruct Hok as [A K G], Hok' as [A' K' G']. split; [exists (strs ++ a); now split|].
  pose proof (al_represents _ _ A) as R. pose proof (al_represents _ _ A') as R'.
  pose proof G as [_ Hm]. split; intros str.
  - intros id. rewrite !(Proxy_getIdOfString_spec _ strs), (Proxy_getIdOfString_spec _ (strs ++ a)) by assumption.
    intros [= <-] Hn. rewrite Ev, Eg, proxy_id_grows by assumption. split; [reflexivity|].
    rewrite <- (proxy_id_grows strs a (vec (snd s)) t (generation_ (snd s)) str Hm Hn), <- Ev, <- Eg.
    apply (proxy_id_string _ (strs ++ a)); [exact K' | exact G' |]. now rewrite Ev, Eg, proxy_id_grows.
  - rewrite !(Proxy_getIdOfString_spec _ strs), (Proxy_getIdOfString_spec _ (strs ++ a)) by assumption.
    intros [= Hn]. eexists. split; [reflexivity|]. unfold proxy_id in *. rewrite Eg, found_id_app by exact Hm.
    destruct (Z.eqb_spec (found_id strs (generation_ (snd s)) str) INVALID_STR_ID) as [_|N]; [|easy].
    unfold INVALID_STR_ID. destruct (transient_id_cases (vec (snd s')) str) as [[-> _]|(i & -> & _)];
      unfold INVALID_STR_ID; lia.
Qed.

(** [C33] The union of two proxies by translation: every string of the source, transient or of
    its dictionary, has an id in the map, which denotes the string in the destination and, for
    strings other than the empty one, is the id that the destination gives it; for proxies with a
    generation (0 or more and at most the number of strings) on two different dictionaries, a
    destination with a transient string already, source strings within
    the maximal length, schedules in which no thread runs two pieces, and enough transient ids
    left. *)
Theorem union_translation_exact (d dd : StringDictionary) (sstrs dstrs : list (list Z))
    (p q : StringDictionaryProxy) (schedules : TranslationSchedules) :
  represents d sstrs -> represents dd dstrs -> dict_ref_ d <> dict_ref_ dd ->
  proxy_ok p -> proxy_ok q -> generation_ok p sstrs -> generation_ok q dstrs -> vec q <> [] ->
  (forall str, str ∈ vec p -> len str <= MAX_STRLEN) ->
  schedules_ok (len (vec p)) (bulk_schedule schedules) (lookup_schedule schedules) ->
  covers (Z.to_nat (generation_ p))
    (num_threads (make_ThreadInfo hardware_concurrency (generation_ p) 1000)) (map_schedule schedules) ->
  len (vec q) + len (vec p) + generation_ p <= max_allowed_transients ->
  exists q' m added, buildUnionTranslationMapToOtherProxy d p dd schedules q = (Ok m, q') /\
    proxy_ok q' /\ same_view q q' /\ vec q' = vec q ++ added /\
    id_at m INVALID_STR_ID = Ok INVALID_STR_ID /\
    forall str id, (str, id) ∈ strings_of sstrs p ->
      exists id', id_at m id = Ok id' /\ Proxy_getString dd q' id' = Ok str /\
        (str <> [] -> Proxy_getIdOfString dd q' str = Ok id').
Proof.
  intros R Rd Hne Kp Kq Gp Gq Hv Hshort Hsch Hmap Hroom.
  assert (Ht : translatable d dd sstrs dstrs p q schedules)
    by (split; auto using represents_translate).
  destruct (decide (0 < len (vec p) + generation_ p)) as [Hpos|Hz].
  - destruct (union_nonempty d dd sstrs dstrs p q schedules Ht Hv Hroom Hpos) as (q' & m & E & [K' V (a & Ea) Hat Hinv]).
    exists q', m, a. split_and!; auto. intros str id Hs. destruct (Hat str id Hs) as [Hi Hn].
    eexists. split; [exact Hi|]. pose proof (generation_ok_same q q' dstrs V Gq) as G'.
    destruct V as [_ Vg]. rewrite <- Vg in Hn |- *. now apply (view_id_denotes dd dstrs).
  - destruct Gp as [Hg Hm]. pose proof (len_nonneg (vec p)).
    assert (Ev : vec p = []) by (destruct (vec p); [reflexivity | unfold len in *; cbn in *; lia]).
    assert (Eg : generation_ p = 0) by lia. exists q, (initIdMap p), [].
    rewrite (union_empty d dd p q schedules Kp Ev Eg), app_nil_r. split_and!; auto; [now split | |].
    + rewrite (initIdMap_spec p 0); [| apply (pk_room p Kp) | exact Eg | unfold MAX_STRCOUNT; lia].
      rewrite Ev. reflexivity.
    + unfold strings_of. rewrite Ev, Eg. intros str id []%elem_of_nil.
Qed.

(** The union by [transientUnion]: every string of the other proxy, transient or of its
    dictionary, has an id in the map, which denotes the string in the proxy that took it, found
    in the dictionary where it is there and else transient. *)
Theorem transientUnion_exact (d rd : StringDictionary) (strs rstrs : list (list Z))
    (p rhs : StringDictionaryProxy) :
  represents d strs -> represents rd rstrs -> proxy_ok p -> proxy_ok rhs ->
  0 < generation_ p <= len strs -> generation_ok rhs rstrs ->
  len (vec p) + len (vec rhs) + generation_ rhs <= max_allowed_transients ->
  exists p' m added, transientUnion d p rd rhs = Ok (p', m) /\
    proxy_ok p' /\ same_view p p' /\ vec p' = vec p ++ added /\
    id_at m INVALID_STR_ID = Ok INVALID_STR_ID /\
    forall str id, (str, id) ∈ strings_of rstrs rhs ->
      exists id', id_at m id = Ok id' /\ Proxy_getString d p' id' = Ok str /\
        (str ∈ strs -> id' = find_id strs str).
Proof.
  intros R Rr K Kr [Hg Hm] Gr Hroom.
  destruct (transientUnion_spec d strs rd rstrs p rhs K Kr Gr Hroom)
    as (p' & m & E & K' & V & (a & Ea) & Hat & Hinv).
  exists p', m, a. split_and!; auto. intros str id Hs. destruct (Hat str id Hs) as [Hu Hi].
  eexists. split; [exact Hi|]. destruct V as [_ Vg]. split.
  - apply (union_id_string d strs); [exact K' | right; rewrite Vg; lia | rewrite Vg; lia | exact Hu].
  - intros Hin. unfold union_id. destruct (find_id_cases strs str) as [[_ N]|(i & -> & _)]; [easy|].
    unfold INVALID_STR_ID. destruct (Z.eqb_spec (Z.of_nat i) (-1)); [lia | reflexivity].
Qed.

End Properties.

(** [C38] Translations do not wait for each other in a circle: among threads in the middle of
    taking the locks of their translations, one waits for a lock that none of them holds. *)
Theorem translation_locks_no_deadlock (ts : list Waiting) :
  ts <> [] -> (forall t, t ∈ ts -> is_waiting t) ->
  exists t, t ∈ ts /\ forall t', t' ∈ ts -> w_next t ∉ w_held t'.
Proof. apply no_cycle. Qed.

(** ** Two proxies

    On the dictionaries of [DictProps], with the strings [b], [d] and [d]; the proxies have the
    transient strings [a] and [c]. *)

#[local] Existing Instance demo_env.
#[local] Existing Instance demo_env_ok.

Definition with_transient (str : list Z) (p : StringDictionaryProxy) : StringDictionaryProxy :=
  snd (getOrAddTransientUnlocked str p).

Definition left_proxy : StringDictionaryProxy := with_transient str_a (new_proxy 1 2).
Definition right_proxy : StringDictionaryProxy := with_transient str_c (new_proxy 2 1).

Lemma with_transient_ok str id g : proxy_ok (with_transient str (new_proxy id g)).
Proof.
  destruct (getOrAddTransientUnlocked_spec (new_proxy id g) str (new_proxy_ok id g)) as (p' & E & K & _);
    [left; reflexivity|].
  unfold with_transient. now rewrite E.
Qed.

Lemma left_ok : proxy_ok left_proxy.
Proof. apply with_transient_ok. Qed.
Lemma right_ok : proxy_ok right_proxy.
Proof. apply with_transient_ok. Qed.

Definition demo_schedules : TranslationSchedules :=
  mkSchedules [(0%nat, (0%nat, 1%nat))] [] [(0%nat, (0%nat, 2%nat))].

Lemma one_piece n threads : (0 < Z.to_nat threads)%nat -> covers n threads [(0%nat, (0%nat, n))].
Proof.
  intros Ht. split; [cbn; now rewrite app_nil_r, Nat.sub_0_r|].
  intros t f l [= -> -> ->]%list_elem_of_singleton. lia.
Qed.

(** ** Witnesses *)

Lemma getOrAddTransient_refines_witness :
  exists id p', getOrAddTransient demo str_c left_proxy = (Ok id, p') /\ proxy_ok p' /\
    same_view left_proxy p' /\ vec p' = [str_a; str_c] /\
    id = proxy_id [str_b; str_d] 2 (vec p') str_c /\
    Proxy_getString demo p' id = Ok str_c /\ Proxy_getIdOfString demo p' str_c = Ok id /\
    forall other v, Proxy_getIdOfString demo left_proxy other = Ok v -> v <> INVALID_STR_ID ->
      Proxy_getIdOfString demo p' other = Ok v.
Proof.
  apply (getOrAddTransient_refines demo [str_b; str_d] left_proxy str_c demo_represents left_ok);
    [vm_compute; split; discriminate | reflexivity].
Defined.

(** The string [c] is added to the dictionary; then the strings of the other proxy, [c] and [d],
    are translated into this one. *)
Definition sys_before : System := (demo, left_proxy).
Definition dict_after : StringDictionary := after (exec (DGetOrAdd str_c)) demo.
Definition demo_translation : TranslationSchedules := mkSchedules [(0%nat, (0%nat, 1%nat))] [] [(0%nat, (0%nat, 1%nat))].
Definition sys_between : System := (dict_after, left_proxy).
Definition sys_after : System :=
  (dict_after, snd (buildUnionTranslationMapToOtherProxy other right_proxy dict_after demo_translation left_proxy)).

Lemma translated_step d p source_dict source sstrs schedules :
  represents source_dict sstrs -> proxy_ok source -> generation_ok source sstrs ->
  len (vec p) + len (vec source) + generation_ source <= max_allowed_transients ->
  match fst (buildUnionTranslationMapToOtherProxy source_dict source d schedules p) with Ok _ => True | Err _ => False end ->
  sys_step (d, p) (d, snd (buildUnionTranslationMapToOtherProxy source_dict source d schedules p)).
Proof.
  intros R K G Hr. destruct (buildUnionTranslationMapToOtherProxy source_dict source d schedules p) as [[m|e] p'] eqn:E;
    [intros _ | easy].
  exact (sys_translation d p source_dict source sstrs schedules m p' R K G Hr E).
Qed.

Lemma sys_translated : sys_step sys_between sys_after.
Proof.
  refine (translated_step dict_after left_proxy other right_proxy [str_d] demo_translation
            other_represents right_ok _ _ _).
  - vm_compute. split; discriminate.
  - vm_compute. discriminate.
  - vm_compute. exact I.
Qed.

Lemma proxy_snapshot_witness :
  (exists strs', sys_ok sys_after strs') /\
  (forall str id, Proxy_getIdOfString (fst sys_before) (snd sys_before) str = Ok id -> id <> INVALID_STR_ID ->
     Proxy_getIdOfString (fst sys_after) (snd sys_after) str = Ok id /\
     Proxy_getString (fst sys_after) (snd sys_after) id = Ok str) /\
  (forall str, Proxy_getIdOfString (fst sys_before) (snd sys_before) str = Ok INVALID_STR_ID ->
     exists v, Proxy_getIdOfString (fst sys_after) (snd sys_after) str = Ok v /\ v < 0).
Proof.
  apply (proxy_snapshot sys_before sys_after [str_b; str_d]).
  - split; [exact demo_alive | exact left_ok | vm_compute; split; discriminate].
  - apply sys_next with sys_between; [apply sys_next with sys_before; [apply sys_refl|] | exact sys_translated].
    apply sys_dictionary, step_after; [exact I | exact I | vm_compute; reflexivity].
Defined.

Lemma union_translation_exact_witness :
  exists q' m added,
    buildUnionTranslationMapToOtherProxy demo left_proxy other demo_schedules right_proxy = (Ok m, q') /\
    proxy_ok q' /\ same_view right_proxy q' /\ vec q' = [str_c] ++ added /\
    id_at m INVALID_STR_ID = Ok INVALID_STR_ID /\
    forall str id, (str, id) ∈ strings_of [str_b; str_d] left_proxy ->
      exists id', id_at m id = Ok id' /\ Proxy_getString other q' id' = Ok str /\
        (str <> [] -> Proxy_getIdOfString other q' str = Ok id').
Proof.
  apply (union_translation_exact demo other [str_b; str_d] [str_d] left_proxy right_proxy demo_schedules
           demo_represents other_represents ltac:(vm_compute; discriminate) left_ok right_ok).
  - vm_compute. split; discriminate.
  - vm_compute. split; discriminate.
  - discriminate.
  - intros str ->%list_elem_of_singleton. vm_compute. discriminate.
  - split; [apply one_piece; vm_compute; lia | apply NoDup_singleton | intros Hn; now destruct Hn |
            intros Hn; now destruct Hn].
  - apply one_piece. vm_compute. lia.
  - vm_compute. discriminate.
Defined.

Lemma transientUnion_exact_witness :
  exists p' m added, transientUnion demo left_proxy other right_proxy = Ok (p', m) /\
    proxy_ok p' /\ same_view left_proxy p' /\ vec p' = [str_a] ++ added /\
    id_at m INVALID_STR_ID = Ok INVALID_STR_ID /\
    forall str id, (str, id) ∈ strings_of [str_d] right_proxy ->
      exists id', id_at m id = Ok id' /\ Proxy_getString demo p' id' = Ok str /\
        (str ∈ [str_b; str_d] -> id' = find_id [str_b; str_d] str).
Proof.
  apply (transientUnion_exact demo other [str_b; str_d] [str_d] left_proxy right_proxy
           demo_represents other_represents left_ok right_ok).
  - vm_compute. split; [reflexivity | discriminate].
  - vm_compute. split; discriminate.
  - vm_compute. discriminate.
Defined.

Lemma translation_locks_no_deadlock_witness :
  exists t, t ∈ [mkWaiting 1 2 [1] 2; mkWaiting 2 1 [] 1] /\
    forall t', t' ∈ [mkWaiting 1 2 [1] 2; mkWaiting 2 1 [] 1] -> w_next t ∉ w_held t'.
Proof.
  apply (translation_locks_no_deadlock [mkWaiting 1 2 [1] 2; mkWaiting 2 1 [] 1]); [discriminate|].
  intros t [->|[->|[]%not_elem_of_nil]%elem_of_cons]%elem_of_cons; eexists; reflexivity.
Defined.

(** ** Edges *)

(** Without a transient string in the destination the lookup of the transient strings reports
    none as missing: nothing is added, and the transient string [a] of the source has no
    translation. *)
Example union_without_transients :
  let '(r, q') := buildUnionTranslationMapToOtherProxy other
                    (with_transient str_a (new_proxy 2 1)) demo
                    (mkSchedules [(0%nat, (0%nat, 1%nat))] [] [(0%nat, (0%nat, 1%nat))]) (new_proxy 1 2) in
  match r with
  | Ok m => id_at m (-2) = Ok INVALID_STR_ID /\ vec q' = []
  | Err _ => False
  end.
Proof. vm_compute. auto. Qed.

(** [transientUnion] does not look at the generation: an id of the map can denote a string
    that the proxy does not show. *)
Example union_beyond_generation :
  match transientUnion demo (new_proxy 1 1) other (new_proxy 2 1) with
  | Ok (p', m) =>
      id_at m 0 = Ok 1 /\ Proxy_getIdOfString demo p' str_d = Ok INVALID_STR_ID
  | Err _ => False
  end.
Proof. vm_compute. auto. Qed.

(** The empty string is a transient string for [getOrAddTransient], and null for the bulk
    operation. *)
Example empty_string_ids :
  fst (getOrAddTransient demo [] (new_proxy 1 2)) = Ok (-2) /\
  fst (getOrAddTransientBulk demo [[]] [(0%nat, (0%nat, 1%nat))] (new_proxy 1 2)) = Ok [INT32_MIN].
Proof. vm_compute. auto. Qed.

(** When a thread runs two pieces of a bulk lookup its number of strings not found can be
    lost, and the strings are not added. *)
Example bulk_leaves_invalid :
  let '(r, p') := getOrAddTransientBulk demo [str_a; str_b]
                    [(0%nat, (0%nat, 1%nat)); (0%nat, (1%nat, 2%nat))] (new_proxy 1 2) in
  r = Ok [INVALID_STR_ID; 0] /\ vec p' = [].
Proof. vm_compute. auto. Qed.

(** At generation 0 the translation of stored strings does not look at the transient strings
    of the destination. *)
Example intersection_generation_zero :
  match buildIntersectionTranslationMapToOtherProxyUnlocked other (new_proxy 2 1) demo
          (with_transient str_d (new_proxy 1 0)) (mkSchedules [] [] [(0%nat, (0%nat, 1%nat))]) with
  | Ok m => id_at m 0 = Ok INVALID_STR_ID
  | Err _ => False
  end.
Proof. vm_compute. reflexivity. Qed.
